(* ===== verification/_CoqProject ===== *)
-Q . S2P
Prelude.v
Port.v
Counter.v
Boundary.v
Content.v
Queue.v
Locks.v
Tree.v
MemFs.v
Invariant.v
Walk.v
Preserve.v
Calls.v
Spell.v
FileSystem.v
Front.v
FilesApi.v
Asked.v
Served.v
Group.v
Console.v
Machine.v
Net.v
Native.v
Children.v
Watching.v
Faults.v
Notifications.v
Adapters.v
Absent.v
Negotiate.v
Slot.v
Groups.v
Arena.v
Ledger.v
Extents.v
Pages.v
Memory.v
Allocator.v
Heap.v
Threads.v
Objects.v
Monitors.v
StdCommon.v
Board.v
Host.v
Standalone.v
LinuxText.v
LinuxPlatform.v
LinuxImage.v
LinuxStd.v
Libc.v
LinuxSockets.v
LinuxSpawn.v
LinuxChildren.v
LinuxMemory.v
LinuxMutex.v
LinuxEvents.v
LinuxKernel.v
LinuxServices.v
LinuxSignals.v
LinuxWatches.v
LinuxNotifications.v
LinuxFiles.v
LinuxVolumes.v
LinuxFacts.v
LinuxNetwork.v
LinuxPriority.v
LinuxLocal.v
LinuxMappings.v
