(* ===== verification/Prelude.v ===== *)
(** * A verification of the .NET platform abstraction layer (dotnet-pal-rs)

    The program is a boundary between a .NET runtime, which calls a table of C functions, and a platform port, which
    implements Rust traits.  The core crate [src/src] checks the arguments of every C call, asks the provider, checks its
    answer and counts the outcome; it never trusts a provider's answer.  The crates around it are ports and providers;
    the largest with logic of its own is the in-memory file system, [src/crates/dotnet-pal-memfs].

    ** The parts and the files that model them

    - [Prelude]: machine integers ([Arch] gives the width of [usize]), checked and saturating arithmetic, lists indexed by
      [Z], the state-and-error monad [M], and the tactics of the development.  This file.
    - [Port] ([port.rs]): [Error] and its status codes, the memory traits.  [Counter] ([counter.rs]): the saturating
      counter, also as interleaved atomic accesses.
    - [Boundary] ([lib.rs]): geometry, the virtual-memory and linear-storage calls.
    - The in-memory file system ([dotnet-pal-memfs/src/lib.rs]): [Content] (the bytes of a file, in a vector or in pinned
      pages), [Queue] (the byte queue of a watcher), [Locks] ([State::relock]), [Tree] (nodes, [State::walk], [State::spell]),
      [MemFs] (every operation on the state), [Invariant], [Walk], [Preserve], [Calls] and [Spell] (the invariant, the
      walk, that the operations keep the invariant, paths that lead back), [FileSystem] (the theorems) and [Watching]
      (the waiting read, with the front end of the group).
    - The C front ends: [Front] ([io.rs] and the state that every group has), [FilesApi] ([files.rs]), [Asked]
      (what the front end lets through to a provider), [Served] (the front end over the in-memory file system), [Group] (the layout that the other groups share and the interface
      [ServiceGroup]), [Console] ([streams.rs], [terminal.rs], [services.rs], [priority.rs], [process.rs]), [Machine]
      ([topology.rs], [system.rs], [volumes.rs], [accounts.rs], [image.rs]), [Net] ([sockets.rs], [local_sockets.rs],
      [packets.rs], [network.rs]), [Native] ([kernel.rs], [runtime.rs], [support.rs], [mappings.rs]), [Children]
      ([processes.rs], [spawn_as.rs]), [Watching] ([watches.rs]), [Adapters] ([context.rs], [wasi.rs]).
    - What the port reports: [Faults] ([faults.rs]) and [Notifications] ([notifications.rs]).
    - The table: [Absent] (the provider of nothing, [port.rs]), [Negotiate] ([lib.rs], [build]), [Slot] ([lib.rs],
      [negotiate]) and [Groups] (what holds of all groups together).
    - Storage ([dotnet-pal-storage/src/lib.rs]): [Arena] and [Ledger].
    - The bare-metal AArch64 port ([examples/baremetal-aarch64/src]): [Extents] (the free list of RAM, [memory.rs]), [Pages]
      (page descriptors and cache maintenance, [memory/pages.rs]), [Memory] (the region and the pages together, the
      providers of virtual memory and mappings), [Heap] (the native heap and the global allocator, [memory.rs]), [Threads]
      ([thread.rs], [tls.rs]), [Objects] ([objects.rs], [clock.rs], [block_until]) and [Board] ([uart.rs], [exit.rs],
      [fault.rs], [platform.rs] and the constructor loop of [lib.rs]).
    - [Allocator]: the contract of [port::NativeHeap] as a class, which [Heap] and [StdCommon] implement and whose
      clients are proved against it.
    - What the standard-library ports share ([dotnet-pal-std-common/src/lib.rs]): [Monitors] (events, mutexes and
      reader/writer locks on a mutex and a condition variable) and [StdCommon] (heap, thread-local slots, environment,
      diagnostics).
    - The host adapter ([dotnet-pal-host/src/lib.rs]): [Host] (the embedder's tables, their validation, every provider on
      its callbacks) and [Standalone] ([tools/dotnet-pal-standalone/src/lib.rs]: the port made of them).
    - The Linux port ([dotnet-pal-linux/src]): [Libc] (error numbers, how a system call is asked, [status] of [linux.rs]).
      [linux.rs]: [LinuxMemory] (virtual memory and mappings), [LinuxMutex] and [LinuxEvents] (the mutex by accesses, the
      event by critical sections), [LinuxKernel] (creation and destruction of every kernel object), [LinuxServices] (time,
      scheduling, entropy, environment, modules, heap, the process barrier) and [LinuxSignals] (the module [context]).
      [linux_platform.rs]: [LinuxText] (files and lines), [LinuxPlatform] (cgroups, topology) and [LinuxImage] (unwind tables,
      build ids, streams, crash dumps).  [linux_sockets.rs]: [LinuxSockets].  [linux_processes.rs]: [LinuxSpawn] (up to the new
      program) and [LinuxChildren] (what is done with a child and its pipes).  [linux_watches.rs]: [LinuxWatches].
      [linux_notifications.rs]: [LinuxNotifications], under the front end of [Notifications].  [linux_files.rs]: [LinuxFiles].
      [linux_volumes.rs]: [LinuxVolumes].  [linux_system.rs], [linux_accounts.rs] and [linux_terminal.rs]: the modules of
      [LinuxFacts].  [linux_network.rs]: [LinuxNetwork], [linux_local_sockets.rs] and [linux_packets.rs]: [LinuxLocal], all
      three on the handles of [LinuxSockets].  [linux_priority.rs]: [LinuxPriority].  [linux_mappings.rs]: [LinuxMappings], on those
      of [LinuxFiles].
    - The Linux port with the standard library ([dotnet-pal-linux-std/src/system.rs]): [LinuxStd], compared with the other one.

    ** How the code is translated

    A Rust function becomes a Rocq function of the same name.  The state that it shares (statics under a lock, a
    provider's own state) is passed explicitly; [Result] is [result], [?] is [bind].  Integers are [Z] with the width
    written out where it matters; a pointer is an address, and the caller's memory is a map from addresses to the
    words that lie there.  A provider trait is a class over the provider's state, and the front ends are proved for
    every instance.  Where threads interleave (the counter, the faults, the negotiation) the model is a step relation
    on the shared words with one step per atomic access; elsewhere the code holds a lock during the call, which makes
    the call one step.  The bare-metal port runs on one core and switches only where it blocks: a blocking call is its
    part before the wait, the test that each turn makes, and its part after ([Objects.step]).  A monitor of the standard
    library is a step per critical section, with sleepers, notifications and spurious wake-ups ([Monitors]).  A panic is
    [None]; the theorems about code that can panic show that it does not.  A provider of the Linux port is a [Call]: it returns
    a state and a result, or is [Undefined] because it was given a handle that this provider did not make, or is still
    [Waiting] in a loop that repeats interrupted calls.  The mutex, the event, the child and the signal slots of that port are
    step relations, since several threads and signal handlers use them at once.

    Code that is not in the repository is a parameter: the answers of the allocator ([answers], [BoxAllocator]), the
    clock and the wait hook, the provider behind each trait, the backing of the ledger, the linker's symbols, the callbacks
    of the embedder, the system allocator under the standard library.  The kernel and
    the C library under the Linux port are a class of calls for each component ([FileCalls], [WatchCalls], ...) over a state
    of their own, and a class of laws ([FileLaws], [WatchLaws], ...) that says what their manual pages promise of it; each has
    an instance that shows that the laws can hold.  The laws leave room for the other threads of the process: a counter may
    grow, an event may arrive and another thread may win a race inside any call.  What is assumed of the others is in the statements: a box has an address
    that is not in use, a reported length is not negative.

    ** What the theorems show

    - The file system: every reachable state is well formed (a tree without cycles, exact link and byte counts,
      compatible locks); each operation does exactly what it names on every branch and changes nothing when it fails;
      walks end and find real places; a written path leads back; reads see writes; the capacity holds.
    - Its parts: contents refine byte strings, the queue refines a list of records, locks are exact by byte and owner.
    - The front ends: outputs are cleared on failure and checked on success, statuses are the published ones, every
      call is counted once; the files provider is asked exactly the calls that keep the contract of the header, with their
      arguments, and over the in-memory file system the C consumer keeps the tree well formed whatever it calls.
    - The table: it is built exactly for the acceptable ports, a capability bit is set exactly with its callbacks
      while the statistics of every group are always there, and the negotiation happens once for any number of threads.
    - Storage: the arena is first fit, complete and exact; the ledger hands out disjoint regions within its budget for
      any backing.
    - Bare metal: the free list is first fit and exact on sets of addresses; protections change by break-before-make
      against a model of the translation buffer, and code is synchronized line by line; under every sequence of calls
      the owners' ranges stay disjoint, mapped as asked and untouched by others; the heap refines the abstract allocator,
      is complete and rejects double releases; threads are scheduled round robin, created exactly and destroyed with
      their destructors run once; locks exclude, one signal releases one waiter, the clock conversion is exact; faults do
      not recurse and a backtrace of a corrupted stack reads only what is mapped.
    - Standard-library parts: no signal is lost, locks exclude and hand over, the heap refines the same abstract
      allocator, slots are private to a thread and a key, diagnostics report exact progress.
    - Host adapter: validation accepts exactly the right tables, with and without linear storage; negotiation then serves
      exactly the enabled groups from the host's own callbacks, and a status or output crosses only as published.  With linear storage no native mapping
      is handed out ([linear_host_mappings_fail]), which the code does not mean.
    - Linux: reservations refine reserved and committed memory; the mutex excludes under every interleaving of its accesses
      and the event simulates the one of the standard library; kernel objects, spawned children and file handles are all or
      nothing and given back; signals go to the own child and never to a later process with its id; a signal handler meets
      its data; a timed wait returns; a socket descriptor is closed as often as it was handed out, options
      read back as the kernel keeps them and addresses as they were bound, a wake is not lost;
      files of the kernel are read exactly whatever the reads cut, cgroup limits are the tightest, and both Linux ports agree;
      the events of a watcher, the reports of signals and the entries of a directory come in order, none lost; the default
      action of a signal never meets the own handler; mount points, environment entries and accounts read back exactly; the
      modes of the terminal do not accumulate; a priority reaches the threads that a process starts meanwhile; a snapshot of the
      network interfaces is consistent and replaced whole; a local socket tells the path that it was bound to.  The available memory is reported in the wrong unit
      ([available_memory_in_kib]), which the code does not mean.
    - Reports: a fault meets its handler together with its data under every interleaving, but for the handler of an install
      that the port refused ([refused_handler_meets_later_data]); notifications refine the set of wanted kinds, with one
      handler installed once.

    ** Fuel

    The walk of a path gets one unit of fuel per byte of the texts it may still read; [walk_terminates] shows that it is
    enough.  The climb to the root is bounded by the number of nodes, the lock loop by the length of the table, the
    directory loop by the bytes left in the listing, the waiting read by the slices of its timeout, the search of the
    arena by the number of blocks, the search of the bare-metal heap by its bytes over the header size, the cache loops by
    the bytes of the range: each bound has its theorem or lemma.  In the Linux port the readers of text are bounded by the bytes of the text, the walk to
    the root of a cgroup by the length of its path, the walk of the notes by the size of their segment, the probe of memory by its
    pages, the search in a sorted list by its length, the growing buffer of an account by its eleven sizes; [rounds] and the
    like bound the repetitions of interrupted calls, a call that needs more is [Waiting], and the theorems that say that a
    call returns ask for more rounds than the kernel has interruptions: a timed wait for a child needs four turns more than
    its timeout has milliseconds, a poll of a watcher one more than there are events and disturbances, a listing one more than
    there are entries and interruptions.  A lock that waits, and a provider that lists
    only self references, may not return: such a call is [None] and the theorems speak of the calls that return.

    ** What is not modelled

    Of the Linux port with the standard library everything but the facts of the machine; the ports to macOS, Windows and
    WebAssembly and the POSIX and standard-library crates that select a port: they call the system one for one, and what they add is of the kind that is
    modelled for Linux.  The build support and the browser example, which are tools.  What the host does after a process exit, and the child of a crash
    dump, which does not return; the registers of a fault frame, which only the handler reads, and the register save of a
    context switch; the C math functions, which are those of [libm]; memory orderings weaker than sequential consistency;
    the layout of structs in memory beyond the order of their fields. *)
From Stdlib Require Export ZArith Lia.
From stdpp Require Export base numbers list gmap strings sorting.

Local Open Scope Z_scope.

(** ** Machine integers

    An unsigned w-bit integer of the source is a [Z] between 0 and its maximum.
    The width of [usize] is a parameter: the ports of the repository target
    64-bit machines, wasm32 and thumbv7em. *)

Class Arch := {
  usize_bits : Z;
  usize_bits_cases : usize_bits = 32 \/ usize_bits = 64;
}.
Definition arch64 : Arch := {| usize_bits := 64; usize_bits_cases := or_intror eq_refl |}.
Definition arch32 : Arch := {| usize_bits := 32; usize_bits_cases := or_introl eq_refl |}.

Definition u8_max : Z := 255.
Definition u32_max : Z := 2 ^ 32 - 1.
Definition u64_max : Z := 2 ^ 64 - 1.
Definition i64_max : Z := 2 ^ 63 - 1.
Definition usize_max `{Arch} : Z := 2 ^ usize_bits - 1.
Definition isize_max `{Arch} : Z := 2 ^ (usize_bits - 1) - 1.

(** [checked_add], [checked_sub], [saturating_add], [saturating_sub] of an unsigned type whose
    largest value is [max]; [wrapping_add] is what [+] does with overflow checks off. *)
Definition checked_add (max a b : Z) : option Z := if a + b <=? max then Some (a + b) else None.
Definition checked_sub (a b : Z) : option Z := if b <=? a then Some (a - b) else None.
Definition saturating_add (max a b : Z) : Z := Z.min max (a + b).
Definition saturating_sub (a b : Z) : Z := Z.max 0 (a - b).
Definition wrapping_add (max a b : Z) : Z := (a + b) mod (max + 1).
(** [usize::try_from] of a [u64]. *)
Definition usize_try_from `{Arch} (n : Z) : option Z := if n <=? usize_max then Some n else None.

Definition is_power_of_two (n : Z) : bool := (0 <? n) && (n =? 2 ^ Z.log2 n).
(** [n & !(p - 1)] on unsigned operands. *)
Definition mask_down (n p : Z) : Z := Z.land n (Z.lnot (p - 1)).
(** [flags & bit != 0] *)
Definition has (flags bit : Z) : bool := negb (Z.land flags bit =? 0).

(** ** Results and the provider monad

    [result E A] is Rust's [Result<A, E>].  A stateful call is a function from the
    state to the state it leaves and its result: what was changed before an early
    return stays changed, as in the source. *)

Inductive result (E A : Type) :=
| Ok (value : A)
| Err (error : E).
Arguments Ok {E A} _.
Arguments Err {E A} _.

Definition M (S E A : Type) := S -> S * result E A.
Section Monad.
  Context {S E A B : Type}.
Definition ret (a : A) : M S E A := fun s => (s, Ok a).
Definition fail (e : E) : M S E A := fun s => (s, Err e).
Definition bind (m : M S E A) (k : A -> M S E B) : M S E B := fun s =>
    match m s with
    | (s', Ok a) => k a s'
    | (s', Err e) => (s', Err e)
    end.
  (** A read of the state that may fail and changes nothing ([f(&self)?]). *)
Definition reads (f : S -> result E A) : M S E A := fun s => (s, f s).
Definition modify (f : S -> S) : M S E unit := fun s => (f s, Ok tt).
End Monad.
Definition result_bind {E A B} (r : result E A) (k : A -> result E B) : result E B :=
  match r with Ok a => k a | Err e => Err e end.
Definition ok_or {E A} (o : option A) (e : E) : result E A :=
  match o with Some a => Ok a | None => Err e end.

Declare Scope pal_scope.
Delimit Scope pal_scope with pal.
Notation "'let!' x ':=' m 'in' k" := (bind m (fun x => k))
  (at level 10, x name, m at level 200, k at level 200) : pal_scope.
Notation "'let?' x ':=' r 'in' k" := (result_bind r (fun x => k))
  (at level 10, x name, r at level 200, k at level 200) : pal_scope.
Notation "m ';!' k" := (bind m (fun _ => k))
  (at level 199, right associativity) : pal_scope.

(** ** Bytes *)
Definition lenZ {A} (l : list A) : Z := Z.of_nat (length l).
Definition takeZ {A} (n : Z) (l : list A) : list A := take (Z.to_nat n) l.
Definition dropZ {A} (n : Z) (l : list A) : list A := drop (Z.to_nat n) l.
Definition zeros (n : Z) : list Z := replicate (Z.to_nat n) 0.
(** The bytes of an ASCII literal, [b"..."]. *)
Definition bytes (s : string) : list Z := (fun c => Z.of_N (Ascii.N_of_ascii c)) <$> String.list_ascii_of_string s.

(** [array[i] = x]: out of range is a panic, [None]. *)
Definition arr_set {A} (l : list A) (i : nat) (x : A) : option (list A) := if (i <? length l)%nat then Some (<[i := x]> l) else None.

(** ** Lemmas on machine integers *)

Lemma usize_max_cases `{Arch} : usize_max = 2 ^ 32 - 1 \/ usize_max = 2 ^ 64 - 1.
Proof. unfold usize_max. destruct usize_bits_cases as [-> | ->]; auto. Qed.

Lemma isize_max_lt `{Arch} : 0 < isize_max < usize_max /\ 2 * isize_max + 1 = usize_max.
Proof. unfold isize_max, usize_max. destruct usize_bits_cases as [-> | ->]; vm_compute; repeat split; congruence. Qed.

Lemma checked_add_Some max a b c : checked_add max a b = Some c <-> c = a + b /\ a + b <= max.
Proof. unfold checked_add. destruct (Z.leb_spec (a + b) max); split; naive_solver lia. Qed.

Lemma checked_add_None max a b : checked_add max a b = None <-> max < a + b.
Proof. unfold checked_add. destruct (Z.leb_spec (a + b) max); split; try done; lia. Qed.

Lemma checked_sub_Some a b c : checked_sub a b = Some c <-> c = a - b /\ b <= a.
Proof. unfold checked_sub. destruct (Z.leb_spec b a); split; naive_solver lia. Qed.

Lemma wrapping_add_small max a b : 0 <= a + b <= max -> wrapping_add max a b = a + b.
Proof. intros. unfold wrapping_add. rewrite Z.mod_small; lia. Qed.

Lemma usize_try_from_Some `{Arch} n m : usize_try_from n = Some m <-> m = n /\ n <= usize_max.
Proof. unfold usize_try_from. destruct (Z.leb_spec n usize_max); split; naive_solver lia. Qed.

Lemma is_power_of_two_spec n : is_power_of_two n = true <-> exists k, 0 <= k /\ n = 2 ^ k.
Proof.
  unfold is_power_of_two. rewrite andb_true_iff, Z.ltb_lt, Z.eqb_eq. split.
  - intros [Hn He]. exists (Z.log2 n). split; [apply Z.log2_nonneg | done].
  - intros (k & Hk & ->). split; [apply Z.pow_pos_nonneg; lia |]. rewrite Z.log2_pow2; done.
Qed.

Lemma mask_down_pow2 n k : 0 <= k -> mask_down n (2 ^ k) = n - n mod 2 ^ k.
Proof.
  intros Hk. unfold mask_down.
  rewrite <- Z.ldiff_land. replace (2 ^ k - 1) with (Z.ones k) by (rewrite Z.ones_equiv; lia).
  rewrite Z.ldiff_ones_r, Z.shiftr_div_pow2, Z.shiftl_mul_pow2 by done.
  pose proof (Z.div_mod n (2 ^ k)). assert (2 ^ k <> 0) by (apply Z.pow_nonzero; lia). lia.
Qed.

(** Rounding up to a power of two: the least multiple that is not below. *)
Lemma round_up_pow2 n k : 0 <= k ->
  let r := mask_down (n + (2 ^ k - 1)) (2 ^ k) in n <= r < n + 2 ^ k /\ r mod 2 ^ k = 0.
Proof.
  intros Hk r. subst r. rewrite mask_down_pow2 by done.
  assert (0 < 2 ^ k) by (apply Z.pow_pos_nonneg; lia).
  pose proof (Z.mod_pos_bound (n + (2 ^ k - 1)) (2 ^ k)).
  split; [lia |]. rewrite Zminus_mod, Zmod_mod, <- Zminus_mod, Z.sub_diag. apply Zmod_0_l.
Qed.

(** Two multiples less than one unit apart are equal. *)
Lemma multiple_unique a b p : 0 < p -> a mod p = 0 -> b mod p = 0 -> - p < a - b < p -> a = b.
Proof.
  intros Hp Ha Hb Hd. apply Z.mod_divide in Ha as [x ->]; [| lia]. apply Z.mod_divide in Hb as [y ->]; [| lia].
  assert (x = y \/ x - y <= -1 \/ 1 <= x - y) as [-> | [? | ?]] by lia; [done | nia | nia].
Qed.

(** ** Lemmas on results and the monad *)

Lemma bind_Ok {S E A B} (m : M S E A) (k : A -> M S E B) s s' b :
  bind m k s = (s', Ok b) <-> exists s1 a, m s = (s1, Ok a) /\ k a s1 = (s', Ok b).
Proof.
  unfold bind. destruct (m s) as [s1 [a | e]]; split.
  - intros Hk. eauto.
  - intros (? & ? & [= <- <-] & Hk). done.
  - intros [=].
  - intros (? & ? & [=] & ?).
Qed.

Lemma bind_Err {S E A B} (m : M S E A) (k : A -> M S E B) s s' e :
  bind m k s = (s', Err e) <->
  m s = (s', Err e) \/ exists s1 a, m s = (s1, Ok a) /\ k a s1 = (s', Err e).
Proof.
  unfold bind. destruct (m s) as [s1 [a | e1]]; split; try naive_solver.
Qed.

Lemma bind_reads {S E A B} (f : S -> result E A) (k : A -> M S E B) s :
  bind (reads f) k s = match f s with Ok a => k a s | Err e => (s, Err e) end.
Proof. unfold bind, reads. by destruct (f s). Qed.
Lemma result_bind_Ok {E A B} (r : result E A) (k : A -> result E B) b :
  result_bind r k = Ok b <-> exists a, r = Ok a /\ k a = Ok b.
Proof. destruct r; naive_solver. Qed.

Lemma ok_or_Ok {E A} (o : option A) (e : E) a : ok_or o e = Ok a <-> o = Some a.
Proof. destruct o; naive_solver. Qed.
Lemma ok_or_Err {E A} (o : option A) (e e' : E) : ok_or o e = Err e' <-> o = None /\ e = e'.
Proof. destruct o; naive_solver. Qed.

(** A call that leaves the state as it was when it fails. *)
Definition atomic {S E A} (m : M S E A) : Prop := forall s s' e, m s = (s', Err e) -> s' = s.

(** ** Lemmas on lengths *)

Lemma lenZ_nonneg {A} (l : list A) : 0 <= lenZ l.
Proof. unfold lenZ. lia. Qed.
Lemma lenZ_nil {A} : lenZ (@nil A) = 0.
Proof. done. Qed.
Lemma lenZ_cons {A} (x : A) l : lenZ (x :: l) = 1 + lenZ l.
Proof. unfold lenZ. simpl. lia. Qed.
Lemma lenZ_app {A} (l k : list A) : lenZ (l ++ k) = lenZ l + lenZ k.
Proof. unfold lenZ. rewrite length_app. lia. Qed.
Lemma lenZ_takeZ {A} n (l : list A) : lenZ (takeZ n l) = Z.max 0 (Z.min n (lenZ l)).
Proof. unfold lenZ, takeZ. rewrite length_take. lia. Qed.
Lemma lenZ_dropZ {A} n (l : list A) : lenZ (dropZ n l) = lenZ l - Z.max 0 (Z.min n (lenZ l)).
Proof. unfold lenZ, dropZ. rewrite length_drop. lia. Qed.
Lemma lenZ_zeros n : lenZ (zeros n) = Z.max 0 n.
Proof. unfold lenZ, zeros. rewrite length_replicate. lia. Qed.
Lemma takeZ_ge {A} n (l : list A) : lenZ l <= n -> takeZ n l = l.
Proof. unfold lenZ, takeZ. intros. apply take_ge. lia. Qed.
Lemma takeZ_dropZ {A} n (l : list A) : takeZ n l ++ dropZ n l = l.
Proof. apply take_drop. Qed.

Create HintDb len discriminated.
#[export] Hint Rewrite @lenZ_nil @lenZ_cons @lenZ_app @lenZ_takeZ @lenZ_dropZ @lenZ_zeros : len.
(** Arithmetic on lengths of lists built by the operations above. *)
Ltac len := autorewrite with len in *; try lia.

(** ** Lists of bytes, pointwise *)
Lemma length_takeZ {A} n (l : list A) : length (takeZ n l) = Nat.min (Z.to_nat n) (length l).
Proof. apply length_take. Qed.
Lemma length_dropZ {A} n (l : list A) : length (dropZ n l) = (length l - Z.to_nat n)%nat.
Proof. apply length_drop. Qed.
Lemma length_zeros n : length (zeros n) = Z.to_nat n.
Proof. apply length_replicate. Qed.
Lemma lookup_takeZ {A} n (l : list A) i : takeZ n l !! i = if decide (Z.of_nat i < n) then l !! i else None.
Proof. unfold takeZ. case_decide; [apply lookup_take_lt; lia | apply lookup_take_ge; lia]. Qed.
Lemma lookup_dropZ {A} n (l : list A) i : dropZ n l !! i = l !! (Z.to_nat n + i)%nat.
Proof. apply lookup_drop. Qed.
Lemma lookup_zeros n i : zeros n !! i = if decide (Z.of_nat i < n) then Some 0 else None.
Proof.
  unfold zeros. case_decide; [apply lookup_replicate; split; [done | lia] | apply lookup_replicate_None; lia].
Qed.
Lemma lookup_app_dec {A} (l k : list A) i :
  (l ++ k) !! i = if decide (i < length l)%nat then l !! i else k !! (i - length l)%nat.
Proof. case_decide; [by apply lookup_app_l | apply lookup_app_r; lia]. Qed.

(** Proves two lists built from [takeZ], [dropZ], [zeros] and [++] equal, element by element. *)
Ltac list_pointwise :=
  unfold lenZ in *; apply list_eq; intros ?i;
  repeat (rewrite lookup_app_dec || rewrite lookup_takeZ || rewrite lookup_dropZ || rewrite lookup_zeros
          || rewrite length_app || rewrite length_takeZ || rewrite length_dropZ || rewrite length_zeros);
  repeat match goal with |- context [decide ?P] => destruct (decide P); try (exfalso; lia) end;
  first [ done | f_equal; lia | apply lookup_ge_None; lia | symmetry; apply lookup_ge_None; lia
        | rewrite !lookup_ge_None_2 by lia; done ].

(** Splits the calls of a monadic program that succeeded. *)
Ltac run_ok :=
  repeat match goal with
  | H : bind _ _ _ = (_, Ok _) |- _ => apply bind_Ok in H as (? & ? & ? & H)
  | H : result_bind _ _ = Ok _ |- _ => apply result_bind_Ok in H as (? & ? & H)
  | H : ok_or _ _ = Ok _ |- _ => apply ok_or_Ok in H
  | H : reads _ _ = (_, Ok _) |- _ => unfold reads in H
  | H : modify _ _ = (_, Ok _) |- _ => unfold modify in H
  | H : ret _ _ = (_, Ok _) |- _ => unfold ret in H
  | H : fail _ _ = (_, Ok _) |- _ => unfold fail in H
  | H : (_, _) = (_, _) |- _ => injection H as ? ?
  | H : Ok _ = Ok _ |- _ => injection H as ?
  | H : Some _ = Some _ |- _ => injection H as ?
  | H : Err _ = Ok _ |- _ => discriminate H
  | H : Ok _ = Err _ |- _ => discriminate H
  | H : None = Some _ |- _ => discriminate H
  | H : Some _ = None |- _ => discriminate H
  end; subst.

(** ** Threads *)
(** The other threads after thread [i] has moved from [t] to [t']. *)
Lemma insert_lookup_cases {A} (ts : list A) i t t' j u :
  ts !! i = Some t -> <[i := t']> ts !! j = Some u -> (j = i /\ u = t') \/ (j <> i /\ ts !! j = Some u).
Proof.
  intros Hi Hj. destruct (decide (j = i)) as [-> |]; [left | right; by rewrite list_lookup_insert_ne in Hj].
  rewrite list_lookup_insert_eq in Hj by by eapply lookup_lt_Some. naive_solver.
Qed.

(** ** Arrays *)
Lemma arr_set_ok {A} (l : list A) i x : (i < length l)%nat -> arr_set l i x = Some (<[i := x]> l).
Proof. intros Hi. unfold arr_set. by rewrite (proj2 (Nat.ltb_lt _ _) Hi). Qed.

(** ** Sorted lists *)
Lemma sorted_app_iff {A} (R : relation A) (a b : list A) :
  StronglySorted R (a ++ b) <-> StronglySorted R a /\ StronglySorted R b /\ (forall x y, x ∈ a -> y ∈ b -> R x y).
Proof.
  induction a as [| z a IH]; simpl.
  - split; [intros Hb; split_and!; [constructor | done | by intros ? ? ?%elem_of_nil] | by intros (_ & ? & _)].
  - split.
    + intros Hs. apply StronglySorted_inv in Hs as [Hs Hz]. apply IH in Hs as (Ha & Hb & Hab). apply Forall_app in Hz as [Hza Hzb].
      split_and!; [by constructor | done |]. rewrite Forall_forall in Hzb. intros x y [-> | Hx]%elem_of_cons Hy; auto.
    + intros (Ha & Hb & Hab). apply StronglySorted_inv in Ha as [Ha Hz]. constructor.
      * apply IH. split_and!; [done | done |]. intros x y Hx. apply Hab. by right.
      * apply Forall_app. split; [done |]. apply Forall_forall. intros y Hy. apply Hab; [left | done].
Qed.
Lemma sorted_cons_iff {A} (R : relation A) x (l : list A) : StronglySorted R (x :: l) <-> Forall (R x) l /\ StronglySorted R l.
Proof. split; [intros [? ?]%StronglySorted_inv; done | intros [? ?]; by constructor]. Qed.
