(* ===== verification/Port.v ===== *)
(** * Port.v: the statuses of the C ABI and the provider traits

    [src/src/port.rs]: the [Error] enum, its translation to and from ABI status
    codes, and the provider traits that the front ends call, as type classes. A
    provider is code of a port, so its operations are parameters of the front ends
    ([Boundary.v], [FilesApi.v]); [Storage.v] and the [MemFs] files give instances. *)
From S2P Require Import Prelude.
Local Open Scope Z_scope.

(** ** Status codes ([lib.rs], [kernel.rs], [runtime.rs], [io.rs]) *)
Definition OK := 0.
Definition UNSUPPORTED := 1.
Definition INVALID_ARGUMENT := 2.
Definition OS_ERROR := 3.
Definition OUT_OF_MEMORY := 4.
Definition TIMEOUT := 5.
Definition BUSY := 6.
Definition BUFFER_TOO_SMALL := 7.
Definition NOT_FOUND := 8.
Definition ALREADY_EXISTS := 9.
Definition ACCESS_DENIED := 10.
Definition IS_DIRECTORY := 11.
Definition NOT_DIRECTORY := 12.
Definition NOT_EMPTY := 13.
Definition NO_SPACE := 14.
Definition WOULD_BLOCK := 15.
Definition BROKEN_PIPE := 16.
Definition CONNECTION_REFUSED := 17.
Definition CONNECTION_RESET := 18.
Definition CONNECTION_ABORTED := 19.
Definition NOT_CONNECTED := 20.
Definition ALREADY_CONNECTED := 21.
Definition ADDRESS_IN_USE := 22.
Definition ADDRESS_NOT_AVAILABLE := 23.
Definition NETWORK_UNREACHABLE := 24.
Definition HOST_UNREACHABLE := 25.
Definition IN_PROGRESS := 26.
Definition TOO_MANY_HANDLES := 27.
Definition NAME_TOO_LONG := 28.
Definition READ_ONLY := 29.
Definition CROSS_DEVICE := 30.
Definition MESSAGE_TOO_LARGE := 31.

(** The failure statuses, [port::Error]; constructors as in the source, with the
    clash with the codes above avoided by the prefix. *)
Inductive Error :=
| EUnsupported | EInvalidArgument | EOs | EOutOfMemory | ETimeout | EBusy | EBufferTooSmall | ENotFound
| EAlreadyExists | EAccessDenied | EIsDirectory | ENotDirectory | ENotEmpty | ENoSpace | EWouldBlock
| EBrokenPipe | EConnectionRefused | EConnectionReset | EConnectionAborted | ENotConnected
| EAlreadyConnected | EAddressInUse | EAddressNotAvailable | ENetworkUnreachable | EHostUnreachable
| EInProgress | ETooManyHandles | ENameTooLong | EReadOnly | ECrossDevice | EMessageTooLarge.
#[export] Instance Error_eq_dec : EqDecision Error.
Proof. solve_decision. Defined.

(** [Error::status]: the discriminant of the [repr(u32)] enum. *)
Definition status_of (e : Error) : Z :=
  match e with
  | EUnsupported => UNSUPPORTED | EInvalidArgument => INVALID_ARGUMENT | EOs => OS_ERROR
  | EOutOfMemory => OUT_OF_MEMORY | ETimeout => TIMEOUT | EBusy => BUSY
  | EBufferTooSmall => BUFFER_TOO_SMALL | ENotFound => NOT_FOUND | EAlreadyExists => ALREADY_EXISTS
  | EAccessDenied => ACCESS_DENIED | EIsDirectory => IS_DIRECTORY | ENotDirectory => NOT_DIRECTORY
  | ENotEmpty => NOT_EMPTY | ENoSpace => NO_SPACE | EWouldBlock => WOULD_BLOCK
  | EBrokenPipe => BROKEN_PIPE | EConnectionRefused => CONNECTION_REFUSED
  | EConnectionReset => CONNECTION_RESET | EConnectionAborted => CONNECTION_ABORTED
  | ENotConnected => NOT_CONNECTED | EAlreadyConnected => ALREADY_CONNECTED
  | EAddressInUse => ADDRESS_IN_USE | EAddressNotAvailable => ADDRESS_NOT_AVAILABLE
  | ENetworkUnreachable => NETWORK_UNREACHABLE | EHostUnreachable => HOST_UNREACHABLE
  | EInProgress => IN_PROGRESS | ETooManyHandles => TOO_MANY_HANDLES
  | ENameTooLong => NAME_TOO_LONG | EReadOnly => READ_ONLY | ECrossDevice => CROSS_DEVICE
  | EMessageTooLarge => MESSAGE_TOO_LARGE
  end.

(** [Error::from_status]. The source's match has no arm for [OS_ERROR]: it is the default. *)
Definition error_from_status (status : Z) : option Error :=
  if status =? OK then None else Some (
  if status =? UNSUPPORTED then EUnsupported else
  if status =? INVALID_ARGUMENT then EInvalidArgument else
  if status =? OUT_OF_MEMORY then EOutOfMemory else
  if status =? TIMEOUT then ETimeout else
  if status =? BUSY then EBusy else
  if status =? BUFFER_TOO_SMALL then EBufferTooSmall else
  if status =? NOT_FOUND then ENotFound else
  if status =? ALREADY_EXISTS then EAlreadyExists else
  if status =? ACCESS_DENIED then EAccessDenied else
  if status =? IS_DIRECTORY then EIsDirectory else
  if status =? NOT_DIRECTORY then ENotDirectory else
  if status =? NOT_EMPTY then ENotEmpty else
  if status =? NO_SPACE then ENoSpace else
  if status =? WOULD_BLOCK then EWouldBlock else
  if status =? BROKEN_PIPE then EBrokenPipe else
  if status =? CONNECTION_REFUSED then EConnectionRefused else
  if status =? CONNECTION_RESET then EConnectionReset else
  if status =? CONNECTION_ABORTED then EConnectionAborted else
  if status =? NOT_CONNECTED then ENotConnected else
  if status =? ALREADY_CONNECTED then EAlreadyConnected else
  if status =? ADDRESS_IN_USE then EAddressInUse else
  if status =? ADDRESS_NOT_AVAILABLE then EAddressNotAvailable else
  if status =? NETWORK_UNREACHABLE then ENetworkUnreachable else
  if status =? HOST_UNREACHABLE then EHostUnreachable else
  if status =? IN_PROGRESS then EInProgress else
  if status =? TOO_MANY_HANDLES then ETooManyHandles else
  if status =? NAME_TOO_LONG then ENameTooLong else
  if status =? READ_ONLY then EReadOnly else
  if status =? CROSS_DEVICE then ECrossDevice else
  if status =? MESSAGE_TOO_LARGE then EMessageTooLarge else EOs).

Abbreviation Result := (result Error).
(** [port::status] *)
Definition status {A} (r : Result A) : Z := match r with Ok _ => OK | Err e => status_of e end.
(** [port::from_status] *)
Definition from_status (code : Z) : Result unit :=
  match error_from_status code with None => Ok tt | Some e => Err e end.

(** ** Provider traits

    The state of a provider is its type argument [S]; pointers are addresses. *)
Class VirtualMemory (S : Type) := {
  vm_PROVIDED : bool;
  vm_page_size : Z;
  vm_reserve : Z -> Z -> M S Error Z;
  vm_commit : Z -> Z -> M S Error unit;
  vm_decommit : Z -> Z -> M S Error unit;
  vm_release : Z -> Z -> M S Error unit;
  vm_reset : Z -> Z -> M S Error unit;
}.
Class LinearStorage (S : Type) := {
  linear_PROVIDED : bool;
  linear_DYNAMIC : bool;
  GRANULARITY : Z;
  CAPACITY : Z;
  linear_allocate : Z -> Z -> M S Error Z;
  linear_zero : Z -> Z -> M S Error unit;
  linear_release : Z -> Z -> M S Error unit;
}.

(** ** Facts about statuses *)

Lemma status_of_range e : 1 <= status_of e <= 31.
Proof. destruct e; vm_compute; split; congruence. Qed.

Lemma status_OK {A} (r : Result A) : status r = OK <-> exists a, r = Ok a.
Proof.
  destruct r as [a | e]; simpl; split; eauto.
  - intros H. pose proof (status_of_range e). unfold OK in H. lia.
  - intros [? [=]].
Qed.

(** A status that a provider reports survives the ABI: translated to its code and
    back it is the same result, and no failure becomes a success. *)
Theorem status_roundtrip (r : Result unit) : from_status (status r) = r.
Proof. destruct r as [[] | e]; [done |]. destruct e; vm_compute; done. Qed.

(** Every foreign status code is accepted: the published codes 0..31 map to themselves and
    every other value to [OS_ERROR], so no unknown value crosses as success or as a new code. *)
Theorem from_status_total (code : Z) :
  status (from_status code) = if (0 <=? code) && (code <=? 31) then code else OS_ERROR.
Proof.
  destruct (Z.leb_spec 0 code); [destruct (Z.leb_spec code 31) |]; simpl.
  - assert (exists n, code = Z.of_nat n /\ (n < 32)%nat) as (n & -> & Hn) by (exists (Z.to_nat code); lia).
    do 32 (destruct n as [| n]; [vm_compute; done |]). lia.
  - unfold from_status, error_from_status.
    repeat match goal with |- context [code =? ?c] =>
      replace (code =? c) with false by (symmetry; apply Z.eqb_neq; unfold c; lia) end. done.
  - unfold from_status, error_from_status.
    repeat match goal with |- context [code =? ?c] =>
      replace (code =? c) with false by (symmetry; apply Z.eqb_neq; unfold c; lia) end. done.
Qed.
