(* ===== verification/Counter.v ===== *)
(** * Counter.v: the saturating diagnostic counters under concurrency

    [src/src/counter.rs].  [increment] is a compare-and-swap loop that any number of
    threads run on one shared [AtomicUsize]; a weak exchange may fail spuriously.  Each
    atomic access is one step, so the steps of the threads interleave freely. *)
From S2P Require Import Prelude.
Local Open Scope Z_scope.

Section Counter.
Context `{Arch}.

(** Where a thread is in [increment]: before the initial load, in the loop with the value
    it last observed in [current], or returned. *)
Inductive Thread := Start | Looping (current : Z) | Returned.

(** The sequential reading of [increment], what one uninterrupted call does. *)
Definition increment (value : Z) : Z := saturating_add usize_max value 1.
(** [Counter::load] converts the [usize] to [u64]. *)
Definition load (value : Z) : Z := value.

(** One atomic access of one thread: the load, a successful exchange, or a failed one
    (the loop continues with the observed value), which a weak exchange may also be when
    the value has not changed. *)
Inductive access : Z -> Thread -> Z -> Thread -> Prop :=
| access_load value : access value Start value (Looping value)
| access_swap value : access value (Looping value) (saturating_add usize_max value 1) Returned
| access_retry value current : access value (Looping current) value (Looping value).

(** A system of threads: the shared value and every thread's place. *)
Inductive step : Z * list Thread -> Z * list Thread -> Prop :=
| step_thread value threads i t value' t' :
    threads !! i = Some t -> access value t value' t' ->
    step (value, threads) (value', <[i := t']> threads).

End Counter.

#[export] Instance Thread_eq_dec : EqDecision Thread.
Proof. solve_decision. Defined.

(** How many calls have returned. *)
Definition returned (threads : list Thread) : nat := length (filter (fun t => t = Returned) threads).

Section Facts.
Context `{Arch}.

Lemma returned_insert threads i t t' :
  threads !! i = Some t -> t <> Returned ->
  returned (<[i := t']> threads) = (returned threads + if decide (t' = Returned) then 1 else 0)%nat.
Proof.
  unfold returned. revert i. induction threads as [| u threads IH]; intros [| i] Hi Ht; simplify_eq/=.
  - rewrite !filter_cons. repeat case_decide; simplify_eq/=; lia.
  - specialize (IH i Hi Ht). rewrite !filter_cons. destruct (decide (u = Returned)); simpl; lia.
Qed.

(** What every reachable system satisfies: the value counts the returned calls, saturating,
    and no thread holds a value that was never the counter's. *)
Lemma step_counts value0 value threads value' threads' :
  0 <= value0 <= usize_max ->
  step (value, threads) (value', threads') ->
  value = Z.min usize_max (value0 + Z.of_nat (returned threads)) ->
  value' = Z.min usize_max (value0 + Z.of_nat (returned threads')).
Proof.
  intros Hb Hs Hv. inversion Hs as [? ? i t ? t' Hi Ha]; subst.
  assert (t <> Returned) as Ht by (inversion Ha; done).
  rewrite (returned_insert _ _ _ _ Hi Ht).
  inversion Ha; subst; case_decide; simplify_eq; unfold saturating_add; lia.
Qed.

(** No increment is lost or repeated.  However the atomic accesses of any number of
    threads interleave, and however often a weak exchange fails, the counter is its start
    value plus the number of calls that have returned, saturating at [usize::MAX]. *)
Theorem increments_linearize (value0 value : Z) (n : nat) (threads : list Thread) :
  0 <= value0 <= usize_max ->
  rtc step (value0, replicate n Start) (value, threads) ->
  load value = Z.min usize_max (value0 + Z.of_nat (returned threads)).
Proof.
  intros Hb Hr. unfold load.
  apply (rtc_ind_r (fun st => st.1 = Z.min usize_max (value0 + Z.of_nat (returned st.2)))
           (value0, replicate n Start) ) with (z := (value, threads)) in Hr; [exact Hr | |].
  - simpl. replace (returned (replicate n Start)) with 0%nat; [lia |].
    clear Hr. unfold returned. induction n; simpl; [done |]. rewrite filter_cons. case_decide; [done | exact IHn].
  - intros [v1 t1] [v2 t2] _ Hs. simpl. by eapply step_counts.
Qed.
End Facts.

(** Two interleaved calls, the second of which retries once. *)
Lemma increments_linearize_witness :
  exists value threads, rtc (@step arch64) (5, [Start; Start]) (value, threads) /\
  load value = Z.min (@usize_max arch64) (5 + Z.of_nat (returned threads)) /\ returned threads = 2%nat.
Proof.
  exists 7, [Returned; Returned].
  assert (rtc (@step arch64) (5, replicate 2 Start) (7, [Returned; Returned])) as Hr.
  { eapply rtc_l; [apply (step_thread 5 [Start; Start] 0%nat Start 5 (Looping 5)); [done | constructor] |].
    eapply rtc_l; [apply (step_thread 5 [Looping 5; Start] 1%nat Start 5 (Looping 5)); [done | constructor] |].
    eapply rtc_l; [apply (step_thread 5 [Looping 5; Looping 5] 0%nat (Looping 5) 6 Returned); [done | exact (access_swap 5)] |].
    eapply rtc_l; [apply (step_thread 6 [Returned; Looping 5] 1%nat (Looping 5) 6 (Looping 6)); [done | constructor] |].
    eapply rtc_l; [apply (step_thread 6 [Returned; Looping 6] 1%nat (Looping 6) 7 Returned); [done | exact (access_swap 6)] |].
    apply rtc_refl. }
  split; [exact Hr | split; [| done]].
  apply (@increments_linearize arch64 5 7 2); [vm_compute; split; congruence | exact Hr].
Defined.
