(* ===== verification/Boundary.v ===== *)
(** * Boundary.v: the checked front ends of virtual memory and linear storage

    [src/src/lib.rs]: argument geometry, the [vm] and [linear_api] front ends and their
    statistics.  A front end validates the arguments of a C call, calls the provider,
    sanitizes its answer and counts the outcome.  The state is [Front]: the static
    counters, the caller's output cells by address, and the provider's own state. *)
From S2P Require Import Prelude Port Counter.
Local Open Scope Z_scope.

(** The static counters of [lib.rs] and of its module [linear_api]. *)
Inductive CounterId :=
| RESERVE | COMMIT | DECOMMIT | RELEASE | RESET | FAILED
| ALLOCATE | ZERO | FREE | ERRORS.
#[export] Instance CounterId_eq_dec : EqDecision CounterId.
Proof. solve_decision. Defined.

Record Front (S : Type) := mkFront {
  counters : CounterId -> Z;
  cells : gmap Z Z;
  provider : S;
}.
Arguments mkFront {S} _ _ _.
Arguments counters {S} _ _.
Arguments cells {S} _.
Arguments provider {S} _.

Section Geometry.
Context `{Arch}.

Definition round_size (size page : Z) : option Z :=
  if (size =? 0) || negb (is_power_of_two page) then None else
  match checked_add usize_max size (page - 1) with
  | None => None
  | Some sum =>
      let rounded := mask_down sum page in
      if rounded <=? isize_max then Some rounded else None
  end.

(** [aligned_output] for an output whose type is aligned to [align] bytes. *)
Definition aligned_output (align out : Z) : bool := negb (out =? 0) && (out mod align =? 0).
Definition align_of_usize : Z := usize_bits / 8.
Definition align_of_u64 : Z := 8.

Definition geometry (size alignment page : Z) : option (Z * Z) :=
  match round_size size page with
  | None => None
  | Some size =>
      if negb (alignment =? 0) && negb (is_power_of_two alignment) then None else
      let alignment := Z.max alignment page in
      match checked_add usize_max size (alignment - page) with
      | None => None
      | Some span => if isize_max <? span then None else Some (size, alignment)
      end
  end.
End Geometry.

Section FrontEnd.
Context `{Arch} {S : Type}.

Definition bump (counter : CounterId) (f : Front S) : Front S :=
  mkFront (fun c => if decide (c = counter) then increment (counters f c) else counters f c) (cells f) (provider f).
Definition write_cell (out value : Z) (f : Front S) : Front S :=
  mkFront (counters f) (<[out := value]> (cells f)) (provider f).
(** A [repr(C)] struct of [u64] fields is stored field by field. *)
Fixpoint write_fields (out : Z) (values : list Z) (f : Front S) : Front S :=
  match values with
  | [] => f
  | v :: rest => write_fields (out + 8) rest (write_cell out v f)
  end.
(** Runs a provider operation on the provider's state. *)
Definition call {A} (op : M S Error A) (f : Front S) : Front S * Result A :=
  let '(p, r) := op (provider f) in (mkFront (counters f) (cells f) p, r).

Definition record (status : Z) (counter failed : CounterId) (f : Front S) : Front S * Z :=
  (bump (if status =? OK then counter else failed) f, status).

(** ** [mod vm] *)
Section Vm.
Context `{VirtualMemory S}.

Definition reserve (size alignment flags out : Z) (f : Front S) : Front S * Z :=
  if negb (aligned_output align_of_usize out) then record INVALID_ARGUMENT RESERVE FAILED f else
  let f := write_cell out 0 f in
  if negb (flags =? 0) then record UNSUPPORTED RESERVE FAILED f else
  match geometry size alignment vm_page_size with
  | None => record INVALID_ARGUMENT RESERVE FAILED f
  | Some (size, alignment) =>
      let '(f, r) := call (vm_reserve size alignment) f in
      let '(f, status) :=
        match r with
        | Ok result =>
            if (result =? 0) || negb (result mod alignment =? 0)
               || match checked_add usize_max result size with None => true | Some _ => false end
            then (f, OS_ERROR)
            else (write_cell out result f, OK)
        | Err e => (f, status_of e)
        end in
      record status RESERVE FAILED f
  end.

Definition valid_range (address size : Z) : option Z :=
  let page := vm_page_size in
  match round_size size page with
  | None => None
  | Some size =>
      if (address =? 0) || negb (Z.land address (page - 1) =? 0) then None else
      match checked_add usize_max address size with None => None | Some _ => Some size end
  end.

(** The macro [range_op!]: [commit], [decommit], [release] and [reset]. *)
Definition range_op (method : Z -> Z -> M S Error unit) (counter : CounterId) (address size : Z) (f : Front S) : Front S * Z :=
  match valid_range address size with
  | None => record INVALID_ARGUMENT counter FAILED f
  | Some size =>
      let '(f, r) := call (method address size) f in
      record (status r) counter FAILED f
  end.
Definition commit := range_op vm_commit COMMIT.
Definition decommit := range_op vm_decommit DECOMMIT.
Definition release := range_op vm_release RELEASE.
Definition reset := range_op vm_reset RESET.
End Vm.

Definition size_of_Stats : Z := 48.
Definition read_stats (out size : Z) (f : Front S) : Front S * Z :=
  if negb (aligned_output align_of_u64 out) || (size <? size_of_Stats) then (f, INVALID_ARGUMENT) else
  (write_fields out (load <$> [counters f RESERVE; counters f COMMIT; counters f DECOMMIT;
                                counters f RELEASE; counters f RESET; counters f FAILED]) f, OK).

(** ** [mod linear_api] *)
Section Linear.
Context `{LinearStorage S}.

Definition allocate (size alignment flags out : Z) (f : Front S) : Front S * Z :=
  if negb (aligned_output align_of_usize out) then record INVALID_ARGUMENT ALLOCATE ERRORS f else
  let f := write_cell out 0 f in
  if negb (flags =? 0) then record UNSUPPORTED ALLOCATE ERRORS f else
  match geometry size alignment GRANULARITY with
  | None => record INVALID_ARGUMENT ALLOCATE ERRORS f
  | Some (size, alignment) =>
      let '(f, r) := call (linear_allocate size alignment) f in
      let '(f, status) :=
        match r with
        | Ok address =>
            if (address =? 0) || negb (address mod alignment =? 0)
               || match checked_add usize_max address size with None => true | Some _ => false end
            then (f, OS_ERROR)
            else (write_cell out address f, OK)
        | Err e => (f, status_of e)
        end in
      record status ALLOCATE ERRORS f
  end.

Definition zero (address size : Z) (f : Front S) : Front S * Z :=
  if (address =? 0) || (size =? 0) || match checked_add usize_max address size with None => true | Some _ => false end
  then record INVALID_ARGUMENT ZERO ERRORS f
  else let '(f, r) := call (linear_zero address size) f in record (status r) ZERO ERRORS f.

Definition linear_release_call (address size : Z) (f : Front S) : Front S * Z :=
  match round_size size GRANULARITY with
  | None => record INVALID_ARGUMENT FREE ERRORS f
  | Some size =>
      if address =? 0 then record INVALID_ARGUMENT FREE ERRORS f else
      let '(f, r) := call (linear_release address size) f in record (status r) FREE ERRORS f
  end.
End Linear.

Definition size_of_LinearStats : Z := 32.
Definition linear_stats (out size : Z) (f : Front S) : Front S * Z :=
  if negb (aligned_output align_of_u64 out) || (size <? size_of_LinearStats) then (f, INVALID_ARGUMENT) else
  (write_fields out (load <$> [counters f ALLOCATE; counters f ZERO; counters f FREE; counters f ERRORS]) f, OK).
End FrontEnd.

(** ** Geometry *)
Section GeometryFacts.
Context `{Arch}.

Lemma round_size_Some size page r :
  0 <= size <= usize_max -> round_size size page = Some r ->
  is_power_of_two page = true /\ 0 < size <= r /\ r < size + page /\ r mod page = 0 /\ r <= isize_max.
Proof.
  intros Hs. unfold round_size. destruct (Z.eqb_spec size 0); [done |].
  destruct (is_power_of_two page) eqn:Hp; [| done]. simpl.
  apply is_power_of_two_spec in Hp as (k & Hk & ->).
  destruct (checked_add _ _ _) as [sum |] eqn:Hsum; [| done]. apply checked_add_Some in Hsum as [-> _].
  pose proof (round_up_pow2 size k Hk) as [Hr Hm].
  destruct (Z.leb_spec (mask_down (size + (2 ^ k - 1)) (2 ^ k)) isize_max); [| done].
  intros [= <-]. repeat split; try lia.
Qed.

(** [round_size] is exact.  It yields [r] precisely when the size is not zero, the page is a
    power of two and [r] is the least multiple of the page that holds the size, if that multiple
    fits [isize]; the checked addition never rejects a size whose rounding would fit. *)
Theorem round_size_spec (size page r : Z) :
  0 <= size <= usize_max -> 0 <= page <= usize_max ->
  round_size size page = Some r <->
  size <> 0 /\ is_power_of_two page = true /\ r mod page = 0 /\ size <= r < size + page /\ r <= isize_max.
Proof.
  intros Hs Hp. split.
  - intros Hr. apply round_size_Some in Hr; [| done]. intuition lia.
  - intros (H0 & Hpow & Hm & Hr & Hi). unfold round_size.
    destruct (Z.eqb_spec size 0); [done |]. rewrite Hpow. simpl.
    pose proof isize_max_lt as [_ Hmax].
    apply is_power_of_two_spec in Hpow as (k & Hk & ->).
    assert (0 < 2 ^ k) by (apply Z.pow_pos_nonneg; lia).
    assert (2 ^ k <= r) as Hle by (apply Z.divide_pos_le; [lia | apply Z.mod_divide; lia]).
    unfold checked_add. destruct (Z.leb_spec (size + (2 ^ k - 1)) usize_max); [| lia].
    pose proof (round_up_pow2 size k Hk) as [Hr' Hm'].
    assert (mask_down (size + (2 ^ k - 1)) (2 ^ k) = r) as ->.
    { apply (multiple_unique _ _ (2 ^ k)); [done | exact Hm' | exact Hm | lia]. }
    destruct (Z.leb_spec r isize_max); [done | lia].
Qed.

Lemma geometry_Some size alignment page s a :
  0 <= size <= usize_max -> 0 <= alignment <= usize_max ->
  geometry size alignment page = Some (s, a) ->
  0 < size <= s /\ s mod page = 0 /\ 0 < page <= a /\ alignment <= a /\
  is_power_of_two a = true /\ s + (a - page) <= isize_max.
Proof.
  intros Hs Ha. unfold geometry. destruct (round_size size page) as [r |] eqn:Hr; [| done].
  apply round_size_Some in Hr as (Hp & Hr1 & Hr2 & Hm & Hi); [| done].
  assert (0 < page) by (unfold is_power_of_two in Hp; destruct (Z.ltb_spec 0 page); [lia | done]).
  destruct (negb (alignment =? 0) && negb (is_power_of_two alignment)) eqn:Hb; [done |].
  destruct (checked_add _ _ _) as [span |] eqn:Hc; [| done]. apply checked_add_Some in Hc as [-> _].
  destruct (Z.ltb_spec isize_max (r + (Z.max alignment page - page))); [done |].
  intros [= <- <-]. repeat split; try lia.
  destruct (Z.max_spec alignment page) as [[? ->] | [? ->]]; [done |].
  destruct (Z.eqb_spec alignment 0); [lia |]. simpl in Hb. by destruct (is_power_of_two alignment).
Qed.

(** Every geometry the front ends hand to a provider is sound: the size holds the request, is a
    whole number of pages, the alignment is a power of two of at least one page and at least what
    was asked for, and size plus the slack of aligning it stays within [isize]. *)
Theorem geometry_spec (size alignment page s a : Z) :
  0 <= size <= usize_max -> 0 <= alignment <= usize_max -> 0 <= page <= usize_max ->
  geometry size alignment page = Some (s, a) ->
  size <= s /\ s mod page = 0 /\ is_power_of_two a = true /\ page <= a /\ alignment <= a /\ s + (a - page) <= isize_max.
Proof. intros Hs Ha _ Hg. apply geometry_Some in Hg; intuition lia. Qed.
End GeometryFacts.

Lemma round_size_spec_witness : @round_size arch32 4097 4096 = Some 8192 /\ 4097 <> 0.
Proof. apply and_comm. split; [done |]. apply (@round_size_spec arch32); vm_compute; repeat split; congruence. Defined.

Lemma geometry_spec_witness : 4096 <= 8192 /\ 5000 <= 8192 /\ is_power_of_two 65536 = true.
Proof.
  pose proof (@geometry_spec arch64 5000 65536 4096 8192 65536) as H.
  destruct H as (? & ? & ? & ?); [vm_compute; repeat split; congruence .. |]. split; [lia | done].
Defined.

(** ** The front ends *)
Section FrontFacts.
Context `{Arch} {S : Type}.
Implicit Types f : Front S.

Lemma record_status st c d f f' r : record st c d f = (f', r) -> r = st /\ f' = bump (if st =? OK then c else d) f.
Proof. by intros [= <- <-]. Qed.

(** What a provider may do between the two halves of a front-end call: nothing but its own state. *)
Lemma call_frame {A} (op : M S Error A) f f' r :
  call op f = (f', r) -> op (provider f) = (provider f', r) /\ counters f' = counters f /\ cells f' = cells f.
Proof. unfold call. destruct (op (provider f)) as [p x]. intros [= <- <-]. done. Qed.

Context `{VirtualMemory S}.

(** [reserve] never exposes a bad address, whatever the provider answers.  With a usable output
    cell, the cell holds NULL unless the status is [OK]; with [OK] it holds the provider's address,
    which is not NULL, aligned as asked, and whose whole range lies in the address space.  The
    provider is called with a checked geometry only, and the call counts as one success or one
    failure. *)
Theorem reserve_contract (size alignment flags out : Z) (f f' : Front S) (st : Z) :
  0 <= size <= usize_max -> 0 <= alignment <= usize_max -> aligned_output align_of_usize out = true ->
  reserve size alignment flags out f = (f', st) ->
  (counters f' = counters (bump (if st =? OK then RESERVE else FAILED) f)) /\
  (st <> OK -> cells f' !! out = Some 0) /\
  (st = OK -> exists s a p, geometry size alignment vm_page_size = Some (s, a) /\
     vm_reserve s a (provider f) = (provider f', Ok p) /\
     cells f' !! out = Some p /\ p <> 0 /\ p mod a = 0 /\ p + s <= usize_max) /\
  (flags <> 0 \/ geometry size alignment vm_page_size = None -> provider f' = provider f /\ st <> OK).
Proof.
  intros Hs Ha Hout. unfold reserve. rewrite Hout. simpl.
  destruct (Z.eqb_spec flags 0) as [-> | Hf]; simpl.
  2: { intros (-> & ->)%record_status. simpl. simplify_map_eq. naive_solver. }
  destruct (geometry size alignment vm_page_size) as [[s a] |] eqn:Hg.
  2: { intros (-> & ->)%record_status. simpl. simplify_map_eq. naive_solver. }
  destruct (call (vm_reserve s a) (write_cell out 0 f)) as [f1 r] eqn:Hc.
  apply call_frame in Hc as (Hc & Hcnt & Hcells). simpl in Hc, Hcnt, Hcells.
  destruct r as [p | e].
  - destruct ((p =? 0) || negb (p mod a =? 0) || _) eqn:Hbad; intros (-> & ->)%record_status; simpl.
    + rewrite Hcells, Hcnt. simplify_map_eq. naive_solver.
    + rewrite Hcnt. simplify_map_eq.
      apply orb_false_iff in Hbad as [[Hp0 Hpa]%orb_false_iff Hadd].
      apply Z.eqb_neq in Hp0. apply negb_false_iff, Z.eqb_eq in Hpa.
      destruct (checked_add _ _ _) eqn:Hsum; [| done]. apply checked_add_Some in Hsum as [_ Hsum].
      naive_solver.
  - intros (-> & ->)%record_status; simpl. rewrite Hcells, Hcnt. simplify_map_eq.
    pose proof (status_of_range e). unfold OK. split; [done |]. split; [done |]. split; [lia |]. intros [? | ?]; done.
Qed.

(** [commit], [decommit], [release] and [reset] reach the provider only with a range that starts
    on a page boundary, spans whole pages and does not wrap; any other range is
    [INVALID_ARGUMENT], counted as a failure, with the provider untouched. *)
Theorem range_op_contract (method : Z -> Z -> M S Error unit) (counter : CounterId) (address size : Z) (f f' : Front S) (st : Z) :
  0 <= size <= usize_max -> 0 <= address <= usize_max -> 0 <= vm_page_size <= usize_max ->
  range_op method counter address size f = (f', st) ->
  match valid_range address size with
  | Some s =>
      size <= s /\ s mod vm_page_size = 0 /\ address mod vm_page_size = 0 /\ address <> 0 /\ address + s <= usize_max /\
      exists r, method address s (provider f) = (provider f', r) /\ st = status r
  | None => st = INVALID_ARGUMENT /\ provider f' = provider f
  end /\ counters f' = counters (bump (if st =? OK then counter else FAILED) f) /\ cells f' = cells f.
Proof.
  intros Hs Ha Hp. unfold range_op. destruct (valid_range address size) as [s |] eqn:Hv.
  2: { intros (-> & ->)%record_status. done. }
  destruct (call (method address s) f) as [f1 r] eqn:Hc.
  apply call_frame in Hc as (Hc & Hcnt & Hcells).
  intros (-> & ->)%record_status. simpl. rewrite Hcnt, Hcells. split; [| done].
  unfold valid_range in Hv. destruct (round_size size vm_page_size) as [s' |] eqn:Hr; [| done].
  apply round_size_Some in Hr as (Hpow & Hr1 & Hr2 & Hm & Hi); [| done].
  destruct (Z.eqb_spec address 0); [done |].
  apply is_power_of_two_spec in Hpow as (k & Hk & Hpage).
  replace (vm_page_size - 1) with (Z.ones k) in Hv by (rewrite Z.ones_equiv; lia).
  rewrite Z.land_ones in Hv by done. rewrite <- Hpage in Hv.
  destruct (Z.eqb_spec (address mod vm_page_size) 0); [| done]. simpl in Hv.
  destruct (checked_add _ _ _) eqn:Hsum; [| done]. apply checked_add_Some in Hsum as [_ Hsum].
  simplify_eq. split_and!; [lia | done | done | done | done | eauto].
Qed.
End FrontFacts.

(** ** Statistics *)
Section Statistics.
Context `{Arch} {S : Type} `{VirtualMemory S}.

(** The calls of the [vm] group, as a C caller makes them. *)
Inductive VmCall :=
| CallReserve (size alignment flags out : Z)
| CallCommit (address size : Z)
| CallDecommit (address size : Z)
| CallRelease (address size : Z)
| CallReset (address size : Z).
Definition vm_call (c : VmCall) : Front S -> Front S * Z :=
  match c with
  | CallReserve size alignment flags out => reserve size alignment flags out
  | CallCommit address size => commit address size
  | CallDecommit address size => decommit address size
  | CallRelease address size => release address size
  | CallReset address size => reset address size
  end.
Fixpoint vm_calls (cs : list VmCall) (f : Front S) : Front S :=
  match cs with [] => f | c :: cs => vm_calls cs (vm_call c f).1 end.
Definition vm_total (f : Front S) : Z :=
  counters f RESERVE + counters f COMMIT + counters f DECOMMIT + counters f RELEASE + counters f RESET + counters f FAILED.

Lemma record_total st c f :
  c = RESERVE \/ c = COMMIT \/ c = DECOMMIT \/ c = RELEASE \/ c = RESET ->
  vm_total f < usize_max -> (forall d, 0 <= counters f d) ->
  vm_total (record st c FAILED f).1 = vm_total f + 1 /\ (forall d, 0 <= counters (record st c FAILED f).1 d).
Proof.
  intros Hc Ht Hn. unfold vm_total in *. simpl.
  assert (forall d, 0 <= counters f d) as Hd by done.
  pose proof (Hd RESERVE). pose proof (Hd COMMIT). pose proof (Hd DECOMMIT).
  pose proof (Hd RELEASE). pose proof (Hd RESET). pose proof (Hd FAILED).
  unfold increment, saturating_add.
  split.
  - destruct (st =? OK); [destruct Hc as [-> | [-> | [-> | [-> | ->]]]] |];
      repeat (case_decide; simplify_eq); lia.
  - intros d. pose proof (Hd d). case_decide; lia.
Qed.

Lemma vm_call_total c f :
  vm_total f < usize_max -> (forall d, 0 <= counters f d) ->
  vm_total (vm_call c f).1 = vm_total f + 1 /\ (forall d, 0 <= counters (vm_call c f).1 d).
Proof.
  assert (forall st c' g, counters g = counters f -> c' = RESERVE \/ c' = COMMIT \/ c' = DECOMMIT \/ c' = RELEASE \/ c' = RESET ->
    vm_total f < usize_max -> (forall d, 0 <= counters f d) ->
    vm_total (record st c' FAILED g).1 = vm_total f + 1 /\ (forall d, 0 <= counters (record st c' FAILED g).1 d)) as Hrec.
  { intros st c' g Hg Hc' Ht Hn. assert (vm_total g = vm_total f) as <- by (unfold vm_total; by rewrite Hg).
    apply record_total; [done | unfold vm_total in *; rewrite Hg; done | by rewrite Hg]. }
  assert (forall m c' a s, c' = RESERVE \/ c' = COMMIT \/ c' = DECOMMIT \/ c' = RELEASE \/ c' = RESET ->
    vm_total f < usize_max -> (forall d, 0 <= counters f d) ->
    vm_total (range_op m c' a s f).1 = vm_total f + 1 /\ (forall d, 0 <= counters (range_op m c' a s f).1 d)) as Hrange.
  { intros m c' a s Hc' Ht Hn. unfold range_op. destruct (valid_range a s); [| by apply Hrec].
    destruct (call _ f) as [f1 r] eqn:Hcall. apply call_frame in Hcall as (_ & Hcnt & _). by apply Hrec. }
  intros Ht Hn. destruct c; simpl; [| by apply Hrange; auto 10 ..].
  unfold reserve. destruct (negb _); [apply Hrec; auto |]. destruct (negb _); [apply Hrec; auto |].
  destruct (geometry _ _ _) as [[s a] |]; [| apply Hrec; auto].
  destruct (call _ _) as [f1 r] eqn:Hcall. apply call_frame in Hcall as (_ & Hcnt & _).
  destruct r; [destruct (_ || _) |]; apply Hrec; auto.
Qed.

(** The VM statistics are a ledger.  Over any sequence of VM calls, with any provider, the six
    counters together grow by exactly one per call as long as they do not saturate: no call is
    counted twice or left out. *)
Theorem vm_statistics_count_calls (cs : list VmCall) (f : Front S) :
  (forall c, 0 <= counters f c) -> vm_total f + lenZ cs <= usize_max ->
  vm_total (vm_calls cs f) = vm_total f + lenZ cs.
Proof.
  revert f. induction cs as [| c cs IH]; intros f Hn Hb; simpl; len.
  pose proof (lenZ_nonneg cs).
  destruct (vm_call_total c f) as [Ht Hn']; [lia | done |].
  rewrite IH by (done || lia). lia.
Qed.
End Statistics.

(** ** A concrete provider for the witnesses: a bump pointer over 64-bit addresses *)
Definition bump_vm : VirtualMemory Z := {|
  vm_PROVIDED := true; vm_page_size := 4096;
  vm_reserve := fun size alignment next =>
    let base := mask_down (next + (alignment - 1)) alignment in (base + size, Ok base);
  vm_commit := fun _ _ => ret tt; vm_decommit := fun _ _ => fail EOs;
  vm_release := fun _ _ => ret tt; vm_reset := fun _ _ => ret tt |}.
Definition front0 : Front Z := mkFront (fun _ => 0) ∅ 4096.

Lemma reserve_contract_witness :
  let f' := (@reserve arch64 Z bump_vm 5000 65536 0 64 front0).1 in
  exists p, cells f' !! 64 = Some p /\ p <> 0 /\ p mod 65536 = 0 /\ p + 8192 <= @usize_max arch64.
Proof.
  destruct (@reserve_contract arch64 Z bump_vm 5000 65536 0 64 front0 _ _
    ltac:(vm_compute; split; congruence) ltac:(vm_compute; split; congruence) eq_refl (surjective_pairing _))
    as (_ & _ & H & _).
  destruct H as (s & a & p & Hg & _ & Hc & Hp); [vm_compute; done |].
  vm_compute in Hg. injection Hg as <- <-. exists p. done.
Defined.

Lemma range_op_contract_witness :
  let f' := (@commit arch64 Z bump_vm 8192 100 front0) in f'.2 = OK /\ 100 <= 4096 /\ 8192 mod 4096 = 0.
Proof.
  pose proof (@range_op_contract arch64 Z bump_vm (@vm_commit Z bump_vm) COMMIT 8192 100 front0 _ _
    ltac:(vm_compute; split; congruence) ltac:(vm_compute; split; congruence) ltac:(vm_compute; split; congruence)
    (surjective_pairing _)) as [H _].
  replace (@valid_range arch64 Z bump_vm 8192 100) with (Some 4096) in H by (vm_compute; done).
  destruct H as (H1 & _ & H2 & _). split; [vm_compute; done | split; [exact H1 | exact H2]].
Defined.

Lemma vm_statistics_count_calls_witness :
  vm_total (@vm_calls arch64 Z bump_vm [CallReserve 5000 0 0 64; CallDecommit 8192 1; CallReserve 0 0 0 64] front0) = 3.
Proof.
  rewrite (@vm_statistics_count_calls arch64 Z bump_vm); vm_compute; done.
Defined.
