(* ===== verification/Content.v ===== *)
(** * Content.v: the bytes of an in-memory file

    [src/crates/dotnet-pal-memfs/src/lib.rs], the types [Pinned] and [Content] and the
    functions [reserve], [resize] and [write] on byte vectors.  A file is a [Vec] until it is
    first mapped shared and pinned pages from then on, until a change of size that no
    mapping is in the way of moves it back.

    The allocator is the environment's: every fallible request takes its next answer from a
    list, [None] for a refusal and [Some address] for a grant ([Some PAGE] once the list has
    run out), and every theorem holds for all lists of answers.  [Vec] capacities follow the
    standard library: a request that fits the capacity asks nobody. *)
From S2P Require Import Prelude Port.
Local Open Scope Z_scope.
Local Open Scope pal_scope.

Definition PAGE : Z := 4096.

(** ** The allocator *)
Abbreviation answers := (list (option Z)).
Definition ask (g : answers) : option Z * answers :=
  match g with [] => (Some PAGE, []) | a :: g => (a, g) end.

(** ** [Vec<u8>]: its bytes and its capacity *)
Record Vec := mkVec { data : list Z; cap : Z }.
Definition vec_new : Vec := mkVec [] 0.

Section Content.
Context `{Arch}.

(** [Vec::try_reserve] (amortized growth) and [Vec::try_reserve_exact]: whether there is room now. *)
Definition try_reserve (additional : Z) (v : Vec) (g : answers) : Vec * answers * bool :=
  if additional <=? cap v - lenZ (data v) then (v, g, true) else
  let required := Z.max 8 (Z.max (2 * cap v) (lenZ (data v) + additional)) in
  if isize_max <? required then (v, g, false) else
  match ask g with
  | (Some _, g) => (mkVec (data v) required, g, true)
  | (None, g) => (v, g, false)
  end.
Definition try_reserve_exact (additional : Z) (v : Vec) (g : answers) : Vec * answers * bool :=
  if additional <=? cap v - lenZ (data v) then (v, g, true) else
  let required := lenZ (data v) + additional in
  if isize_max <? required then (v, g, false) else
  match ask g with
  | (Some _, g) => (mkVec (data v) required, g, true)
  | (None, g) => (v, g, false)
  end.

Abbreviation VecM := (M (Vec * answers) Error).

(** [fn reserve] *)
Definition reserve (additional room : Z) : VecM unit := fun '(v, g) =>
  if room <? additional then (v, g, Err ENoSpace) else
  let '(v, g, granted) := try_reserve additional v g in
  if (granted : bool) then (v, g, Ok tt) else
  let '(v, g, granted) := try_reserve_exact additional v g in
  if (granted : bool) then (v, g, Ok tt) else (v, g, Err ENoSpace).

(** [fn resize] *)
Definition vec_resize (size room : Z) : VecM unit := fun '(v, g) =>
  match usize_try_from size with
  | None => (v, g, Err ENoSpace)
  | Some size =>
      if lenZ (data v) <? size then
        (reserve (size - lenZ (data v)) room ;!
         modify (fun '(v, g) => (mkVec (data v ++ zeros (size - lenZ (data v))) (cap v), g))) (v, g)
      else if size =? 0 then (vec_new, g, Ok tt)
      else
        let v := mkVec (takeZ size (data v)) (cap v) in
        if size <=? cap v / 2 then
          let '(exact, g, granted) := try_reserve_exact size vec_new g in
          if (granted : bool) then (mkVec (data exact ++ data v) (cap exact), g, Ok tt) else (v, g, Ok tt)
        else (v, g, Ok tt)
  end.

(** [offset.checked_add(size).and_then(usize::try_from)] *)
Definition end_of (offset size : Z) : option Z :=
  match checked_add u64_max offset size with None => None | Some e => usize_try_from e end.

(** [fn write] *)
Definition vec_write (offset : Z) (d : list Z) (room : Z) : VecM Z := fun '(v, g) =>
  match end_of offset (lenZ d) with
  | None => (v, g, Err ENoSpace)
  | Some e =>
      let start := e - lenZ d in
      (((if lenZ (data v) <? e then
           reserve (e - lenZ (data v)) room ;!
           modify (fun '(v, g) =>
             (if lenZ (data v) <? start then mkVec (data v ++ zeros (start - lenZ (data v))) (cap v) else v, g))
         else ret tt) ;!
        fun '(v, g) =>
          let inside := Z.min (lenZ (data v)) e - start in
          let over := takeZ start (data v) ++ takeZ inside d ++ dropZ (start + inside) (data v) in
          (mkVec (over ++ dropZ inside d) (cap v), g, Ok (lenZ d))) (v, g))
  end.

(** ** Pinned pages: [memory] is the whole block, of which the first [size] bytes are the file *)
Record Pinned := mkPinned { pin_base : Z; pin_memory : list Z; pin_size : Z; pin_capacity : Z }.
Inductive Content := Plain (v : Vec) | Pin (p : Pinned).

(** [Pinned::set_size] *)
Definition set_size (n : Z) (p : Pinned) : Pinned :=
  let from := Z.min (pin_size p) n in
  let to := Z.max (pin_size p) n in
  mkPinned (pin_base p) (takeZ from (pin_memory p) ++ zeros (to - from) ++ dropZ to (pin_memory p)) n (pin_capacity p).

(** [fn pages]: zeroed pages, whose address the allocator answers. *)
Definition pages (n : Z) (g : answers) : Result Z * answers :=
  if isize_max - (PAGE - 1) <? n then (Err EOutOfMemory, g) else
  match ask g with (Some address, g) => (Ok address, g) | (None, g) => (Err EOutOfMemory, g) end.

Definition content_len (c : Content) : Z := match c with Plain v => lenZ (data v) | Pin p => pin_size p end.

(** [Content::read]: the bytes copied out, at most [capacity] of them. *)
Definition content_read (c : Content) (offset capacity : Z) : list Z :=
  match usize_try_from offset with
  | None => []
  | Some start =>
      if start <? content_len c then
        let count := Z.min (content_len c - start) capacity in
        match c with
        | Plain v => takeZ count (dropZ start (data v))
        | Pin p => takeZ count (dropZ start (pin_memory p))
        end
      else []
  end.

Abbreviation ContentM := (M (Content * answers) Error).

(** [Content::pin] *)
Definition pin (n : Z) : ContentM Z := fun '(c, g) =>
  match c with
  | Plain v =>
      match pages n g with
      | (Ok address, g) =>
          (Pin (mkPinned address (data v ++ zeros (n - lenZ (data v))) (lenZ (data v)) n), g, Ok address)
      | (Err e, g) => (c, g, Err e)
      end
  | Pin p => (c, g, Ok (pin_base p))
  end.

(** [Content::unpin] *)
Definition unpin (wanted : Z) : ContentM unit := fun '(c, g) =>
  match c with
  | Plain _ => (c, g, Ok tt)
  | Pin p =>
      let kept := Z.min (pin_size p) wanted in
      let '(v, g, granted) := try_reserve_exact wanted vec_new g in
      if (granted : bool) then (Plain (mkVec (takeZ kept (pin_memory p)) (cap v)), g, Ok tt) else (c, g, Err ENoSpace)
  end.

(** [Content::prepare] *)
Definition prepare (wanted room : Z) (mapped : bool) : ContentM unit := fun '(c, g) =>
  match c with
  | Plain _ => (c, g, Ok tt)
  | Pin p =>
      if room <? saturating_sub wanted (pin_size p) then (c, g, Err ENoSpace) else
      let outgrown := pin_capacity p <? wanted in
      let wasteful := wanted <=? pin_capacity p / 2 in
      if mapped then (c, g, if outgrown then Err ENoSpace else Ok tt) else
      if negb outgrown && negb wasteful then (c, g, Ok tt) else
      match unpin wanted (c, g) with
      | (s, Err refused) => if outgrown then (s, Err refused) else (s, Ok tt)
      | (s, Ok _) => (s, Ok tt)
      end
  end.

(** Runs a vector operation on the bytes of a plain file. *)
Definition on_vec {A} (v : Vec) (op : VecM A) (g : answers) : Content * answers * Result A :=
  let '(v, g, r) := op (v, g) in (Plain v, g, r).

(** [Content::resize] *)
Definition content_resize (n room : Z) (mapped : bool) : ContentM unit := fun '(c, g) =>
  match usize_try_from n with
  | None => (c, g, Err ENoSpace)
  | Some wanted =>
      (prepare wanted room mapped ;! fun '(c, g) =>
         match c with
         | Plain v => on_vec v (vec_resize n room) g
         | Pin p => (Pin (set_size wanted p), g, Ok tt)
         end) (c, g)
  end.

(** [Content::write]; [d] is what the caller's buffer holds. *)
Definition content_write (offset : Z) (d : list Z) (room : Z) (mapped : bool) : ContentM Z := fun '(c, g) =>
  match end_of offset (lenZ d) with
  | None => (c, g, Err ENoSpace)
  | Some e =>
      (prepare (Z.max e (content_len c)) room mapped ;! fun '(c, g) =>
         match c with
         | Plain v => on_vec v (vec_write offset d room) g
         | Pin p =>
             let p := if pin_size p <? e then set_size e p else p in
             let at_ := e - lenZ d in
             (Pin (mkPinned (pin_base p) (takeZ at_ (pin_memory p) ++ d ++ dropZ e (pin_memory p)) (pin_size p) (pin_capacity p)),
              g, Ok (lenZ d))
         end) (c, g)
  end.
End Content.

(** ** The abstract file: a list of bytes *)
Definition content_bytes (c : Content) : list Z :=
  match c with Plain v => data v | Pin p => takeZ (pin_size p) (pin_memory p) end.
Definition spec_resize (n : Z) (bs : list Z) : list Z := takeZ n bs ++ zeros (n - lenZ bs).
Definition spec_write (offset : Z) (d bs : list Z) : list Z :=
  takeZ offset bs ++ zeros (offset - lenZ bs) ++ d ++ dropZ (offset + lenZ d) bs.
Definition spec_read (offset count : Z) (bs : list Z) : list Z := takeZ count (dropZ offset bs).
(** The representation invariant. *)
Definition content_ok `{Arch} (c : Content) : Prop :=
  match c with
  | Plain v => lenZ (data v) <= cap v
  | Pin p => 0 <= pin_size p <= pin_capacity p /\ lenZ (pin_memory p) = pin_capacity p
  end.

(** ** Refinement *)
Section Facts.
Context `{Arch}.

Lemma takeZ_app_ge {A} n (l k : list A) : lenZ l <= n -> takeZ n (l ++ k) = l ++ takeZ (n - lenZ l) k.
Proof. intros. list_pointwise. Qed.

Lemma spec_resize_same n bs : n = lenZ bs -> spec_resize n bs = bs.
Proof. intros ->. unfold spec_resize. list_pointwise. Qed.
Lemma lenZ_spec_resize n bs : 0 <= n -> lenZ (spec_resize n bs) = n.
Proof. intros. unfold spec_resize. pose proof (lenZ_nonneg bs). len. Qed.
Lemma lenZ_spec_write o d bs : 0 <= o -> lenZ (spec_write o d bs) = Z.max (lenZ bs) (o + lenZ d).
Proof. intros. unfold spec_write. pose proof (lenZ_nonneg bs). pose proof (lenZ_nonneg d). len. Qed.

Lemma content_len_bytes c : content_ok c -> content_len c = lenZ (content_bytes c).
Proof. destruct c as [v | p]; simpl; [done |]. intros [Hs Hm]. len. Qed.

(** The allocator leaves bytes alone; what it grants is what was asked for. *)
Lemma try_reserve_data n v g v' g' b : try_reserve n v g = (v', g', b) ->
  data v' = data v /\ (lenZ (data v) <= cap v -> lenZ (data v') <= cap v') /\
  (b = true -> n <= cap v' - lenZ (data v')).
Proof.
  unfold try_reserve. destruct (Z.leb_spec n (cap v - lenZ (data v))); [intros [= <- <- <-]; auto |].
  destruct (_ <? _); [intros [= <- <- <-]; done |].
  destruct (ask g) as [[a |] g1]; intros [= <- <- <-]; simpl; repeat split; try done; lia.
Qed.
Lemma try_reserve_exact_data n v g v' g' b : try_reserve_exact n v g = (v', g', b) ->
  data v' = data v /\ (lenZ (data v) <= cap v -> lenZ (data v') <= cap v') /\
  (b = true -> n <= cap v' - lenZ (data v')).
Proof.
  unfold try_reserve_exact. destruct (Z.leb_spec n (cap v - lenZ (data v))); [intros [= <- <- <-]; auto |].
  destruct (_ <? _); [intros [= <- <- <-]; done |].
  destruct (ask g) as [[a |] g1]; intros [= <- <- <-]; simpl; repeat split; try done; lia.
Qed.
(** A vector that was just given its room exactly has it: no second request can fail. *)
Lemma try_reserve_room n v g : n <= cap v - lenZ (data v) -> try_reserve n v g = (v, g, true).
Proof. unfold try_reserve. intros. destruct (Z.leb_spec n (cap v - lenZ (data v))); [done | lia]. Qed.

Lemma reserve_spec n room v g v' g' r : reserve n room (v, g) = (v', g', r) ->
  data v' = data v /\ (lenZ (data v) <= cap v -> lenZ (data v') <= cap v') /\
  match r with Ok _ => n <= room /\ n <= cap v' - lenZ (data v') | Err e => e = ENoSpace end.
Proof.
  unfold reserve. destruct (Z.ltb_spec room n); [intros [= <- <- <-]; done |].
  destruct (try_reserve n v g) as [[v1 g1] b1] eqn:H1. apply try_reserve_data in H1 as (D1 & C1 & B1).
  destruct b1; [intros [= <- <- <-]; auto |].
  destruct (try_reserve_exact n v1 g1) as [[v2 g2] b2] eqn:H2. apply try_reserve_exact_data in H2 as (D2 & C2 & B2).
  destruct b2; intros [= <- <- <-]; rewrite D2, D1 in *; auto.
Qed.

Lemma vec_resize_spec n room v g v' g' r :
  0 <= n -> lenZ (data v) <= cap v -> vec_resize n room (v, g) = (v', g', r) ->
  lenZ (data v') <= cap v' /\
  match r with
  | Ok _ => data v' = spec_resize n (data v) /\ n - lenZ (data v) <= Z.max 0 room
  | Err e => e = ENoSpace /\ data v' = data v
  end.
Proof.
  intros Hn Hv. unfold vec_resize. destruct (usize_try_from n) as [n' |] eqn:Hu; [| intros [= <- <- <-]; done].
  apply usize_try_from_Some in Hu as [-> _].
  destruct (Z.ltb_spec (lenZ (data v)) n).
  - unfold bind. destruct (reserve _ _ _) as [[v1 g1] r1] eqn:Hr. apply reserve_spec in Hr as (D & C & R).
    destruct r1 as [u | e]; simpl; intros [= <- <- <-]; simpl; rewrite ?D in *.
    + destruct R. split; [len |]. split; [unfold spec_resize; list_pointwise | lia].
    + auto.
  - pose proof (lenZ_nonneg (data v)). destruct (Z.eqb_spec n 0) as [-> | Hz].
    + intros [= <- <- <-]. simpl. split; [done |]. split; [unfold spec_resize; list_pointwise | lia].
    + assert (takeZ n (data v) = spec_resize n (data v)) as Ht by (unfold spec_resize; list_pointwise).
      destruct (Z.leb_spec n (cap (mkVec (takeZ n (data v)) (cap v)) / 2)); simpl.
      * destruct (try_reserve_exact n vec_new g) as [[v1 g1] b] eqn:Hr. apply try_reserve_exact_data in Hr as (D & C & B).
        destruct b; intros [= <- <- <-]; simpl; rewrite ?D in *; simpl; rewrite <- Ht.
        -- specialize (B eq_refl). simpl in B. split; [len | split; [done | lia]].
        -- split; [len | split; [done | lia]].
      * intros [= <- <- <-]; simpl. rewrite <- Ht. split; [len | split; [done | lia]].
Qed.

Lemma end_of_Some o n e : end_of o n = Some e -> e = o + n /\ o + n <= u64_max /\ o + n <= usize_max.
Proof.
  unfold end_of. destruct (checked_add u64_max o n) eqn:Hc; [| done].
  apply checked_add_Some in Hc as [-> ?]. intros [-> ?]%usize_try_from_Some. lia.
Qed.

Lemma vec_write_spec o d room v g v' g' r :
  0 <= o -> lenZ (data v) <= cap v -> vec_write o d room (v, g) = (v', g', r) ->
  lenZ (data v') <= cap v' /\
  match r with
  | Ok k => k = lenZ d /\ data v' = spec_write o d (data v) /\ o + lenZ d - lenZ (data v) <= Z.max 0 room
  | Err e => e = ENoSpace /\ data v' = data v
  end.
Proof.
  intros Ho Hv. unfold vec_write. destruct (end_of o (lenZ d)) as [e |] eqn:He; [| intros [= <- <- <-]; done].
  apply end_of_Some in He as (-> & _ & _). pose proof (lenZ_nonneg d). pose proof (lenZ_nonneg (data v)).
  replace (o + lenZ d - lenZ d) with o by lia.
  destruct (Z.ltb_spec (lenZ (data v)) (o + lenZ d)).
  - unfold bind. destruct (reserve _ _ _) as [[v1 g1] r1] eqn:Hr. apply reserve_spec in Hr as (D & C & R).
    destruct r1 as [u | e]; simpl.
    + destruct R as [R1 R2]. rewrite ?D in *. destruct (Z.ltb_spec (lenZ (data v)) o); simpl;
        intros [= <- <- <-]; simpl; rewrite ?D in *.
      * replace (Z.min _ _ - o) with 0 by len. split; [len |]. split; [done |]. split; [| lia].
        unfold spec_write. list_pointwise.
      * replace (Z.min _ _ - o) with (lenZ (data v) - o) by lia. split; [len |]. split; [done |]. split; [| lia].
        unfold spec_write. list_pointwise.
    + intros [= <- <- <-]. rewrite ?D in *. auto.
  - unfold bind; simpl. intros [= <- <- <-]; simpl.
    replace (Z.min _ _ - o) with (lenZ d) by lia.
    split; [len |]. split; [done |]. split; [| lia]. unfold spec_write. list_pointwise.
Qed.

(** ** Pinned pages *)
Lemma set_size_spec n p : 0 <= n <= pin_capacity p -> content_ok (Pin p) ->
  content_ok (Pin (set_size n p)) /\ content_bytes (Pin (set_size n p)) = spec_resize n (content_bytes (Pin p)).
Proof.
  intros Hn [Hs Hm]. unfold set_size; simpl. split; [split; [lia |]; len |].
  unfold spec_resize. list_pointwise.
Qed.

Lemma unpin_spec w p g c' g' r : 0 <= w -> content_ok (Pin p) -> unpin w (Pin p, g) = (c', g', r) ->
  match r with
  | Ok _ => exists v, c' = Plain v /\ data v = takeZ w (content_bytes (Pin p)) /\ lenZ (data v) <= cap v /\ w <= cap v
  | Err e => c' = Pin p /\ e = ENoSpace
  end.
Proof.
  intros Hw [Hs Hm]. unfold unpin. destruct (try_reserve_exact w vec_new g) as [[v1 g1] b] eqn:Hr.
  apply try_reserve_exact_data in Hr as (D & C & B). rewrite D in B. simpl in B.
  destruct b; intros [= <- <- <-]; [| done]. specialize (B eq_refl). len.
  eexists. split; [done |]. simpl. split; [list_pointwise |]. split; [len | lia].
Qed.

(** What [prepare] leaves: either the content as it was, or a vector that holds what is wanted of it and
    has the room, so that nothing after it can fail. *)
Lemma prepare_spec w room mapped c g c' g' r : 0 <= w -> content_ok c -> prepare w room mapped (c, g) = (c', g', r) ->
  match r with
  | Ok _ => (c' = c /\ match c with Pin p => w <= pin_capacity p /\ w - pin_size p <= Z.max 0 room | Plain _ => True end) \/
            exists p v, c = Pin p /\ c' = Plain v /\ data v = takeZ w (content_bytes c) /\ lenZ (data v) <= cap v /\ w <= cap v /\
                        w - pin_size p <= Z.max 0 room
  | Err e => c' = c /\ e = ENoSpace
  end.
Proof.
  intros Hw Hc. unfold prepare. destruct c as [v | p]; [intros [= <- <- <-]; auto |].
  destruct (Z.ltb_spec room (saturating_sub w (pin_size p))) as [Hr | Hr]; [intros [= <- <- <-]; done |].
  unfold saturating_sub in Hr.
  destruct mapped.
  { destruct (Z.ltb_spec (pin_capacity p) w); intros [= <- <- <-]; [done |]. left. split; [done | lia]. }
  destruct (negb (pin_capacity p <? w) && negb (w <=? pin_capacity p / 2)) eqn:Hk.
  { intros [= <- <- <-]. left. split; [done |]. destruct (Z.ltb_spec (pin_capacity p) w); [done | lia]. }
  destruct (unpin w (Pin p, g)) as [[c1 g1] r1] eqn:Hu. apply unpin_spec in Hu; [| done | done].
  destruct r1 as [u | e].
  - intros [= <- <- <-]. destruct Hu as (v & -> & Hd & Hl & Hcap). right. exists p, v. split_and!; try done. lia.
  - destruct Hu as [-> ->]. destruct (Z.ltb_spec (pin_capacity p) w); intros [= <- <- <-]; [done |]. left. split; [done | lia].
Qed.

Lemma content_resize_ok n room mapped c g c' g' r :
  0 <= n -> content_ok c -> content_resize n room mapped (c, g) = (c', g', r) ->
  content_ok c' /\
  match r with
  | Ok _ => content_bytes c' = spec_resize n (content_bytes c) /\ n - content_len c <= Z.max 0 room
  | Err e => e = ENoSpace /\ content_bytes c' = content_bytes c
  end.
Proof.
  intros Hn Hc. unfold content_resize. destruct (usize_try_from n) as [w |] eqn:Hu; [| intros [= <- <- <-]; done].
  apply usize_try_from_Some in Hu as [-> Hu].
  unfold bind. destruct (prepare n room mapped (c, g)) as [[c1 g1] r1] eqn:Hp.
  apply prepare_spec in Hp; [| done | done]. destruct r1 as [u | e].
  2: { destruct Hp as [-> ->]. intros [= <- <- <-]. auto. }
  destruct Hp as [[-> Hfit] | (p & v & -> & -> & Hd & Hl & Hcap & Hroom)].
  - destruct c as [v | p].
    + unfold on_vec. destruct (vec_resize n room (v, g1)) as [[v2 g2] r2] eqn:Hv.
      apply vec_resize_spec in Hv as [Hv Hr]; [| done | done]. intros [= <- <- <-]. simpl. auto.
    + intros [= <- <- <-]. destruct (set_size_spec n p) as [? ?]; [lia | done |]. split; [done |]. split; [done | simpl; lia].
  - unfold on_vec, vec_resize. unfold usize_try_from. destruct (Z.leb_spec n usize_max); [| lia].
    destruct Hc as [Hs Hm]. assert (content_bytes (Pin p) = takeZ (pin_size p) (pin_memory p)) as Hb by done.
    assert (lenZ (content_bytes (Pin p)) = pin_size p) as Hlen by (rewrite Hb; len).
    assert (lenZ (data v) = Z.min n (pin_size p)) as Hdl by (rewrite Hd; len).
    destruct (Z.ltb_spec (lenZ (data v)) n) as [Hlt | Hge].
    + unfold bind, reserve. destruct (Z.ltb_spec room (n - lenZ (data v))); [lia |].
      rewrite try_reserve_room by lia. simpl. intros [= <- <- <-]. simpl. split; [len |].
      split; [| lia]. rewrite Hd, Hb. unfold spec_resize. list_pointwise.
    + assert (takeZ n (data v) = spec_resize n (content_bytes (Pin p))) as Ht.
      { rewrite Hd. unfold spec_resize. list_pointwise. }
      destruct (Z.eqb_spec n 0) as [-> | Hz].
      * intros [= <- <- <-]. simpl content_ok. split; [done |]. split; [rewrite <- Ht; done | simpl; lia].
      * destruct (_ <=? _); simpl.
        -- destruct (try_reserve_exact n vec_new g1) as [[v1 g2] b] eqn:Hr. apply try_reserve_exact_data in Hr as (D & C & B).
           destruct b; intros [= <- <- <-]; simpl; rewrite ?D in *; simpl.
           ++ specialize (B eq_refl). simpl in B. split; [len | split; [done | lia]].
           ++ split; [len | split; [done | lia]].
        -- intros [= <- <- <-]. simpl. split; [len | split; [done | lia]].
Qed.

(** Writing into pinned pages, once they hold the end of the range. *)
Lemma pinned_write_spec o d p : 0 <= o -> o + lenZ d <= pin_capacity p -> content_ok (Pin p) ->
  let q := if pin_size p <? o + lenZ d then set_size (o + lenZ d) p else p in
  let r := mkPinned (pin_base q) (takeZ o (pin_memory q) ++ d ++ dropZ (o + lenZ d) (pin_memory q)) (pin_size q) (pin_capacity q) in
  content_ok (Pin r) /\ content_bytes (Pin r) = spec_write o d (content_bytes (Pin p)).
Proof.
  intros Ho Hfit [Hs Hm] q r. pose proof (lenZ_nonneg d). subst q r.
  destruct (Z.ltb_spec (pin_size p) (o + lenZ d)) as [Hlt | Hge]; simpl; (split; [split; [lia |]; len |]).
  - rewrite (Z.min_l (pin_size p)), (Z.max_r (pin_size p)) by lia. unfold spec_write. list_pointwise.
  - unfold spec_write. list_pointwise.
Qed.

Lemma content_write_ok o d room mapped c g c' g' r :
  0 <= o -> content_ok c -> content_write o d room mapped (c, g) = (c', g', r) ->
  content_ok c' /\
  match r with
  | Ok k => k = lenZ d /\ content_bytes c' = spec_write o d (content_bytes c) /\
            o + lenZ d - content_len c <= Z.max 0 room
  | Err e => e = ENoSpace /\ content_bytes c' = content_bytes c
  end.
Proof.
  intros Ho Hc. unfold content_write. destruct (end_of o (lenZ d)) as [e |] eqn:He; [| intros [= <- <- <-]; done].
  pose proof He as He'. apply end_of_Some in He' as (-> & Hu64 & Husz).
  pose proof (lenZ_nonneg d). pose proof (content_len_bytes c Hc) as Hlen. pose proof (lenZ_nonneg (content_bytes c)).
  unfold bind. destruct (prepare _ room mapped (c, g)) as [[c1 g1] r1] eqn:Hp.
  apply prepare_spec in Hp; [| lia | done]. destruct r1 as [u | e].
  2: { destruct Hp as [-> ->]. intros [= <- <- <-]. auto. }
  destruct Hp as [[-> Hfit] | (p & v & -> & -> & Hd & Hl & Hcap & Hroom)].
  - destruct c as [v | p].
    + unfold on_vec. destruct (vec_write o d room (v, g1)) as [[v2 g2] r2] eqn:Hv.
      apply vec_write_spec in Hv as [Hv Hr]; [| done | done]. intros [= <- <- <-]. simpl. auto.
    + replace (o + lenZ d - lenZ d) with o by lia. intros [= <- <- <-]. simpl content_len in *.
      destruct (pinned_write_spec o d p) as [? Hb]; [done | lia | done |].
      split; [done |]. split; [done |]. split; [exact Hb | lia].
  - assert (data v = content_bytes (Pin p)) as Hdv.
    { rewrite Hd. apply takeZ_ge. lia. }
    unfold on_vec. destruct (vec_write o d room (v, g1)) as [[v2 g2] r2] eqn:Hv.
    pose proof Hv as Hv'. apply vec_write_spec in Hv' as [Hv2 Hr]; [| done | done]. intros [= <- <- <-].
    split; [done |]. destruct r2 as [k | e]; rewrite Hdv in Hr; simpl content_bytes.
    + simpl content_len in *. destruct Hr as (-> & Hr1 & Hr2). split; [done |]. split; [exact Hr1 |]. lia.
    + exact Hr.
Qed.

(** [Content::resize] implements truncation and zero-filled extension of a byte string, whether the
    file is a vector or pinned pages and whatever the allocator answers: it keeps the representation
    invariant, gives exactly the specified bytes and never grows past the room when it succeeds, and when
    it fails the failure is [NoSpace] and not a byte has changed. *)
Theorem content_resize_refines (n room : Z) (mapped : bool) (c c' : Content) (g g' : answers) (r : Result unit) :
  0 <= n -> content_ok c -> content_resize n room mapped (c, g) = (c', g', r) ->
  content_ok c' /\
  match r with
  | Ok _ => content_bytes c' = spec_resize n (content_bytes c) /\ n - content_len c <= Z.max 0 room
  | Err e => e = ENoSpace /\ content_bytes c' = content_bytes c
  end.
Proof. apply content_resize_ok. Qed.

(** C11: [Content::write] implements the write of a byte string at an offset, with a zero-filled gap when
    the offset lies behind the end, in both representations and for every answer of the allocator; a write
    that fails is refused whole. *)
Theorem content_write_refines (o room : Z) (d : list Z) (mapped : bool) (c c' : Content) (g g' : answers) (r : Result Z) :
  0 <= o -> content_ok c -> content_write o d room mapped (c, g) = (c', g', r) ->
  content_ok c' /\
  match r with
  | Ok k => k = lenZ d /\ content_bytes c' = spec_write o d (content_bytes c) /\
            o + lenZ d - content_len c <= Z.max 0 room
  | Err e => e = ENoSpace /\ content_bytes c' = content_bytes c
  end.
Proof. apply content_write_ok. Qed.

Lemma content_read_spec c o n : content_ok c -> 0 <= o <= usize_max -> 0 <= n ->
  content_read c o n = spec_read o n (content_bytes c).
Proof.
  intros Hc Ho Hn. unfold content_read, usize_try_from, spec_read. destruct (Z.leb_spec o usize_max); [| lia].
  pose proof (content_len_bytes c Hc) as Hl.
  destruct (Z.ltb_spec o (content_len c)); (destruct c as [v | p]; simpl in *; [| destruct Hc]; list_pointwise).
Qed.

Lemma content_read_back o room d mapped c c' g g' k : 0 <= o -> content_ok c ->
  content_write o d room mapped (c, g) = (c', g', Ok k) -> o <= usize_max /\ content_read c' o (lenZ d) = d.
Proof.
  intros Ho Hc Hw. assert (o <= usize_max) as Hou.
  { unfold content_write in Hw. destruct (end_of o (lenZ d)) as [e |] eqn:He; [| done].
    apply end_of_Some in He. pose proof (lenZ_nonneg d). lia. }
  split; [done |]. apply content_write_ok in Hw as (Hc' & -> & Hb & _); [| done | done].
  rewrite content_read_spec by (try done; unfold lenZ; lia). rewrite Hb. unfold spec_read, spec_write. list_pointwise.
Qed.

(** What was written is what is read.  After a write that succeeded, a read of the same range returns
    the written bytes, and a read of any range that does not meet it and lay inside the file returns what
    it returned before. *)
Theorem content_write_read (o room : Z) (d : list Z) (mapped : bool) (c c' : Content) (g g' : answers) (k : Z) :
  0 <= o -> content_ok c -> content_write o d room mapped (c, g) = (c', g', Ok k) ->
  content_read c' o (lenZ d) = d /\
  forall o' n, 0 <= o' -> 0 <= n -> o' + n <= content_len c -> o' + n <= o \/ o + lenZ d <= o' ->
    content_len c <= usize_max -> content_read c' o' n = content_read c o' n.
Proof.
  intros Ho Hc Hw. destruct (content_read_back _ _ _ _ _ _ _ _ _ Ho Hc Hw) as [Hou Hback].
  apply content_write_ok in Hw as (Hc' & -> & Hb & _); [| done | done].
  pose proof (content_len_bytes c Hc) as Hl. split; [done |].
  intros o' n Ho' Hn Hin Hdis Hmax. rewrite !content_read_spec by (done || lia). rewrite Hb.
  unfold spec_read, spec_write. list_pointwise.
Qed.
End Facts.

(** Witnesses: a pinned file of five bytes in one page that is mapped, and an allocator that refuses. *)
Definition pinned5 : Content := Pin (mkPinned 8192 (bytes "hello" ++ zeros 4091) 5 4096).
Lemma pinned5_ok : content_ok (H := arch64) pinned5.
Proof. vm_compute. repeat split; congruence. Qed.

Lemma content_resize_refines_witness :
  let '(c, _, r) := @content_resize arch64 7 100 true (pinned5, [None]) in
  r = Ok tt /\ content_bytes c = bytes "hello" ++ [0; 0].
Proof.
  destruct (@content_resize arch64 7 100 true (pinned5, [None])) as [[c g] r] eqn:E.
  pose proof (@content_resize_refines arch64 7 100 true pinned5 c [None] g r ltac:(lia) pinned5_ok E) as [_ Hr].
  assert (r = Ok tt) as -> by (vm_compute in E; by injection E as <- <- <-).
  split; [done |]. destruct Hr as [-> _]. vm_compute. done.
Defined.
Lemma content_write_refines_witness :
  let '(c, _, r) := @content_write arch64 6 (bytes "x") 0 true (pinned5, []) in
  r = Err ENoSpace /\ content_bytes c = bytes "hello".
Proof.
  destruct (@content_write arch64 6 (bytes "x") 0 true (pinned5, [])) as [[c g] r] eqn:E.
  pose proof (@content_write_refines arch64 6 0 (bytes "x") true pinned5 c [] g r ltac:(lia) pinned5_ok E) as [_ Hr].
  assert (r = Err ENoSpace) as -> by (vm_compute in E; by injection E as <- <- <-).
  split; [done |]. destruct Hr as [_ ->]. vm_compute. done.
Defined.
Lemma content_write_read_witness :
  let '(c, _, r) := @content_write arch64 6 (bytes "xy") 100 false (pinned5, []) in
  @content_read arch64 c 6 2 = bytes "xy" /\ @content_read arch64 c 1 3 = bytes "ell".
Proof.
  destruct (@content_write arch64 6 (bytes "xy") 100 false (pinned5, [])) as [[c g] r] eqn:E.
  assert (r = Ok 2) as -> by (vm_compute in E; by injection E as <- <- <-).
  pose proof (@content_write_read arch64 6 100 (bytes "xy") false pinned5 c [] g 2 ltac:(lia) pinned5_ok E) as [H1 H2].
  split; [exact H1 |]. rewrite (H2 1 3); [vm_compute; done | ..]; vm_compute; intuition congruence.
Defined.
