(* ===== verification/Queue.v ===== *)
(** * Queue.v: the event queue of a watcher

    [src/crates/dotnet-pal-memfs/src/lib.rs], the type [Queue] ([new], [push], [record],
    [pop]), and [Event::new] of [src/src/watches.rs].  Events wait as bytes in a ring
    buffer: three words, a name length and the name.  Abstractly the queue is a list of
    records; what does not fit is lost, and one [OVERFLOW] record stands for the loss. *)
From S2P Require Import Prelude Port Content.
Local Open Scope Z_scope.

(** ** Kinds of events ([watches.rs]) *)
Definition W_ACCESS := 1.
Definition W_MODIFY := 2.
Definition W_ATTRIBUTES := 4.
Definition W_MOVED_FROM := 8.
Definition W_MOVED_TO := 16.
Definition W_CREATE := 32.
Definition W_DELETE := 64.
Definition W_OVERFLOW := 128.
Definition W_REMOVED := 256.
Definition W_DIRECTORY := 512.
Definition W_ONLY_DIRECTORY := 1024.
Definition W_NO_FOLLOW := 2048.
Definition REQUESTABLE : Z := Z.lor W_ACCESS (Z.lor W_MODIFY (Z.lor W_ATTRIBUTES (Z.lor W_MOVED_FROM (Z.lor W_MOVED_TO (Z.lor W_CREATE W_DELETE))))).
Definition MAX_ENTRY_NAME : Z := 255.

Record Event := mkEvent { ev_watch : Z; ev_events : Z; ev_cookie : Z; ev_name_length : Z; ev_name : list Z }.
Definition event_EMPTY : Event := mkEvent 0 0 0 0 (zeros 256).
(** [Event::new] *)
Definition event_new (watch events cookie : Z) (name : list Z) : option Event :=
  if (MAX_ENTRY_NAME <? lenZ name) || existsb (fun b => (b =? 0) || (b =? 47)) name then None
  else Some (mkEvent watch events cookie (lenZ name) (name ++ zeros (256 - lenZ name))).

(** ** Bytes of a [u32] in the machine's order *)
Class Endian := { big_endian : bool }.
Definition le_bytes (w : Z) : list Z := [w mod 256; w / 256 mod 256; w / 65536 mod 256; w / 16777216 mod 256].
Definition le_word (b : list Z) : Z :=
  match b with [b0; b1; b2; b3] => b0 + 256 * b1 + 65536 * b2 + 16777216 * b3 | _ => 0 end.
Definition to_ne_bytes `{Endian} (w : Z) : list Z := if big_endian then rev (le_bytes w) else le_bytes w.
Definition from_ne_bytes `{Endian} (b : list Z) : Z := le_word (if big_endian then rev b else b).

Section Queue.
Context `{Arch} `{Endian}.

Definition QUEUE_LIMIT : Z := 1024.
Definition HEADER : Z := 13.
Record Queue := mkQueue { q_bytes : Vec; q_count : Z; q_lost : bool }.

(** [Queue::new] *)
Definition queue_new (g : answers) : answers * Result Queue :=
  let '(bytes, g, granted) := try_reserve HEADER vec_new g in
  if (granted : bool) then (g, Ok (mkQueue bytes 0 false)) else (g, Err EOutOfMemory).

(** [Queue::record]: the pushes of the source append without asking; [cap] is unchanged where they fit,
    and [queue_push_fits] shows that they always do. *)
Definition queue_record (watch events cookie : Z) (name : list Z) (q : Queue) : Queue :=
  mkQueue (mkVec (data (q_bytes q) ++ to_ne_bytes watch ++ to_ne_bytes events ++ to_ne_bytes cookie
                  ++ [lenZ name mod 256] ++ name) (cap (q_bytes q)))
          (q_count q + 1) (q_lost q).

(** [Queue::push] *)
Definition queue_push (watch events cookie : Z) (name : list Z) (q : Queue) (g : answers) : Queue * answers :=
  let overflow q g :=
    if q_lost q then (q, g)
    else (queue_record 0 W_OVERFLOW 0 [] (mkQueue (q_bytes q) (q_count q) true), g) in
  if QUEUE_LIMIT <=? q_count q then overflow q g else
  let '(bytes, g, granted) := try_reserve (2 * HEADER + lenZ name) (q_bytes q) g in
  let q := mkQueue bytes (q_count q) (q_lost q) in
  if (granted : bool) then (queue_record watch events cookie name q, g) else overflow q g.

(** [Queue::pop] *)
Definition queue_pop (q : Queue) (g : answers) : Queue * answers * option Event :=
  if q_count q =? 0 then (q, g, None) else
  let b := data (q_bytes q) in
  let w0 := from_ne_bytes (takeZ 4 b) in
  let w1 := from_ne_bytes (takeZ 4 (dropZ 4 b)) in
  let w2 := from_ne_bytes (takeZ 4 (dropZ 8 b)) in
  match dropZ 12 b with
  | [] => (mkQueue (mkVec [] (cap (q_bytes q))) (q_count q) (q_lost q), g, None)
  | length :: b =>
      let name := takeZ length b in
      let bytes := mkVec (dropZ length b) (cap (q_bytes q)) in
      let count := q_count q - 1 in
      let lost := if has w1 W_OVERFLOW then false else q_lost q in
      let '(bytes, g) :=
        if (count =? 0) && (PAGE <? cap bytes) then
          let '(fresh, g, granted) := try_reserve HEADER vec_new g in
          if (granted : bool) then (fresh, g) else (bytes, g)
        else (bytes, g) in
      (mkQueue bytes count lost, g,
       Some (match event_new w0 w1 w2 name with
             | Some e => e
             | None => mkEvent 0 W_OVERFLOW 0 0 (zeros 256)
             end))
  end.
End Queue.

(** ** The abstract queue *)
Record Entry := mkEntry { e_watch : Z; e_events : Z; e_cookie : Z; e_name : list Z }.
Definition overflow_entry : Entry := mkEntry 0 W_OVERFLOW 0 [].
Definition u32_ok (w : Z) : Prop := 0 <= w <= u32_max.
(** What the callers of [push] queue: words, a name that fits and no [OVERFLOW] of their own. *)
Definition entry_ok (e : Entry) : Prop :=
  u32_ok (e_watch e) /\ u32_ok (e_events e) /\ u32_ok (e_cookie e) /\ lenZ (e_name e) <= MAX_ENTRY_NAME.
Definition is_overflow (e : Entry) : bool := has (e_events e) W_OVERFLOW.
Definition encode `{Endian} (e : Entry) : list Z :=
  to_ne_bytes (e_watch e) ++ to_ne_bytes (e_events e) ++ to_ne_bytes (e_cookie e) ++ [lenZ (e_name e)] ++ e_name e.
Definition overflows (l : list Entry) : nat := length (filter (fun e => is_overflow e = true) l).

(** [q] holds the records [l]: the bytes are their encodings in order, [lost] says that the overflow record
    is among them, once, and until it is there is spare room for it. *)
Definition queue_repr `{Endian} (q : Queue) (l : list Entry) : Prop :=
  data (q_bytes q) = concat (encode <$> l) /\ q_count q = lenZ l /\ Forall entry_ok l /\
  overflows l = (if q_lost q then 1 else 0)%nat /\
  lenZ (data (q_bytes q)) <= cap (q_bytes q) /\
  (q_lost q = false -> lenZ (data (q_bytes q)) + HEADER <= cap (q_bytes q)) /\
  lenZ l <= QUEUE_LIMIT + (if q_lost q then 1 else 0).
(** What the reader gets for a record. *)
Definition event_of (e : Entry) : Event :=
  match event_new (e_watch e) (e_events e) (e_cookie e) (e_name e) with
  | Some ev => ev
  | None => mkEvent 0 W_OVERFLOW 0 0 (zeros 256)
  end.

Section Facts.
Context `{Arch} `{Endian}.

Lemma ne_roundtrip w : u32_ok w -> from_ne_bytes (to_ne_bytes w) = w.
Proof.
  intros [Hl Hh]. unfold u32_max in Hh. unfold from_ne_bytes, to_ne_bytes.
  assert (le_word (le_bytes w) = w) as Hw.
  { unfold le_word, le_bytes.
    pose proof (Z.div_mod w 256). pose proof (Z.div_mod (w / 256) 256). pose proof (Z.div_mod (w / 65536) 256).
    rewrite (Z.mod_small (w / 16777216)) by (split; [apply Z.div_pos; lia | apply Z.div_lt_upper_bound; lia]).
    assert (w / 256 / 256 = w / 65536) by (rewrite Z.div_div; done || lia).
    assert (w / 65536 / 256 = w / 16777216) by (rewrite Z.div_div; done || lia). lia. }
  destruct big_endian; [| done]. rewrite rev_involutive. done.
Qed.
Lemma length_to_ne_bytes w : length (to_ne_bytes w) = 4%nat.
Proof. unfold to_ne_bytes. by destruct big_endian. Qed.
Lemma lenZ_to_ne_bytes w : lenZ (to_ne_bytes w) = 4.
Proof. unfold lenZ. by rewrite length_to_ne_bytes. Qed.
Lemma lenZ_encode e : lenZ (encode e) = HEADER + lenZ (e_name e).
Proof. unfold encode, HEADER. rewrite !lenZ_app, !lenZ_to_ne_bytes. len. Qed.

Lemma queue_new_repr g g' q : queue_new g = (g', Ok q) -> queue_repr q [].
Proof.
  unfold queue_new. destruct (try_reserve HEADER vec_new g) as [[b g1] granted] eqn:Hr.
  apply try_reserve_data in Hr as (D & C & B). destruct granted; intros [= <- <-].
  specialize (B eq_refl). simpl in *. rewrite D in *. unfold queue_repr. simpl. rewrite D. len.
  repeat split; try done; lia.
Qed.

Lemma overflows_app l e : overflows (l ++ [e]) = (overflows l + if is_overflow e then 1 else 0)%nat.
Proof. unfold overflows. rewrite filter_app, length_app. f_equal. rewrite filter_cons. by destruct (is_overflow e). Qed.

(** Appending a record where there is room for it. *)
Lemma queue_record_repr q l e (lost : bool) :
  queue_repr q l -> entry_ok e -> lenZ l + 1 <= QUEUE_LIMIT + (if lost then 1 else 0) ->
  lenZ (data (q_bytes q)) + lenZ (encode e) <= cap (q_bytes q) ->
  (lost = false -> lenZ (data (q_bytes q)) + lenZ (encode e) + HEADER <= cap (q_bytes q)) ->
  overflows (l ++ [e]) = (if lost then 1 else 0)%nat ->
  queue_repr (queue_record (e_watch e) (e_events e) (e_cookie e) (e_name e) (mkQueue (q_bytes q) (q_count q) lost)) (l ++ [e]).
Proof.
  intros (Hb & Hc & Hf & Ho & Hcap & Hs & Hl) He Hlim Hroom Hspare Hov.
  assert (lenZ (e_name e) mod 256 = lenZ (e_name e)) as Hmod.
  { apply Z.mod_small. destruct He as (_ & _ & _ & Hn). unfold MAX_ENTRY_NAME in Hn. pose proof (lenZ_nonneg (e_name e)). lia. }
  unfold queue_repr, queue_record. cbn [q_bytes q_count q_lost data cap]. rewrite Hmod. fold (encode e).
  rewrite fmap_app, concat_app, <- Hb. cbn [fmap list_fmap concat]. rewrite app_nil_r.
  rewrite !lenZ_app, lenZ_cons, lenZ_nil. split_and!; [done | lia | apply Forall_app; auto | done | lia | | lia].
  intros El. specialize (Hspare El). lia.
Qed.

Lemma overflow_entry_ok : entry_ok overflow_entry.
Proof. vm_compute. intuition congruence. Qed.

(** Losing an event: the overflow record goes in, unless it is there already. *)
Lemma queue_lose_repr q l (g : answers) q' g' :
  queue_repr q l ->
  (if q_lost q then (q, g) else (queue_record 0 W_OVERFLOW 0 [] (mkQueue (q_bytes q) (q_count q) true), g)) = (q', g') ->
  q_lost q' = true /\ queue_repr q' (if q_lost q then l else l ++ [overflow_entry]).
Proof.
  intros Hq. destruct (q_lost q) eqn:El; intros [= <- <-]; [done |]. split; [done |].
  pose proof Hq as (_ & _ & _ & Ho & _ & Hs & Hl). rewrite El in Ho, Hl. specialize (Hs El).
  apply (queue_record_repr q l overflow_entry true);
    [done | apply overflow_entry_ok | lia | rewrite lenZ_encode; simpl; len | done | by rewrite overflows_app, Ho].
Qed.

Lemma queue_repr_grow q l v :
  queue_repr q l -> data v = data (q_bytes q) -> (lenZ (data (q_bytes q)) <= cap (q_bytes q) -> lenZ (data v) <= cap v) ->
  cap (q_bytes q) <= cap v -> queue_repr (mkQueue v (q_count q) (q_lost q)) l.
Proof.
  intros (Hb & Hc & Hf & Ho & Hcap & Hs & Hl) Hd Hk Hle. unfold queue_repr. simpl. rewrite Hd in *.
  split_and!; try done; try lia. intros El. specialize (Hs El). lia.
Qed.

Lemma try_reserve_cap n v g v' g' b : try_reserve n v g = (v', g', b) -> lenZ (data v) <= cap v -> cap v <= cap v'.
Proof.
  unfold try_reserve. destruct (Z.leb_spec n (cap v - lenZ (data v))); [intros [= <- <- <-]; lia |].
  destruct (_ <? _); [intros [= <- <- <-]; lia |].
  destruct (ask g) as [[a |] g1]; intros [= <- <- <-]; simpl; pose proof (lenZ_nonneg (data v)); lia.
Qed.

(** What a push does to the records. *)
Lemma queue_push_repr e q l g q' g' :
  queue_repr q l -> entry_ok e -> is_overflow e = false ->
  queue_push (e_watch e) (e_events e) (e_cookie e) (e_name e) q g = (q', g') ->
  (q_lost q' = q_lost q /\ queue_repr q' (l ++ [e])) \/
  (q_lost q' = true /\ queue_repr q' (if q_lost q then l else l ++ [overflow_entry])).
Proof.
  intros Hq He Hov. unfold queue_push.
  destruct (Z.leb_spec QUEUE_LIMIT (q_count q)) as [Hlim | Hlim]; [intros Hp; right; by eapply queue_lose_repr |].
  destruct (try_reserve _ (q_bytes q) g) as [[v g1] b] eqn:Hr.
  pose proof Hq as (_ & Hc & _ & Ho & Hcap & _ & _).
  pose proof (try_reserve_cap _ _ _ _ _ _ Hr Hcap) as Hle. apply try_reserve_data in Hr as (D & C & B).
  apply (queue_repr_grow _ _ v) in Hq; [| done | done | done].
  destruct b; [| intros Hp; right; exact (queue_lose_repr _ _ _ _ _ Hq Hp)].
  intros [= <- <-]. left. split; [done |]. specialize (B eq_refl).
  apply (queue_record_repr _ l e (q_lost q) Hq); cbn [q_bytes q_count q_lost]; rewrite ?lenZ_encode;
    unfold HEADER in *; [done | destruct (q_lost q); lia | lia | lia | rewrite overflows_app, Ho, Hov; destruct (q_lost q); lia].
Qed.

Lemma takeZ_app_exact {A} n (l k : list A) : n = lenZ l -> takeZ n (l ++ k) = l.
Proof. intros ->. unfold takeZ, lenZ. rewrite Nat2Z.id. apply take_app_length. Qed.
Lemma dropZ_app_exact {A} n (l k : list A) : n = lenZ l -> dropZ n (l ++ k) = k.
Proof. intros ->. unfold dropZ, lenZ. rewrite Nat2Z.id. apply drop_app_length. Qed.
Lemma dropZ_dropZ {A} n m (l : list A) : 0 <= n -> 0 <= m -> dropZ n (dropZ m l) = dropZ (m + n) l.
Proof. intros. unfold dropZ. rewrite drop_drop. f_equal. lia. Qed.

(** Decoding the first record of the bytes. *)
Lemma decode_encode e rest :
  let b := encode e ++ rest in
  takeZ 4 b = to_ne_bytes (e_watch e) /\ takeZ 4 (dropZ 4 b) = to_ne_bytes (e_events e) /\
  takeZ 4 (dropZ 8 b) = to_ne_bytes (e_cookie e) /\ dropZ 12 b = lenZ (e_name e) :: e_name e ++ rest.
Proof.
  simpl. unfold encode. rewrite <- !app_assoc.
  rewrite takeZ_app_exact by (by rewrite lenZ_to_ne_bytes).
  replace 12 with (8 + 4) by done. rewrite <- dropZ_dropZ by lia. replace 8 with (4 + 4) by done. rewrite <- dropZ_dropZ by lia.
  do 2 rewrite (dropZ_app_exact 4) by (by rewrite lenZ_to_ne_bytes).
  rewrite !takeZ_app_exact by (by rewrite lenZ_to_ne_bytes).
  rewrite (dropZ_app_exact 4) by (by rewrite lenZ_to_ne_bytes). done.
Qed.

Lemma overflows_cons e l : overflows (e :: l) = ((if is_overflow e then 1 else 0) + overflows l)%nat.
Proof. unfold overflows. rewrite filter_cons. by destruct (is_overflow e). Qed.

Lemma queue_pop_repr e q l g q' g' r :
  queue_repr q (e :: l) -> queue_pop q g = (q', g', r) -> r = Some (event_of e) /\ queue_repr q' l.
Proof.
  intros (Hb & Hc & Hf & Ho & Hcap & Hs & Hl). apply Forall_cons in Hf as [He Hf].
  pose proof (lenZ_nonneg l). pose proof He as (Hw & Hv & Hk & Hn). pose proof (lenZ_nonneg (e_name e)).
  rewrite lenZ_cons in Hc, Hl. rewrite overflows_cons in Ho.
  unfold queue_pop. cbv zeta. destruct (Z.eqb_spec (q_count q) 0); [lia |].
  rewrite fmap_cons in Hb. cbn [concat] in Hb. rewrite Hb in Hcap, Hs |- *. pose proof (decode_encode e (concat (encode <$> l))) as (D0 & D1 & D2 & D3).
  rewrite D0, D1, D2, D3, !ne_roundtrip by done.
  rewrite takeZ_app_exact, dropZ_app_exact by done. fold (is_overflow e).
  rewrite lenZ_app, lenZ_encode in *.
  set (rest := concat (encode <$> l)) in *.
  destruct ((q_count q - 1 =? 0) && (PAGE <? cap (mkVec rest (cap (q_bytes q))))) eqn:Hz; simpl.
  - destruct (try_reserve HEADER vec_new g) as [[v g1] b] eqn:Hr. apply try_reserve_data in Hr as (D & C & B).
    apply andb_true_iff in Hz as [Hz%Z.eqb_eq _].
    assert (l = []) as -> by (destruct l; [done |]; unfold lenZ in *; simpl in *; lia).
    simpl in rest. subst rest. simpl in D.
    destruct b; intros [= <- <- <-]; (split; [done |]); unfold queue_repr; simpl; rewrite ?D in *; simpl in *.
    + specialize (B eq_refl). unfold HEADER in *. destruct (is_overflow e), (q_lost q); split_and!; try done; len.
    + unfold HEADER in *. destruct (is_overflow e), (q_lost q); split_and!; try done; len.
  - intros [= <- <- <-]. split; [done |]. unfold queue_repr. simpl. fold rest.
    unfold HEADER in *. destruct (is_overflow e), (q_lost q); simpl in *; split_and!; try done; lia.
Qed.

(** The queue a watcher starts with, pushed to and popped from in any order. *)
Inductive QueueOp := Push (e : Entry) | Pop.
Definition queue_op (o : QueueOp) (q : Queue) (g : answers) : Queue * answers * option Event :=
  match o with
  | Push e => (queue_push (e_watch e) (e_events e) (e_cookie e) (e_name e) q g, None)
  | Pop => queue_pop q g
  end.
Definition op_ok (o : QueueOp) : Prop :=
  match o with Push e => entry_ok e /\ is_overflow e = false | Pop => True end.
(** What the operations may do to the list of records: a push appends its record or is lost, with one overflow
    record standing for everything lost until the reader has seen it; a pop takes the oldest record. *)
Inductive spec_op : QueueOp -> list Entry -> list Entry -> option Event -> Prop :=
| spec_push e l : spec_op (Push e) l (l ++ [e]) None
| spec_lose e l : overflows l = 0%nat -> spec_op (Push e) l (l ++ [overflow_entry]) None
| spec_lost e l : overflows l = 1%nat -> spec_op (Push e) l l None
| spec_pop e l : spec_op Pop (e :: l) l (Some (event_of e))
| spec_empty : spec_op Pop [] [] None.

(** The byte queue implements the list of records.  Every operation on a queue that holds [l] is a step of
    the specification: events come out complete and in the order they went in, an event is lost only together
    with an [OVERFLOW] record, there is never more than one of those, and the representation is kept, whatever
    the allocator answers and in either byte order. *)
Theorem queue_refines (o : QueueOp) (q q' : Queue) (l : list Entry) (g g' : answers) (r : option Event) :
  queue_repr q l -> op_ok o -> queue_op o q g = (q', g', r) ->
  exists l', spec_op o l l' r /\ queue_repr q' l'.
Proof.
  intros Hq Ho Hop. pose proof Hq as (_ & _ & _ & Hov & _). destruct o as [e |]; simpl in *.
  - destruct Ho as [He Hno]. destruct (queue_push _ _ _ _ q g) as [q1 g1] eqn:Hp. injection Hop as <- <- <-.
    destruct (queue_push_repr e q l g q1 g1 Hq He Hno Hp) as [[_ Hr] | [_ Hr]]; [eauto using spec_op |].
    destruct (q_lost q); eauto using spec_op.
  - destruct l as [| e l].
    + pose proof Hq as (_ & Hc & _). unfold queue_pop in Hop. rewrite Hc in Hop. injection Hop as <- <- <-.
      eexists. split; [constructor | done].
    + destruct (queue_pop_repr e q l g q' g' r Hq Hop) as [-> Hr]. eauto using spec_op.
Qed.

(** Queuing never allocates where it could not fail.  Whatever the allocator answers, after any push the
    bytes fit the capacity that a fallible reservation has granted: the infallible appends of [record] have
    their room, the [OVERFLOW] record included. *)
Theorem queue_push_fits (e : Entry) (q q' : Queue) (l : list Entry) (g g' : answers) :
  queue_repr q l -> entry_ok e -> is_overflow e = false ->
  queue_push (e_watch e) (e_events e) (e_cookie e) (e_name e) q g = (q', g') ->
  lenZ (data (q_bytes q')) <= cap (q_bytes q') /\ q_count q' <= QUEUE_LIMIT + 1.
Proof.
  intros Hq He Hov Hp.
  assert (exists l', queue_repr q' l') as (l' & _ & Hc & _ & _ & Hcap & _ & Hl).
  { destruct (queue_push_repr e q l g q' g' Hq He Hov Hp) as [[_ ?] | [_ ?]]; eauto. }
  split; [done |]. destruct (q_lost q'); lia.
Qed.
End Facts.

Definition le_machine : Endian := {| big_endian := false |}.
Definition sample_queue : Queue := mkQueue (mkVec [] 13) 0 false.
Definition sample_entry : Entry := mkEntry 3 W_CREATE 0 (bytes "log").
Lemma sample_queue_repr : queue_repr (H := le_machine) sample_queue [].
Proof. unfold queue_repr. split_and!; [done | done | constructor | done | done | done | done]. Qed.
Lemma sample_entry_ok : entry_ok sample_entry.
Proof. vm_compute. repeat split; congruence. Qed.

(** One record that the allocator has room for and one it refuses. *)
Lemma queue_refines_witness :
  exists l', spec_op (Push sample_entry) [] l' None /\ (l' = [sample_entry] \/ l' = [overflow_entry]).
Proof.
  destruct (@queue_op arch64 le_machine (Push sample_entry) sample_queue []) as [[q' g'] r] eqn:E.
  destruct (@queue_refines arch64 le_machine (Push sample_entry) sample_queue q' [] [] g' r sample_queue_repr
    (conj sample_entry_ok eq_refl) E) as (l' & Hs & Hr).
  exists l'. inversion Hs; subst; [auto using spec_op | auto using spec_op | discriminate].
Defined.
Lemma queue_push_fits_witness :
  let q' := (@queue_push arch64 le_machine 3 W_CREATE 0 (bytes "log") sample_queue [None]).1 in
  lenZ (data (q_bytes q')) <= cap (q_bytes q') /\ q_lost q' = true.
Proof.
  pose proof (@queue_push_fits arch64 le_machine sample_entry sample_queue _ [] [None] _ sample_queue_repr
    sample_entry_ok eq_refl (surjective_pairing _)) as [H _].
  split; [exact H | vm_compute; done].
Defined.
