(* ===== verification/Locks.v ===== *)
(** * Locks.v: advisory locks of the in-memory file system

    [src/crates/dotnet-pal-memfs/src/lib.rs], the type [Lock] and [State::relock], which serves
    both the whole-file locks of flock(2) and the byte-range locks of fcntl(2).  The meaning of a
    list of locks is which owner holds which mode on which byte ([covers]). *)
From S2P Require Import Prelude Port Content.
Local Open Scope Z_scope.

Definition LOCK_SHARED := 1.
Definition LOCK_EXCLUSIVE := 2.
Definition LOCK_UNLOCK := 3.

Record Lock := mkLock { l_owner : Z; l_whole : bool; l_start : Z; l_end : Z; l_exclusive : bool }.
#[export] Instance Lock_eq_dec : EqDecision Lock.
Proof. solve_decision. Defined.

(** The closure [meets] of [relock]. *)
Definition meets (wanted held : Lock) : bool :=
  eqb (l_whole held) (l_whole wanted) && (l_start held <? l_end wanted) && (l_start wanted <? l_end held).
(** [Vec::swap_remove] *)
Definition swap_remove {A} (i : nat) (l : list A) : list A :=
  match last l with Some x => removelast (<[i := x]> l) | None => l end.
(** [Lock { end: wanted.start, ..held }] and [Lock { start: wanted.end, ..held }] *)
Definition left_piece (wanted held : Lock) : Lock :=
  mkLock (l_owner held) (l_whole held) (l_start held) (l_start wanted) (l_exclusive held).
Definition right_piece (wanted held : Lock) : Lock :=
  mkLock (l_owner held) (l_whole held) (l_end wanted) (l_end held) (l_exclusive held).

(** The loop of [relock]; it stops when the index runs off the list. *)
Fixpoint relock_loop (fuel index : nat) (wanted : Lock) (locks : list Lock) : option (list Lock) :=
  match fuel with
  | O => None
  | S fuel =>
      match locks !! index with
      | None => Some locks
      | Some held =>
          if negb (l_owner held =? l_owner wanted) || negb (meets wanted held)
          then relock_loop fuel (S index) wanted locks
          else
            let locks := swap_remove index locks in
            let locks := if l_start held <? l_start wanted then locks ++ [left_piece wanted held] else locks in
            let locks := if l_end wanted <? l_end held then locks ++ [right_piece wanted held] else locks in
            relock_loop fuel index wanted locks
      end
  end.

(** [State::relock] on the locks of a node.  Three iterations per lock are enough ([relock_loop_spec]). *)
Definition relock (mode : Z) (wanted : Lock) : M (list Lock * answers) Error unit := fun '(locks, g) =>
  if negb (mode =? LOCK_UNLOCK) &&
     existsb (fun held => negb (l_owner held =? l_owner wanted) && meets wanted held &&
                          (l_exclusive held || l_exclusive wanted)) locks
  then (locks, g, Err EWouldBlock) else
  match ask g with
  | (None, g) => (locks, g, Err EOutOfMemory)
  | (Some _, g) =>
      match relock_loop (S (3 * length locks)) 0 wanted locks with
      | Some locks => (if mode =? LOCK_UNLOCK then locks else locks ++ [wanted], g, Ok tt)
      | None => (locks, g, Err EOs)
      end
  end.

(** ** Meaning *)

(** Owner [o] holds a lock of kind [w] on byte [x], exclusive or shared as [e] says. *)
Definition covers (locks : list Lock) (o : Z) (w : bool) (x : Z) (e : bool) : Prop :=
  exists l, l ∈ locks /\ l_owner l = o /\ l_whole l = w /\ l_start l <= x < l_end l /\ l_exclusive l = e.
(** No byte is held exclusively by one handle while another holds it too, and no handle holds a byte twice in
    different modes. *)
Definition compatible (locks : list Lock) : Prop :=
  forall o1 o2 w x e1 e2, covers locks o1 w x e1 -> covers locks o2 w x e2 ->
    if decide (o1 = o2) then e1 = e2 else e1 = false /\ e2 = false.
(** What becomes of one lock: what of it the wanted range does not cut. *)
Definition hit (wanted held : Lock) : bool := (l_owner held =? l_owner wanted) && meets wanted held.
Definition pieces (wanted held : Lock) : list Lock :=
  (if l_start held <? l_start wanted then [left_piece wanted held] else []) ++
  (if l_end wanted <? l_end held then [right_piece wanted held] else []).
Definition cut (wanted held : Lock) : list Lock := if hit wanted held then pieces wanted held else [held].

Lemma compatible_sub ls ls' : (forall l, l ∈ ls' -> l ∈ ls) -> compatible ls -> compatible ls'.
Proof.
  intros Hsub Hc o1 o2 w x e1 e2 (l1 & H1 & R1) (l2 & H2 & R2).
  apply (Hc o1 o2 w x e1 e2); [exists l1 | exists l2]; auto.
Qed.

(** ** The loop *)
Lemma swap_remove_perm {A} i (l : list A) x : l !! i = Some x -> l ≡ₚ x :: swap_remove i l.
Proof.
  intros Hi. unfold swap_remove. destruct (last l) as [y |] eqn:Hy.
  2: { apply last_None in Hy. by subst. }
  apply last_Some in Hy as [k ->].
  destruct (decide (i < length k)%nat) as [Hlt | Hge].
  - rewrite insert_app_l by done. rewrite removelast_app by done. simpl. rewrite app_nil_r.
    rewrite lookup_app_l in Hi by done.
    rewrite <- (take_drop_middle k i x Hi) at 1. rewrite insert_take_drop by done.
    solve_Permutation.
  - assert (i = length k) as -> by (apply lookup_lt_Some in Hi; rewrite length_app in Hi; simpl in Hi; lia).
    rewrite list_lookup_middle in Hi by done. injection Hi as ->.
    rewrite insert_app_r_alt, Nat.sub_diag by lia. simpl. rewrite removelast_app by done. simpl.
    by rewrite app_nil_r, <- Permutation_cons_append.
Qed.
Lemma swap_remove_take {A} i (l : list A) x : l !! i = Some x -> take i (swap_remove i l) = take i l.
Proof.
  intros Hi. unfold swap_remove. destruct (last l) as [y |] eqn:Hy; [| done].
  rewrite removelast_firstn_len, take_take, length_insert.
  apply lookup_lt_Some in Hi. rewrite Nat.min_l by lia. by apply take_insert_ge.
Qed.

Lemma pieces_not_hit w h p : p ∈ pieces w h -> hit w p = false.
Proof.
  unfold pieces, hit, meets. intros Hp. apply elem_of_app in Hp as [Hp | Hp].
  - destruct (l_start h <? l_start w); [| by apply elem_of_nil in Hp].
    apply list_elem_of_singleton in Hp as ->. simpl. rewrite Z.ltb_irrefl, !andb_false_r. done.
  - destruct (l_end w <? l_end h); [| by apply elem_of_nil in Hp].
    apply list_elem_of_singleton in Hp as ->. simpl. rewrite Z.ltb_irrefl, andb_false_r. simpl. by rewrite ?andb_false_r.
Qed.

Abbreviation hits w ls := (length (filter (fun l => hit w l = true) ls)).

Lemma cut_all_not_hit w ls : Forall (fun l => hit w l = false) ls -> ls ≫= cut w = ls.
Proof. induction 1 as [| l ls Hl _ IH]; [done |]. csimpl. unfold cut at 1. rewrite Hl, IH. done. Qed.

Lemma relock_loop_spec fuel index w ls :
  Forall (fun l => hit w l = false) (take index ls) ->
  (length ls - index + 2 * hits w ls < fuel)%nat ->
  exists ls', relock_loop fuel index w ls = Some ls' /\ ls' ≡ₚ ls ≫= cut w.
Proof.
  revert index ls. induction fuel as [| fuel IH]; intros index ls Hpre Hfuel; [lia |]. simpl.
  destruct (ls !! index) as [h |] eqn:Hi.
  2: { exists ls. split; [done |]. rewrite cut_all_not_hit; [done |].
       rewrite take_ge in Hpre; [done |]. by apply lookup_ge_None. }
  assert (negb (l_owner h =? l_owner w) || negb (meets w h) = negb (hit w h)) as ->.
  { unfold hit. by destruct (_ =? _), (meets w h). }
  pose proof (lookup_lt_Some _ _ _ Hi).
  destruct (hit w h) eqn:Hh; simpl.
  - set (ls1 := swap_remove index ls).
    pose proof (swap_remove_perm index ls h Hi) as Hperm. fold ls1 in Hperm.
    assert (forall l1 : list Lock, (if l_end w <? l_end h then (if l_start h <? l_start w then l1 ++ [left_piece w h] else l1) ++ [right_piece w h]
             else (if l_start h <? l_start w then l1 ++ [left_piece w h] else l1)) = l1 ++ pieces w h) as Hadd.
    { intros l1. unfold pieces. destruct (_ <? _), (_ <? _); simpl; rewrite ?app_nil_r, <- ?app_assoc; done. }
    rewrite Hadd.
    assert (Forall (fun l => hit w l = false) (pieces w h)) as Hp.
    { apply Forall_forall. intros. by eapply pieces_not_hit. }
    destruct (IH index (ls1 ++ pieces w h)) as (ls' & Hls' & Hc).
    + rewrite take_app_le; [by unfold ls1; rewrite (swap_remove_take _ _ h) |].
      apply Permutation_length in Hperm. simpl in Hperm. lia.
    + rewrite filter_app, !length_app.
      assert (hits w ls = S (hits w ls1)) as Hhits.
      { rewrite Hperm, filter_cons_True by done. done. }
      assert (filter (fun l => hit w l = true) (pieces w h) = []) as ->.
      { clear - Hp. induction Hp as [| p l Hp _ IH]; [done |]. rewrite filter_cons_False; [done |]. by rewrite Hp. }
      assert (length (pieces w h) <= 2)%nat by (unfold pieces; destruct (_ <? _), (_ <? _); simpl; lia).
      apply Permutation_length in Hperm. simpl in *. lia.
    + exists ls'. split; [done |]. rewrite Hc, bind_app, (cut_all_not_hit _ _ Hp), Hperm, bind_cons.
      assert (cut w h = pieces w h) as -> by (unfold cut; by rewrite Hh). apply Permutation_app_comm.
  - apply IH; [| lia].
    rewrite (take_S_r _ _ h) by done. apply Forall_app. split; [done |]. constructor; [done | constructor].
Qed.

(** ** Meaning of [relock] *)
Section Facts.
Implicit Types (ls : list Lock) (w l : Lock).

Lemma covers_app ls ls' o k x e : covers (ls ++ ls') o k x e <-> covers ls o k x e \/ covers ls' o k x e.
Proof. unfold covers. setoid_rewrite elem_of_app. naive_solver. Qed.
#[local] Instance covers_proper : Proper ((≡ₚ) ==> eq ==> eq ==> eq ==> eq ==> iff) covers.
Proof. intros ls ls' Hp o ? <- k ? <- x ? <- e ? <-. unfold covers. by setoid_rewrite Hp. Qed.

(** The wanted lock's bytes, as far as its owner and kind are concerned. *)
Definition target w o k x : Prop := o = l_owner w /\ k = l_whole w /\ l_start w <= x < l_end w.

Lemma covers_cut ls w o k x e : covers (ls ≫= cut w) o k x e <-> covers ls o k x e /\ ~ target w o k x.
Proof.
  unfold covers. split.
  - intros (p & Hp & Ho & Hk & Hx & He). apply list_elem_of_bind in Hp as (l & Hin & Hp').
    unfold cut in Hin. destruct (hit w l) eqn:Hh.
    + unfold pieces, hit, meets in *. apply andb_true_iff in Hh as [Hown [[Hw Hs]%andb_true_iff He']%andb_true_iff].
      apply elem_of_app in Hin as [Hin | Hin];
        [destruct (l_start l <? l_start w) eqn:Hc | destruct (l_end w <? l_end l) eqn:Hc]; try by apply elem_of_nil in Hin.
      all: apply list_elem_of_singleton in Hin as ->; simpl in *; apply Z.ltb_lt in Hc;
        (split; [exists l; split_and!; try done; lia |]); unfold target; lia.
    + apply list_elem_of_singleton in Hin as ->. split; [eauto 10 |]. intros (-> & -> & Hr).
      unfold hit, meets in Hh. rewrite Ho, Hk, Z.eqb_refl, eqb_reflx in Hh. simpl in Hh. lia.
  - intros [(l & Hl & Ho & Hk & Hx & He) Hnt].
    destruct (hit w l) eqn:Hh.
    + unfold hit, meets in Hh. apply andb_true_iff in Hh as [Hown [[Hw Hs]%andb_true_iff He']%andb_true_iff].
      apply Z.eqb_eq in Hown. apply eqb_prop in Hw.
      assert (x < l_start w \/ l_end w <= x) as [Hlt | Hge] by (unfold target in Hnt; destruct (decide (x < l_start w)); [auto |]; right;
        destruct (decide (l_end w <= x)); [done |]; exfalso; apply Hnt; split_and!; congruence || lia).
      * exists (left_piece w l). split; [| simpl; split_and!; try done; lia].
        apply list_elem_of_bind. exists l. split; [| done]. unfold cut, hit, meets, pieces.
        rewrite Hown, Z.eqb_refl, Hw, eqb_reflx, Hs, He'. simpl.
        apply elem_of_app. left. destruct (Z.ltb_spec (l_start l) (l_start w)); [set_solver | lia].
      * exists (right_piece w l). split; [| simpl; split_and!; try done; lia].
        apply list_elem_of_bind. exists l. split; [| done]. unfold cut, hit, meets, pieces.
        rewrite Hown, Z.eqb_refl, Hw, eqb_reflx, Hs, He'. simpl.
        apply elem_of_app. right. destruct (Z.ltb_spec (l_end w) (l_end l)); [set_solver | lia].
    + exists l. split; [| done]. apply list_elem_of_bind. exists l. split; [| done]. unfold cut. rewrite Hh. set_solver.
Qed.

(** The outcome of every call: a refusal that changes nothing, or the locks cut and the wanted one added. *)
Lemma relock_result mode w ls g ls' g' r :
  relock mode w (ls, g) = (ls', g', r) ->
  match r with
  | Ok _ => (mode = LOCK_UNLOCK \/ forall held, held ∈ ls -> l_owner held <> l_owner w -> meets w held = true ->
               l_exclusive held = false /\ l_exclusive w = false) /\
            (forall o k x e, covers ls' o k x e <->
               (covers ls o k x e /\ ~ target w o k x) \/
               (mode <> LOCK_UNLOCK /\ target w o k x /\ e = l_exclusive w))
  | Err e => ls' = ls /\ (e = EWouldBlock \/ e = EOutOfMemory)
  end.
Proof.
  unfold relock. destruct (negb (mode =? LOCK_UNLOCK) && _) eqn:Hb; [intros [= <- <- <-]; auto |].
  destruct (ask g) as [[a |] g1]; [| intros [= <- <- <-]; auto].
  destruct (relock_loop_spec (S (3 * length ls)) 0 w ls) as (ls1 & -> & Hp).
  { rewrite take_0. constructor. }
  { pose proof (length_filter (fun l => hit w l = true) ls). lia. }
  intros [= <- <- <-]. split.
  - destruct (Z.eqb_spec mode LOCK_UNLOCK); [auto |]. right. intros held Hin Hown Hm. simpl in Hb.
    destruct (l_exclusive held || l_exclusive w) eqn:Hx; [| by apply orb_false_iff in Hx].
    exfalso. apply not_true_iff_false in Hb. apply Hb. apply existsb_exists. exists held.
    split; [by apply list_elem_of_In |]. rewrite Hm, Hx. apply Z.eqb_neq in Hown. by rewrite Hown.
  - intros o k x e. destruct (Z.eqb_spec mode LOCK_UNLOCK).
    + rewrite Hp, covers_cut. naive_solver.
    + rewrite covers_app, Hp, covers_cut. apply or_iff_compat_l. unfold covers, target.
      setoid_rewrite list_elem_of_singleton. naive_solver.
Qed.

Lemma relock_would_block mode w ls g :
  (relock mode w (ls, g)).2 = Err EWouldBlock <->
  mode <> LOCK_UNLOCK /\ exists held, held ∈ ls /\ l_owner held <> l_owner w /\ meets w held = true /\
    (l_exclusive held = true \/ l_exclusive w = true).
Proof.
  unfold relock. destruct (negb (mode =? LOCK_UNLOCK) && _) eqn:Hb.
  - split; [intros _ | done]. apply andb_true_iff in Hb as [Hm%negb_true_iff%Z.eqb_neq Hb]. split; [done |].
    apply existsb_exists in Hb as (held & Hin & Hc). exists held. split; [by apply list_elem_of_In |].
    apply andb_true_iff in Hc as [[Hc1%negb_true_iff%Z.eqb_neq Hc2]%andb_true_iff Hc3%orb_true_iff]. done.
  - split.
    + destruct (ask g) as [[a |] g1]; [| done]. destruct (relock_loop _ _ _ _); done.
    + intros (Hm & held & Hin & Hown & Hmt & Hx). exfalso. apply not_true_iff_false in Hb. apply Hb.
      apply andb_true_iff. split; [by apply negb_true_iff, Z.eqb_neq |]. apply existsb_exists. exists held.
      split; [by apply list_elem_of_In |]. rewrite Hmt. apply Z.eqb_neq in Hown. rewrite Hown. simpl. by apply orb_true_iff.
Qed.

(** No lock appears for an owner that had none and asked for none. *)
Lemma relock_owners mode w ls g ls' g' r l :
  relock mode w (ls, g) = (ls', g', r) -> l ∈ ls' -> l_owner l = l_owner w \/ exists l0, l0 ∈ ls /\ l_owner l0 = l_owner l.
Proof.
  unfold relock. destruct (negb (mode =? LOCK_UNLOCK) && _); [intros [= <- _ _]; eauto |].
  destruct (ask g) as [[a |] g1]; [| intros [= <- _ _]; eauto].
  destruct (relock_loop_spec (S (3 * length ls)) 0 w ls) as (ls1 & -> & Hp).
  { rewrite take_0. constructor. }
  { pose proof (length_filter (fun l => hit w l = true) ls). lia. }
  intros [= <- _ _] Hl.
  assert (l ∈ ls1 \/ l = w) as [Hl1 | ->]; [| | by left].
  { destruct (_ =? _); [auto |]. apply elem_of_app in Hl as [? | ?%list_elem_of_singleton]; auto. }
  rewrite Hp in Hl1. apply list_elem_of_bind in Hl1 as (l0 & Hin & Hl0). right. exists l0. split; [done |].
  unfold cut in Hin. destruct (hit w l0); [| by apply list_elem_of_singleton in Hin as ->].
  unfold pieces in Hin. destruct (_ <? _), (_ <? _); set_solver.
Qed.

Lemma relock_keeps_compatible mode w ls ls' g g' r :
  compatible ls -> relock mode w (ls, g) = (ls', g', r) -> compatible ls'.
Proof.
  intros Hc Hr. apply relock_result in Hr. destruct r as [u | e]; [| destruct Hr as [-> _]; done].
  destruct Hr as [Hfree Hcov]. intros o1 o2 k x e1 e2 H1 H2. rewrite Hcov in H1, H2.
  destruct H1 as [[H1 N1] | (M1 & T1 & ->)], H2 as [[H2 N2] | (M2 & T2 & ->)]; [by apply (Hc o1 o2 k x) | | |].
  - destruct Hfree as [? | Hfree]; [done |]. destruct T2 as (-> & -> & Hx). case_decide; [subst; unfold target in N1; tauto |].
    destruct H1 as (l & Hl & <- & Hk & Hx' & <-). apply Hfree; [done | done |].
    unfold meets. rewrite Hk, eqb_reflx. simpl. lia.
  - destruct Hfree as [? | Hfree]; [done |]. destruct T1 as (-> & -> & Hx). case_decide; [subst; unfold target in N2; tauto |].
    destruct H2 as (l & Hl & <- & Hk & Hx' & <-). apply and_comm, Hfree; [done | done |].
    unfold meets. rewrite Hk, eqb_reflx. simpl. lia.
  - destruct T1 as (-> & _), T2 as (-> & _). by rewrite decide_True.
Qed.

(** C13: [relock] does exactly what was asked, byte for byte.  A call that succeeds leaves the owner holding the
    wanted mode on every wanted byte (nothing when unlocking), and every other byte, owner and kind of lock as it
    was, also where a lock had to be split; the loop always ends.  A refusal changes nothing and is
    [WouldBlock] precisely when another handle holds a lock in the way. *)
Theorem relock_exact (mode : Z) (w : Lock) (ls ls' : list Lock) (g g' : answers) (r : Result unit) :
  relock mode w (ls, g) = (ls', g', r) ->
  match r with
  | Ok _ => forall o k x e, covers ls' o k x e <->
               (covers ls o k x e /\ ~ target w o k x) \/ (mode <> LOCK_UNLOCK /\ target w o k x /\ e = l_exclusive w)
  | Err e => ls' = ls /\ (e = EWouldBlock \/ e = EOutOfMemory)
  end /\
  (r = Err EWouldBlock <-> mode <> LOCK_UNLOCK /\ exists held, held ∈ ls /\ l_owner held <> l_owner w /\
     meets w held = true /\ (l_exclusive held = true \/ l_exclusive w = true)).
Proof.
  intros Hr. split.
  - apply relock_result in Hr. destruct r; [apply Hr | done].
  - rewrite <- (relock_would_block mode w ls g), Hr. done.
Qed.

(** The lock table stays sound: if no byte was held exclusively by one handle and at all by another, that is
    so after any [relock], and no handle comes to hold one byte in two modes. *)
Theorem relock_compatible (mode : Z) (w : Lock) (ls ls' : list Lock) (g g' : answers) (r : Result unit) :
  compatible ls -> relock mode w (ls, g) = (ls', g', r) -> compatible ls'.
Proof. apply relock_keeps_compatible. Qed.
End Facts.

(** Unlocking the middle of a shared range leaves its two ends. *)
Definition sample_lock : Lock := mkLock 16 false 0 100 false.
Definition sample_cut : Lock := mkLock 16 false 40 60 false.
Lemma relock_exact_witness :
  let ls' := (relock LOCK_UNLOCK sample_cut ([sample_lock], [])).1.1 in
  covers ls' 16 false 39 false /\ ~ covers ls' 16 false 40 false.
Proof.
  pose proof (relock_exact LOCK_UNLOCK sample_cut [sample_lock] _ [] _ (Ok tt) eq_refl) as [H _].
  cbn beta iota in H. cbv zeta. split.
  - apply H. left. split; [exists sample_lock; simpl; split_and!; [set_solver | done ..] |].
    unfold target. simpl. lia.
  - rewrite H. unfold target. simpl. intros [[_ Hn] | [Hn _]]; [apply Hn; lia | done].
Defined.
Lemma relock_compatible_witness :
  compatible (relock LOCK_EXCLUSIVE (mkLock 32 false 40 60 true) ([sample_lock], [])).1.1.
Proof.
  apply (relock_compatible LOCK_EXCLUSIVE (mkLock 32 false 40 60 true) [sample_lock] _ [] [] (Err EWouldBlock)); [| done].
  intros o1 o2 k x e1 e2 (l1 & H1 & <- & _ & _ & <-) (l2 & H2 & <- & _ & _ & <-).
  apply list_elem_of_singleton in H1 as ->. apply list_elem_of_singleton in H2 as ->. done.
Defined.
