(* ===== verification/Tree.v ===== *)
(** * Tree.v: the state of the in-memory file system and the walk of a path

    [src/crates/dotnet-pal-memfs/src/lib.rs]: the types [Node], [Body], [State], [Watcher], [Mapped] and [Handle],
    the queries of [State], and [State::walk] with [Pending], [State::vacant], [State::climb] and [State::spell].

    Every provider call holds the spin lock for its whole run, so a call is a function on the state.  [Fs] is [State]
    together with what the calls use of the heap: the boxes behind the handles, the pages of private mappings and
    the answers of the allocator. *)
From S2P Require Import Prelude Port Content Queue Locks.
Local Open Scope Z_scope.
Local Open Scope pal_scope.

Definition ROOT : Z := 1.
Definition MODE_MASK : Z := 4095.
Definition MAX_LINKS : nat := 40.
Definition DEFAULT_CAPACITY : Z := 64 * 1024 * 1024.
Definition MAX_NAME : Z := 4095.
Definition NODE_FILE : Z := 1.
Definition NODE_DIRECTORY : Z := 2.
Definition NODE_SYMLINK : Z := 3.
Definition SLASH : Z := 47.
Definition DOT : Z := 46.

Abbreviation name := (list Z).
(** [BTreeMap<Box<[u8]>, u64>]; its order shows only where a call iterates ([entries_list]). *)
Abbreviation Entries := (gmap name Z).
Inductive Body := File (c : Content) | Directory (parent : Z) (entries : Entries) | Link (target : list Z).
Record Node := mkNode {
  mode : Z; created : Z; accessed : Z; modified : Z; changed : Z;
  links : Z; opens : Z; maps : Z; locks : list Lock; body : Body;
}.
Record Watch := mkWatch { w_id : Z; w_node : Z; w_events : Z }.
Record Watcher := mkWatcher { w_queue : Queue; w_watches : list Watch; w_last : Z }.
Inductive Mapped := Shared (node count : Z) | Private.
Inductive Handle := HFile (node access : Z) | HDirectory (listing : list Z) (next : Z) | HWatcher (id : Z).

Record Fs := mkFs {
  nodes : gmap Z Node; next_id : Z; used : Z; fs_capacity : Z; working : Z;
  watchers : gmap Z Watcher; next_watcher : Z; cookie : Z; mappings : gmap (Z * Z) Mapped;
  handles : gmap Z Handle; copies : gmap Z (list Z); answers_left : answers;
}.
(** Field updates. *)
Definition set_nodes (f : gmap Z Node -> gmap Z Node) (s : Fs) : Fs :=
  mkFs (f (nodes s)) (next_id s) (used s) (fs_capacity s) (working s) (watchers s) (next_watcher s) (cookie s) (mappings s) (handles s) (copies s) (answers_left s).
Definition set_next_id (n : Z) (s : Fs) : Fs :=
  mkFs (nodes s) n (used s) (fs_capacity s) (working s) (watchers s) (next_watcher s) (cookie s) (mappings s) (handles s) (copies s) (answers_left s).
Definition set_used (n : Z) (s : Fs) : Fs :=
  mkFs (nodes s) (next_id s) n (fs_capacity s) (working s) (watchers s) (next_watcher s) (cookie s) (mappings s) (handles s) (copies s) (answers_left s).
Definition set_fs_capacity (n : Z) (s : Fs) : Fs :=
  mkFs (nodes s) (next_id s) (used s) n (working s) (watchers s) (next_watcher s) (cookie s) (mappings s) (handles s) (copies s) (answers_left s).
Definition set_working (n : Z) (s : Fs) : Fs :=
  mkFs (nodes s) (next_id s) (used s) (fs_capacity s) n (watchers s) (next_watcher s) (cookie s) (mappings s) (handles s) (copies s) (answers_left s).
(** The watchers and the allocator change together: queuing an event asks for room. *)
Definition set_watchers (w : gmap Z Watcher) (g : answers) (s : Fs) : Fs :=
  mkFs (nodes s) (next_id s) (used s) (fs_capacity s) (working s) w (next_watcher s) (cookie s) (mappings s) (handles s) (copies s) g.
Definition set_next_watcher (n : Z) (s : Fs) : Fs :=
  mkFs (nodes s) (next_id s) (used s) (fs_capacity s) (working s) (watchers s) n (cookie s) (mappings s) (handles s) (copies s) (answers_left s).
Definition set_cookie (n : Z) (s : Fs) : Fs :=
  mkFs (nodes s) (next_id s) (used s) (fs_capacity s) (working s) (watchers s) (next_watcher s) n (mappings s) (handles s) (copies s) (answers_left s).
Definition set_mappings (f : gmap (Z * Z) Mapped -> gmap (Z * Z) Mapped) (s : Fs) : Fs :=
  mkFs (nodes s) (next_id s) (used s) (fs_capacity s) (working s) (watchers s) (next_watcher s) (cookie s) (f (mappings s)) (handles s) (copies s) (answers_left s).
Definition set_handles (f : gmap Z Handle -> gmap Z Handle) (s : Fs) : Fs :=
  mkFs (nodes s) (next_id s) (used s) (fs_capacity s) (working s) (watchers s) (next_watcher s) (cookie s) (mappings s) (f (handles s)) (copies s) (answers_left s).
Definition set_copies (f : gmap Z (list Z) -> gmap Z (list Z)) (s : Fs) : Fs :=
  mkFs (nodes s) (next_id s) (used s) (fs_capacity s) (working s) (watchers s) (next_watcher s) (cookie s) (mappings s) (handles s) (f (copies s)) (answers_left s).
Definition set_answers (g : answers) (s : Fs) : Fs :=
  mkFs (nodes s) (next_id s) (used s) (fs_capacity s) (working s) (watchers s) (next_watcher s) (cookie s) (mappings s) (handles s) (copies s) g.

Definition with_body (b : Body) (n : Node) : Node :=
  mkNode (mode n) (created n) (accessed n) (modified n) (changed n) (links n) (opens n) (maps n) (locks n) b.
Definition with_times (a m c : Z) (n : Node) : Node :=
  mkNode (mode n) (created n) a m c (links n) (opens n) (maps n) (locks n) (body n).
Definition with_counts (l o m : Z) (n : Node) : Node :=
  mkNode (mode n) (created n) (accessed n) (modified n) (changed n) l o m (locks n) (body n).
Definition with_locks (ls : list Lock) (n : Node) : Node :=
  mkNode (mode n) (created n) (accessed n) (modified n) (changed n) (links n) (opens n) (maps n) ls (body n).
Definition with_mode (md : Z) (n : Node) : Node :=
  mkNode md (created n) (accessed n) (modified n) (changed n) (links n) (opens n) (maps n) (locks n) (body n).

(** The root that [Guard::acquire] inserts on the first call, and the state after it. *)
Definition root_node : Node := mkNode 511 0 0 0 0 1 0 0 [] (Directory ROOT ∅).
Definition initial (g : answers) : Fs :=
  mkFs {[ROOT := root_node]} (ROOT + 1) 0 DEFAULT_CAPACITY ROOT ∅ 1 0 ∅ ∅ ∅ g.

(** ** Order of a [BTreeMap] of names *)
Fixpoint name_leb (a b : name) : bool :=
  match a, b with
  | [], _ => true
  | _ :: _, [] => false
  | x :: a, y :: b => (x <? y) || ((x =? y) && name_leb a b)
  end.
Definition entry_le (p q : name * Z) : Prop := name_leb p.1 q.1 = true.
#[export] Instance entry_le_dec p q : Decision (entry_le p q).
Proof. unfold entry_le. apply _. Defined.
Definition entries_list (es : Entries) : list (name * Z) := merge_sort entry_le (map_to_list es).

(** ** Queries of [State] *)
Definition node (s : Fs) (id : Z) : Result Node := ok_or (nodes s !! id) EInvalidArgument.
Definition kind (s : Fs) (id : Z) : Result Z :=
  let? n := node s id in
  Ok (match body n with File _ => NODE_FILE | Directory _ _ => NODE_DIRECTORY | Link _ => NODE_SYMLINK end).
Definition is_directory (s : Fs) (id : Z) : Result bool := let? k := kind s id in Ok (k =? NODE_DIRECTORY).
Definition entries (s : Fs) (id : Z) : Result Entries :=
  let? n := node s id in match body n with Directory _ es => Ok es | _ => Err ENotDirectory end.
Definition parent (s : Fs) (id : Z) : Result Z :=
  let? n := node s id in match body n with Directory p _ => Ok p | _ => Err ENotDirectory end.
Definition working_dir (s : Fs) : Result Z :=
  match nodes s !! working s with Some _ => Ok (working s) | None => Err ENotFound end.
Definition content (s : Fs) (id : Z) : Result Content :=
  let? n := node s id in match body n with File c => Ok c | _ => Err EIsDirectory end.

(** ** [State::walk] *)
Inductive Last := Follow | Keep | EntryLast | CreateLast.
#[export] Instance Last_eq_dec : EqDecision Last.
Proof. solve_decision. Defined.
Record Place := mkPlace { p_parent : Z; p_name : name; p_node : option Z; p_slash : bool }.
(** [iter().position(f).unwrap_or(len)] *)
Fixpoint position {A} (f : A -> bool) (l : list A) : nat :=
  match l with [] => O | x :: l => if f x then O else S (position f l) end.

(** The texts still to resolve, the innermost first; [depth] is their number. *)
Record Pending := mkPending { texts : list (list Z); entered : nat; slash : bool }.
(** [Pending::next] *)
Fixpoint pending_next (ts : list (list Z)) (sl : bool) : option (list Z) * list (list Z) * bool :=
  match ts with
  | [] => (None, [], sl)
  | whole :: below =>
      let start := position (fun b => negb (b =? SLASH)) whole in
      let sl := sl || negb (start =? 0)%nat in
      let rest := drop start whole in
      match rest with
      | [] => pending_next below sl
      | _ =>
          let finish := position (fun b => b =? SLASH) rest in
          (Some (take finish rest), drop finish rest :: below, false)
      end
  end.
(** [Pending::follows] *)
Definition follows (ts : list (list Z)) (last : Last) : bool :=
  let left := concat ts in
  match last with
  | Follow => true
  | Keep => match left with [] => false | _ => true end
  | EntryLast | CreateLast => existsb (fun b => negb (b =? SLASH)) left
  end.
(** [Pending::enter] *)
Definition enter (target : list Z) (p : Pending) : Result Pending :=
  if (entered p =? MAX_LINKS)%nat then Err EOs
  else Ok (mkPending (target :: texts p) (S (entered p)) (slash p)).
Definition starts_with_slash (t : list Z) : bool := match t with b :: _ => b =? SLASH | [] => false end.

Abbreviation Found := (option (name * option Z)).
(** The body of the loop of [walk] for one component. *)
Definition walk_component (s : Fs) (last : Last) (component : list Z) (par : Z) (p : Pending) (found : Found)
  : Result (Z * Pending * Found) :=
  let? par := (match found with Some (_, node) => ok_or node ENotFound | None => Ok par end) in
  if decide (component = [DOT]) then let? _ := entries s par in Ok (par, p, None)
  else if decide (component = [DOT; DOT]) then let? up := parent s par in Ok (up, p, None)
  else if MAX_ENTRY_NAME <? lenZ component then Err ENameTooLong
  else
    let? es := entries s par in
    let node := es !! component in
    let plain := Ok (par, p, Some (component, node)) in
    match node ≫= fun id => nodes s !! id with
    | Some n =>
        match body n with
        | Link target =>
            if follows (texts p) last then
              let? p := enter target p in
              Ok (if starts_with_slash target then ROOT else par, p, None)
            else plain
        | _ => plain
        end
    | None => plain
    end.
(** The loop: [None] when the fuel runs out, which [walk_fuel] excludes. *)
Fixpoint walk_loop (fuel : nat) (s : Fs) (last : Last) (par : Z) (p : Pending) (found : Found)
  : option (Result (Z * bool * Found)) :=
  match fuel with
  | O => None
  | S fuel =>
      match pending_next (texts p) (slash p) with
      | (None, _, sl) => Some (Ok (par, sl, found))
      | (Some component, ts, sl) =>
          match walk_component s last component par (mkPending ts (entered p) sl) found with
          | Err e => Some (Err e)
          | Ok (par, p, found) => walk_loop fuel s last par p found
          end
      end
  end.
Definition longest_link (s : Fs) : nat :=
  map_fold (fun _ n acc => Nat.max acc (match body n with Link t => length t | _ => O end)) O (nodes s).
(** Every component takes at least one byte of the texts, and at most [MAX_LINKS] targets are added to them. *)
Definition walk_fuel (s : Fs) (path : list Z) : nat := S (length path + MAX_LINKS * longest_link s).
Definition walk_result (s : Fs) (last : Last) (r : Z * bool * Found) : Result Place :=
  let '(par, sl, found) := r in
  match found with
  | Some (nm, Some nd) =>
      let? refuse := (if sl && negb (bool_decide (last = CreateLast))
                      then let? d := is_directory s nd in Ok (negb d) else Ok false) in
      if (refuse : bool) then Err ENotDirectory else Ok (mkPlace par nm (Some nd) sl)
  | Some (nm, None) => Ok (mkPlace par nm None sl)
  | None => Ok (mkPlace par [] (Some par) sl)
  end.
Definition walk (s : Fs) (path : list Z) (last : Last) : Result Place :=
  let? par := (if starts_with_slash path then Ok ROOT else working_dir s) in
  match walk_loop (walk_fuel s path) s last par (mkPending [path] 0 false) None with
  | Some r => let? r := r in walk_result s last r
  | None => Err EOs
  end.

(** [State::vacant] *)
Definition vacant (s : Fs) (path : list Z) : Result Place :=
  let? place := walk s path CreateLast in
  match p_node place with
  | Some _ => Err EAlreadyExists
  | None => if p_slash place then Err ENotFound else Ok place
  end.
(** [walk(path, last)?.node.ok_or(NotFound)?] *)
Definition walk_node (s : Fs) (path : list Z) (last : Last) : Result Z :=
  let? place := walk s path last in ok_or (p_node place) ENotFound.

(** ** [State::climb] and [State::spell] *)

(** The names visited from [directory] up to the root, in that order; [None] when the fuel runs out. *)
Fixpoint climb_loop (fuel : nat) (s : Fs) (directory : Z) : option (Result (list name)) :=
  if directory =? ROOT then Some (Ok []) else
  match fuel with
  | O => None
  | S fuel =>
      match (let? above := parent s directory in
             let? es := entries s above in
             let? own := ok_or (List.find (fun p => p.2 =? directory) (entries_list es)) ENotFound in
             Ok (above, own.1)) with
      | Err e => Some (Err e)
      | Ok (above, own) =>
          match climb_loop fuel s above with
          | Some (Ok names) => Some (Ok (own :: names))
          | other => other
          end
      end
  end.
Definition climb (s : Fs) (directory : Z) (nm : name) : Result (list name) :=
  match climb_loop (size (nodes s)) s directory with
  | Some r => let? names := r in Ok (match nm with [] => names | _ => nm :: names end)
  | None => Err EOs
  end.
(** [ptr::copy_nonoverlapping] into a buffer at an offset. *)
Definition splice (at_ : Z) (d buf : list Z) : list Z := takeZ at_ buf ++ d ++ dropZ (at_ + lenZ d) buf.
(** The second climb of [spell]: every part is written before the previous one. *)
Fixpoint spell_parts (parts : list name) (finish : Z) (buf : list Z) : list Z :=
  match parts with
  | [] => buf
  | part :: parts =>
      let finish := finish - (lenZ part + 1) in
      spell_parts parts finish (splice (finish + 1) part (splice finish [SLASH] buf))
  end.
(** The length needed, and the buffer's first [needed] bytes when they were written; [fill] is what the buffer held. *)
Definition spell (s : Fs) (directory : Z) (nm : name) (capacity fill : Z) : Result (Z * option (list Z)) :=
  let? parts := climb s directory nm in
  let length := foldr (fun part acc => 1 + lenZ part + acc) 0 parts in
  let needed := Z.max length 1 + 1 in
  if MAX_NAME + 1 <? needed then Err ENameTooLong else
  if needed <=? capacity then
    let finish := needed - 1 in
    let buf := splice finish [0] (splice 0 [SLASH] (replicate (Z.to_nat needed) fill)) in
    Ok (needed, Some (spell_parts parts finish buf))
  else Ok (needed, None).
