(* ===== verification/MemFs.v ===== *)
(** * MemFs.v: the operations of the in-memory file system

    [src/crates/dotnet-pal-memfs/src/lib.rs]: the operations of [State] and the provider calls ([impl Files for MemFs],
    [impl Watches], [impl Mappings], [impl Volumes]), each a whole call under the spin lock.  [now] is what the clock
    said before the lock was taken; the address of a new box is the allocator's choice ([BoxAllocator]). *)
From S2P Require Import Prelude Port Content Queue Locks Tree.
Local Open Scope Z_scope.
Local Open Scope pal_scope.

Abbreviation FsM := (M Fs Error).

Definition READ : Z := 1.
Definition WRITE : Z := 2.
Definition CREATE : Z := 4.
Definition EXCLUSIVE : Z := 8.
Definition TRUNCATE : Z := 16.
Definition EXECUTE : Z := 4.

(** Where [Box::new] puts a handle: any address that is not in use, not NULL and aligned for the type. *)
Class BoxAllocator := {
  box_at : gmap Z Handle -> Z;
  box_at_fresh (m : gmap Z Handle) : m !! box_at m = None;
  box_at_valid (m : gmap Z Handle) : box_at m <> 0 /\ box_at m mod 8 = 0;
}.

Section Operations.
Context `{Arch} `{Endian}.

(** ** Access to nodes *)
(** [node_mut(id)?] followed by an assignment. *)
Definition update_node (id : Z) (f : Node -> Node) : FsM unit := fun s =>
  match nodes s !! id with
  | None => (s, Err EInvalidArgument)
  | Some n => (set_nodes (insert id (f n)) s, Ok tt)
  end.
(** [entries_mut(id)?] followed by an insertion or a removal. *)
Definition update_entries (id : Z) (f : Entries -> Entries) : FsM unit := fun s =>
  match nodes s !! id with
  | None => (s, Err EInvalidArgument)
  | Some n =>
      match body n with
      | Directory p es => (set_nodes (insert id (with_body (Directory p (f es)) n)) s, Ok tt)
      | _ => (s, Err ENotDirectory)
      end
  end.
Definition touch (id now : Z) : FsM unit := update_node id (fun n => with_times (accessed n) now now n).

(** ** Events *)
(** [for watcher in self.watchers.values_mut()]: in the order of their keys, because each may ask the allocator. *)
Definition watcher_ids (s : Fs) : list Z := merge_sort Z.le (map_to_list (watchers s)).*1.
Definition each_watcher (f : Watcher -> answers -> Watcher * answers) (s : Fs) : Fs :=
  let '(ws, g) := foldl (fun '(ws, g) id =>
      match ws !! id with
      | Some w => let '(w, g) := f w g in (<[id := w]> ws, g)
      | None => (ws, g)
      end) (watchers s, answers_left s) (watcher_ids s) in
  set_watchers ws g s.

(** The body of [report] for one watcher. *)
Definition report_watcher (ns : gmap Z Node) (id : Z) (n : Node) (kinds : Z) (w : Watcher) (g : answers) : Watcher * answers :=
  let '(mark, holder) := match body n with Directory p _ => (W_DIRECTORY, Some p) | _ => (0, None) end in
  let holds watch := has (w_events watch) kinds && negb (w_node watch =? id)
                     && match holder with None => true | Some h => h =? w_node watch end in
  let names '(q, g) watch :=
    match ns !! w_node watch with
    | Some d =>
        match body d with
        | Directory _ es =>
            foldl (fun '(q, g) (p : name * Z) => queue_push (w_id watch) (Z.lor kinds mark) 0 p.1 q g) (q, g)
                  (take (Z.to_nat (links n)) (List.filter (fun p : name * Z => p.2 =? id) (entries_list es)))
        | _ => (q, g)
        end
    | None => (q, g)
    end in
  let '(q, g) := foldl names (w_queue w, g) (List.filter holds (w_watches w)) in
  let '(q, g) :=
    match List.find (fun watch => (w_node watch =? id) && has (w_events watch) kinds) (w_watches w) with
    | Some own => queue_push (w_id own) (Z.lor kinds mark) 0 [] q g
    | None => (q, g)
    end in
  (mkWatcher q (w_watches w) (w_last w), g).
Definition report (id kinds : Z) (s : Fs) : Fs :=
  if decide (watchers s = ∅) then s else
  match nodes s !! id with
  | None => s
  | Some n => each_watcher (report_watcher (nodes s) id n kinds) s
  end.
Definition report_entry (directory : Z) (nm : name) (kinds cookie : Z) : Fs -> Fs :=
  each_watcher (fun w g =>
    match List.find (fun watch => (w_node watch =? directory) && has (w_events watch) kinds) (w_watches w) with
    | Some watch =>
        let '(q, g) := queue_push (w_id watch) kinds cookie nm (w_queue w) g in
        (mkWatcher q (w_watches w) (w_last w), g)
    | None => (w, g)
    end).
Definition ended (id : Z) : Fs -> Fs :=
  each_watcher (fun w g =>
    let index := position (fun watch => w_node watch =? id) (w_watches w) in
    match w_watches w !! index with
    | Some watch =>
        let '(q, g) := queue_push (w_id watch) W_REMOVED 0 [] (w_queue w) g in
        (mkWatcher q (delete index (w_watches w)) (w_last w), g)
    | None => (w, g)
    end).

(** ** Changes of the tree *)
Definition create (place : Place) (md : Z) (b : Body) (now : Z) : FsM Z := fun s =>
  let id := next_id s in
  (update_entries (p_parent place) (insert (p_name place) id) ;!
   modify (set_next_id (wrapping_add u64_max id 1)) ;!
   modify (set_nodes (insert id (mkNode (Z.land md MODE_MASK) now now now now 1 0 0 [] b))) ;!
   touch (p_parent place) now ;!
   let! dir := reads (fun s => is_directory s id) in
   modify (report_entry (p_parent place) (p_name place) (Z.lor W_CREATE (if dir then W_DIRECTORY else 0)) 0) ;!
   ret id) s.

Definition reap (id : Z) (s : Fs) : Fs :=
  match nodes s !! id with
  | Some n =>
      if (links n =? 0) && (opens n =? 0) && (maps n =? 0) then
        let s := set_nodes (delete id) s in
        match body n with File c => set_used (used s - content_len c) s | _ => s end
      else s
  | None => s
  end.

Definition unlinked (id now : Z) (counted : bool) : FsM unit :=
  update_node id (fun n => with_times (accessed n) (modified n) now (with_counts (saturating_sub (links n) 1) (opens n) (maps n) n)) ;!
  let! n := reads (fun s => node s id) in
  modify (if counted then report id W_ATTRIBUTES else fun s => s) ;!
  modify (if links n =? 0 then ended id else fun s => s) ;!
  modify (reap id).

Definition set_mode_node (id md now : Z) : FsM unit :=
  update_node id (fun n => with_times (accessed n) (modified n) now (with_mode (Z.land md MODE_MASK) n)) ;!
  modify (report id W_ATTRIBUTES).
Definition set_times_node (id : Z) (acc mod_ : option Z) (now : Z) : FsM unit :=
  let! n := reads (fun s => node s id) in
  match acc, mod_ with
  | None, None => ret tt
  | _, _ =>
      update_node id (fun n => with_times (default (accessed n) acc) (default (modified n) mod_) now n) ;!
      modify (report id W_ATTRIBUTES)
  end.

(** [State::relock] on the locks of node [id]. *)
Definition relock_node (id md : Z) (wanted : Lock) : FsM unit := fun s =>
  match nodes s !! id with
  | None => (s, Err EInvalidArgument)
  | Some n =>
      let '(ls, g, r) := relock md wanted (locks n, answers_left s) in
      (set_answers g (set_nodes (insert id (with_locks ls n)) s), r)
  end.

(** [State::change]: [edit] may have changed the bytes' representation even when it fails. *)
Definition change {A} (id now : Z) (told : bool) (edit : Z -> bool -> M (Content * answers) Error A) : FsM A := fun s =>
  let room := saturating_sub (fs_capacity s) (used s) in
  match nodes s !! id with
  | None => (s, Err EInvalidArgument)
  | Some n =>
      match body n with
      | File c =>
          let before := content_len c in
          let '(c, g, r) := edit room (negb (maps n =? 0)) (c, answers_left s) in
          match r with
          | Err e => (set_answers g (set_nodes (insert id (with_body (File c) n)) s), Err e)
          | Ok a =>
              let after := content_len c in
              let s := set_answers g (set_nodes (insert id (with_times (accessed n) now now (with_body (File c) n))) s) in
              let s := set_used (used s - before + after) s in
              (if told || negb (before =? after) then report id W_MODIFY s else s, Ok a)
          end
      | _ => (s, Err EIsDirectory)
      end
  end.
Definition watcher (s : Fs) (id : Z) : Result Watcher := ok_or (watchers s !! id) EInvalidArgument.

(** ** Handles *)
Section Handles.
Context `{BoxAllocator}.
(** [fn handle] *)
Definition handle (value : Handle) : FsM Z := fun s =>
  let address := box_at (handles s) in (set_handles (insert address value) s, Ok address).
End Handles.
(** [fn borrow].  A pointer that is neither NULL nor misaligned nor a live box is outside the contract of the calls;
    the model refuses it too. *)
Definition borrow (s : Fs) (h : Z) : Result Handle :=
  if (h =? 0) || negb (h mod 8 =? 0) then Err EInvalidArgument else ok_or (handles s !! h) EInvalidArgument.
Definition file_node (s : Fs) (h access : Z) : Result Z :=
  let? v := borrow s h in
  match v with
  | HFile node granted => if Z.land granted access =? access then Ok node else Err EAccessDenied
  | _ => Err EInvalidArgument
  end.
Definition watcher_id (s : Fs) (h : Z) : Result Z :=
  let? v := borrow s h in match v with HWatcher id => Ok id | _ => Err EInvalidArgument end.

(** ** [impl Files for MemFs] *)
Definition open `{BoxAllocator} (path : list Z) (flags md clock : Z) : FsM Z :=
  let now := if has flags (Z.lor CREATE TRUNCATE) then clock else 0 in
  let! place := reads (fun s => walk s path (if has flags EXCLUSIVE then CreateLast else Follow)) in
  let! id :=
    (match p_node place with
     | Some nd =>
         if has flags EXCLUSIVE then fail EAlreadyExists else
         let! dir := reads (fun s => is_directory s nd) in
         if (dir : bool) then fail EIsDirectory else
         (if has flags TRUNCATE then change nd now false (fun room mapped => content_resize 0 room mapped) else ret tt) ;!
         ret nd
     | None =>
         if negb (has flags CREATE) then fail ENotFound else
         if p_slash place then fail EIsDirectory else
         create place md (File (Plain vec_new)) now
     end) in
  update_node id (fun n => with_counts (links n) (wrapping_add usize_max (opens n) 1) (maps n) n) ;!
  handle (HFile id (Z.land flags (Z.lor READ WRITE))).

Definition close (file : Z) : FsM unit :=
  let! v := reads (fun s => borrow s file) in
  match v with
  | HFile nd _ =>
      modify (set_handles (delete file)) ;!
      update_node nd (fun n => with_locks (List.filter (fun held => negb (l_owner held =? file)) (locks n))
                                 (with_counts (links n) (saturating_sub (opens n) 1) (maps n) n)) ;!
      modify (reap nd)
  | _ => fail EInvalidArgument
  end.

Definition read_at (file offset capacity : Z) : FsM (list Z) :=
  let! nd := reads (fun s => file_node s file READ) in
  let! c := reads (fun s => content s nd) in
  let out := content_read c offset capacity in
  (match out with [] => ret tt | _ => modify (report nd W_ACCESS) end) ;!
  ret out.
Definition write_at (file offset : Z) (d : list Z) (now : Z) : FsM Z :=
  let! nd := reads (fun s => file_node s file WRITE) in
  change nd now (negb (lenZ d =? 0)) (fun room mapped => content_write offset d room mapped).
Definition set_file_size (file n now : Z) : FsM unit :=
  let! nd := reads (fun s => file_node s file WRITE) in
  change nd now false (fun room mapped => content_resize n room mapped).
Definition flush (file : Z) : FsM unit :=
  let! _ := reads (fun s => file_node s file 0) in ret tt.

Record Status := mkStatus {
  st_kind : Z; st_mode : Z; st_size : Z; st_modified : Z; st_accessed : Z; st_changed : Z; st_created : Z; st_identity : Z; st_device : Z }.
Definition status_node (s : Fs) (id : Z) : Result Status :=
  let? n := node s id in
  let '(k, sz) := match body n with
                  | File c => (NODE_FILE, content_len c)
                  | Directory _ _ => (NODE_DIRECTORY, 0)
                  | Link t => (NODE_SYMLINK, lenZ t)
                  end in
  Ok (mkStatus k (mode n) sz (modified n) (accessed n) (changed n) (created n) id 1).
Definition file_status (file : Z) : FsM Status :=
  let! nd := reads (fun s => file_node s file 0) in reads (fun s => status_node s nd).
Definition path_status (path : list Z) (follow : bool) : FsM Status :=
  let! nd := reads (fun s => walk_node s path (if follow then Follow else Keep)) in reads (fun s => status_node s nd).

Definition remove (path : list Z) (now : Z) : FsM unit :=
  let! place := reads (fun s => walk s path EntryLast) in
  let! nd := reads (fun _ => ok_or (p_node place) ENotFound) in
  let! dir := reads (fun s => is_directory s nd) in
  if (dir : bool) then fail EIsDirectory else
  update_entries (p_parent place) (delete (p_name place)) ;!
  touch (p_parent place) now ;!
  unlinked nd now true ;!
  modify (report_entry (p_parent place) (p_name place) W_DELETE 0).

(** The loop of [rename] over the ancestors of the destination: an error when the directory is among them.  Fuel as
    for [climb]: a path to the root is shorter than the number of nodes. *)
Fixpoint ancestors_avoid (fuel : nat) (s : Fs) (ancestor nd : Z) : option (Result unit) :=
  if ancestor =? ROOT then Some (Ok tt) else
  match fuel with
  | O => None
  | S fuel =>
      if ancestor =? nd then Some (Err EInvalidArgument) else
      match parent s ancestor with Err e => Some (Err e) | Ok up => ancestors_avoid fuel s up nd end
  end.
Definition rename_checks (s : Fs) (nd : Z) (directory : bool) (target : Place) : Result unit :=
  let? _ := (if directory then
               match ancestors_avoid (size (nodes s)) s (p_parent target) nd with Some r => r | None => Err EOs end
             else if p_slash target then Err ENotDirectory else Ok tt) in
  match p_node target with
  | None => Ok tt
  | Some replaced =>
      let? replaced_directory := is_directory s replaced in
      match directory, replaced_directory with
      | false, true => Err EIsDirectory
      | true, false => Err ENotDirectory
      | true, true =>
          let? es := entries s replaced in
          if decide (es = ∅) then Ok tt else Err ENotEmpty
      | false, false => Ok tt
      end
  end.
Definition rename (from to : list Z) (now : Z) : FsM unit :=
  let! source := reads (fun s => walk s from EntryLast) in
  let! nd := reads (fun _ => ok_or (p_node source) ENotFound) in
  let! target := reads (fun s => walk s to EntryLast) in
  if bool_decide (p_name source = []) || bool_decide (p_name target = []) then fail EBusy else
  if bool_decide (p_node target = Some nd) then ret tt else
  let! directory := reads (fun s => is_directory s nd) in
  reads (fun s => rename_checks s nd directory target) ;!
  update_entries (p_parent source) (delete (p_name source)) ;!
  let! before := reads (fun s => entries s (p_parent target)) in
  update_entries (p_parent target) (insert (p_name target) nd) ;!
  let replaced := before !! p_name target in
  modify (fun s => set_cookie (if cookie s =? u32_max then 1 else cookie s + 1) s) ;!
  let! ck := reads (fun s => Ok (cookie s)) in
  let mark := if (directory : bool) then W_DIRECTORY else 0 in
  modify (report_entry (p_parent source) (p_name source) (Z.lor W_MOVED_FROM mark) ck) ;!
  modify (report_entry (p_parent target) (p_name target) (Z.lor W_MOVED_TO mark) ck) ;!
  (match replaced with Some r => unlinked r now true | None => ret tt end) ;!
  update_node nd (fun n => with_times (accessed n) (modified n) now
                     (match body n with Directory _ es => with_body (Directory (p_parent target) es) n | _ => n end)) ;!
  touch (p_parent source) now ;!
  touch (p_parent target) now.

Definition create_directory (path : list Z) (md now : Z) : FsM unit :=
  let! place := reads (fun s => walk s path CreateLast) in
  match p_node place with
  | Some _ => fail EAlreadyExists
  | None => let! _ := create place md (Directory (p_parent place) ∅) now in ret tt
  end.
Definition remove_directory (path : list Z) (now : Z) : FsM unit :=
  let! place := reads (fun s => walk s path EntryLast) in
  let! nd := reads (fun _ => ok_or (p_node place) ENotFound) in
  let! es := reads (fun s => entries s nd) in
  if nd =? ROOT then fail EBusy else
  if negb (bool_decide (es = ∅)) then fail ENotEmpty else
  if bool_decide (p_name place = []) then fail EInvalidArgument else
  update_entries (p_parent place) (delete (p_name place)) ;!
  touch (p_parent place) now ;!
  unlinked nd now false ;!
  modify (report_entry (p_parent place) (p_name place) (Z.lor W_DELETE W_DIRECTORY) 0).

(** [kind, length, name] per entry, in the order of the names. *)
Fixpoint listing_of (s : Fs) (es : list (name * Z)) : Result (list Z) :=
  match es with
  | [] => Ok []
  | (nm, child) :: es =>
      let? k := kind s child in
      let? rest := listing_of s es in
      Ok ([k mod 256; lenZ nm mod 256] ++ nm ++ rest)
  end.
Definition open_directory `{BoxAllocator} (path : list Z) : FsM Z :=
  let! nd := reads (fun s => walk_node s path Follow) in
  let! es := reads (fun s => entries s nd) in
  let wanted := foldr (fun (p : name * Z) acc => lenZ p.1 + 2 + acc) 0 (entries_list es) in
  (fun s => let '(_, g, granted) := try_reserve_exact wanted vec_new (answers_left s) in
            (set_answers g s, if (granted : bool) then Ok tt else Err EOutOfMemory)) ;!
  let! listing := reads (fun s => listing_of s (entries_list es)) in
  handle (HDirectory listing 0).
Definition read_directory (directory capacity : Z) : FsM (list Z * Z) :=
  let! v := reads (fun s => borrow s directory) in
  match v with
  | HDirectory listing next =>
      match dropZ next listing with
      | k :: length :: rest =>
          if lenZ rest <? length then fail EOs else
          let text := takeZ length rest in
          if capacity <? lenZ text then fail EInvalidArgument else
          modify (set_handles (insert directory (HDirectory listing (next + (2 + lenZ text))))) ;!
          ret (text, k)
      | _ => fail ENotFound
      end
  | _ => fail EInvalidArgument
  end.
Definition close_directory (directory : Z) : FsM unit :=
  let! v := reads (fun s => borrow s directory) in
  match v with
  | HDirectory _ _ => modify (set_handles (delete directory))
  | _ => fail EInvalidArgument
  end.

(** The text calls return the length needed and what they wrote; [fill] is what the buffer held. *)
Definition current_directory (capacity fill : Z) : FsM (Z * option (list Z)) :=
  reads (fun s => let? d := working_dir s in spell s d [] capacity fill).
Definition set_mode (path : list Z) (md now : Z) : FsM unit :=
  let! nd := reads (fun s => walk_node s path Follow) in set_mode_node nd md now.
Definition set_file_mode (file md now : Z) : FsM unit :=
  let! nd := reads (fun s => file_node s file 0) in set_mode_node nd md now.
Definition set_times (path : list Z) (follow : bool) (acc mod_ : option Z) (now : Z) : FsM unit :=
  let! nd := reads (fun s => walk_node s path (if follow then Follow else Keep)) in set_times_node nd acc mod_ now.
Definition set_file_times (file : Z) (acc mod_ : option Z) (now : Z) : FsM unit :=
  let! nd := reads (fun s => file_node s file 0) in set_times_node nd acc mod_ now.

Definition link (existing created_ : list Z) (now : Z) : FsM unit :=
  let! nd := reads (fun s => walk_node s existing Keep) in
  let! place := reads (fun s => vacant s created_) in
  let! dir := reads (fun s => is_directory s nd) in
  if (dir : bool) then fail EAccessDenied else
  modify (report nd W_ATTRIBUTES) ;!
  update_entries (p_parent place) (insert (p_name place) nd) ;!
  update_node nd (fun n => with_times (accessed n) (modified n) now
                     (with_counts (wrapping_add usize_max (links n) 1) (opens n) (maps n) n)) ;!
  touch (p_parent place) now ;!
  modify (report_entry (p_parent place) (p_name place) W_CREATE 0).
Definition symlink (target created_ : list Z) (now : Z) : FsM unit :=
  if lenZ target =? 0 then fail ENotFound else
  if MAX_NAME <? lenZ target then fail ENameTooLong else
  (fun s => let '(_, g, granted) := try_reserve_exact (lenZ target) vec_new (answers_left s) in
            (set_answers g s, if (granted : bool) then Ok tt else Err ENoSpace)) ;!
  let! place := reads (fun s => vacant s created_) in
  let! _ := create place 511 (Link target) now in ret tt.
Definition read_link (path : list Z) (capacity : Z) : FsM (Z * option (list Z)) :=
  let! nd := reads (fun s => walk_node s path Keep) in
  let! n := reads (fun s => node s nd) in
  match body n with
  | Link target => ret (lenZ target + 1, if lenZ target <? capacity then Some (target ++ [0]) else None)
  | _ => fail EInvalidArgument
  end.
Definition real_path (path : list Z) (capacity fill : Z) : FsM (Z * option (list Z)) :=
  let! place := reads (fun s => walk s path Follow) in
  reads (fun _ => ok_or (p_node place) ENotFound) ;!
  reads (fun s => spell s (p_parent place) (p_name place) capacity fill).
Definition set_current_directory (path : list Z) : FsM unit :=
  let! nd := reads (fun s => walk_node s path Follow) in
  reads (fun s => entries s nd) ;!
  modify (set_working nd).

(** One attempt of [lock]: what the handle held is given up first. *)
Definition lock_attempt (file md : Z) : FsM unit :=
  let wanted := mkLock file true 0 u64_max (md =? LOCK_EXCLUSIVE) in
  let! nd := reads (fun s => file_node s file 0) in
  relock_node nd LOCK_UNLOCK wanted ;!
  relock_node nd md wanted.
(** [lock]: attempts until one is not [WouldBlock] when the caller waits.  Between two attempts other threads run,
    one element of [others] each time; [None] while it still waits. *)
Fixpoint lock (file md : Z) (wait : bool) (others : list (Fs -> Fs)) (s : Fs) : Fs * option (Result unit) :=
  match lock_attempt file md s with
  | (s, Err EWouldBlock) =>
      if wait then
        match others with [] => (s, None) | other :: others => lock file md wait others (other s) end
      else (s, Some (Err EWouldBlock))
  | (s, r) => (s, Some r)
  end.
Definition lock_range (file offset length md : Z) : FsM unit :=
  let access := if md =? LOCK_UNLOCK then 0 else if md =? LOCK_EXCLUSIVE then WRITE else READ in
  let! nd := reads (fun s => file_node s file access) in
  match checked_add u64_max offset length with
  | Some finish =>
      if offset <? finish
      then relock_node nd md (mkLock file false offset finish (md =? LOCK_EXCLUSIVE))
      else fail EInvalidArgument
  | None => fail EInvalidArgument
  end.

(** ** [impl Watches for MemFs] *)
Definition watch_open `{BoxAllocator} : FsM Z := fun s =>
  match queue_new (answers_left s) with
  | (g, Err e) => (set_answers g s, Err e)
  | (g, Ok q) =>
      let id := next_watcher s in
      let s := set_next_watcher (wrapping_add u64_max id 1) (set_watchers (<[id := mkWatcher q [] 0]> (watchers s)) g s) in
      handle (HWatcher id) s
  end.
Definition watch_close (w : Z) : FsM unit :=
  let! id := reads (fun s => watcher_id s w) in
  modify (set_handles (delete w)) ;!
  modify (fun s => set_watchers (delete id (watchers s)) (answers_left s) s).
Definition watch_add (w : Z) (path : list Z) (events : Z) : FsM Z :=
  let wanted := Z.land events REQUESTABLE in
  if wanted =? 0 then fail EInvalidArgument else
  let! id := reads (fun s => watcher_id s w) in
  let! nd := reads (fun s => walk_node s path (if has events W_NO_FOLLOW then Keep else Follow)) in
  let! dir := reads (fun s => if has events W_ONLY_DIRECTORY then is_directory s nd else Ok true) in
  if negb dir then fail ENotDirectory else
  let! wr := reads (fun s => watcher s id) in
  let index := position (fun watch => w_node watch =? nd) (w_watches wr) in
  match w_watches wr !! index with
  | Some known =>
      modify (fun s => set_watchers (<[id := mkWatcher (w_queue wr) (<[index := mkWatch (w_id known) nd wanted]> (w_watches wr)) (w_last wr)]>
                                       (watchers s)) (answers_left s) s) ;!
      ret (w_id known)
  | None =>
      if w_last wr =? u32_max then fail ENoSpace else
      (fun s => match ask (answers_left s) with
                | (Some _, g) =>
                    (set_watchers (<[id := mkWatcher (w_queue wr) (w_watches wr ++ [mkWatch (w_last wr + 1) nd wanted]) (w_last wr + 1)]>
                                     (watchers s)) g s, Ok (w_last wr + 1))
                | (None, g) => (set_answers g s, Err EOutOfMemory)
                end)
  end.
Definition watch_remove (w watch : Z) : FsM unit :=
  let! id := reads (fun s => watcher_id s w) in
  let! wr := reads (fun s => watcher s id) in
  let index := position (fun known => w_id known =? watch) (w_watches wr) in
  match w_watches wr !! index with
  | Some _ =>
      modify (fun s =>
        let '(q, g) := queue_push watch W_REMOVED 0 [] (w_queue wr) (answers_left s) in
        set_watchers (<[id := mkWatcher q (delete index (w_watches wr)) (w_last wr)]> (watchers s)) g s)
  | None => fail EInvalidArgument
  end.
(** One look of [read] at the queue, what it does under the lock; [None] when there is no event. *)
Definition watch_look (w : Z) : FsM (option Event) :=
  let! id := reads (fun s => watcher_id s w) in
  let! wr := reads (fun s => watcher s id) in
  fun s =>
    let '(q, g, e) := queue_pop (w_queue wr) (answers_left s) in
    (set_watchers (<[id := mkWatcher q (w_watches wr) (w_last wr)]> (watchers s)) g s, Ok e).

(** ** [impl Mappings for MemFs] *)
(** [checked_next_multiple_of(PAGE)] on [usize] *)
Definition next_page (n : Z) : option Z :=
  let up := (n + (PAGE - 1)) / PAGE * PAGE in if up <=? usize_max then Some up else None.
Definition map (file offset length access : Z) (shared : bool) : FsM Z :=
  let! nd := reads (fun s => file_node s file READ) in
  reads (fun s => if shared && has access WRITE then file_node s file WRITE else Ok 0) ;!
  if has access EXECUTE then fail EUnsupported else
  let! c := reads (fun s => content s nd) in
  let! limit := reads (fun _ => ok_or (next_page (content_len c)) EInvalidArgument) in
  let! start := reads (fun _ => match usize_try_from offset with
                                | Some start => if start mod PAGE =? 0 then Ok start else Err EInvalidArgument
                                | None => Err EInvalidArgument end) in
  match checked_add usize_max start length with
  | None => fail EInvalidArgument
  | Some finish =>
      if (length =? 0) || (limit <? finish) then fail EInvalidArgument else
      if shared then
        let! base := (fun s =>
          let '(c, g, r) := pin limit (c, answers_left s) in
          match nodes s !! nd with
          | Some n => (set_answers g (set_nodes (insert nd (with_body (File c) n)) s), r)
          | None => (s, Err EInvalidArgument)
          end) in
        let key := (base + start, length) in
        let! m := reads (fun s => Ok (default (Shared nd 0) (mappings s !! key))) in
        match m with
        | Shared owner count =>
            modify (set_mappings (insert key (Shared owner (wrapping_add usize_max count 1)))) ;!
            update_node nd (fun n => with_counts (links n) (opens n) (wrapping_add usize_max (maps n) 1) n) ;!
            ret (base + start)
        | Private => fail EOs
        end
      else
        let! room := reads (fun _ => ok_or (next_page length) EOutOfMemory) in
        let! base := (fun s => let '(r, g) := pages room (answers_left s) in (set_answers g s, r)) in
        let held := content_read c offset length in
        modify (set_copies (insert base (held ++ zeros (room - lenZ held)))) ;!
        modify (set_mappings (insert (base, length) Private)) ;!
        ret base
  end.
Definition unmap (address length : Z) : FsM unit :=
  let key := (address, length) in
  let! m := reads (fun s => ok_or (mappings s !! key) EInvalidArgument) in
  match m with
  | Shared nd count =>
      modify (set_mappings (if count - 1 =? 0 then delete key else insert key (Shared nd (count - 1)))) ;!
      update_node nd (fun n => with_counts (links n) (opens n) (saturating_sub (maps n) 1) n) ;!
      modify (reap nd)
  | Private =>
      modify (set_mappings (delete key)) ;!
      modify (set_copies (delete address))
  end.
Definition sync (address length : Z) : FsM unit :=
  reads (fun s => match mappings s !! (address, length) with Some _ => Ok tt | None => Err EInvalidArgument end).

(** ** [impl Volumes for MemFs], [set_capacity], [used_bytes] *)
Definition volume_entry (index capacity : Z) : FsM (Z * option (list Z)) :=
  if negb (index =? 0) then fail ENotFound else ret (2, if 2 <=? capacity then Some [SLASH; 0] else None).
(** [(total, free, available)] as [volumes::Status::new] keeps them. *)
Definition volume_status (path : list Z) : FsM (Z * Z * Z) :=
  let! _ := reads (fun s => walk_node s path Follow) in
  reads (fun s =>
    let total := Z.max (fs_capacity s) (used s) in
    let free := saturating_sub (fs_capacity s) (used s) in
    Ok (total, Z.min free total, Z.min free (Z.min free total))).
Definition set_capacity (n : Z) : FsM unit := modify (set_fs_capacity n).
Definition used_bytes : FsM Z := reads (fun s => Ok (used s)).
End Operations.
