(* ===== verification/Invariant.v ===== *)
(** * Invariant.v: what a well-formed file system is

    The invariant of [MemFs]'s state and the lemmas that say how the primitive changes of the tree affect it.  A call
    breaks the invariant between its steps (an entry is gone before the link count is lowered), so the invariant is
    stated with a debt: [wfd δ X] lets the link count of node [id] be off by [δ id] and exempts the directories in [X]
    from being named by their parent.  [wf] is [wfd] without debt. *)
From S2P Require Import Prelude Port Content Queue Locks Tree MemFs.
Local Open Scope Z_scope.
Local Open Scope pal_scope.

(** ** The entries of all directories as one map *)
Definition dir_entries (n : Node) : Entries := match body n with Directory _ es => es | _ => ∅ end.
Definition entry_map (ns : gmap Z Node) : gmap (Z * name) Z := map_uncurry (dir_entries <$> ns).
(** How many directory entries name a node. *)
Definition link_count (ns : gmap Z Node) (id : Z) : Z := Z.of_nat (size (filter (fun p => p.2 = id) (entry_map ns))).
(** Bytes of file content. *)
Definition file_size (n : Node) : Z := match body n with File c => content_len c | _ => 0 end.
Definition total_size (ns : gmap Z Node) : Z := map_fold (fun _ n acc => file_size n + acc) 0 ns.
(** Open file handles of a node. *)
Definition opens_node (id : Z) (h : Handle) : bool := match h with HFile nd _ => nd =? id | _ => false end.
Definition handle_count (hs : gmap Z Handle) (id : Z) : Z := Z.of_nat (size (filter (fun p => opens_node id p.2 = true) hs)).
(** [dist ns k d]: directory [d] reaches the root by exactly [k] parent pointers. *)
Inductive dist (ns : gmap Z Node) : nat -> Z -> Prop :=
| dist_root : dist ns 0 ROOT
| dist_step k d n p es : d <> ROOT -> ns !! d = Some n -> body n = Directory p es -> dist ns k p -> dist ns (S k) d.
Definition valid_name (nm : name) : Prop :=
  nm <> [] /\ lenZ nm <= MAX_ENTRY_NAME /\ SLASH ∉ nm /\ nm <> [DOT] /\ nm <> [DOT; DOT].

Section Invariant.
Context `{Arch}.

(** A node on its own: counters, content, and locks that belong to open handles of the node and do not conflict. *)
Definition node_base (hs : gmap Z Handle) (id : Z) (n : Node) : Prop :=
  (0 <= links n /\ 0 <= maps n /\ opens n = handle_count hs id) /\
  match body n with File c => content_ok c | Directory _ _ => opens n = 0 /\ maps n = 0 | Link _ => True end /\
  compatible (locks n) /\
  forall l, l ∈ locks n -> exists access, hs !! l_owner l = Some (HFile id access).
(** What keeps a node alive: a name, an open handle or a mapping. *)
Definition live (n : Node) : Prop := 0 < links n \/ 0 < opens n \/ 0 < maps n.
Definition node_ok (hs : gmap Z Handle) (id : Z) (n : Node) : Prop := live n /\ node_base hs id n.

Record wfd (δ : Z -> Z) (X : Z -> Prop) (s : Fs) : Prop := {
  wf_root : exists n es, nodes s !! ROOT = Some n /\ body n = Directory ROOT es;
  wf_ids : forall id n, nodes s !! id = Some n -> 1 <= id < next_id s;
  wf_next : next_id s <= u64_max;
  wf_entry : forall d nm c, entry_map (nodes s) !! (d, nm) = Some c -> is_Some (nodes s !! c) /\ valid_name nm;
  wf_links : forall id n, nodes s !! id = Some n -> links n = link_count (nodes s) id + (if id =? ROOT then 1 else 0) + δ id;
  wf_named : forall id n p es, nodes s !! id = Some n -> body n = Directory p es -> id <> ROOT -> ~ X id ->
    links n = 1 /\ exists nm, entry_map (nodes s) !! (p, nm) = Some id;
  wf_reach : forall id n p es, nodes s !! id = Some n -> body n = Directory p es -> exists k, dist (nodes s) k id;
  wf_node : forall id n, nodes s !! id = Some n -> node_ok (handles s) id n;
  wf_used : used s = total_size (nodes s);
  wf_handles : forall h v, handles s !! h = Some v -> h <> 0 /\ h mod 8 = 0 /\
    match v with HFile id _ => is_Some (nodes s !! id) | _ => True end;
  wf_root_unnamed : forall d nm, entry_map (nodes s) !! (d, nm) <> Some ROOT;
  wf_cwd : working s < next_id s /\ forall n, nodes s !! working s = Some n -> exists p es, body n = Directory p es;
}.
End Invariant.
Definition no_debt (id : Z) : Z := 0.
Definition no_one (id : Z) : Prop := False.
(** The invariant between calls. *)
Definition wf `{Arch} : Fs -> Prop := wfd no_debt no_one.

(** ** The entry map *)
Lemma lookup_entry_map ns d nm : entry_map ns !! (d, nm) = ns !! d ≫= fun n => dir_entries n !! nm.
Proof. unfold entry_map. rewrite lookup_map_uncurry, lookup_fmap. by destruct (ns !! d). Qed.
Lemma entry_map_Some ns d nm c :
  entry_map ns !! (d, nm) = Some c <-> exists n p es, ns !! d = Some n /\ body n = Directory p es /\ es !! nm = Some c.
Proof.
  rewrite lookup_entry_map. split.
  - destruct (ns !! d) as [n |]; [| done]. simpl. unfold dir_entries.
    destruct (body n) eqn:Hb; intros He; [by rewrite lookup_empty in He | eauto 10 | by rewrite lookup_empty in He].
  - intros (n & p & es & -> & Hb & He). simpl. unfold dir_entries. by rewrite Hb.
Qed.
Lemma entry_map_same ns id n n' : ns !! id = Some n -> dir_entries n' = dir_entries n -> entry_map (<[id := n']> ns) = entry_map ns.
Proof.
  intros Hn He. apply map_eq. intros [d nm]. rewrite !lookup_entry_map, lookup_insert.
  case_decide; [| done]. subst. by rewrite Hn; simpl; rewrite He.
Qed.
Lemma entry_map_new ns id n' : ns !! id = None -> dir_entries n' = ∅ -> entry_map (<[id := n']> ns) = entry_map ns.
Proof.
  intros Hn He. apply map_eq. intros [d nm]. rewrite !lookup_entry_map, lookup_insert.
  case_decide; [| done]. subst. by rewrite Hn; simpl; rewrite He.
Qed.
Lemma entry_map_delete_node ns id n : ns !! id = Some n -> dir_entries n = ∅ -> entry_map (delete id ns) = entry_map ns.
Proof.
  intros Hn He. apply map_eq. intros [d nm]. rewrite !lookup_entry_map, lookup_delete.
  case_decide; [| done]. subst. by rewrite Hn; simpl; rewrite He.
Qed.
Lemma entry_map_insert ns d n p es nm c : ns !! d = Some n -> body n = Directory p es ->
  entry_map (<[d := with_body (Directory p (<[nm := c]> es)) n]> ns) = <[(d, nm) := c]> (entry_map ns).
Proof.
  intros Hn Hb. apply map_eq. intros [d' nm']. rewrite lookup_insert, !lookup_entry_map, lookup_insert.
  unfold dir_entries. repeat case_decide; simplify_eq/=; rewrite ?Hn; simpl; rewrite ?Hb; simplify_map_eq; try done.
  by rewrite lookup_insert_ne by congruence.
Qed.
Lemma entry_map_delete ns d n p es nm : ns !! d = Some n -> body n = Directory p es ->
  entry_map (<[d := with_body (Directory p (delete nm es)) n]> ns) = delete (d, nm) (entry_map ns).
Proof.
  intros Hn Hb. apply map_eq. intros [d' nm']. rewrite lookup_delete, !lookup_entry_map, lookup_insert.
  unfold dir_entries. repeat case_decide; simplify_eq/=; rewrite ?Hn; simpl; rewrite ?Hb; simplify_map_eq; try done.
  by rewrite lookup_delete_ne by congruence.
Qed.

Lemma size_filter_insert {K V} `{Countable K} (m : gmap K V) k v (P : K * V -> Prop) `{forall x, Decision (P x)} :
  m !! k = None -> Z.of_nat (size (filter P (<[k := v]> m))) = Z.of_nat (size (filter P m)) + (if decide (P (k, v)) then 1 else 0).
Proof.
  intros Hk. case_decide.
  - rewrite map_filter_insert_True, map_size_insert_None by (rewrite ?map_lookup_filter_None; auto). lia.
  - rewrite map_filter_insert_not' by (done || (intros ?; congruence)). lia.
Qed.
Lemma size_filter_delete {K V} `{Countable K} (m : gmap K V) k v (P : K * V -> Prop) `{forall x, Decision (P x)} :
  m !! k = Some v -> Z.of_nat (size (filter P (delete k m))) = Z.of_nat (size (filter P m)) - (if decide (P (k, v)) then 1 else 0).
Proof.
  intros Hk. rewrite <- (insert_delete_id m k v Hk) at 2. rewrite size_filter_insert by apply lookup_delete_eq. lia.
Qed.

Lemma size_filter_zero {K V} `{Countable K} (m : gmap K V) (P : K * V -> Prop) `{forall x, Decision (P x)} :
  Z.of_nat (size (filter P m)) = 0 <-> forall k v, m !! k = Some v -> ~ P (k, v).
Proof.
  split.
  - intros Hz k v Hk Hp. assert (filter P m = ∅) as He by (apply map_size_empty_inv; lia).
    assert (filter P m !! k = Some v) as Hl by by apply map_lookup_filter_Some.
    by rewrite He, lookup_empty in Hl.
  - intros Hno. assert (filter P m = ∅) as ->; [| by rewrite map_size_empty].
    apply map_empty. intros k. apply map_lookup_filter_None. right. eauto.
Qed.

(** The names of a node that has exactly one. *)
Lemma link_count_one ns id k1 k2 : link_count ns id = 1 -> entry_map ns !! k1 = Some id -> entry_map ns !! k2 = Some id -> k1 = k2.
Proof.
  unfold link_count. intros Hc H1 H2. destruct (decide (k1 = k2)) as [| Hne]; [done | exfalso].
  pose proof (size_filter_delete (entry_map ns) k1 id (fun p => p.2 = id) H1) as Hs.
  rewrite decide_True in Hs by done. rewrite Hc in Hs.
  assert (filter (fun p => p.2 = id) (delete k1 (entry_map ns)) = ∅) as He by (apply map_size_empty_inv; lia).
  assert (filter (fun p => p.2 = id) (delete k1 (entry_map ns)) !! k2 = Some id) as Hl.
  { apply map_lookup_filter_Some. by rewrite lookup_delete_ne. }
  by rewrite He, lookup_empty in Hl.
Qed.

(** ** Sums of sizes *)
Lemma total_size_insert_new ns id n : ns !! id = None -> total_size (<[id := n]> ns) = file_size n + total_size ns.
Proof. intros Hn. unfold total_size. rewrite map_fold_insert_L; [done | intros; lia | done]. Qed.
Lemma total_size_delete ns id n : ns !! id = Some n -> total_size (delete id ns) = total_size ns - file_size n.
Proof.
  intros Hn. rewrite <- (insert_delete_id ns id n Hn) at 2. rewrite total_size_insert_new by apply lookup_delete_eq. lia.
Qed.
Lemma total_size_insert ns id n n' : ns !! id = Some n -> total_size (<[id := n']> ns) = total_size ns - file_size n + file_size n'.
Proof.
  intros Hn. rewrite <- insert_delete_eq, total_size_insert_new by apply lookup_delete_eq.
  rewrite (total_size_delete ns id n Hn). lia.
Qed.

(** ** Distances to the root *)
Lemma dist_unique ns k d : dist ns k d -> forall m, dist ns m d -> k = m.
Proof.
  induction 1 as [| k d n p es Hd Hn Hb Hk IH]; intros m Hm; inversion Hm as [| m' ? n' p' es' Hd' Hn' Hb' Hm']; subst; try done.
  rewrite Hn in Hn'. injection Hn' as <-. rewrite Hb in Hb'. injection Hb' as <- <-. f_equal. by apply IH.
Qed.
Lemma dist_path ns k d : is_Some (ns !! ROOT) -> dist ns k d ->
  exists l, length l = S k /\ NoDup l /\ (forall x, x ∈ l -> is_Some (ns !! x) /\ exists j, (j <= k)%nat /\ dist ns j x).
Proof.
  intros Hroot. induction 1 as [| k d n p es Hd Hn Hb Hk IH].
  - exists [ROOT]. split; [done |]. split; [apply NoDup_singleton |].
    intros x Hx%list_elem_of_singleton. subst. split; [done |]. exists O. split; [lia | constructor].
  - destruct IH as (l & Hl & Hnd & Hall). exists (d :: l). split; [simpl; lia |]. split.
    + constructor; [| done]. intros Hin. destruct (Hall d Hin) as [_ (j & Hj & Hdj)].
      assert (S k = j); [| lia]. eapply dist_unique; [| done]. by econstructor.
    + intros x [-> | Hx]%elem_of_cons.
      * split; [eauto |]. exists (S k). split; [lia |]. by econstructor.
      * destruct (Hall x Hx) as [? (j & ? & ?)]. split; [done |]. exists j. split; [lia | done].
Qed.
(** A path to the root is shorter than the number of nodes: the fuel of [climb] and of [rename]. *)
Lemma dist_bound ns k d : is_Some (ns !! ROOT) -> dist ns k d -> (k < size ns)%nat.
Proof.
  intros Hroot Hd. destruct (dist_path ns k d Hroot Hd) as (l & Hl & Hnd & Hall).
  assert (length l <= size (dom ns))%nat as Hle.
  { rewrite <- (size_list_to_set (C := gset Z) l Hnd). apply subseteq_size. intros x Hx%elem_of_list_to_set.
    apply elem_of_dom. by apply Hall. }
  rewrite size_dom in Hle. lia.
Qed.

(** ** The weakest precondition of a call: [wp m Q s] says that [m], run from [s], ends as [Q] asks *)
Definition wp {S E A} (m : M S E A) (Q : S -> result E A -> Prop) (s : S) : Prop := Q (m s).1 (m s).2.
Section Wp.
Context {S E A B : Type}.
Implicit Types (Q : S -> result E B -> Prop).
Lemma wp_bind (m : M S E A) (k : A -> M S E B) Q s :
  wp m (fun s' r => match r with Ok a => wp (k a) Q s' | Err e => Q s' (Err e) end) s -> wp (bind m k) Q s.
Proof. unfold wp, bind. by destruct (m s) as [s' [a | e]]. Qed.
Lemma wp_reads (f : S -> result E A) (Q : S -> result E A -> Prop) s : Q s (f s) -> wp (reads f) Q s.
Proof. done. Qed.
Lemma wp_modify (f : S -> S) (Q : S -> result E unit -> Prop) s : Q (f s) (Ok tt) -> wp (modify f) Q s.
Proof. done. Qed.
Lemma wp_ret (a : A) (Q : S -> result E A -> Prop) s : Q s (Ok a) -> wp (ret a) Q s.
Proof. done. Qed.
Lemma wp_fail (e : E) (Q : S -> result E A -> Prop) s : Q s (Err e) -> wp (fail e) Q s.
Proof. done. Qed.
Lemma wp_mono (m : M S E A) (P Q : S -> result E A -> Prop) s : wp m P s -> (forall s' r, P s' r -> Q s' r) -> wp m Q s.
Proof. unfold wp. auto. Qed.
End Wp.

(** ** What does not touch the tree *)
Definition core_eq (s s' : Fs) : Prop :=
  nodes s' = nodes s /\ next_id s' = next_id s /\ used s' = used s /\ handles s' = handles s /\ working s' = working s.
#[export] Instance core_eq_equiv : Equivalence core_eq.
Proof. unfold core_eq. split; [intros ? | intros ?? | intros ???]; naive_solver congruence. Qed.
Lemma wfd_ext `{Arch} δ δ' X X' s s' : core_eq s s' -> (forall id, δ' id = δ id) -> (forall id, X id -> X' id) ->
  wfd δ X s -> wfd δ' X' s'.
Proof.
  intros (Hn & Hi & Hu & Hh & Hw) Hδ HX [].
  constructor; rewrite ?Hn, ?Hi, ?Hu, ?Hh, ?Hw; auto; intros.
  - rewrite Hδ. auto.
  - eauto.
Qed.

Section Core.
Context `{Arch} `{Endian}.
Lemma each_watcher_core f s : core_eq s (each_watcher f s).
Proof. unfold each_watcher. by destruct (foldl _ _ _). Qed.
Lemma report_core id kinds s : core_eq s (report id kinds s).
Proof. unfold report. case_decide; [done |]. destruct (nodes s !! id); [apply each_watcher_core | done]. Qed.
Lemma report_entry_core d nm kinds ck s : core_eq s (report_entry d nm kinds ck s).
Proof. apply each_watcher_core. Qed.
Lemma ended_core id s : core_eq s (ended id s).
Proof. apply each_watcher_core. Qed.
End Core.
Lemma nodes_eq_entries s s' : nodes s' = nodes s -> entry_map (nodes s') = entry_map (nodes s).
Proof. by intros ->. Qed.

(** ** Changing one node *)
(** The part of a node that the tree sees is kept: parent and entries of a directory, not being one otherwise. *)
Definition same_shape (b b' : Body) : Prop :=
  match b, b' with
  | Directory p es, Directory p' es' => p' = p /\ es' = es
  | Directory _ _, _ | _, Directory _ _ => False
  | _, _ => True
  end.
Lemma same_shape_entries n n' : same_shape (body n) (body n') -> dir_entries n' = dir_entries n.
Proof. unfold same_shape, dir_entries. destruct (body n), (body n'); naive_solver. Qed.
Lemma same_shape_dir n n' p es : same_shape (body n) (body n') -> body n' = Directory p es -> body n = Directory p es.
Proof. intros Hs Hb. rewrite Hb in Hs. unfold same_shape in Hs. destruct (body n); naive_solver. Qed.

Lemma dist_same_shape ns id n n' k d : ns !! id = Some n -> same_shape (body n) (body n') ->
  dist ns k d -> dist (<[id := n']> ns) k d.
Proof.
  intros Hn Hs. induction 1 as [| k d m p es Hd Hm Hb Hk IH]; [constructor |].
  destruct (decide (d = id)) as [-> | Hne].
  - rewrite Hn in Hm. injection Hm as <-. rewrite Hb in Hs. simpl in Hs.
    destruct (body n') as [| p' es' |] eqn:Hb'; try done. destruct Hs as [-> ->].
    econstructor; [done | apply lookup_insert_eq | exact Hb' | done].
  - econstructor; [done | by rewrite lookup_insert_ne | done | done].
Qed.

(** One node, the byte count and the handles change together; [d] is what the link count changes by. *)
Lemma wfd_set_node `{Arch} δ δ' X s s' id n n' (d : Z) :
  wfd δ X s -> nodes s !! id = Some n -> nodes s' = <[id := n']> (nodes s) -> next_id s' = next_id s -> working s' = working s ->
  used s' = used s - file_size n + file_size n' -> same_shape (body n) (body n') -> links n' = links n + d ->
  (forall j, δ' j = δ j + if j =? id then d else 0) ->
  (d = 0 \/ X id \/ id = ROOT \/ forall p es, body n <> Directory p es) ->
  node_ok (handles s') id n' ->
  (forall j m, j <> id -> nodes s !! j = Some m -> node_ok (handles s) j m -> node_ok (handles s') j m) ->
  (forall h v, handles s' !! h = Some v -> handles s !! h = Some v \/
     (h <> 0 /\ h mod 8 = 0 /\ match v with HFile j _ => is_Some (nodes s !! j) | _ => True end)) ->
  wfd δ' X s'.
Proof.
  intros Hwf Hn Hns Hnext Hwork Hused Hshape Hlinks Hδ HX Hok Hothers Hhs.
  assert (entry_map (nodes s') = entry_map (nodes s)) as Hem.
  { rewrite Hns. apply (entry_map_same _ _ n); [done | by apply same_shape_entries]. }
  assert (forall j m, nodes s' !! j = Some m -> exists m', nodes s !! j = Some m' /\ same_shape (body m') (body m) /\
            links m = links m' + (if j =? id then d else 0)) as Hback.
  { intros j m. rewrite Hns, lookup_insert. case_decide as Hj; [subst | ].
    - intros [= <-]. exists n. rewrite Z.eqb_refl. done.
    - intros Hm. exists m. apply not_eq_sym, Z.eqb_neq in Hj. rewrite Hj. split; [done |]. split; [| lia].
      unfold same_shape. by destruct (body m). }
  assert (forall j, is_Some (nodes s !! j) -> is_Some (nodes s' !! j)) as Hsome.
  { intros j Hj. rewrite Hns, lookup_insert. case_decide; [eauto | done]. }
  destruct Hwf as [Hroot Hids Hnx Hent Hlk Hnm Hrch Hnd Hus Hhd Hru Hcwd].
  constructor; rewrite ?Hem, ?Hnext; auto.
  - destruct Hroot as (m & es & Hm & Hb). rewrite Hns. destruct (decide (id = ROOT)) as [-> | Hne].
    + rewrite Hn in Hm. injection Hm as <-. exists n'. rewrite Hb in Hshape. destruct (body n') eqn:Hb'; try done.
      destruct Hshape as [-> ->]. eexists. split; [apply lookup_insert_eq | reflexivity].
    + exists m, es. by rewrite lookup_insert_ne.
  - intros j m Hm. destruct (Hback j m Hm) as (m' & Hm' & _). eauto.
  - intros j nm c Hc. destruct (Hent j nm c Hc). auto.
  - intros j m Hm. destruct (Hback j m Hm) as (m' & Hm' & Hs & Hl). rewrite Hδ, Hl, (Hlk j m' Hm').
    unfold link_count. rewrite Hem. lia.
  - intros j m p es Hm Hb Hj HXj. destruct (Hback j m Hm) as (m' & Hm' & Hs & Hl).
    pose proof (same_shape_dir _ _ _ _ Hs Hb) as Hb'. destruct (Hnm j m' p es Hm' Hb' Hj HXj) as [Hl1 Hnmd].
    split; [| done]. rewrite Hl, Hl1. destruct (Z.eqb_spec j id) as [-> | ?]; [| lia].
    rewrite Hn in Hm'. injection Hm' as <-. destruct HX as [-> | [? | [? | Hd]]]; [lia | done | done | by apply Hd in Hb'].
  - intros j m p es Hm Hb. destruct (Hback j m Hm) as (m' & Hm' & Hs & _).
    destruct (Hrch j m' p es Hm' (same_shape_dir _ _ _ _ Hs Hb)) as [k Hk]. exists k. rewrite Hns.
    by eapply dist_same_shape.
  - intros j m Hm. rewrite Hns, lookup_insert in Hm. case_decide as Hj; [naive_solver |].
    apply Hothers; [congruence | done | auto].
  - rewrite Hused, Hns, (total_size_insert _ _ n) by done. lia.
  - intros h v Hv. destruct (Hhs h v Hv) as [Hv' | (? & ? & ?)].
    + destruct (Hhd h v Hv') as (? & ? & ?). split_and!; [done | done |]. destruct v; auto.
    + split_and!; [done | done |]. destruct v; auto.
  - rewrite Hwork. split; [apply Hcwd |]. intros m Hm. destruct (Hback _ m Hm) as (m' & Hm' & Hs & _).
    destruct Hcwd as [_ Hcwd]. destruct (Hcwd m' Hm') as (p & es & Hb). rewrite Hb in Hs.
    destruct (body m) as [| q fs |] eqn:Hbm; [done | eauto | done].
Qed.

(** ** Changing the entries of one directory *)
Lemma dist_entries ns d n p es es' k x : ns !! d = Some n -> body n = Directory p es ->
  dist ns k x -> dist (<[d := with_body (Directory p es') n]> ns) k x.
Proof.
  intros Hn Hb. induction 1 as [| k x m q fs Hx Hm Hbm Hk IH]; [constructor |].
  destruct (decide (x = d)) as [-> | Hne].
  - rewrite Hn in Hm. injection Hm as <-. rewrite Hb in Hbm. injection Hbm as <- <-.
    econstructor; [done | apply lookup_insert_eq | reflexivity | done].
  - econstructor; [done | by rewrite lookup_insert_ne | done | done].
Qed.

Section EntryChange.
Context `{Arch} (δ δ' : Z -> Z) (X X' : Z -> Prop) (s s' : Fs) (d : Z) (n : Node) (p : Z) (es es' : Entries).
Hypothesis Hwf : wfd δ X s.
Hypothesis Hn : nodes s !! d = Some n.
Hypothesis Hb : body n = Directory p es.
Hypothesis Hs' : s' = set_nodes (insert d (with_body (Directory p es') n)) s.

Lemma entry_change_lookup j m : nodes s' !! j = Some m -> exists m', nodes s !! j = Some m' /\ links m = links m' /\
  node_ok (handles s) j m' = node_ok (handles s) j m /\ file_size m = file_size m' /\
  (forall q fs, body m = Directory q fs -> exists fs', body m' = Directory q fs').
Proof.
  rewrite Hs'. simpl. rewrite lookup_insert. case_decide as Hj; [subst | ].
  - intros [= <-]. exists n. split_and!; [done | done | | |].
    + unfold node_ok, node_base, live. simpl. by rewrite Hb.
    + unfold file_size. simpl. by rewrite Hb.
    + simpl. intros q fs [= <- <-]. eauto.
  - intros Hm. exists m. split_and!; eauto.
Qed.
Lemma entry_change_some j : is_Some (nodes s' !! j) <-> is_Some (nodes s !! j).
Proof. rewrite Hs'. simpl. rewrite lookup_insert. case_decide; [subst; rewrite Hn; split; eauto | done]. Qed.

(** The conditions that are left once the entry map is known. *)
Lemma wfd_entry_change em :
  entry_map (nodes s') = em ->
  (forall k c, em !! k = Some c -> entry_map (nodes s) !! k = Some c \/ (is_Some (nodes s !! c) /\ valid_name k.2 /\ c <> ROOT)) ->
  (forall j, is_Some (nodes s !! j) -> Z.of_nat (size (filter (fun q => q.2 = j) em)) + δ' j = link_count (nodes s) j + δ j) ->
  (forall j, X j -> X' j) ->
  (forall q nm j, entry_map (nodes s) !! (q, nm) = Some j -> ~ X' j -> em !! (q, nm) = Some j) ->
  wfd δ' X' s'.
Proof.
  intros Hem Hents Hcount HX Hnamed.
  destruct Hwf as [Hroot Hids Hnx Hent Hlk Hnm Hrch Hnd Hus Hhd Hru Hcwd].
  assert (next_id s' = next_id s /\ used s' = used s /\ handles s' = handles s /\ working s' = working s) as (Hi & Hu & Hh & Hw) by by rewrite Hs'.
  constructor; rewrite ?Hi, ?Hu, ?Hh, ?Hw; auto.
  - destruct Hroot as (m & fs & Hm & Hbm). rewrite Hs'. simpl. destruct (decide (d = ROOT)) as [Hd | Hne].
    + rewrite Hd in Hn. rewrite Hn in Hm. injection Hm as <-. rewrite Hb in Hbm. injection Hbm as Hp Hes.
      rewrite Hd. eexists. exists es'. split; [apply lookup_insert_eq | by rewrite Hp].
    + exists m, fs. by rewrite lookup_insert_ne.
  - intros j m Hm. apply entry_change_lookup in Hm as (m' & Hm' & _). eauto.
  - intros j nm c. rewrite Hem. intros Hc. rewrite entry_change_some. destruct (Hents _ _ Hc) as [Hc' | (? & ? & ?)]; [eauto | auto].
  - intros j m Hm. apply entry_change_lookup in Hm as (m' & Hm' & Hl & _). rewrite Hl, (Hlk j m' Hm').
    unfold link_count at 2. rewrite Hem. pose proof (Hcount j ltac:(eauto)). lia.
  - intros j m q fs Hm Hbm Hj HXj. apply entry_change_lookup in Hm as (m' & Hm' & Hl & _ & _ & Hd').
    destruct (Hd' q fs Hbm) as [fs' Hb']. destruct (Hnm j m' q fs' Hm' Hb' Hj) as [Hl1 [nm Hnm']]; [auto |].
    split; [lia |]. exists nm. rewrite Hem. by apply Hnamed.
  - intros j m q fs Hm Hbm. apply entry_change_lookup in Hm as (m' & Hm' & _ & _ & _ & Hd').
    destruct (Hd' q fs Hbm) as [fs' Hb']. destruct (Hrch j m' q fs' Hm' Hb') as [k Hk]. exists k. rewrite Hs'. simpl.
    by eapply dist_entries.
  - intros j m Hm. apply entry_change_lookup in Hm as (m' & Hm' & _ & <- & _). auto.
  - rewrite Hus, Hs'. simpl. rewrite (total_size_insert _ _ n) by done. unfold file_size. simpl. rewrite Hb. lia.
  - intros h v Hv. destruct (Hhd h v Hv) as (? & ? & ?). split_and!; [done | done |]. destruct v; [by apply entry_change_some | done | done].
  - intros q nm. rewrite Hem. intros Hc. destruct (Hents _ _ Hc) as [Hc' | (_ & _ & ?)]; [by apply Hru in Hc' | done].
  - split; [apply Hcwd |]. intros m Hm. rewrite Hs' in Hm. simpl in Hm. rewrite lookup_insert in Hm.
    case_decide; [injection Hm as <-; simpl; eauto | by apply Hcwd].
Qed.
End EntryChange.

(** A new name: the link count of the named node falls behind by one. *)
Lemma wfd_entry_insert `{Arch} δ δ' X s d n p es nm c :
  wfd δ X s -> nodes s !! d = Some n -> body n = Directory p es -> es !! nm = None ->
  is_Some (nodes s !! c) -> valid_name nm -> c <> ROOT ->
  (forall j, δ' j = δ j - if j =? c then 1 else 0) ->
  wfd δ' X (set_nodes (insert d (with_body (Directory p (<[nm := c]> es)) n)) s).
Proof.
  intros Hwf Hn Hb Hfree Hc Hnm Hcr Hδ.
  assert (entry_map (nodes s) !! (d, nm) = None) as Hnone.
  { rewrite lookup_entry_map, Hn. simpl. unfold dir_entries. by rewrite Hb. }
  eapply (wfd_entry_change δ δ' X X s _ d n p es (<[nm := c]> es) Hwf Hn Hb eq_refl (<[(d, nm) := c]> (entry_map (nodes s)))); auto.
  - by apply entry_map_insert.
  - intros k x. rewrite lookup_insert. case_decide; [intros [= <-]; subst; auto | auto].
  - intros j _. rewrite size_filter_insert by done. unfold link_count. rewrite Hδ. simpl.
    destruct (Z.eqb_spec j c); case_decide; simplify_eq; lia.
  - intros q nm' j Hj _. rewrite lookup_insert_ne; [done |]. intros [= -> ->]. congruence.
Qed.
(** A name taken away: the link count of the node is one ahead, and a directory is no longer named. *)
Lemma wfd_entry_delete `{Arch} δ δ' X X' s d n p es nm c :
  wfd δ X s -> nodes s !! d = Some n -> body n = Directory p es -> es !! nm = Some c ->
  (forall j, δ' j = δ j + if j =? c then 1 else 0) -> (forall j, X j -> X' j) -> X' c ->
  wfd δ' X' (set_nodes (insert d (with_body (Directory p (delete nm es)) n)) s).
Proof.
  intros Hwf Hn Hb Hc Hδ HX HXc.
  assert (entry_map (nodes s) !! (d, nm) = Some c) as Hsome.
  { apply entry_map_Some. eauto 10. }
  eapply (wfd_entry_change δ δ' X X' s _ d n p es (delete nm es) Hwf Hn Hb eq_refl (delete (d, nm) (entry_map (nodes s)))); auto.
  - by apply entry_map_delete.
  - intros k x. rewrite lookup_delete. case_decide; [done | auto].
  - intros j _. rewrite (size_filter_delete _ _ c) by done. unfold link_count. rewrite Hδ. simpl.
    destruct (Z.eqb_spec j c); case_decide; simplify_eq; lia.
  - intros q nm' j Hj HXj. rewrite lookup_delete_ne; [done |]. intros [= -> ->]. rewrite Hsome in Hj. injection Hj as <-. done.
Qed.

(** ** Nodes that come and go *)
Lemma dist_insert_new ns id n k x : ns !! id = None -> dist ns k x -> dist (<[id := n]> ns) k x.
Proof.
  intros Hid. induction 1 as [| k x m q fs Hx Hm Hbm Hk IH]; [constructor |].
  econstructor; [done | | done | done]. rewrite lookup_insert_ne; [done | congruence].
Qed.
Lemma dist_delete ns id k x : (forall j m fs, j <> id -> ns !! j = Some m -> body m <> Directory id fs) -> x <> id ->
  dist ns k x -> dist (delete id ns) k x.
Proof.
  intros Hno. intros Hx Hd. induction Hd as [| k x m q fs Hxr Hm Hbm Hk IH]; [constructor |].
  econstructor; [done | by rewrite lookup_delete_ne | done |]. apply IH. intros ->. exact (Hno x m fs Hx Hm Hbm).
Qed.

(** A new node that nothing names yet, in the directory it is going to be named in. *)
Lemma wfd_new_node `{Arch} δ' s id n :
  wf s -> id = next_id s -> next_id s < u64_max -> links n = 1 -> opens n = 0 -> maps n = 0 -> locks n = [] ->
  match body n with
  | File c => c = Plain vec_new
  | Directory p es => es = ∅ /\ exists m q fs, nodes s !! p = Some m /\ body m = Directory q fs
  | Link _ => True
  end ->
  (forall j, δ' j = if j =? id then 1 else 0) ->
  wfd δ' (fun j => j = id) (set_next_id (wrapping_add u64_max id 1) (set_nodes (insert id n) s)).
Proof.
  intros [Hroot Hids Hnx Hent Hlk Hnm Hrch Hnd Hus Hhd Hru Hcwd] -> Hroom Hl Ho Hm Hlo Hbody Hδ.
  assert (nodes s !! next_id s = None) as Hfresh.
  { destruct (nodes s !! next_id s) eqn:E; [| done]. apply Hids in E. lia. }
  destruct Hroot as (r & res & Hr & Hrb). pose proof (Hids _ _ Hr) as Hrid.
  assert (next_id s <> ROOT) as Hnr by (intros E; rewrite E in Hfresh; congruence).
  assert (dir_entries n = ∅) as Hde by (unfold dir_entries; destruct (body n); [done | by destruct Hbody | done]).
  assert (entry_map (<[next_id s := n]> (nodes s)) = entry_map (nodes s)) as Hem by by apply entry_map_new.
  assert (link_count (nodes s) (next_id s) = 0) as Hz.
  { apply size_filter_zero. simpl. intros [d nm] c Hc ->. apply Hent in Hc as [[? Hc] _]. congruence. }
  rewrite wrapping_add_small by lia.
  constructor; simpl; rewrite ?Hem; auto.
  - exists r, res. by rewrite lookup_insert_ne.
  - intros j m. rewrite lookup_insert. case_decide; [intros _; lia |]. intros Hj. apply Hids in Hj. lia.
  - lia.
  - intros d nm c Hc. destruct (Hent _ _ _ Hc) as [Hs ?]. split; [| done]. rewrite lookup_insert. case_decide; eauto.
  - intros j m. rewrite lookup_insert, Hδ. case_decide as Hj; [intros [= <-]; subst |].
    + unfold link_count in *. rewrite Hem, Hz, Hl, Z.eqb_refl. apply Z.eqb_neq in Hnr. rewrite Hnr. lia.
    + intros Hj'. rewrite (Hlk _ _ Hj'). unfold link_count, no_debt. rewrite Hem. apply not_eq_sym, Z.eqb_neq in Hj. rewrite Hj. lia.
  - intros j m q fs. rewrite lookup_insert. case_decide; [done |]. intros Hj Hbj Hjr Hx. eapply Hnm; eauto.
  - intros j m q fs. rewrite lookup_insert. case_decide as Hj; [intros [= <-] Hbm; subst |].
    + rewrite Hbm in Hbody. destruct Hbody as [-> (m' & q' & fs' & Hm' & Hb')].
      destruct (Hrch _ _ _ _ Hm' Hb') as [k Hk]. exists (S k).
      econstructor; [done | apply lookup_insert_eq | exact Hbm | by apply dist_insert_new].
    + intros Hj' Hbj. destruct (Hrch _ _ _ _ Hj' Hbj) as [k Hk]. exists k. by apply dist_insert_new.
  - intros j m. rewrite lookup_insert. case_decide as Hj; [intros [= <-]; subst | auto].
    assert (handle_count (handles s) (next_id s) = 0) as Hc.
    { apply size_filter_zero. intros h v Hv Ho'. destruct (Hhd h v Hv) as (_ & _ & Hsome).
      destruct v; simpl in Ho'; try done. apply Z.eqb_eq in Ho'. subst. destruct Hsome. congruence. }
    unfold node_ok, node_base, live. rewrite Hl, Ho, Hm, Hlo, Hc. split_and!; try lia.
    + destruct (body n); [subst; done | done | done].
    + intros o1 o2 w x e1 e2 (l & Hin & _). by apply elem_of_nil in Hin.
    + intros l Hin. by apply elem_of_nil in Hin.
  - rewrite total_size_insert_new, Hus by done. unfold file_size. destruct (body n); [subst; done | lia | lia].
  - intros h v Hv. destruct (Hhd h v Hv) as (? & ? & ?). split_and!; [done | done |]. destruct v; [| done | done].
    rewrite lookup_insert. case_decide; eauto.
  - split; [lia |]. intros m. rewrite lookup_insert_ne by lia. apply Hcwd.
Qed.

(** A node that nothing refers to any more is freed. *)
Lemma wfd_delete_node `{Arch} δ δ' X X' s s' id n :
  wfd δ X s -> nodes s !! id = Some n -> nodes s' = delete id (nodes s) -> next_id s' = next_id s -> working s' = working s ->
  used s' = used s - file_size n -> handles s' ⊆ handles s ->
  id <> ROOT -> dir_entries n = ∅ -> link_count (nodes s) id = 0 -> handle_count (handles s') id = 0 ->
  (forall j m fs, j <> id -> nodes s !! j = Some m -> body m <> Directory id fs) ->
  (forall j m, j <> id -> nodes s !! j = Some m -> node_ok (handles s) j m -> node_ok (handles s') j m) ->
  (forall j, j <> id -> δ' j = δ j) -> (forall j, X j -> j <> id -> X' j) ->
  wfd δ' X' s'.
Proof.
  intros [Hroot Hids Hnx Hent Hlk Hnm Hrch Hnd Hus Hhd Hru Hcwd] Hn Hns Hnext Hwork Hused Hhs Hr Hde Hlc Hhc Hno Hothers Hδ HX.
  assert (entry_map (nodes s') = entry_map (nodes s)) as Hem by (rewrite Hns; by eapply entry_map_delete_node).
  assert (forall j m, nodes s' !! j = Some m -> j <> id /\ nodes s !! j = Some m) as Hback.
  { intros j m. rewrite Hns. intros [? ?]%lookup_delete_Some. auto. }
  constructor; rewrite ?Hem, ?Hnext; auto.
  - destruct Hroot as (m & es & Hm & Hb). exists m, es. rewrite Hns. by rewrite lookup_delete_ne.
  - intros j m Hm. apply Hback in Hm as [_ Hm]. eauto.
  - intros d nm c Hc. destruct (Hent _ _ _ Hc) as [Hs ?]. split; [| done]. rewrite Hns, lookup_delete_ne; [done |].
    intros <-. exact (proj1 (size_filter_zero _ _) Hlc _ _ Hc eq_refl).
  - intros j m Hm. apply Hback in Hm as [Hj Hm]. rewrite (Hlk _ _ Hm), Hδ by done. unfold link_count. rewrite Hem. lia.
  - intros j m q fs Hm Hb Hjr HXj. apply Hback in Hm as [Hj Hm]. eapply Hnm; eauto.
  - intros j m q fs Hm Hb. apply Hback in Hm as [Hj Hm]. destruct (Hrch _ _ _ _ Hm Hb) as [k Hk]. exists k. rewrite Hns.
    by apply dist_delete.
  - intros j m Hm. apply Hback in Hm as [Hj Hm]. auto.
  - rewrite Hused, Hns, (total_size_delete _ _ n) by done. lia.
  - intros h v Hv. destruct (Hhd h v) as (? & ? & ?); [by eapply lookup_weaken |]. split_and!; [done | done |].
    destruct v as [j ? | |]; [| done | done].
    rewrite Hns, lookup_delete_ne; [done |]. intros <-. exact (proj1 (size_filter_zero _ _) Hhc _ _ Hv (Z.eqb_refl _)).
  - rewrite Hwork. split; [apply Hcwd |]. intros m Hm. apply Hback in Hm as [_ Hm]. by apply Hcwd.
Qed.

(** An exemption that is not needed: a file, or a directory that its parent names. *)
Lemma wfd_unexempt `{Arch} δ X id s : wfd δ X s ->
  (forall n p es, nodes s !! id = Some n -> body n = Directory p es ->
     links n = 1 /\ exists nm, entry_map (nodes s) !! (p, nm) = Some id) ->
  wfd δ (fun j => X j /\ j <> id) s.
Proof.
  intros [] Hno. constructor; auto. intros j m p es Hm Hb Hr HX. destruct (decide (j = id)) as [-> | Hne]; [eauto |].
  apply (wf_named0 j m p es); auto.
Qed.

(** Only a directory is the parent of one. *)
Lemma parent_is_directory `{Arch} δ X s j m id es : wfd δ X s -> nodes s !! j = Some m -> body m = Directory id es ->
  exists n q fs, nodes s !! id = Some n /\ body n = Directory q fs.
Proof.
  intros Hwf Hm Hb. destruct (wf_root _ _ _ Hwf) as (r & res & Hr & Hrb).
  destruct (wf_reach _ _ _ Hwf _ _ _ _ Hm Hb) as [k Hk].
  inversion Hk as [| k' ? n' p' es' Hd Hn' Hb' Hk']; subst.
  - rewrite Hr in Hm. injection Hm as <-. rewrite Hrb in Hb. injection Hb as <- <-. eauto.
  - rewrite Hn' in Hm. injection Hm as <-. rewrite Hb in Hb'. injection Hb' as <- <-.
    inversion Hk' as [| k'' ? n'' p'' es'' Hd'' Hn'' Hb'' _]; subst; eauto.
Qed.

(** A reference to a node is given up, and the node is freed when it was the last one. *)
Lemma wfd_lower `{Arch} δ X s s1 id n n' :
  wfd δ X s -> nodes s !! id = Some n -> id <> ROOT ->
  nodes s1 = <[id := n']> (nodes s) -> next_id s1 = next_id s -> working s1 = working s -> used s1 = used s ->
  handles s1 ⊆ handles s -> body n' = body n -> links n' = links n - δ id ->
  (δ id = 0 \/ X id \/ forall p es, body n <> Directory p es) ->
  node_base (handles s1) id n' ->
  (forall j m, j <> id -> nodes s !! j = Some m -> node_ok (handles s) j m -> node_ok (handles s1) j m) ->
  (forall p es, body n = Directory p es -> es = ∅ /\ links n' = 0 /\
     forall j m fs, j <> id -> nodes s !! j = Some m -> body m <> Directory id fs) ->
  wfd (fun j => if j =? id then 0 else δ j) (fun j => X j /\ j <> id) (reap id s1).
Proof.
  intros Hwf Hn Hr Hns Hnext Hwork Hused Hhs Hb Hl HX Hbase Hothers Hdir.
  unfold reap. rewrite Hns, lookup_insert_eq.
  destruct (decide (live n')) as [Hlive | Hdead].
  - replace ((links n' =? 0) && (opens n' =? 0) && (maps n' =? 0)) with false by (unfold live in Hlive; lia).
    assert (forall p es, body n <> Directory p es) as Hnd.
    { intros p es Hd. destruct (Hdir p es Hd) as (_ & Hl0 & _). destruct Hbase as [_ [Hbase _]].
      rewrite Hb, Hd in Hbase. unfold live in Hlive. lia. }
    apply wfd_unexempt; [| rewrite Hns, lookup_insert_eq; intros m p es [= <-]; rewrite Hb; by intros ?%Hnd].
    apply (wfd_set_node δ _ X s s1 id n n' (- δ id)); try done.
    + unfold file_size. rewrite Hb. lia.
    + rewrite Hb. unfold same_shape. by destruct (body n).
    + intros j. destruct (Z.eqb_spec j id); subst; lia.
    + destruct HX as [-> | [? | ?]]; auto.
    + intros h v Hv. left. by eapply lookup_weaken.
  - destruct Hbase as [(Hl0 & Hm0 & Ho) Hrest].
    assert (0 <= opens n') by (rewrite Ho; unfold handle_count; lia).
    replace ((links n' =? 0) && (opens n' =? 0) && (maps n' =? 0)) with true by (unfold live in Hdead; lia).
    eapply (wfd_delete_node δ _ X _ s _ id n Hwf Hn); try done.
    + rewrite Hb. destruct (body n); simpl; rewrite Hns; apply delete_insert_eq.
    + rewrite Hb. by destruct (body n).
    + rewrite Hb. by destruct (body n).
    + unfold file_size. rewrite Hb. destruct (body n); simpl; lia.
    + rewrite Hb. by destruct (body n).
    + unfold dir_entries. destruct (body n) eqn:Hbn; [done | by edestruct Hdir as [-> _] | done].
    + pose proof (wf_links _ _ _ Hwf _ _ Hn) as Hlk. apply Z.eqb_neq in Hr. rewrite Hr in Hlk. unfold live in Hdead. lia.
    + rewrite Hb. unfold live in Hdead. destruct (body n); simpl; lia.
    + intros j m fs Hj Hm Hbm. destruct (parent_is_directory _ _ _ _ _ _ _ Hwf Hm Hbm) as (n0 & q & fs' & Hn0 & Hb0).
      rewrite Hn in Hn0. injection Hn0 as <-. destruct (Hdir _ _ Hb0) as (_ & _ & Hno). by eapply Hno.
    + rewrite Hb. destruct (body n); simpl; auto.
    + intros j Hj. apply Z.eqb_neq in Hj. by rewrite Hj.
Qed.

(** A directory gets a new parent, one that is not below it, which already names it. *)
Lemma dist_mono ns ns' k x : ns ⊆ ns' -> dist ns k x -> dist ns' k x.
Proof. intros Hsub. induction 1; econstructor; eauto using lookup_weaken. Qed.
Lemma dist_reparent ns d n q fs k x : d <> ROOT -> (exists i, dist (delete d ns) i q) -> body n = Directory q fs ->
  dist ns k x -> exists i, dist (<[d := n]> ns) i x.
Proof.
  intros Hd [i Hi] Hb. induction 1 as [| k x m p es Hx Hm Hbm Hk [j IH]]; [exists O; constructor |].
  destruct (decide (x = d)) as [-> | Hne].
  - exists (S i). econstructor; [done | apply lookup_insert_eq | exact Hb |].
    eapply dist_mono; [| done]. rewrite <- insert_delete_eq. apply insert_subseteq, lookup_delete_eq.
  - exists (S j). econstructor; [done | by rewrite lookup_insert_ne | done | done].
Qed.
Lemma wfd_reparent `{Arch} δ X s d n n' p es q nm :
  wfd δ X s -> nodes s !! d = Some n -> d <> ROOT -> body n = Directory p es -> body n' = Directory q es ->
  links n' = links n -> opens n' = opens n -> maps n' = maps n -> locks n' = locks n ->
  (exists i, dist (delete d (nodes s)) i q) -> entry_map (nodes s) !! (q, nm) = Some d -> links n = 1 ->
  wfd δ (fun j => X j /\ j <> d) (set_nodes (insert d n') s).
Proof.
  intros [Hroot Hids Hnx Hent Hlk Hnm Hrch Hnd Hus Hhd Hru Hcwd] Hn Hr Hb Hb' Hl Ho Hm Hlo Hi Hname Hone.
  assert (entry_map (<[d := n']> (nodes s)) = entry_map (nodes s)) as Hem.
  { apply (entry_map_same _ _ n); [done |]. unfold dir_entries. by rewrite Hb, Hb'. }
  assert (forall j, is_Some (nodes s !! j) -> is_Some (<[d := n']> (nodes s) !! j)) as Hsome.
  { intros j Hj. rewrite lookup_insert. case_decide; [eauto | done]. }
  constructor; simpl; rewrite ?Hem; auto.
  - destruct Hroot as (m & fs & Hm' & Hbm). exists m, fs. by rewrite lookup_insert_ne.
  - intros j m. rewrite lookup_insert. case_decide; [intros _; subst |]; eauto.
  - intros j nm' c Hc. destruct (Hent _ _ _ Hc). auto.
  - intros j m. rewrite lookup_insert. unfold link_count. rewrite Hem. case_decide; [intros [= <-]; subst; rewrite Hl; by apply Hlk | apply Hlk].
  - intros j m p' fs. rewrite lookup_insert. case_decide as Hj; [intros [= <-]; subst |].
    + rewrite Hb'. intros [= <- <-] _ _. split; [lia | eauto].
    + intros Hm' Hbm Hjr HX. eapply Hnm; eauto.
  - intros j m p' fs. rewrite lookup_insert. case_decide as Hj; [intros [= <-] _; subst |].
    + destruct (Hrch _ _ _ _ Hn Hb) as [k Hk]. by eapply dist_reparent.
    + intros Hm' Hbm. destruct (Hrch _ _ _ _ Hm' Hbm) as [k Hk]. by eapply dist_reparent.
  - intros j m. rewrite lookup_insert. case_decide; [intros [= <-]; subst | auto].
    pose proof (Hnd _ _ Hn) as Hok. unfold node_ok, node_base, live in *. by rewrite Hb', Hl, Ho, Hm, Hlo; rewrite Hb in Hok.
  - rewrite Hus, (total_size_insert _ _ n) by done. unfold file_size. rewrite Hb, Hb'. lia.
  - intros h v Hv. destruct (Hhd h v Hv) as (? & ? & ?). split_and!; [done | done |]. destruct v; auto.
  - split; [apply Hcwd |]. intros m. rewrite lookup_insert. case_decide; [intros [= <-]; eauto | apply Hcwd].
Qed.
