(* ===== verification/Walk.v ===== *)
(** * Walk.v: resolving a path

    Theorems on [State::walk], [State::climb] and [State::spell]: they terminate, where they end, and what they write.
    The walk is first shown to make progress on the texts it has to resolve; the well-formedness of the tree
    ([Invariant]) then says that the place it returns is a real one. *)
From S2P Require Import Prelude Port Content Queue Locks Tree MemFs Invariant.
Local Open Scope Z_scope.
Local Open Scope pal_scope.

(** ** The text a walk still has to resolve *)
Section Position.
Context {A : Type} (f : A -> bool).
Lemma position_le l : (position f l <= length l)%nat.
Proof. induction l as [| x l IH]; simpl; [lia |]. destruct (f x); lia. Qed.
Lemma take_position l x : x ∈ take (position f l) l -> f x = false.
Proof.
  induction l as [| y l IH]; simpl; [by intros ?%elem_of_nil |].
  destruct (f y) eqn:Hy; simpl; [by intros ?%elem_of_nil |]. intros [-> | Hx]%elem_of_cons; auto.
Qed.
Lemma drop_position l x rest : drop (position f l) l = x :: rest -> f x = true.
Proof. induction l as [| y l IH]; simpl; [done |]. destruct (f y) eqn:Hy; simpl; [by intros [= <- _] | done]. Qed.
End Position.

(** A component is a part of the texts that is not empty and has no separator. *)
Lemma pending_next_Some ts sl c ts' sl' : pending_next ts sl = (Some c, ts', sl') ->
  c <> [] /\ SLASH ∉ c /\ (length c + length (concat ts') <= length (concat ts))%nat.
Proof.
  revert sl. induction ts as [| whole below IH]; intros sl; simpl; [done |].
  set (start := position (fun b => negb (b =? SLASH)) whole).
  destruct (drop start whole) as [| b rest] eqn:Hd.
  - intros Hn. destruct (IH _ Hn) as (? & ? & ?). split_and!; [done | done |]. rewrite length_app. lia.
  - pose proof (drop_position _ _ _ _ Hd) as Hb. apply negb_true_iff in Hb. intros [= <- <- _].
    rewrite Hb. simpl. split_and!; [done | |].
    + intros [E | Hin]%elem_of_cons; [subst b; done |]. apply take_position in Hin; done.
    + rewrite !length_app, length_take, length_drop.
      assert (length whole = (length (take start whole) + length (b :: rest))%nat) as ->.
      { rewrite <- Hd, <- length_app, take_drop. done. }
      simpl. lia.
Qed.

(** ** The loop of the walk *)
Lemma longest_link_ge s id n t : nodes s !! id = Some n -> body n = Link t -> (length t <= longest_link s)%nat.
Proof.
  intros Hn Hb. unfold longest_link. rewrite <- (insert_delete_id _ _ _ Hn).
  rewrite map_fold_insert_L; [rewrite Hb; lia | intros; lia | apply lookup_delete_eq].
Qed.
(** What is left of the texts when every link that may still be entered is the longest one. *)
Definition walk_left (s : Fs) (p : Pending) : nat :=
  length (concat (texts p)) + (MAX_LINKS - entered p) * longest_link s.

Lemma walk_component_progress s last c par p found par' p' found' :
  (entered p <= MAX_LINKS)%nat -> walk_component s last c par p found = Ok (par', p', found') ->
  (entered p' <= MAX_LINKS)%nat /\ (walk_left s p' <= walk_left s p)%nat.
Proof.
  intros Hp. unfold walk_component. intros Hw. run_ok.
  repeat case_decide; run_ok; [done | done |].
  destruct (_ <? _); [done |]. run_ok.
  destruct (_ ≫= _) as [n |] eqn:Hn; [| run_ok; done].
  destruct (body n) eqn:Hb; run_ok; try done.
  destruct (follows _ _); run_ok; [| done].
  apply bind_Some in Hn as (id & _ & Hid). pose proof (longest_link_ge _ _ _ _ Hid Hb) as Hl.
  unfold enter in *. destruct (Nat.eqb_spec (entered p) MAX_LINKS); run_ok.
  unfold walk_left. simpl. rewrite length_app. split; [lia |].
  assert ((MAX_LINKS - entered p = S (MAX_LINKS - S (entered p)))%nat) as -> by lia. simpl. lia.
Qed.
Lemma walk_loop_enough fuel s last par p found :
  (entered p <= MAX_LINKS)%nat -> (walk_left s p < fuel)%nat -> is_Some (walk_loop fuel s last par p found).
Proof.
  revert par p found. induction fuel as [| fuel IH]; intros par p found Hp Hf; [lia |]. simpl.
  destruct (pending_next _ _) as [[[c |] ts] sl] eqn:Hn; [| eauto].
  apply pending_next_Some in Hn as (Hc & _ & Hl).
  destruct (walk_component _ _ _ _ _ _) as [[[par' p'] found'] |] eqn:Hw; [| eauto].
  apply walk_component_progress in Hw as [? Hle]; [| done].
  apply IH; [done |]. unfold walk_left in *. simpl in *. destruct c; [done | simpl in *; lia].
Qed.
Lemma walk_loop_fuel s path last par : is_Some (walk_loop (walk_fuel s path) s last par (mkPending [path] 0 false) None).
Proof.
  apply walk_loop_enough; [simpl; lia |]. unfold walk_left, walk_fuel. simpl. rewrite app_nil_r. lia.
Qed.

(** ** Where a walk ends *)
Definition is_dir (s : Fs) (id : Z) : Prop := exists n p es, nodes s !! id = Some n /\ body n = Directory p es.
(** A place: [p_name] is an entry of the directory [p_parent] or is free there; without a name, the place is the
    directory itself. *)
Definition place_ok (s : Fs) (place : Place) : Prop :=
  is_dir s (p_parent place) /\
  match p_name place with
  | [] => p_node place = Some (p_parent place)
  | nm => valid_name nm /\ p_node place = entry_map (nodes s) !! (p_parent place, nm)
  end.
Definition found_ok (s : Fs) (par : Z) (found : Found) : Prop :=
  match found with
  | None => True
  | Some (nm, nd) => valid_name nm /\ nd = entry_map (nodes s) !! (par, nm)
  end.

Lemma node_Ok s id n : node s id = Ok n <-> nodes s !! id = Some n.
Proof. unfold node. destruct (nodes s !! id); simpl; naive_solver. Qed.
Lemma entries_Ok s id es : entries s id = Ok es <-> exists n p, nodes s !! id = Some n /\ body n = Directory p es.
Proof. unfold entries, node. destruct (nodes s !! id) as [n |]; simpl; [destruct (body n) eqn:Hb |]; split; intros; naive_solver congruence. Qed.
Lemma parent_Ok s id p : parent s id = Ok p <-> exists n es, nodes s !! id = Some n /\ body n = Directory p es.
Proof. unfold parent, node. destruct (nodes s !! id) as [n |]; simpl; [destruct (body n) eqn:Hb |]; split; intros; naive_solver congruence. Qed.
Lemma is_directory_true s id : is_directory s id = Ok true <-> is_dir s id.
Proof.
  unfold is_directory, kind, node, is_dir. destruct (nodes s !! id) as [n |]; simpl; [| naive_solver].
  destruct (body n) eqn:Hb; simpl; split; intros; naive_solver congruence.
Qed.
Lemma is_directory_false s id :
  is_directory s id = Ok false <-> exists n, nodes s !! id = Some n /\ forall p es, body n <> Directory p es.
Proof.
  unfold is_directory, kind, node. destruct (nodes s !! id) as [n |]; simpl; [| naive_solver].
  destruct (body n) eqn:Hb; simpl; split; intros; naive_solver congruence.
Qed.

Section Places.
Context `{Arch} (δ : Z -> Z) (X : Z -> Prop) (s : Fs).
Hypothesis Hwf : wfd δ X s.

Lemma root_is_dir : is_dir s ROOT.
Proof. destruct (wf_root _ _ _ Hwf) as (n & es & ? & ?). unfold is_dir. eauto. Qed.
Lemma walk_component_places last c par p found par' p' found' :
  c <> [] -> SLASH ∉ c -> is_dir s par -> found_ok s par found ->
  walk_component s last c par p found = Ok (par', p', found') -> is_dir s par' /\ found_ok s par' found'.
Proof.
  intros Hc Hsl Hpar Hf. unfold walk_component. intros Hw. apply result_bind_Ok in Hw as (par1 & Hp1 & Hw).
  assert (forall es, entries s par1 = Ok es -> is_dir s par1) as Hdir.
  { intros es. rewrite entries_Ok. unfold is_dir. naive_solver. }
  case_decide as Hdot; [run_ok; split; [eauto | done] |].
  case_decide as Hdots.
  { run_ok. match goal with H : parent s par1 = Ok _ |- _ => apply parent_Ok in H as (n & es & Hn & Hb) end.
    split; [| done]. unfold is_dir. eapply parent_is_directory; eauto. }
  destruct (Z.ltb_spec MAX_ENTRY_NAME (lenZ c)) as [| Hlen]; [done |].
  apply result_bind_Ok in Hw as (es & Hes & Hw). pose proof (Hdir _ Hes) as Hd1.
  assert (is_dir s par1 /\ found_ok s par1 (Some (c, es !! c))) as Hplain.
  { split; [done |]. split; [by unfold valid_name |]. apply entries_Ok in Hes as (n & q & Hn & Hb).
    rewrite lookup_entry_map, Hn. simpl. unfold dir_entries. by rewrite Hb. }
  destruct (_ ≫= _) as [n |]; [| by run_ok].
  destruct (body n); run_ok; try done.
  destruct (follows _ _); run_ok; [| done].
  split; [| done]. destruct (starts_with_slash _); [apply root_is_dir | done].
Qed.
Lemma walk_loop_places fuel last par p found par' sl' found' :
  is_dir s par -> found_ok s par found ->
  walk_loop fuel s last par p found = Some (Ok (par', sl', found')) -> is_dir s par' /\ found_ok s par' found'.
Proof.
  revert par p found. induction fuel as [| fuel IH]; intros par p found Hpar Hf; simpl; [done |].
  destruct (pending_next _ _) as [[[c |] ts] sl] eqn:Hn; [| by intros [= <- _ <-]].
  apply pending_next_Some in Hn as (Hc & Hs & _).
  destruct (walk_component _ _ _ _ _ _) as [[[par1 p1] found1] |] eqn:Hw; [| done].
  apply walk_component_places in Hw as [? ?]; eauto.
Qed.
Lemma walk_places path last place : walk s path last = Ok place -> place_ok s place.
Proof.
  unfold walk. intros Hw. apply result_bind_Ok in Hw as (par & Hpar & Hw).
  assert (is_dir s par) as Hd.
  { destruct (starts_with_slash path); [run_ok; apply root_is_dir |]. unfold working_dir in Hpar.
    destruct (nodes s !! working s) as [n |] eqn:Hn; [| done]. injection Hpar as <-.
    destruct (proj2 (wf_cwd _ _ _ Hwf) n Hn) as (p & es & Hb). unfold is_dir. eauto. }
  destruct (walk_loop _ _ _ _ _ _) as [r |] eqn:Hl; [| done].
  apply result_bind_Ok in Hw as ([[par' sl'] found'] & -> & Hw).
  apply walk_loop_places in Hl as [Hd' Hf]; [| done | done].
  unfold walk_result in Hw. destruct found' as [[nm [nd |]] |].
  - apply result_bind_Ok in Hw as (refuse & _ & Hw). destruct refuse; [done |]. injection Hw as <-.
    destruct Hf as [Hv He]. split; [done |]. simpl. destruct nm; [by destruct Hv | done].
  - injection Hw as <-. destruct Hf as [Hv He]. split; [done |]. simpl. destruct nm; [by destruct Hv | done].
  - injection Hw as <-. split; done.
Qed.
Lemma vacant_places path place : vacant s path = Ok place ->
  place_ok s place /\ p_node place = None.
Proof.
  unfold vacant. intros Hw. apply result_bind_Ok in Hw as (pl & Hpl & Hw).
  destruct (p_node pl) eqn:Hn; [done |]. destruct (p_slash pl); [done |]. injection Hw as <-.
  split; [by eapply walk_places | done].
Qed.
End Places.
