(* ===== verification/Preserve.v ===== *)
(** * Preserve.v: every call keeps the file system well-formed

    The provider calls of [MemFs], one by one, against the invariant [wf] of [Invariant]: whatever the call returns,
    the state it leaves is well-formed.  The steps of a call that change only times, modes, event queues or the
    allocator are handled by an equivalence of states, [tree_eq], under which [wf] is stable. *)
From S2P Require Import Prelude Port Content Queue Locks Tree MemFs Invariant Walk.
Local Open Scope Z_scope.
Local Open Scope pal_scope.

(** ** States with the same tree *)
(** A node without its mode and times. *)
Definition strip (n : Node) : Node := mkNode 0 0 0 0 0 (links n) (opens n) (maps n) (locks n) (body n).
Definition tree_eq (s s' : Fs) : Prop :=
  strip <$> nodes s = strip <$> nodes s' /\ next_id s = next_id s' /\ used s = used s' /\ handles s = handles s' /\ working s = working s'.
#[export] Instance tree_eq_equiv : Equivalence tree_eq.
Proof. unfold tree_eq. split; [intros ? | intros ?? | intros ???]; naive_solver congruence. Qed.
Lemma core_tree_eq s s' : core_eq s s' -> tree_eq s s'.
Proof. unfold core_eq, tree_eq. naive_solver congruence. Qed.

Lemma strip_lookup (ns ns' : gmap Z Node) j m : strip <$> ns = strip <$> ns' -> ns !! j = Some m ->
  exists m', ns' !! j = Some m' /\ links m' = links m /\ opens m' = opens m /\ maps m' = maps m /\ locks m' = locks m /\ body m' = body m.
Proof.
  intros He Hm. assert ((strip <$> ns') !! j = Some (strip m)) as Hs by by rewrite <- He, lookup_fmap, Hm.
  rewrite lookup_fmap in Hs. destruct (ns' !! j) as [m' |]; [| done]. exists m'. simpl in Hs. injection Hs as ? ? ? ? ?.
  split_and!; congruence.
Qed.
Lemma strip_entry_map ns ns' : strip <$> ns = strip <$> ns' -> entry_map ns = entry_map ns'.
Proof.
  intros He. unfold entry_map. f_equal. assert (forall ms : gmap Z Node, dir_entries <$> ms = dir_entries <$> (strip <$> ms)) as Hs.
  { intros ms. rewrite <- map_fmap_compose. by apply map_fmap_ext. }
  by rewrite Hs, He, <- Hs.
Qed.
Lemma strip_dist ns ns' k d : strip <$> ns = strip <$> ns' -> dist ns k d -> dist ns' k d.
Proof.
  intros He. induction 1 as [| k d n p es Hd Hn Hb Hk IH]; [constructor |].
  destruct (strip_lookup _ _ _ _ He Hn) as (n' & Hn' & _ & _ & _ & _ & Hb'). apply (dist_step _ _ _ n' p es); congruence || done.
Qed.
Lemma total_size_strip ns : total_size (strip <$> ns) = total_size ns.
Proof.
  induction ns as [| i x m Hi IH] using map_ind; [by rewrite fmap_empty |].
  rewrite fmap_insert, !total_size_insert_new, IH by (rewrite ?lookup_fmap, ?Hi; done). done.
Qed.

Section Proper.
Context `{Arch}.
Lemma tree_eq_wfd δ X s s' : tree_eq s s' -> wfd δ X s -> wfd δ X s'.
Proof.
  intros (He & Hi & Hu & Hh & Hw) [Hroot Hids Hnx Hent Hlk Hnm Hrch Hnd Hus Hhd Hru Hcwd].
  pose proof (strip_entry_map _ _ He) as Hem.
  assert (forall j m, nodes s' !! j = Some m -> exists m', nodes s !! j = Some m' /\ links m' = links m /\ opens m' = opens m /\
    maps m' = maps m /\ locks m' = locks m /\ body m' = body m) as Hback by (intros; by eapply strip_lookup).
  assert (forall j, is_Some (nodes s !! j) -> is_Some (nodes s' !! j)) as Hsome.
  { intros j [m Hm]. destruct (strip_lookup _ _ _ _ He Hm) as (? & ? & _). eauto. }
  constructor; rewrite <- ?Hem, <- ?Hi, <- ?Hh, <- ?Hw, <- ?Hu; auto.
  - destruct Hroot as (n & es & Hn & Hb). destruct (strip_lookup _ _ _ _ He Hn) as (n' & Hn' & _ & _ & _ & _ & Hb').
    exists n', es. split; [done | congruence].
  - intros j m Hm. destruct (Hback _ _ Hm) as (? & ? & _). eauto.
  - intros d nm c Hc. destruct (Hent _ _ _ Hc). auto.
  - intros j m Hm. destruct (Hback _ _ Hm) as (m' & Hm' & Hl & _). unfold link_count. rewrite <- Hem, <- Hl. by apply Hlk.
  - intros j m p es Hm Hb Hj HX. destruct (Hback _ _ Hm) as (m' & Hm' & <- & _ & _ & _ & Hb'). apply (Hnm j m' p es); congruence || done.
  - intros j m p es Hm Hb. destruct (Hback _ _ Hm) as (m' & Hm' & _ & _ & _ & _ & Hb').
    destruct (Hrch j m' p es Hm') as [k Hk]; [congruence |]. exists k. by eapply strip_dist.
  - intros j m Hm. destruct (Hback _ _ Hm) as (m' & Hm' & Hl & Ho & Hmp & Hlo & Hb). pose proof (Hnd _ _ Hm') as Hok.
    unfold node_ok, node_base, live in *. by rewrite <- Hl, <- Ho, <- Hmp, <- Hlo, <- Hb.
  - rewrite Hus, <- total_size_strip, He. apply total_size_strip.
  - intros h v Hv. destruct (Hhd h v Hv) as (? & ? & ?). split_and!; [done | done |]. destruct v; auto.
  - split; [apply Hcwd |]. intros m Hm. destruct (Hback _ _ Hm) as (m' & Hm' & _ & _ & _ & _ & <-). by apply Hcwd.
Qed.
#[export] Instance wfd_proper δ X : Proper (tree_eq ==> iff) (wfd δ X).
Proof. intros s s' He. split; apply tree_eq_wfd; [done | by symmetry]. Qed.
#[export] Instance wf_proper : Proper (tree_eq ==> iff) wf.
Proof. apply wfd_proper. Qed.
End Proper.

Lemma tree_eq_attr s id n n' : nodes s !! id = Some n -> strip n' = strip n -> tree_eq s (set_nodes (insert id n') s).
Proof.
  intros Hn Hs. split_and!; try done. simpl. rewrite fmap_insert, Hs, insert_id; [done |]. by rewrite lookup_fmap, Hn.
Qed.

(** ** Steps of a call *)
Lemma wp_update_node id f (Q : Fs -> Result unit -> Prop) s :
  (nodes s !! id = None -> Q s (Err EInvalidArgument)) ->
  (forall n, nodes s !! id = Some n -> Q (set_nodes (insert id (f n)) s) (Ok tt)) -> wp (update_node id f) Q s.
Proof. unfold wp, update_node. intros. destruct (nodes s !! id) eqn:E; simpl; auto. Qed.
Lemma wp_update_entries id f (Q : Fs -> Result unit -> Prop) s n p es :
  nodes s !! id = Some n -> body n = Directory p es ->
  Q (set_nodes (insert id (with_body (Directory p (f es)) n)) s) (Ok tt) -> wp (update_entries id f) Q s.
Proof. unfold wp, update_entries. intros -> ->. done. Qed.
(** A change of mode or times only. *)
Lemma wp_attr id f (Q : Fs -> Result unit -> Prop) s :
  (forall n, strip (f n) = strip n) -> (forall s' r, tree_eq s s' -> Q s' r) -> wp (update_node id f) Q s.
Proof. intros Hf HQ. apply wp_update_node; intros; apply HQ; [done | by eapply tree_eq_attr]. Qed.
Lemma wp_touch id now (Q : Fs -> Result unit -> Prop) s : (forall s' r, tree_eq s s' -> Q s' r) -> wp (touch id now) Q s.
Proof. by apply wp_attr. Qed.

Lemma wp_touch_ok id now (Q : Fs -> Result unit -> Prop) s :
  is_Some (nodes s !! id) -> (forall s', tree_eq s s' -> Q s' (Ok tt)) -> wp (touch id now) Q s.
Proof.
  intros [n Hn] HQ. apply wp_update_node; [congruence |]. intros m Hm. apply HQ. by eapply tree_eq_attr.
Qed.

(** Runs the next step of a program whose goal is a [wp]; a read that may fail splits the goal. *)
Ltac wp_read := apply wp_bind, wp_reads.
Ltac wp_mod := apply wp_bind, wp_modify; cbn beta iota.

(** ** Link counts as they go down *)
Section Steps.
Context `{Arch} `{Endian} `{BoxAllocator}.

Lemma wp_unlinked δ X s id now counted n (Q : Fs -> Result unit -> Prop) :
  wfd δ X s -> nodes s !! id = Some n -> id <> ROOT -> δ id = 1 -> X id ->
  (forall p es, body n = Directory p es -> es = ∅ /\ links n = 1 /\
     forall j m fs, j <> id -> nodes s !! j = Some m -> body m <> Directory id fs) ->
  (forall s', wfd (fun j => if j =? id then 0 else δ j) (fun j => X j /\ j <> id) s' ->
     handles s' = handles s ->
     (nodes s' = delete id (nodes s) /\ links n = 1 /\ opens n = 0 /\ maps n = 0 \/
      exists n', nodes s' = <[id := n']> (nodes s) /\ body n' = body n /\ links n' = links n - 1 /\ opens n' = opens n /\ maps n' = maps n /\ live n') ->
     Q s' (Ok tt)) ->
  wp (unlinked id now counted) Q s.
Proof.
  intros Hwf Hn Hr Hδ HX Hdir HQ. unfold unlinked.
  apply wp_bind, wp_update_node; [congruence |]. intros n0 Hn0. rewrite Hn in Hn0. injection Hn0 as <-.
  wp_read. unfold node. simpl. rewrite lookup_insert_eq. cbn beta iota. set (n' := with_times _ _ _ _).
  wp_mod. wp_mod. apply wp_modify.
  set (s1 := set_nodes (insert id n') s). set (s2 := (if links n' =? 0 then ended id else _) _).
  assert (core_eq s1 s2) as (Hns & Hnx & Hus & Hhs & Hwk).
  { subst s2. transitivity ((if counted then report id W_ATTRIBUTES else fun s => s) s1).
    - destruct counted; [apply report_core | done].
    - destruct (links n' =? 0); [apply ended_core | done]. }
  pose proof (wf_node _ _ _ Hwf _ _ Hn) as [_ Hbase].
  assert (links n' = links n - 1) as Hl.
  { pose proof (wf_links _ _ _ Hwf _ _ Hn) as Hlk. rewrite Hδ in Hlk. unfold link_count in Hlk.
    subst n'. unfold saturating_sub. simpl. destruct (id =? ROOT); lia. }
  assert (node_base (handles s2) id n') as Hb'.
  { unfold node_base in *. rewrite Hhs. simpl. change (saturating_sub (links n) 1) with (links n'). 
    destruct Hbase as ((? & ? & ?) & ?). split; [split_and!; [subst n'; unfold saturating_sub; simpl; lia | done | done] | done]. }
  assert (nodes s2 = <[id := n']> (nodes s)) as Hns' by (rewrite Hns; done).
  apply HQ.
  - apply (wfd_lower δ X s s2 id n n'); auto.
    + by rewrite Hhs.
    + lia.
    + by rewrite Hhs.
    + intros p es Hb. destruct (Hdir p es Hb) as (? & ? & ?). split_and!; [done | lia | done].
  - transitivity (handles s2); [| done]. unfold reap. destruct (nodes s2 !! id) as [m |]; [| done].
    destruct (_ && _); [by destruct (body m) | done].
  - unfold reap. rewrite Hns', lookup_insert_eq. destruct (_ && _) eqn:Hd.
    + left. split; [transitivity (delete id (nodes s2)); [by destruct (body n') | rewrite Hns'; apply delete_insert_eq] |].
      change (opens n') with (opens n) in Hd. change (maps n') with (maps n) in Hd. lia.
    + right. exists n'. split_and!; try done. destruct Hb' as ((? & ? & Hc) & _). unfold live.
      assert (0 <= opens n') by (rewrite Hc; unfold handle_count; lia). lia.
Qed.

(** ** New nodes *)
Definition new_body_ok (s : Fs) (b : Body) : Prop :=
  match b with File c => c = Plain vec_new | Directory p es => es = ∅ /\ is_dir s p | Link _ => True end.
Lemma wp_create s place md b now (Q : Fs -> Result Z -> Prop) :
  wf s -> next_id s < u64_max -> place_ok s place -> p_node place = None -> new_body_ok s b ->
  (match b with Directory p _ => p = p_parent place | _ => True end) ->
  (forall s' n, wf s' -> nodes s' !! next_id s = Some n -> body n = b -> opens n = 0 -> handles s' = handles s ->
     entry_map (nodes s') = <[(p_parent place, p_name place) := next_id s]> (entry_map (nodes s)) -> Q s' (Ok (next_id s))) ->
  wp (create place md b now) Q s.
Proof.
  intros Hwf Hroom [Hpar Hplace] Hfree Hb Hdir HQ.
  set (id := next_id s). set (d := p_parent place) in *. set (nm := p_name place) in *.
  assert (valid_name nm /\ entry_map (nodes s) !! (d, nm) = None) as [Hv He].
  { destruct nm; [congruence |]. destruct Hplace as [? <-]. done. }
  destruct Hpar as (m & q & es & Hm & Hbm).
  assert (id <> d) as Hne by (pose proof (wf_ids _ _ _ Hwf _ _ Hm); unfold id; lia).
  set (n := mkNode (Z.land md MODE_MASK) now now now now 1 0 0 [] b).
  set (m' := with_body (Directory q (<[nm := id]> es)) m).
  set (s3 := set_nodes (insert id n) (set_next_id (wrapping_add u64_max id 1) (set_nodes (insert d m') s))).
  assert (wf s3) as Hwf3.
  { pose proof (wfd_new_node (fun j => if j =? id then 1 else 0) s id n Hwf eq_refl Hroom eq_refl eq_refl eq_refl eq_refl) as Hnew.
    assert (s3 = set_nodes (insert d m') (set_next_id (wrapping_add u64_max id 1) (set_nodes (insert id n) s))) as ->.
    { unfold s3, set_nodes, set_next_id. simpl. by rewrite insert_insert_ne by done. }
    apply (wfd_ext (fun _ => 0) _ (fun j => j = id /\ j <> id) _ _ _ (reflexivity _)); [done | by intros ? [? ?] |].
    apply wfd_unexempt.
    - eapply (wfd_entry_insert (fun j => if j =? id then 1 else 0)); simpl.
      + apply Hnew; [| done]. subst n. simpl. unfold new_body_ok, is_dir in Hb. by destruct b.
      + by rewrite lookup_insert_ne.
      + done.
      + rewrite lookup_entry_map, Hm in He. simpl in He. unfold dir_entries in He. by rewrite Hbm in He.
      + rewrite lookup_insert_eq. eauto.
      + done.
      + destruct (wf_root _ _ _ Hwf) as (r & res & Hr & _). pose proof (wf_ids _ _ _ Hwf _ _ Hr). unfold id. lia.
      + intros j. destruct (j =? id); lia.
    - simpl. intros n0 p0 es0. rewrite lookup_insert_ne, lookup_insert_eq by done. intros [= <-] Hbn. simpl in Hbn.
      split; [done |]. exists nm. subst b. rewrite Hdir. apply entry_map_Some. exists m', q, (<[nm := id]> es).
      rewrite !lookup_insert_eq. done. }
  unfold create. apply wp_bind. eapply wp_update_entries; [done | done |]. cbn beta iota. fold m'.
  wp_mod. wp_mod. fold id n. change (set_nodes _ _) with s3.
  assert (entry_map (nodes s3) = <[(d, nm) := id]> (entry_map (nodes s))) as Hem3.
  { simpl. rewrite insert_insert_ne by done. rewrite (entry_map_insert _ d m q es nm id); [| by rewrite lookup_insert_ne | done].
    f_equal. apply entry_map_new; [| destruct b; [done | by destruct Hb as [-> _] | done]].
    destruct (nodes s !! id) eqn:E; [| done]. apply (wf_ids _ _ _ Hwf) in E. unfold id in E. lia. }
  apply wp_bind, wp_touch_ok; [simpl; rewrite lookup_insert_ne, lookup_insert_eq by done; eauto |].
  intros s4 He4. rewrite He4 in Hwf3.
  destruct (strip_lookup _ _ id n (proj1 He4)) as (n4 & Hn4 & Hl4 & Ho4 & _ & _ & Hb4); [apply lookup_insert_eq |].
  wp_read. unfold is_directory, kind, node. rewrite Hn4. simpl. wp_mod. apply wp_ret.
  match goal with |- context [report_entry ?x ?y ?z ?w s4] => pose proof (report_entry_core x y z w s4) as Hc; set (s5 := report_entry x y z w s4) in * end.
  pose proof Hc as (Hns & _ & _ & Hhs & _). apply (HQ s5 n4).
  - by rewrite <- (core_tree_eq _ _ Hc).
  - by rewrite Hns.
  - done.
  - done.
  - rewrite Hhs. symmetry. apply He4.
  - rewrite Hns. transitivity (entry_map (nodes s3)); [symmetry; apply strip_entry_map, He4 | exact Hem3].
Qed.

(** ** Handles *)
Lemma handle_count_insert hs a v j : hs !! a = None ->
  handle_count (<[a := v]> hs) j = handle_count hs j + if opens_node j v then 1 else 0.
Proof.
  intros Ha. unfold handle_count. rewrite size_filter_insert by done. simpl. f_equal. by destruct (opens_node j v).
Qed.
Lemma handle_count_delete hs a v j : hs !! a = Some v ->
  handle_count (delete a hs) j = handle_count hs j - if opens_node j v then 1 else 0.
Proof.
  intros Ha. unfold handle_count. rewrite (size_filter_delete _ _ v) by done. simpl. f_equal. by destruct (opens_node j v).
Qed.
Lemma node_base_insert hs a v j m : hs !! a = None -> opens_node j v = false -> node_base hs j m -> node_base (<[a := v]> hs) j m.
Proof.
  intros Ha Ho ((? & ? & Hc) & Hb & Hl & Hown). split_and!; [done | done | | done | done |].
  - rewrite handle_count_insert, Ho by done. lia.
  - intros l Hin. destruct (Hown l Hin) as [acc Hacc]. exists acc. rewrite lookup_insert_ne; [done | congruence].
Qed.
Lemma node_base_delete hs a v j m : hs !! a = Some v -> opens_node j v = false -> node_base hs j m -> node_base (delete a hs) j m.
Proof.
  intros Ha Ho ((? & ? & Hc) & Hb & Hl & Hown). split_and!; [done | done | | done | done |].
  - rewrite (handle_count_delete _ _ v), Ho by done. lia.
  - intros l Hin. destruct (Hown l Hin) as [acc Hacc]. exists acc. rewrite lookup_delete_ne; [done |]. intros ->.
    rewrite Ha in Hacc. injection Hacc as ->. simpl in Ho. by rewrite Z.eqb_refl in Ho.
Qed.

(** Handles that are not files may come, change and go. *)
Definition not_file (o : option Handle) : Prop := forall id acc, o <> Some (HFile id acc).
Lemma wf_other_handles s hs : wf s ->
  (forall h, hs !! h = handles s !! h \/ (not_file (hs !! h) /\ not_file (handles s !! h) /\ (hs !! h = None \/ (h <> 0 /\ h mod 8 = 0)))) ->
  wf (set_handles (fun _ => hs) s).
Proof.
  intros Hwf Hh. destruct (wf_root _ _ _ Hwf) as (r & res & Hr & Hrb).
  assert (forall j, handle_count hs j = handle_count (handles s) j) as Hc.
  { intros j. unfold handle_count. do 2 f_equal. apply map_eq. intros h. rewrite !map_lookup_filter.
    destruct (Hh h) as [-> | (Hf1 & Hf2 & _)]; [done |].
    assert (forall o, not_file o -> (o ≫= fun x => guard (opens_node j x = true);; Some x) = None) as Hno.
    { intros [[id acc | |] |] Hn; simpl; try done. by destruct (Hn id acc). }
    simpl. by rewrite (Hno _ Hf1), (Hno _ Hf2). }
  assert (forall j m, node_ok (handles s) j m -> node_ok hs j m) as Hok.
  { intros j m (Hlive & (? & ? & Hcn) & Hb & Hcm & Hown). split; [done |]. split_and!; [done | done | by rewrite Hc | done | done |].
    intros l Hin. destruct (Hown l Hin) as [acc Hacc]. exists acc. destruct (Hh (l_owner l)) as [-> | (_ & Hf & _)]; [done |].
    by apply Hf in Hacc. }
  apply (wfd_set_node no_debt no_debt no_one s _ ROOT r r 0); auto; simpl.
  - by rewrite insert_id.
  - lia.
  - rewrite Hrb. done.
  - lia.
  - intros j. unfold no_debt. destruct (_ =? _); lia.
  - apply Hok. by apply (wf_node _ _ _ Hwf).
  - intros h v Hv. destruct (Hh h) as [He | (Hf & _ & [? | [? ?]])]; [left; congruence | congruence |].
    right. split_and!; [done | done |]. destruct v; [by apply Hf in Hv | done | done].
Qed.
Lemma handle_lookup s h v : wf s -> handles s !! h = Some v -> h <> 0 /\ h mod 8 = 0.
Proof. intros Hwf Hv. destruct (wf_handles _ _ _ Hwf _ _ Hv) as (? & ? & _). done. Qed.
Lemma wf_handle_insert s h v : wf s -> not_file (Some v) -> h <> 0 -> h mod 8 = 0 -> not_file (handles s !! h) ->
  wf (set_handles (insert h v) s).
Proof.
  intros Hwf Hv Hh Hm Ho. apply (wf_other_handles s (<[h := v]> (handles s)) Hwf).
  intros h'. rewrite lookup_insert. case_decide; [subst; right; split_and!; [done | done | by right] | by left].
Qed.
Lemma wf_handle_delete s h : wf s -> not_file (handles s !! h) -> wf (set_handles (delete h) s).
Proof.
  intros Hwf Ho. apply (wf_other_handles s (delete h (handles s)) Hwf).
  intros h'. rewrite lookup_delete. case_decide; [subst; right; split_and!; [done | done | by left] | by left].
Qed.

(** Opening and closing a file: the handle and the count of the node change together. *)
Lemma wf_open_handle s id n acc h : wf s -> nodes s !! id = Some n -> (forall p es, body n <> Directory p es) ->
  0 <= opens n < usize_max -> handles s !! h = None -> h <> 0 -> h mod 8 = 0 ->
  wf (set_handles (insert h (HFile id acc))
       (set_nodes (insert id (with_counts (links n) (wrapping_add usize_max (opens n) 1) (maps n) n)) s)).
Proof.
  intros Hwf Hn Hnd Ho Hh Hz Hm. pose proof (wf_node _ _ _ Hwf _ _ Hn) as (Hlive & (? & ? & Hc) & Hb & Hcm & Hown).
  rewrite wrapping_add_small by lia.
  eapply (wfd_set_node no_debt no_debt no_one s _ id n _ 0); eauto; simpl; try lia.
  - unfold file_size. simpl. lia.
  - unfold same_shape. by destruct (body n).
  - intros j. unfold no_debt. destruct (_ =? _); lia.
  - split; [unfold live in *; simpl; lia |]. split_and!; simpl; [done | done | | | done |].
    + rewrite handle_count_insert by done. simpl. rewrite Z.eqb_refl. lia.
    + destruct (body n); [done | by edestruct Hnd | done].
    + intros l Hin. destruct (Hown l Hin) as [a Ha]. exists a. rewrite lookup_insert_ne; [done | congruence].
  - intros j m Hj _ [? ?]. split; [done |]. apply node_base_insert; [done | | done]. simpl. lia.
  - intros h' v. rewrite lookup_insert. case_decide; [intros [= <-]; subst; right; split_and!; [done | done | eauto] | auto].
Qed.
Lemma wf_close_handle s id n acc h : wf s -> nodes s !! id = Some n -> handles s !! h = Some (HFile id acc) ->
  wf (reap id (set_nodes (insert id (with_locks (List.filter (fun held => negb (l_owner held =? h)) (locks n))
        (with_counts (links n) (saturating_sub (opens n) 1) (maps n) n))) (set_handles (delete h) s))).
Proof.
  intros Hwf Hn Hh. pose proof (wf_node _ _ _ Hwf _ _ Hn) as (Hlive & (? & ? & Hc) & Hb & Hcm & Hown).
  assert (1 <= opens n) as Ho.
  { rewrite Hc. pose proof (handle_count_delete _ _ _ id Hh) as Hd. simpl in Hd. rewrite Z.eqb_refl in Hd.
    unfold handle_count in *. lia. }
  assert (forall p es, body n <> Directory p es) as Hnd.
  { intros p es Hd. rewrite Hd in Hb. lia. }
  set (n' := with_locks _ _).
  apply (wfd_ext (fun j => if j =? id then 0 else no_debt j) _ (fun j => no_one j /\ j <> id) _ _ _ (reflexivity _));
    [intros j; by destruct (_ =? _) | by intros ? [? ?] |].
  eapply (wfd_lower no_debt no_one s _ id n n' Hwf Hn); eauto; simpl.
  - intros ->. destruct (wf_root _ _ _ Hwf) as (r & res & Hr & Hrb). rewrite Hn in Hr. injection Hr as <-. by apply Hnd in Hrb.
  - apply delete_subseteq.
  - unfold no_debt. lia.
  - split_and!; simpl; [done | done | | | |].
    + rewrite (handle_count_delete _ _ _ id Hh). simpl. rewrite Z.eqb_refl. unfold saturating_sub. lia.
    + destruct (body n); [done | by edestruct Hnd | done].
    + apply (compatible_sub (locks n)); [| done]. intros l Hl. apply list_elem_of_In, filter_In in Hl as [Hl _]. by apply list_elem_of_In.
    + intros l Hl. apply list_elem_of_In, filter_In in Hl as [Hl%list_elem_of_In Hne%negb_true_iff%Z.eqb_neq].
      destruct (Hown l Hl) as [a Ha]. exists a. by rewrite lookup_delete_ne.
  - intros j m Hj _ [? ?]. split; [done |]. eapply node_base_delete; [done | simpl; lia | done].
  - intros p es Hd. by apply Hnd in Hd.
Qed.
End Steps.
