(* ===== verification/Calls.v ===== *)
(** * Calls.v: the calls of the file system as one interface

    Every provider call of [MemFs] is shown to keep the invariant, whether it succeeds or fails; then the calls are
    put into one type, [Call], and the invariant holds after any sequence of them. *)
From S2P Require Import Prelude Port Content Queue Locks Tree MemFs Invariant Walk Preserve.
Local Open Scope Z_scope.
Local Open Scope pal_scope.

Section Calls.
Context `{Arch} `{Endian} `{BoxAllocator}.

(** The abstract tree: the node every name stands for. *)
Definition names_of (s : Fs) : gmap (Z * name) Z := entry_map (nodes s).

(** Counters that have not reached the end of their type: a call counts one up. *)
Record room (s : Fs) : Prop := {
  room_id : next_id s < u64_max;
  room_counts : forall id n, nodes s !! id = Some n -> links n < usize_max /\ opens n < usize_max /\ maps n < usize_max;
}.

(** The call leaves a well-formed state, whatever it returns. *)
Abbreviation keeps_wf m := (wp m (fun s' _ => wf s')).

Lemma wf_core s s' : core_eq s s' -> wf s -> wf s'.
Proof. intros Hc. by rewrite (core_tree_eq _ _ Hc). Qed.
Lemma wf_report id kinds s : wf s -> wf (report id kinds s).
Proof. apply wf_core, report_core. Qed.
(** A read that is the last thing to fail. *)
Lemma keeps_wf_read {A B} (f : Fs -> Result A) (k : A -> FsM B) s :
  wf s -> (forall a, f s = Ok a -> keeps_wf (k a) s) -> keeps_wf (bind (reads f) k) s.
Proof. intros Hwf Hk. apply wp_bind, wp_reads. destruct (f s) eqn:Hf; auto. Qed.

(** ** Places in a well-formed tree *)
Lemma place_named s place nd : place_ok s place -> p_node place = Some nd -> p_name place <> [] ->
  entry_map (nodes s) !! (p_parent place, p_name place) = Some nd /\ valid_name (p_name place).
Proof. intros [_ Hp] Hn Hne. destruct (p_name place); [done |]. destruct Hp as [Hv Hp]. by rewrite <- Hp. Qed.
Lemma place_free s place : place_ok s place -> p_node place = None ->
  p_name place <> [] /\ valid_name (p_name place) /\ entry_map (nodes s) !! (p_parent place, p_name place) = None.
Proof. intros [_ Hp] Hn. destruct (p_name place); [congruence |]. destruct Hp as [Hv Hp]. rewrite <- Hp. done. Qed.

(** An empty directory is nobody's parent. *)
Lemma no_children δ X s nd n p j m fs : wfd δ X s -> nodes s !! nd = Some n -> body n = Directory p ∅ -> nd <> ROOT ->
  ~ X j -> nodes s !! j = Some m -> body m <> Directory nd fs.
Proof.
  intros Hwf Hn Hb Hr HX Hm Hbm. destruct (decide (j = ROOT)) as [-> | Hj].
  - destruct (wf_root _ _ _ Hwf) as (r & res & Hrn & Hrb). naive_solver congruence.
  - destruct (wf_named _ _ _ Hwf j m nd fs Hm Hbm Hj HX) as [_ [nm Hnm]].
    apply entry_map_Some in Hnm as (n' & p' & es' & Hn' & Hb' & He). rewrite Hn in Hn'. injection Hn' as <-.
    rewrite Hb in Hb'. injection Hb' as <- <-. by rewrite lookup_empty in He.
Qed.
Lemma named_not_root s d nm nd : wf s -> entry_map (nodes s) !! (d, nm) = Some nd -> nd <> ROOT.
Proof. intros Hwf He ->. by apply (wf_root_unnamed _ _ _ Hwf) in He. Qed.

(** ** Removing a name: the common part of [remove] and [remove_directory] *)
Lemma wp_remove_entry s place nd now counted kinds n (Q : Fs -> Result unit -> Prop) :
  wf s -> place_ok s place -> p_node place = Some nd -> p_name place <> [] -> nodes s !! nd = Some n ->
  (forall p es, body n = Directory p es -> es = ∅) ->
  (forall s', wf s' -> entry_map (nodes s') = delete (p_parent place, p_name place) (entry_map (nodes s)) ->
     (nodes s' !! nd = None <-> links n = 1 /\ opens n = 0 /\ maps n = 0) -> Q s' (Ok tt)) ->
  wp (update_entries (p_parent place) (delete (p_name place)) ;!
      touch (p_parent place) now ;!
      unlinked nd now counted ;!
      modify (report_entry (p_parent place) (p_name place) kinds 0)) Q s.
Proof.
  intros Hwf Hpl Hnd Hname Hn Hempty HQ. destruct (place_named s place nd Hpl Hnd Hname) as [He Hv].
  pose proof (named_not_root _ _ _ _ Hwf He) as Hr.
  set (d := p_parent place) in *. set (nm := p_name place) in *.
  pose proof He as He'. apply entry_map_Some in He' as (m & q & es & Hm & Hbm & Hes).
  assert (d <> nd) as Hd.
  { intros E. rewrite E, Hn in Hm. injection Hm as <-. apply Hempty in Hbm as ->. by rewrite lookup_empty in Hes. }
  apply wp_bind. eapply wp_update_entries; [done | done |]. cbn beta iota. set (s1 := set_nodes _ s).
  assert (wfd (fun j => if j =? nd then 1 else 0) (fun j => j = nd) s1) as Hwf1.
  { eapply (wfd_entry_delete no_debt _ no_one); eauto. by intros ? []. }
  apply wp_bind, wp_touch_ok; [simpl; rewrite lookup_insert_eq; eauto |]. intros s2 He2.
  assert (nodes s1 !! nd = Some n) as Hn1 by (simpl; by rewrite lookup_insert_ne).
  destruct (strip_lookup _ _ _ _ (proj1 He2) Hn1) as (n2 & Hn2 & Hl2 & Ho2 & Hm2 & _ & Hb2).
  rewrite He2 in Hwf1.
  apply wp_bind. eapply (wp_unlinked _ _ s2); [done | done | done | simpl; by rewrite Z.eqb_refl | done | |].
  - intros p fs Hb. rewrite Hb2 in Hb. pose proof (Hempty _ _ Hb) as ->. split_and!; [done | |].
    + rewrite Hl2. apply (wf_named _ _ _ Hwf nd n p ∅); auto.
    + intros j m' fs' Hj Hm' Hbm'. destruct (strip_lookup _ _ _ _ (eq_sym (proj1 He2)) Hm') as (m1 & Hm1 & _ & _ & _ & _ & Hb1).
      rewrite Hbm' in Hb1. simpl in Hm1. rewrite lookup_insert in Hm1. case_decide as Hdj.
      * injection Hm1 as <-. simpl in Hb1. injection Hb1 as -> <-. eapply (no_children _ _ s nd n p d m); eauto.
      * eapply (no_children _ _ s nd n p j m1); eauto.
  - intros s3 Hwf3 _ Hs3. apply wp_modify. destruct (report_entry_core d nm kinds 0 s3) as (Hns & Hrest). apply HQ.
    + eapply wf_core; [split; [exact Hns | exact Hrest] |].
      eapply wfd_ext; [reflexivity | | | exact Hwf3]; simpl; [intros j; unfold no_debt; by destruct (_ =? _) | naive_solver].
    + rewrite Hns. transitivity (entry_map (nodes s2)).
      * assert (dir_entries n2 = ∅) as Hde.
        { unfold dir_entries. destruct (body n2) eqn:Hb; [done | | done]. rewrite Hb2 in Hb. by eapply Hempty. }
        destruct Hs3 as [[-> _] | (n' & -> & Hb' & _)]; [by eapply entry_map_delete_node |].
        apply (entry_map_same _ _ n2); [done |]. unfold dir_entries. by rewrite Hb'.
      * rewrite <- (strip_entry_map _ _ (proj1 He2)). by apply entry_map_delete.
    + rewrite Hns, <- Hl2, <- Ho2, <- Hm2. destruct Hs3 as [(-> & ?) | (n' & Hs3 & Hb' & Hl' & Ho' & Hm' & Hlive)].
      * rewrite lookup_delete_eq. done.
      * rewrite Hs3, lookup_insert_eq. split; [done |]. unfold live in Hlive. lia.
Qed.

Lemma keeps_wf_remove path now s : wf s -> keeps_wf (remove path now) s.
Proof.
  intros Hwf. unfold remove. apply keeps_wf_read; [done |]. intros place Hpl%(walk_places _ _ _ Hwf).
  apply keeps_wf_read; [done |]. intros nd Hnd%ok_or_Ok. apply keeps_wf_read; [done |].
  intros [] Hdir; [by apply wp_fail |]. apply is_directory_false in Hdir as (n & Hn & Hnot).
  eapply wp_remove_entry; eauto.
  - intros Hz. destruct Hpl as [(m & p & es & Hm & Hb) Hp]. rewrite Hz, Hnd in Hp. injection Hp as ->.
    rewrite Hn in Hm. injection Hm as <-. by apply Hnot in Hb.
  - intros p es Hb. by apply Hnot in Hb.
Qed.
Lemma keeps_wf_remove_directory path now s : wf s -> keeps_wf (remove_directory path now) s.
Proof.
  intros Hwf. unfold remove_directory. apply keeps_wf_read; [done |]. intros place Hpl%(walk_places _ _ _ Hwf).
  apply keeps_wf_read; [done |]. intros nd Hnd%ok_or_Ok. apply keeps_wf_read; [done |].
  intros es (n & p & Hn & Hb)%entries_Ok.
  destruct (_ =? _); [by apply wp_fail |]. case_bool_decide; [| by apply wp_fail]. simpl.
  case_bool_decide; [by apply wp_fail |]. eapply wp_remove_entry; eauto.
  intros p' es' Hb'. congruence.
Qed.

(** ** New names *)
Lemma keeps_wf_create_directory path md now s : wf s -> room s -> keeps_wf (create_directory path md now) s.
Proof.
  intros Hwf Hroom. unfold create_directory. apply keeps_wf_read; [done |]. intros place Hpl%(walk_places _ _ _ Hwf).
  destruct (p_node place) eqn:Hnd; [by apply wp_fail |].
  apply wp_bind, wp_create; auto; [apply Hroom | by split; [| apply Hpl]].
Qed.
Lemma keeps_wf_symlink target path now s : wf s -> room s -> keeps_wf (symlink target path now) s.
Proof.
  intros Hwf Hroom. unfold symlink. destruct (_ =? _); [by apply wp_fail |]. destruct (_ <? _); [by apply wp_fail |].
  apply wp_bind. unfold wp at 1. destruct (try_reserve_exact _ _ _) as [[v g] granted]. simpl.
  assert (wf (set_answers g s)) as Hwf1 by by (eapply wf_core; [| done]).
  destruct granted; [| done]. apply keeps_wf_read; [done |]. intros place [Hpl Hn]%(vacant_places _ _ _ Hwf1).
  apply wp_bind, wp_create; auto; [apply Hroom | done].
Qed.
(** What [link] does once it has found the node and the free place. *)
Lemma wp_link_entry nd place now s (Q : Fs -> Result unit -> Prop) :
  wf s -> room s -> place_ok s place -> p_node place = None -> is_directory s nd = Ok false ->
  (forall s', wf s' -> entry_map (nodes s') = <[(p_parent place, p_name place) := nd]> (entry_map (nodes s)) -> Q s' (Ok tt)) ->
  wp (modify (report nd W_ATTRIBUTES) ;!
      update_entries (p_parent place) (insert (p_name place) nd) ;!
      update_node nd (fun n => with_times (accessed n) (modified n) now
                     (with_counts (wrapping_add usize_max (links n) 1) (opens n) (maps n) n)) ;!
      touch (p_parent place) now ;!
      modify (report_entry (p_parent place) (p_name place) W_CREATE 0)) Q s.
Proof.
  intros Hwf Hroom Hpl Hfree Hdir HQ. wp_mod. set (s1 := report nd W_ATTRIBUTES s).
  assert (core_eq s s1) as Hc by apply report_core. pose proof (wf_core _ _ Hc Hwf) as Hwf1.
  apply is_directory_false in Hdir as (n & Hn & Hnot).
  destruct (place_free s place Hpl Hfree) as (_ & Hv & He).
  destruct Hpl as [(m & p & es & Hm & Hb) _].
  destruct Hc as (Hns & _). rewrite <- Hns in Hn, Hm, He.
  set (d := p_parent place) in *. set (nm := p_name place) in *.
  assert (d <> nd) as Hne by (intros E; rewrite E, Hn in Hm; injection Hm as <-; by apply Hnot in Hb).
  apply wp_bind. eapply wp_update_entries; [done | done |]. cbn beta iota. set (s2 := set_nodes _ s1).
  assert (wfd (fun j => - if j =? nd then 1 else 0) no_one s2) as Hwf2.
  { eapply (wfd_entry_insert no_debt); eauto.
    - rewrite lookup_entry_map, Hm in He. simpl in He. unfold dir_entries in He. by rewrite Hb in He.
    - intros ->. destruct (wf_root _ _ _ Hwf1) as (r & res & Hr & Hrb). rewrite Hn in Hr. injection Hr as <-. by apply Hnot in Hrb. }
  assert (nodes s2 !! nd = Some n) as Hn2 by (simpl; by rewrite lookup_insert_ne).
  apply wp_bind, wp_update_node; [congruence |]. intros n0 Hn0. rewrite Hn2 in Hn0. injection Hn0 as <-.
  set (n' := with_times _ _ _ _). set (s3 := set_nodes _ s2).
  assert (wf s3) as Hwf3.
  { pose proof (wf_node _ _ _ Hwf2 _ _ Hn2) as (Hlive & (Hl & ? & ?) & Hrest). destruct Hroom as [_ Hroom].
    rewrite Hns in Hn. apply Hroom in Hn as (? & _).
    assert (links n' = links n + 1) as Hl' by (subst n'; simpl; rewrite wrapping_add_small; lia).
    eapply (wfd_set_node _ no_debt no_one s2 s3 nd n n' 1); eauto; simpl.
    - unfold file_size. simpl. lia.
    - unfold same_shape. by destruct (body n).
    - intros j. unfold no_debt. destruct (_ =? _); lia.
    - split; [unfold live; lia |]. split; [simpl in *; split_and!; [lia | done | done] | done]. }
  apply wp_bind, wp_touch_ok; [simpl; rewrite lookup_insert_ne, lookup_insert_eq by done; eauto |].
  intros s4 He4. rewrite He4 in Hwf3. apply wp_modify. destruct (report_entry_core d nm W_CREATE 0 s4) as (Hns5 & Hrest5). apply HQ.
  - eapply wf_core; [split; [exact Hns5 | exact Hrest5] | done].
  - rewrite Hns5, <- (strip_entry_map _ _ (proj1 He4)). simpl. rewrite (entry_map_same _ _ n); [| done | done].
    rewrite <- Hns. by apply entry_map_insert.
Qed.
Lemma keeps_wf_link old path now s : wf s -> room s -> keeps_wf (link old path now) s.
Proof.
  intros Hwf Hroom. unfold link. apply keeps_wf_read; [done |]. intros nd Hnd.
  apply keeps_wf_read; [done |]. intros place [Hpl Hfree]%(vacant_places _ _ _ Hwf).
  apply keeps_wf_read; [done |]. intros [] Hdir; [by apply wp_fail |]. by apply wp_link_entry.
Qed.


(** ** File content *)
Definition edit_ok {A} (edit : Z -> bool -> M (Content * answers) Error A) : Prop :=
  forall room mapped c g c' g' r, content_ok c -> edit room mapped (c, g) = (c', g', r) ->
    content_ok c' /\ match r with Err _ => content_len c' = content_len c | Ok _ => True end.
Lemma resize_edit_ok n : 0 <= n -> edit_ok (fun room mapped => content_resize n room mapped).
Proof.
  intros Hn room0 mapped c g c' g' r Hc He. apply content_resize_ok in He as [Hok Hr]; auto. split; [done |].
  destruct r; [done |]. rewrite !content_len_bytes by done. by destruct Hr as [_ ->].
Qed.
Lemma write_edit_ok o d : 0 <= o -> edit_ok (fun room mapped => content_write o d room mapped).
Proof.
  intros Hn room0 mapped c g c' g' r Hc He. apply content_write_ok in He as [Hok Hr]; auto. split; [done |].
  destruct r; [done |]. rewrite !content_len_bytes by done. by destruct Hr as [_ ->].
Qed.
(** Only the content of one file changes, with the byte count. *)
Lemma wf_set_content s s' id n c c' n' : wf s -> nodes s !! id = Some n -> body n = File c -> content_ok c' ->
  strip n' = strip (with_body (File c') n) -> nodes s' = <[id := n']> (nodes s) -> next_id s' = next_id s ->
  working s' = working s -> handles s' = handles s -> used s' = used s - content_len c + content_len c' -> wf s'.
Proof.
  intros Hwf Hn Hb Hc Hs Hns Hi Hw Hh Hu. unfold strip in Hs. injection Hs as Hl Ho Hm Hlo Hb'. simpl in *.
  pose proof (wf_node _ _ _ Hwf _ _ Hn) as Hok.
  apply (wfd_set_node no_debt no_debt no_one s s' id n n' 0); auto; try lia.
  - unfold file_size. rewrite Hb, Hb'. done.
  - by rewrite Hb, Hb'.
  - intros j. unfold no_debt. destruct (_ =? _); lia.
  - unfold node_ok, node_base, live in *. rewrite Hh, Hl, Ho, Hm, Hlo, Hb'. rewrite Hb in Hok. intuition.
  - by rewrite Hh.
  - rewrite Hh. auto.
Qed.
(** What is left of a node by an edit of its content. *)
Definition edited (s s' : Fs) (id : Z) : Prop :=
  names_of s' = names_of s /\ handles s' = handles s /\ next_id s' = next_id s /\
  forall n, nodes s !! id = Some n -> exists n', nodes s' !! id = Some n' /\ opens n' = opens n /\ same_shape (body n) (body n').
Lemma wp_change {A} id now told (edit : Z -> bool -> M (Content * answers) Error A) (Q : Fs -> Result A -> Prop) s :
  wf s -> edit_ok edit ->
  (forall s' r, wf s' -> edited s s' id ->
     (forall a, r = Ok a -> exists c c' g' n', content s id = Ok c /\ content s' id = Ok c' /\ used s' = used s - content_len c + content_len c' /\
        edit (saturating_sub (fs_capacity s) (used s)) n' (c, answers_left s) = (c', g', Ok a)) ->
     (forall e, r = Err e -> used s' = used s) -> Q s' r) ->
  wp (change id now told edit) Q s.
Proof.
  intros Hwf Hedit HQ. unfold wp, change. destruct (nodes s !! id) as [n |] eqn:Hn.
  2: { apply HQ; [done | split_and!; [done .. | congruence] | done | done]. }
  assert (forall b, same_shape b b) as Hrefl by (intros []; done).
  destruct (body n) as [c | p es | t] eqn:Hb; [| apply HQ; [done | split_and!; [done .. | eauto] | done | done] ..].
  pose proof (wf_node _ _ _ Hwf _ _ Hn) as (_ & _ & Hc & _). rewrite Hb in Hc.
  destruct (edit _ _ _) as [[c' g'] r] eqn:He. pose proof He as [Hc' Hr]%Hedit; [| done].
  assert (forall n' s', nodes s' = <[id := n']> (nodes s) -> body n' = File c' -> opens n' = opens n -> handles s' = handles s ->
    next_id s' = next_id s -> edited s s' id) as Hed.
  { intros n' s' Hns Hb' Ho Hh Hi. split_and!; [| done | done |].
    - unfold names_of. rewrite Hns. apply (entry_map_same _ _ n); [done |]. unfold dir_entries. by rewrite Hb', Hb.
    - intros n0 Hn0. rewrite Hn in Hn0. injection Hn0 as <-. exists n'. rewrite Hns, lookup_insert_eq, Hb, Hb'. done. }
  assert (content s id = Ok c) as Hcs by (unfold content, node; rewrite Hn; simpl; by rewrite Hb).
  destruct r as [a | e]; cbn zeta; cbn [fst snd].
  - match goal with |- Q (if _ then report _ _ ?x else _) _ => set (s2 := x) end.
    set (n' := with_times (accessed n) now now (with_body (File c') n)).
    assert (wf s2) as Hwf2 by by eapply (wf_set_content s s2 id n c c' n').
    assert (edited s s2 id) as Hed2 by by apply (Hed n').
    assert (content s2 id = Ok c') as Hc2 by (unfold content, node; simpl; by rewrite lookup_insert_eq).
    assert (core_eq s2 (if told || negb (content_len c =? content_len c') then report id W_MODIFY s2 else s2)) as Hcore.
    { destruct (told || _); [apply report_core | done]. }
    set (s3 := if told || _ then _ else _) in *. pose proof Hcore as (Hns & Hi & Hu & Hh & _). apply HQ.
    + by eapply wf_core.
    + unfold edited, names_of. rewrite Hns, Hi, Hh. exact Hed2.
    + intros a0 [= <-]. exists c, c', g', (negb (maps n =? 0)). split_and!; [done | | by rewrite Hu | done].
      unfold content, node. rewrite Hns. exact Hc2.
    + done.
  - apply HQ; [eapply (wf_set_content s _ id n c c' (with_body (File c') n)); eauto; simpl; lia | by eapply Hed | done | done].
Qed.
Lemma keeps_wf_write_at file o d now s : 0 <= o -> wf s -> keeps_wf (write_at file o d now) s.
Proof.
  intros Ho Hwf. apply keeps_wf_read; [done |]. intros nd _. by apply wp_change; [| apply write_edit_ok |].
Qed.
Lemma keeps_wf_set_file_size file n now s : 0 <= n -> wf s -> keeps_wf (set_file_size file n now) s.
Proof.
  intros Ho Hwf. apply keeps_wf_read; [done |]. intros nd _. by apply wp_change; [| apply resize_edit_ok |].
Qed.
Lemma keeps_wf_read_at file o n s : wf s -> keeps_wf (read_at file o n) s.
Proof.
  intros Hwf. apply keeps_wf_read; [done |]. intros nd _. apply keeps_wf_read; [done |]. intros c _.
  apply wp_bind. destruct (content_read c o n); [by apply wp_ret |]. apply wp_modify. by apply wp_ret, wf_report.
Qed.

(** ** Opening and closing *)
Lemma opens_nonneg s id n : wf s -> nodes s !! id = Some n -> 0 <= opens n.
Proof. intros Hwf Hn. destruct (wf_node _ _ _ Hwf _ _ Hn) as (_ & (_ & _ & ->) & _). unfold handle_count. lia. Qed.
Lemma wp_open_tail id acc n s (Q : Fs -> Result Z -> Prop) :
  wf s -> nodes s !! id = Some n -> (forall p es, body n <> Directory p es) -> opens n < usize_max ->
  (forall s' h, wf s' -> names_of s' = names_of s -> handles s !! h = None -> handles s' = <[h := HFile id acc]> (handles s) -> Q s' (Ok h)) ->
  wp (update_node id (fun n => with_counts (links n) (wrapping_add usize_max (opens n) 1) (maps n) n) ;! handle (HFile id acc)) Q s.
Proof.
  intros Hwf Hn Hnot Ho HQ. apply wp_bind, wp_update_node; [congruence |]. intros n0 Hn0. rewrite Hn in Hn0. injection Hn0 as <-.
  unfold wp, handle. simpl. pose proof (opens_nonneg _ _ _ Hwf Hn). apply HQ; [| | apply box_at_fresh | done].
  - apply wf_open_handle; auto; [apply box_at_fresh | apply box_at_valid ..].
  - by apply (entry_map_same _ _ n).
Qed.
(** [open], every way it can end: an error that changes neither names nor handles, or a handle that was not there, of
    the file the path leads to or of a new one in the place the path leads to. *)
Definition open_outcome (s : Fs) (place : Place) (flags : Z) (s' : Fs) (r : Result Z) : Prop :=
  wf s' /\
  match r with
  | Err _ => names_of s' = names_of s /\ handles s' = handles s
  | Ok h => handles s !! h = None /\ exists id, handles s' = <[h := HFile id (Z.land flags (Z.lor READ WRITE))]> (handles s) /\
      match p_node place with
      | Some nd => id = nd /\ has flags EXCLUSIVE = false /\ names_of s' = names_of s
      | None => id = next_id s /\ has flags CREATE = true /\ p_slash place = false /\
                names_of s' = <[(p_parent place, p_name place) := id]> (names_of s)
      end
  end.
Lemma wp_open path flags md clock s : wf s -> room s ->
  wp (open path flags md clock) (fun s' r =>
    match walk s path (if has flags EXCLUSIVE then CreateLast else Follow) with
    | Err e => s' = s /\ r = Err e
    | Ok place => open_outcome s place flags s' r
    end) s.
Proof.
  intros Hwf Hroom. unfold open. cbn zeta. apply wp_bind, wp_reads.
  destruct (walk _ _ _) as [place |] eqn:Hw; [| done]. pose proof (walk_places _ _ _ Hwf _ _ _ Hw) as Hpl.
  apply wp_bind. unfold open_outcome. destruct (p_node place) as [nd |] eqn:Hnd.
  - destruct (has flags EXCLUSIVE) eqn:Hx; [by apply wp_fail |]. apply wp_bind, wp_reads.
    destruct (is_directory s nd) as [[] | e] eqn:Hdir; [by apply wp_fail | | done].
    apply is_directory_false in Hdir as (n & Hn & Hnot). destruct (room_counts _ Hroom _ _ Hn) as (_ & Ho & _).
    apply wp_bind. destruct (has flags TRUNCATE).
    2: { apply wp_ret, wp_ret. eapply wp_open_tail; eauto. intros s' h ? ? ? ?. split_and!; [done | done |]. eauto. }
    apply wp_change; [done | by apply resize_edit_ok |]. intros s1 r Hwf1 (Hnm & Hh & Hi & Hs1) _ _. destruct r; [| done].
    apply wp_ret. destruct (Hs1 n Hn) as (n1 & Hn1 & Ho1 & Hsh). eapply wp_open_tail; eauto; [| lia |].
    + intros p es Hb. by apply (same_shape_dir _ _ _ _ Hsh), Hnot in Hb.
    + intros s' h ? Hnm' Hf Hh'. rewrite Hh in Hf, Hh'. rewrite Hnm in Hnm'. split_and!; [done | done |]. eauto.
  - destruct (has flags CREATE) eqn:Hcr; [| by apply wp_fail]. destruct (p_slash place) eqn:Hsl; [by apply wp_fail |]. simpl.
    apply wp_create; auto; [apply Hroom | done |]. intros s1 n1 Hwf1 Hn1 Hb1 Ho1 Hh1 Hem1. eapply wp_open_tail; eauto.
    + intros p es. by rewrite Hb1.
    + rewrite Ho1. pose proof usize_max_cases. lia.
    + intros s' h ? Hnm' Hf Hh'. rewrite Hh1 in Hf, Hh'. split_and!; [done | done |]. eexists. split; [done |].
      split_and!; [done | done | done |]. rewrite Hnm'. exact Hem1.
Qed.
Lemma keeps_wf_open path flags md clock s : wf s -> room s -> keeps_wf (open path flags md clock) s.
Proof.
  intros Hwf Hroom. eapply wp_mono; [by apply wp_open |]. intros s' r. simpl.
  destruct (walk _ _ _); [by intros [? _] | by intros [-> _]].
Qed.
Lemma borrow_Ok s h v : borrow s h = Ok v -> handles s !! h = Some v.
Proof. unfold borrow. destruct (_ || _); [done |]. by intros ?%ok_or_Ok. Qed.
Lemma keeps_wf_close file s : wf s -> keeps_wf (close file) s.
Proof.
  intros Hwf. apply keeps_wf_read; [done |]. intros v Hv%borrow_Ok. destruct v as [nd acc | |]; [| by apply wp_fail ..].
  destruct (wf_handles _ _ _ Hwf _ _ Hv) as (_ & _ & [n Hn]).
  wp_mod. apply wp_bind, wp_update_node; simpl; [congruence |]. intros n0 Hn0. rewrite Hn in Hn0. injection Hn0 as <-.
  apply wp_modify. by eapply wf_close_handle.
Qed.

(** ** Listings *)
Lemma wf_answers s g : wf s -> wf (set_answers g s).
Proof. by apply wf_core. Qed.
Lemma keeps_wf_new_handle v s : wf s -> not_file (Some v) -> keeps_wf (handle v) s.
Proof.
  intros Hwf Hv. unfold wp, handle. simpl. destruct (box_at_valid (handles s)).
  apply wf_handle_insert; auto. by rewrite box_at_fresh.
Qed.
Lemma keeps_wf_open_directory path s : wf s -> keeps_wf (open_directory path) s.
Proof.
  intros Hwf. apply keeps_wf_read; [done |]. intros nd _. apply keeps_wf_read; [done |]. intros es _.
  cbn zeta. apply wp_bind. unfold wp at 1. destruct (try_reserve_exact _ _ _) as [[v g] []]; simpl; [| by apply wf_answers].
  apply keeps_wf_read; [by apply wf_answers |]. intros l _. by apply keeps_wf_new_handle; [apply wf_answers |].
Qed.
Lemma keeps_wf_read_directory h c s : wf s -> keeps_wf (read_directory h c) s.
Proof.
  intros Hwf. apply keeps_wf_read; [done |]. intros v Hv%borrow_Ok. destruct v as [| l next |]; [by apply wp_fail | | by apply wp_fail].
  destruct (dropZ next l) as [| k [| len rest]]; [by apply wp_fail .. |].
  destruct (_ <? _); [by apply wp_fail |]. cbn zeta. destruct (_ <? _); [by apply wp_fail |].
  destruct (handle_lookup _ _ _ Hwf Hv). wp_mod. apply wp_ret, wf_handle_insert; auto; [done |]. by rewrite Hv.
Qed.
Lemma keeps_wf_close_directory h s : wf s -> keeps_wf (close_directory h) s.
Proof.
  intros Hwf. apply keeps_wf_read; [done |]. intros v Hv%borrow_Ok. destruct v; [by apply wp_fail | | by apply wp_fail].
  apply wp_modify, wf_handle_delete; [done |]. by rewrite Hv.
Qed.

(** ** Attributes and the working directory *)
Lemma keeps_wf_attr id f s : wf s -> (forall n, strip (f n) = strip n) ->
  keeps_wf (update_node id f ;! modify (report id W_ATTRIBUTES)) s.
Proof.
  intros Hwf Hf. apply wp_bind, wp_attr; [done |]. intros s1 [] He; rewrite He in Hwf; [| done].
  by apply wp_modify, wf_report.
Qed.
Lemma keeps_wf_set_mode_node id md now s : wf s -> keeps_wf (set_mode_node id md now) s.
Proof. intros Hwf. by apply keeps_wf_attr. Qed.
Lemma keeps_wf_set_times_node id a m now s : wf s -> keeps_wf (set_times_node id a m now) s.
Proof.
  intros Hwf. apply keeps_wf_read; [done |]. intros n _. destruct a, m; [by apply keeps_wf_attr .. |]. by apply wp_ret.
Qed.
Lemma keeps_wf_set_current_directory path s : wf s -> keeps_wf (set_current_directory path) s.
Proof.
  intros Hwf. apply keeps_wf_read; [done |]. intros nd _. apply keeps_wf_read; [done |]. intros es (n & p & Hn & Hb)%entries_Ok.
  apply wp_modify. pose proof (wf_ids _ _ _ Hwf _ _ Hn). destruct Hwf. constructor; auto.
  simpl. split; [lia |]. rewrite Hn. intros m [= <-]. eauto.
Qed.

(** ** Locks *)
Lemma file_node_Ok s h acc nd : file_node s h acc = Ok nd -> exists granted, handles s !! h = Some (HFile nd granted).
Proof.
  unfold file_node. intros Hf. apply result_bind_Ok in Hf as (v & Hv%borrow_Ok & Hf).
  destruct v as [id granted | |]; [| done ..]. destruct (_ =? _); [| done]. injection Hf as <-. eauto.
Qed.
Lemma wp_relock_node nd md w s (Q : Fs -> Result unit -> Prop) : wf s -> (exists acc, handles s !! l_owner w = Some (HFile nd acc)) ->
  (forall s' r, wf s' -> handles s' = handles s -> Q s' r) -> wp (relock_node nd md w) Q s.
Proof.
  intros Hwf Hw HQ. unfold wp, relock_node. destruct (nodes s !! nd) as [n |] eqn:Hn; [| by apply HQ].
  destruct (relock md w (locks n, answers_left s)) as [[ls g] r] eqn:Hr. simpl. apply HQ; [| done].
  pose proof (wf_node _ _ _ Hwf _ _ Hn) as (Hlive & Hcounts & Hb & Hc & Hown).
  apply (wfd_set_node no_debt no_debt no_one s _ nd n (with_locks ls n) 0); auto; simpl; try lia.
  - unfold file_size. simpl. lia.
  - unfold same_shape. by destruct (body n).
  - intros j. unfold no_debt. destruct (_ =? _); lia.
  - split; [done |]. split; [done |]. split; [done |]. split; [by eapply relock_keeps_compatible |].
    intros l Hl. destruct (relock_owners _ _ _ _ _ _ _ _ Hr Hl) as [-> | (l0 & Hl0 & <-)]; auto.
Qed.
Lemma keeps_wf_lock_attempt file md s : wf s -> keeps_wf (lock_attempt file md) s.
Proof.
  intros Hwf. unfold lock_attempt. cbn zeta. apply keeps_wf_read; [done |]. intros nd Hnd%file_node_Ok.
  apply wp_bind, wp_relock_node; [done | done |]. intros s1 [] Hwf1 Hh; [| done].
  apply wp_relock_node; [done | by rewrite Hh | done].
Qed.
Lemma lock_wf file md wait others s : wf s -> Forall (fun other => forall s, wf s -> wf (other s)) others ->
  wf (lock file md wait others s).1.
Proof.
  intros Hwf Ho. revert s Hwf. induction Ho as [| other others Hother Hothers IH]; intros s Hwf;
    pose proof (keeps_wf_lock_attempt file md s Hwf) as Ha; unfold wp in Ha; simpl;
    destruct (lock_attempt file md s) as [s1 [u | []]]; simpl in *; destruct wait; auto.
Qed.
Lemma keeps_wf_lock_range file o l md s : wf s -> keeps_wf (lock_range file o l md) s.
Proof.
  intros Hwf. unfold lock_range. cbn zeta. apply keeps_wf_read; [done |]. intros nd Hnd%file_node_Ok.
  destruct (checked_add _ _ _); [| by apply wp_fail]. destruct (_ <? _); [| by apply wp_fail].
  apply wp_relock_node; [done | done | done].
Qed.

(** ** Watches *)
Lemma keeps_wf_watch_open s : wf s -> keeps_wf watch_open s.
Proof.
  intros Hwf. unfold wp, watch_open. destruct (queue_new _) as [g [q |]]; [| by apply wf_answers].
  cbn zeta. by apply keeps_wf_new_handle; [eapply wf_core; [| done] |].
Qed.
Lemma watcher_id_Ok s w id : watcher_id s w = Ok id -> handles s !! w = Some (HWatcher id).
Proof.
  unfold watcher_id. intros Hw. apply result_bind_Ok in Hw as (v & Hv%borrow_Ok & Hw). destruct v; by run_ok.
Qed.
Lemma keeps_wf_watch_close w s : wf s -> keeps_wf (watch_close w) s.
Proof.
  intros Hwf. apply keeps_wf_read; [done |]. intros id Hid%watcher_id_Ok. wp_mod. apply wp_modify.
  eapply wf_core; [| apply (wf_handle_delete s w); [done |]]; [done |]. by rewrite Hid.
Qed.
Lemma keeps_wf_watch_add w path ev s : wf s -> keeps_wf (watch_add w path ev) s.
Proof.
  intros Hwf. unfold watch_add. cbn zeta. destruct (_ =? _); [by apply wp_fail |]. apply keeps_wf_read; [done |]. intros id _.
  apply keeps_wf_read; [done |]. intros nd _. apply keeps_wf_read; [done |]. intros dir _.
  destruct (negb dir); [by apply wp_fail |]. apply keeps_wf_read; [done |]. intros wr _.
  destruct (w_watches wr !! _).
  - wp_mod. apply wp_ret. by eapply wf_core; [| done].
  - destruct (_ =? _); [by apply wp_fail |]. unfold wp. destruct (ask _) as [[|] g]; by eapply wf_core; [| done].
Qed.
Lemma keeps_wf_watch_remove w i s : wf s -> keeps_wf (watch_remove w i) s.
Proof.
  intros Hwf. apply keeps_wf_read; [done |]. intros id _. apply keeps_wf_read; [done |]. intros wr _. cbn zeta.
  destruct (w_watches wr !! _); [| by apply wp_fail]. apply wp_modify. destruct (queue_push _ _ _ _ _ _) as [q g].
  by eapply wf_core; [| done].
Qed.
Lemma keeps_wf_watch_look w s : wf s -> keeps_wf (watch_look w) s.
Proof.
  intros Hwf. apply keeps_wf_read; [done |]. intros id _. apply keeps_wf_read; [done |]. intros wr _.
  unfold wp. destruct (queue_pop _ _) as [[q g] e]. by eapply wf_core; [| done].
Qed.

(** ** Mappings *)
Lemma next_page_ge n p : next_page n = Some p -> n <= p.
Proof.
  unfold next_page. destruct (_ <=? _) eqn:Hle; [| done]. intros [= <-]. unfold PAGE.
  pose proof (Z.div_mod (n + (4096 - 1)) 4096). pose proof (Z.mod_pos_bound (n + (4096 - 1)) 4096). lia.
Qed.
Lemma pin_ok n c g c' g' r : content_ok c -> content_len c <= n -> pin n (c, g) = (c', g', r) ->
  content_ok c' /\ content_len c' = content_len c.
Proof.
  unfold pin. destruct c as [v | p]; simpl; [| by intros ? ? [= <- _ _]].
  intros Hc Hn. destruct (pages n g) as [[a | e] g1]; intros [= <- _ _]; [| done]. simpl. split; [| done].
  pose proof (lenZ_nonneg (data v)). len.
Qed.
Lemma wf_set_maps s id n m : wf s -> nodes s !! id = Some n -> (forall p es, body n <> Directory p es) -> 0 < m ->
  wf (set_nodes (insert id (with_counts (links n) (opens n) m n)) s).
Proof.
  intros Hwf Hn Hnot Hm. pose proof (wf_node _ _ _ Hwf _ _ Hn) as (Hlive & (? & ? & ?) & Hb & Hrest).
  eapply (wfd_set_node no_debt no_debt no_one s _ id n _ 0); eauto; simpl; try lia.
  - unfold file_size. simpl. lia.
  - unfold same_shape. by destruct (body n).
  - intros j. unfold no_debt. destruct (_ =? _); lia.
  - split; [unfold live; simpl; lia |]. split; [simpl; split_and!; [done | lia | done] |]. split; [| done]. simpl.
    destruct (body n); [done | by edestruct Hnot | done].
Qed.
Lemma keeps_wf_map file o l acc shared s : wf s -> room s -> keeps_wf (map file o l acc shared) s.
Proof.
  intros Hwf Hroom. unfold map. apply keeps_wf_read; [done |]. intros nd _. apply keeps_wf_read; [done |]. intros _ _.
  destruct (has acc EXECUTE); [by apply wp_fail |]. apply keeps_wf_read; [done |]. intros c Hc.
  apply keeps_wf_read; [done |]. intros limit Hlim%ok_or_Ok%next_page_ge. apply keeps_wf_read; [done |]. intros start _.
  destruct (checked_add _ _ _) as [finish |]; [| by apply wp_fail]. destruct (_ || _); [by apply wp_fail |].
  destruct shared.
  - unfold content in Hc. apply result_bind_Ok in Hc as (n & Hn%node_Ok & Hc).
    destruct (body n) as [c0 | |] eqn:Hb; [| done ..]. injection Hc as ->.
    pose proof (wf_node _ _ _ Hwf _ _ Hn) as (_ & (_ & Hm0 & _) & Hok & _). rewrite Hb in Hok.
    apply wp_bind. unfold wp at 1. rewrite Hn. destruct (pin limit (c, answers_left s)) as [[c' g] r] eqn:Hp.
    apply pin_ok in Hp as [Hok' Hlen]; [| done | done]. simpl. set (s1 := set_answers g _).
    assert (wf s1) as Hwf1 by (eapply (wf_set_content s s1 nd n c c' (with_body (File c') n)); eauto; simpl; lia).
    destruct r as [base |]; [| done]. apply keeps_wf_read; [done |]. intros m _. destruct m as [owner count |]; [| by apply wp_fail].
    wp_mod. apply wp_bind, wp_update_node; simpl; rewrite lookup_insert_eq; [done |]. intros n0 [= <-]. apply wp_ret.
    destruct (room_counts _ Hroom _ _ Hn) as (_ & _ & Hm). simpl. rewrite wrapping_add_small by lia.
    eapply wf_core; [| apply (wf_set_maps s1 nd (with_body (File c') n) (maps n + 1) Hwf1)]; [done | | done | lia].
    simpl. apply lookup_insert_eq.
  - apply keeps_wf_read; [done |]. intros rm _. apply wp_bind. unfold wp at 1.
    destruct (pages rm (answers_left s)) as [[base | e] g]; simpl; [| by apply wf_answers].
    wp_mod. wp_mod. apply wp_ret. by eapply wf_core; [| done].
Qed.
Lemma keeps_wf_unmap a l s : wf s -> keeps_wf (unmap a l) s.
Proof.
  intros Hwf. unfold unmap. cbn zeta. apply keeps_wf_read; [done |]. intros m _. destruct m as [nd count |].
  2: { wp_mod. apply wp_modify. by eapply wf_core; [| done]. }
  wp_mod. set (s1 := set_mappings _ s). assert (wf s1) as Hwf1 by by (eapply wf_core; [| done]).
  apply wp_bind, wp_update_node; [done |]. intros n Hn. apply wp_modify.
  pose proof (wf_node _ _ _ Hwf1 _ _ Hn) as (Hlive & (? & ? & Hc) & Hb & Hrest). set (n' := with_counts _ _ _ n).
  destruct (body n) as [| p es |] eqn:Hbn.
  2: { assert (tree_eq s1 (set_nodes (insert nd n') s1)) as He.
       { apply (tree_eq_attr _ _ n); [done |]. unfold strip. simpl. f_equal. unfold saturating_sub. lia. }
       unfold reap. simpl. rewrite lookup_insert_eq. unfold live in Hlive. destruct Hb.
       replace (_ && _) with false by (subst n'; unfold saturating_sub; simpl; lia). by rewrite <- He. }
  all: apply (wfd_ext (fun j => if j =? nd then 0 else no_debt j) _ (fun j => no_one j /\ j <> nd) _ _ _ (reflexivity _));
    [intros j; unfold no_debt; simpl; by destruct (j =? nd) | by intros ? [? ?] |].
  all: eapply (wfd_lower no_debt no_one s1 _ nd n n' Hwf1 Hn); simpl; try done.
  all: try (rewrite Hbn; done).
  all: try (unfold no_debt; lia).
  all: try (intros ->; destruct (wf_root _ _ _ Hwf1) as (r & res & Hr & Hrb); congruence).
  all: try (split; [simpl; unfold saturating_sub; split_and!; [done | lia | done] | simpl; rewrite Hbn; done]).
  all: left; done.
Qed.
End Calls.

(** ** Rename *)
(** What moving entries does not change: the link counts and the parents of the directories. *)
Definition dir_parent (n : Node) : option Z := match body n with Directory p _ => Some p | _ => None end.
Definition skeleton (n : Node) : Z * option Z := (links n, dir_parent n).
Lemma dir_parent_Some n p : dir_parent n = Some p <-> exists es, body n = Directory p es.
Proof. unfold dir_parent. destruct (body n); naive_solver. Qed.
Lemma skel_lookup (ns ns' : gmap Z Node) j m : skeleton <$> ns = skeleton <$> ns' -> ns !! j = Some m ->
  exists m', ns' !! j = Some m' /\ links m' = links m /\ dir_parent m' = dir_parent m.
Proof.
  intros He Hm. assert ((skeleton <$> ns') !! j = Some (skeleton m)) as Hs by by rewrite <- He, lookup_fmap, Hm.
  rewrite lookup_fmap in Hs. destruct (ns' !! j) as [m' |]; [| done]. exists m'. simpl in Hs. injection Hs as ? ?. done.
Qed.
Lemma skel_dist ns ns' k x : skeleton <$> ns = skeleton <$> ns' -> dist ns k x -> dist ns' k x.
Proof.
  intros He. induction 1 as [| k x n p es Hx Hn Hb Hk IH]; [constructor |].
  destruct (skel_lookup _ _ _ _ He Hn) as (n' & Hn' & _ & Hp).
  assert (dir_parent n' = Some p) as [es' Hb']%dir_parent_Some by (rewrite Hp; apply dir_parent_Some; eauto).
  by econstructor.
Qed.
Lemma skel_entries (ns : gmap Z Node) d n p es es' : ns !! d = Some n -> body n = Directory p es ->
  skeleton <$> <[d := with_body (Directory p es') n]> ns = skeleton <$> ns.
Proof.
  intros Hn Hb. rewrite fmap_insert. apply insert_id. rewrite lookup_fmap, Hn. simpl. unfold skeleton, dir_parent. simpl. by rewrite Hb.
Qed.
Lemma skel_delete (ns ns' : gmap Z Node) d : skeleton <$> ns = skeleton <$> ns' -> skeleton <$> delete d ns = skeleton <$> delete d ns'.
Proof. intros He. by rewrite !fmap_delete, He. Qed.

Section Rename.
Context `{Arch} `{Endian}.
Context (s : Fs) (ps pt nd : Z) (sn tn : name) (n : Node).
Hypothesis Hwf : wf s.
Hypothesis Hsrc : entry_map (nodes s) !! (ps, sn) = Some nd.
Hypothesis Hpt : is_dir s pt.
Hypothesis Htn : valid_name tn.
Hypothesis Hother : entry_map (nodes s) !! (pt, tn) <> Some nd.
Hypothesis Hn : nodes s !! nd = Some n.
Abbreviation keeps_wf m := (wp m (fun s' _ => wf s')).

(** The two changes of entries, with the debt they leave: the node that lost its name, and the one whose name was
    replaced. *)
Definition replaced_debt (j : Z) : Z := if decide (entry_map (nodes s) !! (pt, tn) = Some j) then 1 else 0.
Definition moving (j : Z) : Prop := j = nd \/ entry_map (nodes s) !! (pt, tn) = Some j.
Definition moved_names : gmap (Z * name) Z := <[(pt, tn) := nd]> (delete (ps, sn) (entry_map (nodes s))).
Lemma wp_move (k : Entries -> FsM unit) (Q : Fs -> Result unit -> Prop) :
  (forall s2 before, wfd replaced_debt moving s2 -> before !! tn = entry_map (nodes s) !! (pt, tn) ->
     skeleton <$> nodes s = skeleton <$> nodes s2 -> entry_map (nodes s2) = moved_names ->
     (forall j, j <> ps -> j <> pt -> nodes s2 !! j = nodes s !! j) -> wp (k before) Q s2) ->
  wp (update_entries ps (delete sn) ;! let! before := reads (fun s => entries s pt) in
      update_entries pt (insert tn nd) ;! k before) Q s.
Proof.
  intros Hk. pose proof Hsrc as (m & q & es & Hm & Hb & Hes)%entry_map_Some.
  apply wp_bind. eapply wp_update_entries; [done | done |]. cbn beta iota. set (s1 := set_nodes _ s).
  assert (wfd (fun j => if j =? nd then 1 else 0) moving s1) as Hwf1.
  { eapply (wfd_entry_delete no_debt _ no_one); eauto; [by intros ? [] | by left]. }
  assert (entry_map (nodes s1) = delete (ps, sn) (entry_map (nodes s))) as Hem1 by by apply entry_map_delete.
  assert (entry_map (nodes s1) !! (pt, tn) = entry_map (nodes s) !! (pt, tn)) as Hlk.
  { rewrite Hem1, lookup_delete_ne; [done |]. intros E. apply Hother. by rewrite <- E. }
  assert (skeleton <$> nodes s = skeleton <$> nodes s1) as Hsk by (symmetry; by eapply skel_entries).
  destruct Hpt as (t & q' & fs' & Ht' & Hbt'). destruct (skel_lookup _ _ _ _ Hsk Ht') as (t1 & Ht & _ & Hp).
  assert (dir_parent t1 = Some q') as [fs Hbt]%dir_parent_Some by (rewrite Hp; apply dir_parent_Some; eauto).
  assert (fs !! tn = entry_map (nodes s) !! (pt, tn)) as Hfs.
  { rewrite <- Hlk, lookup_entry_map, Ht. simpl. unfold dir_entries. by rewrite Hbt. }
  wp_read. unfold entries, node. rewrite Ht. simpl. rewrite Hbt. cbn beta iota.
  apply wp_bind. eapply wp_update_entries; [done | done |]. cbn beta iota. set (s2 := set_nodes _ s1).
  apply Hk; [| done | | |].
  - destruct (entry_map (nodes s) !! (pt, tn)) as [r |] eqn:Hr.
    + (* the old name is taken away first *)
      assert (s2 = set_nodes (insert pt (with_body (Directory q' (<[tn := nd]> (delete tn fs))) (with_body (Directory q' (delete tn fs)) t1)))
                     (set_nodes (insert pt (with_body (Directory q' (delete tn fs)) t1)) s1)) as ->.
      { unfold s2, set_nodes. simpl. rewrite insert_insert_eq, insert_delete_eq. done. }
      eapply (wfd_entry_insert (fun j => (if j =? nd then 1 else 0) + if j =? r then 1 else 0)).
      * eapply (wfd_entry_delete (fun j => if j =? nd then 1 else 0) _ moving); eauto. unfold moving. auto.
      * simpl. apply lookup_insert_eq.
      * done.
      * apply lookup_delete_eq.
      * simpl. rewrite lookup_insert. case_decide; [eauto |]. rewrite lookup_insert. case_decide; [eauto |]. rewrite Hn. eauto.
      * done.
      * intros ->. by apply (wf_root_unnamed _ _ _ Hwf) in Hsrc.
      * intros j. unfold replaced_debt. rewrite Hr. destruct (Z.eqb_spec j r); case_decide; simplify_eq; lia.
    + eapply (wfd_entry_insert (fun j => if j =? nd then 1 else 0)); eauto.
      * simpl. rewrite lookup_insert. case_decide; [eauto |]. rewrite Hn. eauto.
      * intros ->. by apply (wf_root_unnamed _ _ _ Hwf) in Hsrc.
      * intros j. unfold replaced_debt. rewrite Hr. rewrite decide_False by done. lia.
  - rewrite Hsk. symmetry. by eapply skel_entries.
  - unfold moved_names. rewrite <- Hem1. by apply entry_map_insert.
  - intros j Hj1 Hj2. simpl. by rewrite !lookup_insert_ne.
Qed.

(** The state before the moved directory learns its new parent. *)
Definition ready (s4 : Fs) : Prop :=
  wfd no_debt (fun j => j = nd) s4 /\ entry_map (nodes s4) = moved_names /\ is_Some (nodes s4 !! ps) /\
  (exists n4, nodes s4 !! nd = Some n4 /\ links n4 = links n /\ dir_parent n4 = dir_parent n) /\
  (forall p, dir_parent n = Some p -> exists i, dist (delete nd (nodes s4)) i pt).
Hypothesis Hdirs : forall p, dir_parent n = Some p -> exists i, dist (delete nd (nodes s)) i pt.
Hypothesis Hempty : forall r nr p es, entry_map (nodes s) !! (pt, tn) = Some r -> nodes s !! r = Some nr ->
  body nr = Directory p es -> es = ∅.

Lemma wp_reparent s4 now (Q : Fs -> Result unit -> Prop) : ready s4 ->
  (forall s', wf s' -> entry_map (nodes s') = moved_names -> Q s' (Ok tt)) ->
  wp (update_node nd (fun n => with_times (accessed n) (modified n) now
                     (match body n with Directory _ es => with_body (Directory pt es) n | _ => n end)) ;!
      touch ps now ;! touch pt now) Q s4.
Proof.
  intros (Hwf4 & Hem & Hps & (n4 & Hn4 & Hl4 & Hp4) & Hdist) HQ. apply wp_bind, wp_update_node; [congruence |].
  intros m Hm. rewrite Hn4 in Hm. injection Hm as <-. set (n5 := with_times _ _ _ _). set (s5 := set_nodes _ s4).
  assert (entry_map (nodes s4) !! (pt, tn) = Some nd) as Hname by (rewrite Hem; apply lookup_insert_eq).
  assert (wf s5) as Hwf5.
  { apply (wfd_ext no_debt _ (fun j => j = nd /\ j <> nd) _ s5 s5 (reflexivity _)); [done | by intros ? [? ?] |].
    destruct (body n4) as [c | p es | l] eqn:Hb4.
    2: { assert (dir_parent n = Some p) as Hp by (rewrite <- Hp4; apply dir_parent_Some; eauto).
         pose proof Hp as [es' Hb]%dir_parent_Some. pose proof (named_not_root _ _ _ _ Hwf Hsrc) as Hr.
         destruct (wf_named _ _ _ Hwf nd n p es' Hn Hb Hr) as [Hone _]; [by intros [] |].
         eapply (wfd_reparent no_debt _ s4 nd n4 n5 p es pt tn); eauto. lia. }
    all: assert (tree_eq s4 s5) as <- by by apply (tree_eq_attr _ _ n4).
    all: apply wfd_unexempt; [done |]; intros m p es Hm Hb; congruence. }
  assert (entry_map (nodes s5) = moved_names) as Hem5.
  { rewrite <- Hem. apply (entry_map_same _ _ n4); [done |]. unfold dir_entries. subst n5. simpl. by destruct (body n4) eqn:E; simpl; rewrite ?E. }
  apply wp_bind, wp_touch_ok. { simpl. rewrite lookup_insert. case_decide; [eauto | done]. }
  intros s6 He6. rewrite He6 in Hwf5.
  apply wp_touch_ok.
  { rewrite (strip_entry_map _ _ (proj1 He6)) in Hem5. assert (entry_map (nodes s6) !! (pt, tn) = Some nd) as Hc by (rewrite Hem5; apply lookup_insert_eq).
    apply entry_map_Some in Hc as (? & ? & ? & ? & _). eauto. }
  intros s7 He7. apply HQ.
  - by rewrite <- He7.
  - by rewrite <- (strip_entry_map _ _ (proj1 He7)), <- (strip_entry_map _ _ (proj1 He6)).
Qed.

Lemma wp_replace s3 now (Q : Fs -> Result unit -> Prop) :
  wfd replaced_debt moving s3 -> skeleton <$> nodes s = skeleton <$> nodes s3 -> entry_map (nodes s3) = moved_names ->
  (forall j, j <> ps -> j <> pt -> nodes s3 !! j = nodes s !! j) ->
  (forall s4, ready s4 -> Q s4 (Ok tt)) ->
  wp (match entry_map (nodes s) !! (pt, tn) with Some r => unlinked r now true | None => ret tt end) Q s3.
Proof.
  intros Hwf3 Hsk Hname Hrest HQ. destruct (skel_lookup _ _ _ _ Hsk Hn) as (n3 & Hn3 & Hl3 & Hp3).
  assert (forall p, dir_parent n = Some p -> exists i, dist (delete nd (nodes s3)) i pt) as Hdist3.
  { intros p Hp. destruct (Hdirs p Hp) as [i Hi]. exists i. eapply skel_dist; [| done]. by apply skel_delete. }
  assert (is_Some (nodes s3 !! ps)) as Hps3.
  { pose proof Hsrc as (m & q & es & Hm & _)%entry_map_Some. destruct (skel_lookup _ _ _ _ Hsk Hm) as (? & ? & _). eauto. }
  unfold replaced_debt, moving in Hwf3. destruct (entry_map (nodes s) !! (pt, tn)) as [r |] eqn:Hr.
  2: { apply wp_ret, HQ. split_and!; [| done | done | eauto | done]. eapply wfd_ext; [reflexivity | | | done].
       - done.
       - by intros j [? | ?]. }
  assert (r <> nd) as Hne by congruence.
  destruct (wf_entry _ _ _ Hwf _ _ _ Hr) as [[nr Hnr] _]. pose proof (Hempty r nr) as He.
  pose proof (named_not_root _ _ _ _ Hwf Hr) as Hroot.
  assert (forall d nm c, entry_map (nodes s) !! (d, nm) = Some c -> r <> d) as Hleaf.
  { intros d nm c Hc ->. apply entry_map_Some in Hc as (m & q & es & Hm & Hb & Hc). rewrite Hnr in Hm. injection Hm as <-.
    rewrite (He _ _ eq_refl Hnr Hb), lookup_empty in Hc. done. }
  assert (nodes s3 !! r = Some nr) as Hr3 by (rewrite Hrest; [done | by eapply Hleaf | by eapply Hleaf]).
  assert (forall j m fs, j <> r -> nodes s3 !! j = Some m -> body m <> Directory r fs) as Hno.
  { intros j m fs Hj Hm Hb. destruct (skel_lookup _ _ _ _ (eq_sym Hsk) Hm) as (m0 & Hm0 & _ & Hp0).
    assert (dir_parent m0 = Some r) as [fs0 Hb0]%dir_parent_Some by (rewrite Hp0; apply dir_parent_Some; eauto).
    destruct (parent_is_directory _ _ _ _ _ _ _ Hwf Hm0 Hb0) as (n0 & q & es0 & Hn0 & Hbn0).
    rewrite Hnr in Hn0. injection Hn0 as <-. pose proof (He _ _ eq_refl Hnr Hbn0) as ->.
    eapply (no_children _ _ s r nr q j m0); eauto. }
  eapply (wp_unlinked _ _ s3); [exact Hwf3 | exact Hr3 | done | simpl; by rewrite decide_True | by right | |].
  - intros p es Hb. split_and!; [by eapply He | | done].
    apply (wf_named _ _ _ Hwf r nr p es Hnr Hb Hroot). by intros [].
  - intros s4 Hwf4 _ Hs4. apply HQ.
    assert (dir_entries nr = ∅) as Hde by (unfold dir_entries; destruct (body nr) eqn:Hb; [done | by eapply He | done]).
    split_and!.
    + eapply wfd_ext; [reflexivity | | | exact Hwf4]; simpl.
      * intros j. unfold no_debt. destruct (Z.eqb_spec j r); [done |]. rewrite decide_False; [done | congruence].
      * intros j [[-> | [= ->]] ?]; done.
    + destruct Hs4 as [[-> _] | (n' & -> & Hb' & _)].
      * by rewrite (entry_map_delete_node _ _ nr).
      * rewrite (entry_map_same _ _ nr); [done | done |]. unfold dir_entries. by rewrite Hb'.
    + pose proof (Hleaf _ _ _ Hsrc) as Hrps.
      destruct Hs4 as [[-> _] | (n' & -> & _)]; [by rewrite lookup_delete_ne | by rewrite lookup_insert_ne].
    + exists n3. split; [| done]. destruct Hs4 as [[-> _] | (n' & -> & _)]; [by rewrite lookup_delete_ne | by rewrite lookup_insert_ne].
    + intros p Hp. destruct (Hdist3 p Hp) as [i Hi]. exists i. destruct Hs4 as [[-> _] | (n' & -> & Hb' & _)].
      * rewrite delete_delete. apply dist_delete; [| by apply not_eq_sym; eapply Hleaf | done].
        intros j m fs Hj [_ Hm]%lookup_delete_Some. by eapply Hno.
      * rewrite delete_insert_ne by done. eapply dist_same_shape; [| | done].
        -- rewrite lookup_delete_ne; [done | congruence].
        -- rewrite Hb'. unfold same_shape. by destruct (body nr).
Qed.
End Rename.

(** The ancestors of the destination are what the new path is made of. *)
Lemma ancestors_avoid_dist fuel s a nd : ancestors_avoid fuel s a nd = Some (Ok tt) -> exists i, dist (delete nd (nodes s)) i a.
Proof.
  revert a. induction fuel as [| fuel IH]; intros a; simpl; (destruct (Z.eqb_spec a ROOT) as [-> |]; [exists O; constructor |]); [done |].
  destruct (Z.eqb_spec a nd); [done |]. destruct (parent s a) as [up |] eqn:Hp; [| done].
  intros [i Hi]%IH. apply parent_Ok in Hp as (m & es & Hm & Hb). exists (S i).
  econstructor; [done | by rewrite lookup_delete_ne | done | done].
Qed.
(** The fuel is enough: the loop of [rename] ends within the number of nodes. *)
Lemma ancestors_avoid_enough s k a nd fuel : dist (nodes s) k a -> (k <= fuel)%nat -> is_Some (ancestors_avoid fuel s a nd).
Proof.
  intros Hd. revert fuel. induction Hd as [| k a m p es Ha Hm Hb Hk IH]; intros fuel Hf.
  - destruct fuel; simpl; eauto.
  - destruct fuel as [| fuel]; [lia |]. simpl. destruct (a =? ROOT); [eauto |]. destruct (a =? nd); [eauto |].
    assert (parent s a = Ok p) as -> by (apply parent_Ok; eauto). apply IH. lia.
Qed.

Section RenameCall.
Context `{Arch} `{Endian}.
Lemma rename_checks_Ok s nd n target dir : wf s -> nodes s !! nd = Some n -> is_directory s nd = Ok dir ->
  rename_checks s nd dir target = Ok tt ->
  (forall p, dir_parent n = Some p -> exists i, dist (delete nd (nodes s)) i (p_parent target)) /\
  (forall r nr p es, p_node target = Some r -> nodes s !! r = Some nr -> body nr = Directory p es -> es = ∅).
Proof.
  intros Hwf Hn Hdir Hc. unfold rename_checks in Hc. apply result_bind_Ok in Hc as ([] & Hanc & Hc). split.
  - intros p [es Hb]%dir_parent_Some. destruct dir.
    + destruct (ancestors_avoid _ _ _ _) as [[[] |] |] eqn:Ha; [| done | done]. by eapply ancestors_avoid_dist.
    + apply is_directory_false in Hdir as (m & Hm & Hnot). rewrite Hn in Hm. injection Hm as <-. by apply Hnot in Hb.
  - intros r nr p es Hr Hnr Hb. rewrite Hr in Hc. apply result_bind_Ok in Hc as (rdir & Hrd & Hc).
    destruct rdir; [| apply is_directory_false in Hrd as (m & Hm & Hnot); rewrite Hnr in Hm; injection Hm as <-; by apply Hnot in Hb].
    destruct dir; [| done]. apply result_bind_Ok in Hc as (fs & Hfs & Hc). case_decide; [| done].
    apply entries_Ok in Hfs as (m & q & Hm & Hbm). congruence.
Qed.
(** What [rename] does once the source, the target and the checks are settled. *)
Lemma wp_rename_entry s source target nd dir now (Q : Fs -> Result unit -> Prop) :
  wf s -> place_ok s source -> place_ok s target -> p_node source = Some nd -> p_name source <> [] -> p_name target <> [] ->
  p_node target <> Some nd -> is_directory s nd = Ok dir -> rename_checks s nd dir target = Ok tt ->
  (forall s', wf s' -> entry_map (nodes s') = moved_names s (p_parent source) (p_parent target) nd (p_name source) (p_name target) ->
     Q s' (Ok tt)) ->
  wp (update_entries (p_parent source) (delete (p_name source)) ;!
      let! before := reads (fun s => entries s (p_parent target)) in
      update_entries (p_parent target) (insert (p_name target) nd) ;!
      let replaced := before !! p_name target in
      modify (fun s => set_cookie (if cookie s =? u32_max then 1 else cookie s + 1) s) ;!
      let! ck := reads (fun s => Ok (cookie s)) in
      let mark := if (dir : bool) then W_DIRECTORY else 0 in
      modify (report_entry (p_parent source) (p_name source) (Z.lor W_MOVED_FROM mark) ck) ;!
      modify (report_entry (p_parent target) (p_name target) (Z.lor W_MOVED_TO mark) ck) ;!
      (match replaced with Some r => unlinked r now true | None => ret tt end) ;!
      update_node nd (fun n => with_times (accessed n) (modified n) now
                         (match body n with Directory _ es => with_body (Directory (p_parent target) es) n | _ => n end)) ;!
      touch (p_parent source) now ;!
      touch (p_parent target) now) Q s.
Proof.
  intros Hwf Hs Ht Hnd Hz1 Hz2 Hsame Hdir Hchecks HQ.
  destruct (place_named _ _ _ Hs Hnd Hz1) as [Hsrc _].
  assert (p_node target = entry_map (nodes s) !! (p_parent target, p_name target) /\ valid_name (p_name target)) as [Htn Hv].
  { destruct Ht as [_ Ht]. destruct (p_name target); [done |]. by destruct Ht. }
  destruct (wf_entry _ _ _ Hwf _ _ _ Hsrc) as [[n Hn] _].
  destruct (rename_checks_Ok s nd n target dir Hwf Hn Hdir Hchecks) as [Hanc Hemp].
  rewrite Htn in Hsame, Hemp.
  eapply (wp_move s _ _ nd _ _ n Hwf Hsrc (proj1 Ht) Hv Hsame Hn).
  intros s2 before Hwf2 Hbefore Hsk Hname Hrest.
  wp_mod. wp_read. cbn beta iota zeta. wp_mod. wp_mod. rewrite Hbefore.
  match goal with |- wp _ _ ?x => set (s3 := x) end.
  assert (core_eq s2 s3) as Hc.
  { unfold s3. etransitivity; [| apply report_entry_core]. etransitivity; [| apply report_entry_core]. done. }
  pose proof Hc as (Hns & _). apply wp_bind. rewrite (core_tree_eq _ _ Hc) in Hwf2. rewrite <- Hns in Hsk, Hname.
  eapply (wp_replace s _ _ nd _ _ n Hwf Hsrc Hsame Hn Hanc Hemp); try done.
  - intros j Hj1 Hj2. rewrite Hns. by apply Hrest.
  - intros s4 Hready. eapply (wp_reparent s _ _ nd (p_name source)); eauto.
Qed.
Lemma keeps_wf_rename from to now s : wf s -> wp (rename from to now) (fun s' _ => wf s') s.
Proof.
  intros Hwf. unfold rename. apply keeps_wf_read; [done |]. intros source Hs%(walk_places _ _ _ Hwf).
  apply keeps_wf_read; [done |]. intros nd Hnd%ok_or_Ok. apply keeps_wf_read; [done |].
  intros target Ht%(walk_places _ _ _ Hwf). destruct (bool_decide (p_name source = []) || _) eqn:Hz; [by apply wp_fail |].
  apply orb_false_iff in Hz as [Hz1%bool_decide_eq_false Hz2%bool_decide_eq_false].
  case_bool_decide as Hsame; [by apply wp_ret |].
  apply keeps_wf_read; [done |]. intros dir Hdir. apply keeps_wf_read; [done |]. intros [] Hchecks.
  by eapply wp_rename_entry.
Qed.
End RenameCall.

(** ** All calls *)
Inductive Call :=
| COpen (path : list Z) (flags md clock : Z) | CClose (file : Z)
| CRead (file offset capacity : Z) | CWrite (file offset : Z) (d : list Z) (now : Z) | CSetSize (file n now : Z) | CFlush (file : Z)
| CFileStatus (file : Z) | CPathStatus (path : list Z) (follow : bool)
| CRemove (path : list Z) (now : Z) | CRename (from to : list Z) (now : Z)
| CCreateDirectory (path : list Z) (md now : Z) | CRemoveDirectory (path : list Z) (now : Z)
| COpenDirectory (path : list Z) | CReadDirectory (h capacity : Z) | CCloseDirectory (h : Z)
| CCurrentDirectory (capacity fill : Z) | CSetCurrentDirectory (path : list Z)
| CSetMode (path : list Z) (md now : Z) | CSetFileMode (file md now : Z)
| CSetTimes (path : list Z) (follow : bool) (a m : option Z) (now : Z) | CSetFileTimes (file : Z) (a m : option Z) (now : Z)
| CLink (old new : list Z) (now : Z) | CSymlink (target new : list Z) (now : Z)
| CReadLink (path : list Z) (capacity : Z) | CRealPath (path : list Z) (capacity fill : Z)
| CLockAttempt (file md : Z) | CLockRange (file offset length md : Z)
| CWatchOpen | CWatchClose (w : Z) | CWatchAdd (w : Z) (path : list Z) (events : Z) | CWatchRemove (w watch : Z) | CWatchLook (w : Z)
| CMap (file offset length access : Z) (shared : bool) | CUnmap (address length : Z) | CSync (address length : Z)
| CVolumeEntry (index capacity : Z) | CVolumeStatus (path : list Z) | CSetCapacity (n : Z) | CUsedBytes.

(** Offsets and sizes are unsigned. *)
Definition call_ok (c : Call) : Prop :=
  match c with CWrite _ o _ _ => 0 <= o | CSetSize _ n _ => 0 <= n | _ => True end.

Lemma keeps_wf_reads `{Arch} {A} (f : Fs -> Result A) s : wf s -> wp (reads f) (fun s' _ => wf s') s.
Proof. done. Qed.
Create HintDb keeps discriminated.
#[export] Hint Resolve keeps_wf_open keeps_wf_close keeps_wf_read_at keeps_wf_write_at keeps_wf_set_file_size keeps_wf_remove
  keeps_wf_rename keeps_wf_create_directory keeps_wf_remove_directory keeps_wf_open_directory keeps_wf_read_directory
  keeps_wf_close_directory keeps_wf_set_current_directory keeps_wf_set_mode_node keeps_wf_set_times_node keeps_wf_link
  keeps_wf_symlink keeps_wf_lock_attempt keeps_wf_lock_range keeps_wf_watch_open keeps_wf_watch_close keeps_wf_watch_add
  keeps_wf_watch_remove keeps_wf_watch_look keeps_wf_map keeps_wf_unmap : keeps.

Section Run.
Context `{Arch} `{Endian} `{BoxAllocator}.
(** The state a call leaves. *)
Definition after {A} (m : FsM A) (s : Fs) : Fs := (m s).1.
Definition run (c : Call) : Fs -> Fs :=
  match c with
  | COpen p f m t => after (open p f m t) | CClose f => after (close f)
  | CRead f o n => after (read_at f o n) | CWrite f o d t => after (write_at f o d t)
  | CSetSize f n t => after (set_file_size f n t) | CFlush f => after (flush f)
  | CFileStatus f => after (file_status f) | CPathStatus p fl => after (path_status p fl)
  | CRemove p t => after (remove p t) | CRename a b t => after (rename a b t)
  | CCreateDirectory p m t => after (create_directory p m t) | CRemoveDirectory p t => after (remove_directory p t)
  | COpenDirectory p => after (open_directory p) | CReadDirectory h n => after (read_directory h n)
  | CCloseDirectory h => after (close_directory h)
  | CCurrentDirectory n f => after (current_directory n f) | CSetCurrentDirectory p => after (set_current_directory p)
  | CSetMode p m t => after (set_mode p m t) | CSetFileMode f m t => after (set_file_mode f m t)
  | CSetTimes p fl a m t => after (set_times p fl a m t) | CSetFileTimes f a m t => after (set_file_times f a m t)
  | CLink a b t => after (link a b t) | CSymlink a b t => after (symlink a b t)
  | CReadLink p n => after (read_link p n) | CRealPath p n f => after (real_path p n f)
  | CLockAttempt f m => after (lock_attempt f m) | CLockRange f o n m => after (lock_range f o n m)
  | CWatchOpen => after watch_open | CWatchClose w => after (watch_close w)
  | CWatchAdd w p e => after (watch_add w p e) | CWatchRemove w i => after (watch_remove w i) | CWatchLook w => after (watch_look w)
  | CMap f o n a sh => after (map f o n a sh) | CUnmap a n => after (unmap a n) | CSync a n => after (sync a n)
  | CVolumeEntry i n => after (volume_entry i n) | CVolumeStatus p => after (volume_status p)
  | CSetCapacity n => after (set_capacity n) | CUsedBytes => after used_bytes
  end.


Lemma run_wf c s : wf s -> room s -> call_ok c -> wf (run c s).
Proof.
  intros Hwf Hroom Hc. destruct c; simpl in Hc; unfold run, after;
    lazymatch goal with |- wf (fst (?m s)) => change (wp m (fun s' _ => wf s') s) end;
    first [ solve [auto with keeps]
          | solve [apply keeps_wf_read; [done |]; intros; auto using keeps_wf_reads with keeps]
          | idtac ].
  - apply keeps_wf_read; [done |]. intros nd _. apply keeps_wf_read; [done |]. intros n _.
    destruct (body n); [by apply wp_fail .. | by apply wp_ret].
  - apply keeps_wf_read; [done |]. intros pl _. apply keeps_wf_read; [done |]. by intros nd _.
  - unfold volume_entry. destruct (negb _); [by apply wp_fail | by apply wp_ret].
  - by eapply wf_core; [| exact Hwf].
Qed.

(** The states of the file system: the initial one and what calls lead to, while no counter is at its end. *)
Inductive reachable (g : answers) : Fs -> Prop :=
| reach_initial : reachable g (initial g)
| reach_call s c : reachable g s -> room s -> call_ok c -> reachable g (run c s).
End Run.

Lemma initial_wf `{Arch} g : wf (initial g).
Proof.
  assert (entry_map (nodes (initial g)) = ∅) as Hem.
  { simpl. unfold entry_map. rewrite map_fmap_singleton. change (dir_entries root_node) with (∅ : Entries). reflexivity. }
  assert (forall j m, nodes (initial g) !! j = Some m -> j = ROOT /\ m = root_node) as Hl.
  { intros j m. simpl. rewrite lookup_singleton_Some. naive_solver. }
  constructor; rewrite ?Hem.
  - exists root_node, ∅. simpl. by rewrite lookup_singleton_eq.
  - intros j m [-> _]%Hl. done.
  - done.
  - by intros ? ? ? ?%lookup_empty_Some.
  - intros j m [-> ->]%Hl. unfold link_count. rewrite Hem. reflexivity.
  - by intros j m p es [-> _]%Hl _ ?.
  - intros j m p es [-> _]%Hl _. exists O. constructor.
  - intros j m [-> ->]%Hl. split; [left; done |]. split_and!; try done.
    + intros o1 o2 w x e1 e2 (l & Hin & _). by apply elem_of_nil in Hin.
    + intros l Hin. by apply elem_of_nil in Hin.
  - reflexivity.
  - simpl. by intros h v ?%lookup_empty_Some.
  - intros d nm. by rewrite lookup_empty.
  - split; [done |]. intros n. simpl. rewrite lookup_singleton_eq. intros [= <-]. simpl. eauto.
Qed.

(** ** Concrete runs *)
Section Concrete.
Context `{Arch} `{Endian} `{BoxAllocator}.
Lemma reach_wf g s : reachable g s -> wf s.
Proof. induction 1; [apply initial_wf | by apply run_wf]. Qed.
Definition roomb (s : Fs) : bool :=
  (next_id s <? u64_max) &&
  forallb (fun p : Z * Node => (links p.2 <? usize_max) && (opens p.2 <? usize_max) && (maps p.2 <? usize_max)) (map_to_list (nodes s)).
Lemma roomb_room s : roomb s = true -> room s.
Proof.
  intros [Hi Hc]%andb_true_iff. constructor; [lia |]. intros id n Hn.
  rewrite forallb_forall in Hc. specialize (Hc (id, n)). simpl in Hc.
  assert (In (id, n) (map_to_list (nodes s))) as Hin by by apply list_elem_of_In, elem_of_map_to_list.
  specialize (Hc Hin). lia.
Qed.
Fixpoint run_all (cs : list Call) (s : Fs) : option Fs :=
  match cs with [] => Some s | c :: cs => if roomb s then run_all cs (run c s) else None end.
Lemma run_all_reachable g cs s s' : reachable g s -> Forall call_ok cs -> run_all cs s = Some s' -> reachable g s'.
Proof.
  intros Hr Hok. revert s Hr. induction Hok as [| c cs Hc Hcs IH]; intros s Hr; simpl; [by intros [= <-] |].
  destruct (roomb s) eqn:Hb; [| done]. apply IH. constructor; [done | by apply roomb_room | done].
Qed.
End Concrete.
