(* ===== verification/Spell.v ===== *)
(** * Spell.v: from a directory to its path and back

    [State::climb] and [State::spell] write the absolute path of a node; [State::walk] resolves it.  The text is the
    names from the root, each after a slash, and resolving it leads back to the node. *)
From S2P Require Import Prelude Port Content Queue Locks Tree MemFs Invariant Walk.
Local Open Scope Z_scope.
Local Open Scope pal_scope.

(** The absolute path whose names are [parts], the last one first. *)
Definition join (parts : list name) : list Z := concat (cons SLASH <$> reverse parts).
Definition spelled (parts : list name) : list Z := match parts with [] => [SLASH] | _ => join parts end.
Lemma join_cons part parts : join (part :: parts) = join parts ++ SLASH :: part.
Proof. unfold join. rewrite reverse_cons, fmap_app, concat_app. simpl. by rewrite app_nil_r. Qed.
Lemma lenZ_join parts : lenZ (join parts) = foldr (fun part acc => 1 + lenZ part + acc) 0 parts.
Proof.
  induction parts as [| part parts IH]; [done |]. rewrite join_cons, lenZ_app, lenZ_cons, IH. simpl. lia.
Qed.

(** ** What is written *)
Lemma lenZ_splice at_ d buf : 0 <= at_ -> at_ + lenZ d <= lenZ buf -> lenZ (splice at_ d buf) = lenZ buf.
Proof. intros. unfold splice. pose proof (lenZ_nonneg d). len. Qed.
Lemma dropZ_splice at_ d buf : 0 <= at_ -> at_ + lenZ d <= lenZ buf ->
  dropZ at_ (splice at_ d buf) = d ++ dropZ (at_ + lenZ d) buf.
Proof. intros. unfold splice. pose proof (lenZ_nonneg d). list_pointwise. Qed.
Lemma splice_splice at_ b d buf : 0 <= at_ -> at_ + 1 + lenZ d <= lenZ buf ->
  splice (at_ + 1) d (splice at_ [b] buf) = splice at_ (b :: d) buf.
Proof.
  intros Ha Hb. pose proof (lenZ_nonneg d). unfold splice, takeZ, dropZ, lenZ in *. simpl.
  assert (length (take (Z.to_nat at_) buf) = Z.to_nat at_) as Hl by (rewrite length_take; lia).
  rewrite take_app_ge, drop_app_ge by lia. rewrite Hl.
  replace (Z.to_nat (at_ + 1) - Z.to_nat at_)%nat with 1%nat by lia. simpl.
  replace (Z.to_nat (at_ + 1 + Z.of_nat (length d)) - Z.to_nat at_)%nat with (S (length d)) by lia. simpl.
  rewrite drop_drop, take_0, <- app_assoc. simpl. do 4 f_equal. lia.
Qed.
Lemma spell_parts_spec parts buf : lenZ (join parts) <= lenZ buf ->
  spell_parts parts (lenZ (join parts)) buf = join parts ++ dropZ (lenZ (join parts)) buf.
Proof.
  revert buf. induction parts as [| part parts IH]; intros buf Hb; [done |]. simpl.
  rewrite join_cons in *. rewrite !lenZ_app, !lenZ_cons in *. pose proof (lenZ_nonneg (join parts)). pose proof (lenZ_nonneg part).
  replace (lenZ (join parts) + (1 + lenZ part) - (lenZ part + 1)) with (lenZ (join parts)) by lia.
  rewrite splice_splice by lia. rewrite IH by (rewrite lenZ_splice; rewrite ?lenZ_cons; lia).
  rewrite dropZ_splice by (rewrite ?lenZ_cons; lia). rewrite lenZ_cons, <- app_assoc. done.
Qed.
Lemma spell_text parts fill needed : needed = lenZ (spelled parts) + 1 ->
  spell_parts parts (needed - 1) (splice (needed - 1) [0] (splice 0 [SLASH] (replicate (Z.to_nat needed) fill))) = spelled parts ++ [0].
Proof.
  intros ->. rewrite Z.add_simpl_r. destruct parts as [| part parts]; [reflexivity |]. cbn [spelled].
  pose proof (lenZ_join (part :: parts)) as Hl. simpl in Hl.
  assert (1 <= lenZ (join (part :: parts))) as H1.
  { rewrite Hl, <- lenZ_join. pose proof (lenZ_nonneg part). pose proof (lenZ_nonneg (join parts)). lia. }
  set (n := lenZ (join (part :: parts))) in *.
  assert (lenZ (replicate (Z.to_nat (n + 1)) fill) = n + 1) as Hr by (unfold lenZ; rewrite length_replicate; lia).
  assert (lenZ [0] = 1 /\ lenZ [SLASH] = 1) as [Hz Hs] by done.
  assert (lenZ (splice 0 [SLASH] (replicate (Z.to_nat (n + 1)) fill)) = n + 1) as Hl1 by (rewrite lenZ_splice; lia).
  unfold n at 1. rewrite spell_parts_spec; fold n; [| rewrite lenZ_splice; lia]. f_equal.
  rewrite dropZ_splice by lia. rewrite Hz. replace (dropZ (n + 1) _) with (@nil Z); [done |].
  symmetry. unfold dropZ. apply drop_ge. unfold lenZ in Hl1. lia.
Qed.

(** ** The names from a directory up to the root *)
Inductive path_to (s : Fs) : list name -> Z -> Prop :=
| path_root : path_to s [] ROOT
| path_step nm names above d : is_dir s d -> entry_map (nodes s) !! (above, nm) = Some d -> path_to s names above ->
    path_to s (nm :: names) d.

Lemma entries_list_elem es nm c : (nm, c) ∈ entries_list es <-> es !! nm = Some c.
Proof. unfold entries_list. rewrite merge_sort_Permutation. apply elem_of_map_to_list. Qed.
Lemma find_own es d nm : es !! nm = Some d ->
  exists own, List.find (fun p => p.2 =? d) (entries_list es) = Some own /\ es !! own.1 = Some d.
Proof.
  intros He. apply entries_list_elem, list_elem_of_In in He.
  destruct (List.find (fun p => p.2 =? d) (entries_list es)) as [own |] eqn:Hf.
  - exists own. split; [done |]. apply find_some in Hf as [Hin Hd%Z.eqb_eq]. apply list_elem_of_In in Hin.
    destruct own as [nm' c]. simpl in *. subst. by apply entries_list_elem.
  - exfalso. pose proof (find_none _ _ Hf _ He) as Hn. simpl in Hn. by rewrite Z.eqb_refl in Hn.
Qed.

Section Climb.
Context `{Arch} (s : Fs).
Hypothesis Hwf : wf s.
Lemma climb_loop_path k d fuel : dist (nodes s) k d -> (k <= fuel)%nat ->
  exists names, climb_loop fuel s d = Some (Ok names) /\ path_to s names d.
Proof.
  intros Hd. revert fuel. induction Hd as [| k d n p es Hr Hn Hb Hk IH]; intros fuel Hf.
  - exists []. split; [by destruct fuel | constructor].
  - destruct fuel as [| fuel]; [lia |]. simpl. apply Z.eqb_neq in Hr as Hr'. rewrite Hr'.
    assert (parent s d = Ok p) as -> by (apply parent_Ok; eauto). simpl.
    destruct (wf_named _ _ _ Hwf d n p es Hn Hb Hr) as [_ [nm Hnm]]; [by intros [] |].
    apply entry_map_Some in Hnm as (m & q & fs & Hm & Hbm & Hfs).
    assert (entries s p = Ok fs) as -> by (apply entries_Ok; eauto). simpl.
    destruct (find_own fs d nm Hfs) as (own & -> & Hown). simpl.
    destruct (IH fuel) as (names & -> & Hp); [lia |]. exists (own.1 :: names). split; [done |].
    econstructor; [unfold is_dir; eauto | apply entry_map_Some; eauto 10 | done].
Qed.
Lemma climb_path d nm : is_dir s d -> exists names, climb s d nm = Ok (match nm with [] => names | _ => nm :: names end) /\ path_to s names d.
Proof.
  intros (n & p & es & Hn & Hb). destruct (wf_reach _ _ _ Hwf _ _ _ _ Hn Hb) as [k Hk].
  destruct (wf_root _ _ _ Hwf) as (r & res & Hr & _).
  pose proof (dist_bound _ _ _ ltac:(eauto) Hk) as Hlt.
  destruct (climb_loop_path k d (size (nodes s)) Hk) as (names & Hc & Hp); [lia |].
  exists names. unfold climb. rewrite Hc. done.
Qed.
Lemma spell_path d nm capacity fill : is_dir s d ->
  exists names, path_to s names d /\
    let parts := match nm with [] => names | _ => nm :: names end in
    let text := spelled parts in
    spell s d nm capacity fill =
      if MAX_NAME <? lenZ text then Err ENameTooLong
      else Ok (lenZ text + 1, if lenZ text + 1 <=? capacity then Some (text ++ [0]) else None).
Proof.
  intros Hd. destruct (climb_path d nm Hd) as (names & Hc & Hp). exists names. split; [done |]. cbn zeta.
  unfold spell. rewrite Hc. simpl. set (parts := match nm with [] => names | _ => nm :: names end).
  assert (Z.max (foldr (fun part acc => 1 + lenZ part + acc) 0 parts) 1 = lenZ (spelled parts)) as Hlen.
  { rewrite <- lenZ_join. destruct parts as [| part parts']; [done |]. cbn [spelled]. rewrite join_cons. len.
    pose proof (lenZ_nonneg (join parts')). pose proof (lenZ_nonneg part). lia. }
  rewrite Hlen. replace (MAX_NAME + 1 <? lenZ (spelled parts) + 1) with (MAX_NAME <? lenZ (spelled parts)) by lia.
  destruct (_ <? _); [done |]. destruct (_ <=? _); [| done]. rewrite spell_text by done. done.
Qed.
End Climb.

(** ** Resolving a spelled path *)
Lemma position_app_true {A} (f : A -> bool) l x rest : (forall y, y ∈ l -> f y = false) -> f x = true -> position f (l ++ x :: rest) = length l.
Proof.
  intros Hl Hx. induction l as [| y l IH]; simpl; [by rewrite Hx |]. rewrite Hl by set_solver. f_equal. apply IH. set_solver.
Qed.
Lemma position_all_false {A} (f : A -> bool) l : (forall y, y ∈ l -> f y = false) -> position f l = length l.
Proof. intros Hl. induction l as [| y l IH]; simpl; [done |]. rewrite Hl by set_solver. f_equal. apply IH. set_solver. Qed.
(** The path downwards: names from the root, the first one first. *)
Definition down (names : list name) : list Z := concat (cons SLASH <$> names).
Lemma join_down parts : join parts = down (reverse parts).
Proof. done. Qed.
Lemma pending_next_down nm names sl : valid_name nm ->
  pending_next [down (nm :: names)] sl = (Some nm, [down names], false).
Proof.
  intros (Hne & _ & Hs & _). change (down (nm :: names)) with (SLASH :: nm ++ down names).
  assert (down names = [] \/ exists rest, down names = SLASH :: rest) as Hd by (destruct names; [by left | right; eexists; reflexivity]).
  generalize dependent (down names). intros rest Hd. destruct nm as [| b nm]; [done |]. simpl.
  assert (b <> SLASH) as Hb by set_solver. apply Z.eqb_neq in Hb. rewrite Hb. simpl. rewrite Hb.
  assert (position (fun b => b =? SLASH) (nm ++ rest) = length nm) as ->.
  { assert (forall y, y ∈ nm -> (y =? SLASH) = false) as Hno by (intros y Hy; apply Z.eqb_neq; set_solver).
    destruct Hd as [-> | [rest' ->]]; [rewrite app_nil_r; by apply position_all_false | by apply position_app_true]. }
  simpl. rewrite take_app_length, drop_app_length. done.
Qed.

(** From directory [x], the names lead to [d]; every one but the last is a directory. *)
Inductive descends (s : Fs) : Z -> list name -> Z -> Prop :=
| desc_nil x : descends s x [] x
| desc_cons x nm names y d : is_dir s x -> entry_map (nodes s) !! (x, nm) = Some y ->
    (forall n t, nodes s !! y = Some n -> body n <> Link t) -> descends s y names d -> descends s x (nm :: names) d.
Lemma descends_snoc s x names y nm d : descends s x names y -> is_dir s y -> entry_map (nodes s) !! (y, nm) = Some d ->
  (forall n t, nodes s !! d = Some n -> body n <> Link t) -> descends s x (names ++ [nm]) d.
Proof. induction 1; intros; simpl; econstructor; eauto; constructor. Qed.
Lemma path_to_dir s names d : is_dir s ROOT -> path_to s names d -> is_dir s d.
Proof. by destruct 2. Qed.
Lemma path_to_descends s names d : is_dir s ROOT -> path_to s names d -> descends s ROOT (reverse names) d.
Proof.
  intros Hroot. induction 1 as [| nm names above d Hd He Hp IH]; [constructor |].
  rewrite reverse_cons. eapply descends_snoc; [exact IH | by eapply path_to_dir | done |].
  intros n t Hn. destruct Hd as (n' & p & es & Hn' & Hb). congruence.
Qed.

Definition stands_at (par : Z) (found : Found) (x : Z) : Prop := match found with Some (_, node) => node = Some x | None => par = x end.
Section Resolve.
Context `{Arch} (s : Fs).
Hypothesis Hwf : wf s.
Lemma walk_component_down nm par p found x y : stands_at par found x -> is_dir s x -> entry_map (nodes s) !! (x, nm) = Some y ->
  (forall n t, nodes s !! y = Some n -> body n <> Link t) ->
  walk_component s Follow nm par p found = Ok (x, p, Some (nm, Some y)).
Proof.
  intros Hat (n & q & es & Hn & Hb) He Hnl. destruct (wf_entry _ _ _ Hwf _ _ _ He) as [[m Hm] (Hne & Hlen & _ & Hd1 & Hd2)].
  unfold walk_component.
  assert (match found with Some (_, node) => ok_or node ENotFound | None => Ok par end = Ok x) as ->.
  { unfold stands_at in Hat. destruct found as [[? ?] |]; [by rewrite Hat | by rewrite Hat]. }
  simpl. rewrite !decide_False by done. destruct (Z.ltb_spec MAX_ENTRY_NAME (lenZ nm)); [lia |].
  assert (entries s x = Ok es) as -> by (apply entries_Ok; eauto). simpl.
  assert (es !! nm = Some y) as ->.
  { rewrite lookup_entry_map, Hn in He. simpl in He. unfold dir_entries in He. by rewrite Hb in He. }
  simpl. rewrite Hm. destruct (body m) eqn:Hbm; [done | done | by eapply Hnl in Hbm].
Qed.
Lemma walk_loop_down fuel names par e sl found x d : (length names < fuel)%nat -> stands_at par found x -> descends s x names d ->
  exists par' sl' found', walk_loop fuel s Follow par (mkPending [down names] e sl) found = Some (Ok (par', sl', found')) /\
    stands_at par' found' d /\ (sl' = true -> sl = true \/ names = []).
Proof.
  revert fuel par sl found x. induction names as [| nm names IH]; intros fuel par sl found x Hf Hat Hdesc.
  - destruct fuel; [simpl in Hf; lia |]. inversion Hdesc; subst. exists par, sl, found. simpl. rewrite orb_false_r. auto.
  - destruct fuel as [| fuel]; [lia |]. inversion Hdesc as [| ? ? ? y ? Hx He Hnl Hrest]; subst.
    cbn [walk_loop texts slash entered]. destruct (wf_entry _ _ _ Hwf _ _ _ He) as [_ Hv].
    rewrite (pending_next_down nm names sl Hv). rewrite (walk_component_down nm par _ found x y Hat Hx He Hnl).
    destruct (IH fuel x false (Some (nm, Some y)) y) as (par' & sl' & found' & Hw & Hat' & Hsl); [simpl in Hf; lia | done | done |].
    exists par', sl', found'. split; [done |]. split; [done |]. intros Ht. destruct (Hsl Ht) as [| ->]; [done |].
    subst. destruct fuel; [simpl in Hf; lia |]. simpl in Hw. congruence.
Qed.
Lemma walk_spelled parts d : descends s ROOT (reverse parts) d ->
  exists place, walk s (spelled parts) Follow = Ok place /\ p_node place = Some d.
Proof.
  intros Hdesc. destruct parts as [| part parts].
  { inversion Hdesc; subst. exists (mkPlace ROOT [] (Some ROOT) true). split; reflexivity. }
  cbn [spelled]. rewrite join_down. set (names := reverse (part :: parts)) in *.
  assert (names <> []) as Hne by (unfold names; rewrite reverse_cons; by destruct (reverse parts)).
  assert (starts_with_slash (down names) = true) as Hs by by destruct names.
  unfold walk. rewrite Hs. cbn [result_bind].
  assert (length names < walk_fuel s (down names))%nat as Hf.
  { unfold walk_fuel, down. apply Nat.lt_succ_r. transitivity (length (concat (cons SLASH <$> names))); [| lia].
    clear. induction names as [| nm names IH]; csimpl; [simpl; lia |]. rewrite length_app. lia. }
  destruct (walk_loop_down _ names ROOT 0 false None ROOT d Hf eq_refl Hdesc) as (par & sl & found & -> & Hat & Hsl).
  simpl. assert (sl = false) as -> by (destruct sl; [destruct (Hsl eq_refl); done | done]).
  unfold stands_at in Hat. destruct found as [[nm node] |]; subst; eexists; split; reflexivity.
Qed.
End Resolve.

(** ** A walk that follows the last link does not end at one *)
Definition not_at_link (s : Fs) (found : Found) : Prop :=
  match found with Some (_, Some id) => forall n t, nodes s !! id = Some n -> body n <> Link t | _ => True end.
Lemma walk_component_follow s c par p found par' p' found' :
  walk_component s Follow c par p found = Ok (par', p', found') -> not_at_link s found'.
Proof.
  unfold walk_component. intros Hw. apply result_bind_Ok in Hw as (par1 & _ & Hw).
  repeat case_decide; [run_ok; done | run_ok; done |]. destruct (_ <? _); [done |].
  apply result_bind_Ok in Hw as (es & _ & Hw). destruct (es !! c) as [id |] eqn:Hid; [| simpl in Hw; by run_ok]. simpl in Hw.
  destruct (nodes s !! id) as [n |] eqn:Hn.
  - destruct (body n) eqn:Hb; run_ok; simpl; try done; intros m t Hm; congruence.
  - run_ok. simpl. intros m t Hm. congruence.
Qed.
Lemma walk_loop_follow fuel s par p found par' sl' found' : not_at_link s found ->
  walk_loop fuel s Follow par p found = Some (Ok (par', sl', found')) -> not_at_link s found'.
Proof.
  revert par p found. induction fuel as [| fuel IH]; intros par p found Hf; simpl; [done |].
  destruct (pending_next _ _) as [[[c |] ts] sl]; [| by intros [= _ _ <-]].
  destruct (walk_component _ _ _ _ _ _) as [[[par1 p1] found1] |] eqn:Hw; [| done].
  apply walk_component_follow in Hw. by apply IH.
Qed.
Lemma walk_follow_not_link s path place nd n t : walk s path Follow = Ok place -> p_name place <> [] -> p_node place = Some nd ->
  nodes s !! nd = Some n -> body n <> Link t.
Proof.
  unfold walk. intros Hw Hne Hnd Hn. apply result_bind_Ok in Hw as (par & _ & Hw).
  destruct (walk_loop _ _ _ _ _ _) as [r |] eqn:Hl; [| done]. apply result_bind_Ok in Hw as ([[par' sl'] found'] & -> & Hw).
  apply walk_loop_follow in Hl; [| done]. unfold walk_result in Hw. destruct found' as [[nm [id |]] |].
  - apply result_bind_Ok in Hw as (refuse & _ & Hw). destruct refuse; [done |]. injection Hw as <-. simpl in Hnd. injection Hnd as ->. by apply Hl.
  - injection Hw as <-. done.
  - injection Hw as <-. done.
Qed.
