(* ===== verification/FileSystem.v ===== *)
(** * FileSystem.v: what the in-memory file system promises

    The properties of [MemFs] as a whole.  The abstract view of the tree is the map of names, [entry_map]: which node
    a name in a directory stands for.  Every call that changes names is stated against it, with all the ways the call
    can fail; a call that fails leaves the state as it was. *)
From S2P Require Import Prelude Port Content Queue Locks Tree MemFs Invariant Walk Preserve Calls Spell.
Local Open Scope Z_scope.
Local Open Scope pal_scope.

Lemma wp_run {A} (m : FsM A) a (P : Fs -> Prop) s : wp m (fun s' r => r = Ok a /\ P s') s -> exists s', m s = (s', Ok a) /\ P s'.
Proof. unfold wp. destruct (m s) as [s' r]. simpl. intros [-> ?]. eauto. Qed.

Lemma place_node `{Arch} s place nd : wf s -> place_ok s place -> p_node place = Some nd -> exists n, nodes s !! nd = Some n.
Proof.
  intros Hwf [(m & q & fs & Hm & _) Hpl] Hnd. destruct (p_name place); [rewrite Hnd in Hpl; injection Hpl as ->; eauto |].
  destruct Hpl as [_ Hpl]. rewrite Hnd in Hpl. symmetry in Hpl. destruct (wf_entry _ _ _ Hwf _ _ _ Hpl) as [[? ?] _]. eauto.
Qed.
Lemma is_directory_total s nd n : nodes s !! nd = Some n -> exists b, is_directory s nd = Ok b.
Proof. intros Hn. unfold is_directory, kind, node. rewrite Hn. simpl. eauto. Qed.
Lemma dir_place_name s place nd n : place_ok s place -> p_node place = Some nd -> nodes s !! nd = Some n ->
  (forall p es, body n <> Directory p es) -> p_name place <> [].
Proof.
  intros [(m & p & es & Hm & Hb) Hp] Hnd Hn Hnot Hz. rewrite Hz, Hnd in Hp. injection Hp as ->.
  rewrite Hn in Hm. injection Hm as <-. by apply Hnot in Hb.
Qed.

(** An allocator for concrete runs: above every box in use. *)
Definition highest (m : gmap Z Handle) : Z := map_fold (fun k _ acc => Z.max (Z.abs k) acc) 0 m.
Lemma highest_ge m : 0 <= highest m /\ forall k v, m !! k = Some v -> Z.abs k <= highest m.
Proof.
  unfold highest. induction m as [| i x m Hi [IH0 IH]] using map_ind; [split; [done |]; intros k v; by rewrite lookup_empty |].
  rewrite map_fold_insert_L; [| intros; lia | done]. split; [lia |]. intros k v. rewrite lookup_insert.
  case_decide; [subst; lia |]. intros Hk%IH. lia.
Qed.
Lemma highest_fresh m : m !! (8 * (1 + highest m)) = None.
Proof.
  destruct (highest_ge m) as [H0 Hk]. destruct (m !! (8 * (1 + highest m))) eqn:E; [| done]. apply Hk in E. lia.
Qed.
Lemma highest_valid m : 8 * (1 + highest m) <> 0 /\ (8 * (1 + highest m)) mod 8 = 0.
Proof. destruct (highest_ge m) as [H0 _]. split; [lia |]. rewrite Z.mul_comm. apply Z_mod_mult. Qed.
Definition boxes : BoxAllocator := {| box_at m := 8 * (1 + highest m); box_at_fresh := highest_fresh; box_at_valid := highest_valid |}.

(** ** Reading a directory *)
Fixpoint read_times (n : nat) (h capacity : Z) (s : Fs) : list (Result (list Z * Z)) :=
  match n with O => [] | S n => let '(s', r) := read_directory h capacity s in r :: read_times n h capacity s' end.
(** What a read is to return for an entry: its name and the kind of what it stands for. *)
Definition listed (s : Fs) (p : name * Z) : Result (list Z * Z) := let? k := kind s p.2 in Ok (p.1, k).
Lemma kind_small s id k : kind s id = Ok k -> k mod 256 = k.
Proof. unfold kind. intros Hk. apply result_bind_Ok in Hk as (n & _ & [= <-]). by destruct (body n). Qed.
Lemma read_times_spec s0 es s h capacity listing next text :
  borrow s h = Ok (HDirectory listing next) -> 0 <= next -> dropZ next listing = text -> listing_of s0 es = Ok text ->
  Forall (fun p => lenZ p.1 <= 255 /\ lenZ p.1 <= capacity) es ->
  read_times (S (length es)) h capacity s = (listed s0 <$> es) ++ [Err ENotFound].
Proof.
  revert s next text. induction es as [| [nm c] es IH]; intros s next text Hb Hnx Hd Hl Hf.
  { injection Hl as <-. simpl. unfold read_directory. rewrite bind_reads, Hb, Hd. done. }
  apply Forall_cons in Hf as [[Hn Hc] Hf]. simpl in Hn, Hc. simpl in Hl.
  apply result_bind_Ok in Hl as (k & Hk & Hl). apply result_bind_Ok in Hl as (rest & Hrest & Hl). injection Hl as <-.
  pose proof (kind_small _ _ _ Hk) as Hk'. pose proof (lenZ_nonneg nm). rewrite Hk', (Z.mod_small (lenZ nm) 256) in Hd by lia.
  cbn [length]. remember (S (length es)) as fuel. cbn [read_times]. unfold read_directory at 1. rewrite bind_reads, Hb, Hd. simpl app.
  assert (takeZ (lenZ nm) (nm ++ rest) = nm) as Ht by (unfold takeZ, lenZ; rewrite Nat2Z.id; apply take_app_length).
  destruct (Z.ltb_spec (lenZ (nm ++ rest)) (lenZ nm)); [rewrite lenZ_app in *; pose proof (lenZ_nonneg rest); lia |].
  rewrite Ht. destruct (Z.ltb_spec capacity (lenZ nm)); [lia |].
  unfold bind at 1, modify. cbn beta iota. unfold ret. cbn beta iota.
  assert (listed s0 (nm, c) = Ok (nm, k)) as Hlst by (unfold listed; simpl; by rewrite Hk). csimpl. rewrite Hlst. f_equal.
  subst fuel. eapply (IH _ (next + (2 + lenZ nm)) rest); [| lia | | done | done].
  - unfold borrow in *. destruct (_ || _); [done |]. simpl. by rewrite lookup_insert_eq.
  - unfold dropZ in *. rewrite Z2Nat.inj_add, <- drop_drop, Hd by lia. replace (Z.to_nat (2 + lenZ nm)) with (S (S (length nm))) by (unfold lenZ; lia).
    simpl. apply drop_app_length.
Qed.

Section Properties.
Context `{Arch} `{Endian} `{BoxAllocator}.

(** C1: every reachable state of the file system is well-formed, whichever calls were made in whichever order and
    whether they succeeded or not: the tree has a root and no cycles, every name stands for a live node, link counts,
    open counts and the byte count are exact, a directory has exactly one name, and locks belong to open handles and
    do not conflict. *)
Theorem reachable_wf (g : answers) (s : Fs) : reachable g s -> wf s.
Proof. apply reach_wf. Qed.

(** C38: the walk of a path ends: with the fuel it is given the loop returns, for every state, path and way to treat
    the last component, also when links form a cycle. *)
Theorem walk_terminates (s : Fs) (path : list Z) (last : Last) (par : Z) :
  exists r, walk_loop (walk_fuel s path) s last par (mkPending [path] 0 false) None = Some r.
Proof. apply walk_loop_fuel. Qed.

(** A walk ends at a real place: a directory of the tree together with a valid name and exactly what that name
    stands for there, or a directory itself. *)
Theorem walk_finds (s : Fs) (path : list Z) (last : Last) (place : Place) :
  wf s -> walk s path last = Ok place -> place_ok s place.
Proof. intros Hwf. by apply (walk_places no_debt no_one). Qed.

(** [remove], on every branch.  It fails as the walk does, with [NotFound] when the name is free and with
    [IsDirectory] on a directory, and changes nothing then; otherwise exactly that name is gone, and the node with it
    precisely when nothing else refers to it. *)
Theorem remove_exact (s : Fs) (path : list Z) (now : Z) : wf s ->
  match walk s path EntryLast with
  | Err e => remove path now s = (s, Err e)
  | Ok place =>
      match p_node place with
      | None => remove path now s = (s, Err ENotFound)
      | Some nd =>
          match is_directory s nd with
          | Err _ => False
          | Ok true => remove path now s = (s, Err EIsDirectory)
          | Ok false =>
              exists s' n, nodes s !! nd = Some n /\ remove path now s = (s', Ok tt) /\ wf s' /\
                 names_of s' = delete (p_parent place, p_name place) (names_of s) /\
                 (nodes s' !! nd = None <-> links n = 1 /\ opens n = 0 /\ maps n = 0)
          end
      end
  end.
Proof.
  intros Hwf. unfold remove. rewrite bind_reads. destruct (walk s path EntryLast) as [place | e] eqn:Hw; [| done].
  pose proof (walk_places _ _ _ Hwf _ _ _ Hw) as Hpl. rewrite bind_reads.
  destruct (p_node place) as [nd |] eqn:Hnd; [| done]. cbn [ok_or]. rewrite bind_reads.
  destruct (place_node _ _ _ Hwf Hpl Hnd) as [n Hn]. destruct (is_directory_total s nd n Hn) as [dir Hdir]. rewrite Hdir.
  destruct dir; [done |]. apply is_directory_false in Hdir as (n' & Hn' & Hnot). rewrite Hn in Hn'. injection Hn' as <-.
  match goal with |- context [bind ?m ?k s] => edestruct (wp_run (bind m k) tt
      (fun s' => wf s' /\ names_of s' = delete (p_parent place, p_name place) (names_of s) /\
         (nodes s' !! nd = None <-> links n = 1 /\ opens n = 0 /\ maps n = 0)) s) as (s' & -> & ? & ? & ?) end.
  { eapply wp_remove_entry; eauto; [by eapply dir_place_name |]. intros p es Hb. by apply Hnot in Hb. }
  exists s', n. split_and!; done.
Qed.

(** [remove_directory], on every branch.  Only an empty directory that is named in its parent and is not the
    root goes away, and it is gone then; every refusal changes nothing. *)
Theorem remove_directory_exact (s : Fs) (path : list Z) (now : Z) : wf s ->
  match walk s path EntryLast with
  | Err e => remove_directory path now s = (s, Err e)
  | Ok place =>
      match p_node place with
      | None => remove_directory path now s = (s, Err ENotFound)
      | Some nd =>
          match entries s nd with
          | Err e => remove_directory path now s = (s, Err e)
          | Ok es =>
              if decide (nd = ROOT) then remove_directory path now s = (s, Err EBusy)
              else if decide (es = ∅) then
                if decide (p_name place = []) then remove_directory path now s = (s, Err EInvalidArgument)
                else exists s', remove_directory path now s = (s', Ok tt) /\ wf s' /\ nodes s' !! nd = None /\
                       names_of s' = delete (p_parent place, p_name place) (names_of s)
              else remove_directory path now s = (s, Err ENotEmpty)
          end
      end
  end.
Proof.
  intros Hwf. unfold remove_directory. rewrite bind_reads. destruct (walk s path EntryLast) as [place | e] eqn:Hw; [| done].
  pose proof (walk_places _ _ _ Hwf _ _ _ Hw) as Hpl. rewrite bind_reads.
  destruct (p_node place) as [nd |] eqn:Hnd; [| done]. cbn [ok_or]. rewrite bind_reads.
  destruct (entries s nd) as [es |] eqn:Hes; [| done]. apply entries_Ok in Hes as (n & p & Hn & Hb).
  destruct (Z.eqb_spec nd ROOT) as [-> | Hr]; [by rewrite decide_True |]. rewrite (decide_False (P := nd = ROOT)) by done.
  rewrite bool_decide_decide. destruct (decide (es = ∅)) as [-> |]; [| done]. cbn [negb].
  rewrite bool_decide_decide. destruct (decide (p_name place = [])); [done |].
  match goal with |- context [bind ?m ?k s] => edestruct (wp_run (bind m k) tt
      (fun s' => wf s' /\ names_of s' = delete (p_parent place, p_name place) (names_of s) /\
         (nodes s' !! nd = None <-> links n = 1 /\ opens n = 0 /\ maps n = 0)) s) as (s' & -> & ? & ? & Hgone) end.
  { eapply wp_remove_entry; eauto. intros p' es' Hb'. congruence. }
  exists s'. split_and!; try done. apply Hgone.
  destruct (wf_named _ _ _ Hwf nd n p ∅ Hn Hb Hr) as [Hl _]; [by intros [] |].
  destruct (wf_node _ _ _ Hwf _ _ Hn) as (_ & _ & Hc & _). rewrite Hb in Hc. destruct Hc. done.
Qed.

(** [create_directory], on every branch.  It fails as the walk does or with [AlreadyExists], changing nothing; or
    the free name stands for a new, empty directory whose parent is the directory the walk led to. *)
Theorem create_directory_exact (s : Fs) (path : list Z) (md now : Z) : wf s -> room s ->
  match walk s path CreateLast with
  | Err e => create_directory path md now s = (s, Err e)
  | Ok place =>
      match p_node place with
      | Some _ => create_directory path md now s = (s, Err EAlreadyExists)
      | None =>
          exists s' n, create_directory path md now s = (s', Ok tt) /\ wf s' /\ nodes s !! next_id s = None /\
            names_of s' = <[(p_parent place, p_name place) := next_id s]> (names_of s) /\
            nodes s' !! next_id s = Some n /\ body n = Directory (p_parent place) ∅
      end
  end.
Proof.
  intros Hwf Hroom. unfold create_directory. rewrite bind_reads. destruct (walk s path CreateLast) as [place | e] eqn:Hw; [| done].
  pose proof (walk_places _ _ _ Hwf _ _ _ Hw) as Hpl. destruct (p_node place) as [nd |] eqn:Hnd; [done |].
  match goal with |- context [bind ?m ?k s] => edestruct (wp_run (bind m k) tt
      (fun s' => wf s' /\ names_of s' = <[(p_parent place, p_name place) := next_id s]> (names_of s) /\
         exists n, nodes s' !! next_id s = Some n /\ body n = Directory (p_parent place) ∅) s) as (s' & -> & ? & ? & n & ? & ?) end.
  { apply wp_bind, wp_create; auto; [apply Hroom | by split; [| apply Hpl] |].
    intros s' n ? ? ? _ _ ?. apply wp_ret. split_and!; eauto. }
  exists s', n. split_and!; try done. destruct (nodes s !! next_id s) eqn:E; [| done]. apply (wf_ids _ _ _ Hwf) in E. lia.
Qed.

(** C3: [open]: a failure changes neither the names nor the handles; a success returns a handle that was not in use,
    for the file the path leads to or, with [CREATE] and a free name, for a new file at that name.  With [EXCLUSIVE]
    an existing name is never opened. *)
Theorem open_exact (s : Fs) (path : list Z) (flags md clock : Z) : wf s -> room s ->
  let '(s', r) := open path flags md clock s in
  match walk s path (if has flags EXCLUSIVE then CreateLast else Follow) with
  | Err e => s' = s /\ r = Err e
  | Ok place => open_outcome s place flags s' r
  end.
Proof.
  intros Hwf Hroom. pose proof (wp_open path flags md clock s Hwf Hroom) as Hw. unfold wp in Hw.
  by destruct (open path flags md clock s).
Qed.

(** [link], on every branch.  The new name stands for the same node; a directory is refused. *)
Theorem link_exact (s : Fs) (old new : list Z) (now : Z) : wf s -> room s ->
  match walk_node s old Keep, vacant s new with
  | Err e, _ | Ok _, Err e => link old new now s = (s, Err e)
  | Ok nd, Ok place =>
      match is_directory s nd with
      | Err _ => False
      | Ok true => link old new now s = (s, Err EAccessDenied)
      | Ok false => exists s', link old new now s = (s', Ok tt) /\ wf s' /\
                      names_of s' = <[(p_parent place, p_name place) := nd]> (names_of s)
      end
  end.
Proof.
  intros Hwf Hroom. unfold link. rewrite bind_reads. destruct (walk_node s old Keep) as [nd | e] eqn:Hnd; [| done].
  rewrite bind_reads. destruct (vacant s new) as [place | e] eqn:Hv; [| done]. rewrite bind_reads.
  apply (vacant_places _ _ _ Hwf) in Hv as [Hpl Hfree].
  unfold walk_node in Hnd. apply result_bind_Ok in Hnd as (pl & Hw & Hn%ok_or_Ok).
  apply (walk_places _ _ _ Hwf) in Hw. destruct (place_node _ _ _ Hwf Hw Hn) as [n Hnn].
  destruct (is_directory_total s nd n Hnn) as [dir Hdir]. rewrite Hdir. destruct dir; [done |].
  apply wp_run. by apply wp_link_entry.
Qed.

(** C2: [rename].  A failure changes nothing; a success moves exactly one name, replacing what the new name stood for,
    unless both names already stand for the same node. *)
Theorem rename_exact (s : Fs) (from to : list Z) (now : Z) : wf s ->
  let '(s', r) := rename from to now s in
  match r with
  | Err _ => s' = s
  | Ok _ => wf s' /\ exists source target nd, walk s from EntryLast = Ok source /\ walk s to EntryLast = Ok target /\
      p_node source = Some nd /\ p_name source <> [] /\ p_name target <> [] /\
      (if decide (p_node target = Some nd) then s' = s
       else names_of s' = <[(p_parent target, p_name target) := nd]> (delete (p_parent source, p_name source) (names_of s)))
  end.
Proof.
  intros Hwf. unfold rename. rewrite bind_reads. destruct (walk s from EntryLast) as [source | e] eqn:Hw1; [| done].
  rewrite bind_reads. destruct (p_node source) as [nd |] eqn:Hnd; [| done]. cbn [ok_or].
  rewrite bind_reads. destruct (walk s to EntryLast) as [target | e] eqn:Hw2; [| done].
  destruct (bool_decide (p_name source = []) || _) eqn:Hz; [done |].
  apply orb_false_iff in Hz as [Hz1%bool_decide_eq_false Hz2%bool_decide_eq_false].
  rewrite bool_decide_decide. destruct (decide (p_node target = Some nd)) as [Hsame | Hsame].
  { split; [done |]. exists source, target, nd. split_and!; try done. by rewrite decide_True. }
  rewrite bind_reads. destruct (is_directory s nd) as [dir | e] eqn:Hdir; [| done].
  rewrite bind_reads. destruct (rename_checks s nd dir target) as [[] | e] eqn:Hchecks; [| done].
  apply (walk_places _ _ _ Hwf) in Hw1 as Hs. apply (walk_places _ _ _ Hwf) in Hw2 as Ht.
  match goal with |- context [bind ?m ?k s] => edestruct (wp_run (bind m k) tt (fun s' => wf s' /\ names_of s' =
      <[(p_parent target, p_name target) := nd]> (delete (p_parent source, p_name source) (names_of s))) s) as (s' & -> & ? & ?) end.
  { by eapply wp_rename_entry. }
  split; [done |]. exists source, target, nd. split_and!; try done. by rewrite decide_False.
Qed.

(** The absolute path that [real_path] writes leads back: it ends with a NUL, is as long as reported, and
    resolving it finds the node that the original path, links and all, found. *)
Theorem real_path_resolves (s : Fs) (path : list Z) (capacity fill n : Z) (text : list Z) :
  wf s -> real_path path capacity fill s = (s, Ok (n, Some text)) ->
  exists p, text = p ++ [0] /\ n = lenZ text /\ lenZ p <= MAX_NAME /\ starts_with_slash p = true /\
    walk_node s p Follow = walk_node s path Follow.
Proof.
  intros Hwf. unfold real_path, walk_node. rewrite bind_reads. destruct (walk s path Follow) as [place |] eqn:Hw; [| done].
  rewrite bind_reads. destruct (p_node place) as [nd |] eqn:Hnd; [| done]. cbn [ok_or]. unfold reads. intros [= Hsp].
  pose proof (walk_places _ _ _ Hwf _ _ _ Hw) as [Hdir Hname].
  destruct (spell_path s Hwf _ (p_name place) capacity fill Hdir) as (parts & Hp & Hsp'). cbn zeta in Hsp'.
  set (all := match p_name place with [] => parts | _ => _ end) in *.
  rewrite Hsp' in Hsp. destruct (Z.ltb_spec MAX_NAME (lenZ (spelled all))); [done |].
  destruct (_ <=? _); [| done]. injection Hsp as <- <-. exists (spelled all).
  pose proof (root_is_dir _ _ _ Hwf) as Hroot. pose proof (path_to_descends _ _ _ Hroot Hp) as Hdesc.
  assert (descends s ROOT (reverse all) nd) as Hall.
  { unfold all. destruct (p_name place) as [| b nm] eqn:Hpn; [rewrite Hnd in Hname; by injection Hname as -> |].
    destruct Hname as [_ He]. rewrite reverse_cons. eapply descends_snoc; [done | done | by rewrite <- He, Hnd |].
    intros m t. by eapply walk_follow_not_link; [| rewrite Hpn |]. }
  destruct (walk_spelled s Hwf all nd Hall) as (place' & Hw' & Hnd'). rewrite Hw'. simpl. rewrite Hnd', Hnd. split_and!; try done.
  - len.
  - unfold spelled, join. destruct all; [done |]. rewrite reverse_cons. by destruct (reverse all).
Qed.

(** [current_directory] writes an absolute path that resolves to the working directory, whatever was renamed
    since it was set; it fails only when the directory is gone ([NotFound]) or its path is too long. *)
Theorem current_directory_resolves (s : Fs) (capacity fill : Z) : wf s ->
  match (current_directory capacity fill s).2 with
  | Err e => (e = ENotFound /\ nodes s !! working s = None) \/ e = ENameTooLong
  | Ok (n, text) => exists p, n = lenZ p + 1 /\ walk_node s p Follow = Ok (working s) /\
                      text = (if n <=? capacity then Some (p ++ [0]) else None)
  end.
Proof.
  intros Hwf. unfold current_directory, reads, working_dir. simpl.
  destruct (nodes s !! working s) as [m |] eqn:Hm; [| simpl; auto]. simpl.
  destruct (proj2 (wf_cwd _ _ _ Hwf) m Hm) as (p & es & Hb).
  assert (is_dir s (working s)) as Hdir by (unfold is_dir; eauto).
  destruct (spell_path s Hwf _ [] capacity fill Hdir) as (parts & Hp & ->). cbn zeta. destruct (_ <? _); [auto |].
  exists (spelled parts). split_and!; [done | | done].
  destruct (walk_spelled s Hwf parts (working s)) as (place & Hw & Hn).
  - apply path_to_descends; [by eapply root_is_dir | done].
  - unfold walk_node. by rewrite Hw; simpl; rewrite Hn.
Qed.

(** A directory cannot be moved into itself or below itself: [rename] then fails with [InvalidArgument] (or
    earlier) and the tree stays as it was, so that no directory is ever cut off from the root. *)
Theorem rename_into_itself (s : Fs) (from to : list Z) (now : Z) (source target : Place) (nd : Z) :
  wf s -> walk s from EntryLast = Ok source -> walk s to EntryLast = Ok target -> p_node source = Some nd ->
  p_name source <> [] -> p_name target <> [] -> p_node target <> Some nd -> is_dir s nd ->
  rtc (fun a b => parent s a = Ok b) (p_parent target) nd ->
  rename from to now s = (s, Err EInvalidArgument).
Proof.
  intros Hwf Hs Ht Hnd Hn1 Hn2 Hne Hdir Hbelow. unfold rename. rewrite bind_reads, Hs, bind_reads, Hnd. cbn [ok_or].
  rewrite bind_reads, Ht. rewrite !bool_decide_eq_false_2 by done. cbn [orb].
  rewrite bind_reads. rewrite (proj2 (is_directory_true s nd) Hdir), bind_reads.
  assert (nd <> ROOT) as Hr.
  { pose proof (walk_places _ _ _ Hwf _ _ _ Hs) as Hpl. destruct (place_named _ _ _ Hpl Hnd Hn1) as [He _]. by eapply named_not_root. }
  pose proof (walk_places _ _ _ Hwf _ _ _ Ht) as [(m & p & es & Hm & Hb) _].
  destruct (wf_reach _ _ _ Hwf _ _ _ _ Hm Hb) as [k Hk]. destruct (wf_root _ _ _ Hwf) as (r & res & Hrt & _).
  pose proof (dist_bound _ _ _ ltac:(eauto) Hk) as Hlt.
  assert (ancestors_avoid (size (nodes s)) s (p_parent target) nd = Some (Err EInvalidArgument)) as Ha.
  { assert (k <= size (nodes s))%nat as Hle by lia. clear Hlt Ht Hn2 Hne Hm Hb Hrt. revert k Hk Hle. generalize (size (nodes s)) as fuel.
    induction Hbelow as [| x y z Hxy _ IH]; intros fuel k Hk Hle.
    - inversion Hk; subst; [done |]. destruct fuel as [| fuel]; [lia |]. simpl. apply Z.eqb_neq in Hr. rewrite Hr, Z.eqb_refl. done.
    - inversion Hk as [| k' ? n' p' es' Hx Hn' Hb' Hk']; subst.
      + apply parent_Ok in Hxy as (n' & es' & Hn' & Hb'). destruct (wf_root _ _ _ Hwf) as (r' & res' & Hr' & Hrb').
        assert (y = ROOT) as -> by congruence. by eapply (IH Hnd Hdir Hr fuel 0%nat); [constructor | lia].
      + destruct fuel as [| fuel]; [lia |]. simpl. apply Z.eqb_neq in Hx. rewrite Hx.
        destruct (Z.eqb_spec x z); [done |]. rewrite Hxy. apply parent_Ok in Hxy as (n'' & es'' & Hn'' & Hb'').
        assert (y = p') as -> by congruence. by eapply (IH Hnd Hdir Hr fuel k'); [| lia]. }
  unfold rename_checks. by rewrite Ha.
Qed.

(** A write that succeeds took every byte, and a read of the range returns them. *)
Lemma written_is_read (s s' : Fs) (file reader nd o now k : Z) (d : list Z) :
  wf s -> 0 <= o -> file_node s file WRITE = Ok nd -> file_node s reader READ = Ok nd -> write_at file o d now s = (s', Ok k) ->
  k = lenZ d /\ (read_at reader o (lenZ d) s').2 = Ok d.
Proof.
  intros Hwf Ho Hf Hrd Hw. pose proof (wf_node _ _ _ Hwf nd) as Hnode.
  assert (wp (write_at file o d now) (fun s' r => r = Ok k -> file_node s' reader READ = Ok nd /\
    exists c c' g' b, content_ok c /\ content s' nd = Ok c' /\ content_write o d (saturating_sub (fs_capacity s) (used s)) b (c, answers_left s) = (c', g', Ok k)) s) as Hp.
  { unfold write_at. apply wp_bind, wp_reads. rewrite Hf. apply wp_change; [done | by apply write_edit_ok |].
    intros s1 r Hwf1 (_ & Hh & _) Hr _ ->. destruct (Hr k eq_refl) as (c & c' & g' & b & Hc & Hc' & _ & He). split.
    - unfold file_node, borrow in *. by rewrite Hh.
    - exists c, c', g', b. split_and!; [| done | done]. unfold content in Hc. apply result_bind_Ok in Hc as (n & Hn%node_Ok & Hc).
      destruct (Hnode n Hn) as (_ & _ & Hok & _). destruct (body n); [by injection Hc as <- | done ..]. }
  unfold wp in Hp. rewrite Hw in Hp. cbn [fst snd] in Hp. destruct (Hp eq_refl) as (Hrd' & c & c' & g' & b & Hok & Hc' & He). clear Hp.
  destruct (content_read_back _ _ _ _ _ _ _ _ _ Ho Hok He) as [_ Hback].
  apply content_write_ok in He as (_ & -> & _); [| done | done]. split; [done |].
  unfold read_at. rewrite bind_reads, Hrd', bind_reads, Hc', Hback.
  unfold bind. destruct d; done.
Qed.

(** What is written through a handle is what is read back through any handle of the same file that may read, and
    the write returns the number of bytes it was given. *)
Theorem write_then_read (s s' : Fs) (file reader nd o now k : Z) (d : list Z) :
  wf s -> 0 <= o -> file_node s file WRITE = Ok nd -> file_node s reader READ = Ok nd -> write_at file o d now s = (s', Ok k) ->
  k = lenZ d /\ (read_at reader o (lenZ d) s').2 = Ok d.
Proof. apply written_is_read. Qed.

(** C39: writing and resizing respect the capacity: they never take the byte count over it, nor raise it where it is
    over it already. *)
Theorem writes_within_capacity (s : Fs) (file o n now : Z) (d : list Z) : wf s -> 0 <= o -> 0 <= n ->
  used (write_at file o d now s).1 <= Z.max (used s) (fs_capacity s) /\
  used (set_file_size file n now s).1 <= Z.max (used s) (fs_capacity s).
Proof.
  intros Hwf Ho Hn.
  change (wp (write_at file o d now) (fun s' _ => used s' <= Z.max (used s) (fs_capacity s)) s /\
          wp (set_file_size file n now) (fun s' _ => used s' <= Z.max (used s) (fs_capacity s)) s).
  assert (forall nd c, content s nd = Ok c -> content_ok c) as Hcok.
  { intros nd c Hc. unfold content in Hc. apply result_bind_Ok in Hc as (m & Hm%node_Ok & Hc).
    destruct (wf_node _ _ _ Hwf _ _ Hm) as (_ & _ & Hok & _). destruct (body m); [by injection Hc as <- | done ..]. }
  split; (apply wp_bind, wp_reads; destruct (file_node s file WRITE) as [nd |]; [| lia]);
    (apply wp_change; [done | first [by apply write_edit_ok | by apply resize_edit_ok] |]);
    (intros s' [r | e] Hwf' _ Hr He; [| rewrite (He e eq_refl); lia]); clear He;
    destruct (Hr r eq_refl) as (c & c' & g' & b & Hc & Hc' & -> & He); pose proof (Hcok _ _ Hc) as Hok.
  - apply content_write_ok in He as (Hok' & _ & Hb & Hroom); [| done | done].
    pose proof (content_len_bytes _ Hok'). pose proof (content_len_bytes _ Hok).
    rewrite Hb, lenZ_spec_write in * by done. unfold saturating_sub in Hroom. lia.
  - apply content_resize_ok in He as (Hok' & Hb & Hroom); [| done | done].
    pose proof (content_len_bytes _ Hok'). rewrite Hb, lenZ_spec_resize in * by done. unfold saturating_sub in Hroom. lia.
Qed.

(** Closing a handle gives up every lock it held, on every file, and the handle is gone; an unlinked file whose
    last handle this was is freed. *)
Theorem close_releases (s s' : Fs) (file : Z) : wf s -> close file s = (s', Ok tt) ->
  handles s' !! file = None /\ (forall id n l, nodes s' !! id = Some n -> l ∈ locks n -> l_owner l <> file) /\
  (forall id n, nodes s' !! id = Some n -> 0 < links n \/ 0 < opens n \/ 0 < maps n).
Proof.
  intros Hwf Hc. pose proof (keeps_wf_close file s Hwf) as Hwf'. unfold wp in Hwf'. rewrite Hc in Hwf'. simpl in Hwf'.
  assert (handles s' !! file = None) as Hgone.
  { assert (wp (close file) (fun s' r => r = Ok tt -> handles s' !! file = None) s) as Hp.
    { apply wp_bind, wp_reads. destruct (borrow s file) as [[nd acc | |] |]; [| by apply wp_fail .. | done].
      wp_mod. apply wp_bind, wp_update_node; [done |]. intros n Hn. apply wp_modify. intros _. unfold reap. simpl.
      rewrite lookup_insert_eq. destruct (_ && _); [destruct (body _) |]; simpl; apply lookup_delete_eq. }
    unfold wp in Hp. rewrite Hc in Hp. by apply Hp. }
  split; [done |]. split; intros id n.
  - intros l Hn Hl E. destruct (wf_node _ _ _ Hwf' _ _ Hn) as (_ & _ & _ & _ & Hown).
    destruct (Hown l Hl) as [acc Hacc]. rewrite E in Hacc. congruence.
  - intros Hn. by destruct (wf_node _ _ _ Hwf' _ _ Hn) as (Hlive & _).
Qed.

(** Reading a directory returns every entry it had when it was opened exactly once, in the order of the names and
    with the kind of its node, and [NotFound] after the last one. *)
Theorem directory_listing (s s' : Fs) (path : list Z) (h capacity : Z) :
  wf s -> MAX_ENTRY_NAME <= capacity -> open_directory path s = (s', Ok h) ->
  exists nd es, walk_node s path Follow = Ok nd /\ entries s nd = Ok es /\
    read_times (S (length (entries_list es))) h capacity s' = (listed s <$> entries_list es) ++ [Err ENotFound].
Proof.
  intros Hwf Hcap. unfold open_directory. rewrite bind_reads. destruct (walk_node s path Follow) as [nd |] eqn:Hw; [| done].
  rewrite bind_reads. destruct (entries s nd) as [es |] eqn:Hes; [| done]. cbn zeta. unfold bind at 1.
  destruct (try_reserve_exact _ _ _) as [[v g] granted]. destruct granted; [| done]. rewrite bind_reads.
  assert (forall l, listing_of (set_answers g s) l = listing_of s l) as Hset.
  { induction l as [| [nm c] l IH]; [done |]. simpl. by rewrite IH. }
  rewrite Hset. destruct (listing_of s (entries_list es)) as [text |] eqn:Hl; [| done].
  unfold handle. intros [= <- <-]. exists nd, es. split_and!; [done | done |].
  eapply (read_times_spec s (entries_list es)); [| reflexivity | reflexivity | exact Hl |].
  - unfold borrow. simpl. destruct (box_at_valid (handles s)) as [H8 H0']. apply Z.eqb_neq in H8. rewrite H8, H0'. simpl. by rewrite lookup_insert_eq.
  - apply Forall_forall. intros [nm c] Hin%entries_list_elem. apply entries_Ok in Hes as (n & p & Hn & Hb).
    assert (entry_map (nodes s) !! (nd, nm) = Some c) as He by (apply entry_map_Some; eauto 10).
    destruct (wf_entry _ _ _ Hwf _ _ _ He) as [_ (_ & Hlen & _)]. unfold MAX_ENTRY_NAME in *. simpl. lia.
Qed.
End Properties.

(** ** A run of the calls, for the witnesses *)
Module Sample.
#[local] Existing Instance arch64.
#[local] Existing Instance le_machine.
#[local] Existing Instance boxes.
Definition calls : list Call := [
  CCreateDirectory (bytes "/a") 493 1; CCreateDirectory (bytes "/a/b") 493 2;
  COpen (bytes "/a/f") 7 420 3; CWrite 8 0 (bytes "hello") 4; CSymlink (bytes "a") (bytes "/l") 5;
  CSetCurrentDirectory (bytes "/l/b") ].
Definition start : Fs := initial [].
Definition state : Fs := default start (run_all calls start).
Lemma state_run : run_all calls start = Some state.
Proof. vm_compute. reflexivity. Qed.
Lemma state_reachable : reachable [] state.
Proof.
  apply (run_all_reachable [] calls start state); [constructor | | apply state_run].
  repeat constructor; simpl; lia.
Qed.
Lemma state_wf : wf state.
Proof. apply (reach_wf []), state_reachable. Qed.
Lemma state_room : room state.
Proof. apply roomb_room. vm_compute. reflexivity. Qed.

Lemma reachable_wf_witness : wf state.
Proof. exact (reachable_wf [] state state_reachable). Defined.
Lemma walk_finds_witness : exists place, walk state (bytes "/l/f") Follow = Ok place /\ place_ok state place.
Proof.
  exists (mkPlace 2 (bytes "f") (Some 4) false). split; [vm_compute; reflexivity |].
  apply (walk_finds state (bytes "/l/f") Follow); [apply state_wf | vm_compute; reflexivity].
Defined.
Lemma remove_exact_witness : exists s', remove (bytes "/a/f") 9 state = (s', Ok tt) /\ wf s' /\ names_of s' = delete (2, bytes "f") (names_of state).
Proof.
  pose proof (remove_exact state (bytes "/a/f") 9 state_wf) as Hx.
  assert (walk state (bytes "/a/f") EntryLast = Ok (mkPlace 2 (bytes "f") (Some 4) false)) as E by (vm_compute; reflexivity).
  assert (is_directory state 4 = Ok false) as Ed by (vm_compute; reflexivity).
  rewrite E in Hx. cbn [p_node p_parent p_name] in Hx. rewrite Ed in Hx. destruct Hx as (s' & n & _ & Hr & Hw & Hn & _). eauto.
Defined.
Lemma remove_directory_exact_witness : exists s', remove_directory (bytes "/a/b") 9 state = (s', Ok tt) /\ nodes s' !! 3 = None.
Proof.
  pose proof (remove_directory_exact state (bytes "/a/b") 9 state_wf) as Hx.
  assert (walk state (bytes "/a/b") EntryLast = Ok (mkPlace 2 (bytes "b") (Some 3) false)) as E by (vm_compute; reflexivity).
  assert (entries state 3 = Ok ∅) as Ed by (vm_compute; reflexivity).
  rewrite E in Hx. cbn [p_node p_parent p_name] in Hx. rewrite Ed in Hx. simpl in Hx. destruct Hx as (s' & Hr & _ & Hn & _). eauto.
Defined.
Lemma create_directory_exact_witness : exists s', create_directory (bytes "c") 493 9 state = (s', Ok tt) /\
  names_of s' = <[(3, bytes "c") := 6]> (names_of state).
Proof.
  pose proof (create_directory_exact state (bytes "c") 493 9 state_wf state_room) as Hx.
  assert (walk state (bytes "c") CreateLast = Ok (mkPlace 3 (bytes "c") None false)) as E by (vm_compute; reflexivity).
  assert (next_id state = 6) as En by (vm_compute; reflexivity).
  rewrite E in Hx. cbn [p_node p_parent p_name] in Hx. rewrite En in Hx. destruct Hx as (s' & n & Hr & _ & _ & Hn & _). eauto.
Defined.
Lemma open_exact_witness : exists s', open (bytes "/a/f") 9 0 9 state = (s', Err EAlreadyExists) /\ names_of s' = names_of state.
Proof.
  pose proof (open_exact state (bytes "/a/f") 9 0 9 state_wf state_room) as Hx.
  destruct (open (bytes "/a/f") 9 0 9 state) as [s' r] eqn:Eo.
  assert (r = Err EAlreadyExists) as -> by (vm_compute in Eo; by injection Eo as _ <-).
  assert (walk state (bytes "/a/f") CreateLast = Ok (mkPlace 2 (bytes "f") (Some 4) false)) as E by (vm_compute; reflexivity).
  change (has 9 EXCLUSIVE) with true in Hx. cbn iota in Hx. rewrite E in Hx. destruct Hx as (_ & Hn & _). exists s'. split; [reflexivity | exact Hn].
Defined.
Lemma link_exact_witness : exists s', link (bytes "/a/f") (bytes "/g") 9 state = (s', Ok tt) /\ names_of s' = <[(1, bytes "g") := 4]> (names_of state).
Proof.
  pose proof (link_exact state (bytes "/a/f") (bytes "/g") 9 state_wf state_room) as Hx.
  assert (walk_node state (bytes "/a/f") Keep = Ok 4) as E by (vm_compute; reflexivity).
  assert (vacant state (bytes "/g") = Ok (mkPlace 1 (bytes "g") None false)) as Ev by (vm_compute; reflexivity).
  assert (is_directory state 4 = Ok false) as Ed by (vm_compute; reflexivity).
  rewrite E, Ev, Ed in Hx. cbn [p_parent p_name] in Hx. destruct Hx as (s' & Hr & _ & Hn). eauto.
Defined.
Lemma rename_exact_witness : exists s', rename (bytes "/a") (bytes "/z") 9 state = (s', Ok tt) /\
  names_of s' = <[(1, bytes "z") := 2]> (delete (1, bytes "a") (names_of state)).
Proof.
  pose proof (rename_exact state (bytes "/a") (bytes "/z") 9 state_wf) as Hx.
  destruct (rename (bytes "/a") (bytes "/z") 9 state) as [s' r] eqn:Er.
  assert (r = Ok tt) as -> by (vm_compute in Er; by injection Er as _ <-).
  destruct Hx as (_ & source & target & nd & Hs & Ht & Hn & _ & _ & Hx).
  assert (walk state (bytes "/a") EntryLast = Ok (mkPlace 1 (bytes "a") (Some 2) false)) as Es by (vm_compute; reflexivity).
  assert (walk state (bytes "/z") EntryLast = Ok (mkPlace 1 (bytes "z") None false)) as Et by (vm_compute; reflexivity).
  rewrite Es in Hs. injection Hs as <-. rewrite Et in Ht. injection Ht as <-. injection Hn as <-.
  cbn [p_node p_parent p_name] in Hx. rewrite decide_False in Hx by done. exists s'. split; [reflexivity | exact Hx].
Defined.
Lemma rename_into_itself_witness : rename (bytes "/a") (bytes "/a/b/c") 9 state = (state, Err EInvalidArgument).
Proof.
  apply (rename_into_itself state (bytes "/a") (bytes "/a/b/c") 9 (mkPlace 1 (bytes "a") (Some 2) false) (mkPlace 3 (bytes "c") None false) 2).
  - apply state_wf.
  - vm_compute. reflexivity.
  - vm_compute. reflexivity.
  - reflexivity.
  - discriminate.
  - discriminate.
  - discriminate.
  - apply is_directory_true. vm_compute. reflexivity.
  - apply rtc_once. vm_compute. reflexivity.
Defined.
Lemma real_path_resolves_witness : walk_node state (bytes "/a/f") Follow = walk_node state (bytes "../f") Follow.
Proof.
  destruct (real_path_resolves state (bytes "../f") 64 0 5 (bytes "/a/f" ++ [0]) state_wf) as (p & Ht & _ & _ & _ & Hp);
    [vm_compute; reflexivity |]. apply app_inj_tail in Ht as [<- _]. exact Hp.
Defined.
Lemma current_directory_resolves_witness : exists p, (current_directory 64 0 state).2 = Ok (5, Some (p ++ [0])) /\ walk_node state p Follow = Ok 3.
Proof.
  pose proof (current_directory_resolves state 64 0 state_wf) as Hx.
  assert ((current_directory 64 0 state).2 = Ok (5, Some (bytes "/a/b" ++ [0]))) as E by (vm_compute; reflexivity).
  rewrite E in Hx. destruct Hx as (p & Hn & Hw & Ht). exists p. split; [rewrite E; do 2 f_equal; exact Ht |].
  rewrite Hw. vm_compute. reflexivity.
Defined.
Lemma write_then_read_witness : let '(s', r) := write_at 8 3 (bytes "p!") 9 state in r = Ok 2 /\ (read_at 8 3 2 s').2 = Ok (bytes "p!").
Proof.
  destruct (write_at 8 3 (bytes "p!") 9 state) as [s' r] eqn:E.
  assert (r = Ok 2) as -> by (vm_compute in E; by injection E as _ <-).
  split; [done |]. apply (write_then_read state s' 8 8 4 3 9 2 (bytes "p!")); [apply state_wf | lia | vm_compute; reflexivity .. | exact E].
Defined.
Lemma writes_within_capacity_witness : used (set_file_size 8 1000 9 state).1 <= Z.max (used state) (fs_capacity state).
Proof. apply (writes_within_capacity state 8 0 1000 9 []); [apply state_wf | lia | lia]. Defined.
Lemma close_releases_witness : handles (close 8 state).1 !! 8 = None.
Proof.
  destruct (close 8 state) as [s' r] eqn:E. assert (r = Ok tt) as -> by (vm_compute in E; by injection E as _ <-).
  apply (close_releases state s' 8 state_wf E).
Defined.
Lemma directory_listing_witness : let '(s', r) := open_directory (bytes "/a") state in
  exists h, r = Ok h /\ read_times 3 h 255 s' = [Ok (bytes "b", NODE_DIRECTORY); Ok (bytes "f", NODE_FILE); Err ENotFound].
Proof.
  destruct (open_directory (bytes "/a") state) as [s' r] eqn:E. assert (r = Ok 72) as -> by (vm_compute in E; by injection E as _ <-).
  exists 72. split; [done |]. destruct (directory_listing state s' (bytes "/a") 72 255 state_wf ltac:(done) E) as (nd & es & Hw & He & Hr).
  assert (walk_node state (bytes "/a") Follow = Ok 2) as Ew by (vm_compute; reflexivity). rewrite Ew in Hw. injection Hw as <-.
  assert (exists es0, entries state 2 = Ok es0 /\ length (entries_list es0) = 2%nat /\
    (listed state <$> entries_list es0) = [Ok (bytes "b", NODE_DIRECTORY); Ok (bytes "f", NODE_FILE)]) as (es0 & He0 & Hl & Hm).
  { eexists. split; [vm_compute; reflexivity |]. split; vm_compute; reflexivity. }
  rewrite He0 in He. injection He as <-. rewrite Hl, Hm in Hr. exact Hr.
Defined.
End Sample.
