(* ===== verification/Front.v ===== *)
(** * Front.v: what the C front ends of the service groups share

    Every group of [src/src/] ([files.rs], [watches.rs], [mappings.rs], ...) is a set of C functions over a provider:
    a call checks its arguments, clears its outputs, asks the provider, checks the answer and counts the outcome in a
    static array of counters.  This file has the state of such a group ([Group]), the counting ([g_record]), and the
    argument and text contracts of [src/src/io.rs] ([path], [text]).

    The caller's memory is a map from addresses to what lies there: the fields of a struct, the bytes of a buffer, or
    one number.  A pointer to bytes that the callee only reads is a [Borrow]: the address and the bytes there. *)
From S2P Require Import Prelude Port Counter Boundary Tree.
Local Open Scope Z_scope.
Local Open Scope pal_scope.

Record Group (S : Type) := mkGroup { g_counts : nat -> Z; g_cells : gmap Z (list Z); g_provider : S }.
Arguments mkGroup {S} _ _ _.
Arguments g_counts {S} _ _.
Arguments g_cells {S} _.
Arguments g_provider {S} _.
Record Borrow := mkBorrow { b_address : Z; b_bytes : list Z }.

(** What the caller finds at an address. *)
Definition cell_is {S} (g : Group S) (out : Z) (value : list Z) : Prop := g_cells g !! out = Some value.

Section Group.
Context `{Arch} {S : Type}.
Implicit Types (g : Group S).

Definition g_bump (index : nat) g : Group S :=
  mkGroup (fun i => if decide (i = index) then increment (g_counts g i) else g_counts g i) (g_cells g) (g_provider g).
Definition g_put (out : Z) (value : list Z) g : Group S := mkGroup (g_counts g) (<[out := value]> (g_cells g)) (g_provider g).
Definition g_get (out : Z) g : list Z := default [] (g_cells g !! out).
Definition g_call {A} (op : M S Error A) g : Group S * Result A :=
  let '(p, r) := op (g_provider g) in (mkGroup (g_counts g) (g_cells g) p, r).

(** [fn record] of a group: a status that the call does not publish becomes [OS_ERROR]. *)
Definition g_record (keeps : Z -> bool) (failed : nat) (status : Z) (index : nat) g : Group S * Z :=
  let status := if keeps status then status else OS_ERROR in
  (g_bump (if status =? OK then index else failed) g, status).

(** [io::path]: a path argument is 1..=[MAX_NAME] bytes without a NUL. *)
Definition path (p : Borrow) : option (list Z) :=
  let length := lenZ (b_bytes p) in
  if (b_address p =? 0) || (length =? 0) || (MAX_NAME <? length)
     || match checked_add usize_max (b_address p) length with None => true | Some _ => false end
  then None
  else if existsb (fun b => b =? 0) (b_bytes p) then None else Some (b_bytes p).

(** [files::valid_buffer] and its copies in the other groups. *)
Definition valid_buffer (p size : Z) : bool :=
  (size <=? isize_max) &&
  ((size =? 0) || (negb (p =? 0) && match checked_add usize_max p size with Some _ => true | None => false end)).

(** The provider stores [bytes] at the start of the buffer at [out]. *)
Definition g_store (out : Z) (bytes : list Z) g : Group S := g_put out (bytes ++ dropZ (lenZ bytes) (g_get out g)) g.
(** [ptr::write_bytes(out, 0, capacity)] unless the buffer is empty. *)
Definition g_clear (out capacity : Z) g : Group S := if capacity =? 0 then g else g_put out (zeros capacity) g.

(** [io::text].  The provider answers the length it needs, and the bytes it stored when they fit. *)
Definition text (out capacity needed limit : Z) (op : M S Error (Z * option (list Z))) g : Group S * Z :=
  let g := g_clear out capacity g in
  let '(g, r) := g_call op g in
  let '(g, status) :=
    match r with
    | Ok (length, stored) =>
        let g := match stored with Some bytes => g_store out bytes g | None => g end in
        if negb ((2 <=? length) && (length <=? limit)) then (g, OS_ERROR)
        else if capacity <? length then (g_put needed [length] g, BUFFER_TOO_SMALL)
        else
          let bytes := takeZ length (g_get out g) in
          if negb (bool_decide (bytes !! Z.to_nat (length - 1) = Some 0)) || existsb (fun b => b =? 0) (takeZ (length - 1) bytes)
          then (g, OS_ERROR) else (g_put needed [length] g, OK)
    | Err e => (g, status_of e)
    end in
  (if status =? OK then g else g_clear out capacity g, status).
End Group.

(** ** Facts *)
Section Facts.
Context `{Arch} {S : Type}.
Implicit Types (g : Group S).

Lemma path_Some p bytes : path p = Some bytes <->
  bytes = b_bytes p /\ b_address p <> 0 /\ 1 <= lenZ bytes <= MAX_NAME /\ b_address p + lenZ bytes <= usize_max /\ 0 ∉ bytes.
Proof.
  unfold path. destruct p as [a bs]. simpl. pose proof (lenZ_nonneg bs).
  assert (existsb (fun b => b =? 0) bs = false <-> 0 ∉ bs) as Hx.
  { rewrite <- not_true_iff_false, existsb_exists, list_elem_of_In. split.
    - intros Hn Hin. apply Hn. exists 0. done.
    - intros Hn (x & Hin & ->%Z.eqb_eq). done. }
  destruct (checked_add usize_max a (lenZ bs)) eqn:Hc; [apply checked_add_Some in Hc | apply checked_add_None in Hc];
    destruct (Z.eqb_spec a 0), (Z.eqb_spec (lenZ bs) 0), (Z.ltb_spec MAX_NAME (lenZ bs)); simpl;
    try (split; [done | intros (-> & ?); lia]);
    destruct (existsb (fun b => b =? 0) bs) eqn:Hz; (split; [intros [= <-] || done | intros (-> & _ & _ & _ & Hn)]); try done;
    try (apply Hx in Hn; congruence); split_and!; try done; try lia; by apply Hx.
Qed.

(** The counters after one call: exactly one went up. *)
Definition counted g g' (index : nat) : Prop :=
  forall i, g_counts g' i = if decide (i = index) then increment (g_counts g i) else g_counts g i.
(** A call that ends in [g_record] after it left the counters alone. *)
Lemma g_record_counted keeps failed status index g g' st g0 : (forall i, g_counts g i = g_counts g0 i) ->
  g_record keeps failed status index g = (g', st) ->
  counted g0 g' (if st =? OK then index else failed) /\ g_cells g' = g_cells g /\ g_provider g' = g_provider g /\
  (st = OS_ERROR \/ (st = status /\ keeps st = true)).
Proof.
  intros Hc [= <- <-]. split_and!; [| done | done | destruct (keeps status) eqn:E; auto].
  intros i. simpl. by rewrite Hc.
Qed.
Lemma g_call_frame {A} (op : M S Error A) g g' r : g_call op g = (g', r) ->
  g_counts g' = g_counts g /\ g_cells g' = g_cells g /\ (g_provider g', r) = op (g_provider g).
Proof. unfold g_call. destruct (op (g_provider g)) as [p r0]. by intros [= <- <-]. Qed.
End Facts.
