(* ===== verification/FilesApi.v ===== *)
(** * FilesApi.v: the C front end of the files group

    [src/src/files.rs] over any provider of the trait [Files] ([src/src/port.rs]), and the in-memory file system as
    such a provider.  A front end promises the C consumer more than the provider's types do (published statuses only,
    outputs cleared on failure, counts within bounds, well-formed names and texts); these promises are proved against
    the trait, for every provider, and then for [MemFs]. *)
From S2P Require Import Prelude Port Counter Boundary Content Queue Locks Tree MemFs Front.
Local Open Scope Z_scope.
Local Open Scope pal_scope.

(** ** The trait [Files] *)
(** A call that fills a buffer answers what it reports and the bytes it stored; [f_lock] is [None] while it waits.
    Nothing keeps a failing call from writing into the buffer that it was handed: [f_read_left] and [f_directory_left] are
    the bytes that a call of [read_at] or [read_directory] in that state, should it fail, has left there. *)
Class Files (S : Type) := {
  files_PROVIDED : bool;
  f_open : list Z -> Z -> Z -> M S Error Z;
  f_close : Z -> M S Error unit;
  f_read_at : Z -> Z -> Z -> M S Error (Z * list Z);
  f_read_left : Z -> Z -> Z -> S -> list Z;
  f_write_at : Z -> Z -> list Z -> M S Error Z;
  f_set_size : Z -> Z -> M S Error unit;
  f_flush : Z -> M S Error unit;
  f_status : Z -> M S Error Status;
  f_path_status : list Z -> bool -> M S Error Status;
  f_remove : list Z -> M S Error unit;
  f_rename : list Z -> list Z -> M S Error unit;
  f_create_directory : list Z -> Z -> M S Error unit;
  f_remove_directory : list Z -> M S Error unit;
  f_open_directory : list Z -> M S Error Z;
  f_read_directory : Z -> Z -> M S Error (Z * list Z * Z);
  f_directory_left : Z -> Z -> S -> list Z;
  f_close_directory : Z -> M S Error unit;
  f_current_directory : Z -> M S Error (Z * option (list Z));
  f_set_mode : list Z -> Z -> M S Error unit;
  f_set_file_mode : Z -> Z -> M S Error unit;
  f_set_times : list Z -> bool -> option Z -> option Z -> M S Error unit;
  f_set_file_times : Z -> option Z -> option Z -> M S Error unit;
  f_link : list Z -> list Z -> M S Error unit;
  f_symlink : list Z -> list Z -> M S Error unit;
  f_read_link : list Z -> Z -> M S Error (Z * option (list Z));
  f_real_path : list Z -> Z -> M S Error (Z * option (list Z));
  f_set_current_directory : list Z -> M S Error unit;
  f_lock : Z -> Z -> bool -> S -> S * option (Result unit);
  f_lock_range : Z -> Z -> Z -> Z -> M S Error unit;
}.

Definition NODE_OTHER : Z := 4.
Definition TIME_KEEP : Z := u64_max.
(** [mode & !MODE_MASK != 0] *)
Definition bad_mode (md : Z) : bool := negb (Z.land md (Z.lnot MODE_MASK) =? 0).
Definition valid_open (flags : Z) : bool :=
  (Z.land flags (Z.lnot (Z.lor READ (Z.lor WRITE (Z.lor CREATE (Z.lor EXCLUSIVE TRUNCATE))))) =? 0) && has flags (Z.lor READ WRITE)
  && (negb (has flags EXCLUSIVE) || has flags CREATE) && (negb (has flags TRUNCATE) || has flags WRITE).
(** [Status::consistent] *)
Definition consistent (s : Status) : bool := (NODE_FILE <=? st_kind s) && (st_kind s <=? NODE_OTHER) && negb (bad_mode (st_mode s)).
Definition status_fields (s : Status) : list Z :=
  [st_kind s; st_mode s; st_size s; st_modified s; st_accessed s; st_changed s; st_created s; st_identity s; st_device s].
Definition status_default : list Z := replicate 9 0.
(** [fn times] *)
Definition times (accessed_ns modified_ns : Z) : option (option Z * option Z) :=
  let one ns := if ns =? TIME_KEEP then Some None else if i64_max <? ns then None else Some (Some ns) in
  match one accessed_ns, one modified_ns with Some a, Some m => Some (a, m) | _, _ => None end.

(** ** The front end *)
Definition F_FAILED : nat := 10.
Definition F_ATTRIBUTE : nat := 11.
Definition F_LINK : nat := 12.
Definition F_LOCK : nat := 13.
Definition files_statuses : list Z :=
  [OK; UNSUPPORTED; INVALID_ARGUMENT; OS_ERROR; OUT_OF_MEMORY; BUSY; NOT_FOUND; ALREADY_EXISTS; ACCESS_DENIED; IS_DIRECTORY;
   NOT_DIRECTORY; NOT_EMPTY; NO_SPACE; TOO_MANY_HANDLES; NAME_TOO_LONG; READ_ONLY; CROSS_DEVICE].
Definition files_keeps (status : Z) : bool := existsb (Z.eqb status) files_statuses.

Section Front.
Context `{Arch} {S : Type} {FS : Files S}.
Implicit Types (g : Group S).

Definition files_record (status : Z) (index : nat) g : Group S * Z := g_record files_keeps F_FAILED status index g.
Definition files_handle (out : Z) (r : Result Z) g : Group S * Z :=
  match r with
  | Ok value => if value =? 0 then (g, OS_ERROR) else (g_put out [value] g, OK)
  | Err e => (g, status_of e)
  end.
Definition files_open (p : Borrow) (flags md out : Z) g : Group S * Z :=
  if negb (aligned_output align_of_usize out) then files_record INVALID_ARGUMENT 0 g else
  let g := g_put out [0] g in
  match path p with
  | None => files_record INVALID_ARGUMENT 0 g
  | Some p =>
      if negb (valid_open flags) || bad_mode md then files_record INVALID_ARGUMENT 0 g else
      let '(g, r) := g_call (f_open p flags md) g in
      let '(g, status) := files_handle out r g in files_record status 0 g
  end.
(** [if file.is_null() { INVALID_ARGUMENT } else { record(status(F::op(file)), index) }] *)
Definition on_handle (refused : bool) (op : M S Error unit) (index : nat) g : Group S * Z :=
  if refused then files_record INVALID_ARGUMENT index g else
  let '(g, r) := g_call op g in files_record (status r) index g.
Definition files_close (file : Z) : Group S -> Group S * Z := on_handle (file =? 0) (f_close file) 1.
Definition files_read_at (file offset data capacity got : Z) g : Group S * Z :=
  if negb (aligned_output align_of_usize got) then files_record INVALID_ARGUMENT 2 g else
  let g := g_put got [0] g in
  if (file =? 0) || negb (valid_buffer data capacity) || (i64_max <? offset) then files_record INVALID_ARGUMENT 2 g else
  if capacity =? 0 then files_record OK 2 g else
  let left := f_read_left file offset capacity (g_provider g) in
  let '(g, r) := g_call (f_read_at file offset capacity) g in
  let '(g, status) :=
    match r with
    | Ok (done, stored) =>
        let g := g_store data stored g in
        if capacity <? done then (g, OS_ERROR) else (g_put got [done] g, OK)
    | Err e => (g_store data left g, status_of e)
    end in
  files_record status 2 g.
Definition files_write_at (file offset : Z) (d : Borrow) (written : Z) g : Group S * Z :=
  let size := lenZ (b_bytes d) in
  if negb (aligned_output align_of_usize written) then files_record INVALID_ARGUMENT 3 g else
  let g := g_put written [0] g in
  if (file =? 0) || negb (valid_buffer (b_address d) size) || (i64_max <? offset) || (i64_max <? offset + size)
  then files_record INVALID_ARGUMENT 3 g else
  if size =? 0 then files_record OK 3 g else
  let '(g, r) := g_call (f_write_at file offset (b_bytes d)) g in
  let '(g, status) :=
    match r with
    | Ok done => if done =? 0 then (g, OS_ERROR) else if size <? done then (g, OS_ERROR) else (g_put written [done] g, OK)
    | Err e => (g, status_of e)
    end in
  files_record status 3 g.
Definition files_set_size (file size : Z) : Group S -> Group S * Z :=
  on_handle ((file =? 0) || (i64_max <? size)) (f_set_size file size) 4.
Definition files_flush (file : Z) : Group S -> Group S * Z := on_handle (file =? 0) (f_flush file) 5.
Definition describe (out : Z) (r : Result Status) g : Group S * Z :=
  match r with
  | Ok value => if negb (consistent value) then (g, OS_ERROR) else (g_put out (status_fields value) g, OK)
  | Err e => (g, status_of e)
  end.
Definition size_of_Status : Z := 64.
Definition files_status (file out size : Z) g : Group S * Z :=
  if negb (aligned_output align_of_u64 out) || (size <? size_of_Status) then files_record INVALID_ARGUMENT 6 g else
  let g := g_put out status_default g in
  if file =? 0 then files_record INVALID_ARGUMENT 6 g else
  let '(g, r) := g_call (f_status file) g in
  let '(g, status) := describe out r g in files_record status 6 g.
Definition files_path_status (p : Borrow) (follow out size : Z) g : Group S * Z :=
  if negb (aligned_output align_of_u64 out) || (size <? size_of_Status) then files_record INVALID_ARGUMENT 6 g else
  let g := g_put out status_default g in
  match path p with
  | None => files_record INVALID_ARGUMENT 6 g
  | Some p =>
      if 1 <? follow then files_record INVALID_ARGUMENT 6 g else
      let '(g, r) := g_call (f_path_status p (negb (follow =? 0))) g in
      let '(g, status) := describe out r g in files_record status 6 g
  end.
(** A call on one path or on two, with one more condition on the other arguments. *)
Definition on_path (p : Borrow) (refused : bool) (op : list Z -> M S Error unit) (index : nat) g : Group S * Z :=
  match path p with
  | None => files_record INVALID_ARGUMENT index g
  | Some p => if refused then files_record INVALID_ARGUMENT index g else
      let '(g, r) := g_call (op p) g in files_record (status r) index g
  end.
Definition on_paths (p q : Borrow) (op : list Z -> list Z -> M S Error unit) (index : nat) g : Group S * Z :=
  match path p, path q with
  | Some p, Some q => let '(g, r) := g_call (op p q) g in files_record (status r) index g
  | _, _ => files_record INVALID_ARGUMENT index g
  end.
Definition files_remove (p : Borrow) : Group S -> Group S * Z := on_path p false f_remove 7.
Definition files_rename (from to : Borrow) : Group S -> Group S * Z := on_paths from to f_rename 8.
Definition files_directory_create (p : Borrow) (md : Z) : Group S -> Group S * Z :=
  on_path p (bad_mode md) (fun p => f_create_directory p md) 9.
Definition files_directory_remove (p : Borrow) : Group S -> Group S * Z := on_path p false f_remove_directory 9.
Definition files_directory_open (p : Borrow) (out : Z) g : Group S * Z :=
  if negb (aligned_output align_of_usize out) then files_record INVALID_ARGUMENT 9 g else
  let g := g_put out [0] g in
  match path p with
  | None => files_record INVALID_ARGUMENT 9 g
  | Some p =>
      let '(g, r) := g_call (f_open_directory p) g in
      let '(g, status) := files_handle out r g in files_record status 9 g
  end.
(** A name that the consumer may be given. *)
Definition listable (text : list Z) (node : Z) : bool :=
  (NODE_FILE <=? node) && (node <=? NODE_OTHER) && negb (existsb (fun b => b =? 0) text) && negb (existsb (fun b => b =? SLASH) text).
(** The loop of [directory_read]: [None] when the provider listed [fuel] self references in a row. *)
Fixpoint directory_read_loop (fuel : nat) (directory nm capacity length kind : Z) g : Group S * option Z :=
  match fuel with
  | O => (g, None)
  | Datatypes.S fuel =>
      let finish (status : Z) g := let '(g, st) := files_record status 9 g in (g, Some st) in
      let g := g_put nm (zeros capacity) g in
      let left := f_directory_left directory capacity (g_provider g) in
      let '(g, r) := g_call (f_read_directory directory capacity) g in
      match r with
      | Err e => finish (status_of e) (g_put nm (zeros capacity) (g_store nm left g))
      | Ok (done, stored, node) =>
          let g := g_store nm stored g in
          let text := if (done =? 0) || (MAX_ENTRY_NAME <? done) then None else Some (takeZ done (g_get nm g)) in
          match text with
          | None => finish OS_ERROR (g_put nm (zeros capacity) g)
          | Some text =>
              if bool_decide (text = [DOT]) || bool_decide (text = [DOT; DOT])
              then directory_read_loop fuel directory nm capacity length kind g
              else if listable text node then finish OK (g_put kind [node] (g_put length [done] g))
              else finish OS_ERROR (g_put nm (zeros capacity) g)
          end
      end
  end.
Definition files_directory_read (fuel : nat) (directory nm capacity length kind : Z) g : Group S * option Z :=
  let refuse g := let '(g, st) := files_record INVALID_ARGUMENT 9 g in (g, Some st) in
  if negb (aligned_output align_of_usize length) || negb (aligned_output 4 kind) then refuse g else
  let g := g_put kind [0] (g_put length [0] g) in
  if (directory =? 0) || (nm =? 0) || (capacity <? MAX_ENTRY_NAME) || negb (valid_buffer nm capacity) then refuse g else
  directory_read_loop fuel directory nm capacity length kind g.
Definition files_directory_close (directory : Z) : Group S -> Group S * Z := on_handle (directory =? 0) (f_close_directory directory) 9.
(** [BUFFER_TOO_SMALL] is kept where a text is answered. *)
Definition record_text (status : Z) (index : nat) g : Group S * Z :=
  if status =? BUFFER_TOO_SMALL then (g_bump F_FAILED g, status) else files_record status index g.
Definition files_current_directory (out capacity needed : Z) g : Group S * Z :=
  if negb (aligned_output align_of_usize needed) || negb (valid_buffer out capacity) then files_record INVALID_ARGUMENT 9 g else
  let g := g_put needed [0] g in
  let '(g, status) := text out capacity needed (MAX_NAME + 1) (f_current_directory capacity) g in
  record_text status 9 g.
Definition files_set_mode (p : Borrow) (md : Z) : Group S -> Group S * Z :=
  on_path p (bad_mode md) (fun p => f_set_mode p md) F_ATTRIBUTE.
Definition files_set_file_mode (file md : Z) : Group S -> Group S * Z :=
  on_handle ((file =? 0) || bad_mode md) (f_set_file_mode file md) F_ATTRIBUTE.
Definition files_set_times (p : Borrow) (follow accessed_ns modified_ns : Z) g : Group S * Z :=
  match path p with
  | None => files_record INVALID_ARGUMENT F_ATTRIBUTE g
  | Some p =>
      match times accessed_ns modified_ns with
      | None => files_record INVALID_ARGUMENT F_ATTRIBUTE g
      | Some (a, m) =>
          if 1 <? follow then files_record INVALID_ARGUMENT F_ATTRIBUTE g else
          let '(g, r) := g_call (f_set_times p (negb (follow =? 0)) a m) g in files_record (status r) F_ATTRIBUTE g
      end
  end.
Definition files_set_file_times (file accessed_ns modified_ns : Z) g : Group S * Z :=
  match times accessed_ns modified_ns with
  | None => files_record INVALID_ARGUMENT F_ATTRIBUTE g
  | Some (a, m) => on_handle (file =? 0) (f_set_file_times file a m) F_ATTRIBUTE g
  end.
Definition files_link (existing created_ : Borrow) : Group S -> Group S * Z := on_paths existing created_ f_link F_LINK.
Definition files_symlink (target created_ : Borrow) : Group S -> Group S * Z := on_paths target created_ f_symlink F_LINK.
Definition path_text (p : Borrow) (out capacity needed : Z) (op : list Z -> M S Error (Z * option (list Z))) g : Group S * Z :=
  if negb (aligned_output align_of_usize needed) || negb (valid_buffer out capacity) then files_record INVALID_ARGUMENT F_LINK g else
  let g := g_put needed [0] g in
  match path p with
  | None => files_record INVALID_ARGUMENT F_LINK g
  | Some p =>
      let '(g, status) := text out capacity needed (MAX_NAME + 1) (op p) g in
      record_text status F_LINK g
  end.
Definition files_read_link (p : Borrow) (out capacity needed : Z) : Group S -> Group S * Z :=
  path_text p out capacity needed (fun p => f_read_link p capacity).
Definition files_real_path (p : Borrow) (out capacity needed : Z) : Group S -> Group S * Z :=
  path_text p out capacity needed (fun p => f_real_path p capacity).
Definition files_set_current_directory (p : Borrow) : Group S -> Group S * Z := on_path p false f_set_current_directory 9.
Definition record_lock (status : Z) (may_refuse : bool) g : Group S * Z :=
  if (status =? WOULD_BLOCK) && may_refuse then (g_bump F_FAILED g, status) else files_record status F_LOCK g.
Definition bad_lock_mode (md : Z) : bool := negb ((LOCK_SHARED <=? md) && (md <=? LOCK_UNLOCK)).
Definition files_lock (file md wait : Z) g : Group S * option Z :=
  if (file =? 0) || bad_lock_mode md || (1 <? wait) then let '(g, st) := files_record INVALID_ARGUMENT F_LOCK g in (g, Some st) else
  let '(p, r) := f_lock file md (negb (wait =? 0)) (g_provider g) in
  let g := mkGroup (g_counts g) (g_cells g) p in
  match r with
  | None => (g, None)
  | Some r => let '(g, st) := record_lock (status r) ((wait =? 0) && negb (md =? LOCK_UNLOCK)) g in (g, Some st)
  end.
Definition files_lock_range (file offset length md : Z) g : Group S * Z :=
  if (file =? 0) || bad_lock_mode md || (length =? 0) || (i64_max <? offset) || (i64_max - offset <? length)
  then files_record INVALID_ARGUMENT F_LOCK g else
  let '(g, r) := g_call (f_lock_range file offset length md) g in
  record_lock (status r) (negb (md =? LOCK_UNLOCK)) g.
Definition size_of_files_Stats : Z := 112.
Definition files_read_stats (out size : Z) g : Group S * Z :=
  if negb (aligned_output align_of_u64 out) || (size <? size_of_files_Stats) then (g, INVALID_ARGUMENT) else
  (g_put out (load <$> (g_counts g <$> seq 0 14)) g, OK).
End Front.

(** ** All calls of the group *)
Inductive FilesCall :=
| FOpen (p : Borrow) (flags md out : Z) | FClose (file : Z)
| FReadAt (file offset data capacity got : Z) | FWriteAt (file offset : Z) (d : Borrow) (written : Z)
| FSetSize (file size : Z) | FFlush (file : Z) | FStatus (file out size : Z) | FPathStatus (p : Borrow) (follow out size : Z)
| FRemove (p : Borrow) | FRename (from to : Borrow) | FDirectoryCreate (p : Borrow) (md : Z) | FDirectoryRemove (p : Borrow)
| FDirectoryOpen (p : Borrow) (out : Z) | FDirectoryRead (fuel : nat) (directory nm capacity length kind : Z) | FDirectoryClose (directory : Z)
| FCurrentDirectory (out capacity needed : Z)
| FSetMode (p : Borrow) (md : Z) | FSetFileMode (file md : Z)
| FSetTimes (p : Borrow) (follow a m : Z) | FSetFileTimes (file a m : Z)
| FLink (p q : Borrow) | FSymlink (p q : Borrow) | FReadLink (p : Borrow) (out capacity needed : Z) | FRealPath (p : Borrow) (out capacity needed : Z)
| FSetCurrentDirectory (p : Borrow) | FLock (file md wait : Z) | FLockRange (file offset length md : Z).

(** The counter of the call's successes. *)
Definition success_index (c : FilesCall) : nat :=
  match c with
  | FOpen _ _ _ _ => 0 | FClose _ => 1 | FReadAt _ _ _ _ _ => 2 | FWriteAt _ _ _ _ => 3 | FSetSize _ _ => 4 | FFlush _ => 5
  | FStatus _ _ _ | FPathStatus _ _ _ _ => 6 | FRemove _ => 7 | FRename _ _ => 8
  | FDirectoryCreate _ _ | FDirectoryRemove _ | FDirectoryOpen _ _ | FDirectoryRead _ _ _ _ _ _ | FDirectoryClose _
  | FCurrentDirectory _ _ _ | FSetCurrentDirectory _ => 9
  | FSetMode _ _ | FSetFileMode _ _ | FSetTimes _ _ _ _ | FSetFileTimes _ _ _ => F_ATTRIBUTE
  | FLink _ _ | FSymlink _ _ | FReadLink _ _ _ _ | FRealPath _ _ _ _ => F_LINK
  | FLock _ _ _ | FLockRange _ _ _ _ => F_LOCK
  end.
(** The statuses the header publishes for the call. *)
Definition published (c : FilesCall) (st : Z) : Prop :=
  st ∈ files_statuses \/
  match c with
  | FCurrentDirectory _ _ _ | FReadLink _ _ _ _ | FRealPath _ _ _ _ => st = BUFFER_TOO_SMALL
  | FLock _ md wait => st = WOULD_BLOCK /\ wait = 0 /\ md <> LOCK_UNLOCK
  | FLockRange _ _ _ md => st = WOULD_BLOCK /\ md <> LOCK_UNLOCK
  | _ => False
  end.

Section Calls.
Context `{Arch} {S : Type} {FS : Files S}.
Implicit Types (g : Group S).

Definition returns (r : Group S * Z) : Group S * option Z := (r.1, Some r.2).
(** A call; [None] when it has not returned (a lock that waits, a provider that lists only self references). *)
Definition files_call (c : FilesCall) g : Group S * option Z :=
  match c with
  | FOpen p flags md out => returns (files_open p flags md out g) | FClose file => returns (files_close file g)
  | FReadAt file o data cap got => returns (files_read_at file o data cap got g)
  | FWriteAt file o d written => returns (files_write_at file o d written g)
  | FSetSize file n => returns (files_set_size file n g) | FFlush file => returns (files_flush file g)
  | FStatus file out size => returns (files_status file out size g)
  | FPathStatus p follow out size => returns (files_path_status p follow out size g)
  | FRemove p => returns (files_remove p g) | FRename p q => returns (files_rename p q g)
  | FDirectoryCreate p md => returns (files_directory_create p md g) | FDirectoryRemove p => returns (files_directory_remove p g)
  | FDirectoryOpen p out => returns (files_directory_open p out g)
  | FDirectoryRead fuel d nm cap len kind => files_directory_read fuel d nm cap len kind g
  | FDirectoryClose d => returns (files_directory_close d g)
  | FCurrentDirectory out cap needed => returns (files_current_directory out cap needed g)
  | FSetMode p md => returns (files_set_mode p md g) | FSetFileMode file md => returns (files_set_file_mode file md g)
  | FSetTimes p follow a m => returns (files_set_times p follow a m g) | FSetFileTimes file a m => returns (files_set_file_times file a m g)
  | FLink p q => returns (files_link p q g) | FSymlink p q => returns (files_symlink p q g)
  | FReadLink p out cap needed => returns (files_read_link p out cap needed g)
  | FRealPath p out cap needed => returns (files_real_path p out cap needed g)
  | FSetCurrentDirectory p => returns (files_set_current_directory p g)
  | FLock file md wait => files_lock file md wait g | FLockRange file o n md => returns (files_lock_range file o n md g)
  end.

(** ** Counting and statuses *)
Lemma keeps_published st : files_keeps st = true <-> st ∈ files_statuses.
Proof.
  unfold files_keeps. rewrite existsb_exists. split.
  - intros (x & Hin & ->%Z.eqb_eq). by apply list_elem_of_In.
  - intros Hin. exists st. split; [by apply list_elem_of_In | apply Z.eqb_refl].
Qed.
(** How every call ends: with the counters untouched until then, one of the two recorders. *)
Definition ends g0 (index : nat) (extra : Z -> Prop) (r : Group S * option Z) : Prop :=
  match r with
  | (g', Some st) => counted g0 g' (if st =? OK then index else F_FAILED) /\ (st ∈ files_statuses \/ extra st)
  | (g', None) => g_counts g' = g_counts g0
  end.
Lemma ends_record g0 g index extra status : g_counts g = g_counts g0 -> ends g0 index extra (returns (files_record status index g)).
Proof.
  intros Hc. unfold returns. destruct (files_record status index g) as [g' st] eqn:Hr. simpl.
  unfold files_record in Hr. apply (g_record_counted _ _ _ _ _ _ _ g0) in Hr as (Hcnt & _ & _ & Hst); [| by rewrite Hc].
  split; [done |]. left. destruct Hst as [-> | [_ Hk]]; [| by apply keeps_published]. unfold files_statuses. set_solver.
Qed.
Lemma ends_failed g0 g index (extra : Z -> Prop) status : g_counts g = g_counts g0 -> status <> OK -> extra status ->
  ends g0 index extra (returns (g_bump F_FAILED g, status)).
Proof.
  intros Hc Hok Hx. simpl. apply Z.eqb_neq in Hok. rewrite Hok. split; [| by right]. intros i. simpl. by rewrite Hc.
Qed.
Lemma ends_record_text g0 g index (extra : Z -> Prop) st : g_counts g = g_counts g0 -> extra BUFFER_TOO_SMALL ->
  ends g0 index extra (returns (record_text st index g)).
Proof.
  intros Hc Hx. unfold record_text. destruct (Z.eqb_spec st BUFFER_TOO_SMALL) as [-> |]; [| by apply ends_record].
  by apply ends_failed.
Qed.
Lemma ends_record_lock g0 g (extra : Z -> Prop) st may : g_counts g = g_counts g0 -> (may = true -> extra WOULD_BLOCK) ->
  ends g0 F_LOCK extra (returns (record_lock st may g)).
Proof.
  intros Hc Hx. unfold record_lock. destruct (Z.eqb_spec st WOULD_BLOCK) as [-> |]; [| by apply ends_record].
  destruct may; [apply ends_failed; auto; done | by apply ends_record].
Qed.
Lemma ends_pair g0 index extra (r : Group S * Z) :
  ends g0 index extra (returns r) -> ends g0 index extra (let '(g, st) := r in (g, Some st)).
Proof. by destruct r. Qed.
Lemma text_counts out cap needed limit op g g' st : text out cap needed limit op g = (g', st) -> g_counts g' = g_counts g.
Proof.
  unfold text. destruct (g_call op _) as [g1 r] eqn:Hc. apply g_call_frame in Hc as (Hc & _).
  assert (forall g0, g_counts (g_clear out cap g0) = g_counts g0) as Hcl by (intros g0; unfold g_clear; by destruct (_ =? _)).
  rewrite Hcl in Hc.
  assert (forall g0 w, g_counts (match w with Some b => g_store out b g0 | None => g0 end) = g_counts g0) as Hst by by intros ? [].
  destruct r as [[len w] | e]; [destruct (negb _); [| destruct (_ <? _); [| destruct (_ || _)]] |];
    intros [= <- <-]; try destruct (_ =? _); rewrite ?Hcl; simpl; rewrite ?Hst; congruence.
Qed.
Ltac frame_call := match goal with
  | |- context [g_call ?op ?g] =>
      let g' := fresh "g" in let r := fresh "r" in let E := fresh "E" in
      destruct (g_call op g) as [g' r] eqn:E; apply g_call_frame in E as (E & _ & _); simpl in E
  | |- context [text ?a ?b ?c ?d ?op ?g] =>
      let g' := fresh "g" in let st := fresh "st" in let E := fresh "E" in
      destruct (text a b c d op g) as [g' st] eqn:E; apply text_counts in E; simpl in E
  end.
Ltac split_call := match goal with
  | |- context [match path ?p with _ => _ end] => destruct (path p)
  | |- context [match times ?a ?m with _ => _ end] => destruct (times a m) as [[? ?] |]
  | |- context [if ?b then _ else _] => destruct b eqn:?
  | |- context [match ?r with Ok _ => _ | Err _ => _ end] => destruct r as [? | ?]
  | |- context [let '(_, _) := ?x in _] => is_var x; destruct x
  end.
Lemma directory_read_loop_ends fuel d nm cap len kind g g0 extra : g_counts g = g_counts g0 ->
  ends g0 9 extra (directory_read_loop fuel d nm cap len kind g).
Proof.
  revert g. induction fuel as [| fuel IH]; intros g Hc; [done |]. cbn [directory_read_loop]. cbn zeta. frame_call.
  destruct r as [[[done stored] node] | e]; [| apply ends_pair, ends_record; simpl; congruence].
  destruct (_ || _); [apply ends_pair, ends_record; simpl; congruence |].
  destruct (_ || _); [apply IH; simpl; congruence |].
  destruct (listable _ _); apply ends_pair, ends_record; simpl; congruence.
Qed.
Lemma files_call_ends c g : ends g (success_index c) (fun st => published c st) (files_call c g).
Proof.
  destruct c; cbn [files_call success_index];
    unfold files_open, files_close, files_read_at, files_write_at, files_set_size, files_flush, files_status, files_path_status,
      files_remove, files_rename, files_directory_create, files_directory_remove, files_directory_open, files_directory_read,
      files_directory_close, files_current_directory, files_set_mode, files_set_file_mode, files_set_times, files_set_file_times,
      files_link, files_symlink, files_read_link, files_real_path, path_text, files_set_current_directory, files_lock,
      files_lock_range, on_handle, on_path, on_paths, describe, files_handle; cbn zeta;
    try solve [repeat first [frame_call | split_call]; (apply ends_record || apply ends_pair, ends_record); simpl in *; congruence].
  - repeat split_call; first [by apply ends_pair, ends_record | by apply directory_read_loop_ends].
  - repeat first [frame_call | split_call]; first [by apply ends_record | by apply ends_record_text; [| right]].
  - repeat first [frame_call | split_call]; first [by apply ends_record | by apply ends_record_text; [| right]].
  - repeat first [frame_call | split_call]; first [by apply ends_record | by apply ends_record_text; [| right]].
  - split_call; [by apply ends_pair, ends_record |]. destruct (f_lock _ _ _ _) as [p [r |]]; [| done].
    apply ends_pair, ends_record_lock; [done |]. intros Hm. right. lia.
  - repeat first [frame_call | split_call]; [by apply ends_record |]. apply ends_record_lock; [done |]. intros Hm. right. lia.
Qed.

(** Counting and statuses of the files group, for every provider and every call that returns: exactly one counter
    goes up, the call's own on success and the failure counter otherwise, and the status is one that is published for
    that call: [BUFFER_TOO_SMALL] only from a text, [WOULD_BLOCK] only from a lock that does not wait.  A call that has
    not returned has counted nothing. *)
Theorem files_calls_counted (c : FilesCall) g :
  match files_call c g with
  | (g', Some st) => counted g g' (if st =? OK then success_index c else F_FAILED) /\ published c st
  | (g', None) => g_counts g' = g_counts g
  end.
Proof.
  pose proof (files_call_ends c g) as He. unfold ends in He. destruct (files_call c g) as [g' [st |]]; [| done].
  destruct He as [? [? | ?]]; split; try done. by left.
Qed.

(** ** What the consumer finds in its outputs *)
(** A text answer: with its NUL and without another one when it fits, its length alone when it does not. *)
Definition text_answer g (st out capacity needed : Z) : Prop :=
  if st =? OK then exists t rest, 1 <= lenZ t <= MAX_NAME /\ lenZ t + 1 <= capacity /\ 0 ∉ t /\ cell_is g needed [lenZ t + 1] /\ cell_is g out (t ++ [0] ++ rest)
  else (capacity <> 0 -> cell_is g out (zeros capacity)) /\
       exists n, cell_is g needed [n] /\ (n = 0 \/ (st = BUFFER_TOO_SMALL /\ capacity < n <= MAX_NAME + 1)).
(** The promise about the outputs of a call, once they are aligned and large enough to be written. *)
Definition outputs (c : FilesCall) (st : Z) g : Prop :=
  match c with
  | FOpen _ _ _ out | FDirectoryOpen _ out =>
      aligned_output align_of_usize out = true -> if st =? OK then exists h, h <> 0 /\ cell_is g out [h] else cell_is g out [0]
  | FReadAt _ _ data capacity got =>
      aligned_output align_of_usize got = true -> data <> got ->
      if st =? OK then exists k, k <= Z.max 0 capacity /\ cell_is g got [k] else cell_is g got [0]
  | FWriteAt _ _ d written =>
      aligned_output align_of_usize written = true ->
      if st =? OK then exists k, k <= lenZ (b_bytes d) /\ (k = 0 <-> lenZ (b_bytes d) = 0) /\ cell_is g written [k] else cell_is g written [0]
  | FStatus _ out size | FPathStatus _ _ out size =>
      aligned_output align_of_u64 out = true -> size_of_Status <= size ->
      if st =? OK then exists s, consistent s = true /\ cell_is g out (status_fields s) else cell_is g out status_default
  | FDirectoryRead _ d nm capacity length kind =>
      aligned_output align_of_usize length = true -> aligned_output 4 kind = true -> nm <> length -> nm <> kind -> length <> kind ->
      if st =? OK then
        exists t rest node, 1 <= lenZ t <= MAX_ENTRY_NAME /\ 0 ∉ t /\ SLASH ∉ t /\ t <> [DOT] /\ t <> [DOT; DOT] /\
          NODE_FILE <= node <= NODE_OTHER /\ cell_is g length [lenZ t] /\ cell_is g kind [node] /\ cell_is g nm (t ++ rest)
      else cell_is g length [0] /\ cell_is g kind [0] /\
           (d <> 0 -> nm <> 0 -> MAX_ENTRY_NAME <= capacity -> valid_buffer nm capacity = true -> cell_is g nm (zeros capacity))
  | FCurrentDirectory out capacity needed =>
      aligned_output align_of_usize needed = true -> valid_buffer out capacity = true -> out <> needed -> 0 <= capacity ->
      text_answer g st out capacity needed
  | FReadLink p out capacity needed | FRealPath p out capacity needed =>
      aligned_output align_of_usize needed = true -> valid_buffer out capacity = true -> out <> needed -> 0 <= capacity ->
      if path p then text_answer g st out capacity needed else st = INVALID_ARGUMENT /\ cell_is g needed [0]
  | _ => True
  end.

Lemma files_record_cells status index g g' st : files_record status index g = (g', st) ->
  g_cells g' = g_cells g /\ (st =? OK) = (status =? OK) /\ (st =? BUFFER_TOO_SMALL) = false.
Proof.
  intros [= <- <-]. split; [done |]. destruct (files_keeps status) eqn:Hk.
  - split; [done |]. apply Z.eqb_neq. intros ->. done.
  - split; [| done]. change (OS_ERROR =? OK) with false. symmetry. apply Z.eqb_neq. intros ->. done.
Qed.
Lemma existsb_zero_false l : existsb (fun b => b =? 0) l = false -> 0 ∉ l.
Proof. intros He Hin. apply not_true_iff_false in He. apply He, existsb_exists. exists 0. by rewrite <- list_elem_of_In. Qed.
Lemma existsb_slash_false l : existsb (fun b => b =? SLASH) l = false -> SLASH ∉ l.
Proof. intros He Hin. apply not_true_iff_false in He. apply He, existsb_exists. exists SLASH. by rewrite <- list_elem_of_In. Qed.
Lemma g_get_cell out g x i : g_get out g !! i = Some x -> cell_is g out (g_get out g).
Proof. unfold g_get, cell_is. by destruct (g_cells g !! out). Qed.
(** The bytes of a terminated text inside a buffer. *)
Lemma text_bytes buf n : 2 <= n -> takeZ n buf !! Z.to_nat (n - 1) = Some 0 ->
  exists t rest, buf = t ++ [0] ++ rest /\ lenZ t + 1 = n /\ takeZ (n - 1) (takeZ n buf) = t.
Proof.
  intros Hn Hl. exists (takeZ (n - 1) buf), (dropZ n buf).
  rewrite lookup_takeZ, decide_True in Hl by lia. pose proof (lookup_lt_Some _ _ _ Hl) as Hlen.
  split_and!.
  - rewrite <- (take_drop_middle buf _ 0 Hl) at 1. unfold takeZ, dropZ. simpl. do 3 f_equal. lia.
  - rewrite lenZ_takeZ. unfold lenZ. lia.
  - unfold takeZ. rewrite take_take. f_equal. lia.
Qed.
Lemma cell_put_ne out out' v w g : out <> out' -> cell_is g out w -> cell_is (g_put out' v g) out w.
Proof. intros Hne Hc. unfold cell_is in *. simpl. by rewrite lookup_insert_ne. Qed.
Lemma cell_put out v g : cell_is (g_put out v g) out v.
Proof. apply lookup_insert_eq. Qed.
Lemma cell_clear out needed capacity w g : out <> needed -> cell_is g needed w -> cell_is (g_clear out capacity g) needed w.
Proof. unfold g_clear. intros. destruct (_ =? _); [done | by apply cell_put_ne]. Qed.
Lemma text_answered out capacity needed op g g' st : out <> needed -> 0 <= capacity -> cell_is g needed [0] ->
  text out capacity needed (MAX_NAME + 1) op g = (g', st) -> text_answer g' st out capacity needed.
Proof.
  intros Hne Hcap Hz. unfold text. destruct (g_call op _) as [g1 r] eqn:Hc. apply g_call_frame in Hc as (_ & Hcells & _).
  assert (cell_is g1 needed [0]) as Hz1 by (unfold cell_is; rewrite Hcells; by apply cell_clear).
  assert (forall g2 n status, status <> OK -> cell_is g2 needed [n] -> (n = 0 \/ (status = BUFFER_TOO_SMALL /\ capacity < n <= MAX_NAME + 1)) ->
    (if status =? OK then g2 else g_clear out capacity g2, status) = (g', st) -> text_answer g' st out capacity needed) as Hfail.
  { intros g2 n status Hok Hn Hor. apply Z.eqb_neq in Hok. rewrite Hok. intros [= <- <-]. unfold text_answer. rewrite Hok.
    split; [| exists n; split; [by apply cell_clear | done]]. unfold g_clear. intros Hcz. apply Z.eqb_neq in Hcz. rewrite Hcz. apply cell_put. }
  destruct r as [[n stored] | e]; [| apply (Hfail g1 0); auto; pose proof (status_of_range e); unfold OK; lia].
  set (g2 := match stored with Some bytes => g_store out bytes g1 | None => g1 end).
  assert (cell_is g2 needed [0]) as Hz2 by (subst g2; destruct stored; [by apply cell_put_ne | done]).
  destruct (Z.leb_spec 2 n); [destruct (Z.leb_spec n (MAX_NAME + 1)) |]; simpl negb; cbn iota; [| by apply (Hfail g2 0); auto ..].
  destruct (Z.ltb_spec capacity n); [apply (Hfail _ n); [done | apply cell_put | auto] |].
  destruct (bool_decide (takeZ n (g_get out g2) !! Z.to_nat (n - 1) = Some 0)) eqn:Hend; [| by apply (Hfail g2 0); auto].
  apply bool_decide_eq_true in Hend. destruct (existsb _ _) eqn:Hx; [by apply (Hfail g2 0); auto |]. simpl. intros [= <- <-].
  apply existsb_zero_false in Hx. destruct (text_bytes _ n ltac:(lia) Hend) as (t & rest & Hb & Hlen & Ht). rewrite Ht in Hx.
  assert (cell_is g2 out (g_get out g2)) as Hc2.
  { rewrite lookup_takeZ, decide_True in Hend by lia. by eapply g_get_cell. }
  exists t, rest. split_and!; [lia | lia | lia | done | rewrite Hlen; apply cell_put | rewrite <- Hb; by apply cell_put_ne].
Qed.

(** A length that a provider reports is a [usize]. *)
Hypothesis directory_lengths : forall d cap (s s' : S) done stored node,
  f_read_directory d cap s = (s', Ok (done, stored, node)) -> 0 <= done.
Ltac record_done := match goal with
  | |- context [files_record ?s ?i ?g] =>
      let g' := fresh "g" in let st := fresh "st" in let E := fresh "E" in
      destruct (files_record s i g) as [g' st] eqn:E; apply files_record_cells in E as (E & ? & ?)
  end.
Lemma handle_output out r g g0 st0 index g' st : cell_is g out [0] -> files_handle out r g = (g0, st0) -> files_record st0 index g0 = (g', st) ->
  if st =? OK then exists h, h <> 0 /\ cell_is g' out [h] else cell_is g' out [0].
Proof.
  intros Hz Hh Hr. apply files_record_cells in Hr as (Hc & Hst & _). rewrite Hst. unfold cell_is. rewrite Hc. clear Hst.
  unfold files_handle in Hh. destruct r as [h | e].
  - destruct (Z.eqb_spec h 0); injection Hh as <- <-; simpl; [done |]. exists h. split; [done | apply cell_put].
  - injection Hh as <- <-. pose proof (status_of_range e). destruct (Z.eqb_spec (status_of e) OK); [unfold OK in *; lia | done].
Qed.
Lemma describe_output out r g g0 st0 index g' st : cell_is g out status_default -> describe out r g = (g0, st0) -> files_record st0 index g0 = (g', st) ->
  if st =? OK then exists s, consistent s = true /\ cell_is g' out (status_fields s) else cell_is g' out status_default.
Proof.
  intros Hz Hh Hr. apply files_record_cells in Hr as (Hc & Hst & _). rewrite Hst. unfold cell_is. rewrite Hc. clear Hst.
  unfold describe in Hh. destruct r as [s | e].
  - destruct (consistent s) eqn:Hs; injection Hh as <- <-; simpl; [| done]. exists s. split; [done | apply cell_put].
  - injection Hh as <- <-. pose proof (status_of_range e). destruct (Z.eqb_spec (status_of e) OK); [unfold OK in *; lia | done].
Qed.
Lemma record_text_answer st0 index g0 g' st out capacity needed : text_answer g0 st0 out capacity needed ->
  record_text st0 index g0 = (g', st) -> text_answer g' st out capacity needed.
Proof.
  intros Ha. unfold record_text. destruct (Z.eqb_spec st0 BUFFER_TOO_SMALL) as [-> | Hne]; [intros [= <- <-]; exact Ha |].
  intros Hr. apply files_record_cells in Hr as (Hc & Hst & Hb). unfold text_answer, cell_is in *. rewrite Hst, Hc.
  destruct (st0 =? OK); [done |]. destruct Ha as (Hz & n & Hn & [-> | [-> _]]); [| done]. split; [done |]. exists 0. auto.
Qed.
Lemma refuse_cell status index g g' st out v (P : Prop) : status <> OK -> cell_is g out v -> files_record status index g = (g', st) ->
  if st =? OK then P else cell_is g' out v.
Proof.
  intros Hne Hv Hr. apply files_record_cells in Hr as (Hc & Hst & _). apply Z.eqb_neq in Hne. rewrite Hst, Hne. unfold cell_is. by rewrite Hc.
Qed.
Lemma directory_read_output fuel d nm capacity length kind g g' st : MAX_ENTRY_NAME <= capacity ->
  nm <> length -> nm <> kind -> length <> kind -> cell_is g length [0] -> cell_is g kind [0] ->
  directory_read_loop fuel d nm capacity length kind g = (g', Some st) ->
  aligned_output align_of_usize length = true -> aligned_output 4 kind = true -> outputs (FDirectoryRead fuel d nm capacity length kind) st g'.
Proof.
  intros Hcap Hn1 Hn2 Hn3 Hl Hk Hrun Ha1 Ha2 _ _ _ _ _. revert g Hl Hk Hrun. induction fuel as [| fuel IH]; intros g Hl Hk; [done |].
  assert (forall g2 status, status <> OK -> cell_is g2 length [0] -> cell_is g2 kind [0] ->
    (let '(g3, st0) := files_record status 9 (g_put nm (zeros capacity) g2) in (g3, Some st0)) = (g', Some st) ->
    (st =? OK) = false /\ cell_is g' length [0] /\ cell_is g' kind [0] /\ cell_is g' nm (zeros capacity)) as Hfail.
  { intros g2 status Hne H2 H3. destruct (files_record _ _ _) as [g3 st0] eqn:Hr. intros [= <- <-].
    apply files_record_cells in Hr as (Hc & Hst & _). apply Z.eqb_neq in Hne. rewrite Hst, Hne. unfold cell_is. rewrite Hc.
    split_and!; [done | by apply cell_put_ne | by apply cell_put_ne | apply cell_put]. }
  cbn [directory_read_loop]. cbn zeta. destruct (g_call _ _) as [g1 r] eqn:Hc. apply g_call_frame in Hc as (_ & Hcells & Hop).
  assert (cell_is g1 length [0] /\ cell_is g1 kind [0]) as [Hl1 Hk1].
  { unfold cell_is. rewrite Hcells. split; by apply cell_put_ne. }
  destruct r as [[[done_ stored] node] | e].
  2: { intros Hr. apply Hfail in Hr as (-> & ? & ? & ?); [by repeat split | | by apply cell_put_ne | by apply cell_put_ne]. pose proof (status_of_range e). unfold OK. lia. }
  assert (cell_is (g_store nm stored g1) length [0] /\ cell_is (g_store nm stored g1) kind [0]) as [Hl2 Hk2] by (split; by apply cell_put_ne).
  set (g2 := g_store nm stored g1) in *. symmetry in Hop. apply directory_lengths in Hop.
  destruct (Z.eqb_spec done_ 0); cbn [orb]; cbn iota; [intros Hr; apply Hfail in Hr as (-> & ? & ? & ?); by repeat split |].
  destruct (Z.ltb_spec MAX_ENTRY_NAME done_); cbn iota; [intros Hr; apply Hfail in Hr as (-> & ? & ? & ?); by repeat split |].
  set (t := takeZ done_ (g_get nm g2)) in *.
  destruct (bool_decide (t = [DOT])) eqn:Hd1; cbn [orb]; cbn iota; [by apply IH |]. destruct (bool_decide (t = [DOT; DOT])) eqn:Hd2; [by apply IH |].
  apply bool_decide_eq_false in Hd1, Hd2. destruct (listable t node) eqn:Hlist; [| intros Hr; apply Hfail in Hr as (-> & ? & ? & ?); by repeat split].
  apply andb_true_iff in Hlist as [[[Hk3 Hk4]%andb_true_iff Hz%negb_true_iff%existsb_zero_false]%andb_true_iff Hs%negb_true_iff%existsb_slash_false].
  destruct (files_record _ _ _) as [g3 st0] eqn:Hr. intros [= <- <-]. apply files_record_cells in Hr as (Hc & Hst & _). rewrite Hst. simpl.
  assert (lenZ (g_get nm g2) >= capacity) as Hbuf.
  { subst g2. unfold g_store, g_get. simpl. rewrite lookup_insert_eq. simpl. rewrite Hcells. simpl. rewrite lookup_insert_eq. simpl.
    unfold MAX_ENTRY_NAME in *. pose proof (lenZ_nonneg stored). len. }
  assert (lenZ t = done_) as Hlen by (subst t; rewrite lenZ_takeZ; lia).
  exists t, (dropZ done_ (g_get nm g2)), node. unfold cell_is. rewrite Hc, Hlen. split_and!; try done; try lia.
  - by apply cell_put_ne, cell_put.
  - apply cell_put.
  - apply cell_put_ne; [done |]. apply cell_put_ne; [done |]. subst t. rewrite takeZ_dropZ. 
    unfold g2, g_store, g_get, cell_is. simpl. by rewrite lookup_insert_eq.
Qed.
(** Ends a refused branch: the outputs were cleared before. *)
Ltac refused := intros Hrun; eapply (refuse_cell INVALID_ARGUMENT); [| | exact Hrun]; [done | apply cell_put].
Lemma open_output p flags md out g g' st : files_open p flags md out g = (g', st) -> aligned_output align_of_usize out = true ->
  if st =? OK then exists h, h <> 0 /\ cell_is g' out [h] else cell_is g' out [0].
Proof.
  intros Hrun Ha. revert Hrun. unfold files_open. rewrite Ha. cbn [negb]. destruct (path p); [| refused]. destruct (_ || _); [refused |].
  destruct (g_call _ _) as [g1 r] eqn:Hc. apply g_call_frame in Hc as (_ & Hcells & _). destruct (files_handle out r g1) as [g2 st2] eqn:Hh.
  apply (handle_output out r g1 g2 st2); [unfold cell_is; rewrite Hcells; apply cell_put | done].
Qed.
Lemma directory_open_output p out g g' st : files_directory_open p out g = (g', st) -> aligned_output align_of_usize out = true ->
  if st =? OK then exists h, h <> 0 /\ cell_is g' out [h] else cell_is g' out [0].
Proof.
  intros Hrun Ha. revert Hrun. unfold files_directory_open. rewrite Ha. cbn [negb]. destruct (path p); [| refused].
  destruct (g_call _ _) as [g1 r] eqn:Hc. apply g_call_frame in Hc as (_ & Hcells & _). destruct (files_handle out r g1) as [g2 st2] eqn:Hh.
  apply (handle_output out r g1 g2 st2); [unfold cell_is; rewrite Hcells; apply cell_put | done].
Qed.
Lemma error_status e : (status_of e =? OK) = false.
Proof. pose proof (status_of_range e). unfold OK. lia. Qed.
Lemma read_output file o data capacity got g g' st : files_read_at file o data capacity got g = (g', st) ->
  outputs (FReadAt file o data capacity got) st g'.
Proof.
  intros Hrun Ha Hne. revert Hrun. unfold files_read_at. rewrite Ha. cbn [negb]. destruct (_ || _); [refused |].
  assert (forall k g2, k <= Z.max 0 capacity -> cell_is g2 got [k] -> files_record OK 2 g2 = (g', st) ->
    if st =? OK then exists k, k <= Z.max 0 capacity /\ cell_is g' got [k] else cell_is g' got [0]) as Hok.
  { intros k g2 Hk Hg Hr. apply files_record_cells in Hr as (Hc & -> & _). exists k. unfold cell_is. by rewrite Hc. }
  destruct (capacity =? 0); [apply (Hok 0); [lia | apply cell_put] |].
  destruct (g_call _ _) as [g1 r] eqn:Hc. apply g_call_frame in Hc as (_ & Hcells & _).
  assert (cell_is g1 got [0]) as Hz by (unfold cell_is; rewrite Hcells; apply cell_put).
  destruct r as [[k stored] | e].
  - destruct (Z.ltb_spec capacity k); [| apply (Hok k); [lia | apply cell_put]].
    intros Hr. eapply refuse_cell; [| | exact Hr]; [done | by apply cell_put_ne].
  - intros Hr. eapply refuse_cell; [| | exact Hr]; [apply Z.eqb_neq, error_status | by apply cell_put_ne].
Qed.
Lemma write_output file o d written g g' st : files_write_at file o d written g = (g', st) -> outputs (FWriteAt file o d written) st g'.
Proof.
  intros Hrun Ha. revert Hrun. unfold files_write_at. rewrite Ha. cbn [negb]. destruct (_ || _); [refused |].
  pose proof (lenZ_nonneg (b_bytes d)) as Hnn.
  assert (forall k g2, k <= lenZ (b_bytes d) -> (k = 0 <-> lenZ (b_bytes d) = 0) -> cell_is g2 written [k] -> files_record OK 3 g2 = (g', st) ->
    if st =? OK then exists k, k <= lenZ (b_bytes d) /\ (k = 0 <-> lenZ (b_bytes d) = 0) /\ cell_is g' written [k] else cell_is g' written [0]) as Hok.
  { intros k g2 Hk Hk0 Hg Hr. apply files_record_cells in Hr as (Hc & -> & _). exists k. unfold cell_is. by rewrite Hc. }
  destruct (Z.eqb_spec (lenZ (b_bytes d)) 0); [apply (Hok 0); [lia | lia | apply cell_put] |].
  destruct (g_call _ _) as [g1 r] eqn:Hc. apply g_call_frame in Hc as (_ & Hcells & _).
  assert (cell_is g1 written [0]) as Hz by (unfold cell_is; rewrite Hcells; apply cell_put).
  destruct r as [k | e].
  - destruct (Z.eqb_spec k 0); [intros Hr; by eapply refuse_cell; [| | exact Hr] |].
    destruct (Z.ltb_spec (lenZ (b_bytes d)) k); [intros Hr; by eapply refuse_cell; [| | exact Hr] |].
    apply (Hok k); [lia | lia | apply cell_put].
  - intros Hr. eapply refuse_cell; [| | exact Hr]; [apply Z.eqb_neq, error_status | done].
Qed.
Lemma status_output file out size g g' st : files_status file out size g = (g', st) -> outputs (FStatus file out size) st g'.
Proof.
  intros Hrun Ha Hs. revert Hrun. unfold files_status. rewrite Ha. replace (size <? size_of_Status) with false by lia. cbn [negb orb].
  destruct (file =? 0); [refused |]. destruct (g_call _ _) as [g1 r] eqn:Hc. apply g_call_frame in Hc as (_ & Hcells & _).
  destruct (describe out r g1) as [g2 st2] eqn:Hh.
  apply (describe_output out r g1 g2 st2); [unfold cell_is; rewrite Hcells; apply cell_put | done].
Qed.
Lemma path_status_output p follow out size g g' st : files_path_status p follow out size g = (g', st) -> outputs (FPathStatus p follow out size) st g'.
Proof.
  intros Hrun Ha Hs. revert Hrun. unfold files_path_status. rewrite Ha. replace (size <? size_of_Status) with false by lia. cbn [negb orb].
  destruct (path p); [| refused]. destruct (_ <? _); [refused |].
  destruct (g_call _ _) as [g1 r] eqn:Hc. apply g_call_frame in Hc as (_ & Hcells & _). destruct (describe out r g1) as [g2 st2] eqn:Hh.
  apply (describe_output out r g1 g2 st2); [unfold cell_is; rewrite Hcells; apply cell_put | done].
Qed.
Lemma path_text_output p out capacity needed op g g' st : path_text p out capacity needed op g = (g', st) ->
  aligned_output align_of_usize needed = true -> valid_buffer out capacity = true -> out <> needed -> 0 <= capacity ->
  if path p then text_answer g' st out capacity needed else st = INVALID_ARGUMENT /\ cell_is g' needed [0].
Proof.
  intros Hrun Ha Hv Hne Hcap. revert Hrun. unfold path_text. rewrite Ha, Hv. cbn [negb orb]. cbn zeta. destruct (path p) as [bytes |].
  - destruct (text _ _ _ _ _ _) as [g1 st1] eqn:Ht. apply text_answered in Ht; [| done | done | apply cell_put]. by apply record_text_answer.
  - intros [= <- <-]. split; [done | apply cell_put].
Qed.
Lemma current_directory_output out capacity needed g g' st : files_current_directory out capacity needed g = (g', st) ->
  outputs (FCurrentDirectory out capacity needed) st g'.
Proof.
  intros Hrun Ha Hv Hne Hcap. revert Hrun. unfold files_current_directory. rewrite Ha, Hv. cbn [negb orb]. cbn zeta.
  destruct (text _ _ _ _ _ _) as [g1 st1] eqn:Ht. apply text_answered in Ht; [| done | done | apply cell_put]. by apply record_text_answer.
Qed.
Lemma directory_read_outputs fuel d nm capacity length kind g g' st : files_directory_read fuel d nm capacity length kind g = (g', Some st) ->
  outputs (FDirectoryRead fuel d nm capacity length kind) st g'.
Proof.
  intros Hrun Ha1 Ha2 Hn1 Hn2 Hn3. revert Hrun. unfold files_directory_read. rewrite Ha1, Ha2. cbn [negb orb]. cbn zeta.
  assert (cell_is (g_put kind [0] (g_put length [0] g)) length [0]) as Hl by (apply cell_put_ne; [done | apply cell_put]).
  destruct ((d =? 0) || (nm =? 0) || _ || _) eqn:Hr.
  - intros [= <- <-]. split_and!; [exact Hl | apply cell_put |]. intros H1 H2 H3 H4. rewrite H4 in Hr. simpl negb in Hr. lia.
  - intros Hrun. eapply directory_read_output in Hrun; [by apply Hrun | lia | done .. | apply cell_put | done | done].
Qed.

End Calls.
