(* ===== verification/Asked.v ===== *)
(** * Asked.v: what the front end of the files group asks its provider

    The trait [Files] ([src/src/port.rs]) is written for a provider that need not check its arguments: paths are byte
    strings without a NUL, the flags of [open] are "a checked combination", a directory entry has room for every name.
    The checks are the front end's ([src/src/files.rs]).  This file puts a provider that writes down every request in
    front of any other ([watched]) and compares what it was asked with the contract of the C header, stated here on the
    numbers themselves ([proper]) and not with the front end's own predicates. *)
From S2P Require Import Prelude Port Counter Boundary Content Queue Locks Tree MemFs Front FilesApi.
Local Open Scope Z_scope.
Local Open Scope pal_scope.

(** A request, with the arguments that reached the provider. *)
Inductive Request :=
| AskOpen (p : list Z) (flags md : Z) | AskClose (file : Z) | AskReadAt (file offset capacity : Z) | AskWriteAt (file offset : Z) (d : list Z)
| AskSetSize (file size : Z) | AskFlush (file : Z) | AskStatus (file : Z) | AskPathStatus (p : list Z) (follow : bool)
| AskRemove (p : list Z) | AskRename (p q : list Z) | AskCreateDirectory (p : list Z) (md : Z) | AskRemoveDirectory (p : list Z)
| AskOpenDirectory (p : list Z) | AskReadDirectory (d capacity : Z) | AskCloseDirectory (d : Z) | AskCurrentDirectory (capacity : Z)
| AskSetMode (p : list Z) (md : Z) | AskSetFileMode (file md : Z) | AskSetTimes (p : list Z) (follow : bool) (a m : option Z)
| AskSetFileTimes (file : Z) (a m : option Z) | AskLink (p q : list Z) | AskSymlink (p q : list Z) | AskReadLink (p : list Z) (capacity : Z)
| AskRealPath (p : list Z) (capacity : Z) | AskSetCurrentDirectory (p : list Z) | AskLock (file md : Z) (wait : bool)
| AskLockRange (file offset length md : Z).

(** ** The contract of the C header *)
Section Contract.
Context `{Arch}.
Definition path_ok (p : Borrow) : Prop :=
  b_address p <> 0 /\ 1 <= lenZ (b_bytes p) <= 4095 /\ b_address p + lenZ (b_bytes p) <= usize_max /\ 0 ∉ b_bytes p.
Definition output_ok (align out : Z) : Prop := out <> 0 /\ out mod align = 0.
Definition buffer_ok (p size : Z) : Prop := size <= isize_max /\ (size = 0 \/ (p <> 0 /\ p + size <= usize_max)).
Definition mode_ok (md : Z) : Prop := 0 <= md <= 4095.
(** [READ] is bit 0, [WRITE] bit 1, [CREATE] bit 2, [EXCLUSIVE] bit 3 and [TRUNCATE] bit 4. *)
Definition flags_ok (flags : Z) : Prop :=
  0 <= flags < 32 /\ (Z.testbit flags 0 = true \/ Z.testbit flags 1 = true) /\
  (Z.testbit flags 3 = true -> Z.testbit flags 2 = true) /\ (Z.testbit flags 4 = true -> Z.testbit flags 1 = true).
(** A time to set: at most [i64::MAX] nanoseconds, or [UINT64_MAX] to keep the old one. *)
Definition time_ok (ns : Z) : Prop := ns <= i64_max \/ ns = 2 ^ 64 - 1.
Definition time_given (ns : Z) : option Z := if ns =? 2 ^ 64 - 1 then None else Some ns.
Definition proper (c : FilesCall) : Prop :=
  match c with
  | FOpen p flags md out => output_ok align_of_usize out /\ path_ok p /\ flags_ok flags /\ mode_ok md
  | FClose h | FFlush h | FDirectoryClose h => h <> 0
  | FReadAt file o data capacity got => output_ok align_of_usize got /\ file <> 0 /\ buffer_ok data capacity /\ o <= i64_max
  | FWriteAt file o d written =>
      output_ok align_of_usize written /\ file <> 0 /\ buffer_ok (b_address d) (lenZ (b_bytes d)) /\ o <= i64_max /\ o + lenZ (b_bytes d) <= i64_max
  | FSetSize file n => file <> 0 /\ n <= i64_max
  | FStatus file out size => output_ok align_of_u64 out /\ 64 <= size /\ file <> 0
  | FPathStatus p follow out size => output_ok align_of_u64 out /\ 64 <= size /\ path_ok p /\ follow <= 1
  | FRemove p | FDirectoryRemove p | FSetCurrentDirectory p => path_ok p
  | FRename p q | FLink p q | FSymlink p q => path_ok p /\ path_ok q
  | FDirectoryCreate p md | FSetMode p md => path_ok p /\ mode_ok md
  | FDirectoryOpen p out => output_ok align_of_usize out /\ path_ok p
  | FDirectoryRead _ d nm capacity length kind =>
      output_ok align_of_usize length /\ output_ok 4 kind /\ d <> 0 /\ nm <> 0 /\ 255 <= capacity /\ buffer_ok nm capacity
  | FCurrentDirectory out capacity needed => output_ok align_of_usize needed /\ buffer_ok out capacity
  | FSetFileMode file md => file <> 0 /\ mode_ok md
  | FSetTimes p follow a m => path_ok p /\ time_ok a /\ time_ok m /\ follow <= 1
  | FSetFileTimes file a m => file <> 0 /\ time_ok a /\ time_ok m
  | FReadLink p out capacity needed | FRealPath p out capacity needed => output_ok align_of_usize needed /\ buffer_ok out capacity /\ path_ok p
  | FLock file md wait => file <> 0 /\ 1 <= md <= 3 /\ wait <= 1
  | FLockRange file o n md => file <> 0 /\ 1 <= md <= 3 /\ n <> 0 /\ o <= i64_max /\ o + n <= i64_max
  end.
(** The request that a proper call is. *)
Definition asks (c : FilesCall) : Request :=
  match c with
  | FOpen p flags md _ => AskOpen (b_bytes p) flags md | FClose file => AskClose file
  | FReadAt file o _ capacity _ => AskReadAt file o capacity | FWriteAt file o d _ => AskWriteAt file o (b_bytes d)
  | FSetSize file n => AskSetSize file n | FFlush file => AskFlush file | FStatus file _ _ => AskStatus file
  | FPathStatus p follow _ _ => AskPathStatus (b_bytes p) (negb (follow =? 0))
  | FRemove p => AskRemove (b_bytes p) | FRename p q => AskRename (b_bytes p) (b_bytes q)
  | FDirectoryCreate p md => AskCreateDirectory (b_bytes p) md | FDirectoryRemove p => AskRemoveDirectory (b_bytes p)
  | FDirectoryOpen p _ => AskOpenDirectory (b_bytes p) | FDirectoryRead _ d _ capacity _ _ => AskReadDirectory d capacity
  | FDirectoryClose d => AskCloseDirectory d | FCurrentDirectory _ capacity _ => AskCurrentDirectory capacity
  | FSetMode p md => AskSetMode (b_bytes p) md | FSetFileMode file md => AskSetFileMode file md
  | FSetTimes p follow a m => AskSetTimes (b_bytes p) (negb (follow =? 0)) (time_given a) (time_given m)
  | FSetFileTimes file a m => AskSetFileTimes file (time_given a) (time_given m)
  | FLink p q => AskLink (b_bytes p) (b_bytes q) | FSymlink p q => AskSymlink (b_bytes p) (b_bytes q)
  | FReadLink p _ capacity _ => AskReadLink (b_bytes p) capacity | FRealPath p _ capacity _ => AskRealPath (b_bytes p) capacity
  | FSetCurrentDirectory p => AskSetCurrentDirectory (b_bytes p) | FLock file md wait => AskLock file md (negb (wait =? 0))
  | FLockRange file o n md => AskLockRange file o n md
  end.
(** How often: a transfer of no bytes is not the provider's business, and a directory is read until an entry is not a
    reference to itself or its parent, [fuel] times at most. *)
Definition asked_times (c : FilesCall) (n : nat) (st : option Z) : Prop :=
  match c with
  | FReadAt _ _ _ capacity _ => if capacity =? 0 then n = 0%nat /\ st = Some OK else n = 1%nat
  | FWriteAt _ _ d _ => if lenZ (b_bytes d) =? 0 then n = 0%nat /\ st = Some OK else n = 1%nat
  | FDirectoryRead fuel _ _ _ _ _ => (n <= fuel)%nat /\ ((0 < fuel)%nat -> (0 < n)%nat)
  | _ => n = 1%nat
  end.

(** ** The guards of the front end *)
Lemma path_decides p : match path p with Some bs => bs = b_bytes p /\ path_ok p | None => ~ path_ok p end.
Proof.
  destruct (path p) as [bs |] eqn:Hp.
  - apply path_Some in Hp as (-> & ? & ? & ? & ?). by split_and!.
  - intros (? & ? & ? & ?). assert (path p = Some (b_bytes p)) as Hs by by apply path_Some. congruence.
Qed.
Lemma output_decides align out : aligned_output align out = true <-> output_ok align out.
Proof. unfold aligned_output, output_ok. lia. Qed.
Lemma buffer_decides p size : valid_buffer p size = true <-> buffer_ok p size.
Proof.
  unfold valid_buffer, buffer_ok. destruct (checked_add usize_max p size) eqn:Hc; [apply checked_add_Some in Hc | apply checked_add_None in Hc]; lia.
Qed.
Lemma low_bits x n : 0 <= n -> Z.land x (Z.lnot (Z.ones n)) = 0 <-> 0 <= x < 2 ^ n.
Proof.
  intros Hn. rewrite <- Z.ldiff_land, Z.ldiff_ones_r by done. rewrite Z.shiftl_eq_0_iff, Z.shiftr_div_pow2 by done.
  assert (0 < 2 ^ n) by (apply Z.pow_pos_nonneg; lia). rewrite Z.div_small_iff by lia. lia.
Qed.
Lemma mode_decides md : bad_mode md = false <-> mode_ok md.
Proof.
  unfold bad_mode, mode_ok. rewrite negb_false_iff, Z.eqb_eq. change MODE_MASK with (Z.ones 12). rewrite low_bits by lia. change (2 ^ 12) with 4096. lia.
Qed.
Lemma has_bit x i : 0 <= i -> has x (2 ^ i) = Z.testbit x i.
Proof.
  intros Hi. unfold has. destruct (Z.testbit x i) eqn:Hb.
  - apply negb_true_iff, Z.eqb_neq. intros Hz. apply (f_equal (fun y => Z.testbit y i)) in Hz. rewrite Z.land_spec, Hb, Z.pow2_bits_true, Z.bits_0 in Hz; done.
  - apply negb_false_iff, Z.eqb_eq, Z.bits_inj'. intros j Hj. rewrite Z.land_spec, Z.pow2_bits_eqb, Z.bits_0 by done.
    destruct (Z.eqb_spec i j) as [<- |]; [by rewrite Hb | apply andb_false_r].
Qed.
Lemma has_either x a b : has x (Z.lor a b) = has x a || has x b.
Proof.
  unfold has. rewrite Z.land_lor_distr_r, <- negb_andb. f_equal.
  destruct (Z.eqb_spec (Z.lor (Z.land x a) (Z.land x b)) 0) as [Hz%Z.lor_eq_0_iff | Hz]; [destruct Hz as [-> ->]; done |].
  symmetry. apply andb_false_iff. destruct (Z.eqb_spec (Z.land x a) 0) as [Ha |]; [| by left]. right. rewrite Ha in Hz. by apply Z.eqb_neq.
Qed.
Lemma flags_decide flags : valid_open flags = true <-> flags_ok flags.
Proof.
  unfold valid_open, flags_ok. rewrite has_either. change (Z.lor READ _) with (Z.ones 5).
  change READ with (2 ^ 0). change WRITE with (2 ^ 1). change CREATE with (2 ^ 2). change EXCLUSIVE with (2 ^ 3). change TRUNCATE with (2 ^ 4).
  rewrite !has_bit by lia. rewrite !andb_true_iff, Z.eqb_eq, low_bits by lia. change (2 ^ 5) with 32.
  destruct (Z.testbit flags 0), (Z.testbit flags 1), (Z.testbit flags 2), (Z.testbit flags 3), (Z.testbit flags 4); simpl; intuition congruence.
Qed.
Lemma times_decide a m : match times a m with
  | Some (a', m') => time_ok a /\ time_ok m /\ a' = time_given a /\ m' = time_given m
  | None => ~ (time_ok a /\ time_ok m)
  end.
Proof.
  unfold times, time_ok, time_given. change TIME_KEEP with (2 ^ 64 - 1).
  destruct (Z.eqb_spec a (2 ^ 64 - 1)), (Z.eqb_spec m (2 ^ 64 - 1)); destruct (Z.ltb_spec i64_max a), (Z.ltb_spec i64_max m); split_and?; try lia; try done; auto.
Qed.
End Contract.

(** ** A provider that writes down its requests *)
Section Watched.
Context `{Arch} {S : Type} (FS : Files S).
Definition watch {A} (q : Request) (op : M S Error A) : M (S * list Request) Error A :=
  fun '(s, log) => let '(s, r) := op s in (s, log ++ [q], r).
Definition watched : Files (S * list Request) := {|
  files_PROVIDED := files_PROVIDED;
  f_open p flags md := watch (AskOpen p flags md) (f_open p flags md);
  f_close file := watch (AskClose file) (f_close file);
  f_read_at file o capacity := watch (AskReadAt file o capacity) (f_read_at file o capacity);
  f_read_left file o capacity s := f_read_left file o capacity s.1;
  f_write_at file o d := watch (AskWriteAt file o d) (f_write_at file o d);
  f_set_size file n := watch (AskSetSize file n) (f_set_size file n);
  f_flush file := watch (AskFlush file) (f_flush file);
  f_status file := watch (AskStatus file) (f_status file);
  f_path_status p follow := watch (AskPathStatus p follow) (f_path_status p follow);
  f_remove p := watch (AskRemove p) (f_remove p);
  f_rename p q := watch (AskRename p q) (f_rename p q);
  f_create_directory p md := watch (AskCreateDirectory p md) (f_create_directory p md);
  f_remove_directory p := watch (AskRemoveDirectory p) (f_remove_directory p);
  f_open_directory p := watch (AskOpenDirectory p) (f_open_directory p);
  f_read_directory d capacity := watch (AskReadDirectory d capacity) (f_read_directory d capacity);
  f_directory_left d capacity s := f_directory_left d capacity s.1;
  f_close_directory d := watch (AskCloseDirectory d) (f_close_directory d);
  f_current_directory capacity := watch (AskCurrentDirectory capacity) (f_current_directory capacity);
  f_set_mode p md := watch (AskSetMode p md) (f_set_mode p md);
  f_set_file_mode file md := watch (AskSetFileMode file md) (f_set_file_mode file md);
  f_set_times p follow a m := watch (AskSetTimes p follow a m) (f_set_times p follow a m);
  f_set_file_times file a m := watch (AskSetFileTimes file a m) (f_set_file_times file a m);
  f_link p q := watch (AskLink p q) (f_link p q);
  f_symlink p q := watch (AskSymlink p q) (f_symlink p q);
  f_read_link p capacity := watch (AskReadLink p capacity) (f_read_link p capacity);
  f_real_path p capacity := watch (AskRealPath p capacity) (f_real_path p capacity);
  f_set_current_directory p := watch (AskSetCurrentDirectory p) (f_set_current_directory p);
  f_lock file md wait := fun '(s, log) => let '(s, r) := f_lock file md wait s in (s, log ++ [AskLock file md wait], r);
  f_lock_range file o n md := watch (AskLockRange file o n md) (f_lock_range file o n md) |}.
#[local] Existing Instance watched.
Implicit Types (g : Group (S * list Request)).
Definition log_of g : list Request := (g_provider g).2.

(** What a call does to the provider. *)
Definition asked_exactly (c : FilesCall) g (r : Group (S * list Request) * option Z) : Prop :=
  (proper c -> exists n, log_of r.1 = log_of g ++ replicate n (asks c) /\ asked_times c n r.2) /\
  (~ proper c -> g_provider r.1 = g_provider g /\ r.2 = Some INVALID_ARGUMENT).
Lemma watch_logged {A} q (op : M S Error A) g g' r : g_call (watch q op) g = (g', r) -> log_of g' = log_of g ++ [q].
Proof.
  intros Hc. apply g_call_frame in Hc as (_ & _ & Hp). unfold log_of, watch in *. destruct (g_provider g) as [s log]. destruct (op s) as [s' r'].
  by injection Hp as -> _.
Qed.
Lemma text_logged q op out cap needed limit g g' st : text out cap needed limit (watch q op) g = (g', st) -> log_of g' = log_of g ++ [q].
Proof.
  unfold text. destruct (g_call _ _) as [g1 r] eqn:Hc. apply watch_logged in Hc.
  assert (forall g0, log_of (g_clear out cap g0) = log_of g0) as Hcl by (intros g0; unfold g_clear; by destruct (_ =? _)).
  assert (forall g0 w, log_of (match w with Some b => g_store out b g0 | None => g0 end) = log_of g0) as Hst by by intros ? [].
  rewrite Hcl in Hc. rewrite <- Hc. clear Hc.
  destruct r as [[len w] | e]; [destruct (negb _); [| destruct (_ <? _); [| destruct (_ || _)]] |];
    intros [= <- <-]; try destruct (_ =? _); rewrite ?Hcl; rewrite ?Hst; try done; unfold log_of; simpl; apply Hst.
Qed.
Lemma asked_once c g g' st : proper c -> log_of g' = log_of g ++ [asks c] -> asked_times c 1 st -> asked_exactly c g (g', st).
Proof. intros Hp Hl Ht. split; [| done]. intros _. by exists 1%nat. Qed.
Lemma asked_never c g g' st : ~ proper c -> g_provider g' = g_provider g -> st = Some INVALID_ARGUMENT -> asked_exactly c g (g', st).
Proof. intros Hp Hl Ht. by split. Qed.
Lemma asked_none c g g' st : proper c -> g_provider g' = g_provider g -> asked_times c 0 st -> asked_exactly c g (g', st).
Proof. intros Hp Hl Ht. split; [| done]. intros _. exists 0%nat. unfold log_of. simpl. by rewrite Hl, app_nil_r. Qed.
Lemma directory_read_asks fuel d nm cap len kind g : exists n,
  log_of (directory_read_loop fuel d nm cap len kind g).1 = log_of g ++ replicate n (AskReadDirectory d cap) /\ (n <= fuel)%nat /\ ((0 < fuel)%nat -> (0 < n)%nat).
Proof.
  revert g. induction fuel as [| fuel IH]; intros g; [exists 0%nat; simpl; rewrite app_nil_r; split_and!; [done | lia | lia] |].
  cbn [directory_read_loop]. cbn zeta. destruct (g_call _ _) as [g1 r] eqn:Hc. apply watch_logged in Hc.
  assert (forall g2, log_of g2 = log_of g1 -> exists n, log_of g2 = log_of g ++ replicate n (AskReadDirectory d cap) /\
    (n <= Datatypes.S fuel)%nat /\ ((0 < Datatypes.S fuel)%nat -> (0 < n)%nat)) as Hfin.
  { intros g2 ->. exists 1%nat. rewrite Hc. split_and!; [done | lia | lia]. }
  destruct r as [[[done_ stored] node] | e]; [| by apply Hfin]. destruct (_ || _); [by apply Hfin |]. destruct (_ || _).
  - destruct (IH (g_store nm stored g1)) as (n & Hn & Hle & Hpos). exists (Datatypes.S n). rewrite Hn. change (log_of (g_store nm stored g1)) with (log_of g1).
    rewrite Hc. change (log_of (g_put nm (zeros cap) g)) with (log_of g). rewrite <- app_assoc. split_and!; [done | lia | lia].
  - destruct (listable _ _); by apply Hfin.
Qed.
Ltac guards := repeat match goal with
  | |- context [path ?p] => let H := fresh "Hp" in pose proof (path_decides p) as H; destruct (path p); [destruct H as [-> H] |]
  | |- context [times ?a ?m] => let H := fresh "Ht" in pose proof (times_decide a m) as H; destruct (times a m) as [[? ?] |]; [destruct H as (? & ? & -> & ->) |]
  | |- context [aligned_output ?a ?o] => let H := fresh "Ho" in pose proof (output_decides a o) as H; destruct (aligned_output a o)
  | |- context [valid_buffer ?a ?o] => let H := fresh "Hb" in pose proof (buffer_decides a o) as H; destruct (valid_buffer a o)
  | |- context [bad_mode ?a] => let H := fresh "Hm" in pose proof (mode_decides a) as H; destruct (bad_mode a)
  | |- context [valid_open ?a] => let H := fresh "Hf" in pose proof (flags_decide a) as H; destruct (valid_open a)
  end; cbn [negb orb andb]; cbn iota.
Ltac facts := repeat match goal with
  | H : true = true <-> _ |- _ => destruct H as [H _]; specialize (H eq_refl)
  | H : false = false <-> _ |- _ => destruct H as [H _]; specialize (H eq_refl)
  | H : false = true <-> _ |- _ => destruct H as [_ H]
  | H : true = false <-> _ |- _ => destruct H as [_ H]
  end.
Ltac meets := cbn [proper]; unfold size_of_Status, MAX_ENTRY_NAME, bad_lock_mode, LOCK_SHARED, LOCK_UNLOCK in *; facts;
  first [intuition (congruence || lia) | lia].
Ltac outcome := cbn [fst snd returns]; first
  [ solve [apply asked_never; [meets | reflexivity | reflexivity]]
  | match goal with
    | |- context [g_call ?op ?g] => let H := fresh "Hc" in destruct (g_call op g) as [? ?] eqn:H; apply watch_logged in H
    | |- context [text ?a ?b ?c ?d ?op ?g] => let H := fresh "Hc" in destruct (text a b c d op g) as [? ?] eqn:H; apply text_logged in H
    end; unfold describe, files_handle, record_text, record_lock; repeat match goal with
      | |- context [match ?r with Ok _ => _ | Err _ => _ end] => destruct r as [? | ?]
      | |- context [let '(_, _) := ?x in _] => is_var x; destruct x
      | |- context [if ?b then _ else _] => destruct b
      end; (apply asked_once; [meets | assumption | cbn [asked_times]; repeat match goal with H : ?b = false |- context [if ?b then _ else _] => rewrite H end; reflexivity]) ].
Lemma files_call_asks c g : asked_exactly c g (files_call c g).
Proof.
  destruct c; cbn [files_call];
    unfold files_open, files_close, files_read_at, files_write_at, files_set_size, files_flush, files_status, files_path_status,
      files_remove, files_rename, files_directory_create, files_directory_remove, files_directory_open, files_directory_read,
      files_directory_close, files_current_directory, files_set_mode, files_set_file_mode, files_set_times, files_set_file_times,
      files_link, files_symlink, files_read_link, files_real_path, path_text, files_set_current_directory, files_lock,
      files_lock_range, on_handle, on_path, on_paths, returns; cbn zeta; guards.
  all: try solve [outcome].
  all: rewrite ?orb_true_r, ?orb_false_r; cbn [orb]; cbn iota; repeat match goal with |- context [if ?b then _ else _] =>
    lazymatch b with context [OK] => fail | _ => destruct b eqn:? end end; try solve [outcome].
  - apply asked_none; [meets | done | cbn [asked_times]; by rewrite Heqb0].
  - apply asked_none; [meets | done | cbn [asked_times]; by rewrite Heqb0].
  - destruct (directory_read_asks fuel directory nm capacity length kind (g_put kind [0] (g_put length [0] g))) as (n & Hn & Ht).
    split; [by exists n | intros Hno; exfalso; apply Hno; meets].
  - destruct (f_lock _ _ _ _) as [p r] eqn:Hl. unfold f_lock, watched in Hl. destruct (g_provider g) as [s log] eqn:Hg.
    destruct (FilesApi.f_lock file md _ s) as [s' r'] eqn:Hs. injection Hl as <- <-.
    destruct r' as [r' |]; unfold record_lock; [destruct (_ && _) |]; (apply asked_once; [meets | unfold log_of; simpl; by rewrite Hg | done]).
Qed.

End Watched.
