(* ===== verification/Served.v ===== *)
(** * Served.v: the in-memory file system behind the C front end

    [impl Files for MemFs] ([src/crates/dotnet-pal-memfs/src/lib.rs]) as an instance of the trait that [FilesApi] is
    written against, and what a C consumer gets from the two together: the tree stays well formed under every call,
    what is written is read back, and a directory can be read to its end. *)
From S2P Require Import Prelude Port Counter Boundary Content Queue Locks Tree MemFs Invariant Walk Preserve Calls FileSystem Front FilesApi Asked.
Local Open Scope Z_scope.
Local Open Scope pal_scope.

Section Served.
Context `{Arch} `{Endian} `{BoxAllocator}.
(** The clock's answer during the call, and what other threads do while the call waits for a lock. *)
Definition memfs_files (now : Z) (others : list (Fs -> Fs)) : Files Fs := {|
  files_PROVIDED := true;
  f_open p flags md := open p flags md now;
  f_close := close;
  f_read_at file offset capacity := let! out := read_at file offset capacity in ret (lenZ out, out);
  f_read_left _ _ _ _ := [];
  f_write_at file offset d := write_at file offset d now;
  f_set_size file n := set_file_size file n now;
  f_flush := flush;
  f_status := file_status;
  f_path_status := path_status;
  f_remove p := remove p now;
  f_rename p q := rename p q now;
  f_create_directory p md := create_directory p md now;
  f_remove_directory p := remove_directory p now;
  f_open_directory := open_directory;
  f_read_directory d capacity := let! entry := read_directory d capacity in ret (lenZ entry.1, entry.1, entry.2);
  f_directory_left _ _ _ := [];
  f_close_directory := close_directory;
  f_current_directory capacity := current_directory capacity 0;
  f_set_mode p md := set_mode p md now;
  f_set_file_mode file md := set_file_mode file md now;
  f_set_times p follow a m := set_times p follow a m now;
  f_set_file_times file a m := set_file_times file a m now;
  f_link p q := link p q now;
  f_symlink p q := symlink p q now;
  f_read_link := read_link;
  f_real_path p capacity := real_path p capacity 0;
  f_set_current_directory := set_current_directory;
  f_lock file md wait := lock file md wait others;
  f_lock_range := lock_range |}.

(** Offsets and sizes are unsigned at the C interface. *)
Definition served_ok (c : FilesCall) : Prop :=
  match c with FWriteAt _ o _ _ => 0 <= o | FSetSize _ n => 0 <= n | _ => True end.
Lemma wp_provider {A} (op : FsM A) (Q : Fs -> Prop) g : wp op (fun s' _ => Q s') (g_provider g) -> Q (g_provider (g_call op g).1).
Proof. unfold wp, g_call. by destruct (op (g_provider g)). Qed.
Lemma lock_keeps_wf file md wait others s : wf s -> Forall (fun other => forall t, wf t -> wf (other t)) others ->
  wf (lock file md wait others s).1.
Proof.
  revert s. induction others as [| other others IH]; intros s Hwf Ho; pose proof (keeps_wf_lock_attempt file md s Hwf) as Hk; unfold wp in Hk;
    simpl; destruct (lock_attempt file md s) as [s1 r] eqn:E; simpl in Hk.
  - destruct r as [| []]; try done. by destruct wait.
  - destruct r as [| []]; try done. destruct wait; [| done]. inversion Ho; subst. auto.
Qed.
Lemma call_keeps_wf {A} (op : FsM A) g g' r : g_call op g = (g', r) -> wp op (fun s' _ => wf s') (g_provider g) -> wf (g_provider g').
Proof. intros Hc. apply g_call_frame in Hc as (_ & _ & Hp). unfold wp. by rewrite <- Hp. Qed.
Lemma run_keeps_wf {A} (op : FsM A) c g g' r : wf (g_provider g) -> room (g_provider g) -> call_ok c -> run c (g_provider g) = (op (g_provider g)).1 ->
  g_call op g = (g', r) -> wf (g_provider g').
Proof. intros Hwf Hroom Hok Hrun Hc. eapply call_keeps_wf; [exact Hc |]. unfold wp. rewrite <- Hrun. by apply run_wf. Qed.
Lemma text_provider {S : Type} out cap needed limit op (g g' : Group S) st : text out cap needed limit op g = (g', st) -> g_provider g' = (op (g_provider g)).1.
Proof.
  unfold text. destruct (g_call op _) as [g1 r] eqn:Hc. apply g_call_frame in Hc as (_ & _ & Hp).
  assert (forall g0 : Group S, g_provider (g_clear out cap g0) = g_provider g0) as Hcl by (intros g0; unfold g_clear; by destruct (_ =? _)).
  assert (forall (g0 : Group S) w, g_provider (match w with Some b => g_store out b g0 | None => g0 end) = g_provider g0) as Hst by by intros ? [].
  rewrite Hcl in Hp. rewrite <- Hp. clear Hp.
  destruct r as [[len w] | e]; [destruct (negb _); [| destruct (_ <? _); [| destruct (_ || _)]] |];
    intros [= <- <-]; try destruct (_ =? _); rewrite ?Hcl; simpl; rewrite ?Hst; done.
Qed.

Section Instance.
Context (now : Z) (others : list (Fs -> Fs)).
#[local] Instance provider : Files Fs := memfs_files now others.
Lemma directory_read_keeps_wf fuel d nm cap len kind g : wf (g_provider g) ->
  wf (g_provider (directory_read_loop fuel d nm cap len kind g).1).
Proof.
  revert g. induction fuel as [| fuel IH]; intros g Hwf; [done |]. cbn [directory_read_loop]. cbn zeta.
  destruct (g_call _ _) as [g1 r] eqn:Hc. eapply call_keeps_wf in Hc; [| apply wp_bind; eapply wp_mono; [by apply keeps_wf_read_directory | by intros ? []]].
  destruct r as [[[k stored] node] | e]; [| done]. destruct (_ || _); [done |]. destruct (_ || _); [by apply IH | by destruct (listable _ _)].
Qed.
Ltac op_keeps := first [ solve [auto with keeps]
  | solve [apply keeps_wf_read; [done |]; intros; auto using keeps_wf_reads with keeps]
  | apply wp_bind; eapply wp_mono; [op_keeps | by intros ? []]].
Ltac call_done := repeat match goal with
  | E : g_call _ _ = _ |- _ => eapply call_keeps_wf in E; [| cbn; op_keeps]
  | E : text _ _ _ _ _ _ = _ |- _ => apply text_provider in E
  end; try assumption.
Ltac served := repeat match goal with
  | |- context [match path ?p with _ => _ end] => destruct (path p)
  | |- context [match times ?a ?m with _ => _ end] => destruct (times a m) as [[? ?] |]
  | |- context [let '(_, _) := g_call ?op ?g in _] => destruct (g_call op g) as [? ?] eqn:?
  | |- context [let '(_, _) := text ?a ?b ?c ?d ?op ?g in _] => destruct (text a b c d op g) as [? ?] eqn:?
  | |- context [if ?b then _ else _] => destruct b
  | |- context [match ?r with Ok _ => _ | Err _ => _ end] => destruct r as [? | ?]
  | |- context [let '(_, _) := ?x in _] => is_var x; destruct x
  end; try assumption.
Lemma served_keeps_wf c g : wf (g_provider g) -> room (g_provider g) -> served_ok c -> Forall (fun other => forall t, wf t -> wf (other t)) others ->
  wf (g_provider (files_call c g).1).
Proof.
  intros Hwf Hroom Hok Ho. destruct c; cbn [files_call];
    unfold files_open, files_close, files_read_at, files_write_at, files_set_size, files_flush, files_status, files_path_status,
      files_remove, files_rename, files_directory_create, files_directory_remove, files_directory_open, files_directory_read,
      files_directory_close, files_current_directory, files_set_mode, files_set_file_mode, files_set_times, files_set_file_times,
      files_link, files_symlink, files_read_link, files_real_path, path_text, files_set_current_directory, files_lock,
      files_lock_range, on_handle, on_path, on_paths, describe, files_handle, record_text, record_lock, returns; cbn zeta.
  all: served.
  all: call_done.
  1: by apply directory_read_keeps_wf.
  1-6: match goal with E : g_provider ?g0 = _ |- _ => change (wf (g_provider g0)); rewrite E end;
    first [exact (run_wf (CCurrentDirectory capacity 0) _ Hwf Hroom I)
          | exact (run_wf (CReadLink _ capacity) _ Hwf Hroom I) | exact (run_wf (CRealPath _ capacity 0) _ Hwf Hroom I)].
  pose proof (lock_keeps_wf file md (negb (wait =? 0)) others _ Hwf Ho) as Hl. unfold f_lock, provider, memfs_files.
  destruct (lock _ _ _ _ _) as [p [r |]]; [| done]. by destruct (_ && _).
Qed.
(** What is left of the listing gets shorter with every entry. *)
Lemma read_directory_shorter d cap s s' x listing next : borrow s d = Ok (HDirectory listing next) -> 0 <= next -> read_directory d cap s = (s', Ok x) ->
  exists next', borrow s' d = Ok (HDirectory listing next') /\ next < next' /\ next < lenZ listing.
Proof.
  intros Hb Hn. unfold read_directory. rewrite bind_reads, Hb. destruct (dropZ next listing) as [| k [| l rest]] eqn:Hd; [done | done |].
  destruct (_ <? _); [done |]. destruct (_ <? _); [done |]. intros [= <- _]. exists (next + (2 + lenZ (takeZ l rest))).
  pose proof (lenZ_nonneg (takeZ l rest)). split_and!; [| lia |].
  - unfold borrow in *. destruct (_ || _); [done |]. simpl. by rewrite lookup_insert_eq.
  - destruct (Z.lt_ge_cases next (lenZ listing)); [done |]. exfalso. apply (f_equal length) in Hd. unfold dropZ in Hd.
    rewrite length_drop in Hd. simpl in Hd. unfold lenZ in *. lia.
Qed.
Lemma directory_read_loop_returns fuel d nm cap len kind g :
  (forall listing next, borrow (g_provider g) d = Ok (HDirectory listing next) -> 0 <= next /\ lenZ listing - next < Z.of_nat fuel) -> (0 < fuel)%nat ->
  exists g' st, directory_read_loop fuel d nm cap len kind g = (g', Some st).
Proof.
  revert g. induction fuel as [| fuel IH]; intros g Hb Hf; [lia |]. cbn [directory_read_loop]. cbn zeta.
  destruct (g_call _ _) as [g1 r] eqn:Hc. apply g_call_frame in Hc as (_ & _ & Hp).
  assert (forall status (g : Group Fs), exists g' st, (let '(g, st) := files_record status 9 g in (g, Some st)) = (g', Some st)) as Hfin by eauto.
  destruct r as [[[k stored] node] | e]; [| apply Hfin]. destruct ((k =? 0) || _); [apply Hfin |]. cbn zeta.
  destruct (bool_decide _ || _); [| destruct (listable _ _); apply Hfin].
  simpl in Hp. unfold bind in Hp. destruct (read_directory d cap (g_provider g)) as [s' [x | e]] eqn:Hr; [| done]. injection Hp as Hp _ _ _.
  assert (exists l n, borrow (g_provider g) d = Ok (HDirectory l n)) as (l & n & Hbd).
  { unfold read_directory in Hr. rewrite bind_reads in Hr. destruct (borrow _ _) as [[] |] eqn:E; try done. eauto. }
  destruct (Hb _ _ Hbd) as [Hn Hlen]. destruct (read_directory_shorter _ _ _ _ _ _ _ Hbd Hn Hr) as (n' & Hb' & Hlt & Hin).
  apply IH; [| lia]. intros l2 n2. simpl. rewrite Hp, Hb'. intros [= <- <-]. lia.
Qed.
End Instance.

(** The states that C calls lead to, at any times, while no counter of the tree is at its end. *)
Inductive served (a : answers) : Group Fs -> Prop :=
| served_start g : g_provider g = initial a -> served a g
| served_call g now c : served a g -> room (g_provider g) -> served_ok c -> served a (files_call (FS := memfs_files now []) c g).1.

(** Whatever the C consumer calls, in any order and with any arguments of the C types, the tree stays well formed. *)
Theorem served_wf a g : served a g -> wf (g_provider g).
Proof. induction 1 as [g -> | g now c _ IH Hroom Hok]; [apply initial_wf | by apply served_keeps_wf]. Qed.

(** Reading a directory entry through the front end returns: the loop that skips self references takes at most one
    round more than there are bytes left in the listing. *)
Theorem served_directory_read_returns now g (d nm capacity length kind : Z) (fuel : nat) : (0 < fuel)%nat ->
  (forall listing next, borrow (g_provider g) d = Ok (HDirectory listing next) -> 0 <= next /\ lenZ listing - next < Z.of_nat fuel) ->
  exists g' st, files_directory_read (FS := memfs_files now []) fuel d nm capacity length kind g = (g', Some st).
Proof.
  intros Hf Hb. unfold files_directory_read. cbn zeta. destruct (_ || _); [eauto |]. destruct (_ || _); [eauto |].
  by apply directory_read_loop_returns.
Qed.

(** What a C consumer writes it reads back: after a write that returned [OK], the count it stored is the number of
    bytes given, and a read of that range, through any handle of the file that may read, returns [OK], stores the same
    count and leaves exactly those bytes in the buffer. *)
Theorem served_write_read t1 t2 g g1 (file reader nd o written data got : Z) (d : Borrow) :
  wf (g_provider g) -> 0 <= o -> file_node (g_provider g) file WRITE = Ok nd -> file_node (g_provider g) reader READ = Ok nd ->
  0 < lenZ (b_bytes d) -> aligned_output align_of_usize written = true -> aligned_output align_of_usize got = true ->
  reader <> 0 -> valid_buffer data (lenZ (b_bytes d)) = true -> data <> got ->
  files_write_at (FS := memfs_files t1 []) file o d written g = (g1, OK) ->
  cell_is g1 written [lenZ (b_bytes d)] /\
  exists g2 rest, files_read_at (FS := memfs_files t2 []) reader o data (lenZ (b_bytes d)) got g1 = (g2, OK) /\
    cell_is g2 got [lenZ (b_bytes d)] /\ cell_is g2 data (b_bytes d ++ rest).
Proof.
  intros Hwf Ho Hf Hr Hlen Haw Hag Hrd Hv Hne. unfold files_write_at. cbn zeta. rewrite Haw. cbn [negb].
  destruct (_ || _) eqn:Hargs; [done |]. replace (lenZ (b_bytes d) =? 0) with false by lia.
  destruct (g_call _ _) as [g0 r] eqn:Hc. apply g_call_frame in Hc as (_ & Hcells & Hp). simpl in Hp. symmetry in Hp.
  destruct r as [k | e].
  2: { intros Hx. apply files_record_cells in Hx as (_ & Hx & _). by rewrite error_status in Hx. }
  destruct (written_is_read _ _ _ _ _ _ _ _ _ Hwf Ho Hf Hr Hp) as [-> Hback]. replace (lenZ (b_bytes d) =? 0) with false by lia.
  rewrite Z.ltb_irrefl. intros [= <-]. split; [apply cell_put |].
  unfold files_read_at. rewrite Hag, Hv. cbn [negb]. cbn zeta. replace (reader =? 0) with false by lia. replace (i64_max <? o) with false by lia.
  cbn [orb]. replace (lenZ (b_bytes d) =? 0) with false by lia. unfold g_call, f_read_at, memfs_files. simpl.
  unfold bind. destruct (read_at reader o (lenZ (b_bytes d)) (g_provider g0)) as [s2 r2]. simpl in Hback. subst r2. cbn.
  rewrite Z.ltb_irrefl. eexists _, _. split; [reflexivity |]. split; [apply cell_put |]. apply cell_put_ne; [done |]. apply cell_put.
Qed.
End Served.

(** ** At concrete inputs *)
Module Consumer.
Import FileSystem.Sample.
#[local] Existing Instance arch64.
#[local] Existing Instance le_machine.
#[local] Existing Instance boxes.
Definition group : Group Fs := mkGroup (fun _ => 0) ∅ state.
Definition fresh : Group Fs := mkGroup (fun _ => 0) ∅ start.
Definition made : Group Fs := (files_call (FS := memfs_files 1 []) (FDirectoryCreate (mkBorrow 4096 (bytes "/a")) 493) fresh).1.
Lemma served_wf_witness : wf (g_provider made) /\ is_Some (nodes (g_provider made) !! 2).
Proof.
  split; [| vm_compute; eauto]. apply (served_wf [] made). apply served_call; [by apply served_start | | done].
  apply roomb_room. vm_compute. reflexivity.
Defined.
Lemma served_directory_read_returns_witness :
  let g := (files_call (FS := memfs_files 1 []) (FDirectoryOpen (mkBorrow 4096 (bytes "/a")) 8192) group).1 in
  exists g' st, files_directory_read (FS := memfs_files 2 []) 100 72 4096 255 8200 8208 g = (g', Some st).
Proof.
  intros g. apply (served_directory_read_returns 2 g 72 4096 255 8200 8208 100); [lia |].
  intros listing next Hb. vm_compute in Hb. injection Hb as <- <-. split; [lia | vm_compute; reflexivity].
Defined.
(** Flags 9 are [READ] with [EXCLUSIVE] and without [CREATE]. *)
Definition bad_open : FilesCall := FOpen (mkBorrow 4096 (bytes "/a/f")) 9 0 8192.
Definition good_open : FilesCall := FOpen (mkBorrow 4096 (bytes "/a/f")) 1 0 8192.
Definition logging : Group (Fs * list Request) := mkGroup (fun _ => 0) ∅ (state, []).
Definition text2 : Borrow := mkBorrow 4096 (bytes "p!").
Lemma served_write_read_witness : exists g1 g2 rest,
  files_write_at (FS := memfs_files 9 []) 8 3 text2 8192 group = (g1, OK) /\
  files_read_at (FS := memfs_files 10 []) 8 3 12288 2 8192 g1 = (g2, OK) /\ cell_is g2 12288 (bytes "p!" ++ rest).
Proof.
  destruct (files_write_at (FS := memfs_files 9 []) 8 3 text2 8192 group) as [g1 st] eqn:E.
  assert (st = OK) as -> by (apply (f_equal snd) in E; vm_compute in E; by rewrite <- E).
  destruct (served_write_read 9 10 group g1 8 8 4 3 8192 12288 8192 text2) as (_ & g2 & rest & Hr & _ & Hd);
    [apply state_wf | lia | vm_compute; reflexivity .. | vm_compute; discriminate | vm_compute; reflexivity | lia | exact E |].
  change (lenZ (b_bytes text2)) with 2 in Hr. exists g1, g2, rest. split; [reflexivity | split; [exact Hr | exact Hd]].
Defined.
End Consumer.
