(* ===== verification/Group.v ===== *)
(** * Group.v: the layout and the promises that the service groups share

    Every C function of a group ([src/src/streams.rs], [sockets.rs], [watches.rs], ...) is laid out in the same way.  It
    returns [INVALID_ARGUMENT] when an output pointer is unusable; it clears its outputs; it checks its other arguments,
    asks the provider and checks the answer; and it ends in the group's [record], which replaces a status that the
    function does not publish and counts the outcome.  A [Query] is such a function: [q_bad] is the first check, [q_clear]
    the outputs with what they are cleared to, [q_data] the buffers that the provider fills, [q_act] the rest, and
    [run_query] puts the pieces together.

    [ServiceGroup] is what a group promises to a C consumer: one count per call, published statuses only, outputs
    cleared when the call fails.  [query_group] proves it for a group of queries; the groups are its instances. *)
From S2P Require Import Prelude Port Counter Boundary Tree Front.
Local Open Scope Z_scope.
Local Open Scope pal_scope.

(** ** The interface *)
(** The counters after a call that counted at [index], or nowhere. *)
Definition counted_at `{Arch} {S} (g g' : Group S) (index : option nat) : Prop :=
  forall i, g_counts g' i = if decide (index = Some i) then increment (g_counts g i) else g_counts g i.

Class ServiceGroup `{Arch} (S C : Type) := {
  (** A call of one of the group's functions; [None] while it has not returned. *)
  sg_call : C -> Group S -> Group S * option Z;
  (** Where a call that returned a status is counted. *)
  sg_counter : C -> Z -> option nat;
  sg_published : C -> Z -> Prop;
  (** The outputs that the call clears, and the buffers that it may fill. *)
  sg_outputs : C -> list (Z * list Z);
  sg_buffers : C -> list Z;
  sg_counts c g : match sg_call c g with
                  | (g', Some st) => counted_at g g' (sg_counter c st) /\ sg_published c st
                  | (g', None) => g_counts g' = g_counts g
                  end;
  sg_clears c g g' st : sg_call c g = (g', Some st) -> NoDup ((sg_outputs c).*1 ++ sg_buffers c) ->
    st <> OK -> st <> BUFFER_TOO_SMALL -> Forall (fun o => cell_is g' o.1 o.2) (sg_outputs c);
}.

(** ** Queries *)
(** [q_rejected] is what a call with an unusable output still does: nothing, except where the provider is asked before
    the output is looked at. *)
Record Query (S : Type) := mkQueryWith {
  q_index : nat; q_bad : bool; q_rejected : Group S -> Group S; q_clear : list (Z * list Z); q_data : list Z;
  q_act : Group S -> Group S * Z }.
Arguments mkQueryWith {S} _ _ _ _ _ _.
Arguments q_rejected {S} _ _.
Notation mkQuery index bad clear data act := (mkQueryWith index bad (fun g => g) clear data act).
Arguments q_index {S} _.
Arguments q_bad {S} _.
Arguments q_clear {S} _.
Arguments q_data {S} _.
Arguments q_act {S} _ _.

Section Query.
Context `{Arch} {S : Type}.
Implicit Types (g : Group S) (q : Query S).

Fixpoint puts (ws : list (Z * list Z)) g : Group S :=
  match ws with [] => g | (out, v) :: ws => puts ws (g_put out v g) end.
Definition run_query (rec : Z -> nat -> Group S -> Group S * Z) q g : Group S * Z :=
  if q_bad q then rec INVALID_ARGUMENT (q_index q) (q_rejected q g) else
  let '(g, status) := q_act q (puts (q_clear q) g) in rec status (q_index q) g.
(** The usual [record]: a status that [keeps] does not list becomes [OS_ERROR], a failure counts at [failed]. *)
Definition record_by (keeps : nat -> Z -> bool) (failed : nat) (status : Z) (index : nat) g : Group S * Z :=
  g_record (keeps index) failed status index g.

(** [if refused { return record(INVALID_ARGUMENT, index) }] *)
Definition refuse (refused : bool) (act : Group S -> Group S * Z) g : Group S * Z := if refused then (g, INVALID_ARGUMENT) else act g.
(** [let Some(x) = x else { return record(INVALID_ARGUMENT, index) }] *)
Definition with_some {A} (x : option A) (act : A -> Group S -> Group S * Z) g : Group S * Z :=
  match x with Some x => act x g | None => (g, INVALID_ARGUMENT) end.
(** [if done { return record(OK, index) }] *)
Definition finish (done : bool) (act : Group S -> Group S * Z) g : Group S * Z := if done then (g, OK) else act g.
Definition ask {A} (op : M S Error A) (k : Result A -> Group S -> Group S * Z) g : Group S * Z :=
  let '(g, r) := g_call op g in k r g.
(** [match op { Ok(v) => check and write v, Err(e) => e.status() }]; [render] is [None] for an answer that is not passed on. *)
Definition answer {A} (render : A -> option (list (Z * list Z))) (r : Result A) g : Group S * Z :=
  match r with
  | Ok v => match render v with Some ws => (puts ws g, OK) | None => (g, OS_ERROR) end
  | Err e => (g, status_of e)
  end.
(** The same where the code answers with another status than [OS_ERROR]. *)
Definition reply {A} (render : A -> Z + list (Z * list Z)) (r : Result A) g : Group S * Z :=
  match r with
  | Ok v => match render v with inr ws => (puts ws g, OK) | inl status => (g, status) end
  | Err e => (g, status_of e)
  end.
Definition tell (op : M S Error unit) : Group S -> Group S * Z := ask op (fun r g => (g, status r)).
(** A provider that fills the buffer at [data] answers what it stored there, and the count is checked afterwards. *)
Definition transfer {A} (data : Z) (render : A -> option (list (Z * list Z))) (r : Result (A * list Z)) g : Group S * Z :=
  match r with
  | Ok (v, stored) => answer render (Ok v) (g_store data stored g)
  | Err e => (g, status_of e)
  end.
(** A list that the provider stores at [out], answering how many elements there are: the list is kept when it fits, and
    its length is reported in any case. *)
Definition fill (first nonzero : bool) (out capacity needed limit : Z) (op : M S Error (Z * list Z)) g : Group S * Z :=
  let g := if first then g_clear out capacity g else g in
  let '(g, r) := g_call op g in
  let '(g, status) :=
    match r with
    | Ok (found, stored) =>
        let g := g_store out stored g in
        if (nonzero && (found =? 0)) || (limit <? found) then (g, OS_ERROR)
        else (g_put needed [found] g, if capacity <? found then BUFFER_TOO_SMALL else OK)
    | Err e => (g, status_of e)
    end in
  (if status =? OK then g else g_clear out capacity g, status).
(** One element of the array at [out]. *)
Definition g_poke (out i v : Z) g : Group S := g_put out (<[Z.to_nat i := v]> (g_get out g)) g.
(** [read_stats] of a group with [n] counters: not counted itself. *)
Definition group_read_stats (n : nat) (out size : Z) g : Group S * Z :=
  if negb (aligned_output align_of_u64 out) || (size <? 8 * Z.of_nat n) then (g, INVALID_ARGUMENT) else
  (g_put out (load <$> (g_counts g <$> seq 0 n)) g, OK).
End Query.
(** The callbacks of a group, [struct Ops] of its module: one for each call of type [C], and [read_stats].  A callback that is
    not there is [None]; the table [EMPTY] of a group whose provider is absent still has its [read_stats]. *)
Record Ops (C F G : Type) := mkOps { op : C -> option F; op_read_stats : option G }.
Arguments mkOps {C F G} _ _.
Arguments op {C F G} _ _.
Arguments op_read_stats {C F G} _.
Definition EMPTY {C F G} (stats : G) : Ops C F G := mkOps (fun _ => None) (Some stats).
Definition every {C F G} (call : C -> F) (stats : G) : Ops C F G := mkOps (fun c => Some (call c)) (Some stats).
Definition ReadStats (S : Type) : Type := Z -> Z -> Group S -> Group S * Z.
(** A status that [record] keeps: one of [always], or one of the group's own for the call's counter. *)
Definition kept (always : list Z) (status : Z) : bool := existsb (Z.eqb status) always.

(** ** What an [act] leaves of the outputs *)
Section Settled.
Context `{Arch} {S : Type}.
Implicit Types (g : Group S) (q : Query S).

(** It counts nothing, and a failure leaves every output as it was cleared; with [tol] a list or a text may report the length it needs. *)
Definition settled (tol : bool) (clear : list (Z * list Z)) (data : list Z) (act : Group S -> Group S * Z) : Prop :=
  forall g g' st, act g = (g', st) -> g_counts g' = g_counts g /\
    (st <> OK -> (tol = true /\ st = BUFFER_TOO_SMALL) \/
       forall out v, (out, v) ∈ clear -> out ∉ data -> cell_is g out v -> cell_is g' out v).

Lemma g_get_put out v g : g_get out (g_put out v g) = v.
Proof. unfold g_get, g_put. simpl. by rewrite lookup_insert_eq. Qed.
Lemma g_get_store out bytes g : g_get out (g_store out bytes g) = bytes ++ dropZ (lenZ bytes) (g_get out g).
Proof. apply g_get_put. Qed.
Lemma g_get_poke out i v g : g_get out (g_poke out i v g) = <[Z.to_nat i := v]> (g_get out g).
Proof. apply g_get_put. Qed.
Lemma puts_counts ws g : g_counts (puts ws g) = g_counts g.
Proof. revert g. induction ws as [| [o v] ws IH]; intros g; [done |]. simpl. by rewrite IH. Qed.
Lemma puts_other ws g out : out ∉ ws.*1 -> g_cells (puts ws g) !! out = g_cells g !! out.
Proof.
  revert g. induction ws as [| [o v] ws IH]; intros g Hn; [done |]. simpl in *. apply not_elem_of_cons in Hn as [? ?].
  rewrite IH by done. simpl. by rewrite lookup_insert_ne.
Qed.
Lemma puts_cells ws g : NoDup ws.*1 -> Forall (fun o => cell_is (puts ws g) o.1 o.2) ws.
Proof.
  revert g. induction ws as [| [o v] ws IH]; intros g Hnd; [by constructor |]. simpl in *. apply NoDup_cons in Hnd as [Hn Hnd].
  constructor; [| by apply IH]. unfold cell_is. simpl. rewrite puts_other by done. apply lookup_insert_eq.
Qed.
Lemma answer_counts {A} (render : A -> _) r g g' st : answer render r g = (g', st) -> g_counts g' = g_counts g.
Proof. unfold answer. destruct r as [v |]; [destruct (render v) |]; intros [= <- _]; [apply puts_counts | done | done]. Qed.

Lemma settled_refuse tol clear data b act : settled tol clear data act -> settled tol clear data (refuse b act).
Proof. intros Ha g g' st. unfold refuse. destruct b; [intros [= <- <-]; auto | apply Ha]. Qed.
Lemma settled_finish tol clear data b act : settled tol clear data act -> settled tol clear data (finish b act).
Proof. intros Ha g g' st. unfold finish. destruct b; [intros [= <- <-]; auto | apply Ha]. Qed.
Lemma settled_with_some {A} tol clear data (x : option A) act : (forall a, settled tol clear data (act a)) -> settled tol clear data (with_some x act).
Proof. intros Ha g g' st. unfold with_some. destruct x; [apply Ha | intros [= <- <-]; auto]. Qed.
Lemma settled_ask {A} tol clear data (op : M S Error A) k : (forall r, settled tol clear data (k r)) -> settled tol clear data (ask op k).
Proof.
  intros Hk g g' st. unfold ask. destruct (g_call op g) as [g1 r] eqn:Hc. apply g_call_frame in Hc as (Hc1 & Hc2 & _).
  intros [Ht Hs]%Hk. rewrite Hc1 in Ht. unfold cell_is in *. rewrite Hc2 in Hs. auto.
Qed.
Lemma settled_tell tol clear data op : settled tol clear data (tell op).
Proof. apply settled_ask. intros r g g' st [= <- <-]. auto. Qed.
Lemma settled_reply {A} tol clear data (render : A -> _) r : settled tol clear data (reply render r).
Proof.
  intros g g' st. unfold reply. destruct r as [v | e]; [destruct (render v) |]; intros [= <- <-]; [by auto | | by auto].
  split; [apply puts_counts | done].
Qed.
Lemma settled_answer {A} tol clear data (render : A -> _) r : settled tol clear data (answer render r).
Proof.
  intros g g' st. unfold answer. destruct r as [v | e]; [destruct (render v) |]; intros [= <- <-]; [| by auto | by auto].
  split; [apply puts_counts | done].
Qed.
(** Where there are no outputs to keep, it is enough not to count. *)
Lemma settled_nil tol data act : (forall g g' st, act g = (g', st) -> g_counts g' = g_counts g) -> settled tol [] data act.
Proof. intros Ha g g' st E. split; [by eapply Ha |]. intros _. right. by intros out v ?%elem_of_nil. Qed.
(** What happens in the buffers does not show in the outputs. *)
Definition off (data : list Z) g g' : Prop := g_counts g' = g_counts g /\ forall x, x ∉ data -> g_cells g' !! x = g_cells g !! x.
Lemma off_refl data g : off data g g.
Proof. done. Qed.
Lemma off_trans data g g1 g2 : off data g g1 -> off data g1 g2 -> off data g g2.
Proof. intros [? H1] [? H2]. split; [congruence |]. intros x Hx. rewrite H2, H1; done. Qed.
Lemma off_put data out v g g' : out ∈ data -> off data g g' -> off data g (g_put out v g').
Proof. intros Ho [? Hx]. split; [done |]. intros x Hd. simpl. rewrite lookup_insert_ne; [by apply Hx |]. by intros ->. Qed.
Lemma off_store data out bytes g g' : out ∈ data -> off data g g' -> off data g (g_store out bytes g').
Proof. apply off_put. Qed.
Lemma off_clear data out capacity g g' : out ∈ data -> off data g g' -> off data g (g_clear out capacity g').
Proof. intros Ho Hf. unfold g_clear. destruct (_ =? _); [done | by apply off_put]. Qed.
Lemma off_call {A} data (op : M S Error A) g g1 g2 r : g_call op g1 = (g2, r) -> off data g g1 -> off data g g2.
Proof. intros (Hc1 & Hc2 & _)%g_call_frame [? Hx]. split; [congruence |]. by rewrite Hc2. Qed.
Lemma off_settled tol clear data act : (forall g g' st, act g = (g', st) -> off data g g' \/ (g_counts g' = g_counts g /\ (st = OK \/ (tol = true /\ st = BUFFER_TOO_SMALL)))) ->
  settled tol clear data act.
Proof.
  intros Ha g g' st [[Hc Hx] | [Hc Hst]]%Ha; (split; [done |]); intros Hok.
  - right. intros out v _ Hd. unfold cell_is. by rewrite Hx.
  - left. naive_solver.
Qed.
Lemma settled_transfer {A} tol clear data buffer (render : A -> _) r : buffer ∈ data -> settled tol clear data (transfer buffer render r).
Proof.
  intros Hb g g' st. unfold transfer. destruct r as [[v stored] | e]; [| intros [= <- <-]; auto].
  intros Hr. apply (settled_answer tol clear data) in Hr as [Hc Hs]. split; [done |]. intros [? | Hst]%Hs; [by left | right].
  intros out w Ho Hd Hg. apply Hst; [done | done |]. unfold cell_is. simpl. rewrite lookup_insert_ne; [done |]. by intros ->.
Qed.
(** The last step of [text] and [fill]. *)
Lemma off_last data out capacity g g0 g' st0 st : out ∈ data -> off data g g0 -> st0 <> OK ->
  (if st0 =? OK then g0 else g_clear out capacity g0, st0) = (g', st) -> off data g g'.
Proof. intros Ho Hf Hok. apply Z.eqb_neq in Hok. rewrite Hok. intros [= <- _]. by apply off_clear. Qed.
Lemma g_clear_counts out capacity g : g_counts (g_clear out capacity g) = g_counts g.
Proof. unfold g_clear. by destruct (_ =? _). Qed.
Lemma status_of_error e : status_of e <> OK.
Proof. pose proof (status_of_range e). unfold OK. lia. Qed.
Lemma settled_text clear data out capacity needed limit op : out ∈ data -> settled true clear data (text out capacity needed limit op).
Proof.
  intros Ho. apply off_settled. intros g g' st. unfold text. destruct (g_call op _) as [g1 r] eqn:Hc.
  apply (off_call data _ g) in Hc; [| by apply off_clear, off_refl].
  destruct r as [[len w] | e]; [| intros Hl; left; by apply (off_last data out capacity _ _ _ (status_of e) _ Ho Hc (status_of_error e)) in Hl].
  set (g2 := match w with Some b => g_store out b g1 | None => g1 end).
  assert (off data g g2) as H2 by (subst g2; destruct w; [by apply off_store | done]).
  destruct (negb _); [intros Hl; left; by apply (off_last data out capacity _ _ _ OS_ERROR _ Ho H2) in Hl |].
  destruct (_ <? _); [intros [= <- <-]; right; rewrite g_clear_counts; split; [apply H2 | by right] |].
  destruct (_ || _); [intros Hl; left; by apply (off_last data out capacity _ _ _ OS_ERROR _ Ho H2) in Hl |].
  intros [= <- <-]. right. split; [apply H2 | by left].
Qed.
Lemma settled_fill clear data first nonzero out capacity needed limit op : out ∈ data ->
  settled true clear data (fill first nonzero out capacity needed limit op).
Proof.
  intros Ho. apply off_settled. intros g g' st. unfold fill. destruct (g_call op _) as [g1 r] eqn:Hc.
  apply (off_call data _ g) in Hc; [| destruct first; [by apply off_clear, off_refl | apply off_refl]].
  destruct r as [[found stored] | e]; [| intros Hl; left; by apply (off_last data out capacity _ _ _ (status_of e) _ Ho Hc (status_of_error e)) in Hl].
  pose proof (off_store data out stored g g1 Ho Hc) as H2.
  destruct (_ || _); [intros Hl; left; by apply (off_last data out capacity _ _ _ OS_ERROR _ Ho H2) in Hl |].
  destruct (_ <? _); intros [= <- <-]; right; rewrite ?g_clear_counts; (split; [apply H2 |]); auto.
Qed.

(** What a group's [record] does: it replaces a status that is not kept, and counts. *)
Definition recorder (rec : Z -> nat -> Group S -> Group S * Z) (keeps : nat -> Z -> bool) (counter : nat -> Z -> option nat) : Prop :=
  forall status index g, let '(g', st) := rec status index g in
    st = (if keeps index status then status else OS_ERROR) /\ g_cells g' = g_cells g /\ counted_at g g' (counter index st).
Lemma record_by_recorder keeps failed : recorder (record_by keeps failed) keeps (fun index st => Some (if st =? OK then index else failed)).
Proof. intros status index g. unfold record_by, g_record. split_and!; [done | done |]. intros i. simpl. repeat case_decide; naive_solver. Qed.

Lemma query_counts rec keeps counter q g : recorder rec keeps counter ->
  (forall g g' st, q_act q g = (g', st) -> g_counts g' = g_counts g) -> (forall g, g_counts (q_rejected q g) = g_counts g) -> keeps (q_index q) OS_ERROR = true ->
  let '(g', st) := run_query rec q g in counted_at g g' (counter (q_index q) st) /\ keeps (q_index q) st = true.
Proof.
  intros Hrec Ha Hrej Hos. unfold run_query.
  assert (forall g1 st1, g_counts g1 = g_counts g -> let '(g', st) := rec st1 (q_index q) g1 in
    counted_at g g' (counter (q_index q) st) /\ keeps (q_index q) st = true) as Hone.
  { intros g1 st1 Hc. specialize (Hrec st1 (q_index q) g1). destruct (rec st1 (q_index q) g1) as [g' st]. destruct Hrec as (-> & _ & Hcnt).
    split; [intros i; rewrite <- Hc; apply Hcnt |]. by destruct (keeps (q_index q) st1) eqn:E. }
  destruct (q_bad q); [by apply Hone |]. destruct (q_act q _) as [g1 st1] eqn:E. apply Hone. rewrite (Ha _ _ _ E). apply puts_counts.
Qed.
Lemma query_clears rec keeps counter tol q g g' st : recorder rec keeps counter -> settled tol (q_clear q) (q_data q) (q_act q) ->
  keeps (q_index q) OK = true -> (tol = true -> keeps (q_index q) BUFFER_TOO_SMALL = true) -> q_bad q = false -> NoDup ((q_clear q).*1 ++ q_data q) ->
  run_query rec q g = (g', st) -> st <> OK -> st <> BUFFER_TOO_SMALL -> Forall (fun o => cell_is g' o.1 o.2) (q_clear q).
Proof.
  intros Hrec Hs Hkok Htol Hbad [Hnd [Hdis _]]%NoDup_app Hrun Hok Hbts. unfold run_query in Hrun. rewrite Hbad in Hrun.
  destruct (q_act q _) as [g1 st1] eqn:E. apply Hs in E as [_ Hcells]. specialize (Hrec st1 (q_index q) g1). rewrite Hrun in Hrec.
  destruct Hrec as (-> & Hsame0 & _).
  assert (st1 <> OK) as H1. { intros ->. by rewrite Hkok in Hok. }
  destruct (Hcells H1) as [[Ht ->] | Hsame]; [exfalso; apply Hbts; by rewrite (Htol Ht) |].
  pose proof (puts_cells (q_clear q) g Hnd) as Hp. rewrite Forall_forall in *. intros [o v] Ho. specialize (Hp _ Ho).
  unfold cell_is. rewrite Hsame0. apply (Hsame o v Ho); [| exact Hp]. apply Hdis. change o with ((o, v).1). by apply list_elem_of_fmap_2.
Qed.
End Settled.
Create HintDb acts discriminated.
#[export] Hint Resolve settled_refuse settled_finish settled_with_some settled_ask settled_tell settled_answer settled_reply settled_transfer settled_text settled_fill : acts.
#[export] Hint Constants Transparent : acts.
#[export] Hint Resolve list_elem_of_here list_elem_of_further : acts.

(** Discharges the obligations of [query_group] for a group's functions. *)
Ltac settle := intros []; simpl; eauto 10 with acts.

(** ** A group of queries *)
Section QueryGroup.
Context `{Arch} {S C : Type}.
(** [texts c]: the function answers a text or a list, so that [BUFFER_TOO_SMALL] is among its statuses. *)
Definition recorded_group (calls : C -> Query S) (rec : C -> Z -> nat -> Group S -> Group S * Z) (keeps : C -> nat -> Z -> bool)
    (counter : nat -> Z -> option nat) (texts : C -> bool)
    (Hrec : forall c, recorder (rec c) (keeps c) counter)
    (Hact : forall c, settled (texts c) (q_clear (calls c)) (q_data (calls c)) (q_act (calls c)))
    (Hrej : forall c g, g_counts (q_rejected (calls c) g) = g_counts g)
    (Hos : forall c i, keeps c i OK = true /\ keeps c i OS_ERROR = true)
    (Htext : forall c, texts c = true -> keeps c (q_index (calls c)) BUFFER_TOO_SMALL = true) : ServiceGroup S C.
Proof.
  refine {|
    sg_call c g := let '(g', st) := run_query (rec c) (calls c) g in (g', Some st);
    sg_counter c st := counter (q_index (calls c)) st;
    sg_published c st := keeps c (q_index (calls c)) st = true;
    sg_outputs c := if q_bad (calls c) then [] else q_clear (calls c);
    sg_buffers c := q_data (calls c) |}.
  - intros c g. pose proof (query_counts (rec c) (keeps c) counter (calls c) g (Hrec c)) as Hq. destruct (run_query (rec c) (calls c) g) as [g' st].
    apply Hq; [| apply Hrej | apply Hos]. intros g1 g2 st2 E. by apply Hact in E as [? _].
  - intros c g g' st. destruct (run_query (rec c) (calls c) g) as [g1 st1] eqn:E. intros [= <- <-] Hnd Hok Hbts.
    destruct (q_bad (calls c)) eqn:Hbad; [by constructor |]. eapply query_clears; eauto. apply Hos.
Defined.
(** The common case: one [record] for all functions. *)
Definition query_group (calls : C -> Query S) (keeps : nat -> Z -> bool) (failed : nat) (texts : C -> bool)
    (Hact : forall c, settled (texts c) (q_clear (calls c)) (q_data (calls c)) (q_act (calls c)))
    (Hrej : forall c g, g_counts (q_rejected (calls c) g) = g_counts g)
    (Hos : forall i, keeps i OK = true /\ keeps i OS_ERROR = true)
    (Htext : forall c, texts c = true -> keeps (q_index (calls c)) BUFFER_TOO_SMALL = true) : ServiceGroup S C :=
  recorded_group calls (fun _ => record_by keeps failed) (fun _ => keeps) (fun index st => Some (if st =? OK then index else failed)) texts
    (fun _ => record_by_recorder keeps failed) Hact Hrej (fun _ => Hos) Htext.
End QueryGroup.

(** ** What follows for every group *)
Section Ledger.
Context `{Arch} {S C : Type} `{!ServiceGroup S C}.
Implicit Types (g : Group S).

(** A sequence of calls: the state they lead to and, for each, where it was counted. *)
Fixpoint sg_run (cs : list C) g : Group S * list (option nat) :=
  match cs with
  | [] => (g, [])
  | c :: cs =>
      let '(g, st) := sg_call c g in
      let '(g', log) := sg_run cs g in
      (g', (match st with Some st => sg_counter c st | None => None end) :: log)
  end.
Lemma increment_iter n v : v <= usize_max -> Nat.iter n increment v = Z.min usize_max (v + Z.of_nat n).
Proof.
  intros Hv. induction n as [| n IH]; [simpl; lia |]. rewrite Nat.iter_succ, IH. unfold increment, saturating_add. lia.
Qed.
Lemma sg_run_counts cs g i : g_counts g i <= usize_max ->
  g_counts (sg_run cs g).1 i = Nat.iter (length (filter (fun o => o = Some i) (sg_run cs g).2)) increment (g_counts g i).
Proof.
  revert g. induction cs as [| c cs IH]; intros g Hi; [done |]. simpl. pose proof (sg_counts c g) as Hc.
  destruct (sg_call c g) as [g1 st]. specialize (IH g1). destruct (sg_run cs g1) as [g2 log]. simpl in *.
  assert (g_counts g1 i = if decide ((match st with Some st => sg_counter c st | None => None end) = Some i) then increment (g_counts g i) else g_counts g i) as H1.
  { destruct st as [st |]; [by destruct Hc as [Hc _]; apply Hc |]. rewrite Hc. by case_decide. }
  rewrite IH by (rewrite H1; case_decide; [unfold increment, saturating_add; lia | done]).
  rewrite filter_cons. rewrite H1. case_decide; [| done]. by rewrite <- Nat.iter_succ_r.
Qed.
End Ledger.
