(* ===== verification/Console.v ===== *)
(** * Console.v: standard streams, terminal, clock, priority and process lifetime

    The front ends of [src/src/streams.rs], [terminal.rs], [services.rs], [priority.rs] and [process.rs] over the provider
    traits of [src/src/port.rs].  Each trait is a class, each C function a [Query], each group an instance of
    [ServiceGroup]. *)
From S2P Require Import Prelude Port Counter Boundary Tree Front Group.
Local Open Scope Z_scope.
Local Open Scope pal_scope.

Definition align_of_u32 : Z := 4.
Definition b2z (b : bool) : Z := if b then 1 else 0.

(** ** Standard streams *)
Class Streams (S : Type) := {
  streams_PROVIDED : bool;
  st_write : Z -> list Z -> M S Error Z;
  st_read : Z -> Z -> M S Error (Z * list Z);
  st_is_terminal : Z -> M S Error bool;
}.
Definition INPUT : Z := 0.
Definition OUTPUT : Z := 1.
Definition ERROR : Z := 2.
Inductive StreamsCall := StWrite (stream : Z) (d : Borrow) (written : Z) | StRead (stream data capacity got : Z) | StIsTerminal (stream out : Z).

Section Streams.
Context `{Arch} {S : Type} {St : Streams S}.
Definition streams_keeps (index : nat) (status : Z) : bool := kept [OK; UNSUPPORTED; INVALID_ARGUMENT; OS_ERROR] status.
(** A count of transferred bytes that the consumer can use: at most [size], and not 0 where that would loop. *)
Definition progress (size out : Z) (some : bool) (k : Z) : option (list (Z * list Z)) :=
  if (some && (k =? 0)) || (size <? k) then None else Some [(out, [k])].
Definition streams_write (stream : Z) (d : Borrow) (written : Z) : Query S :=
  let size := lenZ (b_bytes d) in
  mkQuery 0 (negb (aligned_output align_of_usize written)) [(written, [0])] [] (
    refuse ((stream =? INPUT) || (ERROR <? stream) || negb (valid_buffer (b_address d) size)) (
    finish (size =? 0) (
    ask (st_write stream (b_bytes d)) (answer (progress size written true))))).
Definition streams_read (stream data capacity got : Z) : Query S :=
  mkQuery 1 (negb (aligned_output align_of_usize got)) [(got, [0])] [data] (
    refuse (negb (stream =? INPUT) || negb (valid_buffer data capacity)) (
    finish (capacity =? 0) (
    ask (st_read stream capacity) (transfer data (progress capacity got false))))).
Definition streams_is_terminal (stream out : Z) : Query S :=
  mkQuery 2 (negb (aligned_output align_of_u32 out)) [(out, [0])] [] (
    refuse (ERROR <? stream) (ask (st_is_terminal stream) (answer (fun value => Some [(out, [b2z value])])))).
Definition streams_query (c : StreamsCall) : Query S :=
  match c with
  | StWrite stream d written => streams_write stream d written
  | StRead stream data capacity got => streams_read stream data capacity got
  | StIsTerminal stream out => streams_is_terminal stream out
  end.
Definition streams_read_stats : Z -> Z -> Group S -> Group S * Z := group_read_stats 4.
#[export] Instance streams_group : ServiceGroup S StreamsCall.
Proof. refine (query_group streams_query streams_keeps 3 (fun _ => false) _ _ _ _); [settle | by intros [] | done | done]. Defined.
Definition streams_negotiate : Z * Ops StreamsCall (Query S) (ReadStats S) :=
  if streams_PROVIDED then (67108864, every streams_query streams_read_stats) else (0, EMPTY streams_read_stats).
End Streams.

(** ** The terminal *)
Class Terminal (S : Type) := {
  terminal_PROVIDED : bool;
  te_window_size : Z -> M S Error (Z * Z);
  te_set_input_mode : bool -> Z -> Z -> bool -> M S Error unit;
  te_input_ready : M S Error bool;
  te_control_character : Z -> M S Error Z;
}.
Definition CONTROL_ERASE : Z := 1.
Definition CONTROL_END_OF_FILE : Z := 4.
Inductive TerminalCall := TeWindowSize (stream columns rows : Z) | TeSetInputMode (raw min_bytes timeout_ds interrupt_as_input : Z)
| TeInputReady (ready : Z) | TeControlCharacter (which value : Z).

Section Terminal.
Context `{Arch} {S : Type} {Te : Terminal S}.
Definition terminal_keeps (index : nat) (status : Z) : bool := kept [OK; UNSUPPORTED; INVALID_ARGUMENT; OS_ERROR; NOT_FOUND] status.
Definition terminal_window_size (stream columns rows : Z) : Query S :=
  mkQuery 0 (negb (aligned_output align_of_u32 columns) || negb (aligned_output align_of_u32 rows)) [(columns, [0]); (rows, [0])] [] (
    refuse (ERROR <? stream) (
    ask (te_window_size stream) (reply (fun '(c, r) => if (c =? 0) || (r =? 0) then inl UNSUPPORTED else inr [(columns, [c]); (rows, [r])])))).
Definition terminal_set_input_mode (raw min_bytes timeout_ds interrupt_as_input : Z) : Query S :=
  mkQuery 1 false [] [] (
    refuse ((1 <? raw) || (1 <? interrupt_as_input) || (u8_max <? min_bytes) || (u8_max <? timeout_ds)) (
    tell (te_set_input_mode (negb (raw =? 0)) min_bytes timeout_ds (negb (interrupt_as_input =? 0))))).
Definition terminal_input_ready (ready : Z) : Query S :=
  mkQuery 2 (negb (aligned_output align_of_u32 ready)) [(ready, [0])] [] (ask te_input_ready (answer (fun value => Some [(ready, [b2z value])]))).
Definition terminal_control_character (which value : Z) : Query S :=
  mkQuery 3 (negb (aligned_output align_of_u32 value)) [(value, [0])] [] (
    refuse (negb ((CONTROL_ERASE <=? which) && (which <=? CONTROL_END_OF_FILE))) (
    ask (te_control_character which) (answer (fun byte => Some [(value, [byte])])))).
Definition terminal_query (c : TerminalCall) : Query S :=
  match c with
  | TeWindowSize stream columns rows => terminal_window_size stream columns rows
  | TeSetInputMode raw n t i => terminal_set_input_mode raw n t i
  | TeInputReady ready => terminal_input_ready ready
  | TeControlCharacter which value => terminal_control_character which value
  end.
Definition terminal_read_stats : Z -> Z -> Group S -> Group S * Z := group_read_stats 5.
#[export] Instance terminal_group : ServiceGroup S TerminalCall.
Proof. refine (query_group terminal_query terminal_keeps 4 (fun _ => false) _ _ _ _); [settle | by intros [] | done | done]. Defined.
Definition terminal_negotiate : Z * Ops TerminalCall (Query S) (ReadStats S) :=
  if terminal_PROVIDED then (8589934592, every terminal_query terminal_read_stats) else (0, EMPTY terminal_read_stats).
End Terminal.

(** ** Clock and scheduler *)
Class Clock (S : Type) := { clock_PROVIDED : bool; cl_monotonic_ns : M S Error Z }.
Class Scheduler (S : Type) := { scheduler_PROVIDED : bool; sc_sleep_ns : Z -> M S Error unit; sc_yield_now : M S Error unit }.
Definition CAP_CLOCK : Z := 4.
Definition CAP_SCHEDULER : Z := 8.
Inductive ServicesCall := SvMonotonic (out : Z) | SvSleep (ns : Z) | SvYield.

Section Services.
Context `{Arch} {S : Type} {Cl : Clock S} {Sc : Scheduler S}.
Definition services_keeps (index : nat) (status : Z) : bool := status <=? OUT_OF_MEMORY.
Definition services_monotonic_ns (out : Z) : Query S :=
  mkQuery 0 (negb (aligned_output align_of_u64 out)) [(out, [0])] [] (ask cl_monotonic_ns (answer (fun value => Some [(out, [value])]))).
Definition services_sleep_ns (ns : Z) : Query S := mkQuery 1 false [] [] (tell (sc_sleep_ns ns)).
Definition services_yield_thread : Query S := mkQuery 2 false [] [] (tell sc_yield_now).
Definition services_query (c : ServicesCall) : Query S :=
  match c with SvMonotonic out => services_monotonic_ns out | SvSleep ns => services_sleep_ns ns | SvYield => services_yield_thread end.
Definition services_read_stats : Z -> Z -> Group S -> Group S * Z := group_read_stats 4.
#[export] Instance services_group : ServiceGroup S ServicesCall.
Proof. refine (query_group services_query services_keeps 3 (fun _ => false) _ _ _ _); [settle | by intros [] | done | done]. Defined.
(** The callbacks of an absent provider stay empty. *)
Definition services_negotiate : Z * Ops ServicesCall (Query S) (ReadStats S) :=
  (Z.lor (if clock_PROVIDED then CAP_CLOCK else 0) (if scheduler_PROVIDED then CAP_SCHEDULER else 0),
   mkOps (fun c => match c with
                   | SvMonotonic _ => if clock_PROVIDED then Some (services_query c) else None
                   | _ => if scheduler_PROVIDED then Some (services_query c) else None
                   end) (Some services_read_stats)).
End Services.

(** ** Priority *)
Class Priority (S : Type) := { priority_PROVIDED : bool; pr_get : Z -> M S Error Z; pr_set : Z -> Z -> M S Error unit }.
Definition MOST_FAVOURED : Z := -20.
Definition LEAST_FAVOURED : Z := 19.
Inductive PriorityCall := PrGet (process value : Z) | PrSet (process value : Z).

Section Priority.
Context `{Arch} {S : Type} {Pr : Priority S}.
Definition priority_keeps (index : nat) (status : Z) : bool :=
  kept [OK; UNSUPPORTED; INVALID_ARGUMENT; OS_ERROR; NOT_FOUND] status || ((status =? ACCESS_DENIED) && (index =? 1)%nat).
Definition niceness (value : Z) : bool := (MOST_FAVOURED <=? value) && (value <=? LEAST_FAVOURED).
Definition priority_get (process value : Z) : Query S :=
  mkQuery 0 (negb (aligned_output align_of_u32 value)) [(value, [0])] [] (
    ask (pr_get process) (answer (fun found => if niceness found then Some [(value, [found])] else None))).
Definition priority_set (process value : Z) : Query S :=
  mkQuery 1 false [] [] (refuse (negb (niceness value)) (tell (pr_set process value))).
Definition priority_query (c : PriorityCall) : Query S :=
  match c with PrGet process value => priority_get process value | PrSet process value => priority_set process value end.
Definition priority_read_stats : Z -> Z -> Group S -> Group S * Z := group_read_stats 3.
#[export] Instance priority_group : ServiceGroup S PriorityCall.
Proof. refine (query_group priority_query priority_keeps 2 (fun _ => false) _ _ _ _); [settle | by intros [] | done | done]. Defined.
Definition priority_negotiate : Z * Ops PriorityCall (Query S) (ReadStats S) :=
  if priority_PROVIDED then (1099511627776, every priority_query priority_read_stats) else (0, EMPTY priority_read_stats).
End Priority.

(** ** Process lifetime *)
(** [crash_dump] gets the arguments and answers what it stored in the message buffer, also when it fails; [exit] does not return:
    its answer is the state in which the process ends. *)
Class Process (S : Type) := {
  process_PROVIDED : bool;
  pc_exit : Z -> S -> S;
  pc_debugger_present : M S Error bool;
  pc_crash_dump : list Borrow -> Z -> S -> S * (Result unit * list Z);
}.
Definition MAX_ARGUMENTS : Z := 64.
Definition MAX_ARGUMENT : Z := 4096.
Inductive ProcessCall := PcDebuggerPresent (out : Z) | PcCrashDump (argv : Z) (args : list Borrow) (error capacity : Z).

Section Process.
Context `{Arch} {S : Type} {Pc : Process S}.
Definition process_keeps (index : nat) (status : Z) : bool := kept [OK; UNSUPPORTED; INVALID_ARGUMENT; OS_ERROR] status.
Definition process_debugger_present (out : Z) : Query S :=
  mkQuery 0 (negb (aligned_output align_of_u32 out)) [(out, [0])] [] (ask pc_debugger_present (answer (fun present => Some [(out, [b2z present])]))).
(** [while argument[length] != 0 { length += 1; if length > MAX_ARGUMENT { return None } }] *)
Fixpoint terminated (memory : list Z) (length : Z) : bool :=
  match memory with
  | [] => false
  | b :: memory => if b =? 0 then true else if MAX_ARGUMENT <? length + 1 then false else terminated memory (length + 1)
  end.
(** A pointer to a NUL-terminated argument is a borrow of the memory behind it. *)
Definition valid_arguments (argv : Z) (args : list Borrow) : option (list Borrow) :=
  let argc := lenZ args in
  if (argv =? 0) || (argc =? 0) || (MAX_ARGUMENTS <? argc) || negb (argv mod align_of_usize =? 0) then None
  else if forallb (fun a => negb (b_address a =? 0) && terminated (b_bytes a) 0) args then Some args else None.
Definition crash_dump_act (error capacity : Z) (args : list Borrow) (g : Group S) : Group S * Z :=
  let '(p, (r, stored)) := pc_crash_dump args capacity (g_provider g) in
  let g := mkGroup (g_counts g) (g_cells g) p in
  let g := if capacity =? 0 then g else g_poke error (capacity - 1) 0 (g_store error stored g) in
  (g, status r).
Definition process_crash_dump (argv : Z) (args : list Borrow) (error capacity : Z) : Query S :=
  mkQuery 1 ((MAX_ARGUMENT <? capacity) || (negb (capacity =? 0) && (error =? 0))) [] [error] (fun g =>
    let g := if capacity =? 0 then g else g_poke error 0 0 g in
    with_some (valid_arguments argv args) (crash_dump_act error capacity) g).
Definition process_query (c : ProcessCall) : Query S :=
  match c with
  | PcDebuggerPresent out => process_debugger_present out
  | PcCrashDump argv args error capacity => process_crash_dump argv args error capacity
  end.
Definition process_read_stats : Z -> Z -> Group S -> Group S * Z := group_read_stats 3.
Lemma crash_dump_settled argv args error capacity : settled false [] [error] (q_act (process_crash_dump argv args error capacity)).
Proof.
  apply settled_nil. intros g g' st. simpl. unfold with_some, crash_dump_act. destruct (valid_arguments argv args).
  - destruct (pc_crash_dump _ _ _) as [p [r stored]]. intros [= <- _]. by destruct (_ =? _).
  - intros [= <- _]. by destruct (_ =? _).
Qed.
#[export] Instance process_group : ServiceGroup S ProcessCall.
Proof.
  refine (query_group process_query process_keeps 2 (fun _ => false) _ _ _ _); [| by intros [] | done | done].
  intros []; [simpl; eauto 10 with acts | apply crash_dump_settled].
Defined.
Definition process_negotiate : Z * Ops ProcessCall (Query S) (ReadStats S) :=
  if process_PROVIDED then (16777216, every process_query process_read_stats) else (0, EMPTY process_read_stats).
(** The callback [exit] is not a query. *)
Definition process_exit : option (Z -> S -> S) := if process_PROVIDED then Some pc_exit else None.

(** The crash message ends inside its buffer, whatever the provider stored there. *)
Lemma crash_message_terminated argv args error capacity g g' st : 0 < capacity -> length (g_get error g) = Z.to_nat capacity ->
  q_act (process_crash_dump argv args error capacity) g = (g', st) -> exists i, (i < Z.to_nat capacity)%nat /\ g_get error g' !! i = Some 0.
Proof.
  intros Hc Hlen. simpl. replace (capacity =? 0) with false by lia. unfold with_some.
  destruct (valid_arguments argv args); simpl.
  - unfold crash_dump_act. destruct (pc_crash_dump _ _ _) as [p [r stored]]. intros [= <- _]. exists (Z.to_nat (capacity - 1)).
    split; [lia |]. replace (capacity =? 0) with false by lia. rewrite g_get_poke. apply list_lookup_insert_eq.
    rewrite g_get_store, length_app. unfold dropZ. rewrite length_drop.
    change (g_get error (mkGroup _ _ p)) with (g_get error (g_poke error 0 0 g)). rewrite g_get_poke, length_insert. unfold lenZ. lia.
  - intros [= <- _]. exists O. split; [lia |]. rewrite g_get_poke. apply list_lookup_insert_eq. lia.
Qed.
End Process.
