(* ===== verification/Machine.v ===== *)
(** * Machine.v: topology, system facts, volumes, accounts and images

    The front ends of [src/src/topology.rs], [system.rs], [volumes.rs], [accounts.rs] and [image.rs].  They answer with
    numbers, texts and records that the front end checks before it passes them on; the last section proves what a
    consumer may rely on in those records. *)
From S2P Require Import Prelude Port Counter Boundary Tree Front Group Console.
Local Open Scope Z_scope.
Local Open Scope pal_scope.

(** The element of a fixed-size array. *)
Definition at_ (l : list Z) (i : nat) : Z := default 0 (l !! i).
(** [position(|b| *b == c)] *)
Fixpoint byte_position (c : Z) (l : list Z) : option nat :=
  match l with [] => None | b :: l => if b =? c then Some O else Datatypes.S <$> byte_position c l end.
(** [text[..text.position(0).unwrap_or(text.len())]] *)
Definition cut (l : list Z) : list Z := take (default (length l) (byte_position 0 l)) l.
(** A text at the start of a cleared array of [n] bytes. *)
Definition field (n : nat) (l : list Z) : list Z := l ++ replicate (n - length l) 0.

(** ** Topology *)
Class Topology (S : Type) := {
  topology_PROVIDED : bool;
  to_cpu_max : M S Error Z; to_cpu_count : M S Error Z; to_current_cpu : M S Error Z;
  to_process_affinity : Z -> M S Error (Z * list Z); to_set_thread_affinity : Z -> M S Error unit;
  to_physical_memory : M S Error (Z * Z); to_memory_limit : M S Error Z; to_virtual_limit : M S Error Z;
  to_cache_size : M S Error Z; to_cpu_features : M S Error (Z * Z);
  to_cache_level_size : Z -> M S Error Z; to_swap_memory : M S Error (Z * Z);
}.
Definition MAX_CPUS : Z := 65535.
Definition MAX_CACHE_LEVEL : Z := 4.
Inductive TopologyCall := ToCpuMax (out : Z) | ToCpuCount (out : Z) | ToCurrentCpu (out : Z) | ToProcessAffinity (mask capacity needed : Z)
| ToSetThreadAffinity (cpu : Z) | ToPhysicalMemory (total available : Z) | ToMemoryLimit (out : Z) | ToVirtualLimit (out : Z)
| ToCacheSize (out : Z) | ToCacheLevelSize (level out : Z) | ToSwapMemory (total available : Z) | ToCpuFeatures (first second : Z).

Section Topology.
Context `{Arch} {S : Type} {To : Topology S}.
Definition topology_keeps (index : nat) (status : Z) : bool :=
  kept [OK; UNSUPPORTED; INVALID_ARGUMENT; OS_ERROR] status || ((status =? BUFFER_TOO_SMALL) && (index =? 1)%nat).
(** [count] and [limit] get the provider's answer as an argument: it was asked before the output is looked at. *)
Definition topology_count (out : Z) (op : M S Error Z) (nonzero : bool) : Query S :=
  mkQueryWith 0 (negb (aligned_output align_of_u32 out)) (fun g => (g_call op g).1) [(out, [0])] [] (
    ask op (answer (fun v => if (nonzero && (v =? 0)) || (MAX_CPUS <? v) then None else Some [(out, [v])]))).
Definition topology_limit (out : Z) (op : M S Error Z) : Query S :=
  mkQueryWith 2 (negb (aligned_output align_of_u64 out)) (fun g => (g_call op g).1) [(out, [0])] [] (
    ask op (answer (fun v => Some [(out, [v])]))).
Definition topology_process_affinity (mask capacity needed : Z) : Query S :=
  mkQuery 1 (negb (aligned_output align_of_usize needed)) [(needed, [0])] [mask] (
    refuse ((isize_max <? capacity) ||
      (negb (capacity =? 0) && ((mask =? 0) || match checked_add usize_max mask capacity with None => true | Some _ => false end))) (
    fill true true mask capacity needed ((MAX_CPUS + 7) / 8) (to_process_affinity capacity))).
Definition topology_set_thread_affinity (cpu : Z) : Query S :=
  mkQuery 1 false [] [] (refuse (MAX_CPUS <? cpu) (tell (to_set_thread_affinity cpu))).
(** Two numbers into two outputs, unless [bad]. *)
Definition topology_pair (index : nat) (first second : Z) (op : M S Error (Z * Z)) (bad : Z -> Z -> bool) : Query S :=
  mkQuery index (negb (aligned_output align_of_u64 first) || negb (aligned_output align_of_u64 second)) [(first, [0]); (second, [0])] [] (
    ask op (answer (fun '(a, b) => if bad a b then None else Some [(first, [a]); (second, [b])]))).
Definition topology_cache_size (out : Z) : Query S :=
  mkQuery 3 (negb (aligned_output align_of_usize out)) [(out, [0])] [] (ask to_cache_size (answer (fun v => Some [(out, [v])]))).
Definition topology_cache_level_size (level out : Z) : Query S :=
  mkQuery 3 (negb (aligned_output align_of_usize out)) [(out, [0])] [] (
    refuse (negb ((1 <=? level) && (level <=? MAX_CACHE_LEVEL))) (ask (to_cache_level_size level) (answer (fun v => Some [(out, [v])])))).
Definition topology_query (c : TopologyCall) : Query S :=
  match c with
  | ToCpuMax out => topology_count out to_cpu_max true
  | ToCpuCount out => topology_count out to_cpu_count true
  | ToCurrentCpu out => topology_count out to_current_cpu false
  | ToProcessAffinity mask capacity needed => topology_process_affinity mask capacity needed
  | ToSetThreadAffinity cpu => topology_set_thread_affinity cpu
  | ToPhysicalMemory total available => topology_pair 2 total available to_physical_memory (fun t a => (t =? 0) || (t <? a))
  | ToMemoryLimit out => topology_limit out to_memory_limit
  | ToVirtualLimit out => topology_limit out to_virtual_limit
  | ToCacheSize out => topology_cache_size out
  | ToCacheLevelSize level out => topology_cache_level_size level out
  | ToSwapMemory total available => topology_pair 2 total available to_swap_memory (fun t a => t <? a)
  | ToCpuFeatures first second => topology_pair 4 first second to_cpu_features (fun _ _ => false)
  end.
Definition topology_read_stats : Z -> Z -> Group S -> Group S * Z := group_read_stats 6.
Lemma g_call_counts {A} (op : M S Error A) g : g_counts (g_call op g).1 = g_counts g.
Proof. unfold g_call. by destruct (op (g_provider g)). Qed.
#[export] Instance topology_group : ServiceGroup S TopologyCall.
Proof.
  refine (query_group topology_query topology_keeps 5 (fun c => match c with ToProcessAffinity _ _ _ => true | _ => false end) _ _ _ _);
    [settle | intros [] g; simpl; try apply g_call_counts; done | done | by intros []].
Defined.
Definition topology_negotiate : Z * Ops TopologyCall (Query S) (ReadStats S) :=
  if topology_PROVIDED then (8388608, every topology_query topology_read_stats) else (0, EMPTY topology_read_stats).
End Topology.

(** ** Facts about the process and the machine *)
Class SystemInfo (S : Type) := {
  system_PROVIDED : bool;
  sy_environment_entry : Z -> Z -> M S Error (Z * option (list Z));
  sy_text : Z -> Z -> M S Error (Z * option (list Z));
  sy_process_times : M S Error (Z * Z); sy_uptime_ns : M S Error Z; sy_user_ids : M S Error (Z * Z);
}.
Definition TEXT_EXECUTABLE_PATH : Z := 1.
Definition TEXT_HOME_DIRECTORY : Z := 6.
Definition MAX_ENVIRONMENT_ENTRY : Z := 131072.
Definition EQUALS : Z := 61.
Inductive SystemCall := SyEnvironmentEntry (index out capacity needed : Z) | SyText (what out capacity needed : Z)
| SyProcessTimes (user_ns kernel_ns : Z) | SyUptime (out : Z) | SyUserIds (user group : Z).

Section System.
Context `{Arch} {S : Type} {Sy : SystemInfo S}.
Definition system_keeps (index : nat) (status : Z) : bool :=
  kept [OK; UNSUPPORTED; INVALID_ARGUMENT; OS_ERROR; OUT_OF_MEMORY] status
  || ((status =? NOT_FOUND) && (index =? 0)%nat) || ((status =? BUFFER_TOO_SMALL) && (index <=? 1)%nat).
(** An entry is [NAME=value] with a name. *)
Definition named (text : list Z) : bool := match byte_position EQUALS text with Some at_ => (0 <? at_)%nat | None => false end.
Definition environment_act (index out capacity needed : Z) (g : Group S) : Group S * Z :=
  let '(g, status) := text out capacity needed MAX_ENVIRONMENT_ENTRY (sy_environment_entry index capacity) g in
  if status =? OK then
    let text := takeZ (at_ (g_get needed g) 0 - 1) (g_get out g) in
    if named text then (g, status) else (g_put needed [0] (g_put out (zeros capacity) g), OS_ERROR)
  else (g, status).
Definition system_environment_entry (index out capacity needed : Z) : Query S :=
  mkQuery 0 (negb (aligned_output align_of_usize needed) || negb (valid_buffer out capacity)) [(needed, [0])] [out] (
    environment_act index out capacity needed).
Definition system_text (what out capacity needed : Z) : Query S :=
  mkQuery 1 (negb (aligned_output align_of_usize needed) || negb (valid_buffer out capacity)) [(needed, [0])] [out] (
    refuse (negb ((TEXT_EXECUTABLE_PATH <=? what) && (what <=? TEXT_HOME_DIRECTORY))) (
    text out capacity needed (MAX_NAME + 1) (sy_text what capacity))).
Definition system_process_times (user_ns kernel_ns : Z) : Query S :=
  mkQuery 2 (negb (aligned_output align_of_u64 user_ns) || negb (aligned_output align_of_u64 kernel_ns)) [(user_ns, [0]); (kernel_ns, [0])] [] (
    ask sy_process_times (answer (fun '(u, k) => Some [(user_ns, [u]); (kernel_ns, [k])]))).
Definition system_uptime_ns (out : Z) : Query S :=
  mkQuery 2 (negb (aligned_output align_of_u64 out)) [(out, [0])] [] (ask sy_uptime_ns (answer (fun v => Some [(out, [v])]))).
Definition system_user_ids (user group : Z) : Query S :=
  mkQuery 3 (negb (aligned_output align_of_u32 user) || negb (aligned_output align_of_u32 group)) [(user, [0]); (group, [0])] [] (
    ask sy_user_ids (answer (fun '(u, g) => Some [(user, [u]); (group, [g])]))).
Definition system_query (c : SystemCall) : Query S :=
  match c with
  | SyEnvironmentEntry index out capacity needed => system_environment_entry index out capacity needed
  | SyText what out capacity needed => system_text what out capacity needed
  | SyProcessTimes u k => system_process_times u k
  | SyUptime out => system_uptime_ns out
  | SyUserIds u g => system_user_ids u g
  end.
Definition system_read_stats : Z -> Z -> Group S -> Group S * Z := group_read_stats 5.
Lemma settled_environment index out capacity needed : settled true [(needed, [0])] [out] (environment_act index out capacity needed).
Proof.
  intros g g' st. unfold environment_act. destruct (text _ _ _ _ _ g) as [g1 st1] eqn:Ht.
  apply (settled_text [(needed, [0])] [out]) in Ht as [Hc Hs]; [| apply list_elem_of_here].
  destruct (Z.eqb_spec st1 OK) as [-> | Hne]; [destruct (named _) |]; intros [= <- <-]; [done | | auto].
  split; [done |]. intros _. right. intros o v [= -> ->]%list_elem_of_singleton _ _. apply lookup_insert_eq.
Qed.
#[export] Instance system_group : ServiceGroup S SystemCall.
Proof.
  refine (query_group system_query system_keeps 4 (fun c => match c with SyEnvironmentEntry _ _ _ _ | SyText _ _ _ _ => true | _ => false end) _ _ _ _);
    [intros []; [apply settled_environment | simpl; eauto 10 with acts ..] | by intros [] | done | by intros []].
Defined.
Definition system_negotiate : Z * Ops SystemCall (Query S) (ReadStats S) :=
  if system_PROVIDED then (1073741824, every system_query system_read_stats) else (0, EMPTY system_read_stats).
End System.

(** ** Mounted volumes *)
Record VolumeStatus := mkVolumeStatus { total_bytes : Z; free_bytes : Z; available_bytes : Z; format : list Z }.
Definition volume_fields (s : VolumeStatus) : list Z := [total_bytes s; free_bytes s; available_bytes s] ++ format s.
(** [Status::EMPTY] and [Status::new] *)
Definition volume_EMPTY : VolumeStatus := mkVolumeStatus 0 0 0 (replicate 32 0).
Definition volume_status_new (total free available : Z) (fmt : list Z) : VolumeStatus :=
  let free := Z.min free total in
  mkVolumeStatus total free (Z.min available free) (field 32 (take (Nat.min (default (length fmt) (byte_position 0 fmt)) 31) fmt)).
Class Volumes (S : Type) := {
  volumes_PROVIDED : bool;
  vo_entry : Z -> Z -> M S Error (Z * option (list Z));
  vo_status : list Z -> M S Error VolumeStatus;
}.
Inductive VolumesCall := VoEntry (index out capacity needed : Z) | VoStatus (p : Borrow) (out out_size : Z).

Section Volumes.
Context `{Arch} {S : Type} {Vo : Volumes S}.
Definition volumes_keeps (index : nat) (status : Z) : bool :=
  kept [OK; UNSUPPORTED; INVALID_ARGUMENT; OS_ERROR; OUT_OF_MEMORY; NOT_FOUND] status
  || ((status =? BUFFER_TOO_SMALL) && (index =? 0)%nat) || ((status =? ACCESS_DENIED) && (index =? 1)%nat).
Definition volumes_entry (index out capacity needed : Z) : Query S :=
  mkQuery 0 (negb (aligned_output align_of_usize needed) || negb (valid_buffer out capacity)) [(needed, [0])] [out] (
    text out capacity needed (MAX_NAME + 1) (vo_entry index capacity)).
Definition size_of_VolumeStatus : Z := 56.
(** The figures agree and the name is terminated. *)
Definition volume_consistent (s : VolumeStatus) : bool :=
  negb ((total_bytes s <? free_bytes s) || (free_bytes s <? available_bytes s) || negb (at_ (format s) 31 =? 0)).
Definition volumes_status (p : Borrow) (out out_size : Z) : Query S :=
  mkQuery 1 (negb (aligned_output align_of_u64 out) || (out_size <? size_of_VolumeStatus)) [(out, volume_fields volume_EMPTY)] [] (
    with_some (path p) (fun p =>
    ask (vo_status p) (answer (fun s => if volume_consistent s then Some [(out, volume_fields s)] else None)))).
Definition volumes_query (c : VolumesCall) : Query S :=
  match c with
  | VoEntry index out capacity needed => volumes_entry index out capacity needed
  | VoStatus p out out_size => volumes_status p out out_size
  end.
Definition volumes_read_stats : Z -> Z -> Group S -> Group S * Z := group_read_stats 3.
#[export] Instance volumes_group : ServiceGroup S VolumesCall.
Proof.
  refine (query_group volumes_query volumes_keeps 2 (fun c => match c with VoEntry _ _ _ _ => true | _ => false end) _ _ _ _);
    [settle | by intros [] | done | by intros []].
Defined.
Definition volumes_negotiate : Z * Ops VolumesCall (Query S) (ReadStats S) :=
  if volumes_PROVIDED then (68719476736, every volumes_query volumes_read_stats) else (0, EMPTY volumes_read_stats).
End Volumes.

(** ** Accounts *)
Record Account := mkAccount { user_id : Z; group_id : Z; a_name : list Z; home : list Z; shell : list Z }.
Definition account_fields (a : Account) : list Z := [user_id a; group_id a] ++ a_name a ++ home a ++ shell a.
Definition account_EMPTY : Account := mkAccount 0 0 (replicate 256 0) (replicate 1024 0) (replicate 256 0).
(** [Account::new] *)
Definition account_new (uid gid : Z) (nm hm sh : list Z) : option Account :=
  let fit (n : nat) (text : list Z) := if (n <=? length (cut text))%nat then None else Some (field n (cut text)) in
  match fit 256%nat nm, fit 1024%nat hm, fit 256%nat sh with
  | Some nm, Some hm, Some sh => Some (mkAccount uid gid nm hm sh)
  | _, _, _ => None
  end.
Class Accounts (S : Type) := {
  accounts_PROVIDED : bool;
  ac_user_by_id : Z -> M S Error Account;
  ac_user_by_name : list Z -> M S Error Account;
  ac_process_groups : Z -> M S Error (Z * list Z);
  ac_user_groups : list Z -> Z -> Z -> M S Error (Z * list Z);
}.
Definition MAX_ACCOUNT_NAME : Z := 255.
Definition MAX_GROUPS : Z := 65536.
Inductive AccountsCall := AcUserById (uid out out_size : Z) | AcUserByName (text : Borrow) (out out_size : Z)
| AcProcessGroups (out capacity count : Z) | AcUserGroups (text : Borrow) (primary_group out capacity count : Z).

Section Accounts.
Context `{Arch} {S : Type} {Ac : Accounts S}.
Definition accounts_keeps (index : nat) (status : Z) : bool :=
  kept [OK; UNSUPPORTED; INVALID_ARGUMENT; OS_ERROR; OUT_OF_MEMORY; NOT_FOUND] status || ((status =? BUFFER_TOO_SMALL) && (index =? 1)%nat).
(** [fn name]: 1..=255 bytes without NUL. *)
Definition account_name (text : Borrow) : option (list Z) :=
  let length := lenZ (b_bytes text) in
  if (b_address text =? 0) || (length =? 0) || (MAX_ACCOUNT_NAME <? length)
     || match checked_add usize_max (b_address text) length with None => true | Some _ => false end
  then None
  else if existsb (fun b => b =? 0) (b_bytes text) then None else Some (b_bytes text).
Definition size_of_Account : Z := 1544.
(** What a provider left behind a terminator is cleared. *)
Definition clean (text : list Z) : list Z := field (length text) (cut text).
Definition account_answer (asked : option Z) (a : Account) : option Account :=
  if (at_ (a_name a) 0 =? 0) || negb (at_ (a_name a) 255 =? 0) || negb (at_ (home a) 1023 =? 0) || negb (at_ (shell a) 255 =? 0)
     || match asked with Some id => negb (id =? user_id a) | None => false end
  then None else Some (mkAccount (user_id a) (group_id a) (clean (a_name a)) (clean (home a)) (clean (shell a))).
Definition accounts_bad (out out_size : Z) : bool := negb (aligned_output align_of_u32 out) || (out_size <? size_of_Account).
Definition accounts_user (out : Z) (asked : option Z) (op : M S Error Account) : Group S -> Group S * Z :=
  ask op (answer (fun a => (fun a => [(out, account_fields a)]) <$> account_answer asked a)).
Definition accounts_user_by_id (uid out out_size : Z) : Query S :=
  mkQuery 0 (accounts_bad out out_size) [(out, account_fields account_EMPTY)] [] (accounts_user out (Some uid) (ac_user_by_id uid)).
Definition accounts_user_by_name (text : Borrow) (out out_size : Z) : Query S :=
  mkQuery 0 (accounts_bad out out_size) [(out, account_fields account_EMPTY)] [] (
    with_some (account_name text) (fun text => accounts_user out None (ac_user_by_name text))).
(** [fn groups] *)
Definition accounts_groups (out capacity count : Z) (op : M S Error (Z * list Z)) : Group S -> Group S * Z :=
  refuse ((MAX_GROUPS <? capacity) || (negb (capacity =? 0) && negb (aligned_output align_of_u32 out))) (
  fill false false out capacity count MAX_GROUPS op).
Definition accounts_process_groups (out capacity count : Z) : Query S :=
  mkQuery 1 (negb (aligned_output align_of_usize count)) [(count, [0])] [out] (accounts_groups out capacity count (ac_process_groups capacity)).
Definition accounts_user_groups (text : Borrow) (primary_group out capacity count : Z) : Query S :=
  mkQuery 1 (negb (aligned_output align_of_usize count)) [(count, [0])] [out] (
    with_some (account_name text) (fun text => accounts_groups out capacity count (ac_user_groups text primary_group capacity))).
Definition accounts_query (c : AccountsCall) : Query S :=
  match c with
  | AcUserById uid out out_size => accounts_user_by_id uid out out_size
  | AcUserByName text out out_size => accounts_user_by_name text out out_size
  | AcProcessGroups out capacity count => accounts_process_groups out capacity count
  | AcUserGroups text primary out capacity count => accounts_user_groups text primary out capacity count
  end.
Definition accounts_read_stats : Z -> Z -> Group S -> Group S * Z := group_read_stats 3.
#[export] Instance accounts_group : ServiceGroup S AccountsCall.
Proof.
  refine (query_group accounts_query accounts_keeps 2
    (fun c => match c with AcProcessGroups _ _ _ | AcUserGroups _ _ _ _ _ => true | _ => false end) _ _ _ _);
    [settle | by intros [] | done | by intros []].
Defined.
Definition accounts_negotiate : Z * Ops AccountsCall (Query S) (ReadStats S) :=
  if accounts_PROVIDED then (549755813888, every accounts_query accounts_read_stats) else (0, EMPTY accounts_read_stats).
End Accounts.

(** ** Images *)
Record UnwindInfo := mkUnwindInfo {
  base : Z; text_start : Z; text_length : Z; eh_frame_hdr : Z; eh_frame_hdr_length : Z; eh_frame : Z; eh_frame_length : Z }.
Definition unwind_fields (i : UnwindInfo) : list Z :=
  [base i; text_start i; text_length i; eh_frame_hdr i; eh_frame_hdr_length i; eh_frame i; eh_frame_length i].
Class Image (S : Type) := {
  image_PROVIDED : bool;
  im_unwind_info : Z -> M S Error UnwindInfo;
  im_readable : Z -> Z -> M S Error bool;
  im_build_id : Z -> Z -> M S Error (Z * list Z);
}.
Definition MAX_BUILD_ID : Z := 64.
Inductive ImageCall := ImUnwindInfo (address out size : Z) | ImReadable (address size : Z) | ImBuildId (base out capacity needed : Z).

Section Image.
Context `{Arch} {S : Type} {Im : Image S}.
Definition fits (a n : Z) : bool := match checked_add usize_max a n with Some _ => true | None => false end.
(** [UnwindInfo::consistent] *)
Definition unwind_consistent (i : UnwindInfo) (address : Z) : bool :=
  match checked_add usize_max (text_start i) (text_length i) with
  | None => false
  | Some text_end =>
      if (text_length i =? 0) || (address <? text_start i) || (text_end <=? address) then false else
      let hdr := negb (eh_frame_hdr i =? 0) && negb (eh_frame_hdr_length i =? 0) && fits (eh_frame_hdr i) (eh_frame_hdr_length i) in
      let frame := negb (eh_frame i =? 0) && fits (eh_frame i) (eh_frame_length i) in
      (hdr || (frame && negb (eh_frame_length i =? 0))) && ((eh_frame_hdr i =? 0) || hdr) && ((eh_frame i =? 0) || frame)
  end.
Definition image_keeps (index : nat) (status : Z) : bool :=
  kept [OK; UNSUPPORTED; INVALID_ARGUMENT; OS_ERROR] status
  || ((status =? NOT_FOUND) && negb (index =? 3)%nat) || ((status =? BUFFER_TOO_SMALL) && (index =? 2)%nat).
Definition size_of_UnwindInfo : Z := 7 * (usize_bits / 8).
Definition image_unwind_info (address out size : Z) : Query S :=
  mkQuery 0 (negb (aligned_output align_of_usize out) || (size <? size_of_UnwindInfo)) [(out, replicate 7 0)] [] (
    refuse (address =? 0) (
    ask (im_unwind_info address) (answer (fun i => if unwind_consistent i address then Some [(out, unwind_fields i)] else None)))).
Definition image_readable (address size : Z) : Query S :=
  mkQuery 1 false [] [] (
    refuse ((address =? 0) || (size =? 0) || negb (fits address size)) (
    ask (im_readable address size) (reply (fun yes => if (yes : bool) then inr [] else inl NOT_FOUND)))).
Definition image_build_id (base out capacity needed : Z) : Query S :=
  mkQuery 2 (negb (aligned_output align_of_usize needed)) [(needed, [0])] [out] (
    refuse ((base =? 0) || (MAX_BUILD_ID <? capacity) || (negb (capacity =? 0) && (out =? 0))) (
    fill true true out capacity needed MAX_BUILD_ID (im_build_id base capacity))).
Definition image_query (c : ImageCall) : Query S :=
  match c with
  | ImUnwindInfo address out size => image_unwind_info address out size
  | ImReadable address size => image_readable address size
  | ImBuildId base out capacity needed => image_build_id base out capacity needed
  end.
Definition image_read_stats : Z -> Z -> Group S -> Group S * Z := group_read_stats 4.
(** [readable_from_status] *)
Definition readable_from_status (status : Z) : Result bool :=
  if status =? OK then Ok true else if status =? NOT_FOUND then Ok false else Err (default EOs (error_from_status status)).
#[export] Instance image_group : ServiceGroup S ImageCall.
Proof.
  refine (query_group image_query image_keeps 3 (fun c => match c with ImBuildId _ _ _ _ => true | _ => false end) _ _ _ _);
    [settle | by intros [] | done | by intros []].
Defined.
Definition image_negotiate : Z * Ops ImageCall (Query S) (ReadStats S) :=
  if image_PROVIDED then (33554432, every image_query image_read_stats) else (0, EMPTY image_read_stats).
End Image.
