(* ===== verification/Net.v ===== *)
(** * Net.v: sockets, local sockets, packet information and network facts

    The front ends of [src/src/sockets.rs], [local_sockets.rs], [packets.rs] and [network.rs]: the boundary's own address
    layout, the poll with its readiness filter, the resolver's answers and the limits on socket options. *)
From S2P Require Import Prelude Port Counter Boundary Tree Front Group Console Machine.
Local Open Scope Z_scope.
Local Open Scope pal_scope.

(** ** Addresses *)
Definition IPV4 : Z := 1.
Definition IPV6 : Z := 2.
Definition LOCAL : Z := 3.
Record Address := mkAddress { family : Z; port : Z; scope : Z; address : list Z }.
#[export] Instance Address_eq_dec : EqDecision Address.
Proof. solve_decision. Defined.
Definition address_default : Address := mkAddress 0 0 0 (replicate 16 0).
Definition address_fields (a : Address) : list Z := [family a; port a; scope a] ++ address a.
Definition v4 (octets : list Z) (port : Z) : Address := mkAddress IPV4 port 0 (octets ++ replicate 12 0).
Definition v6 (octets : list Z) (port scope : Z) : Address := mkAddress IPV6 port scope octets.
(** [self.address[n..].fill(0)] *)
Definition fill_from (n : nat) (l : list Z) : list Z := take n l ++ replicate (length l - n) 0.
Definition normalized (a : Address) : option Address :=
  if family a =? IPV4 then Some (mkAddress (family a) (port a) 0 (fill_from 4 (address a)))
  else if family a =? IPV6 then Some a else None.
Definition reported (a : Address) : option Address :=
  if family a =? LOCAL then Some (mkAddress LOCAL 0 0 (replicate 16 0)) else normalized a.
Definition align_of_Address : Z := 4.
(** [fn input]: what lies at the address, if the pointer can be read. *)
Definition input (at_ : Z) (a : Address) : option Address :=
  if (at_ =? 0) || negb (at_ mod align_of_Address =? 0) then None else normalized a.

Record PollEntry := mkPollEntry { pe_socket : Z; requested : Z; triggered : Z }.
Definition poll_fields (es : list PollEntry) : list Z := es ≫= fun e => [pe_socket e; requested e; triggered e].
Definition set_triggered (t : Z) (e : PollEntry) : PollEntry := mkPollEntry (pe_socket e) (requested e) t.

(** ** Sockets *)
(** [poll] gets the entries and answers the [triggered] word of each, also when it fails. *)
Class Sockets (S : Type) := {
  sockets_PROVIDED : bool;
  so_create : Z -> Z -> M S Error Z; so_close : Z -> M S Error unit;
  so_bind : Z -> Address -> M S Error unit; so_listen : Z -> Z -> M S Error unit;
  so_accept : Z -> M S Error (Z * Address); so_connect : Z -> Address -> M S Error unit;
  so_send : Z -> list Z -> option Address -> M S Error Z;
  so_receive : Z -> Z -> Z -> M S Error (Z * option Address * list Z);
  so_shutdown : Z -> Z -> M S Error unit; so_local_address : Z -> M S Error Address; so_peer_address : Z -> M S Error Address;
  so_set_blocking : Z -> bool -> M S Error unit; so_get_option : Z -> Z -> M S Error Z; so_set_option : Z -> Z -> Z -> M S Error unit;
  so_poll : list PollEntry -> Z -> option Z -> S -> S * (Result unit * (nat -> Z));
  so_wake : Z -> M S Error unit;
  so_resolve : list Z -> Z -> Z -> M S Error (Z * list Address);
  so_host_name : Z -> M S Error (Z * option (list Z));
}.
Definition STREAM : Z := 1.
Definition RAW : Z := 3.
Definition SHUTDOWN_READ : Z := 1.
Definition SHUTDOWN_BOTH : Z := 3.
Definition RECEIVE_PEEK : Z := 1.
Definition POLL_READ : Z := 1.
Definition POLL_WRITE : Z := 2.
Definition POLL_ERROR : Z := 4.
Definition POLL_HANGUP : Z := 8.
Definition MAX_POLL : Z := 4096.
Definition POLL_CHANNELS : Z := 64.
Definition NO_CHANNEL : Z := u32_max.
Definition REUSE_ADDRESS : Z := 1.
Definition NO_DELAY : Z := 2.
Definition KEEP_ALIVE : Z := 3.
Definition BROADCAST : Z := 4.
Definition IPV6_ONLY : Z := 7.
Definition SOCKET_ERROR : Z := 11.
Definition AVAILABLE : Z := 12.
Definition KEEP_ALIVE_IDLE : Z := 13.
Definition KEEP_ALIVE_INTERVAL : Z := 14.
Definition KEEP_ALIVE_COUNT : Z := 15.
Definition HOPS : Z := 16.
Definition MULTICAST_HOPS : Z := 17.
Definition MULTICAST_LOOPBACK : Z := 18.
Definition PACKET_INFORMATION : Z := 20.
Definition DONT_FRAGMENT : Z := 21.
Definition RECEIVE_ERRORS : Z := 22.
Definition MAX_HOST_NAME : Z := 255.
Definition MAX_RESOLVED : Z := 64.

(** A pointer to an address is the pointer with what lies there; [entries] likewise. *)
Inductive SocketsCall :=
| SoCreate (family kind out : Z) | SoClose (socket : Z) | SoBind (socket at_ : Z) (a : Address) | SoListen (socket backlog : Z)
| SoAccept (socket out peer : Z) | SoConnect (socket at_ : Z) (a : Address) | SoSend (socket : Z) (d : Borrow) (to : Z) (a : Address) (sent : Z)
| SoReceive (socket data capacity flags from received : Z) | SoShutdown (socket how : Z)
| SoLocalAddress (socket out : Z) | SoPeerAddress (socket out : Z) | SoSetBlocking (socket blocking : Z)
| SoGetOption (socket option value : Z) | SoSetOption (socket option value : Z)
| SoPoll (entries : Z) (es : list PollEntry) (timeout_ns channel ready : Z) | SoWake (channel : Z)
| SoResolve (nm : Borrow) (family out capacity count : Z) | SoHostName (out capacity needed : Z).

Definition socket_statuses : list Z :=
  [OK; UNSUPPORTED; INVALID_ARGUMENT; OS_ERROR; OUT_OF_MEMORY; TIMEOUT; ACCESS_DENIED; WOULD_BLOCK; BROKEN_PIPE; CONNECTION_REFUSED;
   CONNECTION_RESET; CONNECTION_ABORTED; NOT_CONNECTED; ALREADY_CONNECTED; ADDRESS_IN_USE; ADDRESS_NOT_AVAILABLE; NETWORK_UNREACHABLE;
   HOST_UNREACHABLE; IN_PROGRESS; TOO_MANY_HANDLES; MESSAGE_TOO_LARGE].
Definition sanitize (status : Z) : Z := if kept socket_statuses status then status else OS_ERROR.
Definition FLAG_OPTIONS : list Z :=
  [REUSE_ADDRESS; NO_DELAY; KEEP_ALIVE; BROADCAST; IPV6_ONLY; MULTICAST_LOOPBACK; PACKET_INFORMATION; DONT_FRAGMENT; RECEIVE_ERRORS].
Definition POSITIVE_OPTIONS : list Z := [HOPS; KEEP_ALIVE_IDLE; KEEP_ALIVE_INTERVAL; KEEP_ALIVE_COUNT].
(** A value that [set_option] hands to the provider. *)
Definition option_value (option value : Z) : bool :=
  negb ((kept FLAG_OPTIONS option && (1 <? value)) || (kept [HOPS; MULTICAST_HOPS] option && (255 <? value))
        || (kept POSITIVE_OPTIONS option && (value =? 0)) || (u32_max <? value)).

Section Sockets.
Context `{Arch} {S : Type} {So : Sockets S}.
Implicit Types (g : Group S).

(** [NOT_FOUND] from [resolve] and [BUFFER_TOO_SMALL] from [host_name] bypass the shared set and count as failures. *)
Definition sockets_keeps (c : SocketsCall) (index : nat) (status : Z) : bool :=
  kept socket_statuses status ||
  match c with
  | SoResolve _ _ _ _ _ => status =? NOT_FOUND
  | SoHostName _ _ _ => status =? BUFFER_TOO_SMALL
  | _ => false
  end.
Definition new_handle (out : Z) (h : Z) : option (list (Z * list Z)) := if h =? 0 then None else Some [(out, [h])].
Definition sockets_create (family kind out : Z) : Query S :=
  mkQuery 0 (negb (aligned_output align_of_usize out)) [(out, [0])] [] (
    refuse (negb ((IPV4 <=? family) && (family <=? LOCAL)) || negb ((STREAM <=? kind) && (kind <=? RAW)) || ((family =? LOCAL) && (kind =? RAW))) (
    ask (so_create family kind) (answer (new_handle out)))).
Definition sockets_close (socket : Z) : Query S := mkQuery 1 false [] [] (refuse (socket =? 0) (tell (so_close socket))).
Definition sockets_bind (socket at_ : Z) (a : Address) : Query S :=
  mkQuery 2 false [] [] (with_some (input at_ a) (fun a => refuse (socket =? 0) (tell (so_bind socket a)))).
Definition sockets_listen (socket backlog : Z) : Query S := mkQuery 3 false [] [] (refuse (socket =? 0) (tell (so_listen socket backlog))).
Definition sockets_accept (socket out peer : Z) : Query S :=
  mkQuery 4 (negb (aligned_output align_of_usize out) || negb (aligned_output align_of_Address peer)) [(out, [0]); (peer, address_fields address_default)] [] (
    refuse (socket =? 0) (
    ask (so_accept socket) (answer (fun '(accepted, a) =>
      if accepted =? 0 then None else Some [(out, [accepted]); (peer, address_fields (default address_default (reported a)))])))).
Definition sockets_connect (socket at_ : Z) (a : Address) : Query S :=
  mkQuery 5 false [] [] (with_some (input at_ a) (fun a => refuse (socket =? 0) (tell (so_connect socket a)))).
Definition sockets_send (socket : Z) (d : Borrow) (to : Z) (a : Address) (sent : Z) : Query S :=
  let size := lenZ (b_bytes d) in
  mkQuery 6 (negb (aligned_output align_of_usize sent)) [(sent, [0])] [] (
    refuse ((socket =? 0) || negb (valid_buffer (b_address d) size)) (
    with_some (if to =? 0 then Some None else Some <$> input to a) (fun to =>
    ask (so_send socket (b_bytes d) to) (answer (progress size sent false))))).
Definition sockets_receive (socket data capacity flags from received : Z) : Query S :=
  mkQuery 7 (negb (aligned_output align_of_usize received) || (negb (from =? 0) && negb (aligned_output align_of_Address from)))
    ((received, [0]) :: (if from =? 0 then [] else [(from, address_fields address_default)])) [data] (
    refuse ((socket =? 0) || negb (valid_buffer data capacity) || negb (Z.land flags (Z.lnot RECEIVE_PEEK) =? 0)) (
    ask (so_receive socket capacity flags) (transfer data (fun '(k, sender) =>
      if capacity <? k then None else
      Some ((received, [k]) :: match sender ≫= reported with
                               | Some sender => if from =? 0 then [] else [(from, address_fields sender)]
                               | None => []
                               end))))).
Definition sockets_shutdown (socket how : Z) : Query S :=
  mkQuery 8 false [] [] (refuse ((socket =? 0) || negb ((SHUTDOWN_READ <=? how) && (how <=? SHUTDOWN_BOTH))) (tell (so_shutdown socket how))).
Definition sockets_endpoint (socket out : Z) (op : M S Error Address) : Query S :=
  mkQuery 9 (negb (aligned_output align_of_Address out)) [(out, address_fields address_default)] [] (
    refuse (socket =? 0) (ask op (answer (fun a => (fun a => [(out, address_fields a)]) <$> reported a)))).
Definition sockets_set_blocking (socket blocking : Z) : Query S :=
  mkQuery 10 false [] [] (refuse ((socket =? 0) || (1 <? blocking)) (tell (so_set_blocking socket (negb (blocking =? 0))))).
Definition known_option (option : Z) : bool := (REUSE_ADDRESS <=? option) && (option <=? RECEIVE_ERRORS).
Definition sockets_get_option (socket option value : Z) : Query S :=
  mkQuery 10 (negb (aligned_output align_of_u64 value)) [(value, [0])] [] (
    refuse ((socket =? 0) || negb (known_option option)) (
    ask (so_get_option socket option) (answer (fun result =>
      Some [(value, [if option =? SOCKET_ERROR then if u32_max <? result then OS_ERROR else sanitize result else result])])))).
Definition sockets_set_option (socket option value : Z) : Query S :=
  mkQuery 10 false [] [] (
    refuse ((socket =? 0) || negb (known_option option) || kept [SOCKET_ERROR; AVAILABLE] option) (
    refuse (negb (option_value option value)) (
    tell (so_set_option socket option value)))).

(** The first loop of [poll]: the answers are cleared up to the first entry that is refused. *)
Fixpoint poll_prepare (es : list PollEntry) : list PollEntry * bool :=
  match es with
  | [] => ([], true)
  | e :: es =>
      if (pe_socket e =? 0) || negb (Z.land (requested e) (Z.lnot (Z.lor POLL_READ POLL_WRITE)) =? 0)
      then (set_triggered 0 e :: es, false)
      else let '(es, ok) := poll_prepare es in (set_triggered 0 e :: es, ok)
  end.
(** The last loop: an entry reports what was asked for, an error or a hangup. *)
Definition poll_filter (e : PollEntry) (t : Z) : PollEntry :=
  set_triggered (Z.land t (Z.lor (Z.lor (Z.land (requested e) (Z.lor POLL_READ POLL_WRITE)) POLL_ERROR) POLL_HANGUP)) e.
Definition poll_act (entries : Z) (es : list PollEntry) (timeout_ns channel ready : Z) g : Group S * Z :=
  let '(es, ok) := poll_prepare es in
  let g := g_put entries (poll_fields es) g in
  if negb ok then (g, INVALID_ARGUMENT) else
  let '(p, (r, answers)) := so_poll es timeout_ns (if channel =? NO_CHANNEL then None else Some channel) (g_provider g) in
  let g := mkGroup (g_counts g) (g_cells g) p in
  match r with
  | Err e => (g_put entries (poll_fields (set_triggered 0 <$> es)) g, status_of e)
  | Ok _ =>
      let es := imap (fun i e => poll_filter e (answers i)) es in
      let count := lenZ (filter (fun e => triggered e <> 0) es) in
      (g_put ready [count] (g_put entries (poll_fields es) g), OK)
  end.
Definition sockets_poll (entries : Z) (es : list PollEntry) (timeout_ns channel ready : Z) : Query S :=
  let count := lenZ es in
  mkQuery 11 (negb (aligned_output align_of_usize ready)) [(ready, [0])] [entries] (
    refuse ((MAX_POLL <? count) || ((POLL_CHANNELS <=? channel) && negb (channel =? NO_CHANNEL))
            || (negb (count =? 0) && negb (aligned_output align_of_usize entries))) (
    poll_act entries es timeout_ns channel ready)).
Definition sockets_wake (channel : Z) : Query S := mkQuery 12 false [] [] (refuse (POLL_CHANNELS <=? channel) (tell (so_wake channel))).

(** The array of addresses at [out]. *)
Definition addresses_fields (l : list Address) : list Z := l ≫= address_fields.
(** The answers of [resolve] that are passed on: every one of them normalized and of the family asked for. *)
Definition resolved (family : Z) (l : list Address) : option (list Address) :=
  mapM (fun a => match normalized a with Some a => if (family =? 0) || (Net.family a =? family) then Some a else None | None => None end) l.
Definition resolve_act (nm : list Z) (family out capacity count : Z) g : Group S * Z :=
  let cleared := addresses_fields (replicate (Z.to_nat capacity) address_default) in
  let g := g_put out cleared g in
  let '(g, r) := g_call (so_resolve nm family capacity) g in
  let '(g, status) :=
    match r with
    | Ok (found, stored) =>
        let array := stored ++ drop (length stored) (replicate (Z.to_nat capacity) address_default) in
        if found =? 0 then (g, NOT_FOUND) else
        if capacity <? found then (g, OS_ERROR) else
        match resolved family (takeZ found array) with
        | Some good => (g_put count [found] (g_put out (addresses_fields (good ++ dropZ found array)) g), OK)
        | None => (g, OS_ERROR)
        end
    | Err e => (g, status_of e)
    end in
  (if status =? OK then g else g_put out cleared g, status).
Definition sockets_resolve (nm : Borrow) (family out capacity count : Z) : Query S :=
  mkQuery 13 (negb (aligned_output align_of_usize count)) [(count, [0])] [out] (
    refuse ((capacity =? 0) || (MAX_RESOLVED <? capacity) || negb (aligned_output align_of_Address out) || (IPV6 <? family)
            || (MAX_HOST_NAME <? lenZ (b_bytes nm))) (
    with_some (path nm) (fun nm => resolve_act nm family out capacity count))).
Definition sockets_host_name (out capacity needed : Z) : Query S :=
  mkQuery 13 (negb (aligned_output align_of_usize needed) || negb (valid_buffer out capacity)) [(needed, [0])] [out] (
    text out capacity needed (MAX_NAME + 1) (so_host_name capacity)).
Definition sockets_query (c : SocketsCall) : Query S :=
  match c with
  | SoCreate family kind out => sockets_create family kind out | SoClose socket => sockets_close socket
  | SoBind socket at_ a => sockets_bind socket at_ a | SoListen socket backlog => sockets_listen socket backlog
  | SoAccept socket out peer => sockets_accept socket out peer | SoConnect socket at_ a => sockets_connect socket at_ a
  | SoSend socket d to a sent => sockets_send socket d to a sent
  | SoReceive socket data capacity flags from received => sockets_receive socket data capacity flags from received
  | SoShutdown socket how => sockets_shutdown socket how
  | SoLocalAddress socket out => sockets_endpoint socket out (so_local_address socket)
  | SoPeerAddress socket out => sockets_endpoint socket out (so_peer_address socket)
  | SoSetBlocking socket blocking => sockets_set_blocking socket blocking
  | SoGetOption socket option value => sockets_get_option socket option value
  | SoSetOption socket option value => sockets_set_option socket option value
  | SoPoll entries es timeout_ns channel ready => sockets_poll entries es timeout_ns channel ready
  | SoWake channel => sockets_wake channel
  | SoResolve nm family out capacity count => sockets_resolve nm family out capacity count
  | SoHostName out capacity needed => sockets_host_name out capacity needed
  end.
Definition sockets_read_stats : Z -> Z -> Group S -> Group S * Z := group_read_stats 15.

Lemma settled_poll clear data entries es timeout_ns channel ready : entries ∈ data ->
  settled false clear data (poll_act entries es timeout_ns channel ready).
Proof.
  intros Hd. apply off_settled. intros g g' st. unfold poll_act. destruct (poll_prepare es) as [es' ok].
  destruct ok; [| intros [= <- <-]; left; by apply off_put, off_refl]. simpl negb. cbn iota zeta.
  destruct (so_poll _ _ _ _) as [p [[[] | e] answers]]; intros [= <- <-]; [by right; split; [| left] |].
  left. apply off_put; [done |]. split; [done |]. intros x Hx. simpl. rewrite lookup_insert_ne; [done |]. by intros ->.
Qed.
Lemma settled_resolve clear data nm family out capacity count : out ∈ data -> settled false clear data (resolve_act nm family out capacity count).
Proof.
  intros Hd. apply off_settled. intros g g' st. unfold resolve_act. destruct (g_call _ _) as [g1 r] eqn:Hc.
  apply (off_call data _ g) in Hc; [| by apply off_put, off_refl]. cbn zeta.
  assert (forall st0, st0 <> OK -> (if st0 =? OK then g1 else g_put out (addresses_fields (replicate (Z.to_nat capacity) address_default)) g1, st0) = (g', st) ->
    off data g g' \/ (g_counts g' = g_counts g /\ (st = OK \/ (false = true /\ st = BUFFER_TOO_SMALL)))) as Hl.
  { intros st0 Hne%Z.eqb_neq. rewrite Hne. intros [= <- _]. left. by apply off_put. }
  destruct r as [[found stored] | e]; [| apply Hl, status_of_error].
  destruct (_ =? _); [by apply Hl |]. destruct (_ <? _); [by apply Hl |]. destruct (resolved _ _); [| by apply Hl].
  intros [= <- <-]. right. split; [apply Hc | by left].
Qed.
#[local] Hint Resolve settled_poll settled_resolve : acts.
#[export] Instance sockets_group : ServiceGroup S SocketsCall.
Proof.
  refine (recorded_group sockets_query (fun c => record_by (sockets_keeps c) 14) sockets_keeps
    (fun index st => Some (if st =? OK then index else 14%nat)) (fun c => match c with SoHostName _ _ _ => true | _ => false end) _ _ _ _ _);
    [intros c; apply record_by_recorder | settle | by intros [] | by intros [] | by intros []].
Defined.
Definition sockets_negotiate : Z * Ops SocketsCall (Query S) (ReadStats S) :=
  if sockets_PROVIDED then (268435456, every sockets_query sockets_read_stats) else (0, EMPTY sockets_read_stats).
End Sockets.

(** ** Local sockets *)
Class LocalSockets (S : Type) := {
  local_PROVIDED : bool;
  lo_bind : Z -> list Z -> M S Error unit; lo_connect : Z -> list Z -> M S Error unit;
  lo_address : Z -> bool -> Z -> M S Error (Z * option (list Z)); lo_peer_user : Z -> M S Error Z;
}.
Inductive LocalCall := LoBind (socket : Z) (p : Borrow) | LoConnect (socket : Z) (p : Borrow)
| LoAddress (socket peer out capacity needed : Z) | LoPeerUser (socket out : Z).

Section Local.
Context `{Arch} {S : Type} {Lo : LocalSockets S}.
Definition local_keeps (index : nat) (status : Z) : bool :=
  kept [OK; UNSUPPORTED; INVALID_ARGUMENT; OS_ERROR; OUT_OF_MEMORY] status
  || (kept [NOT_FOUND; ACCESS_DENIED; NAME_TOO_LONG; NOT_DIRECTORY; READ_ONLY] status && (index <=? 1)%nat)
  || ((status =? ADDRESS_IN_USE) && (index =? 0)%nat)
  || (kept [CONNECTION_REFUSED; IN_PROGRESS; WOULD_BLOCK; ALREADY_CONNECTED; TIMEOUT] status && (index =? 1)%nat)
  || (kept [NOT_FOUND; BUFFER_TOO_SMALL; NOT_CONNECTED] status && (index =? 2)%nat)
  || ((status =? NOT_CONNECTED) && (index =? 3)%nat).
Definition local_bind (socket : Z) (p : Borrow) : Query S :=
  mkQuery 0 false [] [] (with_some (path p) (fun p => refuse (socket =? 0) (tell (lo_bind socket p)))).
Definition local_connect (socket : Z) (p : Borrow) : Query S :=
  mkQuery 1 false [] [] (with_some (path p) (fun p => refuse (socket =? 0) (tell (lo_connect socket p)))).
Definition local_address (socket peer out capacity needed : Z) : Query S :=
  mkQuery 2 (negb (aligned_output align_of_usize needed) || negb (valid_buffer out capacity)) [(needed, [0])] [out] (
    refuse ((socket =? 0) || (1 <? peer)) (
    text out capacity needed (MAX_NAME + 1) (lo_address socket (negb (peer =? 0)) capacity))).
(** No user is [u32::MAX]. *)
Definition local_peer_user (socket out : Z) : Query S :=
  mkQuery 3 (negb (aligned_output align_of_u32 out)) [(out, [u32_max])] [] (
    refuse (socket =? 0) (ask (lo_peer_user socket) (answer (fun id => Some [(out, [id])])))).
Definition local_query (c : LocalCall) : Query S :=
  match c with
  | LoBind socket p => local_bind socket p | LoConnect socket p => local_connect socket p
  | LoAddress socket peer out capacity needed => local_address socket peer out capacity needed
  | LoPeerUser socket out => local_peer_user socket out
  end.
Definition local_read_stats : Z -> Z -> Group S -> Group S * Z := group_read_stats 5.
#[export] Instance local_group : ServiceGroup S LocalCall.
Proof.
  refine (query_group local_query local_keeps 4 (fun c => match c with LoAddress _ _ _ _ _ => true | _ => false end) _ _ _ _);
    [settle | by intros [] | done | by intros []].
Defined.
Definition local_negotiate : Z * Ops LocalCall (Query S) (ReadStats S) :=
  if local_PROVIDED then (274877906944, every local_query local_read_stats) else (0, EMPTY local_read_stats).
End Local.

(** ** Where a datagram arrived *)
Record Info := mkInfo { interface_index : Z; destination : Address }.
Definition info_fields (i : Info) : list Z := [interface_index i; 0] ++ address_fields (destination i).
Definition info_default : Info := mkInfo 0 address_default.
Class Packets (S : Type) := {
  packets_PROVIDED : bool;
  pk_receive : Z -> Z -> Z -> M S Error (Z * option Address * Info * list Z);
}.
Inductive PacketsCall := PkReceive (socket data capacity flags from info info_size received : Z).

Section Packets.
Context `{Arch} {S : Type} {Pk : Packets S}.
Definition packets_keeps (index : nat) (status : Z) : bool :=
  kept [OK; UNSUPPORTED; INVALID_ARGUMENT; OS_ERROR; OUT_OF_MEMORY; WOULD_BLOCK; TIMEOUT; CONNECTION_REFUSED; CONNECTION_RESET; NOT_CONNECTED;
        BROKEN_PIPE; HOST_UNREACHABLE; NETWORK_UNREACHABLE; MESSAGE_TOO_LARGE; ACCESS_DENIED] status.
Definition size_of_Info : Z := 32.
(** A destination is an IP address without a port, or nothing. *)
Definition arrived_at (i : Info) : Info :=
  mkInfo (interface_index i) (default address_default (normalized (destination i) ≫= fun a => if port a =? 0 then Some a else None)).
Definition packets_receive (socket data capacity flags from info info_size received : Z) : Query S :=
  mkQuery 0 (negb (aligned_output align_of_usize received) || negb (aligned_output align_of_Address info) || (info_size <? size_of_Info)
             || (negb (from =? 0) && negb (aligned_output align_of_Address from)))
    ([(received, [0]); (info, info_fields info_default)] ++ (if from =? 0 then [] else [(from, address_fields address_default)])) [data] (
    refuse ((socket =? 0) || negb (valid_buffer data capacity) || negb (Z.land flags (Z.lnot RECEIVE_PEEK) =? 0)) (
    ask (pk_receive socket capacity flags) (transfer data (fun '(k, sender, arrived) =>
      if capacity <? k then None else
      Some ([(received, [k]); (info, info_fields (arrived_at arrived))] ++
            match sender ≫= reported with
            | Some sender => if from =? 0 then [] else [(from, address_fields sender)]
            | None => []
            end))))).
Definition packets_query (c : PacketsCall) : Query S :=
  match c with PkReceive socket data capacity flags from info info_size received => packets_receive socket data capacity flags from info info_size received end.
Definition packets_read_stats : Z -> Z -> Group S -> Group S * Z := group_read_stats 2.
#[export] Instance packets_group : ServiceGroup S PacketsCall.
Proof. refine (query_group packets_query packets_keeps 1 (fun _ => false) _ _ _ _); [settle | by intros [] | done | done]. Defined.
Definition packets_negotiate : Z * Ops PacketsCall (Query S) (ReadStats S) :=
  if packets_PROVIDED then (2199023255552, every packets_query packets_read_stats) else (0, EMPTY packets_read_stats).
End Packets.

(** ** Network facts *)
Record Interface := mkInterface {
  i_index : Z; i_kind : Z; i_state : Z; i_flags : Z; mtu : Z; hardware_address_length : Z; speed_bps : Z;
  hardware_address : list Z; i_name : list Z }.
Definition interface_fields (i : Interface) : list Z :=
  [i_index i; i_kind i; i_state i; i_flags i; mtu i; hardware_address_length i; speed_bps i] ++ hardware_address i ++ i_name i.
Definition interface_EMPTY : Interface := mkInterface 0 0 0 0 0 0 0 (replicate 8 0) (replicate 64 0).
(** [Interface::set_name] *)
Definition interface_set_name (nm : list Z) (i : Interface) : Interface :=
  mkInterface (i_index i) (i_kind i) (i_state i) (i_flags i) (mtu i) (hardware_address_length i) (speed_bps i) (hardware_address i)
    (field 64 (take (Nat.min (default (length nm) (byte_position 0 nm)) 63) nm)).
Record InterfaceAddress := mkInterfaceAddress { ia_index : Z; prefix_length : Z; ia_address : Address }.
Definition interface_address_fields (a : InterfaceAddress) : list Z := [ia_index a; prefix_length a] ++ address_fields (ia_address a).
Definition interface_address_EMPTY : InterfaceAddress := mkInterfaceAddress 0 0 address_default.
Class Network (S : Type) := {
  network_PROVIDED : bool;
  nw_interface_entry : Z -> M S Error Interface; nw_address_entry : Z -> M S Error InterfaceAddress;
  nw_reverse_lookup : Address -> Z -> M S Error (Z * option (list Z)); nw_membership : Z -> Address -> Z -> bool -> M S Error unit;
}.
Definition INTERFACE_TUNNEL : Z := 5.
Definition LINK_DOWN : Z := 2.
Definition MULTICAST : Z := 1.
Definition MAX_REVERSE_NAME : Z := 256.
Inductive NetworkCall := NwInterfaceEntry (index out out_size : Z) | NwAddressEntry (index out out_size : Z)
| NwReverseLookup (at_ : Z) (a : Address) (out capacity needed : Z) | NwMembership (socket at_ : Z) (group : Address) (index join : Z).

Section Network.
Context `{Arch} {S : Type} {Nw : Network S}.
Definition network_keeps (index : nat) (status : Z) : bool :=
  kept [OK; UNSUPPORTED; INVALID_ARGUMENT; OS_ERROR; OUT_OF_MEMORY] status
  || ((status =? NOT_FOUND) && (index <=? 2)%nat) || (kept [BUFFER_TOO_SMALL; TIMEOUT] status && (index =? 2)%nat)
  || (kept [ADDRESS_IN_USE; ADDRESS_NOT_AVAILABLE; ACCESS_DENIED; NOT_FOUND] status && (index =? 3)%nat).
Definition ip_family (a : Address) : bool := (family a =? IPV4) || (family a =? IPV6).
Definition size_of_Interface : Z := 104.
Definition interface_consistent (i : Interface) : bool :=
  negb ((i_index i =? 0) || (at_ (i_name i) 0 =? 0) || negb (at_ (i_name i) 63 =? 0) || (INTERFACE_TUNNEL <? i_kind i)
        || (LINK_DOWN <? i_state i) || negb (Z.land (i_flags i) (Z.lnot MULTICAST) =? 0) || (8 <? hardware_address_length i)).
Definition network_interface_entry (index out out_size : Z) : Query S :=
  mkQuery 0 (negb (aligned_output align_of_u64 out) || (out_size <? size_of_Interface)) [(out, interface_fields interface_EMPTY)] [] (
    ask (nw_interface_entry index) (answer (fun i => if interface_consistent i then Some [(out, interface_fields i)] else None))).
Definition size_of_InterfaceAddress : Z := 32.
Definition interface_address_consistent (a : InterfaceAddress) : bool :=
  negb ((ia_index a =? 0) || negb (ip_family (ia_address a)) || negb (port (ia_address a) =? 0)
        || ((if family (ia_address a) =? IPV4 then 32 else 128) <? prefix_length a)).
Definition network_address_entry (index out out_size : Z) : Query S :=
  mkQuery 1 (negb (aligned_output align_of_Address out) || (out_size <? size_of_InterfaceAddress)) [(out, interface_address_fields interface_address_EMPTY)] [] (
    ask (nw_address_entry index) (answer (fun a => if interface_address_consistent a then Some [(out, interface_address_fields a)] else None))).
Definition unreadable (at_ : Z) : bool := (at_ =? 0) || negb (at_ mod align_of_Address =? 0).
Definition network_reverse_lookup (at_ : Z) (a : Address) (out capacity needed : Z) : Query S :=
  mkQuery 2 (negb (aligned_output align_of_usize needed) || negb (valid_buffer out capacity)) [(needed, [0])] [out] (
    refuse (unreadable at_) (refuse (negb (ip_family a)) (
    text out capacity needed MAX_REVERSE_NAME (nw_reverse_lookup a capacity)))).
(** 224.0.0.0/4 and ff00::/8 *)
Definition multicast (a : Address) : bool :=
  if family a =? IPV4 then Z.land (Machine.at_ (address a) 0) 240 =? 224 else if family a =? IPV6 then Machine.at_ (address a) 0 =? 255 else false.
Definition bare_group (a : Address) : Address :=
  let used := if family a =? IPV4 then 4%nat else 16%nat in
  mkAddress (family a) 0 0 (field 16 (take used (address a))).
Definition network_membership (socket at_ : Z) (group : Address) (index join : Z) : Query S :=
  mkQuery 3 false [] [] (
    refuse ((socket =? 0) || (1 <? join) || unreadable at_) (refuse (negb (multicast group)) (
    tell (nw_membership socket (bare_group group) index (negb (join =? 0)))))).
Definition network_query (c : NetworkCall) : Query S :=
  match c with
  | NwInterfaceEntry index out out_size => network_interface_entry index out out_size
  | NwAddressEntry index out out_size => network_address_entry index out out_size
  | NwReverseLookup at_ a out capacity needed => network_reverse_lookup at_ a out capacity needed
  | NwMembership socket at_ group index join => network_membership socket at_ group index join
  end.
Definition network_read_stats : Z -> Z -> Group S -> Group S * Z := group_read_stats 5.
#[export] Instance network_group : ServiceGroup S NetworkCall.
Proof.
  refine (query_group network_query network_keeps 4 (fun c => match c with NwReverseLookup _ _ _ _ _ => true | _ => false end) _ _ _ _);
    [settle | by intros [] | done | by intros []].
Defined.
Definition network_negotiate : Z * Ops NetworkCall (Query S) (ReadStats S) :=
  if network_PROVIDED then (137438953472, every network_query network_read_stats) else (0, EMPTY network_read_stats).
End Network.
