(* ===== verification/Native.v ===== *)
(** * Native.v: kernel objects, runtime services, native helpers and file mappings

    The front ends of [src/src/kernel.rs], [runtime.rs], [support.rs] and [mappings.rs]. *)
From S2P Require Import Prelude Port Counter Boundary Tree MemFs Front Group Console Machine Net.
Local Open Scope Z_scope.
Local Open Scope pal_scope.

(** ** Kernel objects *)
Class Kernel (S : Type) := {
  events_PROVIDED : bool; mutexes_PROVIDED : bool; threads_PROVIDED : bool; tls_PROVIDED : bool; stack_PROVIDED : bool;
  barrier_PROVIDED : bool; barrier_available : bool;
  ev_create : bool -> bool -> M S Error Z; ev_destroy : Z -> M S Error unit; ev_set : Z -> M S Error unit; ev_reset : Z -> M S Error unit;
  ev_wait : Z -> Z -> M S Error unit;
  mu_create : bool -> M S Error Z; mu_destroy : Z -> M S Error unit; mu_lock : Z -> M S Error unit; mu_unlock : Z -> M S Error unit;
  th_create : Z -> Z -> Z -> M S Error Z; th_join : Z -> M S Error unit; th_detach : Z -> M S Error unit;
  tl_create : option Z -> M S Error Z; tl_destroy : Z -> M S Error unit; tl_get : Z -> M S Error Z; tl_set : Z -> Z -> M S Error unit;
  sb_current : M S Error (Z * Z); pb_barrier : M S Error unit;
}.
Definition CAP_EVENTS : Z := 16.
Definition CAP_MUTEX : Z := 32.
Definition CAP_THREADS : Z := 64.
Definition CAP_TLS : Z := 128.
Definition CAP_STACK : Z := 256.
Definition CAP_BARRIER : Z := 512.
(** A function pointer that may be null is an option. *)
Inductive KernelCall :=
| KeEventCreate (manual initial out : Z) | KeEventDestroy (h : Z) | KeEventSet (h : Z) | KeEventReset (h : Z) | KeEventWait (h timeout_ns : Z)
| KeMutexCreate (recursive out : Z) | KeMutexDestroy (h : Z) | KeMutexLock (h : Z) | KeMutexUnlock (h : Z)
| KeThreadCreate (entry : option Z) (arg stack out : Z) | KeThreadJoin (h : Z) | KeThreadDetach (h : Z)
| KeTlsCreate (dtor : option Z) (out : Z) | KeTlsDestroy (h : Z) | KeTlsGet (h out : Z) | KeTlsSet (h value : Z)
| KeStackBounds (low high : Z) | KeProcessBarrier.

Section Kernel.
Context `{Arch} {S : Type} {Ke : Kernel S}.
Implicit Types (g : Group S).

(** [TIMEOUT] is a wait's alone, [BUSY] that of the calls which count no success. *)
Definition kernel_keeps (index : nat) (status : Z) : bool :=
  (status <=? BUSY) && negb (((status =? TIMEOUT) && negb (index =? 1)%nat) || ((status =? BUSY) && negb (index =? 11)%nat)).
(** [record], and the [OK] that [simple] and [tls_get] return without it (index 11). *)
Definition kernel_record (status : Z) (index : nat) g : Group S * Z :=
  let status := if kernel_keeps index status then status else OS_ERROR in
  (if status =? OK then if (index =? 11)%nat then g else g_bump index g else if status =? TIMEOUT then g_bump 2 g else g_bump 11 g, status).
Definition kernel_counter (index : nat) (st : Z) : option nat :=
  if st =? OK then if (index =? 11)%nat then None else Some index else if st =? TIMEOUT then Some 2%nat else Some 11%nat.
(** [fn create] *)
Definition kernel_create (out : Z) (index : nat) (refused : bool) (op : M S Error Z) : Query S :=
  mkQuery index (negb (aligned_output align_of_usize out)) [(out, [0])] [] (fun g =>
    let '(g, status) := refuse refused (ask op (answer (new_handle out))) g in
    (g, if OUT_OF_MEMORY <? status then OS_ERROR else status)).
(** [fn simple] *)
Definition kernel_simple (h : Z) (op : M S Error unit) : Query S := mkQuery 11 false [] [] (refuse (h =? 0) (tell op)).
Definition kernel_counted (h : Z) (op : M S Error unit) (index : nat) : Query S := mkQuery index false [] [] (refuse (h =? 0) (tell op)).
Definition kernel_thread_create (entry : option Z) (arg stack out : Z) : Query S :=
  kernel_create out 6 (match entry with None => true | Some _ => isize_max <? stack end)
    (match entry with Some entry => th_create entry arg stack | None => fail EInvalidArgument end).
Definition kernel_tls_get (h out : Z) : Query S :=
  mkQuery 11 (negb (aligned_output align_of_usize out)) [(out, [0])] [] (
    refuse (h =? 0) (ask (tl_get h) (answer (fun value => Some [(out, [value])])))).
Definition kernel_stack_bounds (low high : Z) : Query S :=
  mkQuery 9 (negb (aligned_output align_of_usize low) || negb (aligned_output align_of_usize high) || (low =? high)) [(low, [0]); (high, [0])] [] (
    ask sb_current (answer (fun '(lo, hi) => if (lo =? 0) || (hi <=? lo) then None else Some [(low, [lo]); (high, [hi])]))).
Definition kernel_query (c : KernelCall) : Query S :=
  match c with
  | KeEventCreate manual initial out => kernel_create out 0 ((1 <? manual) || (1 <? initial)) (ev_create (negb (manual =? 0)) (negb (initial =? 0)))
  | KeEventDestroy h => kernel_simple h (ev_destroy h) | KeEventSet h => kernel_counted h (ev_set h) 3
  | KeEventReset h => kernel_simple h (ev_reset h) | KeEventWait h timeout_ns => kernel_counted h (ev_wait h timeout_ns) 1
  | KeMutexCreate recursive out => kernel_create out 4 (1 <? recursive) (mu_create (negb (recursive =? 0)))
  | KeMutexDestroy h => kernel_simple h (mu_destroy h) | KeMutexLock h => kernel_counted h (mu_lock h) 5
  | KeMutexUnlock h => kernel_simple h (mu_unlock h)
  | KeThreadCreate entry arg stack out => kernel_thread_create entry arg stack out
  | KeThreadJoin h => kernel_simple h (th_join h) | KeThreadDetach h => kernel_simple h (th_detach h)
  | KeTlsCreate dtor out => kernel_create out 7 false (tl_create dtor)
  | KeTlsDestroy h => kernel_simple h (tl_destroy h) | KeTlsGet h out => kernel_tls_get h out | KeTlsSet h value => kernel_counted h (tl_set h value) 8
  | KeStackBounds low high => kernel_stack_bounds low high
  | KeProcessBarrier => mkQuery 10 false [] [] (tell pb_barrier)
  end.
Definition kernel_read_stats : Z -> Z -> Group S -> Group S * Z := group_read_stats 12.

Lemma kernel_recorder : recorder kernel_record kernel_keeps kernel_counter.
Proof.
  intros status index g. unfold kernel_record, kernel_counter. split; [done |].
  set (st := if kernel_keeps index status then status else OS_ERROR).
  destruct (st =? OK); [destruct (index =? 11)%nat | destruct (st =? TIMEOUT)]; (split; [done |]); intros i; simpl;
    repeat case_decide; naive_solver.
Qed.
Lemma settled_create out index refused op : settled false (q_clear (kernel_create out index refused op)) [] (q_act (kernel_create out index refused op)).
Proof.
  intros g g' st. simpl. destruct (refuse _ _ g) as [g1 st1] eqn:E. intros [= <- <-].
  apply (settled_refuse false [(out, [0])] [] refused) in E as [Hc Hs]; [| auto with acts].
  split; [done |]. intros Hst. right. destruct Hs as [[? _] | Hs]; [| done | done].
  intros ->. done.
Qed.
#[local] Hint Resolve settled_create : acts.
#[export] Instance kernel_group : ServiceGroup S KernelCall.
Proof.
  refine (recorded_group kernel_query (fun _ => kernel_record) (fun _ => kernel_keeps) kernel_counter (fun _ => false) _ _ _ _ _);
    [intros _; apply kernel_recorder | intros []; first [apply settled_create | simpl; eauto 10 with acts] | by intros [] | | done].
  intros _ i. unfold kernel_keeps. simpl. done.
Defined.
(** The callbacks of an absent provider stay empty; the barrier is also asked whether it works. *)
Definition kernel_provided (c : KernelCall) : bool :=
  match c with
  | KeEventCreate _ _ _ | KeEventDestroy _ | KeEventSet _ | KeEventReset _ | KeEventWait _ _ => events_PROVIDED
  | KeMutexCreate _ _ | KeMutexDestroy _ | KeMutexLock _ | KeMutexUnlock _ => mutexes_PROVIDED
  | KeThreadCreate _ _ _ _ | KeThreadJoin _ | KeThreadDetach _ => threads_PROVIDED
  | KeTlsCreate _ _ | KeTlsDestroy _ | KeTlsGet _ _ | KeTlsSet _ _ => tls_PROVIDED
  | KeStackBounds _ _ => stack_PROVIDED
  | KeProcessBarrier => barrier_PROVIDED && barrier_available
  end.
Definition cap (provided : bool) (bit : Z) : Z := if provided then bit else 0.
Definition kernel_negotiate : Z * Ops KernelCall (Query S) (ReadStats S) :=
  (Z.lor (Z.lor (Z.lor (Z.lor (Z.lor (cap events_PROVIDED CAP_EVENTS) (cap mutexes_PROVIDED CAP_MUTEX)) (cap threads_PROVIDED CAP_THREADS))
     (cap tls_PROVIDED CAP_TLS)) (cap stack_PROVIDED CAP_STACK)) (cap (barrier_PROVIDED && barrier_available) CAP_BARRIER),
   mkOps (fun c => if kernel_provided c then Some (kernel_query c) else None) (Some kernel_read_stats)).
End Kernel.

(** ** Runtime services *)
Inductive Lookup := Copied (needed : Z) | TooSmall (needed : Z).
Record ModuleInfo := mkModuleInfo { mi_base : Z; mi_name : Z; mi_name_length : Z }.
(** A provider that fills a buffer answers what it stored, [fill] also when it fails. *)
Class Runtime (S : Type) := {
  environment_PROVIDED : bool; identity_PROVIDED : bool; realtime_PROVIDED : bool; entropy_PROVIDED : bool; mapping_PROVIDED : bool; modules_PROVIDED : bool;
  en_get : list Z -> Z -> M S Error (Lookup * list Z);
  id_process_id : M S Error Z; id_thread_id : M S Error Z; rt_realtime_ns : M S Error Z;
  et_fill : Z -> S -> S * (Result unit * list Z);
  nm_page_size : Z; nm_allocate : Z -> Z -> M S Error Z; nm_release : Z -> Z -> M S Error unit; nm_protect : Z -> Z -> Z -> M S Error unit;
  mo_open : option (list Z) -> M S Error Z; mo_symbol : Z -> list Z -> M S Error Z; mo_close : Z -> M S Error unit; mo_info : Z -> M S Error ModuleInfo;
}.
Inductive RuntimeCall :=
| RtEnvironmentGet (nm : Borrow) (out capacity required : Z) | RtProcessId (out : Z) | RtThreadId (out : Z) | RtRealtime (out : Z)
| RtRandomBytes (out size : Z) | RtMappingAllocate (size protection out : Z) | RtMappingRelease (address size : Z)
| RtMappingProtect (address size protection : Z) | RtModuleOpen (nm : Borrow) (out : Z) | RtModuleSymbol (handle : Z) (nm : Borrow) (out : Z)
| RtModuleClose (handle : Z) | RtModuleInfo (address out : Z).

Section Runtime.
Context `{Arch} {S : Type} {Rt : Runtime S}.
Implicit Types (g : Group S).

Definition runtime_keeps (index : nat) (status : Z) : bool :=
  kept [OK; UNSUPPORTED; INVALID_ARGUMENT; OS_ERROR; OUT_OF_MEMORY] status
  || (kept [BUFFER_TOO_SMALL; NOT_FOUND] status && (index =? 0)%nat)
  || ((status =? NOT_FOUND) && ((index =? 7)%nat || (index =? 8)%nat || (index =? 10)%nat)).
Definition runtime_name (nm : Borrow) (environment : bool) : option (list Z) :=
  match path nm with
  | Some bytes => if environment && existsb (fun b => b =? EQUALS) bytes then None else Some bytes
  | None => None
  end.
(** [if capacity != 0 { out.write(0) }] *)
Definition clear_first (out capacity : Z) g : Group S := if capacity =? 0 then g else g_poke out 0 0 g.
Definition environment_answer (out capacity required : Z) (r : Result (Lookup * list Z)) g : Group S * Z :=
  let '(g, status) :=
    match r with
    | Ok (l, stored) =>
        let g := g_store out stored g in
        match l with
        | Copied needed =>
            if (needed =? 0) || (capacity <? needed) || (isize_max <? needed) || negb (at_ (g_get out g) (Z.to_nat (needed - 1)) =? 0) then (g, OS_ERROR)
            else (g_put required [needed] g, OK)
        | TooSmall needed =>
            if (needed =? 0) || (needed <=? capacity) || (isize_max <? needed) then (g, OS_ERROR)
            else (g_put required [needed] g, BUFFER_TOO_SMALL)
        end
    | Err e => (g, status_of e)
    end in
  (if status =? OK then g else clear_first out capacity g, status).
Definition runtime_environment_get (nm : Borrow) (out capacity required : Z) : Query S :=
  mkQuery 0 (negb (aligned_output align_of_usize required) || negb (valid_buffer out capacity)) [(required, [0])] [out] (fun g =>
    with_some (runtime_name nm true) (fun nm => ask (en_get nm capacity) (environment_answer out capacity required)) (clear_first out capacity g)).
Definition runtime_scalar (out : Z) (index : nat) (nonzero : bool) (op : M S Error Z) : Query S :=
  mkQuery index (negb (aligned_output align_of_u64 out)) [(out, [0])] [] (
    ask op (answer (fun v => if nonzero && (v =? 0) then None else Some [(out, [v])]))).
Definition random_act (out size : Z) g : Group S * Z :=
  if size =? 0 then (g, OK) else
  let '(p, (r, stored)) := et_fill size (g_provider g) in
  let g := g_store out stored (mkGroup (g_counts g) (g_cells g) p) in
  (if status r =? OK then g else g_put out (zeros size) g, status r).
Definition runtime_random_bytes (out size : Z) : Query S := mkQuery 3 (negb (valid_buffer out size)) [] [out] (random_act out size).
Definition bad_protection (protection : Z) : bool := negb (Z.land protection (Z.lnot 7) =? 0).
Definition runtime_mapping_allocate (size protection out : Z) : Query S :=
  mkQuery 4 (negb (aligned_output align_of_usize out)) [(out, [0])] [] (
    refuse ((size =? 0) || (isize_max <? size) || bad_protection protection) (
    ask (nm_allocate size protection) (answer (fun v =>
      if (v =? 0) || negb (is_power_of_two nm_page_size) || negb (v mod nm_page_size =? 0) || negb (fits v size) then None else Some [(out, [v])])))).
Definition bad_mapping (address size : Z) : bool := (address =? 0) || (size =? 0) || negb (valid_buffer address size).
Definition runtime_mapping_release (address size : Z) : Query S := mkQuery 5 false [] [] (refuse (bad_mapping address size) (tell (nm_release address size))).
Definition runtime_mapping_protect (address size protection : Z) : Query S :=
  mkQuery 6 false [] [] (refuse (bad_mapping address size || bad_protection protection) (tell (nm_protect address size protection))).
(** NULL with length zero is the current process. *)
Definition runtime_module_open (nm : Borrow) (out : Z) : Query S :=
  mkQuery 7 (negb (aligned_output align_of_usize out)) [(out, [0])] [] (
    with_some (if (b_address nm =? 0) && (lenZ (b_bytes nm) =? 0) then Some None else Some <$> runtime_name nm false) (fun nm =>
    ask (mo_open nm) (answer (new_handle out)))).
Definition runtime_module_symbol (handle : Z) (nm : Borrow) (out : Z) : Query S :=
  mkQuery 8 (negb (aligned_output align_of_usize out)) [(out, [0])] [] (
    refuse (handle =? 0) (with_some (runtime_name nm false) (fun nm => ask (mo_symbol handle nm) (answer (fun v => Some [(out, [v])]))))).
Definition runtime_module_close (handle : Z) : Query S := mkQuery 9 false [] [] (refuse (handle =? 0) (tell (mo_close handle))).
Definition runtime_module_info (address out : Z) : Query S :=
  mkQuery 10 (negb (aligned_output align_of_usize out)) [(out, [0; 0; 0])] [] (
    refuse (address =? 0) (
    ask (mo_info address) (answer (fun i =>
      if (mi_base i =? 0) || (mi_name i =? 0) || (isize_max <? mi_name_length i) || negb (fits (mi_name i) (mi_name_length i)) then None
      else Some [(out, [mi_base i; mi_name i; mi_name_length i])])))).
Definition runtime_query (c : RuntimeCall) : Query S :=
  match c with
  | RtEnvironmentGet nm out capacity required => runtime_environment_get nm out capacity required
  | RtProcessId out => runtime_scalar out 1 true id_process_id | RtThreadId out => runtime_scalar out 1 true id_thread_id
  | RtRealtime out => runtime_scalar out 2 false rt_realtime_ns | RtRandomBytes out size => runtime_random_bytes out size
  | RtMappingAllocate size protection out => runtime_mapping_allocate size protection out
  | RtMappingRelease address size => runtime_mapping_release address size
  | RtMappingProtect address size protection => runtime_mapping_protect address size protection
  | RtModuleOpen nm out => runtime_module_open nm out | RtModuleSymbol handle nm out => runtime_module_symbol handle nm out
  | RtModuleClose handle => runtime_module_close handle | RtModuleInfo address out => runtime_module_info address out
  end.
Definition runtime_read_stats : Z -> Z -> Group S -> Group S * Z := group_read_stats 12.

Lemma off_clear_first data out capacity g g' : out ∈ data -> off data g g' -> off data g (clear_first out capacity g').
Proof. intros Ho Hf. unfold clear_first. destruct (_ =? _); [done | by apply off_put]. Qed.
Lemma settled_environment_get nm out capacity required :
  settled true [(required, [0])] [out] (q_act (runtime_environment_get nm out capacity required)).
Proof.
  assert (out ∈ [out]) as Ho by apply list_elem_of_here.
  apply off_settled. intros g g' st. simpl. unfold with_some. destruct (runtime_name nm true) as [nm' |]; [| intros [= <- <-]; left; by apply off_clear_first].
  unfold ask. destruct (g_call _ _) as [g1 r] eqn:Hc. apply (off_call [out] _ g) in Hc; [| by apply off_clear_first]. unfold environment_answer.
  assert (forall g0 st0, off [out] g g0 -> st0 <> OK -> (if st0 =? OK then g0 else clear_first out capacity g0, st0) = (g', st) -> off [out] g g') as Hl.
  { intros g0 st0 Hf Hne%Z.eqb_neq. rewrite Hne. intros [= <- _]. by apply off_clear_first. }
  destruct r as [[l stored] | e]; [| intros Hx; left; apply Hl in Hx; [done | done | apply status_of_error]].
  pose proof (off_store [out] out stored g g1 Ho Hc) as H2. cbn zeta. destruct l as [needed | needed]; destruct (_ || _).
  - intros Hx. left. by apply Hl in Hx.
  - intros [= <- <-]. right. split; [apply H2 | by left].
  - intros Hx. left. by apply Hl in Hx.
  - intros [= <- <-]. right. split; [| by right]. unfold clear_first. destruct (_ =? _); apply H2.
Qed.
Lemma random_counts out size g g' st : random_act out size g = (g', st) -> g_counts g' = g_counts g.
Proof.
  unfold random_act. destruct (size =? 0); [by intros [= <- _] |]. destruct (et_fill _ _) as [p [r stored]]. intros [= <- _].
  by destruct (_ =? _).
Qed.
#[export] Instance runtime_group : ServiceGroup S RuntimeCall.
Proof.
  refine (query_group runtime_query runtime_keeps 11 (fun c => match c with RtEnvironmentGet _ _ _ _ => true | _ => false end) _ _ _ _);
    [| by intros [] | done | by intros []].
  intros []; simpl q_clear; simpl q_data; first [apply settled_environment_get | apply settled_nil, random_counts | simpl; eauto 10 with acts].
Defined.
Definition runtime_provided (c : RuntimeCall) : bool :=
  match c with
  | RtEnvironmentGet _ _ _ _ => environment_PROVIDED | RtProcessId _ | RtThreadId _ => identity_PROVIDED | RtRealtime _ => realtime_PROVIDED
  | RtRandomBytes _ _ => entropy_PROVIDED | RtMappingAllocate _ _ _ | RtMappingRelease _ _ | RtMappingProtect _ _ _ => mapping_PROVIDED
  | RtModuleOpen _ _ | RtModuleSymbol _ _ _ | RtModuleClose _ | RtModuleInfo _ _ => modules_PROVIDED
  end.
Definition runtime_negotiate : Z * Ops RuntimeCall (Query S) (ReadStats S) :=
  (Z.lor (Z.lor (Z.lor (Z.lor (Z.lor (cap environment_PROVIDED 1024) (cap identity_PROVIDED 2048)) (cap realtime_PROVIDED 4096))
     (cap entropy_PROVIDED 8192)) (cap mapping_PROVIDED 16384)) (cap modules_PROVIDED 32768),
   mkOps (fun c => if runtime_provided c then Some (runtime_query c) else None) (Some runtime_read_stats)).
End Runtime.

(** ** Native helpers *)
(** [write_stderr] answers nothing or the progress it made with the error. *)
Class Support (S : Type) := {
  heap_PROVIDED : bool; rwlock_PROVIDED : bool; name_PROVIDED : bool; diagnostics_PROVIDED : bool;
  hp_allocate : Z -> bool -> M S Error Z; hp_resize : Z -> Z -> M S Error Z; hp_release : Z -> M S Error unit;
  rw_create : M S Error Z; rw_read : Z -> M S Error unit; rw_write : Z -> M S Error unit; rw_unlock : Z -> M S Error unit; rw_destroy : Z -> M S Error unit;
  tn_set : list Z -> M S Error unit;
  di_write_stderr : list Z -> S -> S * result (Z * Error) unit;
}.
Inductive SupportCall :=
| SuAllocate (size zero out : Z) | SuResize (address size out : Z) | SuRelease (h : Z) | SuRwCreate (out : Z)
| SuRwRead (h : Z) | SuRwWrite (h : Z) | SuRwUnlock (h : Z) | SuRwDestroy (h : Z) | SuWriteStderr (d : Borrow) (written : Z) | SuThreadName (nm : Borrow).

Section Support.
Context `{Arch} {S : Type} {Su : Support S}.
Implicit Types (g : Group S).

Definition support_keeps (index : nat) (status : Z) : bool :=
  kept [OK; INVALID_ARGUMENT; OS_ERROR; OUT_OF_MEMORY; UNSUPPORTED] status || ((status =? BUSY) && (index =? 7)%nat).
Definition size_ok (size : Z) : bool := negb (size =? 0) && (size <=? isize_max).
(** [fn accept] *)
Definition accept (size out p : Z) : option (list (Z * list Z)) :=
  if (p =? 0) || negb (p mod align_of_usize =? 0) || negb (fits p size) then None else Some [(out, [p])].
Definition support_allocate (size zero out : Z) : Query S :=
  mkQuery 0 (negb (aligned_output align_of_usize out)) [(out, [0])] [] (
    refuse (negb (size_ok size) || (1 <? zero)) (ask (hp_allocate size (negb (zero =? 0))) (answer (accept size out)))).
Definition support_resize (address size out : Z) : Query S :=
  mkQuery 1 (negb (aligned_output align_of_usize out)) [(out, [0])] [] (
    refuse (negb (size_ok size)) (ask (hp_resize address size) (answer (accept size out)))).
Definition support_release (h : Z) : Query S := mkQuery 2 false [] [] (finish (h =? 0) (tell (hp_release h))).
Definition support_rw_create (out : Z) : Query S :=
  mkQuery 3 (negb (aligned_output align_of_usize out)) [(out, [0])] [] (ask rw_create (answer (new_handle out))).
(** [handle_op!] *)
Definition support_handle_op (h : Z) (op : M S Error unit) (index : nat) : Query S := mkQuery index false [] [] (refuse (h =? 0) (tell op)).
(** The progress of a failed write is reported too, so [written] is not an output that a failure clears. *)
Definition stderr_act (d : Borrow) (written : Z) g : Group S * Z :=
  let size := lenZ (b_bytes d) in
  let g := g_put written [0] g in
  if (isize_max <? size) || (negb (size =? 0) && ((b_address d =? 0) || negb (fits (b_address d) size))) then (g, INVALID_ARGUMENT) else
  let '(g, (k, status)) :=
    if size =? 0 then (g, (0, OK)) else
    let '(p, r) := di_write_stderr (b_bytes d) (g_provider g) in
    (mkGroup (g_counts g) (g_cells g) p, match r with Ok _ => (size, OK) | Err (k, e) => (k, status_of e) end) in
  let '(k, status) := if (size <? k) || ((status =? OK) && negb (k =? size)) then (0, OS_ERROR) else (k, status) in
  (g_put written [k] g, status).
Definition support_write_stderr (d : Borrow) (written : Z) : Query S :=
  mkQuery 8 (negb (aligned_output align_of_usize written)) [] [written] (stderr_act d written).
Definition support_thread_name (nm : Borrow) : Query S :=
  mkQuery 9 false [] [] (
    refuse ((b_address nm =? 0) || (255 <? lenZ (b_bytes nm)) || negb (fits (b_address nm) (lenZ (b_bytes nm)))) (
    refuse (existsb (fun b => b =? 0) (b_bytes nm)) (tell (tn_set (b_bytes nm))))).
Definition support_query (c : SupportCall) : Query S :=
  match c with
  | SuAllocate size zero out => support_allocate size zero out | SuResize address size out => support_resize address size out
  | SuRelease h => support_release h | SuRwCreate out => support_rw_create out
  | SuRwRead h => support_handle_op h (rw_read h) 4 | SuRwWrite h => support_handle_op h (rw_write h) 5
  | SuRwUnlock h => support_handle_op h (rw_unlock h) 6 | SuRwDestroy h => support_handle_op h (rw_destroy h) 7
  | SuWriteStderr d written => support_write_stderr d written | SuThreadName nm => support_thread_name nm
  end.
Definition support_read_stats : Z -> Z -> Group S -> Group S * Z := group_read_stats 11.
Lemma stderr_counts d written g g' st : stderr_act d written g = (g', st) -> g_counts g' = g_counts g.
Proof.
  unfold stderr_act. cbn zeta. destruct (_ || _); [by intros [= <- _] |].
  destruct (lenZ _ =? 0); [| destruct (di_write_stderr _ _) as [p [| [k e]]]]; destruct (_ || _); by intros [= <- _].
Qed.
#[export] Instance support_group : ServiceGroup S SupportCall.
Proof.
  refine (query_group support_query support_keeps 10 (fun _ => false) _ _ _ _); [| by intros [] | done | done].
  intros []; simpl q_clear; simpl q_data; first [apply settled_nil, stderr_counts | simpl; eauto 10 with acts].
Defined.
Definition support_provided (c : SupportCall) : bool :=
  match c with
  | SuAllocate _ _ _ | SuResize _ _ _ | SuRelease _ => heap_PROVIDED
  | SuRwCreate _ | SuRwRead _ | SuRwWrite _ | SuRwUnlock _ | SuRwDestroy _ => rwlock_PROVIDED
  | SuWriteStderr _ _ => diagnostics_PROVIDED | SuThreadName _ => name_PROVIDED
  end.
Definition support_negotiate : Z * Ops SupportCall (Query S) (ReadStats S) :=
  (Z.lor (Z.lor (Z.lor (cap heap_PROVIDED 524288) (cap rwlock_PROVIDED 1048576)) (cap name_PROVIDED 2097152)) (cap diagnostics_PROVIDED 4194304),
   mkOps (fun c => if support_provided c then Some (support_query c) else None) (Some support_read_stats)).
End Support.

(** ** Files mapped into memory *)
Class Mappings (S : Type) := {
  mappings_PROVIDED : bool;
  mp_map : Z -> Z -> Z -> Z -> bool -> M S Error Z; mp_unmap : Z -> Z -> M S Error unit; mp_sync : Z -> Z -> M S Error unit;
}.
Definition SHARED : Z := 1.
Definition PRIVATE : Z := 2.
Inductive MappingsCall := MpMap (file offset length access mode address : Z) | MpUnmap (address length : Z) | MpSync (address length : Z).

Section Mappings.
Context `{Arch} {S : Type} {Mp : Mappings S}.
Definition mappings_keeps (index : nat) (status : Z) : bool :=
  kept [OK; UNSUPPORTED; INVALID_ARGUMENT; OS_ERROR] status || (kept [OUT_OF_MEMORY; ACCESS_DENIED] status && (index =? 0)%nat).
Definition mapping_range (address length : Z) : bool :=
  negb (address =? 0) && negb (length =? 0) && (length <=? isize_max) && fits address length.
Definition mappings_map (file offset length access mode address : Z) : Query S :=
  mkQuery 0 (negb (aligned_output align_of_usize address)) [(address, [0])] [] (
    refuse ((file =? 0) || (length =? 0) || (isize_max <? length)
            || negb (match checked_add u64_max offset length with Some e => e <=? i64_max | None => false end)
            || (access =? 0) || negb (Z.land access (Z.lnot (Z.lor READ (Z.lor WRITE EXECUTE))) =? 0) || negb (kept [SHARED; PRIVATE] mode)) (
    ask (mp_map file offset length access (mode =? SHARED)) (answer (fun mapped =>
      if (mapped =? 0) || negb (fits mapped length) then None else Some [(address, [mapped])])))).
Definition mappings_unmap (address length : Z) : Query S := mkQuery 1 false [] [] (refuse (negb (mapping_range address length)) (tell (mp_unmap address length))).
Definition mappings_sync (address length : Z) : Query S := mkQuery 2 false [] [] (refuse (negb (mapping_range address length)) (tell (mp_sync address length))).
Definition mappings_query (c : MappingsCall) : Query S :=
  match c with
  | MpMap file offset length access mode address => mappings_map file offset length access mode address
  | MpUnmap address length => mappings_unmap address length | MpSync address length => mappings_sync address length
  end.
Definition mappings_read_stats : Z -> Z -> Group S -> Group S * Z := group_read_stats 4.
#[export] Instance mappings_group : ServiceGroup S MappingsCall.
Proof. refine (query_group mappings_query mappings_keeps 3 (fun _ => false) _ _ _ _); [settle | by intros [] | done | done]. Defined.
Definition mappings_negotiate : Z * Ops MappingsCall (Query S) (ReadStats S) :=
  if mappings_PROVIDED then (34359738368, every mappings_query mappings_read_stats) else (0, EMPTY mappings_read_stats).
End Mappings.
