(* ===== verification/Children.v ===== *)
(** * Children.v: child processes, as this user or as another

    The front ends of [src/src/processes.rs] and [spawn_as.rs].  A spawn request is checked as a whole ([request]) before
    a provider sees it. *)
From S2P Require Import Prelude Port Counter Boundary Tree Front Group Console Machine Net.
Local Open Scope Z_scope.
Local Open Scope pal_scope.

Definition PIPE_INPUT : Z := 1.
Definition PIPE_OUTPUT : Z := 2.
Definition PIPE_ERROR : Z := 4.
Definition SPAWN_MAX_ARGUMENTS : Z := 65536.
Record Spawned := mkSpawned { sp_process : Z; sp_id : Z; sp_input : Z; sp_output : Z; sp_error : Z }.
Definition spawned_fields (s : Spawned) : list Z := [sp_process s; sp_id s; sp_input s; sp_output s; sp_error s].
(** [Spawned::consistent] *)
Definition spawned_consistent (s : Spawned) (pipes : Z) : bool :=
  negb (sp_process s =? 0) && negb (sp_id s =? 0) && Bool.eqb (sp_input s =? 0) (negb (has pipes PIPE_INPUT))
  && Bool.eqb (sp_output s =? 0) (negb (has pipes PIPE_OUTPUT)) && Bool.eqb (sp_error s =? 0) (negb (has pipes PIPE_ERROR)).

(** An array of texts: its address, and each pointer with the memory behind it. *)
Record Texts := mkTexts { t_address : Z; t_texts : list Borrow }.
Section Request.
Context `{Arch}.
Definition texts (l : Texts) : option (list Borrow) :=
  if (SPAWN_MAX_ARGUMENTS <? lenZ (t_texts l)) || (t_address l =? 0) || negb (t_address l mod align_of_usize =? 0) then None
  else if forallb (fun text => negb (b_address text =? 0)) (t_texts l) then Some (t_texts l) else None.
(** [while !matches!(entry[at], 0 | b'=') { at += 1 }], then whether a name stands before a [=]. *)
Fixpoint entry_named (memory : list Z) (at_ : nat) : bool :=
  match memory with
  | [] => false
  | b :: memory => if b =? EQUALS then negb (at_ =? 0)%nat else if b =? 0 then false else entry_named memory (Datatypes.S at_)
  end.
Definition Request : Type := list Z * list Borrow * option (list Borrow) * option (list Z).
Definition request (program : Borrow) (arguments environment : Texts) (directory : Borrow) (pipes : Z) : option Request :=
  match path program with
  | None => None
  | Some program =>
      match texts arguments with
      | None | Some [] => None
      | Some arguments =>
          let environment := if (t_address environment =? 0) && (lenZ (t_texts environment) =? 0) then Some None else Some <$> texts environment in
          match environment with
          | None => None
          | Some environment =>
              if negb (forallb (fun entry => entry_named (b_bytes entry) 0) (default [] environment)) then None else
              let directory := if (b_address directory =? 0) && (lenZ (b_bytes directory) =? 0) then Some None else Some <$> path directory in
              match directory with
              | None => None
              | Some directory =>
                  if negb (Z.land pipes (Z.lnot (Z.lor PIPE_INPUT (Z.lor PIPE_OUTPUT PIPE_ERROR))) =? 0) then None
                  else Some (program, arguments, environment, directory)
              end
          end
      end
  end.
Definition size_of_Spawned : Z := if usize_bits =? 64 then 40 else 32.
End Request.

(** ** Child processes *)
Class Processes (S : Type) := {
  processes_PROVIDED : bool;
  ps_spawn : Request -> Z -> M S Error Spawned; ps_wait : Z -> Z -> M S Error Z; ps_terminate : Z -> bool -> M S Error unit;
  ps_release : Z -> M S Error unit; ps_pipe_read : Z -> Z -> M S Error (Z * list Z); ps_pipe_write : Z -> list Z -> M S Error Z;
  ps_pipe_close : Z -> M S Error unit;
}.
Inductive ProcessesCall :=
| PsSpawn (program : Borrow) (arguments environment : Texts) (directory : Borrow) (pipes out size : Z) | PsWait (process timeout_ns exit_code : Z)
| PsTerminate (process forceful : Z) | PsRelease (process : Z) | PsPipeRead (pipe data capacity got : Z)
| PsPipeWrite (pipe : Z) (d : Borrow) (written : Z) | PsPipeClose (pipe : Z).

Section Processes.
Context `{Arch} {S : Type} {Ps : Processes S}.
Definition processes_keeps (index : nat) (status : Z) : bool :=
  kept [OK; UNSUPPORTED; INVALID_ARGUMENT; OS_ERROR; OUT_OF_MEMORY; ACCESS_DENIED; TOO_MANY_HANDLES] status
  || (kept [NOT_FOUND; IS_DIRECTORY; NOT_DIRECTORY; NAME_TOO_LONG] status && (index =? 0)%nat)
  || ((status =? TIMEOUT) && (index =? 1)%nat) || ((status =? NOT_FOUND) && (index =? 2)%nat) || ((status =? BROKEN_PIPE) && (index =? 5)%nat).
Definition spawn_answer (out pipes : Z) (s : Spawned) : option (list (Z * list Z)) :=
  if spawned_consistent s pipes then Some [(out, spawned_fields s)] else None.
Definition processes_spawn (program : Borrow) (arguments environment : Texts) (directory : Borrow) (pipes out size : Z) : Query S :=
  mkQuery 0 (negb (aligned_output align_of_u64 out) || (size <? size_of_Spawned)) [(out, [0; 0; 0; 0; 0])] [] (
    with_some (request program arguments environment directory pipes) (fun r => ask (ps_spawn r pipes) (answer (spawn_answer out pipes)))).
Definition processes_wait (process timeout_ns exit_code : Z) : Query S :=
  mkQuery 1 (negb (aligned_output align_of_u32 exit_code)) [(exit_code, [0])] [] (
    refuse (process =? 0) (ask (ps_wait process timeout_ns) (answer (fun code => Some [(exit_code, [code])])))).
Definition processes_terminate (process forceful : Z) : Query S :=
  mkQuery 2 false [] [] (refuse ((process =? 0) || (1 <? forceful)) (tell (ps_terminate process (negb (forceful =? 0))))).
Definition processes_release (process : Z) : Query S := mkQuery 3 false [] [] (refuse (process =? 0) (tell (ps_release process))).
Definition processes_pipe_read (pipe data capacity got : Z) : Query S :=
  mkQuery 4 (negb (aligned_output align_of_usize got)) [(got, [0])] [data] (
    refuse ((pipe =? 0) || negb (valid_buffer data capacity)) (
    finish (capacity =? 0) (ask (ps_pipe_read pipe capacity) (transfer data (progress capacity got false))))).
Definition processes_pipe_write (pipe : Z) (d : Borrow) (written : Z) : Query S :=
  let size := lenZ (b_bytes d) in
  mkQuery 5 (negb (aligned_output align_of_usize written)) [(written, [0])] [] (
    refuse ((pipe =? 0) || negb (valid_buffer (b_address d) size)) (
    finish (size =? 0) (ask (ps_pipe_write pipe (b_bytes d)) (answer (progress size written true))))).
Definition processes_pipe_close (pipe : Z) : Query S := mkQuery 6 false [] [] (refuse (pipe =? 0) (tell (ps_pipe_close pipe))).
Definition processes_query (c : ProcessesCall) : Query S :=
  match c with
  | PsSpawn program arguments environment directory pipes out size => processes_spawn program arguments environment directory pipes out size
  | PsWait process timeout_ns exit_code => processes_wait process timeout_ns exit_code
  | PsTerminate process forceful => processes_terminate process forceful | PsRelease process => processes_release process
  | PsPipeRead pipe data capacity got => processes_pipe_read pipe data capacity got
  | PsPipeWrite pipe d written => processes_pipe_write pipe d written | PsPipeClose pipe => processes_pipe_close pipe
  end.
Definition processes_read_stats : Z -> Z -> Group S -> Group S * Z := group_read_stats 8.
#[export] Instance processes_group : ServiceGroup S ProcessesCall.
Proof. refine (query_group processes_query processes_keeps 7 (fun _ => false) _ _ _ _); [settle | by intros [] | done | done]. Defined.
Definition processes_negotiate : Z * Ops ProcessesCall (Query S) (ReadStats S) :=
  if processes_PROVIDED then (4294967296, every processes_query processes_read_stats) else (0, EMPTY processes_read_stats).
End Processes.

(** ** Children under another identity *)
Record Identity := mkIdentity { i_user : Z; i_group : Z; i_groups : Z; i_group_list : list Z }.
Class SpawnAs (S : Type) := {
  spawn_as_PROVIDED : bool;
  sa_spawn_as : Request -> Z -> Z -> Z -> list Z -> M S Error Spawned;
}.
Inductive SpawnAsCall := SaSpawn (program : Borrow) (arguments environment : Texts) (directory : Borrow) (pipes identity : Z) (i : Identity) (out size : Z).

Section SpawnAs.
Context `{Arch} {S : Type} {Sa : SpawnAs S}.
Definition spawn_as_keeps (index : nat) (status : Z) : bool :=
  kept [OK; UNSUPPORTED; INVALID_ARGUMENT; OS_ERROR; OUT_OF_MEMORY; ACCESS_DENIED; TOO_MANY_HANDLES; NOT_FOUND; IS_DIRECTORY; NOT_DIRECTORY; NAME_TOO_LONG] status.
Definition bad_groups (i : Identity) : bool :=
  (MAX_GROUPS <? lenZ (i_group_list i))
  || (negb (lenZ (i_group_list i) =? 0) && ((i_groups i =? 0) || negb (i_groups i mod align_of_u32 =? 0))).
Definition spawn_as_call (program : Borrow) (arguments environment : Texts) (directory : Borrow) (pipes identity : Z) (i : Identity) (out size : Z) : Query S :=
  mkQuery 0 (negb (aligned_output align_of_u64 out) || (size <? size_of_Spawned)) [(out, [0; 0; 0; 0; 0])] [] (
    with_some (request program arguments environment directory pipes) (fun r =>
    refuse ((identity =? 0) || negb (identity mod align_of_usize =? 0)) (
    refuse (bad_groups i) (
    ask (sa_spawn_as r pipes (i_user i) (i_group i) (i_group_list i)) (answer (spawn_answer out pipes)))))).
Definition spawn_as_query (c : SpawnAsCall) : Query S :=
  match c with
  | SaSpawn program arguments environment directory pipes identity i out size => spawn_as_call program arguments environment directory pipes identity i out size
  end.
Definition spawn_as_read_stats : Z -> Z -> Group S -> Group S * Z := group_read_stats 2.
#[export] Instance spawn_as_group : ServiceGroup S SpawnAsCall.
Proof. refine (query_group spawn_as_query spawn_as_keeps 1 (fun _ => false) _ _ _ _); [settle | by intros [] | done | done]. Defined.
Definition spawn_as_negotiate : Z * Ops SpawnAsCall (Query S) (ReadStats S) :=
  if spawn_as_PROVIDED then (4398046511104, every spawn_as_query spawn_as_read_stats) else (0, EMPTY spawn_as_read_stats).
End SpawnAs.
