(* ===== verification/Watching.v ===== *)
(** * Watching.v: the front end of the watches group, and the waiting read of the in-memory file system

    [src/src/watches.rs] over the trait [Watches], and [read] of [impl Watches for MemFs]
    ([src/crates/dotnet-pal-memfs/src/lib.rs]): a loop that looks at the queue and lets the port wait between two looks. *)
From S2P Require Import Prelude Port Counter Boundary Content Queue Locks Tree MemFs FileSystem Front Group Console Machine.
Local Open Scope Z_scope.
Local Open Scope pal_scope.

(** ** The front end *)
Class Watches (S : Type) := {
  watches_PROVIDED : bool;
  wa_open : M S Error Z; wa_close : Z -> M S Error unit; wa_add : Z -> list Z -> Z -> M S Error Z; wa_remove : Z -> Z -> M S Error unit;
  wa_read : Z -> Z -> M S Error Event;
}.
Definition REPORTABLE : Z := Z.lor REQUESTABLE (Z.lor W_OVERFLOW (Z.lor W_REMOVED W_DIRECTORY)).
Definition event_fields (e : Event) : list Z := [ev_watch e; ev_events e; ev_cookie e; ev_name_length e] ++ ev_name e.
Inductive WatchesCall := WaOpen (out : Z) | WaClose (w : Z) | WaAdd (w : Z) (p : Borrow) (events watch : Z) | WaRemove (w watch : Z)
| WaRead (w timeout_ns event event_size : Z).

Section Watches.
Context `{Arch} {S : Type} {Wa : Watches S}.
Definition watches_keeps (index : nat) (status : Z) : bool :=
  kept [OK; UNSUPPORTED; INVALID_ARGUMENT; OS_ERROR; OUT_OF_MEMORY] status
  || (kept [NO_SPACE; TOO_MANY_HANDLES] status && ((index =? 0)%nat || (index =? 2)%nat))
  || (kept [NOT_FOUND; NOT_DIRECTORY; ACCESS_DENIED; NAME_TOO_LONG] status && (index =? 2)%nat)
  || ((status =? TIMEOUT) && (index =? 4)%nat).
Definition watches_open (out : Z) : Query S :=
  mkQuery 0 (negb (aligned_output align_of_usize out)) [(out, [0])] [] (ask wa_open (answer (fun h => if h =? 0 then None else Some [(out, [h])]))).
Definition watches_close (w : Z) : Query S := mkQuery 1 false [] [] (refuse (w =? 0) (tell (wa_close w))).
Definition watches_add (w : Z) (p : Borrow) (events watch : Z) : Query S :=
  mkQuery 2 (negb (aligned_output align_of_u32 watch)) [(watch, [0])] [] (
    with_some (path p) (fun p =>
    refuse ((w =? 0) || (Z.land events REQUESTABLE =? 0)
            || negb (Z.land events (Z.lnot (Z.lor REQUESTABLE (Z.lor W_ONLY_DIRECTORY W_NO_FOLLOW))) =? 0)) (
    ask (wa_add w p events) (answer (fun id => if id =? 0 then None else Some [(watch, [id])]))))).
Definition watches_remove (w watch : Z) : Query S := mkQuery 3 false [] [] (refuse ((w =? 0) || (watch =? 0)) (tell (wa_remove w watch))).
(** An event a consumer could not act on. *)
Definition event_broken (e : Event) : bool :=
  (Z.land (Z.land (ev_events e) REPORTABLE) (Z.lnot W_DIRECTORY) =? 0) || negb (Z.land (ev_events e) (Z.lnot REPORTABLE) =? 0)
  || negb (Bool.eqb (has (ev_events e) W_OVERFLOW) (ev_watch e =? 0))
  || (MAX_ENTRY_NAME <? ev_name_length e) || negb (at_ (ev_name e) (Z.to_nat (ev_name_length e)) =? 0)
  || existsb (fun b => (b =? 0) || (b =? SLASH)) (takeZ (ev_name_length e) (ev_name e)).
Definition size_of_Event : Z := 272.
Definition watches_read (w timeout_ns event event_size : Z) : Query S :=
  mkQuery 4 (negb (aligned_output align_of_u32 event) || (event_size <? size_of_Event)) [(event, event_fields event_EMPTY)] [] (
    refuse (w =? 0) (ask (wa_read w timeout_ns) (answer (fun e => if event_broken e then None else Some [(event, event_fields e)])))).
Definition watches_query (c : WatchesCall) : Query S :=
  match c with
  | WaOpen out => watches_open out | WaClose w => watches_close w | WaAdd w p events watch => watches_add w p events watch
  | WaRemove w watch => watches_remove w watch | WaRead w timeout_ns event event_size => watches_read w timeout_ns event event_size
  end.
Definition watches_read_stats : Z -> Z -> Group S -> Group S * Z := group_read_stats 6.
#[export] Instance watches_group : ServiceGroup S WatchesCall.
Proof. refine (query_group watches_query watches_keeps 5 (fun _ => false) _ _ _ _); [settle | by intros [] | done | done]. Defined.
Definition watches_negotiate : Z * Ops WatchesCall (Query S) (ReadStats S) :=
  if watches_PROVIDED then (17179869184, every watches_query watches_read_stats) else (0, EMPTY watches_read_stats).
End Watches.

(** Whatever [Event::new] builds for a real watch, of kinds that can be reported and is no overflow, is passed on. *)
Lemma event_new_accepted watch events cookie nm e : event_new watch events cookie nm = Some e -> watch <> 0 ->
  Z.land events (Z.lnot REPORTABLE) = 0 -> Z.land (Z.land events REPORTABLE) (Z.lnot W_DIRECTORY) <> 0 -> has events W_OVERFLOW = false ->
  event_broken e = false.
Proof.
  unfold event_new. destruct ((MAX_ENTRY_NAME <? lenZ nm) || existsb _ nm) eqn:Hn; [done |]. intros [= <-] Hw H1 H2 H3.
  apply orb_false_iff in Hn as [Hlen Hx]. pose proof (lenZ_nonneg nm). unfold event_broken. simpl.
  rewrite H3. apply Z.eqb_neq in H2. rewrite H2, H1. replace (watch =? 0) with false by lia. simpl. rewrite Hlen. simpl.
  unfold takeZ. replace (Z.to_nat (lenZ nm)) with (length nm) by (unfold lenZ; lia). rewrite take_app_length.
  unfold at_. rewrite lookup_app_r by lia. rewrite Nat.sub_diag.
  replace (zeros (256 - lenZ nm) !! O) with (Some 0).
  - simpl. change SLASH with 47. rewrite Hx. done.
  - symmetry. rewrite lookup_zeros. rewrite decide_True; [done |]. unfold MAX_ENTRY_NAME in Hlen. lia.
Qed.

(** ** The waiting read *)
Definition WAIT_SLICE : Z := 10000000.
Definition FOREVER : Z := u64_max.
Section Read.
Context `{Arch} `{Endian}.
(** [hook]: [set_wait]'s function is there; [clocked]: [set_clock]'s is.  [clocks k] is what the clock says after look
    [k] and [others k] what other threads do until the next one.  The result lists the waits that were asked for and is
    [None] when [fuel] looks were not enough. *)
Fixpoint watch_read_loop (fuel : nat) (hook clocked : bool) (clocks : nat -> Z) (others : nat -> Fs -> Fs) (w timeout_ns : Z)
    (left : Z) (deadline : option Z) (k : nat) (s : Fs) : Fs * list Z * option (Result Event) :=
  match fuel with
  | O => (s, [], None)
  | Datatypes.S fuel =>
      match watch_look w s with
      | (s, Err e) => (s, [], Some (Err e))
      | (s, Ok (Some e)) => (s, [], Some (Ok e))
      | (s, Ok None) =>
          if left =? 0 then (s, [], Some (Err ETimeout)) else
          if hook then
            let slice := Z.min left WAIT_SLICE in
            let left := if timeout_ns =? FOREVER then left else left - slice in
            let '(s, waits, r) := watch_read_loop fuel hook clocked clocks others w timeout_ns left deadline (Datatypes.S k) (others k s) in
            (s, slice :: waits, r)
          else if timeout_ns =? FOREVER then watch_read_loop fuel hook clocked clocks others w timeout_ns left deadline (Datatypes.S k) (others k s)
          else if negb clocked then (s, [], Some (Err ETimeout)) else
            let now := clocks k in
            let limit := default (saturating_add u64_max now timeout_ns) deadline in
            if limit <=? now then (s, [], Some (Err ETimeout))
            else watch_read_loop fuel hook clocked clocks others w timeout_ns left (Some limit) (Datatypes.S k) (others k s)
      end
  end.
Definition watch_read (fuel : nat) (hook clocked : bool) (clocks : nat -> Z) (others : nat -> Fs -> Fs) (w timeout_ns : Z) (s : Fs) :
    Fs * list Z * option (Result Event) :=
  watch_read_loop fuel hook clocked clocks others w timeout_ns timeout_ns None 0 s.

(** With the hook, what is left shrinks by a slice at a time. *)
Lemma hooked_read_returns fuel clocked clocks others w timeout_ns left deadline k s : timeout_ns <> FOREVER -> 0 <= left ->
  left <= (Z.of_nat fuel - 1) * WAIT_SLICE ->
  exists s' waits r, watch_read_loop fuel true clocked clocks others w timeout_ns left deadline k s = (s', waits, Some r) /\
    Forall (fun n => 0 < n <= WAIT_SLICE) waits /\ foldr Z.add 0 waits <= left /\
    (r = Err ETimeout -> foldr Z.add 0 waits = left \/ exists t, (watch_look w t).2 = Err ETimeout).
Proof.
  intros Hf. revert left k s. induction fuel as [| fuel IH]; intros left k s Hl Hb; [unfold WAIT_SLICE in Hb; lia |].
  cbn [watch_read_loop]. destruct (watch_look w s) as [s1 [[e |] | e]] eqn:Hlook.
  - eexists _, _, _. split; [done |]. split; [constructor |]. split; [done |]. done.
  - destruct (Z.eqb_spec left 0) as [-> | Hne].
    + eexists _, _, _. split; [done |]. split; [constructor |]. split; [done |]. by left.
    + apply Z.eqb_neq in Hf as Hf'. rewrite Hf'. cbn zeta.
      destruct (IH (left - Z.min left WAIT_SLICE) (Datatypes.S k) (others k s1)) as (s' & waits & r & Hrun & Hw & Hs & Hr);
        [lia | unfold WAIT_SLICE in *; lia |].
      rewrite Hrun. eexists _, _, _. split; [done |]. split; [constructor; [unfold WAIT_SLICE in *; lia | done] |]. simpl.
      split; [lia |]. intros Ht. destruct (Hr Ht) as [? | ?]; [left; lia | by right].
  - eexists _, _, _. split; [done |]. split; [constructor |]. split; [done |]. intros [= ->]. right. exists s. by rewrite Hlook.
Qed.
Lemma watch_look_no_timeout w t : (watch_look w t).2 <> Err ETimeout.
Proof.
  unfold watch_look. rewrite bind_reads. unfold watcher_id. destruct (borrow t w) as [[] | e] eqn:Hb; simpl; try done.
  - rewrite bind_reads. unfold watcher, ok_or. destruct (watchers t !! id); simpl; [| done]. by destruct (queue_pop _ _) as [[? ?] ?].
  - unfold borrow in Hb. destruct (_ || _); [by injection Hb as <- |]. unfold ok_or in Hb. by destruct (handles t !! w); [| injection Hb as <-].
Qed.

(** A timed read that waits through the port's hook returns after at most one look per slice of its timeout and
    one more, whatever other threads do between the looks.  It waits in slices, never longer than the timeout in all,
    and it reports [Timeout] only once the whole timeout has been waited for. *)
Theorem watch_read_bounded (clocked : bool) (clocks : nat -> Z) (others : nat -> Fs -> Fs) (w timeout_ns : Z) (s : Fs) :
  0 <= timeout_ns < FOREVER ->
  exists s' waits r, watch_read (Z.to_nat (timeout_ns / WAIT_SLICE) + 2) true clocked clocks others w timeout_ns s = (s', waits, Some r) /\
    Forall (fun n => 0 < n <= WAIT_SLICE) waits /\ foldr Z.add 0 waits <= timeout_ns /\
    (r = Err ETimeout -> foldr Z.add 0 waits = timeout_ns).
Proof.
  intros [Hz Hf]. destruct (hooked_read_returns (Z.to_nat (timeout_ns / WAIT_SLICE) + 2) clocked clocks others w timeout_ns timeout_ns None 0 s)
    as (s' & waits & r & Hrun & Hw & Hs & Hr); [lia | lia | |].
  - pose proof (Z.mod_pos_bound timeout_ns WAIT_SLICE ltac:(done)). pose proof (Z.div_mod timeout_ns WAIT_SLICE ltac:(done)).
    assert (0 <= timeout_ns / WAIT_SLICE) by by apply Z.div_pos. unfold WAIT_SLICE in *. lia.
  - exists s', waits, r. split_and!; [done | done | done |]. intros Ht. destruct (Hr Ht) as [? | [t Ht']]; [done |]. by apply watch_look_no_timeout in Ht'.
Qed.
End Read.
(** A watch on an empty tree: three waits fill a timeout of 25 ms. *)
Lemma watch_read_bounded_witness :
  let s := (@watch_open arch64 boxes (initial [])).1 in
  exists s', @watch_read arch64 le_machine 4 true false (fun _ => 0) (fun _ t => t) 8 25000000 s =
    (s', [WAIT_SLICE; WAIT_SLICE; 5000000], Some (Err ETimeout)).
Proof.
  intros s. destruct (@watch_read_bounded arch64 le_machine false (fun _ => 0) (fun _ t => t) 8 25000000 s ltac:(vm_compute; done))
    as (s' & waits & r & Hrun & Hw & Hsum & Ht).
  exists s'. change (Z.to_nat (25000000 / WAIT_SLICE) + 2)%nat with 4%nat in Hrun. rewrite Hrun.
  assert (waits = [WAIT_SLICE; WAIT_SLICE; 5000000]) as -> by (apply (f_equal (fun x => x.1.2)) in Hrun; vm_compute in Hrun; by rewrite <- Hrun).
  assert (r = Err ETimeout) as -> by (apply (f_equal snd) in Hrun; vm_compute in Hrun; congruence).
  reflexivity.
Defined.
