(* ===== verification/Faults.v ===== *)
(** * Faults.v: CPU faults that the port reports

    [src/src/faults.rs]: the port calls [deliver] from its trap handler, and the consumer installs a handler with [install].
    The statics that the calls share are a record; the atomic accesses of any number of threads interleave, because a
    trap may come at any moment: before any [install], in the midst of one, or after the port has refused it. *)
From S2P Require Import Prelude Port Counter Boundary.
Local Open Scope Z_scope.
Local Open Scope pal_scope.

(** The layout of a fault frame on this architecture; the tag is 0 where there is none. *)
Class Frames := { FRAME_TAG : Z; FRAME_SIZE : Z; FRAME_ALIGN : Z }.
Class FaultsPort (S : Type) := { faults_PROVIDED : bool; fa_enable : M S Error unit }.

(** [STATE], [HANDLER], [DATA] and [COUNTERS], and what has happened so far: the handlers and data of the calls of
    [install] that won the claim, in order ([attempts]); which of these the port's [enable] refused; and the calls of a
    handler: the attempt that had stored it, the handler, the kind and the data passed. *)
Record Shared := mkShared { state : Z; handler : option Z; data : Z; counts : nat -> Z;
  attempts : list (Z * Z); refused : list nat; calls : list (nat * Z * Z * Z) }.
Definition EMPTY_STATE : Z := 0.
Definition INSTALLING : Z := 1.
Definition INSTALLED : Z := 2.
Definition ACCESS : Z := 1.
Definition STACK_OVERFLOW : Z := 8.
Definition UNHANDLED : Z := 0.
Definition RESUME : Z := 1.
Definition valid_kind (kind : Z) : bool := (ACCESS <=? kind) && (kind <=? STACK_OVERFLOW).

(** Where a thread is: in [install] before each of its atomic accesses, in [deliver_raw] or [deliver] before it loads the
    handler and before it loads the data (having loaded the handler of the [n]th attempt), or back with a status or a
    disposition. *)
Inductive Thread :=
| Install (h : option Z) (d : Z) | StoreData (h d : Z) | StoreHandler (h d : Z) | Enable (h d : Z) | Publish
| Withdraw (status : Z) | Reopen (status : Z) | Returned (status : Z)
| DeliverRaw (kind frame size : Z) | Deliver (kind : Z) | CallHandler (n : nat) (h kind : Z) | Delivered (disposition : Z).
#[global] Instance FaultThread_eq_dec : EqDecision Thread.
Proof. solve_decision. Defined.

Section Threads.
Context `{Arch} `{Frames}.
Definition tally (i : nat) (s : Shared) : Shared :=
  mkShared (state s) (handler s) (data s) (fun j => if decide (j = i) then increment (counts s j) else counts s j) (attempts s) (refused s) (calls s).
Definition set_state (v : Z) (s : Shared) : Shared := mkShared v (handler s) (data s) (counts s) (attempts s) (refused s) (calls s).
Definition set_handler (h : option Z) (s : Shared) : Shared := mkShared (state s) h (data s) (counts s) (attempts s) (refused s) (calls s).
Definition set_data (d : Z) (s : Shared) : Shared := mkShared (state s) (handler s) d (counts s) (attempts s) (refused s) (calls s).
(** The attempt under way, or the last one. *)
Definition current (s : Shared) : nat := pred (length (attempts s)).
Definition claimed (h d : Z) (s : Shared) : Shared :=
  mkShared (state s) (handler s) (data s) (counts s) (attempts s ++ [(h, d)]) (refused s) (calls s).
Definition refusal (s : Shared) : Shared :=
  mkShared (state s) (handler s) (data s) (counts s) (attempts s) (current s :: refused s) (calls s).
Definition called (n : nat) (h kind : Z) (s : Shared) : Shared :=
  mkShared (state s) (handler s) (data s) (counts s) (attempts s) (refused s) (calls s ++ [(n, h, kind, data s)]).
(** The checks of [deliver_raw]. *)
Definition frame_ok (frame size : Z) : bool :=
  negb (frame =? 0) && (frame mod FRAME_ALIGN =? 0) && (size =? FRAME_SIZE) && negb (FRAME_TAG =? 0).
(** One atomic access of one thread, with the counting that goes with it. *)
Inductive access : Shared -> Thread -> Shared -> Thread -> Prop :=
| install_null s d : access s (Install None d) (tally 4 s) (Returned INVALID_ARGUMENT)
| install_busy s h d : state s <> EMPTY_STATE -> access s (Install (Some h) d) (tally 4 s) (Returned BUSY)
| install_claim s h d : state s = EMPTY_STATE -> access s (Install (Some h) d) (claimed h d (set_state INSTALLING s)) (StoreData h d)
| install_data s h d : access s (StoreData h d) (set_data d s) (StoreHandler h d)
| install_handler s h d : access s (StoreHandler h d) (set_handler (Some h) s) (Enable h d)
| install_enabled s h d : access s (Enable h d) s Publish
| install_refused s h d (e : Error) :
    access s (Enable h d) (refusal s) (Withdraw (if status_of e =? UNSUPPORTED then UNSUPPORTED else OS_ERROR))
| install_withdraw s st : access s (Withdraw st) (set_handler None s) (Reopen st)
| install_reopen s st : access s (Reopen st) (tally 4 (set_state EMPTY_STATE s)) (Returned st)
| install_publish s : access s Publish (tally 0 (set_state INSTALLED s)) (Returned OK)
| raw_refused s kind frame size : frame_ok frame size = false -> access s (DeliverRaw kind frame size) (tally 4 s) (Delivered UNHANDLED)
| raw_passed s kind frame size : frame_ok frame size = true -> access s (DeliverRaw kind frame size) s (Deliver kind)
| deliver_none s kind : handler s = None -> access s (Deliver kind) (tally 3 s) (Delivered UNHANDLED)
| deliver_invalid s kind h : handler s = Some h -> valid_kind kind = false -> access s (Deliver kind) (tally 4 s) (Delivered UNHANDLED)
| deliver_load s kind h : handler s = Some h -> valid_kind kind = true -> access s (Deliver kind) (tally 1 s) (CallHandler (current s) h kind)
| deliver_call s n h kind answer :
    access s (CallHandler n h kind) (tally (if answer =? RESUME then 2 else 3) (called n h kind s))
      (Delivered (if answer =? RESUME then RESUME else UNHANDLED)).

Inductive step : Shared * list Thread -> Shared * list Thread -> Prop :=
| step_thread s ts i t s' t' : ts !! i = Some t -> access s t s' t' -> step (s, ts) (s', <[i := t']> ts).
Definition start : Shared := mkShared EMPTY_STATE None 0 (fun _ => 0) [] [] [].
(** A thread that has not begun its call. *)
Definition fresh (t : Thread) : Prop := match t with Install _ _ | DeliverRaw _ _ _ | Deliver _ => True | _ => False end.
Definition reachable (s : Shared) (ts : list Thread) : Prop := exists ts0, Forall fresh ts0 /\ rtc step (start, ts0) (s, ts).
Definition faults_read_stats (out size : Z) (s : Shared) : option (list Z) * Z :=
  if negb (aligned_output align_of_u64 out) || (size <? 40) then (None, INVALID_ARGUMENT) else (Some (load <$> (counts s <$> seq 0 5)), OK).

(** The thread that has claimed the installation. *)
Definition busy (t : Thread) : bool :=
  match t with StoreData _ _ | StoreHandler _ _ | Enable _ _ | Publish | Withdraw _ | Reopen _ => true | _ => false end.
(** The attempt that counts is that of [h] and [d], and it has not been refused. *)
Definition under_way (s : Shared) (h d : Z) : Prop := attempts s !! current s = Some (h, d) /\ current s ∉ refused s.
Definition in_force (s : Shared) : Prop := exists h, handler s = Some h /\ under_way s h (data s).
(** A handler of attempt [n] and the data that goes or went with it. *)
Definition paired (s : Shared) (n : nat) (h kind d : Z) : Prop :=
  valid_kind kind = true /\ fst <$> attempts s !! n = Some h /\
  exists m h', (n <= m)%nat /\ attempts s !! m = Some (h', d) /\ (m = n \/ n ∈ refused s).
Definition holds (s : Shared) (t : Thread) : Prop :=
  match t with
  | StoreData h d => handler s = None /\ under_way s h d
  | StoreHandler h d => handler s = None /\ under_way s h d /\ data s = d
  | Enable h d => handler s = Some h /\ under_way s h d /\ data s = d
  | Publish => in_force s
  | Withdraw st => current s ∈ refused s /\ st <> OK
  | Reopen st => handler s = None /\ current s ∈ refused s /\ st <> OK
  | Returned st => st = OK -> state s = INSTALLED
  | CallHandler n h kind => paired s n h kind (data s)
  | _ => True
  end.
Record inv (s : Shared) (ts : list Thread) : Prop := {
  inv_holds : forall i t, ts !! i = Some t -> holds s t;
  inv_busy : forall i t, ts !! i = Some t -> busy t = true -> state s = INSTALLING;
  inv_one : forall i j t u, ts !! i = Some t -> ts !! j = Some u -> busy t = true -> busy u = true -> i = j;
  inv_empty : state s = EMPTY_STATE -> handler s = None /\ (attempts s = [] \/ current s ∈ refused s);
  inv_installed : state s = INSTALLED -> in_force s;
  inv_handler : forall h, handler s = Some h -> attempts s !! current s = Some (h, data s);
  inv_earlier : forall n, (n < current s)%nat -> n ∈ refused s;
  inv_refused : forall n, n ∈ refused s -> (n < length (attempts s))%nat;
  inv_calls : forall n h k d, (n, h, k, d) ∈ calls s -> paired s n h k d;
  inv_single : forall i j, ts !! i = Some (Returned OK) -> ts !! j = Some (Returned OK) -> i = j;
}.

(** ** What one access changes *)
Lemma access_grows s t s' t' : access s t s' t' -> attempts s `prefix_of` attempts s' /\ refused s ⊆ refused s'.
Proof. destruct 1; simpl; (split; [try done; by apply prefix_app_r | set_solver]). Qed.
Lemma paired_grows s s' n h k d : attempts s `prefix_of` attempts s' -> refused s ⊆ refused s' -> paired s n h k d -> paired s' n h k d.
Proof.
  intros [more Hm] Hr (Hk & Hh & m & h' & Hle & Hd & Ho). apply fmap_Some in Hh as ([h0 d0] & Hn & ->). unfold paired. rewrite Hm.
  split_and!; [done | by rewrite (lookup_app_l_Some _ _ _ _ Hn) |]. exists m, h'. split_and!; [done | by apply lookup_app_l_Some | set_solver].
Qed.
(** Everything before the current attempt has been refused, so a handler and the data of the current attempt are paired. *)
Lemma paired_current s n h k d h' d' : (forall n, (n < current s)%nat -> n ∈ refused s) -> paired s n h k d ->
  attempts s !! current s = Some (h', d') -> paired s n h k d'.
Proof.
  intros He (Hk & Hh & _) Hc. split_and!; [done | done |]. exists (current s), h'. apply fmap_Some in Hh as (x & Hn & _).
  apply lookup_lt_Some in Hn. unfold current in *. split_and!; [lia | done |]. destruct (decide (n = pred (length (attempts s)))); [by left | right].
  apply He. lia.
Qed.
Lemma access_other s t s' t' u : holds s t -> (busy t = true -> state s = INSTALLING) -> (forall n, (n < current s)%nat -> n ∈ refused s) ->
  busy u = false \/ busy t = false -> (busy u = true -> state s = INSTALLING) ->
  access s t s' t' -> holds s u -> holds s' u.
Proof.
  intros Hh Hb He Hu Hbu Ha Hs. pose proof (access_grows _ _ _ _ Ha) as [Hg1 Hg2].
  destruct u; try (destruct Ha; simpl in *; unfold INSTALLING, INSTALLED, EMPTY_STATE in *; done || naive_solver (congruence || lia)).
  pose proof (paired_grows _ _ _ _ _ _ Hg1 Hg2 Hs) as Hp. simpl. destruct Ha; try exact Hp.
  destruct Hh as [_ [Hc _]]. exact (paired_current _ _ _ _ _ _ _ He Hs Hc).
Qed.
(** What the thread itself has next, and the shared state. *)
Definition shared_ok s : Prop :=
  (state s = EMPTY_STATE -> handler s = None /\ (attempts s = [] \/ current s ∈ refused s)) /\ (state s = INSTALLED -> in_force s) /\
  (forall h, handler s = Some h -> attempts s !! current s = Some (h, data s)) /\
  (forall n, (n < current s)%nat -> n ∈ refused s) /\ (forall n, n ∈ refused s -> (n < length (attempts s))%nat).
Lemma install_claim_ok s h d : shared_ok s -> state s = EMPTY_STATE ->
  let s' := claimed h d (set_state INSTALLING s) in shared_ok s' /\ handler s' = None /\ under_way s' h d.
Proof.
  intros (He & _ & Hh & Hl & Hr) Hs. destruct (He Hs) as [Hnone Hcur].
  assert (current (claimed h d (set_state INSTALLING s)) = length (attempts s)) as Hc by (unfold current; simpl; rewrite length_app; simpl; lia).
  assert (attempts (claimed h d (set_state INSTALLING s)) !! length (attempts s) = Some (h, d)) as Hlook by (simpl; by rewrite list_lookup_middle).
  assert (length (attempts s) ∉ refused s) as Hnew by (intros Hx%Hr; lia).
  unfold shared_ok, under_way. rewrite Hc. simpl. split_and!; try done.
  - intros h0 Hx. congruence.
  - intros n Hn. destruct Hcur as [Hnil | Hcur]; [rewrite Hnil in Hn; simpl in Hn; lia |]. destruct (decide (n = current s)) as [-> | Hne]; [done |].
    apply Hl. unfold current in *. lia.
  - intros n Hx%Hr. rewrite length_app. lia.
Qed.
Lemma access_self s t s' t' : shared_ok s -> holds s t -> (busy t = true -> state s = INSTALLING) -> access s t s' t' ->
  shared_ok s' /\ holds s' t' /\ (busy t' = true -> state s' = INSTALLING).
Proof.
  intros Hok Hh Hb Ha. destruct Ha; try (split; [exact Hok | by split]).
  - destruct (install_claim_ok s h d Hok) as (? & ? & ?); [done |]. by split_and!.
  - destruct Hok as (He & Hi & Hp & Hl & Hr), Hh as [Hn Hu]. specialize (Hb eq_refl). split; [| done].
    unfold shared_ok, set_data; simpl. split_and!; try done; try (intros Hx; by rewrite Hb in Hx). intros h0 Hx. congruence.
  - destruct Hok as (He & Hi & Hp & Hl & Hr), Hh as (Hn & Hu & Hd). specialize (Hb eq_refl). split; [| done].
    unfold shared_ok, set_handler; simpl. split_and!; try done; try (intros Hx; by rewrite Hb in Hx).
    intros h0 [= <-]. rewrite Hd. apply Hu.
  - destruct Hh as (Hn & Hu & Hd). split_and!; [done | exists h; rewrite Hd; by split | done].
  - destruct Hok as (He & Hi & Hp & Hl & Hr), Hh as (Hn & Hu & Hd). specialize (Hb eq_refl). split; [| split; [| done]].
    + unfold shared_ok, refusal; simpl. split_and!; try done; try (intros Hx; by rewrite Hb in Hx).
      * intros n Hx%Hl. set_solver.
      * intros n [-> | Hx%Hr]%elem_of_cons; [| done]. destruct Hu as [Hu%lookup_lt_Some _]. exact Hu.
    + split; [apply elem_of_cons; by left |]. destruct (_ =? _); discriminate.
  - destruct Hok as (He & Hi & Hp & Hl & Hr), Hh as (Hn & Hu). specialize (Hb eq_refl). split; [| done].
    unfold shared_ok, set_handler; simpl. split_and!; try done; try (intros Hx; by rewrite Hb in Hx).
  - destruct Hok as (He & Hi & Hp & Hl & Hr), Hh as (Hn & Hu & Hst). split; [| split; [by intros -> | done]].
    unfold shared_ok; simpl. split_and!; try done. intros _. split; [done | by right].
  - destruct Hok as (He & Hi & Hp & Hl & Hr). split; [| by split]. unfold shared_ok; simpl. by split_and!.
  - split; [exact Hok |]. split; [| done]. destruct Hok as (He & Hi & Hp & Hl & Hr). split; [done |]. split; [simpl; by rewrite (Hp h) |].
    exists (current s), h. split_and!; [done | by apply Hp | by left].
Qed.
(** The state changes only when the installation is claimed, or at the hands of the thread that claimed it. *)
Lemma access_state s t s' t' : access s t s' t' -> busy t = false -> state s' = state s \/ (state s = EMPTY_STATE /\ busy t' = true).
Proof. destruct 1; simpl; naive_solver. Qed.
Lemma access_busy s t s' t' : access s t s' t' -> busy t' = true -> busy t = true \/ state s = EMPTY_STATE.
Proof. destruct 1; simpl; naive_solver. Qed.
Lemma access_ok s t s' t' : access s t s' t' -> holds s t -> t' = Returned OK -> t = Publish.
Proof. destruct 1; simpl; try naive_solver. Qed.
Lemma access_calls s t s' t' : access s t s' t' -> calls s' = calls s \/ exists n h k, t = CallHandler n h k /\ calls s' = calls s ++ [(n, h, k, data s)].
Proof. destruct 1; simpl; eauto 10. Qed.

Lemma step_inv s ts s' ts' : inv s ts -> step (s, ts) (s', ts') -> inv s' ts'.
Proof.
  intros Hinv Hstep. inversion Hstep as [? ? i t ? t' Hi Ha]; subst. destruct Hinv as [Hholds Hbusy Hone H1 H2 H3 H4 H5 Hcalls Hsing].
  pose proof (Hholds i t Hi) as Ht. pose proof (Hbusy i t Hi) as Hbt.
  destruct (access_self s t s' t') as (Hok' & Ht' & Hbt'); [by split_and! | done | done | done |].
  destruct Hok' as (H1' & H2' & H3' & H4' & H5'). constructor; try done.
  - intros j u [[-> ->] | [Hne Hj]]%(insert_lookup_cases _ _ _ _ _ _ Hi); [done |].
    eapply (access_other _ t _ t'); [done | done | done | | by eapply Hbusy | done | by eapply Hholds].
    destruct (busy u) eqn:Hu, (busy t) eqn:Hb; auto. exfalso. eauto.
  - intros j u [[-> ->] | [Hne Hj]]%(insert_lookup_cases _ _ _ _ _ _ Hi) Hu; [by apply Hbt' |].
    assert (busy t = false) as Hb. { destruct (busy t) eqn:Hb; [| done]. exfalso. eauto. }
    pose proof (Hbusy _ _ Hj Hu) as Hs. destruct (access_state _ _ _ _ Ha Hb) as [-> | [He _]]; [done |]. by rewrite He in Hs.
  - intros j k u v [[-> ->] | [Hne Hj]]%(insert_lookup_cases _ _ _ _ _ _ Hi) [[-> ->] | [Hne' Hk]]%(insert_lookup_cases _ _ _ _ _ _ Hi) Hu Hv; [done | | | by eauto].
    + destruct (access_busy _ _ _ _ Ha Hu) as [Hb | He]; [eauto |]. pose proof (Hbusy _ _ Hk Hv) as Hs. by rewrite He in Hs.
    + destruct (access_busy _ _ _ _ Ha Hv) as [Hb | He]; [eauto |]. pose proof (Hbusy _ _ Hj Hu) as Hs. by rewrite He in Hs.
  - pose proof (access_grows _ _ _ _ Ha) as [Hg1 Hg2]. intros n h k d Hin. apply (paired_grows s); [done | done |].
    destruct (access_calls _ _ _ _ Ha) as [Hc | (n' & h' & k' & -> & Hc)]; rewrite Hc in Hin; [by apply Hcalls |].
    apply elem_of_app in Hin as [Hin | [= -> -> -> ->]%list_elem_of_singleton]; [by apply Hcalls | exact Ht].
  - intros j k [[-> Hu] | [Hne Hj]]%(insert_lookup_cases _ _ _ _ _ _ Hi) [[-> Hv] | [Hne' Hk]]%(insert_lookup_cases _ _ _ _ _ _ Hi); [done | | | by eauto].
    + symmetry in Hu. pose proof (access_ok _ _ _ _ Ha Ht Hu) as ->. pose proof (Hholds _ _ Hk eq_refl) as Hs. by rewrite (Hbt eq_refl) in Hs.
    + symmetry in Hv. pose proof (access_ok _ _ _ _ Ha Ht Hv) as ->. pose proof (Hholds _ _ Hj eq_refl) as Hs. by rewrite (Hbt eq_refl) in Hs.
Qed.
Lemma start_inv ts : Forall fresh ts -> inv start ts.
Proof.
  intros Hf. rewrite Forall_lookup in Hf. constructor; simpl; try done.
  - intros i t Ht. apply Hf in Ht. by destruct t.
  - intros i t Ht. apply Hf in Ht. by destruct t.
  - intros i j t u Ht. apply Hf in Ht. by destruct t.
  - intros _. split; [done | by left].
  - intros n Hn. exfalso. unfold current in Hn. simpl in Hn. lia.
  - by intros n ?%elem_of_nil.
  - by intros n h k d ?%elem_of_nil.
  - intros i j Ht. by apply Hf in Ht.
Qed.
Lemma reachable_inv s ts : reachable s ts -> inv s ts.
Proof.
  intros (ts0 & Hf & Hr). apply start_inv in Hf. remember (start, ts0) as x eqn:Hx. remember (s, ts) as y eqn:Hy.
  revert s ts Hy ts0 Hf Hx. generalize start. induction Hr as [x | x y z Hxy Hyz IH]; intros s0 s ts -> ts0 Hf Hx.
  - by injection Hx as -> ->.
  - subst x. destruct y as [s1 ts1]. eapply IH; [done | | done]. by eapply step_inv.
Qed.

(** C33: installing a fault handler is once for all, and a fault meets the handler together with its own data, however
    the atomic accesses of any number of threads interleave and whenever the port reports a fault, before, during or
    after an installation.  At most one [install] returns [OK], and from then on its handler and data are the ones in
    force.  Every call of a handler is for a kind that exists, and passes the data that came with that handler; the one
    exception is a handler whose installation the port refused while the fault was on its way, which may be called
    with the data of a later attempt. *)
Theorem faults_meet_their_handler (s : Shared) (ts : list Thread) : reachable s ts ->
  (forall i j, ts !! i = Some (Returned OK) -> ts !! j = Some (Returned OK) -> i = j) /\
  (forall i, ts !! i = Some (Returned OK) -> state s = INSTALLED /\
     exists h d, handler s = Some h /\ data s = d /\ last (attempts s) = Some (h, d) /\ pred (length (attempts s)) ∉ refused s) /\
  (forall n h k d, (n, h, k, d) ∈ calls s -> valid_kind k = true /\
     exists own, attempts s !! n = Some (h, own) /\
       (d = own \/ (n ∈ refused s /\ exists m h', (n < m)%nat /\ attempts s !! m = Some (h', d)))).
Proof.
  intros Hinv%reachable_inv. split_and!.
  - apply (inv_single _ _ Hinv).
  - intros i Hi. pose proof (inv_holds _ _ Hinv _ _ Hi eq_refl) as Hs. split; [done |].
    destruct (inv_installed _ _ Hinv Hs) as (h & Hh & Hc & Hr). exists h, (data s). by rewrite last_lookup.
  - intros n h k d Hin. destruct (inv_calls _ _ Hinv _ _ _ _ Hin) as (Hk & Hh & m & h' & Hle & Hd & Ho). split; [done |].
    apply fmap_Some in Hh as ([h0 own] & Hn & ->). exists own. split; [done |]. destruct (decide (m = n)) as [-> | Hne]; [left; congruence |].
    right. split; [by destruct Ho |]. exists m, h'. split; [lia | done].
Qed.
End Threads.

Definition frames_x64 : Frames := {| FRAME_TAG := 5067184330871144450; FRAME_SIZE := 144; FRAME_ALIGN := 8 |}.
#[local] Existing Instance arch64.
#[local] Existing Instance frames_x64.
Ltac thread i rule := eapply rtc_l; [eapply (step_thread _ _ i); [reflexivity | rule; reflexivity || discriminate] |]; simpl.
(** A fault before any installation, a second [install] beside one that succeeds, and a fault from a host table before
    the port has been enabled. *)
Lemma faults_meet_their_handler_witness :
  exists s, @reachable arch64 frames_x64 s [Returned OK; Returned BUSY; Delivered RESUME; Delivered UNHANDLED] /\
    calls s = [(0%nat, 7, ACCESS, 70)] /\ handler s = Some 7 /\ data s = 70.
Proof.
  eexists. match goal with |- ?r /\ _ => assert r as Hr end.
  { exists [Install (Some 7) 70; Install (Some 8) 80; DeliverRaw ACCESS 64 144; Deliver ACCESS]. split; [repeat constructor |].
    thread 3%nat ltac:(eapply deliver_none). thread 0%nat ltac:(eapply install_claim). thread 1%nat ltac:(eapply install_busy). thread 0%nat ltac:(eapply install_data). thread 0%nat ltac:(eapply install_handler).
    thread 2%nat ltac:(eapply raw_passed). thread 2%nat ltac:(eapply (deliver_load _ ACCESS 7)). thread 0%nat ltac:(eapply install_enabled). thread 0%nat ltac:(eapply install_publish).
    thread 2%nat ltac:(eapply (deliver_call _ 0 7 ACCESS RESUME)). apply rtc_refl. }
  split; [exact Hr |]. split; [reflexivity |]. destruct (faults_meet_their_handler _ _ Hr) as (_ & Hok & _).
  destruct (Hok 0%nat eq_refl) as (_ & h & d & Hh & Hd & Hl & _). injection Hl as <- <-. split; [exact Hh | exact Hd].
Defined.
(** The exception is real: the first attempt is refused while a fault has loaded its handler; a second attempt stores its
    data, and the fault's handler 7 is called with 80. *)
Theorem refused_handler_meets_later_data : exists s ts, @reachable arch64 frames_x64 s ts /\
  attempts s = [(7, 70); (8, 80)] /\ calls s = [(0%nat, 7, ACCESS, 80)].
Proof.
  do 2 eexists. split.
  { exists [Install (Some 7) 70; Install (Some 8) 80; Deliver ACCESS]. split; [repeat constructor |].
    thread 0%nat ltac:(eapply install_claim). thread 0%nat ltac:(eapply install_data). thread 0%nat ltac:(eapply install_handler). thread 2%nat ltac:(eapply (deliver_load _ ACCESS 7)).
    thread 0%nat ltac:(eapply (install_refused _ 7 70 EOs)). thread 0%nat ltac:(eapply install_withdraw). thread 0%nat ltac:(eapply install_reopen).
    thread 1%nat ltac:(eapply install_claim). thread 1%nat ltac:(eapply install_data). thread 2%nat ltac:(eapply (deliver_call _ 0 7 ACCESS RESUME)). apply rtc_refl. }
  by split.
Qed.
