(* ===== verification/Notifications.v ===== *)
(** * Notifications.v: requests from outside the process

    [src/src/notifications.rs]: the port calls [deliver] for an interrupt, a hangup and the like.  The operations are given
    call by call over the statics of the module, with the set of kinds that the consumer wants as their specification. *)
From S2P Require Import Prelude Port Counter Boundary.
Local Open Scope Z_scope.
Local Open Scope pal_scope.

Class NotificationsPort (S : Type) := {
  notifications_PROVIDED : bool;
  no_start : M S Error unit; no_enable : Z -> M S Error unit; no_disable : Z -> M S Error unit; no_default_action : Z -> M S Error unit;
}.
(** [STATE], [HANDLER], [DATA], [ENABLED] and [COUNTERS], with the provider and the calls of the handler so far (handler, kind, data). *)
Record Hub (S : Type) := mkHub {
  state : Z; handler : option Z; data : Z; enabled_bits : Z; counts : nat -> Z; provider : S; calls : list (Z * Z * Z) }.
Arguments mkHub {S} _ _ _ _ _ _ _.
Arguments state {S} _.
Arguments handler {S} _.
Arguments data {S} _.
Arguments enabled_bits {S} _.
Arguments counts {S} _ _.
Arguments provider {S} _.
Arguments calls {S} _.
Definition INTERRUPT : Z := 1.
Definition STOP : Z := 9.
Definition valid (kind : Z) : bool := (INTERRUPT <=? kind) && (kind <=? STOP).
Definition fold (status : Z) : Z := if (status =? OK) || (status =? UNSUPPORTED) || (status =? INVALID_ARGUMENT) then status else OS_ERROR.

Section Hub.
Context `{Arch} {S : Type} `{NotificationsPort S}.
Implicit Types (s : Hub S).
Definition bump (i : nat) s : Hub S :=
  mkHub (state s) (handler s) (data s) (enabled_bits s) (fun j => if decide (j = i) then increment (counts s j) else counts s j) (provider s) (calls s).
Definition ask_port (op : M S Error unit) s : Hub S * Z :=
  let '(p, r) := op (provider s) in (mkHub (state s) (handler s) (data s) (enabled_bits s) (counts s) p (calls s), fold (status r)).
Definition set_bits (bits : Z) s : Hub S := mkHub (state s) (handler s) (data s) bits (counts s) (provider s) (calls s).
(** [ENABLED & (1 << kind) != 0] *)
Definition wants (bits kind : Z) : bool := has bits (Z.shiftl 1 kind).
Definition enabled (kind : Z) s : bool := valid kind && wants (enabled_bits s) kind.
Definition deliver (kind : Z) s : Hub S * bool :=
  match handler s with
  | Some h =>
      if negb (enabled kind s) then (bump 4 s, false) else
      let s := bump 3 s in
      (mkHub (state s) (handler s) (data s) (enabled_bits s) (counts s) (provider s) (calls s ++ [(h, kind, data s)]), true)
  | None => (bump 4 s, false)
  end.
Definition install (h : option Z) (d : Z) s : Hub S * Z :=
  match h with
  | None => (bump 5 s, INVALID_ARGUMENT)
  | Some h =>
      if negb (state s =? 0) then (bump 5 s, BUSY) else
      let s := mkHub 1 (Some h) d (enabled_bits s) (counts s) (provider s) (calls s) in
      let '(s, status) := ask_port no_start s in
      if negb (status =? OK) then (bump 5 (mkHub 0 None (data s) (enabled_bits s) (counts s) (provider s) (calls s)), status)
      else (bump 0 (mkHub 2 (handler s) (data s) (enabled_bits s) (counts s) (provider s) (calls s)), OK)
  end.
Definition enable (kind : Z) s : Hub S * Z :=
  if negb (valid kind) || negb (state s =? 2) then (bump 5 s, INVALID_ARGUMENT) else
  let before := enabled_bits s in
  let s := set_bits (Z.lor before (Z.shiftl 1 kind)) s in
  let '(s, status) := ask_port (no_enable kind) s in
  if status =? OK then (bump 1 s, status) else
  (bump 5 (if wants before kind then s else set_bits (Z.land (enabled_bits s) (Z.lnot (Z.shiftl 1 kind))) s), status).
Definition disable (kind : Z) s : Hub S * Z :=
  if negb (valid kind) || negb (state s =? 2) then (bump 5 s, INVALID_ARGUMENT) else
  let s := set_bits (Z.land (enabled_bits s) (Z.lnot (Z.shiftl 1 kind))) s in
  let '(s, status) := ask_port (no_disable kind) s in
  (bump (if status =? OK then 2%nat else 5%nat) s, status).
Definition default_action (kind : Z) s : Hub S * Z :=
  if negb (valid kind) then (bump 5 s, INVALID_ARGUMENT) else
  let '(s, status) := ask_port (no_default_action kind) s in
  (if status =? OK then s else bump 5 s, status).
Definition notifications_read_stats (out size : Z) s : option (list Z) * Z :=
  if negb (aligned_output align_of_u64 out) || (size <? 48) then (None, INVALID_ARGUMENT) else (Some (load <$> (counts s <$> seq 0 6)), OK).
Definition start (p : S) : Hub S := mkHub 0 None 0 0 (fun _ => 0) p [].

(** The specification: whether a handler is installed, and the kinds that the consumer wants. *)
Record Spec := mkSpec { installed : option (Z * Z); wanted : gset Z }.
Definition refines s (a : Spec) : Prop :=
  match installed a with
  | Some (h, d) => state s = 2 /\ handler s = Some h /\ data s = d
  | None => state s = 0 /\ handler s = None /\ wanted a = ∅
  end /\ (forall kind, 0 <= kind -> wants (enabled_bits s) kind = bool_decide (kind ∈ wanted a)) /\ (forall kind, kind ∈ wanted a -> valid kind = true).
Inductive Call := Install (h : option Z) (d : Z) | Enable (kind : Z) | Disable (kind : Z) | DefaultAction (kind : Z) | Deliver (kind : Z).
Definition call (c : Call) s : Hub S * Z :=
  match c with
  | Install h d => install h d s | Enable kind => enable kind s | Disable kind => disable kind s | DefaultAction kind => default_action kind s
  | Deliver kind => let '(s, b) := deliver kind s in (s, if b then 1 else 0)
  end.
(** What each call does to the specification, given the status it returned. *)
Definition spec_call (c : Call) (st : Z) (a : Spec) : Spec :=
  match c with
  | Install (Some h) d => if st =? OK then mkSpec (Some (h, d)) (wanted a) else a
  | Enable kind => if st =? OK then mkSpec (installed a) ({[kind]} ∪ wanted a) else a
  | Disable kind => if valid kind && bool_decide (is_Some (installed a)) then mkSpec (installed a) (wanted a ∖ {[kind]}) else a
  | _ => a
  end.
(** What a call asks the port, if it asks it at all: an installation while there is none, a change of a kind that exists
    while there is one. *)
Definition spec_asks (c : Call) (a : Spec) : option (M S Error unit) :=
  match c, installed a with
  | Install (Some _) _, None => Some no_start
  | Enable kind, Some _ => if valid kind then Some (no_enable kind) else None
  | Disable kind, Some _ => if valid kind then Some (no_disable kind) else None
  | DefaultAction kind, _ => if valid kind then Some (no_default_action kind) else None
  | _, _ => None
  end.
(** The answer of a call that does not ask the port: there is no second installation. *)
Definition spec_status (c : Call) (a : Spec) : Z :=
  match c with
  | Install (Some _) _ => BUSY
  | Deliver kind => if bool_decide (kind ∈ wanted a) then 1 else 0
  | _ => INVALID_ARGUMENT
  end.
(** The counter that goes up, given the answer. *)
Definition spec_counter (c : Call) (st : Z) : option nat :=
  match c with
  | Deliver _ => if st =? 1 then Some 3%nat else Some 4%nat
  | DefaultAction _ => if st =? OK then None else Some 5%nat
  | Install _ _ => if st =? OK then Some 0%nat else Some 5%nat
  | Enable _ => if st =? OK then Some 1%nat else Some 5%nat
  | Disable _ => if st =? OK then Some 2%nat else Some 5%nat
  end.
(** The handler calls that a call makes. *)
Definition spec_calls (c : Call) (a : Spec) : list (Z * Z * Z) :=
  match c, installed a with
  | Deliver kind, Some (h, d) => if bool_decide (kind ∈ wanted a) then [(h, kind, d)] else []
  | _, _ => []
  end.

Lemma wants_testbit bits kind : 0 <= kind -> wants bits kind = Z.testbit bits kind.
Proof.
  intros Hk. unfold wants, has. rewrite Z.shiftl_1_l. destruct (Z.testbit bits kind) eqn:E.
  - apply negb_true_iff, Z.eqb_neq. intros Hz. apply (f_equal (fun z => Z.testbit z kind)) in Hz.
    rewrite Z.land_spec, E, Z.pow2_bits_true, Z.bits_0 in Hz by done. done.
  - apply negb_false_iff, Z.eqb_eq, Z.bits_inj'. intros n Hn. rewrite Z.land_spec, Z.bits_0, Z.pow2_bits_eqb by done.
    destruct (Z.eqb_spec kind n) as [-> |]; [by rewrite E |]. apply andb_false_r.
Qed.
Lemma wants_set bits kind k : 0 <= kind -> 0 <= k -> wants (Z.lor bits (Z.shiftl 1 kind)) k = wants bits k || (k =? kind).
Proof.
  intros. rewrite !wants_testbit by done. rewrite Z.shiftl_1_l, Z.lor_spec, Z.pow2_bits_eqb by done. by rewrite (Z.eqb_sym kind k).
Qed.
Lemma wants_clear bits kind k : 0 <= kind -> 0 <= k -> wants (Z.land bits (Z.lnot (Z.shiftl 1 kind))) k = wants bits k && negb (k =? kind).
Proof.
  intros. rewrite !wants_testbit by done. rewrite Z.shiftl_1_l, Z.land_spec, Z.lnot_spec, Z.pow2_bits_eqb by done. by rewrite (Z.eqb_sym kind k).
Qed.
Lemma valid_nonneg kind : valid kind = true -> 0 <= kind.
Proof. unfold valid, INTERRUPT. lia. Qed.
Lemma ask_port_frame op s s' st : ask_port op s = (s', st) ->
  state s' = state s /\ handler s' = handler s /\ data s' = data s /\ enabled_bits s' = enabled_bits s /\ calls s' = calls s.
Proof. unfold ask_port. destruct (op (provider s)). by intros [= <- <-]. Qed.
(** [refines] reads only these fields. *)
Lemma refines_frame s s' a : state s' = state s -> handler s' = handler s -> data s' = data s ->
  (forall k, 0 <= k -> wants (enabled_bits s') k = wants (enabled_bits s) k) -> refines s a -> refines s' a.
Proof.
  intros H1 H2 H3 H4 (Ha & Hb & Hc). unfold refines. rewrite H1, H2, H3. split; [done |]. split; [| done]. intros k Hk. rewrite H4 by done. by apply Hb.
Qed.
Lemma install_refines h d s a s' st : refines s a -> install h d s = (s', st) ->
  refines s' (spec_call (Install h d) st a) /\ calls s' = calls s.
Proof.
  intros Hr. unfold install. destruct h as [h |]; [| by intros [= <- <-]].
  destruct (Z.eqb_spec (state s) 0) as [Hs |]; [| by intros [= <- <-]]. simpl negb. cbn iota zeta.
  destruct (ask_port _ _) as [s1 st1] eqn:Hask. apply ask_port_frame in Hask as (H1 & H2 & H3 & H4 & H5). simpl in *.
  destruct Hr as (Ha & Hb & Hc). destruct (installed a) as [[h0 d0] |] eqn:Hi; [destruct Ha as (? & _); congruence |].
  destruct (Z.eqb_spec st1 OK) as [-> | Hne]; simpl negb; cbn iota; intros [= <- <-].
  - split; [| done]. unfold refines. simpl. rewrite H2, H3, H4. done.
  - split; [| done]. simpl. apply Z.eqb_neq in Hne. rewrite Hne. unfold refines. rewrite Hi. simpl. rewrite H4. naive_solver.
Qed.
Lemma enable_refines kind s a s' st : refines s a -> enable kind s = (s', st) -> refines s' (spec_call (Enable kind) st a) /\ calls s' = calls s.
Proof.
  intros Hr. unfold enable. destruct (valid kind) eqn:Hv; [| by intros [= <- <-]].
  destruct (Z.eqb_spec (state s) 2) as [Hs |]; [| by intros [= <- <-]]. simpl negb. simpl orb. cbn iota zeta.
  destruct (ask_port _ _) as [s1 st1] eqn:Hask. apply ask_port_frame in Hask as (H1 & H2 & H3 & H4 & H5). simpl in *.
  pose proof (valid_nonneg _ Hv) as Hk. destruct (Z.eqb_spec st1 OK) as [-> | Hne].
  - intros [= <- <-]. simpl. split; [| done]. destruct Hr as (Ha & Hb & Hc). unfold refines. simpl. rewrite H1, H2, H3, H4.
    split; [destruct (installed a) as [[h0 d0] |]; [done | destruct Ha; congruence] |]. split; [| set_solver].
    intros k Hk0. rewrite wants_set, Hb by done. destruct (Z.eqb_spec k kind); repeat case_bool_decide; set_solver.
  - intros [= <- <-]. simpl. apply Z.eqb_neq in Hne. rewrite Hne. split; [| by destruct (wants _ _)].
    destruct (wants (enabled_bits s) kind) eqn:Hw; (eapply refines_frame; [.. | exact Hr]; simpl; try congruence); intros k Hk0; rewrite H4.
    + rewrite wants_set by done. destruct (Z.eqb_spec k kind) as [-> |]; [rewrite Hw; done | apply orb_false_r].
    + rewrite wants_clear, wants_set by done. destruct (Z.eqb_spec k kind) as [-> |]; [rewrite Hw; done |]. by rewrite orb_false_r, andb_true_r.
Qed.
Lemma disable_refines kind s a s' st : refines s a -> disable kind s = (s', st) -> refines s' (spec_call (Disable kind) st a) /\ calls s' = calls s.
Proof.
  intros Hr. unfold disable, spec_call. destruct (valid kind) eqn:Hv; [| by intros [= <- <-]].
  pose proof Hr as (Ha & Hb & Hc). destruct (Z.eqb_spec (state s) 2) as [Hs | Hs]; simpl negb; simpl orb; cbn iota zeta.
  - destruct (ask_port _ _) as [s1 st1] eqn:Hask. apply ask_port_frame in Hask as (H1 & H2 & H3 & H4 & H5). simpl in *.
    pose proof (valid_nonneg _ Hv) as Hk. intros [= <- <-]. destruct (installed a) as [[h0 d0] |] eqn:Hi; [| destruct Ha; congruence].
    rewrite bool_decide_eq_true_2 by eauto. simpl. split; [| done]. unfold refines. simpl. rewrite H1, H2, H3, H4. split; [done |]. split; [| set_solver].
    intros k Hk0. rewrite wants_clear, Hb by done. destruct (Z.eqb_spec k kind); repeat case_bool_decide; set_solver.
  - intros [= <- <-]. destruct (installed a) as [[h0 d0] |]; [by destruct Ha |]. rewrite bool_decide_eq_false_2 by by intros [? ?]. done.
Qed.
Lemma deliver_refines kind s a s' b : refines s a -> deliver kind s = (s', b) -> refines s' a /\ calls s' = calls s ++ spec_calls (Deliver kind) a.
Proof.
  intros Hr. pose proof Hr as (Ha & Hb & Hc). unfold deliver, spec_calls, enabled. destruct (installed a) as [[h d] |] eqn:Hi.
  - destruct Ha as (Hs & Hh & Hd). rewrite Hh. case_bool_decide as Hw.
    + pose proof (Hc _ Hw) as Hv. rewrite Hv, Hb, bool_decide_eq_true_2 by (done || by apply valid_nonneg). simpl.
      intros [= <- <-]. simpl. rewrite Hd. split; [| done]. by eapply refines_frame; [.. | exact Hr].
    + replace (valid kind && wants (enabled_bits s) kind) with false.
      * intros [= <- <-]. by rewrite app_nil_r.
      * destruct (valid kind) eqn:Hv; [| done]. simpl. by rewrite Hb, bool_decide_eq_false_2 by (done || by apply valid_nonneg).
  - destruct Ha as (Hs & -> & Hw). intros [= <- <-]. by rewrite app_nil_r.
Qed.

(** Which calls reach the port, what they answer and what they count, from the specification alone. *)
Definition answered (c : Call) s (a : Spec) s' (st : Z) : Prop :=
  (provider s', st) = match spec_asks c a with
    | Some op => ((op (provider s)).1, fold (status (op (provider s)).2))
    | None => (provider s, spec_status c a)
    end /\
  (forall i, counts s' i = if decide (spec_counter c st = Some i) then increment (counts s i) else counts s i).
Lemma ask_port_answer op s s' st : ask_port op s = (s', st) ->
  (provider s', st) = ((op (provider s)).1, fold (status (op (provider s)).2)) /\ counts s' = counts s.
Proof. unfold ask_port. destruct (op (provider s)). by intros [= <- <-]. Qed.
Lemma bumped i j s : counts (bump i s) j = if decide (Some i = Some j) then increment (counts s j) else counts s j.
Proof. simpl. repeat case_decide; congruence. Qed.
(** A call that ends in a refusal, and one that ends as the port answered. *)
Lemma refused_answered c s a st i : spec_asks c a = None -> spec_status c a = st -> spec_counter c st = Some i -> answered c s a (bump i s) st.
Proof. intros Hn Hs Hc. unfold answered. rewrite Hn, Hs, Hc. split; [done |]. intros j. apply bumped. Qed.
Lemma asked_answered c s a op s0 s1 s' st : spec_asks c a = Some op -> provider s0 = provider s -> counts s0 = counts s ->
  ask_port op s0 = (s1, st) -> provider s' = provider s1 ->
  counts s' = counts (match spec_counter c st with Some i => bump i s1 | None => s1 end) -> answered c s a s' st.
Proof.
  intros Hop Hp Hn Hask Hp' Hn'. apply ask_port_answer in Hask as [He Hc]. unfold answered. rewrite Hop, Hp', <- Hp. split; [exact He |].
  intros i. rewrite Hn', <- Hn, <- Hc. destruct (spec_counter c st); [apply bumped | done].
Qed.
Lemma call_answered c s a s' st : refines s a -> call c s = (s', st) -> answered c s a s' st.
Proof.
  intros (Ha & Hb & Hc). assert ((state s =? 2) = bool_decide (is_Some (installed a)) /\ (state s =? 0) = negb (bool_decide (is_Some (installed a)))) as [H2 H0'].
  { destruct (installed a) as [[h d] |]; [rewrite bool_decide_eq_true_2 by eauto | rewrite bool_decide_eq_false_2 by by intros [? ?]]; by destruct Ha as (-> & _). }
  destruct c as [h d | kind | kind | kind | kind]; simpl call.
  - unfold install. destruct h as [h |]; [| intros [= <- <-]; by apply refused_answered]. rewrite H0'.
    destruct (installed a) as [hd |] eqn:Hi; simpl; [intros [= <- <-]; apply refused_answered; simpl; by rewrite ?Hi |].
    destruct (ask_port _ _) as [s1 st1] eqn:Hask. destruct (Z.eqb_spec st1 OK) as [-> | Hne]; simpl; intros [= <- <-];
      (eapply asked_answered; [simpl; by rewrite Hi | | | exact Hask | done |]; [done | done |]); [done |].
    simpl. apply Z.eqb_neq in Hne. by rewrite Hne.
  - unfold enable. rewrite H2. destruct (installed a) as [hd |] eqn:Hi; destruct (valid kind) eqn:Hv; simpl;
      try (intros [= <- <-]; apply refused_answered; simpl; by rewrite ?Hi, ?Hv).
    destruct (ask_port _ _) as [s1 st1] eqn:Hask. destruct (Z.eqb_spec st1 OK) as [-> | Hne]; simpl; intros [= <- <-];
      (eapply asked_answered; [simpl; by rewrite Hi, Hv | | | exact Hask | by repeat case_match |]; [done | done |]); [done |].
    simpl. apply Z.eqb_neq in Hne. rewrite Hne. by destruct (wants _ _).
  - unfold disable. rewrite H2. destruct (installed a) as [hd |] eqn:Hi; destruct (valid kind) eqn:Hv; simpl;
      try (intros [= <- <-]; apply refused_answered; simpl; by rewrite ?Hi, ?Hv).
    destruct (ask_port _ _) as [s1 st1] eqn:Hask. intros [= <- <-].
    eapply asked_answered; [simpl; by rewrite Hi, Hv | | | exact Hask | done |]; [done | done |]. simpl. by destruct (st1 =? OK).
  - unfold default_action. destruct (valid kind) eqn:Hv; simpl.
    + destruct (ask_port _ _) as [s1 st1] eqn:Hask. intros [= <- <-].
      eapply asked_answered; [simpl; rewrite Hv; by destruct (installed a) | | | exact Hask | by destruct (st1 =? OK) |]; [done | done |]. simpl. by destruct (st1 =? OK).
    + intros [= <- <-]. apply refused_answered; simpl; rewrite ?Hv; by destruct (installed a).
  - unfold deliver. destruct (handler s) as [h |] eqn:Hh.
    + assert (enabled kind s = bool_decide (kind ∈ wanted a)) as ->.
      { unfold enabled. destruct (valid kind) eqn:Hv; simpl; [apply Hb; by apply valid_nonneg |]. symmetry. apply bool_decide_eq_false_2. intros Hx%Hc. congruence. }
      destruct (decide (kind ∈ wanted a)) as [Hw | Hw]; [rewrite bool_decide_eq_true_2 by done | rewrite bool_decide_eq_false_2 by done]; simpl; intros [= <- <-].
      * split; [simpl; destruct (installed a); by rewrite bool_decide_eq_true_2 |]. intros i. apply (bumped 3 i s).
      * apply refused_answered; simpl; [by destruct (installed a) | by rewrite bool_decide_eq_false_2 | done].
    + intros [= <- <-]. destruct (installed a) as [[h d] |] eqn:Hi; [destruct Ha as (_ & Hx & _); congruence |]. destruct Ha as (_ & _ & Hw).
      apply refused_answered; simpl; [by rewrite ?Hi | rewrite Hw; by rewrite bool_decide_eq_false_2 by set_solver | done].
Qed.

Lemma start_refines p : refines (start p) (mkSpec None ∅).
Proof. split; [done |]. split; [| set_solver]. intros k Hk. rewrite wants_testbit by done. simpl. by rewrite Z.bits_0. Qed.
End Hub.

(** A provider that grants everything. *)
#[local] Instance quiet : NotificationsPort unit :=
  {| notifications_PROVIDED := true; no_start := ret tt; no_enable _ := ret tt; no_disable _ := ret tt; no_default_action _ := ret tt |}.
#[local] Existing Instance arch64.
