(* ===== verification/Adapters.v ===== *)
(** * Adapters.v: the signal contexts and the WASI transport

    [src/src/context.rs] hands signal registration to a raw C table of the port, whose functions answer status words of
    their own; [src/src/wasi.rs] and [wasi_schema.rs] check the arguments of a WASI call against the schema and send it as
    one request through the single host import. *)
From S2P Require Import Prelude Port Counter Boundary Tree Front Group Console Machine.
Local Open Scope Z_scope.
Local Open Scope pal_scope.

(** ** Signal contexts *)
(** [context::Ops] of the port.  [current_thread] and [process_id_async] write through a pointer: they answer the status
    and the value. *)
Record ContextOps (S : Type) := mkContextOps {
  co_abi_tag : option Z; co_action_size : option Z; co_action_alignment : option Z;
  co_install : option (Z -> Z -> Z -> Z -> Z -> S -> S * Z); co_restore : option (Z -> Z -> Z -> S -> S * Z);
  co_unblock_activation : option (S -> S * Z); co_request_activation : option (Z -> S -> S * Z);
  co_current_thread : option (S -> S * (Z * Z)); co_process_id_async : option (S -> S * (Z * Z));
  co_ignore_broken_pipe : option (S -> S * Z); co_signal_number : option (Z -> Z) }.
Arguments mkContextOps {S} _ _ _ _ _ _ _ _ _ _ _.
Arguments co_abi_tag {S} _.
Arguments co_action_size {S} _.
Arguments co_action_alignment {S} _.
Arguments co_install {S} _.
Arguments co_restore {S} _.
Arguments co_unblock_activation {S} _.
Arguments co_request_activation {S} _.
Arguments co_current_thread {S} _.
Arguments co_process_id_async {S} _.
Arguments co_ignore_broken_pipe {S} _.
Arguments co_signal_number {S} _.
Class SignalContext (S : Type) := { context_PROVIDED : bool; cx_ops : option (ContextOps S) }.
Inductive ContextCall :=
| CxInstall (kind callback data previous size : Z) | CxRestore (kind previous size : Z) | CxUnblockActivation
| CxRequestActivation (token : Z) | CxCurrentThread (out : Z).
Definition CONTEXT_CAP : Z := 131072.

Section Context.
Context `{Arch} {S : Type} {Cx : SignalContext S}.
Implicit Types (g : Group S).

Definition context_keeps (index : nat) (status : Z) : bool := kept [OK; UNSUPPORTED; INVALID_ARGUMENT; OS_ERROR; 6; 8] status.
Definition signal_number (kind : Z) : Z :=
  if 4 <? kind then -1 else default (-1) (f ← cx_ops ≫= co_signal_number; Some (f kind)).
Definition abi_tag : Z := default 0 (cx_ops ≫= co_abi_tag).
Definition action_size : Z := default 0 (cx_ops ≫= co_action_size).
Definition action_alignment : Z := default 0 (cx_ops ≫= co_action_alignment).
Definition valid_action (value size : Z) : bool :=
  negb (value =? 0) && (size =? action_size) && negb (size =? 0) && is_power_of_two action_alignment
  && (value mod action_alignment =? 0) && fits value size.
(** [let Some(call) = C::ops().and_then(..) else { return record(UNSUPPORTED, index) }], then the raw call. *)
Definition raw (call : option (S -> S * Z)) g : Group S * Z :=
  match call with
  | None => (g, UNSUPPORTED)
  | Some call => let '(p, status) := call (g_provider g) in (mkGroup (g_counts g) (g_cells g) p, status)
  end.
Definition context_install (kind callback data previous size : Z) : Query S :=
  mkQuery 0 false [] [] (refuse ((4 <? kind) || (callback =? 0) || negb (valid_action previous size)) (
    raw (call ← cx_ops ≫= co_install; Some (call kind callback data previous size)))).
Definition context_restore (kind previous size : Z) : Query S :=
  mkQuery 1 false [] [] (refuse ((4 <? kind) || negb (valid_action previous size)) (
    raw (call ← cx_ops ≫= co_restore; Some (call kind previous size)))).
Definition context_unblock_activation : Query S := mkQuery 3 false [] [] (raw (cx_ops ≫= co_unblock_activation)).
Definition context_request_activation (token : Z) : Query S :=
  mkQuery 2 false [] [] (refuse (token =? 0) (raw (call ← cx_ops ≫= co_request_activation; Some (call token)))).
Definition current_thread_act (out : Z) g : Group S * Z :=
  match cx_ops ≫= co_current_thread with
  | None => (g, UNSUPPORTED)
  | Some call =>
      let '(p, (status, value)) := call (g_provider g) in
      let g := mkGroup (g_counts g) (g_cells g) p in
      if status =? OK then if value =? 0 then (g, OS_ERROR) else (g_put out [value] g, status) else (g, status)
  end.
Definition context_current_thread (out : Z) : Query S :=
  mkQuery 4 (negb (aligned_output align_of_usize out)) [(out, [0])] [] (current_thread_act out).
(** These two are used inside a signal handler and count nothing. *)
Definition process_id_async (out : Z) g : Group S * Z :=
  if negb (aligned_output align_of_u64 out) then (g, INVALID_ARGUMENT) else
  let g := g_put out [0] g in
  match cx_ops ≫= co_process_id_async with
  | None => (g, UNSUPPORTED)
  | Some call =>
      let '(p, (status, value)) := call (g_provider g) in
      let g := mkGroup (g_counts g) (g_cells g) p in
      if negb (status =? OK) || (value =? 0) then (g, OS_ERROR) else (g_put out [value] g, OK)
  end.
Definition ignore_broken_pipe g : Group S * Z :=
  match cx_ops ≫= co_ignore_broken_pipe with
  | None => (g, UNSUPPORTED)
  | Some call =>
      let '(p, status) := call (g_provider g) in
      (mkGroup (g_counts g) (g_cells g) p, if status =? OK then OK else OS_ERROR)
  end.
Definition context_query (c : ContextCall) : Query S :=
  match c with
  | CxInstall kind callback data previous size => context_install kind callback data previous size
  | CxRestore kind previous size => context_restore kind previous size
  | CxUnblockActivation => context_unblock_activation | CxRequestActivation token => context_request_activation token
  | CxCurrentThread out => context_current_thread out
  end.
Definition context_read_stats : Z -> Z -> Group S -> Group S * Z := group_read_stats 6.

Lemma settled_raw tol data call : settled tol [] data (raw call).
Proof.
  apply settled_nil. intros g g' st. unfold raw. destruct call as [call |]; [| by intros [= <- _]].
  destruct (call _) as [p status]. by intros [= <- _].
Qed.
Lemma settled_current_thread out : settled false [(out, [0])] [] (current_thread_act out).
Proof.
  apply off_settled. intros g g' st. unfold current_thread_act. destruct (_ ≫= _) as [call |]; [| intros [= <- <-]; left; apply off_refl].
  destruct (call _) as [p [status value]]. cbn zeta. destruct (Z.eqb_spec status OK) as [-> |]; [| intros [= <- <-]; by left].
  destruct (_ =? _); intros [= <- <-]; [by left |]. right. split; [done | by left].
Qed.
#[local] Hint Resolve settled_raw settled_current_thread : acts.
#[export] Instance context_group : ServiceGroup S ContextCall.
Proof. refine (query_group context_query context_keeps 5 (fun _ => false) _ _ _ _); [settle | by intros [] | done | done]. Defined.
(** A context that is provided without its table rejects the negotiation. *)
Definition context_negotiate : option (Z * Ops ContextCall (Query S) (ReadStats S)) :=
  if negb context_PROVIDED then Some (0, EMPTY context_read_stats) else
  match cx_ops with None => None | Some _ => Some (CONTEXT_CAP, every context_query context_read_stats) end.
(** The callbacks that are not queries. *)
Record ContextPlain := mkContextPlain {
  cp_abi_tag : option Z; cp_action_size : option Z; cp_action_alignment : option Z; cp_signal_number : option (Z -> Z);
  cp_process_id_async : option (Z -> Group S -> Group S * Z); cp_ignore_broken_pipe : option (Group S -> Group S * Z) }.
Definition context_plain : ContextPlain :=
  if negb context_PROVIDED then mkContextPlain None None None None None None else
  mkContextPlain (Some abi_tag) (Some action_size) (Some action_alignment) (Some signal_number) (Some process_id_async) (Some ignore_broken_pipe).
End Context.

(** ** The WASI transport *)
Definition OP_COUNT : Z := 45.
Definition ARG_COUNTS : list Z :=
  [2;2;2;2;2;3;4;3;1;1;2;2;3;2;2;4;5;2;3;5;4;5;2;4;1;2;4;3;5;7;7;9;6;3;6;5;3;4;1;0;2;3;6;5;2].
Definition WIDE_MASKS : list Z :=
  [0;0;0;0;0;2;6;6;0;0;0;0;6;0;2;6;8;0;0;8;0;8;0;2;0;0;0;0;0;48;0;96;0;0;0;0;0;0;0;0;0;0;0;0;0].
Record WireRequest := mkWireRequest { rq_version : Z; rq_size : Z; rq_opcode : Z; rq_argc : Z; rq_args : list Z }.
Class WasiTransport (S : Type) := { wasi_PROVIDED : bool; wt_dispatch : WireRequest -> S -> S * Z }.
Definition WASI_CAP : Z := 65536.
Definition EINVAL : Z := 28.
Definition EIO : Z := 29.
(** [COUNTERS], [REJECTED], [ERRORS] and the provider. *)
Record Wasi (S : Type) := mkWasi { w_counts : Z -> Z; w_rejected : Z; w_errors : Z; w_provider : S }.
Arguments mkWasi {S} _ _ _ _.
Arguments w_counts {S} _ _.
Arguments w_rejected {S} _.
Arguments w_errors {S} _.
Arguments w_provider {S} _.

Section Wasi.
Context `{Arch} {S : Type} {Wt : WasiTransport S}.
Implicit Types (w : Wasi S) (values : list Z).

Definition arg_count (opcode : Z) : Z := at_ ARG_COUNTS (Z.to_nat opcode).
Definition wide (opcode : Z) (i : nat) : bool := has (at_ WIDE_MASKS (Z.to_nat opcode)) (Z.shiftl 1 (Z.of_nat i)).
(** The copying loop: argument [i] of [argc], stopped by a narrow argument that does not fit 32 bits. *)
Fixpoint wasi_copy (opcode : Z) (n i : nat) values (args : list Z) : option (list Z) :=
  match n with
  | O => Some args
  | Datatypes.S n =>
      let value := at_ values i in
      if negb (wide opcode i) && (u32_max <? value) then None
      else wasi_copy opcode n (Datatypes.S i) values (<[i := value]> args)
  end.
Definition wasi_reject w : Wasi S * Z := (mkWasi (w_counts w) (increment (w_rejected w)) (w_errors w) (w_provider w), EINVAL).
(** [values] are the words that lie at [args]. *)
Definition wasi_invoke (opcode args : Z) values (argc : Z) w : Wasi S * Z :=
  if (OP_COUNT <=? opcode) || negb (argc =? arg_count opcode)
     || (negb (argc =? 0) && (negb (aligned_output align_of_u64 args) || negb (fits args (argc * 8))))
  then wasi_reject w else
  match wasi_copy opcode (Z.to_nat argc) 0 values (zeros 9) with
  | None => wasi_reject w
  | Some words =>
      let w := mkWasi (fun op => if op =? opcode then increment (w_counts w op) else w_counts w op) (w_rejected w) (w_errors w) (w_provider w) in
      let '(p, status) := wt_dispatch (mkWireRequest 1 88 opcode argc words) (w_provider w) in
      let status := if status <=? 76 then status else EIO in
      (mkWasi (w_counts w) (w_rejected w) (if status =? 0 then w_errors w else increment (w_errors w)) p, status)
  end.
Definition wasi_count (op : Z) w : Z := if op <? OP_COUNT then load (w_counts w op) else 0.
(** [stats] without its argument checks: calls, rejected, host errors. *)
Definition wasi_stats w : list Z :=
  [foldl (fun n op => saturating_add u64_max n (load (w_counts w (Z.of_nat op)))) 0 (seq 0 45); load (w_rejected w); load (w_errors w)].
Definition wasi_read_stats (out size : Z) w : option (list Z) * Z :=
  if negb (aligned_output align_of_u64 out) || (size <? 24) then (None, INVALID_ARGUMENT) else (Some (wasi_stats w), OK).
(** Here [EMPTY] has no [read_stats] either. *)
Record WasiOps := mkWasiOps {
  wo_invoke : option (Z -> Z -> list Z -> Z -> Wasi S -> Wasi S * Z); wo_call_count : option (Z -> Wasi S -> Z);
  wo_read_stats : option (Z -> Z -> Wasi S -> option (list Z) * Z) }.
Definition wasi_negotiate : Z * WasiOps :=
  if negb wasi_PROVIDED then (0, mkWasiOps None None None) else (WASI_CAP, mkWasiOps (Some wasi_invoke) (Some wasi_count) (Some wasi_read_stats)).

(** The argument fits its width in the schema. *)
Definition narrow_ok (opcode : Z) values (i : nat) : Prop := wide opcode i = true \/ at_ values i <= u32_max.
Lemma wasi_copy_spec opcode values n i args : (i + n <= length args)%nat ->
  match wasi_copy opcode n i values args with
  | Some out => (forall k, (i <= k < i + n)%nat -> narrow_ok opcode values k) /\
      out = take i args ++ (at_ values <$> seq i n) ++ drop (i + n) args
  | None => exists k, (i <= k < i + n)%nat /\ ~ narrow_ok opcode values k
  end.
Proof.
  revert i args. induction n as [| n IH]; intros i args Hlen; cbn [wasi_copy].
  - split; [lia |]. simpl. rewrite Nat.add_0_r. by rewrite take_drop.
  - destruct (wide opcode i) eqn:Hw; simpl andb; [| destruct (Z.ltb_spec u32_max (at_ values i)) as [Hv |]].
    2: { exists i. split; [lia |]. intros [? | ?]; [congruence | lia]. }
    all: specialize (IH (Datatypes.S i) (<[i := at_ values i]> args)); rewrite length_insert in IH;
      specialize (IH ltac:(lia)); cbn iota; destruct (wasi_copy _ _ _ _ _) as [out |].
    all: try (destruct IH as (k & Hk & Hn); exists k; split; [lia | done]).
    all: destruct IH as [Hok ->]; split.
    all: try (intros k Hk; destruct (decide (k = i)) as [-> |]; [by (left + right) | apply Hok; lia]).
    all: rewrite drop_insert_lt by lia; rewrite (take_S_r _ _ (at_ values i)) by (apply list_lookup_insert_eq; lia);
      rewrite take_insert_ge by lia; rewrite <- app_assoc; replace (Datatypes.S i + n)%nat with (i + Datatypes.S n)%nat by lia; reflexivity.
Qed.
Lemma arg_count_bound opcode : 0 <= arg_count opcode <= 9.
Proof.
  unfold arg_count, at_. destruct (ARG_COUNTS !! Z.to_nat opcode) as [v |] eqn:E; simpl; [| lia].
  assert (Forall (fun v => 0 <= v <= 9) ARG_COUNTS) as Hf by (unfold ARG_COUNTS; repeat constructor; lia).
  by eapply (Forall_lookup_1 _ _ _ _ Hf).
Qed.

Lemma fits_spec a n : fits a n = true <-> a + n <= usize_max.
Proof.
  unfold fits. destruct (checked_add _ _ _) eqn:E; [apply checked_add_Some in E | apply checked_add_None in E]; split; try done; lia.
Qed.
Lemma at_seq values n : length values = n -> at_ values <$> seq 0 n = values.
Proof.
  intros <-. apply list_eq. intros i. rewrite list_lookup_fmap. destruct (decide (i < length values)%nat).
  - rewrite lookup_seq_lt by done. simpl. unfold at_. by destruct (lookup_lt_is_Some_2 values i) as [v ->].
  - rewrite lookup_seq_ge, lookup_ge_None_2 by lia. done.
Qed.
Lemma drop_zeros n m : 0 <= n -> drop (Z.to_nat n) (zeros m) = zeros (m - n).
Proof. intros. unfold zeros. rewrite drop_replicate. f_equal. lia. Qed.

(** What the schema admits. *)
Definition admitted (opcode args : Z) values (argc : Z) : Prop :=
  opcode < OP_COUNT /\ argc = arg_count opcode /\ (argc = 0 \/ (aligned_output align_of_u64 args = true /\ args + argc * 8 <= usize_max)) /\
  forall i, (i < Z.to_nat argc)%nat -> narrow_ok opcode values i.

(** A WASI call reaches the host exactly when the schema admits it, as the request of that operation with its
    arguments and zeros behind them, and is counted once for its operation; its status is the host's, with an unknown
    one turned into [EIO], and is counted as an error unless it is zero.  Any other call is rejected with [EINVAL] and the
    host never sees it. *)
Theorem wasi_invoke_exact (opcode args : Z) values (argc : Z) w : 0 <= argc -> lenZ values = argc ->
  (admitted opcode args values argc ->
     let '(p, status) := wt_dispatch (mkWireRequest 1 88 opcode argc (values ++ zeros (9 - argc))) (w_provider w) in
     let st := if status <=? 76 then status else EIO in
     wasi_invoke opcode args values argc w =
       (mkWasi (fun op => if op =? opcode then increment (w_counts w op) else w_counts w op) (w_rejected w)
          (if st =? 0 then w_errors w else increment (w_errors w)) p, st)) /\
  (~ admitted opcode args values argc ->
     wasi_invoke opcode args values argc w = (mkWasi (w_counts w) (increment (w_rejected w)) (w_errors w) (w_provider w), EINVAL)).
Proof.
  intros Hz Hlen. pose proof (arg_count_bound opcode) as Hb. unfold wasi_invoke, admitted.
  destruct (Z.leb_spec OP_COUNT opcode); [split; [lia | done] |]. destruct (Z.eqb_spec argc (arg_count opcode)) as [Hc |]; [| split; [tauto | done]].
  simpl orb. pose proof (fits_spec args (argc * 8)) as Hf.
  destruct (negb (argc =? 0) && (negb (aligned_output align_of_u64 args) || negb (fits args (argc * 8)))) eqn:Hp; cbn iota.
  { split; [| done]. intros (_ & _ & Hor & _). exfalso. apply andb_true_iff in Hp as [Hne Hp]. destruct Hor as [-> | [Ha Hu]]; [done |].
    rewrite Ha in Hp. destruct (fits args (argc * 8)); [done |]. apply Hf in Hu. done. }
  assert (argc = 0 \/ (aligned_output align_of_u64 args = true /\ args + argc * 8 <= usize_max)) as Hor.
  { destruct (Z.eqb_spec argc 0); [by left | right]. simpl in Hp. apply orb_false_iff in Hp as [?%negb_false_iff ?%negb_false_iff]. tauto. }
  pose proof (wasi_copy_spec opcode values (Z.to_nat argc) 0 (zeros 9)) as Hcopy. change (length (zeros 9)) with 9%nat in Hcopy.
  specialize (Hcopy ltac:(lia)). destruct (wasi_copy _ _ _ _ _) as [words |].
  - destruct Hcopy as [Hok ->]. split; [| intros Hn; exfalso; apply Hn; split_and!; try done; intros i Hi; apply Hok; lia]. intros _.
    rewrite (at_seq values) by (unfold lenZ in Hlen; lia). simpl take. simpl app. rewrite drop_zeros by lia.
    by destruct (wt_dispatch _ _) as [p status].
  - destruct Hcopy as (k & Hk & Hn). split; [| done]. intros (_ & _ & _ & Hok). exfalso. apply Hn, Hok. lia.
Qed.
End Wasi.
(** A host that accepts everything: reading a clock, and the same with too wide a clock id. *)
#[local] Instance wasi_host : WasiTransport (list WireRequest) := {| wasi_PROVIDED := true; wt_dispatch r s := (s ++ [r], 0) |}.
Lemma wasi_invoke_exact_witness :
  let w := mkWasi (fun _ => 0) 0 0 [] in
  (@wasi_invoke arch64 _ _ 5 64 [1; 2 ^ 40; 128] 3 w).2 = 0 /\ (@wasi_invoke arch64 _ _ 5 64 [2 ^ 40; 1; 128] 3 w).2 = EINVAL.
Proof.
  intros w. destruct (@wasi_invoke_exact arch64 _ _ 5 64 [1; 2 ^ 40; 128] 3 w ltac:(lia) eq_refl) as [Hyes _].
  destruct (@wasi_invoke_exact arch64 _ _ 5 64 [2 ^ 40; 1; 128] 3 w ltac:(lia) eq_refl) as [_ Hno]. split.
  - simpl in Hyes. rewrite Hyes; [done |]. split_and!; [done | done | right; vm_compute; done |]. intros i Hi.
    do 3 (destruct i as [| i]; [first [left; vm_compute; reflexivity | right; vm_compute; congruence] |]). simpl in Hi. lia.
  - rewrite Hno; [done |]. intros (_ & _ & _ & Hn). destruct (Hn 0%nat ltac:(simpl; lia)) as [Hw | Hw]; vm_compute in Hw; congruence.
Defined.
