(* ===== verification/Absent.v ===== *)
(** * Absent.v: the provider that provides nothing

    [Absent] of [src/src/port.rs], which stands for every capability that a port leaves out: no [PROVIDED], and
    [Unsupported] from each method.  The macro [absent!] writes it for one trait after the other. *)
From S2P Require Import Prelude Port Counter Boundary Content Queue Locks Tree MemFs Front FilesApi Group Console Machine Net Native Children Watching Faults Notifications Adapters.
Local Open Scope Z_scope.
Local Open Scope pal_scope.

Section Absent.
Context {S : Type}.
Definition unsupported {A} : M S Error A := fun s => (s, Err EUnsupported).
Definition absent_virtual_memory : VirtualMemory S := {|
  vm_PROVIDED := false; vm_page_size := 0; vm_reserve _ _ := unsupported; vm_commit _ _ := unsupported;
  vm_decommit _ _ := unsupported; vm_release _ _ := unsupported; vm_reset _ _ := unsupported |}.
Definition absent_linear_storage : LinearStorage S := {|
  linear_PROVIDED := false; linear_DYNAMIC := false; GRANULARITY := 0; CAPACITY := 0;
  linear_allocate _ _ := unsupported; linear_zero _ _ := unsupported; linear_release _ _ := unsupported |}.
Definition absent_clock : Clock S := {|
  clock_PROVIDED := false; cl_monotonic_ns := unsupported |}.
Definition absent_scheduler : Scheduler S := {|
  scheduler_PROVIDED := false; sc_sleep_ns _ := unsupported; sc_yield_now := unsupported |}.
Definition absent_kernel : Kernel S := {|
  events_PROVIDED := false; mutexes_PROVIDED := false; threads_PROVIDED := false; tls_PROVIDED := false;
  stack_PROVIDED := false; barrier_PROVIDED := false; barrier_available := false; ev_create _ _ := unsupported;
  ev_destroy _ := unsupported; ev_set _ := unsupported; ev_reset _ := unsupported; ev_wait _ _ := unsupported;
  mu_create _ := unsupported; mu_destroy _ := unsupported; mu_lock _ := unsupported; mu_unlock _ := unsupported;
  th_create _ _ _ := unsupported; th_join _ := unsupported; th_detach _ := unsupported; tl_create _ := unsupported;
  tl_destroy _ := unsupported; tl_get _ := unsupported; tl_set _ _ := unsupported; sb_current := unsupported;
  pb_barrier := unsupported |}.
Definition absent_runtime : Runtime S := {|
  environment_PROVIDED := false; identity_PROVIDED := false; realtime_PROVIDED := false; entropy_PROVIDED := false;
  mapping_PROVIDED := false; modules_PROVIDED := false; en_get _ _ := unsupported; id_process_id := unsupported;
  id_thread_id := unsupported; rt_realtime_ns := unsupported; et_fill _ s := (s, (Err EUnsupported, []));
  nm_page_size := 0; nm_allocate _ _ := unsupported; nm_release _ _ := unsupported; nm_protect _ _ _ := unsupported;
  mo_open _ := unsupported; mo_symbol _ _ := unsupported; mo_close _ := unsupported; mo_info _ := unsupported |}.
Definition absent_support : Support S := {|
  heap_PROVIDED := false; rwlock_PROVIDED := false; name_PROVIDED := false; diagnostics_PROVIDED := false;
  hp_allocate _ _ := unsupported; hp_resize _ _ := unsupported; hp_release _ := unsupported; rw_create := unsupported;
  rw_read _ := unsupported; rw_write _ := unsupported; rw_unlock _ := unsupported; rw_destroy _ := unsupported;
  tn_set _ := unsupported; di_write_stderr _ s := (s, Err (0, EUnsupported)) |}.
Definition absent_context : SignalContext S := {|
  context_PROVIDED := false; cx_ops := None |}.
Definition absent_wasi : WasiTransport S := {|
  wasi_PROVIDED := false; wt_dispatch _ s := (s, 52) |}.
Definition absent_topology : Topology S := {|
  topology_PROVIDED := false; to_cpu_max := unsupported; to_cpu_count := unsupported; to_current_cpu := unsupported;
  to_process_affinity _ := unsupported; to_set_thread_affinity _ := unsupported; to_physical_memory := unsupported;
  to_memory_limit := unsupported; to_virtual_limit := unsupported; to_cache_size := unsupported;
  to_cpu_features := unsupported; to_cache_level_size _ := unsupported; to_swap_memory := unsupported |}.
Definition absent_process : Process S := {|
  process_PROVIDED := false; pc_exit _ s := s; pc_debugger_present := unsupported; pc_crash_dump _ _ s := (s, (Err EUnsupported, [])) |}.
Definition absent_image : Image S := {|
  image_PROVIDED := false; im_unwind_info _ := unsupported; im_readable _ _ := unsupported;
  im_build_id _ _ := unsupported |}.
Definition absent_streams : Streams S := {|
  streams_PROVIDED := false; st_write _ _ := unsupported; st_read _ _ := unsupported; st_is_terminal _ := unsupported |}.
Definition absent_files : Files S := {|
  files_PROVIDED := false; f_read_left _ _ _ _ := []; f_directory_left _ _ _ := []; f_open _ _ _ := unsupported; f_close _ := unsupported; f_read_at _ _ _ := unsupported;
  f_write_at _ _ _ := unsupported; f_set_size _ _ := unsupported; f_flush _ := unsupported; f_status _ := unsupported;
  f_path_status _ _ := unsupported; f_remove _ := unsupported; f_rename _ _ := unsupported;
  f_create_directory _ _ := unsupported; f_remove_directory _ := unsupported; f_open_directory _ := unsupported;
  f_read_directory _ _ := unsupported; f_close_directory _ := unsupported; f_current_directory _ := unsupported;
  f_set_mode _ _ := unsupported; f_set_file_mode _ _ := unsupported; f_set_times _ _ _ _ := unsupported;
  f_set_file_times _ _ _ := unsupported; f_link _ _ := unsupported; f_symlink _ _ := unsupported;
  f_read_link _ _ := unsupported; f_real_path _ _ := unsupported; f_set_current_directory _ := unsupported;
  f_lock _ _ _ s := (s, Some (Err EUnsupported)); f_lock_range _ _ _ _ := unsupported |}.
Definition absent_sockets : Sockets S := {|
  sockets_PROVIDED := false; so_create _ _ := unsupported; so_close _ := unsupported; so_bind _ _ := unsupported;
  so_listen _ _ := unsupported; so_accept _ := unsupported; so_connect _ _ := unsupported;
  so_send _ _ _ := unsupported; so_receive _ _ _ := unsupported; so_shutdown _ _ := unsupported;
  so_local_address _ := unsupported; so_peer_address _ := unsupported; so_set_blocking _ _ := unsupported;
  so_get_option _ _ := unsupported; so_set_option _ _ _ := unsupported;
  so_poll _ _ _ s := (s, (Err EUnsupported, fun _ => 0)); so_wake _ := unsupported; so_resolve _ _ _ := unsupported;
  so_host_name _ := unsupported |}.
Definition absent_system : SystemInfo S := {|
  system_PROVIDED := false; sy_environment_entry _ _ := unsupported; sy_text _ _ := unsupported;
  sy_process_times := unsupported; sy_uptime_ns := unsupported; sy_user_ids := unsupported |}.
Definition absent_notifications : NotificationsPort S := {|
  notifications_PROVIDED := false; no_start := unsupported; no_enable _ := unsupported; no_disable _ := unsupported;
  no_default_action _ := unsupported |}.
Definition absent_processes : Processes S := {|
  processes_PROVIDED := false; ps_spawn _ _ := unsupported; ps_wait _ _ := unsupported;
  ps_terminate _ _ := unsupported; ps_release _ := unsupported; ps_pipe_read _ _ := unsupported;
  ps_pipe_write _ _ := unsupported; ps_pipe_close _ := unsupported |}.
Definition absent_terminal : Terminal S := {|
  terminal_PROVIDED := false; te_window_size _ := unsupported; te_set_input_mode _ _ _ _ := unsupported;
  te_input_ready := unsupported; te_control_character _ := unsupported |}.
Definition absent_watches : Watches S := {|
  watches_PROVIDED := false; wa_open := unsupported; wa_close _ := unsupported; wa_add _ _ _ := unsupported;
  wa_remove _ _ := unsupported; wa_read _ _ := unsupported |}.
Definition absent_mappings : Mappings S := {|
  mappings_PROVIDED := false; mp_map _ _ _ _ _ := unsupported; mp_unmap _ _ := unsupported;
  mp_sync _ _ := unsupported |}.
Definition absent_volumes : Volumes S := {|
  volumes_PROVIDED := false; vo_entry _ _ := unsupported; vo_status _ := unsupported |}.
Definition absent_network : Network S := {|
  network_PROVIDED := false; nw_interface_entry _ := unsupported; nw_address_entry _ := unsupported;
  nw_reverse_lookup _ _ := unsupported; nw_membership _ _ _ _ := unsupported |}.
Definition absent_local_sockets : LocalSockets S := {|
  local_PROVIDED := false; lo_bind _ _ := unsupported; lo_connect _ _ := unsupported; lo_address _ _ _ := unsupported;
  lo_peer_user _ := unsupported |}.
Definition absent_accounts : Accounts S := {|
  accounts_PROVIDED := false; ac_user_by_id _ := unsupported; ac_user_by_name _ := unsupported;
  ac_process_groups _ := unsupported; ac_user_groups _ _ _ := unsupported |}.
Definition absent_priority : Priority S := {|
  priority_PROVIDED := false; pr_get _ := unsupported; pr_set _ _ := unsupported |}.
Definition absent_packets : Packets S := {|
  packets_PROVIDED := false; pk_receive _ _ _ := unsupported |}.
Definition absent_spawn_as : SpawnAs S := {|
  spawn_as_PROVIDED := false; sa_spawn_as _ _ _ _ _ := unsupported |}.
End Absent.
