(* ===== verification/Negotiate.v ===== *)
(** * Negotiate.v: the table that the runtime gets, and how it gets it

    [src/src/lib.rs]: [build] collects the capability bits and the callbacks of every group for a port, or rejects the
    port; [negotiate] does so once for a [Slot], with any number of threads asking at the same time.  [PalPort] is the
    trait [Port] of [src/src/port.rs]: one provider per capability. *)
From S2P Require Import Prelude Port Counter Boundary Content Queue Locks Tree MemFs Front FilesApi Group Console Machine Net Native Children Watching Faults Notifications Adapters Absent.
Local Open Scope Z_scope.
Local Open Scope pal_scope.

Class PalPort (S : Type) := {
  #[global] port_vm :: VirtualMemory S; #[global] port_linear :: LinearStorage S; #[global] port_clock :: Clock S; #[global] port_scheduler :: Scheduler S;
  #[global] port_kernel :: Kernel S; #[global] port_runtime :: Runtime S; #[global] port_wasi :: WasiTransport S; #[global] port_context :: SignalContext S;
  #[global] port_support :: Support S; #[global] port_topology :: Topology S; #[global] port_process :: Process S; #[global] port_image :: Image S;
  #[global] port_streams :: Streams S; #[global] port_files :: Files S; #[global] port_sockets :: Sockets S; #[global] port_faults :: FaultsPort S;
  #[global] port_system :: SystemInfo S; #[global] port_notifications :: NotificationsPort S; #[global] port_processes :: Processes S;
  #[global] port_terminal :: Terminal S; #[global] port_watches :: Watches S; #[global] port_mappings :: Mappings S; #[global] port_volumes :: Volumes S;
  #[global] port_network :: Network S; #[global] port_local :: LocalSockets S; #[global] port_accounts :: Accounts S; #[global] port_priority :: Priority S;
  #[global] port_packets :: Packets S; #[global] port_spawn_as :: SpawnAs S;
  validate : bool;
}.

Definition ABI_VERSION : Z := 2.
Definition CAP_VM : Z := 1.
Definition CAP_LINEAR : Z := 2.
Definition CAP_DYNAMIC_LINEAR : Z := 262144.
Record Header := mkHeader { abi_version : Z; struct_size : Z; capabilities : Z }.

Section Build.
Context `{Arch} `{Frames} {S : Type} {P : PalPort S}.

(** [VmOps] and [LinearOps]: a callback or nothing. *)
Record VmOps := mkVmOps {
  vo_page_size : option Z; vo_reserve : option (Z -> Z -> Z -> Z -> Front S -> Front S * Z);
  vo_commit : option (Z -> Z -> Front S -> Front S * Z); vo_decommit : option (Z -> Z -> Front S -> Front S * Z);
  vo_release : option (Z -> Z -> Front S -> Front S * Z); vo_reset : option (Z -> Z -> Front S -> Front S * Z) }.
Record LinearOps := mkLinearOps {
  lo_granularity : option Z; lo_capacity : option Z; lo_allocate : option (Z -> Z -> Z -> Z -> Front S -> Front S * Z);
  lo_zero : option (Z -> Z -> Front S -> Front S * Z); lo_release : option (Z -> Z -> Front S -> Front S * Z);
  lo_read_stats : option (Z -> Z -> Front S -> Front S * Z) }.
Definition vm_ops : VmOps :=
  if negb vm_PROVIDED then mkVmOps None None None None None None else
  mkVmOps (Some vm_page_size) (Some Boundary.reserve) (Some Boundary.commit) (Some Boundary.decommit) (Some Boundary.release) (Some Boundary.reset).
Definition linear_ops : LinearOps :=
  if negb linear_PROVIDED then mkLinearOps None None None None None None else
  mkLinearOps (Some GRANULARITY) (Some CAPACITY) (Some Boundary.allocate) (Some Boundary.zero) (Some Boundary.linear_release_call) (Some Boundary.linear_stats).
(** The groups whose calls are not queries. *)
Definition files_negotiate : Z * Ops FilesCall (Group S -> Group S * option Z) (ReadStats S) :=
  if negb files_PROVIDED then (0, EMPTY files_read_stats) else (134217728, every files_call files_read_stats).
Inductive NotificationsCallback := NoInstall (h : option Z) (d : Z) | NoEnable (kind : Z) | NoDisable (kind : Z) | NoDefaultAction (kind : Z).
Definition notifications_callback (c : NotificationsCallback) : Notifications.Hub S -> Notifications.Hub S * Z :=
  match c with
  | NoInstall h d => Notifications.install h d | NoEnable kind => Notifications.enable kind | NoDisable kind => Notifications.disable kind
  | NoDefaultAction kind => Notifications.default_action kind
  end.
Local Notation NotificationsOps :=
  (Ops NotificationsCallback (Notifications.Hub S -> Notifications.Hub S * Z) (Z -> Z -> Notifications.Hub S -> option (list Z) * Z)).
Definition notifications_negotiate : Z * NotificationsOps :=
  if negb notifications_PROVIDED then (0, EMPTY notifications_read_stats) else (2147483648, every notifications_callback notifications_read_stats).
Definition FAULTS_CAP : Z := 536870912.
(** The callback [install] is the thread that begins it. *)
Record FaultsOps := mkFaultsOps {
  fo_frame_tag : option Z; fo_frame_size : option Z; fo_install : option (option Z -> Z -> Faults.Thread);
  fo_read_stats : option (Z -> Z -> Faults.Shared -> option (list Z) * Z) }.
(** Where the boundary defines no frame, a port cannot provide faults. *)
Definition faults_negotiate : option (Z * FaultsOps) :=
  if negb faults_PROVIDED then Some (0, mkFaultsOps None None None (Some faults_read_stats)) else
  if FRAME_TAG =? 0 then None else
  Some (FAULTS_CAP, mkFaultsOps (Some FRAME_TAG) (Some FRAME_SIZE) (Some Faults.Install) (Some faults_read_stats)).

(** [struct Api], its fields in the order of the source; [api_plain] and [api_exit] are the callbacks of the context and of the
    process group that are not queries. *)
Record Api := mkApi {
  header : Header; api_vm : VmOps; api_read_stats : option (Z -> Z -> Front S -> Front S * Z); api_linear : LinearOps;
  api_services : Ops ServicesCall (Query S) (ReadStats S); api_kernel : Ops KernelCall (Query S) (ReadStats S); api_runtime : Ops RuntimeCall (Query S) (ReadStats S);
  api_wasi : WasiOps (S := S); api_context : Ops ContextCall (Query S) (ReadStats S); api_plain : ContextPlain (S := S);
  api_support : Ops SupportCall (Query S) (ReadStats S); api_topology : Ops TopologyCall (Query S) (ReadStats S);
  api_process : Ops ProcessCall (Query S) (ReadStats S); api_exit : option (Z -> S -> S);
  api_image : Ops ImageCall (Query S) (ReadStats S); api_streams : Ops StreamsCall (Query S) (ReadStats S);
  api_files : Ops FilesCall (Group S -> Group S * option Z) (ReadStats S); api_sockets : Ops SocketsCall (Query S) (ReadStats S);
  api_faults : FaultsOps; api_system : Ops SystemCall (Query S) (ReadStats S); api_notifications : NotificationsOps;
  api_processes : Ops ProcessesCall (Query S) (ReadStats S); api_terminal : Ops TerminalCall (Query S) (ReadStats S);
  api_watches : Ops WatchesCall (Query S) (ReadStats S); api_mappings : Ops MappingsCall (Query S) (ReadStats S);
  api_volumes : Ops VolumesCall (Query S) (ReadStats S); api_network : Ops NetworkCall (Query S) (ReadStats S);
  api_local_sockets : Ops LocalCall (Query S) (ReadStats S); api_accounts : Ops AccountsCall (Query S) (ReadStats S);
  api_priority : Ops PriorityCall (Query S) (ReadStats S); api_packets : Ops PacketsCall (Query S) (ReadStats S);
  api_spawn_as : Ops SpawnAsCall (Query S) (ReadStats S) }.
(** [mem::size_of::<Api>()]: the header of 16 bytes and 210 callbacks, up to the alignment of the header. *)
Definition size_of_Api : Z := (16 + 210 * (usize_bits / 8) + 7) / 8 * 8.

Definition build : option Api :=
  if vm_PROVIDED && linear_PROVIDED then None else
  if negb validate then None else
  if vm_PROVIDED && negb (is_power_of_two vm_page_size) then None else
  if linear_PROVIDED && (negb (is_power_of_two GRANULARITY) || (CAPACITY =? 0)) then None else
  let caps := 0 in
  let caps := if vm_PROVIDED then Z.lor caps CAP_VM else caps in
  let caps := if linear_PROVIDED then Z.lor caps CAP_LINEAR else caps in
  let caps := if linear_PROVIDED && linear_DYNAMIC then Z.lor caps CAP_DYNAMIC_LINEAR else caps in
  match context_negotiate with None => None | Some context =>
  match faults_negotiate with None => None | Some faults =>
  let caps := Z.lor caps (foldl Z.lor services_negotiate.1 [kernel_negotiate.1; runtime_negotiate.1; wasi_negotiate.1; context.1; support_negotiate.1;
    topology_negotiate.1; process_negotiate.1; image_negotiate.1; streams_negotiate.1; files_negotiate.1; sockets_negotiate.1; faults.1;
    system_negotiate.1; notifications_negotiate.1; processes_negotiate.1; terminal_negotiate.1;
    watches_negotiate.1; mappings_negotiate.1; volumes_negotiate.1; network_negotiate.1; local_negotiate.1; accounts_negotiate.1;
    priority_negotiate.1; packets_negotiate.1; spawn_as_negotiate.1]) in
  Some (mkApi (mkHeader ABI_VERSION size_of_Api caps) vm_ops (Some Boundary.read_stats) linear_ops services_negotiate.2 kernel_negotiate.2 runtime_negotiate.2
    wasi_negotiate.2 context.2 context_plain support_negotiate.2 topology_negotiate.2 process_negotiate.2 process_exit image_negotiate.2 streams_negotiate.2
    files_negotiate.2 sockets_negotiate.2 faults.2 system_negotiate.2 notifications_negotiate.2 processes_negotiate.2 terminal_negotiate.2
    watches_negotiate.2 mappings_negotiate.2 volumes_negotiate.2 network_negotiate.2 local_negotiate.2 accounts_negotiate.2
    priority_negotiate.2 packets_negotiate.2 spawn_as_negotiate.2)
  end end.

(** ** What a table promises *)
(** The ports that are accepted. *)
Definition acceptable : Prop :=
  (vm_PROVIDED && linear_PROVIDED = false) /\ validate = true /\ (vm_PROVIDED = true -> is_power_of_two vm_page_size = true) /\
  (linear_PROVIDED = true -> is_power_of_two GRANULARITY = true /\ CAPACITY <> 0) /\
  (context_PROVIDED = true -> cx_ops <> None) /\ (faults_PROVIDED = true -> FRAME_TAG <> 0).
(** The capabilities by the number of their bit, with the word that says whether the port provides them. *)
Definition offers : list (Z * bool) := [
  (0, vm_PROVIDED); (1, linear_PROVIDED); (18, linear_PROVIDED && linear_DYNAMIC); (2, clock_PROVIDED); (3, scheduler_PROVIDED);
  (4, events_PROVIDED); (5, mutexes_PROVIDED); (6, threads_PROVIDED); (7, tls_PROVIDED); (8, stack_PROVIDED); (9, barrier_PROVIDED && barrier_available);
  (10, environment_PROVIDED); (11, identity_PROVIDED); (12, realtime_PROVIDED); (13, entropy_PROVIDED); (14, mapping_PROVIDED); (15, modules_PROVIDED);
  (16, wasi_PROVIDED); (17, context_PROVIDED); (19, heap_PROVIDED); (20, rwlock_PROVIDED); (21, name_PROVIDED); (22, diagnostics_PROVIDED);
  (23, topology_PROVIDED); (24, process_PROVIDED); (25, image_PROVIDED); (26, streams_PROVIDED); (27, files_PROVIDED); (28, sockets_PROVIDED);
  (29, faults_PROVIDED); (30, system_PROVIDED); (31, notifications_PROVIDED); (32, processes_PROVIDED); (33, terminal_PROVIDED);
  (34, watches_PROVIDED); (35, mappings_PROVIDED); (36, volumes_PROVIDED); (37, network_PROVIDED); (38, local_PROVIDED); (39, accounts_PROVIDED);
  (40, priority_PROVIDED); (41, packets_PROVIDED); (42, spawn_as_PROVIDED)].

Inductive LinearCallback := LGranularity | LCapacity | LAllocate | LZero | LRelease | LReadStats.
Inductive WasiCallback := WInvoke | WCallCount | WReadStats.
Inductive PlainCallback := PAbiTag | PActionSize | PActionAlignment | PSignalNumber | PProcessIdAsync | PIgnoreBrokenPipe.
Inductive FaultsCallback := FFrameTag | FFrameSize | FInstall.
(** The groups whose table has a [read_stats] whatever the port provides; [SBoundary] is the field of [Api] itself. *)
Inductive StatsGroup := SBoundary | SServices | SKernel | SRuntime | SContext | SSupport | STopology | SProcess | SImage | SStreams | SFiles | SSockets
| SFaults | SSystem | SNotifications | SProcesses | STerminal | SWatches | SMappings | SVolumes | SNetwork | SLocal | SAccounts | SPriority | SPackets | SSpawnAs.
(** Every callback of the table, by the call it serves. *)
Inductive Callback :=
| OfPageSize | OfVm (c : VmCall) | OfLinear (c : LinearCallback) | OfServices (c : ServicesCall) | OfKernel (c : KernelCall) | OfRuntime (c : RuntimeCall)
| OfWasi (c : WasiCallback) | OfContext (c : ContextCall) | OfPlain (c : PlainCallback) | OfSupport (c : SupportCall) | OfTopology (c : TopologyCall)
| OfProcess (c : ProcessCall) | OfExit | OfImage (c : ImageCall) | OfStreams (c : StreamsCall) | OfFiles (c : FilesCall) | OfSockets (c : SocketsCall)
| OfFaults (c : FaultsCallback) | OfSystem (c : SystemCall) | OfNotifications (c : NotificationsCallback) | OfProcesses (c : ProcessesCall)
| OfTerminal (c : TerminalCall) | OfWatches (c : WatchesCall) | OfMappings (c : MappingsCall) | OfVolumes (c : VolumesCall) | OfNetwork (c : NetworkCall)
| OfLocal (c : LocalCall) | OfAccounts (c : AccountsCall) | OfPriority (c : PriorityCall) | OfPackets (c : PacketsCall) | OfSpawnAs (c : SpawnAsCall)
| OfStats (g : StatsGroup).
Definition present {A} (o : option A) : bool := match o with Some _ => true | None => false end.
Definition stats_callback (api : Api) (g : StatsGroup) : bool :=
  match g with
  | SBoundary => present (api_read_stats api) | SServices => present (op_read_stats (api_services api)) | SKernel => present (op_read_stats (api_kernel api))
  | SRuntime => present (op_read_stats (api_runtime api)) | SContext => present (op_read_stats (api_context api)) | SSupport => present (op_read_stats (api_support api))
  | STopology => present (op_read_stats (api_topology api)) | SProcess => present (op_read_stats (api_process api)) | SImage => present (op_read_stats (api_image api))
  | SStreams => present (op_read_stats (api_streams api)) | SFiles => present (op_read_stats (api_files api)) | SSockets => present (op_read_stats (api_sockets api))
  | SFaults => present (fo_read_stats (api_faults api)) | SSystem => present (op_read_stats (api_system api))
  | SNotifications => present (op_read_stats (api_notifications api)) | SProcesses => present (op_read_stats (api_processes api))
  | STerminal => present (op_read_stats (api_terminal api)) | SWatches => present (op_read_stats (api_watches api)) | SMappings => present (op_read_stats (api_mappings api))
  | SVolumes => present (op_read_stats (api_volumes api)) | SNetwork => present (op_read_stats (api_network api)) | SLocal => present (op_read_stats (api_local_sockets api))
  | SAccounts => present (op_read_stats (api_accounts api)) | SPriority => present (op_read_stats (api_priority api)) | SPackets => present (op_read_stats (api_packets api))
  | SSpawnAs => present (op_read_stats (api_spawn_as api))
  end.
Definition callback (api : Api) (c : Callback) : bool :=
  match c with
  | OfPageSize => present (vo_page_size (api_vm api))
  | OfVm c =>
      match c with
      | CallReserve _ _ _ _ => present (vo_reserve (api_vm api)) | CallCommit _ _ => present (vo_commit (api_vm api))
      | CallDecommit _ _ => present (vo_decommit (api_vm api)) | CallRelease _ _ => present (vo_release (api_vm api))
      | CallReset _ _ => present (vo_reset (api_vm api))
      end
  | OfLinear c =>
      match c with
      | LGranularity => present (lo_granularity (api_linear api)) | LCapacity => present (lo_capacity (api_linear api))
      | LAllocate => present (lo_allocate (api_linear api)) | LZero => present (lo_zero (api_linear api))
      | LRelease => present (lo_release (api_linear api)) | LReadStats => present (lo_read_stats (api_linear api))
      end
  | OfWasi c =>
      match c with
      | WInvoke => present (wo_invoke (api_wasi api)) | WCallCount => present (wo_call_count (api_wasi api)) | WReadStats => present (wo_read_stats (api_wasi api))
      end
  | OfPlain c =>
      match c with
      | PAbiTag => present (cp_abi_tag (api_plain api)) | PActionSize => present (cp_action_size (api_plain api))
      | PActionAlignment => present (cp_action_alignment (api_plain api)) | PSignalNumber => present (cp_signal_number (api_plain api))
      | PProcessIdAsync => present (cp_process_id_async (api_plain api)) | PIgnoreBrokenPipe => present (cp_ignore_broken_pipe (api_plain api))
      end
  | OfFaults c =>
      match c with
      | FFrameTag => present (fo_frame_tag (api_faults api)) | FFrameSize => present (fo_frame_size (api_faults api)) | FInstall => present (fo_install (api_faults api))
      end
  | OfServices c => present (op (api_services api) c) | OfKernel c => present (op (api_kernel api) c) | OfRuntime c => present (op (api_runtime api) c)
  | OfContext c => present (op (api_context api) c) | OfSupport c => present (op (api_support api) c)
  | OfTopology c => present (op (api_topology api) c) | OfProcess c => present (op (api_process api) c) | OfExit => present (api_exit api)
  | OfImage c => present (op (api_image api) c) | OfStreams c => present (op (api_streams api) c) | OfFiles c => present (op (api_files api) c)
  | OfSockets c => present (op (api_sockets api) c) | OfSystem c => present (op (api_system api) c) | OfNotifications c => present (op (api_notifications api) c)
  | OfProcesses c => present (op (api_processes api) c) | OfTerminal c => present (op (api_terminal api) c) | OfWatches c => present (op (api_watches api) c)
  | OfMappings c => present (op (api_mappings api) c) | OfVolumes c => present (op (api_volumes api) c) | OfNetwork c => present (op (api_network api) c)
  | OfLocal c => present (op (api_local_sockets api) c) | OfAccounts c => present (op (api_accounts api) c) | OfPriority c => present (op (api_priority api) c)
  | OfPackets c => present (op (api_packets api) c) | OfSpawnAs c => present (op (api_spawn_as api) c)
  | OfStats g => stats_callback api g
  end.
(** The bit that announces a callback; the statistics need none. *)
Definition bit_of (c : Callback) : option Z :=
  match c with
  | OfPageSize | OfVm _ => Some 0 | OfLinear _ => Some 1
  | OfServices (SvMonotonic _) => Some 2 | OfServices _ => Some 3
  | OfKernel c => Some
      match c with
      | KeEventCreate _ _ _ | KeEventDestroy _ | KeEventSet _ | KeEventReset _ | KeEventWait _ _ => 4
      | KeMutexCreate _ _ | KeMutexDestroy _ | KeMutexLock _ | KeMutexUnlock _ => 5
      | KeThreadCreate _ _ _ _ | KeThreadJoin _ | KeThreadDetach _ => 6
      | KeTlsCreate _ _ | KeTlsDestroy _ | KeTlsGet _ _ | KeTlsSet _ _ => 7
      | KeStackBounds _ _ => 8 | KeProcessBarrier => 9
      end
  | OfRuntime c => Some
      match c with
      | RtEnvironmentGet _ _ _ _ => 10 | RtProcessId _ | RtThreadId _ => 11 | RtRealtime _ => 12 | RtRandomBytes _ _ => 13
      | RtMappingAllocate _ _ _ | RtMappingRelease _ _ | RtMappingProtect _ _ _ => 14
      | RtModuleOpen _ _ | RtModuleSymbol _ _ _ | RtModuleClose _ | RtModuleInfo _ _ => 15
      end
  | OfWasi _ => Some 16 | OfContext _ | OfPlain _ => Some 17
  | OfSupport c => Some
      match c with
      | SuAllocate _ _ _ | SuResize _ _ _ | SuRelease _ => 19 | SuRwCreate _ | SuRwRead _ | SuRwWrite _ | SuRwUnlock _ | SuRwDestroy _ => 20
      | SuThreadName _ => 21 | SuWriteStderr _ _ => 22
      end
  | OfTopology _ => Some 23 | OfProcess _ | OfExit => Some 24 | OfImage _ => Some 25 | OfStreams _ => Some 26 | OfFiles _ => Some 27 | OfSockets _ => Some 28
  | OfFaults _ => Some 29 | OfSystem _ => Some 30 | OfNotifications _ => Some 31 | OfProcesses _ => Some 32 | OfTerminal _ => Some 33 | OfWatches _ => Some 34
  | OfMappings _ => Some 35 | OfVolumes _ => Some 36 | OfNetwork _ => Some 37 | OfLocal _ => Some 38 | OfAccounts _ => Some 39 | OfPriority _ => Some 40
  | OfPackets _ => Some 41 | OfSpawnAs _ => Some 42
  | OfStats _ => None
  end.

Definition union (l : list (Z * bool)) : Z := foldr (fun '(k, p) acc => Z.lor (cap p (2 ^ k)) acc) 0 l.
Lemma testbit_cap p k n : 0 <= k -> 0 <= n -> Z.testbit (cap p (2 ^ k)) n = p && (k =? n).
Proof. intros. unfold cap. destruct p; [by rewrite Z.pow2_bits_eqb | by rewrite Z.bits_0]. Qed.
Lemma testbit_union l n : Forall (fun o => 0 <= o.1) l -> 0 <= n -> Z.testbit (union l) n = existsb (fun o => o.2 && (o.1 =? n)) l.
Proof.
  intros Hl Hn. induction Hl as [| [k p] l Hk _ IH]; [apply Z.bits_0 |]. cbn [union foldr existsb].
  rewrite Z.lor_spec, testbit_cap by done. f_equal. exact IH.
Qed.
(** With distinct numbers each bit tells its own capability. *)
Lemma union_member l k p : Forall (fun o => 0 <= o.1) l -> NoDup l.*1 -> (k, p) ∈ l -> Z.testbit (union l) k = p.
Proof.
  intros Hl Hnd Hin. assert (0 <= k) as Hk by (rewrite Forall_forall in Hl; by apply (Hl (k, p))). rewrite testbit_union by done.
  apply eq_true_iff_eq. rewrite existsb_exists. split.
  - intros ([k' p'] & Hin' & [Hp He%Z.eqb_eq]%andb_true_iff). apply list_elem_of_In in Hin'. simpl in *. subst p' k'.
    apply list_elem_of_lookup in Hin as [i Hi], Hin' as [j Hj]. assert (i = j) as ->; [| congruence].
    eapply (NoDup_lookup _ _ _ k Hnd); rewrite list_lookup_fmap; [by rewrite Hi | by rewrite Hj].
  - intros ->. exists (k, true). split; [by apply list_elem_of_In | simpl; lia].
Qed.
Lemma union_other l n : Forall (fun o => 0 <= o.1) l -> 0 <= n -> n ∉ l.*1 -> Z.testbit (union l) n = false.
Proof.
  intros Hl Hn Hni. rewrite testbit_union by done. apply not_true_iff_false. rewrite existsb_exists.
  intros ([k p] & Hin & [_ He%Z.eqb_eq]%andb_true_iff). simpl in He. subst k. apply Hni. apply list_elem_of_In in Hin. change n with ((n, p).1). by apply list_elem_of_fmap_2.
Qed.
Lemma fold_cap c (p : bool) b : (if p then Z.lor c b else c) = Z.lor c (cap p b).
Proof. unfold cap. destruct p; [done |]. by rewrite Z.lor_0_r. Qed.
Lemma pair_cap {A} (p : bool) b (x y : A) : (if p then (b, x) else (0, y)).1 = cap p b.
Proof. by destruct p. Qed.
Lemma pair_cap' {A} (p : bool) b (x y : A) : (if negb p then (0, y) else (b, x)).1 = cap p b.
Proof. by destruct p. Qed.
Lemma build_acceptable : match build with Some api => acceptable | None => ~ acceptable end.
Proof.
  unfold build, acceptable, context_negotiate, faults_negotiate.
  destruct vm_PROVIDED, linear_PROVIDED, validate; simpl; try (intros; naive_solver);
    destruct (is_power_of_two _) eqn:?; simpl; try (intros; naive_solver);
    try (destruct (Z.eqb_spec CAPACITY 0); simpl; try (intros; naive_solver));
    destruct context_PROVIDED; simpl; try destruct cx_ops; simpl; try (intros; naive_solver);
    destruct faults_PROVIDED; simpl; try destruct (Z.eqb_spec FRAME_TAG 0); simpl; try (intros; naive_solver).
Qed.
Lemma context_caps context : context_negotiate = Some context ->
  context.1 = cap context_PROVIDED (2 ^ 17) /\ (forall c, present (op context.2 c) = context_PROVIDED) /\ present (op_read_stats context.2) = true.
Proof. unfold context_negotiate. destruct context_PROVIDED; simpl; [destruct cx_ops; [| done] |]; by intros [= <-]. Qed.
Lemma faults_caps faults : faults_negotiate = Some faults ->
  faults.1 = cap faults_PROVIDED (2 ^ 29) /\ present (fo_frame_tag faults.2) = faults_PROVIDED /\ present (fo_frame_size faults.2) = faults_PROVIDED /\
  present (fo_install faults.2) = faults_PROVIDED /\ present (fo_read_stats faults.2) = true.
Proof. unfold faults_negotiate. destruct faults_PROVIDED; simpl; [destruct (_ =? _); [done |] |]; by intros [= <-]. Qed.
(** Opens [build = Some api] into the table, its context and its faults. *)
Ltac open_build :=
  unfold build; do 4 (match goal with |- (if ?b then _ else _) = _ -> _ => destruct b; [intros; discriminate |] end); cbv zeta;
  let Hc := fresh "Hc" in let Hf := fresh "Hf" in let E := fresh "E" in
  destruct context_negotiate as [context |] eqn:Hc; [| intros; discriminate]; destruct faults_negotiate as [faults |] eqn:Hf; [| intros; discriminate];
  intros E; apply (inj Some) in E; rewrite <- E; clear E; apply context_caps in Hc as (Hcontext & Hcontext' & Hcontexts); apply faults_caps in Hf as (Hfaults & Hfaults' & Hfaults'' & Hfaults3 & Hfaultss).
Lemma build_capabilities api : build = Some api -> capabilities (header api) = union offers.
Proof.
  open_build. cbn [header capabilities foldl]. rewrite Hcontext, Hfaults.
  unfold wasi_negotiate, topology_negotiate, process_negotiate, image_negotiate, streams_negotiate, files_negotiate, sockets_negotiate, system_negotiate,
    notifications_negotiate, processes_negotiate, terminal_negotiate, watches_negotiate, mappings_negotiate, volumes_negotiate, network_negotiate,
    local_negotiate, accounts_negotiate, priority_negotiate, packets_negotiate, spawn_as_negotiate.
  rewrite !pair_cap, !pair_cap', !fold_cap. unfold services_negotiate, kernel_negotiate, runtime_negotiate, support_negotiate. cbn [fst].
  unfold union, offers. cbn [foldr]. rewrite !Z.lor_assoc, Z.lor_0_r. reflexivity.
Qed.
Lemma offers_nonneg : Forall (fun o => 0 <= o.1) offers.
Proof. unfold offers. repeat constructor; simpl; lia. Qed.
Lemma offers_distinct : NoDup offers.*1.
Proof. change (NoDup [0; 1; 18; 2; 3; 4; 5; 6; 7; 8; 9; 10; 11; 12; 13; 14; 15; 16; 17; 19; 20; 21; 22; 23; 24; 25; 26; 27; 28; 29; 30; 31; 32; 33; 34; 35; 36; 37; 38; 39; 40; 41; 42]).
  by apply (bool_decide_unpack _). Qed.
Lemma present_if {C F G} (p : bool) (b : Z) (f : C -> F) (x y : G) c : present (op (if p then (b, every f x) else (0, EMPTY y)).2 c) = p.
Proof. by destruct p. Qed.
Lemma present_if' {C F G} (p : bool) (b : Z) (f : C -> F) (x y : G) c : present (op (if negb p then (0, EMPTY y) else (b, every f x)).2 c) = p.
Proof. by destruct p. Qed.
Lemma stats_if {C F G} (p : bool) (b : Z) (f : C -> F) (x y : G) : present (op_read_stats (if p then (b, every f x) else (0, EMPTY y)).2) = true.
Proof. by destruct p. Qed.
Lemma stats_if' {C F G} (p : bool) (b : Z) (f : C -> F) (x y : G) : present (op_read_stats (if negb p then (0, EMPTY y) else (b, every f x)).2) = true.
Proof. by destruct p. Qed.
Lemma present_some {A} (p : bool) (x : A) : present (if p then Some x else None) = p.
Proof. by destruct p. Qed.
Lemma build_version api : build = Some api -> abi_version (header api) = ABI_VERSION.
Proof. open_build. reflexivity. Qed.
(** Whether the port provides a callback, by the list of offers. *)
Lemma build_callback api c k : build = Some api -> bit_of c = Some k -> (k, callback api c) ∈ offers.
Proof.
  open_build. intros Hk. destruct c; try (destruct c); injection Hk as <- || discriminate Hk; cbn;
    unfold wasi_negotiate, topology_negotiate, process_negotiate, image_negotiate, streams_negotiate, files_negotiate, sockets_negotiate, system_negotiate,
    notifications_negotiate, processes_negotiate, terminal_negotiate, watches_negotiate, mappings_negotiate, volumes_negotiate, network_negotiate,
    local_negotiate, accounts_negotiate, priority_negotiate, packets_negotiate, spawn_as_negotiate,
    process_exit, context_plain;
    rewrite ?present_if, ?present_if', ?present_some, ?Hcontext', ?Hfaults', ?Hfaults'', ?Hfaults3;
    unfold offers, vm_ops, linear_ops; try match goal with |- context [negb ?p] => destruct p; simpl end; repeat first [apply list_elem_of_here | apply list_elem_of_further].
Qed.
Lemma build_stats api g : build = Some api -> stats_callback api g = true.
Proof.
  open_build. destruct g; cbn;
    unfold wasi_negotiate, topology_negotiate, process_negotiate, image_negotiate, streams_negotiate, files_negotiate, sockets_negotiate, system_negotiate,
    notifications_negotiate, processes_negotiate, terminal_negotiate, watches_negotiate, mappings_negotiate, volumes_negotiate, network_negotiate,
    local_negotiate, accounts_negotiate, priority_negotiate, packets_negotiate, spawn_as_negotiate;
    rewrite ?stats_if, ?stats_if', ?Hcontexts, ?Hfaultss; reflexivity.
Qed.

(** C9: a table is built exactly for the acceptable ports: not both kinds of memory, a port that validates itself, a
    page size that is a power of two where there is virtual memory, a granule that is one and a capacity other than 0
    where there is linear storage, a context with its table, faults only where there is a frame.  Its capability word
    tells each capability by a bit of its own and has no other bit.  A callback of a capability is in the table exactly
    when its bit is set, those of linear storage and of WASI with their statistics among them; the boundary's own
    statistics and the [read_stats] of every other group are always there. *)
Theorem build_contract :
  match build with
  | None => ~ acceptable
  | Some api => acceptable /\ abi_version (header api) = ABI_VERSION /\
      (forall k p, (k, p) ∈ offers -> Z.testbit (capabilities (header api)) k = p) /\
      (forall k, 0 <= k -> k ∉ offers.*1 -> Z.testbit (capabilities (header api)) k = false) /\
      forall c, callback api c = match bit_of c with Some k => Z.testbit (capabilities (header api)) k | None => true end
  end.
Proof.
  pose proof build_acceptable as Ha. pose proof build_capabilities as Hc. pose proof build_callback as Hb. pose proof build_stats as Hs.
  pose proof build_version as Hv. destruct build as [api |]; [| done]. specialize (Hc api eq_refl). rewrite Hc. pose proof offers_nonneg. pose proof offers_distinct.
  split_and!; [done | auto | intros; by apply union_member | intros; by apply union_other |].
  intros c. destruct (bit_of c) as [k |] eqn:Hk; [symmetry; apply union_member; auto |]. destruct c; try discriminate Hk; [by destruct c | by apply Hs].
Qed.
End Build.

(** ** The port that provides nothing *)
(** [declare_port!] with no capability listed, as in the tests of [lib.rs]; the fault frames are those of x86-64. *)
Definition absent_faults {S} : FaultsPort S := {| faults_PROVIDED := false; fa_enable := unsupported |}.
Definition absent_port : PalPort unit := {|
  port_vm := absent_virtual_memory; port_linear := absent_linear_storage; port_clock := absent_clock; port_scheduler := absent_scheduler;
  port_kernel := absent_kernel; port_runtime := absent_runtime; port_wasi := absent_wasi; port_context := absent_context;
  port_support := absent_support; port_topology := absent_topology; port_process := absent_process; port_image := absent_image;
  port_streams := absent_streams; port_files := absent_files; port_sockets := absent_sockets; port_faults := absent_faults;
  port_system := absent_system; port_notifications := absent_notifications; port_processes := absent_processes;
  port_terminal := absent_terminal; port_watches := absent_watches; port_mappings := absent_mappings; port_volumes := absent_volumes;
  port_network := absent_network; port_local := absent_local_sockets; port_accounts := absent_accounts; port_priority := absent_priority;
  port_packets := absent_packets; port_spawn_as := absent_spawn_as; validate := true |}.
Example absent_port_negotiates :
  match @build arch64 frames_x64 unit absent_port with
  | Some api => capabilities (header api) = 0 /\ struct_size (header api) = 1696 /\
      callback api (OfFaults FInstall) = false /\ callback api (OfStats SFaults) = true /\ callback api (OfWasi WReadStats) = false
  | None => False
  end.
Proof. vm_compute. done. Qed.
