(* ===== verification/Slot.v ===== *)
(** * Slot.v: one negotiation for any number of threads

    [Slot] and [negotiate] of [src/src/lib.rs].  The threads share the atomic state and the storage of the table; a step
    is one atomic access of one thread, or the building of the table by the thread that claimed it. *)
From S2P Require Import Prelude Port Faults Negotiate.
Local Open Scope Z_scope.

Section Slot.
(** [table]: what [build] answers for the port. *)
Context {A : Type} (table : option A).

Record Slot := mkSlot { slot_state : Z; slot_api : option A; builds : nat }.
Definition UNINITIALIZED : Z := 0.
Definition NEGOTIATING : Z := 1.
Definition READY : Z := 2.
Definition REJECTED : Z := 3.
Definition slot_new : Slot := mkSlot UNINITIALIZED None 0.

(** Where a thread is in [negotiate]; [Answered v true] has returned the pointer to the storage, [Answered v false] NULL. *)
Inductive Caller :=
| Called (version : Z) | Loading (version : Z) | Exchanging (version : Z) | Building (version : Z) | Storing (version outcome : Z)
| Answered (version : Z) (pointer : bool).
Inductive slot_access : Slot -> Caller -> Slot -> Caller -> Prop :=
| other_version s v : v <> ABI_VERSION -> slot_access s (Called v) s (Answered v false)
| same_version s : slot_access s (Called ABI_VERSION) s (Loading ABI_VERSION)
| load_ready s v : slot_state s = READY -> slot_access s (Loading v) s (Answered v true)
| load_rejected s v : slot_state s = REJECTED -> slot_access s (Loading v) s (Answered v false)
| load_negotiating s v : slot_state s = NEGOTIATING -> slot_access s (Loading v) s (Loading v)
| load_first s v : slot_state s <> READY -> slot_state s <> REJECTED -> slot_state s <> NEGOTIATING -> slot_access s (Loading v) s (Exchanging v)
| exchange_lost s v : slot_state s <> UNINITIALIZED -> slot_access s (Exchanging v) s (Loading v)
| exchange_won s v : slot_state s = UNINITIALIZED ->
    slot_access s (Exchanging v) (mkSlot NEGOTIATING (slot_api s) (builds s)) (Building v)
| build_done s v api : table = Some api ->
    slot_access s (Building v) (mkSlot (slot_state s) (Some api) (S (builds s))) (Storing v READY)
| build_refused s v : table = None ->
    slot_access s (Building v) (mkSlot (slot_state s) (slot_api s) (S (builds s))) (Storing v REJECTED)
| store_outcome s v outcome : slot_access s (Storing v outcome) (mkSlot outcome (slot_api s) (builds s)) (Loading v).
Inductive slot_step : Slot * list Caller -> Slot * list Caller -> Prop :=
| slot_step_thread s ts i t s' t' : ts !! i = Some t -> slot_access s t s' t' -> slot_step (s, ts) (s', <[i := t']> ts).
Definition called (t : Caller) : Prop := match t with Called _ => True | _ => False end.
Definition slot_reachable (s : Slot) (ts : list Caller) : Prop := exists ts0, Forall called ts0 /\ rtc slot_step (slot_new, ts0) (s, ts).

(** The thread that has claimed the negotiation. *)
Definition working (t : Caller) : bool := match t with Building _ | Storing _ _ => true | _ => false end.
Definition outcome_of : Z := match table with Some _ => READY | None => REJECTED end.
Definition caller_holds (s : Slot) (t : Caller) : Prop :=
  match t with
  | Called _ => True
  | Loading v | Exchanging v => v = ABI_VERSION
  | Building v => v = ABI_VERSION /\ builds s = O /\ slot_api s = None
  | Storing v outcome => v = ABI_VERSION /\ builds s = 1%nat /\ slot_api s = table /\ outcome = outcome_of
  | Answered v true => v = ABI_VERSION /\ slot_state s = READY
  | Answered v false => v <> ABI_VERSION \/ slot_state s = REJECTED
  end.
(** What the state says about the storage. *)
Definition storage_holds (s : Slot) : Prop :=
  if slot_state s =? UNINITIALIZED then builds s = O /\ slot_api s = None
  else if slot_state s =? NEGOTIATING then (builds s <= 1)%nat
  else slot_state s = outcome_of /\ builds s = 1%nat /\ slot_api s = table.
Record slot_inv (s : Slot) (ts : list Caller) : Prop := {
  si_holds : forall i t, ts !! i = Some t -> caller_holds s t;
  si_storage : storage_holds s;
  si_working : forall i t, ts !! i = Some t -> working t = true -> slot_state s = NEGOTIATING;
  si_one : forall i j t u, ts !! i = Some t -> ts !! j = Some u -> working t = true -> working u = true -> i = j;
  si_someone : slot_state s = NEGOTIATING -> exists i t, ts !! i = Some t /\ working t = true;
}.

(** Only the working thread changes a slot that has been claimed. *)
Lemma idle_access s t s' t' : slot_access s t s' t' -> working t = false ->
  (s' = s /\ working t' = false) \/ (slot_state s = UNINITIALIZED /\ s' = mkSlot NEGOTIATING (slot_api s) (builds s) /\ working t' = true).
Proof. destruct 1; simpl; naive_solver. Qed.
(** The working thread keeps working, or publishes the outcome. *)
Lemma busy_access s t s' t' : slot_access s t s' t' -> working t = true -> caller_holds s t -> slot_state s = NEGOTIATING ->
  (slot_state s' = NEGOTIATING /\ working t' = true /\ (builds s' <= 1)%nat) \/
  (working t' = false /\ slot_state s' = outcome_of /\ builds s' = 1%nat /\ slot_api s' = table).
Proof. destruct 1; simpl; naive_solver lia. Qed.
Lemma access_holds s t s' t' : slot_access s t s' t' -> caller_holds s t -> storage_holds s -> caller_holds s' t'.
Proof.
  unfold storage_holds, outcome_of. destruct 1 as [| | | | | | | s v Hs | s v api Hb | s v Hb |]; simpl; try naive_solver.
  - rewrite Hs. simpl. naive_solver.
  - intros (-> & -> & _) _. unfold outcome_of. by rewrite Hb.
  - intros (-> & -> & Ha) _. unfold outcome_of. by rewrite Hb.
Qed.
Lemma outcome_final : outcome_of <> UNINITIALIZED /\ outcome_of <> NEGOTIATING.
Proof. unfold outcome_of. by destruct table. Qed.

Lemma slot_step_inv s ts s' ts' : slot_inv s ts -> slot_step (s, ts) (s', ts') -> slot_inv s' ts'.
Proof.
  intros Hinv Hstep. inversion Hstep as [? ? i t ? t' Hi Ha]; subst. destruct Hinv as [Hholds Hstore Hwork Hone Hsome].
  pose proof (Hholds i t Hi) as Ht. pose proof (access_holds _ _ _ _ Ha Ht Hstore) as Ht'.
  assert (<[i := t']> ts !! i = Some t') as Hi' by (apply list_lookup_insert_eq; by eapply lookup_lt_Some).
  destruct (working t) eqn:Hw.
  - pose proof (Hwork i t Hi Hw) as Hs.
    assert (forall j u, j <> i -> ts !! j = Some u -> working u = false) as Hidle.
    { intros j u Hne Hj. destruct (working u) eqn:Hu; [| done]. exfalso. eauto. }
    destruct (busy_access _ _ _ _ Ha Hw Ht Hs) as [(Hs' & Hw' & Hb) | (Hw' & Hs' & Hb & Hapi)].
    + constructor.
      * intros j u [[-> ->] | [Hne Hj]]%(insert_lookup_cases _ _ _ _ _ _ Hi); [done |].
        pose proof (Hidle _ _ Hne Hj). pose proof (Hholds _ _ Hj). destruct u as [| | | | | v []]; simpl in *; try done; rewrite Hs in *; naive_solver.
      * unfold storage_holds. rewrite Hs'. done.
      * done.
      * intros j k u v [[-> ->] | [Hne Hj]]%(insert_lookup_cases _ _ _ _ _ _ Hi) [[-> ->] | [Hne' Hk]]%(insert_lookup_cases _ _ _ _ _ _ Hi) Hu Hv;
          [done | rewrite (Hidle _ _ Hne' Hk) in Hv; done | rewrite (Hidle _ _ Hne Hj) in Hu; done | rewrite (Hidle _ _ Hne Hj) in Hu; done].
      * eauto.
    + destruct outcome_final as [Hf1 Hf2]. constructor.
      * intros j u [[-> ->] | [Hne Hj]]%(insert_lookup_cases _ _ _ _ _ _ Hi); [done |].
        pose proof (Hidle _ _ Hne Hj). pose proof (Hholds _ _ Hj). destruct u as [| | | | | v []]; simpl in *; try done; rewrite Hs in *; naive_solver.
      * unfold storage_holds. rewrite Hs'. destruct (Z.eqb_spec outcome_of UNINITIALIZED), (Z.eqb_spec outcome_of NEGOTIATING); done.
      * intros j u [[-> ->] | [Hne Hj]]%(insert_lookup_cases _ _ _ _ _ _ Hi) Hu; [by rewrite Hw' in Hu | by rewrite (Hidle _ _ Hne Hj) in Hu].
      * intros j k u v [[-> ->] | [Hne Hj]]%(insert_lookup_cases _ _ _ _ _ _ Hi) _ Hu; [by rewrite Hw' in Hu | by rewrite (Hidle _ _ Hne Hj) in Hu].
      * intros Hn. congruence.
  - destruct (idle_access _ _ _ _ Ha Hw) as [[-> Hw'] | (Hs & -> & Hw')].
    + constructor; try done.
      * intros j u [[-> ->] | [Hne Hj]]%(insert_lookup_cases _ _ _ _ _ _ Hi); [done | by eapply Hholds].
      * intros j u [[-> ->] | [Hne Hj]]%(insert_lookup_cases _ _ _ _ _ _ Hi) Hu; [by rewrite Hw' in Hu | by eapply Hwork].
      * intros j k u v [[-> ->] | [Hne Hj]]%(insert_lookup_cases _ _ _ _ _ _ Hi) [[-> ->] | [Hne' Hk]]%(insert_lookup_cases _ _ _ _ _ _ Hi) Hu Hv;
          [done | by rewrite Hw' in Hu | by rewrite Hw' in Hv | by eauto].
      * intros Hn. destruct (Hsome Hn) as (j & u & Hj & Hu). exists j, u. split; [| done]. rewrite list_lookup_insert_ne; [done |]. intros ->. congruence.
    + assert (forall j u, ts !! j = Some u -> working u = false) as Hidle.
      { intros j u Hj. destruct (working u) eqn:Hu; [| done]. pose proof (Hwork _ _ Hj Hu) as Hn. by rewrite Hs in Hn. }
      unfold storage_holds in Hstore. rewrite Hs in Hstore. simpl in Hstore. destruct Hstore as [Hb0 Hapi0]. constructor.
      * intros j u [[-> ->] | [Hne Hj]]%(insert_lookup_cases _ _ _ _ _ _ Hi); [done |].
        pose proof (Hidle _ _ Hj). pose proof (Hholds _ _ Hj). destruct u as [| | | | | v []]; simpl in *; try done; rewrite Hs in *; naive_solver.
      * unfold storage_holds. simpl. lia.
      * done.
      * intros j k u v [[-> ->] | [Hne Hj]]%(insert_lookup_cases _ _ _ _ _ _ Hi) [[-> ->] | [Hne' Hk]]%(insert_lookup_cases _ _ _ _ _ _ Hi) Hu Hv;
          [done | by rewrite (Hidle _ _ Hk) in Hv | by rewrite (Hidle _ _ Hj) in Hu | by rewrite (Hidle _ _ Hj) in Hu].
      * eauto.
Qed.
Lemma slot_reachable_inv s ts : slot_reachable s ts -> slot_inv s ts.
Proof.
  intros (ts0 & Hf & Hr). assert (slot_inv slot_new ts0) as H0.
  { rewrite Forall_lookup in Hf. constructor; simpl; try done.
    - intros i t Ht. apply Hf in Ht. by destruct t.
    - intros i t Ht. apply Hf in Ht. by destruct t.
    - intros i j t u Ht. apply Hf in Ht. by destruct t. }
  change (slot_inv (s, ts).1 (s, ts).2). change (slot_inv (slot_new, ts0).1 (slot_new, ts0).2) in H0.
  revert Hr H0. generalize (slot_new, ts0) (s, ts). intros x y Hr. induction Hr as [| [s1 ts1] [s2 ts2] z Hxy _ IH]; [done |].
  intros H0. apply IH. by eapply slot_step_inv.
Qed.
(** A step never touches a table that has been published. *)
Lemma slot_step_final s ts s' ts' : slot_inv s ts -> slot_step (s, ts) (s', ts') -> slot_state s = READY \/ slot_state s = REJECTED -> s' = s.
Proof.
  intros Hinv Hstep Hs. inversion Hstep as [? ? i t ? t' Hi Ha]; subst.
  destruct (working t) eqn:Hw; [pose proof (si_working _ _ Hinv _ _ Hi Hw) as Hn; rewrite Hn in Hs; by destruct Hs |].
  destruct (idle_access _ _ _ _ Ha Hw) as [[? _] | (Hu & _)]; [done |]. rewrite Hu in Hs. by destruct Hs.
Qed.
Lemma slot_steps_final x y : rtc slot_step x y -> slot_inv x.1 x.2 -> slot_state x.1 = READY \/ slot_state x.1 = REJECTED -> y.1 = x.1.
Proof.
  induction 1 as [| [s1 ts1] [s2 ts2] z Hxy _ IH]; [done |]. simpl in *. intros Hinv Hs. pose proof (slot_step_final _ _ _ _ Hinv Hxy Hs) as ->.
  apply IH; [| done]. by eapply slot_step_inv.
Qed.
End Slot.

(** C8: negotiation is done once, however the atomic accesses of any number of callers interleave.  The table is built
    at most once.  A caller with the right version gets the pointer exactly when the port was accepted, and then the
    storage holds the table that was built and never changes again; a caller with another version, and every caller of
    a rejected port, gets NULL.  While the slot is being negotiated some thread is at work on it, so that the callers
    that wait do not wait for nobody. *)
Theorem negotiate_once `{Arch} `{Frames} {S : Type} {P : PalPort S} (s : Slot) (ts : list Caller) : slot_reachable build s ts ->
  (builds s <= 1)%nat /\
  (forall i v, ts !! i = Some (Answered v true) -> v = ABI_VERSION /\ is_Some (slot_api s) /\ slot_api s = build /\
     forall s' ts', rtc (slot_step build) (s, ts) (s', ts') -> slot_api s' = slot_api s) /\
  (forall i v, ts !! i = Some (Answered v false) -> v <> ABI_VERSION \/ build = None) /\
  (slot_state s = NEGOTIATING -> exists i t, ts !! i = Some t /\ working t = true).
Proof.
  intros Hinv%slot_reachable_inv. pose proof (si_storage _ _ _ Hinv) as Hst. unfold storage_holds, outcome_of in Hst. split_and!.
  - destruct (_ =? _); [lia |]. destruct (_ =? _); lia.
  - intros i v Hi. destruct (si_holds _ _ _ Hinv _ _ Hi) as [-> Hs]. rewrite Hs in Hst. simpl in Hst. destruct Hst as (Ho & _ & Hapi).
    split_and!; [done | rewrite Hapi; by destruct build | done |].
    intros s' ts' Hr. apply (slot_steps_final _ _ _ Hr) in Hinv; [| by left]. simpl in Hinv. by subst.
  - intros i v Hi. destruct (si_holds _ _ _ Hinv _ _ Hi) as [? | Hs]; [by left | right]. rewrite Hs in Hst. simpl in Hst. destruct Hst as (Ho & _).
    by destruct build.
  - apply (si_someone _ _ _ Hinv).
Qed.
(** Three callers of the port that provides nothing: one negotiates, one comes later, one has another version. *)
Lemma negotiate_once_witness :
  exists (s : Slot), slot_reachable (@build arch64 frames_x64 unit absent_port) s [Answered 2 true; Answered 2 true; Answered 1 false] /\
    is_Some (slot_api s).
Proof.
  destruct (@build arch64 frames_x64 unit absent_port) as [api |] eqn:Hb; [| by pose proof absent_port_negotiates as Hx; rewrite Hb in Hx].
  exists (mkSlot READY (Some api) 1). rewrite <- Hb. match goal with |- ?r /\ _ => assert r as Hr end.
  { exists [Called 2; Called 2; Called 1]. split; [repeat constructor |].
    eapply rtc_l; [eapply (slot_step_thread _ _ _ 0); [reflexivity | apply same_version] |]. simpl.
    eapply rtc_l; [eapply (slot_step_thread _ _ _ 0); [reflexivity | by apply load_first] |]. simpl.
    eapply rtc_l; [eapply (slot_step_thread _ _ _ 0); [reflexivity | by apply exchange_won] |]. simpl.
    eapply rtc_l; [eapply (slot_step_thread _ _ _ 1); [reflexivity | apply same_version] |]. simpl.
    eapply rtc_l; [eapply (slot_step_thread _ _ _ 0); [reflexivity | by apply (build_done _ _ _ api)] |]. simpl.
    eapply rtc_l; [eapply (slot_step_thread _ _ _ 0); [reflexivity | apply store_outcome] |]. simpl.
    eapply rtc_l; [eapply (slot_step_thread _ _ _ 0); [reflexivity | by apply load_ready] |]. simpl.
    eapply rtc_l; [eapply (slot_step_thread _ _ _ 1); [reflexivity | by apply load_ready] |]. simpl.
    eapply rtc_l; [eapply (slot_step_thread _ _ _ 2); [reflexivity | by apply other_version] |]. simpl. rewrite Hb. apply rtc_refl. }
  split; [exact Hr |]. destruct (negotiate_once _ _ Hr) as (_ & Ht & _). by destruct (Ht 1%nat 2 eq_refl) as (_ & ? & _).
Defined.
