(* ===== verification/Groups.v ===== *)
(** * Groups.v: what all service groups promise, and the answers that are checked

    The groups of a port, as one family ([GroupName]) of instances of [ServiceGroup]: the counting ledger and the cleared
    outputs hold for each of them.  Then the answers that a front end computes itself: what [poll] reports, which
    addresses [resolve] passes on, and that the values which ports build with the crate's constructors
    ([Account::new], [volumes::Status::new]) are accepted by the checks. *)
From S2P Require Import Prelude Port Counter Boundary Tree Front Group Console Machine Net Native Children Watching Adapters Absent Negotiate.
Local Open Scope Z_scope.
Local Open Scope pal_scope.

Inductive GroupName :=
| GServices | GKernel | GRuntime | GContext | GSupport | GTopology | GProcess | GImage | GStreams | GSockets | GSystem | GProcesses | GTerminal
| GWatches | GMappings | GVolumes | GNetwork | GLocal | GAccounts | GPriority | GPackets | GSpawnAs.
Definition calls_of (n : GroupName) : Type :=
  match n with
  | GServices => ServicesCall | GKernel => KernelCall | GRuntime => RuntimeCall | GContext => ContextCall | GSupport => SupportCall
  | GTopology => TopologyCall | GProcess => ProcessCall | GImage => ImageCall | GStreams => StreamsCall | GSockets => SocketsCall
  | GSystem => SystemCall | GProcesses => ProcessesCall | GTerminal => TerminalCall | GWatches => WatchesCall | GMappings => MappingsCall
  | GVolumes => VolumesCall | GNetwork => NetworkCall | GLocal => LocalCall | GAccounts => AccountsCall | GPriority => PriorityCall
  | GPackets => PacketsCall | GSpawnAs => SpawnAsCall
  end.
Section Family.
Context `{Arch} {S : Type} {P : PalPort S}.
#[export] Instance group_of (n : GroupName) : ServiceGroup S (calls_of n) :=
  match n with
  | GServices => services_group | GKernel => kernel_group | GRuntime => runtime_group | GContext => context_group | GSupport => support_group
  | GTopology => topology_group | GProcess => process_group | GImage => image_group | GStreams => streams_group | GSockets => sockets_group
  | GSystem => system_group | GProcesses => processes_group | GTerminal => terminal_group | GWatches => watches_group | GMappings => mappings_group
  | GVolumes => volumes_group | GNetwork => network_group | GLocal => local_group | GAccounts => accounts_group | GPriority => priority_group
  | GPackets => packets_group | GSpawnAs => spawn_as_group
  end.

(** The statistics of every group are a ledger.  After any sequence of calls, whatever the provider answers, each
    counter has grown by the number of calls that were booked on it, up to its maximum; a call is booked on one counter
    at most, by what it returned. *)
Theorem groups_count (n : GroupName) (cs : list (calls_of n)) (g : Group S) (i : nat) : g_counts g i <= usize_max ->
  g_counts (sg_run cs g).1 i = Z.min usize_max (g_counts g i + lenZ (filter (fun o => o = Some i) (sg_run cs g).2)) /\
  length (sg_run cs g).2 = length cs.
Proof.
  intros Hi. rewrite sg_run_counts, increment_iter by done. split; [done |]. clear Hi i. revert g. induction cs as [| c cs IH]; intros g; [done |].
  simpl. destruct (sg_call c g) as [g1 st]. specialize (IH g1). destruct (sg_run cs g1) as [g2 log]. simpl in *. by rewrite IH.
Qed.
(** Every group answers with a status that it publishes for the call, and a call that fails leaves every output
    cleared, so that a consumer never reads what a failed provider left there.  A text or a list that does not fit is
    the exception: it reports the length it needs. *)
Theorem groups_clear (n : GroupName) (c : calls_of n) (g g' : Group S) (st : Z) : sg_call c g = (g', Some st) ->
  sg_published c st /\
  (NoDup ((sg_outputs c).*1 ++ sg_buffers c) -> st <> OK -> st <> BUFFER_TOO_SMALL -> Forall (fun o => cell_is g' o.1 o.2) (sg_outputs c)).
Proof.
  intros Hc. pose proof (sg_counts c g) as Hn. rewrite Hc in Hn. split; [apply Hn |]. intros Hnd Hok Hb. by apply (sg_clears c g g' st).
Qed.
End Family.
(** The port that provides nothing: two sockets that nobody gets. *)
Lemma groups_count_witness :
  let cs : list (calls_of GSockets) := [SoCreate 1 1 64; SoClose 8] in
  g_counts (sg_run (H := arch64) (ServiceGroup0 := @group_of arch64 unit absent_port GSockets) cs (mkGroup (fun _ => 0) ∅ tt)).1 14 = 2.
Proof.
  intros cs. destruct (@groups_count arch64 unit absent_port GSockets cs (mkGroup (fun _ => 0) ∅ tt) 14 ltac:(vm_compute; done)) as [Hc _].
  rewrite Hc. vm_compute. done.
Defined.
Lemma groups_clear_witness :
  let c : calls_of GSockets := SoCreate 1 1 64 in
  let '(g', _) := sg_call (H := arch64) (ServiceGroup := @group_of arch64 unit absent_port GSockets) c (mkGroup (fun _ => 0) {[64 := [77]]} tt) in
  cell_is g' 64 [0].
Proof.
  intros c. match goal with |- context [@sg_call ?a ?b ?d ?e c ?g] => destruct (@sg_call a b d e c g) as [g' st] eqn:Hc end.
  destruct st as [st |]; [| apply (f_equal snd) in Hc; vm_compute in Hc; discriminate].
  destruct (@groups_clear arch64 unit absent_port GSockets c _ _ _ Hc) as [_ Hx].
  assert (st = UNSUPPORTED) as -> by (apply (f_equal snd) in Hc; vm_compute in Hc; injection Hc as <-; reflexivity).
  specialize (Hx ltac:(by apply (bool_decide_unpack _)) ltac:(done) ltac:(done)). vm_compute in Hx. by inversion Hx.
Defined.

(** ** What the front ends compute *)
Section Answers.
Context `{Arch} {S : Type} {So : Sockets S}.
Implicit Types (g : Group S).

(** The entries of a valid poll. *)
Definition pollable (e : PollEntry) : Prop := pe_socket e <> 0 /\ Z.land (requested e) (Z.lnot (Z.lor POLL_READ POLL_WRITE)) = 0.
(** What an entry may report: what it asked for, an error or a hangup. *)
Definition reportable (e : PollEntry) : Z := Z.lor (Z.lor (Z.land (requested e) (Z.lor POLL_READ POLL_WRITE)) POLL_ERROR) POLL_HANGUP.
Lemma poll_prepare_valid es : Forall pollable es -> poll_prepare es = (set_triggered 0 <$> es, true).
Proof.
  induction 1 as [| e es [Hs Hr] _ IH]; [done |]. cbn [poll_prepare]. apply Z.eqb_neq in Hs. rewrite Hs, Hr. simpl. by rewrite IH.
Qed.
Lemma land_within a b : Z.land (Z.land a b) (Z.lnot b) = 0.
Proof.
  apply Z.bits_inj'. intros n Hn. rewrite !Z.land_spec, Z.lnot_spec, Z.bits_0 by done. by destruct (Z.testbit a n), (Z.testbit b n).
Qed.
(** What [poll] reports.  For a valid array it keeps the sockets and the events that were asked for; on success
    [ready] counts the entries that report something, and an entry reports only what it asked for, an error or a
    hangup, whatever the provider wrote there; after a failure no entry reports anything. *)
Theorem poll_reports (entries : Z) (es : list PollEntry) (timeout_ns channel ready : Z) g g' st :
  entries <> ready -> Forall pollable es -> lenZ es <= MAX_POLL -> channel < POLL_CHANNELS \/ channel = NO_CHANNEL ->
  aligned_output align_of_usize entries = true -> aligned_output align_of_usize ready = true ->
  sg_call (SoPoll entries es timeout_ns channel ready) g = (g', Some st) ->
  exists es', cell_is g' entries (poll_fields es') /\ pe_socket <$> es' = pe_socket <$> es /\ requested <$> es' = requested <$> es /\
    if st =? OK then cell_is g' ready [lenZ (filter (fun e => triggered e <> 0) es')] /\
                     Forall (fun e => Z.land (triggered e) (Z.lnot (reportable e)) = 0) es'
    else cell_is g' ready [0] /\ Forall (fun e => triggered e = 0) es'.
Proof.
  intros Hne Hv Hlen Hch Ha Hb. cbn [sg_call sockets_group recorded_group sockets_query]. unfold run_query, sockets_poll. simpl q_bad. simpl q_act.
  rewrite Hb. simpl negb. cbn iota. unfold refuse.
  replace ((MAX_POLL <? lenZ es) || (POLL_CHANNELS <=? channel) && negb (channel =? NO_CHANNEL) || negb (lenZ es =? 0) && negb (aligned_output align_of_usize entries)) with false.
  2: { rewrite Ha. simpl negb. rewrite andb_false_r, orb_false_r. symmetry. apply orb_false_iff. split; [lia |].
       destruct Hch as [? | ->]; [destruct (Z.leb_spec POLL_CHANNELS channel); [lia | done] | rewrite Z.eqb_refl; apply andb_false_r]. }
  unfold poll_act. rewrite poll_prepare_valid by done. cbn iota zeta. simpl negb. cbn iota.
  destruct (so_poll _ _ _ _) as [p [[[] | e] answers]].
  - set (es' := imap _ _). intros [= <- <-]. exists es'. simpl. unfold cell_is. simpl.
    split_and!; [rewrite lookup_insert_ne by done; apply lookup_insert_eq | | | apply lookup_insert_eq |].
    + subst es'. apply list_eq. intros i. rewrite !list_lookup_fmap, list_lookup_imap, list_lookup_fmap. by destruct (es !! i).
    + subst es'. apply list_eq. intros i. rewrite !list_lookup_fmap, list_lookup_imap, list_lookup_fmap. by destruct (es !! i).
    + apply Forall_lookup. intros i e. subst es'. rewrite list_lookup_imap, list_lookup_fmap. destruct (es !! i); [| done]. intros [= <-]. apply land_within.
  - unfold record_by, g_record. intros [= <- <-]. exists (set_triggered 0 <$> (set_triggered 0 <$> es)).
    rewrite <- !list_fmap_compose. split_and!; [apply lookup_insert_eq | done | done |].
    replace ((if sockets_keeps _ _ _ then status_of e else OS_ERROR) =? OK) with false.
    + unfold cell_is. simpl. split; [rewrite !lookup_insert_ne by done; apply lookup_insert_eq |].
      apply Forall_fmap, Forall_true. done.
    + symmetry. apply Z.eqb_neq. destruct (sockets_keeps _ _ _); [apply status_of_error | done].
Qed.

(** Addresses that the boundary passes on: normalized, and of the family that was asked for. *)
Definition passes (family : Z) (a : Address) : Prop := normalized a = Some a /\ (family = 0 \/ Net.family a = family).
Lemma fill_from_idem n l : fill_from n (fill_from n l) = fill_from n l.
Proof.
  unfold fill_from. destruct (decide (n <= length l)%nat).
  - rewrite length_app, length_take, length_replicate, take_app_le by (rewrite length_take; lia). rewrite take_take. do 2 f_equal; lia.
  - rewrite (take_ge l) by lia. replace (length l - n)%nat with 0%nat by lia. simpl. rewrite app_nil_r, take_ge by lia.
    replace (length l - n)%nat with 0%nat by lia. simpl. by rewrite app_nil_r.
Qed.
Lemma normalized_idem a b : normalized a = Some b -> normalized b = Some b /\ Net.family b = Net.family a.
Proof.
  unfold normalized. destruct (Z.eqb_spec (family a) IPV4) as [He |]; [| destruct (Z.eqb_spec (family a) IPV6) as [He |]; [| done]].
  - intros [= <-]. simpl. rewrite He. simpl. by rewrite fill_from_idem.
  - intros [= <-]. rewrite He. done.
Qed.
Lemma resolved_passes family l good : resolved family l = Some good -> length good = length l /\ Forall (passes family) good.
Proof.
  unfold resolved. intros Hm. apply mapM_Some in Hm. split; [by apply Forall2_length in Hm |].
  induction Hm as [| a b l good Hab _ IH]; [done |]. constructor; [| done]. destruct (normalized a) as [a' |] eqn:Hn; [| done].
  apply normalized_idem in Hn as [Hn1 Hn2]. destruct (Z.eqb_spec family 0); [injection Hab as <-; by split; [| left] |].
  simpl in Hab. destruct (Z.eqb_spec (Net.family a') family); [| done]. injection Hab as <-. by split; [| right].
Qed.
(** [resolve] passes on only addresses that are normalized and of the family asked for.  On success [count] of
    them, at least one and at most [capacity], lie at the start of the caller's array; after a failure the array is
    cleared and the count is 0, so that no address that was not checked is left there. *)
Theorem resolve_passes (nm : Borrow) (fam out capacity count : Z) bytes g g' st :
  out <> count -> path nm = Some bytes -> lenZ bytes <= MAX_HOST_NAME -> 0 < capacity <= MAX_RESOLVED -> fam <= IPV6 ->
  aligned_output align_of_Address out = true -> aligned_output align_of_usize count = true ->
  (forall text f n p p' found stored, so_resolve text f n p = (p', Ok (found, stored)) -> 0 <= found) ->
  sg_call (SoResolve nm fam out capacity count) g = (g', Some st) ->
  if st =? OK then
    exists n good rest, 1 <= n <= capacity /\ cell_is g' count [n] /\ cell_is g' out (addresses_fields (good ++ rest)) /\
      lenZ good = n /\ Forall (passes fam) good
  else cell_is g' count [0] /\ cell_is g' out (addresses_fields (replicate (Z.to_nat capacity) address_default)).
Proof.
  intros Hne Hp Hlen Hcap Hfam Ha Hb Hfound. cbn [sg_call sockets_group recorded_group sockets_query]. unfold run_query, sockets_resolve. simpl q_bad. simpl q_act.
  rewrite Hb. simpl negb. cbn iota. unfold refuse. apply path_Some in Hp as Hp'. destruct Hp' as (-> & _).
  replace ((capacity =? 0) || (MAX_RESOLVED <? capacity) || negb (aligned_output align_of_Address out) || (IPV6 <? fam) || (MAX_HOST_NAME <? lenZ (b_bytes nm)))
    with false by (rewrite Ha; simpl negb; lia).
  unfold with_some. rewrite Hp. unfold resolve_act. destruct (g_call _ _) as [g1 r] eqn:Hc. apply g_call_frame in Hc as (_ & Hcells & Hop). cbn zeta.
  assert (forall st0, st0 <> OK ->
    (let '(g2, st2) := (let '(g2, st2) := (if st0 =? OK then g1 else g_put out (addresses_fields (replicate (Z.to_nat capacity) address_default)) g1, st0) in
       record_by (sockets_keeps (SoResolve nm fam out capacity count)) 14 st2 13 g2) in (g2, Some st2)) = (g', Some st) ->
    (st =? OK) = false /\ cell_is g' count [0] /\ cell_is g' out (addresses_fields (replicate (Z.to_nat capacity) address_default))) as Hfail.
  { intros st0 Hst. apply Z.eqb_neq in Hst as Hst'. rewrite Hst'. unfold record_by, g_record. intros [= <- <-]. unfold cell_is. simpl.
    split_and!; [| rewrite lookup_insert_ne by done; rewrite Hcells; simpl; rewrite lookup_insert_ne by done; apply lookup_insert_eq | apply lookup_insert_eq].
    apply Z.eqb_neq. by destruct (sockets_keeps _ _ _). }
  destruct r as [[found stored] | e]; [| intros Hx; by apply (Hfail _ (status_of_error e)) in Hx as (-> & ? & ?)].
  symmetry in Hop. apply Hfound in Hop. destruct (Z.eqb_spec found 0); [intros Hx; by apply (Hfail NOT_FOUND) in Hx as (-> & ? & ?) |].
  destruct (Z.ltb_spec capacity found); [intros Hx; by apply (Hfail OS_ERROR) in Hx as (-> & ? & ?) |].
  destruct (resolved _ _) as [good |] eqn:Hres; [| intros Hx; by apply (Hfail OS_ERROR) in Hx as (-> & ? & ?)].
  apply resolved_passes in Hres as [Hl Hgood]. unfold record_by, g_record. simpl. intros [= <- <-].
  eexists found, good, _. unfold cell_is. simpl. split_and!; [lia | lia | apply lookup_insert_eq | rewrite lookup_insert_ne by done; apply lookup_insert_eq | | done].
  unfold lenZ. rewrite Hl. unfold takeZ. rewrite length_take, length_app, length_drop, length_replicate. lia.
Qed.
End Answers.

(** ** Values that ports build *)
Section Builders.
Lemma byte_position_app l k : 0 ∉ l -> byte_position 0 (l ++ 0 :: k) = Some (length l).
Proof.
  induction l as [| x l IH]; intros Hn; [done |]. apply not_elem_of_cons in Hn as [Hx Hn]. simpl. destruct (Z.eqb_spec x 0); [congruence |]. by rewrite IH.
Qed.
Lemma cut_no_zero l : 0 ∉ cut l.
Proof.
  unfold cut. induction l as [| x l IH]; [set_solver |]. simpl. destruct (Z.eqb_spec x 0); [set_solver |].
  destruct (byte_position 0 l); simpl in *; (apply not_elem_of_cons; split; [congruence | done]).
Qed.
Lemma replicate_pos {A} n (x : A) : (0 < n)%nat -> exists k, replicate n x = x :: k.
Proof. destruct n; [lia |]. simpl. eauto. Qed.
(** A text without NUL that fits its field with a terminator. *)
Lemma field_terminated n l k : (length l <= k < n)%nat -> at_ (field n l) k = 0.
Proof. intros Hk. unfold at_, field. rewrite lookup_app_r by lia. by rewrite lookup_replicate_2 by lia. Qed.
Lemma cut_field n l : 0 ∉ l -> (length l < n)%nat -> cut (field n l) = l.
Proof.
  intros Hn Hl. unfold cut, field. destruct (replicate_pos (n - length l) 0 ltac:(lia)) as [k ->]. rewrite byte_position_app by done. simpl. apply take_app_length.
Qed.
Lemma clean_field n l : 0 ∉ l -> (length l < n)%nat -> clean (field n l) = field n l.
Proof.
  intros Hn Hl. unfold clean. rewrite cut_field by done. f_equal. unfold field. rewrite length_app, length_replicate. lia.
Qed.
Lemma field_first n l : l <> [] -> at_ (field n l) 0 = at_ l 0.
Proof. by destruct l. Qed.

(** What a port builds with the crate's constructors passes the checks that its answers go through.  An account
    with a name is accepted unchanged, and a volume status always agrees with itself; so a port that uses them is never
    told [OS_ERROR] for its answer. *)
Theorem builders_accepted (uid gid : Z) (nm hm sh : list Z) (a : Account) (total free available : Z) (fmt : list Z) :
  account_new uid gid nm hm sh = Some a -> cut nm <> [] ->
  account_answer (Some uid) a = Some a /\ volume_consistent (volume_status_new total free available fmt) = true.
Proof.
  intros Ha Hnm. split.
  - unfold account_new in Ha. destruct (Nat.leb_spec 256 (length (cut nm))); [done |]. destruct (Nat.leb_spec 1024 (length (cut hm))); [done |].
    destruct (Nat.leb_spec 256 (length (cut sh))); [done |]. injection Ha as <-. unfold account_answer. cbn [a_name home shell user_id group_id].
    pose proof (cut_no_zero nm). pose proof (cut_no_zero hm). pose proof (cut_no_zero sh).
    rewrite !clean_field by done. rewrite (field_terminated 256 (cut nm) 255), (field_terminated 1024), (field_terminated 256 (cut sh)) by lia.
    rewrite field_first, !Z.eqb_refl by done. destruct (cut nm) as [| x rest] eqn:He; [done |]. change (at_ (x :: rest) 0) with x.
    destruct (Z.eqb_spec x 0) as [-> |]; [set_solver |]. cbn [negb orb]. reflexivity.
  - unfold volume_consistent, volume_status_new. cbn [total_bytes free_bytes available_bytes format].
    rewrite (field_terminated 32) by (rewrite length_take; lia). lia.
Qed.
End Builders.
Lemma builders_accepted_witness :
  let a := default account_EMPTY (account_new 1000 100 [114; 111; 111; 116] [47; 0; 9] []) in
  account_answer (Some 1000) a = Some a /\ a_name a !! 4%nat = Some 0.
Proof.
  intros a. destruct (builders_accepted 1000 100 [114; 111; 111; 116] [47; 0; 9] [] a 10 20 30 [] ltac:(vm_compute; reflexivity) ltac:(done)) as [Ha _].
  split; [exact Ha | vm_compute; reflexivity].
Defined.
(** A provider that reports every event for every entry, and one that resolves to an address with junk behind it. *)
Definition loud : Sockets unit := let a := absent_sockets in {|
  sockets_PROVIDED := true; so_create := so_create; so_close := so_close; so_bind := so_bind; so_listen := so_listen; so_accept := so_accept;
  so_connect := so_connect; so_send := so_send; so_receive := so_receive; so_shutdown := so_shutdown; so_local_address := so_local_address;
  so_peer_address := so_peer_address; so_set_blocking := so_set_blocking; so_get_option := so_get_option; so_set_option := so_set_option;
  so_poll _ _ _ s := (s, (Ok tt, fun _ => 255)); so_wake := so_wake;
  so_resolve _ _ _ s := (s, Ok (1, [mkAddress IPV4 80 7 ([127; 0; 0; 1] ++ replicate 12 9)])); so_host_name := so_host_name |}.
Definition quiet_group : Group unit := mkGroup (fun _ => 0) ∅ tt.
Lemma poll_reports_witness :
  let '(g', _) := @sg_call arch64 unit _ (@sockets_group arch64 unit loud) (SoPoll 64 [mkPollEntry 8 POLL_READ 77] 0 NO_CHANNEL 128) quiet_group in
  cell_is g' 64 [8; 1; 13] /\ cell_is g' 128 [1].
Proof.
  destruct (sg_call _ quiet_group) as [g' st] eqn:Hc. destruct st as [st |]; [| apply (f_equal snd) in Hc; vm_compute in Hc; discriminate].
  destruct (@poll_reports arch64 unit loud 64 [mkPollEntry 8 POLL_READ 77] 0 NO_CHANNEL 128 quiet_group g' st) as (es' & Hx & Hs & Hr & _);
    [done | by repeat constructor | done | by right | done | done | exact Hc |].
  apply (f_equal fst) in Hc. simpl in Hc. subst g'. split; vm_compute; reflexivity.
Defined.
Lemma resolve_passes_witness :
  let '(g', st) := @sg_call arch64 unit _ (@sockets_group arch64 unit loud) (SoResolve (mkBorrow 32 [104]) IPV4 64 1 128) quiet_group in
  st = Some OK /\ exists good rest, cell_is g' 64 (addresses_fields (good ++ rest)) /\ Forall (passes IPV4) good.
Proof.
  destruct (sg_call _ quiet_group) as [g' st] eqn:Hc. assert (st = Some OK) as -> by (apply (f_equal snd) in Hc; vm_compute in Hc; by rewrite <- Hc).
  pose proof (@resolve_passes arch64 unit loud (mkBorrow 32 [104]) IPV4 64 1 128 [104] quiet_group g' OK) as Hx. simpl Z.eqb in Hx.
  destruct Hx as (n & good & rest & _ & _ & Ho & _ & Hp); [done | done | done | done | done | done | done | | exact Hc |]; [| eauto].
  intros text f n p p' found stored [= _ <- _]. lia.
Defined.
