(* ===== verification/Arena.v ===== *)
(** * Arena.v: linear storage from a static arena

    [Arena] of [src/crates/dotnet-pal-storage/src/lib.rs]: an array of blocks of 4096 bytes with one slot of bookkeeping per
    block.  The slot of the first block of an allocation holds the number of its blocks, the other blocks hold [TAIL],
    free blocks hold 0.  The specification is the map from first blocks to lengths; [arena_ok] relates the two, and the
    operations are proved against it.  The spin lock is held during each operation, which makes the operations atomic. *)
From S2P Require Import Prelude Port.
Local Open Scope Z_scope.

Definition ARENA_GRANULARITY : Z := 4096.
(** The slots, and the payload bytes by address. *)
Record Arena := mkArena { slots : list Z; payload : Z -> Z }.
Definition write_zero (address size : Z) (m : Z -> Z) : Z -> Z := fun a => if (address <=? a) && (a <? address + size) then 0 else m a.

Section Arena.
(** [blocks] is [BLOCKS], [CAPACITY / GRANULARITY] for the configured capacity; the array starts at [base]. *)
Context `{Arch} (blocks : nat) (base : Z).
Implicit Types (s : Arena) (m : gmap nat nat).
Definition ARENA_CAPACITY : Z := Z.of_nat blocks * ARENA_GRANULARITY.
Definition TAIL : Z := usize_max.
Definition arena_start : Arena := mkArena (replicate blocks 0) (fun _ => 0).
Definition block_address (first : nat) : Z := base + Z.of_nat first * ARENA_GRANULARITY.

(** [position(|&n| n != 0)] *)
Fixpoint occupied (l : list Z) : option nat :=
  match l with [] => None | n :: l => if negb (n =? 0) then Some O else S <$> occupied l end.
(** The loop of [allocate]; it makes at most one turn per block. *)
Fixpoint arena_search (fuel count : nat) (alignment : Z) (first : nat) (l : list Z) : option nat :=
  match fuel with
  | O => None
  | S fuel =>
      if (first <=? blocks - count)%nat then
        if negb (Z.land (block_address first) (alignment - 1) =? 0) then arena_search fuel count alignment (S first) l else
        match occupied (take count (drop first l)) with
        | Some o => arena_search fuel count alignment (first + (o + 1)) l
        | None => Some first
        end
      else None
  end.
(** [slots[first] = count; slots[first + 1..first + count].fill(TAIL)] *)
Definition claim (first count : nat) (l : list Z) : list Z :=
  imap (fun i n => if (i =? first)%nat then Z.of_nat count else if (first <? i)%nat && (i <? first + count)%nat then TAIL else n) l.
Definition arena_allocate (size alignment : Z) : M Arena Error Z := fun s =>
  let count := Z.to_nat (size / ARENA_GRANULARITY) in
  if (count =? 0)%nat || (blocks <? count)%nat then (s, Err EOutOfMemory) else
  match arena_search (S blocks) count alignment 0 (slots s) with
  | Some first =>
      let address := block_address first in
      (mkArena (claim first count (slots s)) (write_zero address size (payload s)), Ok address)
  | None => (s, Err EOutOfMemory)
  end.
Definition slot_at (l : list Z) (i : nat) : Z := default 0 (l !! i).
(** [slots[first..first + count].fill(0)] *)
Definition unclaim (first count : nat) (l : list Z) : list Z :=
  imap (fun i n => if (first <=? i)%nat && (i <? first + count)%nat then 0 else n) l.
Definition arena_release (address size : Z) : M Arena Error unit := fun s =>
  if address <? base then (s, Err EInvalidArgument) else
  let offset := address - base in
  if (ARENA_CAPACITY <=? offset) || negb (offset mod ARENA_GRANULARITY =? 0) then (s, Err EInvalidArgument) else
  let first := Z.to_nat (offset / ARENA_GRANULARITY) in
  let count := slot_at (slots s) first in
  if (count =? 0) || (count =? TAIL) || negb (count =? size / ARENA_GRANULARITY) then (s, Err EInvalidArgument) else
  (mkArena (unclaim first (Z.to_nat count) (slots s)) (payload s), Ok tt).
(** The loop of [zero]: back to the first block of the allocation. *)
Fixpoint owner (l : list Z) (first : nat) : option nat :=
  if slot_at l first =? TAIL then match first with O => None | S first => owner l first end else Some first.
Definition arena_zero (address size : Z) : M Arena Error unit := fun s =>
  if address <? base then (s, Err EInvalidArgument) else
  let offset := address - base in
  if usize_max <? offset + size then (s, Err EInvalidArgument) else
  let finish := offset + size in
  if (size =? 0) || (ARENA_CAPACITY <? finish) then (s, Err EInvalidArgument) else
  match owner (slots s) (Z.to_nat (offset / ARENA_GRANULARITY)) with
  | None => (s, Err EInvalidArgument)
  | Some first =>
      let count := slot_at (slots s) first in
      if (count =? 0) || ((Z.of_nat first + count) * ARENA_GRANULARITY <? finish) then (s, Err EInvalidArgument) else
      (mkArena (slots s) (write_zero (base + offset) size (payload s)), Ok tt)
  end.
Definition arena_storage : LinearStorage Arena := {|
  linear_PROVIDED := true; linear_DYNAMIC := false; GRANULARITY := ARENA_GRANULARITY; CAPACITY := ARENA_CAPACITY;
  linear_allocate := arena_allocate; linear_zero := arena_zero; linear_release := arena_release |}.

(** ** The specification *)
(** Block [i] belongs to an allocation of [m]. *)
Definition covered m (i : nat) : Prop := map_Exists (fun f c => (f <= i < f + c)%nat) m.
#[local] Instance covered_dec m i : Decision (covered m i).
Proof. unfold covered. apply _. Defined.
Record arena_ok (l : list Z) m : Prop := {
  ao_length : length l = blocks;
  ao_range : forall f c, m !! f = Some c -> (0 < c)%nat /\ (f + c <= blocks)%nat;
  ao_disjoint : forall f c f' c', m !! f = Some c -> m !! f' = Some c' -> f <> f' -> (f + c <= f')%nat \/ (f' + c' <= f)%nat;
  ao_first : forall f c, m !! f = Some c -> l !! f = Some (Z.of_nat c);
  ao_tail : forall f c i, m !! f = Some c -> (f < i < f + c)%nat -> l !! i = Some TAIL;
  ao_free : forall i, (i < blocks)%nat -> ~ covered m i -> l !! i = Some 0;
}.
(** The arena lies in the address space, so that no length is [TAIL]. *)
Hypothesis arena_fits : 0 < base /\ base + ARENA_CAPACITY <= usize_max.

Lemma covered_elim m i : covered m i -> exists f c, m !! f = Some c /\ (f <= i < f + c)%nat.
Proof. intros (f & c & Hf & Hi). eauto. Qed.
Lemma covered_intro m i f c : m !! f = Some c -> (f <= i < f + c)%nat -> covered m i.
Proof. intros. by exists f, c. Qed.
Lemma blocks_small : Z.of_nat blocks < TAIL.
Proof. unfold TAIL, ARENA_CAPACITY, ARENA_GRANULARITY in *. lia. Qed.
(** The three kinds of slots. *)
Lemma slot_cases l m i : arena_ok l m -> (i < blocks)%nat ->
  (exists c, m !! i = Some c /\ l !! i = Some (Z.of_nat c) /\ 0 < Z.of_nat c < TAIL) \/
  (exists f c, m !! f = Some c /\ (f < i < f + c)%nat /\ l !! i = Some TAIL) \/
  (~ covered m i /\ l !! i = Some 0).
Proof.
  intros Hok Hi. destruct (decide (covered m i)) as [(f & c & Hf & Hr)%covered_elim | Hn]; [| right; right; split; [done | by apply (ao_free _ _ Hok)]].
  destruct (decide (f = i)) as [-> |].
  - left. exists c. destruct (ao_range _ _ Hok _ _ Hf). pose proof blocks_small. split_and!; [done | by apply (ao_first _ _ Hok) | lia | lia].
  - right; left. exists f, c. split_and!; [done | lia | lia | eapply (ao_tail _ _ Hok); [done | lia]].
Qed.
Lemma slot_free l m i : arena_ok l m -> l !! i = Some 0 <-> (i < blocks)%nat /\ ~ covered m i.
Proof.
  intros Hok. split.
  - intros Hl. assert (i < blocks)%nat as Hi by (rewrite <- (ao_length _ _ Hok); by eapply lookup_lt_Some). split; [done |].
    pose proof blocks_small. destruct (slot_cases l m i Hok Hi) as [(c & _ & Hc & ?) | [(f & c & _ & _ & Hc) | [? _]]]; [| | done]; rewrite Hc in Hl; injection Hl; lia.
  - intros [? ?]. by apply (ao_free _ _ Hok).
Qed.
Lemma start_ok : arena_ok (slots arena_start) ∅.
Proof.
  constructor; simpl; try (intros *; rewrite lookup_empty; done); [apply length_replicate |]. intros i Hi _. by apply lookup_replicate_2.
Qed.

(** ** Allocation *)
(** A place for [count] blocks at the asked alignment. *)
Definition place (l : list Z) (count : nat) (alignment : Z) (first : nat) : Prop :=
  (first + count <= blocks)%nat /\ Z.land (block_address first) (alignment - 1) = 0 /\
  forall i, (first <= i < first + count)%nat -> l !! i = Some 0.
Lemma occupied_spec l : match occupied l with
  | Some o => exists n, l !! o = Some n /\ n <> 0
  | None => forall i n, l !! i = Some n -> n = 0
  end.
Proof.
  induction l as [| n l IH]; [done |]. simpl. destruct (Z.eqb_spec n 0) as [-> |]; simpl; [| by exists n].
  destruct (occupied l) as [o |]; simpl; [done |]. intros [| i] x; [by intros [= <-] | apply IH].
Qed.
(** The search finds the first place, and none only if there is none: a block that is in use rules out every place up to it. *)
Lemma arena_search_spec l count alignment fuel first : length l = blocks -> (0 < count <= blocks)%nat -> (blocks + 1 <= fuel + first)%nat ->
  match arena_search fuel count alignment first l with
  | Some f => place l count alignment f /\ forall f', (first <= f' < f)%nat -> ~ place l count alignment f'
  | None => forall f', (first <= f')%nat -> ~ place l count alignment f'
  end.
Proof.
  intros Hlen Hc. revert first. induction fuel as [| fuel IH]; intros first Hf; cbn [arena_search].
  { intros f' Hge (Hp & _). lia. }
  destruct (Nat.leb_spec first (blocks - count)); [| intros f' Hge (Hp & _); lia].
  destruct (Z.eqb_spec (Z.land (block_address first) (alignment - 1)) 0) as [Ha | Ha]; simpl negb; cbn iota.
  - pose proof (occupied_spec (take count (drop first l))) as Hocc. destruct (occupied _) as [o |].
    + destruct Hocc as (n & Hn & Hnz). apply lookup_take_Some in Hn as [Hn Ho]. rewrite lookup_drop in Hn.
      assert (forall f', (first <= f' < first + (o + 1))%nat -> ~ place l count alignment f') as Hskip.
      { intros f' Hr (_ & _ & Hz). destruct (decide (first + o < f' + count)%nat).
        - specialize (Hz (first + o)%nat ltac:(lia)). rewrite Hz in Hn. congruence.
        - lia. }
      specialize (IH (first + (o + 1))%nat ltac:(lia)). destruct (arena_search _ _ _ _ _) as [f |].
      * destruct IH as [Hp Hmin]. split; [done |]. intros f' Hr. destruct (decide (f' < first + (o + 1))%nat); [apply Hskip | apply Hmin]; lia.
      * intros f' Hr. destruct (decide (f' < first + (o + 1))%nat); [apply Hskip | apply IH]; lia.
    + split; [| intros; lia]. split_and!; [lia | done |]. intros i Hi. destruct (lookup_lt_is_Some_2 l i) as [n Hn]; [lia |]. rewrite Hn. f_equal.
      apply (Hocc (i - first)%nat). rewrite lookup_take, decide_True by lia. rewrite lookup_drop. by replace (first + (i - first))%nat with i by lia.
  - specialize (IH (S first) ltac:(lia)). destruct (arena_search _ _ _ _ _) as [f |].
    + destruct IH as [Hp Hmin]. split; [done |]. intros f' Hr. destruct (decide (f' = first)) as [-> |]; [by intros (_ & ? & _) | apply Hmin; lia].
    + intros f' Hr. destruct (decide (f' = first)) as [-> |]; [by intros (_ & ? & _) | apply IH; lia].
Qed.
(** A place, by the specification. *)
Definition free_place m (count : nat) (alignment : Z) (first : nat) : Prop :=
  (first + count <= blocks)%nat /\ Z.land (block_address first) (alignment - 1) = 0 /\ forall i, (first <= i < first + count)%nat -> ~ covered m i.
Lemma arena_place_free l m count alignment first : arena_ok l m -> place l count alignment first <-> free_place m count alignment first.
Proof.
  intros Hok. unfold place, free_place. split; intros (Hb & Ha & Hz); split_and!; try done; intros i Hi.
  - by apply (slot_free l m i Hok), Hz.
  - apply (slot_free l m i Hok). split; [lia | by apply Hz].
Qed.
Lemma lookup_claim first count l i n : l !! i = Some n ->
  claim first count l !! i = Some (if (i =? first)%nat then Z.of_nat count else if (first <? i)%nat && (i <? first + count)%nat then TAIL else n).
Proof. intros Hi. unfold claim. by rewrite list_lookup_imap, Hi. Qed.
Lemma claim_ok l m first count alignment : arena_ok l m -> (0 < count)%nat -> free_place m count alignment first ->
  arena_ok (claim first count l) (<[first := count]> m).
Proof.
  intros Hok Hc (Hb & _ & Hfree). assert (m !! first = None) as Hnone.
  { destruct (m !! first) as [c |] eqn:Hf; [| done]. exfalso. apply (Hfree first ltac:(lia)). destruct (ao_range _ _ Hok _ _ Hf).
    eapply covered_intro; [done | lia]. }
  assert (forall f c, m !! f = Some c -> (f + c <= first)%nat \/ (first + count <= f)%nat) as Hapart.
  { intros f c Hf. destruct (ao_range _ _ Hok _ _ Hf). destruct (decide (f + c <= first)%nat); [by left | right].
    destruct (decide (first + count <= f)%nat); [done | exfalso]. apply (Hfree (Nat.max f first) ltac:(lia)). eapply covered_intro; [done | lia]. }
  assert (forall i, (i < blocks)%nat -> exists n, l !! i = Some n) as Hlook.
  { intros i Hi. apply lookup_lt_is_Some_2. by rewrite (ao_length _ _ Hok). }
  constructor.
  - unfold claim. rewrite length_imap. apply (ao_length _ _ Hok).
  - intros f c [[<- <-] | [Hne Hf]]%lookup_insert_Some; [lia | by apply (ao_range _ _ Hok)].
  - intros f c f' c' [[<- <-] | [Hne Hf]]%lookup_insert_Some [[<- <-] | [Hne' Hf']]%lookup_insert_Some Hd; [done | | |].
    + destruct (Hapart _ _ Hf'); lia.
    + destruct (Hapart _ _ Hf); lia.
    + by eapply (ao_disjoint _ _ Hok).
  - intros f c [[<- <-] | [Hne Hf]]%lookup_insert_Some.
    + destruct (Hlook first ltac:(lia)) as [n Hn]. rewrite (lookup_claim _ _ _ _ n Hn), Nat.eqb_refl. done.
    + destruct (ao_range _ _ Hok _ _ Hf). rewrite (lookup_claim _ _ _ _ (Z.of_nat c)) by by apply (ao_first _ _ Hok).
      destruct (Hapart _ _ Hf); rewrite (proj2 (Nat.eqb_neq f first)) by lia; f_equal;
        destruct (Nat.ltb_spec first f), (Nat.ltb_spec f (first + count)); simpl; lia.
  - intros f c i [[<- <-] | [Hne Hf]]%lookup_insert_Some Hi.
    + destruct (Hlook i ltac:(lia)) as [n Hn]. rewrite (lookup_claim _ _ _ _ n Hn), (proj2 (Nat.eqb_neq i first)) by lia.
      rewrite (proj2 (Nat.ltb_lt first i)), (proj2 (Nat.ltb_lt i (first + count))) by lia. done.
    + rewrite (lookup_claim _ _ _ _ TAIL) by by eapply (ao_tail _ _ Hok). destruct (Hapart _ _ Hf); rewrite (proj2 (Nat.eqb_neq i first)) by lia; by destruct (_ && _).
  - intros i Hi Hn. assert (~ covered m i) as Hm.
    { intros (f & c & Hf & Hr)%covered_elim. apply Hn. eapply covered_intro; [| done]. rewrite lookup_insert_ne; [done | congruence]. }
    assert (~ (first <= i < first + count)%nat) as Ho. { intros Hr. apply Hn. eapply covered_intro; [apply lookup_insert_eq | done]. }
    rewrite (lookup_claim _ _ _ _ 0) by by apply (ao_free _ _ Hok). rewrite (proj2 (Nat.eqb_neq i first)) by lia.
    f_equal. destruct (Nat.ltb_spec first i), (Nat.ltb_spec i (first + count)); simpl; lia.
Qed.

(** ** Release *)
Lemma lookup_unclaim first count l i n : l !! i = Some n ->
  unclaim first count l !! i = Some (if (first <=? i)%nat && (i <? first + count)%nat then 0 else n).
Proof. intros Hi. unfold unclaim. by rewrite list_lookup_imap, Hi. Qed.
Lemma unclaim_ok l m first count : arena_ok l m -> m !! first = Some count -> arena_ok (unclaim first count l) (delete first m).
Proof.
  intros Hok Hm. assert (forall f c, delete first m !! f = Some c -> m !! f = Some c /\ ((f + c <= first)%nat \/ (first + count <= f)%nat)) as Hapart.
  { intros f c [Hne Hf]%lookup_delete_Some. split; [done |]. by eapply (ao_disjoint _ _ Hok). }
  assert (forall i, ~ (first <= i < first + count)%nat -> (first <=? i)%nat && (i <? first + count)%nat = false) as Hout.
  { intros i Hi. destruct (Nat.leb_spec first i), (Nat.ltb_spec i (first + count)); simpl; lia. }
  constructor.
  - unfold unclaim. rewrite length_imap. apply (ao_length _ _ Hok).
  - intros f c [Hf _]%Hapart. by apply (ao_range _ _ Hok).
  - intros f c f' c' [Hf _]%Hapart [Hf' _]%Hapart. by eapply (ao_disjoint _ _ Hok).
  - intros f c [Hf Ho]%Hapart. destruct (ao_range _ _ Hok _ _ Hf). rewrite (lookup_unclaim _ _ _ _ (Z.of_nat c)) by by apply (ao_first _ _ Hok). by rewrite Hout by lia.
  - intros f c i [Hf Ho]%Hapart Hi. rewrite (lookup_unclaim _ _ _ _ TAIL) by by eapply (ao_tail _ _ Hok). by rewrite Hout by lia.
  - intros i Hi Hn. destruct (lookup_lt_is_Some_2 l i) as [n Hl]; [by rewrite (ao_length _ _ Hok) |]. rewrite (lookup_unclaim _ _ _ _ n Hl).
    destruct (decide (first <= i < first + count)%nat) as [Hr |]; [by rewrite (proj2 (Nat.leb_le first i)), (proj2 (Nat.ltb_lt i (first + count))) by lia |].
    rewrite Hout by done. rewrite <- Hl. apply (ao_free _ _ Hok _ Hi). intros (f & c & Hf & Hr)%covered_elim. apply Hn.
    eapply covered_intro; [| done]. rewrite lookup_delete_ne; [done |]. intros ->. rewrite Hm in Hf. injection Hf as ->. done.
Qed.
Lemma slot_at_first l m i : arena_ok l m -> (i < blocks)%nat -> slot_at l i <> 0 -> slot_at l i <> TAIL -> m !! i = Some (Z.to_nat (slot_at l i)).
Proof.
  intros Hok Hi. unfold slot_at. destruct (slot_cases l m i Hok Hi) as [(c & Hm & -> & _) | [(f & c & _ & _ & ->) | [_ ->]]]; simpl; try done.
  intros _ _. by rewrite Nat2Z.id.
Qed.

(** ** Zeroing *)
Lemma owner_spec l m i : arena_ok l m -> (i < blocks)%nat ->
  match owner l i with
  | Some f => if slot_at l f =? 0 then ~ covered m i else exists c, m !! f = Some c /\ slot_at l f = Z.of_nat c /\ (f <= i)%nat /\
                (forall f' c', m !! f' = Some c' -> (f' <= i < f' + c')%nat -> f' = f)
  | None => False
  end.
Proof.
  intros Hok Hi.
  assert (forall j f c, m !! f = Some c -> (f <= j < f + c)%nat -> owner l j = Some f) as Hback.
  { intros j f c Hf. pose proof blocks_small. destruct (ao_range _ _ Hok _ _ Hf). induction j as [| j IH]; intros Hr.
    - assert (f = 0%nat) as -> by lia. simpl. unfold slot_at. rewrite (ao_first _ _ Hok _ _ Hf). simpl. by rewrite (proj2 (Z.eqb_neq _ TAIL)) by lia.
    - simpl. unfold slot_at. destruct (decide (f = S j)) as [-> |].
      + rewrite (ao_first _ _ Hok _ _ Hf). simpl. by rewrite (proj2 (Z.eqb_neq _ TAIL)) by lia.
      + rewrite (ao_tail _ _ Hok _ _ (S j) Hf) by lia. simpl. rewrite Z.eqb_refl. apply IH. lia. }
  destruct (decide (covered m i)) as [(f & c & Hf & Hr)%covered_elim | Hn].
  - rewrite (Hback _ _ _ Hf Hr). destruct (ao_range _ _ Hok _ _ Hf). unfold slot_at. rewrite (ao_first _ _ Hok _ _ Hf). simpl.
    rewrite (proj2 (Z.eqb_neq _ 0)) by lia. exists c. split_and!; [done | done | lia |].
    intros f' c' Hf' Hr'. destruct (decide (f' = f)); [done |]. destruct (ao_disjoint _ _ Hok _ _ _ _ Hf' Hf); lia.
  - assert (slot_at l i = 0) as Hz by (unfold slot_at; by rewrite (ao_free _ _ Hok _ Hi Hn)).
    pose proof blocks_small. replace (owner l i) with (Some i); [by rewrite Hz |].
    destruct i; simpl; rewrite Hz, (proj2 (Z.eqb_neq 0 TAIL)) by lia; done.
Qed.

(** ** The operations against the specification *)
(** The arena allocates by first fit.  An allocation of [count] blocks succeeds exactly when somewhere that many
    blocks in a row are free at the asked alignment; it takes the first such place, which no other allocation
    covers, and hands it out zeroed without touching any other byte.  Otherwise it fails and changes nothing. *)
Theorem arena_allocate_first_fit s m (size alignment : Z) : arena_ok (slots s) m -> ARENA_GRANULARITY <= size ->
  let count := Z.to_nat (size / ARENA_GRANULARITY) in
  match arena_allocate size alignment s with
  | (s', Ok address) => exists first, address = block_address first /\ free_place m count alignment first /\
      (forall f, (f < first)%nat -> ~ free_place m count alignment f) /\ arena_ok (slots s') (<[first := count]> m) /\
      forall a, payload s' a = if decide (address <= a < address + size) then 0 else payload s a
  | (s', Err e) => e = EOutOfMemory /\ s' = s /\ forall first, ~ free_place m count alignment first
  end.
Proof.
  intros Hok Hsize count. unfold arena_allocate. fold count.
  assert (0 < count)%nat as Hc. { subst count. unfold ARENA_GRANULARITY in *. assert (1 <= size / 4096) by (apply Z.div_le_lower_bound; lia). lia. }
  rewrite (proj2 (Nat.eqb_neq count 0)) by lia. simpl orb. destruct (Nat.ltb_spec blocks count).
  { split_and!; [done | done |]. intros first (Hb & _). lia. }
  pose proof (arena_search_spec (slots s) count alignment (S blocks) 0 (ao_length _ _ Hok) ltac:(lia) ltac:(lia)) as Hsearch.
  destruct (arena_search _ _ _ _ _) as [first |].
  - destruct Hsearch as [Hp Hmin]. apply (arena_place_free _ m) in Hp; [| done]. exists first. split_and!; [done | done | | by eapply claim_ok |].
    + intros f Hf Hfree. apply (Hmin f ltac:(lia)). by apply (arena_place_free _ m).
    + intros a. simpl. unfold write_zero. case_decide; destruct (Z.leb_spec (block_address first) a), (Z.ltb_spec a (block_address first + size)); simpl; lia.
  - split_and!; [done | done |]. intros first Hfree. apply (Hsearch first ltac:(lia)). by apply (arena_place_free _ m).
Qed.
Lemma block_offset first : block_address first - base = Z.of_nat first * ARENA_GRANULARITY.
Proof. unfold block_address. lia. Qed.
Lemma block_div first r : 0 <= r < ARENA_GRANULARITY -> Z.to_nat ((Z.of_nat first * ARENA_GRANULARITY + r) / ARENA_GRANULARITY) = first.
Proof. intros Hr. rewrite Z.div_add_l, Z.div_small by (unfold ARENA_GRANULARITY in *; lia). lia. Qed.
(** Releasing returns exactly what was allocated: it succeeds exactly for the address of an allocation with its
    own number of blocks, which is then free again, and anything else is refused without a change. *)
Theorem arena_release_exact s m (address size : Z) : arena_ok (slots s) m ->
  match arena_release address size s with
  | (s', Ok _) => exists first count, address = block_address first /\ m !! first = Some count /\ size / ARENA_GRANULARITY = Z.of_nat count /\
      arena_ok (slots s') (delete first m) /\ payload s' = payload s
  | (s', Err e) => e = EInvalidArgument /\ s' = s /\
      forall first count, m !! first = Some count -> address = block_address first -> size / ARENA_GRANULARITY <> Z.of_nat count
  end.
Proof.
  intros Hok. unfold arena_release.
  destruct (Z.ltb_spec address base). { split_and!; [done | done |]. intros first count _ ->. unfold block_address, ARENA_GRANULARITY in *. lia. }
  destruct (Z.leb_spec ARENA_CAPACITY (address - base)).
  { split_and!; [done | done |]. intros first count Hm ->. destruct (ao_range _ _ Hok _ _ Hm). rewrite block_offset in *. unfold ARENA_CAPACITY, ARENA_GRANULARITY in *. lia. }
  simpl orb. destruct (Z.eqb_spec ((address - base) mod ARENA_GRANULARITY) 0) as [Hmod |]; simpl negb; cbn iota.
  2: { split_and!; [done | done |]. intros first count _ ->. rewrite block_offset, Z.mod_mul in *; done. }
  set (first := Z.to_nat ((address - base) / ARENA_GRANULARITY)).
  assert (address = block_address first) as Ha.
  { subst first. unfold block_address. pose proof (Z.div_mod (address - base) ARENA_GRANULARITY ltac:(done)).
    assert (0 <= (address - base) / ARENA_GRANULARITY) by (apply Z.div_pos; unfold ARENA_GRANULARITY in *; lia). unfold ARENA_GRANULARITY in *. lia. }
  assert (first < blocks)%nat as Hfirst by (rewrite Ha, block_offset in *; unfold ARENA_CAPACITY, ARENA_GRANULARITY in *; lia).
  assert (forall f, address = block_address f -> f = first) as Huniq by (intros f; rewrite Ha; unfold block_address, ARENA_GRANULARITY; lia).
  assert (forall f c, m !! f = Some c -> address = block_address f -> f = first /\ slot_at (slots s) first = Z.of_nat c /\ (0 < c <= blocks)%nat) as Hslot.
  { intros f c Hm ->%Huniq. destruct (ao_range _ _ Hok _ _ Hm). split_and!; [done | | lia | lia]. unfold slot_at. by rewrite (ao_first _ _ Hok _ _ Hm). }
  pose proof blocks_small. destruct (Z.eqb_spec (slot_at (slots s) first) 0) as [Hz | Hz].
  { split_and!; [done | done |]. intros f c Hm (-> & Hs & ?)%(Hslot _ _ Hm). lia. }
  destruct (Z.eqb_spec (slot_at (slots s) first) TAIL) as [Ht | Ht].
  { split_and!; [done | done |]. intros f c Hm (-> & Hs & ?)%(Hslot _ _ Hm). lia. }
  destruct (Z.eqb_spec (slot_at (slots s) first) (size / ARENA_GRANULARITY)) as [He | He]; simpl.
  - pose proof (slot_at_first _ _ _ Hok Hfirst Hz Ht) as Hm. destruct (Hslot _ _ Hm Ha) as (_ & Hs & _).
    exists first, (Z.to_nat (slot_at (slots s) first)). split_and!; [done | done | lia | by apply unclaim_ok | done].
  - split_and!; [done | done |]. intros f c Hm (-> & Hs & ?)%(Hslot _ _ Hm). lia.
Qed.
(** Zeroing clears exactly the given range, and only a range that lies within one allocation: any other range,
    however it overlaps free blocks or the next allocation, is refused without a change. *)
Theorem arena_zero_exact s m (address size : Z) : arena_ok (slots s) m -> 0 <= size ->
  let within := exists f c, m !! f = Some c /\ block_address f <= address /\ address + size <= block_address (f + c) /\ 0 < size in
  match arena_zero address size s with
  | (s', Ok _) => within /\ slots s' = slots s /\ forall a, payload s' a = if decide (address <= a < address + size) then 0 else payload s a
  | (s', Err e) => e = EInvalidArgument /\ s' = s /\ ~ within
  end.
Proof.
  intros Hok Hsize within.
  assert (within -> base <= address /\ address + size <= base + ARENA_CAPACITY /\ 0 < size) as Hin.
  { intros (f & c & Hm & ? & ? & ?). destruct (ao_range _ _ Hok _ _ Hm). unfold block_address, ARENA_CAPACITY, ARENA_GRANULARITY in *. lia. }
  unfold arena_zero. destruct (Z.ltb_spec address base); [split_and!; [done | done | intros ?%Hin; lia] |].
  destruct (Z.ltb_spec usize_max (address - base + size)); [split_and!; [done | done | intros ?%Hin; lia] |].
  destruct (Z.eqb_spec size 0); [split_and!; [done | done | intros ?%Hin; lia] |].
  destruct (Z.ltb_spec ARENA_CAPACITY (address - base + size)); simpl; [split_and!; [done | done | intros ?%Hin; lia] |].
  set (i := Z.to_nat ((address - base) / ARENA_GRANULARITY)).
  assert (Z.of_nat i * ARENA_GRANULARITY <= address - base < Z.of_nat (i + 1) * ARENA_GRANULARITY) as Hi.
  { pose proof (Z.div_mod (address - base) ARENA_GRANULARITY ltac:(done)). pose proof (Z.mod_pos_bound (address - base) ARENA_GRANULARITY ltac:(done)).
    assert (0 <= (address - base) / ARENA_GRANULARITY) by (apply Z.div_pos; unfold ARENA_GRANULARITY in *; lia). subst i. unfold ARENA_GRANULARITY in *. lia. }
  assert (i < blocks)%nat as Hib by (unfold ARENA_CAPACITY, ARENA_GRANULARITY in *; lia).
  assert (within -> exists f c, m !! f = Some c /\ (f <= i < f + c)%nat /\ address + size <= block_address (f + c)) as Hcov.
  { intros (f & c & Hm & ? & ? & ?). exists f, c. split_and!; [done | | | done]; unfold block_address, ARENA_GRANULARITY in *; lia. }
  pose proof (owner_spec (slots s) m i Hok Hib) as Ho. destruct (owner _ _) as [f |]; [| done].
  destruct (Z.eqb_spec (slot_at (slots s) f) 0); simpl.
  { split_and!; [done | done |]. intros (f' & c' & Hm & Hr & _)%Hcov. apply Ho. eapply covered_intro; done. }
  destruct Ho as (c & Hm & Hs & Hle & Huniq). rewrite Hs. destruct (Z.ltb_spec ((Z.of_nat f + Z.of_nat c) * ARENA_GRANULARITY) (address - base + size)).
  - split_and!; [done | done |]. intros (f' & c' & Hm' & Hr & He)%Hcov. pose proof (Huniq _ _ Hm' Hr) as ->. rewrite Hm in Hm'. injection Hm' as <-.
    unfold block_address in He. lia.
  - split_and!; [| done |].
    + exists f, c. split_and!; [done | | | lia]; unfold block_address, ARENA_GRANULARITY in *; lia.
    + intros a. simpl. unfold write_zero. replace (base + (address - base)) with address by lia.
      case_decide; destruct (Z.leb_spec address a), (Z.ltb_spec a (address + size)); simpl; lia.
Qed.
End Arena.

(** An arena of four blocks with an allocation of two. *)
Module ArenaSample.
#[local] Existing Instance arch64.
Lemma base_fits : 0 < 65536 /\ 65536 + ARENA_CAPACITY 4 <= usize_max.
Proof. vm_compute. split; congruence. Qed.
Definition used : Arena := (arena_allocate 4 65536 8192 8192 (arena_start 4)).1.
Lemma used_ok : arena_ok 4 (slots used) {[ O := 2%nat ]}.
Proof.
  apply (claim_ok 4 65536 (replicate 4 0) ∅ 0 2 8192); [apply start_ok | lia |].
  split_and!; [lia | vm_compute; done |]. intros i _ (f & c & Hf & _)%covered_elim. by rewrite lookup_empty in Hf.
Qed.
Lemma arena_allocate_first_fit_witness :
  exists first, (arena_allocate 4 65536 4096 8192 used).2 = Ok (block_address 65536 first) /\ forall f, (f < first)%nat -> ~ free_place 4 65536 {[ O := 2%nat ]} 1 8192 f.
Proof.
  pose proof (arena_allocate_first_fit 4 65536 base_fits used _ 4096 8192 used_ok ltac:(done)) as Hx.
  destruct (arena_allocate 4 65536 4096 8192 used) as [s' [address | e]] eqn:E; [| apply (f_equal snd) in E; vm_compute in E; discriminate].
  destruct Hx as (first & -> & _ & Hmin & _). eauto.
Defined.
Lemma arena_release_exact_witness :
  (arena_release 4 65536 65536 8192 used).2 = Ok tt /\ (arena_release 4 65536 65536 4096 used).2 = Err EInvalidArgument.
Proof.
  pose proof (arena_release_exact 4 65536 base_fits used _ 65536 8192 used_ok) as Hx. pose proof (arena_release_exact 4 65536 base_fits used _ 65536 4096 used_ok) as Hy.
  destruct (arena_release 4 65536 65536 8192 used) as [s1 [[] | e1]].
  - destruct (arena_release 4 65536 65536 4096 used) as [s2 [[] | e2]].
    + exfalso. destruct Hy as (f & c & _ & Hm & Hc & _). apply lookup_singleton_Some in Hm as [<- <-]. vm_compute in Hc. congruence.
    + destruct Hy as (-> & _). done.
  - exfalso. destruct Hx as (_ & _ & Hn). by apply (Hn O 2%nat); vm_compute.
Defined.
Lemma arena_zero_exact_witness :
  (arena_zero 4 65536 65537 100 used).2 = Ok tt /\ (arena_zero 4 65536 65537 8192 used).2 = Err EInvalidArgument.
Proof.
  pose proof (arena_zero_exact 4 65536 base_fits used _ 65537 100 used_ok ltac:(lia)) as Hx. pose proof (arena_zero_exact 4 65536 base_fits used _ 65537 8192 used_ok ltac:(lia)) as Hy.
  destruct (arena_zero 4 65536 65537 100 used) as [s1 [[] | e1]].
  - destruct (arena_zero 4 65536 65537 8192 used) as [s2 [[] | e2]].
    + exfalso. destruct Hy as ((f & c & Hm & _ & Hc & _) & _). apply lookup_singleton_Some in Hm as [<- <-]. vm_compute in Hc. congruence.
    + destruct Hy as (-> & _). done.
  - exfalso. destruct Hx as (_ & _ & Hn). apply Hn. exists O, 2%nat. split_and!; vm_compute; congruence.
Defined.
End ArenaSample.
