(* ===== verification/Ledger.v ===== *)
(** * Ledger.v: linear storage on demand, with an ownership ledger

    [Ledger] of [src/crates/dotnet-pal-storage/src/lib.rs]: blocks come from a [Backing] of the embedder, which is not
    trusted.  A fixed table of regions records what is owned; [owned] bounds it by the configured capacity.  The
    theorems hold for every backing, also one that answers with storage that is already in use. *)
From S2P Require Import Prelude Port Arena.
Local Open Scope Z_scope.

Class Backing (S : Type) := { bk_allocate : Z -> Z -> M S Error Z; bk_release : Z -> Z -> M S Error unit }.
Record Region := mkRegion { r_base : Z; r_size : Z }.
Definition EMPTY_REGION : Region := mkRegion 0 0.
Definition MAX_REGIONS : nat := 4096.
Record Ledger (S : Type) := mkLedger { regions : list Region; owned : Z; memory : Z -> Z; backing : S }.
Arguments mkLedger {S} _ _ _ _.
Arguments regions {S} _.
Arguments owned {S} _.
Arguments memory {S} _ _.
Arguments backing {S} _.

Section Ledger.
Context `{Arch} {S : Type} {B : Backing S} (LEDGER_CAPACITY : Z).
Implicit Types (s : Ledger S) (r : Region).

Definition normalize (e : Error) : Error := match e with EInvalidArgument | EOs | EOutOfMemory => e | _ => EOs end.
Fixpoint region_position (p : Region -> bool) (l : list Region) : option nat :=
  match l with [] => None | r :: l => if p r then Some O else Datatypes.S <$> region_position p l end.
Definition ledger_allocate (size alignment : Z) : M (Ledger S) Error Z := fun s =>
  if (size =? 0) || (LEDGER_CAPACITY - owned s <? size) then (s, Err EOutOfMemory) else
  match region_position (fun r => r_size r =? 0) (regions s) with
  | None => (s, Err EOutOfMemory)
  | Some index =>
      let '(b, answer) := bk_allocate size alignment (backing s) in
      let s := mkLedger (regions s) (owned s) (memory s) b in
      match answer with
      | Err e => (s, Err (normalize e))
      | Ok base =>
          if usize_max <? base + size then (s, Err EOs) else
          let finish := base + size in
          if (base =? 0) || negb (base mod alignment =? 0) then (s, Err EOs) else
          if existsb (fun r => negb (r_size r =? 0) && (base <? r_base r + r_size r) && (r_base r <? finish)) (regions s) then (s, Err EOs) else
          (mkLedger (<[index := mkRegion base size]> (regions s)) (owned s + size) (write_zero base size (memory s)) b, Ok base)
      end
  end.
Definition ledger_release (address size : Z) : M (Ledger S) Error unit := fun s =>
  match region_position (fun r => negb (r_size r =? 0) && (r_base r =? address) && (r_size r =? size)) (regions s) with
  | None => (s, Err EInvalidArgument)
  | Some index =>
      let '(b, answer) := bk_release address size (backing s) in
      match answer with
      | Err e => (mkLedger (regions s) (owned s) (memory s) b, Err (normalize e))
      | Ok _ => (mkLedger (<[index := EMPTY_REGION]> (regions s)) (owned s - size) (memory s) b, Ok tt)
      end
  end.
Definition ledger_zero (address size : Z) : M (Ledger S) Error unit := fun s =>
  if usize_max <? address + size then (s, Err EInvalidArgument) else
  let finish := address + size in
  if (address =? 0) || (size =? 0) then (s, Err EInvalidArgument) else
  if negb (existsb (fun r => negb (r_size r =? 0) && (r_base r <=? address) && (finish <=? r_base r + r_size r)) (regions s))
  then (s, Err EInvalidArgument) else
  (mkLedger (regions s) (owned s) (write_zero address size (memory s)) (backing s), Ok tt).
Definition ledger_storage : LinearStorage (Ledger S) := {|
  linear_PROVIDED := true; linear_DYNAMIC := true; GRANULARITY := ARENA_GRANULARITY; CAPACITY := LEDGER_CAPACITY;
  linear_allocate := ledger_allocate; linear_zero := ledger_zero; linear_release := ledger_release |}.
Definition ledger_start (b : S) : Ledger S := mkLedger (replicate MAX_REGIONS EMPTY_REGION) 0 (fun _ => 0) b.

(** ** The specification: the regions that are owned *)
Definition live (l : list Region) : list Region := filter (fun r => r_size r <> 0) l.
Definition total (l : list Region) : Z := foldr (fun r n => r_size r + n) 0 l.
Definition apart (r r' : Region) : Prop := r_base r + r_size r <= r_base r' \/ r_base r' + r_size r' <= r_base r.
Definition sound r : Prop := 0 < r_base r /\ 0 < r_size r /\ r_base r + r_size r <= usize_max.
(** The owned regions are pairwise apart, and [owned] is what they take together, within the budget. *)
Record ledger_ok s : Prop := {
  lo_sound : Forall sound (live (regions s));
  lo_apart : forall i j r r', regions s !! i = Some r -> regions s !! j = Some r' -> i <> j -> r_size r <> 0 -> r_size r' <> 0 -> apart r r';
  lo_owned : owned s = total (live (regions s));
  lo_budget : 0 <= owned s <= LEDGER_CAPACITY;
}.
Lemma region_position_Some p l i : region_position p l = Some i -> exists r, l !! i = Some r /\ p r = true.
Proof.
  revert i. induction l as [| r l IH]; intros i; [done |]. simpl. destruct (p r) eqn:Hp; [intros [= <-]; by exists r |].
  destruct (region_position p l); [| done]. intros [= <-]. by apply IH.
Qed.
Lemma region_position_None p l : region_position p l = None -> forall r, r ∈ l -> p r = false.
Proof.
  induction l as [| r l IH]; intros Hn x; [by intros ?%elem_of_nil |]. simpl in Hn. destruct (p r) eqn:Hp; [done |].
  destruct (region_position p l); [done |]. intros [-> | Hx]%elem_of_cons; [done | by apply IH].
Qed.
Lemma total_app l k : total (l ++ k) = total l + total k.
Proof. induction l as [| r l IH]; [done |]. simpl. rewrite IH. lia. Qed.
Lemma live_app l k : live (l ++ k) = live l ++ live k.
Proof. apply filter_app. Qed.
(** Replacing one entry of the table. *)
Lemma live_insert l i r r' : l !! i = Some r ->
  exists a b, l = a ++ r :: b /\ <[i := r']> l = a ++ r' :: b /\ length a = i.
Proof.
  intros Hi. exists (take i l), (drop (Datatypes.S i) l). pose proof (lookup_lt_Some _ _ _ Hi). split_and!.
  - by rewrite take_drop_middle.
  - by apply insert_take_drop.
  - rewrite length_take. lia.
Qed.
Lemma live_one r : live [r] = if decide (r_size r <> 0) then [r] else [].
Proof. unfold live. by rewrite filter_cons, filter_nil. Qed.
Lemma existsb_false {A} (p : A -> bool) l : existsb p l = false -> forall x, x ∈ l -> p x = false.
Proof.
  intros He x Hx. destruct (p x) eqn:Hp; [| done]. exfalso. apply not_true_iff_false in He. apply He, existsb_exists. exists x. split; [by apply list_elem_of_In | done].
Qed.
Lemma total_nonneg l : Forall sound (live l) -> 0 <= total (live l).
Proof. induction 1 as [| r k Hr _ IH]; [done |]. simpl. destruct Hr as (_ & ? & _). lia. Qed.

Lemma ledger_start_ok b : 0 <= LEDGER_CAPACITY -> ledger_ok (ledger_start b).
Proof.
  intros Hc. assert (live (replicate MAX_REGIONS EMPTY_REGION) = []) as Hl.
  { induction MAX_REGIONS as [| n IH]; [done |]. simpl. unfold live in *. by rewrite filter_cons. }
  constructor; cbn [regions owned ledger_start]; rewrite ?Hl; [constructor | | done | lia].
  intros i j r r' [-> _]%lookup_replicate _ _ Hn. done.
Qed.
Lemma claim_ledger s i base size b mem : ledger_ok s -> (exists r, regions s !! i = Some r /\ r_size r = 0) -> sound (mkRegion base size) ->
  size <= LEDGER_CAPACITY - owned s -> (forall r, r ∈ regions s -> r_size r <> 0 -> apart r (mkRegion base size)) ->
  ledger_ok (mkLedger (<[i := mkRegion base size]> (regions s)) (owned s + size) mem b) /\
  live (<[i := mkRegion base size]> (regions s)) ≡ₚ mkRegion base size :: live (regions s).
Proof.
  intros Hok (r & Hi & Hz) Hs Hcap Hap. destruct (live_insert _ _ _ (mkRegion base size) Hi) as (a & c & Hl & Hl' & _).
  assert (live (<[i := mkRegion base size]> (regions s)) ≡ₚ mkRegion base size :: live (regions s)) as Hperm.
  { rewrite Hl', Hl, !live_app. change (mkRegion base size :: c) with ([mkRegion base size] ++ c). change (r :: c) with ([r] ++ c). rewrite !live_app, !live_one.
    rewrite decide_True by (simpl; destruct Hs as (_ & ? & _); simpl in *; lia). rewrite decide_False by lia. simpl. by rewrite Permutation_middle. }
  assert (total (live (<[i := mkRegion base size]> (regions s))) = owned s + size) as Ht.
  { rewrite (lo_owned _ Hok). rewrite Hl', Hl, !live_app, !total_app. change (mkRegion base size :: c) with ([mkRegion base size] ++ c).
    change (r :: c) with ([r] ++ c). rewrite !live_app, !live_one, !total_app.
    rewrite decide_True by (simpl; destruct Hs as (_ & ? & _); simpl in *; lia). rewrite decide_False by lia. simpl. lia. }
  split; [| done]. pose proof (lo_budget _ Hok). destruct Hs as (Hs1 & Hs2 & Hs3). simpl in *. constructor; cbn [regions owned]; [| | done | lia].
  - rewrite Hperm. constructor; [done | apply (lo_sound _ Hok)].
  - intros j k x y [[-> ->] | [Hne Hj]]%(insert_lookup_cases _ _ _ _ _ _ Hi) [[-> ->] | [Hne' Hk]]%(insert_lookup_cases _ _ _ _ _ _ Hi) Hd Hx Hy;
      [done | | | by eapply (lo_apart _ Hok)].
    + destruct (Hap y) as [? | ?]; [by eapply list_elem_of_lookup_2 | done | by right | by left].
    + apply Hap; [by eapply list_elem_of_lookup_2 | done].
Qed.
Lemma unclaim_ledger s i r b mem : ledger_ok s -> regions s !! i = Some r -> r_size r <> 0 ->
  ledger_ok (mkLedger (<[i := EMPTY_REGION]> (regions s)) (owned s - r_size r) mem b) /\
  live (regions s) ≡ₚ r :: live (<[i := EMPTY_REGION]> (regions s)).
Proof.
  intros Hok Hi Hz. destruct (live_insert _ _ _ EMPTY_REGION Hi) as (a & c & Hl & Hl' & _).
  assert (live (regions s) ≡ₚ r :: live (<[i := EMPTY_REGION]> (regions s))) as Hperm.
  { rewrite Hl', Hl, !live_app. change (EMPTY_REGION :: c) with ([EMPTY_REGION] ++ c). change (r :: c) with ([r] ++ c). rewrite !live_app, !live_one.
    rewrite decide_True by done. rewrite decide_False by (simpl; lia). simpl. by rewrite Permutation_middle. }
  assert (total (live (<[i := EMPTY_REGION]> (regions s))) = owned s - r_size r) as Ht.
  { rewrite (lo_owned _ Hok). rewrite Hl', Hl, !live_app, !total_app. change (EMPTY_REGION :: c) with ([EMPTY_REGION] ++ c).
    change (r :: c) with ([r] ++ c). rewrite !live_app, !live_one, !total_app. rewrite decide_False by (simpl; lia). rewrite decide_True by done. simpl. lia. }
  pose proof (lo_sound _ Hok) as Hs. rewrite Hperm in Hs. apply Forall_cons in Hs as [Hr Hs].
  split; [| done]. pose proof (lo_budget _ Hok). pose proof (total_nonneg _ Hs). destruct Hr as (_ & ? & _). constructor; cbn [regions owned]; [exact Hs | | by rewrite Ht | lia].
  intros j k x y [[-> ->] | [Hne Hj]]%(insert_lookup_cases _ _ _ _ _ _ Hi) [[-> ->] | [Hne' Hk]]%(insert_lookup_cases _ _ _ _ _ _ Hi) Hd Hx Hy; [done | by destruct Hx | by destruct Hy |].
  by eapply (lo_apart _ Hok).
Qed.

(** ** The operations against the specification *)
(** What the ledger hands out is its own.  For any backing, an allocation that succeeds is aligned, lies in the
    address space, is apart from every region that is still owned, is zeroed, and stays within the budget; it is
    then owned too.  One that fails owns nothing more, also when the backing answered with storage in use. *)
Theorem ledger_allocate_owns s (size alignment : Z) : ledger_ok s -> 0 <= size ->
  (forall b b' n a p, bk_allocate n a b = (b', Ok p) -> 0 <= p) ->
  match ledger_allocate size alignment s with
  | (s', Ok base) => ledger_ok s' /\ base mod alignment = 0 /\ 0 < base /\ base + size <= usize_max /\ owned s' = owned s + size /\
      live (regions s') ≡ₚ mkRegion base size :: live (regions s) /\ (forall r, r ∈ live (regions s) -> apart r (mkRegion base size)) /\
      forall a, memory s' a = if decide (base <= a < base + size) then 0 else memory s a
  | (s', Err e) => ledger_ok s' /\ regions s' = regions s /\ owned s' = owned s /\ memory s' = memory s /\ (e = EOutOfMemory \/ e = EInvalidArgument \/ e = EOs)
  end.
Proof.
  intros Hok Hsize Hbk. unfold ledger_allocate. destruct (Z.eqb_spec size 0); [simpl; split_and!; auto |].
  destruct (Z.ltb_spec (LEDGER_CAPACITY - owned s) size); [simpl; split_and!; auto |]. simpl orb. cbn iota.
  destruct (region_position _ _) as [index |] eqn:Hp; [| split_and!; auto]. apply region_position_Some in Hp as (r0 & Hi & Hz%Z.eqb_eq).
  destruct (bk_allocate size alignment (backing s)) as [b [base | e]] eqn:Hb; [apply Hbk in Hb |].
  2: { split_and!; [by destruct Hok; constructor | done | done | done |]. destruct e; simpl; auto. }
  assert (ledger_ok (mkLedger (regions s) (owned s) (memory s) b)) as Hok' by by destruct Hok; constructor.
  cbn zeta. cbn [regions owned memory].
  destruct (Z.ltb_spec usize_max (base + size)); [split_and!; auto |].
  destruct (Z.eqb_spec base 0); [simpl; split_and!; auto |]. destruct (Z.eqb_spec (base mod alignment) 0); simpl orb; cbn iota; [| split_and!; auto].
  simpl negb. cbn iota. destruct (existsb _ _) eqn:Hx; [split_and!; auto |].
  assert (forall r, r ∈ regions s -> r_size r <> 0 -> apart r (mkRegion base size)) as Hap.
  { intros r Hr Hn. pose proof (existsb_false _ _ Hx r Hr) as Hf. cbv beta in Hf. unfold apart. simpl. apply Z.eqb_neq in Hn. rewrite Hn in Hf. simpl in Hf. lia. }
  destruct (claim_ledger s index base size b (write_zero base size (memory s)) Hok ltac:(eauto) ltac:(unfold sound; simpl; lia) ltac:(lia) Hap) as [Hnew Hperm].
  split_and!; [done | done | lia | done | done | done | | ].
  - intros r [Hn Hr]%list_elem_of_filter. by apply Hap.
  - intros a. simpl. unfold write_zero. case_decide; destruct (Z.leb_spec base a), (Z.ltb_spec a (base + size)); simpl; lia.
Qed.
(** Giving back and zeroing are limited to what is owned.  [release] reaches the backing only for an owned region
    with its own size, and gives up the region exactly when the backing agreed; [zero] writes exactly the given range,
    and only inside one owned region. *)
Theorem ledger_release_zero_exact s (address size : Z) : ledger_ok s ->
  match ledger_release address size s with
  | (s', Ok _) => ledger_ok s' /\ live (regions s) ≡ₚ mkRegion address size :: live (regions s') /\ owned s' = owned s - size /\ memory s' = memory s
  | (s', Err e) => ledger_ok s' /\ regions s' = regions s /\ owned s' = owned s /\ memory s' = memory s /\
      (mkRegion address size ∉ live (regions s) -> s' = s /\ e = EInvalidArgument)
  end /\
  match ledger_zero address size s with
  | (s', Ok _) => ledger_ok s' /\ regions s' = regions s /\ (exists r, r ∈ live (regions s) /\ r_base r <= address /\ address + size <= r_base r + r_size r) /\
      forall a, memory s' a = if decide (address <= a < address + size) then 0 else memory s a
  | (s', Err e) => s' = s /\ e = EInvalidArgument
  end.
Proof.
  intros Hok. split.
  - unfold ledger_release. destruct (region_position _ _) as [i |] eqn:Hp; [| by split_and!].
    apply region_position_Some in Hp as (r & Hi & [[Hn%negb_true_iff%Z.eqb_neq Hb%Z.eqb_eq]%andb_true_iff Hs%Z.eqb_eq]%andb_true_iff).
    assert (r = mkRegion address size) as -> by (destruct r; simpl in *; congruence).
    destruct (bk_release _ _ _) as [b [[] | e]].
    + destruct (unclaim_ledger s i _ b (memory s) Hok Hi Hn) as [Hok' Hperm]. by split_and!.
    + split_and!; [by destruct Hok; constructor | done | done | done |]. intros Hni. exfalso. apply Hni.
      apply list_elem_of_filter. split; [done | by eapply list_elem_of_lookup_2].
  - unfold ledger_zero. destruct (_ <? _); [done |]. destruct (_ || _); [done |]. destruct (existsb _ _) eqn:Hx; [| done]. simpl.
    apply existsb_exists in Hx as (r & Hr%list_elem_of_In & [[Hn%negb_true_iff%Z.eqb_neq Hb%Z.leb_le]%andb_true_iff He%Z.leb_le]%andb_true_iff).
    split_and!; [by destruct Hok; constructor | done | exists r; split_and!; [by apply list_elem_of_filter | done | done] |].
    intros a. unfold write_zero. case_decide; destruct (Z.leb_spec address a), (Z.ltb_spec a (address + size)); simpl; lia.
Qed.
End Ledger.

(** A backing that always answers with the same address: the second allocation is refused. *)
Module LedgerSample.
#[local] Existing Instance arch64.
#[local] Instance stuck : Backing unit := {| bk_allocate _ _ s := (s, Ok 65536); bk_release _ _ s := (s, Ok tt) |}.
Definition first : Ledger unit := (ledger_allocate 1048576 4096 4096 (ledger_start tt)).1.
Lemma stuck_answers : forall b b' n a p, bk_allocate n a b = (b', Ok p) -> 0 <= p.
Proof. intros b b' n a p [= _ <-]. lia. Qed.
Lemma first_ok : ledger_ok 1048576 first.
Proof.
  destruct (claim_ledger 1048576 (ledger_start tt) 0 65536 4096 tt (write_zero 65536 4096 (fun _ => 0))) as [Hok _]; [apply ledger_start_ok; lia | by exists EMPTY_REGION | | simpl; lia | |].
  - unfold sound. simpl. unfold usize_max. simpl. lia.
  - intros r Hr Hn. cbn [regions ledger_start] in Hr. apply elem_of_replicate in Hr as [-> _]. done.
  - exact Hok.
Qed.
Lemma ledger_allocate_owns_witness :
  (ledger_allocate 1048576 4096 4096 first).2 = Err EOs /\ regions (ledger_allocate 1048576 4096 4096 first).1 = regions first.
Proof.
  pose proof (ledger_allocate_owns 1048576 first 4096 4096 first_ok ltac:(lia) stuck_answers) as Hx.
  assert ((ledger_allocate 1048576 4096 4096 first).2 = Err EOs) as He by (vm_compute; reflexivity).
  destruct (ledger_allocate 1048576 4096 4096 first) as [s' [base | e]]; [discriminate He |]. split; [done |]. apply Hx.
Defined.
Lemma ledger_release_zero_exact_witness :
  (ledger_release 65536 4096 first).2 = Ok tt /\ owned (ledger_release 65536 4096 first).1 = 0 /\ (ledger_zero 65536 4097 first).2 = Err EInvalidArgument.
Proof.
  destruct (ledger_release_zero_exact 1048576 first 65536 4096 first_ok) as [Hr _]. destruct (ledger_release_zero_exact 1048576 first 65536 4097 first_ok) as [_ Hz].
  assert ((ledger_release 65536 4096 first).2 = Ok tt) as He by (vm_compute; reflexivity).
  assert ((ledger_zero 65536 4097 first).2 = Err EInvalidArgument) as Hz' by (vm_compute; reflexivity).
  destruct (ledger_release 65536 4096 first) as [s' [[] | e]]; [| discriminate He]. destruct Hr as (_ & _ & Ho & _). split_and!; [done | exact Ho | exact Hz'].
Defined.
End LedgerSample.
