(* ===== verification/Extents.v ===== *)
(** * Extents.v: the free list of the bare-metal port

    [Region] of [src/examples/baremetal-aarch64/src/memory.rs]: an address-ordered array of free extents with coalescing,
    first fit.  The array has [MAX_EXTENTS] places of which the first [count] are in use; an access outside the array is
    a panic and a call that panics is [None].  [region_ok] says that the extents in use are valid, in order and maximal;
    [free] is the set of free addresses that they stand for. *)
From S2P Require Import Prelude Port.
Local Open Scope Z_scope.

Record Extent := mkExtent { x_start : Z; x_end : Z }.
Definition NONE : Extent := mkExtent 0 0.
Definition MAX_EXTENTS : nat := 256.
Record Region := mkRegion { extents : list Extent; count : nat }.
Definition region_new : Region := mkRegion (replicate MAX_EXTENTS NONE) 0.
(** [self.extents[..self.count]] *)
Definition live (r : Region) : list Extent := take (count r) (extents r).

(** ** Operations *)
(** [for i in index..self.count - 1 { self.extents[i] = self.extents[i + 1] }], with [n] turns left. *)
Fixpoint shift_down (n i : nat) (l : list Extent) : option (list Extent) :=
  match n with
  | O => Some l
  | S n => e ← l !! S i; l ← arr_set l i e; shift_down n (S i) l
  end.
Definition region_remove (index : nat) (r : Region) : option Region :=
  if (count r =? 0)%nat then None else
  l ← shift_down (count r - 1 - index) index (extents r); Some (mkRegion l (count r - 1)).
(** [while i > index { self.extents[i] = self.extents[i - 1]; i -= 1 }] *)
Fixpoint shift_up (i index : nat) (l : list Extent) : option (list Extent) :=
  match i with
  | O => Some l
  | S j => if (index <? S j)%nat then e ← l !! j; l ← arr_set l (S j) e; shift_up j index l else Some l
  end.
Definition region_insert (index : nat) (e : Extent) (r : Region) : option Region :=
  l ← shift_up (count r) index (extents r); l ← arr_set l index e; Some (mkRegion l (S (count r))).
(** The loop of [take], with [n] extents left to look at. *)
Fixpoint take_loop (n index : nat) (size alignment : Z) (r : Region) : option (Region * option Z) :=
  match n with
  | O => Some (r, None)
  | S n =>
      extent ← extents r !! index;
      let continue := take_loop n (S index) size alignment r in
      match checked_add u64_max (x_start extent) (alignment - 1) with
      | None => continue
      | Some sum =>
          let start := mask_down sum alignment in
          match checked_add u64_max start size with
          | None => continue
          | Some finish =>
              if (start <? x_start extent) || (x_end extent <? finish) then continue else
              match start =? x_start extent, finish =? x_end extent with
              | true, true => r' ← region_remove index r; Some (r', Some start)
              | true, false => l ← arr_set (extents r) index (mkExtent finish (x_end extent)); Some (mkRegion l (count r), Some start)
              | false, true => l ← arr_set (extents r) index (mkExtent (x_start extent) start); Some (mkRegion l (count r), Some start)
              | false, false =>
                  if (count r =? MAX_EXTENTS)%nat then continue else
                  l ← arr_set (extents r) index (mkExtent (x_start extent) start);
                  r' ← region_insert (S index) (mkExtent finish (x_end extent)) (mkRegion l (count r));
                  Some (r', Some start)
              end
          end
      end
  end.
Definition region_take (size alignment : Z) (r : Region) : option (Region * option Z) :=
  if (size =? 0) || negb (is_power_of_two alignment) then Some (r, None) else take_loop (count r) 0 size alignment r.
(** The loop of [can_give]: [None] when an extent overlaps the range, otherwise whether one is adjacent. *)
Fixpoint can_give_loop (start finish : Z) (adjacent : bool) (l : list Extent) : option bool :=
  match l with
  | [] => Some adjacent
  | e :: l =>
      if (start <? x_end e) && (x_start e <? finish) then None else
      can_give_loop start finish (adjacent || (x_end e =? start) || (x_start e =? finish)) l
  end.
Definition can_give (start size : Z) (r : Region) : bool :=
  match checked_add u64_max start size with
  | None => false
  | Some finish =>
      if size =? 0 then false else
      match can_give_loop start finish false (live r) with
      | None => false
      | Some adjacent => adjacent || (count r <? MAX_EXTENTS)%nat
      end
  end.
(** [while index < self.count && self.extents[index].start < start { index += 1 }] *)
Fixpoint give_index (n index : nat) (start : Z) (l : list Extent) : option nat :=
  match n with
  | O => Some index
  | S n => e ← l !! index; if x_start e <? start then give_index n (S index) start l else Some index
  end.
Definition region_give (start size : Z) (r : Region) : option (Region * bool) :=
  if negb (can_give start size r) then Some (r, false) else
  match checked_add u64_max start size with
  | None => Some (r, false)
  | Some finish =>
      if size =? 0 then Some (r, false) else
      index ← give_index (count r) 0 start (extents r);
      after_previous ← (if (0 <? index)%nat then e ← extents r !! (index - 1)%nat; Some (x_end e =? start) else Some false);
      before_next ← (if (index <? count r)%nat then e ← extents r !! index; Some (x_start e =? finish) else Some false);
      match after_previous, before_next with
      | true, true =>
          p ← extents r !! (index - 1)%nat; e ← extents r !! index;
          l ← arr_set (extents r) (index - 1) (mkExtent (x_start p) (x_end e));
          r' ← region_remove index (mkRegion l (count r)); Some (r', true)
      | true, false =>
          p ← extents r !! (index - 1)%nat;
          l ← arr_set (extents r) (index - 1) (mkExtent (x_start p) finish); Some (mkRegion l (count r), true)
      | false, true =>
          e ← extents r !! index;
          l ← arr_set (extents r) index (mkExtent start (x_end e)); Some (mkRegion l (count r), true)
      | false, false =>
          if (count r =? MAX_EXTENTS)%nat then Some (r, false) else
          r' ← region_insert index (mkExtent start finish) r; Some (r', true)
      end
  end.
(** [available]: the loop adds the lengths in order. *)
Definition region_available (r : Region) : Z := foldl (fun total e => total + (x_end e - x_start e)) 0 (live r).

(** ** The array operations on the extents in use *)
Definition fits_array (r : Region) : Prop := length (extents r) = MAX_EXTENTS /\ (count r <= MAX_EXTENTS)%nat.
Lemma shift_down_spec n i l : (i + n < length l)%nat -> exists l', shift_down n i l = Some l' /\ length l' = length l /\
  forall j, l' !! j = if decide (i <= j < i + n)%nat then l !! S j else l !! j.
Proof.
  revert i l. induction n as [| n IH]; intros i l Hn; simpl.
  - exists l. split_and!; [done | done |]. intros j. rewrite decide_False by lia. done.
  - destruct (lookup_lt_is_Some_2 l (S i)) as [e He]; [lia |]. rewrite He. simpl. rewrite arr_set_ok by lia. simpl.
    destruct (IH (S i) (<[i := e]> l)) as (l' & -> & Hlen & Hl'); [rewrite length_insert; lia |].
    exists l'. rewrite length_insert in Hlen. split_and!; [done | done |]. intros j. rewrite Hl'.
    repeat case_decide; rewrite ?list_lookup_insert_ne by lia; try done; try lia.
    assert (j = i) as -> by lia. rewrite list_lookup_insert_eq by lia. done.
Qed.
Lemma shift_up_spec i index l : (i < length l)%nat -> exists l', shift_up i index l = Some l' /\ length l' = length l /\
  forall j, l' !! j = if decide (index < j <= i)%nat then l !! (j - 1)%nat else l !! j.
Proof.
  revert l. induction i as [| i IH]; intros l Hi; simpl.
  { exists l. split_and!; [done | done |]. intros j. rewrite decide_False by lia. done. }
  destruct (Nat.ltb_spec index (S i)).
  - destruct (lookup_lt_is_Some_2 l i) as [e He]; [lia |]. rewrite He. simpl. rewrite arr_set_ok by lia. simpl.
    destruct (IH (<[S i := e]> l)) as (l' & -> & Hlen & Hl'); [rewrite length_insert; lia |].
    exists l'. rewrite length_insert in Hlen. split_and!; [done | done |]. intros j. rewrite Hl'.
    repeat case_decide; rewrite ?list_lookup_insert_ne by lia; try done; try lia.
    assert (j = S i) as -> by lia. rewrite list_lookup_insert_eq by lia. by replace (S i - 1)%nat with i by lia.
  - exists l. split_and!; [done | done |]. intros j. rewrite decide_False by lia. done.
Qed.
Lemma live_lookup r i : (i < count r)%nat -> live r !! i = extents r !! i.
Proof. intros. unfold live. by apply lookup_take_lt. Qed.
Lemma length_live r : fits_array r -> length (live r) = count r.
Proof. intros [? ?]. unfold live. rewrite length_take. lia. Qed.
(** An element of the extents in use, and the extents around it. *)
Lemma live_split r i e : live r !! i = Some e -> live r = take i (live r) ++ e :: drop (S i) (live r).
Proof. intros Hi. by rewrite take_drop_middle. Qed.
Lemma region_set_live r i e e' : fits_array r -> live r !! i = Some e ->
  exists l, arr_set (extents r) i e' = Some l /\ fits_array (mkRegion l (count r)) /\
  live (mkRegion l (count r)) = take i (live r) ++ e' :: drop (S i) (live r).
Proof.
  intros Hfit Hi. pose proof (lookup_lt_Some _ _ _ Hi) as Hlt. rewrite length_live in Hlt by done. destruct Hfit as [Hlen Hc].
  rewrite arr_set_ok by lia. eexists. split; [done |]. split; [split; simpl; [by rewrite length_insert | done] |].
  unfold live. simpl. rewrite take_insert_lt by done. apply insert_take_drop. rewrite length_take. lia.
Qed.
Lemma region_remove_live r i e : fits_array r -> live r !! i = Some e ->
  exists r', region_remove i r = Some r' /\ fits_array r' /\ count r' = (count r - 1)%nat /\ live r' = take i (live r) ++ drop (S i) (live r).
Proof.
  intros Hfit Hi. pose proof (lookup_lt_Some _ _ _ Hi) as Hlt. rewrite length_live in Hlt by done.
  pose proof (length_live r Hfit) as Hll. destruct Hfit as [Hlen Hc]. unfold region_remove. rewrite (proj2 (Nat.eqb_neq (count r) 0)) by lia.
  destruct (shift_down_spec (count r - 1 - i) i (extents r)) as (l' & -> & Hlen' & Hl'); [lia |]. simpl.
  eexists. split; [done |]. split; [split; simpl; lia |]. split; [done |].
  apply list_eq. intros j. rewrite lookup_app_dec, length_take. unfold live at 1. simpl. rewrite lookup_take.
  case_decide; case_decide; rewrite ?Hl'; try (rewrite lookup_take_lt by lia; rewrite live_lookup by lia; by rewrite decide_False by lia).
  - rewrite lookup_drop, decide_True by lia. rewrite live_lookup by lia. f_equal. lia.
  - lia.
  - symmetry. apply lookup_ge_None. rewrite length_drop. lia.
Qed.
Lemma region_insert_live r i e : fits_array r -> (i <= count r)%nat -> (count r < MAX_EXTENTS)%nat ->
  exists r', region_insert i e r = Some r' /\ fits_array r' /\ count r' = S (count r) /\ live r' = take i (live r) ++ e :: drop i (live r).
Proof.
  intros Hfit Hi Hc. pose proof (length_live r Hfit) as Hll. destruct Hfit as [Hlen _]. unfold region_insert.
  destruct (shift_up_spec (count r) i (extents r)) as (l' & -> & Hlen' & Hl'); [lia |]. simpl. rewrite arr_set_ok by lia. simpl.
  eexists. split; [done |]. split; [split; simpl; [rewrite length_insert; lia | lia] |]. split; [done |].
  apply list_eq. intros j. rewrite lookup_app_dec, length_take. unfold live at 1. simpl. rewrite lookup_take.
  destruct (decide (j = i)) as [-> |].
  - rewrite decide_True, list_lookup_insert_eq, decide_False by lia. by replace (i - Nat.min i (length (live r)))%nat with 0%nat by lia.
  - rewrite list_lookup_insert_ne by done. repeat case_decide; rewrite ?Hl'; try lia.
    + rewrite lookup_take_lt by lia. rewrite live_lookup by lia. by rewrite decide_False by lia.
    + rewrite decide_True by lia. destruct (j - Nat.min i (length (live r)))%nat as [| k] eqn:Hk; [lia |]. simpl. rewrite lookup_drop, live_lookup by lia. f_equal. lia.
    + symmetry. apply lookup_ge_None. simpl. rewrite length_drop. lia.
Qed.

(** ** The free addresses *)
Definition before (e e' : Extent) : Prop := x_end e < x_start e'.
Definition valid_extent (e : Extent) : Prop := 0 <= x_start e < x_end e /\ x_end e <= u64_max.
Definition inside (e : Extent) (a : Z) : Prop := x_start e <= a < x_end e.
Definition free (l : list Extent) (a : Z) : Prop := Exists (fun e => inside e a) l.
(** Valid, in order, and never touching: every extent is as long as it can be. *)
Definition extents_ok (l : list Extent) : Prop := Forall valid_extent l /\ StronglySorted before l.
Definition region_ok (r : Region) : Prop := fits_array r /\ extents_ok (live r).
#[export] Instance free_dec l a : Decision (free l a).
Proof. unfold free, inside. apply _. Defined.
Lemma free_app l k a : free (l ++ k) a <-> free l a \/ free k a.
Proof. apply Exists_app. Qed.
Lemma free_cons e l a : free (e :: l) a <-> inside e a \/ free l a.
Proof. apply Exists_cons. Qed.
Lemma free_nil a : free [] a <-> False.
Proof. apply Exists_nil. Qed.
Lemma free_elem l a : free l a <-> exists e, e ∈ l /\ inside e a.
Proof. apply Exists_exists. Qed.
Lemma extents_ok_app l k : extents_ok (l ++ k) <-> extents_ok l /\ extents_ok k /\ (forall e e', e ∈ l -> e' ∈ k -> before e e').
Proof. unfold extents_ok. rewrite Forall_app, sorted_app_iff. naive_solver. Qed.
Lemma extents_ok_cons e l : extents_ok (e :: l) <-> valid_extent e /\ extents_ok l /\ (forall e', e' ∈ l -> before e e').
Proof. unfold extents_ok. rewrite Forall_cons, sorted_cons_iff, (Forall_forall (before e)). naive_solver. Qed.
Lemma extents_ok_valid l e : extents_ok l -> e ∈ l -> valid_extent e.
Proof. intros [Hv _]. by apply Forall_forall. Qed.
(** Another extent of the list is apart from [e]. *)
Lemma extents_apart a e b e' : extents_ok (a ++ e :: b) -> e' ∈ a \/ e' ∈ b -> x_end e' < x_start e \/ x_end e < x_start e'.
Proof.
  intros (Ha & Hb & Hab)%extents_ok_app. apply extents_ok_cons in Hb as (_ & _ & He). intros [Hin | Hin].
  - left. apply Hab; [done | left].
  - right. by apply He.
Qed.
Lemma not_free_around a e b x : extents_ok (a ++ e :: b) -> x_start e <= x <= x_end e -> ~ free a x /\ ~ free b x.
Proof.
  intros Hok Hx. split; intros (e' & He' & Hi)%free_elem; unfold inside in Hi; destruct (extents_apart a e b e' Hok); auto; lia.
Qed.
Lemma extents_lookup_before l i j e e' : extents_ok l -> (i < j)%nat -> l !! i = Some e -> l !! j = Some e' -> before e e'.
Proof.
  intros Hok Hij Hi Hj. rewrite <- (take_drop_middle l i e Hi) in Hok. apply extents_ok_app in Hok as (_ & (_ & _ & Hb)%extents_ok_cons & _).
  apply Hb, list_elem_of_lookup. exists (j - S i)%nat. rewrite lookup_drop. by replace (S i + (j - S i))%nat with j by lia.
Qed.
(** A range of free addresses lies within one extent, since extents never touch. *)
Lemma free_range_within l p size : extents_ok l -> 0 < size -> (forall a, p <= a < p + size -> free l a) ->
  exists e, e ∈ l /\ x_start e <= p /\ p + size <= x_end e.
Proof.
  intros Hok Hs Hf. destruct (proj1 (free_elem _ _) (Hf p ltac:(lia))) as (e & He & Hp). unfold inside in Hp.
  exists e. split_and!; [done | lia |]. destruct (decide (p + size <= x_end e)); [done | exfalso].
  specialize (Hf (x_end e) ltac:(lia)). apply list_elem_of_split in He as (a & b & ->).
  pose proof (extents_ok_valid _ e Hok ltac:(set_solver)) as [? _].
  destruct (not_free_around a e b (x_end e) Hok ltac:(lia)). rewrite free_app, free_cons in Hf. unfold inside in Hf. destruct Hf as [? | [? | ?]]; [done | lia | done].
Qed.
Lemma free_head e l a : extents_ok (e :: l) -> free (e :: l) a -> x_start e <= a.
Proof.
  intros ([? _] & _ & Hb)%extents_ok_cons. rewrite free_cons, free_elem. unfold inside, before in *.
  intros [? | (e' & He' & ?)]; [lia |]. specialize (Hb e' He'). lia.
Qed.
Lemma free_tail e l a : extents_ok (e :: l) -> free l a <-> free (e :: l) a /\ x_end e <= a.
Proof.
  intros ([? _] & _ & Hb)%extents_ok_cons. rewrite free_cons. split.
  - intros Hf. split; [by right |]. apply free_elem in Hf as (e' & He' & ?). specialize (Hb e' He'). unfold inside, before in *. lia.
  - unfold inside. intros [[? | ?] ?]; [lia | done].
Qed.
(** The extents are determined by the free addresses. *)
Lemma extents_canonical l l' : extents_ok l -> extents_ok l' -> (forall a, free l a <-> free l' a) -> l = l'.
Proof.
  revert l'. induction l as [| e l IH]; intros [| e' l'] Hok Hok' Hf.
  - done.
  - exfalso. apply (free_nil (x_start e')), Hf. left. unfold inside. apply extents_ok_cons in Hok' as ([? _] & _). lia.
  - exfalso. apply (free_nil (x_start e)), Hf. left. unfold inside. apply extents_ok_cons in Hok as ([? _] & _). lia.
  - pose proof (proj1 (extents_ok_cons _ _) Hok) as ([? _] & Hl & Hb). pose proof (proj1 (extents_ok_cons _ _) Hok') as ([? _] & Hl' & Hb').
    assert (x_start e = x_start e') as Hs.
    { pose proof (free_head e' l' (x_start e) Hok' (proj1 (Hf (x_start e)) ltac:(left; unfold inside; lia))).
      pose proof (free_head e l (x_start e') Hok (proj2 (Hf (x_start e')) ltac:(left; unfold inside; lia))). lia. }
    assert (forall u k u' k', extents_ok (u :: k) -> extents_ok (u' :: k') -> (forall a, free (u :: k) a <-> free (u' :: k') a) ->
      x_start u = x_start u' -> x_end u' <= x_end u) as Hend.
    { intros u k u' k' Hu Hu' Hfu Hsu. destruct (decide (x_end u' <= x_end u)); [done | exfalso].
      pose proof (proj1 (extents_ok_cons _ _) Hu) as ([? _] & _ & _). destruct (not_free_around [] u k (x_end u) Hu ltac:(lia)) as [_ Hn].
      assert (free (u :: k) (x_end u)) as [? | ?]%free_cons; [apply Hfu; left; unfold inside; lia | unfold inside in *; lia | done]. }
    assert (x_end e = x_end e') as He.
    { pose proof (Hend _ _ _ _ Hok Hok' Hf Hs). pose proof (Hend _ _ _ _ Hok' Hok (fun a => iff_sym (Hf a)) (eq_sym Hs)). lia. }
    destruct e as [s n], e' as [s' n']. simpl in *. subst s' n'. f_equal. apply IH; [done | done |].
    intros a. rewrite (free_tail _ l a Hok), (free_tail _ l' a Hok'), Hf. done.
Qed.
(** Replacing an extent by extents within it. *)
Lemma replace_ok a e b m : extents_ok (a ++ e :: b) -> extents_ok m -> (forall x, x ∈ m -> x_start e <= x_start x /\ x_end x <= x_end e) ->
  extents_ok (a ++ m ++ b).
Proof.
  intros (Ha & Hb & Hab)%extents_ok_app Hm Hin. apply extents_ok_cons in Hb as (_ & Hb & He). unfold before in *.
  apply extents_ok_app. split_and!; [done | apply extents_ok_app; split_and!; [done | done |] |]; unfold before.
  - intros x y Hx Hy. specialize (He y Hy). destruct (Hin x Hx). lia.
  - intros x y Hx [Hy | Hy]%elem_of_app.
    + specialize (Hab x e Hx ltac:(left)). destruct (Hin y Hy). lia.
    + apply Hab; [done | by right].
Qed.
Lemma replace_free a e b m x : extents_ok (a ++ e :: b) ->
  (free m x -> inside e x) -> free (a ++ m ++ b) x <-> (free (a ++ e :: b) x /\ ~ inside e x) \/ free m x.
Proof.
  intros Hok Hm. rewrite !free_app, free_cons. destruct (decide (inside e x)) as [Hi | Hi]; unfold inside in *.
  - destruct (not_free_around a e b x Hok ltac:(lia)). tauto.
  - tauto.
Qed.

(** ** Taking *)
(** A range of free addresses at the asked alignment. *)
Definition place (l : list Extent) (size alignment p : Z) : Prop := p mod alignment = 0 /\ forall a, p <= a < p + size -> free l a.
(** What the loop computes for an extent: the first aligned address in it, if the range fits there. *)
Definition fit (size alignment : Z) (e : Extent) : option (Z * Z) :=
  match checked_add u64_max (x_start e) (alignment - 1) with
  | None => None
  | Some sum =>
      let start := mask_down sum alignment in
      match checked_add u64_max start size with
      | None => None
      | Some finish => if (start <? x_start e) || (x_end e <? finish) then None else Some (start, finish)
      end
  end.
Lemma fit_Some size alignment e start finish : is_power_of_two alignment = true -> fit size alignment e = Some (start, finish) ->
  start mod alignment = 0 /\ finish = start + size /\ x_start e <= start /\ finish <= x_end e /\
  forall p, p mod alignment = 0 -> x_start e <= p -> start <= p.
Proof.
  intros (k & Hk & ->)%is_power_of_two_spec. unfold fit. destruct (checked_add u64_max (x_start e) _) as [sum |] eqn:Hsum; [| done].
  apply checked_add_Some in Hsum as [-> _]. destruct (round_up_pow2 (x_start e) k Hk) as [Hr Hm].
  destruct (checked_add u64_max _ size) as [f |] eqn:Hf; [| done]. apply checked_add_Some in Hf as [-> _].
  replace (x_start e + (2 ^ k - 1)) with (x_start e + (2 ^ k - 1)) by done.
  destruct (Z.ltb_spec (mask_down (x_start e + (2 ^ k - 1)) (2 ^ k)) (x_start e)); [done |]. simpl.
  destruct (Z.ltb_spec (x_end e) (mask_down (x_start e + (2 ^ k - 1)) (2 ^ k) + size)); [done |]. intros [= <- <-].
  split_and!; [done | done | lia | lia |]. intros p Hp Hge. assert (0 < 2 ^ k) by (apply Z.pow_pos_nonneg; lia).
  destruct (decide (mask_down (x_start e + (2 ^ k - 1)) (2 ^ k) <= p)); [done | exfalso].
  assert (mask_down (x_start e + (2 ^ k - 1)) (2 ^ k) = p) by (apply (multiple_unique _ _ (2 ^ k)); [lia | done | done | lia]). lia.
Qed.
Lemma fit_None size alignment e p : is_power_of_two alignment = true -> alignment <= u64_max -> valid_extent e ->
  fit size alignment e = None -> p mod alignment = 0 -> x_start e <= p -> 0 < size -> ~ p + size <= x_end e.
Proof.
  intros (k & Hk & ->)%is_power_of_two_spec Hal [Hv Hu] Hfit Hp Hge Hs Hle. unfold fit in Hfit.
  assert (0 < 2 ^ k) by (apply Z.pow_pos_nonneg; lia). apply Z.mod_divide in Hp as [q ->]; [| lia].
  assert (k < 64) as Hk64. { destruct (decide (k < 64)); [done | exfalso]. assert (2 ^ 64 <= 2 ^ k) by (apply Z.pow_le_mono_r; lia). unfold u64_max in *. lia. }
  assert (q * 2 ^ k + 2 ^ k <= 2 ^ 64).
  { replace (2 ^ 64) with (2 ^ (64 - k) * 2 ^ k) by (rewrite <- Z.pow_add_r by lia; f_equal; lia).
    assert (q * 2 ^ k < 2 ^ (64 - k) * 2 ^ k) by (rewrite <- Z.pow_add_r by lia; replace (64 - k + k) with 64 by lia; unfold u64_max in *; lia).
    assert (q < 2 ^ (64 - k)) by nia. nia. }
  destruct (round_up_pow2 (x_start e) k Hk) as [Hr Hm]. unfold checked_add at 1 in Hfit. rewrite (proj2 (Z.leb_le _ _)) in Hfit by (unfold u64_max; lia).
  set (start := mask_down (x_start e + (2 ^ k - 1)) (2 ^ k)) in *.
  assert (start <= q * 2 ^ k).
  { destruct (decide (start <= q * 2 ^ k)); [done | exfalso].
    assert (start = q * 2 ^ k) by (apply (multiple_unique _ _ (2 ^ k)); [lia | done | apply Z.mod_mul; lia | lia]). lia. }
  unfold checked_add in Hfit. rewrite (proj2 (Z.leb_le _ _)) in Hfit by (unfold u64_max in *; lia).
  rewrite (proj2 (Z.ltb_ge start (x_start e))), (proj2 (Z.ltb_ge (x_end e) _)) in Hfit by lia. done.
Qed.
(** The branch of [take] for an extent that holds the range. *)
Definition carve (index : nat) (e : Extent) (start finish : Z) (r : Region) : option (Region * option Z) :=
  match start =? x_start e, finish =? x_end e with
  | true, true => r' ← region_remove index r; Some (r', Some start)
  | true, false => l ← arr_set (extents r) index (mkExtent finish (x_end e)); Some (mkRegion l (count r), Some start)
  | false, true => l ← arr_set (extents r) index (mkExtent (x_start e) start); Some (mkRegion l (count r), Some start)
  | false, false =>
      l ← arr_set (extents r) index (mkExtent (x_start e) start);
      r' ← region_insert (S index) (mkExtent finish (x_end e)) (mkRegion l (count r)); Some (r', Some start)
  end.
(** The range would split the extent and the array is full. *)
Definition no_room (e : Extent) (start finish : Z) (r : Region) : bool :=
  negb (start =? x_start e) && negb (finish =? x_end e) && (count r =? MAX_EXTENTS)%nat.
Lemma take_loop_step n index size alignment r e : extents r !! index = Some e ->
  take_loop (S n) index size alignment r =
  match fit size alignment e with
  | Some (start, finish) => if no_room e start finish r then take_loop n (S index) size alignment r else carve index e start finish r
  | None => take_loop n (S index) size alignment r
  end.
Proof.
  intros He. cbn [take_loop]. rewrite He. cbn [mbind option_bind]. unfold fit, carve, no_room.
  destruct (checked_add u64_max (x_start e) _) as [sum |]; [| done]. cbn zeta. destruct (checked_add u64_max (mask_down _ _) size) as [f |]; [| done].
  destruct (_ || _); [done |]. destruct (_ =? x_start e), (f =? x_end e), (count r =? MAX_EXTENTS)%nat; done.
Qed.
Lemma extents_ok_pair e e' : valid_extent e -> valid_extent e' -> before e e' -> extents_ok [e; e'].
Proof.
  intros. apply extents_ok_cons. split_and!; [done | apply extents_ok_cons; split_and!; [done | split; constructor | by intros ? ?%elem_of_nil] |].
  by intros ? ->%list_elem_of_singleton.
Qed.
Lemma extents_ok_single e : valid_extent e -> extents_ok [e].
Proof. intros. apply extents_ok_cons. split_and!; [done | split; constructor | by intros ? ?%elem_of_nil]. Qed.
(** The range [start, finish) cut out of the extents, with what remains of [e] in [m]. *)
Lemma carve_result r r' index e start finish m : region_ok r -> live r !! index = Some e -> x_start e <= start < finish -> finish <= x_end e ->
  fits_array r' -> live r' = take index (live r) ++ m ++ drop (S index) (live r) -> extents_ok m ->
  (forall x, free m x <-> inside e x /\ ~ start <= x < finish) -> (forall x, x ∈ m -> x_start e <= x_start x /\ x_end x <= x_end e) ->
  region_ok r' /\ forall x, free (live r') x <-> free (live r) x /\ ~ start <= x < finish.
Proof.
  intros [Hfit Hok] Hi Hs Hf Hfit' Hl Hm Hfree Hin. rewrite (live_split _ _ _ Hi) in Hok. split.
  - split; [done |]. rewrite Hl. by eapply replace_ok.
  - intros x. rewrite Hl, (replace_free _ _ _ m x Hok), <- live_split, Hfree by (done || by rewrite Hfree; intros [? _]).
    assert (inside e x -> free (live r) x). { intros. apply free_elem. exists e. split; [by eapply list_elem_of_lookup_2 | done]. }
    unfold inside in *. split; [intros [[? ?] | [? ?]] | intros [? ?]]; [split; [done | lia] | auto |].
    destruct (decide (x_start e <= x < x_end e)); [right; auto | left; auto].
Qed.
Lemma carve_ok r index e start finish : region_ok r -> live r !! index = Some e -> x_start e <= start < finish -> finish <= x_end e ->
  no_room e start finish r = false ->
  exists r', carve index e start finish r = Some (r', Some start) /\ region_ok r' /\ forall x, free (live r') x <-> free (live r) x /\ ~ start <= x < finish.
Proof.
  intros Hok Hi Hs Hf Hroom. pose proof Hok as [Hfit Hex]. assert (valid_extent e) as Hv by (eapply extents_ok_valid; [done | by eapply list_elem_of_lookup_2]).
  unfold carve, no_room in *. pose proof Hv as [? ?].
  destruct (Z.eqb_spec start (x_start e)) as [Es | Es], (Z.eqb_spec finish (x_end e)) as [Ef | Ef].
  - destruct (region_remove_live r index e Hfit Hi) as (r' & -> & Hfit' & _ & Hl). simpl. eexists. split; [done |].
    eapply (carve_result r r' index e start finish []); try done; [split; constructor | | by intros ? ?%elem_of_nil].
    intros x. rewrite free_nil. unfold inside. lia.
  - destruct (region_set_live r index e (mkExtent finish (x_end e)) Hfit Hi) as (l & -> & Hfit' & Hl). simpl. eexists. split; [done |].
    eapply (carve_result r _ index e start finish [mkExtent finish (x_end e)]); try done; [apply extents_ok_single; split; simpl; lia | |].
    + intros x. rewrite free_cons, free_nil. unfold inside; simpl; lia.
    + intros x ->%list_elem_of_singleton. simpl. lia.
  - destruct (region_set_live r index e (mkExtent (x_start e) start) Hfit Hi) as (l & -> & Hfit' & Hl). simpl. eexists. split; [done |].
    eapply (carve_result r _ index e start finish [mkExtent (x_start e) start]); try done; [apply extents_ok_single; split; simpl; lia | |].
    + intros x. rewrite free_cons, free_nil. unfold inside; simpl; lia.
    + intros x ->%list_elem_of_singleton. simpl. lia.
  - simpl in Hroom. apply Nat.eqb_neq in Hroom. pose proof (lookup_lt_Some _ _ _ Hi) as Hlt. rewrite (length_live r Hfit) in Hlt.
    destruct (region_set_live r index e (mkExtent (x_start e) start) Hfit Hi) as (l & -> & Hfit' & Hl). simpl.
    destruct (region_insert_live (mkRegion l (count r)) (S index) (mkExtent finish (x_end e)) Hfit') as (r' & -> & Hfit'' & _ & Hl'); [simpl; lia | simpl; destruct Hfit; lia |].
    simpl. eexists. split; [done |]. eapply (carve_result r r' index e start finish [mkExtent (x_start e) start; mkExtent finish (x_end e)]); try done.
    + rewrite Hl', Hl. assert (length (take index (live r)) = index) as Hlen by (rewrite length_take, (length_live r Hfit); lia).
      rewrite take_app, drop_app, Hlen. replace (S index - index)%nat with 1%nat by lia. rewrite (take_ge (take index (live r))), (drop_ge (take index (live r))) by lia. simpl. by rewrite <- app_assoc.
    + apply extents_ok_pair; [split; simpl; lia | split; simpl; lia | unfold before; simpl; lia].
    + intros x. rewrite !free_cons, free_nil. unfold inside; simpl; lia.
    + intros x [-> | ->%list_elem_of_singleton]%elem_of_cons; simpl; lia.
Qed.
(** What the loop has found from extent [index] on. *)
Definition take_outcome (index : nat) (size alignment : Z) (r : Region) (out : option (Region * option Z)) : Prop :=
  match out with
  | Some (r', Some a) => region_ok r' /\ (exists j e finish, (index <= j)%nat /\ live r !! j = Some e /\ fit size alignment e = Some (a, finish) /\
        (count r < MAX_EXTENTS -> forall i e', index <= i < j -> live r !! i = Some e' -> fit size alignment e' = None)%nat) /\
      forall x, free (live r') x <-> free (live r) x /\ ~ a <= x < a + size
  | Some (r', None) => r' = r /\ (count r < MAX_EXTENTS -> forall i e', index <= i -> live r !! i = Some e' -> fit size alignment e' = None)%nat
  | None => False
  end.
Lemma take_outcome_skip index size alignment r e out : live r !! index = Some e -> ((count r < MAX_EXTENTS)%nat -> fit size alignment e = None) ->
  take_outcome (S index) size alignment r out -> take_outcome index size alignment r out.
Proof.
  intros He Hnone. assert (forall i e', i = index -> live r !! i = Some e' -> (count r < MAX_EXTENTS)%nat -> fit size alignment e' = None) as Hhere.
  { intros i e' -> He'. rewrite He in He'. by injection He' as <-. }
  destruct out as [[r' [a |]] |]; simpl; [| | done].
  - intros (Hok' & (j & e' & finish & Hj & He' & Hfit & Hbefore) & Hfree). split_and!; [done | | done].
    exists j, e', finish. split_and!; [lia | done | done |]. intros Hc i e'' Hi He''. destruct (decide (i = index)); [by eapply Hhere | by apply (Hbefore Hc i); [lia |]].
  - intros [-> Hnext]. split; [done |]. intros Hc i e' Hi He'. destruct (decide (i = index)); [by eapply Hhere | by apply (Hnext Hc i); [lia |]].
Qed.
Lemma take_loop_spec n index size alignment r : region_ok r -> 0 < size -> is_power_of_two alignment = true -> (n + index = count r)%nat ->
  take_outcome index size alignment r (take_loop n index size alignment r).
Proof.
  intros Hok Hsize Hal. revert index. induction n as [| n IH]; intros index Hn.
  { simpl. split; [done |]. intros _ i e' Hi He'. apply lookup_lt_Some in He'. rewrite length_live in He' by apply Hok. lia. }
  destruct (lookup_lt_is_Some_2 (live r) index) as [e He]; [rewrite length_live; [lia | apply Hok] |].
  rewrite (take_loop_step n index size alignment r e) by by rewrite <- live_lookup by lia.
  specialize (IH (S index) ltac:(lia)).
  destruct (fit size alignment e) as [[start finish] |] eqn:Hfit; [destruct (no_room e start finish r) eqn:Hroom |].
  - eapply take_outcome_skip; [done | | done]. unfold no_room in Hroom. rewrite !andb_true_iff, Nat.eqb_eq in Hroom. lia.
  - destruct (fit_Some _ _ _ _ _ Hal Hfit) as (Hm & -> & Hs & Hf & Hleast).
    destruct (carve_ok r index e start (start + size) Hok He ltac:(lia) Hf Hroom) as (r' & -> & Hok' & Hfree). split_and!; [done | | done].
    exists index, e, (start + size). split_and!; [lia | done | done |]. intros; lia.
  - by eapply take_outcome_skip.
Qed.
(** A place in the free addresses fits an extent. *)
Lemma place_fits l size alignment p : extents_ok l -> 0 < size -> is_power_of_two alignment = true -> alignment <= u64_max -> place l size alignment p ->
  exists i e, l !! i = Some e /\ x_start e <= p /\ p + size <= x_end e /\ fit size alignment e <> None.
Proof.
  intros Hok Hs Hal Hle [Hm Hf]. destruct (free_range_within l p size Hok Hs Hf) as (e & He & Hp & Hend).
  apply list_elem_of_lookup in He as [i Hi]. exists i, e. split_and!; [done | done | done |]. intros Hn.
  by apply (fit_None size alignment e p Hal Hle) in Hn; [| eapply extents_ok_valid; [| eapply list_elem_of_lookup_2] | | |].
Qed.
(** A [take] that finds nothing changes nothing, and there is nothing to find unless the array is full. *)
Lemma region_take_total r size alignment : region_ok r -> 0 <= size -> alignment <= u64_max ->
  exists r' taken, region_take size alignment r = Some (r', taken) /\
  (taken = None -> r' = r /\ (size = 0 \/ is_power_of_two alignment = false \/ count r = MAX_EXTENTS \/ forall p, ~ place (live r) size alignment p)).
Proof.
  intros Hok Hs Hle. unfold region_take. destruct (Z.eqb_spec size 0); [exists r, None; auto |]. simpl. destruct (is_power_of_two alignment) eqn:Hp; [| exists r, None; simpl; auto].
  assert (0 < size) as Hpos by lia. pose proof (take_loop_spec (count r) 0 size alignment r Hok Hpos Hp ltac:(lia)) as Hout. simpl. pose proof Hok as [Hfit Hex].
  destruct (take_loop _ _ _ _ _) as [[r' [a |]] |]; [by exists r', (Some a) | | done]. destruct Hout as [-> Hnone]. exists r, None. split; [done |]. intros _.
  split; [done |]. right; right. destruct (decide (count r = MAX_EXTENTS)); [by left | right].
  intros p Hpl. destruct (place_fits _ _ _ _ Hex Hpos Hp Hle Hpl) as (i & e & He & _ & _ & Hne). apply Hne, (Hnone ltac:(destruct Hfit; lia) i); [lia | done].
Qed.
(** Taking is first fit on the set of free addresses.  It never leaves the array; what it hands out is aligned and
    was free, and exactly that range stops being free.  While the array has room it takes the lowest place there is,
    and fails only if there is none; a failure changes nothing. *)
Theorem region_take_first_fit r size alignment : region_ok r -> 0 <= size -> alignment <= u64_max ->
  match region_take size alignment r with
  | Some (r', Some a) => region_ok r' /\ 0 < size /\ place (live r) size alignment a /\
      (forall x, free (live r') x <-> free (live r) x /\ ~ a <= x < a + size) /\
      ((count r < MAX_EXTENTS)%nat -> forall p, place (live r) size alignment p -> a <= p)
  | Some (r', None) => r' = r /\ (size = 0 \/ is_power_of_two alignment = false \/ count r = MAX_EXTENTS \/ forall p, ~ place (live r) size alignment p)
  | None => False
  end.
Proof.
  intros Hok Hs Hle. destruct (region_take_total r size alignment Hok Hs Hle) as (r' & [a |] & Htake & Hnone); rewrite Htake; [| by apply Hnone].
  unfold region_take in Htake. destruct (Z.eqb_spec size 0); [done |]. simpl in Htake. destruct (is_power_of_two alignment) eqn:Hal; [| done]. simpl in Htake.
  pose proof Hok as [Hfit Hex]. assert (0 < size) as Hpos by lia.
  pose proof (take_loop_spec (count r) 0 size alignment r Hok ltac:(lia) Hal ltac:(lia)) as Hout. rewrite Htake in Hout.
  destruct Hout as (Hok' & (j & e & finish & _ & He & Ha & Hbefore) & Hfree). destruct (fit_Some _ _ _ _ _ Hal Ha) as (Hm & -> & Hst & Hend & Hleast).
  split_and!; [done | lia | split; [done |] | done |].
  - intros x Hx. apply free_elem. exists e. split; [by eapply list_elem_of_lookup_2 | unfold inside; lia].
  - intros Hc p Hp. destruct (place_fits _ _ _ _ Hex Hpos Hal Hle Hp) as (i & e' & He' & Hps & Hpe & Hne).
    destruct (Nat.lt_total i j) as [Hlt | [-> | Hlt]]; [by destruct Hne; apply (Hbefore Hc i); [lia |] | | ].
    + rewrite He in He'. injection He' as <-. apply Hleast; [apply Hp | done].
    + pose proof (extents_lookup_before _ _ _ _ _ Hex Hlt He He'). unfold before in *. lia.
Qed.

(** ** Giving back *)
Definition overlaps (start finish : Z) (e : Extent) : Prop := start < x_end e /\ x_start e < finish.
Definition touches (start finish : Z) (e : Extent) : Prop := x_end e = start \/ x_start e = finish.
Lemma can_give_loop_spec start finish adjacent l :
  match can_give_loop start finish adjacent l with
  | None => exists e, e ∈ l /\ overlaps start finish e
  | Some b => (forall e, e ∈ l -> ~ overlaps start finish e) /\ (b = true <-> adjacent = true \/ exists e, e ∈ l /\ touches start finish e)
  end.
Proof.
  revert adjacent. induction l as [| e l IH]; intros adjacent; simpl.
  { split; [by intros ? ?%elem_of_nil |]. split; [by left | intros [? | (? & ?%elem_of_nil & _)]; done]. }
  unfold overlaps, touches in *. destruct (Z.ltb_spec start (x_end e)); [destruct (Z.ltb_spec (x_start e) finish) |]; simpl.
  1: { exists e. split; [left | lia]. }
  all: specialize (IH (adjacent || (x_end e =? start) || (x_start e =? finish))); destruct (can_give_loop _ _ _ _) as [b |];
    [destruct IH as [Hno Hb]; split; [intros e' [-> | He']%elem_of_cons; [lia | by apply Hno] |] | destruct IH as (e' & He' & ?); exists e'; split; [by right | done]];
    rewrite Hb, !orb_true_iff, !Z.eqb_eq; setoid_rewrite elem_of_cons; split; [| naive_solver];
    (intros [[[? | ?] | ?] | (e' & ? & ?)]; [by left | right; exists e; auto | right; exists e; auto | right; exists e'; auto]).
Qed.
Lemma can_give_spec r start size : 0 <= size -> can_give start size r = true <->
  0 < size /\ start + size <= u64_max /\ (forall e, e ∈ live r -> ~ overlaps start (start + size) e) /\
  ((exists e, e ∈ live r /\ touches start (start + size) e) \/ (count r < MAX_EXTENTS)%nat).
Proof.
  intros Hs. unfold can_give. destruct (checked_add u64_max start size) as [finish |] eqn:Hf.
  2: { apply checked_add_None in Hf. split; [done | lia]. }
  apply checked_add_Some in Hf as [-> Hle]. destruct (Z.eqb_spec size 0); [split; [done | lia] |].
  pose proof (can_give_loop_spec start (start + size) false (live r)) as Hl. destruct (can_give_loop _ _ _ _) as [b |].
  - destruct Hl as [Hno Hb]. rewrite orb_true_iff, Nat.ltb_lt, Hb. split; [intros [[? | ?] | ?]; [done | |] |]; [split_and!; auto; lia | split_and!; auto; lia | tauto].
  - destruct Hl as (e & He & Ho). split; [done |]. intros (_ & _ & Hno & _). by destruct (Hno e).
Qed.
Lemma give_index_spec n index start l : (index + n <= length l)%nat ->
  exists i, give_index n index start l = Some i /\ (index <= i <= index + n)%nat /\
  (forall j e, (index <= j < i)%nat -> l !! j = Some e -> x_start e < start) /\ (forall e, (i < index + n)%nat -> l !! i = Some e -> start <= x_start e).
Proof.
  revert index. induction n as [| n IH]; intros index Hn; simpl.
  { exists index. split_and!; [done | lia | lia | lia | lia]. }
  destruct (lookup_lt_is_Some_2 l index) as [e He]; [lia |]. rewrite He. simpl. destruct (Z.ltb_spec (x_start e) start).
  - destruct (IH (S index) ltac:(lia)) as (i & -> & Hi & Hb & Ha). exists i. split_and!; [done | lia | lia | |].
    + intros j e' Hj He'. destruct (decide (j = index)) as [-> |]; [congruence | apply (Hb j); [lia | done]].
    + intros e' Hlt. apply Ha. lia.
  - exists index. split_and!; [done | lia | lia | lia |]. intros e' _ He'. congruence.
Qed.
(** The range lies between the extents before [index] and those from [index] on. *)
Record between (l : list Extent) (index : nat) (start finish : Z) : Prop := {
  bt_left : forall e, e ∈ take index l -> x_end e <= start;
  bt_right : forall e, e ∈ drop index l -> finish <= x_start e;
}.
Lemma give_between r start size : region_ok r -> 0 < size -> (forall e, e ∈ live r -> ~ overlaps start (start + size) e) ->
  exists index, give_index (count r) 0 start (extents r) = Some index /\ (index <= count r)%nat /\ between (live r) index start (start + size).
Proof.
  intros [Hfit Hex] Hs Hno. pose proof Hfit as [Hlen Hc]. destruct (give_index_spec (count r) 0 start (extents r) ltac:(lia)) as (i & Hi & Hr & Hb & Ha).
  exists i. split_and!; [done | lia |]. unfold overlaps in *. split; intros e He.
  - apply list_elem_of_lookup in He as [j [Hj Hlt]%lookup_take_Some]. pose proof (Hno e ltac:(by eapply list_elem_of_lookup_2)).
    rewrite live_lookup in Hj by lia. specialize (Hb j e ltac:(lia) Hj). lia.
  - apply list_elem_of_lookup in He as [j Hj]. rewrite lookup_drop in Hj. pose proof (Hno e ltac:(by eapply list_elem_of_lookup_2)).
    pose proof (extents_ok_valid _ e Hex ltac:(by eapply list_elem_of_lookup_2)) as [? _].
    pose proof (lookup_lt_Some _ _ _ Hj) as Hlt. rewrite length_live in Hlt by done.
    destruct (lookup_lt_is_Some_2 (live r) i) as [e0 He0]; [rewrite length_live by done; lia |].
    assert (start <= x_start e0) by (apply Ha; [lia | by rewrite <- live_lookup by lia]).
    destruct j as [| j]; [rewrite Nat.add_0_r in Hj; rewrite He0 in Hj; injection Hj as ->; lia |].
    pose proof (extents_lookup_before _ i (i + S j) e0 e Hex ltac:(lia) He0 Hj). pose proof (extents_ok_valid _ e0 Hex ltac:(by eapply list_elem_of_lookup_2)) as [? _]. unfold before in *. lia.
Qed.
Section Give.
Variables (r : Region) (index : nat) (start finish : Z).
Hypothesis (Hok : region_ok r) (Hrange : 0 <= start < finish) (Hfinish : finish <= u64_max).
Hypothesis (Hindex : (index <= length (live r))%nat) (Hbt : between (live r) index start finish).
(** The extents before [index] end before the range, unless the last of them ends at it; and so for those behind. *)
Lemma left_apart e : (forall p, (0 < index)%nat -> live r !! (index - 1)%nat = Some p -> x_end p <> start) -> e ∈ take index (live r) -> x_end e < start.
Proof.
  intros Hlast He. pose proof (bt_left _ _ _ _ Hbt e He). apply list_elem_of_lookup in He as [j [Hj Hlt]%lookup_take_Some].
  destruct (decide (j = index - 1)%nat) as [-> |]; [specialize (Hlast e ltac:(lia) Hj); lia |].
  destruct (lookup_lt_is_Some_2 (live r) (index - 1) ltac:(lia)) as [p Hp]. pose proof (extents_lookup_before _ j (index - 1) e p (proj2 Hok) ltac:(lia) Hj Hp).
  pose proof (bt_left _ _ _ _ Hbt p ltac:(apply list_elem_of_lookup; exists (index - 1)%nat; apply lookup_take_Some; split; [done | lia])).
  pose proof (extents_ok_valid _ p (proj2 Hok) ltac:(by eapply list_elem_of_lookup_2)) as [? _]. unfold before in *. lia.
Qed.
Lemma right_apart e : (forall p, live r !! index = Some p -> x_start p <> finish) -> e ∈ drop index (live r) -> finish < x_start e.
Proof.
  intros Hlast He. pose proof (bt_right _ _ _ _ Hbt e He). apply list_elem_of_lookup in He as [j Hj]. rewrite lookup_drop in Hj.
  destruct j as [| j]; [rewrite Nat.add_0_r in Hj; specialize (Hlast e Hj); lia |].
  destruct (lookup_lt_is_Some_2 (live r) index) as [p Hp]; [apply lookup_lt_Some in Hj; lia |].
  pose proof (extents_lookup_before _ index (index + S j) p e (proj2 Hok) ltac:(lia) Hp Hj).
  pose proof (bt_right _ _ _ _ Hbt p ltac:(apply list_elem_of_lookup; exists 0%nat; rewrite lookup_drop; by rewrite Nat.add_0_r)).
  pose proof (extents_ok_valid _ p (proj2 Hok) ltac:(by eapply list_elem_of_lookup_2)) as [? _]. unfold before in *. lia.
Qed.
End Give.
(** The range added: the extents [m] that touch it and the range become one extent [n]. *)
Lemma fill_ok r start finish r' a m b n : region_ok r -> live r = a ++ m ++ b -> live r' = a ++ n :: b -> fits_array r' -> valid_extent n ->
  (forall e, e ∈ a -> before e n) -> (forall e, e ∈ b -> before n e) -> (forall x, inside n x <-> free m x \/ start <= x < finish) ->
  region_ok r' /\ forall x, free (live r') x <-> free (live r) x \/ start <= x < finish.
Proof.
  intros Hok Hl Hl' Hfit Hn Ha Hb Hin. split.
  - split; [done |]. rewrite Hl'. destruct Hok as [_ Hex]. rewrite Hl in Hex. apply extents_ok_app in Hex as (Hea & Hex & _). apply extents_ok_app in Hex as (_ & Heb & _).
    apply extents_ok_app. split_and!; [done | by apply extents_ok_cons |]. intros x y Hx [-> | Hy]%elem_of_cons; [by apply Ha |].
    specialize (Ha x Hx). specialize (Hb y Hy). unfold before in *. destruct Hn as [? _]. lia.
  - intros x. rewrite Hl, Hl', !free_app, free_cons, Hin. tauto.
Qed.
(** The last extent of a prefix. *)
Lemma take_last {A} (l : list A) i p : (0 < i)%nat -> l !! (i - 1)%nat = Some p -> take i l = take (i - 1) l ++ [p].
Proof. intros Hi Hp. replace i with (S (i - 1)) at 1 by lia. by apply take_S_r. Qed.
Lemma no_overlap_free r start finish : region_ok r -> start < finish ->
  (forall e, e ∈ live r -> ~ overlaps start finish e) <-> forall x, start <= x < finish -> ~ free (live r) x.
Proof.
  intros [_ Hex] Hs. split.
  - intros Hno x Hx (e & He & Hi)%free_elem. apply (Hno e He). unfold overlaps, inside in *. lia.
  - intros Hno e He [? ?]. apply (Hno (Z.max start (x_start e)) ltac:(lia)), free_elem. exists e. split; [done |].
    pose proof (extents_ok_valid _ e Hex He) as [? _]. unfold inside. lia.
Qed.
(** The two neighbour tests of [give]. *)
Definition touches_left (r : Region) (index : nat) (start : Z) : option bool :=
  if (0 <? index)%nat then e ← extents r !! (index - 1)%nat; Some (x_end e =? start) else Some false.
Definition touches_right (r : Region) (index : nat) (finish : Z) : option bool :=
  if (index <? count r)%nat then e ← extents r !! index; Some (x_start e =? finish) else Some false.
Section Neighbours.
Variables (r : Region) (index : nat) (start finish : Z).
Hypothesis (Hok : region_ok r) (Hindex : (index <= count r)%nat) (Hbt : between (live r) index start finish).
Lemma touches_left_spec : exists after, touches_left r index start = Some after /\
  if after then exists p, (0 < index)%nat /\ live r !! (index - 1)%nat = Some p /\ x_end p = start else forall e, e ∈ take index (live r) -> x_end e < start.
Proof.
  pose proof (length_live r (proj1 Hok)) as Hlen. unfold touches_left. destruct (Nat.ltb_spec 0 index).
  - destruct (lookup_lt_is_Some_2 (live r) (index - 1)) as [p Hp]; [lia |]. rewrite <- live_lookup, Hp by lia. cbn [mbind option_bind].
    eexists. split; [done |]. destruct (Z.eqb_spec (x_end p) start); [by exists p |]. intros e. eapply left_apart; [done | lia | done |]. intros p' _ Hp'. congruence.
  - exists false. split; [done |]. intros e. eapply left_apart; [done | lia | done | lia].
Qed.
Lemma touches_right_spec : exists next, touches_right r index finish = Some next /\
  if next then exists p, live r !! index = Some p /\ x_start p = finish else forall e, e ∈ drop index (live r) -> finish < x_start e.
Proof.
  pose proof (length_live r (proj1 Hok)) as Hlen. unfold touches_right. destruct (Nat.ltb_spec index (count r)).
  - destruct (lookup_lt_is_Some_2 (live r) index) as [p Hp]; [lia |]. rewrite <- live_lookup, Hp by lia. cbn [mbind option_bind].
    eexists. split; [done |]. destruct (Z.eqb_spec (x_start p) finish); [by exists p |]. intros e. eapply right_apart; [done | lia | done |]. intros p' Hp'. congruence.
  - exists false. split; [done |]. intros e. eapply right_apart; [done | lia | done |]. intros p Hp. apply lookup_lt_Some in Hp. lia.
Qed.
End Neighbours.
(** The end of [give]: the range joins its neighbours, or gets an extent of its own. *)
Definition fill (r : Region) (index : nat) (start finish : Z) (after next : bool) : option (Region * bool) :=
  match after, next with
  | true, true =>
      p ← extents r !! (index - 1)%nat; e ← extents r !! index;
      l ← arr_set (extents r) (index - 1) (mkExtent (x_start p) (x_end e));
      r' ← region_remove index (mkRegion l (count r)); Some (r', true)
  | true, false =>
      p ← extents r !! (index - 1)%nat;
      l ← arr_set (extents r) (index - 1) (mkExtent (x_start p) finish); Some (mkRegion l (count r), true)
  | false, true =>
      e ← extents r !! index;
      l ← arr_set (extents r) index (mkExtent start (x_end e)); Some (mkRegion l (count r), true)
  | false, false =>
      if (count r =? MAX_EXTENTS)%nat then Some (r, false) else
      r' ← region_insert index (mkExtent start finish) r; Some (r', true)
  end.
(** Two neighbours replaced by one extent. *)
Lemma region_merge_live r i p e n : fits_array r -> (0 < i)%nat -> live r !! (i - 1)%nat = Some p -> live r !! i = Some e ->
  exists l r', arr_set (extents r) (i - 1) n = Some l /\ region_remove i (mkRegion l (count r)) = Some r' /\ fits_array r' /\
  live r = take (i - 1) (live r) ++ [p; e] ++ drop (S i) (live r) /\ live r' = take (i - 1) (live r) ++ n :: drop (S i) (live r).
Proof.
  intros Hfit Hi Hp He. pose proof (length_live r Hfit) as Hlen. pose proof (lookup_lt_Some _ _ _ He) as Hlt.
  destruct (region_set_live r (i - 1) p n Hfit Hp) as (l & Hset & Hfit' & Hl). replace (S (i - 1)) with i in Hl by lia. rewrite (drop_S _ _ _ He) in Hl.
  assert (length (take (i - 1) (live r)) = i - 1)%nat as Hta by (rewrite length_take; lia).
  destruct (region_remove_live (mkRegion l (count r)) i e Hfit') as (r' & Hrem & Hfit'' & _ & Hl').
  { rewrite Hl, lookup_app_r, Hta by lia. by replace (i - (i - 1))%nat with 1%nat by lia. }
  exists l, r'. split_and!; [done | done | done | |].
  - rewrite <- (take_drop (i - 1) (live r)) at 1. f_equal. rewrite (drop_S _ _ _ Hp). simpl. f_equal. replace (S (i - 1)) with i by lia. by apply drop_S.
  - rewrite Hl in Hl'. rewrite take_app, drop_app, Hta in Hl'. rewrite (take_ge (take _ _)), (drop_ge (take _ _)) in Hl' by lia.
    replace (i - (i - 1))%nat with 1%nat in Hl' by lia. replace (S i - (i - 1))%nat with 2%nat in Hl' by lia. simpl in Hl'. by rewrite <- app_assoc in Hl'.
Qed.
Lemma fill_spec r index start finish after next : region_ok r -> 0 <= start < finish -> finish <= u64_max -> (index <= count r)%nat ->
  (if after : bool then exists p, (0 < index)%nat /\ live r !! (index - 1)%nat = Some p /\ x_end p = start else forall e, e ∈ take index (live r) -> x_end e < start) ->
  (if next : bool then exists p, live r !! index = Some p /\ x_start p = finish else forall e, e ∈ drop index (live r) -> finish < x_start e) ->
  (count r < MAX_EXTENTS)%nat \/ after = true \/ next = true ->
  exists r', fill r index start finish after next = Some (r', true) /\ region_ok r' /\ forall x, free (live r') x <-> free (live r) x \/ start <= x < finish.
Proof.
  intros Hok Hr Hu Hi Hafter Hnext Hroom. pose proof Hok as [Hfit Hex]. pose proof (length_live r Hfit) as Hlen. unfold fill.
  destruct after, next.
  - destruct Hafter as (p & Hi0 & Hp & Hpe), Hnext as (e & He & Hes).
    rewrite <- !live_lookup, Hp, He by (apply lookup_lt_Some in He; lia). cbn [mbind option_bind].
    destruct (region_merge_live r index p e (mkExtent (x_start p) (x_end e)) Hfit Hi0 Hp He) as (l & r' & -> & Hrem & Hfit'' & Hd & Hl').
    cbn [mbind option_bind]. rewrite Hrem. cbn [mbind option_bind]. eexists. split; [done |].
    rewrite Hd in Hex. apply extents_ok_app in Hex as (_ & Hpb & Ha). apply extents_ok_cons in Hpb as ([? _] & Heb & Hpe'). apply extents_ok_cons in Heb as ([? ?] & _ & Hb).
    eapply (fill_ok r start finish r' _ [p; e] _ _ Hok Hd Hl' Hfit''); [split; simpl; lia | | |].
    + intros x Hx. unfold before. simpl. apply (Ha x p Hx). left.
    + intros x Hx. by apply (Hb x).
    + intros x. rewrite !free_cons, free_nil. unfold inside. simpl. lia.
  - destruct Hafter as (p & Hi0 & Hp & Hpe). rewrite <- live_lookup, Hp by lia. cbn [mbind option_bind].
    destruct (region_set_live r (index - 1) p (mkExtent (x_start p) finish) Hfit Hp) as (l & -> & Hfit' & Hl). cbn [mbind option_bind]. eexists. split; [done |].
    pose proof (live_split _ _ _ Hp) as Hd. replace (S (index - 1)) with index in Hd, Hl by lia. rewrite Hd in Hex.
    apply extents_ok_app in Hex as (_ & Hpb & Ha). apply extents_ok_cons in Hpb as ([? _] & _ & _).
    eapply (fill_ok r start finish _ _ [p] _ _ Hok Hd Hl Hfit'); [split; simpl; lia | | |].
    + intros x Hx. unfold before. simpl. apply (Ha x p Hx). left.
    + intros x Hx. by apply Hnext.
    + intros x. rewrite !free_cons, free_nil. unfold inside. simpl. lia.
  - destruct Hnext as (e & He & Hes). rewrite <- live_lookup, He by (apply lookup_lt_Some in He; lia). cbn [mbind option_bind].
    destruct (region_set_live r index e (mkExtent start (x_end e)) Hfit He) as (l & -> & Hfit' & Hl). cbn [mbind option_bind]. eexists. split; [done |].
    pose proof (live_split _ _ _ He) as Hd. rewrite Hd in Hex. apply extents_ok_app in Hex as (_ & Hpb & _). apply extents_ok_cons in Hpb as ([? ?] & _ & Hb).
    eapply (fill_ok r start finish _ _ [e] _ _ Hok Hd Hl Hfit'); [split; simpl; lia | | |].
    + intros x Hx. by apply Hafter.
    + intros x Hx. by apply (Hb x).
    + intros x. rewrite !free_cons, free_nil. unfold inside. simpl. lia.
  - rewrite (proj2 (Nat.eqb_neq _ _)) by (destruct Hroom as [? | [? | ?]]; [lia | done | done]).
    destruct (region_insert_live r index (mkExtent start finish) Hfit Hi) as (r' & -> & Hfit' & _ & Hl); [destruct Hroom as [? | [? | ?]]; done |].
    cbn [mbind option_bind]. eexists. split; [done |].
    eapply (fill_ok r start finish r' _ [] _ _ Hok (eq_sym (take_drop index (live r))) Hl Hfit'); [split; simpl; lia | intros x Hx; by apply Hafter | intros x Hx; by apply Hnext |].
    intros x. rewrite free_nil. unfold inside. simpl. lia.
Qed.
Lemma give_accepted r start size : region_ok r -> 0 <= start -> can_give start size r = true -> 0 <= size ->
  exists r', region_give start size r = Some (r', true) /\ region_ok r' /\ forall x, free (live r') x <-> free (live r) x \/ start <= x < start + size.
Proof.
  intros Hok Hst Hcan Hs. unfold region_give. rewrite Hcan. simpl negb. cbn iota. apply can_give_spec in Hcan as (Hpos & Hle & Hno & Hroom); [| done].
  replace (checked_add u64_max start size) with (Some (start + size)) by (symmetry; apply checked_add_Some; lia).
  rewrite (proj2 (Z.eqb_neq size 0)) by lia. destruct (give_between r start size Hok Hpos Hno) as (index & -> & Hidx & Hbt). cbn [mbind option_bind].
  destruct (touches_left_spec r index start (start + size) Hok Hidx Hbt) as (after & Ha & Hafter).
  destruct (touches_right_spec r index start (start + size) Hok Hidx Hbt) as (next & Hn & Hnext).
  unfold touches_left in Ha. unfold touches_right in Hn. rewrite Ha, Hn. cbn [mbind option_bind].
  apply (fill_spec r index start (start + size) after next); try done; [lia |].
  destruct Hroom as [(e & He & Ht) |]; [right | by left]. rewrite <- (take_drop index (live r)) in He.
  destruct after; [by left |]. destruct next; [by right |]. exfalso. unfold touches in Ht. apply elem_of_app in He as [He | He].
  - specialize (Hafter e He). pose proof (extents_ok_valid (live r) e (proj2 Hok) ltac:(rewrite <- (take_drop index (live r)); set_solver)) as [? _]. lia.
  - specialize (Hnext e He). pose proof (extents_ok_valid (live r) e (proj2 Hok) ltac:(rewrite <- (take_drop index (live r)); set_solver)) as [? _]. lia.
Qed.
(** Giving a range back makes exactly that range free, joined with its neighbours.  It is refused, without a change,
    exactly when the range is empty, runs past the address space, holds an address that is free already, or needs an
    extent of its own in a full array; the array is never left. *)
Theorem region_give_exact r start size : region_ok r -> 0 <= start -> 0 <= size ->
  match region_give start size r with
  | Some (r', true) => region_ok r' /\ 0 < size /\ start + size <= u64_max /\ (forall x, start <= x < start + size -> ~ free (live r) x) /\
      (count r <> MAX_EXTENTS \/ free (live r) (start - 1) \/ free (live r) (start + size)) /\
      forall x, free (live r') x <-> free (live r) x \/ start <= x < start + size
  | Some (r', false) => r' = r /\ (size = 0 \/ u64_max < start + size \/ (exists x, start <= x < start + size /\ free (live r) x) \/
      (count r = MAX_EXTENTS /\ ~ free (live r) (start - 1) /\ ~ free (live r) (start + size)))
  | None => False
  end.
Proof.
  intros Hok Hst Hs. destruct (can_give start size r) eqn:Hcan.
  - destruct (give_accepted r start size Hok Hst Hcan Hs) as (r' & -> & Hok' & Hfree). apply can_give_spec in Hcan as (Hpos & Hle & Hno & Hroom); [| done].
    split_and!; try done; [apply (no_overlap_free r start (start + size)); [done | lia | done] |].
    destruct Hroom as [(e & He & Ht) |]; [right | left; lia]. pose proof (extents_ok_valid _ e (proj2 Hok) He) as [? _].
    destruct Ht; [left | right]; apply free_elem; exists e; (split; [done | unfold inside; lia]).
  - unfold region_give. rewrite Hcan. simpl. split; [done |]. apply not_true_iff_false in Hcan. rewrite can_give_spec in Hcan by done.
    destruct (decide (size = 0)); [by left | right]. destruct (decide (u64_max < start + size)); [by left | right].
    destruct (decide (Exists (overlaps start (start + size)) (live r))) as [He | Hno].
    { left. apply Exists_exists in He as (e & He & Ho). pose proof (extents_ok_valid _ e (proj2 Hok) He) as [? _].
      exists (Z.max start (x_start e)). unfold overlaps in Ho. split; [lia |]. apply free_elem. exists e. split; [done | unfold inside; lia]. }
    right. rewrite Exists_exists in Hno. assert (forall e, e ∈ live r -> ~ touches start (start + size) e) as Ht.
    { intros e He Ht. apply Hcan. split_and!; [lia | lia | intros e' ? ?; apply Hno; eauto | left; eauto]. }
    split_and!.
    + destruct (decide (count r < MAX_EXTENTS)%nat); [| destruct Hok as [[_ ?] _]; lia]. exfalso. apply Hcan. split_and!; [lia | lia | intros e' ? ?; apply Hno; eauto | by right].
    + intros (e & He & Hi)%free_elem. unfold inside in Hi. destruct (decide (x_end e = start)); [by apply (Ht e He); left |].
      apply Hno. exists e. split; [done | unfold overlaps; lia].
    + intros (e & He & Hi)%free_elem. unfold inside in Hi. destruct (decide (x_start e = start + size)); [by apply (Ht e He); right |].
      apply Hno. exists e. split; [done | unfold overlaps; lia].
Qed.

(** ** Both together *)
(** What is left of an extent when [start, finish) is cut out of it. *)
Definition rest (e : Extent) (start finish : Z) : list Extent :=
  (if decide (x_start e < start) then [mkExtent (x_start e) start] else []) ++ (if decide (finish < x_end e) then [mkExtent finish (x_end e)] else []).
Lemma rest_spec e start finish : valid_extent e -> x_start e <= start < finish -> finish <= x_end e ->
  extents_ok (rest e start finish) /\ (forall x, x ∈ rest e start finish -> x_start e <= x_start x /\ x_end x <= x_end e) /\
  (forall x, free (rest e start finish) x <-> inside e x /\ ~ start <= x < finish).
Proof.
  intros [? ?] ? ?. unfold rest. repeat case_decide; simpl; split_and!; try (intros x; rewrite ?free_cons, free_nil; unfold inside; simpl; lia);
    try (intros x; rewrite ?elem_of_cons, elem_of_nil; intros; destruct_or?; simplify_eq/=; lia); try done.
  - apply extents_ok_pair; [split; simpl; lia | split; simpl; lia | unfold before; simpl; lia].
  - apply extents_ok_single. split; simpl; lia.
  - apply extents_ok_single. split; simpl; lia.
  - split; constructor.
Qed.
(** A range that stops being free is cut out of one extent. *)
Lemma cut_live l l' a n : extents_ok l -> extents_ok l' -> 0 < n -> (forall x, a <= x < a + n -> free l x) ->
  (forall x, free l' x <-> free l x /\ ~ a <= x < a + n) ->
  exists j e, l !! j = Some e /\ x_start e <= a /\ a + n <= x_end e /\ l' = take j l ++ rest e a (a + n) ++ drop (S j) l.
Proof.
  intros Hex Hex' Hn Hin Hfree. destruct (free_range_within l a n Hex Hn Hin) as (e & [j He]%list_elem_of_lookup & Hst & Hend).
  exists j, e. split_and!; [done | done | done |].
  assert (valid_extent e) as Hv by (apply (extents_ok_valid l); [done | by eapply list_elem_of_lookup_2]).
  destruct (rest_spec e a (a + n) Hv ltac:(lia) Hend) as (Hr & Hri & Hrf). pose proof (take_drop_middle l j e He) as Hd. rewrite <- Hd in Hex.
  apply extents_canonical; [done | by eapply replace_ok |].
  intros x. rewrite Hfree, (replace_free _ _ _ (rest e a (a + n)) x Hex), Hrf, Hd by (rewrite Hrf; tauto).
  assert (inside e x -> free l x). { intros. apply free_elem. exists e. split; [by eapply list_elem_of_lookup_2 | done]. }
  unfold inside in *. destruct (decide (x_start e <= x < x_end e)); tauto || (split; [intros [? ?]; left; tauto |]; intros [? | ?]; [split; [tauto | lia] | tauto]).
Qed.
(** The extents after a successful [take]. *)
Lemma take_live r r' size alignment a : region_ok r -> 0 <= size -> region_take size alignment r = Some (r', Some a) ->
  region_ok r' /\ 0 < size /\ (forall x, a <= x < a + size -> free (live r) x) /\ (forall x, free (live r') x <-> free (live r) x /\ ~ a <= x < a + size) /\
  a mod alignment = 0.
Proof.
  intros Hok Hs Htake. unfold region_take in Htake. destruct (Z.eqb_spec size 0); [done |]. simpl in Htake. destruct (is_power_of_two alignment) eqn:Hp; [| done]. simpl in Htake.
  pose proof (take_loop_spec (count r) 0 size alignment r Hok ltac:(lia) Hp ltac:(lia)) as Hout. rewrite Htake in Hout.
  destruct Hout as (Hok' & (j & e & finish & _ & He & Ha & _) & Hfree). destruct (fit_Some _ _ _ _ _ Hp Ha) as (Hm & -> & Hst & Hend & _).
  split_and!; [done | lia | | done | done]. intros x Hx. apply free_elem. exists e. split; [by eapply list_elem_of_lookup_2 | unfold inside; lia].
Qed.
(** A range that was cut out of the free list is accepted back. *)
Lemma cut_can_give r r' a size : region_ok r -> region_ok r' -> 0 < size -> (forall x, a <= x < a + size -> free (live r) x) ->
  (forall x, free (live r') x <-> free (live r) x /\ ~ a <= x < a + size) -> can_give a size r' = true /\ 0 <= a.
Proof.
  intros Hok Hok' Hpos Hin Hfree. destruct (cut_live (live r) (live r') a size (proj2 Hok) (proj2 Hok') Hpos Hin Hfree) as (j & e & He & Hst & Hend & Hl).
  assert (valid_extent e) as [? ?] by (eapply extents_ok_valid; [apply Hok | by eapply list_elem_of_lookup_2]). split; [| lia].
  apply can_give_spec; [lia |]. split_and!; [lia | lia | |].
  - apply (no_overlap_free r' a (a + size) Hok'); [lia |]. intros x Hx. rewrite Hfree. tauto.
  - unfold rest in Hl. destruct (decide (x_start e < a)) as [Hl1 |]; [left; exists (mkExtent (x_start e) a); split; [rewrite Hl; set_solver | by left] |].
    destruct (decide (a + size < x_end e)); [left; exists (mkExtent (a + size) (x_end e)); split; [rewrite Hl; set_solver | by right] | right].
    pose proof (length_live r' (proj1 Hok')) as Hlen'. pose proof (length_live r (proj1 Hok)) as Hlen. pose proof (lookup_lt_Some _ _ _ He).
    rewrite Hl in Hlen'. simpl in Hlen'. rewrite length_app, length_take, length_drop in Hlen'. destruct Hok as [[_ ?] _]. lia.
Qed.
(** Giving back what was just taken cannot fail, whatever the array holds, and restores the free list exactly; the
    assertions that [memory::take] and [memory::reserve] make when a later step fails therefore never fire. *)
Theorem give_reverses_take r r' size alignment a : region_ok r -> 0 <= size -> region_take size alignment r = Some (r', Some a) ->
  exists r'', region_give a size r' = Some (r'', true) /\ region_ok r'' /\ live r'' = live r.
Proof.
  intros Hok Hs Htake. destruct (take_live r r' size alignment a Hok Hs Htake) as (Hok' & Hpos & Hin & Hfree & _).
  destruct (cut_can_give r r' a size Hok Hok' Hpos Hin Hfree) as [Hcan Ha].
  destruct (give_accepted r' a size Hok' Ha Hcan Hs) as (r'' & -> & Hok'' & Hfree''). exists r''. split_and!; [done | done |].
  apply extents_canonical; [apply Hok'' | apply Hok |]. intros x. rewrite Hfree'', Hfree. destruct (decide (a <= x < a + size)); [| tauto].
  split; [auto | tauto].
Qed.
(** [available] is the number of free bytes: taking and giving back change it by the size. *)
Lemma available_sum l n : foldl (fun total e => total + (x_end e - x_start e)) n l = n + foldr (fun e total => x_end e - x_start e + total) 0 l.
Proof. revert n. induction l as [| e l IH]; intros n; simpl; [lia |]. rewrite IH. lia. Qed.
Lemma sum_app l k : foldr (fun e total => x_end e - x_start e + total) 0 (l ++ k) = foldr (fun e total => x_end e - x_start e + total) 0 l + foldr (fun e total => x_end e - x_start e + total) 0 k.
Proof. induction l as [| e l IH]; simpl; [lia |]. rewrite IH. lia. Qed.
Lemma available_cut r r' a n : region_ok r -> region_ok r' -> 0 < n -> (forall x, a <= x < a + n -> free (live r) x) ->
  (forall x, free (live r') x <-> free (live r) x /\ ~ a <= x < a + n) -> region_available r' = region_available r - n.
Proof.
  intros Hok Hok' Hn Hin Hfree. destruct (cut_live (live r) (live r') a n (proj2 Hok) (proj2 Hok') Hn Hin Hfree) as (j & e & He & Hst & Hend & Hl).
  unfold region_available. rewrite !available_sum, Hl. rewrite <- (take_drop_middle (live r) j e He) at 3. rewrite !sum_app. simpl.
  unfold rest. repeat case_decide; simpl; lia.
Qed.
Lemma region_new_ok : region_ok region_new.
Proof.
  split; [split; [apply length_replicate | apply Nat.le_0_l] |]. split; constructor.
Qed.

(** ** Witnesses *)
Module ExtentsSample.
(** Two free extents; an aligned range fits only at the end of the first. *)
Definition region : Region := mkRegion ([mkExtent 4096 20480; mkExtent 32768 40960] ++ replicate 254 NONE) 2.
Lemma region_is_ok : region_ok region.
Proof.
  split; [split; [by vm_compute | unfold MAX_EXTENTS; simpl; lia] |]. cbn. apply extents_ok_pair; [split | split |]; unfold u64_max, before; simpl; lia.
Qed.
Lemma region_take_first_fit_witness : match region_take 4096 16384 region with
  | Some (r', Some a) => a = 16384 /\ region_ok r' /\ forall p, place (live region) 4096 16384 p -> a <= p | _ => False end.
Proof.
  pose proof (region_take_first_fit region 4096 16384 region_is_ok ltac:(done) ltac:(done)) as H.
  assert (snd <$> region_take 4096 16384 region = Some (Some 16384)) as E by by vm_compute.
  destruct (region_take 4096 16384 region) as [[r' [a |]] |]; [| done | done]. injection E as ->.
  destruct H as (? & _ & _ & _ & Hleast). split_and!; [done | done |]. apply Hleast, (proj1 (Nat.ltb_lt _ _)). by vm_compute.
Defined.
Lemma region_give_exact_witness : match region_give 20480 12288 region with
  | Some (r', true) => live r' = [mkExtent 4096 40960] /\ forall x, free (live r') x <-> free (live region) x \/ 20480 <= x < 20480 + 12288 | _ => False end.
Proof.
  pose proof (region_give_exact region 20480 12288 region_is_ok ltac:(done) ltac:(done)) as H.
  assert ((fun p : Region * bool => (live p.1, p.2)) <$> region_give 20480 12288 region = Some ([mkExtent 4096 40960], true)) as E by by vm_compute.
  destruct (region_give 20480 12288 region) as [[r' b] |]; [| done]. injection E as Hl ->. by destruct H as (_ & _ & _ & _ & _ & H).
Defined.
Lemma give_reverses_take_witness : match region_take 4096 16384 region with
  | Some (r', Some a) => exists r'', region_give a 4096 r' = Some (r'', true) /\ live r'' = live region | _ => False end.
Proof.
  pose proof (give_reverses_take region) as H. specialize H with (size := 4096) (alignment := 16384).
  assert (snd <$> region_take 4096 16384 region = Some (Some 16384)) as E by by vm_compute.
  destruct (region_take 4096 16384 region) as [[r' [a |]] |]; [| done | done].
  destruct (H r' a region_is_ok ltac:(done) eq_refl) as (r'' & Hg & _ & Hl). by exists r''.
Defined.
End ExtentsSample.
