(* ===== verification/Pages.v ===== *)
(** * Pages.v: the page descriptors of the bare-metal port

    [src/examples/baremetal-aarch64/src/memory/pages.rs]: one descriptor per 4 KiB page of RAM, changed break before make.
    The machine state is the table of descriptors, the bytes of RAM and the log of the operations that the processor was
    given (newest first).  The second half says what the log does to the translations that the processor may have
    cached: [mmu_run] is an upper bound of the table walker and the TLB, in which a write may be seen at once or only at
    the next barrier and every visible valid descriptor may be cached at any time. *)
From S2P Require Import Prelude Port.
Local Open Scope Z_scope.

Definition PAGE : Z := 4096.
Definition RAM_START : Z := 1073741824 (* 0x4000_0000 *).
Definition RAM_PAGES : Z := 1073741824 / PAGE.
Definition VALID : Z := 1.
(** [3 | (1 << 2) | (3 << 8) | (1 << 10)] *)
Definition PAGE_FLAGS : Z := Z.lor (Z.lor (Z.lor 3 (Z.shiftl 1 2)) (Z.shiftl 3 8)) (Z.shiftl 1 10).
Definition PAGE_READ_ONLY : Z := Z.shiftl 1 7.
Definition PXN : Z := Z.shiftl 1 53.
Definition UXN : Z := Z.shiftl 1 54.
(** [runtime::READ], [WRITE], [EXECUTE] *)
Definition READ : Z := 1.
Definition WRITE : Z := 2.
Definition EXECUTE : Z := 4.

(** What the processor is told to do, in order. *)
Inductive Op :=
| OWrite (index value : Z)     (* ptr::write_volatile(entry(index), value) *)
| ODsb                         (* dsb ishst, dsb ish *)
| OIsb
| OTlbi                        (* tlbi vmalle1 *)
| OClean (line : Z)            (* dc cvau *)
| OInvalidate (line : Z)       (* ic ivau *)
| OZero (address size : Z).    (* ptr::write_bytes(address, 0, size) *)
Record Machine := mkMachine { table : Z -> Z; ram : Z -> Z; log : list Op }.
Definition set_at (index value : Z) (t : Z -> Z) : Z -> Z := fun i => if i =? index then value else t i.
Definition zero_at (address size : Z) (m : Z -> Z) : Z -> Z := fun a => if (address <=? a) && (a <? address + size) then 0 else m a.
Definition emit (op : Op) (m : Machine) : Machine :=
  mkMachine (match op with OWrite i v => set_at i v (table m) | _ => table m end)
            (match op with OZero a n => zero_at a n (ram m) | _ => ram m end) (op :: log m).
Definition emits (ops : list Op) (m : Machine) : Machine := foldl (fun m op => emit op m) m ops.
Arguments emits : simpl never.

(** ** Descriptors *)
(** [flags]: no access is an invalid descriptor; access without reading cannot be expressed. *)
Definition flags (protection : Z) : Result Z :=
  if negb (Z.land protection (Z.lnot (Z.lor (Z.lor READ WRITE) EXECUTE)) =? 0) then Err EInvalidArgument else
  if protection =? 0 then Ok 0 else
  if Z.land protection READ =? 0 then Err EUnsupported else
  Ok (Z.lor (Z.lor (Z.lor PAGE_FLAGS UXN) (if Z.land protection WRITE =? 0 then PAGE_READ_ONLY else 0)) (if Z.land protection EXECUTE =? 0 then PXN else 0)).
Definition page_range (address size : Z) (within : Z * Z) : Result (Z * Z) :=
  let '(low, high) := within in
  match checked_add u64_max address size with
  | None => Err EInvalidArgument
  | Some finish =>
      if (size =? 0) || negb (address mod PAGE =? 0) || negb (size mod PAGE =? 0) || (address <? low) || (high <? finish) || (low <? RAM_START)
         || (RAM_START + RAM_PAGES * PAGE <? high) then Err EInvalidArgument else
      Ok ((address - RAM_START) / PAGE, (finish - RAM_START) / PAGE)
  end.
(** The physical address of a page: RAM is mapped to itself. *)
Definition physical (index : Z) : Z := RAM_START + index * PAGE.

Section Pages.
(** The linker's symbols: [bounds()] of the allocatable RAM, [image_data_bounds()] of the read-only data; [ctr] is the value of
    [CTR_EL0]. *)
Context (bounds image_data_bounds : Z * Z) (ctr : Z).

(** [for index in first..end { write_volatile(entry(index), f(index)) }] with [n] pages left. *)
Fixpoint write_pages (n : nat) (index : Z) (f : Z -> Z) (m : Machine) : Machine :=
  match n with O => m | S n => write_pages n (index + 1) f (emit (OWrite index (f index)) m) end.
(** [dsb ishst; isb] *)
Definition publish (m : Machine) : Machine := emits [ODsb; OIsb] m.
(** [while line < end { op(line); line += step }]; a turn moves on by at least four bytes, [fuel] bounds the turns. *)
Fixpoint each_line (fuel : nat) (op : Z -> Op) (step line finish : Z) (m : Machine) : Machine :=
  match fuel with
  | O => m
  | S fuel => if line <? finish then each_line fuel op step (line + step) finish (emit (op line) m) else m
  end.
Definition data_line : Z := Z.shiftl 4 (Z.land (Z.shiftr ctr 16) 15).
Definition instruction_line : Z := Z.shiftl 4 (Z.land ctr 15).
Definition line_fuel (step line finish : Z) : nat := Z.to_nat ((finish - line) / step + 1).
Definition sync_instructions (address size : Z) (m : Machine) : Machine :=
  let finish := address + size in
  let line := mask_down address data_line in
  let m := each_line (line_fuel data_line line finish) OClean data_line line finish m in
  let m := emit ODsb m in
  let line := mask_down address instruction_line in
  let m := each_line (line_fuel instruction_line line finish) OInvalidate instruction_line line finish m in
  emits [ODsb; OIsb] m.
Definition change (pages : Z * Z) (attributes address size protection : Z) (m : Machine) : Machine :=
  let '(first, finish) := pages in
  let n := Z.to_nat (finish - first) in
  let m := write_pages n first (fun _ => 0) m in
  let m := emits [ODsb; OTlbi; ODsb; OIsb] m in
  if negb (attributes =? 0) then
    let m := write_pages n first (fun index => Z.lor (physical index) attributes) m in
    let m := publish m in
    if negb (Z.land protection EXECUTE =? 0) then sync_instructions address size m else m
  else m.
Definition pages_protect (address size protection : Z) : M Machine Error unit := fun m =>
  match flags protection with
  | Err e => (m, Err e)
  | Ok attributes =>
      match page_range address size bounds with
      | Ok pages => (change pages attributes address size protection m, Ok tt)
      | Err _ =>
          match page_range address size image_data_bounds with
          | Err e => (m, Err e)
          | Ok pages =>
              if negb (protection =? READ) && negb (protection =? Z.lor READ WRITE) then (m, Err EUnsupported) else
              (change pages attributes address size protection m, Ok tt)
          end
      end
  end.
Definition is_valid (descriptor : Z) : bool := negb (Z.land descriptor VALID =? 0).
(** The inner loop of [commit]: the run of invalid pages from [index] on, mapped. *)
Fixpoint map_run (n : nat) (index attributes : Z) (m : Machine) : Z * Machine :=
  match n with
  | O => (index, m)
  | S n =>
      if negb (is_valid (table m index)) then map_run n (index + 1) attributes (emit (OWrite index (Z.lor (physical index) attributes)) m)
      else (index, m)
  end.
(** The outer loop of [commit]; every turn moves on by at least one page. *)
Fixpoint commit_loop (fuel : nat) (index finish attributes : Z) (m : Machine) : Machine :=
  match fuel with
  | O => m
  | S fuel =>
      if index <? finish then
        if is_valid (table m index) then commit_loop fuel (index + 1) finish attributes m else
        let '(next, m) := map_run (Z.to_nat (finish - index)) index attributes m in
        let m := publish m in
        commit_loop fuel next finish attributes (emit (OZero (RAM_START + index * PAGE) ((next - index) * PAGE)) m)
      else m
  end.
Definition pages_commit (address size : Z) : M Machine Error unit := fun m =>
  match page_range address size bounds with
  | Err e => (m, Err e)
  | Ok (index, finish) =>
      match flags (Z.lor READ WRITE) with
      | Err e => (m, Err e)
      | Ok attributes => (commit_loop (Z.to_nat (finish - index)) index finish attributes m, Ok tt)
      end
  end.
(** [for index in first..=last]: [n] pages left. *)
Fixpoint all_valid (n : nat) (index : Z) (m : Machine) : bool :=
  match n with O => true | S n => if negb (is_valid (table m index)) then false else all_valid n (index + 1) m end.
Definition pages_readable (address size : Z) (m : Machine) : Result bool :=
  match checked_add u64_max address size with
  | None => Err EInvalidArgument
  | Some finish =>
      let ram_end := RAM_START + RAM_PAGES * PAGE in
      if (address <? RAM_START) || (ram_end <=? address) || (ram_end <? finish) then Ok false else
      if size =? 0 then Ok true else
      let first := (address - RAM_START) / PAGE in
      let last := (finish - 1 - RAM_START) / PAGE in
      Ok (all_valid (Z.to_nat (last + 1 - first)) first m)
  end.

(** ** The operations as sequences of processor operations *)
Lemma emits_app a b m : emits (a ++ b) m = emits b (emits a m).
Proof. apply foldl_app. Qed.
Lemma emits_nil m : emits [] m = m.
Proof. done. Qed.
Lemma emits_cons op ops m : emits (op :: ops) m = emits ops (emit op m).
Proof. done. Qed.
Definition writes (n : nat) (index : Z) (f : Z -> Z) : list Op := (fun k => OWrite (index + Z.of_nat k) (f (index + Z.of_nat k))) <$> seq 0 n.
Lemma write_pages_emits n index f m : write_pages n index f m = emits (writes n index f) m.
Proof.
  revert index m. induction n as [| n IH]; intros index m; [done |]. cbn [write_pages]. rewrite IH. unfold writes. cbn [seq fmap list_fmap].
  rewrite Z.add_0_r, emits_cons. f_equal. rewrite <- fmap_S_seq, <- list_fmap_compose. apply list_fmap_ext. intros i x _. simpl.
  by replace (index + 1 + Z.of_nat x) with (index + Z.of_nat (S x)) by lia.
Qed.
Lemma table_writes n index f m i : table (emits (writes n index f) m) i = if decide (index <= i < index + Z.of_nat n) then f i else table m i.
Proof.
  rewrite <- write_pages_emits. revert index m. induction n as [| n IH]; intros index m; cbn [write_pages]; [rewrite decide_False by lia; done |].
  rewrite IH. cbn. unfold set_at. destruct (Z.eqb_spec i index) as [-> |]; repeat case_decide; try done; lia.
Qed.
(** Operations that only order or maintain caches. *)
Definition quiet (op : Op) : Prop := match op with OWrite _ _ | OZero _ _ => False | _ => True end.
Lemma emits_quiet ops m : Forall quiet ops -> table (emits ops m) = table m /\ ram (emits ops m) = ram m.
Proof. revert m. induction ops as [| op ops IH]; intros m; [done |]. intros [Hq Ho]%Forall_cons. rewrite emits_cons. destruct (IH (emit op m) Ho) as [-> ->]. by destruct op. Qed.
Lemma ram_writes n index f m : ram (emits (writes n index f) m) = ram m.
Proof. rewrite <- write_pages_emits. revert index m. induction n as [| n IH]; intros index m; [done |]. cbn [write_pages]. by rewrite IH. Qed.
(** The lines of a loop, and that they cover the range. *)
Fixpoint lines (fuel : nat) (step line finish : Z) : list Z :=
  match fuel with O => [] | S fuel => if line <? finish then line :: lines fuel step (line + step) finish else [] end.
Lemma each_line_emits fuel op step line finish m : each_line fuel op step line finish m = emits (op <$> lines fuel step line finish) m.
Proof. revert line m. induction fuel as [| fuel IH]; intros line m; [done |]. simpl. destruct (line <? finish); [by rewrite IH | done]. Qed.
Lemma lines_cover fuel step line finish a : 0 < step -> finish - line <= Z.of_nat fuel * step -> line <= a < finish ->
  exists l, l ∈ lines fuel step line finish /\ l <= a < l + step.
Proof.
  intros Hs. revert line. induction fuel as [| fuel IH]; intros line Hf Ha; [lia |]. simpl. rewrite (proj2 (Z.ltb_lt _ _)) by lia.
  destruct (decide (a < line + step)); [exists line; split; [left | lia] |].
  destruct (IH (line + step)) as (l & Hl & ?); [lia | lia |]. exists l. split; [by right | done].
Qed.
Lemma line_fuel_enough step line finish : 0 < step -> line < finish -> finish - line <= Z.of_nat (line_fuel step line finish) * step.
Proof.
  intros Hs Hl. unfold line_fuel. assert (0 <= (finish - line) / step) by (apply Z.div_pos; lia).
  rewrite Z2Nat.id by lia. pose proof (Z.mod_pos_bound (finish - line) step Hs). pose proof (Z.div_mod (finish - line) step ltac:(lia)). nia.
Qed.
Definition sync_ops (address size : Z) : list Op :=
  let cleaned := mask_down address data_line in
  let fetched := mask_down address instruction_line in
  (OClean <$> lines (line_fuel data_line cleaned (address + size)) data_line cleaned (address + size)) ++ [ODsb] ++
  (OInvalidate <$> lines (line_fuel instruction_line fetched (address + size)) instruction_line fetched (address + size)) ++ [ODsb; OIsb].
Lemma sync_instructions_emits address size m : sync_instructions address size m = emits (sync_ops address size) m.
Proof. unfold sync_instructions, sync_ops. rewrite !each_line_emits, !emits_app. done. Qed.
Lemma quiet_fmap (op : Z -> Op) l : (forall x, quiet (op x)) -> Forall quiet (op <$> l).
Proof. intros Hq. apply Forall_fmap, Forall_true. done. Qed.
Lemma sync_quiet address size : Forall quiet (sync_ops address size).
Proof.
  unfold sync_ops. repeat (apply Forall_app; split); try (by apply quiet_fmap); repeat constructor.
Qed.
(** What [change] tells the processor. *)
Definition change_ops (pages : Z * Z) (attributes address size protection : Z) : list Op :=
  let '(first, finish) := pages in
  let n := Z.to_nat (finish - first) in
  writes n first (fun _ => 0) ++ [ODsb; OTlbi; ODsb; OIsb] ++
  (if attributes =? 0 then [] else writes n first (fun index => Z.lor (physical index) attributes) ++ [ODsb; OIsb] ++
    (if Z.land protection EXECUTE =? 0 then [] else sync_ops address size)).
Lemma change_emits pages attributes address size protection m :
  change pages attributes address size protection m = emits (change_ops pages attributes address size protection) m.
Proof.
  destruct pages as [first finish]. unfold change, change_ops, publish. rewrite !write_pages_emits, emits_app, emits_app.
  destruct (attributes =? 0); simpl negb; cbn iota; [done |]. rewrite emits_app, emits_app. destruct (_ =? 0); simpl negb; cbn iota; [done | apply sync_instructions_emits].
Qed.
(** The descriptor that a page gets. *)
Definition descriptor (attributes index : Z) : Z := if attributes =? 0 then 0 else Z.lor (physical index) attributes.
Lemma change_spec first finish attributes address size protection m : first <= finish ->
  let m' := change (first, finish) attributes address size protection m in
  ram m' = ram m /\ forall i, table m' i = if decide (first <= i < finish) then descriptor attributes i else table m i.
Proof.
  intros Hle. cbn zeta. rewrite change_emits. unfold change_ops, descriptor. rewrite !emits_app.
  set (m1 := emits (writes _ first (fun _ => 0)) m). destruct (emits_quiet [ODsb; OTlbi; ODsb; OIsb] m1 ltac:(repeat constructor)) as [Ht Hr].
  assert (forall i, table m1 i = if decide (first <= i < finish) then 0 else table m i) as H1.
  { intros i. subst m1. rewrite table_writes. rewrite Z2Nat.id by lia. replace (first + (finish - first)) with finish by lia. done. }
  assert (ram m1 = ram m) as H1r by apply ram_writes.
  destruct (attributes =? 0); [rewrite emits_nil, Hr; split; [done | intros i; by rewrite Ht] |].
  rewrite !emits_app. set (m2 := emits (writes _ _ _) _). destruct (emits_quiet [ODsb; OIsb] m2 ltac:(repeat constructor)) as [Ht2 Hr2].
  assert (forall i, table m2 i = if decide (first <= i < finish) then Z.lor (physical i) attributes else table m i) as H2.
  { intros i. subst m2. rewrite table_writes, Z2Nat.id, Ht, H1 by lia. replace (first + (finish - first)) with finish by lia. by case_decide. }
  assert (ram m2 = ram m) as H2r by (subst m2; rewrite ram_writes; congruence).
  destruct (_ =? 0); [rewrite emits_nil, Hr2; split; [done | intros i; by rewrite Ht2] |].
  destruct (emits_quiet (sync_ops address size) (emits [ODsb; OIsb] m2) (sync_quiet address size)) as [-> ->]. rewrite Hr2. split; [done | intros i; by rewrite Ht2].
Qed.

(** ** Ranges of pages *)
(** What [page_range] accepts: whole pages within the window, and the window within RAM. *)
Definition pages_within (address size : Z) (within : Z * Z) : Prop :=
  0 < size /\ address mod PAGE = 0 /\ size mod PAGE = 0 /\ within.1 <= address /\ address + size <= within.2 /\
  RAM_START <= within.1 /\ within.2 <= RAM_START + RAM_PAGES * PAGE.
Lemma page_range_spec address size within : 0 <= address -> 0 <= size ->
  match page_range address size within with
  | Ok (first, finish) => pages_within address size within /\ 0 <= first < finish /\ finish <= RAM_PAGES /\ finish - first = size / PAGE /\ address = physical first /\
      forall i, first <= i < finish <-> address <= physical i < address + size
  | Err e => e = EInvalidArgument /\ ~ pages_within address size within
  end.
Proof.
  intros Ha Hs. destruct within as [low high]. unfold page_range, pages_within, physical. simpl fst. simpl snd.
  assert (RAM_START + RAM_PAGES * PAGE = 2147483648) as Hend by done.
  destruct (checked_add u64_max address size) as [finish |] eqn:Hf.
  2: { apply checked_add_None in Hf. split; [done |]. unfold u64_max in *. lia. }
  apply checked_add_Some in Hf as [-> Hle].
  destruct (Z.eqb_spec size 0); simpl; [split; [done | lia] |].
  destruct (Z.eqb_spec (address mod PAGE) 0) as [Hma |]; simpl; [| split; [done | lia]].
  destruct (Z.eqb_spec (size mod PAGE) 0) as [Hms |]; simpl; [| split; [done | lia]].
  destruct (Z.ltb_spec address low); simpl; [split; [done | lia] |].
  destruct (Z.ltb_spec high (address + size)); simpl; [split; [done | lia] |].
  destruct (Z.ltb_spec low RAM_START); simpl; [split; [done | lia] |].
  destruct (Z.ltb_spec (RAM_START + RAM_PAGES * PAGE) high); simpl; [split; [done | lia] |].
  apply Z.mod_divide in Hma as [x ->]; [| done]. apply Z.mod_divide in Hms as [y ->]; [| done].
  change RAM_START with (262144 * PAGE) in *. change RAM_PAGES with 262144 in *.
  replace (x * PAGE - 262144 * PAGE) with ((x - 262144) * PAGE) by lia. replace (x * PAGE + y * PAGE - 262144 * PAGE) with ((x + y - 262144) * PAGE) by lia.
  rewrite !Z.div_mul by done. rewrite !Z.mod_mul by done. unfold PAGE in *. split_and!; try lia; try done.
Qed.
(** A change of protection succeeds exactly for whole pages of the allocatable RAM, or, between read-only and
    read-write, of the read-only image data; permissions that the processor cannot express are refused.  Then every
    page of the range has the descriptor of its own address with the asked permissions, and no other page changes; a
    refusal changes nothing and tells the processor nothing. *)
Theorem pages_protect_exact address size protection m : 0 <= address -> 0 <= size ->
  let image := protection = READ \/ protection = Z.lor READ WRITE in
  match pages_protect address size protection m with
  | (m', Ok _) => exists attributes, flags protection = Ok attributes /\
      (pages_within address size bounds \/ (~ pages_within address size bounds /\ pages_within address size image_data_bounds /\ image)) /\
      ram m' = ram m /\ forall i, table m' i = if decide (address <= physical i < address + size) then descriptor attributes i else table m i
  | (m', Err e) => m' = m /\ match flags protection with
      | Err e' => e = e'
      | Ok _ => ~ pages_within address size bounds /\ (~ pages_within address size image_data_bounds /\ e = EInvalidArgument \/ ~ image /\ e = EUnsupported)
      end
  end.
Proof.
  intros Ha Hs image. unfold pages_protect. destruct (flags protection) as [attributes |] eqn:Hfl; [| done].
  pose proof (page_range_spec address size bounds Ha Hs) as H1. pose proof (page_range_spec address size image_data_bounds Ha Hs) as H2.
  assert (forall first finish, first < finish -> (forall i, first <= i < finish <-> address <= physical i < address + size) ->
    let m' := change (first, finish) attributes address size protection m in
    ram m' = ram m /\ forall i, table m' i = if decide (address <= physical i < address + size) then descriptor attributes i else table m i) as Hchange.
  { intros first finish Hlt Hin. destruct (change_spec first finish attributes address size protection m ltac:(lia)) as [Hr Ht]. split; [done |].
    intros i. rewrite Ht. specialize (Hin i). repeat case_decide; tauto || done. }
  destruct (page_range address size bounds) as [[first finish] |]; [| destruct (page_range address size image_data_bounds) as [[first finish] |]].
  - destruct H1 as (Hw & Hlt & _ & _ & _ & Hin). exists attributes. destruct (Hchange first finish ltac:(lia) Hin). split_and!; auto.
  - destruct H1 as [_ Hn], H2 as (Hw & Hlt & _ & _ & _ & Hin).
    destruct (Z.eqb_spec protection READ) as [Hp |]; simpl; [| destruct (Z.eqb_spec protection (Z.lor READ WRITE)) as [Hp |]; simpl].
    + exists attributes. destruct (Hchange first finish ltac:(lia) Hin). split_and!; [done | right; split_and!; [done | done | by left] | done | done].
    + exists attributes. destruct (Hchange first finish ltac:(lia) Hin). split_and!; [done | right; split_and!; [done | done | by right] | done | done].
    + split_and!; [done | done | right]. subst image. naive_solver.
  - destruct H1 as [_ Hn], H2 as [-> Hn2]. auto.
Qed.
End Pages.

(** ** Permissions *)
(** What a level-3 descriptor grants at EL1: AP[2] is bit 7, PXN bit 53; bits 12 to 47 are the output address. *)
Definition readable_at (d : Z) : bool := Z.testbit d 0.
Definition writable_at (d : Z) : bool := Z.testbit d 0 && negb (Z.testbit d 7).
Definition executable_at (d : Z) : bool := Z.testbit d 0 && negb (Z.testbit d 53).
Definition output_address (d : Z) : Z := Z.land d (Z.shiftl (Z.ones 36) 12).
Definition grants (d protection : Z) : Prop :=
  readable_at d = Z.testbit protection 0 /\ writable_at d = Z.testbit protection 1 /\ executable_at d = Z.testbit protection 2.
Lemma physical_bits i k : 0 <= i < RAM_PAGES -> 0 <= k < 12 \/ 31 <= k -> Z.testbit (physical i) k = false.
Proof.
  intros Hi Hk. unfold physical. change RAM_START with (262144 * 2 ^ 12). change PAGE with (2 ^ 12). rewrite <- Z.mul_add_distr_r. change RAM_PAGES with 262144 in Hi.
  destruct Hk as [Hk | Hk]; [apply Z.mul_pow2_bits_low; lia |]. rewrite <- (Z.mod_small _ (2 ^ 31)) by lia. apply Z.mod_pow2_bits_high. lia.
Qed.
Lemma output_address_physical i c : 0 <= i < RAM_PAGES -> output_address c = 0 -> output_address (Z.lor (physical i) c) = physical i.
Proof.
  intros Hi Hc. unfold output_address in *. rewrite Z.land_lor_distr_l, Hc, Z.lor_0_r. unfold physical. change RAM_START with (262144 * 2 ^ 12). change PAGE with (2 ^ 12).
  rewrite <- Z.mul_add_distr_r, <- Z.shiftl_mul_pow2, <- Z.shiftl_land, Z.land_ones by lia. rewrite Z.mod_small; [done |]. change RAM_PAGES with 262144 in Hi. lia.
Qed.
(** The eight protections, one by one. *)
Definition flags_check (p : Z) : bool :=
  match flags p with
  | Ok c => eqb (c =? 0) (p =? 0) && eqb (readable_at c) (Z.testbit p 0) && eqb (writable_at c) (Z.testbit p 1) && eqb (executable_at c) (Z.testbit p 2) && (output_address c =? 0)
  | Err EUnsupported => negb (p =? 0) && negb (Z.testbit p 0)
  | Err _ => false
  end.
Lemma flags_small p : 0 <= p < 8 -> flags_check p = true.
Proof.
  intros Hp. assert (forallb flags_check (Z.of_nat <$> seq 0 8) = true) as Hall by (vm_compute; reflexivity).
  rewrite forallb_forall in Hall. apply Hall, list_elem_of_In, list_elem_of_fmap. exists (Z.to_nat p). split; [lia | apply elem_of_seq; lia].
Qed.
(** The attributes computed for a protection grant exactly that protection, at the page's own address: what is not
    asked for is not allowed.  Protections that an EL1 descriptor cannot express are refused, never widened. *)
Theorem flags_exact protection : 0 <= protection ->
  match flags protection with
  | Ok attributes => protection < 8 /\ forall i, 0 <= i < RAM_PAGES ->
      grants (descriptor attributes i) protection /\ (protection <> 0 -> output_address (descriptor attributes i) = physical i)
  | Err EUnsupported => protection < 8 /\ protection <> 0 /\ Z.testbit protection 0 = false
  | Err EInvalidArgument => 8 <= protection
  | Err _ => False
  end.
Proof.
  intros Hp. destruct (decide (protection < 8)) as [Hlt |].
  - pose proof (flags_small protection ltac:(lia)) as Hc. unfold flags_check in Hc. destruct (flags protection) as [c | []]; try done.
    + rewrite !andb_true_iff, !eqb_true_iff, Z.eqb_eq in Hc. destruct Hc as ((((Hz & Hr) & Hw) & Hx) & Ho). split; [done |]. intros i Hi.
      unfold descriptor. destruct (Z.eqb_spec c 0) as [Hc0 |].
      * symmetry in Hz. apply Z.eqb_eq in Hz. subst. by split.
      * split; [| intros _; by apply output_address_physical]. unfold grants, readable_at, writable_at, executable_at in *.
        rewrite !Z.lor_spec, !physical_bits, !orb_false_l by lia. done.
    + rewrite andb_true_iff, !negb_true_iff, Z.eqb_neq in Hc. by destruct Hc.
  - unfold flags. assert (Z.land protection (Z.lnot (Z.lor (Z.lor READ WRITE) EXECUTE)) <> 0) as Hne.
    { change (Z.lor (Z.lor READ WRITE) EXECUTE) with (Z.ones 3). rewrite <- Z.ldiff_land, Z.ldiff_ones_r, Z.shiftr_div_pow2, Z.shiftl_mul_pow2 by lia.
      assert (1 <= protection / 2 ^ 3) by (apply Z.div_le_lower_bound; lia). lia. }
    rewrite (proj2 (Z.eqb_neq _ _) Hne). simpl. lia.
Qed.

(** ** The translations the processor may have cached *)
(** [seen i v]: the table walker may read [v] for page [i]; [tlb i v]: the translation [v] may be cached; [since]: the
    translations that may have been cached since a TLB invalidation that is not complete, which the next barrier is. *)
Record Mmu := mkMmu { cur : Z -> Z; seen : Z -> Z -> Prop; tlb : Z -> Z -> Prop; since : option (Z -> Z -> Prop) }.
Definition cacheable (q : Z -> Z -> Prop) (i v : Z) : Prop := q i v /\ is_valid v = true.
Definition mmu_step (op : Op) (s : Mmu) : Mmu :=
  match op with
  | OWrite index value =>
      let seen' := fun i v => seen s i v \/ (i = index /\ v = value) in
      mkMmu (set_at index value (cur s)) seen' (fun i v => tlb s i v \/ cacheable seen' i v)
            (match since s with Some q => Some (fun i v => q i v \/ cacheable seen' i v) | None => None end)
  | ODsb => mkMmu (cur s) (fun i v => v = cur s i) (match since s with Some q => q | None => tlb s end) None
  | OTlbi => mkMmu (cur s) (seen s) (tlb s) (Some (cacheable (seen s)))
  | _ => s
  end.
Definition mmu_run (ops : list Op) (s : Mmu) : Mmu := foldl (fun s op => mmu_step op s) s ops.
(** [P] holds before and after every operation. *)
Fixpoint always (P : Mmu -> Prop) (ops : list Op) (s : Mmu) : Prop :=
  match ops with [] => P s | op :: ops => P s /\ always P ops (mmu_step op s) end.
(** No page has two different translations at once, which is what the architecture requires of software. *)
Definition unambiguous (s : Mmu) : Prop := forall i v w, tlb s i v -> tlb s i w -> v = w.
(** Nothing is pending, and what may be cached is what the table says. *)
Definition settled (s : Mmu) : Prop := since s = None /\ forall i v, seen s i v <-> v = cur s i.
Definition coherent (s : Mmu) : Prop := settled s /\ forall i v, tlb s i v -> v = cur s i /\ is_valid v = true.
(** Every translation that is or may get cached is the one of [target]. *)
Record follows (target : Z -> Z) (s : Mmu) : Prop := {
  fo_tlb : forall i v, tlb s i v -> v = target i /\ is_valid v = true;
  fo_seen : forall i v, seen s i v -> v = target i \/ is_valid v = false;
  fo_cur : forall i, seen s i (cur s i);
  fo_since : forall q i v, since s = Some q -> q i v -> v = target i /\ is_valid v = true;
}.
Definition writes_only (target : Z -> Z) (ops : list Op) : Prop := forall i v, OWrite i v ∈ ops -> v = target i \/ is_valid v = false.
Lemma follows_step target op s : follows target s -> writes_only target [op] -> follows target (mmu_step op s).
Proof.
  intros [Ht Hs Hc Hq] Hw. destruct op as [index value | | | | | |]; simpl; [| | done | | done | done | done].
  - assert (value = target index \/ is_valid value = false) as Hv by (apply Hw; left).
    assert (forall i v, cacheable (fun i v => seen s i v \/ (i = index /\ v = value)) i v -> v = target i /\ is_valid v = true) as Hca.
    { intros i v [[Hsv | [-> ->]] Hvalid]; (split; [| done]); [destruct (Hs i v Hsv); congruence | destruct Hv; congruence]. }
    constructor; simpl.
    + intros i v [? | ?]; auto.
    + intros i v [? | [-> ->]]; auto.
    + intros i. unfold set_at. destruct (Z.eqb_spec i index) as [-> |]; auto.
    + intros q i v. destruct (since s) as [q0 |] eqn:Hsi; [| done]. intros [= <-] [? | ?]; [by eapply Hq | auto].
  - constructor; simpl; [| | done | done].
    + intros i v. destruct (since s) eqn:Hsi; [by apply Hq | apply Ht].
    + intros i v ->. apply Hs, Hc.
  - constructor; simpl; [done | done | done |]. intros q i v [= <-] [Hv Hvalid]. split; [destruct (Hs i v Hv); congruence | done].
Qed.
Lemma follows_unambiguous target s : follows target s -> unambiguous s.
Proof. intros H i v w Hv Hw. destruct (fo_tlb _ _ H i v Hv), (fo_tlb _ _ H i w Hw). congruence. Qed.
Lemma follows_run target ops s : follows target s -> writes_only target ops -> always unambiguous ops s /\ follows target (mmu_run ops s).
Proof.
  revert s. induction ops as [| op ops IH]; intros s Hf Hw; simpl; [split; [by eapply follows_unambiguous | done] |].
  destruct (IH (mmu_step op s)) as [Ha Hr]; [apply follows_step; [done |]; intros i v ?%list_elem_of_singleton; apply Hw; subst; left | intros i v ?; apply Hw; by right |].
  split; [split; [by eapply follows_unambiguous | done] | done].
Qed.
Lemma always_app P a b s : always P a s -> always P b (mmu_run a s) -> always P (a ++ b) s.
Proof. revert s. induction a as [| op a IH]; intros s; [done |]. simpl. intros [Hp Ha] Hb. split; [done | by apply IH]. Qed.
Lemma mmu_run_app a b s : mmu_run (a ++ b) s = mmu_run b (mmu_run a s).
Proof. apply foldl_app. Qed.
Lemma run_cur ops s m : (forall i, cur s i = table m i) -> forall i, cur (mmu_run ops s) i = table (emits ops m) i.
Proof.
  revert s m. induction ops as [| op ops IH]; intros s m Hc; [done |]. rewrite emits_cons. simpl. apply IH. intros i.
  destruct op; simpl; try done. unfold set_at. by rewrite Hc.
Qed.
(** A settled state follows every target that agrees with the table on valid descriptors. *)
Lemma coherent_follows target s : settled s -> (forall i v, tlb s i v -> v = target i /\ is_valid v = true) -> (forall i, cur s i = target i \/ is_valid (cur s i) = false) -> follows target s.
Proof. intros [Hn Hs] Ht Hc. constructor; [done | intros i v ->%Hs; apply Hc | intros i; by apply Hs | by rewrite Hn]. Qed.
(** Every write is followed by a barrier. *)
Definition published (ops : list Op) : Prop := forall a i v b, ops = a ++ OWrite i v :: b -> ODsb ∈ b.
Lemma published_settled ops s : settled s \/ ODsb ∈ ops -> published ops -> (OTlbi ∈ ops -> False) -> settled (mmu_run ops s).
Proof.
  revert s. induction ops as [| op ops IH]; intros s Hs Hp Hno; simpl; [destruct Hs as [? | ?%elem_of_nil]; done |].
  assert (published ops) as Hp' by (intros a i v b ->; apply (Hp (op :: a) i v b); done).
  assert (OTlbi ∈ ops -> False) as Hno' by (intros ?; apply Hno; by right). apply IH; [| done | done].
  destruct op; simpl; try (destruct Hs as [? | [? | ?]%elem_of_cons]; [by left | done | by right]).
  - right. by apply (Hp [] index value ops).
  - left. done.
  - destruct Hno. left.
Qed.
Lemma published_app a b : published a -> published b -> published (a ++ b).
Proof.
  intros Ha Hb c i v d H. apply app_eq_inv in H as [(k & -> & H) | (k & -> & H)].
  - destruct k as [| x k]; simplify_eq/=; [by apply (Hb [] i v d) |]. apply elem_of_app. left. by apply (Ha c i v k).
  - by apply (Hb k i v d).
Qed.
Lemma log_emits ops m : log (emits ops m) = rev ops ++ log m.
Proof. revert m. induction ops as [| op ops IH]; intros m; [done |]. rewrite emits_cons, IH. simpl. by rewrite <- app_assoc. Qed.
Lemma write_in_writes n index f i v : OWrite i v ∈ writes n index f -> v = f i /\ index <= i < index + Z.of_nat n.
Proof. unfold writes. intros (k & [= -> ->] & Hk%elem_of_seq)%list_elem_of_fmap. split; [done | lia]. Qed.
Lemma published_end ops tail : (forall i v, ~ OWrite i v ∈ tail) -> ODsb ∈ tail -> (OTlbi ∈ ops -> False) -> published (ops ++ tail).
Proof.
  intros Hq Hd _ a i v b H. apply app_eq_inv in H as [(k & -> & H) | (k & -> & H)].
  - destruct k as [| x k]; simplify_eq/=; [exfalso; apply (Hq i v); left |]. apply elem_of_app. by right.
  - exfalso. apply (Hq i v). rewrite H. set_solver.
Qed.
Section Coherence.
Context (bounds image_data_bounds : Z * Z) (ctr : Z).
Lemma sync_no_write address size i v : ~ OWrite i v ∈ sync_ops ctr address size.
Proof. unfold sync_ops. rewrite !elem_of_app, !elem_of_cons, !elem_of_nil, !list_elem_of_fmap. intros; destruct_or?; naive_solver. Qed.
Lemma sync_no_tlbi address size : ~ OTlbi ∈ sync_ops ctr address size.
Proof. unfold sync_ops. rewrite !elem_of_app, !elem_of_cons, !elem_of_nil, !list_elem_of_fmap. intros; destruct_or?; naive_solver. Qed.
Lemma writes_no_tlbi n index f : ~ OTlbi ∈ writes n index f.
Proof. unfold writes. rewrite list_elem_of_fmap. naive_solver. Qed.
Lemma change_coherent first finish attributes address size protection m s : first <= finish -> coherent s -> (forall i, cur s i = table m i) ->
  let ops := change_ops ctr (first, finish) attributes address size protection in
  always unambiguous ops s /\ coherent (mmu_run ops s).
Proof.
  intros Hle [[Hn Hs] Ht] Hcur ops. destruct (change_spec ctr first finish attributes address size protection m Hle) as [_ Hfin].
  rewrite change_emits in Hfin. pose proof (run_cur ops s m Hcur) as Hcurf. fold ops in Hfin. unfold ops, change_ops in *.
  set (n := Z.to_nat (finish - first)) in *. set (A := writes n first (fun _ => 0)) in *. set (C := if attributes =? 0 then [] else _) in *.
  destruct (follows_run (cur s) A s) as [HA1 HA2]; [apply coherent_follows; [by split | done | by left] | intros i v [-> _]%write_in_writes; by right |].
  set (s1 := mmu_run A s) in *.
  destruct (follows_run (cur s) [ODsb; OTlbi; ODsb; OIsb] s1 HA2) as [HB1 _]; [intros i v; rewrite !elem_of_cons, elem_of_nil; naive_solver |].
  rewrite mmu_run_app in *. fold s1 in Hcurf |- *. rewrite mmu_run_app in *. set (s2 := mmu_run [ODsb; OTlbi; ODsb; OIsb] s1) in *.
  assert (settled s2) as Hset by (split; [done | intros; done]).
  assert (forall i, cur s2 i = if decide (first <= i < finish) then 0 else table m i) as Hc2.
  { intros i. change (cur s2 i) with (cur s1 i). unfold s1. rewrite (run_cur A s m Hcur). unfold A. rewrite table_writes. subst n. rewrite Z2Nat.id by lia.
    by replace (first + (finish - first)) with finish by lia. }
  set (target := table (emits (A ++ [ODsb; OTlbi; ODsb; OIsb] ++ C) m)) in *.
  assert (forall i, cur s2 i = target i \/ is_valid (cur s2 i) = false) as Htarget. { intros i. rewrite Hc2, Hfin. case_decide; [by right | by left]. }
  destruct (follows_run target C s2) as [HC1 HC2].
  - apply coherent_follows; [done | | done]. intros i v [-> Hv]. split; [| done]. destruct (Htarget i); [done |]. change (cur s2 i) with (cur s1 i) in *. congruence.
  - intros i v Hin. unfold C in Hin. left. rewrite Hfin. unfold descriptor. destruct (attributes =? 0); [by apply elem_of_nil in Hin |].
    apply elem_of_app in Hin as [[-> Hi]%write_in_writes | Hin].
    + rewrite decide_True; [done |]. subst n. lia.
    + exfalso. revert Hin. rewrite elem_of_app, !elem_of_cons, elem_of_nil. destruct (_ =? 0); [rewrite elem_of_nil; naive_solver | intros [? | ?]; [naive_solver | by eapply sync_no_write]].
  - split; [apply always_app; [done |]; apply always_app; done |]. split.
    + apply published_settled; [by left | |]; unfold C; destruct (attributes =? 0); try (by intros ?%elem_of_nil); [by intros [] |  |].
      * apply published_end; [| set_solver | apply writes_no_tlbi]. intros i v. rewrite elem_of_app, !elem_of_cons, elem_of_nil.
        destruct (_ =? 0); [rewrite elem_of_nil; naive_solver | intros [? | ?]; [naive_solver | by eapply sync_no_write]].
      * rewrite !elem_of_app, !elem_of_cons, elem_of_nil. intros [?%writes_no_tlbi | [? | Hin]]; [done | naive_solver |].
        destruct (_ =? 0); [by apply elem_of_nil in Hin | by eapply sync_no_tlbi].
    + intros i v Hv. rewrite Hcurf. by apply (fo_tlb _ _ HC2).
Qed.
(** C12: changing protections breaks before it makes.  Run against a processor that may see a write early or late and
    may cache any valid descriptor at any time, at no moment does a page have two translations, and when the call
    returns, everything that may still be cached agrees with the table. *)
Theorem protect_break_before_make address size protection m s : 0 <= address -> 0 <= size -> coherent s -> (forall i, cur s i = table m i) ->
  let '(m', _) := pages_protect bounds image_data_bounds ctr address size protection m in
  exists ops, log m' = rev ops ++ log m /\ always unambiguous ops s /\ coherent (mmu_run ops s) /\ forall i, cur (mmu_run ops s) i = table m' i.
Proof.
  intros Ha Hs Hco Hcur. assert (exists ops, log m = rev ops ++ log m /\ always unambiguous ops s /\ coherent (mmu_run ops s) /\ forall i, cur (mmu_run ops s) i = table m i) as Hnone.
  { exists []. split_and!; [done | simpl | done | done]. destruct Hco as [_ Ht]. intros i v w [-> _]%Ht [-> _]%Ht. done. }
  assert (forall pages attributes, pages.1 <= pages.2 -> exists ops, log (change ctr pages attributes address size protection m) = rev ops ++ log m /\
    always unambiguous ops s /\ coherent (mmu_run ops s) /\ forall i, cur (mmu_run ops s) i = table (change ctr pages attributes address size protection m) i) as Hsome.
  { intros [first finish] attributes Hle. exists (change_ops ctr (first, finish) attributes address size protection). rewrite change_emits.
    destruct (change_coherent first finish attributes address size protection m s Hle Hco Hcur). split_and!; [apply log_emits | done | done | by apply run_cur]. }
  unfold pages_protect. destruct (flags protection) as [attributes |]; [| done].
  pose proof (page_range_spec address size bounds Ha Hs) as H1. pose proof (page_range_spec address size image_data_bounds Ha Hs) as H2.
  destruct (page_range address size bounds) as [[? ?] |]; [apply Hsome; simpl; lia |].
  destruct (page_range address size image_data_bounds) as [[? ?] |]; [| done]. destruct (_ && _); [done | apply Hsome; simpl; lia].
Qed.
(** After code was made executable, every byte of it was cleaned to the point of unification and only then its line
    of the instruction cache was invalidated, with a barrier between and a synchronization at the end. *)
Theorem sync_covers address size m a : 0 <= address <= a -> a < address + size ->
  exists xs ys zs ws clean fetch, log (sync_instructions ctr address size m) = rev (xs ++ OClean clean :: ys ++ ODsb :: zs ++ OInvalidate fetch :: ws ++ [ODsb; OIsb]) ++ log m /\
    clean <= a < clean + data_line ctr /\ fetch <= a < fetch + instruction_line ctr.
Proof.
  intros Ha Hs. assert (forall k, 0 <= k -> exists l, l ∈ lines (line_fuel (Z.shiftl 4 k) (mask_down address (Z.shiftl 4 k)) (address + size)) (Z.shiftl 4 k) (mask_down address (Z.shiftl 4 k)) (address + size) /\
    l <= a < l + Z.shiftl 4 k) as Hline.
  { intros k Hk. replace (Z.shiftl 4 k) with (2 ^ (k + 2)) by (rewrite Z.shiftl_mul_pow2, Z.pow_add_r by lia; lia).
    assert (0 < 2 ^ (k + 2)) by (apply Z.pow_pos_nonneg; lia). rewrite mask_down_pow2 by lia. pose proof (Z.mod_pos_bound address (2 ^ (k + 2)) ltac:(done)).
    apply lines_cover; [done | apply line_fuel_enough; lia | lia]. }
  destruct (Hline (Z.land (Z.shiftr ctr 16) 15) ltac:(apply Z.land_nonneg; by right)) as (c & Hc & ?).
  destruct (Hline (Z.land ctr 15) ltac:(apply Z.land_nonneg; by right)) as (f & Hf & ?).
  rewrite sync_instructions_emits, log_emits. unfold sync_ops. fold (data_line ctr) in *. fold (instruction_line ctr) in *.
  apply list_elem_of_split in Hc as (c1 & c2 & ->). apply list_elem_of_split in Hf as (f1 & f2 & ->).
  exists (OClean <$> c1), (OClean <$> c2), (OInvalidate <$> f1), (OInvalidate <$> f2), c, f. split_and!; [| lia..].
  f_equal. f_equal. rewrite !fmap_app, !fmap_cons, <- !app_assoc. done.
Qed.
End Coherence.

(** ** Commit *)
Section Commit.
Context (bounds : Z * Z).
Lemma map_run_spec n index attributes m : exists k, (k <= n)%nat /\
  map_run n index attributes m = (index + Z.of_nat k, emits (writes k index (fun i => Z.lor (physical i) attributes)) m) /\
  (forall i, index <= i < index + Z.of_nat k -> is_valid (table m i) = false) /\ ((k < n)%nat -> is_valid (table m (index + Z.of_nat k)) = true).
Proof.
  revert index m. induction n as [| n IH]; intros index m; cbn [map_run].
  { exists 0%nat. rewrite Z.add_0_r. split_and!; [lia | done | lia | lia]. }
  destruct (is_valid (table m index)) eqn:Hv; simpl negb; cbn iota.
  { exists 0%nat. rewrite Z.add_0_r. split_and!; [lia | done | lia | done]. }
  destruct (IH (index + 1) (emit (OWrite index (Z.lor (physical index) attributes)) m)) as (k & Hk & -> & Hrun & Hstop). exists (S k).
  assert (forall i, index + 1 <= i -> table (emit (OWrite index (Z.lor (physical index) attributes)) m) i = table m i) as Hother.
  { intros i Hi. simpl. unfold set_at. by rewrite (proj2 (Z.eqb_neq _ _)) by lia. }
  split_and!; [lia | | |].
  - f_equal; [lia |]. by rewrite <- !write_pages_emits.
  - intros i Hi. destruct (decide (i = index)) as [-> |]; [done |]. rewrite <- Hother by lia. apply Hrun. lia.
  - intros Hlt. replace (index + Z.of_nat (S k)) with (index + 1 + Z.of_nat k) by lia. rewrite <- Hother by lia. apply Hstop. lia.
Qed.
Definition page_of (a : Z) : Z := (a - RAM_START) / PAGE.
Lemma page_of_spec a i : page_of a = i <-> physical i <= a < physical (i + 1).
Proof.
  unfold page_of, physical, PAGE. pose proof (Z.div_mod (a - RAM_START) 4096 ltac:(done)). pose proof (Z.mod_pos_bound (a - RAM_START) 4096 ltac:(done)). split; [intros <-; lia |]. intros. symmetry. apply (Z.div_unique _ _ _ (a - RAM_START - i * 4096)); lia.
Qed.
(** What [commit] must have told the processor: it maps only invalid pages, each once and for good. *)
Record maps_new (m m' : Machine) (ops : list Op) : Prop := {
  mn_emits : m' = emits ops m;
  mn_write : forall i v, OWrite i v ∈ ops -> v = table m' i /\ is_valid (table m i) = false;
  mn_tlbi : ~ OTlbi ∈ ops;
  mn_published : published ops;
}.
Lemma commit_loop_spec fuel index finish attributes m : finish - index <= Z.of_nat fuel ->
  (forall i, table (commit_loop fuel index finish attributes m) i = if decide (index <= i < finish /\ is_valid (table m i) = false) then Z.lor (physical i) attributes else table m i) /\
  (forall a, ram (commit_loop fuel index finish attributes m) a = if decide (index <= page_of a < finish /\ is_valid (table m (page_of a)) = false) then 0 else ram m a) /\
  exists ops, maps_new m (commit_loop fuel index finish attributes m) ops.
Proof.
  revert index m. induction fuel as [| fuel IH]; intros index m Hf; cbn [commit_loop].
  { split_and!; [intros i; rewrite decide_False by lia; done | intros a; rewrite decide_False by lia; done |]. exists []. split; [done | by intros ? ? ?%elem_of_nil | by intros ?%elem_of_nil | by intros []]. }
  destruct (Z.ltb_spec index finish).
  2: { split_and!; [intros i; rewrite decide_False by lia; done | intros a; rewrite decide_False by lia; done |]. exists []. split; [done | by intros ? ? ?%elem_of_nil | by intros ?%elem_of_nil | by intros []]. }
  destruct (is_valid (table m index)) eqn:Hv.
  { destruct (IH (index + 1) m ltac:(lia)) as (Ht & Hr & Hops). split_and!; [| | done].
    - intros i. rewrite Ht. apply decide_ext. split; intros [Hi Hn]; (split; [| done]); [lia |]. assert (i <> index) by (intros ->; congruence). lia.
    - intros a. rewrite Hr. apply decide_ext. split; intros [Hi Hn]; (split; [| done]); [lia |]. assert (page_of a <> index) by (intros He; rewrite He in Hn; congruence). lia. }
  destruct (map_run_spec (Z.to_nat (finish - index)) index attributes m) as (k & Hk & -> & Hrun & Hstop).
  assert (0 < k)%nat as Hk0. { destruct k; [| lia]. rewrite Z.add_0_r in Hstop. rewrite Hstop in Hv; [done | lia]. }
  set (run := writes k index (fun i => Z.lor (physical i) attributes) ++ [ODsb; OIsb; OZero (RAM_START + index * PAGE) ((index + Z.of_nat k - index) * PAGE)]).
  set (m3 := emit (OZero _ _) _). assert (m3 = emits run m) as Hm3 by (unfold run; by rewrite emits_app).
  assert (forall i, table m3 i = if decide (index <= i < index + Z.of_nat k) then Z.lor (physical i) attributes else table m i) as Ht3.
  { intros i. change (table m3 i) with (table (emits (writes k index (fun i => Z.lor (physical i) attributes)) m) i). by rewrite table_writes. }
  assert (forall a, ram m3 a = if decide (index <= page_of a < index + Z.of_nat k) then 0 else ram m a) as Hr3.
  { intros a. change (ram m3 a) with (zero_at (RAM_START + index * PAGE) ((index + Z.of_nat k - index) * PAGE) (ram (emits (writes k index (fun i => Z.lor (physical i) attributes)) m)) a).
    rewrite ram_writes. unfold zero_at. pose proof (proj1 (page_of_spec a _) eq_refl) as Hp. unfold physical, PAGE in *.
    case_decide; destruct (Z.leb_spec (RAM_START + index * 4096) a), (Z.ltb_spec a (RAM_START + index * 4096 + (index + Z.of_nat k - index) * 4096)); simpl; try done; lia. }
  destruct (IH (index + Z.of_nat k) m3 ltac:(lia)) as (Ht & Hr & ops & Hmn). set (m' := commit_loop _ _ _ _ m3) in *.
  assert (forall i, table m' i = if decide (index <= i < finish /\ is_valid (table m i) = false) then Z.lor (physical i) attributes else table m i) as Htab.
  { intros i. rewrite Ht, Ht3. destruct (decide (index <= i < index + Z.of_nat k)).
    - rewrite decide_False, decide_True by lia || (split; [lia | apply Hrun; lia]). done.
    - apply decide_ext. split; intros [Hi Hn']; (split; [lia | done]). }
  split_and!; [done | |].
  - intros a. rewrite Hr, Hr3, Ht3. destruct (decide (index <= page_of a < index + Z.of_nat k)).
    + rewrite decide_False, decide_True by lia || (split; [lia | apply Hrun; lia]). done.
    + apply decide_ext. split; intros [Hi Hn']; (split; [lia | done]).
  - exists (run ++ ops). destruct Hmn as [He Hw Hno Hpub]. split.
    + by rewrite emits_app, <- Hm3.
    + intros i v [Hin | Hin]%elem_of_app.
      * apply elem_of_app in Hin as [[-> Hi]%write_in_writes | Hin]; [| exfalso; revert Hin; rewrite !elem_of_cons, elem_of_nil; naive_solver].
        rewrite Htab, decide_True by (split; [lia | by apply Hrun]). split; [done | by apply Hrun].
      * destruct (Hw i v Hin) as [-> Hi]. split; [done |]. destruct (decide (index <= i < index + Z.of_nat k)); [by apply Hrun |]. rewrite Ht3, decide_False in Hi; done.
    + rewrite elem_of_app. intros [Hin | ?]; [| done]. apply elem_of_app in Hin as [?%writes_no_tlbi | Hin]; [done |]. revert Hin. rewrite !elem_of_cons, elem_of_nil. naive_solver.
    + apply published_app; [| done]. apply published_end; [intros i v; rewrite !elem_of_cons, elem_of_nil; naive_solver | set_solver | apply writes_no_tlbi].
Qed.
(** Committing maps exactly the pages of the range that were not mapped, readable and writable, and these read as
    zero; pages that were mapped keep their descriptor and their contents, and so does all other memory.  It fails only
    for a range that is not whole pages of the allocatable RAM, and then changes nothing.  No translation becomes
    ambiguous although nothing is invalidated. *)
Theorem pages_commit_exact address size m : 0 <= address -> 0 <= size ->
  let new := fun i => address <= physical i < address + size /\ is_valid (table m i) = false in
  match pages_commit bounds address size m with
  | (m', Ok _) => pages_within address size bounds /\
      (forall i, (new i -> grants (table m' i) (Z.lor READ WRITE) /\ output_address (table m' i) = physical i) /\ (~ new i -> table m' i = table m i)) /\
      (forall a, (new (page_of a) -> ram m' a = 0) /\ (~ new (page_of a) -> ram m' a = ram m a)) /\
      (forall s, coherent s -> (forall i, cur s i = table m i) ->
        exists ops, log m' = rev ops ++ log m /\ always unambiguous ops s /\ coherent (mmu_run ops s) /\ forall i, cur (mmu_run ops s) i = table m' i)
  | (m', Err e) => m' = m /\ e = EInvalidArgument /\ ~ pages_within address size bounds
  end.
Proof.
  intros Ha Hs new. unfold pages_commit. pose proof (page_range_spec address size bounds Ha Hs) as Hpr.
  destruct (page_range address size bounds) as [[first finish] |]; [| destruct Hpr; auto].
  destruct Hpr as (Hw & Hlt & Hlast & _ & _ & Hin). pose proof (flags_exact (Z.lor READ WRITE) ltac:(done)) as Hfl.
  destruct (flags (Z.lor READ WRITE)) as [attributes |] eqn:Hat; [| vm_compute in Hat; done].
  assert (attributes <> 0) as Hat0 by (intros ->; vm_compute in Hat; done).
  destruct (commit_loop_spec (Z.to_nat (finish - first)) first finish attributes m ltac:(lia)) as (Ht & Hr & ops & Hmn).
  set (m' := commit_loop _ _ _ _ m) in *.
  assert (forall i, (first <= i < finish /\ is_valid (table m i) = false) <-> new i) as Hnew by (intros i; unfold new; by rewrite Hin).
  split_and!; [done | | |].
  - intros i. rewrite Ht. specialize (Hnew i). case_decide as Hd; [split; [intros _ | tauto] | split; [tauto | done]].
    destruct Hfl as [_ Hfl]. destruct (Hfl i ltac:(lia)) as [Hg Ho]. unfold descriptor in *. rewrite (proj2 (Z.eqb_neq _ _) Hat0) in *. by split; [| apply Ho].
  - intros a. rewrite Hr. specialize (Hnew (page_of a)). case_decide; tauto || (split; [tauto | done]).
  - intros s Hco Hcur. destruct Hmn as [He Hwr Hno Hpub]. exists ops. pose proof (run_cur ops s m Hcur) as Hc. rewrite <- He in Hc.
    destruct Hco as [Hset Htlb]. destruct (follows_run (table m') ops s) as [Ha1 Hf].
    + apply coherent_follows; [done | intros i v Hv |].
      * destruct (Htlb i v Hv) as [-> Hval]. split; [| done]. rewrite Hcur, Ht in *. case_decide as Hd; [| done]. destruct Hd. congruence.
      * intros i. rewrite Hcur, Ht. case_decide as Hd; [right; by destruct Hd | by left].
    + intros i v Hiv. left. by apply Hwr.
    + split_and!; [rewrite He; apply log_emits | done | split | done].
      * apply published_settled; [by left | done | done].
      * intros i v Hv. rewrite Hc. by apply (fo_tlb _ _ Hf).
Qed.
End Commit.

(** ** Readability *)
Lemma all_valid_spec n index m : all_valid n index m = true <-> forall i, index <= i < index + Z.of_nat n -> is_valid (table m i) = true.
Proof.
  revert index. induction n as [| n IH]; intros index; simpl; [split; [intros _ i Hi; lia | done] |].
  destruct (is_valid (table m index)) eqn:Hv; simpl.
  - rewrite IH. split; intros Hall i Hi; [destruct (decide (i = index)) as [-> |]; [done |] |]; apply Hall; lia.
  - split; [done |]. intros Hall. rewrite <- Hv. apply Hall. lia.
Qed.
(** A range is reported readable exactly when it lies in RAM and every byte of it is on a mapped page; a range that runs
    past the address space is an error. *)
Theorem pages_readable_exact address size m : 0 <= address -> 0 <= size ->
  match pages_readable address size m with
  | Ok answer => address + size <= u64_max /\ (answer = true <-> RAM_START <= address < RAM_START + RAM_PAGES * PAGE /\
      address + size <= RAM_START + RAM_PAGES * PAGE /\ forall a, address <= a < address + size -> is_valid (table m (page_of a)) = true)
  | Err e => e = EInvalidArgument /\ u64_max < address + size
  end.
Proof.
  intros Ha Hs. unfold pages_readable. destruct (checked_add u64_max address size) as [finish |] eqn:Hf.
  2: { apply checked_add_None in Hf. done. }
  apply checked_add_Some in Hf as [-> Hle]. set (top := RAM_START + RAM_PAGES * PAGE).
  destruct (Z.ltb_spec address RAM_START); [split; [done |]; split; [done | lia] |]. simpl.
  destruct (Z.leb_spec top address); [split; [done |]; split; [done | lia] |]. simpl.
  destruct (Z.ltb_spec top (address + size)); [split; [done |]; split; [done | lia] |].
  destruct (Z.eqb_spec size 0); [split; [done |]; split; [intros _; split_and!; try done; lia | done] |].
  split; [done |]. rewrite all_valid_spec. fold (page_of address). fold (page_of (address + size - 1)).
  assert (forall a b, a <= b -> page_of a <= page_of b) as Hmono by (intros a b Hab; apply Z.div_le_mono; unfold PAGE; lia).
  pose proof (Hmono address (address + size - 1) ltac:(lia)).
  split; [intros Hall; split_and!; try lia; intros a Hi; apply Hall; pose proof (Hmono address a ltac:(lia)); pose proof (Hmono a (address + size - 1) ltac:(lia)); lia |].
  intros (_ & _ & Hall) i Hi. assert (exists a, address <= a < address + size /\ page_of a = i) as (a & Hr & <-); [| by apply Hall].
  pose proof (proj1 (page_of_spec address _) eq_refl) as Hlo. pose proof (proj1 (page_of_spec (address + size - 1) _) eq_refl) as Hhi.
  exists (Z.max address (physical i)). rewrite page_of_spec. unfold physical, PAGE in *. lia.
Qed.

(** ** Witnesses *)
Module PagesSample.
Definition window : Z * Z := (1075838976, 2147483648).
Definition rodata : Z * Z := (1074266112, 1074274304).
Definition blank : Machine := mkMachine (fun _ => 0) (fun _ => 7) [].
Definition idle : Mmu := mkMmu (fun _ => 0) (fun _ v => v = 0) (fun _ _ => False) None.
Lemma idle_coherent : coherent idle.
Proof. split; [split; [done | intros i v; done] | done]. Qed.
Lemma pages_protect_exact_witness : match pages_protect window rodata 0 1075838976 8192 (Z.lor READ EXECUTE) blank with
  | (m', Ok _) => table m' 512 <> 0 /\ table m' 513 <> 0 /\ table m' 514 = 0 /\ ram m' = ram blank | _ => False end.
Proof.
  pose proof (pages_protect_exact window rodata 0 1075838976 8192 (Z.lor READ EXECUTE) blank ltac:(done) ltac:(done)) as H.
  assert (snd (pages_protect window rodata 0 1075838976 8192 (Z.lor READ EXECUTE) blank) = Ok tt) as Hok by by vm_compute.
  destruct (pages_protect window rodata 0 1075838976 8192 (Z.lor READ EXECUTE) blank) as [m' r]. simpl in Hok. subst r.
  destruct H as (c & Hc & _ & Hr & Ht). vm_compute in Hc. injection Hc as <-. rewrite !Ht. split_and!; [by vm_compute | by vm_compute | by vm_compute | done].
Defined.
Lemma flags_exact_witness : exists c, flags (Z.lor READ WRITE) = Ok c /\ grants (descriptor c 3) (Z.lor READ WRITE).
Proof.
  pose proof (flags_exact (Z.lor READ WRITE) ltac:(done)) as H. destruct (flags (Z.lor READ WRITE)) as [c |] eqn:Hc; [| by vm_compute in Hc].
  exists c. split; [done |]. destruct H as [_ H]. by apply H.
Defined.
Lemma protect_break_before_make_witness : let '(m', _) := pages_protect window rodata 0 1075838976 8192 READ blank in
  exists ops, log m' = rev ops ++ [] /\ always unambiguous ops idle /\ coherent (mmu_run ops idle).
Proof.
  pose proof (protect_break_before_make window rodata 0 1075838976 8192 READ blank idle ltac:(done) ltac:(done) idle_coherent (fun _ => eq_refl)) as H.
  destruct (pages_protect window rodata 0 1075838976 8192 READ blank) as [m' r]. destruct H as (ops & Hl & Ha & Hc & _). by exists ops.
Defined.
Lemma sync_covers_witness : exists xs ys zs ws clean fetch,
  log (sync_instructions 0 1075838976 64 blank) = rev (xs ++ OClean clean :: ys ++ ODsb :: zs ++ OInvalidate fetch :: ws ++ [ODsb; OIsb]) ++ log blank /\
  clean <= 1075838990 < clean + data_line 0 /\ fetch <= 1075838990 < fetch + instruction_line 0.
Proof. apply (sync_covers 0 1075838976 64 blank 1075838990); lia. Defined.
Lemma pages_commit_exact_witness : match pages_commit window 1075838976 8192 blank with
  | (m', Ok _) => grants (table m' 512) (Z.lor READ WRITE) /\ ram m' 1075838980 = 0 /\ ram m' 1075847168 = 7 | _ => False end.
Proof.
  pose proof (pages_commit_exact window 1075838976 8192 blank ltac:(done) ltac:(done)) as H.
  assert (snd (pages_commit window 1075838976 8192 blank) = Ok tt) as Hok by by vm_compute.
  destruct (pages_commit window 1075838976 8192 blank) as [m' r]. simpl in Hok. subst r. destruct H as (_ & Ht & Hr & _). split_and!.
  - by apply (Ht 512).
  - by apply (Hr 1075838980).
  - apply (Hr 1075847168). vm_compute. by intros [[_ Hx] _].
Defined.
End PagesSample.
