(* ===== verification/Memory.v ===== *)
(** * Memory.v: memory of the bare-metal port

    [src/examples/baremetal-aarch64/src/memory.rs] up to the native heap: the region of free RAM and the page descriptors
    together, and the providers [VirtualMemory] and [NativeMapping] on them.  An [assert!] or [expect] that fails, or an
    overflow that the build checks, is a panic, [None]; the theorems show that none happens.  [mem_ok] is the invariant
    of the static state; [owned] adds who owns which range. *)
From S2P Require Import Prelude Port Counter Boundary Extents Pages.
Local Open Scope Z_scope.

(** The statics [REGION] and [HEAP], and the machine. *)
Record Bare := mkBare { b_region : Region; b_machine : Machine; b_heap : Z * Z }.
Definition with_region (r : Region) (b : Bare) : Bare := mkBare r (b_machine b) (b_heap b).
Definition with_machine (m : Machine) (b : Bare) : Bare := mkBare (b_region b) m (b_heap b).
(** A call of the port: a panic, or the state it leaves and its result. *)
Definition Call (A : Type) := Bare -> option (Bare * A).

(** [(value + alignment - 1) & !(alignment - 1)]; overflow wraps in the release profile. *)
Definition mem_round_up (value alignment : Z) : Z := mask_down (wrapping_add u64_max value (alignment - 1)) alignment.
Definition page_rounded (size : Z) : Result Z :=
  if size =? 0 then Err EInvalidArgument else
  match checked_add u64_max size (PAGE - 1) with Some n => Ok (mask_down n PAGE) | None => Err EInvalidArgument end.

Section Memory.
(** The linker's symbols and the cache type register. *)
Context (heap_start heap_end : Z) (image_data_bounds : Z * Z) (ctr : Z).
Definition bounds : Z * Z := (mem_round_up heap_start PAGE, mask_down heap_end PAGE).
Definition protect_pages (address size protection : Z) (b : Bare) : Bare * Result unit :=
  let '(m, r) := pages_protect bounds image_data_bounds ctr address size protection (b_machine b) in (with_machine m b, r).

(** [memory::init] *)
Definition mem_init : Call unit := fun b =>
  let '(start, finish) := bounds in
  if finish <? start then None else
  '(r, given) ← region_give start (finish - start) region_new;
  if negb given then None else
  match protect_pages start (finish - start) 0 (with_region r b) with
  | (b, Ok _) => Some (b, tt)
  | (_, Err _) => None
  end.
(** [memory::take] *)
Definition mem_take (size alignment : Z) : Call (option Z) := fun b =>
  if (size =? 0) || negb (size mod PAGE =? 0) || (alignment <? PAGE) || negb (is_power_of_two alignment) then Some (b, None) else
  '(r, taken) ← region_take size alignment (b_region b);
  let b := with_region r b in
  match taken with
  | None => Some (b, None)
  | Some address =>
      match protect_pages address size (Z.lor READ WRITE) b with
      | (b, Ok _) => Some (b, Some address)
      | (b, Err _) =>
          '(r, given) ← region_give address size (b_region b);
          if given : bool then Some (with_region r b, None) else None
      end
  end.
(** [memory::give] *)
Definition mem_give (start size : Z) : Call bool := fun b =>
  if negb (can_give start size (b_region b)) then Some (b, false) else
  match protect_pages start size 0 b with
  | (b, Err _) => Some (b, false)
  | (b, Ok _) => '(r, given) ← region_give start size (b_region b); Some (with_region r b, given)
  end.
Definition mem_available (b : Bare) : Z := region_available (b_region b).
(** [memory::zero] *)
Definition mem_zero (address size : Z) (b : Bare) : Bare := with_machine (emit (OZero address size) (b_machine b)) b.

(** ** [port::VirtualMemory] *)
(** [if let Err(error) = protect(...) { assert!(give(address, size)); return Err(error); }] *)
Definition protect_or_give (address size protection : Z) : Call (Result Z) := fun b =>
  match protect_pages address size protection b with
  | (b, Ok _) => Some (b, Ok address)
  | (b, Err e) => '(b, given) ← mem_give address size b; if given : bool then Some (b, Err e) else None
  end.
Definition bare_reserve (size alignment : Z) : Call (Result Z) := fun b =>
  '(b, taken) ← mem_take size alignment b;
  match taken with None => Some (b, Err EOutOfMemory) | Some address => protect_or_give address size 0 b end.
Definition bare_commit (address size : Z) : Call (Result unit) := fun b =>
  let '(m, r) := pages_commit bounds address size (b_machine b) in Some (with_machine m b, r).
Definition bare_decommit (address size : Z) : Call (Result unit) := fun b => Some (protect_pages address size 0 b).
Definition bare_release (address size : Z) : Call (Result unit) := fun b =>
  '(b, given) ← mem_give address size b; Some (b, if given : bool then Ok tt else Err EOs).
Definition bare_reset (address size : Z) : Call (Result unit) := fun b => Some (b, Ok tt).

(** ** [port::NativeMapping] *)
Definition mapping_allocate (size protection : Z) : Call (Result Z) := fun b =>
  match flags protection with
  | Err e => Some (b, Err e)
  | Ok _ =>
      match page_rounded size with
      | Err e => Some (b, Err e)
      | Ok size =>
          '(b, taken) ← mem_take size PAGE b;
          match taken with
          | None => Some (b, Err EOutOfMemory)
          | Some address => protect_or_give address size protection (mem_zero address size b)
          end
      end
  end.
Definition mapping_release (address size : Z) : Call (Result unit) := fun b =>
  match page_rounded size with
  | Err e => Some (b, Err e)
  | Ok size => '(b, given) ← mem_give address size b; Some (b, if given : bool then Ok tt else Err EOs)
  end.
Definition mapping_protect (address size protection : Z) : Call (Result unit) := fun b =>
  match page_rounded size with
  | Err e => Some (b, Err e)
  | Ok size => Some (protect_pages address size protection b)
  end.

(** ** The invariant *)
Definition low : Z := bounds.1.
Definition high : Z := bounds.2.
Definition is_free (b : Bare) (a : Z) : Prop := free (live (b_region b)) a.
Definition page_valid (b : Bare) (i : Z) : bool := is_valid (table (b_machine b) i).
(** The free list is sound, holds whole pages of the allocatable RAM, and no free page is accessible. *)
Record mem_ok (b : Bare) : Prop := {
  mo_region : region_ok (b_region b);
  mo_bounds : forall a, is_free b a -> low <= a < high;
  mo_pages : forall a a', page_of a = page_of a' -> is_free b a -> is_free b a';
  mo_dark : forall a, is_free b a -> page_valid b (page_of a) = false;
}.
(** What the linker script and the machine guarantee: the region is in RAM and holds at least one page. *)
Hypothesis layout : RAM_START <= heap_start /\ heap_start + 2 * PAGE <= heap_end /\ heap_end <= RAM_START + RAM_PAGES * PAGE.
Lemma bounds_spec : RAM_START <= low < high /\ high <= RAM_START + RAM_PAGES * PAGE /\ low mod PAGE = 0 /\ high mod PAGE = 0.
Proof.
  unfold low, high, bounds, mem_round_up. cbn [fst snd]. change PAGE with (2 ^ 12). unfold RAM_START, RAM_PAGES in *. change PAGE with (2 ^ 12) in *. change (1073741824 / 2 ^ 12) with 262144 in *.
  rewrite wrapping_add_small by (unfold u64_max; lia). pose proof (round_up_pow2 heap_start 12 ltac:(lia)) as [? ?]. rewrite (mask_down_pow2 heap_end) by lia.
  pose proof (Z.mod_pos_bound heap_end (2 ^ 12) ltac:(lia)). split_and!; try lia. rewrite Zminus_mod, Zmod_mod, <- Zminus_mod, Z.sub_diag. done.
Qed.
Lemma bounds_small : 0 <= low < high /\ high <= u64_max.
Proof. pose proof bounds_spec as (? & Hh & _). change (RAM_START + RAM_PAGES * PAGE) with 2147483648 in Hh. unfold RAM_START, u64_max in *. lia. Qed.
(** Pages and ranges of whole pages. *)
Lemma range_of_pages a n x : a mod PAGE = 0 -> n mod PAGE = 0 -> a <= physical (page_of x) < a + n <-> a <= x < a + n.
Proof.
  intros Ha Hn. pose proof (proj1 (page_of_spec x _) eq_refl) as Hp. unfold physical in *. change RAM_START with (262144 * PAGE) in *.
  apply Z.mod_divide in Ha as [i ->]; [| done]. apply Z.mod_divide in Hn as [k ->]; [| done]. unfold PAGE in *. lia.
Qed.
Lemma range_same_page a n x y : a mod PAGE = 0 -> n mod PAGE = 0 -> page_of x = page_of y -> a <= x < a + n <-> a <= y < a + n.
Proof. intros Ha Hn He. rewrite <- (range_of_pages a n x), <- (range_of_pages a n y), He by done. done. Qed.
(** The pages and bytes outside a range are as before. *)
Definition keeps_outside (a n : Z) (b b' : Bare) : Prop :=
  b_heap b' = b_heap b /\ (forall x, ~ a <= x < a + n -> ram (b_machine b') x = ram (b_machine b) x) /\
  forall x, ~ a <= x < a + n -> table (b_machine b') (page_of x) = table (b_machine b) (page_of x).
Lemma protect_within a n protection c b : 0 <= a -> pages_within a n bounds -> flags protection = Ok c ->
  exists m, protect_pages a n protection b = (with_machine m b, Ok tt) /\ keeps_outside a n b (with_machine m b) /\ ram m = ram (b_machine b) /\
  forall x, a <= x < a + n -> table m (page_of x) = descriptor c (page_of x).
Proof.
  intros Ha Hw Hc. pose proof (pages_protect_exact bounds image_data_bounds ctr a n protection (b_machine b) Ha ltac:(destruct Hw; lia)) as H. unfold protect_pages.
  destruct (pages_protect _ _ _ a n protection (b_machine b)) as [m [[] |]].
  - destruct H as (c' & Hc' & _ & Hr & Ht). rewrite Hc in Hc'. injection Hc' as <-. pose proof Hw as (_ & Hma & Hmn & _).
    exists m. split_and!; [done | | done |].
    + split_and!; [done | intros; simpl; by rewrite Hr |]. intros x Hx. simpl. rewrite Ht, decide_False; [done |]. by rewrite range_of_pages.
    + intros x Hx. rewrite Ht, decide_True; [done |]. by rewrite range_of_pages.
  - exfalso. destruct H as [_ H]. rewrite Hc in H. tauto.
Qed.
(** Protection is taken away only from the allocatable RAM. *)
Lemma protect_none a n b : 0 <= a -> 0 <= n ->
  match protect_pages a n 0 b with (b', Ok _) => pages_within a n bounds | (b', Err _) => b' = b end.
Proof.
  intros Ha Hn. pose proof (pages_protect_exact bounds image_data_bounds ctr a n 0 (b_machine b) Ha Hn) as H. unfold protect_pages.
  destruct (pages_protect _ _ _ a n 0 (b_machine b)) as [m [[] |]].
  - destruct H as (c & _ & [Hw | (_ & _ & [? | ?])] & _); done.
  - destruct H as [-> _]. by destruct b.
Qed.
(** The invariant after the free addresses have lost or gained whole pages. *)
Lemma mem_ok_taken b b' a n : mem_ok b -> region_ok (b_region b') -> a mod PAGE = 0 -> n mod PAGE = 0 ->
  (forall x, is_free b' x <-> is_free b x /\ ~ a <= x < a + n) -> keeps_outside a n b b' -> mem_ok b'.
Proof.
  intros Hok Hr Ha Hn Hf (_ & _ & Ht). constructor; [done | | |].
  - intros x [? _]%Hf. by apply (mo_bounds _ Hok).
  - intros x y Hp [Hx Ho]%Hf. apply Hf. split; [by eapply (mo_pages _ Hok) | by rewrite <- (range_same_page a n x y)].
  - intros x [Hx Ho]%Hf. unfold page_valid. rewrite Ht by done. by apply (mo_dark _ Hok).
Qed.
Lemma mem_ok_given b b' a n : mem_ok b -> region_ok (b_region b') -> pages_within a n bounds ->
  (forall x, is_free b' x <-> is_free b x \/ a <= x < a + n) -> keeps_outside a n b b' -> (forall x, a <= x < a + n -> page_valid b' (page_of x) = false) -> mem_ok b'.
Proof.
  intros Hok Hr (_ & Ha & Hn & Hl & Hh & _) Hf (_ & _ & Ht) Hd. constructor; [done | | |].
  - intros x [? | ?]%Hf; [by apply (mo_bounds _ Hok) | unfold low, high; lia].
  - intros x y Hp [Hx | Hx]%Hf; apply Hf; [left; by eapply (mo_pages _ Hok) | right; by apply (range_same_page a n x y)].
  - intros x Hx. destruct (decide (a <= x < a + n)); [by apply Hd |]. apply Hf in Hx as [Hx |]; [| done]. unfold page_valid. rewrite Ht by done. by apply (mo_dark _ Hok).
Qed.
(** [keeps_outside] is a preorder on the calls that touch one range. *)
Lemma keeps_outside_trans a n b1 b2 b3 : keeps_outside a n b1 b2 -> keeps_outside a n b2 b3 -> keeps_outside a n b1 b3.
Proof.
  intros (Hh & Hr & Ht) (Hh' & Hr' & Ht'). split_and!; [congruence | |].
  - intros x Hx. by rewrite Hr', Hr.
  - intros x Hx. by rewrite Ht', Ht.
Qed.
Lemma with_same_region b : with_region (b_region b) b = b.
Proof. by destruct b. Qed.
(** A range taken from the region: aligned whole pages that were free. *)
Record granted (size alignment a : Z) (b b' : Bare) : Prop := {
  gr_within : pages_within a size bounds;
  gr_aligned : a mod alignment = 0;
  gr_was_free : forall x, a <= x < a + size -> is_free b x;
  gr_free : forall x, is_free b' x <-> is_free b x /\ ~ a <= x < a + size;
  gr_outside : keeps_outside a size b b';
  gr_ok : mem_ok b';
}.
Lemma multiple_of_smaller p q a : p <= q -> is_power_of_two p = true -> is_power_of_two q = true -> a mod q = 0 -> a mod p = 0.
Proof.
  intros Hle (i & Hi & ->)%is_power_of_two_spec (k & Hk & ->)%is_power_of_two_spec Ha. assert (i <= k) by (apply (Z.pow_le_mono_r_iff 2); lia).
  apply Z.mod_divide in Ha as [q ->]; [| apply Z.pow_nonzero; lia]. replace (2 ^ k) with (2 ^ (k - i) * 2 ^ i) by (rewrite <- Z.pow_add_r by lia; f_equal; lia).
  rewrite Z.mul_assoc. apply Z.mod_mul, Z.pow_nonzero; lia.
Qed.
(** Why nothing is taken: the request is not of whole aligned pages, no free range fits it, or the extents are used up. *)
Definition unavailable (size alignment : Z) (b : Bare) : Prop :=
  size = 0 \/ size mod PAGE <> 0 \/ alignment < PAGE \/ is_power_of_two alignment = false \/ count (b_region b) = MAX_EXTENTS \/
  forall p, ~ place (live (b_region b)) size alignment p.
Lemma mem_take_spec size alignment b : mem_ok b -> 0 <= size -> alignment <= u64_max ->
  match mem_take size alignment b with
  | Some (b', Some a) => granted size alignment a b b' /\ ram (b_machine b') = ram (b_machine b)
  | Some (b', None) => b' = b /\ unavailable size alignment b
  | None => False
  end.
Proof.
  intros Hok Hs Hle. unfold mem_take, unavailable. destruct (Z.eqb_spec size 0); cbn [negb orb]; [tauto |]. destruct (Z.eqb_spec (size mod PAGE) 0) as [Hms |]; cbn [negb orb]; [| tauto].
  destruct (Z.ltb_spec alignment PAGE); cbn [negb orb]; [tauto |]. destruct (is_power_of_two alignment) eqn:Hpow; cbn [negb orb]; [| tauto].
  destruct (region_take_total (b_region b) size alignment (mo_region _ Hok) Hs Hle) as (r & taken & Htake & Hnone). rewrite Htake. cbn [mbind option_bind].
  destruct taken as [a |]; [| destruct (Hnone eq_refl) as [-> [? | [? | ?]]]; (split; [apply with_same_region | first [congruence | tauto]])].
  destruct (take_live _ _ _ _ _ (mo_region _ Hok) Hs Htake) as (Hr & Hpos & Hin & Hfree & Hal).
  pose proof (multiple_of_smaller PAGE alignment a ltac:(lia) eq_refl Hpow Hal) as Hma. pose proof bounds_spec as (Hb1 & Hb2 & _).
  assert (pages_within a size bounds) as Hw.
  { pose proof (mo_bounds _ Hok a (Hin a ltac:(lia))). pose proof (mo_bounds _ Hok (a + size - 1) (Hin (a + size - 1) ltac:(lia))).
    unfold pages_within. fold low high. split_and!; try done; lia. }
  destruct (flags (Z.lor READ WRITE)) as [c |] eqn:Hc; [| by vm_compute in Hc].
  destruct (protect_within a size (Z.lor READ WRITE) c (with_region r b) ltac:(destruct Hw as (_ & _ & _ & ? & _); fold low in *; unfold RAM_START in *; lia) Hw Hc) as (m & -> & Hko & Hram & _).
  split; [| done]. assert (keeps_outside a size b (with_machine m (with_region r b))) as Hko' by done.
  split; [done | done | done | done | done |]. apply (mem_ok_taken b _ a size); done.
Qed.
Lemma mem_give_spec a n b : mem_ok b -> 0 <= a -> 0 <= n ->
  match mem_give a n b with
  | Some (b', true) => pages_within a n bounds /\ (forall x, a <= x < a + n -> ~ is_free b x) /\ (forall x, is_free b' x <-> is_free b x \/ a <= x < a + n) /\
      keeps_outside a n b b' /\ ram (b_machine b') = ram (b_machine b) /\ mem_ok b'
  | Some (b', false) => b' = b
  | None => False
  end.
Proof.
  intros Hok Ha Hn. unfold mem_give. destruct (can_give a n (b_region b)) eqn:Hcan; [| done]. simpl.
  pose proof (protect_none a n b Ha Hn) as Hp. destruct (protect_pages a n 0 b) as [b1 [[] |]] eqn:Hpr; [| done].
  destruct (protect_within a n 0 0 b Ha Hp eq_refl) as (m & Hpr' & Hko & Hram & Ht). rewrite Hpr' in Hpr. injection Hpr as <-. cbn [b_region with_machine].
  destruct (give_accepted (b_region b) a n (mo_region _ Hok) Ha Hcan Hn) as (r & -> & Hr & Hfree). cbn [mbind option_bind].
  apply can_give_spec in Hcan as (Hpos & _ & Hno & _); [| done].
  assert (keeps_outside a n b (with_region r (with_machine m b))) as Hko' by done. split_and!; [done | | done | done | done |].
  - apply (no_overlap_free _ a (a + n) (mo_region _ Hok)); [lia | done].
  - apply (mem_ok_given b _ a n); try done. intros x Hx. unfold page_valid. simpl. by rewrite Ht.
Qed.
(** What was just taken is accepted back, whatever the array of extents holds. *)
Lemma give_granted n alignment a b b' : mem_ok b -> granted n alignment a b b' -> exists b'', mem_give a n b' = Some (b'', true).
Proof.
  intros Hok Hg. pose proof (gr_within _ _ _ _ _ Hg) as Hw. destruct (cut_can_give (b_region b) (b_region b') a n (mo_region _ Hok) (mo_region _ (gr_ok _ _ _ _ _ Hg)) (proj1 Hw) (gr_was_free _ _ _ _ _ Hg) (gr_free _ _ _ _ _ Hg)) as [Hcan Ha].
  unfold mem_give. rewrite Hcan. cbn [negb]. destruct (protect_within a n 0 0 b' Ha Hw eq_refl) as (m & -> & _). cbn [b_region with_machine].
  destruct (give_accepted (b_region b') a n (mo_region _ (gr_ok _ _ _ _ _ Hg)) Ha Hcan ltac:(destruct Hw; lia)) as (r & -> & _). cbn [mbind option_bind]. by eexists.
Qed.

(** ** The providers *)
Lemma within_nonneg a n : pages_within a n bounds -> 0 <= a /\ 0 <= n.
Proof. pose proof bounds_spec as (? & _). intros (? & _ & _ & ? & _). fold low in *. unfold RAM_START in *. lia. Qed.
Lemma protect_or_give_within a n protection c b : pages_within a n bounds -> flags protection = Ok c ->
  exists m, protect_or_give a n protection b = Some (with_machine m b, Ok a) /\ keeps_outside a n b (with_machine m b) /\ ram m = ram (b_machine b) /\
  forall x, a <= x < a + n -> table m (page_of x) = descriptor c (page_of x).
Proof.
  intros Hw Hc. unfold protect_or_give. destruct (protect_within a n protection c b (proj1 (within_nonneg a n Hw)) Hw Hc) as (m & -> & ?). by exists m.
Qed.
Lemma granted_machine size alignment a b b1 m : granted size alignment a b b1 -> keeps_outside a size b1 (with_machine m b1) -> granted size alignment a b (with_machine m b1).
Proof.
  intros [Hw Hal Hwas Hfree Hout Hok] Hko. assert (keeps_outside a size b (with_machine m b1)) as Hko' by by eapply keeps_outside_trans.
  split; [done | done | done | done | done |]. pose proof Hw as (_ & Ha & Hn & _). constructor; [apply (mo_region _ Hok) | apply (mo_bounds _ Hok) | apply (mo_pages _ Hok) |].
  intros x Hx. unfold page_valid. destruct Hko as (_ & _ & Ht). rewrite Ht; [by apply (mo_dark _ Hok) |]. by apply Hfree.
Qed.
Lemma bare_reserve_spec size alignment b : mem_ok b -> 0 <= size -> alignment <= u64_max ->
  match bare_reserve size alignment b with
  | Some (b', Ok a) => granted size alignment a b b' /\ ram (b_machine b') = ram (b_machine b) /\ forall x, a <= x < a + size -> page_valid b' (page_of x) = false
  | Some (b', Err e) => e = EOutOfMemory /\ b' = b /\ unavailable size alignment b
  | None => False
  end.
Proof.
  intros Hok Hs Hle. unfold bare_reserve. pose proof (mem_take_spec size alignment b Hok Hs Hle) as Ht.
  destruct (mem_take size alignment b) as [[b1 [a |]] |]; cbn [mbind option_bind]; [| by destruct Ht | done]. destruct Ht as [Hg Hr].
  destruct (protect_or_give_within a size 0 0 b1 (gr_within _ _ _ _ _ Hg) eq_refl) as (m & -> & Hko & Hram & Htab).
  split_and!; [by apply granted_machine | by rewrite <- Hr | intros x Hx; unfold page_valid; simpl; by rewrite Htab].
Qed.
Lemma page_rounded_spec size : 0 <= size ->
  match page_rounded size with Ok n => 0 < size <= n /\ n < size + PAGE /\ n mod PAGE = 0 | Err e => e = EInvalidArgument end.
Proof.
  intros Hs. unfold page_rounded. destruct (Z.eqb_spec size 0) as [| Hne]; [done |]. destruct (checked_add u64_max size (PAGE - 1)) as [n |] eqn:Hn; [| done].
  apply checked_add_Some in Hn as [-> _]. change PAGE with (2 ^ 12) in *. pose proof (round_up_pow2 size 12 ltac:(lia)) as [? ?]. split_and!; [lia | lia | lia | done].
Qed.
Lemma mapping_allocate_spec size protection b : mem_ok b -> 0 <= size ->
  match mapping_allocate size protection b with
  | Some (b', Ok a) => exists n c, page_rounded size = Ok n /\ flags protection = Ok c /\ granted n PAGE a b b' /\
      forall x, a <= x < a + n -> ram (b_machine b') x = 0 /\ table (b_machine b') (page_of x) = descriptor c (page_of x)
  | Some (b', Err e) => b' = b /\ match flags protection with
      | Err e' => e = e'
      | Ok _ => match page_rounded size with Err e' => e = e' | Ok n => e = EOutOfMemory /\ unavailable n PAGE b end
      end
  | None => False
  end.
Proof.
  intros Hok Hs. unfold mapping_allocate. destruct (flags protection) as [c |] eqn:Hc; [| done]. pose proof (page_rounded_spec size Hs) as Hpr.
  destruct (page_rounded size) as [n |]; [| done]. pose proof (mem_take_spec n PAGE b Hok ltac:(lia) ltac:(done)) as Ht.
  destruct (mem_take n PAGE b) as [[b1 [a |]] |]; cbn [mbind option_bind]; [| by destruct Ht | done]. destruct Ht as [Hg Hr].
  destruct (protect_or_give_within a n protection c (mem_zero a n b1) (gr_within _ _ _ _ _ Hg) Hc) as (m & -> & Hko & Hram & Htab).
  assert (keeps_outside a n b1 (with_machine m b1)) as Hko'.
  { eapply (keeps_outside_trans a n _ (mem_zero a n b1)); [| done]. split_and!; [done | | done]. intros x Hx. simpl. unfold zero_at.
    destruct (Z.leb_spec a x), (Z.ltb_spec x (a + n)); simpl; try done; lia. }
  exists n, c. split_and!; [done | done | exact (granted_machine _ _ _ _ _ _ Hg Hko') |]. intros x Hx. simpl. rewrite Hram, Htab by done. split; [| done].
  simpl. unfold zero_at. rewrite (proj2 (Z.leb_le a x)), (proj2 (Z.ltb_lt x (a + n))) by lia. done.
Qed.
(** An operation on whole pages that are not free keeps the invariant. *)
Lemma mem_ok_machine b m a n : mem_ok b -> keeps_outside a n b (with_machine m b) -> (forall x, a <= x < a + n -> ~ is_free b x) -> mem_ok (with_machine m b).
Proof.
  intros Hok (_ & _ & Ht) Hno. constructor; [apply (mo_region _ Hok) | apply (mo_bounds _ Hok) | apply (mo_pages _ Hok) |].
  intros x Hx. unfold page_valid. rewrite Ht; [by apply (mo_dark _ Hok) |]. intros Hin. by apply (Hno x).
Qed.
Lemma commit_keeps address size b : 0 <= address -> 0 <= size ->
  exists m r, bare_commit address size b = Some (with_machine m b, r) /\ keeps_outside address size b (with_machine m b).
Proof.
  intros Ha Hs. unfold bare_commit. pose proof (pages_commit_exact bounds address size (b_machine b) Ha Hs) as H.
  destruct (pages_commit bounds address size (b_machine b)) as [m [[] |]]; eexists m, _; (split; [done |]).
  - destruct H as ((_ & Hma & Hms & _) & Ht & Hr & _). split_and!; [done | |]; intros x Hx; simpl; [apply Hr | apply Ht]; rewrite range_of_pages by done; tauto.
  - destruct H as [-> _]. done.
Qed.
Lemma protect_keeps address size protection b : 0 <= address -> 0 <= size ->
  exists m r, protect_pages address size protection b = (with_machine m b, r) /\ keeps_outside address size b (with_machine m b).
Proof.
  intros Ha Hs. unfold protect_pages. pose proof (pages_protect_exact bounds image_data_bounds ctr address size protection (b_machine b) Ha Hs) as H.
  destruct (pages_protect _ _ _ address size protection (b_machine b)) as [m [[] |]]; eexists m, _; (split; [done |]).
  - destruct H as (c & _ & Hw & Hr & Ht). assert (address mod PAGE = 0 /\ size mod PAGE = 0) as [Hma Hms] by (destruct Hw as [(_ & ? & ? & _) | (_ & (_ & ? & ? & _) & _)]; done).
    split_and!; [done | intros; simpl; by rewrite Hr |]. intros x Hx. simpl. rewrite Ht, decide_False; [done |]. by rewrite range_of_pages.
  - destruct H as [-> _]. done.
Qed.

(** ** Who owns what *)
Inductive MemOp :=
| Reserve (size alignment : Z) | Commit (address size : Z) | Decommit (address size : Z) | Release (address size : Z) | Reset (address size : Z)
| MapAllocate (size protection : Z) | MapRelease (address size : Z) | MapProtect (address size protection : Z).
Definition unit_result (r : Result unit) : Result Z := match r with Ok _ => Ok 0 | Err e => Err e end.
Definition mem_apply (op : MemOp) (b : Bare) : option (Bare * Result Z) :=
  match op with
  | Reserve size alignment => bare_reserve size alignment b
  | Commit a n => '(b, r) ← bare_commit a n b; Some (b, unit_result r)
  | Decommit a n => '(b, r) ← bare_decommit a n b; Some (b, unit_result r)
  | Release a n => '(b, r) ← bare_release a n b; Some (b, unit_result r)
  | Reset a n => '(b, r) ← bare_reset a n b; Some (b, unit_result r)
  | MapAllocate size protection => mapping_allocate size protection b
  | MapRelease a n => '(b, r) ← mapping_release a n b; Some (b, unit_result r)
  | MapProtect a n protection => '(b, r) ← mapping_protect a n protection b; Some (b, unit_result r)
  end.
(** The ranges that callers hold, each as address and length. *)
Implicit Types l : list (Z * Z).
Definition in_range (p : Z * Z) (x : Z) : Prop := p.1 <= x < p.1 + p.2.
Definition inside_owned l (a n : Z) : Prop := exists p, p ∈ l /\ p.1 <= a /\ a + n <= p.1 + p.2.
(** The length that a mapping call works on. *)
Definition rounded (n : Z) : Z := match page_rounded n with Ok n => n | Err _ => 0 end.
(** The contract of the [unsafe] provider functions: a caller touches only what it holds, and returns it whole. *)
Definition permitted (op : MemOp) l : Prop :=
  match op with
  | Reserve size alignment => 0 <= size /\ alignment <= u64_max
  | Commit a n | Decommit a n | Reset a n => 0 <= a /\ 0 <= n /\ inside_owned l a n
  | Release a n => (a, n) ∈ l
  | MapAllocate size _ => 0 <= size
  | MapRelease a n => 0 <= n /\ (a, rounded n) ∈ l
  | MapProtect a n _ => 0 <= a /\ 0 <= n /\ inside_owned l a (rounded n)
  end.
(** What callers hold after the call. *)
Definition after (op : MemOp) (r : Result Z) l : list (Z * Z) :=
  match op, r with
  | Reserve size _, Ok a => (a, size) :: l
  | MapAllocate size _, Ok a => (a, rounded size) :: l
  | Release a n, Ok _ => filter (fun p => p <> (a, n)) l
  | MapRelease a n, Ok _ => filter (fun p => p <> (a, rounded n)) l
  | _, _ => l
  end.
(** The range that the call works on. *)
Definition target (op : MemOp) (r : Result Z) : Z * Z :=
  match op, r with
  | Reserve size _, Ok a => (a, size)
  | MapAllocate size _, Ok a => (a, rounded size)
  | (Commit a n | Decommit a n | Release a n), _ => (a, n)
  | (MapRelease a n | MapProtect a n _), _ => (a, rounded n)
  | _, _ => (0, 0)
  end.
Definition total l : Z := foldr (fun p s => p.2 + s) 0 l.
Lemma filter_absent (q : Z * Z) l : q ∉ l -> filter (fun p => p <> q) l = l.
Proof.
  induction l as [| p l IH]; intros Hq; [done |]. apply not_elem_of_cons in Hq as [Hne Hq]. rewrite filter_cons, decide_True by congruence. by rewrite IH.
Qed.
Lemma total_without a n l : NoDup l -> (a, n) ∈ l -> total (filter (fun p => p <> (a, n)) l) = total l - n.
Proof.
  induction l as [| p l IH]; [by intros _ ?%elem_of_nil |]. intros [Hp Hnd]%NoDup_cons Hin. rewrite filter_cons. destruct (decide (p = (a, n))) as [-> |].
  - rewrite decide_False by tauto. rewrite filter_absent by done. simpl. lia.
  - rewrite decide_True by done. simpl. rewrite IH; [lia | done |]. apply elem_of_cons in Hin as [<- | ?]; done.
Qed.
(** Every byte of the allocatable RAM is free or belongs to exactly one holder. *)
Record owned (b : Bare) l : Prop := {
  ow_ok : mem_ok b;
  ow_nodup : NoDup l;
  ow_within : forall p, p ∈ l -> pages_within p.1 p.2 bounds;
  ow_apart : forall p q x, p ∈ l -> q ∈ l -> in_range p x -> in_range q x -> p = q;
  ow_taken : forall p x, p ∈ l -> in_range p x -> ~ is_free b x;
  ow_all : forall x, low <= x < high -> is_free b x \/ exists p, p ∈ l /\ in_range p x;
  ow_total : mem_available b + total l = high - low;
}.
Lemma owned_granted n alignment a b b' l : owned b l -> granted n alignment a b b' -> owned b' ((a, n) :: l).
Proof.
  intros Ho Hg. assert (forall p x, p ∈ l -> in_range p x -> ~ a <= x < a + n) as Hap.
  { intros p x Hp Hx Hin. apply (ow_taken _ _ Ho p x Hp Hx). by apply (gr_was_free _ _ _ _ _ Hg). }
  pose proof (gr_within _ _ _ _ _ Hg) as (Hpos & _). constructor.
  - apply (gr_ok _ _ _ _ _ Hg).
  - constructor; [| apply (ow_nodup _ _ Ho)]. intros Hin. apply (Hap (a, n) a Hin); unfold in_range; simpl; lia.
  - intros p [-> | Hp]%elem_of_cons; [apply (gr_within _ _ _ _ _ Hg) | by apply (ow_within _ _ Ho)].
  - intros p q x [-> | Hp]%elem_of_cons [-> | Hq]%elem_of_cons Hpx Hqx; [done | by destruct (Hap q x) | by destruct (Hap p x) | by eapply (ow_apart _ _ Ho)].
  - intros p x [-> | Hp]%elem_of_cons Hx [Hf Hno]%(gr_free _ _ _ _ _ Hg); [done | by apply (ow_taken _ _ Ho p x)].
  - intros x Hx. destruct (decide (a <= x < a + n)); [right; exists (a, n); split; [left | done] |].
    destruct (ow_all _ _ Ho x Hx) as [Hf | (p & Hp & Hpx)]; [left; by apply (gr_free _ _ _ _ _ Hg) | right; exists p; split; [by right | done]].
  - simpl. rewrite <- (ow_total _ _ Ho). unfold mem_available.
    rewrite (available_cut _ _ a n (mo_region _ (ow_ok _ _ Ho)) (mo_region _ (gr_ok _ _ _ _ _ Hg)) Hpos (gr_was_free _ _ _ _ _ Hg) (gr_free _ _ _ _ _ Hg)). lia.
Qed.
Lemma owned_given a n b b' l : owned b l -> (a, n) ∈ l -> mem_ok b' -> (forall x, is_free b' x <-> is_free b x \/ a <= x < a + n) ->
  owned b' (filter (fun p => p <> (a, n)) l).
Proof.
  intros Ho Hin Hok Hfree. constructor; [done | apply NoDup_filter, (ow_nodup _ _ Ho) | | | | |].
  - intros p [_ Hp]%list_elem_of_filter. by apply (ow_within _ _ Ho).
  - intros p q x [_ Hp]%list_elem_of_filter [_ Hq]%list_elem_of_filter. by apply (ow_apart _ _ Ho).
  - intros p x [Hne Hp]%list_elem_of_filter Hx [Hf | Hr]%Hfree; [by apply (ow_taken _ _ Ho p x) |]. apply Hne. by apply (ow_apart _ _ Ho p (a, n) x).
  - intros x Hx. rewrite Hfree. destruct (decide (a <= x < a + n)); [by left; right |].
    destruct (ow_all _ _ Ho x Hx) as [? | (p & Hp & Hpx)]; [by left; left | right]. exists p. split; [| done]. apply list_elem_of_filter. split; [by intros -> | done].
  - rewrite (total_without a n l (ow_nodup _ _ Ho) Hin), <- (ow_total _ _ Ho). unfold mem_available.
    rewrite (available_cut _ _ a n (mo_region _ Hok) (mo_region _ (ow_ok _ _ Ho))); [lia | apply (ow_within _ _ Ho _ Hin) | intros x Hx; apply Hfree; by right |].
    intros x. change (free (live (b_region b')) x) with (is_free b' x). rewrite Hfree. split; [| tauto]. intros Hx. split; [by left |].
    intros Hr. by apply (ow_taken _ _ Ho (a, n) x).
Qed.
Lemma owned_machine b m a n l : owned b l -> keeps_outside a n b (with_machine m b) -> inside_owned l a n -> owned (with_machine m b) l.
Proof.
  intros Ho Hko (p & Hp & Hl & Hr). constructor; try apply Ho. eapply mem_ok_machine; [apply Ho | done |].
  intros x Hx. apply (ow_taken _ _ Ho p x Hp). unfold in_range. lia.
Qed.
Lemma memory_step op b l : owned b l -> permitted op l ->
  exists b' r, mem_apply op b = Some (b', r) /\ owned b' (after op r l) /\ keeps_outside (target op r).1 (target op r).2 b b'.
Proof.
  intros Ho Hp. pose proof (ow_ok _ _ Ho) as Hok. assert (forall a n, keeps_outside a n b b) as Hsame by done.
  assert (forall a n, (a, n) ∈ l -> exists b' (r : bool), mem_give a n b = Some (b', r) /\ keeps_outside a n b b' /\ owned b' (if r then filter (fun p => p <> (a, n)) l else l)) as Hgive.
  { intros a n Hin. destruct (within_nonneg a n (ow_within _ _ Ho _ Hin)). pose proof (mem_give_spec a n b Hok ltac:(lia) ltac:(lia)) as Hg.
    destruct (mem_give a n b) as [[b' []] |]; [| subst b'; by exists b, false | done]. destruct Hg as (_ & _ & Hfree & Hko & _ & Hok'). exists b', true. split_and!; [done | done |]. by apply (owned_given a n b b'). }
  destruct op as [size alignment | a n | a n | a n | a n | size protection | a n | a n protection]; simpl in Hp |- *.
  - pose proof (bare_reserve_spec size alignment b Hok (proj1 Hp) (proj2 Hp)) as H. destruct (bare_reserve size alignment b) as [[b' [a | e]] |]; [| | done]; eexists b', _; (split; [done |]).
    + destruct H as [Hg _]. split; [by eapply owned_granted | apply (gr_outside _ _ _ _ _ Hg)].
    + destruct H as (_ & -> & _). done.
  - destruct Hp as (Ha & Hn & Hi). destruct (commit_keeps a n b Ha Hn) as (m & r & -> & Hko). eexists _, _. split; [done |]. split; [by eapply owned_machine | done].
  - destruct Hp as (Ha & Hn & Hi). unfold bare_decommit. destruct (protect_keeps a n 0 b Ha Hn) as (m & r & -> & Hko). eexists _, _. split; [done |]. split; [by eapply owned_machine | done].
  - destruct (Hgive a n Hp) as (b' & r & Hg & Hko & Hown). unfold bare_release. rewrite Hg. eexists _, _. split; [done |]. by destruct r.
  - eexists _, _. split; [done |]. split; [done | apply Hsame].
  - pose proof (mapping_allocate_spec size protection b Hok Hp) as H. unfold rounded. destruct (mapping_allocate size protection b) as [[b' [a | e]] |]; [| | done]; eexists b', _; (split; [done |]).
    + destruct H as (n & c & Hn & _ & Hg & _). simpl. rewrite Hn. split; [by eapply owned_granted | apply (gr_outside _ _ _ _ _ Hg)].
    + destruct H as [-> _]. done.
  - destruct Hp as [Hn Hin]. unfold mapping_release, rounded in *. destruct (page_rounded n) as [k |]; [| destruct (ow_within _ _ Ho _ Hin); done].
    destruct (Hgive a k Hin) as (b' & r & Hg & Hko & Hown). rewrite Hg. eexists _, _. split; [done |]. by destruct r.
  - destruct Hp as (Ha & Hn & Hi). unfold mapping_protect, rounded in *. pose proof (page_rounded_spec n Hn) as Hr. destruct (page_rounded n) as [k |]; [| eexists _, _; split; [done | split; [done | apply Hsame]]].
    destruct (protect_keeps a k protection b Ha ltac:(lia)) as (m & r & -> & Hko). eexists _, _. split; [done |]. split; [by eapply owned_machine | done].
Qed.

(** ** From boot on *)
Lemma mem_init_owned b : exists b', mem_init b = Some (b', tt) /\ owned b' [] /\ b_heap b' = b_heap b.
Proof.
  pose proof bounds_spec as (Hb1 & Hb2 & Hml & Hmh). pose proof bounds_small as [Hb0 Hb3]. assert (pages_within low (high - low) bounds) as Hw.
  { unfold pages_within. fold low high. split_and!; try lia. rewrite Zminus_mod, Hml, Hmh. done. }
  unfold mem_init. destruct bounds as [start finish] eqn:Hbounds. assert (start = low /\ finish = high) as [-> ->] by (unfold low, high; by rewrite Hbounds).
  rewrite (proj2 (Z.ltb_ge high low)) by lia.
  assert (can_give low (high - low) region_new = true) as Hcan.
  { apply can_give_spec; [lia |]. split_and!; [lia | lia | by intros e ?%elem_of_nil | right; simpl; unfold MAX_EXTENTS; lia]. }
  destruct (give_accepted region_new low (high - low) region_new_ok ltac:(unfold RAM_START in *; lia) Hcan ltac:(lia)) as (r & -> & Hr & Hfree).
  cbn [mbind option_bind negb]. rewrite <- Hbounds in Hw.
  destruct (protect_within low (high - low) 0 0 (with_region r b) ltac:(unfold RAM_START in *; lia) Hw eq_refl) as (m & -> & Hko & _ & Ht).
  set (b' := with_machine m (with_region r b)). assert (forall x, is_free b' x <-> low <= x < high) as Hf.
  { intros x. unfold is_free. simpl. rewrite Hfree. replace (low + (high - low)) with high by lia. unfold live. simpl. rewrite free_nil. tauto. }
  exists b'. split_and!; [done | | done]. constructor; [| by apply NoDup_nil | by intros ? ?%elem_of_nil | by intros ? ? ? ?%elem_of_nil | by intros ? ? ?%elem_of_nil | intros x; left; by apply Hf |].
  - constructor; [done | apply Hf | |].
    + intros x y Hp Hx%Hf. apply Hf. rewrite <- (Z.sub_add low high) in Hx |- *. replace (high - low + low) with (low + (high - low)) in * by lia.
      destruct Hw as (_ & Hm1 & Hm2 & _). by rewrite <- (range_same_page low (high - low) x y).
    + intros x Hx%Hf. unfold page_valid. simpl. rewrite Ht by lia. done.
  - simpl. assert (live r = [mkExtent low high]) as Hl.
    { apply extents_canonical; [apply Hr | apply extents_ok_single; split; simpl; lia |].
      intros x. rewrite Hfree, free_cons, free_nil. unfold live, inside. simpl. rewrite free_nil. lia. }
    unfold mem_available, region_available. simpl. rewrite Hl. simpl. lia.
Qed.
(** The states that the callers of a booted machine can reach, with what they hold. *)
Inductive mem_reach : Bare -> list (Z * Z) -> Prop :=
| reach_boot b b' : mem_init b = Some (b', tt) -> mem_reach b' []
| reach_call b l op b' r : mem_reach b l -> permitted op l -> mem_apply op b = Some (b', r) -> mem_reach b' (after op r l).
Lemma reach_owned b l : mem_reach b l -> owned b l.
Proof.
  induction 1 as [b b' Hi | b l op b' r Hr IH Hp Ha].
  - destruct (mem_init_owned b) as (b1 & Hi' & Ho & _). rewrite Hi in Hi'. by injection Hi' as <-.
  - destruct (memory_step op b l IH Hp) as (b1 & r1 & Ha1 & Ho & _). rewrite Ha in Ha1. by injection Ha1 as <- <-.
Qed.
(** C5: on a booted machine, whatever callers do within their contract, every byte of the allocatable RAM is free or has
    exactly one holder, the free bytes and the held bytes add up to the whole region, and no free page can be accessed. *)
Theorem memory_reachable b l : mem_reach b l -> 
  (forall x, low <= x < high -> is_free b x \/ exists p, p ∈ l /\ in_range p x) /\
  (forall p q x, p ∈ l -> q ∈ l -> in_range p x -> in_range q x -> p = q) /\
  (forall p x, p ∈ l -> in_range p x -> ~ is_free b x) /\
  mem_available b + total l = high - low /\ forall x, is_free b x -> page_valid b (page_of x) = false.
Proof.
  intros Ho%reach_owned.
  split_and!; [apply Ho | apply Ho | apply Ho | apply Ho | apply (mo_dark _ (ow_ok _ _ Ho))].
Qed.
(** No call that a holder may make interferes with another holder: on a booted machine it returns without a panic
    (no assertion of the port fires), and changes neither bytes nor permissions outside the range it works on. *)
Theorem memory_isolated b l op : mem_reach b l -> permitted op l ->
  exists b' r, mem_apply op b = Some (b', r) /\ mem_reach b' (after op r l) /\
  forall p x, p ∈ l -> in_range p x -> ~ in_range (target op r) x ->
    ram (b_machine b') x = ram (b_machine b) x /\ table (b_machine b') (page_of x) = table (b_machine b) (page_of x).
Proof.
  intros Hr Hp. destruct (memory_step op b l (reach_owned _ _ Hr) Hp) as (b' & r & Ha & _ & (_ & Hram & Htab)). exists b', r. split_and!; [done | by econstructor |].
  intros p x _ _ Hx. split; [by apply Hram | by apply Htab].
Qed.

(** ** Behind the C front end *)
(** The provider as the front end sees it; a machine that has panicked runs nothing any more. *)
Definition running {A} (c : Call (Result A)) : M (option Bare) Error A := fun s =>
  match s with
  | None => (None, Err EOs)
  | Some b => match c b with None => (None, Err EOs) | Some (b', r) => (Some b', r) end
  end.
#[local] Instance bare_vm : VirtualMemory (option Bare) := {|
  vm_PROVIDED := true; vm_page_size := PAGE; vm_reserve := fun n a => running (bare_reserve n a); vm_commit := fun a n => running (bare_commit a n);
  vm_decommit := fun a n => running (bare_decommit a n); vm_release := fun a n => running (bare_release a n); vm_reset := fun a n => running (bare_reset a n) |}.
#[local] Existing Instance arch64.
(** The C function [vm.reserve] over the bare-metal port.  With a usable output cell it succeeds or fails as the port
    does: on success the cell holds the start of a fresh range of at least the asked size at the asked alignment, which
    nobody else holds and which cannot be accessed before it is committed; otherwise the request was invalid or no free
    range fits it (or the extents are used up), and the memory is as before. *)
Theorem bare_reserve_served b l size alignment out f f' st : owned b l -> provider f = Some b -> 0 <= size <= usize_max -> 0 <= alignment <= usize_max ->
  aligned_output align_of_usize out = true -> reserve size alignment 0 out f = (f', st) ->
  if decide (st = OK) then exists b' a n, provider f' = Some b' /\ cells f' !! out = Some a /\ size <= n /\ (alignment <> 0 -> a mod alignment = 0) /\
    (forall x, a <= x < a + n -> is_free b x /\ page_valid b' (page_of x) = false) /\ owned b' ((a, n) :: l)
  else provider f' = Some b /\ cells f' !! out = Some 0 /\
    match geometry size alignment PAGE with None => st = INVALID_ARGUMENT | Some (n, al) => st = OUT_OF_MEMORY /\ unavailable n al b end.
Proof.
  intros Ho Hf Hs Hal Hout. unfold reserve. rewrite Hout. cbn [negb Z.eqb]. change vm_page_size with PAGE. destruct (geometry size alignment PAGE) as [[n al] |] eqn:Hg.
  2: { intros [= <- <-]. rewrite decide_False by done. split_and!; [done | by simplify_map_eq | done]. }
  pose proof (geometry_Some _ _ _ _ _ Hs Hal Hg) as (Hn & Hnm & Hpa & Hale & Hpow & Hmax). assert (isize_max = 9223372036854775807 /\ u64_max = 18446744073709551615) as [Hi Hu] by done.
  assert (al <= u64_max) as Hle by (unfold PAGE in *; lia). pose proof (bare_reserve_spec n al b (ow_ok _ _ Ho) ltac:(lia) Hle) as Hres.
  unfold call, vm_reserve. cbn [bare_vm]. unfold running at 1. cbn [provider write_cell]. rewrite Hf.
  destruct (bare_reserve n al b) as [[b' [a | e]] |]; [| | done].
  - destruct Hres as (Hgr & _ & Hdark). pose proof (gr_aligned _ _ _ _ _ Hgr) as Ham. pose proof (gr_within _ _ _ _ _ Hgr) as (_ & _ & _ & Hlo & Hhi & _). pose proof bounds_small as [? Hh].
    fold low in Hlo. fold high in Hhi. assert (0 < a) by (pose proof bounds_spec as [? _]; unfold RAM_START in *; lia).
    rewrite (proj2 (Z.eqb_neq a 0)), Ham by lia. cbn [negb Z.eqb orb].
    replace (checked_add usize_max a n) with (Some (a + n)) by (symmetry; apply checked_add_Some; change usize_max with u64_max; lia).
    intros [= <- <-]. rewrite decide_True by done. exists b', a, n. split_and!; [done | by simplify_map_eq | lia | | |].
    + intros Hne. apply (multiple_of_smaller alignment al); [done | | done | done]. unfold geometry in Hg. destruct (round_size size PAGE); [| done].
      rewrite (proj2 (Z.eqb_neq _ _) Hne) in Hg. by destruct (is_power_of_two alignment).
    + intros x Hx. split; [by apply (gr_was_free _ _ _ _ _ Hgr) | by apply Hdark].
    + by eapply owned_granted.
  - destruct Hres as (-> & -> & Hun). intros [= <- <-]. rewrite decide_False by done. split_and!; [done | by simplify_map_eq | done | done].
Qed.
End Memory.

(** ** Witnesses *)
Module MemorySample.
(** A small machine: four pages behind the image. *)
Definition hs : Z := 1075838976.
Definition he : Z := hs + 16384.
Definition image : Z * Z := (0, 0).
Definition power_on : Bare := mkBare region_new (mkMachine (fun _ => 0) (fun _ => 7) []) (0, 0).
Definition booted : Bare := default power_on (fst <$> mem_init hs he image 0 power_on).
Definition reserved : Bare := default power_on (fst <$> mem_apply hs he image 0 (Reserve 8192 4096) booted).
Lemma sample_layout : RAM_START <= hs /\ hs + 2 * PAGE <= he /\ he <= RAM_START + RAM_PAGES * PAGE.
Proof. by vm_compute. Qed.
Lemma sample_reach : mem_reach hs he image 0 reserved [(hs, 8192)].
Proof.
  apply (reach_call hs he image 0 booted [] (Reserve 8192 4096) reserved (Ok hs)); [| by vm_compute | by vm_compute].
  apply (reach_boot hs he image 0 power_on). by vm_compute.
Qed.
#[local] Opaque booted reserved.
Lemma memory_reachable_witness : mem_available reserved + 8192 = 16384 /\ ~ is_free reserved hs.
Proof.
  destruct (memory_reachable hs he image 0 sample_layout reserved [(hs, 8192)] sample_reach) as (_ & _ & Ht & Hs & _). split; [exact Hs |].
  apply (Ht (hs, 8192) hs); [left |]. unfold in_range. simpl. lia.
Defined.
Lemma memory_isolated_witness : exists b' r, mem_apply hs he image 0 (Commit hs 4096) reserved = Some (b', r) /\
  ram (b_machine b') (hs + 5000) = ram (b_machine reserved) (hs + 5000).
Proof.
  destruct (memory_isolated hs he image 0 sample_layout reserved [(hs, 8192)] (Commit hs 4096) sample_reach) as (b' & r & Ha & _ & Hi).
  { split_and!; [by vm_compute | by vm_compute |]. exists (hs, 8192). split_and!; [left | by vm_compute | by vm_compute]. }
  exists b', r. split; [done |]. apply (Hi (hs, 8192)); [left | by vm_compute |]. simpl. unfold in_range. simpl. lia.
Defined.
Definition front : Front (option Bare) := mkFront (fun _ => 0) ∅ (Some reserved).
Lemma front_provider : provider front = Some reserved.
Proof. done. Qed.
Lemma bare_reserve_served_witness : let '(f', st) := @reserve arch64 _ (bare_vm hs he image 0) 5000 8192 0 64 front in
  st = OK /\ exists b' a n, provider f' = Some b' /\ cells f' !! 64 = Some a /\ 5000 <= n /\ a mod 8192 = 0.
Proof.
  destruct (@reserve arch64 _ (bare_vm hs he image 0) 5000 8192 0 64 front) as [f' st] eqn:Hr. assert (st = OK) as -> by (vm_compute in Hr; by injection Hr as _ <-).
  pose proof (bare_reserve_served hs he image 0 sample_layout reserved [(hs, 8192)] 5000 8192 64 front f' OK) as H.
  specialize (H (reach_owned hs he image 0 sample_layout _ _ sample_reach)).
  specialize (H front_provider).
  assert (@usize_max arch64 = 18446744073709551615) as Hmax by by vm_compute.
  specialize (H ltac:(rewrite Hmax; lia) ltac:(rewrite Hmax; lia) eq_refl Hr).
  rewrite decide_True in H by done. destruct H as (b' & a & n & Hp & Hc & Hn & Ha & _). split; [done |]. exists b', a, n. split_and!; [done | done | done | by apply Ha].
Defined.
End MemorySample.
