(* ===== verification/Allocator.v ===== *)
(** * Allocator.v: what a native heap promises

    The contract of [port::NativeHeap] ([src/src/port.rs]) as its callers see it: a heap is a map from the addresses that
    are held to their bytes.  [heap_spec] says which answers and which new maps a call allows; [NativeHeap] is the
    interface that the heap of the bare-metal port ([Heap.v]) and the one of the standard-library ports ([StdCommon.v])
    implement, and what callers rely on is proved against it. *)
From S2P Require Import Prelude Port.
Local Open Scope Z_scope.

(** Addresses are multiples of this. *)
Definition HEAP_ALIGN : Z := 16.
Abbreviation Held := (gmap Z (list Z)).
(** What callers do: the operations of [NativeHeap], and writing the bytes of a block they hold. *)
Inductive HeapOp :=
| HAllocate (size : Z) (zero_it : bool)
| HResize (address size : Z)
| HRelease (address : Z)
| HWrite (address : Z) (bs : list Z).
(** Callers pass sizes up to a limit, null or what they hold, and write inside their blocks. *)
Definition heap_permitted (limit : Z) (op : HeapOp) (h : Held) : Prop :=
  match op with
  | HAllocate size _ => 0 <= size <= limit
  | HResize address size => 0 <= size <= limit /\ (address = 0 \/ is_Some (h !! address))
  | HRelease address => address = 0 \/ is_Some (h !! address)
  | HWrite address bs => exists old, h !! address = Some old /\ lenZ bs <= lenZ old
  end.
(** The bytes that a resize keeps. *)
Definition kept (old : list Z) (size : Z) (bs : list Z) : Prop := takeZ (Z.min (lenZ old) size) bs = takeZ (Z.min (lenZ old) size) old.
Lemma kept_prefix old size bs : takeZ (lenZ old) bs = old -> kept old size bs.
Proof.
  intros H. unfold kept. transitivity (takeZ (Z.min (lenZ old) size) (takeZ (lenZ old) bs)); [| by rewrite H]. unfold takeZ. rewrite take_take. f_equal. lia.
Qed.
Inductive heap_spec (h : Held) : HeapOp -> Result Z -> Held -> Prop :=
| spec_allocate size zero_it p bs : 0 < p -> p mod HEAP_ALIGN = 0 -> h !! p = None -> size <= lenZ bs -> (zero_it = true -> bs = zeros (lenZ bs)) ->
    heap_spec h (HAllocate size zero_it) (Ok p) (<[p := bs]> h)
| spec_full size zero_it : heap_spec h (HAllocate size zero_it) (Err EOutOfMemory) h
| spec_resize p old size q bs : h !! p = Some old -> 0 < q -> q mod HEAP_ALIGN = 0 -> delete p h !! q = None -> size <= lenZ bs -> kept old size bs ->
    heap_spec h (HResize p size) (Ok q) (<[q := bs]> (delete p h))
| spec_resize_full p old size : h !! p = Some old -> heap_spec h (HResize p size) (Err EOutOfMemory) h
| spec_resize_null size r h' : heap_spec h (HAllocate size false) r h' -> heap_spec h (HResize 0 size) r h'
| spec_release p old : h !! p = Some old -> heap_spec h (HRelease p) (Ok 0) (delete p h)
| spec_release_null : heap_spec h (HRelease 0) (Ok 0) h
| spec_write p old bs : h !! p = Some old -> lenZ bs <= lenZ old -> heap_spec h (HWrite p bs) (Ok 0) (<[p := bs ++ dropZ (lenZ bs) old]> h).

(** A heap: it answers every permitted call, as the contract says. *)
Class NativeHeap (S : Type) := {
  nh_apply : HeapOp -> S -> option (S * Result Z);
  nh_limit : Z;
  nh_holds : S -> Held -> Prop;
  nh_refines s h op : nh_holds s h -> heap_permitted nh_limit op h ->
    exists s' r h', nh_apply op s = Some (s', r) /\ nh_holds s' h' /\ heap_spec h op r h';
}.

(** ** What callers rely on *)
Definition names (p : Z) (op : HeapOp) : bool :=
  match op with HResize a _ | HRelease a | HWrite a _ => bool_decide (a = p) | HAllocate _ _ => false end.
(** A call that does not name a block leaves its bytes. *)
Lemma spec_other h op r h' p bs : heap_spec h op r h' -> h !! p = Some bs -> names p op = false -> h' !! p = Some bs.
Proof.
  intros Hs. revert p bs. induction Hs as [size z q b Hq Hqa Hn Hl Hz | size z | q old size q' b Ho Hq Hqa Hn Hl Hk | q old size Ho | size r h' Hs IH | q old Ho | | q old b Ho Hl]; intros p bs Hp Hno; cbn [names] in Hno; try done.
  - rewrite lookup_insert_ne; [done | congruence].
  - apply bool_decide_eq_false in Hno. assert (q' <> p) by (intros ->; rewrite lookup_delete_ne in Hn by done; congruence). by rewrite lookup_insert_ne, lookup_delete_ne.
  - by apply IH.
  - apply bool_decide_eq_false in Hno. by rewrite lookup_delete_ne.
  - apply bool_decide_eq_false in Hno. by rewrite lookup_insert_ne.
Qed.
Section Clients.
Context {S : Type} `{NativeHeap S}.
(** A run of permitted calls, with their answers. *)
Inductive nh_run (s : S) (h : Held) : list (HeapOp * Result Z) -> S -> Held -> Prop :=
| run_nil : nh_run s h [] s h
| run_cons op s1 r h1 l s' h' : heap_permitted nh_limit op h -> nh_apply op s = Some (s1, r) -> nh_holds s1 h1 -> heap_spec h op r h1 -> nh_run s1 h1 l s' h' -> nh_run s h ((op, r) :: l) s' h'.
Lemma run_other s h l s' h' p bs : nh_run s h l s' h' -> h !! p = Some bs -> Forall (fun c => names p c.1 = false) l -> h' !! p = Some bs.
Proof.
  intros Hrun. revert p bs. induction Hrun as [| s h op s1 r h1 l s' h' _ _ _ Hs _ IH]; intros p bs Hp Hall; [done |]. apply Forall_cons in Hall as [Hn Hall]. apply IH; [by eapply spec_other | done].
Qed.
Lemma run_holds s h l s' h' : nh_run s h l s' h' -> nh_holds s h -> nh_holds s' h'.
Proof. induction 1; auto. Qed.
(** What a caller of any native heap may rely on.  A permitted call always returns; an allocation that succeeds gives a block that nobody holds, and whatever other calls follow, in any order and number, that do not name the block, its bytes stay as they are until it is named, and releasing it then succeeds and removes it alone. *)
Theorem block_is_private s h size zero_it : nh_holds s h -> 0 <= size <= nh_limit ->
  exists s1 r, nh_apply (HAllocate size zero_it) s = Some (s1, r) /\
  match r with
  | Err e => e = EOutOfMemory /\ nh_holds s1 h
  | Ok p => exists bs, h !! p = None /\ p <> 0 /\ size <= lenZ bs /\ (zero_it = true -> bs = zeros (lenZ bs)) /\ nh_holds s1 (<[p := bs]> h) /\
      forall l s2 h2, nh_run s1 (<[p := bs]> h) l s2 h2 -> Forall (fun c => names p c.1 = false) l ->
      h2 !! p = Some bs /\ exists s3, nh_apply (HRelease p) s2 = Some (s3, Ok 0) /\ nh_holds s3 (delete p h2)
  end.
Proof.
  intros Hh Hs. destruct (nh_refines s h (HAllocate size zero_it) Hh Hs) as (s1 & r & h1 & Ha & Hh1 & Hspec). exists s1, r. split; [done |].
  inversion Hspec as [? ? p bs Hp Hpa Hn Hl Hz | | | | | | |]; subst; [| done]. exists bs. split_and!; try done; [lia |]. intros l s2 h2 Hrun Hall.
  assert (h2 !! p = Some bs) as Hp2 by (eapply run_other; [done | apply lookup_insert_eq | done]). split; [done |].
  destruct (nh_refines s2 h2 (HRelease p) (run_holds _ _ _ _ _ Hrun Hh1)) as (s3 & r & h3 & Hr & Hh3 & Hspec3); [right; by exists bs |].
  inversion Hspec3 as [| | | | | ? old Ho | |]; subst; [by exists s3 | lia].
Qed.
End Clients.
