(* ===== verification/Heap.v ===== *)
(** * Heap.v: the native heap of the bare-metal port

    [NativeHeap] and the global allocator of [src/examples/baremetal-aarch64/src/memory.rs]: one slice of the region holds
    a list of blocks, each a 16-byte header (payload bytes, free flag) and its payload; first fit, with free neighbours
    merged during the search.  The headers lie in the same bytes of RAM as the payloads.  [chain] relates the bytes to
    the list of blocks, [used] are the blocks that callers hold. *)
From S2P Require Import Prelude Port Extents Pages Memory Allocator.
Local Open Scope Z_scope.

Definition NATIVE_HEAP_BYTES : Z := 64 * 1024 * 1024.
Definition HEADER : Z := 16.
Definition GRAIN : Z := 16.
Record Block := mkBlock { k_size : Z; k_free : Z }.

(** ** Words in RAM, little endian *)
Definition load64 (m : Z -> Z) (a : Z) : Z := foldr (fun k n => m (a + Z.of_nat k) + 256 * n) 0 (seq 0 8).
Definition store64 (m : Z -> Z) (a v : Z) : Z -> Z := fun x => if (a <=? x) && (x <? a + 8) then v / 256 ^ (x - a) mod 256 else m x.
(** [header(address).read()], [header(address).write(block)] *)
Definition read_block (m : Z -> Z) (a : Z) : Block := mkBlock (load64 m a) (load64 m (a + 8)).
Definition write_block (m : Z -> Z) (a : Z) (k : Block) : Z -> Z := store64 (store64 m a (k_size k)) (a + 8) (k_free k).
Definition with_ram (f : (Z -> Z) -> Z -> Z) (b : Bare) : Bare :=
  with_machine (mkMachine (table (b_machine b)) (f (ram (b_machine b))) (log (b_machine b))) b.
Definition ram_of (b : Bare) : Z -> Z := ram (b_machine b).

(** ** Operations *)
(** The inner loop of [allocate]: merges the free blocks that follow; [size] is [current.size]. *)
Fixpoint merge (fuel : nat) (address size finish : Z) (m : Z -> Z) : (Z -> Z) * Z :=
  match fuel with
  | O => (m, size)
  | S fuel =>
      let next := address + HEADER + size in
      if finish <=? next then (m, size) else
      let following := read_block m next in
      if negb (k_free following =? 1) then (m, size) else
      let size := size + (HEADER + k_size following) in
      merge fuel address size finish (write_block m address (mkBlock size 1))
  end.
(** The block that is found becomes used; the tail is split off when it can hold a block. *)
Definition split (address size wanted : Z) (m : Z -> Z) : (Z -> Z) * Z :=
  if wanted + HEADER + GRAIN <=? size then
    let m := write_block m (address + HEADER + wanted) (mkBlock (size - wanted - HEADER) 1) in
    (write_block m address (mkBlock wanted 0), wanted)
  else (write_block m address (mkBlock size 0), size).
(** The outer loop: the payload address and size of the block taken. *)
Fixpoint search (fuel : nat) (address finish wanted : Z) (m : Z -> Z) : (Z -> Z) * option (Z * Z) :=
  match fuel with
  | O => (m, None)
  | S fuel =>
      if address <? finish then
        let current := read_block m address in
        if k_free current =? 1 then
          let '(m, size) := merge (Z.to_nat ((finish - address) / HEADER)) address (k_size current) finish m in
          if wanted <=? size then
            let '(m, size) := split address size wanted m in (m, Some (address + HEADER, size))
          else search fuel (address + (HEADER + size)) finish wanted m
        else search fuel (address + (HEADER + k_size current)) finish wanted m
      else (m, None)
  end.
Section Heap.
Context (heap_start heap_end : Z) (image_data_bounds : Z * Z) (ctr : Z).
Abbreviation take_pages := (mem_take heap_start heap_end image_data_bounds ctr).
Definition heap_ready : Call (Result (Z * Z)) := fun b =>
  if (b_heap b).1 =? 0 then
    '(b, taken) ← take_pages NATIVE_HEAP_BYTES PAGE b;
    match taken with
    | None => Some (b, Err EOutOfMemory)
    | Some start =>
        let b := with_ram (fun m => write_block m start (mkBlock (NATIVE_HEAP_BYTES - HEADER) 1)) b in
        let heap := (start, start + NATIVE_HEAP_BYTES) in
        Some (mkBare (b_region b) (b_machine b) heap, Ok heap)
    end
  else Some (b, Ok (b_heap b)).
Definition heap_allocate (size : Z) (zero_it : bool) : Call (Result Z) := fun b =>
  '(b, ready) ← heap_ready b;
  match ready with
  | Err e => Some (b, Err e)
  | Ok (start, finish) =>
      let wanted := mem_round_up size GRAIN in
      let '(m, found) := search (Z.to_nat ((finish - start) / HEADER + 1)) start finish wanted (ram_of b) in
      let b := with_ram (fun _ => m) b in
      match found with
      | None => Some (b, Err EOutOfMemory)
      | Some (payload, size) => Some (if zero_it then mem_zero payload size b else b, Ok payload)
      end
  end.
(** The checks that [resize] and [release] make on the address of a block. *)
Definition heap_owns (block : Z) (heap : Z * Z) : bool :=
  negb ((block <? heap.1 + HEADER) || (heap.2 <=? block) || negb (block mod GRAIN =? 0)).
Definition heap_release (address : Z) : Call (Result unit) := fun b =>
  if address =? 0 then Some (b, Ok tt) else
  '(b, ready) ← heap_ready b;
  match ready with
  | Err e => Some (b, Err e)
  | Ok heap =>
      if negb (heap_owns address heap) then Some (b, Err EInvalidArgument) else
      let current := read_block (ram_of b) (address - HEADER) in
      if negb (k_free current =? 0) then Some (b, Err EInvalidArgument) else
      Some (with_ram (fun m => write_block m (address - HEADER) (mkBlock (k_size current) 1)) b, Ok tt)
  end.
(** [ptr::copy_nonoverlapping(from, to, n)] *)
Definition copy_bytes (from to n : Z) (m : Z -> Z) : Z -> Z := fun x => if (to <=? x) && (x <? to + n) then m (from + (x - to)) else m x.
Definition heap_resize (address size : Z) : Call (Result Z) := fun b =>
  if address =? 0 then heap_allocate size false b else
  '(b, ready) ← heap_ready b;
  match ready with
  | Err e => Some (b, Err e)
  | Ok heap =>
      if negb (heap_owns address heap) then Some (b, Err EInvalidArgument) else
      let old := read_block (ram_of b) (address - HEADER) in
      if negb (k_free old =? 0) then Some (b, Err EInvalidArgument) else
      if mem_round_up size GRAIN <=? k_size old then Some (b, Ok address) else
      '(b, new) ← heap_allocate size false b;
      match new with
      | Err e => Some (b, Err e)
      | Ok new =>
          let b := with_ram (copy_bytes address new (Z.min (k_size old) size)) b in
          '(b, released) ← heap_release address b;
          match released with Err e => Some (b, Err e) | Ok _ => Some (b, Ok new) end
      end
  end.

(** ** The global allocator *)
Definition WORD : Z := 8.
Definition next_multiple_of (n p : Z) : Z := if n mod p =? 0 then n else n + (p - n mod p).
(** A null pointer stands for failure. *)
Definition or_null (r : Result Z) : Z := match r with Ok p => p | Err _ => 0 end.
Definition port_alloc (size align : Z) : Call Z := fun b =>
  if align <=? GRAIN then '(b, r) ← heap_allocate (Z.max size 1) false b; Some (b, or_null r) else
  match (n ← checked_add u64_max size align; checked_add u64_max n WORD) with
  | None => Some (b, 0)
  | Some total =>
      '(b, r) ← heap_allocate total false b;
      match r with
      | Err _ => Some (b, 0)
      | Ok block =>
          let aligned := next_multiple_of (block + WORD) align in
          Some (with_ram (fun m => store64 m (aligned - WORD) block) b, aligned)
      end
  end.
Definition port_dealloc (address align : Z) : Call unit := fun b =>
  let block := if align <=? GRAIN then address else load64 (ram_of b) (address - WORD) in
  '(b, _) ← heap_release block b; Some (b, tt).
Definition port_realloc (address old_size align size : Z) : Call Z := fun b =>
  if align <=? GRAIN then '(b, r) ← heap_resize address (Z.max size 1) b; Some (b, or_null r) else
  (* Layout::from_size_align refuses a size that does not fit isize when rounded up to the alignment. *)
  if i64_max - (align - 1) <? size then Some (b, 0) else
  '(b, fresh) ← port_alloc size align b;
  if fresh =? 0 then Some (b, 0) else
  '(b, _) ← port_dealloc address align (with_ram (copy_bytes address fresh (Z.min old_size size)) b);
  Some (b, fresh).
End Heap.

(** ** Words and headers in RAM *)
Lemma digits_sum v k n : 0 <= v -> foldr (fun i r => v / 256 ^ Z.of_nat i mod 256 + 256 * r) 0 (seq k n) = v / 256 ^ Z.of_nat k mod 256 ^ Z.of_nat n.
Proof.
  intros Hv. revert k. induction n as [| n IH]; intros k; [by rewrite Z.mod_1_r |]. cbn [seq foldr]. rewrite IH.
  rewrite !Nat2Z.inj_succ, !Z.pow_succ_r by lia. pose proof (Z.pow_pos_nonneg 256 (Z.of_nat k) ltac:(lia) ltac:(lia)). pose proof (Z.pow_pos_nonneg 256 (Z.of_nat n) ltac:(lia) ltac:(lia)).
  rewrite (Z.mul_comm 256 (256 ^ Z.of_nat k)), <- Z.div_div, Z.rem_mul_r by lia. lia.
Qed.
Lemma load_store_same m a v : 0 <= v <= u64_max -> load64 (store64 m a v) a = v.
Proof.
  intros Hv. unfold load64. transitivity (foldr (fun i r => v / 256 ^ Z.of_nat i mod 256 + 256 * r) 0 (seq 0 8)).
  - unfold store64. cbn [seq foldr]. rewrite !Z.add_simpl_l. repeat (rewrite (proj2 (Z.leb_le _ _)) by lia). repeat (rewrite (proj2 (Z.ltb_lt _ _)) by lia). done.
  - rewrite digits_sum by lia. change (256 ^ Z.of_nat 0) with 1. change (256 ^ Z.of_nat 8) with (u64_max + 1). rewrite Z.div_1_r. apply Z.mod_small. lia.
Qed.
Lemma store_other m a v x : ~ a <= x < a + 8 -> store64 m a v x = m x.
Proof. intros Hx. unfold store64. destruct (Z.leb_spec a x), (Z.ltb_spec x (a + 8)); simpl; done || lia. Qed.
Lemma load_ext m m' a : (forall x, a <= x < a + 8 -> m' x = m x) -> load64 m' a = load64 m a.
Proof. intros H. unfold load64. cbn [seq foldr]. rewrite !H by lia. done. Qed.
Lemma read_ext m m' a : (forall x, a <= x < a + HEADER -> m' x = m x) -> read_block m' a = read_block m a.
Proof. unfold HEADER. intros H. unfold read_block. rewrite (load_ext m m' a), (load_ext m m' (a + 8)); [done | |]; intros; apply H; lia. Qed.
Lemma write_other m a k x : ~ a <= x < a + HEADER -> write_block m a k x = m x.
Proof. unfold HEADER. intros Hx. unfold write_block. rewrite !store_other by lia. done. Qed.
Lemma read_write m a k : 0 <= k_size k <= u64_max -> 0 <= k_free k <= u64_max -> read_block (write_block m a k) a = k.
Proof.
  intros Hs Hf. unfold read_block, write_block. rewrite (load_store_same _ (a + 8)) by done.
  rewrite (load_ext (store64 m a (k_size k))) by (intros; apply store_other; lia). rewrite load_store_same by done. by destruct k.
Qed.

(** ** The list of blocks *)
(** A block as its payload size and whether it is free. *)
Definition Cell : Type := Z * bool.
Definition flag (f : bool) : Z := if f then 1 else 0.
Definition span (l : list Cell) : Z := foldr (fun c n => HEADER + c.1 + n) 0 l.
(** The bytes from [a] hold the blocks [l]. *)
Fixpoint chain (m : Z -> Z) (a : Z) (l : list Cell) : Prop :=
  match l with
  | [] => True
  | (s, f) :: l => 0 <= s /\ s mod GRAIN = 0 /\ read_block m a = mkBlock s (flag f) /\ chain m (a + (HEADER + s)) l
  end.
(** The blocks that callers hold: payload address and size. *)
Fixpoint used (a : Z) (l : list Cell) : list (Z * Z) :=
  match l with
  | [] => []
  | (s, f) :: l => (if f then [] else [(a + HEADER, s)]) ++ used (a + (HEADER + s)) l
  end.
Definition is_open (c : Cell) : Prop := c.2 = true.
(** No run of neighbouring free blocks could hold [wanted] bytes. *)
Definition exhausted (wanted : Z) (l : list Cell) : Prop := forall l1 run l2, l = l1 ++ run ++ l2 -> Forall is_open run -> span run < wanted + HEADER.

Lemma span_cons s f l : span ((s, f) :: l) = 16 + s + span l.
Proof. done. Qed.
Arguments span : simpl never.
Ltac heap_lia := rewrite ?span_cons in *; unfold HEADER, GRAIN, u64_max in *; cbn [length] in *; lia.
Lemma span_app l k : span (l ++ k) = span l + span k.
Proof. induction l as [| [s f] l IH]; cbn [app]; [done | rewrite !span_cons, IH; lia]. Qed.
Lemma chain_app m a l k : chain m a (l ++ k) <-> chain m a l /\ chain m (a + span l) k.
Proof.
  revert a. induction l as [| [s f] l IH]; intros a; cbn [app chain]; [change (span []) with 0; rewrite Z.add_0_r; tauto |]. rewrite IH.
  replace (a + (HEADER + s) + span l) with (a + span ((s, f) :: l)) by heap_lia. tauto.
Qed.
Lemma used_app a l k : used a (l ++ k) = used a l ++ used (a + span l) k.
Proof.
  revert a. induction l as [| [s f] l IH]; intros a; cbn [app used]; [change (span []) with 0; by rewrite Z.add_0_r |]. rewrite IH, <- app_assoc.
  by replace (a + (HEADER + s) + span l) with (a + span ((s, f) :: l)) by heap_lia.
Qed.
Lemma sum_multiple x y : x mod GRAIN = 0 -> y mod GRAIN = 0 -> (x + y) mod GRAIN = 0.
Proof. intros Hx Hy. by rewrite Z.add_mod, Hx, Hy by done. Qed.
Lemma chain_span m a l : chain m a l -> HEADER * Z.of_nat (length l) <= span l /\ span l mod GRAIN = 0.
Proof.
  revert a. induction l as [| [s f] l IH]; intros a; [done |]. intros (Hs & Hm & _ & [? Hl]%IH). split; [heap_lia |].
  rewrite span_cons. by repeat apply sum_multiple.
Qed.
Lemma chain_ext m m' a l : (forall x, a <= x < a + span l -> m' x = m x) -> chain m a l -> chain m' a l.
Proof.
  revert a. induction l as [| [s f] l IH]; intros a H; [done |]. intros (Hs & Hm & Hr & Hl). pose proof (chain_span _ _ _ Hl) as [Hn _].
  split_and!; [done | done | |].
  - rewrite <- Hr. apply read_ext. intros. apply H. heap_lia.
  - apply IH; [| done]. intros. apply H. heap_lia.
Qed.
(** The payload of a used block is inside the heap and follows its header. *)
Lemma used_bounds m a l p n : chain m a l -> (p, n) ∈ used a l -> a + HEADER <= p /\ p + n <= a + span l /\ 0 <= n /\ n mod GRAIN = 0 /\ (a mod GRAIN = 0 -> p mod GRAIN = 0).
Proof.
  revert a. induction l as [| [s f] l IH]; intros a; [intros _ []%not_elem_of_nil |]. intros (Hs & Hm & _ & Hl) Hin. pose proof (chain_span _ _ _ Hl) as [? _].
  cbn [used] in Hin. apply elem_of_app in Hin as [Hin | Hin].
  - destruct f; [by apply not_elem_of_nil in Hin |]. apply list_elem_of_singleton in Hin as [= -> ->]. split_and!; [lia | heap_lia | lia | done |]. intros Ha. by apply sum_multiple.
  - destruct (IH _ Hl Hin) as (? & ? & ? & ? & Hal). split_and!; [heap_lia | heap_lia | lia | done |]. intros Ha. apply Hal. by repeat apply sum_multiple.
Qed.
Lemma open_used a l : Forall is_open l -> used a l = [].
Proof. intros H. revert a. induction H as [| [s f] l Hf _ IH]; intros a; [done |]. unfold is_open in Hf. simpl in *. subst f. by rewrite IH. Qed.

(** ** The search *)
(** What stays as it was when the heap works: everything but headers and free payloads. *)
Definition same_held (a : Z) (l : list Cell) (m m' : Z -> Z) : Prop :=
  (forall x, ~ a <= x < a + span l -> m' x = m x) /\ forall p n x, (p, n) ∈ used a l -> p <= x < p + n -> m' x = m x.
Definition closed_head (l : list Cell) : Prop := match l with (_, true) :: _ => False | _ => True end.
Lemma merge_spec fuel m a s l finish : 0 <= a -> finish = a + span ((s, true) :: l) -> finish <= u64_max -> chain m a ((s, true) :: l) -> (length l <= fuel)%nat ->
  exists m' run rest, merge fuel a s finish m = (m', s + span run) /\ l = run ++ rest /\ Forall is_open run /\ closed_head rest /\
  chain m' a ((s + span run, true) :: rest) /\ forall x, ~ a <= x < a + HEADER -> m' x = m x.
Proof.
  intros Ha. revert fuel m s. induction l as [| [s2 f2] l IH]; intros fuel m s Hfin Hu Hc Hfuel.
  - exists m, [], []. change (span []) with 0 in *. rewrite Z.add_0_r. split_and!; try done. destruct fuel; [done |]. cbn [merge]. rewrite (proj2 (Z.leb_le _ _)) by (rewrite Hfin; change (span [(s, true)]) with (16 + s + 0); heap_lia). done.
  - destruct Hc as (Hs & Hm & Hr & Hc2). pose proof Hc2 as (Hs2 & Hm2 & Hr2 & Hl). pose proof (chain_span _ _ _ Hl) as [Hn Hsm].
    destruct fuel as [| fuel]; [heap_lia |]. cbn [merge]. rewrite (proj2 (Z.leb_gt _ _)) by heap_lia.
    rewrite <- Z.add_assoc, Hr2. cbn [k_free k_size]. destruct f2; cbn [flag Z.eqb negb].
    + set (m2 := write_block m a (mkBlock (s + (HEADER + s2)) 1)). assert (forall x, ~ a <= x < a + HEADER -> m2 x = m x) as Hm' by (intros; by apply write_other).
      destruct (IH fuel m2 (s + (HEADER + s2))) as (m' & run & rest & He & -> & Hopen & Hrest & Hc' & Hother); [heap_lia | done | | heap_lia |].
      { split_and!; [heap_lia | by repeat apply sum_multiple | |].
        - apply read_write; cbn [k_size k_free flag]; heap_lia.
        - apply (chain_ext m); [intros; apply Hm'; heap_lia |]. by replace (a + (HEADER + (s + (HEADER + s2)))) with (a + (HEADER + s) + (HEADER + s2)) by lia. }
      exists m', ((s2, true) :: run), rest. rewrite He. replace (s + (HEADER + s2) + span run) with (s + span ((s2, true) :: run)) in * by heap_lia.
      split_and!; try done; [by constructor |]. intros. rewrite Hother by done. by apply Hm'.
    + exists m, [], ((s2, false) :: l). change (span []) with 0. rewrite Z.add_0_r. split_and!; done.
Qed.
Definition sized (l : list Cell) : Prop := Forall (fun c => 0 <= c.1) l.
Lemma chain_sized m a l : chain m a l -> sized l.
Proof. revert a. induction l as [| [s f] l IH]; intros a; [constructor |]. intros (Hs & _ & _ & Hl). constructor; [done | by eapply IH]. Qed.
Lemma span_nonneg l : sized l -> 0 <= span l.
Proof. induction 1 as [| [s f] l Hs _ IH]; [done |]. rewrite span_cons. simpl in Hs. lia. Qed.
Lemma sized_span l : sized l -> 16 * Z.of_nat (length l) <= span l.
Proof. induction 1 as [| [s f] l Hs _ IH]; [done |]. simpl in Hs. heap_lia. Qed.
(** The last block holds at least a grain, so that every payload begins inside the heap. *)
Definition wide (l : list Cell) : Prop := match last l with None => True | Some c => GRAIN <= c.1 end.
Lemma wide_app l k : k <> [] -> wide (l ++ k) <-> wide k.
Proof. intros Hk. unfold wide. rewrite last_app. destruct (last k) eqn:Hl; [done |]. by apply last_None in Hl. Qed.
Lemma wide_span l : l <> [] -> sized l -> wide l -> 16 + GRAIN <= span l.
Proof.
  intros Hne Hs Hw. destruct l as [| [s f] l _] using rev_ind; [done |]. apply Forall_app in Hs as [Hs%span_nonneg _]. apply (proj1 (wide_app l [(s, f)] ltac:(done))) in Hw. rewrite span_app, span_cons.
  change (GRAIN <= s) in Hw. change (span []) with 0. lia.
Qed.
(** The end of the list after a change in front of it. *)
Lemma wide_behind front front' l l' : sized l -> sized l' -> span l' = span l -> (wide l -> wide l') -> (wide front -> wide front') -> wide (front ++ l) -> wide (front' ++ l').
Proof.
  intros Hl%sized_span Hl'%sized_span Hsp Hw Hf Hwide. destruct l as [| c l], l' as [| c' l']; [| change (span []) with 0 in *; heap_lia .. |].
  - rewrite app_nil_r in *. by apply Hf.
  - apply wide_app; [done |]. apply Hw. by apply (wide_app front).
Qed.
(** A run of blocks merged into one. *)
Lemma wide_run s f g run : sized run -> 0 <= s -> wide ((s, f) :: run) -> wide [(s + span run, g)].
Proof.
  intros Hs H0 Hw. assert (sized ((s, f) :: run)) as Hs' by (by constructor). pose proof (wide_span ((s, f) :: run) ltac:(done) Hs' Hw) as H. rewrite span_cons in H. change (GRAIN <= s + span run). lia.
Qed.
Lemma split_spec m a s l wanted : 0 <= a -> a + span ((s, true) :: l) <= u64_max -> chain m a ((s, true) :: l) -> 0 <= wanted <= s -> wanted mod GRAIN = 0 ->
  exists m' n tail, split a s wanted m = (m', n) /\ wanted <= n < wanted + 2 * GRAIN /\ Forall is_open tail /\ span ((n, false) :: tail) = 16 + s /\ (GRAIN <= s -> wide ((n, false) :: tail)) /\
  chain m' a ((n, false) :: tail ++ l) /\ forall x, ~ a <= x < a + (HEADER + s) -> m' x = m x.
Proof.
  intros Ha Hu (Hs & Hm & Hr & Hl) Hw Hwm. pose proof (chain_span _ _ _ Hl) as [Hn Hsm]. unfold split. destruct (Z.leb_spec (wanted + HEADER + GRAIN) s) as [Hfit | Hfit].
  - set (rest := s - wanted - HEADER). assert (rest mod GRAIN = 0) as Hrm.
    { unfold rest. rewrite Zminus_mod, (Zminus_mod s wanted), Hm, Hwm. done. }
    eexists _, wanted, [(rest, true)]. split; [done |]. split; [heap_lia |]. split; [by repeat constructor |].
    split; [rewrite !span_cons; change (span []) with 0; unfold rest; heap_lia |]. split; [intros _; change (GRAIN <= rest); unfold rest; lia |]. split.
    + cbn [app chain]. split_and!; try done; [heap_lia | apply read_write; cbn [k_size k_free flag]; heap_lia | unfold rest; heap_lia | |].
      * rewrite <- Z.add_assoc. erewrite read_ext; [apply read_write; cbn [k_size k_free flag]; unfold rest; heap_lia |]. intros. apply write_other. heap_lia.
      * replace (a + (HEADER + wanted) + (HEADER + rest)) with (a + (HEADER + s)) by (unfold rest; lia). apply (chain_ext m); [| done]. intros. rewrite !write_other by (unfold rest in *; heap_lia). done.
    + intros. rewrite !write_other by heap_lia. done.
  - eexists _, s, []. split; [done |]. split; [heap_lia |]. split; [done |]. split; [rewrite span_cons; change (span []) with 0; lia |]. split; [done |]. split.
    + cbn [app chain]. split_and!; try done; [apply read_write; cbn [k_size k_free flag]; heap_lia |]. apply (chain_ext m); [| done]. intros. rewrite write_other by heap_lia. done.
    + intros. rewrite write_other by heap_lia. done.
Qed.

Lemma exhausted_used wanted s l : 0 <= wanted -> exhausted wanted l -> exhausted wanted ((s, false) :: l).
Proof.
  intros Hw He l1 run l2 Heq Hopen. destruct l1 as [| c l1]; [| injection Heq as _ Heq; by eapply He].
  destruct run as [| c run]; [change (span []) with 0; heap_lia |]. injection Heq as <- _. by inversion Hopen.
Qed.
Lemma exhausted_run wanted run rest : sized run -> Forall is_open run -> closed_head rest -> span run < wanted + HEADER -> exhausted wanted rest -> exhausted wanted (run ++ rest).
Proof.
  intros Hs Hopen Hhead Hsmall He l1 r l2 Heq Hr. apply app_eq_app in Heq as (k & [[-> Heq] | [-> Heq]]); [| by eapply He].
  apply Forall_app in Hs as [Hs1 Hs2]. apply app_eq_app in Heq as (j & [[-> ->] | [-> ->]]).
  - apply Forall_app in Hr as [_ Hj]. destruct j as [| [s f] j]; [| inversion Hj as [| ? ? Hf]; unfold is_open in Hf; simpl in Hf; by subst f].
    rewrite app_nil_r. rewrite span_app in Hsmall. pose proof (span_nonneg _ Hs1). lia.
  - apply Forall_app in Hs2 as [? Hs3]. rewrite !span_app in Hsmall. pose proof (span_nonneg _ Hs1). pose proof (span_nonneg _ Hs3). lia.
Qed.

(** What the search leaves and finds. *)
Definition searched (a wanted : Z) (l : list Cell) (m m' : Z -> Z) (found : option (Z * Z)) (l' : list Cell) : Prop :=
  chain m' a l' /\ span l' = span l /\ (wide l -> wide l') /\ same_held a l m m' /\
  match found with
  | None => used a l' = used a l /\ exhausted wanted l
  | Some (p, n) => used a l' ≡ₚ (p, n) :: used a l /\ wanted <= n < wanted + 2 * GRAIN
  end.
(** A search that goes on behind a block. *)
Lemma searched_used a wanted s l m m' found l' : 0 <= wanted -> chain m a ((s, false) :: l) ->
  searched (a + (HEADER + s)) wanted l m m' found l' -> searched a wanted ((s, false) :: l) m m' found ((s, false) :: l').
Proof.
  intros Hw (Hs & Hm & Hr & Hl) (Hc & Hsp & Hwide & [Hout Hheld] & Hf). pose proof (chain_span _ _ _ Hl) as [Hn _]. split_and!; [split_and!; try done | by rewrite !span_cons, Hsp | | split |].
  - rewrite <- Hr. apply read_ext. intros. apply Hout. heap_lia.
  - apply (wide_behind [(s, false)] [(s, false)]); eauto using chain_sized.
  - intros x Hx. apply Hout. heap_lia.
  - intros p n x Hin Hx. cbn [used app] in Hin. apply elem_of_cons in Hin as [[= -> ->] | Hin]; [apply Hout; heap_lia | by eapply Hheld].
  - destruct found as [[p n] |]; cbn [used app]; [| split; [by f_equal; apply Hf | by apply exhausted_used, Hf]].
    split; [| apply Hf]. rewrite (proj1 Hf). apply Permutation_swap.
Qed.
Lemma searched_open a wanted s run rest m m1 m' found l' : 0 <= wanted -> chain m1 a ((s + span run, true) :: rest) -> (forall x, ~ a <= x < a + HEADER -> m1 x = m x) ->
  0 <= s -> sized run -> Forall is_open run -> closed_head rest -> s + span run < wanted ->
  searched (a + (HEADER + (s + span run))) wanted rest m1 m' found l' -> searched a wanted ((s, true) :: run ++ rest) m m' found ((s + span run, true) :: l').
Proof.
  intros Hw (_ & Hm & Hr & Hl) Hm1 Hs Hsz Hopen Hhead Hsmall (Hc & Hsp & Hwide & [Hout Hheld] & Hf). pose proof (chain_span _ _ _ Hl) as [Hn _]. pose proof (span_nonneg _ Hsz) as Hrun.
  assert (used a ((s, true) :: run ++ rest) = used (a + (HEADER + (s + span run))) rest) as Hu.
  { cbn [used app]. rewrite used_app, open_used by done. simpl. f_equal. lia. }
  split_and!; [split_and!; try done; [lia |] | rewrite !span_cons, span_app, Hsp; lia | | split |].
  - rewrite <- Hr. apply read_ext. intros. apply Hout. heap_lia.
  - apply (wide_behind ((s, true) :: run) [(s + span run, true)]); eauto using chain_sized. by apply wide_run.
  - intros x Hx. rewrite span_cons, span_app in Hx. rewrite Hout by heap_lia. apply Hm1. heap_lia.
  - intros p n x Hin Hx. rewrite Hu in Hin. rewrite (Hheld p n x Hin Hx). apply Hm1. destruct (used_bounds _ _ _ _ _ Hl Hin). heap_lia.
  - rewrite Hu. destruct found as [[p n] |]; cbn [used app]; [done |]. split; [by apply Hf |]. apply (exhausted_run wanted ((s, true) :: run) rest); try done; [by constructor | by constructor | heap_lia | apply Hf].
Qed.
Lemma searched_here a wanted s run rest m m1 : 0 <= a -> a + span ((s + span run, true) :: rest) <= u64_max -> 0 <= wanted <= s + span run -> wanted mod GRAIN = 0 ->
  chain m1 a ((s + span run, true) :: rest) -> (forall x, ~ a <= x < a + HEADER -> m1 x = m x) -> 0 <= s -> sized run -> Forall is_open run ->
  exists m' n tail, split a (s + span run) wanted m1 = (m', n) /\ searched a wanted ((s, true) :: run ++ rest) m m' (Some (a + HEADER, n)) ((n, false) :: tail ++ rest).
Proof.
  intros Ha Hu Hw Hwm Hc Hm1 Hs Hsz Hopen. destruct (split_spec _ _ _ _ _ Ha Hu Hc Hw Hwm) as (m' & n & tail & He & Hn & Htail & Hsp & Hwide & Hc' & Hout).
  exists m', n, tail. split; [done |]. rewrite span_cons in Hsp. pose proof Hc as (_ & _ & _ & Hl). pose proof (chain_span _ _ _ Hl) as [? _]. pose proof (span_nonneg _ Hsz).
  assert (used a ((s, true) :: run ++ rest) = used (a + (HEADER + (s + span run))) rest) as Hused.
  { cbn [used app]. rewrite used_app, open_used by done. simpl. f_equal. lia. }
  split_and!; [done | rewrite !span_cons, !span_app; lia | | split | | lia | lia].
  - apply (wide_behind ((s, true) :: run) ((n, false) :: tail)); eauto using chain_sized. intros Hw'. apply Hwide. by eapply (wide_run _ _ true).
  - intros x Hx. rewrite span_cons, span_app in Hx. rewrite Hout by heap_lia. apply Hm1. heap_lia.
  - intros p k x Hin Hx. rewrite Hused in Hin. destruct (used_bounds _ _ _ _ _ Hl Hin) as (? & ? & _). rewrite Hout by heap_lia. apply Hm1. heap_lia.
  - rewrite Hused. cbn [used app]. rewrite used_app, (open_used _ tail) by done. simpl. by replace (a + (HEADER + n) + span tail) with (a + (HEADER + (s + span run))) by heap_lia.
Qed.
Lemma search_spec fuel a l wanted m finish : 0 <= a -> finish = a + span l -> finish <= u64_max -> chain m a l -> 0 <= wanted -> wanted mod GRAIN = 0 -> (length l < fuel)%nat ->
  exists m' found l', search fuel a finish wanted m = (m', found) /\ searched a wanted l m m' found l'.
Proof.
  intros Ha Hfin Hu Hc Hw Hwm. revert a l m Ha Hfin Hc. induction fuel as [| fuel IH]; intros a l m Ha Hfin Hc Hfuel; [lia |]. cbn [search]. destruct l as [| [s f] l].
  - rewrite (proj2 (Z.ltb_ge _ _)) by (rewrite Hfin; change (span []) with 0; lia). exists m, None, []. repeat (split; [done |]).
    intros l1 run l2 [-> [-> ->]%app_eq_nil]%symmetry%app_eq_nil _. change (span []) with 0. heap_lia.
  - pose proof Hc as (Hs & Hm & Hr & Hl). pose proof (chain_span _ _ _ Hl) as [Hn _]. rewrite (proj2 (Z.ltb_lt _ _)) by heap_lia. rewrite Hr. cbn [k_free k_size]. destruct f; cbn [flag Z.eqb].
    + assert (length l <= Z.to_nat ((finish - a) / HEADER))%nat as Hlen.
      { apply Nat2Z.inj_le. rewrite Z2Nat.id by (apply Z.div_pos; heap_lia). apply Z.div_le_lower_bound; heap_lia. }
      destruct (merge_spec _ _ _ _ _ finish Ha Hfin Hu Hc Hlen) as (m1 & run & rest & -> & -> & Hopen & Hhead & Hc1 & Hm1).
      pose proof (chain_sized _ _ _ Hl) as [Hsz _]%Forall_app. pose proof (span_nonneg _ Hsz) as Hrun. rewrite span_cons, span_app in Hfin.
      destruct (Z.leb_spec wanted (s + span run)) as [Hfit | Hfit].
      * destruct (searched_here a wanted s run rest m m1) as (m' & n & tail & -> & ?); try done; [rewrite span_cons; lia |]. by eexists _, _, _.
      * destruct (IH (a + (HEADER + (s + span run))) rest m1) as (m' & found & l' & -> & ?); [heap_lia | heap_lia | apply Hc1 | cbn [length] in Hfuel; rewrite length_app in Hfuel; lia |].
        eexists _, _, _. split; [done |]. by eapply searched_open.
    + destruct (IH (a + (HEADER + s)) l m) as (m' & found & l' & -> & ?); [heap_lia | heap_lia | done | heap_lia |]. eexists _, _, _. split; [done |]. by apply searched_used.
Qed.

(** ** The heap as a map from payloads to bytes *)
Definition peek (m : Z -> Z) (p n : Z) : list Z := m <$> seqZ p n.
Definition poke (m : Z -> Z) (p : Z) (bs : list Z) : Z -> Z := fun x => if (p <=? x) && (x <? p + lenZ bs) then default 0 (bs !! Z.to_nat (x - p)) else m x.
Definition view_of (m : Z -> Z) (u : list (Z * Z)) : gmap Z (list Z) := list_to_map ((fun q => (q.1, peek m q.1 q.2)) <$> u).
Lemma peek_len m p n : 0 <= n -> lenZ (peek m p n) = n.
Proof. intros Hn. unfold lenZ, peek. rewrite length_fmap, length_seqZ. lia. Qed.
Lemma peek_ext m m' p n : (forall x, p <= x < p + n -> m' x = m x) -> peek m' p n = peek m p n.
Proof. intros H. apply list_fmap_ext. intros i x Hx. apply H. apply lookup_seqZ in Hx. lia. Qed.
Lemma peek_lookup m p n i : 0 <= i < n -> peek m p n !! Z.to_nat i = Some (m (p + i)).
Proof. intros Hi. unfold peek. rewrite list_lookup_fmap, (proj2 (lookup_seqZ p n (Z.to_nat i) (p + i))) by lia. done. Qed.
Lemma view_perm m u u' : NoDup u.*1 -> u ≡ₚ u' -> view_of m u = view_of m u'.
Proof. intros Hn Hp. apply list_to_map_proper; [by rewrite <- list_fmap_compose | by apply fmap_Permutation]. Qed.
Lemma view_ext m m' u : (forall p n x, (p, n) ∈ u -> p <= x < p + n -> m' x = m x) -> view_of m' u = view_of m u.
Proof.
  intros H. unfold view_of. f_equal. apply list_fmap_ext. intros i [p n] Hin%list_elem_of_lookup_2. simpl. f_equal. apply peek_ext. intros. by eapply H.
Qed.
Lemma view_cons m p n u : view_of m ((p, n) :: u) = <[p := peek m p n]> (view_of m u).
Proof. done. Qed.
Lemma view_None m u p : p ∉ u.*1 -> view_of m u !! p = None.
Proof. intros Hp. apply not_elem_of_list_to_map. by rewrite <- list_fmap_compose. Qed.
Lemma view_Some m u p bs : view_of m u !! p = Some bs -> exists n, (p, n) ∈ u /\ bs = peek m p n.
Proof. intros Hin%elem_of_list_to_map_2. apply list_elem_of_fmap in Hin as ([q n] & [= -> ->] & Hin). by exists n. Qed.
Lemma view_delete m u p n : NoDup ((p, n) :: u).*1 -> view_of m u = delete p (view_of m ((p, n) :: u)).
Proof. intros [Hp _]%NoDup_cons. rewrite view_cons, delete_insert_eq, delete_id; [done |]. by apply view_None. Qed.

(** Used blocks are disjoint, with a header in between. *)
Lemma used_nodup m a l : chain m a l -> NoDup (used a l).*1.
Proof.
  revert a. induction l as [| [s f] l IH]; intros a; [constructor |]. intros (Hs & _ & _ & Hl). cbn [used]. destruct f; [by apply IH |]. cbn [app fmap list_fmap fst]. apply NoDup_cons. split; [| by apply IH].
  intros ([q n] & Heq & Hin)%list_elem_of_fmap. simpl in Heq. subst q. destruct (used_bounds _ _ _ _ _ Hl Hin). heap_lia.
Qed.
Lemma used_split a l p n : (p, n) ∈ used a l -> exists l1 l2, l = l1 ++ (n, false) :: l2 /\ p = a + span l1 + HEADER.
Proof.
  revert a. induction l as [| [s f] l IH]; intros a; [intros []%not_elem_of_nil |]. cbn [used]. intros [Hin | Hin]%elem_of_app.
  - destruct f; [by apply not_elem_of_nil in Hin |]. apply list_elem_of_singleton in Hin as [= -> ->]. exists [], l. split; [done |]. change (span []) with 0. lia.
  - destruct (IH _ Hin) as (l1 & l2 & -> & ->). exists ((s, f) :: l1), l2. split; [done |]. rewrite span_cons. heap_lia.
Qed.
(** Writing inside the payload of a block leaves the list and the other blocks. *)
Lemma chain_payload m m' a l1 n f l2 : chain m a (l1 ++ (n, f) :: l2) -> (forall x, ~ a + span l1 + HEADER <= x < a + span l1 + HEADER + n -> m' x = m x) -> chain m' a (l1 ++ (n, f) :: l2).
Proof.
  rewrite !chain_app. intros (H1 & Hn & Hm & Hr & H2) Hx. split; [| split_and!; try done].
  - apply (chain_ext m); [| done]. intros. apply Hx. heap_lia.
  - rewrite <- Hr. apply read_ext. intros. apply Hx. heap_lia.
  - apply (chain_ext m); [| done]. intros. apply Hx. heap_lia.
Qed.
Lemma used_middle a l1 n l2 : used a (l1 ++ (n, false) :: l2) ≡ₚ (a + span l1 + HEADER, n) :: used a (l1 ++ (n, true) :: l2).
Proof. rewrite !used_app. cbn [used app]. symmetry. apply Permutation_middle. Qed.
Lemma used_apart m a l p n q k : chain m a l -> (p, n) ∈ used a l -> (q, k) ∈ used a l -> q <> p -> q + k + HEADER <= p \/ p + n + HEADER <= q.
Proof.
  intros Hc Hp Hq Hne. destruct (used_split _ _ _ _ Hp) as (l1 & l2 & -> & ->). apply chain_app in Hc as (H1 & Hn & _ & _ & H2).
  rewrite used_app in Hq. cbn [used app] in Hq. apply elem_of_app in Hq as [Hq | [[= -> ->] | Hq]%elem_of_cons]; [| done |].
  - destruct (used_bounds _ _ _ _ _ H1 Hq) as (? & ? & _). left. lia.
  - destruct (used_bounds _ _ _ _ _ H2 Hq) as (? & ? & _). right. heap_lia.
Qed.

(** ** The operations on the state *)
Record heap_ok (b : Bare) (l : list Cell) : Prop := {
  ho_start : 0 < (b_heap b).1;
  ho_aligned : (b_heap b).1 mod GRAIN = 0;
  ho_span : (b_heap b).2 = (b_heap b).1 + span l;
  ho_finish : (b_heap b).2 <= u64_max;
  ho_chain : chain (ram_of b) (b_heap b).1 l;
  ho_wide : wide l;
}.
(** The heap takes its slice with the first request. *)
Definition heap_state (b : Bare) (l : list Cell) : Prop := (b_heap b).1 = 0 /\ l = [] \/ heap_ok b l.
Definition held (b : Bare) (l : list Cell) : list (Z * Z) := used (b_heap b).1 l.
Definition view (b : Bare) (l : list Cell) : gmap Z (list Z) := view_of (ram_of b) (held b l).

Section HeapProofs.
Context (heap_start heap_end : Z) (image_data_bounds : Z * Z) (ctr : Z).
Hypothesis layout : RAM_START <= heap_start /\ heap_start + 2 * PAGE <= heap_end /\ heap_end <= RAM_START + RAM_PAGES * PAGE.
Abbreviation ok := (mem_ok heap_start heap_end).
Abbreviation ready := (heap_ready heap_start heap_end image_data_bounds ctr).
Abbreviation allocate := (heap_allocate heap_start heap_end image_data_bounds ctr).
Abbreviation release := (heap_release heap_start heap_end image_data_bounds ctr).
Abbreviation resize := (heap_resize heap_start heap_end image_data_bounds ctr).

Lemma mem_ok_ram f b : ok b -> ok (with_ram f b).
Proof. intros [? ? ? ?]. by constructor. Qed.
Lemma heap_ok_nodup b l : heap_ok b l -> NoDup (held b l).*1.
Proof. intros [_ _ _ _ Hc _]. by eapply used_nodup. Qed.
(** Only the bytes of the heap change. *)
Definition inside_heap (b b' : Bare) : Prop := forall x, ~ (b_heap b').1 <= x < (b_heap b').2 -> ram_of b' x = ram_of b x.
Lemma ready_again b l : heap_ok b l -> ready b = Some (b, Ok (b_heap b)).
Proof. intros [Hs _ _ _ _ _]. unfold heap_ready. rewrite (proj2 (Z.eqb_neq _ _)) by lia. done. Qed.
Lemma heap_ready_spec b l : ok b -> heap_state b l ->
  exists b' r, ready b = Some (b', r) /\ ok b' /\
  match r with
  | Ok h => exists l', h = b_heap b' /\ heap_ok b' l' /\ held b' l' = held b l /\ view b' l' = view b l /\ inside_heap b b' /\ (heap_ok b l -> b' = b /\ l' = l)
  | Err e => e = EOutOfMemory /\ b' = b /\ l = [] /\ unavailable NATIVE_HEAP_BYTES PAGE b
  end.
Proof.
  intros Hok [[H0 ->] | Hl]; [| exists b, (Ok (b_heap b)); rewrite (ready_again b l Hl); split; [done |]; split; [done |]; by exists l].
  unfold heap_ready. rewrite H0. cbn [Z.eqb]. pose proof (mem_take_spec heap_start heap_end image_data_bounds ctr layout NATIVE_HEAP_BYTES PAGE b Hok ltac:(done) ltac:(done)) as Ht.
  destruct (mem_take _ _ _ _ _ _ b) as [[b1 [start |]] |]; [| destruct Ht as [-> ?] | done]; cbn [mbind option_bind].
  - destruct Ht as ([Hw Hal _ _ Hout Hok1] & Hram). pose proof (bounds_small heap_start heap_end layout) as Hb. pose proof (bounds_spec heap_start heap_end layout) as (Hb1 & _). pose proof Hw as (_ & _ & _ & Hlo & Hhi & _).
    unfold low, high in Hb, Hb1. assert (0 < start) as Hpos by (unfold RAM_START in *; lia).
    assert (forall x, ~ start <= x < start + NATIVE_HEAP_BYTES -> write_block (ram (b_machine b1)) start (mkBlock (NATIVE_HEAP_BYTES - HEADER) 1) x = ram_of b x) as Hx.
    { intros x Hx. rewrite write_other by (unfold HEADER, NATIVE_HEAP_BYTES in *; lia). by rewrite Hram. }
    eexists _, _. split; [done |]. split; [destruct Hok1; by constructor |].
    exists [(NATIVE_HEAP_BYTES - HEADER, true)]. split; [done |]. split; [| unfold view, held; rewrite H0; split; [done |]; split; [done |]; split; [done |]; intros [? _ _ _ _ _]; lia].
    constructor; cbn [b_heap fst snd ram_of b_machine with_ram with_machine]; [done | | change (span _) with NATIVE_HEAP_BYTES; done | lia | | done].
    + eapply (multiple_of_smaller GRAIN PAGE); done.
    + split; [done |]. split; [done |]. split; [| done]. by apply read_write.
  - exists b, (Err EOutOfMemory). done.
Qed.
Lemma grain_round size : 0 <= size <= u64_max - GRAIN -> mem_round_up size GRAIN mod GRAIN = 0 /\ size <= mem_round_up size GRAIN < size + GRAIN.
Proof.
  intros Hs. unfold mem_round_up. change GRAIN with (2 ^ 4). rewrite wrapping_add_small by (unfold u64_max, GRAIN in *; lia). apply and_comm, round_up_pow2. lia.
Qed.
(** The payloads a caller may hold: aligned, not null, inside the heap. *)
Lemma held_bounds b l p n : heap_ok b l -> (p, n) ∈ held b l -> 0 < p /\ p mod GRAIN = 0 /\ 0 <= n /\ (b_heap b).1 + HEADER <= p /\ p + n <= (b_heap b).2.
Proof. intros [Hs Ha Hsp _ Hc _] Hin. destruct (used_bounds _ _ _ _ _ Hc Hin) as (? & ? & ? & _ & Hal). rewrite Hsp. pose proof (Hal Ha). heap_lia. Qed.
Lemma view_held b l p bs : view b l !! p = Some bs -> heap_state b l -> heap_ok b l /\ exists n, (p, n) ∈ held b l /\ bs = peek (ram_of b) p n.
Proof.
  intros Hv Hst. destruct (view_Some _ _ _ _ Hv) as (n & Hin & ->). split; [| by exists n]. destruct Hst as [[_ ->] | ?]; [by apply not_elem_of_nil in Hin | done].
Qed.
Lemma view_lookup b l p n : heap_ok b l -> (p, n) ∈ held b l -> view b l !! p = Some (peek (ram_of b) p n).
Proof.
  intros Hok Hin. apply elem_of_list_to_map_1; [by rewrite <- list_fmap_compose; apply heap_ok_nodup |]. by apply (list_elem_of_fmap_2 (fun q => (q.1, peek (ram_of b) q.1 q.2)) _ (p, n)).
Qed.
(** A change of bytes inside one held block. *)
Lemma payload_ok b l p n m : heap_ok b l -> (p, n) ∈ held b l -> (forall x, ~ p <= x < p + n -> m x = ram_of b x) -> heap_ok (with_ram (fun _ => m) b) l.
Proof.
  intros [? ? ? ? Hc ?] Hin Hx. constructor; try done. cbn [with_ram ram_of with_machine b_machine ram b_heap]. unfold held in Hin.
  destruct (used_split _ _ _ _ Hin) as (l1 & l2 & -> & ->). by eapply chain_payload.
Qed.
Lemma payload_view b l p n m : heap_ok b l -> (p, n) ∈ held b l -> (forall x, ~ p <= x < p + n -> m x = ram_of b x) ->
  view (with_ram (fun _ => m) b) l = <[p := peek m p n]> (view b l).
Proof.
  intros Hok Hin Hx. pose proof (heap_ok_nodup _ _ Hok) as Hnd. pose proof Hok as [_ _ _ _ Hc _]. unfold view. change (held (with_ram _ b) l) with (held b l). change (ram_of (with_ram _ b)) with m.
  destruct (proj1 (elem_of_Permutation _ _) Hin) as (u & Hu). assert (NoDup ((p, n) :: u).*1) as Hnu by (rewrite <- Hu; done).
  rewrite (view_perm m _ _ Hnd Hu), (view_perm (ram_of b) _ _ Hnd Hu), !view_cons, insert_insert_eq. f_equal. apply view_ext. intros q k x Hq Hr. apply Hx.
  assert (q <> p) as Hne by (intros ->; apply NoDup_cons in Hnu as [Hnu _]; apply Hnu; by apply (list_elem_of_fmap_2 fst _ (p, k))).
  assert ((q, k) ∈ held b l) as Hq' by (rewrite Hu; by right). destruct (used_apart _ _ _ _ _ _ _ Hc Hin Hq' Hne); heap_lia.
Qed.
Lemma with_ram_ram b m : ram_of (with_ram (fun _ => m) b) = m.
Proof. done. Qed.
Lemma mem_zero_ram p n b : mem_zero p n b = with_machine (emit (OZero p n) (b_machine b)) b.
Proof. done. Qed.

Lemma heap_allocate_spec b l size zero_it : ok b -> heap_state b l -> 0 <= size <= u64_max - GRAIN ->
  exists b' r l', allocate size zero_it b = Some (b', r) /\ ok b' /\ heap_state b' l' /\ inside_heap b b' /\ (heap_ok b l -> b_heap b' = b_heap b) /\
  match r with
  | Ok p => exists n, heap_ok b' l' /\ held b' l' ≡ₚ (p, n) :: held b l /\ size <= n < size + 3 * GRAIN /\
      view b' l' = <[p := peek (ram_of b') p n]> (view b l) /\ (zero_it = true -> forall x, p <= x < p + n -> ram_of b' x = 0)
  | Err e => e = EOutOfMemory /\ view b' l' = view b l /\ (heap_ok b l -> exhausted (mem_round_up size GRAIN) l)
  end.
Proof.
  intros Hok Hst Hsize. unfold heap_allocate. destruct (heap_ready_spec b l Hok Hst) as (b1 & r & -> & Hok1 & Hr). cbn [mbind option_bind]. destruct r as [[start finish] | e].
  2: { destruct Hr as (-> & -> & -> & Hno). eexists b, _, []. split; [done |]. split; [done |]. split; [done |]. split; [done |]. split; [done |]. split; [done |]. split; [done |].
       intros [? _ Hsp _ _ _]. intros l1 run l2 [-> [-> ->]%app_eq_nil]%symmetry%app_eq_nil _. pose proof (grain_round size Hsize). change (span []) with 0. heap_lia. }
  destruct Hr as (l1 & Hh & Hl1 & Hheld & Hview & Hin & Hsame). pose proof Hl1 as [Hpos Hal Hsp Hfin Hc Hwide1]. rewrite <- Hh in *. cbn [fst snd] in *. pose proof (grain_round size Hsize) as [Hwm Hw].
  pose proof (chain_span _ _ _ Hc) as [Hlen _].
  destruct (search_spec (Z.to_nat ((finish - start) / HEADER + 1)) start l1 (mem_round_up size GRAIN) (ram_of b1) finish) as (m & found & l2 & -> & Hc2 & Hsp2 & Hwide2 & [Hout Hkeep] & Hf); try done; [lia | lia | |].
  { apply Nat2Z.inj_lt. assert (Z.of_nat (length l1) <= (finish - start) / HEADER) by (apply Z.div_le_lower_bound; heap_lia). rewrite Z2Nat.id; lia. }
  set (b2 := with_ram (fun _ => m) b1). assert (b_heap b2 = (start, finish)) as Hh2 by done.
  assert (heap_ok b2 l2) as Hok2 by (constructor; rewrite ?Hh2; simpl; eauto; by rewrite Hsp2).
  assert (view_of m (held b l) = view b l) as Hv.
  { rewrite <- Hview, <- Hheld. unfold view. apply view_ext. intros p n x Hp. unfold held in Hp. rewrite <- Hh in Hp. by apply Hkeep. }
  assert (inside_heap b b2) as Hin2.
  { intros x. rewrite Hh2. cbn [fst snd]. intros Hx. change (m x = ram_of b x). rewrite Hout by (rewrite <- Hsp; done). apply Hin. by rewrite <- Hh. }
  destruct found as [[p n] |].
  - destruct Hf as [Hu Hn]. assert (held b2 l2 ≡ₚ (p, n) :: held b l) as Hu2 by (unfold held at 1; rewrite Hh2, <- Hheld; unfold held; rewrite <- Hh; done).
    assert (view b2 l2 = <[p := peek m p n]> (view b l)) as Hv2.
    { unfold view at 1. rewrite (view_perm _ _ _ (heap_ok_nodup _ _ Hok2) Hu2), view_cons. change (ram_of b2) with m. by rewrite Hv. }
    assert ((p, n) ∈ held b2 l2) as Hmem by (rewrite Hu2; by left). pose proof (held_bounds _ _ _ _ Hok2 Hmem) as (_ & _ & _ & Hlo & Hhi). rewrite Hh2 in Hlo, Hhi. cbn [fst snd] in Hlo, Hhi.
    assert (size <= n < size + 3 * GRAIN) as Hn' by heap_lia. destruct zero_it.
    + set (mz := zero_at p n m). change (mem_zero p n b2) with (with_machine (mkMachine (table (b_machine b2)) mz (OZero p n :: log (b_machine b2))) b2). set (b3 := with_machine _ b2).
      assert (forall x, ~ p <= x < p + n -> mz x = m x) as Hmz by (intros x Hx; unfold mz, zero_at; destruct (Z.leb_spec p x), (Z.ltb_spec x (p + n)); simpl; done || lia).
      destruct (payload_ok b2 l2 p n mz Hok2 Hmem Hmz) as [? ? ? ? ? ?]. pose proof (payload_view b2 l2 p n mz Hok2 Hmem Hmz) as Hvz.
      assert (heap_ok b3 l2) as Hok3 by (by constructor). exists b3, (Ok p), l2. split; [done |]. split; [destruct Hok1; by constructor |]. split; [by right |]. split; [| split; [intros Hb; by destruct (Hsame Hb) as [<- _] |]].
      * intros x. change (b_heap b3) with (b_heap b2). intros Hx. rewrite <- Hin2 by done. rewrite Hh2 in Hx. cbn [fst snd] in Hx. apply Hmz. heap_lia.
      * exists n. split; [done |]. split; [done |]. split; [done |]. split; [by transitivity (<[p := peek mz p n]> (view b2 l2)); [exact Hvz | rewrite Hv2, insert_insert_eq] |].
        intros _ x Hx. change (mz x = 0). unfold mz, zero_at. rewrite (proj2 (Z.leb_le _ _)), (proj2 (Z.ltb_lt _ _)) by lia. done.
    + exists b2, (Ok p), l2. split; [done |]. split; [by apply mem_ok_ram |]. split; [by right |]. split; [done |]. split; [intros Hb; by destruct (Hsame Hb) as [<- _] |]. by exists n.
  - destruct Hf as [Hu Hex]. exists b2, (Err EOutOfMemory), l2. split; [done |]. split; [by apply mem_ok_ram |]. split; [by right |]. split; [done |]. split; [intros Hb; by destruct (Hsame Hb) as [<- _] |]. split; [done |]. split.
    + unfold view at 1, held. rewrite Hh2. cbn [fst]. rewrite Hu. change (ram_of b2) with m. rewrite <- Hv, <- Hheld. unfold held. by rewrite <- Hh.
    + intros Hb. by destruct (Hsame Hb) as [_ ->].
Qed.
(** The free blocks, by the address their payload would have. *)
Definition vacant (b : Bare) (p : Z) : list Cell -> Prop := fun l => exists l1 n l2, l = l1 ++ (n, true) :: l2 /\ p = (b_heap b).1 + span l1 + HEADER.
Lemma middle_owned b l l1 n f l2 : heap_ok b l -> l = l1 ++ (n, f) :: l2 -> let p := (b_heap b).1 + span l1 + HEADER in
  (p =? 0) = false /\ heap_owns p (b_heap b) = true /\ read_block (ram_of b) (p - HEADER) = mkBlock n (flag f).
Proof.
  intros [Hs Ha Hsp _ Hc Hw] -> p. apply chain_app in Hc as (H1 & Hn & Hm & Hr & H2). pose proof (chain_span _ _ _ H1) as [? Hm1]. rewrite span_app in Hsp.
  assert (sized ((n, f) :: l2)) as Hsz by (constructor; [done | by eapply chain_sized]). apply (proj1 (wide_app l1 ((n, f) :: l2) ltac:(done))) in Hw. pose proof (wide_span ((n, f) :: l2) ltac:(done) Hsz Hw) as H16.
  split_and!; [unfold p; heap_lia | | by unfold p; rewrite Z.add_simpl_r].
  unfold heap_owns. rewrite (proj2 (Z.ltb_ge p _)), (proj2 (Z.leb_gt _ p)) by (unfold p; heap_lia).
  rewrite (proj2 (Z.eqb_eq (p mod GRAIN) 0)); [done |]. unfold p. by repeat apply sum_multiple.
Qed.
(** A block that is held goes back to the list, and only its header changes. *)
Lemma heap_release_held b l p n : ok b -> heap_ok b l -> (p, n) ∈ held b l ->
  exists b' l', release p b = Some (b', Ok tt) /\ ok b' /\ heap_ok b' l' /\ b_heap b' = b_heap b /\ inside_heap b b' /\ vacant b' p l' /\
  view b' l' = delete p (view b l).
Proof.
  intros Hok Hh Hin. destruct (used_split _ _ _ _ Hin) as (l1 & l2 & Hl & Hp). destruct (middle_owned b l l1 n false l2 Hh Hl) as (H0 & Hown & Hr). rewrite <- Hp in H0, Hown, Hr.
  unfold heap_release. rewrite H0, (ready_again b l Hh). cbn [mbind option_bind]. rewrite Hown, Hr. cbn [negb k_free k_size flag Z.eqb].
  pose proof Hh as [Hs Ha Hsp Hfin Hc Hw]. set (m := write_block (ram_of b) (p - HEADER) (mkBlock n 1)).
  assert (forall x, ~ p - HEADER <= x < p -> m x = ram_of b x) as Hm by (intros; apply write_other; heap_lia).
  pose proof (used_middle (b_heap b).1 l1 n l2) as Hperm. rewrite <- Hp, <- Hl in Hperm. rewrite Hl in Hc. apply chain_app in Hc as (H1 & Hn & Hnm & _ & H2).
  pose proof (chain_span _ _ _ H1) as [? _]. pose proof (chain_span _ _ _ H2) as [? _]. rewrite Hl, span_app, span_cons in Hsp.
  assert (heap_ok (with_ram (fun _ => m) b) (l1 ++ (n, true) :: l2)) as Hh'.
  { constructor; try done.
    - change (b_heap (with_ram _ b)) with (b_heap b). rewrite span_app, span_cons. lia.
    - apply chain_app. split; [| split; [done |]; split; [done |]; split].
      + apply (chain_ext (ram_of b)); [| done]. intros x Hx. apply Hm. change (b_heap (with_ram _ b)) with (b_heap b) in Hx. heap_lia.
      + change (b_heap (with_ram _ b)) with (b_heap b). rewrite with_ram_ram. replace ((b_heap b).1 + span l1) with (p - HEADER) by lia. apply read_write; cbn [k_size k_free flag]; heap_lia.
      + apply (chain_ext (ram_of b)); [| done]. intros x Hx. apply Hm. change (b_heap (with_ram _ b)) with (b_heap b) in Hx. heap_lia.
    - rewrite Hl in Hw. apply wide_app; [done |]. apply (proj1 (wide_app l1 ((n, false) :: l2) ltac:(done))) in Hw. revert Hw. by destruct l2. }
  eexists (with_ram (fun _ => m) b), _. split; [done |]. split; [by apply mem_ok_ram |]. split; [exact Hh' |]. split; [done |]. split; [| split; [by eexists _, _, _ |]].
  - intros x Hx. apply Hm. change (b_heap (with_ram _ b)) with (b_heap b) in Hx. heap_lia.
  - pose proof (heap_ok_nodup _ _ Hh) as Hnd. unfold view, held in *. change (b_heap (with_ram _ b)) with (b_heap b). rewrite with_ram_ram.
    assert (NoDup ((p, n) :: used (b_heap b).1 (l1 ++ (n, true) :: l2)).*1) as Hnd' by (by rewrite <- Hperm).
    rewrite (view_perm (ram_of b) _ _ Hnd Hperm), <- (view_delete (ram_of b) _ p n Hnd'). apply view_ext. intros q k x Hq Hx. apply Hm.
    assert (q <> p) as Hne by (intros ->; apply NoDup_cons in Hnd' as [Hn' _]; apply Hn'; by apply (list_elem_of_fmap_2 fst _ (p, k))).
    assert ((q, k) ∈ used (b_heap b).1 l) as Hq' by (rewrite Hperm; by right). destruct (used_apart _ _ _ _ _ _ _ (ho_chain _ _ Hh) Hin Hq' Hne); heap_lia.
Qed.
(** A release that the heap refuses: the block is free already, or the address is no payload. *)
Lemma heap_release_refused b l p : heap_ok b l -> p <> 0 -> vacant b p l \/ p < (b_heap b).1 + HEADER \/ (b_heap b).2 <= p \/ p mod GRAIN <> 0 -> release p b = Some (b, Err EInvalidArgument).
Proof.
  intros Hh H0 Hbad. unfold heap_release. rewrite (proj2 (Z.eqb_neq _ _) H0), (ready_again b l Hh). cbn [mbind option_bind]. destruct (heap_owns p (b_heap b)) eqn:Hown; [| done].
  destruct Hbad as [(l1 & n & l2 & Hl & ->) | Hbad]; [destruct (middle_owned b l l1 n true l2 Hh Hl) as (_ & _ & Hr); by rewrite Hr |].
  exfalso. unfold heap_owns in Hown. apply negb_true_iff, orb_false_iff in Hown as [[?%Z.ltb_ge ?%Z.leb_gt]%orb_false_iff ?%negb_false_iff%Z.eqb_eq]. lia.
Qed.
Lemma copy_peek m p q n k : 0 <= n <= k -> takeZ n (peek (copy_bytes p q n m) q k) = peek m p n.
Proof.
  intros Hn. apply list_eq. intros i. rewrite lookup_takeZ. unfold peek. rewrite !list_lookup_fmap. destruct (decide (Z.of_nat i < n)); [| by rewrite lookup_seqZ_ge by lia].
  rewrite !lookup_seqZ_lt by lia. simpl. f_equal. unfold copy_bytes. rewrite (proj2 (Z.leb_le _ _)), (proj2 (Z.ltb_lt _ _)) by lia. simpl. f_equal. lia.
Qed.
Lemma heap_resize_held b l p n size : ok b -> heap_ok b l -> (p, n) ∈ held b l -> 0 <= size <= u64_max - GRAIN ->
  exists b' r l', resize p size b = Some (b', r) /\ ok b' /\ heap_ok b' l' /\ inside_heap b b' /\
  match r with
  | Ok q => exists bs, 0 < q /\ q mod GRAIN = 0 /\ delete p (view b l) !! q = None /\ size <= lenZ bs /\ takeZ n bs = peek (ram_of b) p n /\ view b' l' = <[q := bs]> (delete p (view b l))
  | Err e => e = EOutOfMemory /\ view b' l' = view b l
  end.
Proof.
  intros Hok Hh Hin Hsize. destruct (used_split _ _ _ _ Hin) as (l1 & l2 & Hl & Hp). destruct (middle_owned b l l1 n false l2 Hh Hl) as (H0 & Hown & Hr). rewrite <- Hp in H0, Hown, Hr.
  unfold heap_resize. rewrite H0, (ready_again b l Hh). cbn [mbind option_bind]. rewrite Hown, Hr. cbn [negb k_free k_size flag Z.eqb]. pose proof (grain_round size Hsize) as [Hrm Hround].
  pose proof (held_bounds _ _ _ _ Hh Hin) as (Hp0 & Hpa & Hn & _). destruct (used_bounds _ _ _ _ _ (ho_chain _ _ Hh) Hin) as (_ & _ & _ & Hnm & _).
  pose proof (view_lookup _ _ _ _ Hh Hin) as Hview.
  destruct (Z.leb_spec (mem_round_up size GRAIN) n) as [Hfit | Hgrow].
  { eexists b, _, l. split; [done |]. split; [done |]. split; [done |]. split; [done |]. exists (peek (ram_of b) p n). rewrite peek_len, takeZ_ge by (rewrite ?peek_len; lia). split_and!; try done; [by apply lookup_delete_eq | lia |]. by rewrite insert_delete_eq, insert_id. }
  destruct (heap_allocate_spec b l size false Hok (or_intror Hh) Hsize) as (b1 & r & l1' & -> & Hok1 & Hst1 & Hin1 & Hsame & Ha). cbn [mbind option_bind]. pose proof (Hsame Hh) as Hb1.
  destruct r as [q | e]; [| destruct Ha as (-> & Hv & _); eexists b1, _, l1'; split; [done |]; split; [done |]; split; [| done]; destruct Hst1 as [[Hz _] | ?]; [rewrite Hb1 in Hz; destruct Hh; lia | done]].
  destruct Ha as (n' & Hh1 & Hperm & Hn' & Hv1 & _). assert ((q, n') ∈ held b1 l1') as Hq by (rewrite Hperm; by left). assert ((p, n) ∈ held b1 l1') as Hp1 by (rewrite Hperm; by right).
  pose proof (heap_ok_nodup _ _ Hh1) as Hnd. rewrite Hperm in Hnd. apply NoDup_cons in Hnd as [Hqn _].
  assert (q <> p) as Hne by (intros ->; apply Hqn; by apply (list_elem_of_fmap_2 fst _ (p, n))).
  assert (n <= size) as Hle. { apply Z.mod_divide in Hrm as [i Hi]; [| done]. apply Z.mod_divide in Hnm as [j Hj]; [| done]. heap_lia. }
  rewrite Z.min_l by done. set (m := copy_bytes p q n (ram_of b1)). assert (forall x, ~ q <= x < q + n' -> m x = ram_of b1 x) as Hm.
  { intros x Hx. unfold m, copy_bytes. destruct (Z.leb_spec q x), (Z.ltb_spec x (q + n)); simpl; done || heap_lia. }
  change (with_ram (copy_bytes p q n) b1) with (with_ram (fun _ => m) b1). pose proof (payload_ok _ _ _ _ _ Hh1 Hq Hm) as Hh2. pose proof (payload_view _ _ _ _ _ Hh1 Hq Hm) as Hv2.
  destruct (heap_release_held (with_ram (fun _ => m) b1) l1' p n (mem_ok_ram _ _ Hok1) Hh2 Hp1) as (b3 & l3 & -> & Hok3 & Hh3 & Hb3 & Hin3 & _ & Hv3). cbn [mbind option_bind].
  eexists b3, _, l3. split; [done |]. split; [done |]. split; [done |]. pose proof (held_bounds _ _ _ _ Hh1 Hq) as (Hq0 & Hqa & Hn0 & Hqlo & Hqhi). split.
  - intros x Hx. rewrite (Hin3 x Hx). rewrite Hb3 in Hx. change (b_heap (with_ram _ b1)) with (b_heap b1) in Hx. rewrite with_ram_ram, Hm by heap_lia. by apply Hin1.
  - exists (peek m q n'). rewrite peek_len by done. split_and!; try done; [rewrite lookup_delete_ne by done; by apply view_None | lia | | rewrite Hv3, Hv2, Hv1, insert_insert_eq; by apply delete_insert_ne].
    unfold m. rewrite copy_peek by heap_lia. pose proof (view_lookup _ _ _ _ Hh1 Hp1) as He. rewrite Hv1, lookup_insert_ne in He by done. congruence.
Qed.

(** ** The abstract allocator *)
Definition heap_apply (op : HeapOp) (b : Bare) : option (Bare * Result Z) :=
  match op with
  | HAllocate size zero_it => allocate size zero_it b
  | HResize address size => resize address size b
  | HRelease address => '(b, r) ← release address b; Some (b, unit_result r)
  | HWrite address bs => Some (with_ram (fun m => poke m address bs) b, Ok 0)
  end.
Lemma held_fresh b l b' l' p n : heap_ok b' l' -> held b' l' ≡ₚ (p, n) :: held b l -> view b l !! p = None.
Proof. intros Hh Hp. pose proof (heap_ok_nodup _ _ Hh) as Hnd. rewrite Hp in Hnd. apply NoDup_cons in Hnd as [? _]. by apply view_None. Qed.
Lemma heap_allocate_refines b l size zero_it : ok b -> heap_state b l -> 0 <= size <= u64_max - GRAIN ->
  exists b' r l', allocate size zero_it b = Some (b', r) /\ ok b' /\ heap_state b' l' /\ inside_heap b b' /\ heap_spec (view b l) (HAllocate size zero_it) r (view b' l').
Proof.
  intros Hok Hst Hs. destruct (heap_allocate_spec b l size zero_it Hok Hst Hs) as (b' & r & l' & He & Hok' & Hst' & Hin & _ & Hr). exists b', r, l'. split_and!; try done. destruct r as [p | e].
  - destruct Hr as (n & Hh & Hp & Hn & -> & Hz). assert ((p, n) ∈ held b' l') as Hm by (rewrite Hp; by left). pose proof (held_bounds _ _ _ _ Hh Hm) as (? & ? & ? & _).
    apply spec_allocate; [done | done | by eapply held_fresh | rewrite peek_len; lia |]. intros Hzero. rewrite peek_len by done. apply list_eq. intros i. rewrite lookup_zeros. unfold peek. rewrite list_lookup_fmap.
    case_decide; [rewrite lookup_seqZ_lt by lia; simpl; f_equal; apply Hz; [done | lia] | by rewrite lookup_seqZ_ge by lia].
  - destruct Hr as (-> & -> & _). constructor.
Qed.
Lemma poke_peek m p bs n : lenZ bs <= n -> peek (poke m p bs) p n = bs ++ dropZ (lenZ bs) (peek m p n).
Proof.
  intros Hn. apply list_eq. intros i. unfold peek. rewrite list_lookup_fmap, lookup_app_dec, lookup_dropZ, list_lookup_fmap. pose proof (lenZ_nonneg bs) as Hb. unfold lenZ in *.
  destruct (decide (Z.of_nat i < n)); [rewrite lookup_seqZ_lt by lia; simpl | rewrite lookup_seqZ_ge by lia; simpl].
  - unfold poke, lenZ. rewrite (proj2 (Z.leb_le _ _)) by lia. replace (Z.to_nat (p + Z.of_nat i - p)) with i by lia. destruct (Z.ltb_spec (p + Z.of_nat i) (p + Z.of_nat (length bs))); simpl; case_decide; try lia.
    + destruct (lookup_lt_is_Some_2 bs i ltac:(lia)) as [x ->]. done.
    + rewrite lookup_seqZ_lt by lia. simpl. do 2 f_equal. lia.
  - case_decide; [lia |]. by rewrite lookup_seqZ_ge by lia.
Qed.
Lemma heap_step_refines b l op : ok b -> heap_state b l -> heap_permitted (u64_max - GRAIN) op (view b l) ->
  exists b' r l', heap_apply op b = Some (b', r) /\ ok b' /\ heap_state b' l' /\ inside_heap b b' /\ heap_spec (view b l) op r (view b' l').
Proof.
  intros Hok Hst Hp. destruct op as [size zero_it | p size | p | p bs]; cbn [heap_apply].
  - by apply heap_allocate_refines.
  - destruct Hp as [Hs [-> | [old Hv]]].
    + destruct (heap_allocate_refines b l size false Hok Hst Hs) as (b' & r & l' & He & ? & ? & ? & ?). exists b', r, l'. split_and!; try done. by constructor.
    + destruct (view_held _ _ _ _ Hv Hst) as (Hh & n & Hin & ->). destruct (heap_resize_held b l p n size Hok Hh Hin Hs) as (b' & r & l' & He & ? & ? & ? & Hr). pose proof (held_bounds _ _ _ _ Hh Hin) as (_ & _ & Hn & _).
      exists b', r, l'. split_and!; try done; [by right |]. destruct r as [q | e]; [destruct Hr as (bs & ? & ? & ? & ? & ? & ->) | destruct Hr as [-> ->]]; econstructor; eauto. apply kept_prefix. by rewrite peek_len.
  - destruct Hp as [-> | [old Hv]]; [exists b, (Ok 0), l; split_and!; try done; constructor |].
    destruct (view_held _ _ _ _ Hv Hst) as (Hh & n & Hin & ->). destruct (heap_release_held b l p n Hok Hh Hin) as (b' & l' & -> & ? & ? & ? & ? & _ & Hv'). cbn [mbind option_bind unit_result].
    exists b', (Ok 0), l'. split_and!; try done; [by right |]. rewrite Hv'. by econstructor.
  - destruct Hp as (old & Hv & Hlen). destruct (view_held _ _ _ _ Hv Hst) as (Hh & n & Hin & ->). pose proof (held_bounds _ _ _ _ Hh Hin) as (_ & _ & Hn & Hlo & Hhi). rewrite peek_len in Hlen by done.
    set (m := poke (ram_of b) p bs). assert (forall x, ~ p <= x < p + n -> m x = ram_of b x) as Hm by (intros x Hx; unfold m, poke; destruct (Z.leb_spec p x), (Z.ltb_spec x (p + lenZ bs)); simpl; done || lia).
    exists (with_ram (fun _ => m) b), (Ok 0), l. split_and!; [done | by apply mem_ok_ram | right; by eapply payload_ok | |].
    + intros x Hx. apply Hm. change (b_heap (with_ram _ b)) with (b_heap b) in Hx. heap_lia.
    + rewrite (payload_view _ _ _ _ _ Hh Hin Hm). unfold m. rewrite poke_peek by done. constructor; [done |]. by rewrite peek_len.
Qed.
(** C4: the native heap implements the abstract allocator.  Callers that pass null or the blocks they hold, and write inside them, see a map from addresses to bytes: an allocation adds a fresh, 16-byte aligned block of at least the size, zeroed when asked; a resize keeps the bytes of the old block and on failure everything; a release removes the block; every call returns, the only error is [OutOfMemory], and no byte outside the heap's slice changes. *)
Theorem heap_refines b l op : ok b -> heap_state b l -> heap_permitted (u64_max - GRAIN) op (view b l) ->
  exists b' r l', heap_apply op b = Some (b', r) /\ ok b' /\ heap_state b' l' /\ inside_heap b b' /\ heap_spec (view b l) op r (view b' l').
Proof. intros Hok Hst Hp. destruct (heap_step_refines b l op Hok Hst Hp) as (b' & r & l' & He & Hok' & Hst' & Hin & Hs). by exists b', r, l'. Qed.
(** The heap as a provider of the contract. *)
Definition bare_heap : NativeHeap Bare.
Proof.
  refine {| nh_apply := heap_apply; nh_limit := u64_max - GRAIN; nh_holds b h := ok b /\ exists l, heap_state b l /\ view b l = h |}.
  intros b h op (Hok & l & Hst & <-) Hp. destruct (heap_step_refines b l op Hok Hst Hp) as (b' & r & l' & He & Hok' & Hst' & _ & Hs). exists b', r, (view b' l'). split_and!; try done. by exists l'.
Defined.

(** First fit with merging wastes no room: an allocation fails only when no run of neighbouring free blocks, merged into one, could hold the size rounded up to 16 bytes. *)
Theorem heap_allocate_complete b l size zero_it : ok b -> heap_ok b l -> 0 <= size <= u64_max - GRAIN ->
  (exists l1 run l2, l = l1 ++ run ++ l2 /\ Forall is_open run /\ mem_round_up size GRAIN + HEADER <= span run) ->
  exists b' p, allocate size zero_it b = Some (b', Ok p).
Proof.
  intros Hok Hh Hs (l1 & run & l2 & Hl & Hopen & Hroom). destruct (heap_allocate_spec b l size zero_it Hok (or_intror Hh) Hs) as (b' & r & l' & He & _ & _ & _ & _ & Hr).
  destruct r as [p | e]; [by exists b', p |]. destruct Hr as (_ & _ & Hex). pose proof (Hex Hh l1 run l2 Hl Hopen). lia.
Qed.
(** A second release of a block is an invalid argument and changes nothing, and so is the release of an address outside the heap or off the grain. *)
Theorem heap_release_errors b l p : ok b -> heap_ok b l ->
  (is_Some (view b l !! p) -> exists b', release p b = Some (b', Ok tt) /\ release p b' = Some (b', Err EInvalidArgument)) /\
  (p <> 0 -> p < (b_heap b).1 + HEADER \/ (b_heap b).2 <= p \/ p mod GRAIN <> 0 -> release p b = Some (b, Err EInvalidArgument)).
Proof.
  intros Hok Hh. split; [| intros H0 Hbad; apply (heap_release_refused b l); tauto]. intros [bs Hv]. destruct (view_held _ _ _ _ Hv (or_intror Hh)) as (_ & n & Hin & _).
  destruct (heap_release_held b l p n Hok Hh Hin) as (b' & l' & He & _ & Hh' & _ & _ & Hvac & _). exists b'. split; [done |].
  pose proof (held_bounds _ _ _ _ Hh Hin) as (? & _). apply (heap_release_refused b' l'); [done | lia | by left].
Qed.

(** ** The global allocator *)
Abbreviation palloc := (port_alloc heap_start heap_end image_data_bounds ctr).
Abbreviation pdealloc := (port_dealloc heap_start heap_end image_data_bounds ctr).
(** [Layout]: a power of two, and a size that does not overflow [isize] when rounded up to it. *)
Definition layout_ok (size align : Z) : Prop := is_power_of_two align = true /\ align <= i64_max /\ 0 <= size <= i64_max - (align - 1).
Lemma next_multiple_spec n p : 0 < p -> n <= next_multiple_of n p < n + p /\ next_multiple_of n p mod p = 0.
Proof.
  intros Hp. unfold next_multiple_of. pose proof (Z.mod_pos_bound n p Hp). destruct (Z.eqb_spec (n mod p) 0); [lia |]. split; [lia |].
  replace (n + (p - n mod p)) with ((n / p + 1) * p) by (pose proof (Z.div_mod n p ltac:(lia)); lia). apply Z_mod_mult.
Qed.
(** Where the global allocator puts its block. *)
Lemma port_alloc_spec b l size align : ok b -> heap_state b l -> layout_ok size align ->
  exists b' a l', palloc size align b = Some (b', a) /\ ok b' /\ heap_state b' l' /\
  (a = 0 /\ view b' l' = view b l \/
   exists p n, heap_ok b' l' /\ (p, n) ∈ held b' l' /\ view b l !! p = None /\ delete p (view b' l') = view b l /\ a mod align = 0 /\ p <= a /\ a + size <= p + n /\ 0 < a /\
     if align <=? GRAIN then a = p else p + WORD <= a /\ load64 (ram_of b') (a - WORD) = p).
Proof.
  intros Hok Hst (Hpow & Hal & Hs). apply is_power_of_two_spec in Hpow as Hpow'. destruct Hpow' as (k & Hk & Hak). assert (0 < align) as Hpos by (rewrite Hak; apply Z.pow_pos_nonneg; lia).
  unfold port_alloc. destruct (Z.leb_spec align GRAIN) as [Hsmall | Hbig].
  - destruct (heap_allocate_spec b l (Z.max size 1) false Hok Hst) as (b' & r & l' & -> & Hok' & Hst' & _ & _ & Hr); [unfold u64_max, i64_max, GRAIN in *; lia |]. cbn [mbind option_bind].
    exists b', (or_null r), l'. split; [done |]. split; [done |]. split; [done |]. destruct r as [p | e]; [right | left; split; [done | apply Hr]].
    destruct Hr as (n & Hh & Hp & Hn & Hv & _). assert ((p, n) ∈ held b' l') as Hm by (rewrite Hp; by left). pose proof (held_bounds _ _ _ _ Hh Hm) as (Hp0 & Hpa & _).
    pose proof (held_fresh _ _ _ _ _ _ Hh Hp) as Hfresh. exists p, n. cbn [or_null]. split_and!; try done; try lia; [by rewrite Hv, delete_insert_id |]. by apply (multiple_of_smaller align GRAIN).
  - unfold checked_add, u64_max, i64_max, GRAIN in *. rewrite (proj2 (Z.leb_le (size + align) _)) by lia. cbn [mbind option_bind]. rewrite (proj2 (Z.leb_le _ _)) by (unfold WORD; lia).
    destruct (heap_allocate_spec b l (size + align + WORD) false Hok Hst) as (b1 & r & l1 & -> & Hok1 & Hst1 & _ & _ & Hr); [unfold WORD, u64_max, GRAIN; lia |]. cbn [mbind option_bind].
    destruct r as [p | e]; [| exists b1, 0, l1; split_and!; try done; left; split; [done | apply Hr]]. destruct Hr as (n & Hh & Hp & Hn & Hv & _). assert ((p, n) ∈ held b1 l1) as Hm by (rewrite Hp; by left).
    pose proof (held_bounds _ _ _ _ Hh Hm) as (Hp0 & Hpa & Hn0 & _ & Hhi). pose proof (held_fresh _ _ _ _ _ _ Hh Hp) as Hfresh. destruct (next_multiple_spec (p + WORD) align Hpos) as [Ha Ham].
    set (a := next_multiple_of (p + WORD) align) in *. set (m := store64 (ram_of b1) (a - WORD) p). unfold WORD in *.
    assert (forall x, ~ p <= x < p + n -> m x = ram_of b1 x) as Hm' by (intros; apply store_other; lia). exists (with_ram (fun _ => m) b1), a, l1.
    split; [done |]. pose proof (payload_ok _ _ _ _ _ Hh Hm Hm') as Hh2. split; [by apply mem_ok_ram |]. split; [by right |]. right. exists p, n.
    rewrite (payload_view _ _ _ _ _ Hh Hm Hm'), Hv, insert_insert_eq, delete_insert_id by done. destruct Hh as [_ _ _ Hf _ _]. split_and!; try done; try lia. apply load_store_same. unfold u64_max in *. lia.
Qed.
(** The global allocator gives back what it took, also for alignments above the heap's own: the address is aligned, its bytes lie inside one fresh block, and whatever the caller writes there, [dealloc] finds the block again and leaves the heap as it was before [alloc]; a null answer has taken nothing. *)
Theorem port_round_trip b l size align : ok b -> heap_state b l -> layout_ok size align ->
  exists b' a l', palloc size align b = Some (b', a) /\
  (a = 0 /\ view b' l' = view b l \/
   a mod align = 0 /\ (exists p bs, view b l !! p = None /\ view b' l' = <[p := bs]> (view b l) /\ p <= a /\ a + size <= p + lenZ bs) /\
   forall m, (forall x, ~ a <= x < a + size -> m x = ram_of b' x) ->
   exists b'' l'', pdealloc a align (with_ram (fun _ => m) b') = Some (b'', tt) /\ heap_state b'' l'' /\ view b'' l'' = view b l).
Proof.
  intros Hok Hst Hlay. destruct (port_alloc_spec b l size align Hok Hst Hlay) as (b' & a & l' & He & Hok' & Hst' & [? | Hr]); exists b', a, l'; (split; [done |]); [by left | right].
  destruct Hr as (p & n & Hh & Hm & Hfresh & Hdel & Ham & Hpa & Han & Ha0 & Hback). split; [done |]. split.
  { exists p, (peek (ram_of b') p n). pose proof (held_bounds _ _ _ _ Hh Hm) as (_ & _ & Hn & _). rewrite peek_len by done. split_and!; try done. rewrite <- Hdel, insert_delete_id; [done |]. by apply view_lookup. }
  intros m Hx. assert (forall x, ~ p <= x < p + n -> m x = ram_of b' x) as Hx' by (intros; apply Hx; lia). pose proof (payload_ok _ _ _ _ _ Hh Hm Hx') as Hh2.
  destruct (heap_release_held (with_ram (fun _ => m) b') l' p n (mem_ok_ram _ _ Hok') Hh2 Hm) as (b2 & l2 & Hrel & _ & Hh3 & _ & _ & _ & Hv).
  exists b2, l2. split; [| split; [by right |]; rewrite Hv, (payload_view _ _ _ _ _ Hh Hm Hx'), delete_insert_eq; done].
  unfold port_dealloc. rewrite with_ram_ram. destruct (align <=? GRAIN); [subst a; by rewrite Hrel |]. destruct Hback as [Hw Hload].
  rewrite (load_ext (ram_of b')) by (intros; apply Hx; unfold WORD in *; lia). by rewrite Hload, Hrel.
Qed.
End HeapProofs.

(** ** A small heap *)
Module HeapSample.
Import MemorySample.
Definition first : Z := 65536.
Definition cells : list Cell := [(32, false); (16, true); (32, true)].
Definition bytes_of : Z -> Z := write_block (write_block (write_block (fun _ => 7) first (mkBlock 32 0)) (first + 48) (mkBlock 16 1)) (first + 80) (mkBlock 32 1).
Definition small : Bare := mkBare region_new (mkMachine (fun _ => 0) bytes_of []) (first, first + 128).
Lemma small_mem : mem_ok hs he small.
Proof.
  assert (forall a, ~ is_free small a) as Hno by (intros a Ha; by apply Exists_nil in Ha).
  constructor; [apply region_new_ok | intros a Ha; by apply Hno in Ha | intros a a' _ Ha; by apply Hno in Ha | intros a Ha; by apply Hno in Ha].
Qed.
Lemma small_ok : heap_ok small cells.
Proof. constructor; try done; repeat split; done. Qed.
Lemma small_layout : RAM_START <= hs /\ hs + 2 * PAGE <= he /\ he <= RAM_START + RAM_PAGES * PAGE.
Proof. done. Qed.
(** The held block grows: it moves and keeps its bytes. *)
Lemma heap_refines_witness : exists b' r l', heap_apply hs he image 0 (HResize (first + 16) 40) small = Some (b', r) /\ mem_ok hs he b' /\ heap_state b' l' /\
  inside_heap small b' /\ heap_spec (view small cells) (HResize (first + 16) 40) r (view b' l').
Proof. apply (heap_refines hs he image 0 small_layout small cells); [apply small_mem | right; apply small_ok |]. split; [done |]. right. eexists. vm_compute. reflexivity. Defined.
Lemma heap_allocate_complete_witness : exists b' p, heap_allocate hs he image 0 60 true small = Some (b', Ok p).
Proof.
  apply (heap_allocate_complete hs he image 0 small_layout small cells); [apply small_mem | apply small_ok | done |].
  exists [(32, false)], [(16, true); (32, true)], []. split; [reflexivity |]. split; [repeat constructor | vm_compute; discriminate].
Defined.
Lemma heap_release_errors_witness :
  (exists b', heap_release hs he image 0 (first + 16) small = Some (b', Ok tt) /\ heap_release hs he image 0 (first + 16) b' = Some (b', Err EInvalidArgument)) /\
  heap_release hs he image 0 (first + 200) small = Some (small, Err EInvalidArgument).
Proof.
  split.
  - apply (heap_release_errors hs he image 0 small_layout small cells (first + 16) small_mem small_ok). eexists. vm_compute. reflexivity.
  - apply (heap_release_errors hs he image 0 small_layout small cells (first + 200) small_mem small_ok); [discriminate |]. right. left. discriminate.
Defined.
Lemma port_round_trip_witness : exists b' a l', port_alloc hs he image 0 8 32 small = Some (b', a) /\
  (a = 0 /\ view b' l' = view small cells \/
   a mod 32 = 0 /\ (exists p bs, view small cells !! p = None /\ view b' l' = <[p := bs]> (view small cells) /\ p <= a /\ a + 8 <= p + lenZ bs) /\
   forall m, (forall x, ~ a <= x < a + 8 -> m x = ram_of b' x) ->
   exists b'' l'', port_dealloc hs he image 0 a 32 (with_ram (fun _ => m) b') = Some (b'', tt) /\ heap_state b'' l'' /\ view b'' l'' = view small cells).
Proof. apply (port_round_trip hs he image 0 small_layout small cells 8 32); [apply small_mem | right; apply small_ok |]. split; [reflexivity |]. split; [discriminate |]. split; discriminate. Defined.
Lemma block_is_private_witness : exists s1 r, heap_apply hs he image 0 (HAllocate 60 true) small = Some (s1, r) /\
  match r with
  | Err e => e = EOutOfMemory
  | Ok p => exists bs, 60 <= lenZ bs /\ bs = zeros (lenZ bs) /\ view small cells !! p = None
  end.
Proof.
  destruct (@block_is_private Bare (bare_heap hs he image 0 small_layout) small (view small cells) 60 true) as (s1 & r & Ha & Hr); [split; [apply small_mem |]; exists cells; split; [right; apply small_ok | reflexivity] | split; discriminate |].
  exists s1, r. split; [exact Ha |]. destruct r as [p | e]; [| apply Hr]. destruct Hr as (bs & Hn & _ & Hl & Hz & _). exists bs. split; [exact Hl |]. split; [apply Hz; reflexivity | exact Hn].
Defined.
End HeapSample.
