(* ===== verification/Threads.v ===== *)
(** * Threads.v: the cooperative threads of the bare-metal port

    [src/examples/baremetal-aarch64/src/thread.rs] and [tls.rs]: a fixed table of threads, the round-robin switch, the
    memory of stacks and TLS blocks, and the dynamic thread-local slots.  A panic is [None].  The waiting loop
    [block_until] and what waits in it are in [Objects.v]; [pal_context_switch] is assembly: it saves the stack pointer
    [sp] of the outgoing thread and continues the incoming one, which here is the change of [current]. *)
From S2P Require Import Prelude Port Counter Boundary Extents Pages Memory Heap.
Local Open Scope Z_scope.

Definition MAX_THREADS : nat := 16.
Definition MAX_TLS_SLOTS : nat := 64.
Definition DEFAULT_STACK : Z := 128 * 1024.
Definition MIN_STACK : Z := 32 * 1024.
Definition FRAME : Z := 176.
Definition TCB : Z := 16.

Inductive State := Free | Live | Finished.
#[export] Instance State_eq_dec : EqDecision State.
Proof. solve_decision. Defined.
(** [tls::Block] *)
Record TlsBlock := mkTls { t_base : Z; t_size : Z; t_pointer : Z }.
Record Thread := mkThread {
  state : State; sp : Z; entry : option Z; argument : Z; stack : Z; stack_size : Z; stack_low : Z; stack_high : Z;
  tls : TlsBlock; slots : list Z; name : list Z; name_length : Z; detached : bool; reclaim : bool;
}.
Definition EMPTY : Thread :=
  mkThread Free 0 None 0 0 0 0 0 (mkTls 0 0 0) (replicate MAX_TLS_SLOTS 0) (replicate 15 0) 0 false false.
Record Key := mkKey { key_used : bool; key_destructor : option Z }.
(** The statics [THREADS], [CURRENT] and [KEYS], and the machine below them. *)
Record Sched := mkSched { bare : Bare; threads : list Thread; current : nat; keys : list Key }.
Definition Act (A : Type) := Sched -> option (Sched * A).

Definition with_bare (b : Bare) (s : Sched) : Sched := mkSched b (threads s) (current s) (keys s).
Definition set_current (i : nat) (s : Sched) : Sched := mkSched (bare s) (threads s) i (keys s).
Definition with_keys (ks : list Key) (s : Sched) : Sched := mkSched (bare s) (threads s) (current s) ks.
Definition with_threads (ts : list Thread) (s : Sched) : Sched := mkSched (bare s) ts (current s) (keys s).
(** [&mut table()[index]] *)
Definition at_thread (i : nat) (f : Thread -> Thread) (s : Sched) : option Sched :=
  t ← threads s !! i; Some (with_threads (<[i := f t]> (threads s)) s).
Definition set_state (x : State) (t : Thread) : Thread :=
  mkThread x (sp t) (entry t) (argument t) (stack t) (stack_size t) (stack_low t) (stack_high t) (tls t) (slots t) (name t) (name_length t) (detached t) (reclaim t).
Definition set_sp (x : Z) (t : Thread) : Thread :=
  mkThread (state t) x (entry t) (argument t) (stack t) (stack_size t) (stack_low t) (stack_high t) (tls t) (slots t) (name t) (name_length t) (detached t) (reclaim t).
Definition set_slots (x : list Z) (t : Thread) : Thread :=
  mkThread (state t) (sp t) (entry t) (argument t) (stack t) (stack_size t) (stack_low t) (stack_high t) (tls t) x (name t) (name_length t) (detached t) (reclaim t).
Definition set_name (x : list Z) (n : Z) (t : Thread) : Thread :=
  mkThread (state t) (sp t) (entry t) (argument t) (stack t) (stack_size t) (stack_low t) (stack_high t) (tls t) (slots t) x n (detached t) (reclaim t).
Definition set_detached (x : bool) (t : Thread) : Thread :=
  mkThread (state t) (sp t) (entry t) (argument t) (stack t) (stack_size t) (stack_low t) (stack_high t) (tls t) (slots t) (name t) (name_length t) x (reclaim t).
Definition set_reclaim (x : bool) (t : Thread) : Thread :=
  mkThread (state t) (sp t) (entry t) (argument t) (stack t) (stack_size t) (stack_low t) (stack_high t) (tls t) (slots t) (name t) (name_length t) (detached t) x.
Definition is_state (x : State) (t : Thread) : bool := bool_decide (state t = x).

(** What the linker placed: the region, the image, the table of threads, the table of keys, the TLS image and the boot
    stack; the cache type register, the sizes of the entries and the address of the trampoline. *)
Record Placed := {
  heap_start : Z; heap_end : Z; image_data_bounds : Z * Z; ctr : Z;
  threads_base : Z; thread_size : Z; keys_base : Z; key_size : Z;
  tdata_start : Z; tdata_end : Z; tbss_end : Z; boot_bottom : Z; boot_top : Z; trampoline : Z;
}.
Section Threads.
Context (L : Placed).
Abbreviation take_pages := (mem_take (heap_start L) (heap_end L) (image_data_bounds L) (ctr L)).
Abbreviation give_pages := (mem_give (heap_start L) (heap_end L) (image_data_bounds L) (ctr L)).

(** ** [tls.rs] *)
Definition tls_allocate : Call (option TlsBlock) := fun b =>
  let initialized := tdata_end L - tdata_start L in
  let total := tbss_end L - tdata_start L in
  let size := mem_round_up (TCB + total) PAGE in
  '(b, taken) ← take_pages size PAGE b;
  match taken with
  | None => Some (b, None)
  | Some base => Some (with_ram (copy_bytes (tdata_start L) (base + TCB) initialized) (mem_zero base size b), Some (mkTls base size base))
  end.
Definition tls_release (block : TlsBlock) : Call unit := fun b =>
  if t_size block =? 0 then Some (b, tt) else '(b, _) ← give_pages (t_base block) (t_size block) b; Some (b, tt).

(** ** The table *)
Definition reclaim_one (running index : nat) (s : Sched) : option Sched :=
  t ← threads s !! index;
  if (index =? running)%nat || negb (is_state Finished t) || negb (reclaim t) then Some s else
  let s := with_threads (<[index := EMPTY]> (threads s)) s in
  '(b, _) ← (if stack_size t =? 0 then Some (bare s, true) else give_pages (stack t) (stack_size t) (bare s));
  '(b, _) ← tls_release (tls t) b;
  Some (with_bare b s).
Fixpoint reclaim_from (running : nat) (indices : list nat) (s : Sched) : option Sched :=
  match indices with [] => Some s | i :: indices => s ← reclaim_one running i s; reclaim_from running indices s end.
Definition reclaim_finished (s : Sched) : option Sched := reclaim_from (current s) (seq 0 MAX_THREADS) s.
Definition live_at (ts : list Thread) (i : nat) : bool := match ts !! i with Some t => is_state Live t | None => false end.
Definition next_live (after : nat) (ts : list Thread) : option nat :=
  find (fun index => negb (index =? after)%nat && live_at ts index) ((fun step => (after + step) mod MAX_THREADS)%nat <$> seq 1 MAX_THREADS).
(** [frame] is the stack pointer that the switch saves. *)
Definition schedule (frame : Z) : Act bool := fun s =>
  s ← reclaim_finished s;
  match next_live (current s) (threads s) with
  | None => Some (s, false)
  | Some next => s' ← at_thread (current s) (set_sp frame) s; Some (set_current next s', true)
  end.
Definition init_boot_thread : Act unit := fun s =>
  '(b, block) ← tls_allocate (bare s);
  match block with
  | None => None
  | Some block =>
      let t := mkThread Live 0 None 0 0 0 (boot_bottom L) (boot_top L) block (replicate MAX_TLS_SLOTS 0) (replicate 15 0) 0 false false in
      s ← at_thread 0 (fun _ => t) (with_bare b s); Some (set_current 0 s, tt)
  end.
(** [index_of] of both files, and the head of [key_index]: the entry of a table that a handle is the address of. *)
Definition index_in (base size : Z) (limit : nat) (handle : Z) : option nat :=
  if (handle <? base) || negb ((handle - base) mod size =? 0) then None else
  let index := Z.to_nat ((handle - base) / size) in if (index <? limit)%nat then Some index else None.
Definition index_of : Z -> option nat := index_in (threads_base L) (thread_size L) MAX_THREADS.
Definition handle_of (index : nat) : Z := threads_base L + Z.of_nat index * thread_size L.

(** ** [port::Threads] *)
Definition create (thread_entry thread_argument wanted_stack : Z) : Act (Result Z) := fun s =>
  match find (fun i => match threads s !! i with Some t => is_state Free t | None => false end) (seq 0 MAX_THREADS) with
  | None => Some (s, Err EOutOfMemory)
  | Some index =>
      let size := mem_round_up (if wanted_stack =? 0 then DEFAULT_STACK else Z.max wanted_stack MIN_STACK) PAGE in
      '(b, taken) ← take_pages size PAGE (bare s);
      match taken with
      | None => Some (with_bare b s, Err EOutOfMemory)
      | Some stack =>
          '(b, block) ← tls_allocate b;
          match block with
          | None => '(b, _) ← give_pages stack size b; Some (with_bare b s, Err EOutOfMemory)
          | Some block =>
              let frame := mask_down (stack + size - FRAME) 16 in
              let b := mem_zero frame FRAME b in
              let b := with_ram (fun m => store64 (store64 (store64 m frame (Z.of_nat index)) (frame + 88) (trampoline L)) (frame + 96) (t_pointer block)) b in
              let t := mkThread Live frame (Some thread_entry) thread_argument stack size stack (stack + size) block (replicate MAX_TLS_SLOTS 0) (replicate 15 0) 0 false false in
              s ← at_thread index (fun _ => t) (with_bare b s); Some (s, Ok (handle_of index))
          end
      end
  end.
(** [join] up to its wait, the condition it waits for, and what follows. *)
Definition join_begin (handle : Z) (s : Sched) : option (Result nat) :=
  match index_of handle with
  | None => Some (Err EInvalidArgument)
  | Some index =>
      t ← threads s !! index;
      Some (if is_state Free t || detached t || (index =? current s)%nat then Err EInvalidArgument else Ok index)
  end.
Definition join_ready (index : nat) (s : Sched) : bool := match threads s !! index with Some t => is_state Finished t | None => false end.
Definition join_end (index : nat) : Act (Result unit) := fun s =>
  s ← at_thread index (set_reclaim true) s; s ← reclaim_finished s; Some (s, Ok tt).
Definition detach (handle : Z) : Act (Result unit) := fun s =>
  match index_of handle with
  | None => Some (s, Err EInvalidArgument)
  | Some index =>
      t ← threads s !! index;
      if is_state Free t || detached t then Some (s, Err EInvalidArgument) else
      s ← at_thread index (set_detached true) s;
      if is_state Finished t then s ← at_thread index (set_reclaim true) s; s ← reclaim_finished s; Some (s, Ok tt)
      else Some (s, Ok tt)
  end.

(** ** Stack bounds, identity and name *)
Definition stack_bounds (s : Sched) : option (Result (Z * Z)) :=
  t ← threads s !! current s; Some (if stack_low t =? 0 then Err EOs else Ok (stack_low t, stack_high t)).
Definition process_id : Result Z := Ok 1.
Definition thread_id (s : Sched) : Result Z := Ok (Z.of_nat (current s) + 1).
Definition set_thread_name (bs : list Z) : Act (Result unit) := fun s =>
  if (15 <? length bs)%nat then Some (s, Err EInvalidArgument) else
  s ← at_thread (current s) (fun t => set_name (bs ++ drop (length bs) (name t)) (lenZ bs) t) s; Some (s, Ok tt).

(** ** [port::ThreadLocal] *)
Definition key_index (handle : Z) (s : Sched) : option nat :=
  index ← index_in (keys_base L) (key_size L) MAX_TLS_SLOTS handle;
  k ← keys s !! index; if key_used k then Some index else None.
Definition slot_create (destructor : option Z) : Act (Result Z) := fun s =>
  match find (fun i => match keys s !! i with Some k => negb (key_used k) | None => false end) (seq 0 MAX_TLS_SLOTS) with
  | None => Some (s, Err EOutOfMemory)
  | Some index =>
      let s := with_keys (<[index := mkKey true destructor]> (keys s)) s in
      let s := with_threads ((fun t => set_slots (<[index := 0]> (slots t)) t) <$> threads s) s in
      Some (s, Ok (keys_base L + Z.of_nat index * key_size L))
  end.
Definition slot_destroy (handle : Z) : Act (Result unit) := fun s =>
  match key_index handle s with
  | None => Some (s, Err EInvalidArgument)
  | Some index => Some (with_keys (<[index := mkKey false None]> (keys s)) s, Ok tt)
  end.
Definition slot_get (handle : Z) (s : Sched) : option (Result Z) :=
  match key_index handle s with
  | None => Some (Err EInvalidArgument)
  | Some index => t ← threads s !! current s; v ← slots t !! index; Some (Ok v)
  end.
Definition slot_set (handle value : Z) : Act (Result unit) := fun s =>
  match key_index handle s with
  | None => Some (s, Err EInvalidArgument)
  | Some index => s ← at_thread (current s) (fun t => set_slots (<[index := value]> (slots t)) t) s; Some (s, Ok tt)
  end.

(** ** The end of a thread *)
(** A destructor is foreign code: given its value it may change the state. *)
Context (call_destructor : Z -> Z -> Sched -> option Sched).
Fixpoint sweep (index : nat) (slot_indices : list nat) (again : bool) (s : Sched) : option (Sched * bool) :=
  match slot_indices with
  | [] => Some (s, again)
  | slot :: rest =>
      t ← threads s !! index; value ← slots t !! slot;
      s ← at_thread index (fun t => set_slots (<[slot := 0]> (slots t)) t) s;
      if value =? 0 then sweep index rest again s else
      k ← keys s !! slot;
      match key_used k, key_destructor k with
      | true, Some destructor => s ← call_destructor destructor value s; sweep index rest true s
      | _, _ => sweep index rest again s
      end
  end.
Fixpoint sweeps (rounds : nat) (index : nat) (s : Sched) : option Sched :=
  match rounds with
  | O => Some s
  | S rounds => '(s, again) ← sweep index (seq 0 MAX_TLS_SLOTS) false s; if again : bool then sweeps rounds index s else Some s
  end.
Definition run_destructors (index : nat) (s : Sched) : option Sched := sweeps 4 index s.
(** The last lines of [pal_thread_main] and [leave]; [false] when no thread is left and the machine exits. *)
Definition thread_leave (index : nat) : Act bool := fun s =>
  s ← at_thread index (fun t => set_reclaim (detached t) (set_state Finished t)) s;
  s ← reclaim_finished s;
  match next_live (current s) (threads s) with
  | None => Some (s, false)
  | Some next => Some (set_current next s, true)
  end.
(** [pal_thread_main] after the entry function has returned. *)
Definition thread_end (index : nat) : Act bool := fun s => s ← run_destructors index s; thread_leave index s.
End Threads.

(** ** Who owns which memory *)
Definition placed_ok (L : Placed) : Prop := RAM_START <= heap_start L /\ heap_start L + 2 * PAGE <= heap_end L /\ heap_end L <= RAM_START + RAM_PAGES * PAGE.
Section Owning.
Context (L : Placed) (HL : placed_ok L).
Abbreviation owns := (owned (heap_start L) (heap_end L)).
Abbreviation take_pages := (mem_take (heap_start L) (heap_end L) (image_data_bounds L) (ctr L)).
Abbreviation give_pages := (mem_give (heap_start L) (heap_end L) (image_data_bounds L) (ctr L)).
Lemma total_perm l k : l ≡ₚ k -> total l = total k.
Proof. induction 1; simpl; lia. Qed.
#[export] Instance owned_perm b : Proper ((≡ₚ) ==> iff) (owns b).
Proof.
  assert (forall l k, l ≡ₚ k -> owns b l -> owns b k) as H; [| intros l k Hp; split; apply H; [done | by symmetry]].
  intros l k Hp [Hok Hnd Hin Hap Ht Hall Htot]. constructor; [done | by rewrite <- Hp | intros p; rewrite <- Hp; apply Hin | intros p q x; rewrite <- !Hp; apply Hap | intros p x; rewrite <- Hp; apply Ht | | by rewrite <- (total_perm _ _ Hp)].
  intros x Hx. destruct (Hall x Hx) as [? | (p & Hp' & ?)]; [by left | right; exists p; by rewrite <- Hp].
Qed.
Lemma owned_ram f b l : owns b l -> owns (with_ram f b) l.
Proof. intros [Hok ? ? ? ? ? ?]. constructor; try done. by apply mem_ok_ram. Qed.
Lemma owned_zero a n b l : owns b l -> owns (mem_zero a n b) l.
Proof. intros [[? ? ? ?] ? ? ? ? ? ?]. constructor; try done. Qed.
Lemma filter_same (P : Z * Z -> Prop) `{forall x, Decision (P x)} (l : list (Z * Z)) : (forall q, q ∈ l -> P q) -> filter P l = l.
Proof. induction l as [| q l IH]; intros HP; [done |]. rewrite filter_cons_True by (apply HP; left). f_equal. apply IH. intros. apply HP. by right. Qed.
Lemma take_owned n b l : owns b l -> 0 <= n ->
  match take_pages n PAGE b with
  | Some (b', Some a) => owns b' ((a, n) :: l) /\ granted (heap_start L) (heap_end L) n PAGE a b b' /\ ram_of b' = ram_of b
  | Some (b', None) => b' = b /\ unavailable n PAGE b
  | None => False
  end.
Proof.
  intros Ho Hn. pose proof (mem_take_spec _ _ (image_data_bounds L) (ctr L) HL n PAGE b (ow_ok _ _ _ _ Ho) Hn ltac:(done)) as H.
  destruct (take_pages n PAGE b) as [[b' [a |]] |]; [| done | done]. destruct H as [Hg Hr]. split_and!; [by eapply owned_granted | done | done].
Qed.
Lemma give_owned a n b l : owns b ((a, n) :: l) -> exists b' (r : bool), give_pages a n b = Some (b', r) /\ owns b' (if r then l else (a, n) :: l) /\ ram_of b' = ram_of b.
Proof.
  intros Ho. assert ((a, n) ∈ (a, n) :: l) as Hin by left. destruct (within_nonneg _ _ HL a n (ow_within _ _ _ _ Ho _ Hin)) as [Ha Hn].
  pose proof (mem_give_spec _ _ (image_data_bounds L) (ctr L) HL a n b (ow_ok _ _ _ _ Ho) Ha Hn) as H. destruct (give_pages a n b) as [[b' []] |]; [| subst b'; by exists b, false | done].
  destruct H as (_ & _ & Hfree & _ & Hram & Hok). exists b', true. split_and!; [done | | done]. pose proof (owned_given _ _ (image_data_bounds L) HL a n b b' _ Ho Hin Hok Hfree) as Ho'.
  pose proof (ow_nodup _ _ _ _ Ho) as [Hno _]%NoDup_cons. rewrite filter_cons_False in Ho' by tauto. rewrite filter_same in Ho'; [done |]. intros q Hq ->. done.
Qed.
Lemma page_round n : 0 <= n <= u64_max - PAGE -> n <= mem_round_up n PAGE.
Proof. intros Hn. unfold mem_round_up. change PAGE with (2 ^ 12) in *. rewrite wrapping_add_small by (unfold u64_max in *; lia). apply round_up_pow2. lia. Qed.
Lemma page_round_nonneg n : 0 <= mem_round_up n PAGE.
Proof.
  unfold mem_round_up, mask_down. apply Z.land_nonneg. left. unfold wrapping_add. apply Z.mod_pos_bound. unfold u64_max. lia.
Qed.
(** A TLS block is fresh memory: a zeroed control block, the initialised image, zeros. *)
Definition tls_image (m m' : Z -> Z) (k : TlsBlock) : Prop :=
  forall x, t_base k <= x < t_base k + t_size k ->
  m' x = if (t_base k + TCB <=? x) && (x <? t_base k + TCB + (tdata_end L - tdata_start L)) then zero_at (t_base k) (t_size k) m (tdata_start L + (x - (t_base k + TCB))) else 0.
Lemma tls_allocate_owned b l : owns b l ->
  match tls_allocate L b with
  | Some (b', Some k) => owns b' ((t_base k, t_size k) :: l) /\ t_pointer k = t_base k /\ 0 < t_size k /\ tls_image (ram_of b) (ram_of b') k
  | Some (b', None) => b' = b
  | None => False
  end.
Proof.
  intros Ho. unfold tls_allocate. set (n := mem_round_up _ PAGE). pose proof (take_owned n b l Ho (page_round_nonneg _)) as H.
  destruct (take_pages n PAGE b) as [[b' [a |]] |]; cbn [mbind option_bind]; [| by destruct H | done]. destruct H as (Ho' & Hg & Hr). cbn [t_base t_size t_pointer].
  split_and!; [by apply owned_ram, owned_zero | done | apply (gr_within _ _ _ _ _ _ _ Hg) |]. intros x. cbn [t_base t_size]. intros Hx.
  change (copy_bytes (tdata_start L) (a + TCB) (tdata_end L - tdata_start L) (zero_at a n (ram_of b')) x = if (a + TCB <=? x) && (x <? a + TCB + (tdata_end L - tdata_start L)) then zero_at a n (ram_of b) (tdata_start L + (x - (a + TCB))) else 0).
  rewrite Hr. unfold copy_bytes. destruct (_ && _); [done |]. unfold zero_at. rewrite (proj2 (Z.leb_le _ _)), (proj2 (Z.ltb_lt _ _)) by lia. done.
Qed.
Lemma tls_release_owned k b l : owns b ((if t_size k =? 0 then [] else [(t_base k, t_size k)]) ++ l) ->
  exists b' lost, tls_release L k b = Some (b', tt) /\ owns b' (lost ++ l) /\ (lost = [] \/ lost = [(t_base k, t_size k)]).
Proof.
  unfold tls_release. destruct (t_size k =? 0); intros Ho; [exists b, []; split_and!; try done; by left |]. destruct (give_owned _ _ _ _ Ho) as (b' & r & -> & Ho' & _). cbn [mbind option_bind].
  destruct r; [exists b', [] | exists b', [(t_base k, t_size k)]]; split_and!; try done; [by left | by right].
Qed.
End Owning.

(** ** The table stays well formed *)
Definition blocks_of (t : Thread) : list (Z * Z) :=
  (if stack_size t =? 0 then [] else [(stack t, stack_size t)]) ++ (if t_size (tls t) =? 0 then [] else [(t_base (tls t), t_size (tls t))]).
Definition thread_blocks (ts : list Thread) : list (Z * Z) := ts ≫= blocks_of.
Definition thread_ok (t : Thread) : Prop := length (slots t) = MAX_TLS_SLOTS /\ length (name t) = 15%nat /\ (state t = Free -> blocks_of t = []).
(** [rest] is the memory that others hold, or that was lost because the region had no entry for it. *)
Record sched_ok (L : Placed) (s : Sched) (rest : list (Z * Z)) : Prop := {
  so_length : length (threads s) = MAX_THREADS;
  so_keys : length (keys s) = MAX_TLS_SLOTS;
  so_thread : Forall thread_ok (threads s);
  so_current : (current s < MAX_THREADS)%nat;
  so_owned : owned (heap_start L) (heap_end L) (bare s) (thread_blocks (threads s) ++ rest);
}.
Lemma empty_ok : thread_ok EMPTY.
Proof. done. Qed.
Lemma blocks_insert ts i t t' : ts !! i = Some t -> thread_blocks ts ++ blocks_of t' ≡ₚ thread_blocks (<[i := t']> ts) ++ blocks_of t.
Proof.
  intros Hi. unfold thread_blocks. rewrite <- (take_drop_middle ts i t Hi) at 1. rewrite insert_take_drop by (by eapply lookup_lt_Some). rewrite !bind_app, !bind_cons. solve_Permutation.
Qed.

Section Tables.
Context (L : Placed) (HL : placed_ok L).
Abbreviation owns := (owned (heap_start L) (heap_end L)).
Abbreviation give_pages := (mem_give (heap_start L) (heap_end L) (image_data_bounds L) (ctr L)).
(** The threads that [reclaim_finished] frees. *)
Definition dead (running i : nat) (t : Thread) : bool := negb (i =? running)%nat && is_state Finished t && reclaim t.
Definition freed (running i : nat) (t : Thread) : Thread := if dead running i t then EMPTY else t.
Lemma freed_ok running i t : thread_ok t -> thread_ok (freed running i t).
Proof. unfold freed. by destruct (dead running i t). Qed.
(** An update of one entry that keeps its memory. *)
Lemma sched_ok_insert s rest i t t' : sched_ok L s rest -> threads s !! i = Some t -> blocks_of t' = blocks_of t -> thread_ok t' -> sched_ok L (with_threads (<[i := t']> (threads s)) s) rest.
Proof.
  intros [H1 H2 H3 H4 H5] Hi Hb Ht. constructor; cbn [threads keys current bare with_threads]; [by rewrite length_insert | done | by apply Forall_insert | done |].
  pose proof (blocks_insert _ _ t t' Hi) as Hp. rewrite Hb in Hp. apply Permutation_app_inv_r in Hp. by rewrite <- Hp.
Qed.
Lemma sched_ok_rest s rest rest' : rest ≡ₚ rest' -> sched_ok L s rest -> sched_ok L s rest'.
Proof. intros Hp [? ? ? ? ?]. constructor; try done. by rewrite <- Hp. Qed.
Lemma reclaim_one_spec s rest running i t : sched_ok L s rest -> threads s !! i = Some t ->
  exists b lost, reclaim_one L running i s = Some (with_bare b (with_threads (<[i := freed running i t]> (threads s)) s)) /\
  sched_ok L (with_bare b (with_threads (<[i := freed running i t]> (threads s)) s)) (lost ++ rest) /\ (if dead running i t then lost ⊆ blocks_of t else lost = []).
Proof.
  intros Hok Hi. unfold reclaim_one, freed, dead. rewrite Hi. cbn [mbind option_bind]. destruct (i =? running)%nat; [| destruct (is_state Finished t); [destruct (reclaim t) |]]; cbn [negb orb andb].
  1, 3, 4: exists (bare s), []; rewrite list_insert_id by done; split_and!; [by destruct s | by destruct s, Hok | done].
  set (s1 := with_threads (<[i := EMPTY]> (threads s)) s). change (bare s1) with (bare s). pose proof Hok as [H1 H2 H3 H4 H5].
  pose proof (blocks_insert _ _ t EMPTY Hi) as Hp. change (blocks_of EMPTY) with (@nil (Z * Z)) in Hp. rewrite app_nil_r in Hp.
  assert (exists b r, (if stack_size t =? 0 then Some (bare s, true) else give_pages (stack t) (stack_size t) (bare s)) = Some (b, r) /\
    exists lost, owns b ((if t_size (tls t) =? 0 then [] else [(t_base (tls t), t_size (tls t))]) ++ lost ++ thread_blocks (threads s1) ++ rest) /\ lost ⊆ (if stack_size t =? 0 then [] else [(stack t, stack_size t)])) as (b & r & -> & lost & Ho & Hlost).
  { rewrite Hp in H5. unfold blocks_of in H5. change (<[i := EMPTY]> (threads s)) with (threads s1) in H5. destruct (stack_size t =? 0) eqn:Hz.
    - eexists _, _. split; [done |]. exists []. split; [| done]. eapply owned_perm; [| exact H5]. solve_Permutation.
    - destruct (give_owned L HL (stack t) (stack_size t) (bare s) ((if t_size (tls t) =? 0 then [] else [(t_base (tls t), t_size (tls t))]) ++ thread_blocks (threads s1) ++ rest)) as (b & r & Hg & Ho & _).
      { eapply owned_perm; [| exact H5]. solve_Permutation. }
      exists b, r. split; [done |]. exists (if r then [] else [(stack t, stack_size t)]). split; [| destruct r; set_solver]. eapply owned_perm; [| exact Ho]. destruct r; solve_Permutation. }
  cbn [mbind option_bind]. destruct (tls_release_owned L HL (tls t) b _ Ho) as (b' & lost' & -> & Ho' & Hl'). cbn [mbind option_bind].
  exists b', (lost' ++ lost). split; [done |]. split.
  - constructor; cbn [threads keys current bare with_threads with_bare s1]; [by rewrite length_insert | done | apply Forall_insert; [done | apply empty_ok] | done |]. eapply owned_perm; [| exact Ho']. solve_Permutation.
  - unfold blocks_of. intros p [Hp' | Hp']%elem_of_app; apply elem_of_app; [right | left; by apply Hlost]. destruct Hl' as [-> | ->]; [by apply not_elem_of_nil in Hp' |].
    destruct (t_size (tls t) =? 0) eqn:Hz; [| done]. exfalso. apply Z.eqb_eq in Hz. rewrite Hz in Ho'. destruct (ow_within _ _ _ _ Ho' (t_base (tls t), 0)) as (Hpos & _); [left | simpl in Hpos; lia].
Qed.
(** What a sweep over some entries leaves. *)
Lemma reclaim_from_spec running indices s rest : sched_ok L s rest -> NoDup indices -> Forall (fun i => i < MAX_THREADS)%nat indices ->
  exists s' lost, reclaim_from L running indices s = Some s' /\ sched_ok L s' (lost ++ rest) /\ current s' = current s /\ keys s' = keys s /\
  (forall i t, threads s !! i = Some t -> threads s' !! i = Some (if decide (i ∈ indices) then freed running i t else t)) /\
  (lost = [] \/ exists i t, threads s !! i = Some t /\ dead running i t = true).
Proof.
  intros Hok Hnd Hall. revert s rest Hok. induction Hnd as [| i indices Hi Hnd IH]; intros s rest Hok; [exists s, []; split_and!; try done; by left |].
  apply Forall_cons in Hall as [Hlt Hall]. destruct (lookup_lt_is_Some_2 (threads s) i) as [t Ht]; [by rewrite (so_length _ _ _ Hok) |].
  destruct (reclaim_one_spec s rest running i t Hok Ht) as (b & lost1 & He & Hok1 & Hl1). set (s1 := with_bare _ _) in *.
  destruct (IH Hall s1 _ Hok1) as (s' & lost2 & He2 & Hok2 & Hc & Hk & Hts & Hl2). exists s', (lost2 ++ lost1). cbn [reclaim_from]. rewrite He. cbn [mbind option_bind].
  split_and!; [done | by rewrite <- app_assoc | done | done | |].
  - intros j u Hj. destruct (decide (j = i)) as [-> | Hne].
    + rewrite Hj in Ht. injection Ht as ->. rewrite (Hts i (freed running i t)); [rewrite decide_False, decide_True by (done || by left); done |]. cbn. by rewrite list_lookup_insert_eq by (by eapply lookup_lt_Some).
    + rewrite (Hts j u); [| cbn; by rewrite list_lookup_insert_ne]. f_equal. apply decide_ext. rewrite elem_of_cons. tauto.
  - destruct (dead running i t) eqn:Hd; [right; by exists i, t |]. subst lost1. destruct Hl2 as [-> | (j & u & Hj & Hdead)]; [by left | right].
    destruct (decide (j = i)) as [-> | Hne]; [exists i, t; split; [done |] | exists j, u; split; [| done]; cbn in Hj; by rewrite list_lookup_insert_ne in Hj].
    exfalso. cbn in Hj. rewrite list_lookup_insert_eq in Hj by (by eapply lookup_lt_Some). injection Hj as <-. unfold freed in Hdead. rewrite Hd in Hdead. congruence.
Qed.
Lemma reclaim_spec s rest : sched_ok L s rest ->
  exists s' lost, reclaim_finished L s = Some s' /\ sched_ok L s' (lost ++ rest) /\ current s' = current s /\ keys s' = keys s /\
  (forall i t, threads s !! i = Some t -> threads s' !! i = Some (freed (current s) i t)) /\
  (lost = [] \/ exists i t, threads s !! i = Some t /\ dead (current s) i t = true).
Proof.
  intros Hok. destruct (reclaim_from_spec (current s) (seq 0 MAX_THREADS) s rest Hok) as (s' & lost & ? & ? & ? & ? & Hts & ?); [apply NoDup_seq | apply Forall_forall; intros i Hi; apply elem_of_seq in Hi; lia |].
  exists s', lost. split_and!; try done. intros i t Hi. rewrite (Hts i t Hi), decide_True; [done |]. apply elem_of_seq. pose proof (lookup_lt_Some _ _ _ Hi). rewrite (so_length _ _ _ Hok) in *. lia.
Qed.
End Tables.

(** ** Round robin *)
(** How many entries [j] is ahead of [i]. *)
Definition ahead (i j : nat) : nat := ((j + MAX_THREADS - i) mod MAX_THREADS)%nat.
Lemma ahead_step i k : (i < MAX_THREADS)%nat -> (1 <= k <= MAX_THREADS)%nat -> ahead i ((i + k) mod MAX_THREADS) = (k mod MAX_THREADS)%nat.
Proof.
  unfold ahead, MAX_THREADS. intros Hi Hk. destruct (decide (i + k < 16)%nat); [rewrite (Nat.mod_small (i + k)) by lia; replace (i + k + 16 - i)%nat with (k + 1 * 16)%nat by lia; by rewrite Nat.Div0.mod_add |].
  assert (i + k < 32)%nat by lia. replace (i + k)%nat with ((i + k - 16) + 1 * 16)%nat by lia. rewrite Nat.Div0.mod_add, (Nat.mod_small (i + k - 16)) by lia.
  replace (i + k - 16 + 16 - i)%nat with k by lia. done.
Qed.
Lemma ahead_inv i j : (i < MAX_THREADS)%nat -> (j < MAX_THREADS)%nat -> ((i + ahead i j) mod MAX_THREADS = j)%nat.
Proof.
  unfold ahead, MAX_THREADS. intros Hi Hj. destruct (decide (i <= j)%nat).
  - replace (j + 16 - i)%nat with ((j - i) + 1 * 16)%nat by lia. rewrite Nat.Div0.mod_add, (Nat.mod_small (j - i)) by lia. rewrite Nat.mod_small; lia.
  - rewrite (Nat.mod_small (j + 16 - i)) by lia. replace (i + (j + 16 - i))%nat with (j + 1 * 16)%nat by lia. rewrite Nat.Div0.mod_add, Nat.mod_small; lia.
Qed.
Lemma ahead_bound i j : (i < MAX_THREADS)%nat -> (j < MAX_THREADS)%nat -> (ahead i j < MAX_THREADS)%nat /\ (ahead i j = 0 <-> i = j)%nat.
Proof.
  intros Hi Hj. split; [apply Nat.mod_upper_bound; done |]. split; [| intros ->; unfold ahead; by replace (j + MAX_THREADS - j)%nat with MAX_THREADS by lia].
  intros H. pose proof (ahead_inv i j Hi Hj) as He. rewrite H, Nat.add_0_r, Nat.mod_small in He; lia.
Qed.
Lemma ahead_via i n j : (i < MAX_THREADS)%nat -> (n < MAX_THREADS)%nat -> (j < MAX_THREADS)%nat -> (ahead i n <= ahead i j)%nat -> ahead n j = (ahead i j - ahead i n)%nat.
Proof.
  intros Hi Hn Hj. pose proof (ahead_bound i n Hi Hn) as [Hb1 _]. pose proof (ahead_bound i j Hi Hj) as [Hb2 _]. pose proof (ahead_inv i n Hi Hn) as H1. pose proof (ahead_inv i j Hi Hj) as H2.
  set (a := ahead i n) in *. set (b := ahead i j) in *. clearbody a b. intros Hab. unfold ahead, MAX_THREADS in *. subst n j.
  destruct (decide (i + b < 16)%nat); [rewrite !(Nat.mod_small (i + _)) by lia; replace (i + b + 16 - (i + a))%nat with (b - a + 1 * 16)%nat by lia; rewrite Nat.Div0.mod_add, Nat.mod_small; lia |].
  replace ((i + b) mod 16)%nat with (i + b - 16)%nat by (replace (i + b)%nat with (i + b - 16 + 1 * 16)%nat at 2 by lia; rewrite Nat.Div0.mod_add, Nat.mod_small; lia).
  destruct (decide (i + a < 16)%nat); [rewrite (Nat.mod_small (i + a)) by lia; rewrite Nat.mod_small; lia |].
  replace ((i + a) mod 16)%nat with (i + a - 16)%nat by (replace (i + a)%nat with (i + a - 16 + 1 * 16)%nat at 2 by lia; rewrite Nat.Div0.mod_add, Nat.mod_small; lia).
  replace (i + b - 16 + 16 - (i + a - 16))%nat with (b - a + 1 * 16)%nat by lia. rewrite Nat.Div0.mod_add, Nat.mod_small; lia.
Qed.
Lemma find_fmap_first {A} (p : A -> bool) (f : nat -> A) a n x : find p (f <$> seq a n) = Some x ->
  exists k, (a <= k < a + n)%nat /\ x = f k /\ p x = true /\ forall j, (a <= j < k)%nat -> p (f j) = false.
Proof.
  revert a. induction n as [| n IH]; intros a; [done |]. cbn [seq fmap list_fmap find]. destruct (p (f a)) eqn:Hp.
  - intros [= <-]. exists a. split_and!; [lia | lia | done | done |]. intros; lia.
  - intros (k & Hk & -> & Hpk & Hj)%IH. exists k. split_and!; [lia | lia | done | done |]. intros j Hjk. destruct (decide (j = a)) as [-> | ?]; [done | apply Hj; lia].
Qed.
Lemma next_live_ext i ts ts' : (forall j, live_at ts j = live_at ts' j) -> next_live i ts = next_live i ts'.
Proof. intros H. unfold next_live. generalize ((fun step => (i + step) mod MAX_THREADS)%nat <$> seq 1 MAX_THREADS). induction l as [| j l IH]; simpl; [done |]. by rewrite H, IH. Qed.
(** The next thread is the closest live one. *)
Lemma next_live_Some i ts n : (i < MAX_THREADS)%nat -> next_live i ts = Some n ->
  (n < MAX_THREADS)%nat /\ n <> i /\ live_at ts n = true /\ forall j, (j < MAX_THREADS)%nat -> j <> i -> live_at ts j = true -> (ahead i n <= ahead i j)%nat.
Proof.
  intros Hi (k & Hk & -> & [Hne%negb_true_iff%Nat.eqb_neq Hl]%andb_true_iff & Hfirst)%find_fmap_first. assert (1 <= k <= MAX_THREADS)%nat as Hk' by lia.
  split_and!; [apply Nat.mod_upper_bound; done | done | done |]. intros j Hj Hji Hlj. rewrite ahead_step by lia.
  destruct (decide (k mod MAX_THREADS <= ahead i j)%nat) as [? | Hgt]; [done | exfalso]. destruct (ahead_bound i j Hi Hj) as [Hb Hz].
  assert (k = MAX_THREADS \/ k < MAX_THREADS)%nat as [-> | Hlt] by lia.
  { apply Hne. rewrite <- (Nat.mod_small i MAX_THREADS) at 2 by done. replace (i + MAX_THREADS)%nat with (i + 1 * MAX_THREADS)%nat by lia. by rewrite Nat.Div0.mod_add. }
  rewrite Nat.mod_small in Hgt by lia. specialize (Hfirst (ahead i j) ltac:(destruct (ahead i j) eqn:?; [by destruct Hji; symmetry; apply Hz | lia])).
  rewrite ahead_inv, Hlj in Hfirst by done. apply andb_false_iff in Hfirst as [Hf%negb_false_iff%Nat.eqb_eq | ?]; done.
Qed.
Lemma next_live_None i ts j : (i < MAX_THREADS)%nat -> (j < MAX_THREADS)%nat -> next_live i ts = None -> live_at ts j = true -> j = i.
Proof.
  intros Hi Hj Hn Hl. unfold next_live in Hn. destruct (decide (j = i)) as [| Hne]; [done | exfalso]. destruct (ahead_bound i j Hi Hj) as [Hb Hz].
  pose proof (find_none _ _ Hn j) as H. cbv beta in H. rewrite Hl, (proj2 (Nat.eqb_neq _ _)) in H by done. discriminate H. apply list_elem_of_In.
  apply list_elem_of_fmap. exists (ahead i j). split; [by rewrite ahead_inv |]. apply elem_of_seq. destruct (ahead i j) eqn:?; [by destruct Hne; symmetry; apply Hz | lia].
Qed.

Section Scheduling.
Context (L : Placed) (HL : placed_ok L).
Lemma freed_live running i t : is_state Live (freed running i t) = is_state Live t.
Proof. unfold freed, dead, is_state. destruct (negb _), (state t) eqn:Hs, (reclaim t); simpl; rewrite ?Hs; done. Qed.
Lemma reclaim_live s s' : length (threads s') = length (threads s) -> (forall i t, threads s !! i = Some t -> threads s' !! i = Some (freed (current s) i t)) -> forall i, live_at (threads s') i = live_at (threads s) i.
Proof.
  intros Hlen Hts i. unfold live_at. destruct (threads s !! i) as [t |] eqn:Ht; [rewrite (Hts i t Ht); apply freed_live |]. apply lookup_ge_None in Ht. by rewrite (proj2 (lookup_ge_None _ _)) by lia.
Qed.
Lemma sched_ok_current s rest i : sched_ok L s rest -> (i < MAX_THREADS)%nat -> sched_ok L (set_current i s) rest.
Proof. intros [? ? ? ? ?] Hi. by constructor. Qed.
(** Handing the CPU over: what [schedule] and [leave] have in common. *)
Lemma schedule_spec frame s rest : sched_ok L s rest ->
  exists s' r lost, schedule L frame s = Some (s', r) /\ sched_ok L s' (lost ++ rest) /\ keys s' = keys s /\ (forall i, live_at (threads s') i = live_at (threads s) i) /\
  (if r : bool then next_live (current s) (threads s') = Some (current s') else current s' = current s /\ forall j, (j < MAX_THREADS)%nat -> live_at (threads s) j = true -> j = current s).
Proof.
  intros Hok. unfold schedule. destruct (reclaim_spec L HL s rest Hok) as (s1 & lost & -> & Hok1 & Hc & Hk & Hts & _). cbn [mbind option_bind].
  assert (forall i, live_at (threads s1) i = live_at (threads s) i) as Hlive by (apply reclaim_live; [by rewrite (so_length _ _ _ Hok), (so_length _ _ _ Hok1) | done]).
  destruct (next_live (current s1) (threads s1)) as [n |] eqn:Hn.
  - destruct (lookup_lt_is_Some_2 (threads s1) (current s1)) as [t Ht]; [rewrite (so_length _ _ _ Hok1); apply (so_current _ _ _ Hok1) |]. unfold at_thread. rewrite Ht. cbn [mbind option_bind].
    assert (forall i, live_at (<[current s1 := set_sp frame t]> (threads s1)) i = live_at (threads s1) i) as Hsame.
    { intros i. unfold live_at. destruct (decide (i = current s1)) as [-> | Hne]; [by rewrite list_lookup_insert_eq, Ht by (by eapply lookup_lt_Some) | by rewrite list_lookup_insert_ne]. }
    assert (thread_ok t) as Htok by (eapply (proj1 (Forall_lookup _ _) (so_thread _ _ _ Hok1)); done).
    eexists _, true, lost. split; [done |]. split; [apply sched_ok_current; [by eapply sched_ok_insert | apply (next_live_Some _ _ _ (so_current _ _ _ Hok1) Hn)] |]. cbn. split; [done |]. split; [intros i; by rewrite Hsame |].
    rewrite <- Hc, <- Hn. by apply next_live_ext.
  - eexists _, false, lost. split; [done |]. split; [done |]. split; [done |]. split; [done |]. split; [done |]. intros j Hj Hl. rewrite <- Hc. apply (next_live_None _ (threads s1)); [apply (so_current _ _ _ Hok1) | done | done |]. by rewrite Hlive.
Qed.
Lemma thread_leave_spec s rest : sched_ok L s rest -> (exists t, threads s !! current s = Some t /\ state t = Live) ->
  exists s' r lost, thread_leave L (current s) s = Some (s', r) /\ sched_ok L s' (lost ++ rest) /\ keys s' = keys s /\ (forall i, live_at (threads s') i = negb (i =? current s)%nat && live_at (threads s) i) /\
  (if r : bool then next_live (current s) (threads s') = Some (current s') else forall j, (j < MAX_THREADS)%nat -> live_at (threads s) j = true -> j = current s).
Proof.
  intros Hok (t & Ht & Hlive). unfold thread_leave, at_thread. rewrite Ht. cbn [mbind option_bind]. set (t' := set_reclaim (detached t) (set_state Finished t)).
  assert (thread_ok t) as Htok by (eapply (proj1 (Forall_lookup _ _) (so_thread _ _ _ Hok)); done).
  assert (sched_ok L (with_threads (<[current s := t']> (threads s)) s) rest) as Hok1 by (apply (sched_ok_insert L s rest _ t); [done | done | done |]; destruct Htok as (? & ? & _); split_and!; done).
  destruct (reclaim_spec L HL _ rest Hok1) as (s1 & lost & -> & Hok2 & Hc & Hk & Hts & _). cbn [mbind option_bind]. cbn [with_threads current keys threads] in Hc, Hk, Hts.
  assert (forall i, live_at (threads s1) i = negb (i =? current s)%nat && live_at (threads s) i) as Hl.
  { intros i. rewrite (reclaim_live (with_threads (<[current s := t']> (threads s)) s) s1); [| by rewrite (so_length _ _ _ Hok1), (so_length _ _ _ Hok2) | done]. unfold live_at. cbn [with_threads threads].
    destruct (Nat.eqb_spec i (current s)) as [-> | Hne]; [by rewrite list_lookup_insert_eq by (by eapply lookup_lt_Some) | by rewrite list_lookup_insert_ne]. }
  destruct (next_live (current s1) (threads s1)) as [n |] eqn:Hn.
  - eexists _, true, lost. split; [done |]. split; [apply sched_ok_current; [done | apply (next_live_Some _ _ _ (so_current _ _ _ Hok2) Hn)] |]. split; [done |]. split; [done |]. cbn. by rewrite <- Hc.
  - eexists _, false, lost. split; [done |]. split; [done |]. split; [done |]. split; [done |]. intros j Hj Hlj. destruct (decide (j = current s)) as [| Hne]; [done |].
    rewrite <- Hc. apply (next_live_None _ (threads s1)); [apply (so_current _ _ _ Hok2) | done | done |]. by rewrite Hl, Hlj, (proj2 (Nat.eqb_neq _ _)) by done.
Qed.
(** One turn on the CPU: the thread that runs does anything, stays the running one and leaves [t] live, and then hands the CPU over by waiting or by ending. *)
Inductive turn (t : nat) (s s' : Sched) : Prop :=
| turn_wait s1 rest frame : current s1 = current s -> sched_ok L s1 rest -> live_at (threads s1) t = true -> schedule L frame s1 = Some (s', true) -> turn t s s'
| turn_end s1 rest : current s1 = current s -> current s <> t -> sched_ok L s1 rest -> live_at (threads s1) (current s1) = true -> live_at (threads s1) t = true ->
    thread_leave L (current s1) s1 = Some (s', true) -> turn t s s'.
Lemma turn_next t s s' : turn t s s' -> exists ts, next_live (current s) ts = Some (current s') /\ live_at ts t = true /\ (current s < MAX_THREADS)%nat.
Proof.
  intros [s1 rest frame Hc Hok Hl He | s1 rest Hc Hne Hok Hlc Hl He].
  - destruct (schedule_spec frame s1 rest Hok) as (s2 & r & lost & He' & _ & _ & Hlive & Hr). rewrite He in He'. injection He' as <- <-. exists (threads s'). rewrite Hlive, <- Hc. split_and!; [done | done | apply (so_current _ _ _ Hok)].
  - assert (exists u, threads s1 !! current s1 = Some u /\ state u = Live) as Hu.
    { unfold live_at in Hlc. destruct (threads s1 !! current s1) as [u |]; [| done]. exists u. split; [done |]. by apply bool_decide_eq_true in Hlc. }
    destruct (thread_leave_spec s1 rest Hok Hu) as (s2 & r & lost & He' & _ & _ & Hlive & Hr). rewrite He in He'. injection He' as <- <-. exists (threads s'). rewrite Hlive, Hc, Hl, (proj2 (Nat.eqb_neq _ _)) by done. rewrite <- Hc. split_and!; [done | done | apply (so_current _ _ _ Hok)].
Qed.
(** C35: no live thread starves.  While a thread is live, a thread that waits or yields always hands the CPU to another one, the turns go round the table, and a live thread runs after at most 14 turns of other threads, whatever those do. *)
Theorem round_robin t s : (t < MAX_THREADS)%nat -> current s <> t ->
  (forall rest frame, sched_ok L s rest -> live_at (threads s) t = true -> exists s', schedule L frame s = Some (s', true)) /\
  forall k s', nsteps (fun a b => turn t a b /\ current b <> t) k s s' -> (k < MAX_THREADS - 1)%nat.
Proof.
  intros Ht Hne. split.
  - intros rest frame Hok Hl. destruct (schedule_spec frame s rest Hok) as (s' & [] & lost & He & _ & _ & _ & Hr); [by exists s' |]. destruct Hr as [_ Hr]. by destruct Hne; symmetry; apply Hr.
  - intros k s' Hsteps. destruct (decide (current s < MAX_THREADS)%nat) as [Hlt |]; [| destruct Hsteps as [| ? ? ? ? [(? & _ & _ & ?)%turn_next _] _]; [unfold MAX_THREADS; lia | done]].
    assert (k + 1 <= ahead (current s) t)%nat as Hk; [| pose proof (proj1 (ahead_bound _ _ Hlt Ht)); lia].
    induction Hsteps as [s | k s s1 s' [Hturn Hne1] Hsteps IH].
    + destruct (ahead_bound _ _ Hlt Ht) as [_ Hz]. destruct (ahead (current s) t) eqn:?; [by destruct Hne; apply Hz | lia].
    + destruct (turn_next _ _ _ Hturn) as (ts & Hn & Hl & _). destruct (next_live_Some _ _ _ Hlt Hn) as (Hlt1 & Hne2 & _ & Hmin). specialize (IH Hne1 Hlt1). specialize (Hmin t Ht (not_eq_sym Hne) Hl).
      rewrite (ahead_via (current s) (current s1) t) in IH by done. destruct (ahead_bound _ _ Hlt Hlt1) as [_ Hz]. destruct (ahead (current s) (current s1)) eqn:?; [by destruct Hne2; symmetry; apply Hz | lia].
Qed.
End Scheduling.

(** ** Creating a thread *)
Section Creating.
Context (L : Placed) (HL : placed_ok L).
Lemma index_handle base size limit i : 0 < size -> (i < limit)%nat -> index_in base size limit (base + Z.of_nat i * size) = Some i.
Proof.
  intros Hs Hi. unfold index_in. rewrite (proj2 (Z.ltb_ge _ _)) by nia. rewrite Z.add_simpl_l, Z_mod_mult, Z.div_mul, Nat2Z.id by lia. by rewrite (proj2 (Nat.ltb_lt _ _)).
Qed.
Lemma index_in_Some base size limit h i : 0 < size -> index_in base size limit h = Some i -> h = base + Z.of_nat i * size /\ (i < limit)%nat.
Proof.
  intros Hs. unfold index_in. destruct (Z.ltb_spec h base); [done |]. destruct (Z.eqb_spec ((h - base) mod size) 0) as [Hm |]; [| done]. cbn [negb orb]. destruct (Nat.ltb_spec (Z.to_nat ((h - base) / size)) limit); [| done].
  intros [= <-]. split; [| done]. rewrite Z2Nat.id by (apply Z.div_pos; lia). pose proof (Z.div_mod (h - base) size ltac:(lia)). lia.
Qed.
(** The register frame that the first switch to a thread restores: inside the stack, aligned, with the index, the trampoline and the thread pointer in their slots. *)
Definition frame_ok (m : Z -> Z) (i : nat) (t : Thread) : Prop :=
  stack t <= sp t /\ sp t + FRAME <= stack t + stack_size t /\ sp t mod 16 = 0 /\
  load64 m (sp t) = Z.of_nat i /\ load64 m (sp t + 88) = trampoline L /\ load64 m (sp t + 96) = t_pointer (tls t).
Lemma frame_words m f i tr ptr : 0 <= f -> (i < MAX_THREADS)%nat -> 0 <= tr <= u64_max -> 0 <= ptr <= u64_max ->
  let m' := store64 (store64 (store64 m f (Z.of_nat i)) (f + 88) tr) (f + 96) ptr in
  load64 m' f = Z.of_nat i /\ load64 m' (f + 88) = tr /\ load64 m' (f + 96) = ptr.
Proof.
  intros Hf Hi Htr Hptr. split_and!.
  - rewrite !(load_ext (store64 m f (Z.of_nat i))) by (intros; rewrite !store_other by lia; done). apply load_store_same. unfold MAX_THREADS, u64_max in *. lia.
  - rewrite (load_ext (store64 (store64 m f (Z.of_nat i)) (f + 88) tr)) by (intros; rewrite store_other by lia; done). by apply load_store_same.
  - by apply load_store_same.
Qed.
Definition first_free (ts : list Thread) (i : nat) : Prop :=
  (exists t, ts !! i = Some t /\ state t = Free) /\ forall j t, (j < i)%nat -> ts !! j = Some t -> state t <> Free.
(** Creating a thread takes the first free entry, a stack of whole pages of at least the size asked for, and a TLS block, all fresh memory that nobody else holds, and leaves a register frame inside the stack that enters the trampoline with the thread's index and thread pointer; the other threads stay as they were.  The only error is [OutOfMemory], and it leaves the table and the memory as they were. *)
Theorem thread_create_exact thread_entry thread_argument wanted s rest : sched_ok L s rest -> 0 <= wanted <= u64_max - PAGE -> 0 <= trampoline L <= u64_max ->
  exists s' r, create L thread_entry thread_argument wanted s = Some (s', r) /\ sched_ok L s' rest /\ current s' = current s /\ keys s' = keys s /\
  match r with
  | Err e => e = EOutOfMemory /\ threads s' = threads s
  | Ok h => exists i t, h = handle_of L i /\ first_free (threads s) i /\ threads s' = <[i := t]> (threads s) /\
      state t = Live /\ entry t = Some thread_entry /\ argument t = thread_argument /\ Z.max wanted MIN_STACK <= stack_size t /\ stack_low t = stack t /\ stack_high t = stack t + stack_size t /\
      t_pointer (tls t) = t_base (tls t) /\ 0 < t_size (tls t) /\ slots t = replicate MAX_TLS_SLOTS 0 /\ frame_ok (ram_of (bare s')) i t
  end.
Proof.
  intros Hok Hw Htr. pose proof Hok as [H1 H2 H3 H4 H5]. unfold create. destruct (find _ (seq 0 MAX_THREADS)) as [i |] eqn:Hf; [| by eexists s, _].
  rewrite <- (list_fmap_id (seq 0 MAX_THREADS)) in Hf. apply find_fmap_first in Hf as (k & Hk & He & Hfree & Hfirst). simpl in He. subst k. cbv beta in Hfree.
  destruct (threads s !! i) as [told |] eqn:Hi; [| done]. apply bool_decide_eq_true in Hfree.
  assert (first_free (threads s) i) as Hff. { split; [by exists told |]. intros j u Hj Hu Hs. specialize (Hfirst j ltac:(lia)). cbv beta in Hfirst. simpl in Hfirst. rewrite Hu in Hfirst. by apply bool_decide_eq_false in Hfirst. }
  set (n := if wanted =? 0 then DEFAULT_STACK else Z.max wanted MIN_STACK). assert (Z.max wanted MIN_STACK <= n <= u64_max - PAGE) as Hn by (unfold n, DEFAULT_STACK, MIN_STACK, u64_max, PAGE in *; destruct (Z.eqb_spec wanted 0); lia).
  pose proof (page_round n ltac:(unfold MIN_STACK in *; lia)) as Hsize. set (size := mem_round_up n PAGE) in *.
  pose proof (take_owned L HL size (bare s) _ H5 (page_round_nonneg n)) as Ht. destruct (mem_take _ _ _ _ size PAGE (bare s)) as [[b1 [a |]] |]; cbn [mbind option_bind]; [| destruct Ht as [-> _]; eexists _, _; split; [done |]; by destruct s, Hok | done].
  destruct Ht as (Ho1 & Hg & Hram1). pose proof (tls_allocate_owned L HL b1 _ Ho1) as Ht. destruct (tls_allocate L b1) as [[b2 [k |]] |]; cbn [mbind option_bind]; [| | done].
  2: { subst b2. destruct (give_granted _ _ (image_data_bounds L) (ctr L) HL size PAGE a _ _ (ow_ok _ _ _ _ H5) Hg) as (b2 & Hgive). destruct (give_owned L HL a size b1 _ Ho1) as (b3 & r & Hgive' & Ho3 & _).
       rewrite Hgive in Hgive'. injection Hgive' as <- <-. rewrite Hgive. cbn [mbind option_bind]. eexists _, _. split; [done |]. split; [by constructor |]. done. }
  destruct Ht as (Ho2 & Hptr & Htls & _). set (f := mask_down (a + size - FRAME) 16). set (t := mkThread Live _ _ _ _ _ _ _ _ _ _ _ _ _).
  unfold at_thread. cbn [threads with_bare]. rewrite Hi. cbn [mbind option_bind]. eexists _, _. split; [done |].
  assert (blocks_of t = [(a, size); (t_base k, t_size k)]) as Hb. { unfold blocks_of. cbn [t stack_size stack tls]. rewrite !(proj2 (Z.eqb_neq _ _)) by (unfold MIN_STACK in *; lia). done. }
  assert (blocks_of told = []) as Hold by (eapply (proj1 (Forall_lookup _ _) H3); done).
  split; [constructor; cbn; [by rewrite length_insert | done | apply Forall_insert; done | done |] | split; [done |]; split; [done |]].
  { apply owned_ram, owned_zero. pose proof (blocks_insert _ _ told t Hi) as Hp. rewrite Hb, Hold, app_nil_r in Hp. rewrite <- Hp. eapply owned_perm; [| exact Ho2]. solve_Permutation. }
  exists i, t. pose proof (within_nonneg _ _ HL a size (gr_within _ _ _ _ _ _ _ Hg)) as [Ha _]. pose proof (mask_down_pow2 (a + size - FRAME) 4 ltac:(lia)) as Hmask. change (2 ^ 4) with 16 in Hmask. pose proof (Z.mod_pos_bound (a + size - FRAME) 16 ltac:(lia)) as Hmod.
  assert ((t_base k, t_size k) ∈ (t_base k, t_size k) :: (a, size) :: thread_blocks (threads s) ++ rest) as Hin by left.
  pose proof (ow_within _ _ _ _ Ho2 _ Hin) as (_ & _ & _ & Hlo & Hhi & _). pose proof (bounds_small _ _ HL) as [Hbs1 Hbs2]. unfold low, high in *. cbn [fst snd] in Hlo, Hhi.
  assert (a <= f /\ f + FRAME <= a + size /\ f mod 16 = 0) as (Hf1 & Hf2 & Hf3).
  { unfold f. rewrite Hmask. unfold FRAME, MIN_STACK in *. split_and!; [lia | lia |]. pose proof (Z.div_mod (a + size - 176) 16 ltac:(lia)).
    replace (a + size - 176 - (a + size - 176) mod 16) with ((a + size - 176) / 16 * 16) by lia. apply Z_mod_mult. }
  destruct (frame_words (zero_at f FRAME (ram_of b2)) f i (trampoline L) (t_pointer k)) as (? & ? & ?); [lia | lia | done | rewrite Hptr; lia |].
  split_and!; try done; cbn [t stack_size]; lia.
Qed.
End Creating.

(** ** Thread-local slots *)
Section Slots.
Context (L : Placed) (Hkeys : 0 < key_size L).
(** What thread [t] has in slot [i]. *)
Definition slot_value (s : Sched) (t i : nat) : option Z := u ← threads s !! t; slots u !! i.
Lemma key_index_Some h s i : key_index L h s = Some i <-> h = keys_base L + Z.of_nat i * key_size L /\ (i < MAX_TLS_SLOTS)%nat /\ exists k, keys s !! i = Some k /\ key_used k = true.
Proof.
  unfold key_index. split.
  - destruct (index_in _ _ _ h) as [j |] eqn:Hj; [| done]. cbn [mbind option_bind]. destruct (keys s !! j) as [k |] eqn:Hk; [| done]. cbn [mbind option_bind]. destruct (key_used k) eqn:Hu; [| done]. intros [= ->].
    destruct (index_in_Some _ _ _ _ _ Hkeys Hj) as [-> ?]. split_and!; try done. by exists k.
  - intros (-> & Hi & k & Hk & Hu). rewrite index_handle by done. cbn [mbind option_bind]. rewrite Hk. cbn [mbind option_bind]. by rewrite Hu.
Qed.
Lemma slot_value_lt s rest t i : sched_ok L s rest -> (t < MAX_THREADS)%nat -> (i < MAX_TLS_SLOTS)%nat -> is_Some (slot_value s t i).
Proof.
  intros Hok Ht Hi. unfold slot_value. destruct (lookup_lt_is_Some_2 (threads s) t) as [u Hu]; [by rewrite (so_length _ _ _ Hok) |]. rewrite Hu. cbn [mbind option_bind]. apply lookup_lt_is_Some_2.
  destruct (proj1 (Forall_lookup _ _) (so_thread _ _ _ Hok) t u Hu) as [-> _]. done.
Qed.
Lemma slot_value_insert s t u f : threads s !! t = Some u -> forall t' i',
  slot_value (with_threads (<[t := set_slots f u]> (threads s)) s) t' i' = if decide (t' = t) then f !! i' else slot_value s t' i'.
Proof.
  intros Ht t' i'. unfold slot_value. cbn [with_threads threads]. case_decide as Hd; [subst t'; rewrite list_lookup_insert_eq by (by eapply lookup_lt_Some); done | by rewrite list_lookup_insert_ne].
Qed.
(** A thread-local slot is private to its thread and its key.  A new key was not in use and reads null in every thread; what a thread sets it reads back, and no other slot of any thread changes; a handle that is no key in use is an invalid argument and changes nothing, also after the key was destroyed. *)
Theorem slots_private s rest : sched_ok L s rest ->
  (forall d, match slot_create L d s with
    | Some (s', Ok h) => key_index L h s = None /\ (exists i, key_index L h s' = Some i /\ forall t, (t < MAX_THREADS)%nat -> slot_value s' t i = Some 0) /\
        forall h' j, key_index L h' s = Some j -> key_index L h' s' = Some j /\ forall t, slot_value s' t j = slot_value s t j
    | Some (s', Err e) => e = EOutOfMemory /\ s' = s /\ forall i k, keys s !! i = Some k -> key_used k = true
    | None => False end) /\
  (forall h v i, key_index L h s = Some i -> exists s', slot_set L h v s = Some (s', Ok tt) /\ slot_get L h s' = Some (Ok v) /\ keys s' = keys s /\
     forall t j, ~ (t = current s /\ j = i) -> slot_value s' t j = slot_value s t j) /\
  (forall h, key_index L h s = None -> slot_get L h s = Some (Err EInvalidArgument) /\ slot_destroy L h s = Some (s, Err EInvalidArgument) /\ forall v, slot_set L h v s = Some (s, Err EInvalidArgument)) /\
  (forall h i, key_index L h s = Some i -> exists s', slot_destroy L h s = Some (s', Ok tt) /\ key_index L h s' = None /\ forall h', h' <> h -> key_index L h' s' = key_index L h' s).
Proof.
  intros Hok. pose proof Hok as [H1 H2 H3 H4 _]. split_and!.
  - intros d. unfold slot_create. destruct (find _ (seq 0 MAX_TLS_SLOTS)) as [i |] eqn:Hf.
    + apply find_some in Hf as [Hi%list_elem_of_In Hu]. apply elem_of_seq in Hi. destruct (keys s !! i) as [k |] eqn:Hk; [| done]. apply negb_true_iff in Hu.
      assert (forall t j, slot_value (with_threads ((fun t => set_slots (<[i := 0]> (slots t)) t) <$> threads s) (with_keys (<[i := mkKey true d]> (keys s)) s)) t j = (u ← threads s !! t; <[i := 0]> (slots u) !! j)) as Hval.
      { intros t j. unfold slot_value. cbn [with_threads threads]. rewrite list_lookup_fmap. by destruct (threads s !! t). }
      split; [| split].
      * apply eq_None_not_Some. intros [j (Hh & _ & k' & Hk' & Hu')%key_index_Some]. assert (j = i) as -> by nia. congruence.
      * exists i. split; [apply key_index_Some; split; [done |]; split; [lia |]; exists (mkKey true d); split; [| done]; cbn; by rewrite list_lookup_insert_eq by lia |].
        intros t Ht. cbn [with_threads with_keys threads keys] in *. rewrite Hval. destruct (lookup_lt_is_Some_2 (threads s) t ltac:(lia)) as [u Hu']. rewrite Hu'. cbn [mbind option_bind].
        apply list_lookup_insert_eq. destruct (proj1 (Forall_lookup _ _) H3 t u Hu') as [-> _]. lia.
      * intros h' j (-> & Hj & k' & Hk' & Hu')%key_index_Some. assert (j <> i) as Hne by congruence. split.
        -- apply key_index_Some. split; [done |]. split; [done |]. exists k'. split; [| done]. cbn. by rewrite list_lookup_insert_ne.
        -- intros t. cbn [with_threads with_keys threads keys] in *. rewrite Hval. unfold slot_value. destruct (threads s !! t); [| done]. cbn [mbind option_bind]. by rewrite list_lookup_insert_ne.
    + split; [done |]. split; [done |]. intros i k Hk. pose proof (lookup_lt_Some _ _ _ Hk) as Hlt. pose proof (find_none _ _ Hf i) as H. cbv beta in H. rewrite Hk in H. apply negb_false_iff, H, list_elem_of_In, elem_of_seq. lia.
  - intros h v i Hh. unfold slot_set. rewrite Hh. destruct (lookup_lt_is_Some_2 (threads s) (current s) ltac:(lia)) as [u Hu]. unfold at_thread. rewrite Hu. cbn [mbind option_bind]. eexists. split; [done |].
    pose proof Hh as (_ & Hi & _)%key_index_Some. destruct (proj1 (Forall_lookup _ _) H3 _ u Hu) as [Hlen _]. split; [| split; [done |]].
    + unfold slot_get. replace (key_index L h _) with (Some i) by (symmetry; exact Hh). cbn. rewrite list_lookup_insert_eq by (by eapply lookup_lt_Some). cbn. by rewrite list_lookup_insert_eq by lia.
    + intros t j Hne. rewrite (slot_value_insert s _ u _ Hu). case_decide as Hd; [| done]. subst t. rewrite list_lookup_insert_ne by (intros ->; tauto). unfold slot_value. by rewrite Hu.
  - intros h Hh. unfold slot_get, slot_destroy, slot_set. by rewrite Hh.
  - intros h i Hh. unfold slot_destroy. rewrite Hh. eexists. split; [done |]. pose proof Hh as (-> & Hi & _)%key_index_Some. split.
    + apply eq_None_not_Some. intros [j (He & _ & k & Hk & Hu)%key_index_Some]. assert (j = i) as -> by nia. cbn in Hk. rewrite list_lookup_insert_eq in Hk by lia. by injection Hk as <-.
    + intros h' Hne. unfold key_index. destruct (index_in _ _ _ h') as [j |] eqn:Hj; [| done]. cbn. destruct (index_in_Some _ _ _ _ _ Hkeys Hj) as [-> _]. rewrite list_lookup_insert_ne by (intros ->; done). done.
Qed.
End Slots.

(** ** Destructors at the end of a thread *)
Section Destructors.
#[local] Opaque MAX_TLS_SLOTS.
(** Destructors that use the memory below and leave the slots alone. *)
Context (call_destructor : Z -> Z -> Sched -> option Sched) (g : Z -> Z -> Bare -> Bare).
Hypothesis quiet : forall d v s, call_destructor d v s = Some (with_bare (g d v (bare s)) s).
(** What is to be called for a slot. *)
Definition due_at (ks : list Key) (sl : list Z) (i : nat) : option (Z * Z) :=
  v ← sl !! i; if v =? 0 then None else k ← ks !! i; if key_used k then d ← key_destructor k; Some (d, v) else None.
Definition due (ks : list Key) (sl : list Z) : list (Z * Z) := omap (due_at ks sl) (seq 0 MAX_TLS_SLOTS).
Definition call_all (calls : list (Z * Z)) (b : Bare) : Bare := foldl (fun b c => g c.1 c.2 b) b calls.
Definition cleared (l : list nat) (sl : list Z) : list Z := foldl (fun sl i => <[i := 0]> sl) sl l.
Lemma cleared_cons i l sl : cleared (i :: l) sl = cleared l (<[i := 0]> sl).
Proof. done. Qed.
Lemma cleared_other l sl i : i ∉ l -> cleared l sl !! i = sl !! i.
Proof. revert sl. induction l as [| j l IH]; intros sl Hi; [done |]. apply not_elem_of_cons in Hi as [? ?]. rewrite cleared_cons, IH by done. by rewrite list_lookup_insert_ne. Qed.
Lemma cleared_length l sl : length (cleared l sl) = length sl.
Proof. revert sl. induction l as [| j l IH]; intros sl; [done |]. rewrite cleared_cons, IH. apply length_insert. Qed.
Lemma cleared_zero l sl i v : cleared l sl !! i = Some v -> i ∈ l -> v = 0.
Proof.
  revert sl. induction l as [| j l IH]; intros sl Hv Hi; [by apply not_elem_of_nil in Hi |]. rewrite cleared_cons in Hv. destruct (decide (i ∈ l)) as [Hil | Hil]; [by eapply IH |].
  rewrite cleared_other in Hv by done. apply elem_of_cons in Hi as [-> | ?]; [| done]. pose proof (lookup_lt_Some _ _ _ Hv) as Hlt. rewrite length_insert in Hlt. rewrite list_lookup_insert_eq in Hv by done. by injection Hv as <-.
Qed.
Lemma cleared_all sl : length sl = MAX_TLS_SLOTS -> cleared (seq 0 MAX_TLS_SLOTS) sl = replicate MAX_TLS_SLOTS 0.
Proof.
  intros Hsl. apply list_eq. intros i. destruct (decide (i < MAX_TLS_SLOTS)%nat) as [Hi |]; [| rewrite !(proj2 (lookup_ge_None _ _)); rewrite ?cleared_length, ?length_replicate; [done | lia | lia]].
  destruct (lookup_lt_is_Some_2 (cleared (seq 0 MAX_TLS_SLOTS) sl) i) as [v Hv]; [by rewrite cleared_length, Hsl |]. rewrite Hv, (cleared_zero _ _ _ _ Hv) by (apply elem_of_seq; lia). by rewrite lookup_replicate_2.
Qed.
Lemma sweep_spec index l : forall again s t, NoDup l -> threads s !! index = Some t -> length (slots t) = MAX_TLS_SLOTS -> length (keys s) = MAX_TLS_SLOTS -> Forall (fun i => i < MAX_TLS_SLOTS)%nat l ->
  let calls := omap (due_at (keys s) (slots t)) l in
  sweep call_destructor index l again s = Some (with_bare (call_all calls (bare s)) (with_threads (<[index := set_slots (cleared l (slots t)) t]> (threads s)) s), again || negb (bool_decide (calls = []))).
Proof.
  induction l as [| i l IH]; intros again s t Hnd Ht Hsl Hks Hall; cbn [sweep]; [rewrite list_insert_id by (rewrite Ht; by destruct t); destruct s; by rewrite orb_false_r |].
  apply NoDup_cons in Hnd as [Hi Hnd]. apply Forall_cons in Hall as [Hlt Hall]. rewrite Ht. cbn [mbind option_bind]. destruct (lookup_lt_is_Some_2 (slots t) i ltac:(lia)) as [v Hv]. rewrite Hv. cbn [mbind option_bind].
  unfold at_thread. rewrite Ht. cbn [mbind option_bind]. set (t1 := set_slots (<[i := 0]> (slots t)) t). set (s1 := with_threads (<[index := t1]> (threads s)) s). destruct (lookup_lt_is_Some_2 (keys s) i ltac:(lia)) as [k Hk].
  assert (forall again b, sweep call_destructor index l again (with_bare b s1) = Some (with_bare (call_all (omap (due_at (keys s) (slots t)) l) b) (with_threads (<[index := set_slots (cleared (i :: l) (slots t)) t]> (threads s)) s), again || negb (bool_decide (omap (due_at (keys s) (slots t)) l = [])))) as Hrest.
  { intros again' b. rewrite (IH again' (with_bare b s1) t1 Hnd); [| cbn; by rewrite list_lookup_insert_eq by (by eapply lookup_lt_Some) | cbn; by rewrite length_insert | done | done].
    assert (omap (due_at (keys (with_bare b s1)) (slots t1)) l = omap (due_at (keys s) (slots t)) l) as ->.
    { clear -Hi. induction l as [| j l IH]; [done |]. apply not_elem_of_cons in Hi as [Hne Hi]. cbn [omap list_omap]. rewrite IH by done. replace (due_at (keys (with_bare b s1)) (slots t1) j) with (due_at (keys s) (slots t) j); [done |]. unfold due_at. cbn. by rewrite list_lookup_insert_ne. }
    unfold with_bare, with_threads. cbn. by rewrite list_insert_insert_eq. }
  assert (due_at (keys s) (slots t) i = if v =? 0 then None else if key_used k then d ← key_destructor k; Some (d, v) else None) as Hdue by (unfold due_at; rewrite Hv; cbn; destruct (v =? 0); [done |]; by rewrite Hk).
  assert (forall again, sweep call_destructor index l again s1 = sweep call_destructor index l again (with_bare (bare s) s1)) as Hsame by done.
  cbn [omap list_omap]. rewrite Hdue. destruct (v =? 0); [by rewrite Hsame, Hrest |]. change (keys s1) with (keys s). rewrite Hk. cbn [mbind option_bind]. destruct (key_used k); [| by rewrite Hsame, Hrest]. destruct (key_destructor k) as [d |]; cbn [mbind option_bind]; [| by rewrite Hsame, Hrest].
  rewrite quiet. cbn [mbind option_bind]. rewrite Hrest. cbn. by rewrite orb_true_r.
Qed.
Lemma sweep_all index s t : threads s !! index = Some t -> length (slots t) = MAX_TLS_SLOTS -> length (keys s) = MAX_TLS_SLOTS ->
  sweep call_destructor index (seq 0 MAX_TLS_SLOTS) false s = Some (with_bare (call_all (due (keys s) (slots t)) (bare s)) (with_threads (<[index := set_slots (replicate MAX_TLS_SLOTS 0) t]> (threads s)) s), negb (bool_decide (due (keys s) (slots t) = []))).
Proof.
  intros Ht Hsl Hks. pose proof (sweep_spec index (seq 0 MAX_TLS_SLOTS) false s t (NoDup_seq _ _) Ht Hsl Hks) as H. cbv zeta in H. rewrite cleared_all in H by done. apply H.
  apply Forall_forall. intros i Hi%elem_of_seq. lia.
Qed.
Lemma sweeps_S n index s : sweeps call_destructor (S n) index s = '(s, again) ← sweep call_destructor index (seq 0 MAX_TLS_SLOTS) false s; if again : bool then sweeps call_destructor n index s else Some s.
Proof. done. Qed.
Lemma rewrite_twice b b' s index t t' : with_bare b' (with_threads (<[index := t']> (<[index := t]> (threads s))) (with_bare b s)) = with_bare b' (with_threads (<[index := t']> (threads s)) s).
Proof. unfold with_bare, with_threads. cbn. by rewrite list_insert_insert_eq. Qed.
Lemma due_nothing ks n l : Forall (fun i => i < n)%nat l -> omap (due_at ks (replicate n 0)) l = [].
Proof. induction 1 as [| i l Hi _ IH]; [done |]. cbn [omap list_omap]. unfold due_at at 1. rewrite lookup_replicate_2 by done. cbn. apply IH. Qed.
(** When a thread ends, the destructor of every key in use is called exactly once for each value that is not null, in the order of the slots, with that value; the slots are null afterwards and the other threads keep theirs. *)
Theorem destructors_once index s t : threads s !! index = Some t -> length (slots t) = MAX_TLS_SLOTS -> length (keys s) = MAX_TLS_SLOTS ->
  run_destructors call_destructor index s = Some (with_bare (call_all (due (keys s) (slots t)) (bare s)) (with_threads (<[index := set_slots (replicate MAX_TLS_SLOTS 0) t]> (threads s)) s)).
Proof.
  intros Ht Hsl Hks. unfold run_destructors. rewrite sweeps_S, (sweep_all index s t Ht Hsl Hks). cbn [mbind option_bind]. destruct (bool_decide (due (keys s) (slots t) = [])); cbn [negb]; [reflexivity |].
  set (t1 := set_slots (replicate MAX_TLS_SLOTS 0) t). set (b1 := call_all _ _). clearbody b1. set (s1 := with_bare b1 _).
  assert (threads s1 !! index = Some t1) as Ht1 by (apply list_lookup_insert_eq; by eapply lookup_lt_Some). assert (length (slots t1) = MAX_TLS_SLOTS) as Hsl1 by apply length_replicate.
  assert (due (keys s1) (slots t1) = []) as Hdue by (apply due_nothing, Forall_forall; intros i Hi%elem_of_seq; lia).
  rewrite sweeps_S, (sweep_all index s1 t1 Ht1 Hsl1 Hks), Hdue. cbn [mbind option_bind]. rewrite bool_decide_eq_true_2 by reflexivity. cbn [negb]. f_equal.
  transitivity (with_bare b1 (with_threads (<[index := t1]> (<[index := t1]> (threads s))) (with_bare b1 s))); [reflexivity | by rewrite rewrite_twice].
Qed.
End Destructors.

(** ** A small machine *)
Module ThreadsSample.
Import MemorySample.
Definition placed : Placed := {| heap_start := hs; heap_end := hs + 262144; image_data_bounds := image; ctr := 0; threads_base := 4096; thread_size := 800; keys_base := 65536; key_size := 24;
  tdata_start := 128; tdata_end := 136; tbss_end := 160; boot_bottom := 8192; boot_top := 16384; trampoline := 512 |}.
Lemma placed_is_ok : placed_ok placed.
Proof. by vm_compute. Qed.
Definition powered : Bare := default power_on (fst <$> mem_init hs (hs + 262144) image 0 power_on).
Lemma powered_owned : owned hs (hs + 262144) powered [].
Proof.
  destruct (mem_init_owned hs (hs + 262144) image 0 placed_is_ok power_on) as (b & He & Ho & _). unfold powered. rewrite He. exact Ho.
Qed.
#[local] Opaque powered.
Definition boot : Thread := set_slots (<[1%nat := 77]> (replicate MAX_TLS_SLOTS 0)) (set_state Live EMPTY).
Definition two : Sched := mkSched powered (<[0%nat := boot]> (<[3%nat := set_state Live EMPTY]> (replicate MAX_THREADS EMPTY))) 0 (<[1%nat := mkKey true (Some 9)]> (replicate MAX_TLS_SLOTS (mkKey false None))).
Lemma two_ok : sched_ok placed two [].
Proof.
  constructor; [done | done | | unfold MAX_THREADS; simpl; lia | apply powered_owned]. repeat (apply Forall_insert; [| done]). by apply Forall_replicate.
Qed.
Lemma round_robin_witness : (exists s', schedule placed 64 two = Some (s', true)) /\
  forall k s', nsteps (fun a b => turn placed 3 a b /\ current b <> 3%nat) k two s' -> (k < 15)%nat.
Proof.
  destruct (round_robin placed placed_is_ok 3 two) as [H1 H2]; [unfold MAX_THREADS; lia | discriminate |]. split; [| exact H2]. apply (H1 [] 64); [apply two_ok | reflexivity].
Defined.
Lemma thread_create_exact_witness : exists s' r, create placed 33 44 40000 two = Some (s', r) /\ current s' = 0%nat /\
  match r with Err e => e = EOutOfMemory | Ok h => exists i t, h = handle_of placed i /\ 40000 <= stack_size t /\ threads s' = <[i := t]> (threads two) end.
Proof.
  destruct (thread_create_exact placed placed_is_ok 33 44 40000 two [] two_ok) as (s' & r & He & _ & Hc & _ & Hr); [unfold u64_max, PAGE; lia | unfold u64_max; simpl; lia |]. exists s', r. split; [exact He |]. split; [exact Hc |].
  destruct r as [h | e]; [| apply Hr]. destruct Hr as (i & t & Hh & _ & Hts & _ & _ & _ & Hs & _). exists i, t. split; [exact Hh |]. split; [lia | exact Hts].
Defined.
Lemma slots_private_witness : exists s', slot_set placed (65536 + 24) 5 two = Some (s', Ok tt) /\ slot_get placed (65536 + 24) s' = Some (Ok 5) /\ slot_value s' 3 1 = Some 0.
Proof.
  destruct (slots_private placed ltac:(reflexivity) two [] two_ok) as (_ & Hset & _). destruct (Hset (65536 + 24) 5 1%nat eq_refl) as (s' & He & Hg & _ & Ho). exists s'. split; [exact He |]. split; [exact Hg |].
  rewrite Ho; [reflexivity | intros [? _]; discriminate].
Defined.
Definition log_call (d v : Z) (b : Bare) : Bare := with_ram (fun m => store64 m d v) b.
Lemma destructors_once_witness : run_destructors (fun d v s => Some (with_bare (log_call d v (bare s)) s)) 0 two =
  Some (with_bare (call_all log_call [(9, 77)] (bare two)) (with_threads (<[0%nat := set_slots (replicate MAX_TLS_SLOTS 0) boot]> (threads two)) two)).
Proof. apply (destructors_once (fun d v s => Some (with_bare (log_call d v (bare s)) s)) log_call (fun d v s => eq_refl) 0 two boot); reflexivity. Defined.
End ThreadsSample.
