(* ===== verification/Objects.v ===== *)
(** * Objects.v: clock, events, mutexes and reader/writer locks of the bare-metal port

    [src/examples/baremetal-aarch64/src/objects.rs], [clock.rs] and [block_until] of [thread.rs], over the threads of
    [Threads.v].  A call that may wait is split where it waits: its beginning, the condition that [block_until] polls,
    and what follows.  [System] is the machine with, for every thread, the wait it is in; [step] is what the running
    thread can do next, which on this machine are the only interleavings.  A panic is [None]. *)
From S2P Require Import Prelude Port Counter Boundary Extents Pages Memory Heap Threads.
Local Open Scope Z_scope.

(** ** [clock.rs] *)
Definition EPOCH_NS : Z := 1767225600 * 1000000000.
Definition checked_mul (max a b : Z) : option Z := if a * b <=? max then Some (a * b) else None.
(** The arguments are the registers CNTFRQ_EL0 and CNTVCT_EL0; [None] also stands for the overflow of the product in
    the middle, which [monotonic_exact] shows cannot happen. *)
Definition monotonic_ns (frequency ticks : Z) : option Z :=
  if (frequency =? 0) || (18000000000 <? frequency) then None else
  let seconds := ticks / frequency in
  let rest := ticks mod frequency in
  n ← checked_mul u64_max seconds 1000000000;
  product ← checked_mul u64_max rest 1000000000;
  checked_add u64_max n (product / frequency).
Definition clock_monotonic (frequency ticks : Z) : Result Z := ok_or (monotonic_ns frequency ticks) EOs.
Definition clock_realtime (frequency ticks : Z) : Result Z := ok_or (saturating_add u64_max EPOCH_NS <$> monotonic_ns frequency ticks) EOs.

(** ** The tables *)
Definition MAX_EVENTS : nat := 64.
Definition MAX_MUTEXES : nat := 64.
Definition MAX_RWLOCKS : nat := 32.
Definition NOBODY : Z := u64_max.
Definition INFINITE : Z := u64_max.
Record Event := mkEvent { e_used : bool; e_manual : bool; e_signaled : bool; e_waiters : Z }.
Record Mutex := mkMutex { m_used : bool; m_recursive : bool; m_owner : Z; m_depth : Z; m_users : Z }.
Record RwLock := mkRwLock { r_used : bool; r_writer : Z; r_readers : Z; r_held : list Z }.
Definition FREE_EVENT : Event := mkEvent false false false 0.
Definition FREE_MUTEX : Mutex := mkMutex false false NOBODY 0 0.
Definition FREE_RWLOCK : RwLock := mkRwLock false NOBODY 0 (replicate MAX_THREADS 0).
Record Objects := mkObjects { events : list Event; mutexes : list Mutex; rwlocks : list RwLock }.
Definition objects_new : Objects := mkObjects (replicate MAX_EVENTS FREE_EVENT) (replicate MAX_MUTEXES FREE_MUTEX) (replicate MAX_RWLOCKS FREE_RWLOCK).
Definition set_event (i : nat) (e : Event) (o : Objects) : Objects := mkObjects (<[i := e]> (events o)) (mutexes o) (rwlocks o).
Definition set_mutex (i : nat) (m : Mutex) (o : Objects) : Objects := mkObjects (events o) (<[i := m]> (mutexes o)) (rwlocks o).
Definition set_rwlock (i : nat) (r : RwLock) (o : Objects) : Objects := mkObjects (events o) (mutexes o) (<[i := r]> (rwlocks o)).
(** Where the tables are and how large their entries are; whether the build checks for overflow. *)
Record Tables := { events_base : Z; event_size : Z; mutexes_base : Z; mutex_size : Z; rwlocks_base : Z; rwlock_size : Z; checks : bool }.

(** What a thread waits for in [block_until]. *)
Inductive Wait :=
| WaitEvent (i : nat) (deadline : option Z)
| WaitLock (i : nat)
| WaitRead (i : nat)
| WaitWrite (i : nat)
| WaitJoin (i : nat)
| WaitUntil (deadline : Z).
#[export] Instance Wait_eq_dec : EqDecision Wait.
Proof. solve_decision. Defined.
(** A call either returns at once or goes on to wait. *)
Inductive Outcome := Returns (r : Result Z) | Waits (w : Wait).
Definition failed (e : Error) : Outcome := Returns (Err e).
Definition done : Outcome := Returns (Ok 0).

Section Objects.
Context (T : Tables).
Definition Step := Objects -> option (Objects * Outcome).
Definition deadline_for (timeout : Z) (now : option Z) : option Z :=
  if timeout =? INFINITE then None else Some (saturating_add u64_max (default 0 now) timeout).
(** Lookup of a handle, then of the entry. *)
Definition on_event (h : Z) (o : Objects) (k : nat -> Event -> option (Objects * Outcome)) : option (Objects * Outcome) :=
  match index_in (events_base T) (event_size T) MAX_EVENTS h with
  | None => Some (o, failed EInvalidArgument)
  | Some i => e ← events o !! i; if e_used e then k i e else Some (o, failed EInvalidArgument)
  end.
Definition find_index {A} (unused : A -> bool) (l : list A) (n : nat) : option nat :=
  find (fun i => match l !! i with Some x => unused x | None => false end) (seq 0 n).

(** ** [port::Events] *)
Definition event_create (manual_reset initially_set : bool) : Step := fun o =>
  match find_index (fun e => negb (e_used e)) (events o) MAX_EVENTS with
  | None => Some (o, failed EOutOfMemory)
  | Some i => Some (set_event i (mkEvent true manual_reset initially_set 0) o, Returns (Ok (events_base T + Z.of_nat i * event_size T)))
  end.
Definition event_destroy (h : Z) : Step := fun o => on_event h o (fun i e =>
  if negb (e_waiters e =? 0) then Some (o, failed EBusy) else Some (set_event i FREE_EVENT o, done)).
Definition event_set (h : Z) : Step := fun o => on_event h o (fun i e =>
  Some (set_event i (mkEvent (e_used e) (e_manual e) true (e_waiters e)) o, done)).
Definition event_reset (h : Z) : Step := fun o => on_event h o (fun i e =>
  Some (set_event i (mkEvent (e_used e) (e_manual e) false (e_waiters e)) o, done)).
Definition event_wait (h timeout : Z) (now : option Z) : Step := fun o => on_event h o (fun i e =>
  n ← checked_add u64_max (e_waiters e) 1;
  Some (set_event i (mkEvent (e_used e) (e_manual e) (e_signaled e) n) o, Waits (WaitEvent i (deadline_for timeout now)))).
(** The closure that [wait] passes to [block_until]. *)
Definition event_ready (i : nat) (o : Objects) : option (Objects * bool) :=
  e ← events o !! i;
  if negb (e_signaled e) then Some (o, false) else
  Some (if e_manual e then o else set_event i (mkEvent (e_used e) (e_manual e) false (e_waiters e)) o, true).
Definition event_waited (i : nat) (o : Objects) : option Objects :=
  e ← events o !! i; n ← checked_sub (e_waiters e) 1; Some (set_event i (mkEvent (e_used e) (e_manual e) (e_signaled e) n) o).

(** ** [port::Mutexes] *)
Definition mutex_create (recursive : bool) : Step := fun o =>
  match find_index (fun m => negb (m_used m)) (mutexes o) MAX_MUTEXES with
  | None => Some (o, failed EOutOfMemory)
  | Some i => Some (set_mutex i (mkMutex true recursive NOBODY 0 0) o, Returns (Ok (mutexes_base T + Z.of_nat i * mutex_size T)))
  end.
Definition on_mutex (h : Z) (o : Objects) (k : nat -> Mutex -> option (Objects * Outcome)) : option (Objects * Outcome) :=
  match index_in (mutexes_base T) (mutex_size T) MAX_MUTEXES h with
  | None => Some (o, failed EInvalidArgument)
  | Some i => m ← mutexes o !! i; k i m
  end.
Definition mutex_destroy (h : Z) : Step := fun o => on_mutex h o (fun i m =>
  if negb (m_used m) then Some (o, failed EInvalidArgument) else
  if negb (m_users m =? 0) then Some (o, failed EBusy) else Some (set_mutex i FREE_MUTEX o, done)).
Definition mutex_lock (me : nat) (h : Z) : Step := fun o => on_mutex h o (fun i m =>
  if negb (m_used m) then Some (o, failed EInvalidArgument) else
  if m_owner m =? Z.of_nat me then
    if negb (m_recursive m) || (m_depth m =? u64_max) then Some (o, failed EOs) else
    depth ← checked_add u64_max (m_depth m) 1; users ← checked_add u64_max (m_users m) 1;
    Some (set_mutex i (mkMutex (m_used m) (m_recursive m) (m_owner m) depth users) o, done)
  else
    users ← checked_add u64_max (m_users m) 1;
    Some (set_mutex i (mkMutex (m_used m) (m_recursive m) (m_owner m) (m_depth m) users) o, Waits (WaitLock i))).
Definition lock_ready (i : nat) (o : Objects) : option bool := m ← mutexes o !! i; Some (m_owner m =? NOBODY).
Definition mutex_locked (me i : nat) (o : Objects) : option Objects :=
  m ← mutexes o !! i; Some (set_mutex i (mkMutex (m_used m) (m_recursive m) (Z.of_nat me) 1 (m_users m)) o).
Definition mutex_unlock (me : nat) (h : Z) : Step := fun o => on_mutex h o (fun i m =>
  if negb (m_used m) || negb (m_owner m =? Z.of_nat me) then Some (o, failed EOs) else
  depth ← checked_sub (m_depth m) 1; users ← checked_sub (m_users m) 1;
  Some (set_mutex i (mkMutex (m_used m) (m_recursive m) (if depth =? 0 then NOBODY else m_owner m) depth users) o, done)).

(** ** [port::RwLocks] *)
(** [held[me] += 1] on a [u8]: a panic where the build checks, else it wraps. *)
Definition bump (n : Z) : option Z := if n =? u8_max then (if checks T then None else Some 0) else Some (n + 1).
Definition rwlock_create : Step := fun o =>
  match find_index (fun r => negb (r_used r)) (rwlocks o) MAX_RWLOCKS with
  | None => Some (o, failed EOutOfMemory)
  | Some i => Some (set_rwlock i (mkRwLock true NOBODY 0 (replicate MAX_THREADS 0)) o, Returns (Ok (rwlocks_base T + Z.of_nat i * rwlock_size T)))
  end.
Definition on_rwlock (h : Z) (o : Objects) (k : nat -> RwLock -> option (Objects * Outcome)) : option (Objects * Outcome) :=
  match index_in (rwlocks_base T) (rwlock_size T) MAX_RWLOCKS h with
  | None => Some (o, failed EInvalidArgument)
  | Some i => r ← rwlocks o !! i; if r_used r then k i r else Some (o, failed EInvalidArgument)
  end.
Definition rwlock_read (h : Z) : Step := fun o => on_rwlock h o (fun i _ => Some (o, Waits (WaitRead i))).
Definition rwlock_write (h : Z) : Step := fun o => on_rwlock h o (fun i _ => Some (o, Waits (WaitWrite i))).
Definition read_ready (i : nat) (o : Objects) : option bool := r ← rwlocks o !! i; Some (r_writer r =? NOBODY).
Definition write_ready (i : nat) (o : Objects) : option bool := r ← rwlocks o !! i; Some ((r_writer r =? NOBODY) && (r_readers r =? 0)).
Definition read_locked (me i : nat) (o : Objects) : option Objects :=
  r ← rwlocks o !! i; readers ← checked_add u64_max (r_readers r) 1; n ← r_held r !! me; n ← bump n;
  Some (set_rwlock i (mkRwLock (r_used r) (r_writer r) readers (<[me := n]> (r_held r))) o).
Definition write_locked (me i : nat) (o : Objects) : option Objects :=
  r ← rwlocks o !! i; Some (set_rwlock i (mkRwLock (r_used r) (Z.of_nat me) (r_readers r) (r_held r)) o).
Definition rwlock_unlock (me : nat) (h : Z) : Step := fun o => on_rwlock h o (fun i r =>
  if r_writer r =? Z.of_nat me then Some (set_rwlock i (mkRwLock (r_used r) NOBODY (r_readers r) (r_held r)) o, done) else
  n ← r_held r !! me;
  if negb (n =? 0) then
    readers ← checked_sub (r_readers r) 1;
    Some (set_rwlock i (mkRwLock (r_used r) (r_writer r) readers (<[me := n - 1]> (r_held r))) o, done)
  else Some (o, failed EOs)).
Definition rwlock_destroy (h : Z) : Step := fun o => on_rwlock h o (fun i r =>
  if negb (r_writer r =? NOBODY) || negb (r_readers r =? 0) then Some (o, failed EBusy) else Some (set_rwlock i FREE_RWLOCK o, done)).
End Objects.

(** ** The machine *)
Record System := mkSystem { sched : Sched; objects : Objects; waiting : list (option Wait) }.
Inductive KCall :=
| EventCreate (manual_reset initially_set : bool) | EventDestroy (h : Z) | EventSet (h : Z) | EventReset (h : Z) | EventWait (h timeout : Z)
| MutexCreate (recursive : bool) | MutexDestroy (h : Z) | MutexLock (h : Z) | MutexUnlock (h : Z)
| RwCreate | RwRead (h : Z) | RwWrite (h : Z) | RwUnlock (h : Z) | RwDestroy (h : Z)
| ThreadCreate (thread_entry thread_argument wanted : Z) | ThreadJoin (h : Z) | ThreadDetach (h : Z) | Sleep (nanoseconds : Z).
Section System.
Context (L : Placed) (T : Tables).
(** The calls of the running thread, up to their wait; [now] is [monotonic_ns()]. *)
Definition on_objects (f : Step) (s : System) : option (System * Outcome) := '(o, r) ← f (objects s); Some (mkSystem (sched s) o (waiting s), r).
Definition on_sched (r : option (Sched * Result Z)) (s : System) : option (System * Outcome) := '(c, r) ← r; Some (mkSystem c (objects s) (waiting s), Returns r).
Definition begin (now : option Z) (c : KCall) (s : System) : option (System * Outcome) :=
  let me := current (sched s) in
  match c with
  | EventCreate manual initial => on_objects (event_create T manual initial) s
  | EventDestroy h => on_objects (event_destroy T h) s
  | EventSet h => on_objects (event_set T h) s
  | EventReset h => on_objects (event_reset T h) s
  | EventWait h timeout => on_objects (event_wait T h timeout now) s
  | MutexCreate recursive => on_objects (mutex_create T recursive) s
  | MutexDestroy h => on_objects (mutex_destroy T h) s
  | MutexLock h => on_objects (mutex_lock T me h) s
  | MutexUnlock h => on_objects (mutex_unlock T me h) s
  | RwCreate => on_objects (rwlock_create T) s
  | RwRead h => on_objects (rwlock_read T h) s
  | RwWrite h => on_objects (rwlock_write T h) s
  | RwUnlock h => on_objects (rwlock_unlock T me h) s
  | RwDestroy h => on_objects (rwlock_destroy T h) s
  | ThreadCreate e a n => on_sched (create L e a n (sched s)) s
  | ThreadJoin h => r ← join_begin L h (sched s); Some (s, match r with Err e => failed e | Ok i => Waits (WaitJoin i) end)
  | ThreadDetach h => on_sched ('(c, r) ← detach L h (sched s); Some (c, unit_result r)) s
  | Sleep ns => Some (s, match now with None => failed EOs | Some now => Waits (WaitUntil (saturating_add u64_max now ns)) end)
  end.
(** The closure [ready] of a wait. *)
Definition ready (w : Wait) (s : System) : option (System * bool) :=
  match w with
  | WaitEvent i _ => '(o, r) ← event_ready i (objects s); Some (mkSystem (sched s) o (waiting s), r)
  | WaitLock i => r ← lock_ready i (objects s); Some (s, r)
  | WaitRead i => r ← read_ready i (objects s); Some (s, r)
  | WaitWrite i => r ← write_ready i (objects s); Some (s, r)
  | WaitJoin i => Some (s, join_ready i (sched s))
  | WaitUntil _ => Some (s, false)
  end.
Definition deadline_of (w : Wait) : option Z := match w with WaitEvent _ d => d | WaitUntil d => Some d | _ => None end.
(** One round of the loop of [block_until]: its result, or [None] when it goes on to [schedule]. *)
Definition poll (now : option Z) (w : Wait) (s : System) : option (System * option (Result unit)) :=
  '(s, r) ← ready w s;
  if r : bool then Some (s, Some (Ok tt)) else
  match deadline_of w with
  | None => Some (s, None)
  | Some deadline =>
      if deadline <=? default u64_max now then
        '(s, r) ← ready w s; Some (s, Some (if r : bool then Ok tt else Err ETimeout))
      else Some (s, None)
  end.
(** What the call does with the result of [block_until]. *)
Definition finish (w : Wait) (r : Result unit) (s : System) : option (System * Result Z) :=
  let me := current (sched s) in
  let with_objects (o : option Objects) := o ← o; Some (mkSystem (sched s) o (waiting s), unit_result r) in
  match w, r with
  | WaitEvent i _, _ => with_objects (event_waited i (objects s))
  | WaitUntil _, Ok _ | WaitUntil _, Err ETimeout => Some (s, Ok 0)
  | _, Err e => Some (s, Err e)
  | WaitLock i, Ok _ => with_objects (mutex_locked me i (objects s))
  | WaitRead i, Ok _ => with_objects (read_locked T me i (objects s))
  | WaitWrite i, Ok _ => with_objects (write_locked me i (objects s))
  | WaitJoin i, Ok _ => '(c, r) ← join_end L i (sched s); Some (mkSystem c (objects s) (waiting s), unit_result r)
  end.
Definition set_waiting (t : nat) (w : option Wait) (s : System) : System := mkSystem (sched s) (objects s) (<[t := w]> (waiting s)).
(** What is observed: a call that returned to its thread. *)
Inductive Observed := Returned (t : nat) (c : KCall) (r : Result Z) | Waited (t : nat) (w : Wait) (r : Result Z) | Silent.
Inductive step (s : System) : Observed -> System -> Prop :=
| step_return now c s' r : waiting s !! current (sched s) = Some None -> begin now c s = Some (s', Returns r) -> step s (Returned (current (sched s)) c r) s'
| step_wait now c s' w : waiting s !! current (sched s) = Some None -> begin now c s = Some (s', Waits w) -> step s Silent (set_waiting (current (sched s)) (Some w) s')
| step_done now w s1 r s' a : waiting s !! current (sched s) = Some (Some w) -> poll now w s = Some (s1, Some r) -> finish w r s1 = Some (s', a) ->
    step s (Waited (current (sched s)) w a) (set_waiting (current (sched s)) None s')
| step_block now w s1 frame c b : waiting s !! current (sched s) = Some (Some w) -> poll now w s = Some (s1, None) -> schedule L frame (sched s1) = Some (c, b) ->
    step s Silent (mkSystem c (objects s1) (waiting s1))
| step_yield frame c b : waiting s !! current (sched s) = Some None -> schedule L frame (sched s) = Some (c, b) -> step s Silent (mkSystem c (objects s) (waiting s))
| step_exit c : waiting s !! current (sched s) = Some None -> thread_leave L (current (sched s)) (sched s) = Some (c, true) -> step s Silent (mkSystem c (objects s) (waiting s)).
Definition system_new (c : Sched) : System := mkSystem c objects_new (replicate MAX_THREADS None).
(** The states that can be reached, with what was observed on the way, latest first. *)
Inductive reach (c : Sched) : list Observed -> System -> Prop :=
| reach_start : reach c [] (system_new c)
| reach_step h s o s' : reach c h s -> step s o s' -> reach c (o :: h) s'.
End System.

(** ** Who waits for what *)
Definition on_wait (P : Wait -> bool) (w : option Wait) : bool := match w with Some w => P w | None => false end.
Definition inside (P : Wait -> bool) (ws : list (option Wait)) : Z := lenZ (filter (fun w => on_wait P w = true) ws).
Definition for_event (i : nat) (w : Wait) : bool := match w with WaitEvent j _ => (j =? i)%nat | _ => false end.
Definition for_lock (i : nat) (w : Wait) : bool := match w with WaitLock j => (j =? i)%nat | _ => false end.
Lemma inside_nonneg P ws : 0 <= inside P ws.
Proof. apply lenZ_nonneg. Qed.
Lemma inside_app P a b : inside P (a ++ b) = inside P a + inside P b.
Proof. unfold inside. rewrite filter_app. apply lenZ_app. Qed.
Lemma inside_cons P w ws : inside P (w :: ws) = Z.b2z (on_wait P w) + inside P ws.
Proof. unfold inside. rewrite filter_cons. destruct (on_wait P w); [rewrite decide_True by done; by rewrite lenZ_cons | by rewrite decide_False]. Qed.
Lemma inside_set P ws t old new : ws !! t = Some old -> inside P (<[t := new]> ws) = inside P ws - Z.b2z (on_wait P old) + Z.b2z (on_wait P new).
Proof.
  intros Ht. rewrite <- (take_drop_middle ws t old Ht) at 2. rewrite insert_take_drop by (by eapply lookup_lt_Some). rewrite !inside_app, !inside_cons. lia.
Qed.
Lemma inside_none P n : inside P (replicate n None) = 0.
Proof. induction n as [| n IH]; [done |]. simpl. by rewrite inside_cons, IH. Qed.
Lemma inside_one P ws t w : ws !! t = Some (Some w) -> P w = true -> 1 <= inside P ws.
Proof. intros Ht Hw. pose proof (inside_set P ws t (Some w) None Ht) as H. pose proof (inside_nonneg P (<[t := None]> ws)). simpl in H. rewrite Hw in H. simpl in H. lia. Qed.

(** ** What a step changes *)
(** Takes a monadic computation that succeeded apart. *)
Ltac run H := unfold on_objects, on_sched, on_event, on_mutex, on_rwlock, mbind, option_bind in H; simplify_eq; repeat (match type of H with context [match ?x with _ => _ end] => lazymatch x with context [match _ with _ => _ end] => fail | _ => destruct x eqn:? end end; simplify_eq).
Section Frames.
Context (L : Placed) (T : Tables).
Definition is_event (c : KCall) : bool := match c with EventCreate _ _ | EventDestroy _ | EventSet _ | EventReset _ | EventWait _ _ => true | _ => false end.
Definition is_mutex (c : KCall) : bool := match c with MutexCreate _ | MutexDestroy _ | MutexLock _ | MutexUnlock _ => true | _ => false end.
Definition is_rwlock (c : KCall) : bool := match c with RwCreate | RwRead _ | RwWrite _ | RwUnlock _ | RwDestroy _ => true | _ => false end.
Lemma begin_waiting now c s s' out : begin L T now c s = Some (s', out) -> waiting s' = waiting s.
Proof. intros H. destruct c; cbn [begin] in H; run H; done. Qed.
Definition same_events (a b : System) : Prop := events (objects b) = events (objects a).
Lemma begin_frame now c s s' out : begin L T now c s = Some (s', out) ->
  (is_event c = false -> events (objects s') = events (objects s) /\ forall i d, out <> Waits (WaitEvent i d)) /\
  (is_mutex c = false -> mutexes (objects s') = mutexes (objects s) /\ forall i, out <> Waits (WaitLock i)) /\
  (is_rwlock c = false -> rwlocks (objects s') = rwlocks (objects s)).
Proof.
  intros H. destruct c; cbn [begin] in H; cbn [is_event is_mutex is_rwlock];
    unfold event_create, event_destroy, event_set, event_reset, event_wait, mutex_create, mutex_destroy, mutex_lock, mutex_unlock, rwlock_create, rwlock_read, rwlock_write, rwlock_unlock, rwlock_destroy in H; run H; split_and!; intros; try done; split; try done; intros; by case_match.
Qed.
Lemma ready_frame w s s' r : ready w s = Some (s', r) ->
  sched s' = sched s /\ waiting s' = waiting s /\ mutexes (objects s') = mutexes (objects s) /\ rwlocks (objects s') = rwlocks (objects s) /\ ((forall i d, w <> WaitEvent i d) \/ r = false -> s' = s).
Proof.
  intros H. destruct w; cbn [ready] in H; unfold event_ready, lock_ready, read_ready, write_ready in H; run H; repeat case_match; split_and!; try done; intros [Hw | Hw]; try done; try (by destruct (Hw i deadline)); by destruct s.
Qed.
(** A wait that ends: the state in which [ready] answered, or the deadline passed. *)
Lemma poll_cases now w s s' r : poll now w s = Some (s', r) ->
  match r with
  | Some (Ok _) => ready w s = Some (s', true)
  | Some (Err e) => e = ETimeout /\ s' = s /\ ready w s = Some (s, false) /\ exists d, deadline_of w = Some d /\ d <= default u64_max now
  | None => s' = s /\ ready w s = Some (s, false)
  end.
Proof.
  unfold poll. intros H. destruct (ready w s) as [[s1 b] |] eqn:Hr; [| done]. cbn [mbind option_bind] in H. destruct b; [by simplify_eq |].
  destruct (ready_frame _ _ _ _ Hr) as (_ & _ & _ & _ & Hs). rewrite (Hs (or_intror eq_refl)) in *. destruct (deadline_of w) as [d |]; [| by simplify_eq]. destruct (Z.leb_spec d (default u64_max now)); [| by simplify_eq].
  rewrite Hr in H. cbn [mbind option_bind] in H. simplify_eq. split_and!; try done. by exists d.
Qed.
Lemma finish_frame w r s s' a : finish L T w r s = Some (s', a) ->
  waiting s' = waiting s /\ ((forall i d, w <> WaitEvent i d) -> events (objects s') = events (objects s)) /\ ((forall i, w <> WaitLock i) -> mutexes (objects s') = mutexes (objects s)) /\
  ((forall i, w <> WaitRead i) -> (forall i, w <> WaitWrite i) -> rwlocks (objects s') = rwlocks (objects s)).
Proof.
  intros H. unfold finish, event_waited, mutex_locked, read_locked, write_locked in H. destruct w as [i d | i | i | i | i | d], r as [[] | e]; run H; split_and!; intros; try done; naive_solver.
Qed.
End Frames.

(** ** Mutexes *)
Section MutexProofs.
Context (L : Placed) (T : Tables) (Hsize : 0 < mutex_size T).
Abbreviation mutex_at := (index_in (mutexes_base T) (mutex_size T) MAX_MUTEXES).
(** How often thread [t] has locked mutex [i] more than it has unlocked it, by what was observed. *)
Definition lock_change (t i : nat) (o : Observed) : Z :=
  match o with
  | Returned u (MutexLock h) (Ok _) => Z.b2z (bool_decide (u = t /\ mutex_at h = Some i))
  | Waited u (WaitLock j) (Ok _) => Z.b2z (bool_decide (u = t /\ j = i))
  | Returned u (MutexUnlock h) (Ok _) => - Z.b2z (bool_decide (u = t /\ mutex_at h = Some i))
  | _ => 0
  end.
Definition holds (h : list Observed) (t i : nat) : Z := foldr (fun o n => lock_change t i o + n) 0 h.
Record mutex_ok (h : list Observed) (ws : list (option Wait)) (i : nat) (m : Mutex) : Prop := {
  mx_depth : 0 <= m_depth m;
  mx_owner : m_owner m = NOBODY <-> m_depth m = 0;
  mx_users : m_users m = m_depth m + inside (for_lock i) ws;
  mx_unused : m_used m = false -> m = FREE_MUTEX;
  mx_holds : forall t, (t < MAX_THREADS)%nat -> holds h t i = if m_owner m =? Z.of_nat t then m_depth m else 0;
}.
Record mutexes_ok (h : list Observed) (s : System) : Prop := {
  ms_waiting : length (waiting s) = MAX_THREADS;
  ms_mutex : forall i m, mutexes (objects s) !! i = Some m -> mutex_ok h (waiting s) i m;
}.
Lemma nobody_index t : (t < MAX_THREADS)%nat -> (NOBODY =? Z.of_nat t) = false.
Proof. intros Ht. apply Z.eqb_neq. unfold NOBODY, u64_max, MAX_THREADS in *. lia. Qed.
(** Nothing about mutex [i] happened. *)
Lemma mutex_ok_same h o ws ws' i m : mutex_ok h ws i m -> inside (for_lock i) ws' = inside (for_lock i) ws -> (forall t, lock_change t i o = 0) -> mutex_ok (o :: h) ws' i m.
Proof. intros [? ? Hu ? Hh] Hi Ho. constructor; try done; [by rewrite Hi |]. intros t Ht. simpl. rewrite Ho. by apply Hh. Qed.
(** A call on mutexes that returned or began to wait: what it did to entry [i]. *)
Inductive mutex_moves (me : nat) (c : KCall) (out : Outcome) (i : nat) (m m' : Mutex) : Prop :=
| moves_none : m' = m -> (forall w, out = Waits w -> for_lock i w = false) -> (forall r, out = Returns r -> forall t, lock_change t i (Returned me c r) = 0) -> mutex_moves me c out i m m'
| moves_fresh recursive : m' = mkMutex true recursive NOBODY 0 0 -> m_used m = false -> (forall r, out = Returns r -> forall t, lock_change t i (Returned me c r) = 0) -> (forall w, out <> Waits w) -> mutex_moves me c out i m m'
| moves_freed : m' = FREE_MUTEX -> m_users m = 0 -> (forall r, out = Returns r -> forall t, lock_change t i (Returned me c r) = 0) -> (forall w, out <> Waits w) -> mutex_moves me c out i m m'
| moves_again r : out = Returns (Ok r) -> m_owner m = Z.of_nat me -> m' = mkMutex (m_used m) (m_recursive m) (m_owner m) (m_depth m + 1) (m_users m + 1) -> m_used m = true -> (forall t, lock_change t i (Returned me c (Ok r)) = Z.b2z (bool_decide (t = me))) -> mutex_moves me c out i m m'
| moves_waits : out = Waits (WaitLock i) -> m' = mkMutex (m_used m) (m_recursive m) (m_owner m) (m_depth m) (m_users m + 1) -> m_used m = true -> mutex_moves me c out i m m'
| moves_unlock r : out = Returns (Ok r) -> m_owner m = Z.of_nat me -> m_used m = true -> 1 <= m_depth m ->
    m' = mkMutex true (m_recursive m) (if m_depth m - 1 =? 0 then NOBODY else m_owner m) (m_depth m - 1) (m_users m - 1) ->
    (forall t, lock_change t i (Returned me c (Ok r)) = - Z.b2z (bool_decide (t = me))) -> mutex_moves me c out i m m'.
Lemma find_index_Some {A} (p : A -> bool) l n i : find_index p l n = Some i -> (i < n)%nat /\ exists x, l !! i = Some x /\ p x = true.
Proof.
  intros [Hin%list_elem_of_In H]%find_some. apply elem_of_seq in Hin. split; [lia |]. destruct (l !! i) as [x |]; [by exists x | done].
Qed.
Lemma moves_insert {A} (l : list A) k x i (m m' : A) : l !! i = Some m -> <[k := x]> l !! i = Some m' -> (i = k /\ m' = x) \/ (i <> k /\ m' = m).
Proof.
  intros Hi Hi'. destruct (decide (i = k)) as [-> | Hne]; [left; rewrite list_lookup_insert_eq in Hi' by (by eapply lookup_lt_Some); by injection Hi' as <- | right]. rewrite list_lookup_insert_ne in Hi' by done. split; [done | congruence].
Qed.
Lemma change_index (me u i j : nat) h : mutex_at h = Some j -> i <> j -> Z.b2z (bool_decide (me = u /\ mutex_at h = Some i)) = 0.
Proof. intros Hj Hne. rewrite bool_decide_eq_false_2; [done |]. intros [_ ?]. congruence. Qed.
Lemma change_here (me u j : nat) h : mutex_at h = Some j -> Z.b2z (bool_decide (me = u /\ mutex_at h = Some j)) = Z.b2z (bool_decide (u = me)).
Proof. intros Hj. f_equal. apply bool_decide_ext. split; [intros [-> _]; done | by intros ->]. Qed.
Lemma moves_error me c e i m : mutex_moves me c (failed e) i m m.
Proof. apply moves_none; [done | done |]. intros r [= <-] t. by destruct c. Qed.
Lemma begin_moves now c s s' out i m m' : is_mutex c = true -> begin L T now c s = Some (s', out) -> mutexes (objects s) !! i = Some m -> mutexes (objects s') !! i = Some m' ->
  mutex_moves (current (sched s)) c out i m m'.
Proof.
  intros Hc H Hi Hi'. destruct c as [| | | | | recursive | h | h | h | | | | | | | | |]; try done; cbn [begin] in H; unfold mutex_create, mutex_destroy, mutex_lock, mutex_unlock in H.
  - unfold on_objects, mbind, option_bind in H. destruct (find_index _ (mutexes (objects s)) MAX_MUTEXES) as [k |] eqn:Hf; simplify_eq/=.
    + apply find_index_Some in Hf as (_ & x & Hx & Hu%negb_true_iff). destruct (moves_insert _ _ _ _ _ _ Hi Hi') as [[-> ->] | [Hne ->]]; [simplify_eq; by eapply moves_fresh | by apply moves_none].
    + simplify_eq. by apply moves_none.
  - unfold on_objects, on_mutex, mbind, option_bind in H. destruct (mutex_at h) as [k |] eqn:Hk; [| simplify_eq/=; simplify_eq; by apply moves_error].
    destruct (mutexes (objects s) !! k) as [x |] eqn:Hx; [| done]. destruct (m_used x) eqn:Hu; simpl in H; [| simplify_eq/=; simplify_eq; by apply moves_error].
    destruct (Z.eqb_spec (m_users x) 0) as [Hz | Hnz]; simpl in H; [| simplify_eq/=; simplify_eq; by apply moves_error]. simplify_eq/=. destruct (moves_insert _ _ _ _ _ _ Hi Hi') as [[-> ->] | [Hne ->]]; [simplify_eq; by apply moves_freed | by apply moves_none].
  - unfold on_objects, on_mutex, mbind, option_bind in H. destruct (mutex_at h) as [k |] eqn:Hk; [| simplify_eq/=; simplify_eq; by apply moves_error].
    destruct (mutexes (objects s) !! k) as [x |] eqn:Hx; [| done]. destruct (m_used x) eqn:Hu; simpl in H; [| simplify_eq/=; simplify_eq; by apply moves_error].
    destruct (Z.eqb_spec (m_owner x) (Z.of_nat (current (sched s)))) as [Hz | Hnz].
    + destruct (negb (m_recursive x) || (m_depth x =? u64_max)); [simplify_eq/=; simplify_eq; by apply moves_error |]. destruct (checked_add u64_max (m_depth x) 1) as [d |] eqn:Hd; [| done]. destruct (checked_add u64_max (m_users x) 1) as [n |] eqn:Hn; [| done].
      apply checked_add_Some in Hd as [-> _]. apply checked_add_Some in Hn as [-> _]. simplify_eq/=. destruct (moves_insert _ _ _ _ _ _ Hi Hi') as [[-> ->] | [Hne ->]].
      * simplify_eq. eapply moves_again; try done; [by rewrite Hu | intros t; by apply change_here].
      * apply moves_none; [done | done |]. intros r [= <-] t. cbn [lock_change]. by eapply change_index.
    + destruct (checked_add u64_max (m_users x) 1) as [n |] eqn:Hn; [| done]. apply checked_add_Some in Hn as [-> _]. simplify_eq/=. destruct (moves_insert _ _ _ _ _ _ Hi Hi') as [[-> ->] | [Hne ->]].
      * simplify_eq. apply moves_waits; [done | by rewrite Hu | done].
      * apply moves_none; [done | | done]. intros w [= <-]. simpl. by apply Nat.eqb_neq.
  - unfold on_objects, on_mutex, mbind, option_bind in H. destruct (mutex_at h) as [k |] eqn:Hk; [| simplify_eq/=; simplify_eq; by apply moves_error].
    destruct (mutexes (objects s) !! k) as [x |] eqn:Hx; [| done]. destruct (m_used x) eqn:Hu; simpl in H; [| simplify_eq/=; simplify_eq; by apply moves_error].
    destruct (Z.eqb_spec (m_owner x) (Z.of_nat (current (sched s)))) as [Hz | Hnz]; simpl in H; [| simplify_eq/=; simplify_eq; by apply moves_error].
    destruct (checked_sub (m_depth x) 1) as [d |] eqn:Hd; [| done]. destruct (checked_sub (m_users x) 1) as [n |] eqn:Hn; [| done]. apply checked_sub_Some in Hd as [-> Hd]. apply checked_sub_Some in Hn as [-> _]. simplify_eq/=.
    destruct (moves_insert _ _ _ _ _ _ Hi Hi') as [[-> ->] | [Hne ->]].
    + simplify_eq. eapply moves_unlock; try done. intros t. cbn [lock_change]. by rewrite change_here.
    + apply moves_none; [done | done |]. intros r [= <-] t. cbn [lock_change]. by rewrite (change_index _ _ _ _ _ Hk Hne).
Qed.
Lemma begin_length now c s s' out : begin L T now c s = Some (s', out) ->
  length (events (objects s')) = length (events (objects s)) /\ length (mutexes (objects s')) = length (mutexes (objects s)) /\ length (rwlocks (objects s')) = length (rwlocks (objects s)).
Proof.
  intros H. destruct c; cbn [begin] in H;
    unfold event_create, event_destroy, event_set, event_reset, event_wait, mutex_create, mutex_destroy, mutex_lock, mutex_unlock, rwlock_create, rwlock_read, rwlock_write, rwlock_unlock, rwlock_destroy in H; run H; cbn [objects events mutexes rwlocks set_event set_mutex set_rwlock]; by rewrite ?length_insert.
Qed.
(** The lock that was waited for is taken. *)
Lemma locked_ok h ws me i m w : (me < MAX_THREADS)%nat -> ws !! me = Some (Some (WaitLock i)) -> mutex_ok h ws i m -> m_owner m = NOBODY ->
  mutex_ok (Waited me (WaitLock i) (Ok w) :: h) (<[me := None]> ws) i (mkMutex (m_used m) (m_recursive m) (Z.of_nat me) 1 (m_users m)).
Proof.
  intros Hme Hw [Hd Ho Hu Hf Hh] Hn. pose proof (proj1 Ho Hn) as Hz. pose proof (inside_one (for_lock i) _ _ _ Hw) as Hin. cbn [for_lock] in Hin. rewrite Nat.eqb_refl in Hin. specialize (Hin eq_refl). constructor; cbn [m_depth m_owner m_users m_used].
  - lia.
  - pose proof (nobody_index me Hme) as Hnb%Z.eqb_neq. split; [intros; by destruct Hnb | lia].
  - rewrite (inside_set _ _ _ _ _ Hw). cbn [on_wait for_lock]. rewrite Nat.eqb_refl. simpl. lia.
  - intros Hunused. rewrite (Hf Hunused) in Hu. cbn [FREE_MUTEX m_users m_depth] in Hu. lia.
  - intros t Ht. simpl. rewrite Hh, Hn, nobody_index by done. destruct (decide (t = me)) as [-> | Hne]; [rewrite bool_decide_eq_true_2, Z.eqb_refl by done; done |].
    rewrite bool_decide_eq_false_2 by (intros [? _]; done). rewrite (proj2 (Z.eqb_neq _ _)) by lia. done.
Qed.
Lemma moves_ok h ws me c out i m m' : (me < MAX_THREADS)%nat -> ws !! me = Some None -> mutex_moves me c out i m m' -> mutex_ok h ws i m ->
  match out with Returns r => mutex_ok (Returned me c r :: h) ws i m' | Waits w => mutex_ok (Silent :: h) (<[me := Some w]> ws) i m' end.
Proof.
  intros Hme Hw Hmv Hok. pose proof Hok as [Hd Ho Hu Hf Hh]. pose proof (inside_nonneg (for_lock i) ws) as Hin.
  destruct Hmv as [-> Hwait Hch | recursive -> Hun Hch Hnw | -> Hz Hch Hnw | r -> Hown -> Hused Hch | -> -> Hused | r -> Hown Hused Hdp -> Hch].
  - destruct out as [r | w]; [apply (mutex_ok_same h _ ws); auto |]. apply (mutex_ok_same h _ ws); [done | | done]. rewrite (inside_set _ _ _ _ _ Hw). cbn [on_wait]. rewrite (Hwait w eq_refl). simpl. lia.
  - destruct out as [r |]; [| by destruct (Hnw w)]. rewrite (Hf Hun) in Hu, Hh. cbn [FREE_MUTEX m_users m_depth m_owner] in Hu, Hh. constructor; cbn [m_depth m_owner m_users m_used]; [done | done | lia | done |].
    intros t Ht. cbn [holds foldr]. fold (holds h t i). rewrite (Hch r eq_refl), Hh by done. done.
  - destruct out as [r |]; [| by destruct (Hnw w)]. assert (m_depth m = 0) as Hd0 by lia. constructor; cbn [FREE_MUTEX m_depth m_owner m_users m_used]; [done | done | lia | done |].
    intros t Ht. cbn [holds foldr]. fold (holds h t i). rewrite (Hch r eq_refl), Hh, nobody_index by done. rewrite Hd0. by destruct (m_owner m =? Z.of_nat t).
  - constructor; cbn [m_depth m_owner m_users m_used]; [lia | | lia | congruence |].
    + rewrite Ho. assert (m_depth m <> 0); [| lia]. intros Hz%Ho. pose proof (nobody_index me Hme) as Hn%Z.eqb_neq. congruence.
    + intros t Ht. cbn [holds foldr]. fold (holds h t i). rewrite Hch, Hh, Hown by done. destruct (decide (t = me)) as [-> | Hne]; [rewrite bool_decide_eq_true_2, Z.eqb_refl by done; simpl; lia |].
      rewrite bool_decide_eq_false_2 by done. rewrite (proj2 (Z.eqb_neq _ _)) by lia. done.
  - constructor; cbn [m_depth m_owner m_users m_used]; [done | done | | congruence | done]. rewrite (inside_set _ _ _ _ _ Hw). cbn [on_wait for_lock]. rewrite Nat.eqb_refl. simpl. lia.
  - constructor; cbn [m_depth m_owner m_users m_used]; [lia | | lia | done |].
    + pose proof (nobody_index me Hme) as Hn%Z.eqb_neq. destruct (Z.eqb_spec (m_depth m - 1) 0); [tauto |]. split; [congruence | done].
    + intros t Ht. cbn [holds foldr]. fold (holds h t i). rewrite Hch, Hh, Hown by done. destruct (decide (t = me)) as [-> | Hne].
      * rewrite bool_decide_eq_true_2, Z.eqb_refl by done. destruct (Z.eqb_spec (m_depth m - 1) 0); [rewrite nobody_index by done; simpl; lia | rewrite Z.eqb_refl; simpl; lia].
      * rewrite bool_decide_eq_false_2 by done. rewrite (proj2 (Z.eqb_neq (Z.of_nat me) _)) by lia. destruct (Z.eqb_spec (m_depth m - 1) 0); [by rewrite nobody_index | by rewrite (proj2 (Z.eqb_neq _ _)) by lia].
Qed.
Lemma mutexes_step h s o s' : mutexes_ok h s -> step L T s o s' -> mutexes_ok (o :: h) s'.
Proof.
  intros [Hlen Hok] Hstep. assert (forall t x, waiting s !! t = Some x -> (t < MAX_THREADS)%nat) as Hlt by (intros t x Ht; rewrite <- Hlen; by eapply lookup_lt_Some).
  destruct Hstep as [now c s' r Hw Hb | now c s1 w Hw Hb | now w s1 r s' a Hw Hp Hf | now w s1 frame c b Hw Hp Hs | frame c b Hw Hs | c Hw Hs].
  1, 2: pose proof (begin_waiting L T _ _ _ _ _ Hb) as Hws; pose proof (begin_length _ _ _ _ _ Hb) as (_ & Hl & _); pose proof (proj1 (proj2 (begin_frame L T _ _ _ _ _ Hb))) as Hfr;
    (constructor; [cbn; by rewrite ?length_insert, Hws |]; intros i m' Hm'; cbn [set_waiting objects waiting] in *; rewrite Hws;
     destruct (lookup_lt_is_Some_2 (mutexes (objects s)) i) as [m Hm]; [rewrite <- Hl; by eapply lookup_lt_Some |]; pose proof (Hok i m Hm) as Hmok; destruct (is_mutex c) eqn:Hc;
     [exact (moves_ok _ _ _ _ _ _ _ _ (Hlt _ _ Hw) Hw (begin_moves _ _ _ _ _ _ _ _ Hc Hb Hm Hm') Hmok) |]; destruct (Hfr eq_refl) as [Hsame Hnw]; assert (m' = m) as -> by congruence).
  - apply (mutex_ok_same h _ (waiting s)); [done | done |]. intros t. by destruct c.
  - apply (mutex_ok_same h _ (waiting s)); [done | | done]. rewrite (inside_set _ _ _ _ _ Hw). cbn [on_wait]. destruct (for_lock i w) eqn:Hfl; [| simpl; lia]. destruct w; try done. by destruct (Hnw i0).
  - pose proof (finish_frame L T _ _ _ _ _ Hf) as (Hw1 & _ & Hm1 & _). apply poll_cases in Hp as Hpc. assert (waiting s1 = waiting s /\ sched s1 = sched s /\ mutexes (objects s1) = mutexes (objects s)) as (Hw2 & Hsc & Hm2).
    { destruct r as [[] |]; [| destruct Hpc as (_ & -> & _); done]. by apply ready_frame in Hpc as (? & ? & ? & _). }
    constructor; [cbn; by rewrite length_insert, Hw1, Hw2 |]. intros i m' Hm'. cbn [set_waiting objects waiting] in *. rewrite Hw1, Hw2. destruct (decide (w = WaitLock i)) as [-> | Hne].
    + destruct r as [[] | e]; [| by destruct Hpc as (_ & _ & _ & d & ? & _)]. cbn [ready] in Hpc. unfold lock_ready, mbind, option_bind in Hpc. destruct (mutexes (objects s) !! i) as [m |] eqn:Hm; [| done].
      assert (m_owner m = NOBODY) as Hnb by (apply Z.eqb_eq; congruence). cbn [finish] in Hf. unfold mutex_locked, mbind, option_bind in Hf. rewrite Hm2, Hm in Hf. simplify_eq/=.
      rewrite list_lookup_insert_eq in Hm' by (by eapply lookup_lt_Some). injection Hm' as <-. apply locked_ok; eauto.
    + assert (exists m, mutexes (objects s) !! i = Some m /\ m' = m) as (m & Hm & ->).
      { destruct w as [| j | | | |]; try (exists m'; split; [| done]; rewrite <- Hm2, <- Hm1; [done | intros ? ?; done]). destruct r as [[] | e]; [| by destruct Hpc as (_ & _ & _ & d & ? & _)].
        cbn [finish] in Hf. unfold mutex_locked, mbind, option_bind in Hf. rewrite Hm2 in Hf. destruct (mutexes (objects s) !! j) as [x |]; [| done]. simplify_eq/=. exists m'. split; [| done]. rewrite Hm2 in Hm'. by rewrite list_lookup_insert_ne in Hm' by (intros ->; done). }
      apply (mutex_ok_same h _ (waiting s)); [by apply Hok | |].
      * rewrite (inside_set _ _ _ _ _ Hw). assert (for_lock i w = false) as Hfl by (destruct w; try done; simpl; apply Nat.eqb_neq; congruence). cbn [on_wait]. rewrite Hfl. simpl. lia.
      * intros t. destruct w; try done. destruct a; try done. cbn [lock_change]. rewrite bool_decide_eq_false_2; [done |]. intros [_ ->]. done.
  - apply poll_cases in Hp as [-> _]. constructor; [done |]. intros i m Hm. apply (mutex_ok_same h _ (waiting s)); [by apply Hok | done | done].
  - constructor; [done |]. intros i m Hm. apply (mutex_ok_same h _ (waiting s)); [by apply Hok | done | done].
  - constructor; [done |]. intros i m Hm. apply (mutex_ok_same h _ (waiting s)); [by apply Hok | done | done].
Qed.
Lemma mutexes_reach c h s : reach L T c h s -> mutexes_ok h s.
Proof.
  induction 1 as [| h s o s' _ IH Hstep]; [| by eapply mutexes_step]. constructor; [done |]. intros i m Hm. cbn [system_new objects objects_new mutexes] in Hm. apply lookup_replicate in Hm as [-> _].
  constructor; [done | done | cbn [system_new waiting]; by rewrite inside_none | done |]. intros t Ht. cbn [FREE_MUTEX m_owner m_depth]. by rewrite nobody_index.
Qed.
(** C6: mutual exclusion.  However the threads interleave their calls, a thread that has locked a mutex more often than it has unlocked it is its owner, its depth is exactly that number, and no other thread holds the mutex; destroying the mutex is refused as busy exactly while a thread holds it or waits for it. *)
Theorem mutex_exclusion c h s i m t u : reach L T c h s -> mutexes (objects s) !! i = Some m -> (t < MAX_THREADS)%nat -> (u < MAX_THREADS)%nat ->
  (holds h t i <> 0 -> m_owner m = Z.of_nat t /\ m_depth m = holds h t i /\ 0 < holds h t i /\ (u <> t -> holds h u i = 0)) /\
  (forall a, mutex_at a = Some i -> m_used m = true -> mutex_destroy T a (objects s) =
     if decide (m_owner m = NOBODY /\ inside (for_lock i) (waiting s) = 0) then Some (set_mutex i FREE_MUTEX (objects s), Returns (Ok 0)) else Some (objects s, Returns (Err EBusy))).
Proof.
  intros Hr Hm Ht Hu. destruct (mutexes_reach c h s Hr) as [_ Hok]. destruct (Hok i m Hm) as [Hd Ho Hus Hf Hh]. pose proof (inside_nonneg (for_lock i) (waiting s)). split.
  - intros Hne. rewrite (Hh t Ht) in Hne |- *. destruct (Z.eqb_spec (m_owner m) (Z.of_nat t)) as [He |]; [| done]. split_and!; [done | done | lia |]. intros Hut. rewrite (Hh u Hu), (proj2 (Z.eqb_neq _ _)) by lia. done.
  - intros a Ha Hused. unfold mutex_destroy, on_mutex. rewrite Ha, Hm. cbn [mbind option_bind]. rewrite Hused. cbn [negb]. case_decide as Hb; [destruct Hb as [Hn%Ho Hz]; rewrite (proj2 (Z.eqb_eq _ _)) by lia; done |].
    rewrite (proj2 (Z.eqb_neq _ _)); [done |]. intros Hz. apply Hb. split; [apply Ho |]; lia.
Qed.
End MutexProofs.

(** ** Events *)
Section EventProofs.
Context (L : Placed) (T : Tables) (Hsize : 0 < event_size T).
Abbreviation event_at := (index_in (events_base T) (event_size T) MAX_EVENTS).
(** The event [i] as its users see it: what was observed says whether it exists, its kind and whether it is set. *)
Definition event_next (i : nat) (o : Observed) (st : option (bool * bool)) : option (bool * bool) :=
  match o with
  | Returned _ (EventCreate manual initial) (Ok h) => if decide (event_at h = Some i) then Some (manual, initial) else st
  | Returned _ (EventDestroy h) (Ok _) => if decide (event_at h = Some i) then None else st
  | Returned _ (EventSet h) (Ok _) => if decide (event_at h = Some i) then (fun x => (x.1, true)) <$> st else st
  | Returned _ (EventReset h) (Ok _) => if decide (event_at h = Some i) then (fun x => (x.1, false)) <$> st else st
  | Waited _ (WaitEvent j _) (Ok _) => if decide (j = i) then (fun x => (x.1, x.1 && x.2)) <$> st else st
  | _ => st
  end.
Definition event_state (h : list Observed) (i : nat) : option (bool * bool) := foldr (event_next i) None h.
Definition shown (e : Event) : option (bool * bool) := if e_used e then Some (e_manual e, e_signaled e) else None.
Record event_ok (h : list Observed) (ws : list (option Wait)) (i : nat) (e : Event) : Prop := {
  ev_waiters : e_waiters e = inside (for_event i) ws;
  ev_unused : e_used e = false -> e = FREE_EVENT;
  ev_shown : event_state h i = shown e;
}.
Record events_ok (h : list Observed) (s : System) : Prop := {
  es_waiting : length (waiting s) = MAX_THREADS;
  es_length : length (events (objects s)) = MAX_EVENTS;
  es_event : forall i e, events (objects s) !! i = Some e -> event_ok h (waiting s) i e;
}.
Lemma event_ok_same h o ws ws' i e : event_ok h ws i e -> inside (for_event i) ws' = inside (for_event i) ws -> (forall st, event_next i o st = st) -> event_ok (o :: h) ws' i e.
Proof. intros [Hw Hu Hs] Hi Ho. constructor; [by rewrite Hi | done |]. cbn [event_state foldr]. by rewrite Ho. Qed.
Inductive event_moves (me : nat) (c : KCall) (out : Outcome) (i : nat) (e e' : Event) : Prop :=
| event_none : e' = e -> (forall w, out = Waits w -> for_event i w = false) -> (forall r, out = Returns r -> forall st, event_next i (Returned me c r) st = st) -> event_moves me c out i e e'
| event_fresh r : out = Returns r -> e_used e = false -> e_used e' = true -> e_waiters e' = 0 -> (forall st, event_next i (Returned me c r) st = shown e') -> event_moves me c out i e e'
| event_freed r : out = Returns r -> e_waiters e = 0 -> e' = FREE_EVENT -> (forall st, event_next i (Returned me c r) st = None) -> event_moves me c out i e e'
| event_changed r : out = Returns r -> e_used e = true -> e_used e' = true -> e_waiters e' = e_waiters e -> event_next i (Returned me c r) (shown e) = shown e' -> event_moves me c out i e e'
| event_waits d : out = Waits (WaitEvent i d) -> e' = mkEvent true (e_manual e) (e_signaled e) (e_waiters e + 1) -> e_used e = true -> event_moves me c out i e e'.
Lemma event_error me c x i e : event_moves me c (failed x) i e e.
Proof. apply event_none; [done | done |]. intros r [= <-] st. by destruct c. Qed.
Lemma event_elsewhere h j i (a b : option (bool * bool)) : event_at h = Some j -> i <> j -> (if decide (event_at h = Some i) then a else b) = b.
Proof. intros Hj Hne. rewrite decide_False; [done | congruence]. Qed.
Lemma begin_event_moves now c s s' out i e e' : is_event c = true -> begin L T now c s = Some (s', out) -> events (objects s) !! i = Some e -> events (objects s') !! i = Some e' ->
  event_moves (current (sched s)) c out i e e'.
Proof.
  intros Hc H Hi Hi'. destruct c as [manual initial | h | h | h | h timeout | | | | | | | | | | | | |]; try done; cbn [begin] in H; unfold event_create, event_destroy, event_set, event_reset, event_wait, on_objects, on_event, mbind, option_bind in H.
  - destruct (find_index _ (events (objects s)) MAX_EVENTS) as [k |] eqn:Hf; simplify_eq/=; [| simplify_eq; by apply event_error].
    apply find_index_Some in Hf as (Hlt & x & Hx & Hu%negb_true_iff). destruct (moves_insert _ _ _ _ _ _ Hi Hi') as [[-> ->] | [Hne ->]].
    + simplify_eq. eapply event_fresh; try done. intros st. cbn [event_next]. by rewrite index_handle, decide_True.
    + apply event_none; [done | done |]. intros r [= <-] st. cbn [event_next]. rewrite index_handle by done. rewrite decide_False; [done | congruence].
  - destruct (event_at h) as [k |] eqn:Hk; [| simplify_eq/=; simplify_eq; by apply event_error]. destruct (events (objects s) !! k) as [x |] eqn:Hx; [| done]. destruct (e_used x) eqn:Hu; simpl in H; [| simplify_eq/=; simplify_eq; by apply event_error].
    destruct (Z.eqb_spec (e_waiters x) 0) as [Hz |]; simpl in H; [| simplify_eq/=; simplify_eq; by apply event_error]. simplify_eq/=. destruct (moves_insert _ _ _ _ _ _ Hi Hi') as [[-> ->] | [Hne ->]].
    + simplify_eq. eapply event_freed; try done. intros st. cbn [event_next]. by rewrite decide_True.
    + apply event_none; [done | done |]. intros r [= <-] st. by apply (event_elsewhere h k).
  - destruct (event_at h) as [k |] eqn:Hk; [| simplify_eq/=; simplify_eq; by apply event_error]. destruct (events (objects s) !! k) as [x |] eqn:Hx; [| done]. destruct (e_used x) eqn:Hu; simpl in H; [| simplify_eq/=; simplify_eq; by apply event_error].
    simplify_eq/=. destruct (moves_insert _ _ _ _ _ _ Hi Hi') as [[-> ->] | [Hne ->]].
    + simplify_eq. eapply event_changed; try done. cbn [event_next]. rewrite decide_True by done. unfold shown. cbn. by rewrite Hu.
    + apply event_none; [done | done |]. intros r [= <-] st. by apply (event_elsewhere h k).
  - destruct (event_at h) as [k |] eqn:Hk; [| simplify_eq/=; simplify_eq; by apply event_error]. destruct (events (objects s) !! k) as [x |] eqn:Hx; [| done]. destruct (e_used x) eqn:Hu; simpl in H; [| simplify_eq/=; simplify_eq; by apply event_error].
    simplify_eq/=. destruct (moves_insert _ _ _ _ _ _ Hi Hi') as [[-> ->] | [Hne ->]].
    + simplify_eq. eapply event_changed; try done. cbn [event_next]. rewrite decide_True by done. unfold shown. cbn. by rewrite Hu.
    + apply event_none; [done | done |]. intros r [= <-] st. by apply (event_elsewhere h k).
  - destruct (event_at h) as [k |] eqn:Hk; [| simplify_eq/=; simplify_eq; by apply event_error]. destruct (events (objects s) !! k) as [x |] eqn:Hx; [| done]. destruct (e_used x) eqn:Hu; simpl in H; [| simplify_eq/=; simplify_eq; by apply event_error].
    destruct (checked_add u64_max (e_waiters x) 1) as [n |] eqn:Hn; [| done]. apply checked_add_Some in Hn as [-> _]. simplify_eq/=. destruct (moves_insert _ _ _ _ _ _ Hi Hi') as [[-> ->] | [Hne ->]].
    + simplify_eq. by eapply event_waits.
    + apply event_none; [done | | done]. intros w [= <-]. simpl. by apply Nat.eqb_neq.
Qed.
Lemma event_moves_ok h ws me c out i e e' : ws !! me = Some None -> event_moves me c out i e e' -> event_ok h ws i e ->
  match out with Returns r => event_ok (Returned me c r :: h) ws i e' | Waits w => event_ok (Silent :: h) (<[me := Some w]> ws) i e' end.
Proof.
  intros Hw Hmv Hok. pose proof Hok as [Hwt Hun Hs]. destruct Hmv as [-> Hwait Hch | r -> Hu Hu' Hz Hch | r -> Hz -> Hch | r -> Hu Hu' Hz Hch | d -> -> Hu].
  - destruct out as [r | w]; [apply (event_ok_same h _ ws); auto |]. apply (event_ok_same h _ ws); [done | | done]. rewrite (inside_set _ _ _ _ _ Hw). cbn [on_wait]. rewrite (Hwait w eq_refl). simpl. lia.
  - rewrite (Hun Hu) in Hwt. cbn [FREE_EVENT e_waiters] in Hwt. constructor; [lia | congruence | apply Hch].
  - constructor; [cbn [FREE_EVENT e_waiters]; lia | done | cbn [event_state foldr]; by rewrite Hch].
  - constructor; [lia | congruence |]. cbn [event_state foldr]. fold (event_state h i). by rewrite Hs.
  - constructor; [cbn [e_waiters]; rewrite (inside_set _ _ _ _ _ Hw); cbn [on_wait for_event]; rewrite Nat.eqb_refl; simpl; lia | done |]. cbn [event_state foldr event_next]. fold (event_state h i). rewrite Hs. unfold shown. by rewrite Hu.
Qed.
(** The end of a wait for event [i]: how the entry changed, and that it was set when the wait succeeded. *)
Lemma event_wait_done now i d s s1 r s' a e : poll now (WaitEvent i d) s = Some (s1, Some r) -> finish L T (WaitEvent i d) r s1 = Some (s', a) -> events (objects s) !! i = Some e ->
  a = unit_result r /\ (r = Ok tt -> e_signaled e = true) /\
  events (objects s') = <[i := mkEvent (e_used e) (e_manual e) (match r with Ok _ => e_manual e && e_signaled e | Err _ => e_signaled e end) (e_waiters e - 1)]> (events (objects s)).
Proof.
  intros Hp Hf He. apply poll_cases in Hp. unfold finish, event_waited, mbind, option_bind in Hf. destruct r as [[] | x].
  - cbn [ready] in Hp. unfold event_ready, mbind, option_bind in Hp. rewrite He in Hp. destruct (e_signaled e) eqn:Hs; [| by simplify_eq/=]. cbn [negb] in Hp. simplify_eq. cbn [objects] in Hf. destruct (e_manual e) eqn:Hm.
    + rewrite He in Hf. destruct (checked_sub (e_waiters e) 1) as [n |] eqn:Hn; [| done]. apply checked_sub_Some in Hn as [-> _]. simplify_eq/=. by rewrite Hm, Hs.
    + cbn [set_event events] in Hf. rewrite list_lookup_insert_eq in Hf by (by eapply lookup_lt_Some). cbn [e_waiters] in Hf. destruct (checked_sub (e_waiters e) 1) as [n |] eqn:Hn; [| done]. apply checked_sub_Some in Hn as [-> _]. simplify_eq/=. by rewrite list_insert_insert_eq.
  - destruct Hp as (-> & -> & _). rewrite He in Hf. destruct (checked_sub (e_waiters e) 1) as [n |] eqn:Hn; [| done]. apply checked_sub_Some in Hn as [-> _]. simplify_eq/=. done.
Qed.
Lemma events_step h s o s' : events_ok h s -> step L T s o s' -> events_ok (o :: h) s'.
Proof.
  intros [Hlen Hlev Hok] Hstep. destruct Hstep as [now c s' r Hw Hb | now c s1 w Hw Hb | now w s1 r s' a Hw Hp Hf | now w s1 frame c b Hw Hp Hs | frame c b Hw Hs | c Hw Hs].
  1, 2: pose proof (begin_waiting L T _ _ _ _ _ Hb) as Hws; pose proof (begin_length L T _ _ _ _ _ Hb) as (Hl & _ & _); pose proof (proj1 (begin_frame L T _ _ _ _ _ Hb)) as Hfr;
    (constructor; [cbn; by rewrite ?length_insert, Hws | cbn; by rewrite Hl |]; intros i e' He'; cbn [set_waiting objects waiting] in *; rewrite Hws;
     destruct (lookup_lt_is_Some_2 (events (objects s)) i) as [e He]; [rewrite <- Hl; by eapply lookup_lt_Some |]; pose proof (Hok i e He) as Heok; destruct (is_event c) eqn:Hc;
     [exact (event_moves_ok _ _ _ _ _ _ _ _ Hw (begin_event_moves _ _ _ _ _ _ _ _ Hc Hb He He') Heok) |]; destruct (Hfr eq_refl) as [Hsame Hnw]; assert (e' = e) as -> by congruence).
  - apply (event_ok_same h _ (waiting s)); [done | done |]. intros st. by destruct c.
  - apply (event_ok_same h _ (waiting s)); [done | | done]. rewrite (inside_set _ _ _ _ _ Hw). cbn [on_wait]. destruct (for_event i w) eqn:Hfl; [| simpl; lia]. destruct w; try done. by destruct (Hnw i0 deadline).
  - pose proof (finish_frame L T _ _ _ _ _ Hf) as (Hw1 & He1 & _). assert (waiting s1 = waiting s) as Hw2.
    { apply poll_cases in Hp. destruct r as [[] |]; [| destruct Hp as (_ & -> & _); done]. by apply ready_frame in Hp as (? & ? & _). }
    assert ((exists j d, w = WaitEvent j d) \/ ~ (exists j d, w = WaitEvent j d)) as [(j & d & ->) | Hne] by (destruct w; [left; eauto | right; intros (? & ? & ?); done ..]).
    + destruct (decide (j < MAX_EVENTS)%nat) as [Hj | Hj]; [| exfalso; unfold poll in Hp; cbn [ready] in Hp; unfold event_ready in Hp; rewrite (proj2 (lookup_ge_None (events (objects s)) j)) in Hp by lia; done].
      destruct (lookup_lt_is_Some_2 (events (objects s)) j) as [e He]; [lia |]. destruct (event_wait_done _ _ _ _ _ _ _ _ _ Hp Hf He) as (-> & Hsig & Hev). pose proof (Hok j e He) as [Hwt Hun Hsh].
      constructor; [cbn; by rewrite length_insert, Hw1, Hw2 | cbn; rewrite Hev; by rewrite length_insert |]. cbn [set_waiting objects waiting]. rewrite Hev, Hw1, Hw2. intros i e' He'. destruct (decide (i = j)) as [-> | Hij].
      * rewrite list_lookup_insert_eq in He' by lia. injection He' as <-. pose proof (inside_one (for_event j) _ _ _ Hw) as Hin. cbn [for_event] in Hin. rewrite Nat.eqb_refl in Hin. specialize (Hin eq_refl). constructor.
        -- cbn [e_waiters]. rewrite (inside_set _ _ _ _ _ Hw). cbn [on_wait for_event]. rewrite Nat.eqb_refl. simpl. lia.
        -- cbn [e_used]. intros Hu. rewrite (Hun Hu) in Hwt. cbn [FREE_EVENT e_waiters] in Hwt. lia.
        -- cbn [event_state foldr]. fold (event_state h j). rewrite Hsh. unfold shown. cbn [e_used e_manual e_signaled]. destruct r as [[] | x]; cbn [unit_result event_next]; [rewrite decide_True by done; by destruct (e_used e) | done].
      * rewrite list_lookup_insert_ne in He' by done. apply (event_ok_same h _ (waiting s)); [by apply Hok | |].
        -- rewrite (inside_set _ _ _ _ _ Hw). cbn [on_wait for_event]. rewrite (proj2 (Nat.eqb_neq j i)) by done. simpl. lia.
        -- intros st. cbn [event_next]. destruct (unit_result r); [by rewrite decide_False | done].
    + assert (forall i d, w <> WaitEvent i d) as Hne' by (intros i d ->; apply Hne; eauto). assert (s1 = s) as ->.
      { apply poll_cases in Hp. destruct r as [[] |]; [| by destruct Hp as (_ & -> & _)]. apply ready_frame in Hp as (_ & _ & _ & _ & Hs). by apply Hs; left. }
      constructor; [cbn; by rewrite length_insert, Hw1 | cbn; by rewrite He1 |]. cbn [set_waiting objects waiting]. rewrite Hw1, He1 by done. intros i e He. apply (event_ok_same h _ (waiting s)); [by apply Hok | |].
      * rewrite (inside_set _ _ _ _ _ Hw). assert (for_event i w = false) as Hfl by (destruct w; try done; by destruct (Hne' i0 deadline)). cbn [on_wait]. rewrite Hfl. simpl. lia.
      * intros st. destruct w; try done. by destruct (Hne' i0 deadline).
  - apply poll_cases in Hp as [-> _]. constructor; [done | done |]. intros i e He. apply (event_ok_same h _ (waiting s)); [by apply Hok | done | done].
  - constructor; [done | done |]. intros i e He. apply (event_ok_same h _ (waiting s)); [by apply Hok | done | done].
  - constructor; [done | done |]. intros i e He. apply (event_ok_same h _ (waiting s)); [by apply Hok | done | done].
Qed.
Lemma events_reach c h s : reach L T c h s -> events_ok h s.
Proof.
  induction 1 as [| h s o s' _ IH Hstep]; [| by eapply events_step]. constructor; [done | done |]. intros i e He. cbn [system_new objects objects_new events] in He. apply lookup_replicate in He as [-> _].
  constructor; [cbn [system_new waiting]; by rewrite inside_none | done | done].
Qed.
Lemma reach_inv c o h s' : reach L T c (o :: h) s' -> exists s, reach L T c h s /\ step L T s o s'.
Proof. inversion 1; subst. eauto. Qed.
Lemma reach_app c h1 h2 s' : reach L T c (h1 ++ h2) s' -> exists s, reach L T c h2 s.
Proof. revert s'. induction h1 as [| o h1 IH]; intros s'; simpl; [by exists s' |]. intros (s & Hs & _)%reach_inv. by eapply IH. Qed.
(** A successful wait found the event set. *)
Lemma released c h t i d v s' : reach L T c (Waited t (WaitEvent i d) (Ok v) :: h) s' -> exists manual, event_state h i = Some (manual, true).
Proof.
  intros (s & Hr & Hstep)%reach_inv. destruct (events_reach _ _ _ Hr) as [_ Hlev Hok]. inversion Hstep as [| | now w s1 r s2 a Hw Hp Hf | | |]; subst.
  destruct (decide (i < MAX_EVENTS)%nat) as [Hj | Hj]; [| exfalso; unfold poll in Hp; cbn [ready] in Hp; unfold event_ready in Hp; rewrite (proj2 (lookup_ge_None (events (objects s)) i)) in Hp by lia; done].
  destruct (lookup_lt_is_Some_2 (events (objects s)) i) as [e He]; [lia |]. destruct (event_wait_done _ _ _ _ _ _ _ _ _ Hp Hf He) as (Ha & Hsig & _). destruct (Hok i e He) as [Hwt Hun Hsh].
  destruct r as [[] |]; [| done]. exists (e_manual e). rewrite Hsh. unfold shown. rewrite (Hsig eq_refl). destruct (e_used e) eqn:Hu; [done |]. rewrite (Hun eq_refl) in Hwt. cbn [FREE_EVENT e_waiters] in Hwt.
  pose proof (inside_one (for_event i) _ _ _ Hw) as Hin. cbn [for_event] in Hin. rewrite Nat.eqb_refl in Hin. specialize (Hin eq_refl). lia.
Qed.
(** A call that signals event [i]. *)
Definition signals (i : nat) (o : Observed) : Prop :=
  match o with Returned _ (EventSet h) (Ok _) => event_at h = Some i | Returned _ (EventCreate _ _) (Ok h) => event_at h = Some i | _ => False end.
Lemma unsignaled_stays i h1 h2 : (forall o, o ∈ h1 -> ~ signals i o) -> event_state h2 i = Some (false, false) -> event_state (h1 ++ h2) i = Some (false, false) \/ event_state (h1 ++ h2) i = None.
Proof.
  intros Hno H2. induction h1 as [| o h1 IH]; [by left |]. cbn [app event_state foldr]. fold (event_state (h1 ++ h2) i). destruct IH as [IH | IH]; [intros; apply Hno; by right | |].
  all: pose proof (Hno o ltac:(left)) as Hns; rewrite IH; destruct o as [t c r | t w r |]; try (by auto); [destruct c, r; try (by auto); cbn [event_next signals] in *; case_decide; auto; done | destruct w, r; auto; cbn [event_next]; case_decide; auto].
Qed.
(** One signal releases one waiter.  Between two waits that succeed on the same auto-reset event, in any interleaving, some thread set the event (or it was created anew); in particular of several threads that wait for an event that is set once, exactly one returns. *)
Theorem one_set_one_release c t u i d1 d2 v1 v2 h1 h2 s : reach L T c (Waited t (WaitEvent i d1) (Ok v1) :: h1 ++ Waited u (WaitEvent i d2) (Ok v2) :: h2) s ->
  fst <$> event_state h2 i = Some false -> exists o, o ∈ h1 /\ signals i o.
Proof.
  intros Hr Hauto. assert (event_state (Waited u (WaitEvent i d2) (Ok v2) :: h2) i = Some (false, false)) as H2.
  { cbn [event_state foldr event_next]. fold (event_state h2 i). rewrite decide_True by done. destruct (event_state h2 i) as [[] |]; by simplify_eq/=. } destruct (released _ _ _ _ _ _ _ Hr) as (manual & Hst). assert (forall o, Decision (signals i o)) as Hdec by (intros o; destruct o as [? c' r | |]; [destruct c', r; simpl; apply _ | simpl; apply _ ..]).
  destruct (decide (Exists (signals i) h1)) as [He | He]; [apply Exists_exists in He as (o & ? & ?); by exists o |]. exfalso.
  destruct (unsignaled_stays i h1 (Waited u (WaitEvent i d2) (Ok v2) :: h2)) as [H | H]; [| done | congruence | congruence]. intros o Ho Hs. apply He, Exists_exists. by exists o.
Qed.
End EventProofs.

(** ** Reader/writer locks *)
Section RwProofs.
Context (L : Placed) (T : Tables) (Hchecks : checks T = true).
Abbreviation rwlock_at := (index_in (rwlocks_base T) (rwlock_size T) MAX_RWLOCKS).
Definition sum (l : list Z) : Z := foldr Z.add 0 l.
Record rw_ok (r : RwLock) : Prop := {
  rw_length : length (r_held r) = MAX_THREADS;
  rw_counts : Forall (fun n => 0 <= n <= u8_max) (r_held r);
  rw_readers : r_readers r = sum (r_held r);
  rw_exclusive : r_writer r <> NOBODY -> r_readers r = 0;
}.
Lemma held_sum_app a b : sum (a ++ b) = sum a + sum b.
Proof. induction a; simpl; lia. Qed.
Lemma sum_insert l t n n' : l !! t = Some n -> sum (<[t := n']> l) = sum l - n + n'.
Proof.
  intros Ht. rewrite <- (take_drop_middle l t n Ht) at 2. rewrite insert_take_drop by (by eapply lookup_lt_Some). rewrite !held_sum_app. simpl. lia.
Qed.
Lemma sum_member l t n : Forall (fun n => 0 <= n <= u8_max) l -> l !! t = Some n -> 0 <= n <= sum l.
Proof.
  intros Hl. revert t. induction Hl as [| x l Hx Hl IH]; intros t Ht; [done |]. assert (0 <= sum l) by (clear -Hl; induction Hl as [| y l Hy _ IH]; simpl; lia). destruct t; simpl in Ht; [injection Ht as ->; simpl; lia |]. pose proof (IH t Ht). simpl. lia.
Qed.
Lemma fresh_rw used : rw_ok (mkRwLock used NOBODY 0 (replicate MAX_THREADS 0)).
Proof. constructor; [done | by apply Forall_replicate | done | done]. Qed.
(** Every change that a call or the end of a wait makes to a lock keeps it well formed. *)
Lemma read_locked_ok me i o o' r : rwlocks o !! i = Some r -> read_locked T me i o = Some o' -> r_writer r = NOBODY -> rw_ok r -> exists r', rwlocks o' = <[i := r']> (rwlocks o) /\ rw_ok r'.
Proof.
  intros Hr H Hw [Hlen Hc Hn Hx]. unfold read_locked, bump, mbind, option_bind in H. rewrite Hr in H. destruct (checked_add u64_max (r_readers r) 1) as [k |] eqn:Hk; [| done]. apply checked_add_Some in Hk as [-> _].
  destruct (r_held r !! me) as [n |] eqn:Hme; [| done]. rewrite Hchecks in H. destruct (Z.eqb_spec n u8_max); [done |]. simplify_eq/=. eexists. split; [done |]. pose proof (proj1 (Forall_lookup _ _) Hc _ _ Hme) as Hb. constructor; cbn [r_held r_readers r_writer].
  - by rewrite length_insert.
  - apply Forall_insert; [done |]. cbv beta in *. lia.
  - rewrite (sum_insert _ _ _ _ Hme). lia.
  - done.
Qed.
Lemma write_locked_ok me i o o' r : rwlocks o !! i = Some r -> write_locked me i o = Some o' -> r_readers r = 0 -> rw_ok r -> exists r', rwlocks o' = <[i := r']> (rwlocks o) /\ rw_ok r'.
Proof. intros Hr H Hz [Hlen Hc Hn Hx]. unfold write_locked, mbind, option_bind in H. rewrite Hr in H. simplify_eq/=. eexists. split; [done |]. by constructor. Qed.
Lemma unlock_ok me r n u : rw_ok r -> r_held r !! me = Some n -> n <> 0 -> rw_ok (mkRwLock u (r_writer r) (r_readers r - 1) (<[me := n - 1]> (r_held r))).
Proof.
  intros [Hlen Hc Hn Hx] Hme Hz. pose proof (proj1 (Forall_lookup _ _) Hc _ _ Hme) as Hb. pose proof (sum_member _ _ _ Hc Hme) as Hs. constructor; cbn [r_held r_readers r_writer].
  - by rewrite length_insert.
  - apply Forall_insert; [done |]. cbv beta in *. lia.
  - rewrite (sum_insert _ _ _ _ Hme). lia.
  - intros Hw. pose proof (Hx Hw). lia.
Qed.
Definition rwlocks_ok (s : System) : Prop := Forall rw_ok (rwlocks (objects s)).
Lemma begin_rwlocks now c s s' out : rwlocks_ok s -> begin L T now c s = Some (s', out) -> rwlocks_ok s'.
Proof.
  intros Hok H. destruct (is_rwlock c) eqn:Hc; [| pose proof (proj2 (proj2 (begin_frame L T _ _ _ _ _ H)) Hc) as He; unfold rwlocks_ok; by rewrite He].
  assert (forall i r, rwlocks (objects s) !! i = Some r -> rw_ok r) as Hat by (intros i r Hi; by eapply (proj1 (Forall_lookup _ _) Hok)).
  destruct c; try done; cbn [begin] in H; unfold rwlock_create, rwlock_read, rwlock_write, rwlock_unlock, rwlock_destroy in H; run H; unfold rwlocks_ok; cbn [objects rwlocks set_rwlock]; try done; apply Forall_insert; try done; try apply fresh_rw.
  - match goal with H : rwlocks _ !! _ = Some _ |- _ => destruct (Hat _ _ H) as [? ? ? Hx]; by constructor end.
  - match goal with H : checked_sub _ 1 = Some _ |- _ => apply checked_sub_Some in H as [-> _] end. eapply unlock_ok; [by eapply Hat | done |]. intros ->. done.
Qed.
Lemma finish_rwlocks now w s s1 r s' a : rwlocks_ok s -> poll now w s = Some (s1, Some r) -> finish L T w r s1 = Some (s', a) -> rwlocks_ok s'.
Proof.
  intros Hok Hp Hf. apply poll_cases in Hp. assert (rwlocks (objects s1) = rwlocks (objects s)) as Hsame by (destruct r as [[] |]; [by apply ready_frame in Hp as (_ & _ & _ & ? & _) | by destruct Hp as (_ & -> & _)]).
  pose proof (finish_frame L T _ _ _ _ _ Hf) as (_ & _ & _ & Hfr). unfold rwlocks_ok in *. destruct w as [| | i | i | |]; try (rewrite Hfr by done; by rewrite Hsame).
  all: destruct r as [[] | e]; [| by destruct Hp as (_ & _ & _ & d & ? & _)]; cbn [ready] in Hp; unfold read_ready, write_ready, mbind, option_bind in Hp; destruct (rwlocks (objects s) !! i) as [r |] eqn:Hr; [| done];
    pose proof (proj1 (Forall_lookup _ _) Hok i r Hr) as Hrok; cbn [finish] in Hf; unfold mbind, option_bind in Hf.
  - assert (r_writer r = NOBODY) as Hw by (apply Z.eqb_eq; congruence). destruct (read_locked T _ i (objects s1)) as [o |] eqn:Ho; [| done]. simplify_eq/=. destruct (read_locked_ok _ _ _ _ r Hr Ho Hw Hrok) as (r' & -> & ?). by apply Forall_insert.
  - assert (r_readers r = 0) as Hz. { assert ((r_writer r =? NOBODY) && (r_readers r =? 0) = true) as [_ ?%Z.eqb_eq]%andb_true_iff by congruence. done. }
    destruct (write_locked _ i (objects s1)) as [o |] eqn:Ho; [| done]. simplify_eq/=. destruct (write_locked_ok _ _ _ _ r Hr Ho Hz Hrok) as (r' & -> & ?). by apply Forall_insert.
Qed.
Lemma rwlocks_reach c h s : reach L T c h s -> rwlocks_ok s.
Proof.
  induction 1 as [| h s o s' _ IH Hstep]; [apply Forall_replicate, fresh_rw |]. destruct Hstep as [now c' s' r Hw Hb | now c' s1 w Hw Hb | now w s1 r s' a Hw Hp Hf | now w s1 frame c' b Hw Hp Hs | frame c' b Hw Hs | c' Hw Hs]; try done.
  - by eapply begin_rwlocks.
  - by apply (begin_rwlocks _ _ _ _ _ IH) in Hb.
  - by apply (finish_rwlocks _ _ _ _ _ _ _ IH Hp) in Hf.
  - apply poll_cases in Hp as [-> _]. done.
Qed.
(** Readers and a writer exclude each other.  In every reachable state a lock that has a writer has no reader, the reader count is the sum of what the threads hold, and [unlock] lets go of exactly one hold of its caller: it never panics, it refuses a thread that holds nothing, and it is busy to destroy exactly while held. *)
Theorem rwlock_exclusion c h s i r a me : reach L T c h s -> rwlocks (objects s) !! i = Some r -> rwlock_at a = Some i -> r_used r = true -> (me < MAX_THREADS)%nat ->
  (r_writer r <> NOBODY -> forall n, n ∈ r_held r -> n = 0) /\ r_readers r = sum (r_held r) /\
  (exists n r', r_held r !! me = Some n /\
    rwlock_unlock T me a (objects s) =
      (if decide (r_writer r = Z.of_nat me \/ n <> 0) then Some (set_rwlock i r' (objects s), Returns (Ok 0)) else Some (objects s, Returns (Err EOs))) /\
    r_readers r' = (if decide (r_writer r = Z.of_nat me) then r_readers r else r_readers r - 1) /\ r_writer r' = (if decide (r_writer r = Z.of_nat me) then NOBODY else r_writer r)) /\
  rwlock_destroy T a (objects s) = if decide (r_writer r = NOBODY /\ r_readers r = 0) then Some (set_rwlock i FREE_RWLOCK (objects s), Returns (Ok 0)) else Some (objects s, Returns (Err EBusy)).
Proof.
  intros Hreach Hr Ha Hu Hme. pose proof (proj1 (Forall_lookup _ _) (rwlocks_reach _ _ _ Hreach) i r Hr) as Hok. pose proof Hok as [Hlen Hc Hn Hx]. split_and!.
  - intros Hw n Hin. apply list_elem_of_lookup in Hin as [t Ht]. pose proof (sum_member _ _ _ Hc Ht). pose proof (Hx Hw). lia.
  - done.
  - destruct (lookup_lt_is_Some_2 (r_held r) me) as [n Hme']; [by rewrite Hlen |]. unfold rwlock_unlock, on_rwlock. rewrite Ha, Hr. cbn [mbind option_bind]. rewrite Hu. destruct (Z.eqb_spec (r_writer r) (Z.of_nat me)) as [Hw | Hw].
    + eexists n, (mkRwLock true NOBODY (r_readers r) (r_held r)). split; [done |]. rewrite !(decide_True (P := r_writer r = Z.of_nat me)) by done. rewrite decide_True by tauto. done.
    + rewrite Hme'. cbn [mbind option_bind]. eexists n, (mkRwLock true (r_writer r) (r_readers r - 1) (<[me := n - 1]> (r_held r))). split; [done |]. rewrite !(decide_False (P := r_writer r = Z.of_nat me)) by done. split; [| done].
      destruct (Z.eqb_spec n 0) as [-> | Hz]; cbn [negb]; [by rewrite decide_False by tauto |]. rewrite decide_True by tauto. pose proof (sum_member _ _ _ Hc Hme') as Hs.
      replace (checked_sub (r_readers r) 1) with (Some (r_readers r - 1)) by (symmetry; apply checked_sub_Some; lia). done.
  - unfold rwlock_destroy, on_rwlock. rewrite Ha, Hr. cbn [mbind option_bind]. rewrite Hu. destruct (Z.eqb_spec (r_writer r) NOBODY), (Z.eqb_spec (r_readers r) 0); cbn [negb orb]; case_decide; try done; tauto.
Qed.
End RwProofs.

(** ** The clock and deadlines *)
(** The split conversion is the exact one: for every counter value and every usable frequency it is the product with a billion divided by the frequency, rounded down, whenever that fits 64 bits; the product in the middle never overflows, and an unusable frequency or an overflow is no time at all. *)
Theorem monotonic_exact frequency ticks : 0 <= frequency -> 0 <= ticks <= u64_max ->
  monotonic_ns frequency ticks = if decide (0 < frequency <= 18000000000 /\ ticks * 1000000000 / frequency <= u64_max) then Some (ticks * 1000000000 / frequency) else None.
Proof.
  intros Hf Ht. unfold monotonic_ns. destruct (Z.eqb_spec frequency 0) as [-> |]; [by rewrite decide_False by lia |]. destruct (Z.ltb_spec 18000000000 frequency); [by rewrite decide_False by lia |]. cbn [orb].
  pose proof (Z.div_mod ticks frequency ltac:(lia)) as Hdm. pose proof (Z.mod_pos_bound ticks frequency ltac:(lia)) as Hb. set (q := ticks / frequency) in *. set (r := ticks mod frequency) in *. assert (0 <= q) as Hq by (apply Z.div_pos; lia).
  assert (ticks * 1000000000 / frequency = q * 1000000000 + r * 1000000000 / frequency) as He.
  { rewrite Hdm. replace ((frequency * q + r) * 1000000000) with (r * 1000000000 + (q * 1000000000) * frequency) by lia. rewrite Z.div_add by lia. lia. }
  rewrite He. assert (0 <= r * 1000000000 / frequency) as Hr by (apply Z.div_pos; lia). assert (checked_mul u64_max r 1000000000 = Some (r * 1000000000)) as Hmul by (unfold checked_mul; rewrite (proj2 (Z.leb_le _ _)); [done | unfold u64_max; lia]).
  rewrite Hmul. unfold checked_mul. destruct (Z.leb_spec (q * 1000000000) u64_max); cbn [mbind option_bind]; [| by rewrite decide_False by lia]. unfold checked_add. destruct (Z.leb_spec (q * 1000000000 + r * 1000000000 / frequency) u64_max); case_decide; try done; lia.
Qed.
(** A wait for an event ends exactly when it should.  On its turn the waiting thread returns if the event is set, consuming the signal of an auto-reset event; otherwise it returns [Timeout] if the deadline has passed (at once when the clock has no value), and goes on waiting if not; a wait without a deadline never times out. *)
Theorem event_wait_turn now i d s e : events (objects s) !! i = Some e ->
  poll now (WaitEvent i d) s =
  if e_signaled e then Some (mkSystem (sched s) (if e_manual e then objects s else set_event i (mkEvent (e_used e) (e_manual e) false (e_waiters e)) (objects s)) (waiting s), Some (Ok tt)) else
  match d with Some d => Some (s, if decide (d <= default u64_max now) then Some (Err ETimeout) else None) | None => Some (s, None) end.
Proof.
  intros He. unfold poll. cbn [ready deadline_of]. unfold event_ready. rewrite He. cbn [mbind option_bind]. destruct (e_signaled e) eqn:Hs; cbn [negb]; [done |]. cbn [mbind option_bind objects sched waiting]. destruct d as [d |]; [| by destruct s].
  destruct (Z.leb_spec d (default u64_max now)); case_decide; try lia; [| by destruct s]. rewrite He. cbn [mbind option_bind]. rewrite Hs. by destruct s.
Qed.
(** The errors of the mutex calls, which change nothing: locking again a mutex that is not recursive, unlocking a mutex that the caller does not own, and any call with a handle that is no entry of the table. *)
Theorem mutex_errors T o me a i m : index_in (mutexes_base T) (mutex_size T) MAX_MUTEXES a = Some i -> mutexes o !! i = Some m ->
  (m_used m = false -> mutex_lock T me a o = Some (o, Returns (Err EInvalidArgument)) /\ mutex_unlock T me a o = Some (o, Returns (Err EOs)) /\ mutex_destroy T a o = Some (o, Returns (Err EInvalidArgument))) /\
  (m_owner m <> Z.of_nat me -> mutex_unlock T me a o = Some (o, Returns (Err EOs))) /\
  (m_used m = true -> m_owner m = Z.of_nat me -> m_recursive m = false -> mutex_lock T me a o = Some (o, Returns (Err EOs))) /\
  forall b, index_in (mutexes_base T) (mutex_size T) MAX_MUTEXES b = None ->
    mutex_lock T me b o = Some (o, Returns (Err EInvalidArgument)) /\ mutex_unlock T me b o = Some (o, Returns (Err EInvalidArgument)) /\ mutex_destroy T b o = Some (o, Returns (Err EInvalidArgument)).
Proof.
  intros Ha Hm. unfold mutex_lock, mutex_unlock, mutex_destroy, on_mutex. rewrite Ha, Hm. cbn [mbind option_bind]. split_and!.
  - intros ->. done.
  - intros Hne%Z.eqb_neq. rewrite Hne. cbn [negb]. by rewrite orb_true_r.
  - intros -> Ho ->. by rewrite (proj2 (Z.eqb_eq _ _) Ho).
  - intros b ->. done.
Qed.

(** ** A run *)
Module ObjectsSample.
Import ThreadsSample.
Definition tables (b : bool) : Tables := {| events_base := 1048576; event_size := 16; mutexes_base := 2097152; mutex_size := 32; rwlocks_base := 3145728; rwlock_size := 40; checks := b |}.
Definition EVENT : Z := 1048576.
Definition MUTEX : Z := 2097152.
Definition RWLOCK : Z := 3145728.
Definition T : Tables := tables true.
(** What the running thread does next, as a function: a call, or its turn in a wait, or a switch. *)
Definition do_call (c : KCall) (s : System) : System :=
  match begin placed T (Some 0) c s with Some (s', Returns _) => s' | Some (s', Waits w) => set_waiting (current (sched s)) (Some w) s' | None => s end.
Definition do_turn (s : System) : System :=
  match waiting s !! current (sched s) with
  | Some (Some w) =>
      match poll (Some 0) w s with
      | Some (s1, Some r) => match finish placed T w r s1 with Some (s', _) => set_waiting (current (sched s)) None s' | None => s end
      | Some (s1, None) => match schedule placed 64 (sched s1) with Some (c, _) => mkSystem c (objects s1) (waiting s1) | None => s end
      | None => s
      end
  | Some None => match schedule placed 64 (sched s) with Some (c, _) => mkSystem c (objects s) (waiting s) | None => s end
  | None => s
  end.
(** Thread 0 locks a mutex; thread 3 waits for it. *)
Definition s1 : System := do_call (MutexCreate false) (system_new two).
Definition s2 : System := do_call (MutexLock MUTEX) s1.
Definition s3 : System := do_turn s2.
Definition s4 : System := do_turn s3.
Definition s5 : System := do_call (MutexLock MUTEX) s4.
Definition s6 : System := do_turn s5.
Definition locked : list Observed := [Silent; Silent; Silent; Waited 0 (WaitLock 0) (Ok 0); Silent; Returned 0 (MutexCreate false) (Ok MUTEX)].
Lemma locked_reach : reach placed T two locked s6.
Proof.
  unfold locked. apply (reach_step _ _ _ _ s5); [| by apply (step_block placed T s5 (Some 0) (WaitLock 0) s5 64 (sched s6) true)].
  apply (reach_step _ _ _ _ s4); [| by apply (step_wait placed T s4 (Some 0) (MutexLock MUTEX) (set_waiting 3 None s5))].
  apply (reach_step _ _ _ _ s3); [| by apply (step_yield placed T s3 64 (sched s4) true)].
  apply (reach_step _ _ _ _ s2); [| by apply (step_done placed T s2 (Some 0) (WaitLock 0) s2 (Ok tt) (set_waiting 0 (Some (WaitLock 0)) s3))].
  apply (reach_step _ _ _ _ s1); [| by apply (step_wait placed T s1 (Some 0) (MutexLock MUTEX) (set_waiting 0 None s2))].
  apply (reach_step _ _ _ _ (system_new two)); [apply reach_start | by apply (step_return placed T (system_new two) (Some 0) (MutexCreate false))].
Qed.
Lemma mutex_exclusion_witness : holds T locked 0 0 = 1 /\ holds T locked 3 0 = 0 /\ mutex_destroy T MUTEX (objects s6) = Some (objects s6, Returns (Err EBusy)).
Proof.
  destruct (mutex_exclusion placed T two locked s6 0 (mkMutex true false 0 1 2) 0 3 locked_reach) as [H1 H2]; [vm_compute; reflexivity | unfold MAX_THREADS; lia | unfold MAX_THREADS; lia |].
  assert (holds T locked 0 0 = 1) as Hh by (vm_compute; reflexivity). destruct H1 as (_ & _ & _ & H3); [rewrite Hh; discriminate |]. split; [exact Hh |]. split; [apply H3; discriminate |].
  rewrite (H2 MUTEX); [| vm_compute; reflexivity | reflexivity]. rewrite decide_False; [reflexivity |]. intros [H _]. discriminate H.
Defined.
(** Thread 0 sets an auto-reset event, waits for it, sets it and waits again. *)
Definition e1 : System := do_call (EventCreate false true) (system_new two).
Definition e2 : System := do_call (EventWait EVENT INFINITE) e1.
Definition e3 : System := do_turn e2.
Definition e4 : System := do_call (EventSet EVENT) e3.
Definition e5 : System := do_call (EventWait EVENT 5) e4.
Definition e6 : System := do_turn e5.
Lemma one_set_one_release_witness : exists o, o ∈ [Silent; Returned 0 (EventSet EVENT) (Ok 0)] /\ signals T 0 o.
Proof.
  apply (one_set_one_release placed T ltac:(reflexivity) two 0 0 0 (Some 5) None 0 0 [Silent; Returned 0 (EventSet EVENT) (Ok 0)] [Silent; Returned 0 (EventCreate false true) (Ok EVENT)] e6); [| vm_compute; reflexivity].
  apply (reach_step _ _ _ _ e5); [| by apply (step_done placed T e5 (Some 0) (WaitEvent 0 (Some 5)) (set_waiting 0 (Some (WaitEvent 0 (Some 5))) (mkSystem (sched e5) (set_event 0 (mkEvent true false false 1) (objects e5)) (waiting e5))) (Ok tt) (set_waiting 0 (Some (WaitEvent 0 (Some 5))) e6))].
  apply (reach_step _ _ _ _ e4); [| by apply (step_wait placed T e4 (Some 0) (EventWait EVENT 5) (set_waiting 0 None e5))].
  apply (reach_step _ _ _ _ e3); [| by apply (step_return placed T e3 (Some 0) (EventSet EVENT))].
  apply (reach_step _ _ _ _ e2); [| by apply (step_done placed T e2 (Some 0) (WaitEvent 0 None) (set_waiting 0 (Some (WaitEvent 0 None)) (mkSystem (sched e2) (set_event 0 (mkEvent true false false 1) (objects e2)) (waiting e2))) (Ok tt) (set_waiting 0 (Some (WaitEvent 0 None)) e3))].
  apply (reach_step _ _ _ _ e1); [| by apply (step_wait placed T e1 (Some 0) (EventWait EVENT INFINITE) (set_waiting 0 None e2))].
  apply (reach_step _ _ _ _ (system_new two)); [apply reach_start | by apply (step_return placed T (system_new two) (Some 0) (EventCreate false true))].
Defined.
(** Thread 0 holds a lock for writing while thread 3 waits to read, lets go of it and destroys it. *)
Definition r1 : System := do_call RwCreate (system_new two).
Definition r2 : System := do_call (RwWrite RWLOCK) r1.
Definition r3 : System := do_turn r2.
Definition r4 : System := do_turn r3.
Definition r5 : System := do_call (RwRead RWLOCK) r4.
Definition r6 : System := do_turn r5.
Definition r7 : System := do_call (RwUnlock RWLOCK) r6.
Definition r8 : System := do_call (RwDestroy RWLOCK) r7.
Definition written : list Observed := [Waited 0 (WaitWrite 0) (Ok 0); Silent; Returned 0 RwCreate (Ok RWLOCK)].
Lemma written_reach : reach placed T two written r3.
Proof.
  apply (reach_step _ _ _ _ r2); [| by apply (step_done placed T r2 (Some 0) (WaitWrite 0) r2 (Ok tt) (set_waiting 0 (Some (WaitWrite 0)) r3))].
  apply (reach_step _ _ _ _ r1); [| by apply (step_wait placed T r1 (Some 0) (RwWrite RWLOCK) (set_waiting 0 None r2))].
  apply (reach_step _ _ _ _ (system_new two)); [apply reach_start | by apply (step_return placed T (system_new two) (Some 0) RwCreate)].
Qed.
Lemma rwlock_exclusion_witness : rwlock_destroy T RWLOCK (objects r3) = Some (objects r3, Returns (Err EBusy)) /\ forall n, n ∈ replicate MAX_THREADS 0 -> n = 0.
Proof.
  destruct (rwlock_exclusion placed T eq_refl two written r3 0 (mkRwLock true 0 0 (replicate MAX_THREADS 0)) RWLOCK 0 written_reach) as (H1 & _ & _ & H4); [vm_compute; reflexivity | vm_compute; reflexivity | reflexivity | unfold MAX_THREADS; lia |].
  split; [rewrite H4, decide_False; [reflexivity |]; intros [H _]; discriminate H |]. apply H1. discriminate.
Defined.
(** The module says that destroying an object that other threads are inside is [Busy]; a reader/writer lock that a thread waits for is destroyed. *)
Theorem rwlock_destroyed_under_waiter : exists h s, reach placed T two (Returned 0 (RwDestroy RWLOCK) (Ok 0) :: h) s /\ waiting s !! 3%nat = Some (Some (WaitRead 0)).
Proof.
  exists (Returned 0 (RwUnlock RWLOCK) (Ok 0) :: Silent :: Silent :: Silent :: written), r8. split; [| by vm_compute]. apply (reach_step _ _ _ _ r7); [| by apply (step_return placed T r7 (Some 0) (RwDestroy RWLOCK))].
  apply (reach_step _ _ _ _ r6); [| by apply (step_return placed T r6 (Some 0) (RwUnlock RWLOCK))].
  apply (reach_step _ _ _ _ r5); [| by apply (step_block placed T r5 (Some 0) (WaitRead 0) r5 64 (sched r6) true)].
  apply (reach_step _ _ _ _ r4); [| by apply (step_wait placed T r4 (Some 0) (RwRead RWLOCK) (set_waiting 3 None r5))].
  apply (reach_step _ _ _ _ r3); [apply written_reach | by apply (step_yield placed T r3 64 (sched r4) true)].
Qed.
(** Without overflow checks the [u8] that counts the reads of one thread wraps: after 256 nested reads the thread cannot let go of the lock any more, and nobody can write or destroy it. *)
Definition nested (n : nat) : option Objects := Nat.iter n (fun o => o ← o; read_locked (tables false) 0 0 o) (Some (objects r1)).
Theorem nested_reads_are_lost : match nested 256 with
  | Some o => rwlock_unlock (tables false) 0 RWLOCK o = Some (o, Returns (Err EOs)) /\ rwlock_destroy (tables false) RWLOCK o = Some (o, Returns (Err EBusy)) /\ write_ready 0 o = Some false
  | None => False
  end.
Proof. vm_compute. done. Qed.
Lemma monotonic_exact_witness : monotonic_ns 62500000 18446744073709551615 = None /\ monotonic_ns 62500000 123456789 = Some 1975308624.
Proof.
  split; [rewrite (monotonic_exact 62500000 18446744073709551615) by (unfold u64_max; lia) | rewrite (monotonic_exact 62500000 123456789) by (unfold u64_max; lia)]; vm_compute; reflexivity.
Defined.
Lemma event_wait_turn_witness : poll (Some 9) (WaitEvent 0 (Some 7)) e3 = Some (e3, Some (Err ETimeout)).
Proof. rewrite (event_wait_turn (Some 9) 0 (Some 7) e3 (mkEvent true false false 0)) by (vm_compute; reflexivity). reflexivity. Defined.
Lemma mutex_errors_witness : mutex_lock T 0 MUTEX (objects s6) = Some (objects s6, Returns (Err EOs)) /\ mutex_unlock T 3 MUTEX (objects s6) = Some (objects s6, Returns (Err EOs)).
Proof.
  destruct (mutex_errors T (objects s6) 0 MUTEX 0 (mkMutex true false 0 1 2)) as (_ & _ & H & _); [vm_compute; reflexivity | vm_compute; reflexivity |].
  destruct (mutex_errors T (objects s6) 3 MUTEX 0 (mkMutex true false 0 1 2)) as (_ & H' & _); [vm_compute; reflexivity | vm_compute; reflexivity |]. split; [apply H; reflexivity | apply H'; discriminate].
Defined.
End ObjectsSample.
