(* ===== verification/Monitors.v ===== *)
(** * Monitors.v: events, mutexes and reader/writer locks of the standard-library ports

    [src/crates/dotnet-pal-std-common/src/lib.rs]: each object is a [std::sync::Mutex] around its state and a [Condvar].
    The threads run concurrently, so a call is cut at its waits: what it does between taking and giving up the mutex is
    one step.  A thread inside a blocking call is asleep on the condition variable or awake, that is, about to take the
    mutex again; it wakes by a notification, by its timeout or for no reason.  Poisoning is not modelled: no code under
    these mutexes panics. *)
From S2P Require Import Prelude Port.
Local Open Scope Z_scope.

(** ** The condition variable *)
Inductive Phase (K : Type) := Awake (k : K) | Asleep (k : K).
Arguments Awake {K} k.
Arguments Asleep {K} k.
Section Condvar.
Context {K : Type}.
Implicit Types ts : gmap nat (Phase K).
Definition kind (p : Phase K) : K := match p with Awake k | Asleep k => k end.
Definition sleeper ts : Prop := exists t k, ts !! t = Some (Asleep k).
Definition runner ts : Prop := exists t k, ts !! t = Some (Awake k).
(** [Condvar::notify_one] wakes one of the threads that sleep, if there is one. *)
Inductive notify_one ts : gmap nat (Phase K) -> Prop :=
| notify_some t k : ts !! t = Some (Asleep k) -> notify_one ts (<[t := Awake k]> ts)
| notify_none : ~ sleeper ts -> notify_one ts ts.
Definition notify_all ts : gmap nat (Phase K) := (fun p => Awake (kind p)) <$> ts.
Lemma notify_all_sleeper ts : ~ sleeper (notify_all ts).
Proof. intros (t & k & Ht). unfold notify_all in Ht. rewrite lookup_fmap in Ht. by destruct (ts !! t). Qed.
Lemma notify_one_runner ts ts' : notify_one ts ts' -> sleeper ts' -> runner ts'.
Proof. intros [t k Ht | Hno] Hs; [exists t, k; apply lookup_insert_eq | done]. Qed.
Lemma notify_one_size ts ts' : notify_one ts ts' -> size ts' = size ts.
Proof. intros [t k Ht | Hno]; [| done]. by apply map_size_insert_Some; eexists. Qed.
Lemma notify_all_size ts : size (notify_all ts) = size ts.
Proof. apply map_size_fmap. Qed.
Lemma notify_one_None ts ts' t : notify_one ts ts' -> ts' !! t = None <-> ts !! t = None.
Proof. intros [u k Hu | _]; [| done]. destruct (decide (t = u)) as [-> | Hne]; [by rewrite lookup_insert_eq, Hu | by rewrite lookup_insert_ne]. Qed.
Lemma notify_one_wake ts ts' t p : notify_one ts ts' -> ts' !! t = Some p -> ts !! t = Some p \/ exists k, ts !! t = Some (Asleep k) /\ p = Awake k.
Proof.
  intros [u k Hu | _] Ht; [| by left]. destruct (decide (t = u)) as [-> | Hne]; [rewrite lookup_insert_eq in Ht; injection Ht as <-; right; by exists k | left; by rewrite lookup_insert_ne in Ht].
Qed.
End Condvar.
Arguments notify_all {K} ts : simpl never.

(** ** Events *)
Module StdEvent.
Record EventState := mkEvent { manual : bool; signaled : bool; waiters : Z }.
Definition event_new (manual_reset initially_set : bool) : EventState := mkEvent manual_reset initially_set 0.
Definition event_set (st : EventState) : EventState := mkEvent (manual st) true (waiters st).
Definition event_reset (st : EventState) : EventState := mkEvent (manual st) false (waiters st).
Definition event_destroy (st : EventState) : Result unit := if negb (waiters st =? 0) then Err EBusy else Ok tt.
Definition event_enter (st : EventState) : EventState := mkEvent (manual st) (signaled st) (waiters st + 1).
(** From the head of the loop of [wait] to its sleep or its return. *)
Definition event_loop (now : Z) (deadline : option Z) (st : EventState) : EventState * option (Result unit) :=
  if signaled st then (mkEvent (manual st) (if manual st then signaled st else false) (waiters st - 1), Some (Ok tt)) else
  match deadline with
  | None => (st, None)
  | Some deadline => if deadline <=? now then (mkEvent (manual st) (signaled st) (waiters st - 1), Some (Err ETimeout)) else (st, None)
  end.
Abbreviation Waiting := (gmap nat (Phase (option Z))).
Inductive Label := Set_ | Reset | Released (t : nat) (r : Result unit) | Quiet.
Inductive step : EventState * Waiting -> Label -> EventState * Waiting -> Prop :=
| step_set_manual st ts : manual st = true -> step (st, ts) Set_ (event_set st, notify_all ts)
| step_set_auto st ts ts' : manual st = false -> notify_one ts ts' -> step (st, ts) Set_ (event_set st, ts')
| step_reset st ts : step (st, ts) Reset (event_reset st, ts)
| step_wait_now st ts t now d st' r : ts !! t = None -> event_loop now d (event_enter st) = (st', Some r) -> step (st, ts) (Released t r) (st', ts)
| step_wait_sleep st ts t now d st' : ts !! t = None -> event_loop now d (event_enter st) = (st', None) -> step (st, ts) Quiet (st', <[t := Asleep d]> ts)
| step_wake st ts t d : ts !! t = Some (Asleep d) -> step (st, ts) Quiet (st, <[t := Awake d]> ts)
| step_return st ts t now d st' r : ts !! t = Some (Awake d) -> event_loop now d st = (st', Some r) -> step (st, ts) (Released t r) (st', delete t ts)
| step_sleep st ts t now d st' : ts !! t = Some (Awake d) -> event_loop now d st = (st', None) -> step (st, ts) Quiet (st', <[t := Asleep d]> ts).
Inductive reach (st0 : EventState) : EventState * Waiting -> Prop :=
| reach_new : waiters st0 = 0 -> reach st0 (st0, ∅)
| reach_step s l s' : reach st0 s -> step s l s' -> reach st0 s'.
Record event_ok (s : EventState * Waiting) : Prop := {
  eo_waiters : waiters s.1 = Z.of_nat (size s.2);
  eo_manual : manual s.1 = true -> signaled s.1 = true -> ~ sleeper s.2;
  eo_auto : signaled s.1 = true -> sleeper s.2 -> runner s.2;
}.
Lemma event_loop_Some now d st st' r : event_loop now d st = (st', Some r) -> manual st' = manual st /\ waiters st' = waiters st - 1 /\ (signaled st' = true -> manual st = true /\ signaled st = true).
Proof. unfold event_loop. intros H. repeat case_match; simplify_eq/=; naive_solver. Qed.
Lemma event_loop_None now d st st' : event_loop now d st = (st', None) -> st' = st /\ signaled st = false.
Proof. unfold event_loop. intros H. repeat case_match; simplify_eq/=; done. Qed.
Lemma size_delete_Some {K} (ts : gmap nat (Phase K)) t p : ts !! t = Some p -> Z.of_nat (size (delete t ts)) = Z.of_nat (size ts) - 1.
Proof. intros Ht. rewrite map_size_delete_Some by (by eexists). assert (size ts <> 0)%nat; [| lia]. rewrite map_size_non_empty_iff. intros ->. by rewrite lookup_empty in Ht. Qed.
Lemma sleeper_delete {K} (ts : gmap nat (Phase K)) t : sleeper (delete t ts) -> sleeper ts.
Proof. intros (u & k & [_ Hu]%lookup_delete_Some). by exists u, k. Qed.
Lemma sleeper_wake {K} (ts : gmap nat (Phase K)) t k : sleeper (<[t := Awake k]> ts) -> sleeper ts.
Proof. intros (u & k' & [[_ ?] | [_ ?]]%lookup_insert_Some); [done | by exists u, k']. Qed.
Lemma event_step_ok s l s' : event_ok s -> step s l s' -> event_ok s'.
Proof.
  intros [Hw Hm Ha] Hstep. destruct Hstep as [st ts Hman | st ts ts' Hman Hno | st ts | st ts t now d st' r Ht Hl | st ts t now d st' Ht Hl | st ts t d Ht | st ts t now d st' r Ht Hl | st ts t now d st' Ht Hl]; cbn [fst snd] in *.
  - constructor; cbn [fst snd manual signaled waiters event_set event_reset event_enter]; [by rewrite notify_all_size | intros _ _; apply notify_all_sleeper | intros _ H; by apply notify_all_sleeper in H].
  - constructor; cbn [fst snd manual signaled waiters event_set event_reset event_enter]; [by rewrite (notify_one_size _ _ Hno) | congruence | intros _; by eapply notify_one_runner].
  - by constructor.
  - destruct (event_loop_Some _ _ _ _ _ Hl) as (H1 & H2 & H3). cbn [manual signaled waiters event_enter] in *. constructor; cbn [fst snd manual signaled waiters event_set event_reset event_enter]; [lia | intros ? [_ ?]%H3; apply Hm; [congruence | done] | intros [Hman Hsig]%H3 Hs; by destruct (Hm Hman Hsig)].
  - destruct (event_loop_None _ _ _ _ Hl) as [-> Hs]. simpl in Hs. constructor; cbn [fst snd manual signaled waiters event_set event_reset event_enter]; [rewrite map_size_insert_None by done; lia | congruence | congruence].
  - constructor; cbn [fst snd manual signaled waiters event_set event_reset event_enter]; [by rewrite map_size_insert_Some by (by eexists) | intros H1 H2 Hs%sleeper_wake; by apply (Hm H1 H2) | intros _ _; exists t, d; apply lookup_insert_eq].
  - destruct (event_loop_Some _ _ _ _ _ Hl) as (H1 & H2 & H3). constructor; cbn [fst snd manual signaled waiters event_set event_reset event_enter]; [rewrite (size_delete_Some _ _ _ Ht); lia | intros ? [Hman Hsig]%H3 Hs%sleeper_delete; by apply (Hm Hman Hsig) | intros [Hman Hsig]%H3 Hs%sleeper_delete; by destruct (Hm Hman Hsig)].
  - destruct (event_loop_None _ _ _ _ Hl) as [-> Hs]. constructor; cbn [fst snd manual signaled waiters event_set event_reset event_enter]; [by rewrite map_size_insert_Some by (by eexists) | congruence | congruence].
Qed.
(** What a step makes of the signal. *)
Definition signal_after (st : EventState) (l : Label) : bool :=
  match l with Set_ => true | Reset => false | Released _ (Ok _) => manual st | _ => signaled st end.
Lemma loop_signal now d st st' r : event_loop now d st = (st', Some r) ->
  manual st' = manual st /\ (if r then signaled st = true /\ signaled st' = manual st else signaled st' = signaled st).
Proof. unfold event_loop. intros H. repeat case_match; simplify_eq/=; naive_solver. Qed.
Lemma event_step_signal st ts l st' ts' : step (st, ts) l (st', ts') ->
  manual st' = manual st /\ signaled st' = signal_after st l /\ forall t, l = Released t (Ok tt) -> signaled st = true.
Proof.
  inversion 1; subst; simpl; try done;
    repeat match goal with
    | Hl : event_loop _ _ _ = (_, Some ?r) |- _ => destruct (loop_signal _ _ _ _ _ Hl) as [? ?]; clear Hl; destruct r; simpl in *
    | Hl : event_loop _ _ _ = (_, None) |- _ => destruct (event_loop_None _ _ _ _ Hl) as [-> ?]; clear Hl
    end; naive_solver.
Qed.
Lemma event_reach_ok st0 s : reach st0 s -> event_ok s.
Proof.
  induction 1 as [H0 | s l s' _ IH Hstep]; [| by eapply event_step_ok]. constructor; cbn [fst snd manual signaled waiters event_set event_reset event_enter]; [done | intros _ _ (t & k & Ht); by rewrite lookup_empty in Ht | intros _ (t & k & Ht); by rewrite lookup_empty in Ht].
Qed.
(** C10: no signal is lost.  Whatever the interleaving, with spurious wake-ups and timeouts, while an event is set and threads sleep in a wait for it, some thread in a wait is awake and returns success as soon as it runs, whatever the time; a manual-reset event that is set lets nobody sleep; destroying the event is busy exactly while a thread is inside a wait; and the event is set and cleared by nothing else than set, reset and a wait that succeeds, which finds it set, takes the signal of an auto-reset event and leaves that of a manual-reset one. *)
Theorem event_no_lost_signal st0 st ts : reach st0 (st, ts) ->
  (signaled st = true -> sleeper ts -> exists t d, ts !! t = Some (Awake d) /\ forall now, (event_loop now d st).2 = Some (Ok tt)) /\
  (manual st = true -> signaled st = true -> ~ sleeper ts) /\
  (event_destroy st = if decide (ts = ∅) then Ok tt else Err EBusy) /\
  (forall l st' ts', step (st, ts) l (st', ts') -> manual st' = manual st /\ signaled st' = signal_after st l /\ forall t, l = Released t (Ok tt) -> signaled st = true).
Proof.
  intros [Hw Hm Ha]%event_reach_ok. simpl in *. split_and!; [| done | | by intros l st' ts' Hstep%event_step_signal].
  - intros Hsig Hs. destruct (Ha Hsig Hs) as (t & d & Ht). exists t, d. split; [done |]. intros now. unfold event_loop. by rewrite Hsig.
  - unfold event_destroy. rewrite Hw. case_decide as He; [by rewrite He, map_size_empty |]. rewrite (proj2 (Z.eqb_neq _ _)); [done |]. rewrite <- map_size_non_empty_iff in He. lia.
Qed.
End StdEvent.

(** ** Mutexes *)
Module StdMutex.
Record MutexState := mkMutex { recursive : bool; owner : option nat; depth : Z; users : Z }.
Definition mutex_new (recursive : bool) : MutexState := mkMutex recursive None 0 0.
Definition mutex_destroy (st : MutexState) : Result unit := if negb (users st =? 0) then Err EBusy else Ok tt.
(** The loop of [lock]: the mutex is taken, or the thread sleeps. *)
Definition lock_loop (me : nat) (st : MutexState) : MutexState * option (Result unit) :=
  match owner st with
  | Some _ => (st, None)
  | None => (mkMutex (recursive st) (Some me) 1 (users st), Some (Ok tt))
  end.
Definition mutex_lock (me : nat) (st : MutexState) : MutexState * option (Result unit) :=
  if decide (owner st = Some me) then
    if negb (recursive st) || (depth st =? u64_max) then (st, Some (Err EOs)) else
    (mkMutex (recursive st) (owner st) (depth st + 1) (users st + 1), Some (Ok tt))
  else lock_loop me (mkMutex (recursive st) (owner st) (depth st) (users st + 1)).
(** The new state, the result, and whether a waiter is notified. *)
Definition mutex_unlock (me : nat) (st : MutexState) : MutexState * Result unit * bool :=
  if decide (owner st = Some me) then
    let st := mkMutex (recursive st) (owner st) (depth st - 1) (users st - 1) in
    if depth st =? 0 then (mkMutex (recursive st) None (depth st) (users st), Ok tt, true) else (st, Ok tt, false)
  else (st, Err EOs, false).
Abbreviation Waiting := (gmap nat (Phase unit)).
Inductive Label := Locked (t : nat) (r : Result unit) | Unlocked (t : nat) (r : Result unit) | Quiet.
Inductive step : MutexState * Waiting -> Label -> MutexState * Waiting -> Prop :=
| step_lock st ts t st' r : ts !! t = None -> mutex_lock t st = (st', Some r) -> step (st, ts) (Locked t r) (st', ts)
| step_lock_sleep st ts t st' : ts !! t = None -> mutex_lock t st = (st', None) -> step (st, ts) Quiet (st', <[t := Asleep tt]> ts)
| step_wake st ts t : ts !! t = Some (Asleep tt) -> step (st, ts) Quiet (st, <[t := Awake tt]> ts)
| step_acquire st ts t st' r : ts !! t = Some (Awake tt) -> lock_loop t st = (st', Some r) -> step (st, ts) (Locked t r) (st', delete t ts)
| step_sleep st ts t st' : ts !! t = Some (Awake tt) -> lock_loop t st = (st', None) -> step (st, ts) Quiet (st', <[t := Asleep tt]> ts)
| step_unlock st ts t st' r : ts !! t = None -> mutex_unlock t st = (st', r, false) -> step (st, ts) (Unlocked t r) (st', ts)
| step_release st ts ts' t st' r : ts !! t = None -> mutex_unlock t st = (st', r, true) -> notify_one ts ts' -> step (st, ts) (Unlocked t r) (st', ts').
Inductive reach (b : bool) : list Label -> MutexState * Waiting -> Prop :=
| reach_new : reach b [] (mutex_new b, ∅)
| reach_step h s l s' : reach b h s -> step s l s' -> reach b (l :: h) s'.
(** How often a thread has locked more than unlocked. *)
Definition change (t : nat) (l : Label) : Z :=
  match l with Locked u (Ok _) => Z.b2z (bool_decide (u = t)) | Unlocked u (Ok _) => - Z.b2z (bool_decide (u = t)) | _ => 0 end.
Definition holds (h : list Label) (t : nat) : Z := foldr (fun l n => change t l + n) 0 h.
Record mutex_ok (h : list Label) (s : MutexState * Waiting) : Prop := {
  mo_users : users s.1 = depth s.1 + Z.of_nat (size s.2);
  mo_depth : 0 <= depth s.1;
  mo_owner : owner s.1 = None <-> depth s.1 = 0;
  mo_held : forall t, holds h t = if decide (owner s.1 = Some t) then depth s.1 else 0;
  mo_awake : owner s.1 = None -> sleeper s.2 -> runner s.2;
}.
Lemma holds_cons l h t : holds (l :: h) t = change t l + holds h t.
Proof. done. Qed.
(** A mutex is taken by [t]. *)
Lemma taken_held h t st n : (forall u, holds h u = if decide (owner st = Some u) then depth st else 0) -> owner st = None ->
  forall u, holds (Locked t (Ok n) :: h) u = if decide (Some t = Some u) then 1 else 0.
Proof.
  intros Hh Ho u. rewrite holds_cons, Hh, Ho. cbn [change]. rewrite (decide_False (P := None = Some u)) by done. destruct (decide (t = u)) as [-> | Hne]; [by rewrite bool_decide_eq_true_2, decide_True | rewrite bool_decide_eq_false_2, decide_False by congruence; done].
Qed.
Lemma mutex_step_ok h s l s' : mutex_ok h s -> step s l s' -> mutex_ok (l :: h) s'.
Proof.
  intros [Hu Hd Ho Hh Ha] Hstep. destruct Hstep as [st ts t st' r Ht Hl | st ts t st' Ht Hl | st ts t Ht | st ts t st' r Ht Hl | st ts t st' Ht Hl | st ts t st' r Ht Hl | st ts ts' t st' r Ht Hl Hno]; cbn [fst snd] in *.
  - unfold mutex_lock, lock_loop in Hl. cbn [owner recursive users depth] in Hl. case_decide as Hme; [destruct (negb (recursive st) || (depth st =? u64_max)) |]; [| | destruct (owner st) as [u |] eqn:Hown; [done |]]; simplify_eq/=.
    + by constructor.
    + assert (depth st <> 0) by (intros Hz%Ho; congruence). constructor; cbn [fst snd users depth owner]; [lia | lia | | | congruence].
      * rewrite Hme. split; [done | lia].
      * intros u. rewrite holds_cons, Hh. cbn [change]. destruct (decide (t = u)) as [-> | Hne]; [rewrite bool_decide_eq_true_2, !decide_True by done; simpl; lia | rewrite bool_decide_eq_false_2, !decide_False by congruence; done].
    + pose proof (proj1 Ho eq_refl) as Hz. constructor; cbn [fst snd users depth owner]; [lia | lia | done | | done]. apply (taken_held h t st tt); [by rewrite Hown | done].
  - unfold mutex_lock, lock_loop in Hl. cbn [owner recursive users depth] in Hl. case_decide as Hme; [by case_match |]. destruct (owner st) as [u |] eqn:Hown; simplify_eq/=. constructor; cbn [fst snd users depth owner]; [rewrite map_size_insert_None by done; lia | done | done | | done].
    intros v. by rewrite holds_cons, Hh.
  - constructor; cbn [fst snd]; try done; [by rewrite map_size_insert_Some by (by eexists) | intros _ _; exists t, tt; apply lookup_insert_eq].
  - unfold lock_loop in Hl. destruct (owner st) as [u |] eqn:Hown; simplify_eq/=. pose proof (proj1 Ho eq_refl) as Hz. constructor; cbn [fst snd users depth owner]; [rewrite (StdEvent.size_delete_Some _ _ _ Ht); lia | lia | done | | done]. apply (taken_held h t st tt); [by rewrite Hown | done].
  - unfold lock_loop in Hl. destruct (owner st) as [u |] eqn:Hown; simplify_eq/=. constructor; cbn [fst snd]; rewrite ?Hown; try done; by rewrite map_size_insert_Some by (by eexists).
  - unfold mutex_unlock in Hl. cbn [depth owner users recursive] in Hl. case_decide as Hme; [| simplify_eq; constructor; try done; intros u; by rewrite holds_cons, Hh]. destruct (Z.eqb_spec (depth st - 1) 0); [done |]. simplify_eq/=.
    assert (depth st <> 0) by (intros Hz%Ho; congruence). constructor; cbn [fst snd users depth owner]; [lia | lia | rewrite Hme; split; [done | lia] | | congruence].
    intros u. rewrite holds_cons, Hh. cbn [change]. destruct (decide (t = u)) as [-> | Hne]; [rewrite bool_decide_eq_true_2, !decide_True by done; simpl; lia | rewrite bool_decide_eq_false_2, !decide_False by congruence; done].
  - unfold mutex_unlock in Hl. cbn [depth owner users recursive] in Hl. case_decide as Hme; [| done]. destruct (Z.eqb_spec (depth st - 1) 0); [| done]. simplify_eq/=. constructor; cbn [fst snd users depth owner]; [rewrite (notify_one_size _ _ Hno); lia | lia | done | | intros _; by eapply notify_one_runner].
    intros u. rewrite holds_cons, Hh. cbn [change]. rewrite (decide_False (P := None = Some u)) by done. destruct (decide (t = u)) as [-> | Hne]; [rewrite bool_decide_eq_true_2, decide_True by done; simpl; lia | rewrite bool_decide_eq_false_2, decide_False by congruence; done].
Qed.
Lemma mutex_reach_ok b h s : reach b h s -> mutex_ok h s.
Proof. induction 1 as [| h s l s' _ IH Hstep]; [| by eapply mutex_step_ok]. constructor; cbn [fst snd]; try done. intros _ (t & k & Ht). by rewrite lookup_empty in Ht. Qed.
(** The mutex of the standard-library ports excludes and never forgets a waiter.  However the threads interleave, only the owner has locked it more often than unlocked, as often as its depth says; while it is free and threads sleep in [lock], some thread in [lock] is awake and takes it as soon as it runs; destroying it is busy exactly while a thread holds it or waits for it. *)
Theorem std_mutex_correct b h st ts : reach b h (st, ts) ->
  (forall t, holds h t <> 0 -> owner st = Some t /\ depth st = holds h t /\ 0 < holds h t) /\
  (forall t u, holds h t <> 0 -> holds h u <> 0 -> t = u) /\
  (owner st = None -> sleeper ts -> exists t, ts !! t = Some (Awake tt) /\ (lock_loop t st).2 = Some (Ok tt)) /\
  mutex_destroy st = if decide (owner st = None /\ ts = ∅) then Ok tt else Err EBusy.
Proof.
  intros [Hu Hd Ho Hh Ha]%mutex_reach_ok. cbn [fst snd] in *. assert (forall t, holds h t <> 0 -> owner st = Some t) as Hown by (intros t; rewrite Hh; by case_decide). split_and!.
  - intros t Ht. pose proof (Hown t Ht) as He. rewrite Hh, decide_True by done. rewrite Hh, decide_True in Ht by done. split_and!; [done | done | lia].
  - intros t u Ht%Hown Hu'%Hown. congruence.
  - intros Hn Hs. destruct (Ha Hn Hs) as (t & [] & Ht). exists t. split; [done |]. unfold lock_loop. by rewrite Hn.
  - unfold mutex_destroy. rewrite Hu. case_decide as He; [destruct He as [Hz%Ho ->]; by rewrite Hz, map_size_empty |]. rewrite (proj2 (Z.eqb_neq _ _)); [done |]. intros Hz. apply He. split; [apply Ho; lia |]. apply map_size_empty_iff. lia.
Qed.
End StdMutex.

(** ** Reader/writer locks *)
Module StdRwLock.
(** The tuple under the mutex: how many readers, and whether a writer. *)
Definition RwState : Type := Z * bool.
Inductive Side := Reading | Writing.
Definition rw_new : RwState := (0, false).
Definition admits (side : Side) (st : RwState) : bool := match side with Reading => negb st.2 | Writing => negb (st.2 || negb (st.1 =? 0)) end.
(** [read] and [write] from the head of their loop. *)
Definition rw_loop (side : Side) (st : RwState) : RwState * option (Result unit) :=
  if admits side st then ((match side with Reading => (st.1 + 1, st.2) | Writing => (st.1, true) end), Some (Ok tt)) else (st, None).
Definition rw_unlock (st : RwState) : RwState * Result unit :=
  if st.2 then ((st.1, false), Ok tt) else if negb (st.1 =? 0) then ((st.1 - 1, st.2), Ok tt) else (st, Err EOs).
Definition rw_destroy (st : RwState) : Result unit := if st.2 || negb (st.1 =? 0) then Err EBusy else Ok tt.
Abbreviation Waiting := (gmap nat (Phase Side)).
Inductive Label := Acquired (t : nat) (side : Side) | Released (t : nat) (r : Result unit) | Quiet.
Inductive step : RwState * Waiting -> Label -> RwState * Waiting -> Prop :=
| step_enter st ts t side st' r : ts !! t = None -> rw_loop side st = (st', Some r) -> step (st, ts) (Acquired t side) (st', ts)
| step_enter_sleep st ts t side st' : ts !! t = None -> rw_loop side st = (st', None) -> step (st, ts) Quiet (st', <[t := Asleep side]> ts)
| step_wake st ts t side : ts !! t = Some (Asleep side) -> step (st, ts) Quiet (st, <[t := Awake side]> ts)
| step_acquire st ts t side st' r : ts !! t = Some (Awake side) -> rw_loop side st = (st', Some r) -> step (st, ts) (Acquired t side) (st', delete t ts)
| step_sleep st ts t side st' : ts !! t = Some (Awake side) -> rw_loop side st = (st', None) -> step (st, ts) Quiet (st', <[t := Asleep side]> ts)
| step_unlock st ts t st' : ts !! t = None -> rw_unlock st = (st', Ok tt) -> step (st, ts) (Released t (Ok tt)) (st', notify_all ts)
| step_refused st ts t st' e : ts !! t = None -> rw_unlock st = (st', Err e) -> step (st, ts) (Released t (Err e)) (st', ts).
Inductive reach : list Label -> RwState * Waiting -> Prop :=
| reach_new : reach [] (rw_new, ∅)
| reach_step h s l s' : reach h s -> step s l s' -> reach (l :: h) s'.
(** Acquired and not yet released, by what was observed. *)
Definition change (l : Label) : Z := match l with Acquired _ _ => 1 | Released _ (Ok _) => -1 | _ => 0 end.
Definition outstanding (h : list Label) : Z := foldr (fun l n => change l + n) 0 h.
Record rw_ok (h : list Label) (s : RwState * Waiting) : Prop := {
  ro_readers : 0 <= s.1.1;
  ro_exclusive : s.1.2 = true -> s.1.1 = 0;
  ro_count : outstanding h = s.1.1 + Z.b2z s.1.2;
  ro_asleep : forall t side, s.2 !! t = Some (Asleep side) -> admits side s.1 = false;
}.
Lemma loop_Some side st st' r : rw_loop side st = (st', Some r) -> 0 <= st.1 -> (st.2 = true -> st.1 = 0) ->
  r = Ok tt /\ 0 <= st'.1 /\ (st'.2 = true -> st'.1 = 0) /\ st'.1 + Z.b2z st'.2 = 1 + (st.1 + Z.b2z st.2) /\ forall u, admits u st = false -> admits u st' = false.
Proof.
  unfold rw_loop, admits. destruct st as [n w]. cbn [fst snd]. intros H Hn Hx. destruct side, w, (Z.eqb_spec n 0); simplify_eq/=; split_and!; try done; try lia; intros [] ?; try done; try (by rewrite (proj2 (Z.eqb_neq _ _)) by lia).
Qed.
Lemma loop_None side st st' : rw_loop side st = (st', None) -> st' = st /\ admits side st = false.
Proof. unfold rw_loop. destruct (admits side st); intros; by simplify_eq. Qed.
Lemma rw_step_ok h s l s' : rw_ok h s -> step s l s' -> rw_ok (l :: h) s'.
Proof.
  intros [Hn Hx Hc Ha] Hstep. destruct Hstep as [st ts t side st' r Ht Hl | st ts t side st' Ht Hl | st ts t side Ht | st ts t side st' r Ht Hl | st ts t side st' Ht Hl | st ts t st' Ht Hl | st ts t st' e Ht Hl]; cbn [fst snd] in *.
  - destruct (loop_Some _ _ _ _ Hl Hn Hx) as (_ & H1 & H2 & H3 & H4). constructor; cbn [fst snd]; [done | done | cbn [outstanding foldr change]; fold (outstanding h); lia | intros u v Hu; apply H4; by eapply Ha].
  - destruct (loop_None _ _ _ Hl) as [-> Hs]. constructor; cbn [fst snd]; try done. intros u v [[-> [= <-]] | [_ Hu]]%lookup_insert_Some; [done | by eapply Ha].
  - constructor; cbn [fst snd]; try done. intros u v [[_ ?] | [_ Hu]]%lookup_insert_Some; [done | by eapply Ha].
  - destruct (loop_Some _ _ _ _ Hl Hn Hx) as (_ & H1 & H2 & H3 & H4). constructor; cbn [fst snd]; [done | done | cbn [outstanding foldr change]; fold (outstanding h); lia | intros u v [_ Hu]%lookup_delete_Some; apply H4; by eapply Ha].
  - destruct (loop_None _ _ _ Hl) as [-> Hs]. constructor; cbn [fst snd]; try done. intros u v [[-> [= <-]] | [_ Hu]]%lookup_insert_Some; [done | by eapply Ha].
  - assert (0 <= st'.1 /\ (st'.2 = true -> st'.1 = 0) /\ st'.1 + Z.b2z st'.2 = st.1 + Z.b2z st.2 - 1) as (H1 & H2 & H3).
    { unfold rw_unlock in Hl. destruct st as [n w]. cbn [fst snd] in *. destruct w; [| destruct (Z.eqb_spec n 0); [done |]]; simplify_eq/=; split_and!; try done; lia. }
    constructor; cbn [fst snd]; [done | done | cbn [outstanding foldr change]; fold (outstanding h); lia |]. intros u v Hu. by destruct (notify_all_sleeper ts); exists u, v.
  - assert (st' = st) as -> by (unfold rw_unlock in Hl; repeat case_match; by simplify_eq). by constructor.
Qed.
Lemma rw_reach_ok h s : reach h s -> rw_ok h s.
Proof. induction 1 as [| h s l s' _ IH Hstep]; [| by eapply rw_step_ok]. by constructor. Qed.
(** The reader/writer lock of the standard-library ports: a writer and a reader never hold it together, what is held is what was acquired and not released, no thread sleeps while the lock would admit it (so nobody sleeps when it is free), and destroying it is busy exactly while it is held. *)
Theorem std_rwlock_correct h st ts : reach h (st, ts) ->
  (st.2 = true -> st.1 = 0 /\ outstanding h = 1) /\ (st.2 = false -> outstanding h = st.1) /\
  (forall t side, ts !! t = Some (Asleep side) -> admits side st = false) /\ (outstanding h = 0 -> ~ sleeper ts) /\
  rw_destroy st = if decide (outstanding h = 0) then Ok tt else Err EBusy.
Proof.
  intros [Hn Hx Hc Ha]%rw_reach_ok. cbn [fst snd] in *. destruct st as [n w]. cbn [fst snd] in *. split; [| split; [| split; [exact Ha |]; split]].
  - intros ->. specialize (Hx eq_refl). unfold Z.b2z in Hc. lia.
  - intros ->. unfold Z.b2z in Hc. lia.
  - intros Hz (t & side & Ht). specialize (Ha t side Ht). assert (n = 0 /\ w = false) as [-> ->] by (destruct w; simpl in *; lia). by destruct side.
  - unfold rw_destroy. cbn [fst snd]. rewrite Hc. destruct w, (Z.eqb_spec n 0); simpl; case_decide; try done; lia.
Qed.
End StdRwLock.

(** ** Runs *)
Module MonitorsSample.
(** Two threads wait for an auto-reset event, and it is set once. *)
Lemma event_no_lost_signal_witness : exists t d, (<[1%nat := Awake None]> (<[2%nat := Asleep (Some 9)]> (<[1%nat := Asleep None]> ∅)) : gmap nat (Phase (option Z))) !! t = Some (Awake d) /\
  forall now, (StdEvent.event_loop now d (StdEvent.mkEvent false true 2)).2 = Some (Ok tt).
Proof.
  destruct (StdEvent.event_no_lost_signal (StdEvent.event_new false false) (StdEvent.mkEvent false true 2) (<[1%nat := Awake None]> (<[2%nat := Asleep (Some 9)]> (<[1%nat := Asleep None]> ∅)))) as (H & _).
  - eapply StdEvent.reach_step; [| apply (StdEvent.step_set_auto (StdEvent.mkEvent false false 2)); [reflexivity |]; apply notify_some; vm_compute; reflexivity].
    eapply StdEvent.reach_step; [| apply (StdEvent.step_wait_sleep (StdEvent.mkEvent false false 1) _ 2 3 (Some 9)); vm_compute; reflexivity].
    eapply StdEvent.reach_step; [| apply (StdEvent.step_wait_sleep (StdEvent.event_new false false) ∅ 1 0 None); vm_compute; reflexivity]. apply StdEvent.reach_new. reflexivity.
  - apply H; [reflexivity |]. exists 2%nat, (Some 9). vm_compute. reflexivity.
Defined.
(** Thread 1 locks, threads 2 and 3 sleep, thread 1 unlocks and thread 2 is notified. *)
Lemma std_mutex_correct_witness : exists t, (<[2%nat := Awake tt]> (<[3%nat := Asleep tt]> (<[2%nat := Asleep tt]> ∅)) : gmap nat (Phase unit)) !! t = Some (Awake tt) /\
  (StdMutex.lock_loop t (StdMutex.mkMutex true None 0 2)).2 = Some (Ok tt).
Proof.
  destruct (StdMutex.std_mutex_correct true [StdMutex.Unlocked 1 (Ok tt); StdMutex.Quiet; StdMutex.Quiet; StdMutex.Locked 1 (Ok tt)] (StdMutex.mkMutex true None 0 2) (<[2%nat := Awake tt]> (<[3%nat := Asleep tt]> (<[2%nat := Asleep tt]> ∅)))) as (_ & _ & H & _).
  - eapply StdMutex.reach_step; [| apply (StdMutex.step_release (StdMutex.mkMutex true (Some 1%nat) 1 3)); [| | apply notify_some]; vm_compute; reflexivity].
    eapply StdMutex.reach_step; [| apply (StdMutex.step_lock_sleep (StdMutex.mkMutex true (Some 1%nat) 1 2)); vm_compute; reflexivity].
    eapply StdMutex.reach_step; [| apply (StdMutex.step_lock_sleep (StdMutex.mkMutex true (Some 1%nat) 1 1)); vm_compute; reflexivity].
    eapply StdMutex.reach_step; [apply StdMutex.reach_new | apply StdMutex.step_lock; vm_compute; reflexivity].
  - apply H; [reflexivity |]. exists 3%nat, tt. vm_compute. reflexivity.
Defined.
(** Thread 1 reads, thread 2 sleeps to write. *)
Lemma std_rwlock_correct_witness : StdRwLock.rw_destroy (1, false) = Err EBusy /\ StdRwLock.admits StdRwLock.Writing (1, false) = false.
Proof.
  destruct (StdRwLock.std_rwlock_correct [StdRwLock.Quiet; StdRwLock.Acquired 1 StdRwLock.Reading] (1, false) (<[2%nat := Asleep StdRwLock.Writing]> ∅)) as (_ & _ & H & _ & Hd).
  - eapply StdRwLock.reach_step; [| apply (StdRwLock.step_enter_sleep (1, false)); vm_compute; reflexivity]. eapply StdRwLock.reach_step; [apply StdRwLock.reach_new | eapply StdRwLock.step_enter; vm_compute; reflexivity].
  - split; [rewrite Hd; vm_compute; reflexivity |]. apply (H 2%nat). vm_compute. reflexivity.
Defined.
End MonitorsSample.
