(* ===== verification/StdCommon.v ===== *)
(** * StdCommon.v: heap, thread-local slots, environment and diagnostics of the standard-library ports

    The rest of [src/crates/dotnet-pal-std-common/src/lib.rs] that has state or logic of its own: the size-prefixed heap
    over the global allocator, the dynamic thread-local slots, the lookup of an environment variable, and the write loop
    of the fatal diagnostics.  [Monitors.v] has the events, mutexes and locks. *)
From S2P Require Import Prelude Port Counter Boundary Extents Pages Memory Allocator Heap.
Local Open Scope Z_scope.

(** ** The size-prefixed heap *)
Module StdHeap.
Definition HEADER : Z := 16.
(** The bytes, and the layout (size, alignment) of every allocation that is live. *)
Record Store := mkStore { mem : Z -> Z; blocks : gmap Z (Z * Z) }.
(** [Layout::from_size_align(size, HEADER)] *)
Definition layout (size : Z) : option (Z * Z) := if size <=? i64_max - (HEADER - 1) then Some (size, HEADER) else None.
Section StdHeap.
(** The global allocator: the address it picks for a layout, null when it has none. *)
Context (pick : Store -> Z * Z -> Z).
Definition disjoint (p n q k : Z) : Prop := p + n <= q \/ q + k <= p.
(** [GlobalAlloc::alloc]: aligned, inside the address space and disjoint from every live allocation. *)
Hypothesis pick_fresh : forall st n a, 0 < n -> pick st (n, a) <> 0 ->
  0 < pick st (n, a) /\ pick st (n, a) mod a = 0 /\ pick st (n, a) + n <= u64_max /\ forall q k b, blocks st !! q = Some (k, b) -> disjoint (pick st (n, a)) n q k.
(** [GlobalAlloc::dealloc] with a layout that the block was not allocated with is undefined: [None]. *)
Definition dealloc (p : Z) (l : Z * Z) (st : Store) : option Store :=
  if decide (blocks st !! p = Some l) then Some (mkStore (mem st) (delete p (blocks st))) else None.
Definition heap_allocate (size : Z) (zero : bool) (st : Store) : option (Store * Result Z) :=
  match checked_add u64_max size HEADER with
  | None => Some (st, Err EInvalidArgument)
  | Some total =>
      match layout total with
      | None => Some (st, Err EInvalidArgument)
      | Some l =>
          let raw := pick st l in
          if raw =? 0 then Some (st, Err EOutOfMemory) else
          let m := if zero then zero_at raw total (mem st) else mem st in
          Some (mkStore (store64 m raw size) (<[raw := l]> (blocks st)), Ok (raw + HEADER))
      end
  end.
Definition heap_release (address : Z) (st : Store) : option (Store * Result unit) :=
  if address =? 0 then Some (st, Ok tt) else
  let raw := address - HEADER in
  let size := load64 (mem st) raw in
  match layout (size + HEADER) with
  | None => Some (st, Err EInvalidArgument)
  | Some l => st ← dealloc raw l st; Some (st, Ok tt)
  end.
Definition heap_resize (address size : Z) (st : Store) : option (Store * Result Z) :=
  if address =? 0 then heap_allocate size false st else
  let old_size := load64 (mem st) (address - HEADER) in
  '(st, new) ← heap_allocate size false st;
  match new with
  | Err e => Some (st, Err e)
  | Ok new =>
      let st := mkStore (copy_bytes address new (Z.min old_size size) (mem st)) (blocks st) in
      '(st, r) ← heap_release address st;
      match r with Err e => Some (st, Err e) | Ok _ => Some (st, Ok new) end
  end.
Definition heap_apply (op : HeapOp) (st : Store) : option (Store * Result Z) :=
  match op with
  | HAllocate size zero => heap_allocate size zero st
  | HResize address size => heap_resize address size st
  | HRelease address => '(st, r) ← heap_release address st; Some (st, unit_result r)
  | HWrite address bs => Some (mkStore (poke (mem st) address bs) (blocks st), Ok 0)
  end.

(** Every live allocation has its size in its first word. *)
Record store_ok (st : Store) : Prop := {
  st_block : forall p n a, blocks st !! p = Some (n, a) -> 0 < p /\ p mod HEADER = 0 /\ a = HEADER /\ HEADER <= n <= i64_max - (HEADER - 1) /\ p + n <= u64_max /\ load64 (mem st) p = n - HEADER;
  st_apart : forall p n a q k b, blocks st !! p = Some (n, a) -> blocks st !! q = Some (k, b) -> p <> q -> disjoint p n q k;
}.
(** What callers hold: the payloads behind the prefixes. *)
Definition view_is (st : Store) (h : gmap Z (list Z)) : Prop :=
  forall p, h !! p = match blocks st !! (p - HEADER) with Some (n, _) => Some (peek (mem st) p (n - HEADER)) | None => None end.
Definition LIMIT : Z := i64_max - 2 * HEADER + 1.
(** An allocation that succeeds. *)
Lemma allocate_spec size zero st h : store_ok st -> view_is st h -> 0 <= size <= LIMIT ->
  exists st' r, heap_allocate size zero st = Some (st', r) /\ store_ok st' /\
  match r with
  | Err e => e = EOutOfMemory /\ st' = st
  | Ok p => 0 < p /\ p mod HEAP_ALIGN = 0 /\ h !! p = None /\ view_is st' (<[p := peek (mem st') p size]> h) /\ (zero = true -> forall x, p <= x < p + size -> mem st' x = 0) /\
      blocks st' = <[p - HEADER := (size + HEADER, HEADER)]> (blocks st) /\ (forall q k b x, blocks st !! q = Some (k, b) -> q <= x < q + k -> mem st' x = mem st x)
  end.
Proof.
  intros Hok Hv Hs. unfold LIMIT, HEADER, i64_max in *. unfold heap_allocate, HEADER. assert (checked_add u64_max size 16 = Some (size + 16)) as -> by (apply checked_add_Some; unfold u64_max; lia).
  assert (layout (size + 16) = Some (size + 16, 16)) as ->. { unfold layout, i64_max, HEADER. rewrite (proj2 (Z.leb_le _ _)) by lia. done. }
  destruct (Z.eqb_spec (pick st (size + 16, 16)) 0) as [Hz | Hz]; [by exists st, (Err EOutOfMemory) |]. destruct (pick_fresh st (size + 16) 16 ltac:(lia) Hz) as (Hp & Ha & Hend & Hap). set (raw := pick st (size + 16, 16)) in *.
  assert (blocks st !! raw = None) as Hnone. { destruct (blocks st !! raw) as [[k b] |] eqn:Hb; [| done]. exfalso. pose proof (st_block _ Hok _ _ _ Hb) as (_ & _ & _ & Hk & _). destruct (Hap _ _ _ Hb); unfold HEADER in *; lia. }
  set (m := store64 (if zero then zero_at raw (size + 16) (mem st) else mem st) raw size).
  assert (forall x, ~ raw <= x < raw + (size + 16) -> m x = mem st x) as Hout.
  { intros x Hx. unfold m. rewrite store_other by lia. destruct zero; [| done]. unfold zero_at. destruct (Z.leb_spec raw x), (Z.ltb_spec x (raw + (size + 16))); simpl; done || lia. }
  assert (forall q k b x, blocks st !! q = Some (k, b) -> q <= x < q + k -> m x = mem st x) as Hsame. { intros q k b x Hq Hx. apply Hout. destruct (Hap _ _ _ Hq); lia. }
  eexists _, _. split; [done |]. split; [| split_and!].
  - constructor; cbn [mem blocks].
    + intros p n a [[<- [= <- <-]] | [Hne Hb]]%lookup_insert_Some; [split_and!; try done; unfold HEADER, i64_max; try lia; fold m; unfold m; rewrite load_store_same by (unfold u64_max; lia); lia |].
      pose proof (st_block _ Hok _ _ _ Hb) as (H1 & H2 & H3 & H4 & H5 & H6). split_and!; try done; try lia. rewrite <- H6. apply load_ext. intros. apply (Hsame p n a); [done |]. unfold HEADER in *. lia.
    + intros p n a q k b [[<- [= <- <-]] | [Hne Hb]]%lookup_insert_Some [[<- [= <- <-]] | [Hne' Hb']]%lookup_insert_Some Hpq; [done | by apply (Hap q k b) | destruct (Hap _ _ _ Hb); [by right | by left] | by apply (st_apart _ Hok p n a q k b)].
  - lia.
  - change HEAP_ALIGN with 16. by rewrite Z.add_mod, Ha.
  - rewrite Hv. unfold HEADER. replace (raw + 16 - 16) with raw by lia. by rewrite Hnone.
  - intros p. cbn [mem blocks]. fold m. unfold HEADER. destruct (decide (p = raw + 16)) as [-> | Hne].
    + rewrite lookup_insert_eq. replace (raw + 16 - 16) with raw by lia. rewrite lookup_insert_eq. by replace (size + 16 - 16) with size by lia.
    + rewrite !lookup_insert_ne by lia. rewrite Hv. unfold HEADER. destruct (blocks st !! (p - 16)) as [[n a] |] eqn:Hb; [| done]. f_equal. symmetry. apply peek_ext. intros. eapply Hsame; [done | lia].
  - intros -> x Hx. cbn [mem]. fold m. unfold m. rewrite store_other by lia. unfold zero_at. rewrite (proj2 (Z.leb_le _ _)), (proj2 (Z.ltb_lt _ _)) by lia. done.
  - cbn [blocks]. unfold HEADER. by replace (raw + 16 - 16) with raw by lia.
  - done.
Qed.
Lemma held_block st h p bs : store_ok st -> view_is st h -> h !! p = Some bs ->
  exists n, blocks st !! (p - HEADER) = Some (n, HEADER) /\ bs = peek (mem st) p (n - HEADER) /\ lenZ bs = n - HEADER /\ load64 (mem st) (p - HEADER) = n - HEADER /\ HEADER <= n <= i64_max - (HEADER - 1) /\ HEADER < p /\ p mod HEADER = 0.
Proof.
  intros Hok Hv Hp. rewrite Hv in Hp. destruct (blocks st !! (p - HEADER)) as [[n a] |] eqn:Hb; [| done]. injection Hp as <-. pose proof (st_block _ Hok _ _ _ Hb) as (H1 & H2 & -> & H4 & H5 & H6).
  exists n. split_and!; try done; try lia; [apply peek_len; lia |]. replace p with (p - HEADER + HEADER) by lia. by rewrite Z.add_mod, H2.
Qed.
(** Bytes of one payload change. *)
Lemma payload_changed st h p n m : store_ok st -> view_is st h -> blocks st !! (p - HEADER) = Some (n, HEADER) -> (forall x, ~ p <= x < p + (n - HEADER) -> m x = mem st x) ->
  store_ok (mkStore m (blocks st)) /\ view_is (mkStore m (blocks st)) (<[p := peek m p (n - HEADER)]> h).
Proof.
  intros Hok Hv Hb Hm. pose proof (st_block _ Hok _ _ _ Hb) as (_ & _ & _ & Hn & _). assert (forall q k b x, blocks st !! q = Some (k, b) -> q <> p - HEADER -> q <= x < q + k -> m x = mem st x) as Hother.
  { intros q k b x Hq Hne Hx. apply Hm. destruct (st_apart _ Hok _ _ _ _ _ _ Hq Hb Hne); unfold HEADER in *; lia. }
  split.
  - constructor; cbn [mem blocks]; [| apply (st_apart _ Hok)]. intros q k b Hq. pose proof (st_block _ Hok _ _ _ Hq) as (H1 & H2 & H3 & H4 & H5 & H6). split_and!; try done; try lia. rewrite <- H6. apply load_ext. intros x Hx. apply Hm.
    destruct (decide (q = p - HEADER)) as [-> |]; [unfold HEADER in *; lia |]. destruct (st_apart _ Hok _ _ _ _ _ _ Hq Hb ltac:(done)); unfold HEADER in *; lia.
  - intros q. cbn [mem blocks]. destruct (decide (q = p)) as [-> | Hne]; [by rewrite lookup_insert_eq, Hb |]. rewrite lookup_insert_ne, Hv by done. destruct (blocks st !! (q - HEADER)) as [[k b] |] eqn:Hq; [| done]. f_equal. symmetry. apply peek_ext.
    intros x Hx. apply (Hother (q - HEADER) k b); [done | lia | unfold HEADER in *; lia].
Qed.
Lemma release_spec st h p bs : store_ok st -> view_is st h -> h !! p = Some bs ->
  exists st', heap_release p st = Some (st', Ok tt) /\ store_ok st' /\ view_is st' (delete p h) /\ mem st' = mem st.
Proof.
  intros Hok Hv Hp. destruct (held_block _ _ _ _ Hok Hv Hp) as (n & Hb & _ & _ & Hl & Hn & Hpos & _). unfold heap_release. rewrite (proj2 (Z.eqb_neq _ _)) by (unfold HEADER in *; lia).
  rewrite Hl. replace (n - HEADER + HEADER) with n by lia. unfold layout. rewrite (proj2 (Z.leb_le _ _)) by lia. unfold dealloc. rewrite decide_True by done. cbn [mbind option_bind]. eexists. split; [done |]. split_and!; [| | done].
  - constructor; cbn [mem blocks]; [intros q k b [_ Hq]%lookup_delete_Some; by apply (st_block _ Hok) | intros q k b q' k' b' [_ Hq]%lookup_delete_Some [_ Hq']%lookup_delete_Some; by apply (st_apart _ Hok _ _ b _ _ b')].
  - intros q. cbn [mem blocks]. destruct (decide (q = p)) as [-> | Hne]; [by rewrite !lookup_delete_eq |]. rewrite !lookup_delete_ne by lia. apply Hv.
Qed.
Lemma resize_spec st h p old size : store_ok st -> view_is st h -> h !! p = Some old -> 0 <= size <= LIMIT ->
  exists st' r, heap_resize p size st = Some (st', r) /\ store_ok st' /\ exists h', view_is st' h' /\ heap_spec h (HResize p size) r h'.
Proof.
  intros Hok Hv Hp Hs. destruct (held_block _ _ _ _ Hok Hv Hp) as (n & Hb & Hold & Hlen & Hl & Hn & Hpos & _). unfold heap_resize. rewrite (proj2 (Z.eqb_neq _ _)) by (unfold HEADER in *; lia). rewrite Hl.
  destruct (allocate_spec size false st h Hok Hv Hs) as (st1 & r & -> & Hok1 & Hr). cbn [mbind option_bind]. destruct r as [q | e]; [| destruct Hr as [-> ->]; eexists _, _; split; [done |]; split; [done |]; exists h; split; [done |]; by econstructor].
  destruct Hr as (Hq0 & Hqa & Hqn & Hv1 & _ & Hb1 & Hsame). assert (q <> p) as Hne by congruence. set (k := Z.min (n - HEADER) size). set (m := copy_bytes p q k (mem st1)). assert (blocks st1 !! (q - HEADER) = Some (size + HEADER, HEADER)) as Hbq by (rewrite Hb1; apply lookup_insert_eq).
  destruct (payload_changed st1 _ q (size + HEADER) m Hok1 Hv1 Hbq) as [Hok2 Hv2]. { intros x Hx. unfold m, copy_bytes. destruct (Z.leb_spec q x), (Z.ltb_spec x (q + k)); simpl; done || lia. }
  rewrite insert_insert_eq in Hv2. replace (size + HEADER - HEADER) with size in Hv2 by lia. destruct (release_spec _ _ p old Hok2 Hv2) as (st3 & -> & Hok3 & Hv3 & _).
  { rewrite lookup_insert_ne by done. done. }
  cbn [mbind option_bind]. eexists _, _. split; [done |]. split; [done |]. exists (<[q := peek m q size]> (delete p h)). split; [by rewrite <- delete_insert_ne by done |].
  assert (lenZ (peek m q size) = size) as Hlq by (apply peek_len; lia). econstructor; try done; [by rewrite lookup_delete_ne | lia |]. unfold kept. rewrite Hlen. fold k. unfold m. rewrite copy_peek by lia.
  assert (peek (mem st1) p k = peek (mem st) p k) as -> by (apply peek_ext; intros x Hx; apply (Hsame (p - HEADER) n HEADER); [done | unfold HEADER in *; lia]).
  rewrite Hold. unfold takeZ, peek. rewrite <- fmap_take. f_equal. apply list_eq. intros i. destruct (decide (Z.of_nat i < k)); [rewrite lookup_take_lt, !lookup_seqZ_lt by lia; done | rewrite lookup_take_ge, lookup_seqZ_ge by lia; done].
Qed.
Lemma std_step_refines st h op : store_ok st -> view_is st h -> heap_permitted LIMIT op h ->
  exists st' r h', heap_apply op st = Some (st', r) /\ store_ok st' /\ view_is st' h' /\ heap_spec h op r h'.
Proof.
  intros Hok Hv Hp. assert (forall size zero, 0 <= size <= LIMIT -> exists st' r h', heap_allocate size zero st = Some (st', r) /\ store_ok st' /\ view_is st' h' /\ heap_spec h (HAllocate size zero) r h') as Hall.
  { intros size zero Hs. destruct (allocate_spec size zero st h Hok Hv Hs) as (st1 & r & Ha & Hok1 & Hr). exists st1, r. destruct r as [q | e]; [| destruct Hr as [-> ->]; exists h; split_and!; try done; constructor].
    destruct Hr as (Hq0 & Hqa & Hqn & Hv1 & Hz & _). eexists. split_and!; try done. assert (lenZ (peek (mem st1) q size) = size) as Hl by (apply peek_len; lia). constructor; try done; [lia |]. intros Hzero. rewrite Hl. apply list_eq. intros i.
    rewrite lookup_zeros. unfold peek. rewrite list_lookup_fmap. case_decide; [rewrite lookup_seqZ_lt by lia; simpl; f_equal; apply Hz; [done | lia] | by rewrite lookup_seqZ_ge by lia]. }
  destruct op as [size zero | p size | p | p bs]; cbn [heap_apply].
  - by apply Hall.
  - destruct Hp as [Hs [-> | [old Hold]]]; [destruct (Hall size false Hs) as (st1 & r & h1 & ? & ? & ? & ?); exists st1, r, h1; split_and!; try done; by constructor |].
    destruct (resize_spec st h p old size Hok Hv Hold Hs) as (st1 & r & ? & ? & h1 & ? & ?). by exists st1, r, h1.
  - destruct Hp as [-> | [old Hold]]; [exists st, (Ok 0), h; split_and!; try done; constructor |]. destruct (release_spec st h p old Hok Hv Hold) as (st1 & -> & ? & ? & _). cbn [mbind option_bind unit_result].
    exists st1, (Ok 0), (delete p h). split_and!; try done. by econstructor.
  - destruct Hp as (old & Hold & Hlen). destruct (held_block _ _ _ _ Hok Hv Hold) as (n & Hb & -> & Hl & _). rewrite Hl in Hlen. destruct (payload_changed st h p n (poke (mem st) p bs) Hok Hv Hb) as [Hok1 Hv1].
    { intros x Hx. unfold poke. destruct (Z.leb_spec p x), (Z.ltb_spec x (p + lenZ bs)); simpl; done || lia. }
    eexists _, _, _. split; [done |]. split; [done |]. split; [done |]. rewrite poke_peek by done. constructor; [done | lia].
Qed.
(** The size-prefixed heap implements the same contract over any global allocator that keeps its own: it never passes a layout to [dealloc] that the block was not allocated with, never touches a byte outside its blocks, and its only error for sizes that fit an allocation is [OutOfMemory]. *)
Theorem std_heap_refines st h op : store_ok st -> view_is st h -> heap_permitted LIMIT op h ->
  exists st' r h', heap_apply op st = Some (st', r) /\ store_ok st' /\ view_is st' h' /\ heap_spec h op r h'.
Proof. intros Hok Hv Hp. destruct (std_step_refines st h op Hok Hv Hp) as (st' & r & h' & He & Hok' & Hv' & Hs). by exists st', r, h'. Qed.
Definition std_heap : NativeHeap Store.
Proof.
  refine {| nh_apply := heap_apply; nh_limit := LIMIT; nh_holds st h := store_ok st /\ view_is st h |}.
  intros st h op [Hok Hv] Hp. destruct (std_step_refines st h op Hok Hv Hp) as (st' & r & h' & ? & ? & ? & ?). by exists st', r, h'.
Defined.
End StdHeap.
End StdHeap.

(** ** Thread-local slots *)
Module StdSlots.
(** [KEYS], the vector of every thread, and the boxes that handles point to. *)
Record Slots := mkSlots { keys : list (option (option Z)); values : gmap nat (list Z); boxes : gmap Z nat }.
Definition slots_new : Slots := mkSlots [] ∅ ∅.
Definition position (ks : list (option (option Z))) : option nat := fst <$> list_find (fun k => k = None) ks.
(** [box] is where [Box::new] puts the index. *)
Definition tls_create (box : Z) (destructor : option Z) (s : Slots) : Slots * Result Z :=
  match position (keys s) with
  | Some index => (mkSlots (<[index := Some destructor]> (keys s)) (values s) (<[box := index]> (boxes s)), Ok box)
  | None => (mkSlots (keys s ++ [Some destructor]) (values s) (<[box := length (keys s)]> (boxes s)), Ok box)
  end.
(** [borrow] and [take]: a null or misaligned handle is refused; one that is no live box is undefined, [None]. *)
Definition unbox {A} (h : Z) (s : Slots) (k : nat -> option (Slots * Result A)) : option (Slots * Result A) :=
  if (h =? 0) || negb (h mod 8 =? 0) then Some (s, Err EInvalidArgument) else index ← boxes s !! h; k index.
Definition tls_destroy (h : Z) (s : Slots) : option (Slots * Result unit) := unbox h s (fun index =>
  let s := mkSlots (keys s) (values s) (delete h (boxes s)) in
  match keys s !! index with
  | Some (Some _) => Some (mkSlots (<[index := None]> (keys s)) (values s) (boxes s), Ok tt)
  | _ => Some (s, Err EInvalidArgument)
  end).
Definition slot_of (t index : nat) (s : Slots) : Z := default 0 (default [] (values s !! t) !! index).
Definition tls_get (t : nat) (h : Z) (s : Slots) : option (Slots * Result Z) := unbox h s (fun index => Some (s, Ok (slot_of t index s))).
(** [Vec::resize] *)
Definition resized (n : nat) (l : list Z) : list Z := if (length l <? n)%nat then l ++ replicate (n - length l) 0 else l.
Definition tls_set (t : nat) (h value : Z) (s : Slots) : option (Slots * Result unit) := unbox h s (fun index =>
  match keys s !! index with
  | Some (Some _) =>
      let mine := resized (index + 1) (default [] (values s !! t)) in
      Some (mkSlots (keys s) (<[t := <[index := value]> mine]> (values s)) (boxes s), Ok tt)
  | _ => Some (s, Err EInvalidArgument)
  end).
(** [Slots::drop] at the end of a thread: the destructors it calls, in order; they cannot reach the vector any more. *)
Definition due (ks : list (option (option Z))) (vs : list Z) : list (Z * Z) :=
  omap (fun x => v ← vs !! x; if v =? 0 then None else k ← ks !! x; k ← k; d ← k; Some (d, v)) (seq 0 (length vs)).
Fixpoint drop_rounds (n : nat) (ks : list (option (option Z))) (vs : list Z) : list (Z * Z) :=
  match n with
  | O => []
  | S n => let calls := due ks vs in if bool_decide (calls = []) then calls else calls ++ drop_rounds n ks (replicate (length vs) 0)
  end.
Definition slots_drop (t : nat) (s : Slots) : list (Z * Z) := drop_rounds 4 (keys s) (default [] (values s !! t)).

(** Live handles name keys in use, each its own. *)
Record slots_ok (s : Slots) : Prop := {
  so_used : forall h i, boxes s !! h = Some i -> h <> 0 /\ h mod 8 = 0 /\ exists k, keys s !! i = Some (Some k);
  so_own : forall h h' i, boxes s !! h = Some i -> boxes s !! h' = Some i -> h = h';
}.
Lemma new_ok : slots_ok slots_new.
Proof. constructor; [intros h i Hi | intros h h' i Hi]; cbn [boxes slots_new] in Hi; by rewrite lookup_empty in Hi. Qed.
Lemma position_Some ks i : position ks = Some i -> ks !! i = Some None.
Proof. unfold position. destruct (list_find _ ks) as [[j x] |] eqn:H; [| done]. intros [= ->]. by apply list_find_Some in H as (? & -> & _). Qed.
Lemma create_ok box d s : slots_ok s -> boxes s !! box = None -> box <> 0 -> box mod 8 = 0 -> slots_ok (tls_create box d s).1.
Proof.
  intros [Hu Ho] Hbox H0 H8. unfold tls_create. destruct (position (keys s)) as [i |] eqn:Hp; cbn [fst].
  - apply position_Some in Hp. constructor; cbn [keys boxes].
    + intros h j [[<- <-] | [Hne Hj]]%lookup_insert_Some; [split_and!; try done; exists d; apply list_lookup_insert_eq; by eapply lookup_lt_Some |]. destruct (Hu h j Hj) as (? & ? & k & Hk). split_and!; try done. exists k. rewrite list_lookup_insert_ne; [done | congruence].
    + intros h h' j [[<- <-] | [Hne Hj]]%lookup_insert_Some [[<- He] | [Hne' Hj']]%lookup_insert_Some; [done | | | by eapply Ho]; [destruct (Hu _ _ Hj') as (_ & _ & k & ?) | subst; destruct (Hu _ _ Hj) as (_ & _ & k & ?)]; congruence.
  - constructor; cbn [keys boxes].
    + intros h j [[<- <-] | [Hne Hj]]%lookup_insert_Some; [split_and!; try done; exists d; by apply list_lookup_middle |]. destruct (Hu h j Hj) as (? & ? & k & Hk). split_and!; try done. exists k. by apply lookup_app_l_Some.
    + intros h h' j [[<- <-] | [Hne Hj]]%lookup_insert_Some [[<- He] | [Hne' Hj']]%lookup_insert_Some; [done | | | by eapply Ho]; [destruct (Hu _ _ Hj') as (_ & _ & k & Hk%lookup_lt_Some) | subst; destruct (Hu _ _ Hj) as (_ & _ & k & Hk%lookup_lt_Some)]; lia.
Qed.
Lemma resized_slot n l i : default 0 (resized n l !! i) = default 0 (l !! i).
Proof.
  unfold resized. destruct (Nat.ltb_spec (length l) n); [| done]. destruct (decide (i < length l)%nat); [by rewrite lookup_app_l |]. rewrite lookup_app_r by lia. rewrite (proj2 (lookup_ge_None l i)) by lia.
  destruct (replicate _ _ !! _) as [x |] eqn:Hx; [| done]. by apply lookup_replicate in Hx as [-> _].
Qed.
Lemma resized_length n l : (n <= length (resized n l))%nat.
Proof. unfold resized. destruct (Nat.ltb_spec (length l) n); [rewrite length_app, length_replicate |]; lia. Qed.
(** Thread-local values of the standard-library ports are private: a thread reads back what it set through a live handle, the values of other threads and of other live keys stay, and a live handle is never refused. *)
Theorem std_slots_private s t h i v : slots_ok s -> boxes s !! h = Some i ->
  exists s', tls_set t h v s = Some (s', Ok tt) /\ tls_get t h s' = Some (s', Ok v) /\ slots_ok s' /\ boxes s' = boxes s /\
  forall u g w, tls_get u g s = Some (s, Ok w) -> ~ (u = t /\ g = h) -> tls_get u g s' = Some (s', Ok w).
Proof.
  intros [Hu Ho] Hh. destruct (Hu h i Hh) as (H0 & H8 & k & Hk). assert ((h =? 0) || negb (h mod 8 =? 0) = false) as Hok by (rewrite (proj2 (Z.eqb_neq _ _) H0), (proj2 (Z.eqb_eq _ _) H8); done).
  unfold tls_set, unbox. rewrite Hok, Hh. cbn [mbind option_bind]. rewrite Hk. eexists. split; [done |]. set (mine := default [] (values s !! t)). split; [| split; [by constructor |]; split; [done |]].
  - unfold tls_get, unbox. rewrite Hok. cbn [boxes]. rewrite Hh. cbn [mbind option_bind]. unfold slot_of. cbn [values]. rewrite lookup_insert_eq. cbn [from_option id]. rewrite list_lookup_insert_eq; [done |]. pose proof (resized_length (i + 1) mine). lia.
  - intros u g w Hg Hne. unfold tls_get, unbox in *. cbn [boxes] in *. destruct ((g =? 0) || negb (g mod 8 =? 0)); [done |]. destruct (boxes s !! g) as [j |] eqn:Hj; [| done]. cbn [mbind option_bind] in *. do 2 f_equal. assert (slot_of u j s = w) as <- by congruence. f_equal.
    unfold slot_of. cbn [values]. destruct (decide (u = t)) as [-> | Hut]; [| by rewrite lookup_insert_ne]. rewrite lookup_insert_eq. cbn [from_option id]. assert (j <> i) as Hji. { intros ->. apply Hne. split; [done | by eapply Ho]. }
    rewrite list_lookup_insert_ne by done. apply resized_slot.
Qed.
(** A new key can read what an older one left: [create] takes the slot of a destroyed key again and clears it in no thread. *)
Definition after_reuse : option (Slots * Result Z) :=
  let '(s, _) := tls_create 64 (Some 7) slots_new in
  '(s, _) ← tls_set 0 64 99 s; '(s, _) ← tls_destroy 64 s;
  let '(s, _) := tls_create 128 (Some 8) s in tls_get 0 128 s.
Theorem new_key_reads_old_value : snd <$> after_reuse = Some (Ok 99).
Proof. by vm_compute. Qed.
Lemma std_slots_private_witness : exists s', tls_set 3 64 5 (tls_create 64 (Some 7) slots_new).1 = Some (s', Ok tt) /\ tls_get 3 64 s' = Some (s', Ok 5).
Proof.
  destruct (std_slots_private (tls_create 64 (Some 7) slots_new).1 3 64 0 5) as (s' & Hs & Hg & _); [| vm_compute; reflexivity | exists s'; split; [exact Hs | exact Hg]].
  apply create_ok; [apply new_ok | vm_compute; reflexivity | discriminate | reflexivity].
Defined.
End StdSlots.

(** ** Environment and diagnostics *)
Module StdText.
Inductive Lookup := Copied (n : Z) | TooSmall (n : Z).
(** [std::env::var]: the value, or why there is none. *)
Inductive Var := Present (value : list Z) | NotPresent | NotUnicode.
(** The result and the bytes written to [out]. *)
Definition env_get (utf8 : bool) (var : Var) (capacity : Z) : Result Lookup * list Z :=
  if negb utf8 then (Err EInvalidArgument, []) else
  match var with
  | NotPresent => (Err ENotFound, [])
  | NotUnicode => (Err EOs, [])
  | Present value =>
      let needed := lenZ value + 1 in
      if capacity <? needed then (Ok (TooSmall needed), []) else (Ok (Copied needed), value ++ [0])
  end.
(** What [stderr.write] answers, call by call. *)
Inductive Answer := Wrote (n : Z) | Interrupted | Failed.
(** The loop of [write_stderr]: the result and the bytes that went out; [None] while it is still in a call. *)
Fixpoint write_stderr (answers : list Answer) (data : list Z) (done : Z) : option (result (Z * Error) unit * list Z) :=
  if lenZ data <=? done then Some (Ok tt, []) else
  match answers with
  | [] => None
  | Wrote n :: rest =>
      if n =? 0 then Some (Err (done, EOs), []) else
      '(r, out) ← write_stderr rest data (done + n); Some (r, takeZ n (dropZ done data) ++ out)
  | Interrupted :: rest => write_stderr rest data done
  | Failed :: rest => Some (Err (done, EOs), [])
  end.
(** [Write::write] takes a prefix of what it is given. *)
Fixpoint fits (answers : list Answer) (size done : Z) : Prop :=
  match answers with
  | [] => True
  | Wrote n :: rest => 0 <= n <= size - done /\ fits rest size (done + n)
  | _ :: rest => fits rest size done
  end.
Lemma write_stderr_from answers data done r out : 0 <= done <= lenZ data -> fits answers (lenZ data) done -> write_stderr answers data done = Some (r, out) ->
  match r with
  | Ok _ => out = dropZ done data
  | Err (n, e) => e = EOs /\ done <= n < lenZ data /\ out = takeZ (n - done) (dropZ done data)
  end.
Proof.
  revert done r out. induction answers as [| a answers IH]; intros done r out Hd Hf H; cbn [write_stderr] in H; destruct (Z.leb_spec (lenZ data) done) as [Hle | Hgt]; try discriminate.
  1, 2: injection H as <- <-; symmetry; apply length_zero_iff_nil; rewrite length_dropZ; unfold lenZ in *; lia.
  destruct a as [n | |]; cbn [fits] in Hf.
  - destruct (Z.eqb_spec n 0) as [-> | Hn]; [injection H as <- <-; split_and!; [done | lia | lia |]; by rewrite Z.sub_diag |]. destruct Hf as [Hn' Hf]. destruct (write_stderr answers data (done + n)) as [[r' out'] |] eqn:Hw; [| done]. cbn [mbind option_bind] in H. injection H as <- <-.
    specialize (IH (done + n) r' out' ltac:(lia) Hf Hw). assert (dropZ n (dropZ done data) = dropZ (done + n) data) as Hdd by (unfold dropZ; rewrite drop_drop; f_equal; lia). destruct r' as [[] | [k e]].
    + rewrite IH, <- Hdd. apply takeZ_dropZ.
    + destruct IH as (-> & Hk & ->). split_and!; [done | lia | lia |]. rewrite <- Hdd. unfold takeZ, dropZ. rewrite take_take_drop. f_equal. lia.
  - by apply IH.
  - injection H as <- <-. split_and!; [done | lia | lia |]. by rewrite Z.sub_diag.
Qed.
(** The fatal diagnostics go out in order and without loss: success means that every byte was written, and an error tells exactly how many bytes of the text went out before it, whatever partial writes and interruptions came in between. *)
Theorem write_stderr_exact answers data r out : fits answers (lenZ data) 0 -> write_stderr answers data 0 = Some (r, out) ->
  match r with Ok _ => out = data | Err (n, e) => e = EOs /\ 0 <= n < lenZ data /\ out = takeZ n data end.
Proof.
  intros Hf H. pose proof (lenZ_nonneg data) as Hl. pose proof (write_stderr_from answers data 0 r out ltac:(lia) Hf H) as Hr. destruct r as [[] | [n e]]; [done |]. by rewrite Z.sub_0_r in Hr.
Qed.
Lemma write_stderr_exact_witness : match write_stderr [Wrote 2; Interrupted; Wrote 1; Failed] [1; 2; 3; 4; 5] 0 with Some (Err (n, e), out) => n = 3 /\ out = takeZ 3 [1; 2; 3; 4; 5] | _ => False end.
Proof.
  pose proof (write_stderr_exact [Wrote 2; Interrupted; Wrote 1; Failed] [1; 2; 3; 4; 5] (Err (3, EOs)) [1; 2; 3]) as H. cbn [fits] in H. destruct H as (_ & _ & Ho); [unfold lenZ; simpl; lia | vm_compute; reflexivity |].
  vm_compute. split; reflexivity.
Defined.
End StdText.

(** ** A bump allocator *)
Module StdHeapSample.
Import StdHeap.
Definition top (bs : gmap Z (Z * Z)) : Z := map_fold (fun p l acc => Z.max acc (p + l.1)) 16 bs.
Definition bump (st : Store) (l : Z * Z) : Z :=
  let p := (top (blocks st) / 16 + 1) * 16 in if (l.2 =? 16) && (p + l.1 <=? u64_max) then p else 0.
Lemma top_bound bs : 16 <= top bs /\ forall q k b, bs !! q = Some (k, b) -> q + k <= top bs.
Proof.
  unfold top. apply (map_fold_weak_ind (fun acc bs => 16 <= acc /\ forall q k b, bs !! q = Some (k, b) -> q + k <= acc)); [split; [done |]; intros q k b H; by rewrite lookup_empty in H |].
  intros p [n a] m acc _ [H1 H2]. split; [lia |]. intros q k b [[<- [= <- <-]] | [_ Hq]]%lookup_insert_Some; [simpl; lia |]. specialize (H2 q k b Hq). lia.
Qed.
Lemma bump_fresh st n a : 0 < n -> bump st (n, a) <> 0 ->
  0 < bump st (n, a) /\ bump st (n, a) mod a = 0 /\ bump st (n, a) + n <= u64_max /\ forall q k b, blocks st !! q = Some (k, b) -> disjoint (bump st (n, a)) n q k.
Proof.
  intros Hn. destruct (top_bound (blocks st)) as [H1 H2]. unfold bump. cbn [fst snd]. set (p := (top (blocks st) / 16 + 1) * 16). destruct (Z.eqb_spec a 16) as [-> |]; [| done]. destruct (Z.leb_spec (p + n) u64_max); [| done]. cbn [andb]. intros _.
  assert (top (blocks st) < p) as Hp by (unfold p; pose proof (Z.div_mod (top (blocks st)) 16 ltac:(lia)); pose proof (Z.mod_pos_bound (top (blocks st)) 16 ltac:(lia)); lia).
  split_and!; [lia | unfold p; apply Z_mod_mult | done |]. intros q k b Hq. right. specialize (H2 q k b Hq). lia.
Qed.
Definition nothing : Store := mkStore (fun _ => 7) ∅.
Lemma nothing_ok : store_ok nothing /\ view_is nothing ∅.
Proof. split; [constructor; cbn [blocks nothing]; intros *; rewrite lookup_empty; discriminate |]. intros p. cbn [blocks nothing]. by rewrite !lookup_empty. Qed.
Lemma std_heap_refines_witness : exists st' r h', heap_apply bump (HAllocate 40 true) nothing = Some (st', r) /\ store_ok st' /\ view_is st' h' /\ heap_spec ∅ (HAllocate 40 true) r h'.
Proof. apply (std_heap_refines bump bump_fresh nothing ∅ (HAllocate 40 true)); [apply nothing_ok | apply nothing_ok |]. split; vm_compute; discriminate. Defined.
End StdHeapSample.
