(* ===== verification/Board.v ===== *)
(** * Board.v: the machine services of the bare-metal port

    The rest of [src/examples/baremetal-aarch64/src]: the serial port's number formats ([uart.rs]), the classification and
    delivery of exceptions ([fault.rs]), and the facts about the machine and its one image ([platform.rs]).  The serial
    port is the list of bytes written to it. *)
From S2P Require Import Prelude Port Counter Boundary Extents Pages Memory Allocator Heap Faults Front Group Machine.
Local Open Scope Z_scope.

(** ** [uart.rs] *)
Definition ZERO_DIGIT : Z := 48.
(** The loop of [write_dec]: the digits, least significant first; [None] is a panic when the array of 20 is full. *)
Fixpoint dec_digits (room : nat) (value : Z) : option (list Z) :=
  match room with
  | O => None
  | S room =>
      let digit := ZERO_DIGIT + value mod 10 in
      let value := value / 10 in
      if value =? 0 then Some [digit] else digits ← dec_digits room value; Some (digit :: digits)
  end.
Definition write_dec (value : Z) : option (list Z) := digits ← dec_digits 20 value; Some (rev digits).
Definition hex_digit (n : Z) : Z := if n <? 10 then ZERO_DIGIT + n else 97 + (n - 10).
Definition write_hex (value : Z) : list Z :=
  [48; 120] ++ ((fun i => hex_digit (Z.land (Z.shiftr value (60 - 4 * Z.of_nat i)) 15)) <$> seq 0 16).
(** Reading numbers back. *)
Definition from_dec (l : list Z) : Z := foldl (fun n d => 10 * n + (d - ZERO_DIGIT)) 0 l.
Definition hex_value (d : Z) : Z := if d <? 58 then d - ZERO_DIGIT else d - 97 + 10.
Definition from_hex (l : list Z) : Z := foldl (fun n d => 16 * n + hex_value d) 0 l.
Lemma from_dec_app l d : from_dec (l ++ [d]) = 10 * from_dec l + (d - ZERO_DIGIT).
Proof. unfold from_dec. by rewrite foldl_app. Qed.
Lemma dec_digits_spec room value : 0 <= value < 10 ^ Z.of_nat room -> (0 < room)%nat ->
  exists l, dec_digits room value = Some l /\ from_dec (rev l) = value /\ Forall (fun d => ZERO_DIGIT <= d < ZERO_DIGIT + 10) l /\ (1 <= length l <= room)%nat /\ (value <> 0 -> last l <> Some ZERO_DIGIT).
Proof.
  revert value. induction room as [| room IH]; intros value Hv Hr; [lia |]. cbn [dec_digits]. pose proof (Z.div_mod value 10 ltac:(lia)) as Hdm. pose proof (Z.mod_pos_bound value 10 ltac:(lia)) as Hm.
  destruct (Z.eqb_spec (value / 10) 0) as [Hz | Hz].
  - eexists. split; [done |]. split_and!; [unfold from_dec; simpl; lia | repeat constructor; unfold ZERO_DIGIT; lia | done | simpl; lia |]. intros Hne [= H]. unfold ZERO_DIGIT in *. lia.
  - rewrite Nat2Z.inj_succ, Z.pow_succ_r in Hv by lia. assert (0 <= value / 10 < 10 ^ Z.of_nat room) as Hq by (split; [apply Z.div_pos; lia | apply Z.div_lt_upper_bound; lia]). assert (0 < room)%nat as Hr' by (destruct room; [simpl in Hq; lia | lia]).
    destruct (IH _ Hq Hr') as (l & -> & Hl & Hall & Hlen & Hlast). cbn [mbind option_bind]. eexists. split; [done |]. split_and!.
    + cbn [rev]. rewrite from_dec_app, Hl. lia.
    + constructor; [unfold ZERO_DIGIT; lia | done].
    + simpl. lia.
    + simpl. lia.
    + intros _. destruct l as [| x l]; [simpl in Hlen; lia |]. cbn [last]. by apply Hlast.
Qed.
(** ** [exit.rs]
    What leaves the machine: the text, and the status of the semihosting call. *)
Definition exit_text (code : Z) : option (list Z) := digits ← write_dec (code mod 2 ^ 32); Some (bytes "EXIT code=" ++ digits ++ [10]).

(** ** [fault.rs] *)
Definition ALIGNMENT : Z := 2.
Definition FLOATING_POINT : Z := 5.
Definition ILLEGAL_INSTRUCTION : Z := 6.
Definition BREAKPOINT : Z := 7.
Definition class_bits (esr : Z) : Z := Z.shiftr esr 26.
(** [classify]: the kind, and whether FAR names the address. *)
Definition classify (esr : Z) : option (Z * bool) :=
  let status := Z.land esr 63 in
  let class := class_bits esr in
  if (class =? 33) || (class =? 37) then Some (if status =? 33 then (ALIGNMENT, true) else (ACCESS, Z.land esr (Z.shiftl 1 10) =? 0)) else
  if (class =? 34) || (class =? 38) then Some (ALIGNMENT, false) else
  if class =? 44 then Some (FLOATING_POINT, false) else
  if class =? 60 then Some (BREAKPOINT, false) else
  if class =? 0 then Some (ILLEGAL_INSTRUCTION, false) else None.
Definition class_of (esr : Z) : list Z :=
  let class := class_bits esr in
  if class =? 0 then bytes "unknown" else if class =? 1 then bytes "WFI or WFE" else
  if class =? 7 then bytes "FP/SIMD trapped" else if class =? 14 then bytes "illegal execution state" else
  if class =? 21 then bytes "SVC" else if class =? 24 then bytes "trapped system register" else
  if (class =? 32) || (class =? 33) then bytes "instruction abort" else if class =? 34 then bytes "PC alignment" else
  if (class =? 36) || (class =? 37) then bytes "data abort" else if class =? 38 then bytes "SP alignment" else
  if class =? 44 then bytes "floating point" else if class =? 47 then bytes "SError" else
  if class =? 60 then bytes "BRK" else bytes "other".
(** The interrupted registers that the report prints. *)
Record Trap := mkTrap { esr : Z; far : Z; pc : Z; pstate : Z }.
(** [report] without the [trace] feature: the bytes that go out before the machine stops with 132. *)
Definition report (entry : Z) (t : Trap) : option (list Z) :=
  e ← write_dec entry; c ← write_dec (class_bits (esr t)); x ← exit_text 132;
  Some (bytes "EXCEPTION entry=" ++ e ++ bytes " class=" ++ c ++ bytes " (" ++ class_of (esr t) ++ bytes ") esr=" ++ write_hex (esr t) ++
        bytes " elr=" ++ write_hex (pc t) ++ bytes " far=" ++ write_hex (far t) ++ bytes " spsr=" ++ write_hex (pstate t) ++ [10] ++ x).

(** The core: code runs, the handler of a fault runs, or the run has ended.  [handled] are the calls of [deliver] so far:
    kind and address; [serial] is what the port printed. *)
Inductive Core := Running | Handling (t : Trap) | Stopped (status : Z).
Record Cpu := mkCpu { core : Core; handling : bool; handled : list (Z * Z); serial : list Z }.
Definition power_on : Cpu := mkCpu Running false [] [].
(** What happens next: an exception is taken by [pal_fault], one of another vector by [pal_exception], or the handler
    that runs answers, with the program counter and state of the frame it edited. *)
Inductive Event := Raise (t : Trap) | Vector (entry : Z) (t : Trap) | Answer (resume : bool) (pc pstate : Z).
Definition stop (entry : Z) (t : Trap) (c : Cpu) : option Cpu :=
  text ← report entry t; Some (mkCpu (Stopped 132) (handling c) (handled c) (serial c ++ text)).
(** [pal_fault] up to its call of [deliver], or to its end. *)
Definition pal_fault (t : Trap) (c : Cpu) : option Cpu :=
  let was := handling c in
  let c := mkCpu (core c) true (handled c) (serial c) in
  match classify (esr t), was with
  | Some (kind, located), false => Some (mkCpu (Handling t) true (handled c ++ [(kind, if located : bool then far t else 0)]) (serial c))
  | _, _ => stop 4 t c
  end.
(** The rest of [pal_fault], once [deliver] returns. *)
Definition fault_return (t : Trap) (resume : bool) (pc pstate : Z) (c : Cpu) : option Cpu :=
  let c := mkCpu (core c) false (handled c) (serial c) in
  if resume then Some (mkCpu Running (handling c) (handled c) (serial c)) else stop 4 (mkTrap (esr t) (far t) pc pstate) c.
Definition pal_exception (entry : Z) (t : Trap) (c : Cpu) : option Cpu := stop entry t c.
Definition cpu_step (e : Event) (c : Cpu) : option Cpu :=
  match core c, e with
  | Stopped _, _ => Some c
  | Handling t, Answer resume pc pstate => fault_return t resume pc pstate c
  | Running, Answer _ _ _ => Some c
  | _, Raise t => pal_fault t c
  | _, Vector entry t => pal_exception entry t c
  end.
Fixpoint cpu_run (es : list Event) (c : Cpu) : option Cpu :=
  match es with [] => Some c | e :: es => c ← cpu_step e c; cpu_run es c end.

(** ** [platform.rs] *)
Definition id_field (register shift : Z) : Z := Z.land (Z.shiftr register shift) 15.
Definition when (c : bool) (bit first : Z) : Z := if c then Z.lor first (Z.shiftl 1 bit) else first.
(** [hwcap], from the identification registers; [zfr0] is read only where SVE is there. *)
Definition hwcap (isar0 isar1 pfr0 zfr0 : Z) : Z * Z :=
  let first := 0 in
  let first := when (negb (id_field pfr0 16 =? 15)) 0 first in
  let first := when (negb (id_field pfr0 20 =? 15)) 1 first in
  let aes := id_field isar0 4 in
  let first := when (1 <=? aes) 3 first in
  let first := when (2 <=? aes) 4 first in
  let first := when (1 <=? id_field isar0 8) 5 first in
  let first := when (1 <=? id_field isar0 12) 6 first in
  let first := when (1 <=? id_field isar0 16) 7 first in
  let first := when (2 <=? id_field isar0 20) 8 first in
  let first := when (1 <=? id_field isar0 28) 12 first in
  let first := when (1 <=? id_field isar0 44) 20 first in
  let rcpc := id_field isar1 20 in
  let first := when (1 <=? rcpc) 15 first in
  let first := when (2 <=? rcpc) 26 first in
  if 1 <=? id_field pfr0 32 then (when true 22 first, when (1 <=? id_field zfr0 0) 1 0) else (first, 0).

Definition process_affinity (mask : list Z) : list Z * Z := (match mask with [] => [] | _ :: rest => 1 :: rest end, 1).
Definition set_thread_affinity (cpu : Z) : Result unit := if cpu =? 0 then Ok tt else Err EInvalidArgument.
(** The linker's symbols. *)
Record Symbols := mkSymbols { image_start : Z; bss_start : Z; hdr_start : Z; hdr_end : Z; frame_start : Z; frame_end : Z }.
Definition unwind_info (y : Symbols) (address : Z) : Result UnwindInfo :=
  if negb ((image_start y <=? address) && (address <? bss_start y)) then Err ENotFound else
  Ok (Machine.mkUnwindInfo (image_start y) (image_start y) (bss_start y - image_start y)
        (if hdr_start y <? hdr_end y then hdr_start y else 0) (Z.max 0 (hdr_end y - hdr_start y))
        (if frame_start y <? frame_end y then frame_start y else 0) (Z.max 0 (frame_end y - frame_start y))).
Definition module_open (y : Symbols) (name : option (list Z)) : Result Z := match name with Some _ => Err ENotFound | None => Ok (image_start y) end.
Definition module_info (y : Symbols) (ram_start address : Z) : Result (Z * list Z * Z) :=
  if negb ((image_start y <=? address) && (address <? ram_start)) then Err ENotFound else Ok (image_start y, bytes "app" ++ [0], 3).
(** [SystemInfo::text]: the buffer afterwards, and the length. *)
Definition machine_text (what : Z) (out : list Z) : list Z * Result Z :=
  let answer text := (if (length text <=? length out)%nat then text ++ drop (length text) out else out, Ok (lenZ text)) in
  if what =? 1 then answer (bytes "/app" ++ [0]) else if what =? 2 then answer (bytes "baremetal-aarch64" ++ [0]) else
  if what =? 3 then answer (bytes "0.7.0" ++ [0]) else
  if what =? 4 then answer (bytes "QEMU virt, one core, no operating system" ++ [0]) else (out, Err EUnsupported).

Definition RAM_END : Z := 2147483648.
(** [backtrace]: the frames whose pairs were read, with the return address found in each. *)
Fixpoint backtrace_loop (rounds : nat) (m : Machine) (frame : Z) : list (Z * Z) :=
  match rounds with
  | O => []
  | S rounds =>
      if negb ((1073741824 <=? frame) && (frame <? RAM_END)) || negb (frame mod 8 =? 0) ||
         negb (match pages_readable frame 16 m with Ok answer => answer | Err _ => false end) then [] else
      let next := load64 (ram m) frame in
      let link := load64 (ram m) (frame + 8) in
      (frame, link) :: (if next <=? frame then [] else backtrace_loop rounds m next)
  end.
Definition backtrace (m : Machine) (frame : Z) : list Z :=
  bytes "[pal] backtrace:" ++ concat ((fun '(_, link) => [32] ++ write_hex link) <$> backtrace_loop 24 m frame) ++ [10].

(** ** [pal_rust_start]: the constructors that the loop over [.init_array] calls, by the address of their entry. *)
Fixpoint constructors (fuel : nat) (entry finish : Z) : list Z :=
  match fuel with O => [] | S fuel => if entry <? finish then entry :: constructors fuel (entry + 8) finish else [] end.

Lemma head_rev {A} (l : list A) : head (rev l) = last l.
Proof. induction l as [| x l IH] using rev_ind; [done |]. by rewrite rev_app_distr, last_snoc. Qed.
Lemma hex_digit_value n : 0 <= n < 16 -> hex_value (hex_digit n) = n.
Proof. intros Hn. unfold hex_value, hex_digit, ZERO_DIGIT. destruct (Z.ltb_spec n 10); [destruct (Z.ltb_spec (48 + n) 58) | destruct (Z.ltb_spec (97 + (n - 10)) 58)]; lia. Qed.
(** The first [n] hexadecimal digits are the high bits. *)
Lemma hex_prefix value n : 0 <= value < 2 ^ 64 -> (n <= 16)%nat ->
  from_hex ((fun i => hex_digit (Z.land (Z.shiftr value (60 - 4 * Z.of_nat i)) 15)) <$> seq 0 n) = value / 2 ^ (64 - 4 * Z.of_nat n).
Proof.
  intros Hv. induction n as [| n IH]; intros Hn; [by rewrite Z.div_small |].
  rewrite seq_S, fmap_app. unfold from_hex in *. rewrite foldl_app, IH by lia. cbn [fmap list_fmap foldl plus].
  change 15 with (Z.ones 4). rewrite Z.land_ones, Z.shiftr_div_pow2 by lia. rewrite hex_digit_value by (apply Z.mod_pos_bound; lia).
  replace (64 - 4 * Z.of_nat (S n)) with (60 - 4 * Z.of_nat n) by lia. replace (64 - 4 * Z.of_nat n) with ((60 - 4 * Z.of_nat n) + 4) by lia.
  rewrite Z.pow_add_r by lia. rewrite <- Z.div_div by lia. change (2 ^ 4) with 16. pose proof (Z.div_mod (value / 2 ^ (60 - 4 * Z.of_nat n)) 16 ltac:(lia)). lia.
Qed.
(** The decimal and hexadecimal formats print every 64-bit value so that it reads back as itself: the decimal one never overruns its 20 digits and has no leading zero, the hexadecimal one always has 16 digits. *)
Theorem numbers_read_back value : 0 <= value <= u64_max ->
  (exists l, write_dec value = Some l /\ from_dec l = value /\ Forall (fun d => 48 <= d < 58) l /\ (1 <= length l <= 20)%nat /\ (value <> 0 -> head l <> Some 48)) /\
  exists l, write_hex value = 48 :: 120 :: l /\ length l = 16%nat /\ from_hex l = value.
Proof.
  intros Hv. split.
  - destruct (dec_digits_spec 20 value) as (l & Hl & Hval & Hall & Hlen & Hlast); [change (10 ^ Z.of_nat 20) with 100000000000000000000; unfold u64_max in *; lia | lia |].
    exists (rev l). unfold write_dec. rewrite Hl. split_and!; [done | done | by apply Forall_rev | rewrite length_rev; lia | rewrite length_rev; lia |]. intros Hne. rewrite head_rev. by apply Hlast.
  - eexists. split; [reflexivity |]. split; [done |]. rewrite (hex_prefix value 16) by (unfold u64_max in *; lia). apply Z.div_1_r.
Qed.

Lemma write_dec_total value : 0 <= value <= u64_max -> exists l, write_dec value = Some l.
Proof.
  intros Hv. destruct (dec_digits_spec 20 value) as (l & Hl & _); [change (10 ^ Z.of_nat 20) with 100000000000000000000; unfold u64_max in *; lia | lia |].
  exists (rev l). unfold write_dec. by rewrite Hl.
Qed.
Lemma class_bits_bound e : 0 <= e <= u64_max -> 0 <= class_bits e <= u64_max.
Proof.
  intros He. unfold class_bits. rewrite Z.shiftr_div_pow2 by lia. pose proof (Z.div_pos e (2 ^ 26) ltac:(lia) ltac:(lia)).
  pose proof (Z.div_le_upper_bound e (2 ^ 26) e ltac:(lia) ltac:(lia)). lia.
Qed.
Lemma exit_text_total code : exists l, exit_text code = Some l.
Proof. unfold exit_text. destruct (write_dec_total (code mod 2 ^ 32)) as [l ->]; [| by eexists]. pose proof (Z.mod_pos_bound code (2 ^ 32) ltac:(lia)). unfold u64_max. lia. Qed.
Lemma report_total entry t : 0 <= entry <= u64_max -> 0 <= esr t <= u64_max -> exists l, report entry t = Some l.
Proof.
  intros He Ht. unfold report. destruct (write_dec_total entry He) as [a ->]. destruct (write_dec_total (class_bits (esr t)) (class_bits_bound _ Ht)) as [b ->].
  destruct (exit_text_total 132) as [c ->]. by eexists.
Qed.
Lemma stop_spec entry t c : 0 <= entry <= u64_max -> 0 <= esr t <= u64_max ->
  exists text, report entry t = Some text /\ stop entry t c = Some (mkCpu (Stopped 132) (handling c) (handled c) (serial c ++ text)).
Proof. intros He Ht. unfold stop. destruct (report_total entry t He Ht) as [l ->]. by exists l. Qed.
Lemma classify_valid e kind located : classify e = Some (kind, located) -> valid_kind kind = true.
Proof. unfold classify. intros Hc. repeat match type of Hc with (if ?b then _ else _) = _ => destruct b | Some (if ?b then _ else _) = _ => destruct b end; by inversion Hc. Qed.

(** The registers of an event are 64-bit values. *)
Definition event_ok (e : Event) : Prop :=
  match e with Raise t => 0 <= esr t <= u64_max | Vector entry t => 0 <= entry <= u64_max /\ 0 <= esr t <= u64_max | Answer _ _ _ => True end.
(** The flag [HANDLING] is set while the handler runs, and clear while other code runs. *)
Definition cpu_ok (c : Cpu) : Prop :=
  match core c with Running => handling c = false | Handling t => handling c = true /\ 0 <= esr t <= u64_max | Stopped s => s = 132 end /\
  Forall (fun '(kind, _) => valid_kind kind = true) (handled c).
Lemma cpu_step_ok e c : event_ok e -> cpu_ok c -> exists c', cpu_step e c = Some c' /\ cpu_ok c'.
Proof.
  intros He [Hc Hall]. assert (forall entry t c, 0 <= entry <= u64_max -> 0 <= esr t <= u64_max -> Forall (fun '(kind, _) => valid_kind kind = true) (handled c) ->
    exists c', stop entry t c = Some c' /\ cpu_ok c') as Hstop.
  { intros entry t c0 H1 H2 H3. destruct (stop_spec entry t c0 H1 H2) as (text & _ & ->). eexists. split; [done |]. by split. }
  assert (0 <= 4 <= u64_max) as H4 by (unfold u64_max; lia).
  unfold cpu_step. destruct (core c) as [| t |] eqn:Hcore; [| | eexists; split; [done |]; unfold cpu_ok; by rewrite Hcore].
  - destruct e as [u | entry u | r p q]; [| by apply Hstop; naive_solver | eexists; split; [done |]; unfold cpu_ok; by rewrite Hcore].
    unfold pal_fault. rewrite Hc. destruct (classify (esr u)) as [[kind located] |] eqn:Hk; [| by apply Hstop]. eexists. split; [done |].
    split; [done |]. simpl. apply Forall_app. split; [done |]. repeat constructor. by eapply classify_valid.
  - destruct Hc as [Hc Ht]. destruct e as [u | entry u | r p q]; [| by apply Hstop; naive_solver |].
    + unfold pal_fault. rewrite Hc. destruct (classify (esr u)) as [[kind located] |]; by apply Hstop.
    + unfold fault_return. destruct r; [eexists; split; [done |]; by split | by apply Hstop].
Qed.
Lemma cpu_run_ok es c : Forall event_ok es -> cpu_ok c -> exists c', cpu_run es c = Some c' /\ cpu_ok c'.
Proof.
  intros Hes. revert c. induction Hes as [| e es He _ IH]; intros c Hc; [by exists c |]. cbn [cpu_run].
  destruct (cpu_step_ok e c He Hc) as (c' & -> & Hc'). by apply IH.
Qed.
(** Exceptions are never lost and never recurse: whatever faults come and whatever handlers answer, no report panics; [deliver] is only called with kinds that exist; a fault raised by the fault handler itself does not enter the handler again but ends the run with status 132 and the second fault's report as the last text on the serial port, and so does a fault no handler resumes; a fault a handler resumes leaves the flag clear, so that the next one reaches the handler again. *)
Theorem faults_do_not_recurse es t : Forall event_ok es -> event_ok (Raise t) ->
  exists c, cpu_run es power_on = Some c /\ Forall (fun '(kind, _) => valid_kind kind = true) (handled c) /\
  match core c with
  | Running => (forall kind located, classify (esr t) = Some (kind, located) ->
      cpu_step (Raise t) c = Some (mkCpu (Handling t) true (handled c ++ [(kind, if located then far t else 0)]) (serial c))) /\
      (classify (esr t) = None -> exists text c', report 4 t = Some text /\ cpu_step (Raise t) c = Some c' /\ core c' = Stopped 132 /\ handled c' = handled c /\ serial c' = serial c ++ text)
  | Handling u => (exists text c', report 4 t = Some text /\ cpu_step (Raise t) c = Some c' /\ core c' = Stopped 132 /\ handled c' = handled c /\ serial c' = serial c ++ text) /\
      forall p q, cpu_step (Answer true p q) c = Some (mkCpu Running false (handled c) (serial c)) /\
        exists text c', report 4 (mkTrap (esr u) (far u) p q) = Some text /\ cpu_step (Answer false p q) c = Some c' /\ core c' = Stopped 132 /\ serial c' = serial c ++ text
  | Stopped status => status = 132 /\ cpu_step (Raise t) c = Some c
  end.
Proof.
  intros Hes Ht. destruct (cpu_run_ok es power_on Hes) as (c & Hrun & Hc & Hall); [by split |]. exists c. split; [done |]. split; [done |].
  assert (0 <= 4 <= u64_max) as H4 by (unfold u64_max; lia). unfold cpu_step.
  destruct (core c) as [| u | s] eqn:Hcore; [| | done].
  - unfold pal_fault. rewrite Hc. split; [by intros kind located -> |]. intros ->.
    destruct (stop_spec 4 t (mkCpu (core c) true (handled c) (serial c)) H4 Ht) as (text & Htext & ->). by exists text; eexists.
  - destruct Hc as [Hc Hu]. unfold pal_fault, fault_return. rewrite Hc. split.
    + destruct (stop_spec 4 t (mkCpu (core c) true (handled c) (serial c)) H4 Ht) as (text & Htext & Hs). exists text.
      destruct (classify (esr t)) as [[kind located] |]; rewrite Hs; by eexists.
    + intros p q. split; [done |]. destruct (stop_spec 4 (mkTrap (esr u) (far u) p q) (mkCpu (core c) false (handled c) (serial c)) H4 Hu) as (text & Htext & ->).
      by exists text; eexists.
Qed.

(** The frames a backtrace reads. *)
Definition readable_pair (m : Machine) (frame : Z) : Prop :=
  RAM_START <= frame /\ frame + 16 <= RAM_START + RAM_PAGES * PAGE /\ frame mod 8 = 0 /\ forall a, frame <= a < frame + 16 -> is_valid (table m (page_of a)) = true.
Lemma backtrace_loop_spec rounds m frame : let l := backtrace_loop rounds m frame in
  (length l <= rounds)%nat /\ Forall (fun '(f, link) => readable_pair m f /\ frame <= f /\ link = load64 (ram m) (f + 8)) l /\
  forall i f g, (fst <$> l) !! i = Some f -> (fst <$> l) !! S i = Some g -> f < g /\ g = load64 (ram m) f.
Proof.
  revert frame. induction rounds as [| rounds IH]; intros frame; cbv zeta in *; cbn [backtrace_loop]; [by split_and!; [| constructor |] |].
  destruct (_ || _ || _) eqn:Hg; [split_and!; [simpl; lia | constructor | done] |].
  apply orb_false_elim in Hg as [Hg Hread]. apply orb_false_elim in Hg as [Hram Hal]. apply negb_false_iff in Hram, Hal, Hread.
  apply andb_true_iff in Hram as [Hlo%Z.leb_le Hhi%Z.ltb_lt]. apply Z.eqb_eq in Hal.
  assert (readable_pair m frame) as Hp.
  { pose proof (pages_readable_exact frame 16 m ltac:(lia) ltac:(lia)) as He. destruct (pages_readable frame 16 m); [| done]. subst.
    destruct He as [_ [He _]]. destruct (He eq_refl) as (? & ? & ?). unfold readable_pair. split_and!; [lia | lia | done | done]. }
  destruct (Z.leb_spec (load64 (ram m) frame) frame) as [Hle | Hgt].
  { split_and!; [simpl; lia | apply Forall_singleton; split; [done |]; split; [lia | done] | intros [|] f g Hf Hgg; done]. }
  destruct (IH (load64 (ram m) frame)) as (Hlen & Hall & Hnext). split_and!.
  - simpl. lia.
  - apply Forall_cons; split; [split; [done |]; split; [lia | done] |]. eapply Forall_impl; [exact Hall |]. intros [f link] (? & ? & ?). split; [done |]. split; [lia | done].
  - intros [| i] f g Hf Hgg; [| exact (Hnext i f g Hf Hgg)]. simpl in Hf. injection Hf as <-.
    destruct rounds as [| rounds]; [done |]. cbn [backtrace_loop] in Hgg. destruct (_ || _ || _); [done |]. simpl in Hgg. injection Hgg as <-. done.
Qed.
(** A backtrace of any stack, corrupted ones included, ends and faults nowhere: it reads at most 24 pairs, each 8-aligned, wholly inside RAM and on pages the processor may read, at strictly growing addresses, each one the saved frame pointer of the one before. *)
Theorem backtrace_safe m frame : let l := backtrace_loop 24 m frame in
  (length l <= 24)%nat /\ Forall (fun '(f, link) => readable_pair m f /\ link = load64 (ram m) (f + 8)) l /\
  (forall i f g, (fst <$> l) !! i = Some f -> (fst <$> l) !! S i = Some g -> f < g /\ g = load64 (ram m) f).
Proof.
  destruct (backtrace_loop_spec 24 m frame) as (Hlen & Hall & Hnext). split_and!; [done | | done].
  eapply Forall_impl; [exact Hall |]. intros [f link] (? & ? & ?). done.
Qed.

(** The constructors run once each, in order, and the loop ends. *)
Theorem constructors_exact entry n fuel : (n <= fuel)%nat -> constructors fuel entry (entry + 8 * Z.of_nat n) = (fun i => entry + 8 * Z.of_nat i) <$> seq 0 n.
Proof.
  revert entry n. induction fuel as [| fuel IH]; intros entry n Hn; [by destruct n; [| lia] |]. cbn [constructors].
  destruct n as [| n]; [by rewrite Z.mul_0_r, Z.add_0_r, Z.ltb_irrefl |].
  destruct (Z.ltb_spec entry (entry + 8 * Z.of_nat (S n))); [| lia].
  replace (entry + 8 * Z.of_nat (S n)) with (entry + 8 + 8 * Z.of_nat n) by lia. rewrite IH by lia.
  cbn [seq fmap list_fmap]. rewrite <- fmap_S_seq. f_equal; [lia |]. rewrite <- list_fmap_compose. apply list_fmap_ext. intros i x _. simpl. lia.
Qed.

Module BoardSample.
(** 90 prints as digits; a page fault at 16 meets the handler. *)
Lemma numbers_read_back_witness : write_dec 90 = Some [57; 48] /\ from_dec [57; 48] = 90.
Proof.
  split; [reflexivity |]. destruct (numbers_read_back 90) as [(l & Hl & Hv & _) _]; [unfold u64_max; lia |].
  vm_compute in Hl. injection Hl as <-. exact Hv.
Defined.
Definition page_fault : Trap := mkTrap (Z.lor (Z.shiftl 37 26) 4) 16 1073745920 5.
Lemma faults_do_not_recurse_witness : exists c, cpu_run [Raise page_fault] power_on = Some c /\ core c = Handling page_fault /\ handled c = [(ACCESS, 16)] /\ exists c', cpu_step (Raise page_fault) c = Some c' /\ core c' = Stopped 132.
Proof.
  destruct (faults_do_not_recurse [Raise page_fault] page_fault) as (c & Hc & _ & Hm); [constructor; [unfold event_ok, u64_max; vm_compute; split; discriminate | constructor] | unfold event_ok, u64_max; vm_compute; split; discriminate |].
  exists c. split; [exact Hc |]. vm_compute in Hc. injection Hc as <-. split; [reflexivity |]. split; [reflexivity |].
  destruct Hm as [(text & c' & _ & Hs & Hst & _) _]. exists c'. split; [exact Hs | exact Hst].
Defined.
End BoardSample.
