(* ===== verification/Host.v ===== *)
(** * Host.v: providers behind C tables of the embedder

    [src/crates/dotnet-pal-host/src/lib.rs].  The embedder hands over a table of callbacks per group; [validate] checks
    the tables once and caches them, and every provider method then calls its callback.  A callback is a function of its
    arguments and of what its output parameters hold; it leaves the state [W] of the host, a status and the outputs, also
    when it fails.  A null pointer is [None]; a buffer that the callback fills is what it stored.  The getters of the
    tables are the fields of [Tables]: the contract makes the tables immutable, so that they are read once. *)
From S2P Require Import Prelude Port Counter Boundary Content Queue Locks Tree MemFs Front FilesApi Group Console Machine Net Native Children Watching Faults Notifications Adapters Absent Negotiate.
Local Open Scope Z_scope.

(** What a getter returns: an address, the header that lies there, and the callbacks. *)
Record Raw (T : Type) := mkRaw { raw_address : Z; raw_header : Header; raw_ops : T }.
Arguments mkRaw {T} _ _ _.
Arguments raw_address {T} _.
Arguments raw_header {T} _.
Arguments raw_ops {T} _.

Section Host.
Context `{Arch} {Fr : Frames} {W : Type}.

(** ** Calls *)
Definition HostFn (A O : Type) : Type := A -> O -> W -> W * (Z * O).
(** [port::from_status(f(...))], or [absent] where the callback is null. *)
Definition invoke {A O} (absent : Error) (f : option (HostFn A O)) (a : A) (o : O) : W -> W * (Result unit * O) := fun w =>
  match f with
  | None => (w, (Err absent, o))
  | Some f => let '(w, (status, o)) := f a o w in (w, (from_status status, o))
  end.
(** [call!(f(..., &mut o))?; Ok(o)] *)
Definition call_or {A O} (absent : Error) (f : option (HostFn A O)) (a : A) (o : O) : M W Error O := fun w =>
  let '(w, (r, o)) := invoke absent f a o w in (w, match r with Ok _ => Ok o | Err e => Err e end).
Definition call {A O} : option (HostFn A O) -> A -> O -> M W Error O := call_or EUnsupported.
Definition run {A} (f : option (HostFn A unit)) (a : A) : M W Error unit := call f a tt.
(** [Ok(()) | Err(Error::BufferTooSmall) => Ok(needed)] *)
Definition sized {A O} (f : option (HostFn A O)) (a : A) (o : O) : M W Error O := fun w =>
  let '(w, (r, o)) := invoke EUnsupported f a o w in
  (w, match r with Ok _ => Ok o | Err EBufferTooSmall => Ok o | Err e => Err e end).
(** [Ok(value != 0)] *)
Definition flag {A} (f : option (HostFn A Z)) (a : A) : M W Error bool := fun w =>
  let '(w, r) := call f a 0 w in (w, match r with Ok v => Ok (negb (v =? 0)) | Err e => Err e end).

(** ** The tables *)
Record VmHost := mkVmHost {
  hv_page_size : option Z; hv_reserve : option (HostFn (Z * Z * Z) Z); hv_commit : option (HostFn (Z * Z) unit);
  hv_decommit : option (HostFn (Z * Z) unit); hv_release : option (HostFn (Z * Z) unit); hv_reset : option (HostFn (Z * Z) unit) }.
Record ServicesHost := mkServicesHost {
  hs_clock : option (HostFn unit Z); hs_sleep : option (HostFn Z unit); hs_yield_now : option (HostFn unit unit) }.
Record KernelHost := mkKernelHost {
  hk_event_create : option (HostFn (Z * Z) Z); hk_event_destroy : option (HostFn Z unit); hk_event_set : option (HostFn Z unit);
  hk_event_reset : option (HostFn Z unit); hk_event_wait : option (HostFn (Z * Z) unit);
  hk_mutex_create : option (HostFn Z Z); hk_mutex_destroy : option (HostFn Z unit); hk_mutex_lock : option (HostFn Z unit); hk_mutex_unlock : option (HostFn Z unit);
  hk_thread_create : option (HostFn (Z * Z * Z) Z); hk_thread_join : option (HostFn Z unit); hk_thread_detach : option (HostFn Z unit);
  hk_tls_create : option (HostFn (option Z) Z); hk_tls_destroy : option (HostFn Z unit); hk_tls_get : option (HostFn Z Z); hk_tls_set : option (HostFn (Z * Z) unit);
  hk_stack_bounds : option (HostFn unit (Z * Z)); hk_process_barrier : option (HostFn unit unit) }.
Record RuntimeHost := mkRuntimeHost {
  hr_environment_get : option (HostFn (list Z * Z) (Z * list Z)); hr_process_id : option (HostFn unit Z); hr_thread_id : option (HostFn unit Z);
  hr_realtime_ns : option (HostFn unit Z); hr_random_bytes : option (HostFn Z (list Z)); hr_mapping_allocate : option (HostFn (Z * Z) Z);
  hr_mapping_release : option (HostFn (Z * Z) unit); hr_mapping_protect : option (HostFn (Z * Z * Z) unit);
  hr_module_open : option (HostFn (option (list Z)) Z); hr_module_symbol : option (HostFn (Z * list Z) Z); hr_module_close : option (HostFn Z unit);
  hr_module_info : option (HostFn Z ModuleInfo) }.
Record SupportHost := mkSupportHost {
  hu_allocate : option (HostFn (Z * Z) Z); hu_resize : option (HostFn (Z * Z) Z); hu_release : option (HostFn Z unit); hu_rw_create : option (HostFn unit Z);
  hu_rw_read : option (HostFn Z unit); hu_rw_write : option (HostFn Z unit); hu_rw_unlock : option (HostFn Z unit); hu_rw_destroy : option (HostFn Z unit);
  hu_write_stderr : option (HostFn (list Z) Z); hu_thread_name : option (HostFn (list Z) unit) }.
Record TopologyHost := mkTopologyHost {
  ho_cpu_max : option (HostFn unit Z); ho_cpu_count : option (HostFn unit Z); ho_current_cpu : option (HostFn unit Z);
  ho_process_affinity : option (HostFn Z (Z * list Z)); ho_set_thread_affinity : option (HostFn Z unit); ho_physical_memory : option (HostFn unit (Z * Z));
  ho_memory_limit : option (HostFn unit Z); ho_virtual_limit : option (HostFn unit Z); ho_cache_size : option (HostFn unit Z);
  ho_cpu_features : option (HostFn unit (Z * Z)); ho_cache_level_size : option (HostFn Z Z); ho_swap_memory : option (HostFn unit (Z * Z)) }.
Record ProcessHost := mkProcessHost {
  hp_exit : option (Z -> W -> W); hp_debugger_present : option (HostFn unit Z); hp_crash_dump : option (HostFn (list Borrow * Z) (list Z)) }.
Record ImageHost := mkImageHost {
  hi_unwind_info : option (HostFn Z UnwindInfo); hi_readable : option (HostFn (Z * Z) unit); hi_build_id : option (HostFn (Z * Z) (Z * list Z)) }.
Record StreamsHost := mkStreamsHost {
  ht_write : option (HostFn (Z * list Z) Z); ht_read : option (HostFn (Z * Z) (Z * list Z)); ht_is_terminal : option (HostFn Z Z) }.
(** A lock that waits may not return: its answer is [None]. *)
Record FilesHost := mkFilesHost {
  hf_open : option (HostFn (list Z * Z * Z) Z); hf_close : option (HostFn Z unit); hf_read_at : option (HostFn (Z * Z * Z) (Z * list Z));
  hf_write_at : option (HostFn (Z * Z * list Z) Z); hf_set_size : option (HostFn (Z * Z) unit); hf_flush : option (HostFn Z unit);
  hf_status : option (HostFn Z Status); hf_path_status : option (HostFn (list Z * Z) Status); hf_remove : option (HostFn (list Z) unit);
  hf_rename : option (HostFn (list Z * list Z) unit); hf_directory_create : option (HostFn (list Z * Z) unit); hf_directory_remove : option (HostFn (list Z) unit);
  hf_directory_open : option (HostFn (list Z) Z); hf_directory_read : option (HostFn (Z * Z) (Z * list Z * Z)); hf_directory_close : option (HostFn Z unit);
  hf_current_directory : option (HostFn Z (Z * option (list Z)));
  hf_set_mode : option (HostFn (list Z * Z) unit); hf_set_file_mode : option (HostFn (Z * Z) unit); hf_set_times : option (HostFn (list Z * Z * Z * Z) unit);
  hf_set_file_times : option (HostFn (Z * Z * Z) unit); hf_link : option (HostFn (list Z * list Z) unit); hf_symlink : option (HostFn (list Z * list Z) unit);
  hf_read_link : option (HostFn (list Z * Z) (Z * option (list Z))); hf_real_path : option (HostFn (list Z * Z) (Z * option (list Z)));
  hf_set_current_directory : option (HostFn (list Z) unit); hf_lock : option (Z * Z * Z -> W -> W * option Z); hf_lock_range : option (HostFn (Z * Z * Z * Z) unit) }.
Record SocketsHost := mkSocketsHost {
  hn_create : option (HostFn (Z * Z) Z); hn_close : option (HostFn Z unit); hn_bind : option (HostFn (Z * Address) unit); hn_listen : option (HostFn (Z * Z) unit);
  hn_accept : option (HostFn Z (Z * Address)); hn_connect : option (HostFn (Z * Address) unit); hn_send : option (HostFn (Z * list Z * option Address) Z);
  hn_receive : option (HostFn (Z * Z * Z) (Z * Address * list Z)); hn_shutdown : option (HostFn (Z * Z) unit); hn_local_address : option (HostFn Z Address);
  hn_peer_address : option (HostFn Z Address); hn_set_blocking : option (HostFn (Z * Z) unit); hn_get_option : option (HostFn (Z * Z) Z);
  hn_set_option : option (HostFn (Z * Z * Z) unit); hn_poll : option (HostFn (list PollEntry * Z * Z) ((nat -> Z) * Z)); hn_wake : option (HostFn Z unit);
  hn_resolve : option (HostFn (list Z * Z * Z) (Z * list Address)); hn_host_name : option (HostFn Z (Z * option (list Z))) }.
Record FaultsHost := mkFaultsHost { ha_frame_tag : option Z; ha_frame_size : option Z; ha_enable : option (HostFn unit unit) }.
Record SystemHost := mkSystemHost {
  hy_environment_entry : option (HostFn (Z * Z) (Z * option (list Z))); hy_text : option (HostFn (Z * Z) (Z * option (list Z)));
  hy_process_times : option (HostFn unit (Z * Z)); hy_uptime_ns : option (HostFn unit Z); hy_user_ids : option (HostFn unit (Z * Z)) }.
Record NotificationsHost := mkNotificationsHost {
  hq_start : option (HostFn unit unit); hq_enable : option (HostFn Z unit); hq_disable : option (HostFn Z unit); hq_default_action : option (HostFn Z unit) }.
Record ProcessesHost := mkProcessesHost {
  hc_spawn : option (HostFn (Request * Z) Spawned); hc_wait : option (HostFn (Z * Z) Z); hc_terminate : option (HostFn (Z * Z) unit);
  hc_release : option (HostFn Z unit); hc_pipe_read : option (HostFn (Z * Z) (Z * list Z)); hc_pipe_write : option (HostFn (Z * list Z) Z);
  hc_pipe_close : option (HostFn Z unit) }.
Record TerminalHost := mkTerminalHost {
  he_window_size : option (HostFn Z (Z * Z)); he_set_input_mode : option (HostFn (Z * Z * Z * Z) unit); he_input_ready : option (HostFn unit Z);
  he_control_character : option (HostFn Z Z) }.
Record WatchesHost := mkWatchesHost {
  hw_open : option (HostFn unit Z); hw_close : option (HostFn Z unit); hw_add : option (HostFn (Z * list Z * Z) Z); hw_remove : option (HostFn (Z * Z) unit);
  hw_read : option (HostFn (Z * Z) Queue.Event) }.
Record MappingsHost := mkMappingsHost {
  hm_map : option (HostFn (Z * Z * Z * Z * Z) Z); hm_unmap : option (HostFn (Z * Z) unit); hm_sync : option (HostFn (Z * Z) unit) }.
Record VolumesHost := mkVolumesHost { hl_entry : option (HostFn (Z * Z) (Z * option (list Z))); hl_status : option (HostFn (list Z) VolumeStatus) }.
Record NetworkHost := mkNetworkHost {
  hx_interface_entry : option (HostFn Z Interface); hx_address_entry : option (HostFn Z InterfaceAddress);
  hx_reverse_lookup : option (HostFn (Address * Z) (Z * option (list Z))); hx_membership : option (HostFn (Z * Address * Z * Z) unit) }.
Record LocalHost := mkLocalHost {
  hd_bind : option (HostFn (Z * list Z) unit); hd_connect : option (HostFn (Z * list Z) unit); hd_address : option (HostFn (Z * Z * Z) (Z * option (list Z)));
  hd_peer_user : option (HostFn Z Z) }.
Record AccountsHost := mkAccountsHost {
  hb_user_by_id : option (HostFn Z Account); hb_user_by_name : option (HostFn (list Z) Account);
  hb_process_groups : option (HostFn Z (Z * list Z)); hb_user_groups : option (HostFn (list Z * Z * Z) (Z * list Z)) }.
Record PriorityHost := mkPriorityHost { hg_get : option (HostFn Z Z); hg_set : option (HostFn (Z * Z) unit) }.
Record PacketsHost := mkPacketsHost { hz_receive : option (HostFn (Z * Z * Z) (Z * Address * Info * list Z)) }.
Record SpawnAsHost := mkSpawnAsHost { hj_spawn_as : option (HostFn (Request * Z * Identity) Spawned) }.

(** ** Validation *)
(** [mem::size_of] and [mem::align_of] of a table with [n] callbacks: the header has 16 bytes and the alignment of [u64]. *)
Definition size_of_table (n : Z) : Z := (16 + n * (usize_bits / 8) + 7) / 8 * 8.
Definition align_of_table : Z := align_of_u64.
(** [table], for a type with [n] callbacks. *)
Definition table {T} (n : Z) (raw : Raw T) (required : Z) : option T :=
  if (raw_address raw =? 0) || negb (raw_address raw mod align_of_table =? 0) then None else
  let h := raw_header raw in
  if negb (abi_version h =? ABI_VERSION) || (struct_size h <? size_of_table n) || negb (Z.land (capabilities h) required =? required) then None else
  Some (raw_ops raw).
(** The tables of the groups, by the number of callbacks, the capabilities they must announce and the callbacks they must have. *)
Definition validated {T} (n required : Z) (complete : T -> bool) (raw : Raw T) : option T :=
  t ← table n raw required; if complete t then Some t else None.
Definition vm_complete (t : VmHost) : bool :=
  present (hv_page_size t) && present (hv_reserve t) && present (hv_commit t) && present (hv_decommit t) && present (hv_release t) && present (hv_reset t).
Definition services_complete (t : ServicesHost) : bool := present (hs_clock t) && present (hs_sleep t) && present (hs_yield_now t).
Definition kernel_complete (t : KernelHost) : bool :=
  present (hk_event_create t) && present (hk_event_destroy t) && present (hk_event_set t) && present (hk_event_reset t) && present (hk_event_wait t)
  && present (hk_mutex_create t) && present (hk_mutex_destroy t) && present (hk_mutex_lock t) && present (hk_mutex_unlock t)
  && present (hk_thread_create t) && present (hk_thread_join t) && present (hk_thread_detach t)
  && present (hk_tls_create t) && present (hk_tls_destroy t) && present (hk_tls_get t) && present (hk_tls_set t)
  && present (hk_stack_bounds t) && present (hk_process_barrier t).
Definition runtime_complete (t : RuntimeHost) : bool :=
  present (hr_environment_get t) && present (hr_process_id t) && present (hr_thread_id t)
  && present (hr_realtime_ns t) && present (hr_random_bytes t) && present (hr_mapping_allocate t)
  && present (hr_mapping_release t) && present (hr_mapping_protect t) && present (hr_module_open t)
  && present (hr_module_symbol t) && present (hr_module_close t) && present (hr_module_info t).
Definition support_complete (t : SupportHost) : bool :=
  present (hu_allocate t) && present (hu_resize t) && present (hu_release t) && present (hu_rw_create t)
  && present (hu_rw_read t) && present (hu_rw_write t) && present (hu_rw_unlock t) && present (hu_rw_destroy t)
  && present (hu_write_stderr t) && present (hu_thread_name t).
Definition context_complete (t : ContextOps W) : bool :=
  present (co_abi_tag t) && present (co_action_size t) && present (co_action_alignment t) && present (co_install t) && present (co_restore t)
  && present (co_unblock_activation t) && present (co_request_activation t) && present (co_current_thread t)
  && present (co_process_id_async t) && present (co_ignore_broken_pipe t) && present (co_signal_number t).
Definition topology_complete (t : TopologyHost) : bool :=
  present (ho_cpu_max t) && present (ho_cpu_count t) && present (ho_current_cpu t) && present (ho_process_affinity t)
  && present (ho_set_thread_affinity t) && present (ho_physical_memory t) && present (ho_memory_limit t)
  && present (ho_virtual_limit t) && present (ho_cache_size t) && present (ho_cpu_features t).
Definition process_complete (t : ProcessHost) : bool := present (hp_exit t) && present (hp_debugger_present t).
Definition image_complete (t : ImageHost) : bool := present (hi_unwind_info t) && present (hi_readable t) && present (hi_build_id t).
Definition streams_complete (t : StreamsHost) : bool := present (ht_write t) && present (ht_read t) && present (ht_is_terminal t).
Definition files_complete (t : FilesHost) : bool :=
  present (hf_open t) && present (hf_close t) && present (hf_read_at t) && present (hf_write_at t) && present (hf_set_size t) && present (hf_flush t)
  && present (hf_status t) && present (hf_path_status t) && present (hf_remove t) && present (hf_rename t) && present (hf_directory_create t)
  && present (hf_directory_remove t) && present (hf_directory_open t) && present (hf_directory_read t) && present (hf_directory_close t)
  && present (hf_current_directory t).
Definition sockets_complete (t : SocketsHost) : bool :=
  present (hn_create t) && present (hn_close t) && present (hn_bind t) && present (hn_listen t) && present (hn_accept t) && present (hn_connect t)
  && present (hn_send t) && present (hn_receive t) && present (hn_shutdown t) && present (hn_local_address t) && present (hn_peer_address t)
  && present (hn_set_blocking t) && present (hn_get_option t) && present (hn_set_option t) && present (hn_poll t) && present (hn_wake t).
(** [faults::validate]: the frame must be the one that this build reads. *)
Definition faults_complete (t : FaultsHost) : bool :=
  match ha_frame_tag t, ha_frame_size t, ha_enable t with
  | Some tag, Some size, Some _ => negb ((FRAME_TAG =? 0) || negb (tag =? FRAME_TAG) || negb (size =? FRAME_SIZE))
  | _, _, _ => false
  end.
Definition notifications_complete (t : NotificationsHost) : bool :=
  present (hq_start t) && present (hq_enable t) && present (hq_disable t) && present (hq_default_action t).
Definition processes_complete (t : ProcessesHost) : bool :=
  present (hc_spawn t) && present (hc_wait t) && present (hc_terminate t) && present (hc_release t) && present (hc_pipe_read t) && present (hc_pipe_write t)
  && present (hc_pipe_close t).
Definition terminal_complete (t : TerminalHost) : bool :=
  present (he_window_size t) && present (he_set_input_mode t) && present (he_input_ready t) && present (he_control_character t).
Definition watches_complete (t : WatchesHost) : bool :=
  present (hw_open t) && present (hw_close t) && present (hw_add t) && present (hw_remove t) && present (hw_read t).
Definition mappings_complete (t : MappingsHost) : bool := present (hm_map t) && present (hm_unmap t) && present (hm_sync t).
Definition volumes_complete (t : VolumesHost) : bool := present (hl_entry t) && present (hl_status t).
Definition local_complete (t : LocalHost) : bool := present (hd_bind t) && present (hd_connect t) && present (hd_address t) && present (hd_peer_user t).
Definition priority_complete (t : PriorityHost) : bool := present (hg_get t) && present (hg_set t).
Definition packets_complete (t : PacketsHost) : bool := present (hz_receive t).
Definition spawn_as_complete (t : SpawnAsHost) : bool := present (hj_spawn_as t).

(** The getters that the enabled features link. *)
Record Tables := mkTables {
  t_vm : Raw VmHost; t_services : Raw ServicesHost; t_kernel : Raw KernelHost; t_runtime : Raw RuntimeHost; t_support : Raw SupportHost;
  t_context : Raw (ContextOps W); t_topology : Raw TopologyHost; t_process : Raw ProcessHost; t_image : Raw ImageHost; t_streams : Raw StreamsHost;
  t_files : Raw FilesHost; t_sockets : Raw SocketsHost; t_faults : Raw FaultsHost; t_system : Raw SystemHost; t_notifications : Raw NotificationsHost;
  t_processes : Raw ProcessesHost; t_terminal : Raw TerminalHost; t_watches : Raw WatchesHost; t_mappings : Raw MappingsHost; t_volumes : Raw VolumesHost;
  t_network : Raw NetworkHost; t_local : Raw LocalHost; t_accounts : Raw AccountsHost; t_priority : Raw PriorityHost; t_packets : Raw PacketsHost;
  t_spawn_as : Raw SpawnAsHost }.
(** [VM] and the statics [TABLE], each [Cached]. *)
Record Caches := mkCaches {
  c_vm : option VmHost; c_services : option ServicesHost; c_kernel : option KernelHost; c_runtime : option RuntimeHost; c_support : option SupportHost;
  c_context : option (ContextOps W); c_topology : option TopologyHost; c_process : option ProcessHost; c_image : option ImageHost; c_streams : option StreamsHost;
  c_files : option FilesHost; c_sockets : option SocketsHost; c_faults : option FaultsHost; c_system : option SystemHost; c_notifications : option NotificationsHost;
  c_processes : option ProcessesHost; c_terminal : option TerminalHost; c_watches : option WatchesHost; c_mappings : option MappingsHost; c_volumes : option VolumesHost;
  c_network : option NetworkHost; c_local : option LocalHost; c_accounts : option AccountsHost; c_priority : option PriorityHost; c_packets : option PacketsHost;
  c_spawn_as : option SpawnAsHost }.
(** The features [host-*] of the crate. *)
Record Features := mkFeatures {
  has_services : bool; has_kernel : bool; has_runtime : bool; has_support : bool; has_context : bool; has_topology : bool; has_process : bool;
  has_image : bool; has_streams : bool; has_files : bool; has_sockets : bool; has_faults : bool; has_system : bool; has_notifications : bool;
  has_processes : bool; has_terminal : bool; has_watches : bool; has_mappings : bool; has_volumes : bool; has_network : bool; has_local : bool;
  has_accounts : bool; has_priority : bool; has_packets : bool; has_spawn_as : bool }.
(** One line of [validate]: a group that is not built is not looked at; the outer option is the [return false]. *)
Definition when_enabled {T} (enabled : bool) (n required : Z) (complete : T -> bool) (raw : Raw T) : option (option T) :=
  if enabled then Some <$> validated n required complete raw else Some None.
Definition CAP_SERVICES : Z := Z.lor CAP_CLOCK 8.
Definition KERNEL_ALL : Z := Z.lor CAP_EVENTS (Z.lor CAP_MUTEX (Z.lor CAP_THREADS (Z.lor CAP_TLS (Z.lor CAP_STACK CAP_BARRIER)))).
Definition RUNTIME_ALL : Z := 64512.
Definition SUPPORT_ALL : Z := 7864320.
Definition host_validate (virtual_memory : bool) (f : Features) (t : Tables) : option Caches :=
  vm ← when_enabled virtual_memory 6 CAP_VM vm_complete (t_vm t);
  services ← when_enabled (has_services f) 3 CAP_SERVICES services_complete (t_services t);
  kernel ← when_enabled (has_kernel f) 19 KERNEL_ALL kernel_complete (t_kernel t);
  runtime ← when_enabled (has_runtime f) 13 RUNTIME_ALL runtime_complete (t_runtime t);
  support ← when_enabled (has_support f) 11 SUPPORT_ALL support_complete (t_support t);
  context ← when_enabled (has_context f) 12 CONTEXT_CAP context_complete (t_context t);
  topology ← when_enabled (has_topology f) 13 (2 ^ 23) topology_complete (t_topology t);
  process ← when_enabled (has_process f) 4 (2 ^ 24) process_complete (t_process t);
  image ← when_enabled (has_image f) 4 (2 ^ 25) image_complete (t_image t);
  streams ← when_enabled (has_streams f) 4 (2 ^ 26) streams_complete (t_streams t);
  files ← when_enabled (has_files f) 28 (2 ^ 27) files_complete (t_files t);
  sockets ← when_enabled (has_sockets f) 19 (2 ^ 28) sockets_complete (t_sockets t);
  faults ← when_enabled (has_faults f) 3 FAULTS_CAP faults_complete (t_faults t);
  system ← when_enabled (has_system f) 6 (2 ^ 30) (fun _ => true) (t_system t);
  notifications ← when_enabled (has_notifications f) 4 (2 ^ 31) notifications_complete (t_notifications t);
  processes ← when_enabled (has_processes f) 8 (2 ^ 32) processes_complete (t_processes t);
  terminal ← when_enabled (has_terminal f) 5 (2 ^ 33) terminal_complete (t_terminal t);
  watches ← when_enabled (has_watches f) 6 (2 ^ 34) watches_complete (t_watches t);
  mappings ← when_enabled (has_mappings f) 4 (2 ^ 35) mappings_complete (t_mappings t);
  volumes ← when_enabled (has_volumes f) 3 (2 ^ 36) volumes_complete (t_volumes t);
  network ← when_enabled (has_network f) 5 (2 ^ 37) (fun _ => true) (t_network t);
  local ← when_enabled (has_local f) 5 (2 ^ 38) local_complete (t_local t);
  accounts ← when_enabled (has_accounts f) 5 (2 ^ 39) (fun _ => true) (t_accounts t);
  priority ← when_enabled (has_priority f) 3 (2 ^ 40) priority_complete (t_priority t);
  packets ← when_enabled (has_packets f) 2 (2 ^ 41) packets_complete (t_packets t);
  spawn_as ← when_enabled (has_spawn_as f) 2 (2 ^ 42) spawn_as_complete (t_spawn_as t);
  Some (mkCaches vm services kernel runtime support context topology process image streams files sockets faults system notifications processes terminal
    watches mappings volumes network local accounts priority packets spawn_as).

(** ** The providers, on the cached tables *)
Definition host_vm (k : Caches) : VirtualMemory W := {|
  vm_PROVIDED := true;
  vm_page_size := default 0 (c_vm k ≫= hv_page_size);
  vm_reserve size alignment := call (c_vm k ≫= hv_reserve) (size, alignment, 0) 0;
  vm_commit address size := run (c_vm k ≫= hv_commit) (address, size);
  vm_decommit address size := run (c_vm k ≫= hv_decommit) (address, size);
  vm_release address size := run (c_vm k ≫= hv_release) (address, size);
  vm_reset address size := run (c_vm k ≫= hv_reset) (address, size) |}.
Definition host_clock (k : Caches) : Clock W := {| clock_PROVIDED := true; cl_monotonic_ns := call_or EOs (c_services k ≫= hs_clock) tt 0 |}.
Definition host_scheduler (k : Caches) : Scheduler W := {|
  scheduler_PROVIDED := true;
  sc_sleep_ns ns := call_or EOs (c_services k ≫= hs_sleep) ns tt;
  sc_yield_now := call_or EOs (c_services k ≫= hs_yield_now) tt tt |}.
Definition host_kernel (k : Caches) : Kernel W :=
  let t := c_kernel k in {|
  events_PROVIDED := true; mutexes_PROVIDED := true; threads_PROVIDED := true; tls_PROVIDED := true; stack_PROVIDED := true;
  barrier_PROVIDED := true; barrier_available := true;
  ev_create manual initial := call (t ≫= hk_event_create) (Z.b2z manual, Z.b2z initial) 0;
  ev_destroy h := run (t ≫= hk_event_destroy) h; ev_set h := run (t ≫= hk_event_set) h; ev_reset h := run (t ≫= hk_event_reset) h;
  ev_wait h ns := run (t ≫= hk_event_wait) (h, ns);
  mu_create recursive := call (t ≫= hk_mutex_create) (Z.b2z recursive) 0;
  mu_destroy h := run (t ≫= hk_mutex_destroy) h; mu_lock h := run (t ≫= hk_mutex_lock) h; mu_unlock h := run (t ≫= hk_mutex_unlock) h;
  th_create entry arg stack := call (t ≫= hk_thread_create) (entry, arg, stack) 0;
  th_join h := run (t ≫= hk_thread_join) h; th_detach h := run (t ≫= hk_thread_detach) h;
  tl_create dtor := call (t ≫= hk_tls_create) dtor 0; tl_destroy h := run (t ≫= hk_tls_destroy) h;
  tl_get h := call (t ≫= hk_tls_get) h 0; tl_set h value := run (t ≫= hk_tls_set) (h, value);
  sb_current := call (t ≫= hk_stack_bounds) tt (0, 0);
  pb_barrier := run (t ≫= hk_process_barrier) tt |}.
(** [Environment::get]: a short buffer is not an error of the lookup. *)
Definition lookup_of (w : W * (Result unit * (Z * list Z))) : W * Result (Lookup * list Z) :=
  let '(w, (r, (needed, stored))) := w in
  (w, match r with Ok _ => Ok (Copied needed, stored) | Err EBufferTooSmall => Ok (TooSmall needed, stored) | Err e => Err e end).
Definition host_runtime (k : Caches) : Runtime W :=
  let t := c_runtime k in {|
  environment_PROVIDED := true; identity_PROVIDED := true; realtime_PROVIDED := true; entropy_PROVIDED := true; mapping_PROVIDED := true; modules_PROVIDED := true;
  en_get name capacity := fun w => lookup_of (invoke EUnsupported (t ≫= hr_environment_get) (name, capacity) (0, []) w);
  id_process_id := call (t ≫= hr_process_id) tt 0; id_thread_id := call (t ≫= hr_thread_id) tt 0; rt_realtime_ns := call (t ≫= hr_realtime_ns) tt 0;
  et_fill size := invoke EUnsupported (t ≫= hr_random_bytes) size [];
  nm_page_size := @vm_page_size W (host_vm k);
  nm_allocate size protection := call (t ≫= hr_mapping_allocate) (size, protection) 0;
  nm_release address size := run (t ≫= hr_mapping_release) (address, size);
  nm_protect address size protection := run (t ≫= hr_mapping_protect) (address, size, protection);
  mo_open name := call (t ≫= hr_module_open) name 0; mo_symbol m name := call (t ≫= hr_module_symbol) (m, name) 0;
  mo_close m := run (t ≫= hr_module_close) m; mo_info address := call (t ≫= hr_module_info) address (mkModuleInfo 0 0 0) |}.
(** [Diagnostics::write_stderr]: success of a part is a broken host, and progress is at most the size. *)
Definition progress_of (size : Z) (w : W * (Result unit * Z)) : W * result (Z * Error) unit :=
  let '(w, (r, done)) := w in
  (w, match r with Ok _ => if done =? size then Ok tt else Err (0, EOs) | Err e => Err (Z.min done size, e) end).
Definition host_support (k : Caches) : Support W :=
  let t := c_support k in {|
  heap_PROVIDED := true; rwlock_PROVIDED := true; name_PROVIDED := true; diagnostics_PROVIDED := true;
  hp_allocate size zero := call (t ≫= hu_allocate) (size, Z.b2z zero) 0; hp_resize address size := call (t ≫= hu_resize) (address, size) 0;
  hp_release address := run (t ≫= hu_release) address;
  rw_create := call (t ≫= hu_rw_create) tt 0; rw_read h := run (t ≫= hu_rw_read) h; rw_write h := run (t ≫= hu_rw_write) h;
  rw_unlock h := run (t ≫= hu_rw_unlock) h; rw_destroy h := run (t ≫= hu_rw_destroy) h;
  tn_set name := run (t ≫= hu_thread_name) name;
  di_write_stderr data := fun w =>
    match t ≫= hu_write_stderr with
    | None => (w, Err (0, EUnsupported))
    | Some f => progress_of (lenZ data) (invoke EUnsupported (Some f) data 0 w)
    end |}.
Definition host_context (k : Caches) : SignalContext W := {| context_PROVIDED := true; cx_ops := c_context k |}.
Definition host_topology (k : Caches) : Topology W :=
  let t := c_topology k in {|
  topology_PROVIDED := true;
  to_cpu_max := call (t ≫= ho_cpu_max) tt 0; to_cpu_count := call (t ≫= ho_cpu_count) tt 0; to_current_cpu := call (t ≫= ho_current_cpu) tt 0;
  to_process_affinity capacity := sized (t ≫= ho_process_affinity) capacity (0, []);
  to_set_thread_affinity cpu := run (t ≫= ho_set_thread_affinity) cpu;
  to_physical_memory := call (t ≫= ho_physical_memory) tt (0, 0);
  to_memory_limit := call (t ≫= ho_memory_limit) tt 0; to_virtual_limit := call (t ≫= ho_virtual_limit) tt 0;
  to_cache_size := call (t ≫= ho_cache_size) tt 0; to_cpu_features := call (t ≫= ho_cpu_features) tt (0, 0);
  to_cache_level_size level := call (t ≫= ho_cache_level_size) level 0; to_swap_memory := call (t ≫= ho_swap_memory) tt (0, 0) |}.
Definition host_process (k : Caches) : Process W := {|
  process_PROVIDED := true;
  pc_exit code w := match c_process k ≫= hp_exit with Some exit => exit code w | None => w end;
  pc_debugger_present := flag (c_process k ≫= hp_debugger_present) tt;
  pc_crash_dump argv capacity := invoke EUnsupported (c_process k ≫= hp_crash_dump) (argv, capacity) [] |}.
(** [image::readable_from_status] *)
Definition readable_from_status (status : Z) : Result bool :=
  if status =? OK then Ok true else if status =? NOT_FOUND then Ok false else Err (default EOs (error_from_status status)).
Definition host_image (k : Caches) : Image W :=
  let t := c_image k in {|
  image_PROVIDED := true;
  im_unwind_info address := call (t ≫= hi_unwind_info) address (Machine.mkUnwindInfo 0 0 0 0 0 0 0);
  im_readable address size := fun w =>
    match t ≫= hi_readable with
    | None => (w, Err EUnsupported)
    | Some f => let '(w, (status, _)) := f (address, size) tt w in (w, readable_from_status status)
    end;
  im_build_id base capacity := sized (t ≫= hi_build_id) (base, capacity) (0, []) |}.
Definition host_streams (k : Caches) : Streams W :=
  let t := c_streams k in {|
  streams_PROVIDED := true;
  st_write stream data := call (t ≫= ht_write) (stream, data) 0; st_read stream capacity := call (t ≫= ht_read) (stream, capacity) (0, []);
  st_is_terminal stream := flag (t ≫= ht_is_terminal) stream |}.
Definition host_files (k : Caches) : Files W :=
  let t := c_files k in {|
  files_PROVIDED := true;
  f_open path flags mode := call (t ≫= hf_open) (path, flags, mode) 0; f_close file := run (t ≫= hf_close) file;
  f_read_at file offset capacity := call (t ≫= hf_read_at) (file, offset, capacity) (0, []);
  f_read_left file offset capacity w := (invoke EUnsupported (t ≫= hf_read_at) (file, offset, capacity) (0, []) w).2.2.2;
  f_write_at file offset data := call (t ≫= hf_write_at) (file, offset, data) 0;
  f_set_size file size := run (t ≫= hf_set_size) (file, size); f_flush file := run (t ≫= hf_flush) file;
  f_status file := call (t ≫= hf_status) file (mkStatus 0 0 0 0 0 0 0 0 0);
  f_path_status path follow := call (t ≫= hf_path_status) (path, Z.b2z follow) (mkStatus 0 0 0 0 0 0 0 0 0);
  f_remove path := run (t ≫= hf_remove) path; f_rename from to := run (t ≫= hf_rename) (from, to);
  f_create_directory path mode := run (t ≫= hf_directory_create) (path, mode); f_remove_directory path := run (t ≫= hf_directory_remove) path;
  f_open_directory path := call (t ≫= hf_directory_open) path 0;
  f_read_directory directory capacity := call (t ≫= hf_directory_read) (directory, capacity) (0, [], 0);
  f_directory_left directory capacity w := (invoke EUnsupported (t ≫= hf_directory_read) (directory, capacity) (0, [], 0) w).2.2.1.2;
  f_close_directory directory := run (t ≫= hf_directory_close) directory;
  f_current_directory capacity := sized (t ≫= hf_current_directory) capacity (0, None);
  f_set_mode path mode := run (t ≫= hf_set_mode) (path, mode); f_set_file_mode file mode := run (t ≫= hf_set_file_mode) (file, mode);
  f_set_times path follow accessed modified := run (t ≫= hf_set_times) (path, Z.b2z follow, default TIME_KEEP accessed, default TIME_KEEP modified);
  f_set_file_times file accessed modified := run (t ≫= hf_set_file_times) (file, default TIME_KEEP accessed, default TIME_KEEP modified);
  f_link existing created := run (t ≫= hf_link) (existing, created); f_symlink target created := run (t ≫= hf_symlink) (target, created);
  f_read_link path capacity := sized (t ≫= hf_read_link) (path, capacity) (0, None);
  f_real_path path capacity := sized (t ≫= hf_real_path) (path, capacity) (0, None);
  f_set_current_directory path := run (t ≫= hf_set_current_directory) path;
  f_lock file mode wait := fun w =>
    match t ≫= hf_lock with
    | None => (w, Some (Err EUnsupported))
    | Some f => let '(w, status) := f (file, mode, Z.b2z wait) w in (w, from_status <$> status)
    end;
  f_lock_range file offset length mode := run (t ≫= hf_lock_range) (file, offset, length, mode) |}.
Definition known (a : Address) : option Address := if family a =? 0 then None else Some a.
Definition host_sockets (k : Caches) : Sockets W :=
  let t := c_sockets k in {|
  sockets_PROVIDED := true;
  so_create family kind := call (t ≫= hn_create) (family, kind) 0; so_close socket := run (t ≫= hn_close) socket;
  so_bind socket a := run (t ≫= hn_bind) (socket, a); so_listen socket backlog := run (t ≫= hn_listen) (socket, backlog);
  so_accept socket := call (t ≫= hn_accept) socket (0, address_default); so_connect socket a := run (t ≫= hn_connect) (socket, a);
  so_send socket data to := call (t ≫= hn_send) (socket, data, to) 0;
  so_receive socket capacity flags := bind (call (t ≫= hn_receive) (socket, capacity, flags) (0, address_default, []))
    (fun '(got, from, stored) => ret (got, known from, stored));
  so_shutdown socket how := run (t ≫= hn_shutdown) (socket, how);
  so_local_address socket := call (t ≫= hn_local_address) socket address_default; so_peer_address socket := call (t ≫= hn_peer_address) socket address_default;
  so_set_blocking socket blocking := run (t ≫= hn_set_blocking) (socket, Z.b2z blocking);
  so_get_option socket o := call (t ≫= hn_get_option) (socket, o) 0; so_set_option socket o value := run (t ≫= hn_set_option) (socket, o, value);
  so_poll entries timeout_ns channel := fun w =>
    let '(w, (r, (words, _))) := invoke EUnsupported (t ≫= hn_poll) (entries, timeout_ns, default NO_CHANNEL channel)
                                   (fun i => default 0 (triggered <$> entries !! i), 0) w in
    (w, (r, words));
  so_wake channel := run (t ≫= hn_wake) channel;
  so_resolve name family capacity := call (t ≫= hn_resolve) (name, family, capacity) (0, []);
  so_host_name capacity := sized (t ≫= hn_host_name) capacity (0, None) |}.
Definition host_faults (k : Caches) : FaultsPort W := {| faults_PROVIDED := true; fa_enable := run (c_faults k ≫= ha_enable) tt |}.
Definition host_system (k : Caches) : SystemInfo W :=
  let t := c_system k in {|
  system_PROVIDED := true;
  sy_environment_entry index capacity := sized (t ≫= hy_environment_entry) (index, capacity) (0, None);
  sy_text what capacity := sized (t ≫= hy_text) (what, capacity) (0, None);
  sy_process_times := call (t ≫= hy_process_times) tt (0, 0); sy_uptime_ns := call (t ≫= hy_uptime_ns) tt 0; sy_user_ids := call (t ≫= hy_user_ids) tt (0, 0) |}.
Definition host_notifications (k : Caches) : NotificationsPort W :=
  let t := c_notifications k in {|
  notifications_PROVIDED := true;
  no_start := run (t ≫= hq_start) tt; no_enable kind := run (t ≫= hq_enable) kind; no_disable kind := run (t ≫= hq_disable) kind;
  no_default_action kind := run (t ≫= hq_default_action) kind |}.
Definition spawned_EMPTY : Spawned := mkSpawned 0 0 0 0 0.
Definition host_processes (k : Caches) : Processes W :=
  let t := c_processes k in {|
  processes_PROVIDED := true;
  ps_spawn request pipes := call (t ≫= hc_spawn) (request, pipes) spawned_EMPTY; ps_wait process ns := call (t ≫= hc_wait) (process, ns) 0;
  ps_terminate process forceful := run (t ≫= hc_terminate) (process, Z.b2z forceful); ps_release process := run (t ≫= hc_release) process;
  ps_pipe_read pipe capacity := call (t ≫= hc_pipe_read) (pipe, capacity) (0, []); ps_pipe_write pipe data := call (t ≫= hc_pipe_write) (pipe, data) 0;
  ps_pipe_close pipe := run (t ≫= hc_pipe_close) pipe |}.
Definition host_terminal (k : Caches) : Terminal W :=
  let t := c_terminal k in {|
  terminal_PROVIDED := true;
  te_window_size stream := call (t ≫= he_window_size) stream (0, 0);
  te_set_input_mode raw min_bytes timeout_ds as_input := run (t ≫= he_set_input_mode) (Z.b2z raw, min_bytes, timeout_ds, Z.b2z as_input);
  te_input_ready := flag (t ≫= he_input_ready) tt;
  te_control_character which := bind (call (t ≫= he_control_character) which 0) (fun value => if value <=? u8_max then ret value else fail EOs) |}.
Definition host_watches (k : Caches) : Watches W :=
  let t := c_watches k in {|
  watches_PROVIDED := true;
  wa_open := call (t ≫= hw_open) tt 0; wa_close w := run (t ≫= hw_close) w; wa_add w path events := call (t ≫= hw_add) (w, path, events) 0;
  wa_remove w watch := run (t ≫= hw_remove) (w, watch); wa_read w ns := call (t ≫= hw_read) (w, ns) event_EMPTY |}.
Definition host_mappings (k : Caches) : Mappings W :=
  let t := c_mappings k in {|
  mappings_PROVIDED := true;
  mp_map file offset length access shared := call (t ≫= hm_map) (file, offset, length, access, if shared then SHARED else PRIVATE) 0;
  mp_unmap address length := run (t ≫= hm_unmap) (address, length); mp_sync address length := run (t ≫= hm_sync) (address, length) |}.
Definition host_volumes (k : Caches) : Volumes W :=
  let t := c_volumes k in {|
  volumes_PROVIDED := true;
  vo_entry index capacity := sized (t ≫= hl_entry) (index, capacity) (0, None); vo_status path := call (t ≫= hl_status) path volume_EMPTY |}.
Definition host_network (k : Caches) : Network W :=
  let t := c_network k in {|
  network_PROVIDED := true;
  nw_interface_entry index := call (t ≫= hx_interface_entry) index interface_EMPTY;
  nw_address_entry index := call (t ≫= hx_address_entry) index interface_address_EMPTY;
  nw_reverse_lookup a capacity := sized (t ≫= hx_reverse_lookup) (a, capacity) (0, None);
  nw_membership socket group index join := run (t ≫= hx_membership) (socket, group, index, Z.b2z join) |}.
Definition host_local (k : Caches) : LocalSockets W :=
  let t := c_local k in {|
  local_PROVIDED := true;
  lo_bind socket path := run (t ≫= hd_bind) (socket, path); lo_connect socket path := run (t ≫= hd_connect) (socket, path);
  lo_address socket peer capacity := sized (t ≫= hd_address) (socket, Z.b2z peer, capacity) (0, None);
  lo_peer_user socket := call (t ≫= hd_peer_user) socket u32_max |}.
(** [accounts::listed] *)
Definition listed {A} (capacity : Z) (f : option (HostFn A (Z * list Z))) (a : A) : M W Error (Z * list Z) := fun w =>
  let '(w, (r, (count, stored))) := invoke EUnsupported f a (0, []) w in
  (w, match r with
      | Ok _ => Ok (count, stored)
      | Err EBufferTooSmall => if capacity <? count then Ok (count, stored) else Err EOs
      | Err e => Err e
      end).
Definition host_accounts (k : Caches) : Accounts W :=
  let t := c_accounts k in {|
  accounts_PROVIDED := true;
  ac_user_by_id user := call (t ≫= hb_user_by_id) user account_EMPTY; ac_user_by_name name := call (t ≫= hb_user_by_name) name account_EMPTY;
  ac_process_groups capacity := listed capacity (t ≫= hb_process_groups) capacity;
  ac_user_groups name primary capacity := listed capacity (t ≫= hb_user_groups) (name, primary, capacity) |}.
Definition host_priority (k : Caches) : Priority W := {|
  priority_PROVIDED := true;
  pr_get process := call (c_priority k ≫= hg_get) process 0; pr_set process value := run (c_priority k ≫= hg_set) (process, value) |}.
Definition host_packets (k : Caches) : Packets W := {|
  packets_PROVIDED := true;
  pk_receive socket capacity flags := bind (call (c_packets k ≫= hz_receive) (socket, capacity, flags) (0, address_default, info_default, []))
    (fun '(received, from, info, stored) => ret (received, known from, info, stored)) |}.
(** The address of the group list is null when the list is empty; where it lies otherwise is the caller's. *)
Definition host_spawn_as (at_ : list Z -> Z) (k : Caches) : SpawnAs W := {|
  spawn_as_PROVIDED := true;
  sa_spawn_as request pipes user group groups :=
    call (c_spawn_as k ≫= hj_spawn_as) (request, pipes, mkIdentity user group (if lenZ groups =? 0 then 0 else at_ groups) groups) spawned_EMPTY |}.
End Host.

(** What a provider method makes of its callback's answer: the host's state as the callback left it, the outputs only when
    the status is [OK], and otherwise the status if it is a published one, else [OS_ERROR]. *)
Theorem call_exact {W A O : Type} absent (f : HostFn (W := W) A O) a o w :
  let '(w', (st, o')) := f a o w in
  let '(w'', r) := call_or absent (Some f) a o w in
  w'' = w' /\ (forall x, r = Ok x <-> st = OK /\ x = o') /\ status r = if (0 <=? st) && (st <=? 31) then st else OS_ERROR.
Proof.
  unfold call_or, invoke. destruct (f a o w) as [w' [st o']]. split; [done |]. pose proof (from_status_total st) as Hs.
  destruct (from_status st) as [u | e] eqn:Hst; simpl in *.
  - split; [| done]. intros x. split; [intros [= <-]; split; [| done] | by intros [_ ->]]. destruct ((0 <=? st) && (st <=? 31)); [done |]. unfold OK, OS_ERROR in Hs. lia.
  - split; [| done]. intros x. split; [done |]. intros [-> _]. vm_compute in Hst. done.
Qed.
