(* ===== verification/Standalone.v ===== *)
(** * Standalone.v: the library assembled from the embedder's tables

    [src/tools/dotnet-pal-standalone/src/lib.rs] in its [host] configurations: each group is the host adapter's where its
    feature is on and [Absent] elsewhere, and the port validates itself by the adapter's [validate].  With the feature
    [linear] the memory is a linear storage provider, which is a parameter here, and the host's table of virtual memory
    is not looked at.  The configurations with [linux] and [wasi-*] use ports that are not modelled. *)
From S2P Require Import Prelude Port Counter Boundary Content Queue Locks Tree MemFs Front FilesApi Group Console Machine Net Native Children Watching Faults Notifications Adapters Absent Negotiate Host.
Local Open Scope Z_scope.

Section Standalone.
Context `{Arch} {Fr : Frames} {W : Type}.
Context (at_ : list Z -> Z) (linear : option (LinearStorage W)) (f : Features) (t : Tables (W := W)).
Definition no_caches : Caches (W := W) :=
  mkCaches None None None None None None None None None None None None None None None None None None None None None None None None None None.
Definition negotiated : Caches := default no_caches (host_validate (negb (present linear)) f t).
Definition standalone : PalPort W :=
  let k := negotiated in {|
  port_vm := if present linear then absent_virtual_memory else host_vm k; port_linear := default absent_linear_storage linear;
  port_clock := if has_services f then host_clock k else absent_clock; port_scheduler := if has_services f then host_scheduler k else absent_scheduler;
  port_kernel := if has_kernel f then host_kernel k else absent_kernel; port_runtime := if has_runtime f then host_runtime k else absent_runtime;
  port_wasi := absent_wasi; port_context := if has_context f then host_context k else absent_context;
  port_support := if has_support f then host_support k else absent_support; port_topology := if has_topology f then host_topology k else absent_topology;
  port_process := if has_process f then host_process k else absent_process; port_image := if has_image f then host_image k else absent_image;
  port_streams := if has_streams f then host_streams k else absent_streams; port_files := if has_files f then host_files k else absent_files;
  port_sockets := if has_sockets f then host_sockets k else absent_sockets; port_faults := if has_faults f then host_faults k else absent_faults;
  port_system := if has_system f then host_system k else absent_system;
  port_notifications := if has_notifications f then host_notifications k else absent_notifications;
  port_processes := if has_processes f then host_processes k else absent_processes; port_terminal := if has_terminal f then host_terminal k else absent_terminal;
  port_watches := if has_watches f then host_watches k else absent_watches; port_mappings := if has_mappings f then host_mappings k else absent_mappings;
  port_volumes := if has_volumes f then host_volumes k else absent_volumes; port_network := if has_network f then host_network k else absent_network;
  port_local := if has_local f then host_local k else absent_local_sockets; port_accounts := if has_accounts f then host_accounts k else absent_accounts;
  port_priority := if has_priority f then host_priority k else absent_priority; port_packets := if has_packets f then host_packets k else absent_packets;
  port_spawn_as := if has_spawn_as f then host_spawn_as at_ k else absent_spawn_as;
  validate := present (host_validate (negb (present linear)) f t) |}.
End Standalone.

(** ** What validation checks *)
Section Validation.
Context `{Arch} {Fr : Frames} {W : Type}.
(** The callbacks that a host must have for each group: all of them but those that it may leave out ([UNSUPPORTED]
    per call), and for faults the frame of this build. *)
Definition vm_needs (t : VmHost (W := W)) : Prop :=
  is_Some (hv_page_size t) /\ is_Some (hv_reserve t) /\ is_Some (hv_commit t) /\ is_Some (hv_decommit t) /\ is_Some (hv_release t) /\
  is_Some (hv_reset t).
Definition services_needs (t : ServicesHost (W := W)) : Prop :=
  is_Some (hs_clock t) /\ is_Some (hs_sleep t) /\ is_Some (hs_yield_now t).
Definition kernel_needs (t : KernelHost (W := W)) : Prop :=
  is_Some (hk_event_create t) /\ is_Some (hk_event_destroy t) /\ is_Some (hk_event_set t) /\ is_Some (hk_event_reset t) /\
  is_Some (hk_event_wait t) /\ is_Some (hk_mutex_create t) /\ is_Some (hk_mutex_destroy t) /\ is_Some (hk_mutex_lock t) /\
  is_Some (hk_mutex_unlock t) /\ is_Some (hk_thread_create t) /\ is_Some (hk_thread_join t) /\ is_Some (hk_thread_detach t) /\
  is_Some (hk_tls_create t) /\ is_Some (hk_tls_destroy t) /\ is_Some (hk_tls_get t) /\ is_Some (hk_tls_set t) /\ is_Some (hk_stack_bounds t) /\
  is_Some (hk_process_barrier t).
Definition runtime_needs (t : RuntimeHost (W := W)) : Prop :=
  is_Some (hr_environment_get t) /\ is_Some (hr_process_id t) /\ is_Some (hr_thread_id t) /\ is_Some (hr_realtime_ns t) /\
  is_Some (hr_random_bytes t) /\ is_Some (hr_mapping_allocate t) /\ is_Some (hr_mapping_release t) /\ is_Some (hr_mapping_protect t) /\
  is_Some (hr_module_open t) /\ is_Some (hr_module_symbol t) /\ is_Some (hr_module_close t) /\ is_Some (hr_module_info t).
Definition support_needs (t : SupportHost (W := W)) : Prop :=
  is_Some (hu_allocate t) /\ is_Some (hu_resize t) /\ is_Some (hu_release t) /\ is_Some (hu_rw_create t) /\ is_Some (hu_rw_read t) /\
  is_Some (hu_rw_write t) /\ is_Some (hu_rw_unlock t) /\ is_Some (hu_rw_destroy t) /\ is_Some (hu_write_stderr t) /\ is_Some (hu_thread_name t).
Definition context_needs (t : ContextOps W) : Prop :=
  is_Some (co_abi_tag t) /\ is_Some (co_action_size t) /\ is_Some (co_action_alignment t) /\ is_Some (co_install t) /\ is_Some (co_restore t) /\
  is_Some (co_unblock_activation t) /\ is_Some (co_request_activation t) /\ is_Some (co_current_thread t) /\ is_Some (co_process_id_async t) /\
  is_Some (co_ignore_broken_pipe t) /\ is_Some (co_signal_number t).
Definition topology_needs (t : TopologyHost (W := W)) : Prop :=
  is_Some (ho_cpu_max t) /\ is_Some (ho_cpu_count t) /\ is_Some (ho_current_cpu t) /\ is_Some (ho_process_affinity t) /\
  is_Some (ho_set_thread_affinity t) /\ is_Some (ho_physical_memory t) /\ is_Some (ho_memory_limit t) /\ is_Some (ho_virtual_limit t) /\
  is_Some (ho_cache_size t) /\ is_Some (ho_cpu_features t).
Definition process_needs (t : ProcessHost (W := W)) : Prop :=
  is_Some (hp_exit t) /\ is_Some (hp_debugger_present t).
Definition image_needs (t : ImageHost (W := W)) : Prop :=
  is_Some (hi_unwind_info t) /\ is_Some (hi_readable t) /\ is_Some (hi_build_id t).
Definition streams_needs (t : StreamsHost (W := W)) : Prop :=
  is_Some (ht_write t) /\ is_Some (ht_read t) /\ is_Some (ht_is_terminal t).
Definition files_needs (t : FilesHost (W := W)) : Prop :=
  is_Some (hf_open t) /\ is_Some (hf_close t) /\ is_Some (hf_read_at t) /\ is_Some (hf_write_at t) /\ is_Some (hf_set_size t) /\
  is_Some (hf_flush t) /\ is_Some (hf_status t) /\ is_Some (hf_path_status t) /\ is_Some (hf_remove t) /\ is_Some (hf_rename t) /\
  is_Some (hf_directory_create t) /\ is_Some (hf_directory_remove t) /\ is_Some (hf_directory_open t) /\ is_Some (hf_directory_read t) /\
  is_Some (hf_directory_close t) /\ is_Some (hf_current_directory t).
Definition sockets_needs (t : SocketsHost (W := W)) : Prop :=
  is_Some (hn_create t) /\ is_Some (hn_close t) /\ is_Some (hn_bind t) /\ is_Some (hn_listen t) /\ is_Some (hn_accept t) /\ is_Some (hn_connect t) /\
  is_Some (hn_send t) /\ is_Some (hn_receive t) /\ is_Some (hn_shutdown t) /\ is_Some (hn_local_address t) /\ is_Some (hn_peer_address t) /\
  is_Some (hn_set_blocking t) /\ is_Some (hn_get_option t) /\ is_Some (hn_set_option t) /\ is_Some (hn_poll t) /\ is_Some (hn_wake t).
Definition faults_needs (t : FaultsHost (W := W)) : Prop :=
  ha_frame_tag t = Some FRAME_TAG /\ ha_frame_size t = Some FRAME_SIZE /\ is_Some (ha_enable t) /\ FRAME_TAG <> 0.
Definition notifications_needs (t : NotificationsHost (W := W)) : Prop :=
  is_Some (hq_start t) /\ is_Some (hq_enable t) /\ is_Some (hq_disable t) /\ is_Some (hq_default_action t).
Definition processes_needs (t : ProcessesHost (W := W)) : Prop :=
  is_Some (hc_spawn t) /\ is_Some (hc_wait t) /\ is_Some (hc_terminate t) /\ is_Some (hc_release t) /\ is_Some (hc_pipe_read t) /\
  is_Some (hc_pipe_write t) /\ is_Some (hc_pipe_close t).
Definition terminal_needs (t : TerminalHost (W := W)) : Prop :=
  is_Some (he_window_size t) /\ is_Some (he_set_input_mode t) /\ is_Some (he_input_ready t) /\ is_Some (he_control_character t).
Definition watches_needs (t : WatchesHost (W := W)) : Prop :=
  is_Some (hw_open t) /\ is_Some (hw_close t) /\ is_Some (hw_add t) /\ is_Some (hw_remove t) /\ is_Some (hw_read t).
Definition mappings_needs (t : MappingsHost (W := W)) : Prop :=
  is_Some (hm_map t) /\ is_Some (hm_unmap t) /\ is_Some (hm_sync t).
Definition volumes_needs (t : VolumesHost (W := W)) : Prop :=
  is_Some (hl_entry t) /\ is_Some (hl_status t).
Definition local_needs (t : LocalHost (W := W)) : Prop :=
  is_Some (hd_bind t) /\ is_Some (hd_connect t) /\ is_Some (hd_address t) /\ is_Some (hd_peer_user t).
Definition priority_needs (t : PriorityHost (W := W)) : Prop :=
  is_Some (hg_get t) /\ is_Some (hg_set t).
Definition packets_needs (t : PacketsHost (W := W)) : Prop :=
  is_Some (hz_receive t).
Definition spawn_as_needs (t : SpawnAsHost (W := W)) : Prop :=
  is_Some (hj_spawn_as t).
(** A table that is accepted: it is there, of this version, large enough for its [n] callbacks, announces the capabilities of the group by
    the numbers of their bits, and has the callbacks that the group needs. *)
Record accepts {T} (n : Z) (bits : list Z) (needs : T -> Prop) (raw : Raw T) : Prop := {
  ac_there : raw_address raw <> 0 /\ raw_address raw mod 8 = 0;
  ac_version : abi_version (raw_header raw) = 2;
  ac_size : size_of_table n <= struct_size (raw_header raw);
  ac_announced : forall k, k ∈ bits -> Z.testbit (capabilities (raw_header raw)) k = true;
  ac_complete : needs (raw_ops raw);
}.
Record tables_ok (virtual_memory : bool) (f : Features) (t : Tables (W := W)) : Prop := {
  ok_vm : virtual_memory = true -> accepts 6 [0] vm_needs (t_vm t);
  ok_services : has_services f = true -> accepts 3 [2; 3] services_needs (t_services t);
  ok_kernel : has_kernel f = true -> accepts 19 [4; 5; 6; 7; 8; 9] kernel_needs (t_kernel t);
  ok_runtime : has_runtime f = true -> accepts 13 [10; 11; 12; 13; 14; 15] runtime_needs (t_runtime t);
  ok_support : has_support f = true -> accepts 11 [19; 20; 21; 22] support_needs (t_support t);
  ok_context : has_context f = true -> accepts 12 [17] context_needs (t_context t);
  ok_topology : has_topology f = true -> accepts 13 [23] topology_needs (t_topology t);
  ok_process : has_process f = true -> accepts 4 [24] process_needs (t_process t);
  ok_image : has_image f = true -> accepts 4 [25] image_needs (t_image t);
  ok_streams : has_streams f = true -> accepts 4 [26] streams_needs (t_streams t);
  ok_files : has_files f = true -> accepts 28 [27] files_needs (t_files t);
  ok_sockets : has_sockets f = true -> accepts 19 [28] sockets_needs (t_sockets t);
  ok_faults : has_faults f = true -> accepts 3 [29] faults_needs (t_faults t);
  ok_system : has_system f = true -> accepts 6 [30] (fun _ : SystemHost (W := W) => True) (t_system t);
  ok_notifications : has_notifications f = true -> accepts 4 [31] notifications_needs (t_notifications t);
  ok_processes : has_processes f = true -> accepts 8 [32] processes_needs (t_processes t);
  ok_terminal : has_terminal f = true -> accepts 5 [33] terminal_needs (t_terminal t);
  ok_watches : has_watches f = true -> accepts 6 [34] watches_needs (t_watches t);
  ok_mappings : has_mappings f = true -> accepts 4 [35] mappings_needs (t_mappings t);
  ok_volumes : has_volumes f = true -> accepts 3 [36] volumes_needs (t_volumes t);
  ok_network : has_network f = true -> accepts 5 [37] (fun _ : NetworkHost (W := W) => True) (t_network t);
  ok_local : has_local f = true -> accepts 5 [38] local_needs (t_local t);
  ok_accounts : has_accounts f = true -> accepts 5 [39] (fun _ : AccountsHost (W := W) => True) (t_accounts t);
  ok_priority : has_priority f = true -> accepts 3 [40] priority_needs (t_priority t);
  ok_packets : has_packets f = true -> accepts 2 [41] packets_needs (t_packets t);
  ok_spawn_as : has_spawn_as f = true -> accepts 2 [42] spawn_as_needs (t_spawn_as t);
}.
Definition kept_if {T} (enabled : bool) (raw : Raw T) : option T := if enabled then Some (raw_ops raw) else None.
Definition cached (virtual_memory : bool) (f : Features) (t : Tables (W := W)) : Caches :=
  mkCaches (kept_if virtual_memory (t_vm t)) (kept_if (has_services f) (t_services t)) (kept_if (has_kernel f) (t_kernel t)) (kept_if (has_runtime f) (t_runtime t)) (kept_if (has_support f) (t_support t)) (kept_if (has_context f) (t_context t)) (kept_if (has_topology f) (t_topology t)) (kept_if (has_process f) (t_process t)) (kept_if (has_image f) (t_image t)) (kept_if (has_streams f) (t_streams t)) (kept_if (has_files f) (t_files t)) (kept_if (has_sockets f) (t_sockets t)) (kept_if (has_faults f) (t_faults t)) (kept_if (has_system f) (t_system t)) (kept_if (has_notifications f) (t_notifications t)) (kept_if (has_processes f) (t_processes t)) (kept_if (has_terminal f) (t_terminal t)) (kept_if (has_watches f) (t_watches t)) (kept_if (has_mappings f) (t_mappings t)) (kept_if (has_volumes f) (t_volumes t)) (kept_if (has_network f) (t_network t)) (kept_if (has_local f) (t_local t)) (kept_if (has_accounts f) (t_accounts t)) (kept_if (has_priority f) (t_priority t)) (kept_if (has_packets f) (t_packets t)) (kept_if (has_spawn_as f) (t_spawn_as t)).

(** What a line of [validate] checks, in the words of the contract. *)
Class Requirement {T} (complete : T -> bool) (required : Z) (bits : list Z) (needs : T -> Prop) : Prop := {
  rq_bits : forall caps, Z.land caps required = required <-> forall k, k ∈ bits -> Z.testbit caps k = true;
  rq_needs : forall t, complete t = true <-> needs t }.
Lemma announced_iff caps bits : Forall (fun k => 0 <= k) bits ->
  let required := foldr (fun k acc => Z.lor (2 ^ k) acc) 0 bits in Z.land caps required = required <-> forall k, k ∈ bits -> Z.testbit caps k = true.
Proof.
  intros Hb required. assert (forall n, 0 <= n -> Z.testbit required n = bool_decide (n ∈ bits)) as Ht.
  { intros n Hn. subst required. induction Hb as [| k bits Hk _ IH]; [apply Z.bits_0 |]. cbn [foldr]. rewrite Z.lor_spec, IH, Z.pow2_bits_eqb by done.
    destruct (Z.eqb_spec k n) as [-> | Hne]; repeat case_bool_decide; set_solver. }
  rewrite Forall_forall in Hb. split.
  - intros He k Hin. pose proof (Ht k (Hb k Hin)) as Hk. rewrite bool_decide_eq_true_2, <- He, Z.land_spec in Hk by done. by apply andb_true_iff in Hk as [? _].
  - intros Hall. apply Z.bits_inj'. intros n Hn. rewrite Z.land_spec, (Ht n Hn). case_bool_decide as Hin; [by rewrite Hall | by rewrite andb_false_r].
Qed.
Lemma present_there {A} (o : option A) : present o = true <-> is_Some o.
Proof. destruct o; simpl; split; [eauto | done | done | by intros [? ?]]. Qed.
Lemma faults_complete_iff (t : FaultsHost (W := W)) : faults_complete t = true <-> faults_needs t.
Proof.
  unfold faults_complete, faults_needs. destruct (ha_frame_tag t) as [tag |], (ha_frame_size t) as [size |], (ha_enable t); simpl;
    try (split; [done | intros (? & ? & [? ?] & ?); done]).
  destruct (Z.eqb_spec FRAME_TAG 0), (Z.eqb_spec tag FRAME_TAG), (Z.eqb_spec size FRAME_SIZE); simpl; split; try done; try (intros ([=] & [=] & _ & ?); done).
  intros _. subst. eauto.
Qed.
Ltac requirement := constructor;
  [intros caps; match goal with |- context [_ ∈ ?bits] => exact (announced_iff caps bits ltac:(repeat constructor; lia)) end
  | intros t; first [apply faults_complete_iff
     | unfold vm_complete, services_complete, kernel_complete, runtime_complete, support_complete, context_complete, topology_complete, process_complete, image_complete,
         streams_complete, files_complete, sockets_complete, notifications_complete, processes_complete, terminal_complete, watches_complete, mappings_complete,
         volumes_complete, local_complete, priority_complete, packets_complete, spawn_as_complete; unfold vm_needs, services_needs, kernel_needs, runtime_needs, support_needs, context_needs, topology_needs,
         process_needs, image_needs, streams_needs, files_needs, sockets_needs, notifications_needs, processes_needs, terminal_needs, watches_needs, mappings_needs,
         volumes_needs, local_needs, priority_needs, packets_needs, spawn_as_needs; rewrite ?andb_true_iff, ?present_there; tauto]].
#[local] Instance vm_requirement : Requirement vm_complete CAP_VM [0] vm_needs.
Proof. requirement. Qed.
#[local] Instance services_requirement : Requirement services_complete CAP_SERVICES [2; 3] services_needs.
Proof. requirement. Qed.
#[local] Instance kernel_requirement : Requirement kernel_complete KERNEL_ALL [4; 5; 6; 7; 8; 9] kernel_needs.
Proof. requirement. Qed.
#[local] Instance runtime_requirement : Requirement runtime_complete RUNTIME_ALL [10; 11; 12; 13; 14; 15] runtime_needs.
Proof. requirement. Qed.
#[local] Instance support_requirement : Requirement support_complete SUPPORT_ALL [19; 20; 21; 22] support_needs.
Proof. requirement. Qed.
#[local] Instance context_requirement : Requirement context_complete CONTEXT_CAP [17] context_needs.
Proof. requirement. Qed.
#[local] Instance topology_requirement : Requirement topology_complete (2 ^ 23) [23] topology_needs.
Proof. requirement. Qed.
#[local] Instance process_requirement : Requirement process_complete (2 ^ 24) [24] process_needs.
Proof. requirement. Qed.
#[local] Instance image_requirement : Requirement image_complete (2 ^ 25) [25] image_needs.
Proof. requirement. Qed.
#[local] Instance streams_requirement : Requirement streams_complete (2 ^ 26) [26] streams_needs.
Proof. requirement. Qed.
#[local] Instance files_requirement : Requirement files_complete (2 ^ 27) [27] files_needs.
Proof. requirement. Qed.
#[local] Instance sockets_requirement : Requirement sockets_complete (2 ^ 28) [28] sockets_needs.
Proof. requirement. Qed.
#[local] Instance faults_requirement : Requirement faults_complete FAULTS_CAP [29] faults_needs.
Proof. requirement. Qed.
#[local] Instance system_requirement : Requirement (fun _ : SystemHost (W := W) => true) (2 ^ 30) [30] (fun _ : SystemHost (W := W) => True).
Proof. requirement. Qed.
#[local] Instance notifications_requirement : Requirement notifications_complete (2 ^ 31) [31] notifications_needs.
Proof. requirement. Qed.
#[local] Instance processes_requirement : Requirement processes_complete (2 ^ 32) [32] processes_needs.
Proof. requirement. Qed.
#[local] Instance terminal_requirement : Requirement terminal_complete (2 ^ 33) [33] terminal_needs.
Proof. requirement. Qed.
#[local] Instance watches_requirement : Requirement watches_complete (2 ^ 34) [34] watches_needs.
Proof. requirement. Qed.
#[local] Instance mappings_requirement : Requirement mappings_complete (2 ^ 35) [35] mappings_needs.
Proof. requirement. Qed.
#[local] Instance volumes_requirement : Requirement volumes_complete (2 ^ 36) [36] volumes_needs.
Proof. requirement. Qed.
#[local] Instance network_requirement : Requirement (fun _ : NetworkHost (W := W) => true) (2 ^ 37) [37] (fun _ : NetworkHost (W := W) => True).
Proof. requirement. Qed.
#[local] Instance local_requirement : Requirement local_complete (2 ^ 38) [38] local_needs.
Proof. requirement. Qed.
#[local] Instance accounts_requirement : Requirement (fun _ : AccountsHost (W := W) => true) (2 ^ 39) [39] (fun _ : AccountsHost (W := W) => True).
Proof. requirement. Qed.
#[local] Instance priority_requirement : Requirement priority_complete (2 ^ 40) [40] priority_needs.
Proof. requirement. Qed.
#[local] Instance packets_requirement : Requirement packets_complete (2 ^ 41) [41] packets_needs.
Proof. requirement. Qed.
#[local] Instance spawn_as_requirement : Requirement spawn_as_complete (2 ^ 42) [42] spawn_as_needs.
Proof. requirement. Qed.
Lemma validated_spec {T} n required (complete : T -> bool) raw {bits needs} {R : Requirement complete required bits needs} :
  match validated n required complete raw with Some x => accepts n bits needs raw /\ x = raw_ops raw | None => ~ accepts n bits needs raw end.
Proof.
  unfold validated, table, align_of_table, align_of_u64, ABI_VERSION.
  destruct (Z.eqb_spec (raw_address raw) 0); simpl; [intros []; tauto |]. destruct (Z.eqb_spec (raw_address raw mod 8) 0); simpl; [| intros []; tauto].
  destruct (Z.eqb_spec (abi_version (raw_header raw)) 2); simpl; [| intros []; tauto]. destruct (Z.ltb_spec (struct_size (raw_header raw)) (size_of_table n)); simpl; [intros []; lia |].
  destruct (Z.eqb_spec (Z.land (capabilities (raw_header raw)) required) required) as [He | He]; simpl; [| intros [_ _ _ Ha _]; by apply He, rq_bits].
  destruct (complete (raw_ops raw)) eqn:Hc.
  - split; [| done]. constructor; [done | done | done | by apply rq_bits | by apply rq_needs].
  - intros [_ _ _ _ Hn]. apply rq_needs in Hn. congruence.
Qed.
Lemma when_enabled_spec {T} enabled n required (complete : T -> bool) raw {bits needs} {R : Requirement complete required bits needs} :
  match when_enabled enabled n required complete raw with
  | Some x => (enabled = true -> accepts n bits needs raw) /\ x = kept_if enabled raw
  | None => ~ (enabled = true -> accepts n bits needs raw)
  end.
Proof.
  unfold when_enabled. destruct enabled; [| done]. pose proof (validated_spec n required complete raw) as Hs. destruct (validated _ _ _ _); simpl; [| tauto].
  destruct Hs as [Ha ->]. done.
Qed.
(** Goes through the lines of [validate] one by one. *)
Ltac line :=
  match goal with |- match (mbind _ (when_enabled ?e ?n ?r ?c ?raw)) with _ => _ end =>
    let Hs := fresh in pose proof (when_enabled_spec e n r c raw) as Hs; destruct (when_enabled e n r c raw); cbn [mbind option_bind];
    [destruct Hs as [? ->] | intros []; contradiction] end.
(** Validation accepts exactly the right tables and caches those of the enabled groups and no other. *)
Theorem host_validate_exact virtual_memory f (t : Tables (W := W)) :
  match host_validate virtual_memory f t with
  | Some k => tables_ok virtual_memory f t /\ k = cached virtual_memory f t
  | None => ~ tables_ok virtual_memory f t
  end.
Proof. unfold host_validate. do 26 line. split; [by constructor | done]. Qed.
End Validation.

(** ** The table of the standalone library *)
Section Contract.
Context `{Arch} {Fr : Frames} {W : Type} (at_ : list Z -> Z) (linear : option (LinearStorage W)) (f : Features) (t : Tables (W := W)).
(** The features decide what the consumer finds; the statistics are there for every group but linear storage and WASI. *)
Definition offers_linear : bool := match linear with Some l => linear_PROVIDED | None => false end.
Definition enabled (c : Callback) : bool :=
  match c with
  | OfPageSize | OfVm _ => negb (present linear) | OfLinear _ => offers_linear | OfWasi _ => false | OfStats _ => true
  | OfServices _ => has_services f | OfKernel _ => has_kernel f | OfRuntime _ => has_runtime f | OfContext _ | OfPlain _ => has_context f
  | OfSupport _ => has_support f | OfTopology _ => has_topology f | OfProcess _ | OfExit => has_process f | OfImage _ => has_image f
  | OfStreams _ => has_streams f | OfFiles _ => has_files f | OfSockets _ => has_sockets f | OfFaults _ => has_faults f | OfSystem _ => has_system f
  | OfNotifications _ => has_notifications f | OfProcesses _ => has_processes f | OfTerminal _ => has_terminal f | OfWatches _ => has_watches f
  | OfMappings _ => has_mappings f | OfVolumes _ => has_volumes f | OfNetwork _ => has_network f | OfLocal _ => has_local f | OfAccounts _ => has_accounts f
  | OfPriority _ => has_priority f | OfPackets _ => has_packets f | OfSpawnAs _ => has_spawn_as f
  end.
#[local] Instance the_port : PalPort W := standalone at_ linear f t.
Lemma standalone_offers : offers (S := W) = [
  (0, negb (present linear)); (1, offers_linear); (18, linear_PROVIDED && linear_DYNAMIC); (2, has_services f); (3, has_services f);
  (4, has_kernel f); (5, has_kernel f); (6, has_kernel f); (7, has_kernel f); (8, has_kernel f); (9, has_kernel f);
  (10, has_runtime f); (11, has_runtime f); (12, has_runtime f); (13, has_runtime f); (14, has_runtime f); (15, has_runtime f);
  (16, false); (17, has_context f); (19, has_support f); (20, has_support f); (21, has_support f); (22, has_support f);
  (23, has_topology f); (24, has_process f); (25, has_image f); (26, has_streams f); (27, has_files f); (28, has_sockets f);
  (29, has_faults f); (30, has_system f); (31, has_notifications f); (32, has_processes f); (33, has_terminal f);
  (34, has_watches f); (35, has_mappings f); (36, has_volumes f); (37, has_network f); (38, has_local f); (39, has_accounts f);
  (40, has_priority f); (41, has_packets f); (42, has_spawn_as f)].
Proof.
  unfold offers, offers_linear. repeat (apply (f_equal2 cons); [apply (f_equal2 pair); [reflexivity |]; first [reflexivity | unfold the_port, standalone; simpl; case linear; reflexivity
    | simpl; match goal with |- context [if ?b then _ else _] => destruct b end; reflexivity] |]).
  reflexivity.
Qed.
Lemma offers_unique k p q : (k, p) ∈ offers (S := W) -> (k, q) ∈ offers (S := W) -> p = q.
Proof.
  intros Hp Hq. pose proof (offers_distinct (S := W)) as Hd. apply list_elem_of_lookup in Hp as [i Hi], Hq as [j Hj].
  assert (i = j) as ->; [| congruence]. eapply (NoDup_lookup _ _ _ k Hd); rewrite list_lookup_fmap; [by rewrite Hi | by rewrite Hj].
Qed.
Lemma enabled_offered c k : bit_of c = Some k -> (k, enabled c) ∈ offers (S := W).
Proof.
  rewrite standalone_offers. intros Hk. destruct c; try destruct c; injection Hk as <- || discriminate Hk; simpl; repeat first [apply list_elem_of_here | apply list_elem_of_further].
Qed.
(** The host's pages are a power of two, or the granules of the linear storage, which then has a capacity. *)
Definition power_of_two (n : Z) : Prop := exists k, 0 <= k /\ n = 2 ^ k.
Definition memory_ok : Prop :=
  match linear with
  | None => exists p, hv_page_size (raw_ops (t_vm t)) = Some p /\ power_of_two p
  | Some l => linear_PROVIDED = true -> power_of_two GRANULARITY /\ CAPACITY <> 0
  end.
Lemma faults_acceptable virtual_memory : tables_ok virtual_memory f t -> faults_PROVIDED (FaultsPort := if has_faults f then host_faults (negotiated linear f t) else absent_faults) = true -> FRAME_TAG <> 0.
Proof. intros Hok. destruct (has_faults f) eqn:Hf; [| done]. intros _. by destruct (ac_complete _ _ _ _ (ok_faults _ _ _ Hok Hf)) as (_ & _ & _ & ?). Qed.
Lemma negotiated_cached virtual_memory : virtual_memory = negb (present linear) -> is_Some (host_validate virtual_memory f t) ->
  tables_ok virtual_memory f t /\ negotiated linear f t = cached virtual_memory f t.
Proof.
  intros -> Hs. unfold negotiated. pose proof (host_validate_exact (negb (present linear)) f t) as Hv.
  destruct (host_validate _ f t) as [k |]; [| by destruct Hs]. by destruct Hv as [? ->].
Qed.
Lemma standalone_acceptable : acceptable (S := W) <-> tables_ok (negb (present linear)) f t /\ memory_ok.
Proof.
  unfold acceptable, memory_ok, power_of_two. change (validate (S := W)) with (present (host_validate (negb (present linear)) f t)).
  pose proof (host_validate_exact (negb (present linear)) f t) as Hv. pose proof (negotiated_cached _ eq_refl) as Hn.
  destruct (host_validate (negb (present linear)) f t) as [k |] eqn:Hval; [| split; [by intros (_ & ? & _) | by intros [? _]]].
  destruct (Hn ltac:(eauto)) as [Hok Hcached]. clear Hv Hn.
  assert (context_PROVIDED (S := W) = true -> cx_ops (S := W) <> None) as Hcx.
  { unfold the_port, standalone. cbn [port_context]. rewrite Hcached. destruct (has_context f) eqn:Hc; [| done]. intros _. simpl. unfold kept_if. by rewrite Hc. }
  assert (faults_PROVIDED (S := W) = true -> FRAME_TAG <> 0) as Hfa by exact (faults_acceptable _ Hok).
  assert (forall A B C D E F G : Prop, E -> F -> G -> (A /\ C /\ D <-> B) -> (A /\ G /\ C /\ D /\ E /\ F <-> B)) as Hrest by tauto.
  apply Hrest; [exact Hcx | exact Hfa | done |]. clear Hrest Hcx Hfa.
  unfold the_port, standalone. cbn [port_vm port_linear]. rewrite Hcached. revert Hok. clear Hval Hcached. case linear; [intros l Hok | intros Hok]; simpl.
  - split; [intros (_ & _ & Hl) | intros [_ Hl]]; (split_and!; [done .. |]); intros Hp; destruct (Hl Hp) as [? ?]; (split; [by apply is_power_of_two_spec | done]).
  - destruct (ac_complete _ _ _ _ (ok_vm _ _ _ Hok eq_refl)) as [[p Hp] _]. rewrite Hp. simpl. split.
    + intros (_ & Hpage & _). split; [done |]. exists p. split; [done | by apply is_power_of_two_spec, Hpage].
    + intros [_ (p' & [= ->] & Hpage)]. split_and!; try done. intros _. by apply is_power_of_two_spec.
Qed.
(** C36: the standalone library serves exactly what its host offers, over the host's virtual memory or over linear
    storage.  Negotiation succeeds exactly when every enabled group's table (and without linear storage that of virtual
    memory) is there, aligned, of this version, large enough, announces every capability of its group and has each
    callback that the group needs, and the page size or granule is a power of two (and a linear storage has room).
    Then the consumer finds the callbacks of exactly the enabled groups, besides the statistics that every group has,
    and the tables that the adapter calls into are the host's own. *)
Theorem standalone_contract :
  match build (S := W) with
  | Some api => tables_ok (negb (present linear)) f t /\ memory_ok /\ negotiated linear f t = cached (negb (present linear)) f t /\
      forall c, callback api c = enabled c
  | None => ~ (tables_ok (negb (present linear)) f t /\ memory_ok)
  end.
Proof.
  pose proof (build_acceptable (S := W)) as Ha. pose proof (build_callback (S := W)) as Hc. pose proof (build_stats (S := W)) as Hs. destruct build as [api |].
  - pose proof Ha as (_ & Hval & _). apply standalone_acceptable in Ha as [Hok Hp]. split_and!; [done | done | |].
    + apply negotiated_cached; [done |]. by apply present_there.
    + intros c. destruct (bit_of c) as [k |] eqn:Hk; [eapply offers_unique; [by apply Hc | by apply enabled_offered] |].
      destruct c; try discriminate Hk; [by destruct c | by apply Hs].
  - by rewrite standalone_acceptable in Ha.
Qed.
End Contract.

(** ** Linear storage beside a host *)
Section Linear.
Context `{Arch} {Fr : Frames} {W : Type} (at_ : list Z -> Z) (l : LinearStorage W) (f : Features) (t : Tables (W := W)).
#[local] Instance linear_port : PalPort W := standalone at_ (Some l) f t.
Lemma runtime_has_mapping (raw : Raw (RuntimeHost (W := W))) : accepts 13 [10; 11; 12; 13; 14; 15] runtime_needs raw -> exists fn, hr_mapping_allocate (raw_ops raw) = Some fn.
Proof.
  intros [_ _ _ _ (_ & _ & _ & _ & _ & Hm & _)]. exact Hm.
Qed.
(** C37: in a library with linear storage and the host's runtime services, no native mapping is ever handed out: the page size of a mapping is that of the host's virtual memory, which is not looked at there and counts as 0, so that the answer of a host that has allocated is refused with [OS_ERROR], and the allocation stays with the host. *)
Theorem linear_host_mappings_fail : tables_ok false f t -> has_runtime f = true ->
  exists fn, hr_mapping_allocate (raw_ops (t_runtime t)) = Some fn /\
  forall size protection out g, let '(g', st) := sg_call (S := W) (RtMappingAllocate size protection out) g in
    st <> Some OK /\
    (aligned_output align_of_usize out = true -> 0 < size <= isize_max -> bad_protection protection = false ->
     forall w v, fn (size, protection) 0 (g_provider g) = (w, (OK, v)) -> st = Some OS_ERROR /\ g_provider g' = w).
Proof.
  intros Hok Hr. destruct (runtime_has_mapping _ (ok_runtime _ _ _ Hok Hr)) as [fn Hfn]. exists fn. split; [done |]. intros size protection out g.
  assert (@port_runtime W linear_port = host_runtime (cached false f t)) as Hport.
  { unfold linear_port, standalone, negotiated. cbn [port_runtime present negb]. rewrite Hr. pose proof (host_validate_exact false f t) as Hv.
    destruct (host_validate false f t); [by destruct Hv as [_ ->] | done]. }
  rewrite Hport. cbn [sg_call runtime_group query_group recorded_group]. unfold run_query. cbn [runtime_query runtime_mapping_allocate q_bad q_act q_index q_clear].
  destruct (aligned_output align_of_usize out); cbn [negb]; [| split; [discriminate | done]].
  unfold refuse. destruct ((size =? 0) || (isize_max <? size) || bad_protection protection) eqn:Hbad.
  { split; [discriminate |]. intros _ Hs Hp. exfalso. rewrite Hp, orb_false_r in Hbad. apply orb_true_iff in Hbad. lia. }
  unfold ask, g_call. cbn [nm_allocate host_runtime c_runtime cached puts g_put g_provider g_counts g_cells]. unfold kept_if. rewrite Hr. cbn [mbind option_bind]. rewrite Hfn.
  unfold call, call_or, invoke. destruct (fn (size, protection) 0 (g_provider g)) as [w [status v]] eqn:Hcall.
  change (nm_page_size (S := W)) with 0. cbn [is_power_of_two]. change (is_power_of_two 0) with false. cbn [negb].
  unfold answer. destruct (from_status status) as [u | e] eqn:Hs; cbn [g_counts g_cells g_provider].
  - rewrite orb_true_r. cbn [orb]. split; [discriminate |]. intros _ _ _ w' v' [= -> _ _]. done.
  - pose proof (status_of_range e) as He. unfold record_by, g_record. split.
    + intros [= Hst]. destruct (runtime_keeps 4 (status_of e)); unfold OK, OS_ERROR in Hst; lia.
    + intros _ _ _ w' v' [= _ -> _]. done.
Qed.
End Linear.

Module StandaloneSample.
#[local] Existing Instance arch64.
#[local] Existing Instance frames_x64.
(** A host whose state is the number of its mappings, with the runtime services only. *)
Definition none {T} (ops : T) : Raw T := mkRaw 0 (mkHeader 0 0 0) ops.
Definition services : RuntimeHost (W := nat) :=
  mkRuntimeHost (Some (fun _ o w => (w, (NOT_FOUND, o)))) (Some (fun _ _ w => (w, (OK, 7)))) (Some (fun _ _ w => (w, (OK, 8)))) (Some (fun _ _ w => (w, (OK, 9))))
    (Some (fun n _ w => (w, (OK, zeros n)))) (Some (fun _ _ w => (S w, (OK, 65536)))) (Some (fun _ o w => (pred w, (OK, o)))) (Some (fun _ o w => (w, (OK, o))))
    (Some (fun _ o w => (w, (NOT_FOUND, o)))) (Some (fun _ o w => (w, (NOT_FOUND, o)))) (Some (fun _ o w => (w, (OK, o)))) (Some (fun _ o w => (w, (NOT_FOUND, o)))).
(** It calls every affinity mask too long for the buffer. *)
Definition machine : TopologyHost (W := nat) :=
  mkTopologyHost None None None (Some (fun _ _ w => (w, (BUFFER_TOO_SMALL, (1, []))))) None None None None None None None None.
Definition host_tables : Tables (W := nat) :=
  mkTables (none (mkVmHost None None None None None None)) (none (mkServicesHost None None None))
    (none (mkKernelHost None None None None None None None None None None None None None None None None None None))
    (mkRaw 4096 (mkHeader 2 120 RUNTIME_ALL) services) (none (mkSupportHost None None None None None None None None None None))
    (none (mkContextOps None None None None None None None None None None None)) (none machine) (none (mkProcessHost None None None))
    (none (mkImageHost None None None)) (none (mkStreamsHost None None None))
    (none (mkFilesHost None None None None None None None None None None None None None None None None None None None None None None None None None None None))
    (none (mkSocketsHost None None None None None None None None None None None None None None None None None None)) (none (mkFaultsHost None None None))
    (none (mkSystemHost None None None None None)) (none (mkNotificationsHost None None None None)) (none (mkProcessesHost None None None None None None None))
    (none (mkTerminalHost None None None None)) (none (mkWatchesHost None None None None None)) (none (mkMappingsHost None None None)) (none (mkVolumesHost None None))
    (none (mkNetworkHost None None None None)) (none (mkLocalHost None None None None)) (none (mkAccountsHost None None None None)) (none (mkPriorityHost None None))
    (none (mkPacketsHost None)) (none (mkSpawnAsHost None)).
Definition features (runtime : bool) : Features :=
  mkFeatures false false runtime false false false false false false false false false false false false false false false false false false false false false false.
Lemma host_tables_ok : tables_ok false (features true) host_tables.
Proof. pose proof (host_validate_exact false (features true) host_tables) as Hv. vm_compute (host_validate _ _ _) in Hv. apply Hv. Qed.
(** The same host with virtual memory, once with all its callbacks and once without [reset]. *)
Definition with_memory (t : Tables (W := nat)) (vm : VmHost) : Tables :=
  mkTables (mkRaw 8192 (mkHeader 2 64 1) vm) (t_services t) (t_kernel t) (t_runtime t) (t_support t) (t_context t) (t_topology t) (t_process t) (t_image t) (t_streams t)
    (t_files t) (t_sockets t) (t_faults t) (t_system t) (t_notifications t) (t_processes t) (t_terminal t) (t_watches t) (t_mappings t) (t_volumes t) (t_network t)
    (t_local t) (t_accounts t) (t_priority t) (t_packets t) (t_spawn_as t).
Definition pages (reset : option (HostFn (W := nat) (Z * Z) unit)) : VmHost (W := nat) :=
  mkVmHost (Some 4096) (Some (fun _ _ w => (w, (OK, 65536)))) (Some (fun _ o w => (w, (OK, o)))) (Some (fun _ o w => (w, (OK, o)))) (Some (fun _ o w => (w, (OK, o)))) reset.
Definition complete_host : Tables := with_memory host_tables (pages (Some (fun _ o w => (w, (OK, o))))).
Definition partial_host : Tables := with_memory host_tables (pages None).
Definition vm_library (t : Tables) := @build _ _ nat (the_port (fun _ => 1) None (features true) t).
Definition linear_library := @build _ _ nat (the_port (fun _ => 1) (Some absent_linear_storage) (features true) partial_host).
Lemma standalone_contract_witness :
  (exists api, vm_library complete_host = Some api /\ callback api (OfRuntime (RtProcessId 64)) = true /\ callback api (OfVm (CallReset 4096 1)) = true /\
     callback api (OfFiles (FClose 8)) = false /\ callback api (OfStats SFiles) = true) /\
  ~ (tables_ok true (features true) partial_host /\ memory_ok None partial_host) /\
  exists api, linear_library = Some api /\ callback api (OfRuntime (RtProcessId 64)) = true /\ callback api (OfVm (CallReset 4096 1)) = false.
Proof.
  split_and!.
  - pose proof (standalone_contract (fun _ => 1) None (features true) complete_host) as Hc. unfold vm_library. destruct (build (S := nat)) as [api |] eqn:Hb.
    + exists api. destruct Hc as (_ & _ & _ & Hc). rewrite !Hc. split_and!; reflexivity.
    + exfalso. assert (present (vm_library complete_host) = true) as Hx by (vm_compute; reflexivity). unfold vm_library in Hx. rewrite Hb in Hx. discriminate Hx.
  - pose proof (standalone_contract (fun _ => 1) None (features true) partial_host) as Hc. destruct (build (S := nat)) as [api |] eqn:Hb; [| exact Hc].
    exfalso. assert (present (vm_library partial_host) = false) as Hx by (vm_compute; reflexivity). unfold vm_library in Hx. rewrite Hb in Hx. discriminate Hx.
  - pose proof (standalone_contract (fun _ => 1) (Some absent_linear_storage) (features true) partial_host) as Hc. unfold linear_library. destruct (build (S := nat)) as [api |] eqn:Hb.
    + exists api. destruct Hc as (_ & _ & _ & Hc). rewrite !Hc. split_and!; reflexivity.
    + exfalso. assert (present linear_library = true) as Hx by (vm_compute; reflexivity). unfold linear_library in Hx. rewrite Hb in Hx. discriminate Hx.
Defined.
Definition consumer : Group nat := mkGroup (fun _ => 0) ∅ 0%nat.
(** The host counts one mapping, the consumer has none. *)
Lemma linear_host_mappings_fail_witness : exists fn, hr_mapping_allocate services = Some fn /\
  let '(g', st) := @sg_call _ _ _ (@runtime_group _ _ (@port_runtime _ (linear_port (fun _ => 1) absent_linear_storage (features true) host_tables))) (RtMappingAllocate 4096 3 64) consumer in
  st = Some OS_ERROR /\ g_provider g' = 1%nat.
Proof.
  destruct (linear_host_mappings_fail (fun _ => 1) absent_linear_storage (features true) host_tables host_tables_ok eq_refl) as (fn & Hfn & Hall).
  exists fn. split; [exact Hfn |]. specialize (Hall 4096 3 64 consumer). vm_compute in Hfn. injection Hfn as <-.
  destruct (sg_call (RtMappingAllocate 4096 3 64) consumer) as [g' st]. destruct Hall as [_ Hall].
  apply (Hall eq_refl ltac:(split; vm_compute; [reflexivity | discriminate]) eq_refl 1%nat 65536). reflexivity.
Defined.
(** Where the host calls a list of groups too long although it fits, the adapter reports an error ([accounts::listed]); a
    CPU mask that fits passes as success, and the consumer finds a mask without any CPU. *)
Example short_affinity_passes : exists g',
  @sg_call _ _ _ (@topology_group _ _ (host_topology (mkCaches None None None None None None (Some machine) None None None None None None None None None None None None None None None None None None None)))
    (ToProcessAffinity 64 8 128) consumer = (g', Some OK) /\ g_get 64 g' = zeros 8.
Proof. eexists. split; [vm_compute; reflexivity |]. vm_compute. reflexivity. Qed.
End StandaloneSample.
