(* ===== verification/LinuxText.v ===== *)
(** * LinuxText.v: the bounded text readers of the Linux port

    [src/crates/dotnet-pal-linux/src/linux_platform.rs] reads procfs, sysfs and the cgroup files without a heap: [read_file]
    fills a fixed buffer, [Lines] streams the lines of a file through 2048 bytes, [Path] is a path of at most 511 bytes,
    and [trim], [parse_u64], [parse_size] and [fields] take the text apart.

    An open file is the list of the answers that [read] will give on it: the kernel chooses how the contents are cut
    into chunks and where it interrupts.  The theorems show that none of those choices is visible. *)
From S2P Require Import Prelude.
Local Open Scope Z_scope.

Definition NEWLINE : Z := 10.
Definition SPACE : Z := 32.
Definition COMMA : Z := 44.
Definition DASH : Z := 45.
Definition COLON : Z := 58.

(** ** Reading an open file *)
(** One answer of [read]: [EINTR], another error, or bytes that are ready.  At the end of the list the file is at its
    end, and an empty chunk says the same. *)
Inductive Read := RIntr | RFail | RData (l : list Z).

(** The bytes of a file before its end or its first error. *)
Fixpoint content (fd : list Read) : list Z :=
  match fd with
  | [] | RFail :: _ | RData [] :: _ => []
  | RIntr :: fd => content fd
  | RData l :: fd => l ++ content fd
  end.
(** The reading stops at the end of the file, not at an error. *)
Fixpoint sound (fd : list Read) : bool :=
  match fd with [] | RData [] :: _ => true | RFail :: _ => false | RIntr :: fd => sound fd | RData _ :: fd => sound fd end.

(** What is left of a chunk of which at most [room] bytes were taken. *)
Definition put_back (room : nat) (l : list Z) (fd : list Read) : list Read :=
  if (room <? length l)%nat then RData (drop room l) :: fd else fd.

(** The loop of [read_file]; [room] is [buffer.len() - filled]. *)
Fixpoint read_file_loop (fd : list Read) (room : nat) (filled : list Z) : option (list Z) :=
  match room with
  | O => Some filled
  | _ =>
      match fd with
      | [] | RData [] :: _ => Some filled
      | RIntr :: fd => read_file_loop fd room filled
      | RFail :: _ => None
      | RData l :: fd => let n := Nat.min room (length l) in read_file_loop fd (room - n) (filled ++ take n l)
      end
  end.
(** [read_file]: the first [capacity] bytes of the file that [open] gives for the path; [None] when it cannot be opened
    or read. *)
Definition read_file (open : list Z -> option (list Read)) (path : list Z) (capacity : nat) : option (list Z) :=
  fd ← open path; read_file_loop fd capacity [].

(** ** The line reader *)
Definition BUFFER : nat := 2048.
(** [buffer] is the part of the array before [filled]. *)
Record Lines := mkLines { l_fd : list Read; buffer : list Z; start : nat; eof : bool; skipping : bool }.
Definition lines_open (fd : list Read) : Lines := mkLines fd [] 0 false false.

(** The loop of [fill] around [read]: [None] is the end of the file or an error. *)
Fixpoint fill_read (fd : list Read) (room : nat) : list Read * option (list Z) :=
  match fd with
  | [] => ([], None)
  | RIntr :: fd => fill_read fd room
  | RFail :: fd => (fd, None)
  | RData [] :: fd => (fd, None)
  | RData l :: fd => (put_back room l fd, Some (take room l))
  end.
(** [Lines::fill] *)
Definition fill (s : Lines) : Lines * bool :=
  let s := if (0 <? start s)%nat then mkLines (l_fd s) (drop (start s) (buffer s)) 0 (eof s) (skipping s) else s in
  if (length (buffer s) =? BUFFER)%nat then (s, false) else
  match fill_read (l_fd s) (BUFFER - length (buffer s)) with
  | (fd, None) => (mkLines fd (buffer s) (start s) true (skipping s), false)
  | (fd, Some l) => (mkLines fd (buffer s ++ l) (start s) (eof s) (skipping s), true)
  end.
(** [position(|&b| b == c)] *)
Fixpoint position (c : Z) (l : list Z) : option nat :=
  match l with [] => None | b :: l => if b =? c then Some O else S <$> position c l end.

(** [Lines::next], one unit of [fuel] per round of the loop; the outer [None] is the fuel running out. *)
Fixpoint next (fuel : nat) (s : Lines) : option (Lines * option (list Z)) :=
  match fuel with
  | O => None
  | S fuel =>
      match position NEWLINE (drop (start s) (buffer s)) with
      | Some offset =>
          let line := take offset (drop (start s) (buffer s)) in
          let s' := mkLines (l_fd s) (buffer s) (start s + offset + 1) (eof s) (skipping s) in
          if skipping s then next fuel (mkLines (l_fd s') (buffer s') (start s') (eof s') false) else Some (s', Some line)
      | None =>
          if eof s then
            if (start s =? length (buffer s))%nat || skipping s then Some (s, None)
            else Some (mkLines (l_fd s) (buffer s) (length (buffer s)) (eof s) (skipping s), Some (drop (start s) (buffer s)))
          else
            match fill s with
            | (s, true) => next fuel s
            | (s, false) =>
                if eof s then next fuel s
                else match fill (mkLines (l_fd s) [] 0 (eof s) true) with
                     | (s, true) => next fuel s
                     | (s, false) => Some (s, None)
                     end
            end
      end
  end.

(** Bytes that the file still holds, whatever the answers around them. *)
Fixpoint unread (fd : list Read) : nat :=
  match fd with [] => O | RData l :: fd => length l + unread fd | _ :: fd => unread fd end.
(** The rounds that [next] can take. *)
Definition lines_measure (s : Lines) : nat :=
  2 * unread (l_fd s) + (length (buffer s) - start s) + (if eof s then 0 else 1).
Definition next_line (s : Lines) : option (Lines * option (list Z)) := next (S (lines_measure s)) s.

(** [while let Some(text) = lines.next(&mut line)] with a body that may return; one unit of [rounds] per line. *)
Fixpoint scan {A} (rounds : nat) (body : list Z -> option A) (s : Lines) : option (option A) :=
  match rounds with
  | O => None
  | S rounds =>
      '(s', line) ← next_line s;
      match line with
      | None => Some None
      | Some text => match body text with Some a => Some (Some a) | None => scan rounds body s' end
      end
  end.
Definition scan_file {A} (body : list Z -> option A) (fd : list Read) : option (option A) :=
  scan (S (2 * unread fd + 1)) body (lines_open fd).

(** ** Numbers and words *)
(** [u8::is_ascii_whitespace], [u8::is_ascii_digit] *)
Definition is_ascii_whitespace (b : Z) : bool := (b =? 32) || (b =? 9) || (b =? 10) || (b =? 12) || (b =? 13).
Definition is_ascii_digit (b : Z) : bool := (48 <=? b) && (b <=? 57).

(** The longest prefix on which [p] holds, and what follows it. *)
Fixpoint take_while (p : Z -> bool) (l : list Z) : list Z :=
  match l with [] => [] | b :: l => if p b then b :: take_while p l else [] end.
Fixpoint drop_while (p : Z -> bool) (l : list Z) : list Z :=
  match l with [] => [] | b :: rest => if p b then drop_while p rest else l end.
(** [iter().rposition(p)] *)
Fixpoint rposition (p : Z -> bool) (l : list Z) : option nat :=
  match l with
  | [] => None
  | b :: l => match rposition p l with Some i => Some (S i) | None => if p b then Some O else None end
  end.
(** [iter().position(p)] *)
Fixpoint position_by (p : Z -> bool) (l : list Z) : option nat :=
  match l with [] => None | b :: l => if p b then Some O else S <$> position_by p l end.

Definition trim (l : list Z) : list Z :=
  let first := default (length l) (position_by (fun b => negb (is_ascii_whitespace b)) l) in
  let last := match rposition (fun b => negb (is_ascii_whitespace b)) l with Some i => S i | None => first end in
  take (Nat.max last first - first) (drop first l).

Definition checked_mul (max a b : Z) : option Z := if a * b <=? max then Some (a * b) else None.
(** The loop over the digits. *)
Fixpoint digits_value (value : Z) (ds : list Z) : option Z :=
  match ds with
  | [] => Some value
  | b :: ds => scaled ← checked_mul u64_max value 10; value ← checked_add u64_max scaled (b - 48); digits_value value ds
  end.
Definition parse_u64 (l : list Z) : option (Z * list Z) :=
  let l := trim l in
  let digits := length (take_while is_ascii_digit l) in
  if (digits =? 0)%nat then None else
  value ← digits_value 0 (take digits l); Some (value, drop digits l).
Definition multiplier (rest : list Z) : Z :=
  match rest with
  | b :: _ => if (b =? 107) || (b =? 75) then 1024 else if (b =? 109) || (b =? 77) then 2 ^ 20
              else if (b =? 103) || (b =? 71) then 2 ^ 30 else 1
  | [] => 1
  end.
Definition parse_size (l : list Z) : option Z :=
  '(value, rest) ← parse_u64 l; checked_mul u64_max value (multiplier rest).

(** [slice::split]: never empty. *)
Fixpoint split (p : Z -> bool) (l : list Z) : list (list Z) :=
  match l with
  | [] => [[]]
  | b :: l => if p b then [] :: split p l else match split p l with [] => [[b]] | w :: ws => (b :: w) :: ws end
  end.
(** [slice::splitn(n, _)] *)
Fixpoint splitn (n : nat) (c : Z) (l : list Z) : list (list Z) :=
  match n with
  | O => []
  | S O => [l]
  | S n => match position c l with Some i => take i l :: splitn n c (drop (S i) l) | None => [l] end
  end.
Definition fields (line : list Z) : list (list Z) := base.filter (fun f => f <> []) (split (fun b => b =? SPACE) line).
Definition starts_with (l prefix : list Z) : bool := bool_decide (length prefix <= length l)%nat && bool_decide (take (length prefix) l = prefix).
(** [windows(w.len()).position(|x| x == w)] *)
Fixpoint window_position (w l : list Z) : option nat :=
  match l with
  | [] => if decide (w = []) then Some O else None
  | _ :: rest => if decide (take (length w) l = w) then Some O else S <$> window_position w rest
  end.

(** ** Paths *)
Definition PATH : Z := 512.
(** [Path::set] and [Path::push]; a path is the slice [bytes[..length]], the byte after it is always zero. *)
Definition path_new : list Z := [].
Definition path_set (value : list Z) : option (list Z) := if PATH <=? lenZ value then None else Some value.
Definition path_push (path value : list Z) : option (list Z) := if PATH <=? lenZ path + lenZ value then None else Some (path ++ value).
Definition c_str (path : list Z) : list Z := path ++ [0].

(** ** The chunks are not visible *)
Lemma read_file_loop_spec fd : forall room filled,
  read_file_loop fd room filled =
    if decide (room <= length (content fd))%nat then Some (filled ++ take room (content fd))
    else if sound fd then Some (filled ++ content fd) else None.
Proof.
  induction fd as [| [| | [| b l]] fd IH]; intros [| room] filled; simpl content; simpl sound; cbn [read_file_loop];
    rewrite ?take_0, ?app_nil_r; simpl length; try (by rewrite decide_True by lia); try (by rewrite decide_False by lia); try apply IH.
  set (l' := b :: l). change (b :: l ++ content fd) with (l' ++ content fd). change (S (length (l ++ content fd))) with (length (l' ++ content fd)).
  change (S (length l)) with (length l').
  rewrite IH, length_app, take_app. destruct (decide (S room <= length l')%nat) as [Hl | Hl].
  - rewrite Nat.min_l by lia. rewrite Nat.sub_diag. rewrite !decide_True by lia.
    replace (S room - length l')%nat with O by lia. by rewrite take_0, !app_nil_r.
  - rewrite Nat.min_r by lia. rewrite (firstn_all l'), (take_ge l') by lia.
    destruct (decide (S room - length l' <= length (content fd))%nat);
      [rewrite decide_True by lia | rewrite decide_False by lia; destruct (sound fd)]; by rewrite ?app_assoc.
Qed.
Lemma read_file_spec open path capacity :
  read_file open path capacity = fd ← open path; if decide (capacity <= length (content fd))%nat then Some (take capacity (content fd))
                                                 else if sound fd then Some (content fd) else None.
Proof. unfold read_file. destruct (open path) as [fd |]; [apply read_file_loop_spec | done]. Qed.

Lemma position_app_None c a b : position c a = None -> position c (a ++ b) = (fun i => (length a + i)%nat) <$> position c b.
Proof.
  induction a as [| x a IH]; simpl; [by destruct (position c b) |].
  destruct (x =? c); [done |]. destruct (position c a); [done |]. intros _. rewrite IH by done. by destruct (position c b).
Qed.
Lemma position_app_Some c a b i : position c a = Some i -> position c (a ++ b) = Some i.
Proof.
  revert i. induction a as [| x a IH]; intros i; simpl; [done |]. destruct (x =? c); [done |].
  destruct (position c a); [| done]. intros [= <-]. by rewrite (IH _ eq_refl).
Qed.
Lemma position_lt c l i : position c l = Some i -> (i < length l)%nat.
Proof.
  revert i. induction l as [| x l IH]; intros i; simpl; [done |]. destruct (x =? c); [intros [= <-]; lia |].
  destruct (position c l); [| done]. intros [= <-]. specialize (IH _ eq_refl). lia.
Qed.

(** The lines of a text: what [split] gives, without the empty word after a final newline. *)
Definition file_lines (t : list Z) : list (list Z) :=
  let ws := split (fun b => b =? NEWLINE) t in if decide (last ws = Some []) then removelast ws else ws.
Lemma split_cons p l : exists w ws, split p l = w :: ws.
Proof. destruct l as [| b l]; simpl; [eauto |]. destruct (p b); [eauto |]. destruct (split p l); eauto. Qed.
Lemma split_position c t :
  split (fun b => b =? c) t = match position c t with Some i => take i t :: split (fun b => b =? c) (drop (S i) t) | None => [t] end.
Proof.
  induction t as [| b t IH]; [done |]. cbn [split position]. destruct (b =? c); [done |].
  rewrite IH. destruct (position c t); done.
Qed.
Lemma file_lines_position t :
  file_lines t = match position NEWLINE t with
                 | Some i => take i t :: file_lines (drop (S i) t)
                 | None => if decide (t = []) then [] else [t]
                 end.
Proof.
  unfold file_lines. rewrite split_position. destruct (position NEWLINE t) as [i |].
  - destruct (split_cons (fun b => b =? NEWLINE) (drop (S i) t)) as (w & ws & ->).
    change (last (take i t :: w :: ws)) with (last (w :: ws)). by destruct (decide (last (w :: ws) = Some [])).
  - simpl. destruct t; done.
Qed.
Lemma file_lines_nil : file_lines [] = [].
Proof. done. Qed.

Definition short (w : list Z) : Prop := (length w < BUFFER)%nat.
#[export] Instance short_dec w : Decision (short w).
Proof. unfold short. apply _. Defined.
Definition after_newline (t : list Z) : list Z := match position NEWLINE t with Some i => drop (S i) t | None => [] end.
(** What a state of the reader will still deliver. *)
Definition pending (s : Lines) : list Z := drop (start s) (buffer s) ++ (if eof s then [] else content (l_fd s)).
Definition expected (s : Lines) : list (list Z) :=
  filter short (file_lines (if skipping s then after_newline (pending s) else pending s)).
Record lines_ok (s : Lines) : Prop := { ok_start : (start s <= length (buffer s))%nat; ok_buffer : (length (buffer s) <= BUFFER)%nat;
  ok_eof : eof s = true -> (length (buffer s) < BUFFER)%nat }.

Lemma file_lines_long b c : position NEWLINE b = None -> (BUFFER <= length b)%nat ->
  filter short (file_lines (b ++ c)) = filter short (file_lines (after_newline c)).
Proof.
  intros Hb Hl. rewrite file_lines_position, position_app_None by done. unfold after_newline.
  assert (forall d, ~ short (b ++ d)) as Hs by (intros d Hd; unfold short in Hd; rewrite length_app in Hd; lia).
  destruct (position NEWLINE c) as [i |]; simpl.
  - rewrite filter_cons_False by (rewrite take_app_add; apply Hs). f_equal. f_equal.
    replace (S (length b + i)) with (length b + S i)%nat by lia. by rewrite drop_app_add.
  - rewrite decide_False by (destruct b; [simpl in Hl; unfold BUFFER in Hl; lia | done]). by rewrite filter_cons_False by apply Hs.
Qed.

Lemma fill_read_spec fd room : (0 < room)%nat ->
  match fill_read fd room with
  | (fd', Some l) => l <> [] /\ (length l <= room)%nat /\ content fd = l ++ content fd' /\ unread fd = (length l + unread fd')%nat
  | (fd', None) => content fd = [] /\ (unread fd' <= unread fd)%nat
  end.
Proof.
  intros Hr. induction fd as [| [| | [| b l]] fd IH]; cbn [fill_read unread content]; try done; try (split; [done | simpl; lia]).
  unfold put_back. destruct room as [| room]; [lia |].
  destruct (S room <? length (b :: l))%nat eqn:E; [apply Nat.ltb_lt in E | apply Nat.ltb_ge in E].
  - rewrite length_take. split; [done |]. split; [lia |]. simpl in E. destruct (drop (S room) (b :: l)) as [| x r] eqn:Er.
    { apply (f_equal length) in Er. rewrite length_drop in Er. simpl in Er. lia. }
    cbn [content unread]. rewrite app_assoc, <- Er, take_drop, length_drop. simpl. split; [done | lia].
  - rewrite firstn_all2 by lia. done.
Qed.

(** [fill] keeps what is pending; it grows the buffer, or meets the end, or finds the buffer full. *)
Lemma lines_fill_spec s : lines_ok s -> eof s = false ->
  lines_ok (fill s).1 /\ pending (fill s).1 = pending s /\ skipping (fill s).1 = skipping s /\ start (fill s).1 = O /\
  match fill s with
  | (s', true) => eof s' = false /\ (lines_measure s' < lines_measure s)%nat
  | (s', false) => if eof s' then (lines_measure s' < lines_measure s)%nat
                   else buffer s' = drop (start s) (buffer s) /\ length (buffer s') = BUFFER /\ l_fd s' = l_fd s
  end.
Proof.
  intros [Hs Hb Hz] He. unfold fill.
  set (s1 := if (0 <? start s)%nat then _ else s).
  assert (buffer s1 = drop (start s) (buffer s) /\ start s1 = O /\ l_fd s1 = l_fd s /\ eof s1 = false /\ skipping s1 = skipping s) as (H1 & H2 & H3 & H4 & H5).
  { unfold s1. destruct (Nat.ltb_spec 0 (start s)); simpl; [done |]. split_and!; try done; [| lia]. by replace (start s) with O by lia. }
  unfold lines_measure, pending. rewrite He. clearbody s1. destruct s1 as [fd buf st e sk]. simpl in *. subst.
  assert (length (drop (start s) (buffer s)) = length (buffer s) - start s)%nat as Hd by apply length_drop.
  destruct (length _ =? BUFFER)%nat eqn:E; [apply Nat.eqb_eq in E | apply Nat.eqb_neq in E].
  - simpl. split; [split; simpl; [lia | lia | done] |]. done.
  - pose proof (fill_read_spec (l_fd s) (BUFFER - length (drop (start s) (buffer s))) ltac:(lia)) as Hf.
    destruct (fill_read _ _) as [fd' [l |]]; simpl.
    + destruct Hf as (Hl & Hr & -> & Hu). assert (0 < length l)%nat by (destruct l; [done | simpl; lia]).
      rewrite !length_app. split; [split; simpl; rewrite ?length_app; [lia | lia | done] |]. split; [by rewrite app_assoc |]. do 3 (split; [done |]). lia.
    + destruct Hf as (-> & Hu). split; [split; simpl; lia |]. split; [by rewrite !app_nil_r |]. do 2 (split; [done |]). lia.
Qed.

(** The first answer that is not [None]. *)
Fixpoint first_some {A B} (f : A -> option B) (l : list A) : option B :=
  match l with [] => None | a :: l => match f a with Some b => Some b | None => first_some f l end end.

Lemma expected_newline s i (skip := mkLines (l_fd s) (buffer s) (start s + i + 1) (eof s) false) :
  lines_ok s -> position NEWLINE (drop (start s) (buffer s)) = Some i ->
  lines_ok skip /\ (lines_measure skip < lines_measure s)%nat /\
  expected s = if skipping s then expected skip else take i (drop (start s) (buffer s)) :: expected skip.
Proof.
  intros [Hs Hb Hz] Hp. pose proof (position_lt _ _ _ Hp) as Hi. rewrite length_drop in Hi.
  split; [split; simpl; [lia | lia | done] |]. split; [unfold lines_measure; simpl; lia |].
  assert (drop (S i) (pending s) = pending skip) as Hd.
  { unfold pending, skip. simpl. rewrite drop_app_le by (rewrite length_drop; lia). rewrite drop_drop. do 2 f_equal. lia. }
  unfold expected. change (skipping skip) with false. cbv iota. rewrite <- Hd.
  assert (position NEWLINE (pending s) = Some i) as Hq by by apply position_app_Some.
  unfold after_newline. rewrite Hq. destruct (skipping s); [done |].
  rewrite file_lines_position, Hq. rewrite filter_cons_True.
  - f_equal. unfold pending. by rewrite take_app_le by (rewrite length_drop; lia).
  - unfold short. rewrite length_take. unfold pending. rewrite length_app, length_drop. lia.
Qed.
Lemma expected_discard s : lines_ok s -> eof s = false -> start s = O -> length (buffer s) = BUFFER -> position NEWLINE (buffer s) = None ->
  expected s = expected (mkLines (l_fd s) [] 0 false true).
Proof.
  intros Hok He H0 Hl Hp. unfold expected, pending. rewrite He, H0, drop_0. cbn [start buffer eof l_fd skipping drop app].
  destruct (skipping s); [| apply (file_lines_long (buffer s) (content (l_fd s))); [done | by rewrite Hl]].
  unfold after_newline at 1. rewrite position_app_None by done. unfold after_newline.
  destruct (position NEWLINE (content (l_fd s))) as [i |]; [| done].
  cbn [fmap option_fmap option_map]. replace (S (length (buffer s) + i)) with (length (buffer s) + S i)%nat by lia. by rewrite drop_app_add.
Qed.

Lemma fill_empty fd skip s : fill (mkLines fd [] 0 false skip) = (s, false) -> content fd = [].
Proof.
  unfold fill. cbn [start buffer l_fd eof skipping]. change (0 <? 0)%nat with false. cbv iota. cbn [start buffer l_fd eof skipping].
  change (length (@nil Z) =? BUFFER)%nat with false. cbv iota. pose proof (fill_read_spec fd (BUFFER - length (@nil Z)) ltac:(simpl; unfold BUFFER; lia)) as Hr.
  destruct (fill_read fd _) as [fd' [l |]]; [done | by destruct Hr].
Qed.

Lemma next_spec fuel : forall s, lines_ok s -> (lines_measure s < fuel)%nat -> exists s' o, next fuel s = Some (s', o) /\ lines_ok s' /\
  match o with
  | Some line => expected s = line :: expected s' /\ (lines_measure s' < lines_measure s)%nat
  | None => expected s = []
  end.
Proof.
  induction fuel as [| fuel IH]; intros s Hok Hf; [lia |]. cbn [next].
  assert (forall s1, lines_ok s1 -> expected s1 = expected s -> (lines_measure s1 < lines_measure s)%nat -> exists s' o,
    next fuel s1 = Some (s', o) /\ lines_ok s' /\
    match o with Some line => expected s = line :: expected s' /\ (lines_measure s' < lines_measure s)%nat | None => expected s = [] end) as Hgo.
  { intros s1 H1 He Hm. destruct (IH s1 H1 ltac:(lia)) as (s' & o & Hn & H' & Ho). exists s', o. split; [done |]. split; [done |].
    rewrite He in Ho. destruct o; [| done]. destruct Ho as [-> ?]. split; [done | lia]. }
  destruct (position NEWLINE (drop (start s) (buffer s))) as [i |] eqn:Hp.
  { destruct (expected_newline s i Hok Hp) as (H1 & H2 & H3). simpl. destruct (skipping s) eqn:Hk; simpl in *.
    - by apply Hgo.
    - eexists _, (Some _). split; [done |]. done. }
  assert (eof s = true -> pending s = drop (start s) (buffer s)) as Hpe by (intros He; unfold pending; rewrite He; apply app_nil_r).
  destruct (eof s) eqn:He.
  { specialize (Hpe eq_refl).
    assert (expected s = if skipping s then [] else filter short (if decide (drop (start s) (buffer s) = []) then [] else [drop (start s) (buffer s)])) as Hx.
    { unfold expected, after_newline. rewrite Hpe, Hp. destruct (skipping s); [done |]. by rewrite file_lines_position, Hp. }
    destruct Hok as [Hs Hb Hz]. specialize (Hz He). assert (length (drop (start s) (buffer s)) = length (buffer s) - start s)%nat as Hl by apply length_drop.
    destruct (Nat.eqb_spec (start s) (length (buffer s))) as [E | E]; simpl.
    - eexists _, None. split; [done |]. split; [done |]. rewrite Hx. destruct (skipping s); [done |].
      rewrite decide_True by (apply nil_length_inv; lia). done.
    - rewrite Hx. destruct (skipping s) eqn:Hk; [by eexists _, None |]. eexists _, (Some _). split; [done |]. split; [split; simpl; [lia | lia | done] |].
      rewrite decide_False by (intros Hn; apply (f_equal length) in Hn; simpl in Hn; lia).
      rewrite filter_cons_True by (unfold short; lia). unfold expected, pending, lines_measure. simpl. rewrite He, drop_all. simpl. split; [done | lia]. }
  pose proof (lines_fill_spec s Hok He) as (H1 & H2 & H3 & H4 & H5).
  assert (expected (fill s).1 = expected s) as Hx by (unfold expected; by rewrite H2, H3).
  destruct (fill s) as [s1 [|]]; simpl in *; [apply Hgo; [done | done | apply H5] |].
  destruct (eof s1) eqn:He1; [by apply Hgo |].
  destruct H5 as (Hb & Hl & Hfd).
  assert (lines_ok (mkLines (l_fd s1) [] 0 false true)) as H6 by (split; simpl; [lia | lia | done]).
  pose proof (lines_fill_spec _ H6 eq_refl) as (H7 & H8 & H9 & H10 & H11).
  rewrite (expected_discard s1) in Hx by (done || by rewrite Hb).
  assert (expected (fill (mkLines (l_fd s1) [] 0 false true)).1 = expected s) as Hy by (unfold expected; rewrite H8, H9; by apply Hx).
  assert (lines_measure (mkLines (l_fd s1) [] 0 false true) < lines_measure s)%nat as Hm.
  { unfold lines_measure. simpl. rewrite He, Hfd. apply (f_equal length) in Hb. rewrite length_drop, Hl in Hb. unfold BUFFER in Hb. lia. }
  destruct (fill _) as [s2 [|]] eqn:E2; simpl in *; [apply Hgo; [done.. | lia] |].
  eexists _, None. split; [done |]. split; [done |]. rewrite <- Hx. destruct (eof s2) eqn:He2; [| destruct H11 as (Hb2 & Hl2 & _); rewrite Hb2 in Hl2; discriminate].
  unfold expected, pending. simpl. by rewrite (fill_empty _ _ _ E2).
Qed.

Lemma scan_spec {A} (body : list Z -> option A) rounds : forall s, lines_ok s -> (lines_measure s < rounds)%nat ->
  scan rounds body s = Some (first_some body (expected s)).
Proof.
  induction rounds as [| rounds IH]; intros s Hok Hm; [lia |]. cbn [scan]. unfold next_line.
  destruct (next_spec (S (lines_measure s)) s Hok ltac:(lia)) as (s' & o & -> & Hok' & Ho). simpl.
  destruct o as [line |]; [| by rewrite Ho]. destruct Ho as [-> Hlt]. simpl. destruct (body line); [done |]. apply IH; [done | lia].
Qed.
(** The lines that a file delivers: those of its contents that are shorter than the buffer. *)
Definition lines_of (fd : list Read) : list (list Z) := filter short (file_lines (content fd)).
Lemma scan_file_spec {A} (body : list Z -> option A) fd : scan_file body fd = Some (first_some body (lines_of fd)).
Proof.
  unfold scan_file. rewrite scan_spec; [done | split; simpl; [lia | lia | done] |]. unfold lines_measure. simpl. lia.
Qed.

(** ** Words and numbers *)
Definition no_newline (l : list Z) : bool := match position NEWLINE l with None => true | Some _ => false end.
Lemma file_lines_lines ls tail : forallb no_newline ls = true -> no_newline tail = true ->
  file_lines (concat ((fun l => l ++ [NEWLINE]) <$> ls) ++ tail) = ls ++ (if decide (tail = []) then [] else [tail]).
Proof.
  intros Hls Ht. induction ls as [| l ls IH]; simpl in *.
  - rewrite file_lines_position. unfold no_newline in Ht. by destruct (position NEWLINE tail).
  - apply andb_true_iff in Hls as [Hl Hls]. rewrite file_lines_position, <- !app_assoc.
    unfold no_newline in Hl. destruct (position NEWLINE l) eqn:E; [done |]. rewrite position_app_None by done. simpl.
    rewrite Nat.add_0_r, take_app_length. f_equal. replace (S (length l)) with (length l + 1)%nat by lia. rewrite drop_app_add. simpl. auto.
Qed.

Definition trim_end (l : list Z) : list Z :=
  match rposition (fun b => negb (is_ascii_whitespace b)) l with Some i => take (S i) l | None => [] end.
Lemma trim_spec l : trim l = trim_end (drop_while is_ascii_whitespace l).
Proof.
  induction l as [| b l IH]; [done |]. cbn [drop_while]. destruct (is_ascii_whitespace b) eqn:Hb.
  - rewrite <- IH. unfold trim. cbn [position_by rposition]. rewrite Hb. simpl negb. cbv iota.
    destruct (position_by _ l) as [i |] eqn:Hi; destruct (rposition _ l) as [j |] eqn:Hj; simpl; f_equal; lia.
  - unfold trim, trim_end. cbn [position_by rposition]. rewrite Hb. simpl negb. cbv iota.
    destruct (rposition _ l) as [j |]; simpl; by rewrite ?Nat.max_0_r, ?Nat.sub_0_r.
Qed.
Lemma rposition_app p a b : rposition p (a ++ b) = match rposition p b with Some i => Some (length a + i)%nat | None => rposition p a end.
Proof. induction a as [| x a IH]; simpl; [by destruct (rposition p b) |]. rewrite IH. by destruct (rposition p b). Qed.
Lemma rposition_all p l : forallb p l = true -> l <> [] -> rposition p l = Some (length l - 1)%nat.
Proof.
  intros Hp Hl. induction l as [| x l IH]; [done |]. simpl in *. apply andb_true_iff in Hp as [Hx Hp].
  destruct l as [| y l]; [by rewrite Hx |]. rewrite (IH Hp) by done. f_equal. simpl. lia.
Qed.
Lemma trim_end_app a b : forallb (fun b => negb (is_ascii_whitespace b)) a = true -> a <> [] -> trim_end (a ++ b) = a ++ trim_end b.
Proof.
  intros Ha Hn. unfold trim_end. rewrite rposition_app. destruct (rposition _ b) as [i |] eqn:E.
  - replace (S (length a + i)) with (length a + S i)%nat by lia. by rewrite take_app_add.
  - rewrite rposition_all by done. destruct a as [| x a]; [done |]. simpl length. replace (S (S (length a) - 1)) with (length (x :: a)) by (simpl; lia).
    by rewrite take_app_length, app_nil_r.
Qed.
Lemma drop_while_app p a b : forallb p a = true -> drop_while p (a ++ b) = drop_while p b.
Proof. induction a as [| x a IH]; simpl; [done |]. intros [Hx Ha]%andb_true_iff. by rewrite Hx, IH. Qed.
Lemma take_while_app p a b : forallb p a = true -> match b with x :: _ => p x = false | [] => True end -> take_while p (a ++ b) = a.
Proof.
  intros Ha Hb. induction a as [| x a IH]; simpl in *; [destruct b; simpl; [done | by rewrite Hb] |].
  apply andb_true_iff in Ha as [Hx Ha]. by rewrite Hx, IH.
Qed.
Lemma forallb_impl {A} (p q : A -> bool) l : (forall x, p x = true -> q x = true) -> forallb p l = true -> forallb q l = true.
Proof. intros H. induction l as [| x l IH]; simpl; [done |]. intros [? ?]%andb_true_iff. by rewrite H, IH. Qed.
Lemma digit_not_space b : is_ascii_digit b = true -> is_ascii_whitespace b = false.
Proof. unfold is_ascii_digit, is_ascii_whitespace. lia. Qed.

(** The number that digits spell. *)
Definition dec_value (v : Z) (ds : list Z) : Z := foldl (fun n d => 10 * n + (d - 48)) v ds.
Lemma dec_value_ge ds v : 0 <= v -> forallb is_ascii_digit ds = true -> v <= dec_value v ds.
Proof.
  revert v. induction ds as [| d ds IH]; intros v Hv; simpl; [lia |]. intros [Hd Hds]%andb_true_iff.
  unfold is_ascii_digit in Hd. specialize (IH (10 * v + (d - 48)) ltac:(lia) Hds). lia.
Qed.
Lemma digits_value_spec ds v : 0 <= v <= u64_max -> forallb is_ascii_digit ds = true ->
  digits_value v ds = if dec_value v ds <=? u64_max then Some (dec_value v ds) else None.
Proof.
  revert v. induction ds as [| d ds IH]; intros v Hv; [intros _; simpl; destruct (Z.leb_spec v u64_max); [done | lia] |].
  cbn [digits_value forallb]. intros [Hd Hds]%andb_true_iff. unfold is_ascii_digit in Hd. unfold checked_mul, checked_add.
  change (dec_value v (d :: ds)) with (dec_value (10 * v + (d - 48)) ds). pose proof (dec_value_ge ds (10 * v + (d - 48)) ltac:(lia) Hds).
  destruct (Z.leb_spec (v * 10) u64_max); simpl; [| destruct (Z.leb_spec (dec_value (10 * v + (d - 48)) ds) u64_max); [lia | done]].
  rewrite (Z.mul_comm v 10) in *. destruct (Z.leb_spec (10 * v + (d - 48)) u64_max); simpl;
    [apply IH; [lia | done] | destruct (Z.leb_spec (dec_value (10 * v + (d - 48)) ds) u64_max); [lia | done]].
Qed.
Lemma trim_end_prefix l : exists k, trim_end l = take k l.
Proof. unfold trim_end. destruct (rposition _ l); [eauto | by exists O]. Qed.
Lemma parse_u64_spec pre ds post : forallb is_ascii_whitespace pre = true -> forallb is_ascii_digit ds = true -> ds <> [] ->
  match post with x :: _ => is_ascii_digit x = false | [] => True end ->
  parse_u64 (pre ++ ds ++ post) = if dec_value 0 ds <=? u64_max then Some (dec_value 0 ds, trim_end post) else None.
Proof.
  intros Hpre Hds Hn Hpost. unfold parse_u64. rewrite trim_spec, drop_while_app by done.
  assert (drop_while is_ascii_whitespace (ds ++ post) = ds ++ post) as ->.
  { destruct ds as [| d ds]; [done |]. simpl in *. apply andb_true_iff in Hds as [Hd _]. by rewrite digit_not_space. }
  rewrite trim_end_app; [| apply (forallb_impl is_ascii_digit); [intros x Hx; by rewrite digit_not_space | done] | done].
  assert (take_while is_ascii_digit (ds ++ trim_end post) = ds) as ->.
  { apply take_while_app; [done |]. destruct (trim_end_prefix post) as [k ->]. by destruct post, k. }
  destruct ds as [| d ds]; [done |]. set (ds' := d :: ds) in *. change (length ds' =? 0)%nat with false. cbv iota.
  rewrite take_app_length, drop_app_length, digits_value_spec by (unfold u64_max; (lia || done)).
  by destruct (dec_value 0 ds' <=? u64_max).
Qed.
Lemma multiplier_trim_end post : multiplier (trim_end post) = multiplier post.
Proof.
  destruct post as [| x post]; [done |]. destruct (is_ascii_whitespace x) eqn:Hx.
  - transitivity 1; [| unfold is_ascii_whitespace, multiplier in *; repeat case_match; (lia || done)].
    destruct (trim_end_prefix (x :: post)) as [[| k] ->]; simpl; [done |]. unfold is_ascii_whitespace in Hx. repeat case_match; (lia || done).
  - change (x :: post) with ([x] ++ post). rewrite trim_end_app; [done | simpl; by rewrite Hx | done].
Qed.
Lemma multiplier_pos l : 1 <= multiplier l.
Proof. unfold multiplier. repeat case_match; lia. Qed.
Lemma parse_size_spec pre ds post : forallb is_ascii_whitespace pre = true -> forallb is_ascii_digit ds = true -> ds <> [] ->
  match post with x :: _ => is_ascii_digit x = false | [] => True end ->
  parse_size (pre ++ ds ++ post) = checked_mul u64_max (dec_value 0 ds) (multiplier post).
Proof.
  intros Hpre Hds Hn Hpost. unfold parse_size. rewrite parse_u64_spec by done. pose proof (multiplier_pos post).
  destruct (Z.leb_spec (dec_value 0 ds) u64_max); simpl; [by rewrite multiplier_trim_end |].
  unfold checked_mul. destruct (Z.leb_spec (dec_value 0 ds * multiplier post) u64_max); [| done].
  pose proof (dec_value_ge ds 0 ltac:(lia) Hds). nia.
Qed.

(** [parse_size] and [parse_u64] never leave [u64]. *)
Lemma digits_value_range ds v n : 0 <= v <= u64_max -> forallb is_ascii_digit ds = true -> digits_value v ds = Some n -> 0 <= n <= u64_max.
Proof.
  intros Hv Hds. rewrite digits_value_spec by done. destruct (Z.leb_spec (dec_value v ds) u64_max); [| done]. intros [= <-].
  pose proof (dec_value_ge ds v ltac:(lia) Hds). lia.
Qed.
Lemma take_while_all p l : forallb p (take_while p l) = true.
Proof. induction l as [| x l IH]; simpl; [done |]. destruct (p x) eqn:E; [| done]. simpl. by rewrite E. Qed.
Lemma take_take_while p l : take (length (take_while p l)) l = take_while p l.
Proof. induction l as [| x l IH]; simpl; [done |]. destruct (p x); [| done]. simpl. by rewrite IH. Qed.
Lemma parse_u64_range l n rest : parse_u64 l = Some (n, rest) -> 0 <= n <= u64_max.
Proof.
  unfold parse_u64. destruct (_ =? 0)%nat; [done |]. rewrite take_take_while.
  destruct (digits_value 0 (take_while is_ascii_digit (trim l))) as [v |] eqn:E; simpl; [| done]. intros [= <- _].
  eapply digits_value_range; [| | exact E]; [unfold u64_max; lia | apply take_while_all].
Qed.
Lemma parse_size_range l n : parse_size l = Some n -> 0 <= n <= u64_max.
Proof.
  unfold parse_size. destruct (parse_u64 l) as [[v rest] |] eqn:E; simpl; [| done]. unfold checked_mul.
  destruct (Z.leb_spec (v * multiplier rest) u64_max); [| done]. intros [= <-]. apply parse_u64_range in E. pose proof (multiplier_pos rest). nia.
Qed.
Lemma starts_with_app prefix rest : starts_with (prefix ++ rest) prefix = true.
Proof. unfold starts_with. rewrite take_app_length, length_app. rewrite !bool_decide_eq_true_2; [done | done | lia]. Qed.
Lemma starts_with_spec l prefix : starts_with l prefix = true <-> exists rest, l = prefix ++ rest.
Proof.
  split; [| intros [rest ->]; apply starts_with_app]. unfold starts_with. intros [_ H%bool_decide_eq_true]%andb_true_iff.
  exists (drop (length prefix) l). by rewrite <- H at 1; rewrite take_drop.
Qed.

(** The lines that a loop over [Lines] sees.  However the kernel cuts a file into chunks and interrupts the reading, the
    loop body gets the lines of the file in order, an unterminated last one included, without their terminators; a line
    of 2048 bytes or more is left out, whole.  The loop ends within its fuel. *)
Theorem lines_exact {A} (body : list Z -> option A) (fd : list Read) (ls : list (list Z)) (tail : list Z) :
  content fd = concat ((fun l => l ++ [NEWLINE]) <$> ls) ++ tail -> forallb no_newline ls = true -> no_newline tail = true ->
  scan_file body fd = Some (first_some body (filter short (ls ++ if decide (tail = []) then [] else [tail]))).
Proof. intros Hc Hl Ht. rewrite scan_file_spec. unfold lines_of. by rewrite Hc, file_lines_lines. Qed.
Lemma lines_exact_witness :
  scan_file (fun l => if starts_with l (bytes "cd") then Some l else None)
    [RData (bytes "a" ++ replicate 3000 98); RIntr; RData ([NEWLINE; 99; 100; NEWLINE] ++ bytes "e")] = Some (Some (bytes "cd")).
Proof.
  rewrite (lines_exact _ _ [bytes "a" ++ replicate 3000 98; bytes "cd"] (bytes "e")); vm_compute; reflexivity.
Defined.
