(* ===== verification/LinuxPlatform.v ===== *)
(** * LinuxPlatform.v: machine facts of the Linux port

    [src/crates/dotnet-pal-linux/src/linux_platform.rs]: where the process sits in the cgroup hierarchy ([hierarchy_mount],
    [cgroup_relative], [cgroup_directory], [discover_cgroups]), the limits read there, and the [Topology] provider.

    [Kernel] holds what the C library and the kernel answer; the files come from [k_open], which gives an open file (see
    [LinuxText.v]) for a NUL-terminated path.  Machine arithmetic that the source writes with plain operators wraps, as
    in a release build. *)
From S2P Require Import Prelude Port Counter Boundary Tree Front Group Console Machine LinuxText.
Local Open Scope Z_scope.
Local Open Scope pal_scope.

Inductive Sysconf := ScPageSize | ScPhysPages | ScAvPhysPages | ScNprocConf | ScNprocOnln | ScCache (level : Z).
Record Kernel := mkKernel {
  k_open : list Z -> option (list Read);
  k_statfs : option Z;
  k_sysconf : Sysconf -> Z;
  k_getaffinity : option (list Z);
  k_setaffinity : list Z -> bool;
  k_getcpu : Z;
  k_getrlimit : option Z;
  k_sysinfo : option (Z * Z * Z);
  k_aarch64 : bool;
  k_getauxval : Z * Z;
}.
Definition RLIM_INFINITY : Z := u64_max.
Definition CGROUP2_MAGIC : Z := 1667723888.
(** [as u64], [as u32], and the plain operators on them. *)
Definition as_u64 (n : Z) : Z := n mod 2 ^ 64.
Definition as_u32 (n : Z) : Z := n mod 2 ^ 32.
Definition wrapping_mul (a b : Z) : Z := as_u64 (a * b).
Definition u32_try_from (n : Z) : Result Z := if (0 <=? n) && (n <=? u32_max) then Ok n else Err EOs.

(** [while let Some(text) = lines.next(..)] over an open file; [scan_file] always has the fuel it needs. *)
Definition scan_lines {A} (fd : list Read) (body : list Z -> option A) : option A := default None (scan_file body fd).

(** ** The cgroups of the process *)
Record CGroups := mkCGroups { version : Z; memory : list Z; memory_mount : list Z; cpu : list Z }.
Definition no_groups : CGroups := mkCGroups 0 path_new path_new path_new.

Section Kernel.
Context (k : Kernel).
Definition page : Z := let v := k_sysconf k ScPageSize in if 0 <? v then v else 4096.
Definition cgroup_version : Z :=
  match k_statfs k with None => 0 | Some f_type => if as_u64 f_type =? CGROUP2_MAGIC then 2 else 1 end.

(** The body of the loop in [hierarchy_mount]: mount point and root. *)
Definition mount_line (version : Z) (controller text : list Z) : option (list Z * list Z) :=
  separator ← window_position (bytes " - ") text;
  match fields (drop (separator + 3) text) with
  | fs_type :: _source :: options :: _ =>
      let matches := if version =? 2 then bool_decide (fs_type = bytes "cgroup2")
                     else bool_decide (fs_type = bytes "cgroup") && existsb (fun o => bool_decide (o = controller)) (split (fun b => b =? COMMA) options) in
      if negb matches then None else
      let head := fields (take separator text) in
      mount_root ← head !! 3%nat; mount_point ← head !! 4%nat;
      root ← path_set mount_root; mount ← path_set mount_point; Some (mount, root)
  | _ => None
  end.
Definition hierarchy_mount (version : Z) (controller : list Z) : option (list Z * list Z) :=
  fd ← k_open k (bytes "/proc/self/mountinfo" ++ [0]); scan_lines fd (mount_line version controller).

(** The body of the loop in [cgroup_relative]; the inner [None] is a path that does not fit. *)
Definition relative_line (version : Z) (controller text : list Z) : option (option (list Z)) :=
  match splitn 3 COLON text with
  | [id; controllers; path] =>
      let matches := if version =? 2 then bool_decide (id = bytes "0") && bool_decide (controllers = [])
                     else existsb (fun c => bool_decide (c = controller)) (split (fun b => b =? COMMA) controllers) in
      if matches then Some (path_set path) else None
  | _ => None
  end.
Definition cgroup_relative (version : Z) (controller : list Z) : option (list Z) :=
  fd ← k_open k (bytes "/proc/self/cgroup" ++ [0]); found ← scan_lines fd (relative_line version controller); found.
(** The directory, and the mount it was found under. *)
Definition cgroup_directory (version : Z) (controller : list Z) : option (list Z * list Z) :=
  '(mount, root) ← hierarchy_mount version controller;
  relative ← cgroup_relative version controller;
  let root_len := if (length root =? 1)%nat || negb (starts_with relative root) then O else length root in
  out ← path_set mount; out ← path_push out (drop root_len relative); Some (out, mount).
Definition discover_cgroups : CGroups :=
  let version := cgroup_version in
  if version =? 0 then no_groups else
  let '(memory, mount) := default (path_new, path_new) (cgroup_directory version (bytes "memory")) in
  let '(cpu, _) := default (path_new, path_new) (cgroup_directory version (bytes "cpu")) in
  mkCGroups version memory mount cpu.

(** ** Files of a cgroup *)
Definition file_size_value (directory name : list Z) : option Z :=
  path ← path_set directory; path ← path_push path name; text ← read_file (k_open k) (c_str path) 128; parse_size text.
Definition stat_field (directory field : list Z) : option Z :=
  path ← path_set directory; path ← path_push path (bytes "/memory.stat"); fd ← k_open k (c_str path);
  found ← scan_lines fd (fun text => if starts_with text field then Some (fst <$> parse_u64 (drop (length field) text)) else None);
  found.

(** [best.map_or(limit, |b| b.min(limit))] *)
Definition tighter (best : option Z) (limit : Z) : Z := match best with None => limit | Some b => Z.min b limit end.
(** The loop that walks up to the mount; [visit] is what it does in a directory.  A round shortens the directory. *)
Fixpoint walk_up {A} (fuel : nat) (visit : list Z -> A -> A) (mount directory : list Z) (acc : A) : option A :=
  match fuel with
  | O => None
  | S fuel =>
      let acc := visit directory acc in
      if (length directory <=? length mount)%nat then Some acc else
      match rposition (fun b => b =? SLASH) directory with
      | None => Some acc
      | Some slash => if (slash <? length mount)%nat then Some acc else walk_up fuel visit mount (take slash directory) acc
      end
  end.
Definition visit_limit (name directory : list Z) (best : option Z) : option Z :=
  match file_size_value directory name with Some limit => Some (tighter best limit) | None => best end.
Definition cgroup_memory_limit (groups : CGroups) : option Z :=
  if (length (memory groups) =? 0)%nat then None else
  if version groups =? 1 then
    if negb (default 0 (file_size_value (memory groups) (bytes "/memory.use_hierarchy")) =? 0) then
      stat_field (memory groups) (bytes "hierarchical_memory_limit ")
    else file_size_value (memory groups) (bytes "/memory.limit_in_bytes")
  else if version groups =? 2 then
    default None (walk_up (S (length (memory groups))) (visit_limit (bytes "/memory.max")) (memory_mount groups) (default [] (path_set (memory groups))) None)
  else None.
(** One round of [cgroup_swap]: the tightest limit, and the first usage. *)
Definition visit_swap (directory : list Z) (acc : option Z * option Z) : option Z * option Z :=
  let limit := visit_limit (bytes "/memory.swap.max") directory acc.1 in
  let used := match acc.2 with None => file_size_value directory (bytes "/memory.swap.current") | Some u => Some u end in
  (limit, used).
Definition cgroup_swap (groups : CGroups) : option (Z * Z) :=
  if negb (version groups =? 2) || (length (memory groups) =? 0)%nat then None else
  '(limit, used) ← walk_up (S (length (memory groups))) visit_swap (memory_mount groups) (default [] (path_set (memory groups))) (None, None);
  (fun limit => (limit, default 0 used)) <$> limit.
Definition cgroup_memory_usage (groups : CGroups) : option Z :=
  if (length (memory groups) =? 0)%nat then None else
  '(usage_file, inactive) ← (if version groups =? 1 then Some (bytes "/memory.usage_in_bytes", bytes "total_inactive_file ")
                             else if version groups =? 2 then Some (bytes "/memory.current", bytes "inactive_file ") else None);
  usage ← file_size_value (memory groups) usage_file;
  inactive ← stat_field (memory groups) inactive;
  Some (saturating_sub usage inactive).
Definition div_ceil (a b : Z) : Z := (a + b - 1) / b.
Definition cgroup_cpu_limit (groups : CGroups) : option Z :=
  if (length (cpu groups) =? 0)%nat then None else
  '(quota, period) ←
    (if version groups =? 1 then
       quota ← file_size_value (cpu groups) (bytes "/cpu.cfs_quota_us");
       period ← file_size_value (cpu groups) (bytes "/cpu.cfs_period_us"); Some (quota, period)
     else if version groups =? 2 then
       path ← path_set (cpu groups); path ← path_push path (bytes "/cpu.max"); text ← read_file (k_open k) (c_str path) 128;
       match fields text with
       | quota :: period :: _ =>
           if decide (quota = bytes "max") then None else
           '(quota, _) ← parse_u64 quota; '(period, _) ← parse_u64 period; Some (quota, period)
       | _ => None
       end
     else None);
  if (quota =? 0) || (period =? 0) then None else
  if quota <=? period then Some 1 else Some (Z.min (div_ceil quota period) u32_max).
(** [cache_attribute]: [index] is below 8, so the last byte stays a digit. *)
Definition cache_attribute (index : Z) (name : list Z) (capacity : nat) : option (list Z) :=
  path ← path_set (bytes "/sys/devices/system/cpu/cpu0/cache/index" ++ [48 + index]);
  path ← path_push path name; read_file (k_open k) (c_str path) capacity.
Definition physical_total : Z := let pages := k_sysconf k ScPhysPages in if 0 <? pages then wrapping_mul pages page else 0.
Definition mem_available : option Z :=
  fd ← k_open k (bytes "/proc/meminfo" ++ [0]);
  found ← scan_lines fd (fun text => if starts_with text (bytes "MemAvailable:") then Some (parse_size (drop 13 text)) else None);
  found.

(** ** Topology *)
(** [mask.iter().map(|w| w.count_ones()).sum()] *)
Fixpoint count_ones (bits : nat) (w : Z) : Z :=
  match bits with O => 0 | S bits => (if Z.odd w then 1 else 0) + count_ones bits (Z.shiftr w 1) end.
(** The highest index of "0-3" or "0,2-5". *)
Definition range_last (range : list Z) : option Z :=
  let ends := split (fun b => b =? DASH) range in
  let first := ends !! 0%nat ≫= (fun e => fst <$> parse_u64 e) in
  match ends !! 1%nat ≫= (fun e => fst <$> parse_u64 e) with Some last => Some last | None => first end.
Definition highest_index (text : list Z) : option Z :=
  foldl (fun highest range => match range_last range with
                              | Some last => Some (match highest with None => last | Some h => Z.max h last end)
                              | None => highest
                              end) None (split (fun b => b =? COMMA) (trim text)).
Definition cpu_max : Result Z :=
  match read_file (k_open k) (bytes "/sys/devices/system/cpu/possible" ++ [0]) 256 ≫= highest_index with
  | Some highest => u32_try_from (as_u64 (highest + 1))
  | None => let value := k_sysconf k ScNprocConf in if 0 <? value then u32_try_from value else Err EOs
  end.
Definition cpu_count (groups : CGroups) : Result Z :=
  let count := match k_getaffinity k with Some mask => foldr (fun w n => count_ones 64 w + n) 0 mask | None => 0 end in
  let? count :=
    (if count =? 0 then let online := k_sysconf k ScNprocOnln in if 0 <? online then Ok (as_u32 online) else Err EOs else Ok count) in
  let count := match cgroup_cpu_limit groups with Some limit => Z.min count limit | None => count end in
  Ok (Z.max count 1).
Definition current_cpu : Result Z := let value := k_getcpu k in if value <? 0 then Err EOs else Ok (as_u32 value).
(** The bytes of the words of a mask, least significant first. *)
Definition word_bytes (w : Z) : list Z := (fun i => Z.shiftr w (8 * Z.of_nat i) mod 256) <$> seq 0 8.
Definition mask_bytes (mask : list Z) : list Z := mask ≫= word_bytes.
Definition process_affinity (capacity : Z) : Result (Z * list Z) :=
  let? mask := ok_or (k_getaffinity k) EOs in
  let? max := cpu_max in
  let needed := div_ceil max 8 in
  let bytes := mask_bytes mask in
  Ok (needed, takeZ (Z.min (Z.min needed capacity) (lenZ bytes)) bytes).
Definition affinity_of (cpu : Z) : list Z := <[Z.to_nat (cpu / 64) := Z.shiftl 1 (cpu mod 64)]> (replicate 128 0).
Definition set_thread_affinity (cpu : Z) : Result unit :=
  if 128 * 64 <=? cpu then Err EInvalidArgument else if k_setaffinity k (affinity_of cpu) then Ok tt else Err EOs.
Definition virtual_limit : Result Z :=
  match k_getrlimit k with None => Err EOs | Some rlim_cur => Ok (if rlim_cur =? RLIM_INFINITY then 0 else rlim_cur) end.
Definition UNLIMITED : Z := 9223372032559808512.
Definition memory_limit (groups : CGroups) : Result Z :=
  match cgroup_memory_limit groups with
  | None => Ok 0
  | Some limit =>
      if UNLIMITED <? limit then Ok 0 else
      let result := match virtual_limit with Ok rlimit => if negb (rlimit =? 0) then Z.min limit rlimit else limit | Err _ => limit end in
      let machine := physical_total in
      Ok (if negb (machine =? 0) then Z.min result machine else result)
  end.
Definition available_memory : Z :=
  match mem_available with
  | Some v => v
  | None => let pages := k_sysconf k ScAvPhysPages in if 0 <? pages then wrapping_mul pages page else 0
  end.
Definition physical_memory (groups : CGroups) : Result (Z * Z) :=
  let machine := physical_total in
  if machine =? 0 then Err EOs else
  match (match memory_limit groups with Ok limit => if negb (limit =? 0) then Some limit else None | Err _ => None end) with
  | Some limit =>
      let used := default 0 (cgroup_memory_usage groups) in Ok (limit, Z.min (saturating_sub limit used) limit)
  | None => Ok (machine, Z.min available_memory machine)
  end.
(** One round of the loop over the caches of CPU 0. *)
Definition cache_round (level : Z) (best index : Z) : Z :=
  match cache_attribute index (bytes "/level") 64 with
  | None => best
  | Some found =>
      if decide (parse_size found <> Some level) then best else
      match cache_attribute index (bytes "/type") 64 with
      | None => best
      | Some kind =>
          if negb (starts_with kind (bytes "Data") || starts_with kind (bytes "Unified")) then best else
          match cache_attribute index (bytes "/size") 64 with
          | None => best
          | Some size => match parse_size size with Some found => Z.max best found | None => best end
          end
      end
  end.
Context `{Arch}.
Definition to_usize (n : Z) : Result Z := ok_or (usize_try_from n) EOs.
Definition cache_level_size (level : Z) : Result Z :=
  if negb ((1 <=? level) && (level <=? 4)) then Err EInvalidArgument else
  let value := k_sysconf k (ScCache level) in
  if 0 <? value then to_usize value else to_usize (foldl (cache_round level) 0 [0; 1; 2; 3; 4; 5; 6; 7]).
Definition cache_size : Result Z :=
  foldl (fun best level => let? best := best in let? size := cache_level_size level in Ok (Z.max best size)) (Ok 0) [1; 2; 3; 4].
Definition swap_memory (groups : CGroups) : Result (Z * Z) :=
  match k_sysinfo k with
  | None => Err EOs
  | Some (mem_unit, totalswap, freeswap) =>
      let unit := if mem_unit =? 0 then 1 else mem_unit in
      let total := wrapping_mul totalswap unit in
      let available := wrapping_mul freeswap unit in
      let '(total, available) :=
        match cgroup_swap groups with
        | Some (limit, used) => (Z.min total limit, Z.min available (saturating_sub limit used))
        | None => (total, available)
        end in
      Ok (total, Z.min available total)
  end.
Definition cpu_features : Result (Z * Z) := Ok (if k_aarch64 k then k_getauxval k else (0, 0)).
Definition debugger_present : Result bool :=
  let? fd := ok_or (k_open k (bytes "/proc/self/status" ++ [0])) EOs in
  ok_or (scan_lines fd (fun text => if starts_with text (bytes "TracerPid:")
                                    then Some (match parse_u64 (drop 10 text) with Some (v, _) => negb (v =? 0) | None => false end) else None)) EOs.
End Kernel.

(** ** The provider

    Its state: the answers of the kernel, and [CGROUPS], which the first question that may need it fills ([cgroups]);
    the source fills it at the moment of use, a little later in the same call. *)
Record Linux := mkLinux { kernel : Kernel; CGROUPS : option CGroups }.
Definition cgroups {E} : M Linux E CGroups := fun s =>
  match CGROUPS s with
  | Some groups => (s, Ok groups)
  | None => let groups := discover_cgroups (kernel s) in (mkLinux (kernel s) (Some groups), Ok groups)
  end.
Definition asks {A} (f : Kernel -> Result A) : M Linux Error A := reads (fun s => f (kernel s)).
Definition asks_groups {A} (f : Kernel -> CGroups -> Result A) : M Linux Error A :=
  let! groups := cgroups in asks (fun k => f k groups).
#[export] Instance linux_topology `{Arch} : Topology Linux := {|
  topology_PROVIDED := true;
  to_cpu_max := asks cpu_max; to_cpu_count := asks_groups cpu_count; to_current_cpu := asks current_cpu;
  to_process_affinity capacity := asks (fun k => process_affinity k capacity);
  to_set_thread_affinity cpu := asks (fun k => set_thread_affinity k cpu);
  to_physical_memory := asks_groups physical_memory; to_memory_limit := asks_groups memory_limit; to_virtual_limit := asks virtual_limit;
  to_cache_size := asks (fun k => cache_size k); to_cpu_features := asks cpu_features;
  to_cache_level_size level := asks (fun k => cache_level_size k level); to_swap_memory := asks_groups swap_memory |}.

(** ** The walk up the hierarchy *)
(** A directory and the directories above it, down to the mount. *)
Definition ancestors (mount directory : list Z) : list (list Z) :=
  directory :: ((fun i => take i directory) <$>
    filter (fun i => directory !! i = Some SLASH) (reverse (seq (length mount) (length directory - length mount)))).

Lemma rposition_Some p l i : rposition p l = Some i ->
  exists b, l !! i = Some b /\ p b = true /\ forall j c, (i < j)%nat -> l !! j = Some c -> p c = false.
Proof.
  revert i. induction l as [| x l IH]; intros i; simpl; [done |]. destruct (rposition p l) as [j |] eqn:E.
  - intros [= <-]. destruct (IH j eq_refl) as (b & Hb & Hp & Hl). exists b. split; [done |]. split; [done |].
    intros [| m] c Hm Hc; [lia |]. simpl in Hc. apply (Hl m); [lia | done].
  - destruct (p x) eqn:Hx; [| done]. intros [= <-]. exists x. split; [done |]. split; [done |]. intros [| m] c Hm Hc; [lia |]. simpl in Hc.
    clear IH. revert m c Hm Hc. induction l as [| y l IHl]; intros m c Hm Hc; [done |]. simpl in E.
    destruct (rposition p l) eqn:E2; [done |]. destruct (p y) eqn:Hy; [done |]. destruct m as [| m]; [by simplify_eq/= |].
    apply (IHl eq_refl m c ltac:(lia) Hc).
Qed.
Lemma rposition_None p l : rposition p l = None -> forall j c, l !! j = Some c -> p c = false.
Proof.
  induction l as [| x l IH]; intros Hn j c Hc; [done |]. simpl in Hn. destruct (rposition p l); [done |].
  destruct (p x) eqn:Hx; [done |]. destruct j as [| j]; simplify_eq/=; eauto.
Qed.
Lemma filter_agree {A} (P Q : A -> Prop) `{!forall a, Decision (P a), !forall a, Decision (Q a)} (l : list A) :
  (forall a, a ∈ l -> P a <-> Q a) -> filter P l = filter Q l.
Proof.
  induction l as [| x l IH]; intros Hpq; [done |]. rewrite !filter_cons, IH by set_solver.
  destruct (decide (P x)) as [Hp | Hp], (decide (Q x)) as [Hq | Hq]; try done; exfalso; specialize (Hpq x ltac:(set_solver)); tauto.
Qed.
Lemma filter_seq_none (P : nat -> Prop) `{!forall i, Decision (P i)} a n : (forall i, (a <= i < a + n)%nat -> ~ P i) -> filter P (reverse (seq a n)) = [].
Proof.
  intros Hn. rewrite (filter_agree P (fun _ => False)).
  - induction (reverse (seq a n)) as [| x l IH]; [done |]. rewrite filter_cons_False; [apply IH | tauto].
  - intros i Hi. apply elem_of_reverse, elem_of_seq in Hi. specialize (Hn i ltac:(lia)). tauto.
Qed.
Lemma ancestors_round mount directory :
  ancestors mount directory = directory ::
    (if (length directory <=? length mount)%nat then [] else
     match rposition (fun b => b =? SLASH) directory with
     | None => []
     | Some slash => if (slash <? length mount)%nat then [] else ancestors mount (take slash directory)
     end).
Proof.
  unfold ancestors at 1. f_equal. destruct (Nat.leb_spec (length directory) (length mount)).
  { by replace (length directory - length mount)%nat with O by lia. }
  destruct (rposition _ directory) as [slash |] eqn:E.
  - apply rposition_Some in E as (b & Hb & Hs & Hafter). apply Z.eqb_eq in Hs as ->. pose proof (lookup_lt_Some _ _ _ Hb) as Hlt.
    destruct (Nat.ltb_spec slash (length mount)).
    + rewrite filter_seq_none; [done |]. intros i Hi Hx. apply Hafter in Hx; [| lia]. by rewrite Z.eqb_refl in Hx.
    + replace (length directory - length mount)%nat with ((slash - length mount) + S (length directory - slash - 1))%nat by lia.
      rewrite seq_app, reverse_app, filter_app. replace (length mount + (slash - length mount))%nat with slash by lia.
      cbn [seq]. rewrite reverse_cons, filter_app, filter_seq_none; [| intros i Hi Hx; apply Hafter in Hx; [by rewrite Z.eqb_refl in Hx | lia]].
      rewrite filter_cons_True, filter_nil by done. simpl. unfold ancestors. rewrite length_take_le by lia. f_equal.
      assert (forall i, i ∈ filter (fun i => directory !! i = Some SLASH) (reverse (seq (length mount) (slash - length mount))) -> (i < slash)%nat) as Hi.
      { intros i [_ Hi]%list_elem_of_filter. apply elem_of_reverse, elem_of_seq in Hi. lia. }
      transitivity ((fun i => take i (take slash directory)) <$> filter (fun i => directory !! i = Some SLASH) (reverse (seq (length mount) (slash - length mount)))).
      { apply list_fmap_ext. intros j i Hj. apply list_elem_of_lookup_2, Hi in Hj. rewrite take_take. f_equal. lia. }
      f_equal. apply filter_agree. intros i Hx. apply elem_of_reverse, elem_of_seq in Hx. by rewrite lookup_take_lt by lia.
  - rewrite filter_seq_none; [done |]. intros i Hi Hx. apply (rposition_None _ _ E) in Hx. by rewrite Z.eqb_refl in Hx.
Qed.
Lemma walk_up_spec {A} (visit : list Z -> A -> A) mount fuel : forall directory acc, (length directory < fuel)%nat ->
  walk_up fuel visit mount directory acc = Some (foldl (fun a d => visit d a) acc (ancestors mount directory)).
Proof.
  induction fuel as [| fuel IH]; intros directory acc Hf; [lia |]. cbn [walk_up]. rewrite ancestors_round. cbn [foldl].
  destruct (Nat.leb_spec (length directory) (length mount)); [done |].
  destruct (rposition _ directory) as [slash |] eqn:E; [| done]. destruct (Nat.ltb_spec slash (length mount)); [done |].
  apply rposition_Some in E as (b & Hb & _). apply lookup_lt_Some in Hb. apply IH. rewrite length_take. lia.
Qed.
(** A directory that the walk reads: the process's own, or one above it and not above the mount. *)
Definition above (mount directory d : list Z) : Prop :=
  d = directory \/ exists i, (length mount <= i)%nat /\ directory !! i = Some SLASH /\ d = take i directory.
Lemma elem_of_ancestors mount directory d : d ∈ ancestors mount directory <-> above mount directory d.
Proof.
  unfold ancestors, above. rewrite elem_of_cons, list_elem_of_fmap. apply or_iff_compat_l. split.
  - intros (i & -> & [Hs Hi]%list_elem_of_filter). apply elem_of_reverse, elem_of_seq in Hi. exists i. split_and!; [lia | done | done].
  - intros (i & Hi & Hs & ->). exists i. split; [done |]. apply list_elem_of_filter. split; [done |]. apply elem_of_reverse, elem_of_seq.
    apply lookup_lt_Some in Hs. lia.
Qed.

(** The least of the values that a list of directories gives. *)
Definition least (value : list Z -> option Z) (ds : list (list Z)) (m : option Z) : Prop :=
  match m with
  | Some m => (exists d, d ∈ ds /\ value d = Some m) /\ forall d v, d ∈ ds -> value d = Some v -> m <= v
  | None => forall d, d ∈ ds -> value d = None
  end.
Lemma least_fold k name ds : least (fun d => file_size_value k d name) ds (foldl (fun a d => visit_limit k name d a) None ds).
Proof.
  induction ds as [| d ds IH] using rev_ind; [intros d Hd; set_solver |]. rewrite foldl_app. simpl.
  set (best := foldl _ None ds) in *. unfold visit_limit. destruct (file_size_value k d name) as [v |] eqn:Ev.
  - unfold tighter. destruct best as [b |]; simpl in *.
    + destruct IH as [(d' & Hd' & Hb) Hmin]. split.
      * destruct (Z.min_spec b v) as [[_ ->] | [_ ->]]; [exists d' | exists d]; set_solver.
      * intros e w [He | ->%list_elem_of_singleton]%elem_of_app Hw; [pose proof (Hmin e w He Hw); lia | assert (v = w) as -> by congruence; lia].
    + split; [exists d; set_solver |]. intros e w [He | ->%list_elem_of_singleton]%elem_of_app Hw; [by rewrite IH in Hw | assert (v = w) as -> by congruence; lia].
  - destruct best as [b |]; simpl in *.
    + destruct IH as [(d' & Hd' & Hb) Hmin]. split; [exists d'; set_solver |].
      intros e w [He | ->%list_elem_of_singleton]%elem_of_app Hw; [eauto | congruence].
    + intros e [He | ->%list_elem_of_singleton]%elem_of_app; [auto | done].
Qed.

(** ** Ranges *)
Lemma file_size_value_range k d name v : file_size_value k d name = Some v -> 0 <= v <= u64_max.
Proof.
  unfold file_size_value. destruct (path_set d) as [p |]; simpl; [| done]. destruct (path_push p name) as [q |]; simpl; [| done].
  destruct (read_file _ _ _); simpl; [| done]. apply parse_size_range.
Qed.
Lemma first_some_In {A B} (f : A -> option B) l b : first_some f l = Some b -> exists a, a ∈ l /\ f a = Some b.
Proof.
  induction l as [| a l IH]; simpl; [done |]. destruct (f a) eqn:E; [intros [= ->]; exists a; set_solver |].
  intros Hl. destruct (IH Hl) as (a' & ? & ?). exists a'. set_solver.
Qed.
Lemma scan_lines_spec {A} fd (body : list Z -> option A) : scan_lines fd body = first_some body (lines_of fd).
Proof. unfold scan_lines. by rewrite scan_file_spec. Qed.
Lemma scan_lines_In {A} fd (body : list Z -> option A) a : scan_lines fd body = Some a -> exists l, body l = Some a.
Proof. rewrite scan_lines_spec. intros (l & _ & Hl)%first_some_In. eauto. Qed.
Lemma stat_field_range k d f v : stat_field k d f = Some v -> 0 <= v <= u64_max.
Proof.
  unfold stat_field. destruct (path_set d) as [p |]; simpl; [| done]. destruct (path_push p _) as [q |]; simpl; [| done].
  destruct (k_open k _) as [fd |]; simpl; [| done]. destruct (scan_lines fd _) as [found |] eqn:E; simpl; [| done]. intros ->.
  apply scan_lines_In in E as (l & Hl). destruct (starts_with l f); [| done].
  destruct (parse_u64 _) as [[w rest] |] eqn:Ep; simplify_eq/=. by apply parse_u64_range in Ep.
Qed.
Lemma least_range k name ds m : least (fun d => file_size_value k d name) ds (Some m) -> 0 <= m <= u64_max.
Proof. intros [(d & _ & Hd) _]. by apply file_size_value_range in Hd. Qed.
Lemma memory_limit_walk k g : version g = 2 -> memory g <> [] -> lenZ (memory g) < PATH ->
  least (fun d => file_size_value k d (bytes "/memory.max")) (ancestors (memory_mount g) (memory g)) (cgroup_memory_limit k g).
Proof.
  intros Hv Hm Hl. unfold cgroup_memory_limit. rewrite Hv. destruct (memory g) as [| b rest] eqn:E; [done |]. rewrite <- E in *. clear E.
  assert (path_set (memory g) = Some (memory g)) as -> by (unfold path_set; by destruct (Z.leb_spec PATH (lenZ (memory g))); [lia |]).
  destruct (Nat.eqb_spec (length (memory g)) 0) as [E | E]; [by apply nil_length_inv in E |].
  change (2 =? 1) with false. change (2 =? 2) with true. cbv iota. change (default [] (Some (memory g))) with (memory g).
  rewrite walk_up_spec by lia. apply least_fold.
Qed.
Record groups_ok (g : CGroups) : Prop := {
  go_memory : lenZ (memory g) < PATH; go_mount : lenZ (memory_mount g) < PATH; go_cpu : lenZ (cpu g) < PATH;
  go_under : exists rest, memory g = memory_mount g ++ rest }.
Lemma path_set_Some v p : path_set v = Some p <-> p = v /\ lenZ v < PATH.
Proof. unfold path_set. destruct (Z.leb_spec PATH (lenZ v)); split; intros; destruct_and?; simplify_eq; (lia || done). Qed.
Lemma path_push_Some p v q : path_push p v = Some q <-> q = p ++ v /\ lenZ p + lenZ v < PATH.
Proof. unfold path_push. destruct (Z.leb_spec PATH (lenZ p + lenZ v)); split; intros; destruct_and?; simplify_eq; (lia || done). Qed.
Lemma cgroup_directory_ok k v c d m : cgroup_directory k v c = Some (d, m) -> lenZ d < PATH /\ lenZ m < PATH /\ exists rest, d = m ++ rest.
Proof.
  unfold cgroup_directory. destruct (hierarchy_mount k v c) as [[mount root] |]; simpl; [| done]. destruct (cgroup_relative k v c) as [relative |]; simpl; [| done].
  destruct (path_set mount) as [out |] eqn:Es; simpl; [| done]. apply path_set_Some in Es as [-> Hm].
  destruct (path_push _ _) as [out' |] eqn:Ep; simpl; [| done]. apply path_push_Some in Ep as [-> Hd]. intros [= <- <-].
  split; [by rewrite lenZ_app |]. eauto.
Qed.
Lemma discover_ok k : groups_ok (discover_cgroups k).
Proof.
  unfold discover_cgroups. destruct (cgroup_version k =? 0); [split; simpl; try (unfold PATH, lenZ; simpl; lia); by exists [] |].
  assert (forall c, let r := default (path_new, path_new) (cgroup_directory k (cgroup_version k) c) in lenZ r.1 < PATH /\ lenZ r.2 < PATH /\ exists rest, r.1 = r.2 ++ rest) as Hd.
  { intros c. destruct (cgroup_directory _ _ c) as [[d m] |] eqn:E; [exact (cgroup_directory_ok _ _ _ _ _ E) |].
    simpl. unfold lenZ, PATH. simpl. split; [lia |]. split; [lia |]. by exists []. }
  pose proof (Hd (bytes "memory")) as Hm. pose proof (Hd (bytes "cpu")) as Hc. cbv zeta in Hm, Hc.
  destruct (default _ (cgroup_directory k _ (bytes "memory"))) as [memory mount]. destruct (default _ (cgroup_directory k _ (bytes "cpu"))) as [cpu m2].
  simpl in *. destruct Hm as (? & ? & ?), Hc as (? & ? & ?). by split.
Qed.
Lemma discover_version k : memory (discover_cgroups k) <> [] -> version (discover_cgroups k) = cgroup_version k.
Proof.
  unfold discover_cgroups. destruct (Z.eqb_spec (cgroup_version k) 0); [done |]. destruct (default _ _) as [memory mount], (default _ _) as [cpu m2]. done.
Qed.

(** A container: the unified hierarchy, the process two levels below the mount. *)
Definition text_file (s : list string) : list Z := concat ((fun l => bytes l ++ [NEWLINE]) <$> s).
Definition sample_files : list (list Z * list Z) :=
  [(bytes "/proc/self/mountinfo", text_file ["24 1 0:22 / /proc rw - proc proc rw"; "35 24 0:30 / /cg rw,nosuid shared:9 - cgroup2 cgroup rw"]%string);
   (bytes "/proc/self/cgroup", text_file ["0::/a/b"]%string);
   (bytes "/cg/memory.max", text_file ["max"]%string); (bytes "/cg/a/memory.max", text_file ["1g"]%string);
   (bytes "/cg/a/b/memory.max", text_file ["4294967296"]%string);
   (bytes "/cg/a/b/cpu.max", text_file ["250000 100000"]%string);
   (bytes "/proc/meminfo", text_file ["MemTotal:       16000000 kB"; "MemAvailable:    8000000 kB"; "Buffers: 1 kB"]%string);
   (bytes "/sys/devices/system/cpu/possible", text_file ["0,2-5"]%string)].
Definition sample_open (path : list Z) : option (list Read) :=
  '(_, found) ← list_find (fun f => f.1 ++ [0] = path) sample_files; Some [RIntr; RData (take 3 found.2); RData (drop 3 found.2)].
Definition sample_kernel (statfs : option Z) : Kernel :=
  mkKernel sample_open statfs (fun n => match n with ScPageSize => 4096 | ScPhysPages => 4000000 | ScNprocConf => 6 | ScNprocOnln => 6 | _ => 0 end)
    (Some (63 :: replicate 127 0)) (fun _ => true) 3 (Some RLIM_INFINITY) (Some (1, 2048, 1024)) false (0, 0).

(** C16: in the unified hierarchy the memory limit is the tightest one set on the way from the process's own cgroup up to the
    mount, both included: it is one of the values read there and no other is smaller; and there is none when no directory
    on the way sets one.  The walk ends within its fuel. *)
Theorem tightest_memory_limit (k : Kernel) (g := discover_cgroups k) : cgroup_version k = 2 -> memory g <> [] ->
  match cgroup_memory_limit k g with
  | Some m => (exists d, above (memory_mount g) (memory g) d /\ file_size_value k d (bytes "/memory.max") = Some m) /\
              forall d v, above (memory_mount g) (memory g) d -> file_size_value k d (bytes "/memory.max") = Some v -> m <= v
  | None => forall d, above (memory_mount g) (memory g) d -> file_size_value k d (bytes "/memory.max") = None
  end.
Proof.
  intros Hv Hm. pose proof (memory_limit_walk k g) as Hl. unfold g in *. rewrite discover_version in Hl by done.
  specialize (Hl Hv Hm (go_memory _ (discover_ok k))). destruct (cgroup_memory_limit k _) as [m |]; simpl in *; setoid_rewrite elem_of_ancestors in Hl; done.
Qed.
Lemma tightest_memory_limit_witness :
  cgroup_memory_limit (sample_kernel (Some CGROUP2_MAGIC)) (discover_cgroups (sample_kernel (Some CGROUP2_MAGIC))) = Some (2 ^ 30) /\
  forall v, file_size_value (sample_kernel (Some CGROUP2_MAGIC)) (bytes "/cg/a/b") (bytes "/memory.max") = Some v -> 2 ^ 30 <= v.
Proof.
  assert (cgroup_memory_limit (sample_kernel (Some CGROUP2_MAGIC)) (discover_cgroups (sample_kernel (Some CGROUP2_MAGIC))) = Some (2 ^ 30)) as E by (vm_compute; reflexivity).
  split; [exact E |]. intros v Hv.
  pose proof (tightest_memory_limit (sample_kernel (Some CGROUP2_MAGIC)) ltac:(vm_compute; reflexivity) ltac:(vm_compute; discriminate)) as Ht.
  cbv zeta in Ht. rewrite E in Ht. destruct Ht as [_ Ht]. apply (Ht (bytes "/cg/a/b") v); [left; vm_compute; reflexivity | exact Hv].
Defined.

(** ** What the provider answers *)
Record kernel_ok (k : Kernel) : Prop := {
  ko_sysconf n : - 2 ^ 63 <= k_sysconf k n < 2 ^ 63;
  ko_mask m : k_getaffinity k = Some m -> length m = 128%nat;
  ko_cpu : k_getcpu k < 2 ^ 31;
  ko_rlimit l : k_getrlimit k = Some l -> 0 <= l <= u64_max }.
Lemma as_u64_range n : 0 <= as_u64 n <= u64_max.
Proof. unfold as_u64, u64_max. pose proof (Z.mod_pos_bound n (2 ^ 64)). lia. Qed.
Lemma count_ones_range bits : forall w, 0 <= count_ones bits w <= Z.of_nat bits.
Proof. induction bits as [| bits IH]; intros w; simpl count_ones; [lia |]. specialize (IH (Z.shiftr w 1)). destruct (Z.odd w); lia. Qed.
Lemma count_sum_range mask : 0 <= foldr (fun w n => count_ones 64 w + n) 0 mask <= 64 * lenZ mask.
Proof. induction mask as [| w mask IH]; [unfold lenZ; simpl; lia |]. cbn [foldr]. rewrite lenZ_cons. pose proof (count_ones_range 64 w). lia. Qed.
Lemma least_fold_range k name ds m : foldl (fun a d => visit_limit k name d a) None ds = Some m -> 0 <= m <= u64_max.
Proof. intros E. apply (least_range k name ds). rewrite <- E. apply least_fold. Qed.
Lemma path_set_default p : exists q, default [] (path_set p) = q /\ (length q <= length p)%nat.
Proof. unfold path_set. destruct (PATH <=? lenZ p); simpl; eexists; split; [done | simpl; lia | done | lia]. Qed.
Lemma cgroup_memory_limit_range k g m : cgroup_memory_limit k g = Some m -> 0 <= m <= u64_max.
Proof.
  unfold cgroup_memory_limit. destruct (_ =? 0)%nat; [done |]. destruct (version g =? 1).
  - destruct (negb _); [apply stat_field_range | apply file_size_value_range].
  - destruct (version g =? 2); [| done]. destruct (path_set_default (memory g)) as (q & -> & Hq). rewrite walk_up_spec by lia. apply least_fold_range.
Qed.
Lemma fold_swap k ds acc : (foldl (fun a d => visit_swap k d a) acc ds).1 = foldl (fun a d => visit_limit k (bytes "/memory.swap.max") d a) acc.1 ds.
Proof. revert acc. induction ds as [| d ds IH]; intros acc; [done |]. cbn [foldl]. by rewrite IH. Qed.
Lemma cgroup_swap_range k g l u : cgroup_swap k g = Some (l, u) -> 0 <= l <= u64_max.
Proof.
  unfold cgroup_swap. destruct (_ || _); [done |]. destruct (path_set_default (memory g)) as (q & -> & Hq). rewrite walk_up_spec by lia. cbn [mbind option_bind].
  pose proof (fold_swap k (ancestors (memory_mount g) q) (None, None)) as Hf. destruct (foldl _ (None, None) _) as [[limit |] used]; simpl in *; [| done].
  intros [= <- _]. by apply (least_fold_range k (bytes "/memory.swap.max") (ancestors (memory_mount g) q)).
Qed.
Lemma physical_total_range k : 0 <= physical_total k <= u64_max.
Proof. unfold physical_total, wrapping_mul. destruct (0 <? _); [apply as_u64_range | unfold u64_max; lia]. Qed.
Lemma memory_limit_spec k g : kernel_ok k -> exists l, memory_limit k g = Ok l /\ 0 <= l <= u64_max /\ (physical_total k <> 0 -> l <= physical_total k).
Proof.
  intros Hk. unfold memory_limit. pose proof (physical_total_range k) as Ht. destruct (cgroup_memory_limit k g) as [c |] eqn:E; [| exists 0; unfold u64_max; split_and!; (lia || done)].
  apply cgroup_memory_limit_range in E. destruct (UNLIMITED <? c); [exists 0; split_and!; (lia || done) |].
  set (r := match virtual_limit k with Ok l => _ | Err _ => c end).
  assert (0 <= r <= u64_max) as Hr.
  { unfold r, virtual_limit. destruct (k_getrlimit k) as [l |] eqn:El; [| done]. apply (ko_rlimit _ Hk) in El.
    destruct (l =? RLIM_INFINITY); [done |]. destruct (negb (l =? 0)); lia. }
  clearbody r. eexists. split; [done |]. destruct (Z.eqb_spec (physical_total k) 0); simpl; lia.
Qed.
Lemma cgroup_cpu_limit_range k g l : cgroup_cpu_limit k g = Some l -> 1 <= l <= u32_max.
Proof.
  unfold cgroup_cpu_limit. destruct (_ =? 0)%nat; [done |].
  match goal with |- (?o ≫= _) = _ -> _ => destruct o as [[quota period] |] eqn:E end; simpl; [| done].
  assert (0 <= quota /\ 0 <= period) as [Hq Hp].
  { destruct (version g =? 1).
    - destruct (file_size_value k _ (bytes "/cpu.cfs_quota_us")) eqn:E1; simpl in E; [| done].
      destruct (file_size_value k _ (bytes "/cpu.cfs_period_us")) eqn:E2; simplify_eq/=. apply file_size_value_range in E1, E2. lia.
    - destruct (version g =? 2); [| done]. destruct (path_set _); simpl in E; [| done]. destruct (path_push _ _); simpl in E; [| done].
      destruct (read_file _ _ _); simpl in E; [| done]. destruct (fields _) as [| q [| p rest]]; try done. destruct (decide _); [done |].
      destruct (parse_u64 q) as [[vq rq] |] eqn:E1; simpl in E; [| done]. destruct (parse_u64 p) as [[vp rp] |] eqn:E2; simplify_eq/=.
      apply parse_u64_range in E1, E2. lia. }
  destruct (Z.eqb_spec quota 0); [done |]. destruct (Z.eqb_spec period 0); [done |]. simpl.
  destruct (Z.leb_spec quota period); intros [= <-]; [unfold u32_max; lia |]. unfold div_ceil, u32_max.
  assert (1 <= (quota + period - 1) / period) by (apply Z.div_le_lower_bound; lia). lia.
Qed.
Lemma mem_available_range k v : mem_available k = Some v -> 0 <= v <= u64_max.
Proof.
  unfold mem_available. destruct (k_open k _) as [fd |]; simpl; [| done]. destruct (scan_lines fd _) as [found |] eqn:E; simpl; [| done]. intros ->.
  apply scan_lines_In in E as (l & Hl). destruct (starts_with l _); [| done]. simplify_eq/=. eauto using parse_size_range.
Qed.
Lemma available_memory_range k : 0 <= available_memory k <= u64_max.
Proof.
  unfold available_memory. destruct (mem_available k) eqn:E; [by apply mem_available_range in E |].
  unfold wrapping_mul. destruct (0 <? _); [apply as_u64_range | unfold u64_max; lia].
Qed.
Lemma physical_memory_range k g t a : kernel_ok k -> physical_memory k g = Ok (t, a) -> 0 < t <= u64_max /\ 0 <= a <= t.
Proof.
  intros Hk. unfold physical_memory. pose proof (physical_total_range k) as Ht. pose proof (available_memory_range k) as Ha.
  destruct (memory_limit_spec k g Hk) as (l & -> & Hl & _). destruct (Z.eqb_spec (physical_total k) 0); [done |].
  destruct (Z.eqb_spec l 0); simpl; intros [= <- <-]; unfold saturating_sub; lia.
Qed.
Lemma swap_memory_range k g t a : swap_memory k g = Ok (t, a) -> 0 <= a <= t /\ t <= u64_max.
Proof.
  unfold swap_memory. destruct (k_sysinfo k) as [[[u ts] fs] |]; [| done]. set (unit := if u =? 0 then 1 else u).
  pose proof (as_u64_range (ts * unit)). pose proof (as_u64_range (fs * unit)). unfold wrapping_mul.
  destruct (cgroup_swap k g) as [[l w] |] eqn:E; intros [= <- <-]; [apply cgroup_swap_range in E; unfold saturating_sub; lia | lia].
Qed.
Lemma cpu_count_range k g n : kernel_ok k -> cpu_count k g = Ok n -> 1 <= n <= u32_max.
Proof.
  intros Hk. unfold cpu_count. set (c := match k_getaffinity k with Some _ => _ | None => 0 end).
  assert (0 <= c <= u32_max) as Hc.
  { unfold c. destruct (k_getaffinity k) as [m |] eqn:E; [| unfold u32_max; lia]. apply (ko_mask _ Hk) in E. pose proof (count_sum_range m). unfold lenZ in *. rewrite E in *. unfold u32_max. lia. }
  match goal with |- result_bind ?r _ = _ -> _ => destruct r as [d |] eqn:E end; simpl; [| done].
  assert (0 <= d <= u32_max) as Hd.
  { destruct (c =? 0); [| by simplify_eq]. destruct (0 <? _); simplify_eq. unfold as_u32, u32_max. pose proof (Z.mod_pos_bound (k_sysconf k ScNprocOnln) (2 ^ 32)). lia. }
  destruct (cgroup_cpu_limit k g) as [l |] eqn:El; intros [= <-]; [apply cgroup_cpu_limit_range in El; lia | unfold u32_max in *; lia].
Qed.
Lemma u32_try_from_range n v : u32_try_from n = Ok v -> 0 <= v <= u32_max.
Proof. unfold u32_try_from. destruct (Z.leb_spec 0 n); simpl; [| done]. destruct (Z.leb_spec n u32_max); [| done]. intros [= <-]. lia. Qed.
Lemma cpu_max_range k n : cpu_max k = Ok n -> 0 <= n <= u32_max.
Proof.
  unfold cpu_max. destruct (_ ≫= highest_index); [apply u32_try_from_range |]. destruct (0 <? _); [apply u32_try_from_range | done].
Qed.
Lemma cache_round_ge k level best i : 0 <= best -> 0 <= cache_round k level best i.
Proof.
  intros Hb. unfold cache_round. destruct (cache_attribute _ _ _ _) as [l |]; [| done]. destruct (decide _); [done |].
  destruct (cache_attribute _ _ _ _) as [t |]; [| done]. destruct (negb _); [done |]. destruct (cache_attribute _ _ _ _) as [z |]; [| done].
  destruct (parse_size z); [lia | done].
Qed.
Lemma cache_level_size_range `{Arch} k level n : cache_level_size k level = Ok n -> 0 <= n <= usize_max.
Proof.
  unfold cache_level_size, to_usize. destruct (negb _); [done |]. destruct (Z.ltb_spec 0 (k_sysconf k (ScCache level))).
  - rewrite ok_or_Ok, usize_try_from_Some. lia.
  - rewrite ok_or_Ok, usize_try_from_Some. set (indices := [0; 1; 2; 3; 4; 5; 6; 7]). intros [-> Hn]. split; [| done]. clear Hn.
    assert (forall b, 0 <= b -> 0 <= foldl (cache_round k level) b indices) as Hf; [| by apply Hf].
    induction indices as [| i indices IH]; intros b Hb; simpl; [done |]. by apply IH, cache_round_ge.
Qed.
Lemma asks_groups_Ok {A} (f : Kernel -> CGroups -> Result A) s s' a : asks_groups f s = (s', Ok a) -> exists g, f (kernel s) g = Ok a.
Proof.
  unfold asks_groups, bind, cgroups, asks, reads. destruct (CGROUPS s) as [g |]; simpl; intros [= _ E]; eauto.
Qed.

(** C17: the numbers that the Linux provider gives to the topology front end have the types and the order that the port
    contract states, whatever the files and the limits say: processor counts are [u32] and the usable count is at least
    one; memory is at least one byte, the available part never exceeds it, and the same holds for swap space; limits are
    [u64] and cache sizes fit [usize]. *)
Theorem topology_types `{Arch} (s s' : Linux) : kernel_ok (kernel s) ->
  (forall n, to_cpu_max s = (s', Ok n) -> 0 <= n <= u32_max) /\
  (forall n, to_cpu_count s = (s', Ok n) -> 1 <= n <= u32_max) /\
  (forall n, to_current_cpu s = (s', Ok n) -> 0 <= n < 2 ^ 31) /\
  (forall total available, to_physical_memory s = (s', Ok (total, available)) -> 0 < total <= u64_max /\ 0 <= available <= total) /\
  (forall l, to_memory_limit s = (s', Ok l) -> 0 <= l <= u64_max) /\
  (forall l, to_virtual_limit s = (s', Ok l) -> 0 <= l < u64_max) /\
  (forall level n, to_cache_level_size level s = (s', Ok n) -> 0 <= n <= usize_max) /\
  (forall total available, to_swap_memory s = (s', Ok (total, available)) -> 0 <= available <= total /\ total <= u64_max).
Proof.
  intros Hk. split; [intros n [= _ E]; by apply cpu_max_range in E |].
  split; [intros n [g Hg]%asks_groups_Ok; by apply cpu_count_range in Hg |].
  split. { intros n [= _ E]. unfold current_cpu in E. destruct (Z.ltb_spec (k_getcpu (kernel s)) 0); simplify_eq.
    pose proof (ko_cpu _ Hk). unfold as_u32. rewrite Z.mod_small by lia. lia. }
  split; [intros t a [g Hg]%asks_groups_Ok; by apply physical_memory_range in Hg |].
  split. { intros l [g Hg]%asks_groups_Ok. destruct (memory_limit_spec _ g Hk) as (l' & E & Hl & _). by assert (l = l') as -> by congruence. }
  split. { intros l [= _ E]. unfold virtual_limit in E. destruct (k_getrlimit (kernel s)) as [r |] eqn:Er; simplify_eq.
    apply (ko_rlimit _ Hk) in Er. unfold RLIM_INFINITY. destruct (Z.eqb_spec r u64_max); unfold u64_max in *; lia. }
  split; [intros level n [= _ E]; by apply cache_level_size_range in E |].
  intros t a [g Hg]%asks_groups_Ok. by apply swap_memory_range in Hg.
Qed.
Lemma sample_kernel_ok statfs : kernel_ok (sample_kernel statfs).
Proof.
  split; simpl.
  - intros []; lia.
  - intros m [= <-]. done.
  - lia.
  - intros l [= <-]. unfold RLIM_INFINITY, u64_max. lia.
Qed.
Lemma topology_types_witness : exists t a,
  (@to_physical_memory _ (@linux_topology arch64) (mkLinux (sample_kernel (Some CGROUP2_MAGIC)) None)).2 = Ok (t, a) /\ 0 < t <= u64_max /\ 0 <= a <= t.
Proof.
  exists (2 ^ 30), (2 ^ 30). split; [vm_compute; reflexivity |].
  destruct (@topology_types arch64 (mkLinux (sample_kernel (Some CGROUP2_MAGIC)) None)
    (@to_physical_memory _ (@linux_topology arch64) (mkLinux (sample_kernel (Some CGROUP2_MAGIC)) None)).1 (sample_kernel_ok _)) as (_ & _ & _ & Hp & _).
  apply (Hp (2 ^ 30) (2 ^ 30)). vm_compute. reflexivity.
Defined.

(** Through the topology front end, on this provider.  The checks that the front end makes on the pairs of memory and
    of swap space never reject an answer: the status a caller sees is the provider's, and with [OK] the two outputs hold
    what the provider reported. *)
Theorem linux_pairs_served `{Arch} (g : Group Linux) (first second : Z) : kernel_ok (kernel (g_provider g)) ->
  (q_act (topology_query (ToPhysicalMemory first second)) g).2 = status (to_physical_memory (g_provider g)).2 /\
  (q_act (topology_query (ToSwapMemory first second)) g).2 = status (to_swap_memory (g_provider g)).2 /\
  forall t a, (to_physical_memory (g_provider g)).2 = Ok (t, a) -> first <> second ->
    cell_is (q_act (topology_query (ToPhysicalMemory first second)) g).1 first [t] /\
    cell_is (q_act (topology_query (ToPhysicalMemory first second)) g).1 second [a].
Proof.
  intros Hk. cbn [topology_query]. unfold topology_pair, ask, answer, g_call. cbn [q_act].
  destruct (to_physical_memory (g_provider g)) as [p r] eqn:Ep, (to_swap_memory (g_provider g)) as [p' r'] eqn:Es. simpl.
  assert (forall t a, r = Ok (t, a) -> (t =? 0) || (t <? a) = false) as Hr.
  { intros t a ->. apply asks_groups_Ok in Ep as [gr Hg]. apply physical_memory_range in Hg; [lia | done]. }
  assert (forall t a, r' = Ok (t, a) -> (t <? a) = false) as Hs.
  { intros t a ->. apply asks_groups_Ok in Es as [gr Hg]. apply swap_memory_range in Hg. lia. }
  destruct r as [[t a] | e], r' as [[t' a'] | e']; try rewrite (Hr _ _ eq_refl); try rewrite (Hs _ _ eq_refl); simpl; split_and!; try done.
  all: intros t0 a0 [= <- <-] Hne; unfold cell_is; simpl; split; [rewrite lookup_insert_ne by done |]; by rewrite lookup_insert_eq.
Qed.
Lemma linux_pairs_served_witness :
  (q_act (@topology_query arch64 Linux (@linux_topology arch64) (ToPhysicalMemory 8 16)) (mkGroup (fun _ => 0) ∅ (mkLinux (sample_kernel (Some CGROUP2_MAGIC)) None))).2 =
  status (Ok (2 ^ 30, 2 ^ 30)).
Proof.
  rewrite (proj1 (@linux_pairs_served arch64 (mkGroup (fun _ => 0) ∅ (mkLinux (sample_kernel (Some CGROUP2_MAGIC)) None)) 8 16 (sample_kernel_ok _))).
  vm_compute. reflexivity.
Defined.

(** ** Available memory *)
Lemma first_some_skip {A B} (f : A -> option B) before l : Forall (fun a => f a = None) before -> first_some f (before ++ l) = first_some f l.
Proof. induction 1 as [| a before Ha _ IH]; simpl; [done |]. by rewrite Ha. Qed.
Lemma mem_available_spec k fd before pad ds after :
  k_open k (bytes "/proc/meminfo" ++ [0]) = Some fd ->
  lines_of fd = before ++ (bytes "MemAvailable:" ++ pad ++ ds ++ bytes " kB") :: after ->
  Forall (fun l => starts_with l (bytes "MemAvailable:") = false) before ->
  forallb is_ascii_whitespace pad = true -> forallb is_ascii_digit ds = true -> ds <> [] ->
  mem_available k = checked_mul u64_max (dec_value 0 ds) 1.
Proof.
  intros Ho Hl Hb Hpad Hds Hn. unfold mem_available. rewrite Ho. cbn [mbind option_bind]. rewrite scan_lines_spec, Hl.
  rewrite first_some_skip by (eapply Forall_impl; [exact Hb |]; intros l Hs; by rewrite Hs).
  cbn [first_some]. rewrite starts_with_app. change 13%nat with (length (bytes "MemAvailable:")). rewrite drop_app_length.
  cbn [mbind option_bind]. by rewrite parse_size_spec.
Qed.

(** C32: what the provider reports as available memory when no cgroup limits it.  [/proc/meminfo] has the line
    "MemAvailable:", spaces, a number, " kB"; [parse_size] looks for the unit directly behind the digits, finds the
    space there, and takes the number as it stands.  So the count of kibibytes is handed on where the port contract asks
    for bytes. *)
Theorem available_memory_in_kib (k : Kernel) (g : CGroups) (fd : list Read) (before after : list (list Z)) (pad ds : list Z) :
  k_open k (bytes "/proc/meminfo" ++ [0]) = Some fd ->
  lines_of fd = before ++ (bytes "MemAvailable:" ++ pad ++ ds ++ bytes " kB") :: after ->
  Forall (fun l => starts_with l (bytes "MemAvailable:") = false) before ->
  forallb is_ascii_whitespace pad = true -> forallb is_ascii_digit ds = true -> ds <> [] -> dec_value 0 ds <= u64_max ->
  cgroup_memory_limit k g = None -> physical_total k <> 0 ->
  physical_memory k g = Ok (physical_total k, Z.min (dec_value 0 ds) (physical_total k)).
Proof.
  intros Ho Hl Hb Hpad Hds Hn Hv Hg Ht. unfold physical_memory, memory_limit, available_memory. rewrite Hg.
  rewrite (mem_available_spec k fd before pad ds after) by done. unfold checked_mul. rewrite Z.mul_1_r.
  destruct (Z.eqb_spec (physical_total k) 0); [done |]. by destruct (Z.leb_spec (dec_value 0 ds) u64_max); [| lia].
Qed.
Lemma available_memory_in_kib_witness : physical_memory (sample_kernel None) no_groups = Ok (4096 * 4000000, 8000000).
Proof.
  rewrite (available_memory_in_kib (sample_kernel None) no_groups [RIntr; RData (bytes "Mem"); RData (drop 3 (text_file ["MemTotal:       16000000 kB"; "MemAvailable:    8000000 kB"; "Buffers: 1 kB"]%string))]
    [bytes "MemTotal:       16000000 kB"] [bytes "Buffers: 1 kB"] (bytes "    ") (bytes "8000000")); try (vm_compute; reflexivity); try (vm_compute; discriminate).
  repeat constructor.
Defined.
