(* ===== verification/LinuxImage.v ===== *)
(** * LinuxImage.v: loaded images, memory probes, streams and crash dumps of the Linux port

    The second half of [src/crates/dotnet-pal-linux/src/linux_platform.rs]: the program headers of the loaded modules
    ([unwind_callback], [build_id_callback]), the probe of readable memory, the two stream loops, the utility that writes a
    crash dump, and the cell that holds the cgroups once for all threads.

    The modules are the list that [dl_iterate_phdr] walks; memory is a function from addresses to bytes.  [usize]
    arithmetic that the source writes with plain operators wraps, as in a release build. *)
From S2P Require Import Prelude Port Counter Boundary Tree Front Group Console Machine LinuxText LinuxPlatform.
Local Open Scope Z_scope.
Local Open Scope pal_scope.

(** ** Program headers *)
Definition PT_LOAD : Z := 1.
Definition PT_NOTE : Z := 4.
Definition PT_GNU_EH_FRAME : Z := 1685382480.
Definition NT_GNU_BUILD_ID : Z := 3.
Definition NHDR : Z := 12.
Record Phdr := mkPhdr { p_type : Z; p_vaddr : Z; p_memsz : Z; p_align : Z }.
Record Loaded := mkLoaded { dlpi_addr : Z; dlpi_phdr : list Phdr }.

Definition find_phdr (p : Phdr -> bool) (headers : list Phdr) : option Phdr := first_some (fun h => if p h then Some h else None) headers.
(** [dl_iterate_phdr] stops at the first callback that does not return zero. *)
Definition dl_iterate_phdr {A} (callback : Loaded -> option A) (modules : list Loaded) : option A := first_some callback modules.

Section Image.
Context `{Arch}.
Definition wrap (n : Z) : Z := n mod (usize_max + 1).
Definition in_segment (base address : Z) (h : Phdr) : bool :=
  (p_type h =? PT_LOAD) && (wrap (base + p_vaddr h) <=? address) && (address <? wrap (wrap (base + p_vaddr h) + p_memsz h)).
Definition unwind_callback (address : Z) (info : Loaded) : option UnwindInfo :=
  let base := dlpi_addr info in
  let headers := dlpi_phdr info in
  if (length headers =? 0)%nat || (address <? base) then None else
  match find_phdr (in_segment base address) headers with
  | None => None
  | Some text =>
      match find_phdr (fun h => p_type h =? PT_GNU_EH_FRAME) (rev headers) with
      | None => None
      | Some hdr => Some (mkUnwindInfo base (wrap (base + p_vaddr text)) (p_memsz text) (wrap (base + p_vaddr hdr)) (p_memsz hdr) 0 0)
      end
  end.
Definition unwind_info (modules : list Loaded) (address : Z) : Result UnwindInfo :=
  ok_or (dl_iterate_phdr (unwind_callback address) modules) ENotFound.

(** ** Notes *)
Definition next_multiple_of (n p : Z) : Z := if n mod p =? 0 then n else n + (p - n mod p).
Definition load_bytes (mem : Z -> Z) (at_ n : Z) : list Z := (fun i => mem (at_ + Z.of_nat i)) <$> seq 0 (Z.to_nat n).
Definition from_le (l : list Z) : Z := foldr (fun b n => b + 256 * n) 0 l.
Definition load_u32 (mem : Z -> Z) (at_ : Z) : Z := from_le (load_bytes mem at_ 4).
(** The loop over the notes of one segment: where the build id is, and its length.  A round advances by a header. *)
Fixpoint note_walk (fuel : nat) (mem : Z -> Z) (start size align offset : Z) : option (option (Z * Z)) :=
  match fuel with
  | O => None
  | S fuel =>
      if size <? offset + NHDR then Some None else
      let note := start + offset in
      let namesz := load_u32 mem note in
      let descsz := load_u32 mem (note + 4) in
      let kind := load_u32 mem (note + 8) in
      let name := start + offset + NHDR in
      let desc := name + next_multiple_of namesz align in
      if (namesz =? 4) && (kind =? NT_GNU_BUILD_ID) && bool_decide (load_bytes mem name 4 = bytes "GNU" ++ [0]) then Some (Some (desc, descsz))
      else note_walk fuel mem start size align (offset + NHDR + next_multiple_of namesz align + next_multiple_of descsz align)
  end.
Definition segment_build_id (mem : Z -> Z) (bias : Z) (header : Phdr) : option (Z * Z) :=
  default None (note_walk (S (Z.to_nat (p_memsz header))) mem (wrap (bias + p_vaddr header)) (p_memsz header) (Z.max (p_align header) 4) 0).
Definition build_id_callback (mem : Z -> Z) (base : Z) (info : Loaded) : option (Z * Z) :=
  let bias := dlpi_addr info in
  let headers := dlpi_phdr info in
  if decide ((fun h => wrap (bias + p_vaddr h)) <$> find_phdr (fun h => p_type h =? PT_LOAD) headers <> Some base) then None else
  first_some (segment_build_id mem bias) (filter (fun h => p_type h = PT_NOTE) headers).
(** The length, and the bytes that were copied to the output. *)
Definition build_id (mem : Z -> Z) (modules : list Loaded) (base capacity : Z) : Result (Z * list Z) :=
  let '(note, length) := default (0, 0) (dl_iterate_phdr (build_id_callback mem base) modules) in
  if (note =? 0) || (length =? 0) then Err ENotFound else Ok (length, load_bytes mem note (Z.min length capacity)).

(** ** Probing memory *)
(** What the call with an invalid [how] answers for the eight bytes at an address. *)
Inductive Probe := PrZero | PrFault | PrInval | PrOther.
Fixpoint probe_loop (fuel : nat) (probes : Z -> Probe) (page last probe failures : Z) : option (Z * Result bool) :=
  match fuel with
  | O => None
  | S fuel =>
      match probes probe with
      | PrZero => Some (failures + 1, Err EOs)
      | PrFault => Some (failures, Ok false)
      | PrOther => Some (failures, Err EOs)
      | PrInval =>
          if (last <? wrap (probe + page)) || match checked_add usize_max probe page with None => true | Some _ => false end then Some (failures, Ok true)
          else probe_loop fuel probes page last (probe + page) failures
      end
  end.
(** [readable] with its counter of unexpected answers; the fuel is one round per page. *)
Definition readable (probes : Z -> Probe) (page address size failures : Z) : option (Z * Result bool) :=
  match checked_add usize_max address (size - 1) with
  | None => Some (failures, Err EInvalidArgument)
  | Some last => probe_loop (S (Z.to_nat (size / page + 1))) probes page last (mask_down address page) failures
  end.
End Image.

(** ** Streams *)
(** One answer of [write] or [read]: a count, [EINTR], another error. *)
Inductive Count := CtBytes (n : Z) | CtIntr | CtFail.
(** Both loops of [Streams]; [None] while every answer so far was an interruption. *)
Fixpoint stream_retry (answers : list Count) : option (Result Z) :=
  match answers with
  | [] => None
  | CtIntr :: answers => stream_retry answers
  | CtFail :: _ => Some (Err EOs)
  | CtBytes n :: _ => Some (Ok n)
  end.
Definition ENOTTY : Z := 25.
Definition EINVAL : Z := 22.
Definition is_terminal (isatty errno : Z) : Result bool :=
  if isatty =? 1 then Ok true else if (errno =? ENOTTY) || (errno =? EINVAL) then Ok false else Err EOs.

(** ** Crash dumps *)
(** [message]: what it stores at the start of the output. *)
Definition message (null : bool) (capacity : Z) (text : list Z) : list Z :=
  if (capacity =? 0) || null then [] else takeZ (Z.min (lenZ text) (capacity - 1)) text ++ [0].
(** Storing over what a buffer holds. *)
Definition overlay (new old : list Z) : list Z := new ++ drop (length new) old.
Definition wifexited (status : Z) : bool := Z.land status 127 =? 0.
Definition wexitstatus (status : Z) : Z := Z.land (Z.shiftr status 8) 255.

Record DumpAnswers := mkDumpAnswers {
  d_pipe1 : option (Z * Z); d_pipe2 : option (Z * Z); d_fork : Z; d_write : list Count; d_read : list Read; d_wait : Z; d_status : Z }.
(** What the parent did: the descriptors it closed, in order, its answer, and the contents of the error buffer. *)
Record Dump := mkDump { closed : list Z; waited : bool; outcome : Result unit; text : list Z }.

(** The parent's read loop: at most [room] bytes; an interruption repeats the call. *)
Fixpoint drain (fd : list Read) (room : nat) : list Z :=
  match fd with
  | [] | RFail :: _ | RData [] :: _ => []
  | RIntr :: fd => drain fd room
  | RData l :: fd => let n := Nat.min room (length l) in take n l ++ (if (room <=? n)%nat then [] else drain fd (room - n))
  end.
(** [crash_dump] in the parent process, where [fork] does not answer zero; [None] while [write] is interrupted again and again. *)
Definition crash_dump (a : DumpAnswers) (null : bool) (capacity : Z) : option Dump :=
  match d_pipe1 a with
  | None => Some (mkDump [] false (Err EOs) (message null capacity (bytes "crash dump: pipe failed")))
  | Some (child_read, parent_write) =>
      match d_pipe2 a with
      | None => Some (mkDump [child_read; parent_write] false (Err EOs) (message null capacity (bytes "crash dump: pipe failed")))
      | Some (parent_read, child_write) =>
          if d_fork a <? 0 then
            Some (mkDump [child_read; parent_write; parent_read; child_write] false (Err EOs) (message null capacity (bytes "crash dump: fork failed")))
          else
            written ← stream_retry (d_write a);
            if match written with Ok n => negb (n =? 1) | Err _ => true end then
              Some (mkDump [child_read; child_write; parent_write; parent_read] true (Err EOs) (message null capacity (bytes "crash dump: cannot signal the utility")))
            else
              let data := if 1 <? capacity then drain (d_read a) (Z.to_nat (capacity - 1)) else [] in
              let text := if 1 <? capacity then data ++ [0] else [] in
              let fds := [child_read; child_write; parent_write; parent_read] in
              if negb (d_wait a =? d_fork a) then
                Some (mkDump fds true (Err EOs) (overlay (message null capacity (bytes "crash dump: waitpid failed")) text))
              else if wifexited (d_status a) && negb (wexitstatus (d_status a) =? 0) then
                Some (mkDump fds true (Err EOs)
                  (if (length data =? 0)%nat then overlay (message null capacity (bytes "crash dump: the utility failed")) text else text))
              else Some (mkDump fds true (Ok tt) text)
      end
  end.

(** ** What a crash dump leaves behind *)
Definition opened (a : DumpAnswers) : list Z :=
  match d_pipe1 a with
  | None => []
  | Some (r, w) => [r; w] ++ match d_pipe2 a with None => [] | Some (r', w') => [r'; w'] end
  end.
Lemma drain_spec fd : forall room, drain fd room = take room (content fd).
Proof.
  induction fd as [| [| | [| b l]] fd IH]; intros room; cbn [drain content]; rewrite ?take_nil; try done.
  set (l' := b :: l). change (b :: l ++ content fd) with (l' ++ content fd). rewrite take_app.
  destruct (Nat.leb_spec room (Nat.min room (length l'))).
  - rewrite Nat.min_l by lia. by replace (room - length l')%nat with O by lia.
  - rewrite Nat.min_r by lia. rewrite firstn_all, (take_ge l') by lia. by rewrite IH.
Qed.
Lemma lenZ_message null capacity t : 0 <= capacity -> lenZ (message null capacity t) <= capacity.
Proof.
  intros Hc. unfold message. destruct (Z.eqb_spec capacity 0); [subst; done |]. destruct null; [done |]. simpl.
  rewrite lenZ_app, lenZ_takeZ. change (lenZ [0]) with 1. pose proof (lenZ_nonneg t). lia.
Qed.
Lemma lenZ_overlay new old n : lenZ new <= n -> lenZ old <= n -> lenZ (overlay new old) <= n.
Proof. unfold overlay, lenZ. rewrite length_app, length_drop. lia. Qed.
Lemma message_terminated capacity t rest : 0 < capacity -> 0 ∈ overlay (message false capacity t) rest.
Proof. intros Hc. unfold overlay, message. destruct (Z.eqb_spec capacity 0); [lia |]. simpl. set_solver. Qed.

(** The bookkeeping of a crash dump.  On every path on which the parent comes back it has closed each descriptor that the
    two pipes gave it exactly once, and it has waited for the child if there is one.  What it stored fits the caller's
    buffer; after a failure the buffer holds a terminated text; after a success that asked for diagnostics it holds the
    first bytes the utility wrote, terminated. *)
Theorem crash_dump_contract (a : DumpAnswers) (capacity : Z) (d : Dump) : 0 <= capacity -> crash_dump a false capacity = Some d ->
  closed d ≡ₚ opened a /\
  (waited d = true <-> d_pipe1 a <> None /\ d_pipe2 a <> None /\ 0 <= d_fork a) /\
  lenZ (text d) <= capacity /\
  match outcome d with
  | Err _ => 0 < capacity -> 0 ∈ text d
  | Ok _ => d_wait a = d_fork a /\ (1 < capacity -> text d = takeZ (capacity - 1) (content (d_read a)) ++ [0])
  end.
Proof.
  intros Hc. unfold crash_dump, opened.
  assert (forall t, overlay (message false capacity t) [] = message false capacity t) as Hnil by (intros t; unfold overlay; by rewrite drop_nil, app_nil_r).
  destruct (d_pipe1 a) as [[cr pw] |]; [| intros [= <-]; simpl; split; [done |]; split; [naive_solver |]; split; [by apply lenZ_message | rewrite <- Hnil; by apply message_terminated]].
  destruct (d_pipe2 a) as [[pr cw] |]; [| intros [= <-]; simpl; split; [done |]; split; [naive_solver |]; split; [by apply lenZ_message | rewrite <- Hnil; by apply message_terminated]].
  assert ([cr; cw; pw; pr] ≡ₚ [cr; pw; pr; cw]) as Hperm by (apply perm_skip; rewrite perm_swap; apply perm_skip; apply perm_swap).
  destruct (Z.ltb_spec (d_fork a) 0) as [Hf | Hf]; [intros [= <-]; simpl; split; [done |]; split; [split; [done | lia] |]; split; [by apply lenZ_message | rewrite <- Hnil; by apply message_terminated] |].
  destruct (stream_retry (d_write a)) as [written |]; simpl; [| done].
  destruct (match written with Ok n => _ | Err _ => _ end); [intros [= <-]; simpl; split; [done |]; split; [done |]; split; [by apply lenZ_message | rewrite <- Hnil; by apply message_terminated] |].
  set (data := if 1 <? capacity then drain (d_read a) (Z.to_nat (capacity - 1)) else []). set (t := if 1 <? capacity then data ++ [0] else []).
  assert (lenZ t <= capacity /\ (1 < capacity -> t = takeZ (capacity - 1) (content (d_read a)) ++ [0])) as [Ht Hx].
  { unfold t, data. destruct (Z.ltb_spec 1 capacity); [| split; [done | lia]]. rewrite drain_spec.
    change (take (Z.to_nat (capacity - 1)) (content (d_read a))) with (takeZ (capacity - 1) (content (d_read a))). split; [| done]. rewrite lenZ_app, lenZ_takeZ. change (lenZ [0]) with 1. pose proof (lenZ_nonneg (content (d_read a))). lia. }
  destruct (Z.eqb_spec (d_wait a) (d_fork a)) as [Hw | Hw]; simpl.
  - destruct (_ && _); intros [= <-]; simpl; [| done]. split; [done |]. split; [done |]. destruct (Nat.eqb_spec (length data) 0) as [E | E].
    + split; [apply lenZ_overlay; [by apply lenZ_message | done] | intros; by apply message_terminated].
    + split; [done |]. intros _. unfold t. assert (1 < capacity) as Hlt by (unfold data in E; destruct (Z.ltb_spec 1 capacity); [done | by simpl in E]).
      destruct (Z.ltb_spec 1 capacity); [set_solver | lia].
  - intros [= <-]. simpl. split; [done |]. split; [done |].
    split; [apply lenZ_overlay; [by apply lenZ_message | done] | intros; by apply message_terminated].
Qed.
Lemma crash_dump_contract_witness : exists d,
  crash_dump (mkDumpAnswers (Some (3, 4)) (Some (5, 6)) 99 [CtIntr; CtBytes 1] [RData (bytes "created"); RIntr; RData (bytes " core.99")] 99 0) false 12 = Some d /\
  closed d = [3; 6; 4; 5] /\ text d = bytes "created cor" ++ [0].
Proof.
  eexists. split; [reflexivity |]. split; [reflexivity |].
  destruct (crash_dump_contract (mkDumpAnswers (Some (3, 4)) (Some (5, 6)) 99 [CtIntr; CtBytes 1] [RData (bytes "created"); RIntr; RData (bytes " core.99")] 99 0)
    12 _ ltac:(lia) eq_refl) as (_ & _ & _ & _ & Hx). rewrite Hx by lia. reflexivity.
Defined.

(** ** Readable memory *)
Section Readable.
Context `{Arch} (probes : Z -> Probe).
Definition settled (p : Probe) : option (Z * Result bool) :=
  match p with PrInval => None | PrZero => Some (1, Err EOs) | PrFault => Some (0, Ok false) | PrOther => Some (0, Err EOs) end.
(** The pages from [probe] on that begin at or before [last]. *)
Definition pages_upto (page last probe : Z) : list Z :=
  (fun i => probe + page * Z.of_nat i) <$> seq 0 (Z.to_nat ((last - probe) / page + 1)).
Lemma pages_upto_round page last probe : 0 < page -> probe <= last ->
  pages_upto page last probe = probe :: (if probe + page <=? last then pages_upto page last (probe + page) else []).
Proof.
  intros Hp Hl. unfold pages_upto. assert (0 <= (last - probe) / page) by (apply Z.div_pos; lia).
  assert ((last - (probe + page)) / page = (last - probe) / page - 1) as E.
  { replace (last - (probe + page)) with (last - probe + (-1) * page) by lia. rewrite Z.div_add by lia. lia. }
  replace (Z.to_nat ((last - probe) / page + 1)) with (S (Z.to_nat ((last - probe) / page))) by lia. cbn [seq fmap list_fmap].
  f_equal; [lia |]. rewrite <- fmap_S_seq, <- list_fmap_compose. destruct (Z.leb_spec (probe + page) last).
  - rewrite E. replace (Z.to_nat _) with (Z.to_nat ((last - probe) / page - 1 + 1)) at 1 by lia. apply list_fmap_ext. intros i x _. simpl. lia.
  - rewrite Z.div_small by lia. done.
Qed.
Lemma probe_loop_spec page last failures fuel : forall probe, 0 < page -> page <= usize_max + 1 -> (usize_max + 1) mod page = 0 -> probe mod page = 0 ->
  0 <= probe <= last -> last <= usize_max -> (last - probe) / page < Z.of_nat fuel ->
  probe_loop fuel probes page last probe failures =
    Some (match first_some (fun p => settled (probes p)) (pages_upto page last probe) with Some (n, r) => (failures + n, r) | None => (failures, Ok true) end).
Proof.
  induction fuel as [| fuel IH]; intros probe Hp Hu Hm Ha Hl Hmax Hf. { assert (0 <= (last - probe) / page) by (apply Z.div_pos; lia). lia. }
  cbn [probe_loop]. rewrite pages_upto_round by lia. cbn [first_some].
  destruct (probes probe); simpl settled; cbv iota; try (by rewrite ?Z.add_0_r).
  assert (probe + page <= usize_max + 1) as Htop.
  { apply Z.div_exact in Hm, Ha; [| lia | lia]. assert (probe / page < (usize_max + 1) / page) by nia. nia. }
  unfold checked_add, wrap. destruct (Z.leb_spec (probe + page) usize_max) as [Hle | Hgt].
  - rewrite Z.mod_small by lia. destruct (Z.leb_spec (probe + page) last) as [Hc | Hc].
    + destruct (Z.ltb_spec last (probe + page)); [lia |]. simpl. apply IH; try (lia || done).
      * by rewrite <- Zplus_mod_idemp_r, Z.mod_same, Z.add_0_r by lia.
      * replace (last - (probe + page)) with (last - probe + (-1) * page) by lia. rewrite Z.div_add by lia. lia.
    + destruct (Z.ltb_spec last (probe + page)); [done | lia].
  - rewrite orb_true_r. destruct (Z.leb_spec (probe + page) last); [lia | done].
Qed.
Lemma elem_of_pages_upto page last probe p : 0 < page -> probe <= last ->
  p ∈ pages_upto page last probe <-> (p - probe) mod page = 0 /\ probe <= p <= last.
Proof.
  intros Hp Hl. unfold pages_upto. assert (0 <= (last - probe) / page) by (apply Z.div_pos; lia).
  rewrite list_elem_of_fmap. split.
  - intros (i & -> & Hi%elem_of_seq). replace (probe + page * Z.of_nat i - probe) with (Z.of_nat i * page) by lia. rewrite Z.mod_mul by lia.
    split; [done |]. pose proof (Z.mul_div_le (last - probe) page Hp). nia.
  - intros [Hm Hr]. apply Z.div_exact in Hm; [| lia]. assert (0 <= (p - probe) / page <= (last - probe) / page) by (split; [apply Z.div_pos; lia | apply Z.div_le_mono; lia]).
    exists (Z.to_nat ((p - probe) / page)). split; [lia |]. apply elem_of_seq. lia.
Qed.
Lemma first_some_None {A B} (f : A -> option B) l : first_some f l = None <-> forall a, a ∈ l -> f a = None.
Proof.
  induction l as [| a l IH]; simpl; [split; [intros _ b Hb; set_solver | done] |].
  destruct (f a) eqn:E; split; [done | intros Ha; rewrite Ha in E by set_solver; done | |].
  - intros Hl b [-> | Hb]%elem_of_cons; [done |]. by apply IH.
  - intros Ha. apply IH. intros b Hb. apply Ha. set_solver.
Qed.

(** The probe of readable memory decides.  For a non-empty range inside the address space it ends within its fuel; it
    answers yes exactly when the kernel can read every page that the range touches, the first and the last included; and
    a no comes from a page of the range that faulted. *)
Theorem readable_exact (k address size failures : Z) (page := 2 ^ k) : 0 <= k < usize_bits -> 0 <= address -> 0 < size -> address + size - 1 <= usize_max ->
  exists failures' r, readable probes page address size failures = Some (failures', r) /\
    (r = Ok true <-> forall p, p mod page = 0 -> address - page < p -> p < address + size -> probes p = PrInval) /\
    (r = Ok false -> exists p, p mod page = 0 /\ address - page < p < address + size /\ probes p = PrFault).
Proof.
  intros Hk Ha Hs Hl. unfold readable. replace (address + (size - 1)) with (address + size - 1) by lia.
  assert (checked_add usize_max address (size - 1) = Some (address + size - 1)) as -> by (apply checked_add_Some; lia).
  assert (0 < page) as Hp by (apply Z.pow_pos_nonneg; lia). unfold page. rewrite mask_down_pow2 by lia. fold page.
  pose proof (Z.mod_pos_bound address page Hp) as Hmod. set (probe := address - address mod page).
  assert (probe mod page = 0) as Hpm by (unfold probe; rewrite Zminus_mod, Z.mod_mod, Z.sub_diag by lia; done).
  assert (usize_max + 1 = 2 ^ (usize_bits - k) * page) as Hmul by (unfold usize_max, page; rewrite <- Z.pow_add_r by lia; replace (usize_bits - k + k) with usize_bits by lia; lia).
  assert (0 < 2 ^ (usize_bits - k)) by (apply Z.pow_pos_nonneg; lia).
  assert (0 <= probe) by (unfold probe; pose proof (Z.mod_le address page Ha Hp); lia).
  rewrite probe_loop_spec; try lia; [| nia | by rewrite Hmul, Z.mod_mul by lia |].
  2: { assert ((address + size - 1 - probe) / page <= size / page + 1); [| assert (0 <= size / page) by (apply Z.div_pos; lia); lia].
       rewrite <- (Z.div_add size 1 page), Z.mul_1_l by lia. apply Z.div_le_mono; unfold probe; lia. }
  assert (forall p, p ∈ pages_upto page (address + size - 1) probe <-> p mod page = 0 /\ address - page < p < address + size) as Hin.
  { intros p. rewrite elem_of_pages_upto by lia. assert ((p - probe) mod page = p mod page) as -> by (rewrite Zminus_mod, Hpm, Z.sub_0_r, Z.mod_mod by lia; done).
    split; intros [Hz Hr]; (split; [done |]); [unfold probe in *; lia |]. assert (probe <= p); [| lia].
    apply Z.div_exact in Hz, Hpm; [| lia | lia]. assert (probe - page < p) as Hgt by (unfold probe; lia). clearbody probe page.
    set (x := p / page) in *. set (y := probe / page) in *. assert (y - 1 < x) by nia. nia. }
  destruct (first_some _ _) as [[n r] |] eqn:E.
  - eexists _, r. split; [done |]. apply first_some_In in E as (p & Hpin & Hset). apply Hin in Hpin as [Hz Hr].
    destruct (probes p) eqn:Hpp; simplify_eq/=; (split; [split; [done | intros Hall; rewrite Hall in Hpp by lia; done] | try done]). intros _. by exists p.
  - eexists _, (Ok true). split; [done |]. split; [| done]. split; [| done]. intros _ p Hz Hlo Hhi. rewrite first_some_None in E.
    specialize (E p ltac:(apply Hin; lia)). by destruct (probes p).
Qed.
End Readable.
Lemma readable_exact_witness : exists failures' r,
  readable (H := arch64) (fun p => if p =? 8192 then PrFault else PrInval) (2 ^ 12) 4100 5000 0 = Some (failures', r) /\ (r = Ok true -> False).
Proof.
  destruct (readable_exact (H := arch64) (fun p => if p =? 8192 then PrFault else PrInval) 12 4100 5000 0 ltac:(simpl; lia) ltac:(lia) ltac:(lia) ltac:(vm_compute; discriminate))
    as (f & r & E & Hr & _).
  exists f, r. split; [exact E |]. intros Ht. apply Hr with (p := 8192) in Ht; [discriminate | reflexivity | lia | lia].
Defined.

(** ** Build ids *)
(** The notes of a segment as a linker lays them out. *)
Record Note := mkNote { n_name : list Z; n_desc : list Z; n_kind : Z }.
Fixpoint le (n : nat) (v : Z) : list Z := match n with O => [] | S n => v mod 256 :: le n (v / 256) end.
Definition padded (align : Z) (l : list Z) : list Z := l ++ zeros (next_multiple_of (lenZ l) align - lenZ l).
Definition encode_note (align : Z) (n : Note) : list Z :=
  le 4 (lenZ (n_name n)) ++ le 4 (lenZ (n_desc n)) ++ le 4 (n_kind n) ++ padded align (n_name n) ++ padded align (n_desc n).
Definition note_ok (n : Note) : Prop := lenZ (n_name n) <= u32_max /\ lenZ (n_desc n) <= u32_max /\ 0 <= n_kind n <= u32_max.
Definition is_build_id (n : Note) : bool := (n_kind n =? NT_GNU_BUILD_ID) && bool_decide (n_name n = bytes "GNU" ++ [0]).
Definition holds (mem : Z -> Z) (at_ : Z) (l : list Z) : Prop := forall i b, l !! i = Some b -> mem (at_ + Z.of_nat i) = b.

Lemma holds_app mem at_ a b : holds mem at_ (a ++ b) <-> holds mem at_ a /\ holds mem (at_ + lenZ a) b.
Proof.
  unfold holds. split.
  - intros Hh. split; intros i x Hi; [apply Hh; by apply lookup_app_l_Some |].
    replace (at_ + lenZ a + Z.of_nat i) with (at_ + Z.of_nat (length a + i)) by (unfold lenZ; lia). apply Hh. by rewrite lookup_app_r, Nat.add_comm, Nat.add_sub by lia.
  - intros [Ha Hb] i x [Hi | [Hge Hi]]%lookup_app_Some; [auto |]. apply Hb in Hi. rewrite <- Hi. f_equal. unfold lenZ. lia.
Qed.
Lemma load_holds mem at_ l n : holds mem at_ l -> 0 <= n <= lenZ l -> load_bytes mem at_ n = takeZ n l.
Proof.
  intros Hh Hn. unfold load_bytes, takeZ. apply list_eq. intros i. rewrite list_lookup_fmap.
  destruct (decide (i < Z.to_nat n)%nat) as [Hi | Hi].
  - rewrite lookup_seq_lt, lookup_take_lt by lia. simpl. destruct (l !! i) as [b |] eqn:E; [by rewrite (Hh _ _ E) |].
    apply lookup_ge_None in E. unfold lenZ in Hn. lia.
  - rewrite lookup_seq_ge, lookup_take_ge by lia. done.
Qed.
Lemma length_le n v : length (le n v) = n.
Proof. revert v. induction n as [| n IH]; intros v; simpl; [done |]. by rewrite IH. Qed.
Lemma from_le_le n v : 0 <= v < 256 ^ Z.of_nat n -> from_le (le n v) = v.
Proof.
  revert v. induction n as [| n IH]; intros v Hv; [simpl in *; lia |]. cbn [le from_le foldr]. fold (from_le (le n (v / 256))).
  rewrite IH; [pose proof (Z.div_mod v 256); lia |]. rewrite Nat2Z.inj_succ, Z.pow_succ_r in Hv by lia.
  split; [apply Z.div_pos; lia |]. apply Z.div_lt_upper_bound; lia.
Qed.
Lemma load_u32_holds mem at_ v rest : holds mem at_ (le 4 v ++ rest) -> 0 <= v <= u32_max -> load_u32 mem at_ = v.
Proof.
  intros [Hh _]%holds_app Hv. unfold load_u32. rewrite (load_holds _ _ _ _ Hh) by (unfold lenZ; rewrite length_le; lia).
  rewrite takeZ_ge by (unfold lenZ; rewrite length_le; lia). apply from_le_le. unfold u32_max in Hv. simpl. lia.
Qed.
Lemma next_multiple_ge n p : 0 < p -> n <= next_multiple_of n p.
Proof. intros Hp. unfold next_multiple_of. pose proof (Z.mod_pos_bound n p Hp). destruct (n mod p =? 0); lia. Qed.
Lemma lenZ_padded align l : 0 < align -> lenZ (padded align l) = next_multiple_of (lenZ l) align.
Proof. intros Ha. unfold padded. rewrite lenZ_app, lenZ_zeros. pose proof (next_multiple_ge (lenZ l) align Ha). lia. Qed.
Lemma lenZ_encode_note align n : 0 < align ->
  lenZ (encode_note align n) = NHDR + next_multiple_of (lenZ (n_name n)) align + next_multiple_of (lenZ (n_desc n)) align.
Proof. intros Ha. unfold encode_note. rewrite !lenZ_app, !lenZ_padded by done. unfold lenZ. rewrite !length_le. unfold NHDR. lia. Qed.

(** The loop at the start of a note. *)
Lemma note_walk_round mem start size align offset n fuel : 4 <= align -> note_ok n -> holds mem (start + offset) (encode_note align n) ->
  offset + lenZ (encode_note align n) <= size ->
  note_walk (S fuel) mem start size align offset =
    if is_build_id n then Some (Some (start + offset + NHDR + next_multiple_of 4 align, lenZ (n_desc n)))
    else note_walk fuel mem start size align (offset + lenZ (encode_note align n)).
Proof.
  intros Ha (Hn & Hd & Hk) Hh Hs. rewrite lenZ_encode_note in * by lia. cbn [note_walk].
  pose proof (next_multiple_ge (lenZ (n_name n)) align ltac:(lia)). pose proof (next_multiple_ge (lenZ (n_desc n)) align ltac:(lia)).
  pose proof (lenZ_nonneg (n_name n)). pose proof (lenZ_nonneg (n_desc n)).
  destruct (Z.ltb_spec size (offset + NHDR)); [lia |]. unfold encode_note in Hh.
  rewrite (load_u32_holds _ _ _ _ Hh) by lia. apply holds_app in Hh as [_ Hh]. change (lenZ (le 4 _)) with 4 in Hh.
  rewrite (load_u32_holds _ _ _ _ Hh) by lia. apply holds_app in Hh as [_ Hh]. change (lenZ (le 4 _)) with 4 in Hh.
  replace (start + offset + 8) with (start + offset + 4 + 4) by lia.
  rewrite (load_u32_holds _ _ _ _ Hh) by lia. apply holds_app in Hh as [_ Hh]. change (lenZ (le 4 _)) with 4 in Hh.
  replace (start + offset + 4 + 4 + 4) with (start + offset + NHDR) in Hh by (unfold NHDR; lia).
  apply holds_app in Hh as [Hh _]. unfold padded in Hh. apply holds_app in Hh as [Hh _].
  assert ((lenZ (n_name n) =? 4) && (n_kind n =? NT_GNU_BUILD_ID) && bool_decide (load_bytes mem (start + offset + NHDR) 4 = bytes "GNU" ++ [0]) = is_build_id n) as ->.
  { unfold is_build_id. destruct (Z.eqb_spec (lenZ (n_name n)) 4) as [E | E]; simpl.
    - rewrite (load_holds _ _ _ 4 Hh), takeZ_ge by lia. done.
    - rewrite bool_decide_eq_false_2; [by rewrite andb_false_r |]. intros Hx. rewrite Hx in E. done. }
  destruct (is_build_id n) eqn:Eb; [| f_equal; lia].
  unfold is_build_id in Eb. apply andb_true_iff in Eb as [_ Eb%bool_decide_eq_true]. rewrite Eb. done.
Qed.
Lemma note_walk_notes mem start align size notes : forall fuel offset, 4 <= align -> Forall note_ok notes ->
  holds mem (start + offset) (concat (encode_note align <$> notes)) -> offset + lenZ (concat (encode_note align <$> notes)) <= size ->
  forall n after, note_ok n -> is_build_id n = true -> Forall (fun n => is_build_id n = false) notes ->
  let at_ := offset + lenZ (concat (encode_note align <$> notes)) in
  holds mem (start + at_) (encode_note align n ++ after) -> at_ + lenZ (encode_note align n) <= size -> (length notes < fuel)%nat ->
  note_walk fuel mem start size align offset = Some (Some (start + at_ + NHDR + next_multiple_of 4 align, lenZ (n_desc n))).
Proof.
  induction notes as [| m notes IH]; intros fuel offset Ha Hok Hh Hsz n after Hn Hb Hnb at_ Hn' Hs Hf; destruct fuel as [| fuel]; try (simpl in Hf; lia).
  - unfold at_ in *. cbn [fmap list_fmap concat] in *. change (lenZ (@nil Z)) with 0 in *. rewrite Z.add_0_r in *. apply holds_app in Hn' as [Hn' _].
    rewrite (note_walk_round _ _ _ _ _ n) by done. by rewrite Hb.
  - inversion_clear Hok. inversion_clear Hnb as [| ? ? Hm Hnb']. cbn [fmap list_fmap concat] in Hh, Hsz. apply holds_app in Hh as [Hh1 Hh2]. rewrite lenZ_app in Hsz.
    pose proof (lenZ_nonneg (concat (encode_note align <$> notes))).
    rewrite (note_walk_round _ _ _ _ _ m) by (done || lia). rewrite Hm.
    assert (at_ = offset + lenZ (encode_note align m) + lenZ (concat (encode_note align <$> notes))) as E by (unfold at_; cbn [fmap list_fmap concat]; rewrite lenZ_app; lia).
    rewrite E in *. rewrite (IH fuel (offset + lenZ (encode_note align m)) Ha) with (n := n) (after := after); try done.
    + by replace (start + (offset + lenZ (encode_note align m))) with (start + offset + lenZ (encode_note align m)) by lia.
    + lia.
    + simpl in Hf. lia.
Qed.
Lemma notes_count align notes : 0 < align -> Z.of_nat (length notes) <= lenZ (concat (encode_note align <$> notes)).
Proof.
  intros Ha. induction notes as [| n notes IH]; [done |]. cbn [fmap list_fmap concat length]. rewrite lenZ_app, lenZ_encode_note by done.
  pose proof (next_multiple_ge (lenZ (n_name n)) align Ha). pose proof (next_multiple_ge (lenZ (n_desc n)) align Ha).
  pose proof (lenZ_nonneg (n_name n)). pose proof (lenZ_nonneg (n_desc n)). unfold NHDR. lia.
Qed.
Lemma holds_desc mem at_ align n : 0 < align -> holds mem at_ (encode_note align n) -> n_name n = bytes "GNU" ++ [0] -> holds mem (at_ + NHDR + next_multiple_of 4 align) (n_desc n).
Proof.
  intros Ha Hh Hn. unfold encode_note in Hh. do 4 apply holds_app in Hh as [_ Hh]. unfold padded at 2 in Hh. apply holds_app in Hh as [Hh _].
  rewrite lenZ_padded, Hn in Hh by done. revert Hh. unfold lenZ. rewrite !length_le. simpl length. unfold NHDR. intros Hh.
  change (Z.of_nat 4) with 4 in Hh.
  by replace (at_ + 12 + next_multiple_of 4 align) with (at_ + 4 + 4 + 4 + next_multiple_of 4 align) by lia.
Qed.

(** Reading a build id back.  A note segment is laid out note after note, names and descriptors padded to the segment's
    alignment; the module whose first loaded segment is at [base] is found behind modules that do not answer, the notes
    before the build id are passed over whatever their lengths, and the caller gets the length of the id and as many of
    its bytes as the buffer takes.  The walk over the notes ends within its fuel. *)
Theorem build_id_round_trip `{Arch} (mem : Z -> Z) (front back : list Loaded) (m : Loaded) (base capacity : Z) (load h : Phdr) (hs : list Phdr)
    (notes rest : list Note) (n : Note) (start := wrap (dlpi_addr m + p_vaddr h)) (align := Z.max (p_align h) 4) :
  Forall (fun m => build_id_callback mem base m = None) front ->
  find_phdr (fun h => p_type h =? PT_LOAD) (dlpi_phdr m) = Some load -> wrap (dlpi_addr m + p_vaddr load) = base ->
  filter (fun h => p_type h = PT_NOTE) (dlpi_phdr m) = h :: hs ->
  holds mem start (concat (encode_note align <$> notes ++ n :: rest)) -> lenZ (concat (encode_note align <$> notes ++ n :: rest)) = p_memsz h ->
  Forall note_ok (notes ++ [n]) -> Forall (fun n => is_build_id n = false) notes -> is_build_id n = true -> n_desc n <> [] -> 0 <= capacity ->
  build_id mem (front ++ m :: back) base capacity = Ok (lenZ (n_desc n), takeZ capacity (n_desc n)).
Proof.
  intros Hfront Hload Hbase Hnotes Hh Hsize Hok Hnb Hb Hd Hc. assert (4 <= align) as Ha by (unfold align; lia).
  apply Forall_app in Hok as [Hok Hn]. assert (note_ok n) as Hn1 by by inversion_clear Hn. clear Hn. rename Hn1 into Hn.
  rewrite fmap_app, concat_app in Hh, Hsize. cbn [fmap list_fmap concat] in Hh, Hsize.
  rewrite !lenZ_app in Hsize. pose proof (lenZ_nonneg (concat (encode_note align <$> rest))) as Hr.
  pose proof (lenZ_nonneg (concat (encode_note align <$> notes))) as Hl. apply holds_app in Hh as [Hh1 Hh2].
  assert (0 <= lenZ (encode_note align n)) as He by apply lenZ_nonneg. pose proof (notes_count align notes ltac:(lia)) as Hcount.
  pose proof (note_walk_notes mem start align (p_memsz h) notes (S (Z.to_nat (p_memsz h))) 0 Ha Hok ltac:(by rewrite Z.add_0_r) ltac:(cbv zeta; lia) n
    (concat (encode_note align <$> rest)) Hn Hb Hnb) as Hw. cbv zeta in Hw. rewrite Z.add_0_l in Hw. specialize (Hw Hh2 ltac:(lia) ltac:(lia)).
  assert (build_id_callback mem base m = Some (start + lenZ (concat (encode_note align <$> notes)) + NHDR + next_multiple_of 4 align, lenZ (n_desc n))) as Hcb.
  { unfold build_id_callback. rewrite Hload. simpl. rewrite Hbase, decide_False by auto. rewrite Hnotes. cbn [first_some].
    unfold segment_build_id. fold start align. by rewrite Hw. }
  unfold build_id, dl_iterate_phdr. rewrite first_some_skip by done. cbn [first_some]. rewrite Hcb. simpl default. cbv iota.
  assert (0 <= start) by (unfold start, wrap; apply Z.mod_pos_bound; destruct usize_max_cases as [-> | ->]; lia).
  pose proof (next_multiple_ge 4 align ltac:(lia)). assert (0 < lenZ (n_desc n)) by (destruct (n_desc n); [done | rewrite lenZ_cons; pose proof (lenZ_nonneg l); lia]).
  destruct (Z.eqb_spec (start + lenZ (concat (encode_note align <$> notes)) + NHDR + next_multiple_of 4 align) 0); [unfold NHDR in *; lia |].
  destruct (Z.eqb_spec (lenZ (n_desc n)) 0); [lia |]. simpl orb. cbv iota. do 2 f_equal.
  apply holds_app in Hh2 as [Hh2 _]. apply holds_desc in Hh2; [| lia | unfold is_build_id in Hb; by apply andb_true_iff in Hb as [_ Hb%bool_decide_eq_true]].
  rewrite (load_holds _ _ _ _ Hh2) by lia. unfold takeZ. destruct (Z.le_gt_cases capacity (lenZ (n_desc n))).
  - by rewrite Z.min_r by lia.
  - rewrite Z.min_l by lia. unfold lenZ in *. rewrite !take_ge by lia. done.
Qed.
Definition sample_notes : list Note := [mkNote (bytes "stapsdt" ++ [0]) [1; 2; 3; 4; 5] 3; mkNote (bytes "GNU" ++ [0]) [7; 8; 9; 10; 11; 12] 3].
Definition sample_memory (a : Z) : Z := default 0 (concat (encode_note 4 <$> sample_notes) !! Z.to_nat (a - 4608)).
Lemma build_id_round_trip_witness :
  build_id (H := arch64) sample_memory [mkLoaded 0 []; mkLoaded 4096 [mkPhdr PT_LOAD 0 8192 4096; mkPhdr PT_NOTE 512 (lenZ (concat (encode_note 4 <$> sample_notes))) 4]] 4096 4 = Ok (6, [7; 8; 9; 10]).
Proof.
  pose proof (build_id_round_trip (H := arch64) sample_memory [mkLoaded 0 []] []
    (mkLoaded 4096 [mkPhdr PT_LOAD 0 8192 4096; mkPhdr PT_NOTE 512 (lenZ (concat (encode_note 4 <$> sample_notes))) 4]) 4096 4
    (mkPhdr PT_LOAD 0 8192 4096) (mkPhdr PT_NOTE 512 (lenZ (concat (encode_note 4 <$> sample_notes))) 4) []
    [mkNote (bytes "stapsdt" ++ [0]) [1; 2; 3; 4; 5] 3] [] (mkNote (bytes "GNU" ++ [0]) [7; 8; 9; 10; 11; 12] 3)) as Hx.
  apply Hx; clear Hx.
  - constructor; [vm_compute; reflexivity | constructor].
  - reflexivity.
  - vm_compute; reflexivity.
  - vm_compute; reflexivity.
  - intros i b Hi. unfold sample_memory. change (wrap _) with 4608. replace (4608 + Z.of_nat i - 4608) with (Z.of_nat i) by lia. rewrite Nat2Z.id. exact (f_equal (default 0) Hi).
  - vm_compute; reflexivity.
  - repeat constructor; vm_compute; discriminate.
  - repeat constructor.
  - reflexivity.
  - discriminate.
  - lia.
Defined.

(** ** Unwind tables *)
Section Unwind.
Context `{Arch}.
(** Segments do not reach around the end of the address space. *)
Definition loaded_ok (m : Loaded) : Prop :=
  0 <= dlpi_addr m /\ Forall (fun h => 0 <= p_vaddr h /\ 0 <= p_memsz h /\ dlpi_addr m + p_vaddr h + p_memsz h <= usize_max) (dlpi_phdr m).
Definition covers (m : Loaded) (address : Z) : Prop := exists h, h ∈ dlpi_phdr m /\ p_type h = PT_LOAD /\
  dlpi_addr m + p_vaddr h <= address < dlpi_addr m + p_vaddr h + p_memsz h.
Definition has_tables (m : Loaded) : Prop := exists h, h ∈ dlpi_phdr m /\ p_type h = PT_GNU_EH_FRAME.
Lemma find_phdr_Some p hs h : find_phdr p hs = Some h -> h ∈ hs /\ p h = true.
Proof. intros (x & Hx & E)%first_some_In. destruct (p x) eqn:Hp; by simplify_eq. Qed.
Lemma find_phdr_None p hs : find_phdr p hs = None -> forall h, h ∈ hs -> p h = false.
Proof. intros Hn h Hh. apply first_some_None with (a := h) in Hn; [| done]. by destruct (p h). Qed.
Lemma wrap_small n : 0 <= n <= usize_max -> wrap n = n.
Proof. intros Hn. unfold wrap. apply Z.mod_small. lia. Qed.
Lemma in_segment_spec m address h : loaded_ok m -> h ∈ dlpi_phdr m ->
  in_segment (dlpi_addr m) address h = true <-> p_type h = PT_LOAD /\ dlpi_addr m + p_vaddr h <= address < dlpi_addr m + p_vaddr h + p_memsz h.
Proof.
  intros [Hb Hall] Hh. rewrite Forall_forall in Hall. destruct (Hall h Hh) as (Hv & Hm & Ht). unfold in_segment. rewrite (wrap_small (dlpi_addr m + p_vaddr h)), wrap_small by lia. lia.
Qed.
Lemma unwind_callback_spec m address : loaded_ok m ->
  match unwind_callback address m with
  | Some i => covers m address /\ has_tables m /\ base i = dlpi_addr m /\ text_start i <= address < text_start i + text_length i /\
      (exists h, h ∈ dlpi_phdr m /\ p_type h = PT_GNU_EH_FRAME /\ eh_frame_hdr i = dlpi_addr m + p_vaddr h /\ eh_frame_hdr_length i = p_memsz h)
  | None => ~ (covers m address /\ has_tables m)
  end.
Proof.
  intros Hok. pose proof Hok as [Hb Hall]. rewrite Forall_forall in Hall. unfold unwind_callback. destruct (Nat.eqb_spec (length (dlpi_phdr m)) 0) as [E | E]; simpl.
  { intros [(h & Hh & _) _]. apply nil_length_inv in E. rewrite E in Hh. set_solver. }
  destruct (Z.ltb_spec address (dlpi_addr m)). { intros [(h & Hh & _ & Hr) _]. destruct (Hall h Hh). lia. }
  destruct (find_phdr (in_segment _ _) _) as [t |] eqn:Et.
  2: { intros [(h & Hh & Hc) _]. pose proof (find_phdr_None _ _ Et h Hh) as Hf. apply (in_segment_spec m address h Hok Hh) in Hc. congruence. }
  apply find_phdr_Some in Et as [Ht Hseg]. apply (in_segment_spec m address t Hok Ht) in Hseg as [Htype Hr]. destruct (Hall t Ht) as (? & ? & ?).
  destruct (find_phdr _ (rev _)) as [e |] eqn:Ee.
  2: { intros [_ (h & Hh & Hx)]. pose proof (find_phdr_None _ _ Ee h) as Hf. rewrite list_elem_of_In, <- in_rev, <- list_elem_of_In in Hf. specialize (Hf Hh). simpl in Hf. lia. }
  apply find_phdr_Some in Ee as [He Hty%Z.eqb_eq]. rewrite list_elem_of_In, <- in_rev, <- list_elem_of_In in He. destruct (Hall e He) as (? & ? & ?).
  cbn [base text_start text_length eh_frame_hdr eh_frame_hdr_length]. rewrite !wrap_small by lia.
  split; [by exists t |]. split; [by exists e |]. split; [done |]. split; [lia |]. by exists e.
Qed.
Lemma unwind_info_search modules address : Forall loaded_ok modules ->
  match unwind_info modules address with
  | Ok i => text_start i <= address < text_start i + text_length i /\ exists m h, m ∈ modules /\ base i = dlpi_addr m /\ h ∈ dlpi_phdr m /\
      p_type h = PT_GNU_EH_FRAME /\ eh_frame_hdr i = dlpi_addr m + p_vaddr h /\ eh_frame_hdr_length i = p_memsz h
  | Err e => e = ENotFound /\ forall m, m ∈ modules -> ~ (covers m address /\ has_tables m)
  end.
Proof.
  intros Hall. rewrite Forall_forall in Hall. unfold unwind_info, dl_iterate_phdr. destruct (first_some _ _) as [i |] eqn:E; simpl.
  - apply first_some_In in E as (m & Hm & Hi). pose proof (unwind_callback_spec m address (Hall m Hm)) as Hs. rewrite Hi in Hs.
    destruct Hs as (_ & _ & Hb & Ht & h & Hh). split; [done |]. by exists m, h.
  - split; [done |]. intros m Hm. pose proof (unwind_callback_spec m address (Hall m Hm)) as Hs. rewrite first_some_None in E. by rewrite (E m Hm) in Hs.
Qed.
End Unwind.
