(* ===== verification/LinuxStd.v ===== *)
(** * LinuxStd.v: machine facts of the Linux port with the standard library

    [src/crates/dotnet-pal-linux-std/src/system.rs]: the same questions as [LinuxPlatform.v] and [LinuxImage.v] answer, asked
    through [std::fs] and [str].  A text is its list of characters; [s_read] is [std::fs::read_to_string] and [s_exists] is
    [std::fs::metadata(..).is_ok()].  The theorems compare the two ports. *)
From S2P Require Import Prelude Port Counter Boundary Tree Front Group Console Machine LinuxText LinuxPlatform LinuxImage.
Local Open Scope Z_scope.
Local Open Scope pal_scope.

(** ** [str] *)
(** [char::is_whitespace]: the property [White_Space]. *)
Definition is_whitespace (c : Z) : bool :=
  ((9 <=? c) && (c <=? 13)) || (c =? 32) || (c =? 133) || (c =? 160) || (c =? 5760) || ((8192 <=? c) && (c <=? 8202))
  || (c =? 8232) || (c =? 8233) || (c =? 8239) || (c =? 8287) || (c =? 12288).
Definition trim_start (l : list Z) : list Z := drop_while is_whitespace l.
Definition str_trim (l : list Z) : list Z := rev (trim_start (rev (trim_start l))).
Definition strip_prefix (prefix l : list Z) : option (list Z) := if starts_with l prefix then Some (drop (length prefix) l) else None.
(** [str::lines]: a terminated line loses one carriage return too. *)
Definition strip_cr (l : list Z) : list Z := match last l with Some 13 => removelast l | _ => l end.
Definition str_lines (t : list Z) : list (list Z) :=
  let ws := split (fun b => b =? NEWLINE) t in
  (strip_cr <$> removelast ws) ++ (match last ws with Some [] | None => [] | Some w => [w] end).
(** [u64::from_str]: one leading plus sign is accepted. *)
Definition parse_str (l : list Z) : option Z :=
  let ds := match l with 43 :: rest => rest | _ => l end in
  if (length ds =? 0)%nat || negb (forallb is_ascii_digit ds) then None else digits_value 0 ds.
Definition split_whitespace (l : list Z) : list (list Z) := base.filter (fun w => w <> []) (split is_whitespace l).
Definition std_parse_size (text : list Z) : option Z :=
  let text := str_trim text in
  let digits := length (take_while is_ascii_digit text) in
  if (digits =? 0)%nat then None else
  value ← digits_value 0 (take digits text);
  checked_mul u64_max value (multiplier (trim_start (drop digits text))).

Record System := mkSystem { s_read : list Z -> option (list Z); s_exists : list Z -> bool; s_kernel : Kernel; s_parallelism : option Z }.
Definition CGROUP_ROOT : list Z := bytes "/sys/fs/cgroup".

Section System.
Context (s : System).
Definition std_cgroup_directory : option (list Z) :=
  text ← s_read s (bytes "/proc/self/cgroup");
  path ← first_some (strip_prefix (bytes "0::")) (str_lines text);
  let directory := CGROUP_ROOT ++ str_trim path in
  if s_exists s directory then Some directory else None.
Definition read_size (path : list Z) : option Z := text ← s_read s path; std_parse_size text.
(** The loop of [cgroup_memory_limit]; a round shortens the directory. *)
Fixpoint std_limit_loop (fuel : nat) (directory : list Z) (best : option Z) : option (option Z) :=
  match fuel with
  | O => None
  | S fuel =>
      let best := match read_size (directory ++ bytes "/memory.max") with Some limit => Some (tighter best limit) | None => best end in
      if decide (directory = CGROUP_ROOT) then Some best else
      match rposition (fun b => b =? SLASH) directory with
      | Some i => if (length CGROUP_ROOT <=? i)%nat then std_limit_loop fuel (take i directory) best else Some best
      | None => Some best
      end
  end.
Definition std_cgroup_memory_limit : option Z :=
  directory ← std_cgroup_directory;
  best ← default None (std_limit_loop (S (length directory)) directory None);
  if best <? UNLIMITED then Some best else None.
Definition std_cgroup_memory_usage : option Z :=
  directory ← std_cgroup_directory;
  usage ← read_size (directory ++ bytes "/memory.current");
  text ← s_read s (directory ++ bytes "/memory.stat");
  field ← first_some (strip_prefix (bytes "inactive_file ")) (str_lines text);
  inactive ← parse_str (str_trim field);
  Some (saturating_sub usage inactive).
Definition std_cgroup_cpu_limit : option Z :=
  directory ← std_cgroup_directory;
  text ← s_read s (directory ++ bytes "/cpu.max");
  match split_whitespace text with
  | quota :: period :: _ =>
      if decide (quota = bytes "max") then None else
      quota ← parse_str quota; period ← parse_str period;
      if (quota =? 0) || (period =? 0) then None else
      Some (if quota <=? period then 1 else Z.min (div_ceil quota period) u32_max)
  | _ => None
  end.
Definition std_physical_total : Result Z :=
  let pages := k_sysconf (s_kernel s) ScPhysPages in if 0 <? pages then Ok (wrapping_mul pages (page (s_kernel s))) else Err EOs.
(** [range.rsplit('-').next()] *)
Definition last_end (range : list Z) : list Z :=
  match rposition (fun b => b =? DASH) range with Some i => drop (S i) range | None => range end.
Definition std_highest (text : list Z) : option Z :=
  foldl (fun highest range => match parse_str (last_end range) with
                              | Some last => Some (match highest with None => last | Some h => Z.max h last end)
                              | None => highest
                              end) None (split (fun b => b =? COMMA) (str_trim text)).
Definition std_cpu_max : Result Z :=
  match s_read s (bytes "/sys/devices/system/cpu/possible") ≫= std_highest with
  | Some highest => u32_try_from (as_u64 (highest + 1))
  | None => let value := k_sysconf (s_kernel s) ScNprocConf in if 0 <? value then u32_try_from value else Err EOs
  end.
Definition std_cpu_count : Result Z :=
  let count := match k_getaffinity (s_kernel s) with Some mask => foldr (fun w n => count_ones 64 w + n) 0 mask | None => 0 end in
  let? count := (if count =? 0 then let? n := ok_or (s_parallelism s) EOs in Ok (as_u32 n) else Ok count) in
  let count := match std_cgroup_cpu_limit with Some limit => Z.min count limit | None => count end in
  Ok (Z.max count 1).
Definition std_process_affinity (capacity : Z) : Result (Z * list Z) :=
  let? max := std_cpu_max in
  let needed := div_ceil max 8 in
  let? mask := ok_or (k_getaffinity (s_kernel s)) EOs in
  let bytes := mask_bytes mask in
  Ok (needed, takeZ (Z.min (Z.min needed capacity) (lenZ bytes)) bytes).
Definition std_virtual_limit : Result Z :=
  match k_getrlimit (s_kernel s) with None => Err EOs | Some rlim_cur => Ok (if rlim_cur =? RLIM_INFINITY then 0 else rlim_cur) end.
Definition std_memory_limit : Result Z :=
  match std_cgroup_memory_limit with
  | None => Ok 0
  | Some limit =>
      let? machine := std_physical_total in
      let result := Z.min limit machine in
      Ok (match std_virtual_limit with Ok rlimit => if negb (rlimit =? 0) then Z.min result rlimit else result | Err _ => result end)
  end.
Definition std_mem_available : option Z :=
  text ← s_read s (bytes "/proc/meminfo"); field ← first_some (strip_prefix (bytes "MemAvailable:")) (str_lines text); std_parse_size field.
Definition std_physical_memory : Result (Z * Z) :=
  let? machine := std_physical_total in
  match (match std_memory_limit with Ok limit => if negb (limit =? 0) then Some limit else None | Err _ => None end) with
  | Some limit => Ok (limit, saturating_sub limit (default 0 std_cgroup_memory_usage))
  | None => Ok (machine, Z.min (default 0 std_mem_available) machine)
  end.
Definition std_cache_round (level best index : Z) : Z :=
  let directory := bytes "/sys/devices/system/cpu/cpu0/cache/index" ++ [48 + index] in
  if decide ((text ← s_read s (directory ++ bytes "/level"); n ← parse_str (str_trim text); if n <=? u32_max then Some n else None) <> Some level) then best else
  if negb (match s_read s (directory ++ bytes "/type") with Some t => starts_with t (bytes "Data") || starts_with t (bytes "Unified") | None => false end) then best else
  match read_size (directory ++ bytes "/size") with Some size => Z.max best size | None => best end.
Definition std_cache_level_size `{Arch} (level : Z) : Result Z :=
  if negb ((1 <=? level) && (level <=? 4)) then Err EInvalidArgument else
  let value := k_sysconf (s_kernel s) (ScCache level) in
  if 0 <? value then to_usize value else to_usize (foldl (std_cache_round level) 0 [0; 1; 2; 3; 4; 5; 6; 7]).
Definition std_cache_size `{Arch} : Result Z :=
  foldl (fun best level => let? best := best in let? size := std_cache_level_size level in Ok (Z.max best size)) (Ok 0) [1; 2; 3; 4].
Definition std_swap_memory : Result (Z * Z) :=
  match k_sysinfo (s_kernel s) with
  | None => Err EOs
  | Some (mem_unit, totalswap, freeswap) =>
      let unit := if mem_unit =? 0 then 1 else mem_unit in
      let total := wrapping_mul totalswap unit in
      let available := wrapping_mul freeswap unit in
      let '(total, available) :=
        match (directory ← std_cgroup_directory; limit ← read_size (directory ++ bytes "/memory.swap.max"); Some (directory, limit)) with
        | Some (directory, limit) =>
            let used := default 0 (read_size (directory ++ bytes "/memory.swap.current")) in
            (Z.min total limit, Z.min available (saturating_sub limit used))
        | None => (total, available)
        end in
      Ok (total, Z.min available total)
  end.
Definition std_debugger_present : Result bool :=
  let? text := ok_or (s_read s (bytes "/proc/self/status")) EOs in
  let? value := ok_or (first_some (strip_prefix (bytes "TracerPid:")) (str_lines text)) EOs in
  let? pid := ok_or (parse_str (str_trim value)) EOs in
  Ok (negb (pid =? 0)).
End System.

(** ** Images *)
Section Elf.
Context `{Arch}.
Definition std_callback (address : Z) (info : Loaded) : option UnwindInfo :=
  let base := dlpi_addr info in
  let headers := dlpi_phdr info in
  if negb (address =? 0) then
    match find_phdr (in_segment base address) headers with
    | None => None
    | Some text =>
        match find_phdr (fun h => p_type h =? PT_GNU_EH_FRAME) (rev headers) with
        | None => None
        | Some hdr => Some (mkUnwindInfo base (wrap (base + p_vaddr text)) (p_memsz text) (wrap (base + p_vaddr hdr)) (p_memsz hdr) 0 0)
        end
    end
  else None.
Definition std_unwind_info (modules : list Loaded) (address : Z) : Result UnwindInfo :=
  ok_or (dl_iterate_phdr (std_callback address) modules) ENotFound.
(** The bytes of the id. *)
Definition std_segment_build_id (mem : Z -> Z) (bias : Z) (header : Phdr) : option (list Z) :=
  '(desc, descsz) ← default None (note_walk (S (Z.to_nat (p_memsz header))) mem (wrap (bias + p_vaddr header)) (p_memsz header) (Z.max (p_align header) 4) 0);
  Some (load_bytes mem desc descsz).
Definition std_note_callback (mem : Z -> Z) (base : Z) (info : Loaded) : option (list Z) :=
  let bias := dlpi_addr info in
  let headers := dlpi_phdr info in
  if decide ((fun h => wrap (bias + p_vaddr h)) <$> find_phdr (fun h => p_type h =? PT_LOAD) headers <> Some base) then None else
  first_some (std_segment_build_id mem bias) (filter (fun h => p_type h = PT_NOTE) headers).
Definition std_build_id (mem : Z -> Z) (modules : list Loaded) (base capacity : Z) : Result (Z * list Z) :=
  match dl_iterate_phdr (std_note_callback mem base) modules with
  | Some id => if (length id =? 0)%nat then Err ENotFound else Ok (lenZ id, takeZ (Z.min (lenZ id) capacity) id)
  | None => Err ENotFound
  end.
(** The probe has no check against the end of the address space. *)
Fixpoint std_probe_loop (fuel : nat) (probes : Z -> Probe) (page last probe : Z) : option (Result bool) :=
  match fuel with
  | O => None
  | S fuel =>
      match probes probe with
      | PrFault => Some (Ok false)
      | PrInval => if last <? wrap (probe + page) then Some (Ok true) else std_probe_loop fuel probes page last (wrap (probe + page))
      | _ => Some (Err EOs)
      end
  end.
Definition std_readable (probes : Z -> Probe) (page address size : Z) : option (Result bool) :=
  match checked_add usize_max address (size - 1) with
  | None => Some (Err EInvalidArgument)
  | Some last => std_probe_loop (S (Z.to_nat (size / page + 1))) probes page last (mask_down address page)
  end.
End Elf.

(** ** Available memory *)
Lemma split_lines_text ls : forallb no_newline ls = true -> split (fun b => b =? NEWLINE) (concat ((fun l => l ++ [NEWLINE]) <$> ls)) = ls ++ [[]].
Proof.
  induction ls as [| l ls IH]; [done |]. simpl forallb. intros [Hl Hls]%andb_true_iff. cbn [fmap list_fmap concat].
  rewrite split_position, <- app_assoc. unfold no_newline in Hl. destruct (position NEWLINE l) eqn:E; [done |]. rewrite position_app_None by done. simpl.
  rewrite Nat.add_0_r, take_app_length. f_equal. replace (S (length l)) with (length l + 1)%nat by lia. rewrite drop_app_add. simpl. auto.
Qed.
Definition no_return (l : list Z) : bool := forallb (fun b => negb (b =? 13)) l.
Lemma strip_cr_none l : no_return l = true -> strip_cr l = l.
Proof.
  intros Hn. unfold strip_cr. destruct (last l) as [x |] eqn:E; [| done]. apply last_Some in E as [l' ->]. unfold no_return in Hn.
  rewrite forallb_app in Hn. apply andb_true_iff in Hn as [_ Hx]. simpl in Hx. destruct (Z.eqb_spec x 13); [done |].
  repeat (case_match; try done).
Qed.
Lemma str_lines_text ls : forallb no_newline ls = true -> forallb no_return ls = true -> str_lines (concat ((fun l => l ++ [NEWLINE]) <$> ls)) = ls.
Proof.
  intros Hn Hr. unfold str_lines. rewrite split_lines_text, removelast_last, last_snoc, app_nil_r by done.
  clear Hn. induction ls as [| l ls IH]; [done |]. simpl in Hr. apply andb_true_iff in Hr as [Hl Hr]. cbn [fmap list_fmap]. rewrite strip_cr_none by done. f_equal. by apply IH.
Qed.
Lemma str_trim_word pre w : forallb is_whitespace pre = true -> match w with x :: _ => is_whitespace x = false | [] => True end ->
  match last w with Some x => is_whitespace x = false | None => True end -> str_trim (pre ++ w) = w.
Proof.
  intros Hpre Hf Hl. unfold str_trim, trim_start. rewrite drop_while_app by done.
  assert (drop_while is_whitespace w = w) as -> by (destruct w; simpl; [done | by rewrite Hf]).
  destruct (last w) as [x |] eqn:E.
  - apply last_Some in E as [w' ->]. rewrite rev_app_distr. simpl. rewrite Hl. simpl. by rewrite rev_involutive.
  - apply last_None in E as ->. done.
Qed.
Lemma digit_not_white b : is_ascii_digit b = true -> is_whitespace b = false.
Proof. unfold is_ascii_digit, is_whitespace. lia. Qed.
Lemma std_parse_kb pad ds : forallb is_whitespace pad = true -> forallb is_ascii_digit ds = true -> ds <> [] ->
  std_parse_size (pad ++ ds ++ bytes " kB") = checked_mul u64_max (dec_value 0 ds) 1024.
Proof.
  intros Hpad Hds Hn. unfold std_parse_size. rewrite str_trim_word; [| done | |].
  - assert (take_while is_ascii_digit (ds ++ bytes " kB") = ds) as -> by by apply take_while_app.
    destruct ds as [| d ds]; [done |]. set (ds' := d :: ds) in *. change (length ds' =? 0)%nat with false. cbv iota.
    rewrite take_app_length, drop_app_length, digits_value_spec by (unfold u64_max; (lia || done)).
    destruct (Z.leb_spec (dec_value 0 ds') u64_max); cbn [mbind option_bind]; [done |]. unfold checked_mul.
    destruct (Z.leb_spec (dec_value 0 ds' * 1024) u64_max); [unfold u64_max in *; lia | done].
  - destruct ds as [| d ds]; [done |]. simpl in *. apply andb_true_iff in Hds as [Hd _]. by apply digit_not_white.
  - change (bytes " kB") with ([32; 107] ++ [66]). by rewrite app_assoc, last_snoc.
Qed.

(** What the port with the standard library reports as available memory when no cgroup limits it: its [parse_size] skips
    the space before the unit, so the kibibytes of "MemAvailable:" become bytes, and the answer is at most what the
    machine has. *)
Theorem available_memory_in_bytes (s : System) (before after : list (list Z)) (pad ds : list Z) (machine : Z)
    (lines := before ++ (bytes "MemAvailable:" ++ pad ++ ds ++ bytes " kB") :: after) :
  s_read s (bytes "/proc/meminfo") = Some (concat ((fun l => l ++ [NEWLINE]) <$> lines)) ->
  forallb no_newline lines = true -> forallb no_return lines = true ->
  Forall (fun l => starts_with l (bytes "MemAvailable:") = false) before ->
  forallb is_whitespace pad = true -> forallb is_ascii_digit ds = true -> ds <> [] -> 1024 * dec_value 0 ds <= u64_max ->
  std_cgroup_memory_limit s = None -> std_physical_total s = Ok machine ->
  std_physical_memory s = Ok (machine, Z.min (1024 * dec_value 0 ds) machine).
Proof.
  intros Hread Hn Hr Hb Hpad Hds Hne Hv Hlimit Ht. unfold std_physical_memory, std_memory_limit. rewrite Ht, Hlimit. simpl result_bind. cbv iota.
  unfold std_mem_available. rewrite Hread. cbn [mbind option_bind]. rewrite str_lines_text by done. unfold lines.
  rewrite first_some_skip by (eapply Forall_impl; [exact Hb |]; intros l Hs; unfold strip_prefix; by rewrite Hs).
  cbn [first_some]. unfold strip_prefix. rewrite starts_with_app, drop_app_length. cbn [mbind option_bind]. rewrite std_parse_kb by done.
  unfold checked_mul. rewrite (Z.mul_comm _ 1024). by destruct (Z.leb_spec (1024 * dec_value 0 ds) u64_max); [| lia].
Qed.
Definition sample_system : System :=
  mkSystem (fun p => if decide (p = bytes "/proc/meminfo") then Some (text_file ["MemTotal:       16000000 kB"; "MemAvailable:    8000000 kB"; "Buffers: 1 kB"]%string) else None)
    (fun _ => false) (sample_kernel None) (Some 6).
Lemma available_memory_in_bytes_witness : std_physical_memory sample_system = Ok (4096 * 4000000, 1024 * 8000000).
Proof.
  rewrite (available_memory_in_bytes sample_system [bytes "MemTotal:       16000000 kB"] [bytes "Buffers: 1 kB"] (bytes "    ") (bytes "8000000") (4096 * 4000000));
    try (vm_compute; reflexivity); try (vm_compute; discriminate).
  repeat constructor.
Defined.

(** ** The two ports agree *)
Definition std_visit (s : System) (best : option Z) (directory : list Z) : option Z :=
  match read_size s (directory ++ bytes "/memory.max") with Some limit => Some (tighter best limit) | None => best end.
Lemma std_limit_loop_spec s fuel : forall rest best, (length (CGROUP_ROOT ++ rest) < fuel)%nat ->
  std_limit_loop s fuel (CGROUP_ROOT ++ rest) best = Some (foldl (std_visit s) best (ancestors CGROUP_ROOT (CGROUP_ROOT ++ rest))).
Proof.
  induction fuel as [| fuel IH]; intros rest best Hf; [lia |]. cbn [std_limit_loop]. rewrite ancestors_round. cbn [foldl]. fold (std_visit s best (CGROUP_ROOT ++ rest)).
  destruct (decide (CGROUP_ROOT ++ rest = CGROUP_ROOT)) as [E | E].
  - rewrite E, Nat.leb_refl. done.
  - rewrite length_app. destruct (Nat.leb_spec (length CGROUP_ROOT + length rest) (length CGROUP_ROOT)) as [Hl | Hl].
    { exfalso. apply E. assert (rest = []) as -> by (apply nil_length_inv; lia). by rewrite app_nil_r. }
    destruct (rposition _ _) as [i |] eqn:Er; [| done]. destruct (Nat.leb_spec (length CGROUP_ROOT) i); [| destruct (Nat.ltb_spec i (length CGROUP_ROOT)); [done | lia]].
    destruct (Nat.ltb_spec i (length CGROUP_ROOT)); [lia |]. apply rposition_Some in Er as (b & Hb & _). apply lookup_lt_Some in Hb.
    assert (take i (CGROUP_ROOT ++ rest) = CGROUP_ROOT ++ take (i - length CGROUP_ROOT) rest) as Ht by (by rewrite take_app, take_ge by lia).
    rewrite Ht. apply IH. rewrite <- Ht, length_take. lia.
Qed.

(** C18: the two Linux ports agree on the memory limit of a cgroup in the unified hierarchy.  Where both found the same
    directory below the same mount and their readers give the same value for each file on the way up, the limit that the
    standard-library port applies is the limit that the other port finds, unless that is at or above the value that
    stands for no limit. *)
Theorem limits_agree (s : System) (k : Kernel) (g : CGroups) (rest : list Z) :
  std_cgroup_directory s = Some (CGROUP_ROOT ++ rest) -> version g = 2 -> memory g = CGROUP_ROOT ++ rest -> memory_mount g = CGROUP_ROOT ->
  lenZ (memory g) < PATH ->
  (forall d, above CGROUP_ROOT (CGROUP_ROOT ++ rest) d -> read_size s (d ++ bytes "/memory.max") = file_size_value k d (bytes "/memory.max")) ->
  std_cgroup_memory_limit s = limit ← cgroup_memory_limit k g; if limit <? UNLIMITED then Some limit else None.
Proof.
  intros Hd Hv Hm Hmount Hl Hsame. unfold std_cgroup_memory_limit. rewrite Hd. cbn [mbind option_bind]. rewrite std_limit_loop_spec by lia.
  unfold cgroup_memory_limit. rewrite Hv, Hm, Hmount in *. destruct (Nat.eqb_spec (length (CGROUP_ROOT ++ rest)) 0) as [E | E]; [done |].
  change (2 =? 1) with false. change (2 =? 2) with true. cbv iota.
  assert (path_set (CGROUP_ROOT ++ rest) = Some (CGROUP_ROOT ++ rest)) as -> by by apply path_set_Some.
  change (default [] (Some (CGROUP_ROOT ++ rest))) with (CGROUP_ROOT ++ rest). rewrite walk_up_spec by lia.
  assert (forall ds best, (forall d, d ∈ ds -> above CGROUP_ROOT (CGROUP_ROOT ++ rest) d) ->
    foldl (std_visit s) best ds = foldl (fun a d => visit_limit k (bytes "/memory.max") d a) best ds) as Hfold.
  { induction ds as [| d ds IH]; intros best Hin; [done |]. cbn [foldl]. unfold std_visit at 2, visit_limit at 2.
    rewrite (Hsame d) by (apply Hin; set_solver). apply IH. intros e He. apply Hin. set_solver. }
  rewrite Hfold by (intros d; apply elem_of_ancestors). done.
Qed.
Definition sample_std : System :=
  mkSystem (fun p => if decide (p = bytes "/proc/self/cgroup") then Some (text_file ["0::/a"]%string)
                     else if decide (p = bytes "/sys/fs/cgroup/a/memory.max") then Some (text_file ["1g"]%string) else None)
    (fun _ => true) (sample_kernel None) None.
Definition sample_same : Kernel :=
  mkKernel (fun p => if decide (p = bytes "/sys/fs/cgroup/a/memory.max" ++ [0]) then Some [RData (text_file ["1g"]%string)] else None)
    (Some CGROUP2_MAGIC) (fun _ => 0) None (fun _ => true) 0 None None false (0, 0).
Lemma limits_agree_witness : std_cgroup_memory_limit sample_std = Some (2 ^ 30).
Proof.
  rewrite (limits_agree sample_std sample_same (mkCGroups 2 (CGROUP_ROOT ++ bytes "/a") CGROUP_ROOT []) (bytes "/a")); [vm_compute; reflexivity .. |].
  intros d [-> | (i & Hi & Hs & ->)]; [vm_compute; reflexivity |].
  destruct (decide (i = 14%nat)) as [-> |]; [vm_compute; reflexivity |]. exfalso.
  do 16 (destruct i as [| i]; [first [simpl in Hi; lia | discriminate Hs | done] |]). discriminate Hs.
Defined.

Section Agree.
Context `{Arch}.
Lemma callbacks_agree m address : loaded_ok m -> address <> 0 -> std_callback address m = unwind_callback address m.
Proof.
  intros Hok Ha. pose proof Hok as [Hb Hall]. rewrite Forall_forall in Hall. unfold std_callback, unwind_callback. destruct (Z.eqb_spec address 0); [done |]. simpl.
  destruct (Nat.eqb_spec (length (dlpi_phdr m)) 0) as [E | E]; simpl; [apply nil_length_inv in E; by rewrite E |].
  destruct (Z.ltb_spec address (dlpi_addr m)); [| done]. destruct (find_phdr (in_segment _ _) _) as [t |] eqn:Et; [| done]. exfalso.
  apply find_phdr_Some in Et as [Ht Hseg]. apply (in_segment_spec m address t Hok Ht) in Hseg. destruct (Hall t Ht). lia.
Qed.
Lemma first_some_ext {A B} (f g : A -> option B) l : (forall a, a ∈ l -> f a = g a) -> first_some f l = first_some g l.
Proof.
  induction l as [| a l IH]; intros Hfg; simpl; [done |]. rewrite Hfg by set_solver. destruct (g a); [done |]. apply IH. set_solver.
Qed.
Lemma first_some_fmap {A B C} (f : A -> option B) (h : B -> C) l : first_some (fun a => h <$> f a) l = h <$> first_some f l.
Proof. induction l as [| a l IH]; simpl; [done |]. by destruct (f a). Qed.
Lemma probes_agree probes page last failures fuel : forall probe, 0 < page -> 0 <= probe <= last -> last + page <= usize_max ->
  std_probe_loop fuel probes page last probe = snd <$> probe_loop fuel probes page last probe failures.
Proof.
  induction fuel as [| fuel IH]; intros probe Hp Hl Hm; [done |]. cbn [std_probe_loop probe_loop]. destruct (probes probe); try done.
  rewrite wrap_small by lia. unfold checked_add. destruct (Z.leb_spec (probe + page) usize_max); [| lia]. rewrite orb_false_r.
  destruct (Z.ltb_spec last (probe + page)); [done |]. apply IH; lia.
Qed.
Lemma notes_agree mem base m : std_note_callback mem base m = (fun '(desc, descsz) => load_bytes mem desc descsz) <$> build_id_callback mem base m.
Proof.
  unfold std_note_callback, build_id_callback. destruct (decide _); [done |]. rewrite <- first_some_fmap. apply first_some_ext. intros h _.
  unfold std_segment_build_id, segment_build_id. by destruct (default None _) as [[desc descsz] |].
Qed.
Lemma from_le_nonneg l : Forall (fun b => 0 <= b) l -> 0 <= from_le l.
Proof. induction 1 as [| b l Hb _ IH]; [done |]. simpl. lia. Qed.
Lemma load_u32_nonneg mem a : (forall x, 0 <= mem x) -> 0 <= load_u32 mem a.
Proof. intros Hm. apply from_le_nonneg. unfold load_bytes. apply Forall_fmap, Forall_forall. simpl. auto. Qed.
Lemma note_walk_found mem start size align fuel : (forall x, 0 <= mem x) -> 0 <= start -> 4 <= align -> forall offset d n, 0 <= offset ->
  note_walk fuel mem start size align offset = Some (Some (d, n)) -> 0 < d /\ 0 <= n.
Proof.
  intros Hm Hs Ha. induction fuel as [| fuel IH]; intros offset d n Ho; [done |]. cbn [note_walk]. destruct (size <? offset + NHDR); [done |].
  pose proof (load_u32_nonneg mem (start + offset) Hm) as H1. pose proof (load_u32_nonneg mem (start + offset + 4) Hm) as H2.
  pose proof (next_multiple_ge (load_u32 mem (start + offset)) align ltac:(lia)). pose proof (next_multiple_ge (load_u32 mem (start + offset + 4)) align ltac:(lia)).
  destruct (_ && _); [intros [= <- <-]; unfold NHDR; lia | apply IH; unfold NHDR; lia].
Qed.
Lemma build_id_callback_found mem base m d n : (forall x, 0 <= mem x) -> build_id_callback mem base m = Some (d, n) -> 0 < d /\ 0 <= n.
Proof.
  intros Hm. unfold build_id_callback. destruct (decide _); [done |]. intros (h & _ & Hh)%first_some_In. unfold segment_build_id in Hh.
  destruct (note_walk _ _ _ _ _ _) as [r |] eqn:E; simpl in Hh; [subst r | done].
  eapply (note_walk_found mem); [done | | | | exact E]; [unfold wrap; apply Z.mod_pos_bound; destruct usize_max_cases as [-> | ->]; lia | lia | lia].
Qed.
Lemma lenZ_load mem a n : 0 <= n -> lenZ (load_bytes mem a n) = n.
Proof. intros Hn. unfold lenZ, load_bytes. rewrite length_fmap, length_seq. lia. Qed.
Lemma take_load mem a n k : 0 <= k <= n -> takeZ k (load_bytes mem a n) = load_bytes mem a k.
Proof.
  intros Hk. unfold takeZ, load_bytes. rewrite <- fmap_take. f_equal. replace (Z.to_nat n) with (Z.to_nat k + (Z.to_nat n - Z.to_nat k))%nat by lia.
  rewrite seq_app. by rewrite take_app_le, take_ge by (rewrite length_seq; lia).
Qed.

(** The two Linux ports answer the questions about loaded images alike: the unwind tables of an address, the build id of
    a module with the bytes that the caller gets, and whether a range is readable, for ranges that end a page or more
    below the top of the address space. *)
Theorem images_agree (mem : Z -> Z) (probes : Z -> Probe) (modules : list Loaded) (address base capacity page size failures : Z) :
  Forall loaded_ok modules -> (forall x, 0 <= mem x) -> address <> 0 -> 0 <= capacity ->
  std_unwind_info modules address = unwind_info modules address /\
  std_build_id mem modules base capacity = build_id mem modules base capacity /\
  (0 < page -> 0 <= mask_down address page <= address -> 0 < size -> address + size - 1 + page <= usize_max ->
   std_readable probes page address size = snd <$> readable probes page address size failures).
Proof.
  intros Hall Hmem Ha Hc. rewrite Forall_forall in Hall. split; [| split].
  - unfold std_unwind_info, unwind_info, dl_iterate_phdr. f_equal. apply first_some_ext. intros m Hm. by apply callbacks_agree; auto.
  - unfold std_build_id, build_id, dl_iterate_phdr. rewrite (first_some_ext _ (fun m => (fun '(desc, descsz) => load_bytes mem desc descsz) <$> build_id_callback mem base m)) by (intros; apply notes_agree).
    rewrite first_some_fmap. destruct (first_some _ modules) as [[d n] |] eqn:E; simpl; [| done].
    apply first_some_In in E as (m & _ & E). apply build_id_callback_found in E as [Hd Hn]; [| done]. destruct (Z.eqb_spec d 0); [lia |]. simpl.
    pose proof (lenZ_load mem d n Hn) as Hl. rewrite Hl. unfold lenZ in Hl. destruct (Z.eqb_spec n 0).
    + subst n. by destruct (Nat.eqb_spec (length (load_bytes mem d 0)) 0); [| lia].
    + destruct (Nat.eqb_spec (length (load_bytes mem d n)) 0); [lia |]. by rewrite take_load by lia.
  - intros Hp Hmask Hs Hmax. unfold std_readable, readable. destruct (checked_add usize_max address (size - 1)) as [last |] eqn:E; [| done].
    apply checked_add_Some in E as [-> E]. apply probes_agree; lia.
Qed.
End Agree.
Lemma images_agree_witness :
  std_readable (H := arch64) (fun p => if p =? 8192 then PrFault else PrInval) (2 ^ 12) 4100 5000 = Some (Ok false).
Proof.
  destruct (images_agree (H := arch64) (fun _ => 0) (fun p => if p =? 8192 then PrFault else PrInval) [] 4100 0 0 (2 ^ 12) 5000 0) as (_ & _ & Hr);
    [constructor | lia | lia | lia |].
  rewrite Hr; [reflexivity | lia | vm_compute; split; discriminate | lia | vm_compute; discriminate].
Defined.
