(* ===== verification/Libc.v ===== *)
(** * Libc.v: what the Linux port takes from the C library

    Error numbers and constants of [<errno.h>], [<sys/socket.h>] and [<netinet/in.h>] as Linux has them on the ABIs with
    the generic numbers, and the way a system call is asked: a call of a kernel with state [K] changes the state and
    answers a value or an error number. *)
From S2P Require Import Prelude Port.
Local Open Scope Z_scope.
Local Open Scope pal_scope.

Module Errno.
Definition EPERM : Z := 1.
Definition ENOENT : Z := 2.
Definition ESRCH : Z := 3.
Definition EINTR : Z := 4.
Definition EAGAIN : Z := 11.
Definition ENOMEM : Z := 12.
Definition EACCES : Z := 13.
Definition EBUSY : Z := 16.
Definition EEXIST : Z := 17.
Definition EXDEV : Z := 18.
Definition ENODEV : Z := 19.
Definition ENOTDIR : Z := 20.
Definition EISDIR : Z := 21.
Definition EINVAL : Z := 22.
Definition ENFILE : Z := 23.
Definition EMFILE : Z := 24.
Definition ENOSPC : Z := 28.
Definition EROFS : Z := 30.
Definition EPIPE : Z := 32.
Definition EDEADLK : Z := 35.
Definition ENAMETOOLONG : Z := 36.
Definition ENOTEMPTY : Z := 39.
Definition EMSGSIZE : Z := 90.
Definition ENOPROTOOPT : Z := 92.
Definition EPROTONOSUPPORT : Z := 93.
Definition EOPNOTSUPP : Z := 95.
Definition EAFNOSUPPORT : Z := 97.
Definition EADDRINUSE : Z := 98.
Definition EADDRNOTAVAIL : Z := 99.
Definition ENETDOWN : Z := 100.
Definition ENETUNREACH : Z := 101.
Definition ECONNABORTED : Z := 103.
Definition ECONNRESET : Z := 104.
Definition ENOBUFS : Z := 105.
Definition EISCONN : Z := 106.
Definition ENOTCONN : Z := 107.
Definition ETIMEDOUT : Z := 110.
Definition ECONNREFUSED : Z := 111.
Definition EHOSTUNREACH : Z := 113.
Definition EINPROGRESS : Z := 115.
End Errno.

Definition i32_max : Z := 2 ^ 31 - 1.

(** [linux.rs], [status]: the name of an error number that a pthread function returns. *)
Definition native_error (error : Z) : Error :=
  if (error =? Errno.ENOMEM) || (error =? Errno.EAGAIN) then EOutOfMemory
  else if error =? Errno.EINVAL then EInvalidArgument
  else if error =? Errno.ETIMEDOUT then ETimeout
  else if error =? Errno.EBUSY then EBusy else EOs.
Definition native_status (error : Z) : Result unit := if error =? 0 then Ok tt else Err (native_error error).

(** ** Providers over a kernel *)
(** How a call of a provider ends.  [Undefined]: it used a handle that this provider did not make, which the contract
    excludes.  [Waiting]: it is still in a loop that repeats interrupted calls. *)
Inductive Outcome (S A : Type) := Returned (s : S) (r : Result A) | Undefined | Waiting.
Arguments Returned {S A} _ _.
Arguments Undefined {S A}.
Arguments Waiting {S A}.

Section Provider.
Context {S : Type}.
Definition Call (A : Type) : Type := S -> Outcome S A.
Definition give {A} (a : A) : Call A := fun s => Returned s (Ok a).
Definition refuse_with {A} (e : Error) : Call A := fun s => Returned s (Err e).
Definition then_ {A B} (m : Call A) (k : A -> Call B) : Call B := fun s =>
  match m s with
  | Returned s (Ok a) => k a s
  | Returned s (Err e) => Returned s (Err e)
  | Undefined => Undefined
  | Waiting => Waiting
  end.
Definition of_result {A} (r : Result A) : Call A := fun s => Returned s r.
End Provider.
Arguments Call : clear implicits.
Notation "'let*' x ':=' m 'in' k" := (then_ m (fun x => k)) (at level 200, x pattern, m at level 100, k at level 200, right associativity) : pal_scope.

Lemma then_Returned {S A B} (m : Call S A) (k : A -> Call S B) s s' r : then_ m k s = Returned s' r ->
  (exists s1 a, m s = Returned s1 (Ok a) /\ k a s1 = Returned s' r) \/ (exists e, m s = Returned s' (Err e) /\ r = Err e).
Proof. unfold then_. destruct (m s) as [s1 [a | e] | |]; intros E; [left; eauto | right; simplify_eq; eauto | done | done]. Qed.

(** Whether a call returned, and with success. *)
Definition succeeded {S A} (o : Outcome S A) : option bool :=
  match o with Returned _ (Ok _) => Some true | Returned _ (Err _) => Some false | _ => None end.

(** A number that is not in use: a descriptor, or the address of a block. *)
Definition above_all (X : gset Z) : Z := 16 * (1 + foldr Z.max 0 (elements X)).
Lemma above_all_gt (X : gset Z) x : x ∈ X -> x < above_all X.
Proof.
  intros Hin%elem_of_elements. unfold above_all. assert (forall l, x ∈ l -> x <= foldr Z.max 0 l /\ 0 <= foldr Z.max 0 l) as Hmax; [| specialize (Hmax _ Hin); lia].
  induction l as [| y l IH]; intros Hx; [set_solver |]. apply elem_of_cons in Hx as [-> | Hx]; simpl; [| specialize (IH Hx); lia]. split; [lia |]. clear. induction l; simpl; lia.
Qed.
Lemma above_all_spec X : 0 < above_all X /\ above_all X mod 16 = 0 /\ above_all X ∉ X.
Proof.
  split; [unfold above_all; assert (0 <= foldr Z.max 0 (elements X)) by (induction (elements X); simpl; lia); lia |].
  split; [unfold above_all; by rewrite Z.mul_comm, Z.mod_mul by lia |]. intros Hin%above_all_gt. lia.
Qed.
