(* ===== verification/LinuxSockets.v ===== *)
(** * LinuxSockets.v: the sockets provider of the Linux port

    [src/crates/dotnet-pal-linux/src/linux_sockets.rs].  A handle is a CRT allocation with the descriptor and what the
    kernel does not read back ([Socket]).  The system calls are the class [SocketCalls]: their arguments are what the
    source passes, a [sockaddr] is its bytes, an option value the fields of its C structure.  [rounds] bounds how often a
    call that a signal interrupted is repeated.

    What the kernel documents of these calls are the hypotheses of the theorems: [stores] (what it answers for an option that
    was set), the class [EventFd] (counters) and the class [Descriptors] (descriptors and blocks); [Toy] at the end of the
    file is a kernel that has all of it.  Other threads act inside the calls: they may wake a channel, and they may win the
    race for the slot of a wake channel ([c_raced]).

    The theorems: addresses survive the conversion, every errno becomes a status that the group publishes, options read
    back as the kernel keeps them, a descriptor is closed as often as it was handed out, a wake reaches the next poll of
    its channel. *)
From S2P Require Import Prelude Port Counter Boundary Tree Front Group Console Machine Net LinuxText Libc.
Import Errno.
Local Open Scope Z_scope.
Local Open Scope pal_scope.

(** ** Constants *)
Definition AF_UNIX : Z := 1.
Definition AF_INET : Z := 2.
Definition AF_INET6 : Z := 10.
Definition SOCK_STREAM : Z := 1.
Definition SOCK_DGRAM : Z := 2.
Definition SOCK_RAW : Z := 3.
Definition SOCK_CLOEXEC : Z := 524288.
Definition O_NONBLOCK : Z := 2048.
Definition MSG_PEEK : Z := 2.
Definition IPPROTO_IP : Z := 0.
Definition IPPROTO_ICMP : Z := 1.
Definition IPPROTO_TCP : Z := 6.
Definition IPPROTO_IPV6 : Z := 41.
Definition IPPROTO_ICMPV6 : Z := 58.
Definition SOL_SOCKET : Z := 1.
Definition SO_TYPE : Z := 3.
Definition SO_ERROR : Z := 4.
Definition SO_DOMAIN : Z := 39.
Definition SO_LINGER : Z := 13.
Definition IP_MULTICAST_IF : Z := 32.
Definition IP_MTU_DISCOVER : Z := 10.
Definition IP_RECVERR : Z := 11.
Definition IP_PMTUDISC_DONT : Z := 0.
Definition IP_PMTUDISC_DO : Z := 2.
Definition IP_PMTUDISC_PROBE : Z := 3.
Definition DATAGRAM : Z := 2.
Definition SHUTDOWN_WRITE : Z := 2.
Definition RECEIVE_BUFFER : Z := 5.
Definition SEND_BUFFER : Z := 6.
Definition LINGER : Z := 8.
Definition RECEIVE_TIMEOUT : Z := 9.
Definition SEND_TIMEOUT : Z := 10.
Definition MULTICAST_INTERFACE : Z := 19.
Definition POLLIN : Z := 1.
Definition POLLOUT : Z := 4.
Definition POLLERR : Z := 8.
Definition POLLHUP : Z := 16.
Definition POLLNVAL : Z := 32.
Definition POLLRDHUP : Z := 8192.
Definition EAI_NONAME : Z := -2.
Definition EAI_AGAIN : Z := -3.
Definition EAI_NODATA : Z := -5.
Definition EAI_FAMILY : Z := -6.
Definition EAI_MEMORY : Z := -10.
Definition EAI_SYSTEM : Z := -11.
Definition INFINITE : Z := u64_max.

(** [fn error] *)
Definition error (code : Z) : Error :=
  if code =? EAGAIN then EWouldBlock else if code =? EINPROGRESS then Port.EInProgress else if code =? EPIPE then EBrokenPipe else
  if code =? ECONNREFUSED then EConnectionRefused else if code =? ECONNRESET then EConnectionReset else
  if code =? ECONNABORTED then EConnectionAborted else if code =? ENOTCONN then ENotConnected else if code =? EISCONN then EAlreadyConnected else
  if code =? EADDRINUSE then EAddressInUse else if code =? EADDRNOTAVAIL then EAddressNotAvailable else
  if (code =? ENETUNREACH) || (code =? ENETDOWN) then ENetworkUnreachable else if code =? EHOSTUNREACH then EHostUnreachable else
  if (code =? EMFILE) || (code =? ENFILE) then ETooManyHandles else if code =? EMSGSIZE then EMessageTooLarge else
  if (code =? EACCES) || (code =? EPERM) then EAccessDenied else if code =? ETIMEDOUT then ETimeout else
  if (code =? ENOMEM) || (code =? ENOBUFS) then EOutOfMemory else if code =? EINVAL then EInvalidArgument else
  if (code =? EAFNOSUPPORT) || (code =? EPROTONOSUPPORT) || (code =? EOPNOTSUPP) || (code =? ENOPROTOOPT) then EUnsupported else EOs.

(** ** Addresses *)
Fixpoint le_bytes (n : nat) (v : Z) : list Z := match n with O => [] | S n => v mod 256 :: le_bytes n (v / 256) end.
Definition of_le (l : list Z) : Z := foldr (fun b n => b + 256 * n) 0 l.
(** [u16::to_be] stored in memory: the high byte first. *)
Definition be16 (v : Z) : list Z := [v / 256; v mod 256].
Definition of_be16 (l : list Z) : Z := at_ l 0 * 256 + at_ l 1.
(** [native]: the bytes of the [sockaddr], as many as the length that goes with them. *)
Definition native (a : Address) : Result (list Z) :=
  if family a =? IPV4 then Ok (le_bytes 2 AF_INET ++ be16 (port a) ++ take 4 (address a) ++ replicate 8 0)
  else if family a =? IPV6 then Ok (le_bytes 2 AF_INET6 ++ be16 (port a) ++ replicate 4 0 ++ address a ++ le_bytes 4 (scope a))
  else Err EInvalidArgument.
Definition BARE : Address := mkAddress LOCAL 0 0 (replicate 16 0).
(** [boundary] of the bytes that the kernel stored. *)
Definition boundary (raw : list Z) : option Address :=
  if (length raw <? 2)%nat then None else
  let af := of_le (take 2 raw) in
  if (af =? AF_INET) && (16 <=? length raw)%nat then Some (v4 (take 4 (drop 4 raw)) (of_be16 (drop 2 raw)))
  else if (af =? AF_INET6) && (28 <=? length raw)%nat then Some (v6 (take 16 (drop 8 raw)) (of_be16 (drop 2 raw)) (of_le (take 4 (drop 24 raw))))
  else if af =? AF_UNIX then Some BARE else None.

(** ** Handles *)
Record Socket := mkSocket { s_fd : Z; s_local : bool; s_stream : bool; s_raw : bool; s_interface : Z }.
Definition align_of_Socket : Z := 4.
Definition ported (s : Socket) (a : Address) : Address := if s_raw s then mkAddress (family a) 0 (scope a) (address a) else a.
(** [sender] *)
Definition sender (s : Socket) (raw : list Z) : option Address :=
  if s_local s then if s_stream s then None else Some BARE else ported s <$> boundary raw.

(** [(level, name, is a flag)] *)
Definition integer (opt : Z) : option (Z * Z * bool) :=
  if opt =? REUSE_ADDRESS then Some (SOL_SOCKET, 2, true) else if opt =? NO_DELAY then Some (IPPROTO_TCP, 1, true) else
  if opt =? KEEP_ALIVE then Some (SOL_SOCKET, 9, true) else if opt =? BROADCAST then Some (SOL_SOCKET, 6, true) else
  if opt =? RECEIVE_BUFFER then Some (SOL_SOCKET, 8, false) else if opt =? SEND_BUFFER then Some (SOL_SOCKET, 7, false) else
  if opt =? IPV6_ONLY then Some (IPPROTO_IPV6, 26, true) else if opt =? KEEP_ALIVE_IDLE then Some (IPPROTO_TCP, 4, false) else
  if opt =? KEEP_ALIVE_INTERVAL then Some (IPPROTO_TCP, 5, false) else if opt =? KEEP_ALIVE_COUNT then Some (IPPROTO_TCP, 6, false) else None.
Definition routed_name (opt : Z) (v6 : bool) : Result (Z * Z * bool) :=
  if opt =? HOPS then Ok (if v6 then (IPPROTO_IPV6, 16, false) else (IPPROTO_IP, 2, false)) else
  if opt =? MULTICAST_HOPS then Ok (if v6 then (IPPROTO_IPV6, 18, false) else (IPPROTO_IP, 33, false)) else
  if opt =? MULTICAST_LOOPBACK then Ok (if v6 then (IPPROTO_IPV6, 19, true) else (IPPROTO_IP, 34, true)) else
  if opt =? MULTICAST_INTERFACE then Ok (if v6 then (IPPROTO_IPV6, 17, false) else (IPPROTO_IP, IP_MULTICAST_IF, false)) else
  if opt =? PACKET_INFORMATION then Ok (if v6 then (IPPROTO_IPV6, 49, true) else (IPPROTO_IP, 8, true)) else
  if opt =? DONT_FRAGMENT then Ok (IPPROTO_IP, IP_MTU_DISCOVER, false) else
  if opt =? RECEIVE_ERRORS then Ok (if v6 then (IPPROTO_IPV6, 25, true) else (IPPROTO_IP, IP_RECVERR, true)) else Err EInvalidArgument.
Definition timeout_name (opt : Z) : Z := if opt =? RECEIVE_TIMEOUT then 20 else 21.

(** ** Readiness *)
Definition events (requested : Z) : Z :=
  Z.lor (if has requested POLL_READ then Z.lor POLLIN POLLRDHUP else 0) (if has requested POLL_WRITE then POLLOUT else 0).
Definition triggered_by (revents : Z) : Z :=
  Z.lor (Z.lor (if has revents POLLIN then POLL_READ else 0) (if has revents POLLOUT then POLL_WRITE else 0))
    (Z.lor (if has revents (Z.lor POLLERR POLLNVAL) then POLL_ERROR else 0) (if has revents (Z.lor POLLHUP POLLRDHUP) then POLL_HANGUP else 0)).

(** ** System calls *)
Class SocketCalls (K : Type) := {
  c_calloc : K -> K * Z; c_free : Z -> K -> K;
  c_socket : Z -> Z -> Z -> M K Z Z; c_close : Z -> M K Z unit;
  c_bind : Z -> list Z -> M K Z unit; c_connect : Z -> list Z -> M K Z unit; c_listen : Z -> Z -> M K Z unit;
  c_accept4 : Z -> Z -> M K Z (Z * list Z);
  c_sendto : Z -> list Z -> option (list Z) -> M K Z Z; c_recvfrom : Z -> Z -> Z -> M K Z (Z * list Z * list Z);
  c_shutdown : Z -> Z -> M K Z unit; c_getsockname : Z -> M K Z (list Z); c_getpeername : Z -> M K Z (list Z);
  c_getfl : Z -> M K Z Z; c_setfl : Z -> Z -> M K Z unit;
  c_getsockopt : Z -> Z -> Z -> M K Z (list Z); c_setsockopt : Z -> Z -> Z -> list Z -> M K Z unit;
  c_fionread : Z -> M K Z Z; c_errqueue : Z -> K -> K * bool; c_poll_write : Z -> M K Z unit;
  c_eventfd : M K Z Z; c_raced : Z -> K -> K * option Z; c_event_write : Z -> M K Z unit; c_event_read : Z -> K -> K;
  c_ppoll : list (Z * Z) -> option (Z * Z) -> M K Z (list Z); c_monotonic_ns : M K Error Z;
  c_getaddrinfo : list Z -> Z -> K -> K * (Z * Z * list (option (list Z))); c_gethostname : Z -> M K Z (list Z);
}.

Record Net (K : Type) := mkNet { kernel : K; handles : gmap Z Socket; WAKE : list Z }.
Arguments mkNet {K} _ _ _.
Arguments kernel {K} _.
Arguments handles {K} _.
Arguments WAKE {K} _.
Definition with_kernel {K} (k : K) (n : Net K) : Net K := mkNet k (handles n) (WAKE n).
Definition with_handles {K} (h : gmap Z Socket) (n : Net K) : Net K := mkNet (kernel n) h (WAKE n).

Section Provider.
Context {K : Type} {C : SocketCalls K} (rounds : nat).

(** A system call, with its error number as an answer; then with the error number named as a status. *)
Definition call {A} (m : M K Z A) : Call (Net K) (result Z A) := fun n => let '(k, r) := m (kernel n) in Returned (with_kernel k n) (Ok r).
Definition sys {A} (m : M K Z A) : Call (Net K) A :=
  let* r := call m in of_result (match r with Ok a => Ok a | Err code => Err (error code) end).
(** [loop { ..; if errno() == EINTR { continue; } .. }] *)
Fixpoint retry {A} (rounds : nat) (m : M K Z A) : Call (Net K) (result Z A) :=
  match rounds with
  | O => fun _ => Waiting
  | S rounds => let* r := call m in match r with Err code => if code =? EINTR then retry rounds m else give r | Ok _ => give r end
  end.

Definition descriptor (socket : Z) : Call (Net K) Z := fun n =>
  if (socket =? 0) || negb (socket mod align_of_Socket =? 0) then Returned n (Err EInvalidArgument) else
  match handles n !! socket with None => Undefined | Some s => Returned n (Ok (s_fd s)) end.
(** Reading the handle, after [descriptor] has looked at the pointer. *)
Definition deref (socket : Z) : Call (Net K) Socket := fun n => match handles n !! socket with None => Undefined | Some s => Returned n (Ok s) end.
Definition local (socket : Z) : Call (Net K) (Z * bool) :=
  let* fd := descriptor socket in let* s := deref socket in if s_local s then give (fd, s_stream s) else refuse_with EInvalidArgument.
Definition internet (socket : Z) : Call (Net K) Z :=
  let* fd := descriptor socket in let* s := deref socket in if s_local s then refuse_with EInvalidArgument else give fd.
Definition packet (socket : Z) : Call (Net K) Z :=
  let* fd := internet socket in let* s := deref socket in if s_stream s then refuse_with EInvalidArgument else give fd.
(** [forget_errors]: the loop takes every entry off the queue. *)
Fixpoint forget_errors (rounds : nat) (fd : Z) : Call (Net K) unit := fun n =>
  match rounds with
  | O => Waiting
  | S rounds => let '(k, taken) := c_errqueue fd (kernel n) in if (taken : bool) then forget_errors rounds fd (with_kernel k n) else Returned (with_kernel k n) (Ok tt)
  end.
Definition waited {A} (code fd : Z) : Call (Net K) A :=
  let* blocking := (if code =? EAGAIN then let* fl := call (c_getfl fd) in give (Z.land (match fl with Ok v => v | Err _ => -1 end) O_NONBLOCK =? 0) else give false) in
  if (blocking : bool) then refuse_with ETimeout else
  let* _ := (if code =? EAGAIN then give tt else forget_errors rounds fd) in
  refuse_with (error code).
(** [wrap]: a fresh handle; without memory for it the descriptor is closed. *)
Definition wrap (fd : Z) (local stream raw : bool) : Call (Net K) Z := fun n =>
  let '(k, p) := c_calloc (kernel n) in
  if p =? 0 then let '(k, _) := c_close fd k in Returned (with_kernel k n) (Err EOutOfMemory)
  else Returned (mkNet k (<[p := mkSocket fd local stream raw 0]> (handles n)) (WAKE n)) (Ok p).
Definition endpoint (socket : Z) (query : Z -> M K Z (list Z)) : Call (Net K) Address :=
  let* fd := descriptor socket in
  let* raw := sys (query fd) in
  let* s := deref socket in
  let* a := of_result (ok_or (boundary raw) EOs) in
  give (ported s a).

Definition get (fd level name : Z) : Call (Net K) (list Z) := sys (c_getsockopt fd level name).
Definition set (fd level name : Z) (value : list Z) : Call (Net K) unit := sys (c_setsockopt fd level name value).
Definition shape (fd : Z) : Call (Net K) (bool * Z) :=
  let* kind := get fd SOL_SOCKET SO_TYPE in let* domain := get fd SOL_SOCKET SO_DOMAIN in give (at_ kind 0 =? SOCK_STREAM, at_ domain 0).
Definition routed (fd option_ : Z) : Call (Net K) (Z * Z * bool) :=
  let* (stream, domain) := shape fd in
  let v6 := domain =? AF_INET6 in
  if (domain =? AF_UNIX) || (stream && negb ((option_ =? HOPS) || (option_ =? DONT_FRAGMENT))) || (v6 && (option_ =? DONT_FRAGMENT)) then refuse_with EUnsupported
  else of_result (routed_name option_ v6).

(** [wake_descriptor]; the slots start at -1.  [c_raced] says whether another thread has put its own eventfd into the slot
    between the load and the [compare_exchange]: then the loser closes the one it made and uses the winner's. *)
Definition wake_descriptor (channel : Z) : Call (Net K) Z := fun n =>
  match WAKE n !! Z.to_nat channel with
  | None => Returned n (Err EInvalidArgument)
  | Some current =>
      if 0 <=? current then Returned n (Ok current) else
      (let* created := sys c_eventfd in fun n =>
       let '(k, raced) := c_raced channel (kernel n) in
       match raced with
       | None => Returned (mkNet k (handles n) (<[Z.to_nat channel := created]> (WAKE n))) (Ok created)
       | Some winner => let '(k, _) := c_close created k in Returned (mkNet k (handles n) (<[Z.to_nat channel := winner]> (WAKE n))) (Ok winner)
       end) n
  end.

(** ** Operations *)
Definition create (family kind : Z) : Call (Net K) Z :=
  let* domain := of_result (if family =? IPV4 then Ok AF_INET else if family =? IPV6 then Ok AF_INET6 else if family =? LOCAL then Ok AF_UNIX else Err EInvalidArgument) in
  let* (shape, protocol) := of_result (
    if kind =? STREAM then Ok (SOCK_STREAM, 0) else if kind =? DATAGRAM then Ok (SOCK_DGRAM, 0)
    else if (kind =? RAW) && (family =? IPV4) then Ok (SOCK_RAW, IPPROTO_ICMP)
    else if (kind =? RAW) && (family =? IPV6) then Ok (SOCK_RAW, IPPROTO_ICMPV6) else Err EInvalidArgument) in
  let* fd := sys (c_socket domain (Z.lor shape SOCK_CLOEXEC) protocol) in
  wrap fd (family =? LOCAL) (kind =? STREAM) (kind =? RAW).
Definition close (socket : Z) : Call (Net K) unit :=
  let* fd := descriptor socket in
  let* r := call (c_close fd) in
  let* _ := (fun n => Returned (mkNet (c_free socket (kernel n)) (delete socket (handles n)) (WAKE n)) (Ok tt)) in
  match r with Ok _ => give tt | Err code => if (code =? 0) || (code =? EINTR) then give tt else refuse_with (error code) end.
Definition bind_ (socket : Z) (a : Address) : Call (Net K) unit :=
  let* fd := internet socket in
  let* s := deref socket in
  let* raw := of_result (native (ported s a)) in
  sys (c_bind fd raw).
Definition listen (socket backlog : Z) : Call (Net K) unit := let* fd := descriptor socket in sys (c_listen fd (Z.min backlog i32_max)).
Definition accept (socket : Z) : Call (Net K) (Z * Address) :=
  let* fd := descriptor socket in
  let* s := deref socket in
  let* r := retry rounds (c_accept4 fd SOCK_CLOEXEC) in
  match r with
  | Err code => waited code fd
  | Ok (accepted, raw) => let* handle := wrap accepted (s_local s) true false in give (handle, default address_default (boundary raw))
  end.
(** A raw socket's peer gets the protocol number as its port. *)
Definition connect_peer (s : Socket) (a : Address) : Address :=
  let peer := ported s a in
  if s_raw s then mkAddress (family peer) (if family peer =? IPV6 then IPPROTO_ICMPV6 else IPPROTO_ICMP) (scope peer) (address peer) else peer.
Definition connect (socket : Z) (a : Address) : Call (Net K) unit :=
  let* fd := internet socket in
  let* s := deref socket in
  let* raw := of_result (native (connect_peer s a)) in
  let* r := call (c_connect fd raw) in
  match r with
  | Ok _ => give tt
  | Err code =>
      if negb (code =? EINTR) then refuse_with (error code) else
      let* settled := retry rounds (c_poll_write fd) in
      match settled with
      | Err code => refuse_with (error code)
      | Ok _ => let* pending := get fd SOL_SOCKET SO_ERROR in if at_ pending 0 =? 0 then give tt else refuse_with (error (at_ pending 0))
      end
  end.
Definition send (socket : Z) (data : list Z) (to : option Address) : Call (Net K) Z :=
  let* fd := match to with Some _ => internet socket | None => descriptor socket end in
  let* target := match to with
                 | Some a => let* s := deref socket in let* raw := of_result (native (ported s a)) in give (Some raw)
                 | None => give None
                 end in
  let* r := retry rounds (c_sendto fd data target) in
  match r with Err code => waited code fd | Ok n => give n end.
Definition receive (socket capacity flags : Z) : Call (Net K) (Z * option Address * list Z) :=
  let* fd := descriptor socket in
  let* r := retry rounds (c_recvfrom fd capacity (if has flags RECEIVE_PEEK then MSG_PEEK else 0)) in
  match r with
  | Err code => waited code fd
  | Ok (n, data, raw) => let* s := deref socket in give (n, sender s raw, data)
  end.
Definition shutdown (socket how : Z) : Call (Net K) unit :=
  let* fd := descriptor socket in
  let* how := of_result (if how =? SHUTDOWN_READ then Ok 0 else if how =? SHUTDOWN_WRITE then Ok 1 else if how =? SHUTDOWN_BOTH then Ok 2 else Err EInvalidArgument) in
  sys (c_shutdown fd how).
Definition local_address (socket : Z) : Call (Net K) Address := endpoint socket c_getsockname.
Definition peer_address (socket : Z) : Call (Net K) Address := endpoint socket c_getpeername.
Definition set_blocking (socket : Z) (blocking : bool) : Call (Net K) unit :=
  let* fd := descriptor socket in
  let* flags := sys (c_getfl fd) in
  let wanted := if blocking then Z.land flags (Z.lnot O_NONBLOCK) else Z.lor flags O_NONBLOCK in
  if negb (wanted =? flags) then sys (c_setfl fd wanted) else give tt.
(** A native integer as the boundary reads it. *)
Definition read_integer (flag : bool) (v : Z) : Z := if flag then (if v =? 0 then 0 else 1) else Z.max v 0.
Definition is_routed (opt : Z) : bool :=
  (opt =? HOPS) || (opt =? MULTICAST_HOPS) || (opt =? MULTICAST_LOOPBACK) || (opt =? MULTICAST_INTERFACE) || (opt =? PACKET_INFORMATION)
  || (opt =? DONT_FRAGMENT) || (opt =? RECEIVE_ERRORS).
Definition saturating_mul (max a b : Z) : Z := Z.min max (a * b).
Definition ceil_div (a b : Z) : Z := (a + b - 1) / b.
Definition get_option (socket opt : Z) : Call (Net K) Z :=
  let* fd := descriptor socket in
  match integer opt with
  | Some (level, name, flag) => let* value := get fd level name in give (read_integer flag (at_ value 0))
  | None =>
      if opt =? LINGER then
        let* value := get fd SOL_SOCKET SO_LINGER in give (if at_ value 0 =? 0 then 0 else Z.max (at_ value 1) 0 + 1)
      else if (opt =? RECEIVE_TIMEOUT) || (opt =? SEND_TIMEOUT) then
        let* value := get fd SOL_SOCKET (timeout_name opt) in
        give (saturating_add u64_max (saturating_mul u64_max (Z.max (at_ value 0) 0) 1000) (ceil_div (Z.max (at_ value 1) 0) 1000))
      else if opt =? SOCKET_ERROR then
        let* value := get fd SOL_SOCKET SO_ERROR in
        if at_ value 0 =? 0 then give OK else let* _ := forget_errors rounds fd in give (status_of (error (at_ value 0)))
      else if opt =? AVAILABLE then let* value := sys (c_fionread fd) in give (Z.max value 0)
      else if is_routed opt then
        let* (level, name, flag) := routed fd opt in
        if name =? IP_MULTICAST_IF then let* s := deref socket in give (s_interface s) else
        let* value := get fd level name in
        give (if name =? IP_MTU_DISCOVER then (if (at_ value 0 =? IP_PMTUDISC_DO) || (at_ value 0 =? IP_PMTUDISC_PROBE) then 1 else 0)
              else read_integer flag (at_ value 0))
      else refuse_with EInvalidArgument
  end.
(** [multicast_interface.store(..)] *)
Definition store_interface (socket value : Z) : Call (Net K) unit := fun n =>
  match handles n !! socket with
  | None => Undefined
  | Some s => Returned (with_handles (<[socket := mkSocket (s_fd s) (s_local s) (s_stream s) (s_raw s) value]> (handles n)) n) (Ok tt)
  end.
Definition set_interface (socket fd level name clamped : Z) : Call (Net K) unit :=
  let* r := call (c_setsockopt fd level name (if name =? IP_MULTICAST_IF then [0; 0; clamped] else [clamped])) in
  match r with
  | Ok _ => if name =? IP_MULTICAST_IF then store_interface socket clamped else give tt
  | Err code => refuse_with (if code =? ENODEV then EAddressNotAvailable else error code)
  end.
Definition set_option (socket opt value : Z) : Call (Net K) unit :=
  let* fd := descriptor socket in
  let clamped := Z.min value i32_max in
  match integer opt with
  | Some (level, name, _) => set fd level name [clamped]
  | None =>
      if opt =? LINGER then
        set fd SOL_SOCKET SO_LINGER [if value =? 0 then 0 else 1; Z.min (saturating_sub value 1) i32_max]
      else if (opt =? RECEIVE_TIMEOUT) || (opt =? SEND_TIMEOUT) then
        set fd SOL_SOCKET (timeout_name opt) [Z.min (value / 1000) i32_max; value mod 1000 * 1000]
      else if (opt =? HOPS) || (opt =? MULTICAST_HOPS) || (opt =? MULTICAST_LOOPBACK) || (opt =? PACKET_INFORMATION) then
        let* (level, name, _) := routed fd opt in set fd level name [clamped]
      else if opt =? DONT_FRAGMENT then
        let* (level, name, _) := routed fd opt in set fd level name [if value =? 0 then IP_PMTUDISC_DONT else IP_PMTUDISC_DO]
      else if opt =? RECEIVE_ERRORS then
        let* (level, name, _) := routed fd opt in
        let* s := deref socket in
        let* _ := (if (level =? IPPROTO_IPV6) && negb (s_raw s) then set fd IPPROTO_IP IP_RECVERR [clamped] else give tt) in
        set fd level name [clamped]
      else if opt =? MULTICAST_INTERFACE then
        let* (level, name, _) := routed fd opt in set_interface socket fd level name clamped
      else refuse_with EInvalidArgument
  end.

(** ** Waiting for readiness *)
Fixpoint slots_of (entries : list PollEntry) : Call (Net K) (list (Z * Z)) :=
  match entries with
  | [] => give []
  | e :: entries => let* fd := descriptor (pe_socket e) in let* rest := slots_of entries in give ((fd, events (requested e)) :: rest)
  end.
Definition clock : Call (Net K) Z := fun n => let '(k, r) := c_monotonic_ns (kernel n) in Returned (with_kernel k n) r.
Definition timespec_of (remaining : Z) : Z * Z := (Z.min (remaining / 1000000000) i32_max, remaining mod 1000000000).
(** The loop around [ppoll]; an interrupted wait goes on with what is left until the deadline. *)
Fixpoint ppoll_loop (rounds : nat) (slots : list (Z * Z)) (timeout_ns : Z) (deadline : option Z) (remaining : Z) : Call (Net K) (list Z) :=
  match rounds with
  | O => fun _ => Waiting
  | S rounds =>
      let* r := call (c_ppoll slots (if timeout_ns =? INFINITE then None else Some (timespec_of remaining))) in
      match r with
      | Ok revents => give revents
      | Err code =>
          if negb (code =? EINTR) then refuse_with (error code) else
          match deadline with
          | Some d => let* now := clock in ppoll_loop rounds slots timeout_ns deadline (saturating_sub d now)
          | None => ppoll_loop rounds slots timeout_ns deadline remaining
          end
      end
  end.
(** [wait]: the [triggered] word of each entry. *)
Definition wait (entries : list PollEntry) (wake : option Z) (timeout_ns : Z) : Call (Net K) (list Z) :=
  let* slots := slots_of entries in
  let slots := slots ++ match wake with Some fd => [(fd, POLLIN)] | None => [] end in
  let* deadline := (if (timeout_ns =? 0) || (timeout_ns =? INFINITE) then give None
                    else let* now := clock in give (Some (saturating_add u64_max now timeout_ns))) in
  let* revents := ppoll_loop rounds slots timeout_ns deadline timeout_ns in
  let answers := triggered_by <$> take (length entries) revents in
  match wake with
  | Some fd =>
      if has (at_ revents (length entries)) POLLIN
      then fun n => Returned (with_kernel (c_event_read fd (kernel n)) n) (Ok answers)
      else give answers
  | None => give answers
  end.
Definition INLINE_POLL : Z := 64.
(** [poll]: a set that does not fit the stack is a CRT allocation for the time of the call; the entries keep their
    [triggered] words when it fails. *)
Definition poll (entries : list PollEntry) (timeout_ns : Z) (channel : option Z) : Call (Net K) (list Z) :=
  let* wake := match channel with Some c => let* fd := wake_descriptor c in give (Some fd) | None => give None end in
  let count := lenZ entries + (if wake then 1 else 0) in
  if INLINE_POLL <? count then
    fun n => let '(k, heap) := c_calloc (kernel n) in
    if heap =? 0 then Returned (with_kernel k n) (Err EOutOfMemory) else
    match wait entries wake timeout_ns (with_kernel k n) with
    | Returned n r => Returned (with_kernel (c_free heap (kernel n)) n) r
    | o => o
    end
  else wait entries wake timeout_ns.
(** [wake]: a full counter is already signaled. *)
Fixpoint wake_loop (rounds : nat) (fd : Z) : Call (Net K) unit :=
  match rounds with
  | O => fun _ => Waiting
  | S rounds =>
      let* r := call (c_event_write fd) in
      match r with
      | Ok _ => give tt
      | Err code => if code =? EINTR then wake_loop rounds fd else if code =? EAGAIN then give tt else refuse_with (error code)
      end
  end.
Definition wake (channel : Z) : Call (Net K) unit := let* fd := wake_descriptor channel in wake_loop rounds fd.

(** ** Names *)
Fixpoint getaddrinfo_loop (rounds : nat) (name : list Z) (family : Z) : Call (Net K) (Z * Z * list (option (list Z))) := fun n =>
  match rounds with
  | O => Waiting
  | S rounds =>
      let '(k, (code, errno, found)) := c_getaddrinfo name family (kernel n) in
      if (code =? EAI_SYSTEM) && (errno =? EINTR) then getaddrinfo_loop rounds name family (with_kernel k n)
      else Returned (with_kernel k n) (Ok (code, errno, found))
  end.
(** The loop over the answers: an address that the boundary has no form for, and one that is listed already, is left out. *)
Fixpoint list_addresses (found : list (option (list Z))) (capacity : Z) (out : list Address) : list Address :=
  match found with
  | [] => out
  | raw :: found =>
      if capacity <=? lenZ out then out else
      match raw ≫= boundary with
      | None => list_addresses found capacity out
      | Some a => list_addresses found capacity (if decide (a ∈ out) then out else out ++ [a])
      end
  end.
Definition resolve (name : list Z) (family capacity : Z) : Call (Net K) (Z * list Address) :=
  if MAX_HOST_NAME <? lenZ name then refuse_with EInvalidArgument else
  let* hint := of_result (if family =? 0 then Ok 0 else if family =? IPV4 then Ok AF_INET else if family =? IPV6 then Ok AF_INET6 else Err EInvalidArgument) in
  let* (code, errno, found) := getaddrinfo_loop rounds name hint in
  if code =? 0 then let out := list_addresses found capacity [] in give (lenZ out, out)
  else if (code =? EAI_NONAME) || (code =? EAI_NODATA) then refuse_with ENotFound
  else if code =? EAI_AGAIN then refuse_with ETimeout else if code =? EAI_MEMORY then refuse_with EOutOfMemory
  else if code =? EAI_FAMILY then refuse_with EUnsupported else if code =? EAI_SYSTEM then refuse_with (error errno) else refuse_with EOs.
(** [host_name]: the kernel fills at most [name.len() - 1] bytes of a cleared array. *)
Definition host_name (capacity : Z) : Call (Net K) (Z * option (list Z)) :=
  let* filled := sys (c_gethostname (MAX_HOST_NAME + 1)) in
  let name := take 257 (filled ++ replicate 257 0) in
  let length := Z.of_nat (default 256%nat (byte_position 0 name)) + 1 in
  give (length, if length <=? capacity then Some (takeZ length name) else None).
End Provider.

(** ** Addresses survive the conversion *)
Definition byte (b : Z) : Prop := 0 <= b < 256.
Record address_ok (a : Address) : Prop := {
  ao_length : length (address a) = 16%nat; ao_bytes : Forall byte (address a);
  ao_port : 0 <= port a < 65536; ao_scope : 0 <= scope a <= u32_max }.
Lemma of_le_bytes n v : 0 <= v < 256 ^ Z.of_nat n -> of_le (le_bytes n v) = v.
Proof.
  revert v. induction n as [| n IH]; intros v Hv; [simpl in *; lia |]. cbn [le_bytes of_le foldr]. fold (of_le (le_bytes n (v / 256))).
  rewrite IH; [pose proof (Z.div_mod v 256); lia |]. rewrite Nat2Z.inj_succ, Z.pow_succ_r in Hv by lia.
  split; [apply Z.div_pos; lia |]. apply Z.div_lt_upper_bound; lia.
Qed.
Lemma of_be16_be16 v rest : 0 <= v < 65536 -> of_be16 (be16 v ++ rest) = v.
Proof. intros Hv. unfold of_be16, be16, at_. simpl. pose proof (Z.div_mod v 256). lia. Qed.
Lemma boundary_v4 p octets : length octets = 4%nat -> 0 <= p < 65536 ->
  boundary (le_bytes 2 AF_INET ++ be16 p ++ octets ++ replicate 8 0) = Some (v4 octets p).
Proof.
  intros Hl Hp. destruct octets as [| a [| b [| c [| d [|]]]]]; try discriminate. unfold boundary.
  change (drop 2 _) with (be16 p ++ [a; b; c; d] ++ replicate 8 0). rewrite of_be16_be16 by done. done.
Qed.
Lemma boundary_v6 p sc octets : length octets = 16%nat -> 0 <= p < 65536 -> 0 <= sc <= u32_max ->
  boundary (le_bytes 2 AF_INET6 ++ be16 p ++ replicate 4 0 ++ octets ++ le_bytes 4 sc) = Some (v6 octets p sc).
Proof.
  intros Hl Hp Hs. unfold boundary. rewrite !length_app, Hl. change (length (le_bytes 4 sc)) with 4%nat. change (length (le_bytes 2 AF_INET6)) with 2%nat.
  change (length (be16 p)) with 2%nat. simpl length. cbv [Nat.add Nat.ltb Nat.leb]. cbv iota.
  change (take 2 (le_bytes 2 AF_INET6 ++ _)) with (le_bytes 2 AF_INET6). change (of_le (le_bytes 2 AF_INET6)) with 10. simpl andb. cbv iota.
  change (drop 8 (le_bytes 2 AF_INET6 ++ _)) with (octets ++ le_bytes 4 sc).
  change (drop 24 (le_bytes 2 AF_INET6 ++ _)) with (drop 16 (octets ++ le_bytes 4 sc)).
  change (drop 2 (le_bytes 2 AF_INET6 ++ _)) with (be16 p ++ replicate 4 0 ++ octets ++ le_bytes 4 sc).
  rewrite of_be16_be16 by done. rewrite <- Hl, take_app_length, drop_app_length. change (take 4 (le_bytes 4 sc)) with (le_bytes 4 sc).
  rewrite of_le_bytes by (unfold u32_max in Hs; simpl; lia). done.
Qed.
Lemma native_boundary a b : address_ok a -> normalized a = Some b -> exists raw, native b = Ok raw /\ boundary raw = Some b.
Proof.
  intros [Hl Hb Hp Hs] Hn. unfold normalized in Hn. unfold native. destruct (Z.eqb_spec (family a) IPV4) as [E | E].
  - injection Hn as <-. cbn [family port scope address]. rewrite E. change (IPV4 =? IPV4) with true. cbv iota. eexists. split; [reflexivity |].
    assert (take 4 (fill_from 4 (address a)) = take 4 (address a)) as ->.
    { unfold fill_from. rewrite take_app_le, take_take by (rewrite length_take; lia). done. }
    rewrite boundary_v4; [| rewrite length_take; lia | done]. unfold v4, fill_from. rewrite Hl. done.
  - destruct (Z.eqb_spec (family a) IPV6) as [E6 | E6]; simplify_eq. rewrite E6. change (IPV6 =? IPV4) with false. change (IPV6 =? IPV6) with true. cbv iota. eexists. split; [reflexivity |].
    rewrite boundary_v6 by done. unfold v6. rewrite <- E6. by destruct b.
Qed.
Lemma of_le_range l : Forall byte l -> 0 <= of_le l < 256 ^ Z.of_nat (length l).
Proof. induction 1 as [| b l Hb _ IH]; [simpl; lia |]. cbn [of_le foldr length]. fold (of_le l). rewrite Nat2Z.inj_succ, Z.pow_succ_r by lia. unfold byte in Hb. lia. Qed.
Lemma Forall_at (P : Z -> Prop) l i : P 0 -> Forall P l -> P (at_ l i).
Proof. intros H0 Hl. unfold at_. destruct (l !! i) eqn:E; simpl; [by eapply Forall_lookup_1 | done]. Qed.
Lemma boundary_ok raw a : Forall byte raw -> boundary raw = Some a -> address_ok a /\ reported a = Some a.
Proof.
  intros Hb. unfold boundary. destruct (Nat.ltb_spec (length raw) 2); [done |].
  assert (0 <= of_be16 (drop 2 raw) < 65536) as Hp.
  { assert (Forall byte (drop 2 raw)) as Hd by by apply Forall_drop. unfold of_be16. pose proof (Forall_at byte _ 0 ltac:(unfold byte; lia) Hd) as H0.
    pose proof (Forall_at byte _ 1 ltac:(unfold byte; lia) Hd) as H1. unfold byte in *. lia. }
  destruct (_ && (16 <=? _)%nat) eqn:E4.
  { apply andb_true_iff in E4 as [_ Hl%Nat.leb_le]. intros [= <-].
    assert (length (take 4 (drop 4 raw)) = 4%nat) as H4 by (rewrite length_take, length_drop; lia).
    split; [split; simpl |].
    - rewrite length_app, H4. done.
    - apply Forall_app. split; [by apply Forall_take, Forall_drop |]. by repeat constructor.
    - done.
    - unfold u32_max. lia.
    - unfold reported, normalized, v4. simpl. f_equal. f_equal. unfold fill_from. rewrite take_app_le, take_ge by lia. rewrite length_app, H4. done. }
  destruct (_ && (28 <=? _)%nat) eqn:E6.
  { apply andb_true_iff in E6 as [_ Hl%Nat.leb_le]. intros [= <-]. split; [split; simpl | done].
    - rewrite length_take, length_drop. lia.
    - by apply Forall_take, Forall_drop.
    - done.
    - pose proof (of_le_range (take 4 (drop 24 raw)) ltac:(by apply Forall_take, Forall_drop)) as Hs. rewrite length_take, length_drop, Nat.min_l in Hs by lia. unfold u32_max. simpl in Hs. lia. }
  destruct (_ =? AF_UNIX); [| done]. intros [= <-]. split; [| done]. split; simpl; [done | by repeat constructor | lia | unfold u32_max; lia].
Qed.

Section Facts.
Context {K : Type} {C : SocketCalls K} (rounds : nat).
Implicit Types (n : Net K).
Definition is_handle (socket : Z) : Prop := socket <> 0 /\ socket mod align_of_Socket = 0.
Lemma descriptor_handle n socket s : is_handle socket -> handles n !! socket = Some s -> descriptor socket n = Returned n (Ok (s_fd s)).
Proof. intros [H0 Ha] Hs. unfold descriptor. destruct (Z.eqb_spec socket 0); [done |]. rewrite Ha. simpl. by rewrite Hs. Qed.
Lemma deref_handle n socket s : handles n !! socket = Some s -> deref socket n = Returned n (Ok s).
Proof. intros Hs. unfold deref. by rewrite Hs. Qed.
Lemma internet_handle n socket s : is_handle socket -> handles n !! socket = Some s -> s_local s = false -> internet socket n = Returned n (Ok (s_fd s)).
Proof. intros Hh Hs Hl. unfold internet, then_. rewrite (descriptor_handle n socket s), (deref_handle n socket s), Hl by done. done. Qed.
Lemma call_eq {A} (m : M K Z A) n k r : m (kernel n) = (k, r) -> call m n = Returned (with_kernel k n) (Ok r).
Proof. intros E. unfold call. by rewrite E. Qed.
Lemma sys_eq {A} (m : M K Z A) n k (a : A) : m (kernel n) = (k, Ok a) -> sys m n = Returned (with_kernel k n) (Ok a).
Proof. intros E. unfold sys, then_. by rewrite (call_eq m n k (Ok a)). Qed.
Lemma sys_Ok {A} (m : M K Z A) n n' (a : A) : sys m n = Returned n' (Ok a) -> m (kernel n) = (kernel n', Ok a) /\ handles n' = handles n /\ WAKE n' = WAKE n.
Proof.
  unfold sys, then_, call. destruct (m (kernel n)) as [k [b | code]] eqn:E; simpl; [| done]. unfold of_result. intros [= <- <-]. done.
Qed.
Lemma with_kernel_id n : with_kernel (kernel n) n = n.
Proof. by destruct n. Qed.

(** An address comes back as it went out.  Once a bind of an internet socket has succeeded, in a kernel whose
    [getsockname] answers with the address it was given, [local_address] reports the address that the caller named, with
    port 0 if the socket is a raw one; and the front end hands that address on unchanged. *)
Theorem bound_address_reads_back n n1 (socket : Z) (s : Socket) (a b : Address) (k2 : K) :
  is_handle socket -> handles n !! socket = Some s -> address_ok a -> normalized a = Some b ->
  bind_ socket b n = Returned n1 (Ok tt) -> (forall raw, native (ported s b) = Ok raw -> c_getsockname (s_fd s) (kernel n1) = (k2, Ok raw)) ->
  local_address socket n1 = Returned (with_kernel k2 n1) (Ok (ported s b)) /\ reported (ported s b) = Some (ported s b).
Proof.
  intros Hh Hs Ha Hn Hb Hk.
  assert (exists a', address_ok a' /\ normalized a' = Some (ported s b)) as (a' & Ha' & Hn').
  { exists (ported s a). unfold ported. destruct (s_raw s); [| done]. destruct Ha as [H1 H2 H3 H4]. split; [split; simpl; (done || lia) |].
    unfold normalized in *. simpl. destruct (family a =? IPV4); [by simplify_eq/= |]. destruct (family a =? IPV6); by simplify_eq/=. }
  destruct (native_boundary a' (ported s b) Ha' Hn') as (raw & Hraw & Hbound).
  assert (handles n1 = handles n) as Hh1.
  { unfold bind_ in Hb. apply then_Returned in Hb as [(n2 & fd & Hi & Hb) | (e & _ & ?)]; [| done].
    assert (n2 = n) as ->.
    { unfold internet, then_ in Hi. rewrite (descriptor_handle n socket s), (deref_handle n socket s) in Hi by done.
      unfold give, refuse_with in Hi. by destruct (s_local s); simplify_eq/=. }
    unfold then_ in Hb. rewrite (deref_handle n socket s) in Hb by done. unfold of_result in Hb. rewrite Hraw in Hb. by apply sys_Ok in Hb as (_ & -> & _). }
  split.
  - unfold local_address, endpoint, then_. rewrite (descriptor_handle n1 socket s) by (done || by rewrite Hh1). rewrite (sys_eq _ _ k2 raw) by by apply Hk.
    rewrite (deref_handle _ socket s) by (simpl; by rewrite Hh1). unfold of_result. rewrite Hbound. cbn [ok_or]. unfold give.
    assert (ported s (ported s b) = ported s b) as -> by (unfold ported; by destruct (s_raw s)). done.
  - clear -Ha' Hn'. unfold reported, normalized in *. destruct (Z.eqb_spec (family a') IPV4) as [E | E].
    + injection Hn' as <-. simpl. rewrite E. simpl. f_equal. f_equal. unfold fill_from. destruct Ha' as [Hl _ _ _].
      rewrite take_app_le, take_take by (rewrite length_take; lia). rewrite length_app, length_take, Hl. done.
    + destruct (Z.eqb_spec (family a') IPV6) as [E6 | E6]; [| done]. injection Hn' as <-. rewrite E6. done.
Qed.

(** ** Options read back *)
(** The options that are one bit to the kernel: [SO_REUSEADDR], [SO_BROADCAST], [SO_KEEPALIVE], [TCP_NODELAY], [IPV6_V6ONLY],
    [IP_MULTICAST_LOOP], [IPV6_MULTICAST_LOOP], [IP_PKTINFO], [IPV6_RECVPKTINFO], [IP_RECVERR] and [IPV6_RECVERR]. *)
Definition one_bit : list (Z * Z) :=
  [(SOL_SOCKET, 2); (SOL_SOCKET, 6); (SOL_SOCKET, 9); (IPPROTO_TCP, 1); (IPPROTO_IPV6, 26); (IPPROTO_IP, 34); (IPPROTO_IPV6, 19);
   (IPPROTO_IP, 8); (IPPROTO_IPV6, 49); (IPPROTO_IP, IP_RECVERR); (IPPROTO_IPV6, 25)].
(** What the kernel documents of the answer to an option that was set to [v] (socket(7), ip(7), ipv6(7), tcp(7)): it chooses the size
    of a buffer itself ([SO_SNDBUF] is 7, [SO_RCVBUF] is 8), rounds a timeout up to its tick of [tick] microseconds ([SO_RCVTIMEO] is 20,
    [SO_SNDTIMEO] is 21), forgets the seconds of a linger that is off, answers one bit with 0 or 1, and has no index for
    [IP_MULTICAST_IF]; every other number that is not negative comes back as it is. *)
Definition answers (tick level name : Z) (v answer : list Z) : Prop :=
  if (level =? SOL_SOCKET) && ((name =? 7) || (name =? 8)) then exists size, answer = [size] /\ 0 < size
  else if (level =? SOL_SOCKET) && ((name =? 20) || (name =? 21)) then
    exists seconds micros, answer = [seconds; micros] /\ 0 <= seconds /\ 0 <= micros < 1000000 /\
      let asked := at_ v 0 * 1000000 + at_ v 1 in let got := seconds * 1000000 + micros in
      asked <= got < asked + tick /\ (asked = 0 -> got = 0)
  else if (level =? SOL_SOCKET) && (name =? SO_LINGER) then exists seconds, answer = [at_ v 0; seconds] /\ (at_ v 0 <> 0 -> seconds = at_ v 1)
  else if existsb (fun '(l, m) => (level =? l) && (name =? m)) one_bit then answer = [if at_ v 0 =? 0 then 0 else 1]
  else if (level =? IPPROTO_IP) && (name =? IP_MULTICAST_IF) then True
  else 0 <= at_ v 0 -> answer = v.
Definition stores (tick fd : Z) : Prop := forall k level name v k1, c_setsockopt fd level name v k = (k1, Ok tt) ->
  exists answer, c_getsockopt fd level name k1 = (k1, Ok answer) /\ answers tick level name v answer.
(** What the consumer reads after it set an option to [value]. *)
Definition reads_back (tick opt value got : Z) : Prop :=
  if (opt =? RECEIVE_BUFFER) || (opt =? SEND_BUFFER) then 0 < got
  else if (opt =? RECEIVE_TIMEOUT) || (opt =? SEND_TIMEOUT) then value <= got <= value + ceil_div tick 1000 /\ (value = 0 -> got = 0)
  else got = value.
(** The type and the domain of a descriptor never change. *)
Definition shaped (fd kind domain : Z) : Prop :=
  forall k, c_getsockopt fd SOL_SOCKET SO_TYPE k = (k, Ok [kind]) /\ c_getsockopt fd SOL_SOCKET SO_DOMAIN k = (k, Ok [domain]).
Definition routed_answer (kind domain opt : Z) : Result (Z * Z * bool) :=
  let v6 := domain =? AF_INET6 in
  if (domain =? AF_UNIX) || ((kind =? SOCK_STREAM) && negb ((opt =? HOPS) || (opt =? DONT_FRAGMENT))) || (v6 && (opt =? DONT_FRAGMENT)) then Err EUnsupported
  else routed_name opt v6.
Lemma routed_eq fd kind domain opt n : shaped fd kind domain -> routed fd opt n = Returned n (routed_answer kind domain opt).
Proof.
  intros Hs. unfold routed, shape, get, then_. rewrite (sys_eq _ n (kernel n) [kind]) by apply Hs. rewrite with_kernel_id.
  rewrite (sys_eq _ n (kernel n) [domain]) by apply Hs. rewrite with_kernel_id. unfold give, of_result, routed_answer. simpl.
  by destruct (_ || _ || _).
Qed.
Lemma set_get tick fd level name v n n1 : stores tick fd -> set fd level name v n = Returned n1 (Ok tt) ->
  handles n1 = handles n /\ exists answer, get fd level name n1 = Returned n1 (Ok answer) /\ answers tick level name v answer.
Proof.
  intros Hst Hset. apply sys_Ok in Hset as (Hset & Hh & _). split; [done |]. unfold get. destruct (Hst _ _ _ _ _ Hset) as (answer & Hget & Ha). exists answer.
  rewrite (sys_eq _ n1 (kernel n1) answer) by done. by rewrite with_kernel_id.
Qed.
Lemma integer_flag opt level name : integer opt = Some (level, name, true) -> kept FLAG_OPTIONS opt = true.
Proof.
  unfold integer. repeat match goal with |- (if opt =? ?o then _ else _) = _ -> _ => destruct (Z.eqb_spec opt o) as [-> | _]; [done |] end. done.
Qed.
Lemma routed_flag kind domain opt level name : routed_answer kind domain opt = Ok (level, name, true) -> kept FLAG_OPTIONS opt = true.
Proof.
  unfold routed_answer. destruct (_ || _ || _); [done |]. unfold routed_name.
  repeat match goal with |- (if opt =? ?o then _ else _) = _ -> _ => destruct (Z.eqb_spec opt o) as [-> | _]; [by destruct (domain =? AF_INET6) |] end. done.
Qed.
Lemma read_clamped flag opt value : 0 <= value <= i32_max -> option_value opt value = true -> (flag = true -> kept FLAG_OPTIONS opt = true) ->
  read_integer flag (Z.min value i32_max) = value.
Proof.
  intros Hv Ho Hf. rewrite Z.min_l by lia. unfold read_integer. destruct flag; [| lia]. specialize (Hf eq_refl).
  unfold option_value in Ho. rewrite Hf in Ho. destruct (Z.ltb_spec 1 value); [by rewrite orb_true_l in Ho |]. destruct (Z.eqb_spec value 0); lia.
Qed.
Lemma timeout_reads_back tick value seconds micros : 0 <= value <= i32_max -> 0 <= seconds -> 0 <= micros < 1000000 -> 0 <= tick <= 1000000 ->
  value * 1000 <= seconds * 1000000 + micros < value * 1000 + tick -> (value = 0 -> seconds * 1000000 + micros = 0) ->
  let got := saturating_add u64_max (saturating_mul u64_max (Z.max seconds 0) 1000) (ceil_div (Z.max micros 0) 1000) in
  value <= got <= value + ceil_div tick 1000 /\ (value = 0 -> got = 0).
Proof.
  intros Hv Hs Hm Ht Hr H0. assert (seconds <= 2147485) by (unfold i32_max in Hv; lia).
  unfold saturating_add, saturating_mul, ceil_div, u64_max. rewrite !Z.max_l by lia.
  pose proof (Z.div_mod (micros + 1000 - 1) 1000 ltac:(lia)). pose proof (Z.mod_pos_bound (micros + 1000 - 1) 1000 ltac:(lia)).
  pose proof (Z.div_mod (tick + 1000 - 1) 1000 ltac:(lia)). pose proof (Z.mod_pos_bound (tick + 1000 - 1) 1000 ltac:(lia)).
  unfold i32_max in *. cbv zeta. split; lia.
Qed.
(** What the boundary makes of the kernel's answer to an integer, and to an option of the socket's family. *)
Lemma integer_reads_back tick opt level name flag value answer : 0 <= value <= i32_max -> option_value opt value = true -> integer opt = Some (level, name, flag) ->
  answers tick level name [Z.min value i32_max] answer -> reads_back tick opt value (read_integer flag (at_ answer 0)).
Proof.
  intros Hv Ho Hi Ha. rewrite Z.min_l in Ha by lia. assert (flag = true -> value = 0 \/ value = 1) as Hf.
  { intros ->. pose proof (read_clamped true opt value Hv Ho (fun _ => integer_flag _ _ _ Hi)) as Hx. unfold read_integer in Hx. destruct (_ =? 0); lia. }
  revert Hi Hf Ha. unfold integer.
  repeat match goal with |- (if opt =? ?o then _ else _) = _ -> _ => destruct (Z.eqb_spec opt o) as [-> | _]; [intros [= <- <- <-] Hf Ha; cbn in Ha |] end; [.. | done].
  all: unfold reads_back, read_integer; cbn.
  all: try (destruct Ha as (size & -> & Hpos); unfold at_; simpl; lia).
  all: try (rewrite (Ha ltac:(unfold at_; simpl; lia)); unfold at_; simpl; lia).
  all: subst answer; destruct (Hf eq_refl) as [-> | ->]; reflexivity.
Qed.
Definition reading (name : Z) (flag : bool) (w : Z) : Z :=
  if name =? IP_MTU_DISCOVER then (if (w =? IP_PMTUDISC_DO) || (w =? IP_PMTUDISC_PROBE) then 1 else 0) else read_integer flag w.
Lemma routed_reads_back tick kind domain opt level name flag v answer : 0 <= v -> (flag = true -> v = 0 \/ v = 1) -> routed_answer kind domain opt = Ok (level, name, flag) ->
  name <> IP_MULTICAST_IF -> answers tick level name [v] answer -> reading name flag (at_ answer 0) = reading name flag v.
Proof.
  intros Hv Hf Hroute Hne Ha. revert Hroute Hf Ha. unfold routed_answer. destruct (_ || _ || _); [done |]. unfold routed_name.
  repeat match goal with |- (if opt =? ?o then _ else _) = _ -> _ => destruct (Z.eqb_spec opt o) as [-> | _];
    [destruct (domain =? AF_INET6); intros [= <- <- <-] Hf Ha; try done; cbn in Ha;
     first [rewrite (Ha ltac:(unfold at_; simpl; lia)); reflexivity | subst answer; destruct (Hf eq_refl) as [-> | ->]; reflexivity] |] end. done.
Qed.
(** Reading an option of the socket's family after it was set to [v]. *)
Lemma routed_reads tick socket s kind domain opt n n1 level name flag v : is_handle socket -> handles n !! socket = Some s -> shaped (s_fd s) kind domain -> stores tick (s_fd s) ->
  integer opt = None -> is_routed opt = true -> opt =? LINGER = false -> (opt =? RECEIVE_TIMEOUT) || (opt =? SEND_TIMEOUT) = false -> opt =? SOCKET_ERROR = false -> opt =? AVAILABLE = false ->
  routed_answer kind domain opt = Ok (level, name, flag) -> name <> IP_MULTICAST_IF -> 0 <= v -> (flag = true -> v = 0 \/ v = 1) -> set (s_fd s) level name [v] n = Returned n1 (Ok tt) ->
  get_option rounds socket opt n1 = Returned n1 (Ok (reading name flag v)).
Proof.
  intros Hh Hs Hshape Hst Hi Hr E1 E2 E3 E4 Hroute Hname Hv Hf Hset. destruct (set_get _ _ _ _ _ _ _ Hst Hset) as (Hh1 & answer & Hget & Ha).
  unfold get_option, then_ at 1. rewrite (descriptor_handle n1 socket s) by (done || by rewrite Hh1). rewrite Hi, E1, E2, E3, E4, Hr.
  unfold then_ at 1. rewrite (routed_eq _ kind domain) by done. rewrite Hroute. destruct (Z.eqb_spec name IP_MULTICAST_IF); [done |].
  unfold then_. rewrite Hget. unfold give. f_equal. f_equal. exact (routed_reads_back _ _ _ _ _ _ _ _ _ Hv Hf Hroute Hname Ha).
Qed.
Lemma routed_names kind domain opt level name flag : routed_answer kind domain opt = Ok (level, name, flag) ->
  (name = IP_MULTICAST_IF -> opt = MULTICAST_INTERFACE) /\ (name = IP_MTU_DISCOVER <-> opt = DONT_FRAGMENT).
Proof.
  unfold routed_answer. destruct (_ || _ || _); [done |]. unfold routed_name.
  repeat match goal with |- (if opt =? ?o then _ else _) = _ -> _ => destruct (Z.eqb_spec opt o) as [-> | _]; [destruct (domain =? AF_INET6); intros [= <- <- <-]; done |] end. done.
Qed.
Lemma set_interface_reads tick socket s kind domain n n1 level name flag v : is_handle socket -> handles n !! socket = Some s -> shaped (s_fd s) kind domain -> stores tick (s_fd s) ->
  0 <= v -> routed_answer kind domain MULTICAST_INTERFACE = Ok (level, name, flag) -> set_interface socket (s_fd s) level name v n = Returned n1 (Ok tt) ->
  get_option rounds socket MULTICAST_INTERFACE n1 = Returned n1 (Ok v).
Proof.
  intros Hh Hs Hshape Hst Hv Hroute. unfold set_interface, then_ at 1, call. destruct (c_setsockopt _ _ _ _ (kernel n)) as [k [[] | code]] eqn:Ek; [| done].
  destruct (Z.eqb_spec name IP_MULTICAST_IF) as [-> | Hne].
  - unfold store_interface. simpl. rewrite Hs. intros [= <-]. unfold get_option, then_ at 1.
    erewrite descriptor_handle; [| done | simpl; apply lookup_insert_eq]. simpl. unfold then_ at 1. rewrite (routed_eq _ kind domain) by done. rewrite Hroute. simpl.
    unfold then_. rewrite (deref_handle _ socket (mkSocket (s_fd s) (s_local s) (s_stream s) (s_raw s) v)) by (simpl; apply lookup_insert_eq). done.
  - assert (flag = false /\ name <> IP_MTU_DISCOVER) as [-> Hmtu].
    { revert Hroute. unfold routed_answer. destruct (_ || _ || _); [done |]. unfold routed_name. simpl. by destruct (domain =? AF_INET6); intros [= <- <- <-]. }
    intros [= <-]. eapply (routed_reads tick socket s kind domain MULTICAST_INTERFACE n _ level name false v) in Hs as ->; try done; [| by apply sys_eq].
    f_equal. f_equal. unfold reading. destruct (Z.eqb_spec name IP_MTU_DISCOVER); [done |]. unfold read_integer. lia.
Qed.

End Facts.

(** ** Wakes *)
(** What [eventfd(2)] and [poll(2)] document of a counter, while other threads may wake as well: a write adds to it or finds it
    full, a read takes all of it, no other call takes anything, and a poll that returned reports it readable when it was not
    zero before.  [named] are the eventfds that the slots name and the one that a call has just made: a new one is none of
    these, and so is the one that another thread puts into an empty slot. *)
Section Calm.
Context {K : Type} (pending : Z -> K -> Z) (named : K -> gset Z).
Definition calm (k k1 : K) : Prop := named k ⊆ named k1 /\ forall fd, fd ∈ named k -> 0 < pending fd k -> 0 < pending fd k1.
End Calm.
Class EventFd (K : Type) `{SocketCalls K} := {
  pending : Z -> K -> Z; named : K -> gset Z;
  ef_write fd k k1 r : c_event_write fd k = (k1, r) -> calm pending named k k1 /\ match r with Ok _ => 0 < pending fd k1 | Err code => code = EAGAIN -> 0 < pending fd k1 end;
  ef_read fd k : named k ⊆ named (c_event_read fd k) /\ pending fd (c_event_read fd k) = 0 /\
    forall other, other ∈ named k -> other <> fd -> 0 < pending other k -> 0 < pending other (c_event_read fd k);
  ef_created k k1 r : c_eventfd k = (k1, r) -> calm pending named k k1 /\ forall fd, r = Ok fd -> 0 <= fd /\ fd ∉ named k /\ fd ∈ named k1;
  ef_raced channel k k1 r : c_raced channel k = (k1, r) -> calm pending named k k1 /\ forall fd, r = Some fd -> 0 <= fd /\ fd ∉ named k /\ fd ∈ named k1;
  ef_close fd k : named k ∖ {[fd]} ⊆ named (c_close fd k).1 /\ forall other, other ∈ named k -> other <> fd -> 0 < pending other k -> 0 < pending other (c_close fd k).1;
  ef_poll slots t k k1 r : c_ppoll slots t k = (k1, r) -> calm pending named k k1 /\
    forall revents i fd, r = Ok revents -> slots !! i = Some (fd, POLLIN) -> 0 < pending fd k -> has (at_ revents i) POLLIN = true;
  ef_clock k : calm pending named k (c_monotonic_ns k).1;
  ef_calloc k : calm pending named k (c_calloc k).1;
  ef_free p k : named k ⊆ named (c_free p k) /\ forall fd, pending fd (c_free p k) = pending fd k;
}.

Section Wakes.
Context {K : Type} {C : SocketCalls K} {E : EventFd K} (rounds : nat).
Implicit Types (n : Net K).
(** The slots that are taken name different eventfds. *)
Definition channels n : Prop :=
  (forall c fd, WAKE n !! c = Some fd -> 0 <= fd -> fd ∈ named (kernel n)) /\
  (forall c c' fd, WAKE n !! c = Some fd -> WAKE n !! c' = Some fd -> 0 <= fd -> c = c').
(** Nothing is taken from a counter, and no slot changes. *)
Definition steady n n1 : Prop := calm pending named (kernel n) (kernel n1) /\ WAKE n1 = WAKE n.
Lemma counters_calm k : calm pending named k k.
Proof. split; [done | auto]. Qed.
Lemma counters_calm_trans k k1 k2 : calm pending named k k1 -> calm pending named k1 k2 -> calm pending named k k2.
Proof. intros [H1 H2] [H3 H4]. split; [set_solver |]. intros fd Hfd Hp. apply H4; [set_solver | by apply H2]. Qed.
Lemma steady_refl n : steady n n.
Proof. split; [apply counters_calm | done]. Qed.
Lemma steady_trans n n1 n2 : steady n n1 -> steady n1 n2 -> steady n n2.
Proof. intros [H1 H2] [H3 H4]. split; [by eapply counters_calm_trans | congruence]. Qed.
Lemma steady_channels n n1 : steady n n1 -> channels n -> channels n1.
Proof. intros [[Hs _] Hw] [H1 H2]. split; rewrite Hw; [| done]. intros c fd Hc Hfd. apply Hs. by eapply H1. Qed.
Lemma clock_steady n n' r : clock n = Returned n' r -> steady n n'.
Proof. unfold clock. pose proof (ef_clock (kernel n)) as Hc. destruct (c_monotonic_ns (kernel n)) as [k r']. intros [= <- <-]. done. Qed.
Lemma wake_loop_spec fd n n1 r : forall fuel, wake_loop fuel fd n = Returned n1 r -> steady n n1 /\ (r = Ok tt -> 0 < pending fd (kernel n1)).
Proof.
  intros fuel. revert n. induction fuel as [| fuel IH]; intros n; [done |]. cbn [wake_loop]. unfold then_, call.
  destruct (c_event_write fd (kernel n)) as [k [u | code]] eqn:Ew; apply ef_write in Ew as [Ho Hp]; unfold give, refuse_with; [intros [= <- <-]; done |].
  destruct (code =? EINTR).
  - intros Hr. apply IH in Hr as [Hst Hok]. split; [| done]. eapply (steady_trans _ (with_kernel k n)); [by split | exact Hst].
  - destruct (Z.eqb_spec code EAGAIN) as [-> | _]; intros [= <- <-]; (split; [done |]); [intros _; exact (Hp eq_refl) | done].
Qed.
(** The slot of a channel names an eventfd from now on, and the other slots are as they were. *)
Definition slot_taken n n1 (channel fd : Z) : Prop :=
  channels n1 /\ WAKE n1 !! Z.to_nat channel = Some fd /\ 0 <= fd /\ calm pending named (kernel n) (kernel n1) /\
  forall c fd', WAKE n !! c = Some fd' -> 0 <= fd' -> WAKE n1 !! c = Some fd'.
Lemma take_slot n k h channel fd old : channels n -> WAKE n !! Z.to_nat channel = Some old -> old < 0 -> 0 <= fd -> fd ∉ named (kernel n) -> fd ∈ named k ->
  calm pending named (kernel n) k -> slot_taken n (mkNet k h (<[Z.to_nat channel := fd]> (WAKE n))) channel fd.
Proof.
  intros [H1 H2] Hold Hneg Hpos Hnew Hin Hcalm. pose proof (lookup_lt_Some _ _ _ Hold) as Hlt. split_and!; simpl; try done.
  - split; simpl.
    + intros c fd' [(_ & <- & _) | [Hne Hc]]%list_lookup_insert_Some Hp; [done |]. apply Hcalm. by eapply H1.
    + intros c c' fd' [(Hc & Hcf & _) | [Hne Hc]]%list_lookup_insert_Some [(Hc' & Hcf' & _) | [Hne' Hc']]%list_lookup_insert_Some Hp; [congruence | | | by eapply H2].
      * exfalso. apply Hnew. rewrite Hcf. by eapply H1.
      * exfalso. apply Hnew. rewrite Hcf'. by eapply H1.
  - by apply list_lookup_insert_eq.
  - intros c fd' Hc Hp. rewrite list_lookup_insert_ne; [done |]. intros <-. rewrite Hold in Hc. simplify_eq. lia.
Qed.
Lemma wake_descriptor_spec channel n n1 r : channels n -> wake_descriptor channel n = Returned n1 r ->
  match r with Ok fd => slot_taken n n1 channel fd | Err _ => steady n n1 end.
Proof.
  intros Hch. unfold wake_descriptor. destruct (WAKE n !! Z.to_nat channel) as [current |] eqn:Ew; [| intros [= <- <-]; apply steady_refl].
  destruct (Z.leb_spec 0 current); [intros [= <- <-]; split_and!; [done | done | done | apply counters_calm | done] |].
  unfold then_, sys, then_, call, of_result. destruct (c_eventfd (kernel n)) as [k r'] eqn:Ec. apply ef_created in Ec as [Hcalm Hnew].
  destruct r' as [created | code]; simpl; [| intros [= <- <-]; by split]. destruct (Hnew _ eq_refl) as (H0 & Hout & Hin).
  destruct (c_raced channel k) as [k1 raced] eqn:Er. apply ef_raced in Er as [Hcalm1 Hnew1]. destruct raced as [winner |].
  - destruct (Hnew1 _ eq_refl) as (H0' & Hout' & Hin'). pose proof (ef_close created k1) as [Hc1 Hc2]. destruct (c_close created k1) as [k2 rc]. simpl in *.
    intros [= <- <-]. pose proof Hcalm as [Hs Hp]. apply (take_slot n k2 (handles n) channel winner current); try done; [set_solver | apply Hc1; set_solver |].
    split; [intros fd Hfd; apply Hc1; destruct Hcalm1; set_solver |]. intros fd Hfd Hpos. apply Hc2; [destruct Hcalm1; set_solver | set_solver |].
    apply Hcalm1; [set_solver | by apply Hp].
  - intros [= <- <-]. pose proof Hcalm1 as [Hs1 _]. apply (take_slot n k1 (handles n) channel created current); try done; [set_solver | by eapply counters_calm_trans].
Qed.
Lemma ppoll_loop_spec fuel slots t d : forall remaining n n1 r, ppoll_loop fuel slots t d remaining n = Returned n1 r ->
  steady n n1 /\ forall revents i fd, r = Ok revents -> slots !! i = Some (fd, POLLIN) -> fd ∈ named (kernel n) -> 0 < pending fd (kernel n) -> has (at_ revents i) POLLIN = true.
Proof.
  induction fuel as [| fuel IH]; intros remaining n n1 r; [done |]. cbn [ppoll_loop]. unfold then_ at 1, call.
  destruct (c_ppoll _ _ (kernel n)) as [k [revents | code]] eqn:Ep; apply ef_poll in Ep as [Hcalm Hp].
  - unfold give. intros [= <- <-]. split; [done |]. intros revents' i fd [= <-] Hi _. by apply Hp.
  - destruct (negb (code =? EINTR)); [unfold refuse_with; intros [= <- <-]; done |].
    assert (forall n2 remaining, steady n n2 -> ppoll_loop fuel slots t d remaining n2 = Returned n1 r ->
      steady n n1 /\ forall revents i fd, r = Ok revents -> slots !! i = Some (fd, POLLIN) -> fd ∈ named (kernel n) -> 0 < pending fd (kernel n) -> has (at_ revents i) POLLIN = true) as Hgo.
    { intros n2 rem Hst Hr. apply IH in Hr as [Hst' Hr']. split; [by eapply steady_trans |]. destruct Hst as [[Hs Hc] _]. intros revents i fd Hok Hi Hin Hpos.
      apply (Hr' revents i fd Hok Hi); [by apply Hs | by apply Hc]. }
    destruct d as [d |]; [| by apply Hgo]. intros Hr. apply then_Returned in Hr as [(n2 & now & Hc & Hr) | (e & Hc & ->)]; apply clock_steady in Hc.
    + eapply Hgo; [| exact Hr]. eapply steady_trans; [| exact Hc]. done.
    + split; [| done]. eapply steady_trans; [| exact Hc]. done.
Qed.
Lemma slots_of_spec entries : forall n n1 r, slots_of entries n = Returned n1 r -> n1 = n /\ forall slots, r = Ok slots -> length slots = length entries.
Proof.
  assert (forall socket n n1 r, descriptor socket n = Returned n1 r -> n1 = n) as Hd.
  { intros socket n n1 r. unfold descriptor. destruct (_ || _); [by intros [= <- <-] |]. destruct (handles n !! socket); [by intros [= <- <-] | done]. }
  induction entries as [| e entries IH]; intros n n1 r; cbn [slots_of]; [unfold give; intros [= <- <-]; split; [done | by intros slots [= <-]] |].
  intros Hr. apply then_Returned in Hr as [(n2 & fd & H1 & Hr) | (err & H1 & ->)]; [| by apply Hd in H1].
  apply Hd in H1 as ->. apply then_Returned in Hr as [(n2 & rest & H2 & Hr) | (err & H2 & ->)]; apply IH in H2 as [-> Hl]; [| done].
  unfold give in Hr. injection Hr as <- <-. split; [done |]. intros slots [= <-]. simpl. by rewrite (Hl rest).
Qed.
(** [wait] takes from no counter but the one it was given; that one it empties when it returns and leaves when it fails. *)
Definition waited_on (wake : option Z) n n1 (r : Result (list Z)) : Prop :=
  WAKE n1 = WAKE n /\ named (kernel n) ⊆ named (kernel n1) /\
  (forall fd, fd ∈ named (kernel n) -> wake <> Some fd -> 0 < pending fd (kernel n) -> 0 < pending fd (kernel n1)) /\
  (forall fd, wake = Some fd -> fd ∈ named (kernel n) -> 0 < pending fd (kernel n) ->
    match r with Ok _ => pending fd (kernel n1) = 0 | Err _ => 0 < pending fd (kernel n1) end).
Lemma steady_waited wake n n1 e : steady n n1 -> waited_on wake n n1 (Err e).
Proof. intros [[Hs Hc] Hw]. split_and!; auto. Qed.
Lemma wait_spec entries wake t n n1 r : wait rounds entries wake t n = Returned n1 r -> waited_on wake n n1 r.
Proof.
  unfold wait. intros Hr. apply then_Returned in Hr as [(n2 & slots & Hs & Hr) | (err & Hs & ->)]; apply slots_of_spec in Hs as [-> Hlen]; [| apply steady_waited, steady_refl].
  specialize (Hlen _ eq_refl). apply then_Returned in Hr as [(n3 & deadline & Hd & Hr) | (err & Hd & ->)].
  2: { apply steady_waited. destruct (_ || _); [done |]. apply then_Returned in Hd as [(n4 & now & Hc & Hd) | (err' & Hc & ?)]; [done | by apply clock_steady in Hc]. }
  assert (steady n n3) as Hst3.
  { destruct (_ || _); [unfold give in Hd; simplify_eq; apply steady_refl |]. apply then_Returned in Hd as [(n4 & now & Hc & Hd) | (err' & _ & ?)]; [| done].
    unfold give in Hd. simplify_eq. by apply clock_steady in Hc. }
  apply then_Returned in Hr as [(n4 & revents & Hp & Hr) | (err & Hp & ->)]; apply ppoll_loop_spec in Hp as [Hst4 Hp4].
  2: { apply steady_waited. by eapply steady_trans. }
  pose proof (steady_trans _ _ _ Hst3 Hst4) as [[Hs4 Hc4] Hw4]. destruct wake as [fd |].
  - destruct (has _ _) eqn:Eh.
    + simplify_eq. destruct (ef_read fd (kernel n4)) as (Hn & Hz & Ho). split_and!; simpl; [done | set_solver | |].
      * intros other Hin Hne Hpos. apply Ho; [set_solver | congruence | by apply Hc4].
      * by intros fd' [= <-].
    + unfold give in Hr. simplify_eq. split_and!; [done | done | auto |].
      intros fd' [= <-] Hin Hpos. exfalso. destruct Hst3 as [[Hs3 Hc3] _]. rewrite (Hp4 revents (length entries) fd eq_refl) in Eh; [done | | by apply Hs3 | by apply Hc3].
      rewrite <- Hlen. by apply list_lookup_middle.
  - unfold give in Hr. simplify_eq. split_and!; [done | done | auto | done].
Qed.
(** A poll, with the eventfd of its channel looked up or made first. *)
Lemma poll_spec entries t c n n1 r : channels n -> poll rounds entries t c n = Returned n1 r ->
  channels n1 /\ (forall i fd, WAKE n !! i = Some fd -> 0 <= fd -> WAKE n1 !! i = Some fd) /\
  (forall i fd, WAKE n !! i = Some fd -> 0 <= fd -> (forall x, c = Some x -> Z.to_nat x <> i) -> 0 < pending fd (kernel n) -> 0 < pending fd (kernel n1)) /\
  (forall x fd, c = Some x -> WAKE n !! Z.to_nat x = Some fd -> 0 <= fd -> 0 < pending fd (kernel n) ->
    match r with Ok _ => pending fd (kernel n1) = 0 | Err _ => 0 < pending fd (kernel n1) end).
Proof.
  intros Hch Hr. unfold poll in Hr. apply then_Returned in Hr as [(n2 & wake & Hw & Hr) | (err & Hw & ->)].
  2: { assert (steady n n1) as Hst.
       { destruct c as [x |]; [| done]. apply then_Returned in Hw as [(n2 & fd & Hd & Hw) | (err' & Hd & _)]; [done |]. by apply wake_descriptor_spec in Hd. }
       pose proof Hst as [[Hs Hc] Hw1]. split_and!; [by eapply steady_channels | by rewrite Hw1 | |].
       - intros i fd Hi H0 _. apply Hc. by eapply Hch.
       - intros x fd _ Hi H0. apply Hc. by eapply Hch. }
  assert (channels n2 /\ calm pending named (kernel n) (kernel n2) /\ (forall i fd, WAKE n !! i = Some fd -> 0 <= fd -> WAKE n2 !! i = Some fd) /\
    match c with Some x => exists fd, wake = Some fd /\ WAKE n2 !! Z.to_nat x = Some fd /\ 0 <= fd | None => wake = None end) as (Hch2 & [Hs2 Hc2] & Hold & Hwake).
  { destruct c as [x |]; [| unfold give in Hw; simplify_eq; split_and!; [done | apply counters_calm | done | done]].
    apply then_Returned in Hw as [(n3 & fd & Hd & Hw) | (err' & _ & ?)]; [| done]. apply wake_descriptor_spec in Hd as (H1 & H2 & H3 & H4 & H5); [| done].
    unfold give in Hw. simplify_eq. split_and!; [done | done | done |]. by exists fd. }
  assert (waited_on wake n2 n1 r) as (Hw1 & Hs1 & Hk1 & Hz1).
  { destruct (_ <? _); [| by eapply wait_spec]. destruct (c_calloc (kernel n2)) as [k heap] eqn:Ec. pose proof (ef_calloc (kernel n2)) as Hcal. rewrite Ec in Hcal. simpl in Hcal.
    destruct (heap =? 0); [injection Hr as <- <-; by apply steady_waited|].
    destruct (wait _ _ _ _ _) as [n3 r3 | |] eqn:Ewait; try done. injection Hr as <- <-. apply wait_spec in Ewait as (A1 & A2 & A3 & A4).
    pose proof (ef_free heap (kernel n3)) as [Hf1 Hf2]. split_and!; simpl in *; [done | destruct Hcal; set_solver | |].
    - intros fd Hin Hne Hpos. destruct Hcal as [Hcs Hcc]. rewrite Hf2. apply A3; [by apply Hcs | done | by apply Hcc].
    - intros fd Hwk Hin Hpos. destruct Hcal as [Hcs Hcc]. specialize (A4 fd Hwk (Hcs _ Hin) (Hcc _ Hin Hpos)). by destruct r3; rewrite Hf2. }
  split_and!.
  - destruct Hch2 as [D1 D2]. split; rewrite Hw1; [| done]. intros i fd Hi H0. apply Hs1. by eapply D1.
  - intros i fd Hi H0. rewrite Hw1. by apply Hold.
  - intros i fd Hi H0 Hne Hpos. pose proof (Hold i fd Hi H0) as Hi2. apply Hk1; [by eapply Hch2 | | apply Hc2; [by eapply Hch | done]].
    destruct c as [x |]; [| by rewrite Hwake]. destruct Hwake as (fd' & -> & Hx & _). intros [= ->]. apply (Hne x eq_refl). by eapply Hch2.
  - intros x fd -> Hi H0 Hpos. destruct Hwake as (fd' & -> & Hx & _). rewrite (Hold _ _ Hi H0) in Hx. injection Hx as <-.
    apply Hz1; [done | exact (proj1 Hch2 _ _ (Hold _ _ Hi H0) H0) | apply Hc2; [exact (proj1 Hch _ _ Hi H0) | done]].
Qed.
Lemma wake_spec channel n n1 r : channels n -> wake rounds channel n = Returned n1 r ->
  channels n1 /\ (forall i fd, WAKE n !! i = Some fd -> 0 <= fd -> WAKE n1 !! i = Some fd /\ (0 < pending fd (kernel n) -> 0 < pending fd (kernel n1))) /\
  (r = Ok tt -> exists fd, WAKE n1 !! Z.to_nat channel = Some fd /\ 0 <= fd /\ 0 < pending fd (kernel n1)).
Proof.
  intros Hch Hr. unfold wake in Hr. apply then_Returned in Hr as [(n2 & fd & Hd & Hr) | (e & Hd & ->)]; apply wake_descriptor_spec in Hd; try done.
  - destruct Hd as (Hch2 & Hslot & H0 & [Hs Hc] & Hold). apply wake_loop_spec in Hr as [Hst Hok]. pose proof Hst as [[Hs1 Hc1] Hw1]. split_and!; [by eapply steady_channels | |].
    + intros i fd' Hi H0'. rewrite Hw1. split; [by apply Hold |]. intros Hpos. apply Hc1; [apply Hs; by eapply Hch | apply Hc; [by eapply Hch | done]].
    + intros Hr. exists fd. rewrite Hw1. auto.
  - pose proof Hd as [[Hs Hc] Hw1]. split_and!; [by eapply steady_channels | | done]. intros i fd Hi H0. rewrite Hw1. split; [done |]. intros Hpos. apply Hc; [by eapply Hch | done].
Qed.

(** What may happen before the channel is polled again: polls of other channels and of none, and wakes of any channel, however
    each of them ends. *)
Inductive meanwhile (channel : Z) : Net K -> Net K -> Prop :=
| mw_start n : meanwhile channel n n
| mw_poll n n1 n2 entries t c r : meanwhile channel n n1 -> (forall x, c = Some x -> Z.to_nat x <> Z.to_nat channel) -> poll rounds entries t c n1 = Returned n2 r -> meanwhile channel n n2
| mw_wake n n1 n2 c r : meanwhile channel n n1 -> wake rounds c n1 = Returned n2 r -> meanwhile channel n n2.
Lemma meanwhile_pending channel n n2 fd : meanwhile channel n n2 -> channels n -> WAKE n !! Z.to_nat channel = Some fd -> 0 <= fd -> 0 < pending fd (kernel n) ->
  channels n2 /\ WAKE n2 !! Z.to_nat channel = Some fd /\ 0 < pending fd (kernel n2).
Proof.
  intros Hm Hch Hslot H0 Hpos. induction Hm as [n | n n1 n2 entries t c r _ IH Hc Hp | n n1 n2 c r _ IH Hw]; [done | |]; destruct IH as (H1 & H2 & H3); try done.
  - apply poll_spec in Hp as (P1 & P2 & P3 & _); [| done]. split_and!; [done | by apply P2 | by eapply P3].
  - apply wake_spec in Hw as (W1 & W2 & _); [| done]. destruct (W2 _ _ H2 H0) as [W3 W4]. auto.
Qed.

(** C19: a wake is not lost and no other channel takes it.  Once [wake] of a channel has returned [Ok], the channel has an eventfd
    whose counter is not zero, also when two threads raced to make it; polls of other channels, whatever they wait for and
    whether their eventfd exists already, polls of no channel and further wakes leave it so.  The next poll of the channel,
    whatever it waits for, empties the counter if it returns and leaves it if it fails. *)
Theorem wake_reaches_next_poll n n1 n2 (channel : Z) : channels n -> wake rounds channel n = Returned n1 (Ok tt) -> meanwhile channel n1 n2 ->
  exists fd, WAKE n2 !! Z.to_nat channel = Some fd /\ 0 < pending fd (kernel n2) /\
    forall entries t n3 r, poll rounds entries t (Some channel) n2 = Returned n3 r ->
      match r with Ok _ => pending fd (kernel n3) = 0 | Err _ => 0 < pending fd (kernel n3) end.
Proof.
  intros Hch Hw Hm. apply wake_spec in Hw as (Hch1 & _ & Hok); [| done]. destruct (Hok eq_refl) as (fd & Hslot & H0 & Hpos).
  destruct (meanwhile_pending _ _ _ fd Hm) as (Hch2 & Hslot2 & Hpos2); try done. exists fd. split_and!; [done | done |].
  intros entries t n3 r Hp. apply poll_spec in Hp as (_ & _ & _ & Hz); [| done]. by apply (Hz channel).
Qed.
End Wakes.

(** ** Errors and names *)
(** Every error number becomes a status that the group publishes, so that the front end never replaces it. *)
Lemma errors_published code : kept socket_statuses (status_of (error code)) = true.
Proof.
  unfold error. repeat match goal with |- context [if ?c then _ else _] => destruct c; [done |] end. done.
Qed.
(** The resolver's list: no address twice, no more than the caller has room for, each from an answer. *)
Lemma list_addresses_spec found capacity : forall out, NoDup out -> lenZ out <= capacity ->
  NoDup (list_addresses found capacity out) /\ lenZ (list_addresses found capacity out) <= capacity /\
  forall a, a ∈ list_addresses found capacity out -> a ∈ out \/ exists raw, Some raw ∈ found /\ boundary raw = Some a.
Proof.
  induction found as [| raw found IH]; intros out Hn Hl; cbn [list_addresses]; [by auto |].
  destruct (Z.leb_spec capacity (lenZ out)) as [| Hroom]; [by auto |].
  destruct (raw ≫= boundary) as [a |] eqn:E.
  - destruct (decide (a ∈ out)) as [Hin | Hout].
    + destruct (IH out Hn Hl) as (H1 & H2 & H3). split; [done |]. split; [done |]. intros b Hb. destruct (H3 b Hb) as [| (r & Hr & Hb')]; [auto | right; exists r; set_solver].
    + destruct (IH (out ++ [a])) as (H1 & H2 & H3).
      * apply NoDup_app. split; [done |]. split; [intros b Hb ->%list_elem_of_singleton; done | apply NoDup_singleton].
      * rewrite lenZ_app. change (lenZ [a]) with 1. lia.
      * split; [done |]. split; [done |]. intros b Hb. destruct (H3 b Hb) as [[Ho | ->%list_elem_of_singleton]%elem_of_app | (r & Hr & Hb')]; [auto | | right; exists r; set_solver].
        right. destruct raw as [raw |]; [| done]. exists raw. split; [set_solver | done].
  - destruct (IH out Hn Hl) as (H1 & H2 & H3). split; [done |]. split; [done |]. intros b Hb. destruct (H3 b Hb) as [| (r & Hr & Hb')]; [auto | right; exists r; set_solver].
Qed.

(** ** Descriptors *)
(** What the kernel and the allocator document of the descriptors and blocks they hand out.  [handed] are the descriptors that
    [socket] and [accept4] have returned, [closed] the ones that [close] was called with, each as often as it was. *)
Class Descriptors (K : Type) `{SocketCalls K} := {
  opened : K -> gset Z; blocks : K -> gset Z; handed : K -> list Z; closed : K -> list Z;
  de_socket d t p k k1 r : c_socket d t p k = (k1, r) -> blocks k1 = blocks k /\ closed k1 = closed k /\
    match r with Ok fd => fd ∉ opened k /\ opened k1 = {[fd]} ∪ opened k /\ handed k1 = fd :: handed k | Err _ => opened k1 = opened k /\ handed k1 = handed k end;
  de_accept fd f k k1 r : c_accept4 fd f k = (k1, r) -> blocks k1 = blocks k /\ closed k1 = closed k /\
    match r with Ok (new, _) => new ∉ opened k /\ opened k1 = {[new]} ∪ opened k /\ handed k1 = new :: handed k | Err _ => opened k1 = opened k /\ handed k1 = handed k end;
  de_close fd k : let k1 := (c_close fd k).1 in opened k1 = opened k ∖ {[fd]} /\ blocks k1 = blocks k /\ handed k1 = handed k /\ closed k1 = fd :: closed k;
  de_calloc k : let '(k1, p) := c_calloc k in opened k1 = opened k /\ handed k1 = handed k /\ closed k1 = closed k /\
    (p = 0 /\ blocks k1 = blocks k \/ p ∉ blocks k /\ p <> 0 /\ p mod align_of_Socket = 0 /\ blocks k1 = {[p]} ∪ blocks k);
  de_free p k : let k1 := c_free p k in opened k1 = opened k /\ blocks k1 = blocks k ∖ {[p]} /\ handed k1 = handed k /\ closed k1 = closed k;
  de_getfl fd k : let k1 := (c_getfl fd k).1 in opened k1 = opened k /\ blocks k1 = blocks k /\ handed k1 = handed k /\ closed k1 = closed k;
  de_errqueue fd k : let k1 := (c_errqueue fd k).1 in opened k1 = opened k /\ blocks k1 = blocks k /\ handed k1 = handed k /\ closed k1 = closed k;
}.

Section Leaks.
Context {K : Type} {C : SocketCalls K} {D : Descriptors K} (rounds : nat).
Implicit Types (n : Net K).
(** [others]: the descriptors of the process that no handle of this provider stands for. *)
Definition times (fd : Z) (log : list Z) : nat := count_occ Z.eq_dec log fd.
(** [ow_balance]: a descriptor was closed exactly as often as it was handed out, or once less while it is open. *)
Record owned (others : gset Z) n : Prop := {
  ow_open h s : handles n !! h = Some s -> s_fd s ∈ opened (kernel n) /\ s_fd s ∉ others;
  ow_once h h' s s' : handles n !! h = Some s -> handles n !! h' = Some s' -> s_fd s = s_fd s' -> h = h';
  ow_block h s : handles n !! h = Some s -> h ∈ blocks (kernel n);
  ow_all fd : fd ∈ opened (kernel n) -> fd ∈ others \/ exists h s, handles n !! h = Some s /\ s_fd s = fd;
  ow_balance fd : times fd (handed (kernel n)) = (times fd (closed (kernel n)) + if decide (fd ∈ opened (kernel n) ∖ others) then 1 else 0)%nat }.
Definition same_resources (k k1 : K) : Prop := opened k1 = opened k /\ blocks k1 = blocks k /\ handed k1 = handed k /\ closed k1 = closed k.
Lemma owned_kernel others n k : owned others n -> same_resources (kernel n) k -> owned others (with_kernel k n).
Proof.
  intros [H1 H2 H3 H4 H5] (Ho & Hb & Hh & Hc). split; simpl; rewrite ?Ho, ?Hb, ?Hh, ?Hc; eauto.
Qed.
Lemma times_cons fd x log : times fd (x :: log) = ((if decide (fd = x) then 1 else 0) + times fd log)%nat.
Proof. unfold times. simpl. destruct (Z.eq_dec x fd), (decide (fd = x)); congruence || done. Qed.
(** A new descriptor is counted, and its close is. *)
Lemma balance_handed others (o : gset Z) log gone new : new ∉ o -> new ∉ others ->
  (forall fd, times fd log = (times fd gone + if decide (fd ∈ o ∖ others) then 1 else 0)%nat) ->
  forall fd, times fd (new :: log) = (times fd gone + if decide (fd ∈ ({[new]} ∪ o) ∖ others) then 1 else 0)%nat.
Proof.
  intros Hn Ho Hb fd. rewrite times_cons, Hb. destruct (decide (fd = new)) as [-> | Hne].
  - rewrite (decide_False (P := new ∈ o ∖ others)), (decide_True (P := new ∈ _ ∖ _)) by set_solver. lia.
  - rewrite (decide_ext (fd ∈ o ∖ others) (fd ∈ ({[new]} ∪ o) ∖ others)) by set_solver. done.
Qed.
Lemma balance_closed others (o : gset Z) log gone old : old ∈ o -> old ∉ others ->
  (forall fd, times fd log = (times fd gone + if decide (fd ∈ o ∖ others) then 1 else 0)%nat) ->
  forall fd, times fd log = (times fd (old :: gone) + if decide (fd ∈ (o ∖ {[old]}) ∖ others) then 1 else 0)%nat.
Proof.
  intros Hn Ho Hb fd. rewrite times_cons, Hb. destruct (decide (fd = old)) as [-> | Hne].
  - rewrite (decide_True (P := old ∈ o ∖ others)), (decide_False (P := old ∈ _ ∖ _)) by set_solver. lia.
  - rewrite (decide_ext (fd ∈ o ∖ others) (fd ∈ (o ∖ {[old]}) ∖ others)) by set_solver. done.
Qed.
(** What the kernel has done when it handed out [fd]. *)
Definition opens (fd : Z) (k k1 : K) : Prop :=
  fd ∉ opened k /\ opened k1 = {[fd]} ∪ opened k /\ blocks k1 = blocks k /\ handed k1 = fd :: handed k /\ closed k1 = closed k.
(** A new descriptor goes to a handle or is closed again. *)
Lemma wrap_owned others n k fd (local stream raw : bool) n1 r : owned others n -> opens fd (kernel n) k -> fd ∉ others ->
  wrap fd local stream raw (with_kernel k n) = Returned n1 r -> owned others n1.
Proof.
  intros [H1 H2 H3 H4 H5] (Hfresh & Hopen & Hblocks & Hhand & Hclosed) Ho. unfold wrap. simpl. pose proof (de_calloc k) as Hc. destruct (c_calloc k) as [k2 p]. simpl in *.
  destruct Hc as (Hc1 & Hc3 & Hc4 & Hc2). pose proof (balance_handed others _ _ _ _ Hfresh Ho H5) as H6.
  destruct (Z.eqb_spec p 0) as [-> | Hp].
  - destruct Hc2 as [[_ Hb] | (_ & ? & _)]; [| done]. pose proof (de_close fd k2) as (Hd1 & Hd2 & Hd3 & Hd4). destruct (c_close fd k2) as [k3 r']. simpl in *. intros [= <- <-].
    assert (opened k3 = opened (kernel n)) as Hsame by (rewrite Hd1, Hc1, Hopen; set_solver).
    split; simpl; [by rewrite Hsame | done | by rewrite Hd2, Hb, Hblocks | by rewrite Hsame |].
    rewrite Hd1, Hd3, Hd4, Hc1, Hc3, Hc4, Hopen, Hhand, Hclosed. apply balance_closed; [set_solver | done | done].
  - destruct Hc2 as [[? _] | (Hpn & _ & _ & Hb)]; [done |]. intros [= <- <-].
    assert (handles n !! p = None) as Hnone by (destruct (handles n !! p) eqn:E; [exfalso; apply Hpn; rewrite Hblocks; eauto | done]).
    split; simpl; rewrite ?Hc1, ?Hc3, ?Hc4, ?Hb, ?Hopen, ?Hblocks, ?Hhand, ?Hclosed; [.. | done].
    + intros h s [[<- <-] | [Hne Hs]]%lookup_insert_Some; [set_solver |]. destruct (H1 h s Hs). set_solver.
    + intros h h' s s' [[<- <-] | [Hne Hs]]%lookup_insert_Some [[<- <-] | [Hne' Hs']]%lookup_insert_Some; simpl; [done | | | eauto].
      * intros ->. destruct (H1 h' s' Hs'). done.
      * intros E. destruct (H1 h s Hs). congruence.
    + intros h s [[<- <-] | [Hne Hs]]%lookup_insert_Some; [set_solver |]. pose proof (H3 h s Hs). set_solver.
    + intros d [->%elem_of_singleton | Hd]%elem_of_union; [right; exists p; eexists; by rewrite lookup_insert_eq |].
      destruct (H4 d Hd) as [| (h & s & Hs & <-)]; [auto |]. right. exists h, s. rewrite lookup_insert_ne by congruence. done.
Qed.
Lemma forget_errors_owned others fd fuel : forall n n1 r, owned others n -> forget_errors fuel fd n = Returned n1 r -> owned others n1.
Proof.
  induction fuel as [| fuel IH]; intros n n1 r Hown; [done |]. cbn [forget_errors]. pose proof (de_errqueue fd (kernel n)) as He.
  destruct (c_errqueue fd (kernel n)) as [k taken]. simpl in He. destruct taken; [apply IH; by apply owned_kernel |]. intros [= <- <-]. by apply owned_kernel.
Qed.
Lemma waited_owned others {A} code fd n n1 (r : Result A) : owned others n -> waited rounds code fd n = Returned n1 r -> owned others n1.
Proof.
  intros Hown. unfold waited. intros Hr. apply then_Returned in Hr as [(n2 & blocking & Hb & Hr) | (e & Hb & _)].
  - assert (owned others n2) as Hown2.
    { destruct (code =? EAGAIN); [| unfold give in Hb; by simplify_eq]. unfold then_, call, give in Hb. pose proof (de_getfl fd (kernel n)) as Hg.
      destruct (c_getfl fd (kernel n)) as [k fl]. simplify_eq. by apply owned_kernel. }
    destruct blocking; [unfold refuse_with in Hr; by simplify_eq |].
    apply then_Returned in Hr as [(n3 & u & Hf & Hr) | (e & Hf & _)].
    + unfold refuse_with in Hr. simplify_eq. destruct (code =? EAGAIN); [unfold give in Hf; by simplify_eq | by eapply forget_errors_owned].
    + destruct (code =? EAGAIN); [unfold give in Hf; by simplify_eq | by eapply forget_errors_owned].
  - destruct (code =? EAGAIN); [| unfold give in Hb; by simplify_eq]. unfold then_, call, give in Hb. by destruct (c_getfl fd (kernel n)).
Qed.
Lemma retry_accept_owned others fd flags fuel : forall n n1 r, owned others n -> retry fuel (c_accept4 fd flags) n = Returned n1 r ->
  exists n0 k, owned others n0 /\ n1 = with_kernel k n0 /\ match r with
    | Ok (Ok (new, _)) => opens new (kernel n0) k
    | _ => same_resources (kernel n0) k end.
Proof.
  induction fuel as [| fuel IH]; intros n n1 r Hown; [done |]. cbn [retry]. unfold then_, call. destruct (c_accept4 fd flags (kernel n)) as [k a] eqn:E.
  apply de_accept in E as (Hb & Hc & Ho). destruct a as [[new raw] | code].
  - unfold give. intros [= <- <-]. exists n, k. destruct Ho as (? & ? & ?). split; [done |]. split; [done |]. done.
  - destruct Ho. assert (same_resources (kernel n) k) as Hk by done. destruct (code =? EINTR); [apply IH; by apply owned_kernel |]. unfold give. intros [= <- <-]. by exists n, k.
Qed.
Lemma descriptor_state socket n n1 r : descriptor socket n = Returned n1 r -> n1 = n.
Proof. unfold descriptor. destruct (_ || _); [by intros [= <- <-] |]. destruct (handles n !! socket); [by intros [= <- <-] | done]. Qed.
Lemma deref_state socket n n1 r : deref socket n = Returned n1 r -> n1 = n.
Proof. unfold deref. destruct (handles n !! socket); [by intros [= <- <-] | done]. Qed.

(** The operations that make or end a handle, as the front end calls them. *)
Inductive SocketOp := OpCreate (family kind : Z) | OpAccept (socket : Z) | OpClose (socket : Z).
Definition run_op (op : SocketOp) n : option (Net K) :=
  match op with
  | OpCreate family kind => match create family kind n with Returned n1 _ => Some n1 | _ => None end
  | OpAccept socket => match accept rounds socket n with Returned n1 _ => Some n1 | _ => None end
  | OpClose socket => match close socket n with Returned n1 _ => Some n1 | _ => None end
  end.
(** The kernel hands out descriptors that are not in use elsewhere. *)
Definition outside (others : gset Z) : Prop := (forall d t p k k1 fd, c_socket d t p k = (k1, Ok fd) -> fd ∉ others) /\
  (forall l f k k1 fd raw, c_accept4 l f k = (k1, Ok (fd, raw)) -> fd ∉ others).
Lemma create_owned others family kind n n1 r : outside others -> owned others n -> create family kind n = Returned n1 r -> owned others n1.
Proof.
  intros [Hout _] Hown. unfold create. intros Hr. apply then_Returned in Hr as [(n2 & domain & H1 & Hr) | (e & H1 & _)]; unfold of_result in H1; simplify_eq; [| done].
  apply then_Returned in Hr as [(n3 & [kd pr] & H2 & Hr) | (e & H2 & _)]; unfold of_result in H2; simplify_eq; [| done].
  unfold then_, sys, then_, call, of_result in Hr. destruct (c_socket _ _ _ (kernel n3)) as [k a] eqn:Es. pose proof Es as Es'. apply de_socket in Es as (Hb & Hc & Ho).
  destruct a as [fd | code]; [| destruct Ho; simplify_eq; by apply owned_kernel]. destruct Ho as (Hfresh & Ho & Hh).
  eapply (wrap_owned others n3 k fd); [done | done | by eapply Hout | exact Hr].
Qed.
Lemma close_owned others socket n n1 r : owned others n -> close socket n = Returned n1 r -> owned others n1.
Proof.
  intros Hown. unfold close. intros Hr. apply then_Returned in Hr as [(n2 & fd & H1 & Hr) | (e & H1 & _)]; [| by apply descriptor_state in H1 as ->].
  pose proof (descriptor_state _ _ _ _ H1) as ->. unfold descriptor in H1. destruct (_ || _); [done |]. destruct (handles n !! socket) as [s |] eqn:Hs; [| done]. simplify_eq.
  unfold then_, call in Hr. pose proof (de_close (s_fd s) (kernel n)) as (Hc1 & Hc2 & Hc3 & Hc4). destruct (c_close (s_fd s) (kernel n)) as [k a]. simpl in *.
  pose proof (de_free socket k) as (Hf1 & Hf2 & Hf3 & Hf4).
  assert (n1 = mkNet (c_free socket k) (delete socket (handles n)) (WAKE n)) as ->.
  { unfold give, refuse_with in Hr. destruct a as [| code]; [by simplify_eq |]. by destruct (_ || _); simplify_eq. }
  destruct Hown as [G1 G2 G3 G4 G5]. split; simpl; rewrite ?Hf1, ?Hf2, ?Hf3, ?Hf4, ?Hc1, ?Hc2, ?Hc3, ?Hc4; [.. | by destruct (G1 socket s Hs); apply balance_closed].
  - intros h t [Hne Ht]%lookup_delete_Some. destruct (G1 h t Ht). split; [| done]. apply elem_of_difference. split; [done |]. rewrite elem_of_singleton. intros E. apply Hne. symmetry. by eapply G2.
  - intros h h' t t' [_ Ht]%lookup_delete_Some [_ Ht']%lookup_delete_Some. by eapply G2.
  - intros h t [Hne Ht]%lookup_delete_Some. pose proof (G3 h t Ht). set_solver.
  - intros d [Hd Hnd]%elem_of_difference. destruct (G4 d Hd) as [| (h & t & Ht & <-)]; [auto |]. right. exists h, t. split; [| done].
    apply lookup_delete_Some. split; [| done]. intros ->. rewrite Hs in Ht. simplify_eq. set_solver.
Qed.
Lemma accept_owned others socket n n1 r : outside others -> owned others n -> accept rounds socket n = Returned n1 r -> owned others n1.
Proof.
  intros [_ Hout] Hown. unfold accept. intros Hr. apply then_Returned in Hr as [(n2 & fd & H1 & Hr) | (e & H1 & _)]; [| by apply descriptor_state in H1 as ->].
  apply descriptor_state in H1 as ->. apply then_Returned in Hr as [(n2 & s & H1 & Hr) | (e & H1 & _)]; [| by apply deref_state in H1 as ->].
  apply deref_state in H1 as ->. apply then_Returned in Hr as [(n2 & a & H1 & Hr) | (e & H1 & _)].
  2: { apply (retry_accept_owned others) in H1 as (n0 & k & Hown0 & -> & Hk); [| done]. by apply owned_kernel. }
  assert (forall new raw, a = Ok (new, raw) -> new ∉ others) as Ho.
  { clear -H1 Hout. intros new raw ->. revert n H1. generalize rounds. intros fuel. induction fuel as [| fuel IH]; intros n; [done |]. cbn [retry]. unfold then_, call.
    destruct (c_accept4 fd SOCK_CLOEXEC (kernel n)) as [k [[x y] | code]] eqn:E; [unfold give; intros [= _ <- <-]; by eapply Hout |].
    destruct (code =? EINTR); [apply IH | done]. }
  apply (retry_accept_owned others) in H1 as (n0 & k & Hown0 & -> & Hk); [| done].
  destruct a as [[new raw] | code]; [| eapply (waited_owned others); [by apply (owned_kernel others n0 k) | exact Hr]].
  pose proof (Ho new raw eq_refl) as Hnew. apply then_Returned in Hr as [(n3 & h & H2 & Hr) | (e & H2 & _)].
  - unfold give in Hr. simplify_eq. by eapply (wrap_owned others n0 k new).
  - by eapply (wrap_owned others n0 k new).
Qed.

Fixpoint run_ops (ops : list SocketOp) n : option (Net K) := match ops with [] => Some n | op :: ops => n1 ← run_op op n; run_ops ops n1 end.

(** C14: no descriptor is leaked and none is closed twice.  Whatever sequence of creations, accepts and closes was asked for and
    however each ended, every descriptor that the provider has open belongs to exactly one handle, and [close] was called
    for a descriptor exactly as often as the kernel handed it out, or once less while it is open: a handle that cannot be
    allocated gives its descriptor back, and a close ends the descriptor together with the handle, once. *)
Theorem descriptors_owned (others : gset Z) (ops : list SocketOp) n n1 : outside others -> owned others n -> run_ops ops n = Some n1 -> owned others n1.
Proof.
  intros Hout. revert n. induction ops as [| op ops IH]; intros n Hown; cbn [run_ops]; [by intros [= <-] |].
  destruct (run_op op n) as [n2 |] eqn:E; simpl; [| done]. apply IH. destruct op as [family kind | socket | socket]; simpl in E.
  - destruct (create family kind n) eqn:E'; simplify_eq. by eapply create_owned.
  - destruct (accept rounds socket n) eqn:E'; simplify_eq. by eapply accept_owned.
  - destruct (close socket n) eqn:E'; simplify_eq. by eapply close_owned.
Qed.
End Leaks.

(** ** A small kernel *)
(** New descriptors and blocks are above the ones in use; options and bound addresses are remembered, counters are counted.  It
    doubles the size of a buffer, has a tick of four milliseconds, and when [t_race] is set another thread wins the race
    for the next slot. *)
Record Toy := mkToy { t_open : gset Z; t_blocks : gset Z; t_opts : gmap (Z * Z * Z) (list Z); t_names : gmap Z (list Z); t_counters : gmap Z Z;
  t_handed : list Z; t_closed : list Z; t_events : gset Z; t_race : bool }.
Definition with_open (o : gset Z) (handed closed : list Z) (e : gset Z) (k : Toy) : Toy := mkToy o (t_blocks k) (t_opts k) (t_names k) (t_counters k) handed closed e (t_race k).
Definition with_blocks (b : gset Z) (k : Toy) : Toy := mkToy (t_open k) b (t_opts k) (t_names k) (t_counters k) (t_handed k) (t_closed k) (t_events k) (t_race k).
Definition with_opts (o : gmap (Z * Z * Z) (list Z)) (k : Toy) : Toy := mkToy (t_open k) (t_blocks k) o (t_names k) (t_counters k) (t_handed k) (t_closed k) (t_events k) (t_race k).
Definition with_names (m : gmap Z (list Z)) (k : Toy) : Toy := mkToy (t_open k) (t_blocks k) (t_opts k) m (t_counters k) (t_handed k) (t_closed k) (t_events k) (t_race k).
Definition with_counters (c : gmap Z Z) (k : Toy) : Toy := mkToy (t_open k) (t_blocks k) (t_opts k) (t_names k) c (t_handed k) (t_closed k) (t_events k) (t_race k).
Definition t_fresh (k : Toy) : Z := above_all (t_open k ∪ t_events k).
Definition t_eventfd (race : bool) (k : Toy) : Toy :=
  mkToy (t_open k) (t_blocks k) (t_opts k) (t_names k) (t_counters k) (t_handed k) (t_closed k) ({[t_fresh k]} ∪ t_events k) race.
Definition t_nothing {A} (a : A) : M Toy Z A := fun k => (k, Ok a).
Definition toy_tick : Z := 4000.
Definition is_timeout (level name : Z) : bool := (level =? SOL_SOCKET) && ((name =? 20) || (name =? 21)).
Definition stored (level name : Z) (v : list Z) : list Z :=
  if (level =? SOL_SOCKET) && ((name =? 7) || (name =? 8)) then [Z.max 2304 (2 * at_ v 0)]
  else if is_timeout level name then
    let t := ceil_div (at_ v 0 * 1000000 + at_ v 1) toy_tick * toy_tick in [t / 1000000; t mod 1000000]
  else if (level =? SOL_SOCKET) && (name =? SO_LINGER) then [at_ v 0; if at_ v 0 =? 0 then 0 else at_ v 1]
  else if existsb (fun '(l, m) => (level =? l) && (name =? m)) one_bit then [if at_ v 0 =? 0 then 0 else 1]
  else v.
#[export] Instance toy_calls : SocketCalls Toy := {|
  c_calloc k := let p := above_all (t_blocks k) in (with_blocks ({[p]} ∪ t_blocks k) k, p);
  c_free p k := with_blocks (t_blocks k ∖ {[p]}) k;
  c_socket d t p k := (with_open ({[t_fresh k]} ∪ t_open k) (t_fresh k :: t_handed k) (t_closed k) (t_events k) k, Ok (t_fresh k));
  c_close fd k := (with_open (t_open k ∖ {[fd]}) (t_handed k) (fd :: t_closed k) (t_events k ∖ {[fd]}) k, Ok tt);
  c_bind fd raw k := (with_names (<[fd := raw]> (t_names k)) k, Ok tt);
  c_connect _ _ := t_nothing tt; c_listen _ _ := t_nothing tt;
  c_accept4 _ _ := fun k => (with_open ({[t_fresh k]} ∪ t_open k) (t_fresh k :: t_handed k) (t_closed k) (t_events k) k, Ok (t_fresh k, []));
  c_sendto _ d _ := t_nothing (lenZ d); c_recvfrom _ _ _ := t_nothing (0, [], []); c_shutdown _ _ := t_nothing tt;
  c_getsockname fd k := (k, Ok (default [] (t_names k !! fd))); c_getpeername _ := fun k => (k, Err ENOTCONN);
  c_getfl _ := t_nothing 0; c_setfl _ _ := t_nothing tt;
  c_getsockopt fd level name k := (k, Ok (if (level =? SOL_SOCKET) && (name =? SO_TYPE) then [SOCK_DGRAM] else if (level =? SOL_SOCKET) && (name =? SO_DOMAIN) then [AF_INET]
    else default [] (t_opts k !! (fd, level, name))));
  c_setsockopt fd level name v k := if (level =? SOL_SOCKET) && ((name =? SO_TYPE) || (name =? SO_DOMAIN)) then (k, Err EINVAL)
    else if is_timeout level name && (at_ v 0 * 1000000 + at_ v 1 <? 0) then (k, Err EINVAL)
    else (with_opts (<[(fd, level, name) := stored level name v]> (t_opts k)) k, Ok tt);
  c_fionread _ := t_nothing 0; c_errqueue _ k := (k, false); c_poll_write _ := t_nothing tt;
  c_eventfd k := (t_eventfd (t_race k) k, Ok (t_fresh k));
  c_raced _ k := if t_race k then (t_eventfd false k, Some (t_fresh k)) else (k, None);
  c_event_write fd k := (with_counters (<[fd := Z.max 0 (default 0 (t_counters k !! fd)) + 1]> (t_counters k)) k, Ok tt);
  c_event_read fd k := with_counters (<[fd := 0]> (t_counters k)) k;
  c_ppoll slots _ k := (k, Ok ((fun '(fd, _) => if 0 <? default 0 (t_counters k !! fd) then POLLIN else 0) <$> slots));
  c_monotonic_ns k := (k, Ok 0);
  c_getaddrinfo _ _ k := (k, (EAI_NONAME, 0, [])); c_gethostname _ := t_nothing (bytes "toy") |}.
Lemma t_fresh_spec k : 0 <= t_fresh k /\ t_fresh k ∉ t_open k /\ t_fresh k ∉ t_events k.
Proof. unfold t_fresh. destruct (above_all_spec (t_open k ∪ t_events k)) as (H0 & _ & Hn). split; [lia | set_solver]. Qed.
#[export] Instance toy_wakes : EventFd Toy.
Proof.
  refine {| pending fd k := default 0 (t_counters k !! fd); named := t_events |}.
  - intros fd k k1 r [= <- <-]. simpl. rewrite lookup_insert_eq. simpl. split; [| lia]. split; [done |]. intros other _. simpl.
    destruct (decide (fd = other)) as [<- |]; [rewrite lookup_insert_eq; simpl; lia | by rewrite lookup_insert_ne].
  - intros fd k. simpl. split; [done |]. split; [by rewrite lookup_insert_eq |]. intros other _ Hne. by rewrite lookup_insert_ne.
  - intros k k1 r [= <- <-]. destruct (t_fresh_spec k) as (H0 & _ & Hn). split; [split; [simpl; set_solver | done] |]. intros fd [= <-]. simpl. set_solver.
  - intros channel k k1 r. simpl. destruct (t_fresh_spec k) as (H0 & _ & Hn). destruct (t_race k); intros [= <- <-].
    + split; [split; [simpl; set_solver | done] |]. intros fd [= <-]. simpl. set_solver.
    + split; [split; [done | auto] |]. done.
  - intros fd k. simpl. split; [set_solver | auto].
  - intros slots t k k1 r [= <- <-]. split; [split; [done | auto] |]. intros revents i fd [= <-] Hi Hpos. unfold at_. rewrite list_lookup_fmap, Hi. simpl.
    destruct (Z.ltb_spec 0 (default 0 (t_counters k !! fd))); [done | lia].
  - intros k. split; [done | auto].
  - intros k. split; [done | auto].
  - intros p k. done.
Defined.
#[export] Instance toy_descriptors : Descriptors Toy.
Proof.
  refine {| opened := t_open; blocks := t_blocks; handed := t_handed; closed := t_closed |}.
  - intros d t p k k1 r [= <- <-]. split; [done |]. split; [done |]. split; [apply t_fresh_spec | done].
  - intros fd f k k1 r [= <- <-]. split; [done |]. split; [done |]. split; [apply t_fresh_spec | done].
  - done.
  - intros k. simpl. split; [done |]. split; [done |]. split; [done |]. right. destruct (above_all_spec (t_blocks k)) as (H0 & H4 & Hn). split; [done |]. split; [lia |]. split; [| done].
    apply Z.mod_divide in H4 as [q ->]; [| done]. unfold align_of_Socket. replace (q * 16) with (q * 4 * 4) by lia. by apply Z.mod_mul.
  - done.
  - done.
  - done.
Defined.
Lemma toy_shaped fd : shaped (K := Toy) fd SOCK_DGRAM AF_INET.
Proof. done. Qed.
Lemma stored_answers level name v : (is_timeout level name = true -> 0 <= at_ v 0 * 1000000 + at_ v 1) -> answers toy_tick level name v (stored level name v).
Proof.
  intros Ht. unfold answers, stored. fold (is_timeout level name). destruct ((level =? SOL_SOCKET) && ((name =? 7) || (name =? 8))); [eexists; split; [done | lia] |].
  destruct (is_timeout level name).
  { specialize (Ht eq_refl). set (asked := at_ v 0 * 1000000 + at_ v 1) in *. set (t := ceil_div asked toy_tick * toy_tick).
    assert (0 <= t /\ asked <= t < asked + toy_tick /\ (asked = 0 -> t = 0)) as (H0 & H1 & H2).
    { unfold t, ceil_div, toy_tick. pose proof (Z.div_mod (asked + 4000 - 1) 4000). pose proof (Z.mod_pos_bound (asked + 4000 - 1) 4000). lia. }
    exists (t / 1000000), (t mod 1000000). pose proof (Z.div_mod t 1000000). pose proof (Z.mod_pos_bound t 1000000). clearbody t asked. split; [done |]. cbv zeta. lia. }
  destruct (_ && _); [eexists; split; [done |]; intros Hne; by destruct (Z.eqb_spec (at_ v 0) 0) |].
  destruct (existsb _ _); [done |]. by destruct (_ && _).
Qed.
Lemma toy_stores fd : stores (K := Toy) toy_tick fd.
Proof.
  intros k level name v k1 Hset. exists (stored level name v). simpl in *. destruct ((level =? SOL_SOCKET) && ((name =? SO_TYPE) || (name =? SO_DOMAIN))) eqn:E; [done |].
  assert ((level =? SOL_SOCKET) && (name =? SO_TYPE) = false /\ (level =? SOL_SOCKET) && (name =? SO_DOMAIN) = false) as [E1 E2].
  { destruct (level =? SOL_SOCKET); [| done]. by apply orb_false_iff in E. }
  destruct (is_timeout level name && (at_ v 0 * 1000000 + at_ v 1 <? 0)) eqn:Et; [done |]. injection Hset as <-.
  rewrite E1, E2. simpl. rewrite lookup_insert_eq. split; [done |]. apply stored_answers. intros Hto. rewrite Hto in Et. lia.
Qed.
Definition toy_racing (race : bool) : Net Toy := mkNet (mkToy {[4]} {[8]} ∅ ∅ ∅ [4] [] ∅ race) {[8 := mkSocket 4 false false false 0]} (replicate 64 (-1)).
Definition toy_net : Net Toy := toy_racing false.
Lemma toy_handle : is_handle 8 /\ handles toy_net !! 8 = Some (mkSocket 4 false false false 0).
Proof. split; [split; [done | reflexivity] | apply lookup_insert_eq]. Qed.
Lemma toy_channels race : channels (toy_racing race).
Proof. split; [intros c fd Hc Hp | intros c c' fd Hc _ Hp]; apply lookup_replicate in Hc as [-> _]; lia. Qed.
Definition loopback : Address := v4 [127; 0; 0; 1] 8080.
Lemma bound_address_reads_back_witness : exists n1, bind_ 8 loopback toy_net = Returned n1 (Ok tt) /\ local_address 8 n1 = Returned n1 (Ok loopback).
Proof.
  eexists. split; [reflexivity |]. destruct toy_handle as [Hh Hs].
  refine (proj1 (bound_address_reads_back toy_net _ 8 (mkSocket 4 false false false 0) loopback loopback _ Hh Hs _ eq_refl eq_refl _)).
  - split; [reflexivity | repeat constructor; discriminate | simpl; lia | unfold u32_max; simpl; lia].
  - intros raw [= <-]. reflexivity.
Defined.
(** Another thread wins the race for the slot of channel 5; channel 6 is polled and woken before channel 5 is polled, with a socket. *)
Lemma wake_reaches_next_poll_witness : exists n1 n2 n3 fd r, wake 1 5 (toy_racing true) = Returned n1 (Ok tt) /\ meanwhile 1 5 n1 n2 /\
  poll 1 [mkPollEntry 8 POLL_READ 0] 0 (Some 5) n2 = Returned n3 (Ok r) /\ WAKE n2 !! 5%nat = Some fd /\ 0 < pending fd (kernel n2) /\ pending fd (kernel n3) = 0.
Proof.
  destruct (wake 1 5 (toy_racing true)) as [n1 r1 | |] eqn:E1; try (vm_compute in E1; discriminate).
  assert (r1 = Ok tt) as -> by (vm_compute in E1; injection E1 as _ <-; reflexivity).
  destruct (poll 1 [mkPollEntry 8 POLL_READ 0] 7 (Some 6) n1) as [n2 r2 | |] eqn:E2; try (vm_compute in E1; injection E1 as <-; vm_compute in E2; discriminate).
  destruct (poll 1 [mkPollEntry 8 POLL_READ 0] 0 (Some 5) n2) as [n3 [r3 | e] | |] eqn:E3; try (vm_compute in E1; injection E1 as <-; vm_compute in E2; injection E2 as <- _; vm_compute in E3; discriminate).
  assert (meanwhile 1 5 n1 n2) as Hm by (eapply mw_poll; [apply mw_start | | exact E2]; intros x [= <-]; discriminate).
  destruct (wake_reaches_next_poll 1 (toy_racing true) n1 n2 5 (toy_channels true) E1 Hm) as (fd & Hw & Hp & Hz).
  exists n1, n2, n3, fd, r3. split; [reflexivity |]. split; [exact Hm |]. split; [exact E3 |]. split; [exact Hw |]. split; [exact Hp |]. exact (Hz _ _ _ _ E3).
Defined.
Lemma descriptors_owned_witness : exists n1, run_ops 1 [OpCreate IPV4 STREAM; OpAccept 8; OpClose 8; OpCreate IPV6 DATAGRAM] toy_net = Some n1 /\ owned ∅ n1 /\ times 4 (closed (kernel n1)) = 1%nat.
Proof.
  destruct (run_ops 1 [OpCreate IPV4 STREAM; OpAccept 8; OpClose 8; OpCreate IPV6 DATAGRAM] toy_net) as [n1 |] eqn:E; [| vm_compute in E; discriminate].
  exists n1. split; [reflexivity |]. split; [| vm_compute in E; injection E as <-; reflexivity].
  apply (descriptors_owned 1 ∅ [OpCreate IPV4 STREAM; OpAccept 8; OpClose 8; OpCreate IPV6 DATAGRAM] toy_net n1); [| | exact E].
  - split; intros; apply not_elem_of_empty.
  - split; unfold toy_net, toy_racing; simpl.
    + intros h s Hs. apply lookup_singleton_Some in Hs as [<- <-]. set_solver.
    + intros h h' s s' [<- _]%lookup_singleton_Some [<- _]%lookup_singleton_Some. done.
    + intros h s [<- _]%lookup_singleton_Some. set_solver.
    + intros fd ->%elem_of_singleton. right. exists 8, (mkSocket 4 false false false 0). by rewrite lookup_singleton_eq.
    + intros fd. change (times fd [4%Z] = (0 + if decide (fd ∈ ({[4%Z]} : gset Z) ∖ ∅) then 1 else 0)%nat). rewrite times_cons. destruct (decide (fd = 4)) as [-> |]; [by rewrite decide_True by set_solver | by rewrite decide_False by set_solver].
Defined.
