(* ===== verification/LinuxSpawn.v ===== *)
(** * LinuxSpawn.v: starting a child process on Linux

    [src/crates/dotnet-pal-linux/src/linux_processes.rs], the part up to [launch].  Everything that a spawn holds on the way
    is in [Pending], which gives it back when the call leaves early.  [start] uses [posix_spawn]; [start_as] forks, and the
    child changes its identity itself ([become_program], on a process of its own: the class [ChildCalls]) and reports a
    failed step through a pipe.

    The theorems: a spawn that fails leaves nothing behind, one that succeeds leaves exactly what the caller gets
    ([launch_balanced]); a program that [spawn_as] started runs as the user that was asked for ([program_runs_as],
    [spawn_as_identity]). *)
From S2P Require Import Prelude Port Counter Boundary Tree Front Group Console Machine Net Children LinuxText Libc.
Import Errno.
Local Open Scope Z_scope.
Local Open Scope pal_scope.

Definition RUNNING : Z := 0.
Definition ENDED : Z := 1.
Definition LOST : Z := 2.
(** The handle of a child, without its mutex, whose life is the allocation's. *)
Record Child := mkChild { c_pid : Z; c_pidfd : Z; c_state : Z; c_code : Z }.

(** On the 64-bit ABI of x86. *)
Definition size_of_Child : Z := 56.
Definition size_of_Pipe : Z := 4.
Definition size_of_pointer : Z := 8.

(** [fn error]: the errno of a spawn. *)
Definition spawn_error (code : Z) : Error :=
  if code =? ENOENT then ENotFound else if (code =? EACCES) || (code =? EPERM) then EAccessDenied else if code =? EISDIR then EIsDirectory else
  if code =? ENOTDIR then ENotDirectory else if code =? ENAMETOOLONG then ENameTooLong else if (code =? EMFILE) || (code =? ENFILE) then ETooManyHandles else
  if (code =? ENOMEM) || (code =? EAGAIN) then EOutOfMemory else if code =? EINVAL then EInvalidArgument else EOs.
(** [CPath::new]: the text that a C function reads from the buffer. *)
Definition CPATH : Z := 4096.
Definition cpath (path : list Z) : Result (list Z) := if CPATH <=? lenZ path then Err ENameTooLong else Ok path.

Inductive Signals := NoSignals | AllSignals.
Inductive Action := Dup2 (fd stream : Z) | Chdir (directory : list Z).
Record Attr := mkAttr { a_mask : option Signals; a_default : option Signals; a_flags : Z }.
Definition POSIX_SPAWN_SETSIGDEF : Z := 4.
Definition POSIX_SPAWN_SETSIGMASK : Z := 8.

(** The environment block that a program gets: the caller's, or the one of this process. *)
Definition Environ : Type := option (list Z).

Class SpawnCalls (K : Type) := {
  p_calloc : Z -> Z -> K -> K * Z; p_free : Z -> K -> K; p_mutex_init : Z -> M K Z unit; p_mutex_destroy : Z -> K -> K;
  p_pipe2 : M K Z (Z * Z); p_dupfd : Z -> Z -> M K Z Z; p_close : Z -> M K Z unit;
  p_actions_init : M K Z unit; p_adddup2 : Z -> Z -> M K Z unit; p_addchdir : list Z -> M K Z unit; p_actions_destroy : K -> K;
  p_attr_init : M K Z unit; p_setsigmask : Signals -> M K Z unit; p_setsigdefault : Signals -> M K Z unit; p_setflags : Z -> M K Z unit;
  p_attr_destroy : K -> K; p_posix_spawn : list Z -> list Z -> Environ -> M K Z Z;
  p_sigmask : option Z -> K -> K * Z; p_fork : M K Z Z; p_read : Z -> Z -> M K Z (list Z); p_waitpid : Z -> M K Z Z;
  p_pidfd_open : Z -> M K Z Z;
}.

Section Provider.
Context {K : Type} {C : SpawnCalls K} (rounds : nat).

(** [lift], with the errno that it leaves. *)
Definition lift (fd : Z) : M K Z Z :=
  if 2 <? fd then ret fd else
  let! moved := p_dupfd fd 3 in
  fun k => ((p_close fd k).1, Ok moved).

(** ** The start with [posix_spawn] *)
Definition dup_stream (ends : list Z) (stream : nat) : M K Z unit :=
  let fd := default (-1) (ends !! (2 * stream)%nat) in
  if 0 <=? fd then p_adddup2 fd (Z.of_nat stream) else ret tt.
Definition spawn_steps (program argv : list Z) (envp : Environ) (directory : option (list Z)) (ends : list Z) : M K Z Z :=
  dup_stream ends 0 ;! dup_stream ends 1 ;! dup_stream ends 2 ;!
  (match directory with Some directory => p_addchdir directory | None => ret tt end) ;!
  p_setsigmask NoSignals ;! p_setsigdefault AllSignals ;!
  p_setflags (Z.lor POSIX_SPAWN_SETSIGMASK POSIX_SPAWN_SETSIGDEF) ;!
  p_posix_spawn program argv envp.
Definition start (program argv : list Z) (envp : Environ) (directory : option (list Z)) (ends : list Z) : M K Z Z :=
  p_actions_init ;! fun k =>
  match p_attr_init k with
  | (k, Err code) => (p_actions_destroy k, Err code)
  | (k, Ok _) =>
      let '(k, result) := spawn_steps program argv envp directory ends k in
      (p_actions_destroy (p_attr_destroy k), result)
  end.

(** ** The start under another identity: the parent *)
(** [loop { read }] and [while waitpid < 0 && EINTR]: [None] while they are still interrupted. *)
Fixpoint read_report (fuel : nat) (fd : Z) (k : K) : option (K * result Z (list Z)) :=
  match fuel with
  | O => None
  | S fuel => match p_read fd 4 k with (k, Err code) => if code =? EINTR then read_report fuel fd k else Some (k, Err code) | (k, Ok got) => Some (k, Ok got) end
  end.
Fixpoint reap_failed (fuel : nat) (pid : Z) (k : K) : option K :=
  match fuel with
  | O => None
  | S fuel => match p_waitpid pid k with (k, Err code) => if code =? EINTR then reap_failed fuel pid k else Some k | (k, Ok _) => Some k end
  end.
Definition to_i32 (bytes : list Z) : Z :=
  let v := at_ bytes 0 + 256 * (at_ bytes 1 + 256 * (at_ bytes 2 + 256 * at_ bytes 3)) in if v <? 2 ^ 31 then v else v - 2 ^ 32.
Definition i32_bytes (v : Z) : list Z := [v mod 256; v / 256 mod 256; v / 65536 mod 256; v / 16777216 mod 256].
Definition start_as (k : K) : option (K * result Z Z) :=
  match p_pipe2 k with
  | (k, Err code) => Some (k, Err code)
  | (k, Ok (reader, writer)) =>
      match lift reader k with
      | (k, Err code) => Some ((p_close writer (p_close reader k).1).1, Err code)
      | (k, Ok reader) =>
          match lift writer k with
          | (k, Err code) => Some ((p_close writer (p_close reader k).1).1, Err code)
          | (k, Ok writer) =>
              let '(k, before) := p_sigmask None k in
              let '(k, pid) := p_fork k in
              let k := (p_close writer (p_sigmask (Some before) k).1).1 in
              match pid with
              | Err failed => Some ((p_close reader k).1, Err failed)
              | Ok pid =>
                  '(k, got) ← read_report rounds reader k;
                  let k := (p_close reader k).1 in
                  match got with
                  | Ok bytes => if lenZ bytes =? 4 then k ← reap_failed rounds pid k; Some (k, Err (to_i32 bytes)) else Some (k, Ok pid)
                  | Err _ => Some (k, Ok pid)
                  end
              end
          end
      end
  end.
End Provider.

(** ** The start under another identity: the child *)
Class ChildCalls (P : Type) := {
  f_default : Z -> P -> P; f_dup2 : Z -> Z -> M P Z unit; f_setgroups : list Z -> M P Z unit; f_getgroups : Z -> M P Z (Z * list Z);
  f_setgid : Z -> M P Z unit; f_setuid : Z -> M P Z unit; f_chdir : list Z -> M P Z unit; f_unblock : P -> P;
  f_execve : list Z -> list Z -> Environ -> P -> P * option Z;
}.

(** [slice::binary_search(..).is_ok()] on [l[base .. base + size]]: halves the range until one element is left. *)
Fixpoint binary_search (fuel : nat) (l : list Z) (base size : nat) (x : Z) : bool :=
  match fuel with
  | O => false
  | S fuel =>
      match size with
      | O => false
      | 1%nat => bool_decide (l !! base = Some x)
      | _ => let half := (size / 2)%nat in let mid := (base + half)%nat in
             binary_search fuel l (if decide (x < default 0 (l !! mid)) then base else mid) (size - half) x
      end
  end.
Definition contains (l : list Z) (x : Z) : bool := binary_search (S (length l)) l 0 (length l) x.

Section Child.
Context {P : Type} {F : ChildCalls P}.
(** [assume] *)
Definition assume (user group : Z) (groups : list Z) : M P Z unit := fun p =>
  let '(p, set) := f_setgroups groups p in
  let count := lenZ groups in
  let '(p, r) :=
    match set with
    | Ok _ => (p, Ok tt)
    | Err code =>
        if negb (code =? EPERM) then (p, Err code) else
        let wanted := merge_sort Z.le groups in
        match f_getgroups count p with
        | (p, Err _) => (p, Err EPERM)
        | (p, Ok (holds, held)) =>
            if ((count =? 0) && (0 <? holds)) || negb (forallb (contains wanted) (takeZ holds held)) then (p, Err EPERM) else (p, Ok tt)
        end
    end in
  match r with
  | Err code => (p, Err code)
  | Ok _ => (f_setgid group ;! f_setuid user) p
  end.
(** [become_program]: the errno of the step that failed, or [None] once the program has replaced the process. *)
Definition stream_here (ends : list Z) (stream : nat) : M P Z unit :=
  let fd := default (-1) (ends !! (2 * stream)%nat) in if 0 <=? fd then f_dup2 fd (Z.of_nat stream) else ret tt.
Definition default_signals (last_signal : nat) (p : P) : P := foldl (fun p number => f_default (Z.of_nat number) p) p (seq 1 last_signal).
Definition become_program (program argv : list Z) (envp : Environ) (directory : option (list Z)) (ends : list Z) (user group : Z) (groups : list Z)
    (last_signal : nat) (p : P) : P * option Z :=
  let p := default_signals last_signal p in
  match (stream_here ends 0 ;! stream_here ends 1 ;! stream_here ends 2) p with
  | (p, Err code) => (p, Some code)
  | (p, Ok _) =>
      match assume user group groups p with
      | (p, Err code) => (p, Some code)
      | (p, Ok _) =>
          match (match directory with Some directory => f_chdir directory | None => ret tt end) p with
          | (p, Err code) => (p, Some code)
          | (p, Ok _) => f_execve program argv envp (f_unblock p)
          end
      end
  end.
End Child.

(** ** [launch] *)
(** The handles that the provider has given out, and what a spawn holds until the child or the caller has it. *)
Record Procs (K : Type) := mkProcs { kernel : K; childs : gmap Z Child; pipe_fds : gmap Z Z }.
Arguments mkProcs {K} _ _ _.
Arguments kernel {K} _.
Arguments childs {K} _.
Arguments pipe_fds {K} _.
Record Pending := mkPending { ends : list Z; pd_child : Z; pd_pipes : list Z; vectors : Z; spare : Z }.
Record Spawning (K : Type) := mkSpawning { procs : Procs K; pending : Pending }.
Arguments mkSpawning {K} _ _.
Arguments procs {K} _.
Arguments pending {K} _.
Definition empty_pending : Pending := mkPending (replicate 6 (-1)) 0 (replicate 3 0) 0 0.
Definition set_end (i : nat) (fd : Z) (p : Pending) : Pending := mkPending (<[i := fd]> (ends p)) (pd_child p) (pd_pipes p) (vectors p) (spare p).
Definition set_pipe (i : nat) (pipe : Z) (p : Pending) : Pending := mkPending (ends p) (pd_child p) (<[i := pipe]> (pd_pipes p)) (vectors p) (spare p).
Definition set_child (child : Z) (p : Pending) : Pending := mkPending (ends p) child (pd_pipes p) (vectors p) (spare p).
Definition set_vectors (v : Z) (p : Pending) : Pending := mkPending (ends p) (pd_child p) (pd_pipes p) v (spare p).
Definition set_spare (v : Z) (p : Pending) : Pending := mkPending (ends p) (pd_child p) (pd_pipes p) (vectors p) v.
Definition get_end (i : nat) (p : Pending) : Z := default (-1) (ends p !! i).
Definition get_pipe (i : nat) (p : Pending) : Z := default 0 (pd_pipes p !! i).

Section Launch.
Context {K : Type} {C : SpawnCalls K} (rounds : nat).
Implicit Types (s : Spawning K).
Definition put_kernel (k : K) s : Spawning K := mkSpawning (mkProcs k (childs (procs s)) (pipe_fds (procs s))) (pending s).
Definition edit (f : Pending -> Pending) : Call (Spawning K) unit := fun s => Returned (mkSpawning (procs s) (f (pending s))) (Ok tt).
Definition asks {A} (f : K -> K * A) : Call (Spawning K) A := fun s => let '(k, a) := f (kernel (procs s)) in Returned (put_kernel k s) (Ok a).
(** A call that fails with [error(errno())]. *)
Definition sys {A} (m : M K Z A) : Call (Spawning K) A := fun s =>
  match m (kernel (procs s)) with (k, Ok a) => Returned (put_kernel k s) (Ok a) | (k, Err code) => Returned (put_kernel k s) (Err (spawn_error code)) end.
(** [impl Drop for Pending] *)
Definition close_ends (fds : list Z) (k : K) : K := foldl (fun k fd => if 0 <=? fd then (p_close fd k).1 else k) k fds.
Definition free_all (blocks : list Z) (k : K) : K := foldl (fun k p => p_free p k) k blocks.
Definition drop_pending (p : Pending) (k : K) : K :=
  let k := close_ends (ends p) k in
  let k := free_all (pd_pipes p) k in
  let k := if pd_child p =? 0 then k else p_free (pd_child p) (p_mutex_destroy (pd_child p) k) in
  p_free (spare p) (p_free (vectors p) k).

(** One turn of the loop over the streams. *)
Definition lift_end (i : nat) : Call (Spawning K) unit := fun s => (let* fd := sys (lift (get_end i (pending s))) in edit (set_end i fd)) s.
Definition open_stream (pipes : Z) (stream : nat) : Call (Spawning K) unit :=
  if negb (has pipes (Z.shiftl 1 (Z.of_nat stream))) then give tt else
  let* pipe := asks (p_calloc 1 size_of_Pipe) in
  let* _ := edit (set_pipe stream pipe) in
  if pipe =? 0 then refuse_with EOutOfMemory else
  let* (a, b) := sys p_pipe2 in
  let* _ := edit (fun p => set_end (2 * stream + 1) (if (stream =? 0)%nat then b else a) (set_end (2 * stream) (if (stream =? 0)%nat then a else b) p)) in
  let* _ := lift_end (2 * stream) in
  lift_end (2 * stream + 1).
Definition make_child : Call (Spawning K) unit :=
  let* child := asks (p_calloc 1 size_of_Child) in
  if child =? 0 then refuse_with EOutOfMemory else fun s =>
  match p_mutex_init child (kernel (procs s)) with
  | (k, Err code) => Returned (put_kernel (p_free child k) s) (Err (spawn_error code))
  | (k, Ok _) => edit (set_child child) (put_kernel k s)
  end.
(** The process: with [start], or with [start_as] and the room that the child's list of groups needs. *)
Definition run (program argv : list Z) (envp : Environ) (directory : option (list Z)) (identity : option (Z * Z * list Z)) : Call (Spawning K) Z :=
  match identity with
  | None => fun s => sys (start program argv envp directory (ends (pending s))) s
  | Some (user, group, groups) =>
      let* _ := (if lenZ groups =? 0 then give tt else
                 let* room := asks (p_calloc (2 * lenZ groups) 4) in
                 let* _ := edit (set_spare room) in
                 if room =? 0 then refuse_with EOutOfMemory else give tt) in
      fun s => match start_as rounds (kernel (procs s)) with
               | None => Waiting
               | Some (k, Ok pid) => Returned (put_kernel k s) (Ok pid)
               | Some (k, Err code) => Returned (put_kernel k s) (Err (spawn_error code))
               end
  end.
Definition open_pidfd (pid : Z) (k : K) : K * Z :=
  match p_pidfd_open pid k with
  | (k, Err _) => (k, -1)
  | (k, Ok fd) => match lift fd k with (k, Ok fd) => (k, fd) | (k, Err _) => ((p_close fd k).1, -1) end
  end.
(** The child's handle leaves [Pending]; then the pipes, each with the parent's end. *)
Definition publish_child (pid pidfd : Z) : Call (Spawning K) Z := fun s =>
  let handle := pd_child (pending s) in
  Returned (mkSpawning (mkProcs (kernel (procs s)) (<[handle := mkChild pid pidfd RUNNING 0]> (childs (procs s))) (pipe_fds (procs s))) (set_child 0 (pending s))) (Ok handle).
Definition publish_pipe (stream : nat) : Call (Spawning K) Z := fun s =>
  let pipe := get_pipe stream (pending s) in
  if pipe =? 0 then Returned s (Ok 0) else
  let fd := get_end (2 * stream + 1) (pending s) in
  Returned (mkSpawning (mkProcs (kernel (procs s)) (childs (procs s)) (<[pipe := fd]> (pipe_fds (procs s)))) (set_end (2 * stream + 1) (-1) (set_pipe stream 0 (pending s)))) (Ok pipe).
Definition pointers (l : list Borrow) : list Z := (b_address <$> l) ++ [0].
Definition launch_body (program : list Z) (arguments : list Borrow) (environment : option (list Borrow)) (directory : option (list Z)) (pipes : Z)
    (identity : option (Z * Z * list Z)) : Call (Spawning K) Spawned :=
  let* _ := make_child in
  let* _ := open_stream pipes 0 in
  let* _ := open_stream pipes 1 in
  let* _ := open_stream pipes 2 in
  let* block := asks (p_calloc (lenZ arguments + 1 + match environment with Some l => lenZ l + 1 | None => 0 end) size_of_pointer) in
  let* _ := edit (set_vectors block) in
  if block =? 0 then refuse_with EOutOfMemory else
  let* pid := run program (pointers arguments) (pointers <$> environment) directory identity in
  let* pidfd := asks (open_pidfd pid) in
  let* handle := publish_child pid pidfd in
  let* input := publish_pipe 0 in
  let* output := publish_pipe 1 in
  let* error := publish_pipe 2 in
  give (mkSpawned handle pid input output error).
Definition launch (r : Request) (pipes : Z) (identity : option (Z * Z * list Z)) : Call (Procs K) Spawned := fun n =>
  let '(program, arguments, environment, directory) := r in
  match (let? program := cpath program in
         let? directory := match directory with Some path => result_bind (cpath path) (fun path => Ok (Some path)) | None => Ok None end in
         Ok (program, directory)) with
  | Err e => Returned n (Err e)
  | Ok (program, directory) =>
      match launch_body program arguments environment directory pipes identity (mkSpawning n empty_pending) with
      | Undefined => Undefined | Waiting => Waiting
      | Returned s r => Returned (mkProcs (drop_pending (pending s) (kernel (procs s))) (childs (procs s)) (pipe_fds (procs s))) r
      end
  end.
Definition spawn (r : Request) (pipes : Z) : Call (Procs K) Spawned := launch r pipes None.
Definition spawn_as (r : Request) (pipes user group : Z) (groups : list Z) : Call (Procs K) Spawned := launch r pipes (Some (user, group, groups)).
End Launch.

(** Without another identity there is no loop: [spawn] always comes back. *)
Section Returns.
Context {K : Type} {C : SpawnCalls K}.
Definition returns {A} (m : Call (Spawning K) A) : Prop := forall s, exists s1 r, m s = Returned s1 r.
Lemma returns_then {A B} (m : Call (Spawning K) A) (f : A -> Call (Spawning K) B) : returns m -> (forall a, returns (f a)) -> returns (then_ m f).
Proof. intros Hm Hf s. unfold then_. destruct (Hm s) as (s1 & [a | e] & ->); [apply Hf | eauto]. Qed.
Lemma returns_asks {A} (f : K -> K * A) : returns (asks f).
Proof. intros s. unfold asks. destruct (f _). eauto. Qed.
Lemma returns_sys {A} (m : M K Z A) : returns (sys m).
Proof. intros s. unfold sys. destruct (m _) as [k []]; eauto. Qed.
Lemma returns_lift_end i : returns (lift_end i).
Proof. intros s. unfold lift_end. apply returns_then; [apply returns_sys | intros fd s1; unfold edit; eauto]. Qed.
Lemma returns_open_stream pipes j : returns (open_stream pipes j).
Proof.
  unfold open_stream. destruct (negb _); [intros s; unfold give; eauto |]. apply returns_then; [apply returns_asks | intros p]. apply returns_then; [intros s; unfold edit; eauto | intros _].
  destruct (p =? 0); [intros s; unfold refuse_with; eauto |]. apply returns_then; [apply returns_sys | intros [a b]]. apply returns_then; [intros s; unfold edit; eauto | intros _].
  apply returns_then; [apply returns_lift_end | intros _; apply returns_lift_end].
Qed.
Lemma returns_make_child : returns make_child.
Proof.
  unfold make_child. apply returns_then; [apply returns_asks | intros p]. destruct (p =? 0); intros s; [unfold refuse_with; eauto |].
  destruct (p_mutex_init p _) as [k []]; unfold edit; eauto.
Qed.
Lemma returns_publish_pipe j : returns (publish_pipe j).
Proof. intros s. unfold publish_pipe. destruct (_ =? 0); eauto. Qed.
Lemma spawn_returns rounds r pipes (n : Procs K) : exists n1 result, spawn rounds r pipes n = Returned n1 result.
Proof.
  unfold spawn, launch. destruct r as [[[program arguments] environment] directory]. destruct (result_bind _ _) as [[program' directory'] | e]; [| eauto].
  assert (returns (launch_body rounds program' arguments environment directory' pipes None)) as Hb; [| destruct (Hb (mkSpawning n empty_pending)) as (s1 & res & ->); eauto].
  unfold launch_body. apply returns_then; [apply returns_make_child | intros _]. do 3 (apply returns_then; [apply returns_open_stream | intros _]).
  apply returns_then; [apply returns_asks | intros block]. apply returns_then; [intros s; unfold edit; eauto | intros _].
  destruct (block =? 0); [intros s; unfold refuse_with; eauto |]. apply returns_then; [intros s; apply returns_sys | intros pid].
  apply returns_then; [apply returns_asks | intros pidfd]. apply returns_then; [intros s; unfold publish_child; eauto | intros h].
  do 3 (apply returns_then; [apply returns_publish_pipe | intros ?]). intros s. unfold give. eauto.
Qed.
End Returns.

(** ** Resources *)
(** What a process holds of the system: open descriptors, blocks of the allocator, initialized mutexes, children that
    nobody has waited for, the objects of [posix_spawn], the signal mask of the thread. *)
Record Res := mkRes { r_fds : gset Z; r_blocks : gset Z; r_mutexes : gset Z; r_children : gset Z;
  r_actions : option (list Action); r_attr : option Attr; r_mask : Z }.
Definition set_fds (f : gset Z -> gset Z) (r : Res) : Res := mkRes (f (r_fds r)) (r_blocks r) (r_mutexes r) (r_children r) (r_actions r) (r_attr r) (r_mask r).
Definition set_blocks (f : gset Z -> gset Z) (r : Res) : Res := mkRes (r_fds r) (f (r_blocks r)) (r_mutexes r) (r_children r) (r_actions r) (r_attr r) (r_mask r).
Definition set_mutexes (f : gset Z -> gset Z) (r : Res) : Res := mkRes (r_fds r) (r_blocks r) (f (r_mutexes r)) (r_children r) (r_actions r) (r_attr r) (r_mask r).
Definition set_children (f : gset Z -> gset Z) (r : Res) : Res := mkRes (r_fds r) (r_blocks r) (r_mutexes r) (f (r_children r)) (r_actions r) (r_attr r) (r_mask r).
Definition set_actions (a : option (list Action)) (r : Res) : Res := mkRes (r_fds r) (r_blocks r) (r_mutexes r) (r_children r) a (r_attr r) (r_mask r).
Definition set_attr (a : option Attr) (r : Res) : Res := mkRes (r_fds r) (r_blocks r) (r_mutexes r) (r_children r) (r_actions r) a (r_mask r).
Definition set_mask (m : Z) (r : Res) : Res := mkRes (r_fds r) (r_blocks r) (r_mutexes r) (r_children r) (r_actions r) (r_attr r) m.
Definition with_new (x : Z) (s : gset Z) : gset Z := {[x]} ∪ s.
Definition without (x : Z) (s : gset Z) : gset Z := s ∖ {[x]}.

(** What the calls are documented to do to them.  Nothing is said of a [close] of a descriptor that is not open, of a [free]
    of a block that is not allocated, or of the end of a mutex that was not made: a program that relies on one cannot be
    proved. *)
Class SpawnLaws (K : Type) `{SpawnCalls K} := {
  res : K -> Res;
  sl_calloc n w k k1 p : p_calloc n w k = (k1, p) -> (p = 0 /\ res k1 = res k) \/ (p <> 0 /\ p ∉ r_blocks (res k) /\ res k1 = set_blocks (with_new p) (res k));
  sl_free p k : (p = 0 -> res (p_free p k) = res k) /\ (p <> 0 -> p ∈ r_blocks (res k) -> res (p_free p k) = set_blocks (without p) (res k));
  sl_mutex_init p k k1 r : p_mutex_init p k = (k1, r) -> match r with Ok _ => p ∉ r_mutexes (res k) -> res k1 = set_mutexes (with_new p) (res k) | Err _ => res k1 = res k end;
  sl_mutex_destroy p k : p ∈ r_mutexes (res k) -> res (p_mutex_destroy p k) = set_mutexes (without p) (res k);
  sl_pipe2 k k1 r : p_pipe2 k = (k1, r) -> match r with
    | Ok (a, b) => 0 <= a /\ 0 <= b /\ a <> b /\ a ∉ r_fds (res k) /\ b ∉ r_fds (res k) /\ res k1 = set_fds (fun s => with_new b (with_new a s)) (res k)
    | Err _ => res k1 = res k end;
  sl_dupfd fd low k k1 r : p_dupfd fd low k = (k1, r) -> match r with
    | Ok moved => low <= moved /\ moved ∉ r_fds (res k) /\ res k1 = set_fds (with_new moved) (res k) | Err _ => res k1 = res k end;
  sl_close fd k : fd ∈ r_fds (res k) -> res (p_close fd k).1 = set_fds (without fd) (res k);
  sl_actions_init k k1 r : p_actions_init k = (k1, r) -> match r with Ok _ => res k1 = set_actions (Some []) (res k) | Err _ => res k1 = res k end;
  sl_adddup2 fd stream l k k1 r : p_adddup2 fd stream k = (k1, r) -> r_actions (res k) = Some l ->
    match r with Ok _ => res k1 = set_actions (Some (l ++ [Dup2 fd stream])) (res k) | Err _ => res k1 = res k end;
  sl_addchdir d l k k1 r : p_addchdir d k = (k1, r) -> r_actions (res k) = Some l ->
    match r with Ok _ => res k1 = set_actions (Some (l ++ [Chdir d])) (res k) | Err _ => res k1 = res k end;
  sl_actions_destroy k : r_actions (res k) <> None -> res (p_actions_destroy k) = set_actions None (res k);
  sl_attr_init k k1 r : p_attr_init k = (k1, r) -> match r with Ok _ => res k1 = set_attr (Some (mkAttr None None 0)) (res k) | Err _ => res k1 = res k end;
  sl_setsigmask m a k k1 r : p_setsigmask m k = (k1, r) -> r_attr (res k) = Some a ->
    match r with Ok _ => res k1 = set_attr (Some (mkAttr (Some m) (a_default a) (a_flags a))) (res k) | Err _ => res k1 = res k end;
  sl_setsigdefault m a k k1 r : p_setsigdefault m k = (k1, r) -> r_attr (res k) = Some a ->
    match r with Ok _ => res k1 = set_attr (Some (mkAttr (a_mask a) (Some m) (a_flags a))) (res k) | Err _ => res k1 = res k end;
  sl_setflags f a k k1 r : p_setflags f k = (k1, r) -> r_attr (res k) = Some a ->
    match r with Ok _ => res k1 = set_attr (Some (mkAttr (a_mask a) (a_default a) f)) (res k) | Err _ => res k1 = res k end;
  sl_attr_destroy k : r_attr (res k) <> None -> res (p_attr_destroy k) = set_attr None (res k);
  sl_posix_spawn p a e k k1 r : p_posix_spawn p a e k = (k1, r) -> match r with
    | Ok pid => 0 < pid /\ pid ∉ r_children (res k) /\ res k1 = set_children (with_new pid) (res k) | Err _ => res k1 = res k end;
  sl_sigmask m k : (p_sigmask m k).2 = r_mask (res k) /\ exists blocked, res (p_sigmask m k).1 = set_mask (default blocked m) (res k);
  sl_fork k k1 r : p_fork k = (k1, r) -> match r with
    | Ok pid => 0 < pid /\ pid ∉ r_children (res k) /\ res k1 = set_children (with_new pid) (res k) | Err _ => res k1 = res k end;
  sl_read fd n k : res (p_read fd n k).1 = res k;
  sl_waitpid pid k k1 r : p_waitpid pid k = (k1, r) -> match r with
    | Err code => if code =? EINTR then res k1 = res k else res k1 = set_children (without pid) (res k) | Ok _ => res k1 = set_children (without pid) (res k) end;
  sl_pidfd_open pid k k1 r : p_pidfd_open pid k = (k1, r) -> match r with
    | Ok fd => 0 <= fd /\ fd ∉ r_fds (res k) /\ res k1 = set_fds (with_new fd) (res k) | Err _ => res k1 = res k end;
}.

(** [cur] is [old] and the new members of [l], each once. *)
Record extra (old cur : gset Z) (l : list Z) : Prop := {
  ex_cur : cur = old ∪ list_to_set l; ex_nodup : NoDup l; ex_new : forall x, x ∈ l -> x ∉ old }.
#[export] Instance extra_Proper old cur : Proper ((≡ₚ) ==> iff) (extra old cur).
Proof.
  intros l l' Hp. split; intros [H1 H2 H3]; split.
  - rewrite H1. f_equal. apply leibniz_equiv. by rewrite Hp.
  - by rewrite <- Hp.
  - intros x Hx. apply H3. by rewrite Hp.
  - rewrite H1. f_equal. apply leibniz_equiv. by rewrite Hp.
  - by rewrite Hp.
  - intros x Hx. apply H3. by rewrite <- Hp.
Qed.
Lemma extra_nil old cur : extra old cur [] <-> cur = old.
Proof. split; [intros [-> _ _]; set_solver | intros ->; split; [set_solver | constructor | set_solver]]. Qed.
Lemma extra_add old cur l x : extra old cur l -> x ∉ cur -> extra old (with_new x cur) (x :: l).
Proof. intros [-> H2 H3] Hx. unfold with_new. split; [set_solver | constructor; set_solver | set_solver]. Qed.
Lemma extra_in old cur l x : extra old cur (x :: l) -> x ∈ cur.
Proof. intros [-> _ _]. set_solver. Qed.
Lemma extra_remove old cur l x : extra old cur (x :: l) -> extra old (without x cur) l.
Proof.
  intros [-> H2 H3]. apply NoDup_cons in H2 as [Hx H2]. unfold without. split; [| done | set_solver].
  assert (x ∉ old) by set_solver. set_solver.
Qed.

Definition is_fd (fd : Z) : Prop := 0 <= fd.
#[export] Instance is_fd_dec fd : Decision (is_fd fd).
Proof. unfold is_fd. apply _. Defined.
Definition is_block (p : Z) : Prop := p <> 0.
#[export] Instance is_block_dec p : Decision (is_block p).
Proof. unfold is_block. apply _. Defined.

Section Balance.
Context {K : Type} {C : SpawnCalls K} {L : SpawnLaws K} (rounds : nat).

(** *** [start] *)
(** [k] is [k0] with the two objects of [posix_spawn] as given. *)
Definition objects (l : list Action) (a : Attr) (k0 k : K) : Prop := res k = set_actions (Some l) (set_attr (Some a) (res k0)).
Definition dups (ends : list Z) (stream : nat) : list Action :=
  let fd := default (-1) (ends !! (2 * stream)%nat) in if 0 <=? fd then [Dup2 fd (Z.of_nat stream)] else [].
(** What the child is to find: its streams, its directory, no signal blocked, every disposition at its default. *)
Definition wanted_actions (ends : list Z) (directory : option (list Z)) : list Action :=
  dups ends 0 ++ dups ends 1 ++ dups ends 2 ++ match directory with Some d => [Chdir d] | None => [] end.
Definition wanted_attr : Attr := mkAttr (Some NoSignals) (Some AllSignals) 12.
Lemma dup_stream_spec fds stream l a k0 k k1 r : objects l a k0 k -> dup_stream fds stream k = (k1, r) ->
  match r with Ok _ => objects (l ++ dups fds stream) a k0 k1 | Err _ => objects l a k0 k1 end.
Proof.
  unfold dup_stream, dups, objects. intros Hk. destruct (0 <=? _); [| intros [= <- <-]; by rewrite app_nil_r].
  intros Hd. eapply sl_adddup2 in Hd; [| by rewrite Hk]. destruct r; rewrite Hd, Hk; done.
Qed.
Lemma spawn_steps_spec program argv envp directory fds k0 k k1 r : objects [] (mkAttr None None 0) k0 k ->
  spawn_steps program argv envp directory fds k = (k1, r) ->
  match r with
  | Ok pid => exists k2, p_posix_spawn program argv envp k2 = (k1, Ok pid) /\ objects (wanted_actions fds directory) wanted_attr k0 k2
  | Err _ => exists l a, objects l a k0 k1
  end.
Proof.
  unfold spawn_steps, bind. intros Hk.
  destruct (dup_stream fds 0 k) as [k2 [] ] eqn:E0; eapply (dup_stream_spec fds 0) in E0; [| exact Hk | | exact Hk]; [| intros [= <- <-]; eauto].
  destruct (dup_stream fds 1 k2) as [k3 [] ] eqn:E1; eapply (dup_stream_spec fds 1) in E1; [| exact E0 | | exact E0]; [| intros [= <- <-]; eauto].
  destruct (dup_stream fds 2 k3) as [k4 [] ] eqn:E2; eapply (dup_stream_spec fds 2) in E2; [| exact E1 | | exact E1]; [| intros [= <- <-]; eauto].
  destruct (match directory with Some d => p_addchdir d | None => ret tt end k4) as [k5 r5] eqn:E3.
  assert (match r5 with Ok _ => objects (wanted_actions fds directory) (mkAttr None None 0) k0 k5 | Err _ => exists l a, objects l a k0 k5 end) as H5.
  { unfold wanted_actions. simpl in E2. rewrite !app_assoc. destruct directory as [d |]; [| injection E3 as <- <-; by rewrite app_nil_r].
    unfold objects in *. eapply sl_addchdir in E3; [| by rewrite E2]. destruct r5; rewrite E3, E2; eauto. }
  destruct r5; [| intros [= <- <-]; eauto].
  destruct (p_setsigmask NoSignals k5) as [k6 r6] eqn:E6. eapply sl_setsigmask in E6; [| unfold objects in H5; by rewrite H5].
  unfold objects in *. destruct r6; rewrite H5 in E6; simpl in E6; [| intros [= <- <-]; rewrite E6; eauto].
  destruct (p_setsigdefault AllSignals k6) as [k7 r7] eqn:E7. eapply sl_setsigdefault in E7; [| by rewrite E6].
  destruct r7; rewrite E6 in E7; simpl in E7; [| intros [= <- <-]; rewrite E7; eauto].
  destruct (p_setflags _ k7) as [k8 r8] eqn:E8. eapply sl_setflags in E8; [| by rewrite E7].
  destruct r8; rewrite E7 in E8; simpl in E8; [| intros [= <- <-]; rewrite E8; eauto].
  intros Es. destruct r; [exists k8; split; [done |]; rewrite E8; reflexivity |].
  apply sl_posix_spawn in Es. rewrite Es, E8. eauto.
Qed.
Definition new_child (k : K) (k1 : K) (r : result Z Z) : Prop :=
  match r with Ok pid => 0 < pid /\ pid ∉ r_children (res k) /\ res k1 = set_children (with_new pid) (res k) | Err _ => res k1 = res k end.
Lemma start_spec program argv envp directory fds k k1 r : r_actions (res k) = None -> r_attr (res k) = None ->
  start program argv envp directory fds k = (k1, r) -> new_child k k1 r.
Proof.
  intros Ha Hb. unfold start, bind, new_child. destruct (p_actions_init k) as [k2 r2] eqn:E2. apply sl_actions_init in E2.
  destruct r2; [| intros [= <- <-]; done]. destruct (p_attr_init k2) as [k3 r3] eqn:E3. apply sl_attr_init in E3. destruct r3.
  - destruct (spawn_steps _ _ _ _ _ k3) as [k4 r4] eqn:E4. intros [= <- <-]. apply (spawn_steps_spec _ _ _ _ _ k) in E4; [| unfold objects; by rewrite E3, E2].
    assert (forall l a, objects l a k k4 -> res (p_actions_destroy (p_attr_destroy k4)) = res k) as Hend.
    { intros l a Ho. unfold objects in Ho. rewrite sl_actions_destroy; rewrite sl_attr_destroy; rewrite ?Ho; simpl; try done. destruct (res k). simpl in *. by subst. }
    destruct r4 as [pid | code]; [| destruct E4 as (l & a & Ho); by eapply Hend].
    destruct E4 as (k5 & Es & Ho). apply sl_posix_spawn in Es as (Hp & Hn & Es). unfold objects in Ho. rewrite Ho in Hn, Es. simpl in Hn. split; [done |]. split; [done |].
    rewrite sl_actions_destroy; rewrite sl_attr_destroy; rewrite ?Es; simpl; try done. destruct (res k). simpl in *. by subst.
  - intros [= <- <-]. rewrite sl_actions_destroy; rewrite ?E3, ?E2; [| done]. destruct (res k). simpl in *. by subst.
Qed.

(** *** [start_as] *)
Definition shape (r : Res) (fds children : gset Z) (mask : Z) : Res := mkRes fds (r_blocks r) (r_mutexes r) children (r_actions r) (r_attr r) mask.
Lemma shape_id r : shape r (r_fds r) (r_children r) (r_mask r) = r.
Proof. by destruct r. Qed.
Lemma lift_spec r0 old f c m l fd k k1 r : res k = shape r0 f c m -> extra old f (fd :: l) -> lift fd k = (k1, r) ->
  match r with Ok moved => 2 < moved /\ exists f1, res k1 = shape r0 f1 c m /\ extra old f1 (moved :: l) | Err _ => res k1 = res k end.
Proof.
  intros Hk Hf. unfold lift. destruct (Z.ltb_spec 2 fd); [intros [= <- <-]; split; [lia | eauto] |]. unfold bind.
  destruct (p_dupfd fd 3 k) as [k2 [moved | code]] eqn:E; apply sl_dupfd in E; [| by intros [= <- <-]]. destruct E as (Hlow & Hn & E).
  assert (fd ∈ r_fds (res k2)) as Hin by (rewrite E, Hk; unfold with_new; simpl; apply extra_in in Hf; set_solver).
  pose proof (sl_close fd k2 Hin) as Hc. destruct (p_close fd k2) as [k3 x]. simpl in Hc. intros [= <- <-]. split; [lia |].
  rewrite E, Hk in Hc. rewrite Hk in Hn. simpl in *. eexists. split; [exact Hc |]. apply extra_remove. rewrite Permutation_swap. by apply extra_add.
Qed.
Lemma close_spec r0 old f c m l fd k : res k = shape r0 f c m -> extra old f (fd :: l) ->
  exists f1, res (p_close fd k).1 = shape r0 f1 c m /\ extra old f1 l.
Proof.
  intros Hk Hf. assert (fd ∈ r_fds (res k)) as Hin by (rewrite Hk; simpl; by eapply extra_in).
  rewrite sl_close, Hk by done. eexists. split; [reflexivity |]. by apply extra_remove.
Qed.
Lemma read_report_res fuel fd : forall k k1 r, read_report fuel fd k = Some (k1, r) -> res k1 = res k.
Proof.
  induction fuel as [| fuel IH]; intros k k1 r; [done |]. simpl. pose proof (sl_read fd 4 k) as Hr. destruct (p_read fd 4 k) as [k2 [got | code]]; simpl in Hr.
  - by intros [= <- <-].
  - destruct (code =? EINTR); [intros H%IH; congruence | by intros [= <- <-]].
Qed.
Lemma reap_failed_res fuel pid : forall k k1, reap_failed fuel pid k = Some k1 -> res k1 = set_children (without pid) (res k).
Proof.
  induction fuel as [| fuel IH]; intros k k1; [done |]. simpl. destruct (p_waitpid pid k) as [k2 [got | code]] eqn:E; apply sl_waitpid in E.
  - by intros [= <-].
  - destruct (code =? EINTR); [intros H%IH; congruence | by intros [= <-]].
Qed.
Lemma start_as_spec k k1 r : start_as rounds k = Some (k1, r) -> new_child k k1 r.
Proof.
  unfold start_as, new_child. destruct (p_pipe2 k) as [k2 [[a b] | code]] eqn:E2; apply sl_pipe2 in E2; [| by intros [= <- <-]].
  destruct E2 as (Ha & Hb & Hab & Hna & Hnb & E2). set (r0 := res k) in *.
  assert (extra (r_fds r0) (r_fds (res k2)) [a; b]) as X2.
  { rewrite E2. rewrite Permutation_swap. simpl. apply extra_add; [apply extra_add; [by apply extra_nil | done] | unfold with_new; set_solver]. }
  assert (res k2 = shape r0 (r_fds (res k2)) (r_children r0) (r_mask r0)) as Y2 by (rewrite E2; done). clear E2.
  assert (forall k' f l x, res k' = shape r0 f (r_children r0) (r_mask r0) -> extra (r_fds r0) f [x; l] -> res (p_close l (p_close x k').1).1 = r0) as Hboth.
  { intros k' f l x Hk Hf. destruct (close_spec _ _ _ _ _ _ _ _ Hk Hf) as (f1 & Hk1 & Hf1). destruct (close_spec _ _ _ _ _ _ _ _ Hk1 Hf1) as (f2 & Hk2 & Hf2).
    rewrite Hk2. apply extra_nil in Hf2 as ->. apply shape_id. }
  destruct (lift a k2) as [k3 [reader | code]] eqn:E3; eapply lift_spec in E3; try done; [| intros [= <- <-]; eapply Hboth; [by rewrite E3 | done]].
  destruct E3 as (_ & f3 & Y3 & X3). rewrite Permutation_swap in X3.
  destruct (lift b k3) as [k4 [writer | code]] eqn:E4; eapply lift_spec in E4; try done; [| intros [= <- <-]; eapply Hboth; [by rewrite E4 | by rewrite Permutation_swap]].
  destruct E4 as (_ & f4 & Y4 & X4). destruct (sl_sigmask None k4) as [Hm1 [blocked Hm2]]. destruct (p_sigmask None k4) as [k5 before]. simpl in Hm1, Hm2. rewrite Y4 in Hm1, Hm2. simpl in Hm1, Hm2.
  destruct (p_fork k5) as [k6 pid] eqn:E6. apply sl_fork in E6. destruct (sl_sigmask (Some before) k6) as [_ [blocked' Hm3]]. set (k7 := (p_sigmask (Some before) k6).1) in *.
  assert (res k7 = shape r0 f4 (match pid with Ok pid => with_new pid (r_children r0) | Err _ => r_children r0 end) (r_mask r0)) as Y7.
  { rewrite Hm3. destruct pid; [destruct E6 as (_ & _ & E6) |]; rewrite E6, Hm2; simpl; by rewrite Hm1. }
  destruct (close_spec _ _ _ _ _ _ _ _ Y7 X4) as (f8 & Y8 & X8). destruct pid as [pid | code].
  - destruct E6 as (Hpid & Hnew & _). rewrite Hm2 in Hnew. simpl in Hnew. set (k8 := (p_close writer k7).1) in *.
    destruct (read_report rounds reader k8) as [[k9 got] |] eqn:E9; [| done]. cbn [mbind option_bind]. apply read_report_res in E9. rewrite Y8 in E9.
    destruct (close_spec _ _ _ _ _ _ _ _ E9 X8) as (f10 & Y10 & X10). apply extra_nil in X10 as ->. set (k10 := (p_close reader k9).1) in *.
    assert (0 < pid /\ (pid ∉ r_children r0) /\ res k10 = set_children (with_new pid) r0) as Hok by (rewrite Y10; destruct r0; done).
    destruct got as [bytes | code]; [| by intros [= <- <-]]. destruct (lenZ bytes =? 4); [| by intros [= <- <-]].
    destruct (reap_failed rounds pid k10) as [k11 |] eqn:E11; [| done]. cbn [mbind option_bind]. intros [= <- <-]. apply reap_failed_res in E11.
    rewrite E11, Y10. destruct r0; unfold set_children, shape, without, with_new; simpl in *. f_equal. set_solver.
  - intros [= <- <-]. destruct (close_spec _ _ _ _ _ _ _ _ Y8 X8) as (f9 & Y9 & X9). rewrite Y9. apply extra_nil in X9 as ->. apply shape_id.
Qed.

(** *** What [Pending] holds *)
Definition held_fds (p : Pending) : list Z := filter is_fd (ends p).
Definition block_list (p : Pending) : list Z := pd_child p :: pd_pipes p ++ [vectors p; spare p].
Definition held_blocks (p : Pending) : list Z := filter is_block (block_list p).
Definition held_mutexes (p : Pending) : list Z := filter is_block [pd_child p].
Lemma filter_fd x : 0 <= x -> filter is_fd [x] = [x].
Proof. intros Hx. by rewrite filter_cons_True. Qed.
Lemma filter_no_fd : filter is_fd [-1] = [].
Proof. rewrite filter_cons_False; [done | unfold is_fd; lia]. Qed.
Lemma filter_block x : x <> 0 -> filter is_block [x] = [x].
Proof. intros Hx. by rewrite filter_cons_True. Qed.
Lemma filter_no_block : filter is_block [0] = [].
Proof. rewrite filter_cons_False; [done |]. intros H. by apply H. Qed.
(** Changing one slot of a list changes what the list holds by that slot. *)
Lemma held_slot P `{forall x : Z, Decision (P x)} (l : list Z) i x : l !! i = Some x ->
  exists rest, filter P l ≡ₚ filter P [x] ++ rest /\ forall y, filter P (<[i := y]> l) ≡ₚ filter P [y] ++ rest.
Proof.
  intros Hi. exists (filter P (take i l ++ drop (S i) l)). split.
  - rewrite <- (take_drop_middle l i x Hi) at 1. rewrite <- filter_app. f_equiv. by rewrite <- Permutation_middle.
  - intros y. rewrite insert_take_drop by (by eapply lookup_lt_Some). rewrite <- filter_app. f_equiv. by rewrite <- Permutation_middle.
Qed.
(** The state on the way: relative to the resources [r0] at the start, the kernel has what [Pending] holds and what was
    published ([pf], [pb], [pm]), with the children [c], and nothing else. *)
Record holding (r0 : Res) (c : gset Z) (pf pb pm : list Z) (s : Spawning K) : Prop := {
  ho_res : exists f b m, res (kernel (procs s)) = mkRes f b m c (r_actions r0) (r_attr r0) (r_mask r0) /\
    extra (r_fds r0) f (held_fds (pending s) ++ pf) /\ extra (r_blocks r0) b (held_blocks (pending s) ++ pb) /\ extra (r_mutexes r0) m (held_mutexes (pending s) ++ pm);
  ho_ends : length (ends (pending s)) = 6%nat;
  ho_pipes : length (pd_pipes (pending s)) = 3%nat }.
Lemma holding_kernel r0 c c1 pf pb pm s k f : holding r0 c pf pb pm s -> extra (r_fds r0) f (held_fds (pending s) ++ pf) ->
  res k = set_fds (fun _ => f) (set_children (fun _ => c1) (res (kernel (procs s)))) -> holding r0 c1 pf pb pm (put_kernel k s).
Proof.
  intros [(f0 & b & m & Hr & _ & Hb & Hm) H1 H2] Hf Hk. split; [| done | done]. exists f, b, m. simpl. rewrite Hk, Hr. simpl. done.
Qed.
Lemma holding_same r0 c pf pb pm s k : holding r0 c pf pb pm s -> res k = res (kernel (procs s)) -> holding r0 c pf pb pm (put_kernel k s).
Proof.
  intros [(f0 & b & m & Hr & Hf & Hb & Hm) H1 H2] Hk. split; [| done | done]. exists f0, b, m. simpl. rewrite Hk, Hr. done.
Qed.
(** A block goes into an empty slot of [Pending]. *)
Lemma holding_block r0 c pf pb pm s k p i (set_ : Pending -> Pending) : holding r0 c pf pb pm s -> p <> 0 -> p ∉ r_blocks (res (kernel (procs s))) ->
  res k = set_blocks (with_new p) (res (kernel (procs s))) -> block_list (pending s) !! i = Some 0 ->
  ends (set_ (pending s)) = ends (pending s) -> pd_child (set_ (pending s)) = pd_child (pending s) -> length (pd_pipes (set_ (pending s))) = 3%nat ->
  block_list (set_ (pending s)) = <[i := p]> (block_list (pending s)) ->
  holding r0 c pf pb pm (mkSpawning (procs (put_kernel k s)) (set_ (pending s))).
Proof.
  intros [(f & b & m & Hr & Hf & Hb & Hm) H1 H2] Hp Hn Hk Hi He Hc Hl Hbl. rewrite Hr in Hk, Hn. simpl in Hk, Hn. split; simpl; [| by rewrite He | done].
  exists f, (with_new p b), m. split; [done |]. unfold held_fds, held_blocks, held_mutexes in *. rewrite He, Hc, Hbl. split; [done |]. split; [| done].
  destruct (held_slot is_block _ _ _ Hi) as (rest & H0 & Hy). rewrite Hy. rewrite H0 in Hb. rewrite filter_no_block in Hb. rewrite filter_block by done. by apply extra_add.
Qed.
(** A descriptor slot changes from [x] to [y]. *)
Lemma held_fds_set i x y p : ends p !! i = Some x -> exists rest, held_fds p ≡ₚ filter is_fd [x] ++ rest /\ held_fds (set_end i y p) ≡ₚ filter is_fd [y] ++ rest.
Proof. intros Hi. destruct (held_slot is_fd _ _ _ Hi) as (rest & H0 & Hy). exists rest. split; [done |]. unfold held_fds. simpl. apply Hy. Qed.

(** *** The streams *)
Definition unopened (p : Pending) (j : nat) : Prop := ends p !! (2 * j)%nat = Some (-1) /\ ends p !! (2 * j + 1)%nat = Some (-1) /\ pd_pipes p !! j = Some 0.
Definition asked (pipes : Z) (j : nat) : bool := has pipes (Z.shiftl 1 (Z.of_nat j)).
Definition streamed (pipes : Z) (p : Pending) (j : nat) : Prop :=
  if asked pipes j then exists pipe a b, pd_pipes p !! j = Some pipe /\ pipe <> 0 /\ ends p !! (2 * j)%nat = Some a /\ 2 < a /\ ends p !! (2 * j + 1)%nat = Some b /\ 2 < b
  else unopened p j.
(** Only the slots of stream [j] may differ. *)
Record others_kept (j : nat) (p p1 : Pending) : Prop := {
  ok_ends i : i <> (2 * j)%nat -> i <> (2 * j + 1)%nat -> ends p1 !! i = ends p !! i; ok_pipes i : i <> j -> pd_pipes p1 !! i = pd_pipes p !! i;
  ok_child : pd_child p1 = pd_child p; ok_vectors : vectors p1 = vectors p; ok_spare : spare p1 = spare p }.
Definition same_handles (s s1 : Spawning K) : Prop := childs (procs s1) = childs (procs s) /\ pipe_fds (procs s1) = pipe_fds (procs s).
Lemma streamed_kept pipes j i p p1 : others_kept j p p1 -> i <> j -> streamed pipes p i -> streamed pipes p1 i.
Proof.
  intros [H1 H2 _ _ _] Hne. unfold streamed, unopened. rewrite !H1, H2 by lia. done.
Qed.
Lemma unopened_kept j i p p1 : others_kept j p p1 -> i <> j -> unopened p i -> unopened p1 i.
Proof. intros [H1 H2 _ _ _] Hne. unfold unopened. rewrite !H1, H2 by lia. done. Qed.
Lemma lift_end_spec r0 c pf pb pm s s1 r i x : holding r0 c pf pb pm s -> ends (pending s) !! i = Some x -> 0 <= x -> lift_end i s = Returned s1 r ->
  holding r0 c pf pb pm s1 /\ same_handles s s1 /\
  match r with Ok _ => exists y, 2 < y /\ pending s1 = set_end i y (pending s) | Err _ => pending s1 = pending s end.
Proof.
  intros Hh Hi Hx. unfold lift_end, then_, sys. replace (get_end i (pending s)) with x by (unfold get_end; by rewrite Hi).
  destruct Hh as [(f & b & m & Hr & Hf & Hb & Hm) H1 H2]. destruct (held_slot is_fd _ _ _ Hi) as (rest & Ho & Hy).
  destruct (lift x (kernel (procs s))) as [k [y | code]] eqn:E; eapply (lift_spec (res (kernel (procs s))) (r_fds r0) f c (r_mask r0) (rest ++ pf)) in E.
  2, 5: rewrite Hr; done. 2, 4: unfold held_fds in Hf; rewrite Ho, filter_fd in Hf by done; done.
  - destruct E as (Hlow & f1 & Hk & Hf1). unfold edit. intros [= <- <-]. split; [| split; [done | by exists y]]. split; simpl; [| by rewrite length_insert | done].
    exists f1, b, m. split; [rewrite Hk, Hr; done |]. split; [| done]. unfold held_fds. simpl. rewrite Hy, filter_fd by lia. done.
  - intros [= <- <-]. split; [| done]. apply holding_same; [| done]. split; [| done | done]. by exists f, b, m.
Qed.
Lemma others_kept_end j i w p p1 : others_kept j p p1 -> i = (2 * j)%nat \/ i = (2 * j + 1)%nat -> others_kept j p (set_end i w p1).
Proof. intros [Z1 Z2 Z3 Z4 Z5] Hi. split; try done. intros i' I1 I2. simpl. rewrite list_lookup_insert_ne by lia. auto. Qed.
(** The two ends of a new pipe go into the empty slots of a stream. *)
Lemma holding_pair r0 c pf pb pm s k (a b : Z) j (x := if (j =? 0)%nat then a else b) (y := if (j =? 0)%nat then b else a) :
  holding r0 c pf pb pm s -> ends (pending s) !! (2 * j)%nat = Some (-1) -> ends (pending s) !! (2 * j + 1)%nat = Some (-1) ->
  0 <= a -> 0 <= b -> a <> b -> a ∉ r_fds (res (kernel (procs s))) -> b ∉ r_fds (res (kernel (procs s))) ->
  res k = set_fds (fun s => with_new b (with_new a s)) (res (kernel (procs s))) ->
  holding r0 c pf pb pm (mkSpawning (procs (put_kernel k s)) (set_end (2 * j + 1) y (set_end (2 * j) x (pending s)))).
Proof.
  intros [(f & b' & m & Hr & Hf & Hb' & Hm) Ho Hl] He1 He2 Ha Hb Hab Hna Hnb Hk. rewrite Hr in *. simpl in Hna, Hnb, Hk. split; simpl; [| by rewrite !length_insert | done].
  exists (with_new b (with_new a f)), b', m. split; [done |]. split; [| done].
  assert (0 <= x /\ 0 <= y) as [Hx Hy] by (unfold x, y; destruct (j =? 0)%nat; auto).
  destruct (held_fds_set (2 * j) (-1) x (pending s) He1) as (rest & R1 & R2). rewrite R1, filter_no_fd in Hf.
  assert (ends (set_end (2 * j) x (pending s)) !! (2 * j + 1)%nat = Some (-1)) as He2' by (simpl; by rewrite list_lookup_insert_ne by lia).
  destruct (held_fds_set (2 * j + 1) (-1) y _ He2') as (rest' & S1 & S2). rewrite S2. rewrite filter_no_fd in S1. simpl in S1. rewrite <- S1, R2, !filter_fd by done.
  assert (extra (r_fds r0) (with_new b (with_new a f)) (b :: a :: rest ++ pf)) as Hg by (apply extra_add; [by apply extra_add | unfold with_new; set_solver]).
  unfold x, y. destruct (j =? 0)%nat; [done |]. cbn [app]. rewrite Permutation_swap. done.
Qed.
Lemma open_stream_spec r0 c pf pb pm s s1 r pipes j : holding r0 c pf pb pm s -> (j < 3)%nat -> unopened (pending s) j -> open_stream pipes j s = Returned s1 r ->
  holding r0 c pf pb pm s1 /\ same_handles s s1 /\ others_kept j (pending s) (pending s1) /\ (r = Ok tt -> streamed pipes (pending s1) j).
Proof.
  intros Hh Hj (He1 & He2 & Hp). unfold open_stream, streamed. fold (asked pipes j). destruct (asked pipes j); cbn [negb];
    [| unfold give; intros [= <- <-]; repeat split; try done; apply Hh].
  unfold then_ at 1, asks. cbv beta. destruct (p_calloc 1 size_of_Pipe (kernel (procs s))) as [k pipe] eqn:Ec. apply sl_calloc in Ec. unfold then_ at 1, edit. cbn [pending procs put_kernel].
  assert (others_kept j (pending s) (set_pipe j pipe (pending s))) as Hset by (split; try done; simpl; intros i Hi; by rewrite list_lookup_insert_ne by lia).
  destruct Ec as [[-> Hk] | (Hnz & Hfresh & Hk)].
  { change (0 =? 0) with true. cbv iota. unfold refuse_with. intros [= <- <-]. split; [| split; [done | split; [done | done]]]. destruct (holding_same _ _ _ _ _ _ k Hh Hk) as [Hr Ho Hl].
    replace (set_pipe j 0 (pending s)) with (pending s); [by split |]. unfold set_pipe. rewrite list_insert_id by done. by destruct (pending s). }
  destruct (Z.eqb_spec pipe 0); [done |].
  assert (holding r0 c pf pb pm (mkSpawning (procs (put_kernel k s)) (set_pipe j pipe (pending s)))) as H2.
  { destruct Hh as [Hr Ho Hl]. apply (holding_block r0 c pf pb pm s k pipe (S j) (set_pipe j pipe)); [by split | done | done | done | | done | done | by simpl; rewrite length_insert |].
    - unfold block_list. change ((pd_pipes (pending s) ++ [vectors (pending s); spare (pending s)]) !! j = Some 0). by rewrite lookup_app_l by (rewrite Hl; lia).
    - unfold block_list. cbn [pd_child pd_pipes vectors spare set_pipe]. change (<[S j := pipe]> (?x :: ?l)) with (x :: <[j := pipe]> l). by rewrite insert_app_l by (rewrite Hl; lia). }
  clear Hh Hk Hfresh. unfold then_ at 1, sys. cbv beta. cbn [procs put_kernel] in *. cbn [kernel] in *.
  destruct (p_pipe2 k) as [k2 [[a b] | code]] eqn:E2; apply sl_pipe2 in E2.
  2: { intros [= <- <-]. split; [by apply (holding_same _ _ _ _ _ _ k2) in H2 |]. done. }
  destruct E2 as (Ha & Hb & Hab & Hna & Hnb & E2). unfold then_ at 1, edit. cbn [pending procs put_kernel kernel childs pipe_fds].
  set (x := if (j =? 0)%nat then a else b). set (y := if (j =? 0)%nat then b else a).
  set (p2 := set_end (2 * j + 1) y (set_end (2 * j) x (set_pipe j pipe (pending s)))).
  assert (0 <= x /\ 0 <= y) as [Hx Hy] by (unfold x, y; destruct (j =? 0)%nat; auto).
  pose proof (holding_pair _ _ _ _ _ _ k2 a b j H2 He1 He2 Ha Hb Hab Hna Hnb E2) as H3. cbn [pending procs put_kernel kernel childs pipe_fds] in H3. fold x y p2 in H3.
  clear H2 E2 Hna Hnb. unfold then_.
  assert (length (ends (pending s)) = 6)%nat as Hlen by (pose proof (ho_ends _ _ _ _ _ _ H3) as Hlen; unfold p2 in Hlen; simpl in Hlen; by rewrite !length_insert in Hlen).
  assert (length (pd_pipes (pending s)) = 3)%nat as Hlen' by (pose proof (ho_pipes _ _ _ _ _ _ H3) as Hl; unfold p2 in Hl; simpl in Hl; by rewrite !length_insert in Hl).
  assert (others_kept j (pending s) p2) as Hp2 by (unfold p2; apply others_kept_end; [apply others_kept_end |]; auto).
  destruct (lift_end (2 * j) _) as [s4 r4 | |] eqn:E4; try done. eapply (lift_end_spec _ _ _ _ _ _ _ _ _ x H3) in E4 as (H4 & Hsame4 & E4);
    [| unfold p2; simpl; rewrite list_lookup_insert_ne by lia; apply list_lookup_insert_eq; lia | done].
  destruct r4 as [[] | e]; [| intros [= <- <-]; rewrite E4; done].
  destruct E4 as (x' & Hx' & E4). intros E5. eapply (lift_end_spec _ _ _ _ _ _ _ _ _ y H4) in E5 as (H5 & Hsame5 & E5);
    [| rewrite E4; unfold p2; simpl; rewrite list_lookup_insert_ne by lia; apply list_lookup_insert_eq; rewrite length_insert; lia | done].
  split; [done |]. unfold same_handles in *. split; [destruct Hsame4, Hsame5; simpl in *; split; congruence |].
  destruct r as [[] | e]; [destruct E5 as (y' & Hy' & E5) |]; rewrite E5, E4; (split; [auto using others_kept_end | try done]).
  intros _. exists pipe, x', y'. unfold p2. simpl. split; [apply list_lookup_insert_eq; lia |]. split; [done |].
  split; [rewrite list_lookup_insert_ne by lia; apply list_lookup_insert_eq; rewrite !length_insert; lia |]. split; [done |].
  split; [apply list_lookup_insert_eq; rewrite !length_insert; lia | done].
Qed.

(** *** The other steps of [launch] *)
Lemma holding_start n : holding (res (kernel n)) (r_children (res (kernel n))) [] [] [] (mkSpawning n empty_pending).
Proof.
  split; [| done | done]. exists (r_fds (res (kernel n))), (r_blocks (res (kernel n))), (r_mutexes (res (kernel n))). simpl.
  split; [by destruct (res (kernel n)) |]. split; [by apply extra_nil |]. split; by apply extra_nil.
Qed.
Lemma make_child_spec r0 c s s1 r : r_mutexes r0 ⊆ r_blocks r0 -> holding r0 c [] [] [] s -> pd_child (pending s) = 0 -> make_child s = Returned s1 r ->
  holding r0 c [] [] [] s1 /\ same_handles s s1 /\
  match r with Ok _ => exists child, child <> 0 /\ pending s1 = set_child child (pending s) | Err _ => pending s1 = pending s end.
Proof.
  intros Hsub Hh Hc. unfold make_child, then_, asks. destruct (p_calloc 1 size_of_Child (kernel (procs s))) as [k child] eqn:E. apply sl_calloc in E.
  destruct E as [[-> Hk] | (Hnz & Hn & Hk)]; [simpl; unfold refuse_with; intros [= <- <-]; split; [by apply holding_same | done] |].
  destruct (Z.eqb_spec child 0); [done |]. cbn [procs put_kernel kernel]. destruct Hh as [(f & b & m & Hr & Hf & Hb & Hm) H1 H2].
  assert (held_mutexes (pending s) = []) as Hm0 by (unfold held_mutexes; by rewrite Hc, filter_no_block). rewrite Hm0 in Hm. apply extra_nil in Hm as ->.
  rewrite Hr in Hn, Hk. simpl in Hn, Hk.
  destruct (p_mutex_init child k) as [k2 [u | code]] eqn:E2; apply sl_mutex_init in E2.
  - rewrite Hk in E2. simpl in E2. assert (child ∉ r_mutexes r0) as Hnm by (intros Hin; apply Hn; rewrite (ex_cur _ _ _ Hb); set_solver). specialize (E2 Hnm).
    unfold edit. intros [= <- <-]. split; [| split; [done | by exists child]]. split; simpl; [| done | done]. eexists f, _, _. split; [exact E2 |]. split; [done |].
    unfold held_blocks, held_mutexes, block_list in *. cbn [pd_child pd_pipes vectors spare set_child]. rewrite Hc in Hb. rewrite filter_cons_True by done.
    rewrite filter_cons_False in Hb by (intros X; by apply X). rewrite filter_block by done. split; (apply extra_add; [| done]); [done | by apply extra_nil].
  - intros [= <- <-]. split; [| done]. split; simpl; [| done | done]. eexists f, b, _. rewrite (proj2 (sl_free child k2)) by (done || (rewrite E2, Hk; simpl; unfold with_new; set_solver)).
    rewrite E2, Hk. simpl. unfold set_blocks, without, with_new. simpl. split; [f_equal; set_solver |]. split; [done |]. split; [done |]. rewrite Hm0. by apply extra_nil.
Qed.
(** A block goes into one of the last two slots, whatever its address: a null one changes nothing. *)
Lemma holding_calloc r0 c s n w k p i (set_ : Pending -> Pending) : holding r0 c [] [] [] s -> p_calloc n w (kernel (procs s)) = (k, p) ->
  block_list (pending s) !! i = Some 0 -> ends (set_ (pending s)) = ends (pending s) -> pd_child (set_ (pending s)) = pd_child (pending s) ->
  pd_pipes (set_ (pending s)) = pd_pipes (pending s) -> block_list (set_ (pending s)) = <[i := p]> (block_list (pending s)) ->
  holding r0 c [] [] [] (mkSpawning (procs (put_kernel k s)) (set_ (pending s))).
Proof.
  intros Hh E Hi He Hc Hp Hl. apply sl_calloc in E as [[-> Hk] | (Hnz & Hn & Hk)].
  - destruct (holding_same _ _ _ _ _ _ k Hh Hk) as [Hr H1 H2]. rewrite list_insert_id in Hl by done. split; simpl in *; [| by rewrite He | by rewrite Hp].
    unfold held_fds, held_blocks, held_mutexes in *. by rewrite He, Hl, Hc.
  - eapply holding_block; try done. rewrite Hp. by destruct Hh.
Qed.
Lemma last_slots p : length (pd_pipes p) = 3%nat -> block_list p !! 4%nat = Some (vectors p) /\ block_list p !! 5%nat = Some (spare p) /\
  forall v, block_list (set_vectors v p) = <[4%nat := v]> (block_list p) /\ block_list (set_spare v p) = <[5%nat := v]> (block_list p).
Proof. unfold block_list. destruct p as [e ch [| ? [| ? [| ? []]]] ve sp]; done. Qed.
Lemma run_spec r0 s s1 r program argv envp directory identity : r_actions r0 = None -> r_attr r0 = None -> holding r0 (r_children r0) [] [] [] s -> spare (pending s) = 0 ->
  run rounds program argv envp directory identity s = Returned s1 r ->
  same_handles s s1 /\ (exists v, pending s1 = set_spare v (pending s)) /\
  match r with Ok pid => 0 < pid /\ pid ∉ r_children r0 /\ holding r0 (with_new pid (r_children r0)) [] [] [] s1 | Err _ => holding r0 (r_children r0) [] [] [] s1 end.
Proof.
  intros Ha Hb Hh Hs. assert (pending s = set_spare 0 (pending s)) as Hid by (rewrite <- Hs; by destruct (pending s)).
  assert (forall s k (rr : result Z Z), holding r0 (r_children r0) [] [] [] s -> new_child (kernel (procs s)) k rr -> match rr with
    | Ok pid => 0 < pid /\ (pid ∉ r_children r0) /\ holding r0 (with_new pid (r_children r0)) [] [] [] (put_kernel k s) | Err _ => holding r0 (r_children r0) [] [] [] (put_kernel k s) end) as Hgo.
  { intros s' k rr Hh' Hn. unfold new_child in Hn. destruct rr as [pid |]; [| by apply holding_same]. destruct Hn as (Hp & Hn & Hk).
    pose proof Hh' as [(f & b & m & Hr & Hf & _) _ _]. rewrite Hr in Hn. split; [done |]. split; [done |].
    eapply (holding_kernel r0 _ _ _ _ _ _ _ f); [done | done |]. rewrite Hk, Hr. done. }
  assert (forall n w k p, p_calloc n w (kernel (procs s)) = (k, p) -> holding r0 (r_children r0) [] [] [] (mkSpawning (procs (put_kernel k s)) (set_spare p (pending s)))) as Hroom.
  { intros n w k p E. destruct (last_slots _ (ho_pipes _ _ _ _ _ _ Hh)) as (_ & Hl & Hset). eapply (holding_calloc r0 _ s n w k p 5 (set_spare p)); try done; [by rewrite Hl, Hs | apply Hset]. }
  unfold run. destruct identity as [[[user group] groups] |].
  - intros Hr. apply then_Returned in Hr as [(s2 & [] & H2 & Hr) | (e & H2 & ->)].
    + assert (holding r0 (r_children r0) [] [] [] s2 /\ same_handles s s2 /\ exists v, pending s2 = set_spare v (pending s)) as (Hh2 & Hs2 & Hp2).
      { destruct (lenZ groups =? 0); [unfold give in H2; simplify_eq; eauto using conj; split; [done | split; [done | by exists 0]] |].
        unfold then_, asks, edit in H2. destruct (p_calloc _ _ _) as [k p] eqn:E. cbn [procs pending put_kernel] in H2. destruct (p =? 0); [done |]. unfold give in H2. simplify_eq.
        split; [| split; [done | by exists p]]. apply (Hroom _ _ k p E). }
      destruct (start_as rounds (kernel (procs s2))) as [[k rr] |] eqn:E; [| done]. apply start_as_spec in E. apply (Hgo s2 k rr Hh2) in E.
      destruct rr; simplify_eq; done.
    + destruct (lenZ groups =? 0); [done |]. unfold then_, asks, edit in H2. destruct (p_calloc _ _ _) as [k p] eqn:E. cbn [procs pending put_kernel] in H2.
      destruct (p =? 0); [| done]. unfold refuse_with in H2. simplify_eq. split; [done |]. split; [by exists p |].
      apply (Hroom _ _ k p E).
  - unfold sys. destruct (start _ _ _ _ _ (kernel (procs s))) as [k rr] eqn:E. pose proof Hh as [(f & b & m & Hr & _) _ _].
    apply start_spec in E; [| by rewrite Hr | by rewrite Hr]. apply (Hgo s k rr Hh) in E. destruct rr; intros [= <- <-]; (split; [done |]); split; eauto.
Qed.
Lemma open_pidfd_spec r0 c pf pb pm s pid k fd : holding r0 c pf pb pm s -> open_pidfd pid (kernel (procs s)) = (k, fd) ->
  holding r0 c (filter is_fd [fd] ++ pf) pb pm (put_kernel k s) /\ (fd = -1 \/ 2 < fd).
Proof.
  intros Hh. pose proof Hh as [(f & b & m & Hr & Hf & Hb & Hm) H1 H2]. unfold open_pidfd.
  destruct (p_pidfd_open pid (kernel (procs s))) as [k2 [new | code]] eqn:E; apply sl_pidfd_open in E.
  2: { intros [= <- <-]. split; [rewrite filter_no_fd; by apply holding_same | auto]. }
  destruct E as (Hpos & Hn & Hk). rewrite Hr in Hn, Hk. simpl in Hn, Hk.
  assert (extra (r_fds r0) (with_new new f) (new :: held_fds (pending s) ++ pf)) as Hx by by apply extra_add.
  assert (res k2 = shape (res k2) (with_new new f) c (r_mask r0)) as Hs by (rewrite Hk; done).
  destruct (lift new k2) as [k3 [moved | code]] eqn:E3; eapply (lift_spec _ _ _ _ _ _ _ _ _ _ Hs Hx) in E3.
  - destruct E3 as (Hlow & f1 & Hk3 & Hf1). intros [= <- <-]. split; [| auto]. split; [| done | done]. exists f1, b, m. simpl. split; [rewrite Hk3, Hk; done |]. split; [| done].
    rewrite filter_fd by lia. cbn [app]. by rewrite <- Permutation_middle.
  - intros [= <- <-]. split; [| auto]. destruct (close_spec (res k2) (r_fds r0) (with_new new f) c (r_mask r0) (held_fds (pending s) ++ pf) new k3) as (f1 & Hk1 & Hf1); [by rewrite E3, Hk | done |].
    rewrite filter_no_fd. split; [| done | done]. exists f1, b, m. simpl. split; [rewrite Hk1, Hk; done |]. done.
Qed.
Lemma publish_child_spec r0 c pf pb pm s s1 r pid pidfd : holding r0 c pf pb pm s -> pd_child (pending s) <> 0 -> publish_child pid pidfd s = Returned s1 r ->
  r = Ok (pd_child (pending s)) /\ holding r0 c pf (pd_child (pending s) :: pb) (pd_child (pending s) :: pm) s1 /\ pending s1 = set_child 0 (pending s) /\
  childs (procs s1) = <[pd_child (pending s) := mkChild pid pidfd RUNNING 0]> (childs (procs s)) /\ pipe_fds (procs s1) = pipe_fds (procs s).
Proof.
  intros [(f & b & m & Hr & Hf & Hb & Hm) H1 H2] Hnz. unfold publish_child. intros [= <- <-]. split; [done |]. split; [| done].
  split; [| done | done]. exists f, b, m. simpl. split; [done |]. split; [done |]. revert Hb Hm. unfold held_blocks, held_mutexes, block_list. simpl.
  rewrite !(filter_cons_True _ (pd_child _)), !(filter_cons_False _ 0) by (done || (intros X; by apply X)). simpl. intros Hb Hm. split; [by rewrite <- Permutation_middle | done].
Qed.
Lemma publish_pipe_spec r0 c pf pb pm s s1 r pipes j : holding r0 c pf pb pm s -> (j < 3)%nat -> streamed pipes (pending s) j -> publish_pipe j s = Returned s1 r ->
  exists pipe pubs, r = Ok pipe /\ (pipe =? 0) = negb (asked pipes j) /\ pubs.*1 = filter is_block [pipe] /\ Forall (fun fd => 2 < fd) pubs.*2 /\
    holding r0 c (pubs.*2 ++ pf) (pubs.*1 ++ pb) pm s1 /\ pipe_fds (procs s1) = list_to_map pubs ∪ pipe_fds (procs s) /\ childs (procs s1) = childs (procs s) /\
    others_kept j (pending s) (pending s1).
Proof.
  intros Hh Hj. unfold streamed, publish_pipe, get_pipe, get_end. destruct (asked pipes j).
  - intros (pipe & x & y & Hp & Hnz & _ & _ & Hy & Hlow). rewrite Hp, Hy. cbn [default from_option id]. destruct (Z.eqb_spec pipe 0); [done |]. intros [= <- <-].
    exists pipe, [(pipe, y)]. split; [done |]. split; [by destruct (Z.eqb_spec pipe 0) |]. split; [by rewrite filter_block |]. split; [by constructor |].
    destruct Hh as [(f & b & m & Hr & Hf & Hb & Hm) H1 H2]. split; [| split; [simpl; by rewrite <- insert_union_l, map_empty_union | split; [done |]]].
    + split; [| simpl; by rewrite length_insert | simpl; by rewrite length_insert]. exists f, b, m. cbn [procs pending kernel]. split; [done |].
      destruct (held_fds_set (2 * j + 1) y (-1) (set_pipe j 0 (pending s)) Hy) as (rest & R1 & R2).
      change (held_fds (set_pipe j 0 (pending s))) with (held_fds (pending s)) in R1.
      split. { rewrite R2, filter_no_fd. rewrite R1, filter_fd in Hf by lia. simpl. by rewrite <- Permutation_middle. }
      split; [| done]. assert (block_list (pending s) !! S j = Some pipe) as Hl by (change ((pd_pipes (pending s) ++ [vectors (pending s); spare (pending s)]) !! j = Some pipe); by rewrite lookup_app_l by (rewrite H2; lia)).
      destruct (held_slot is_block _ _ _ Hl) as (rest' & S1 & S2). specialize (S2 0). rewrite filter_no_block in S2. unfold held_blocks in Hb. rewrite S1, filter_block in Hb by done.
      assert (block_list (set_end (2 * j + 1) (-1) (set_pipe j 0 (pending s))) = <[S j := 0]> (block_list (pending s))) as Hbl.
      { unfold block_list. cbn [pd_child pd_pipes vectors spare set_pipe set_end]. change (<[S j := 0]> (?x :: ?l)) with (x :: <[j := 0]> l). by rewrite insert_app_l by (rewrite H2; lia). }
      unfold held_blocks. change (j + (j + 0) + 1)%nat with (2 * j + 1)%nat. rewrite Hbl, S2. simpl. by rewrite <- Permutation_middle.
    + apply others_kept_end; [| by right]. split; try done; simpl; intros i Hi; by rewrite list_lookup_insert_ne by lia.
  - intros (_ & _ & Hp). rewrite Hp. simpl default. simpl. intros [= <- <-]. exists 0, []. rewrite filter_no_block. simpl. rewrite map_empty_union. done.
Qed.
Lemma close_ends_spec old pf l : forall k, extra old (r_fds (res k)) (filter is_fd l ++ pf) -> exists f, res (close_ends l k) = set_fds (fun _ => f) (res k) /\ extra old f pf.
Proof.
  unfold close_ends. induction l as [| fd l IH]; intros k Hx; simpl.
  - exists (r_fds (res k)). split; [by destruct (res k) | done].
  - destruct (Z.leb_spec 0 fd).
    + rewrite filter_cons_True in Hx by done. simpl in Hx. pose proof (sl_close fd k (extra_in _ _ _ _ Hx)) as Hc. destruct (IH (p_close fd k).1) as (f & Hf & Hg).
      { rewrite Hc. simpl. by apply extra_remove. }
      exists f. split; [rewrite Hf, Hc; done | done].
    + rewrite filter_cons_False in Hx by (unfold is_fd; lia). auto.
Qed.
Lemma free_spec old pb p k : extra old (r_blocks (res k)) (filter is_block [p] ++ pb) -> exists b, res (p_free p k) = set_blocks (fun _ => b) (res k) /\ extra old b pb.
Proof.
  intros Hx. destruct (sl_free p k) as [H0 H1]. destruct (decide (p = 0)) as [-> | Hp].
  - exists (r_blocks (res k)). rewrite filter_no_block in Hx. rewrite H0 by done. split; [by destruct (res k) | done].
  - rewrite filter_block in Hx by done. rewrite H1 by (done || by eapply extra_in). eexists. split; [reflexivity |]. by apply extra_remove.
Qed.
Lemma free_all_spec old pb l : forall k, extra old (r_blocks (res k)) (filter is_block l ++ pb) -> exists b, res (free_all l k) = set_blocks (fun _ => b) (res k) /\ extra old b pb.
Proof.
  unfold free_all. induction l as [| p l IH]; intros k Hx; simpl; [exists (r_blocks (res k)); split; [by destruct (res k) | done] |].
  change (p :: l) with ([p] ++ l) in Hx. rewrite filter_app, <- app_assoc in Hx. apply free_spec in Hx as (b & Hb & Hg).
  destruct (IH (p_free p k)) as (b' & Hb' & Hg'); [by rewrite Hb |]. exists b'. split; [rewrite Hb', Hb; done | done].
Qed.
Lemma drop_pending_spec r0 c pf pb pm s : holding r0 c pf pb pm s -> exists f b m,
  res (drop_pending (pending s) (kernel (procs s))) = mkRes f b m c (r_actions r0) (r_attr r0) (r_mask r0) /\
  extra (r_fds r0) f pf /\ extra (r_blocks r0) b pb /\ extra (r_mutexes r0) m pm.
Proof.
  intros [(f & b & m & Hr & Hf & Hb & Hm) _ _]. unfold drop_pending. set (k := kernel (procs s)) in *.
  destruct (close_ends_spec (r_fds r0) pf (ends (pending s)) k) as (f1 & Hr1 & Hf1); [by rewrite Hr |]. rewrite Hr in Hr1. cbn in Hr1.
  assert (extra (r_blocks r0) b (filter is_block (pd_pipes (pending s)) ++ filter is_block [pd_child (pending s)] ++ filter is_block [vectors (pending s)] ++ filter is_block [spare (pending s)] ++ pb)) as Hb'.
  { revert Hb. unfold held_blocks, block_list. change (?x :: ?l ++ [?y; ?z]) with ([x] ++ l ++ [y] ++ [z]). rewrite !filter_app, <- !app_assoc. intros Hb.
    eapply extra_Proper; [| exact Hb]. apply Permutation_app_swap_app. }
  destruct (free_all_spec (r_blocks r0) _ (pd_pipes (pending s)) (close_ends (ends (pending s)) k) ltac:(rewrite Hr1; exact Hb')) as (b2 & Hr2 & Hb2). rewrite Hr1 in Hr2. cbn in Hr2.
  set (k2 := free_all _ _) in *.
  assert (exists b3 m3 k3, (if pd_child (pending s) =? 0 then k2 else p_free (pd_child (pending s)) (p_mutex_destroy (pd_child (pending s)) k2)) = k3 /\
    res k3 = mkRes f1 b3 m3 c (r_actions r0) (r_attr r0) (r_mask r0) /\ extra (r_mutexes r0) m3 pm /\
    extra (r_blocks r0) b3 (filter is_block [vectors (pending s)] ++ filter is_block [spare (pending s)] ++ pb)) as (b3 & m3 & k3 & -> & Hr3 & Hm3 & Hb3).
  { unfold held_mutexes in Hm. destruct (Z.eqb_spec (pd_child (pending s)) 0) as [E | E].
    - rewrite E, filter_no_block in Hb2, Hm. exists b2, m, k2. done.
    - rewrite filter_block in Hb2, Hm by done. pose proof (sl_mutex_destroy (pd_child (pending s)) k2) as Hd. rewrite Hr2 in Hd. specialize (Hd (extra_in _ _ _ _ Hm)). cbn in Hd.
      pose proof (proj2 (sl_free (pd_child (pending s)) (p_mutex_destroy (pd_child (pending s)) k2))) as Hfree. rewrite Hd in Hfree. specialize (Hfree E (extra_in _ _ _ _ Hb2)).
      eexists _, _, _. split; [reflexivity |]. split; [exact Hfree |]. split; by apply extra_remove. }
  destruct (free_spec (r_blocks r0) _ (vectors (pending s)) k3 ltac:(rewrite Hr3; exact Hb3)) as (b4 & Hr4 & Hb4). rewrite Hr3 in Hr4. cbn in Hr4.
  destruct (free_spec (r_blocks r0) _ (spare (pending s)) (p_free (vectors (pending s)) k3) ltac:(rewrite Hr4; exact Hb4)) as (b5 & Hr5 & Hb5). rewrite Hr4 in Hr5.
  exists f1, b5, m3. done.
Qed.

(** The objects of [posix_spawn] are locals of the call; a mutex lies in an allocated block. *)
Definition settled (r : Res) : Prop := r_actions r = None /\ r_attr r = None /\ r_mutexes r ⊆ r_blocks r.
(** What a spawn leaves: a handle with its mutex, a pipe handle with the parent's end for each stream that was asked for,
    the descriptor to wait with if there is one, and one child more. *)
Record left_behind (r r1 : Res) (sp : Spawned) (pidfd : Z) (pubs : list (Z * Z)) : Prop := {
  lb_pipes : pubs.*1 ≡ₚ filter is_block [sp_input sp; sp_output sp; sp_error sp];
  lb_lifted : Forall (fun fd => 2 < fd) pubs.*2 /\ (pidfd = -1 \/ 2 < pidfd);
  lb_fds : extra (r_fds r) (r_fds r1) (filter is_fd [pidfd] ++ pubs.*2);
  lb_blocks : extra (r_blocks r) (r_blocks r1) (sp_process sp :: pubs.*1);
  lb_mutexes : extra (r_mutexes r) (r_mutexes r1) [sp_process sp];
  lb_child : sp_id sp ∉ r_children r /\ r_children r1 = with_new (sp_id sp) (r_children r);
  lb_rest : r_actions r1 = r_actions r /\ r_attr r1 = r_attr r /\ r_mask r1 = r_mask r }.
Lemma has_bits pipes : asked pipes 0 = has pipes PIPE_INPUT /\ asked pipes 1 = has pipes PIPE_OUTPUT /\ asked pipes 2 = has pipes PIPE_ERROR.
Proof. done. Qed.
Definition balanced (n n1 : Procs K) (pipes : Z) (result : Result Spawned) : Prop :=
  match result with
  | Err _ => res (kernel n1) = res (kernel n) /\ childs n1 = childs n /\ pipe_fds n1 = pipe_fds n
  | Ok sp => exists pidfd pubs, spawned_consistent sp pipes = true /\ left_behind (res (kernel n)) (res (kernel n1)) sp pidfd pubs /\
      childs n1 = <[sp_process sp := mkChild (sp_id sp) pidfd RUNNING 0]> (childs n) /\ pipe_fds n1 = list_to_map pubs ∪ pipe_fds n
  end.
Definition dropped (s : Spawning K) : Procs K := mkProcs (drop_pending (pending s) (kernel (procs s))) (childs (procs s)) (pipe_fds (procs s)).
(** An early return: what is pending goes back. *)
Lemma early n s1 pipes e : holding (res (kernel n)) (r_children (res (kernel n))) [] [] [] s1 -> same_handles (mkSpawning n empty_pending) s1 ->
  balanced n (dropped s1) pipes (Err e).
Proof.
  intros Hh [H1 H2]. apply drop_pending_spec in Hh as (f & b & m & Hr & Hf & Hb & Hm). apply extra_nil in Hf as ->. apply extra_nil in Hb as ->. apply extra_nil in Hm as ->.
  unfold balanced, dropped. simpl in *. rewrite Hr, H1, H2. by destruct (res (kernel n)).
Qed.
(** The end of [launch], once the child runs. *)
Lemma published n s pid pipes pidfd k s1 r : holding (res (kernel n)) (with_new pid (r_children (res (kernel n)))) [] [] [] s ->
  0 < pid -> pid ∉ r_children (res (kernel n)) -> pd_child (pending s) <> 0 -> (forall j, (j < 3)%nat -> streamed pipes (pending s) j) ->
  same_handles (mkSpawning n empty_pending) s -> open_pidfd pid (kernel (procs s)) = (k, pidfd) ->
  (let* handle := publish_child pid pidfd in let* input := publish_pipe 0 in let* output := publish_pipe 1 in let* error := publish_pipe 2 in
   give (mkSpawned handle pid input output error)) (put_kernel k s) = Returned s1 r -> balanced n (dropped s1) pipes r.
Proof.
  intros Hh Hpid Hnew Hchild Hstream [Hs1 Hs2] Hfd. destruct (open_pidfd_spec _ _ _ _ _ _ _ _ _ Hh Hfd) as [Hh2 Hlow]. clear Hh Hfd. rewrite app_nil_r in Hh2.
  unfold then_. destruct (publish_child _ _ _) as [s2 r2 | |] eqn:E2; try done.
  eapply publish_child_spec in E2 as (-> & Hh3 & Hp3 & Hc3 & Hf3); [| exact Hh2 | done]. cbn [put_kernel pending] in *.
  assert (forall j, (j < 3)%nat -> streamed pipes (pending s2) j) as Hst by (intros j Hj; rewrite Hp3; by apply (Hstream j Hj)).
  destruct (publish_pipe 0 s2) as [s3 r3 | |] eqn:E3; try done. eapply (publish_pipe_spec _ _ _ _ _ _ _ _ pipes) in E3 as (p0 & q0 & -> & Hp0 & Hq0 & Hl0 & Hh4 & Hf4 & Hc4 & Hk4); [| done | lia | apply Hst; lia].
  destruct (publish_pipe 1 s3) as [s4 r4 | |] eqn:E4; try done. eapply (publish_pipe_spec _ _ _ _ _ _ _ _ pipes) in E4 as (p1 & q1 & -> & Hp1 & Hq1 & Hl1 & Hh5 & Hf5 & Hc5 & Hk5);
    [| done | lia | eapply streamed_kept; [done | lia | apply Hst; lia]].
  destruct (publish_pipe 2 s4) as [s5 r5 | |] eqn:E5; try done. eapply (publish_pipe_spec _ _ _ _ _ _ _ _ pipes) in E5 as (p2 & q2 & -> & Hp2 & Hq2 & Hl2 & Hh6 & Hf6 & Hc6 & Hk6);
    [| done | lia | do 2 (eapply streamed_kept; [done | lia |]); apply Hst; lia].
  unfold give. intros [= <- <-]. apply drop_pending_spec in Hh6 as (f & b & m & Hr & Hf & Hb & Hm).
  exists pidfd, (q2 ++ q1 ++ q0). destruct (has_bits pipes) as (B0 & B1 & B2). split.
  { unfold spawned_consistent. simpl. rewrite Hp0, Hp1, Hp2, B0, B1, B2, !eqb_reflx. destruct (Z.eqb_spec (pd_child (pending s)) 0), (Z.eqb_spec pid 0); (done || lia). }
  split; [| simpl in *; split; [congruence |]; rewrite Hf6, Hf5, Hf4, Hf3, <- Hs2, !list_to_map_app; by rewrite !map_union_assoc].
  split; unfold dropped; simpl; rewrite ?Hr; simpl; try done.
  - change [p0; p1; p2] with ([p0] ++ [p1] ++ [p2]). rewrite !fmap_app, Hq0, Hq1, Hq2, !filter_app. etrans; [apply Permutation_app_comm |]. rewrite <- app_assoc. apply Permutation_app_swap_app.
  - split; [| done]. rewrite !fmap_app, !Forall_app. done.
  - rewrite !fmap_app. eapply extra_Proper; [| exact Hf]. etrans; [apply Permutation_app_comm |]. by rewrite <- !app_assoc.
  - rewrite !fmap_app. eapply extra_Proper; [| exact Hb]. rewrite !app_assoc. apply Permutation_cons_append.
Qed.

Lemma same_handles_trans s s1 s2 : same_handles s s1 -> same_handles s1 s2 -> same_handles s s2.
Proof. unfold same_handles. intros [-> ->] [-> ->]. done. Qed.
Lemma launch_body_balanced n program arguments environment directory pipes identity s1 r : settled (res (kernel n)) ->
  launch_body rounds program arguments environment directory pipes identity (mkSpawning n empty_pending) = Returned s1 r -> balanced n (dropped s1) pipes r.
Proof.
  intros (Ha & Hb & Hsub) E. unfold launch_body in E. set (s0 := mkSpawning n empty_pending) in *. set (r0 := res (kernel n)) in *.
  apply then_Returned in E as [(s2 & [] & E2 & E) | (e & E2 & ->)]; apply (make_child_spec r0 (r_children r0)) in E2 as (Hh2 & S2 & P2); try done; try apply holding_start; [| by apply early].
  destruct P2 as (child & Hnz & P2).
  assert (forall j, (j < 3)%nat -> unopened (pending s2) j) as U2 by (intros j Hj; rewrite P2; destruct j as [| [| [| j]]]; [done | done | done | lia]).
  apply then_Returned in E as [(s3 & [] & E3 & E) | (e & E3 & ->)]; apply (open_stream_spec _ _ _ _ _ _ _ _ _ 0 Hh2 ltac:(lia) (U2 0%nat ltac:(lia))) in E3 as (Hh3 & S3 & K3 & T3);
    apply (same_handles_trans _ _ _ S2) in S3; [| by apply early]. specialize (T3 eq_refl).
  apply then_Returned in E as [(s4 & [] & E4 & E) | (e & E4 & ->)]; apply (open_stream_spec _ _ _ _ _ _ _ _ _ 1 Hh3 ltac:(lia) (unopened_kept 0 1 _ _ K3 ltac:(lia) (U2 1%nat ltac:(lia)))) in E4 as (Hh4 & S4 & K4 & T4);
    apply (same_handles_trans _ _ _ S3) in S4; [| by apply early]. specialize (T4 eq_refl).
  apply then_Returned in E as [(s5 & [] & E5 & E) | (e & E5 & ->)];
    apply (open_stream_spec _ _ _ _ _ _ _ _ _ 2 Hh4 ltac:(lia) (unopened_kept 1 2 _ _ K4 ltac:(lia) (unopened_kept 0 2 _ _ K3 ltac:(lia) (U2 2%nat ltac:(lia))))) in E5 as (Hh5 & S5 & K5 & T5);
    apply (same_handles_trans _ _ _ S4) in S5; [| by apply early]. specialize (T5 eq_refl).
  assert (forall j, (j < 3)%nat -> streamed pipes (pending s5) j) as St.
  { intros j Hj. destruct j as [| [| [| j]]]; [| | done | lia]; repeat (eapply streamed_kept; [done | lia |]); done. }
  assert (pd_child (pending s5) = child /\ vectors (pending s5) = 0 /\ spare (pending s5) = 0) as (Hc & Hv & Hs).
  { destruct K5 as [_ _ -> -> ->], K4 as [_ _ -> -> ->], K3 as [_ _ -> -> ->]. by rewrite P2. }
  unfold then_ at 1, asks at 1 in E. destruct (p_calloc _ _ (kernel (procs s5))) as [k block] eqn:Ec. unfold then_ at 1, edit in E. cbn [procs pending put_kernel] in E.
  destruct (last_slots _ (ho_pipes _ _ _ _ _ _ Hh5)) as (Hl & _ & Hset).
  pose proof (holding_calloc r0 _ s5 _ _ k block 4 (set_vectors block) Hh5 Ec ltac:(by rewrite Hl, Hv) eq_refl eq_refl eq_refl (proj1 (Hset block))) as Hh6.
  set (s6 := mkSpawning _ _) in *. destruct (block =? 0); [unfold refuse_with in E; simplify_eq; by apply early |].
  apply then_Returned in E as [(s7 & pid & E7 & E) | (e & E7 & ->)]; apply (run_spec r0) in E7 as (S7 & (v & P7) & H7); try done; [| apply early; [done |]; by eapply same_handles_trans].
  destruct H7 as (Hpid & Hnew & Hh7). unfold then_ at 1, asks in E. destruct (open_pidfd pid (kernel (procs s7))) as [k8 pidfd] eqn:E8.
  eapply published; [exact Hh7 | done | done | by rewrite P7; simpl; rewrite Hc | intros j Hj; rewrite P7; by apply (St j Hj) | by eapply same_handles_trans | exact E8 | exact E].
Qed.

(** C23: a spawn is all or nothing.  Whichever step fails, and for either way of starting, every descriptor, block and mutex is
    given back exactly once, the signal mask is what it was, no child is left unwaited for and no handle exists; when it
    succeeds, the process holds exactly what the caller gets: the child's handle, a pipe handle with the parent's end for
    each stream that was asked for and no other, and the descriptor to wait with, all clear of the standard streams; and
    the front end accepts the answer. *)
Theorem launch_balanced n r pipes identity n1 result : settled (res (kernel n)) -> launch rounds r pipes identity n = Returned n1 result -> balanced n n1 pipes result.
Proof.
  intros Hs. unfold launch. destruct r as [[[program arguments] environment] directory]. destruct (result_bind _ _) as [[program' directory'] | e]; [| by intros [= <- <-]].
  destruct (launch_body _ _ _ _ _ _ _ _) as [s r | |] eqn:E; try done. intros [= <- <-]. by eapply (launch_body_balanced n) in E.
Qed.
End Balance.

(** ** The identity of the child *)
Lemma binary_search_spec l x : (forall i j a b, (i <= j)%nat -> l !! i = Some a -> l !! j = Some b -> a <= b) ->
  forall fuel base size, (size <= fuel)%nat -> (0 < fuel)%nat -> (base + size <= length l)%nat ->
  binary_search fuel l base size x = true <-> exists i, (base <= i < base + size)%nat /\ l !! i = Some x.
Proof.
  intros Hsort. induction fuel as [| fuel IH]; intros base size Hf Hpos Hl; [lia |]. cbn [binary_search].
  destruct size as [| [| size]]; [split; [done | intros (i & ? & _); lia] | |].
  - rewrite bool_decide_eq_true. split; [intros H; exists base; split; [lia | done] | intros (i & Hi & H)]. by replace base with i by lia.
  - set (n := S (S size)) in *. set (half := (n / 2)%nat). set (mid := (base + half)%nat).
    assert (1 <= half /\ half + half <= n)%nat as [Hh1 Hh2] by (unfold half; split; [apply (Nat.div_le_mono 2 n 2); unfold n; lia | pose proof (Nat.Div0.mul_div_le n 2); lia]).
    destruct (lookup_lt_is_Some_2 l mid) as [v Hv]; [unfold mid; lia |]. rewrite Hv. cbn [default from_option id]. case_decide as Hx.
    + rewrite IH by lia. split; intros (i & Hi & H); exists i; (split; [| done]); [lia |]. destruct (decide (i < mid)%nat); [unfold mid in *; lia |].
      pose proof (Hsort mid i v x ltac:(lia) Hv H). lia.
    + rewrite IH by (unfold mid; lia). split; intros (i & Hi & H); [exists i; split; [unfold mid in *; lia | done] |].
      destruct (decide (i < mid)%nat); [| exists i; split; [unfold mid in *; lia | done]].
      pose proof (Hsort i mid x v ltac:(lia) H Hv). exists mid. split; [unfold mid; lia |]. rewrite Hv. f_equal. lia.
Qed.
Lemma sorted_lookup (l : list Z) : StronglySorted Z.le l -> forall i j a b, (i <= j)%nat -> l !! i = Some a -> l !! j = Some b -> a <= b.
Proof.
  induction 1 as [| x l Hs IH Hx]; intros i j a b Hij Ha Hb; [done |]. destruct i as [| i], j as [| j]; simplify_eq/=; [done | | lia | by eapply (IH i j); [lia | |]].
  rewrite Forall_forall in Hx. apply Hx. by eapply list_elem_of_lookup_2.
Qed.
(** Looking a group up in the sorted copy is looking it up in the list. *)
Lemma contains_sorted groups x : contains (merge_sort Z.le groups) x = true <-> x ∈ groups.
Proof.
  unfold contains. rewrite binary_search_spec by (try lia; apply sorted_lookup, (StronglySorted_merge_sort Z.le)).
  trans (x ∈ merge_sort Z.le groups); [| by rewrite merge_sort_Permutation]. rewrite list_elem_of_lookup. split; intros (i & Hi); [exists i; tauto |].
  exists i. split; [| done]. apply lookup_lt_Some in Hi. lia.
Qed.

(** What the calls of the child are documented to do: which user and groups it runs as, and which open file a descriptor
    names. *)
Record Cred := mkCred { uid : Z; gid : Z; supplementary : list Z }.
Class ChildLaws (P : Type) `{ChildCalls P} := {
  cred : P -> Cred; file : P -> Z -> option Z;
  cl_default n p : cred (f_default n p) = cred p /\ file (f_default n p) = file p;
  cl_dup2 a b p p1 r : f_dup2 a b p = (p1, r) -> cred p1 = cred p /\ (r = Ok tt -> forall fd, file p1 fd = if decide (fd = b) then file p a else file p fd);
  cl_setgroups l p p1 r : f_setgroups l p = (p1, r) -> file p1 = file p /\ cred p1 = match r with Ok _ => mkCred (uid (cred p)) (gid (cred p)) l | Err _ => cred p end;
  cl_getgroups n p p1 r : f_getgroups n p = (p1, r) -> cred p1 = cred p /\ file p1 = file p /\
    match r with Ok (holds, held) => holds = lenZ (supplementary (cred p)) /\ (0 < n -> takeZ holds held = supplementary (cred p)) | Err _ => True end;
  cl_setgid g p p1 r : f_setgid g p = (p1, r) -> file p1 = file p /\ (r = Ok tt -> cred p1 = mkCred (uid (cred p)) g (supplementary (cred p)));
  cl_setuid u p p1 r : f_setuid u p = (p1, r) -> file p1 = file p /\ (r = Ok tt -> cred p1 = mkCred u (gid (cred p)) (supplementary (cred p)));
  cl_chdir d p p1 r : f_chdir d p = (p1, r) -> cred p1 = cred p /\ file p1 = file p;
  cl_unblock p : cred (f_unblock p) = cred p /\ file (f_unblock p) = file p;
}.

Section Identity.
Context {P : Type} {F : ChildCalls P} {L : ChildLaws P}.
(** The identity that was asked for.  A process that may not choose its groups keeps them, if the list names them all. *)
Definition runs_as (user group : Z) (groups : list Z) (before after : Cred) : Prop :=
  uid after = user /\ gid after = group /\ (supplementary after = groups \/ supplementary after = supplementary before /\ forall g, g ∈ supplementary before -> g ∈ groups).
Lemma assume_spec user group groups p p1 : assume user group groups p = (p1, Ok tt) -> runs_as user group groups (cred p) (cred p1) /\ file p1 = file p.
Proof.
  unfold assume. destruct (f_setgroups groups p) as [p2 set] eqn:Es. apply cl_setgroups in Es as [Hf2 Hc2].
  assert (forall p3, file p3 = file p -> uid (cred p3) = uid (cred p) -> (supplementary (cred p3) = groups \/ supplementary (cred p3) = supplementary (cred p) /\ forall g, g ∈ supplementary (cred p) -> g ∈ groups) ->
    bind (f_setgid group) (fun _ => f_setuid user) p3 = (p1, Ok tt) -> runs_as user group groups (cred p) (cred p1) /\ file p1 = file p) as Hend.
  { intros p3 Hf3 _ Hg. rewrite bind_Ok. intros (p4 & [] & E4 & E5). apply cl_setgid in E4 as [Hf4 Hc4]. apply cl_setuid in E5 as [Hf5 Hc5].
    specialize (Hc4 eq_refl). specialize (Hc5 eq_refl). split; [| congruence]. unfold runs_as. rewrite Hc5, Hc4. done. }
  destruct set as [u | code]; [apply (Hend p2); [done | by rewrite Hc2 | rewrite Hc2; by left] |].
  destruct (negb (code =? EPERM)); [done |]. destruct (f_getgroups (lenZ groups) p2) as [p3 [[holds held] | code']] eqn:Eg; apply cl_getgroups in Eg as (Hc3 & Hf3 & Hg); [| done].
  destruct Hg as [Hh Hl]. rewrite Hc2 in *. destruct (Z.eqb_spec (lenZ groups) 0) as [E0 | E0]; simpl orb.
  - destruct (Z.ltb_spec 0 holds); simpl; [done |]. destruct (negb _); [done |]. apply (Hend p3); [congruence | by rewrite Hc3 |]. rewrite Hc3. right. split; [done |].
    intros g Hin. assert (supplementary (cred p) = []) as Hnil by (apply length_zero_iff_nil; unfold lenZ in *; lia). rewrite Hnil in Hin. by apply not_elem_of_nil in Hin.
  - simpl. destruct (forallb _ _) eqn:Ea; simpl; [| done]. apply (Hend p3); [congruence | by rewrite Hc3 |]. rewrite Hc3. right. split; [done |].
    assert (0 < lenZ groups) as Hpos by (pose proof (lenZ_nonneg groups); lia). rewrite (Hl Hpos) in Ea. intros g Hin. apply contains_sorted. rewrite forallb_forall in Ea. by apply Ea, list_elem_of_In.
Qed.
(** An end of a pipe is clear of the standard streams. *)
Definition lifted (fds : list Z) : Prop := forall i fd, fds !! i = Some fd -> fd < 0 \/ 2 < fd.
Definition child_end (fds : list Z) (j : nat) : Z := default (-1) (fds !! (2 * j)%nat).
Definition source (fds : list Z) (j : nat) : Z := if decide (0 <= child_end fds j) then child_end fds j else Z.of_nat j.
Lemma stream_here_spec fds j p p1 u : stream_here fds j p = (p1, Ok u) ->
  cred p1 = cred p /\ file p1 (Z.of_nat j) = file p (source fds j) /\ forall fd, fd <> Z.of_nat j -> file p1 fd = file p fd.
Proof.
  unfold stream_here, source. fold (child_end fds j). destruct (Z.leb_spec 0 (child_end fds j)); [rewrite decide_True by done | rewrite decide_False by lia; by intros [= <- <-]].
  intros E. apply cl_dup2 in E as [Hc Hf]. destruct u. specialize (Hf eq_refl). split; [done |]. split; [rewrite Hf; by rewrite decide_True |]. intros fd Hne. rewrite Hf. by rewrite decide_False.
Qed.
Lemma default_signals_spec n p : cred (default_signals n p) = cred p /\ file (default_signals n p) = file p.
Proof.
  unfold default_signals. generalize 1%nat. revert p. induction n as [| n IH]; intros p m; [done |]. simpl. destruct (IH (f_default (Z.of_nat m) p) (S m)) as [-> ->]. apply cl_default.
Qed.

(** What the program finds once it has replaced the child: the identity, and each redirected stream on its pipe; the
    directory was entered under the new identity. *)
Definition started (program argv : list Z) (envp : Environ) (directory : option (list Z)) (fds : list Z) (user group : Z) (groups : list Z) (p p1 : P) : Prop :=
  exists p0, f_execve program argv envp (f_unblock p0) = (p1, None) /\ runs_as user group groups (cred p) (cred (f_unblock p0)) /\
    (forall j, (j < 3)%nat -> file (f_unblock p0) (Z.of_nat j) = file p (source fds j)) /\
    match directory with Some d => exists p2, f_chdir d p2 = (p0, Ok tt) /\ runs_as user group groups (cred p) (cred p2) | None => True end.
Lemma program_runs_as program argv envp directory fds user group groups last_signal p p1 : lifted fds ->
  become_program program argv envp directory fds user group groups last_signal p = (p1, None) -> started program argv envp directory fds user group groups p p1.
Proof.
  intros Hl. unfold become_program. destruct (default_signals_spec last_signal p) as [Hc0 Hf0]. set (q := default_signals last_signal p) in *.
  destruct (bind _ _ q) as [p2 [[] | code]] eqn:Es; [| done]. rewrite bind_Ok in Es. destruct Es as (q1 & u0 & E0 & Es). rewrite bind_Ok in Es. destruct Es as (q2 & u1 & E1 & E2).
  apply stream_here_spec in E0 as (C0 & A0 & B0). apply stream_here_spec in E1 as (C1 & A1 & B1). apply stream_here_spec in E2 as (C2 & A2 & B2).
  assert (forall i j, i <> j -> (i < 3)%nat -> source fds j <> Z.of_nat i) as Hne.
  { intros i j Hij Hi. unfold source. assert (child_end fds j < 0 \/ 2 < child_end fds j) as Hlow; [| case_decide; lia].
    unfold child_end. destruct (fds !! (2 * j)%nat) as [fd |] eqn:E; simpl; [by eapply Hl | lia]. }
  assert (forall j, (j < 3)%nat -> file p2 (Z.of_nat j) = file p (source fds j)) as Hst.
  { rewrite <- Hf0. intros j Hj. destruct j as [| [| [| j]]]; [| | | lia].
    - rewrite B2, B1 by lia. exact A0.
    - rewrite B2, A1 by lia. apply B0, (Hne 0%nat 1%nat); lia.
    - rewrite A2, B1 by (apply (Hne 1%nat 2%nat); lia). apply B0, (Hne 0%nat 2%nat); lia. }
  destruct (assume user group groups p2) as [p3 [[] | code]] eqn:Ea; [| done]. apply assume_spec in Ea as [Hr Hf3].
  assert (cred p2 = cred p) as Hcp by congruence. rewrite Hcp in Hr.
  destruct (_ p3) as [p4 [[] | code]] eqn:Ed; [| done]. intros Hx.
  assert (cred p4 = cred p3 /\ file p4 = file p3) as [Hc4 Hf4] by (destruct directory; [by eapply cl_chdir | by injection Ed as <-]).
  destruct (cl_unblock p4) as [Hcu Hfu]. exists p4. split; [done |]. rewrite Hcu, Hc4, Hfu, Hf4, Hf3. split; [done |]. split; [done |].
  destruct directory; [by exists p3 | done].
Qed.
End Identity.

(** The steps of the parent that can fail on their own, with their errno. *)
Definition own_failure {K} `{SpawnCalls K} (code : Z) : Prop :=
  (exists k k1 : K, p_pipe2 k = (k1, Err code)) \/ (exists fd (k k1 : K), p_dupfd fd 3 k = (k1, Err code)) \/ (exists k k1 : K, p_fork k = (k1, Err code)).
Lemma lift_failure {K} `{SpawnCalls K} fd (k k1 : K) code : lift fd k = (k1, Err code) -> own_failure (K := K) code.
Proof. unfold lift. destruct (2 <? fd); [done |]. rewrite bind_Err. intros [E | (k2 & m & _ & ?)]; [right; left; eauto | done]. Qed.
Lemma to_i32_bytes code : 0 < code < 2 ^ 31 -> to_i32 (i32_bytes code) = code.
Proof.
  intros Hc. unfold to_i32, i32_bytes, at_. simpl.
  assert (code / 65536 = code / 256 / 256) as -> by (rewrite Z.div_div by lia; done). assert (code / 16777216 = code / 256 / 256 / 256) as -> by (rewrite !Z.div_div by lia; done).
  pose proof (Z.div_mod code 256 ltac:(lia)). pose proof (Z.div_mod (code / 256) 256 ltac:(lia)). pose proof (Z.div_mod (code / 256 / 256) 256 ltac:(lia)).
  assert (0 <= code / 256 / 256 / 256 < 128) by (rewrite !Z.div_div by lia; split; [apply Z.div_pos; lia | apply Z.div_lt_upper_bound; lia]).
  rewrite (Z.mod_small (code / 256 / 256 / 256)) by lia. destruct (Z.ltb_spec (code mod 256 + 256 * ((code / 256) mod 256 + 256 * ((code / 256 / 256) mod 256 + 256 * (code / 256 / 256 / 256)))) (2 ^ 31)); lia.
Qed.
Lemma read_report_got {K} `{SpawnCalls K} bytes fd : (forall (k k1 : K) r, p_read fd 4 k = (k1, r) -> r = Err EINTR \/ r = Ok bytes) ->
  forall fuel k k1 r, read_report fuel fd k = Some (k1, r) -> r = Ok bytes.
Proof.
  intros Hr. induction fuel as [| fuel IH]; intros k k1 r; [done |]. simpl. destruct (p_read fd 4 k) as [k2 got] eqn:E. apply Hr in E as [-> | ->].
  - simpl. apply IH.
  - by intros [= _ <-].
Qed.

(** A program started under another identity has it.  If [start_as] reports a child, the program has replaced it and runs
    as the user and the group that were asked for, with the supplementary groups of the list, or, where the process may
    not choose them, with groups it already held and that the list names; its redirected streams are the pipes; and the
    directory was entered as the new user.  A child that could not get there is never reported as started: the errno of the
    step that failed comes back through the pipe, and every other error is one of the parent's own steps. *)
Theorem spawn_as_identity {K P : Type} `{SpawnCalls K} `{ChildLaws P} (rounds : nat) program argv envp directory fds user group groups last_signal (k k1 : K) (p : P) (r : result Z Z)
    (child := become_program program argv envp directory fds user group groups last_signal p) :
  lifted fds -> (forall code, child.2 = Some code -> 0 < code < 2 ^ 31) ->
  (forall fd (k k1 : K) r, p_read fd 4 k = (k1, r) -> r = Err EINTR \/ r = Ok (match child.2 with None => [] | Some code => i32_bytes code end)) ->
  start_as rounds k = Some (k1, r) ->
  match r with
  | Ok _ => child.2 = None /\ started program argv envp directory fds user group groups p child.1
  | Err code => child.2 = Some code \/ own_failure (K := K) code
  end.
Proof.
  intros Hl Hcode Hread. unfold start_as. destruct (p_pipe2 k) as [k2 [[a b] | code]] eqn:E2; [| intros [= <- <-]; right; left; eauto].
  destruct (lift a k2) as [k3 [reader | code]] eqn:E3; [| intros [= <- <-]; right; by eapply lift_failure].
  destruct (lift b k3) as [k4 [writer | code]] eqn:E4; [| intros [= <- <-]; right; by eapply lift_failure].
  destruct (p_sigmask None k4) as [k5 before]. destruct (p_fork k5) as [k6 [pid | code]] eqn:E6; [| intros [= <- <-]; right; right; right; eauto].
  destruct (read_report _ _ _) as [[k7 got] |] eqn:E7; [| done]. cbn [mbind option_bind]. apply (read_report_got _ reader (Hread reader)) in E7 as ->.
  destruct child as [p1 [code |]] eqn:Ec; simpl in *.
  - destruct (reap_failed _ _ _) as [k8 |]; [| done]. cbn [mbind option_bind]. intros [= <- <-]. left. by rewrite to_i32_bytes by by apply Hcode.
  - intros [= <- <-]. split; [done |]. by eapply program_runs_as.
Qed.

(** ** A small system *)
(** It fails with [ENOMEM] once [y_left] calls have been made; its child may not choose its groups. *)
Record Small := mkSmall { y_res : Res; y_left : nat }.
Definition attempt {A} (f : Res -> Res * A) : M Small Z A := fun k =>
  match y_left k with O => (k, Err ENOMEM) | S n => let '(r, a) := f (y_res k) in (mkSmall r n, Ok a) end.
Definition always (f : Res -> Res) (k : Small) : Small := mkSmall (f (y_res k)) (y_left k).
Definition new_fd (r : Res) : Res * Z := let fd := above_all (r_fds r) in (set_fds (with_new fd) r, fd).
Definition new_pid (r : Res) : Res * Z := let pid := above_all (r_children r) in (set_children (with_new pid) r, pid).
Definition on_attr (f : Attr -> Attr) (r : Res) : Res * unit := (set_attr (Some (f (default (mkAttr None None 0) (r_attr r)))) r, tt).
Definition on_actions (a : Action) (r : Res) : Res * unit := (set_actions (Some (default [] (r_actions r) ++ [a])) r, tt).
#[export] Instance small_calls : SpawnCalls Small := {|
  p_calloc _ _ k := match y_left k with O => (k, 0) | S n => let p := above_all (r_blocks (y_res k)) in (mkSmall (set_blocks (with_new p) (y_res k)) n, p) end;
  p_free p k := if p =? 0 then k else always (set_blocks (without p)) k;
  p_mutex_init p := attempt (fun r => (set_mutexes (with_new p) r, tt)); p_mutex_destroy p := always (set_mutexes (without p));
  p_pipe2 := attempt (fun r => let '(r, a) := new_fd r in let '(r, b) := new_fd r in (r, (a, b)));
  p_dupfd _ low := attempt (fun r => let fd := above_all ({[low]} ∪ r_fds r) in (set_fds (with_new fd) r, fd));
  p_close fd k := (always (set_fds (without fd)) k, Ok tt);
  p_actions_init := attempt (fun r => (set_actions (Some []) r, tt)); p_adddup2 fd stream := attempt (on_actions (Dup2 fd stream));
  p_addchdir d := attempt (on_actions (Chdir d)); p_actions_destroy := always (set_actions None);
  p_attr_init := attempt (fun r => (set_attr (Some (mkAttr None None 0)) r, tt));
  p_setsigmask m := attempt (on_attr (fun a => mkAttr (Some m) (a_default a) (a_flags a)));
  p_setsigdefault m := attempt (on_attr (fun a => mkAttr (a_mask a) (Some m) (a_flags a)));
  p_setflags f := attempt (on_attr (fun a => mkAttr (a_mask a) (a_default a) f)); p_attr_destroy := always (set_attr None);
  p_posix_spawn _ _ _ := attempt new_pid; p_sigmask m k := (always (set_mask (default 255 m)) k, r_mask (y_res k)); p_fork := attempt new_pid;
  p_read _ _ k := (k, Ok []); p_waitpid pid k := (always (set_children (without pid)) k, Ok pid); p_pidfd_open _ := attempt new_fd |}.
Lemma attempt_spec {A} (f : Res -> Res * A) k k1 r : attempt f k = (k1, r) -> match r with Ok a => f (y_res k) = (y_res k1, a) | Err _ => y_res k1 = y_res k end.
Proof. unfold attempt. destruct (y_left k); [by intros [= <- <-] |]. destruct (f (y_res k)) as [r' a]. by intros [= <- <-]. Qed.
#[export] Instance small_laws : SpawnLaws Small.
Proof.
  refine {| res := y_res |}; simpl; try done; intros;
    try (match goal with E : attempt _ _ = _ |- _ => apply attempt_spec in E; destruct r; [| exact E] end).
  - destruct (y_left k); simplify_eq; [by left |]. right. simpl. destruct (above_all_spec (r_blocks (y_res k))) as (H0 & _ & Hn). split; [lia |]. done.
  - split; [by intros -> |]. intros Hp Hin. by destruct (Z.eqb_spec p 0).
  - intros _. by simplify_eq.
  - unfold new_fd in *. destruct value as [a b]. simplify_eq. destruct (above_all_spec (r_fds (y_res k))) as (H0 & _ & Hn). simpl in *.
    match goal with |- context [above_all (with_new ?x ?y)] => destruct (above_all_spec (with_new x y)) as (H0' & _ & Hn') end. unfold with_new in *.
    split; [lia |]. split; [lia |]. split; [set_solver |]. split; [done |]. split; [set_solver | done].
  - simplify_eq. pose proof (above_all_gt ({[low]} ∪ r_fds (y_res k)) low ltac:(set_solver)). destruct (above_all_spec ({[low]} ∪ r_fds (y_res k))) as (_ & _ & Hn).
    split; [lia |]. split; [set_solver | done].
  - by simplify_eq.
  - unfold on_actions in *. match goal with E : r_actions _ = Some _, G : (_, _) = (_, _) |- _ => rewrite E in G; by injection G as <- _ end.
  - unfold on_actions in *. match goal with E : r_actions _ = Some _, G : (_, _) = (_, _) |- _ => rewrite E in G; by injection G as <- _ end.
  - by simplify_eq.
  - unfold on_attr in *. match goal with E : r_attr _ = Some _, G : (_, _) = (_, _) |- _ => rewrite E in G; by injection G as <- _ end.
  - unfold on_attr in *. match goal with E : r_attr _ = Some _, G : (_, _) = (_, _) |- _ => rewrite E in G; by injection G as <- _ end.
  - unfold on_attr in *. match goal with E : r_attr _ = Some _, G : (_, _) = (_, _) |- _ => rewrite E in G; by injection G as <- _ end.
  - unfold new_pid in *. simplify_eq. destruct (above_all_spec (r_children (y_res k))) as (H0 & _ & Hn). done.
  - split; [done |]. by exists 255.
  - unfold new_pid in *. simplify_eq. destruct (above_all_spec (r_children (y_res k))) as (H0 & _ & Hn). done.
  - simplify_eq. done.
  - unfold new_fd in *. simplify_eq. destruct (above_all_spec (r_fds (y_res k))) as (H0 & _ & Hn). split; [lia | done].
Defined.
Definition small_start (left : nat) : Procs Small := mkProcs (mkSmall (mkRes {[0; 1; 2]} {[16]} {[16]} ∅ None None 0) left) ∅ ∅.
Definition small_request : Request := (bytes "/bin/cat", [mkBorrow 4096 (bytes "cat" ++ [0])], None, Some (bytes "/tmp")).
(** With the standard streams closed, pipes get their numbers and are moved; with too few calls left the spawn fails on the way. *)
Lemma small_settled left : settled (res (kernel (small_start left))).
Proof. split; [done |]. split; [done |]. simpl. set_solver. Qed.
Lemma launch_balanced_witness : exists n1 sp n2 e,
  launch 1 small_request 3 None (small_start 40) = Returned n1 (Ok sp) /\ balanced (small_start 40) n1 3 (Ok sp) /\
  launch 1 small_request 7 (Some (5, 6, [7])) (small_start 9) = Returned n2 (Err e) /\ balanced (small_start 9) n2 7 (Err e).
Proof.
  assert (succeeded (launch 1 small_request 3 None (small_start 40)) = Some true) as H1 by (vm_compute; reflexivity).
  assert (succeeded (launch 1 small_request 7 (Some (5, 6, [7])) (small_start 9)) = Some false) as H2 by (vm_compute; reflexivity).
  destruct (launch 1 small_request 3 None (small_start 40)) as [n1 [sp | e1] | |] eqn:E1; try discriminate H1.
  destruct (launch 1 small_request 7 (Some (5, 6, [7])) (small_start 9)) as [n2 [sp2 | e] | |] eqn:E2; try discriminate H2.
  exists n1, sp, n2, e. split; [done |]. split; [by apply (launch_balanced 1 _ _ _ _ _ _ (small_settled 40) E1) |].
  split; [done |]. by apply (launch_balanced 1 _ _ _ _ _ _ (small_settled 9) E2).
Defined.

Record Forked := mkForked { k_cred : Cred; k_files : gmap Z Z }.
#[export] Instance forked_calls : ChildCalls Forked := {|
  f_default _ p := p; f_dup2 a b p := (match k_files p !! a with Some f => mkForked (k_cred p) (<[b := f]> (k_files p)) | None => mkForked (k_cred p) (delete b (k_files p)) end, Ok tt);
  f_setgroups _ p := (p, Err EPERM); f_getgroups n p := (p, if (0 <? n) && (n <? lenZ (supplementary (k_cred p))) then Err EINVAL else Ok (lenZ (supplementary (k_cred p)), supplementary (k_cred p)));
  f_setgid g p := (mkForked (mkCred (uid (k_cred p)) g (supplementary (k_cred p))) (k_files p), Ok tt);
  f_setuid u p := (mkForked (mkCred u (gid (k_cred p)) (supplementary (k_cred p))) (k_files p), Ok tt);
  f_chdir _ p := (p, Ok tt); f_unblock p := p; f_execve _ _ _ p := (p, None) |}.
#[export] Instance forked_laws : ChildLaws Forked.
Proof.
  refine {| cred := k_cred; file p fd := k_files p !! fd |}; simpl; try done.
  - intros a b p p1 r [= <- <-]. split; [by destruct (k_files p !! a) |]. intros _ fd. destruct (k_files p !! a) as [f |] eqn:E; simpl; case_decide as Hd; subst.
    + by rewrite lookup_insert_eq.
    + by rewrite lookup_insert_ne by done.
    + by rewrite lookup_delete_eq.
    + by rewrite lookup_delete_ne by done.
  - intros l p p1 r [= <- <-]. done.
  - intros n p p1 r [= <- <-]. split; [done |]. split; [done |]. destruct (_ && _); [done |]. split; [done |]. intros _. unfold takeZ, lenZ. rewrite Nat2Z.id. by rewrite take_ge by lia.
  - intros g p p1 r [= <- <-]. done.
  - intros u p p1 r [= <- <-]. done.
  - intros d p p1 r [= <- <-]. done.
Defined.
Definition forked_child : Forked := mkForked (mkCred 5 6 [7; 9]) {[0 := 100; 1 := 101; 2 := 102; 4 := 204]}.
Lemma spawn_as_identity_witness : exists k1 pid, start_as 1 (kernel (small_start 9)) = Some (k1, Ok pid) /\
  started (bytes "/bin/cat") [4096; 0] None (Some (bytes "/tmp")) [4; -1; -1; -1; -1; -1] 5 6 [9; 8; 7] forked_child
    (become_program (bytes "/bin/cat") [4096; 0] None (Some (bytes "/tmp")) [4; -1; -1; -1; -1; -1] 5 6 [9; 8; 7] 64 forked_child).1.
Proof.
  destruct (start_as 1 (kernel (small_start 9))) as [[k1 r] |] eqn:E; [| by vm_compute in E]. destruct r as [pid | code]; [| by vm_compute in E].
  exists k1, pid. split; [done |].
  refine (proj2 (spawn_as_identity 1 (bytes "/bin/cat") [4096; 0] None (Some (bytes "/tmp")) [4; -1; -1; -1; -1; -1] 5 6 [9; 8; 7] 64 (kernel (small_start 9)) k1 forked_child (Ok pid) _ _ _ E)).
  - intros i fd Hi. do 6 (destruct i as [| i]; [simpl in Hi; injection Hi as <-; lia |]). done.
  - intros code Hcode. by vm_compute in Hcode.
  - intros fd k k2 r [= <- <-]. right. vm_compute. reflexivity.
Defined.
