(* ===== verification/LinuxChildren.v ===== *)
(** * LinuxChildren.v: waiting for, ending and talking to a child process on Linux

    [src/crates/dotnet-pal-linux/src/linux_processes.rs], the part behind [launch] ([LinuxSpawn.v]).  The first half has the
    operations as functions of the provider's state, with the kernel's calls as the class [WaitCalls]; the second half has
    the handle of one child under many threads, one step per access of its words, of its mutex and of the kernel.

    The theorems: what a spawn left is given back by the release of its handles ([handles_given_back]); a wait with a
    timeout comes back, and not early ([wait_returns]); a write to a broken pipe leaves the thread's signals alone
    ([pipe_write_signals]); a child is reaped once, everybody learns its code, and a signal never goes to an identifier
    that was given up ([signals_reach_own_child]). *)
From S2P Require Import Prelude Port Counter Boundary Tree Front Group Console Machine Net Children LinuxText Libc LinuxImage LinuxSpawn.
Import Errno.
Local Open Scope Z_scope.
Local Open Scope pal_scope.

Definition INFINITE : Z := u64_max.
Definition PAUSE_FIRST : Z := 1000000.
Definition PAUSE_LAST : Z := 16000000.
Definition SIGKILL : Z := 9.
Definition SIGTERM : Z := 15.
Definition align_of_Child : Z := 8.
Definition align_of_Pipe : Z := 4.
(** [WIFSIGNALED], [WTERMSIG] *)
Definition wtermsig (status : Z) : Z := Z.land status 127.
Definition wifsignaled (status : Z) : bool := negb (wtermsig status =? 0) && negb (wtermsig status =? 127).
(** The exit code that [look] takes from a status; none for a child that was stopped or continued. *)
Definition exit_code (status : Z) : option Z :=
  if wifexited status then Some (wexitstatus status) else if wifsignaled status then Some (128 + wtermsig status) else None.
Definition transfer_error (code : Z) : Error := if code =? EPIPE then EBrokenPipe else if code =? EAGAIN then EWouldBlock else EOs.

Class WaitCalls (K : Type) := {
  w_lock : Z -> M K Z unit; w_unlock : Z -> K -> K;
  w_waitpid : Z -> M K Z (option Z); w_kill : Z -> Z -> M K Z unit;
  w_monotonic_ns : M K Error Z; w_sleep_ns : Z -> M K Error unit; w_ppoll : Z -> option (Z * Z) -> M K Z Z;
  w_read : Z -> Z -> M K Z (Z * list Z); w_write : Z -> list Z -> M K Z Z;
  w_block_pipe : M K Z bool; w_pipe_pending : K -> K * bool; w_take_pipe : M K Z unit; w_restore_mask : bool -> K -> K;
}.

Section Provider.
Context {K : Type} {C : SpawnCalls K} {W : WaitCalls K} (rounds : nat).
Notation Procs := (Procs K).
Definition at_kernel (k : K) (n : Procs) : Procs := mkProcs k (childs n) (pipe_fds n).
Definition store (h : Z) (c : Child) (n : Procs) : Procs := mkProcs (kernel n) (<[h := c]> (childs n)) (pipe_fds n).
Definition asking {A} (f : K -> K * A) : Call Procs A := fun n => let '(k, a) := f (kernel n) in Returned (at_kernel k n) (Ok a).
Definition failing {A} (m : M K Error A) : Call Procs A := fun n => let '(k, r) := m (kernel n) in Returned (at_kernel k n) r.

(** [child], [descriptor]: the checks on a handle, and the record behind it. *)
Definition child (h : Z) : Call Procs Child := fun n =>
  if (h =? 0) || negb (h mod align_of_Child =? 0) then Returned n (Err EInvalidArgument) else
  match childs n !! h with Some c => Returned n (Ok c) | None => Undefined end.
Definition pipe_descriptor (h : Z) : Call Procs Z := fun n =>
  if (h =? 0) || negb (h mod align_of_Pipe =? 0) then Returned n (Err EInvalidArgument) else
  match pipe_fds n !! h with Some fd => Returned n (Ok fd) | None => Undefined end.

Definition verdict (c : Child) : option (Result Z) :=
  if c_state c =? RUNNING then None else if c_state c =? ENDED then Some (Ok (c_code c)) else Some (Err EOs).
Definition verdict_some (v : Result Z) : Result (option Z) := let? code := v in Ok (Some code).
Definition with_verdict (state code : Z) (c : Child) : Child := mkChild (c_pid c) (c_pidfd c) state code.
Fixpoint look (fuel : nat) (h : Z) (n : Procs) : Outcome Procs (option Z) :=
  match childs n !! h with
  | None => Undefined
  | Some c =>
      match verdict c with
      | Some v => Returned n (verdict_some v)
      | None =>
          match fuel with
          | O => Waiting
          | S fuel =>
              match w_waitpid (c_pid c) (kernel n) with
              | (k, Ok None) => Returned (at_kernel k n) (Ok None)
              | (k, Err code) => if code =? EINTR then look fuel h (at_kernel k n) else Returned (store h (with_verdict LOST (c_code c) c) (at_kernel k n)) (Err EOs)
              | (k, Ok (Some status)) =>
                  match exit_code status with
                  | Some code => Returned (store h (with_verdict ENDED code c) (at_kernel k n)) (Ok (Some code))
                  | None => Returned (at_kernel k n) (Ok None)
                  end
              end
          end
      end
  end.
(** [locked] *)
Definition locked {A} (h : Z) (call : Call Procs A) : Call Procs A := fun n =>
  match w_lock h (kernel n) with
  | (k, Err _) => Returned (at_kernel k n) (Err EOs)
  | (k, Ok _) =>
      match call (at_kernel k n) with
      | Returned n r => Returned (at_kernel (w_unlock h (kernel n)) n) r
      | Undefined => Undefined | Waiting => Waiting
      end
  end.
Definition reap (h : Z) : Call Procs (option Z) := fun n =>
  match childs n !! h with
  | None => Undefined
  | Some c => match verdict c with Some v => Returned n (verdict_some v) | None => locked h (look rounds h) n end
  end.

Definition limit_of (remaining : Z) : Z * Z := (Z.min (remaining / 1000000000) i32_max, remaining mod 1000000000).
Fixpoint wait_loop (fuel : nat) (h : Z) (deadline : option Z) (pidfd pause : Z) : Call Procs Z :=
  match fuel with
  | O => fun _ => Waiting
  | S fuel =>
      let* remaining := match deadline with Some deadline => let* now := failing w_monotonic_ns in give (saturating_sub deadline now) | None => give INFINITE end in
      if remaining =? 0 then refuse_with ETimeout else
      let* (pidfd, pause) :=
        (if 0 <=? pidfd then
           let* ready := asking (w_ppoll pidfd (match deadline with Some _ => Some (limit_of remaining) | None => None end)) in
           match ready with
           | Err code => if code =? EINTR then give (pidfd, pause) else refuse_with EOs
           | Ok ready => give (if 0 <? ready then -1 else pidfd, pause)
           end
         else
           let* _ := failing (w_sleep_ns (Z.min remaining pause)) in
           give (pidfd, Z.min (pause * 2) PAUSE_LAST)) in
      let* code := reap h in
      match code with Some code => give code | None => wait_loop fuel h deadline pidfd pause end
  end.
Definition wait (h timeout_ns : Z) : Call Procs Z :=
  let* c := child h in
  let* code := reap h in
  match code with
  | Some code => give code
  | None =>
      if timeout_ns =? 0 then refuse_with ETimeout else
      let* deadline := (if timeout_ns =? INFINITE then give None else let* now := failing w_monotonic_ns in give (Some (saturating_add u64_max now timeout_ns))) in
      wait_loop rounds h deadline (c_pidfd c) PAUSE_FIRST
  end.
Definition terminate (h : Z) (forceful : bool) : Call Procs unit :=
  let* c := child h in
  let signal := if forceful then SIGKILL else SIGTERM in
  locked h (fun n =>
    match look rounds h n with
    | Returned n (Ok None) =>
        match w_kill (c_pid c) signal (kernel n) with
        | (k, Ok _) => Returned (at_kernel k n) (Ok tt)
        | (k, Err code) => Returned (at_kernel k n) (Err (if code =? ESRCH then ENotFound else spawn_error code))
        end
    | Returned n _ => Returned n (Err ENotFound)
    | Undefined => Undefined | Waiting => Waiting
    end).
Definition release (h : Z) : Call Procs unit :=
  let* c := child h in fun n =>
  match reap h n with
  | Returned n _ =>
      let k := if 0 <=? c_pidfd c then (p_close (c_pidfd c) (kernel n)).1 else kernel n in
      Returned (mkProcs (p_free h (p_mutex_destroy h k)) (delete h (childs n)) (pipe_fds n)) (Ok tt)
  | Undefined => Undefined | Waiting => Waiting
  end.

(** [loop]s that repeat an interrupted call. *)
Fixpoint again {A} (fuel : nat) (m : M K Z A) (k : K) : option (K * result Z A) :=
  match fuel with
  | O => None
  | S fuel => match m k with (k, Err code) => if code =? EINTR then again fuel m k else Some (k, Err code) | (k, Ok a) => Some (k, Ok a) end
  end.
Definition pipe_read (h capacity : Z) : Call Procs (Z * list Z) :=
  let* fd := pipe_descriptor h in fun n =>
  match again rounds (w_read fd capacity) (kernel n) with
  | None => Waiting
  | Some (k, Ok got) => Returned (at_kernel k n) (Ok got)
  | Some (k, Err code) => Returned (at_kernel k n) (Err (transfer_error code))
  end.
Definition pipe_write (h : Z) (data : list Z) : Call Procs Z :=
  let* fd := pipe_descriptor h in fun n =>
  match w_block_pipe (kernel n) with
  | (k, Err _) => Returned (at_kernel k n) (Err EOs)
  | (k, Ok held) =>
      let '(k, foreign) := if (held : bool) then w_pipe_pending k else (k, false) in
      match again rounds (w_write fd data) k with
      | None => Waiting
      | Some (k, wrote) =>
          match (match wrote with Err code => if (code =? EPIPE) && negb foreign then again rounds w_take_pipe k else Some (k, Ok tt) | Ok _ => Some (k, Ok tt) end) with
          | None => Waiting
          | Some (k, _) =>
              let k := if (held : bool) then k else w_restore_mask held k in
              Returned (at_kernel k n) (match wrote with Ok sent => Ok sent | Err code => Err (transfer_error code) end)
          end
      end
  end.
Definition pipe_close (h : Z) : Call Procs unit :=
  let* fd := pipe_descriptor h in fun n =>
  let '(k, closed) := p_close fd (kernel n) in
  let n := mkProcs (p_free h k) (childs n) (delete h (pipe_fds n)) in
  match closed with
  | Ok _ => Returned n (Ok tt)
  | Err code => Returned n (if code =? EINTR then Ok tt else Err EOs)
  end.
End Provider.

(** ** One child, many threads *)
(** The process that the identifier names: it runs, it has ended and waits to be reaped, or it was reaped and the identifier
    given up. *)
Inductive Kid := Alive | Zombie (status : Z) | Gone (status : Z).
#[export] Instance kid_eq_dec : EqDecision Kid.
Proof. solve_decision. Defined.
(** The words of the handle, the mutex, the process, and what was done to it: the signals that were sent, each with the
    process it met, and the number of times it was reaped. *)
Record Shared := mkShared { sh_state : Z; sh_code : Z; sh_mutex : bool; sh_kid : Kid; sh_signals : list Kid; sh_reaps : nat }.
Inductive Op := OpReap | OpTerminate.
Inductive Answer := Reaped (r : Result (option Z)) | Terminated (r : Result unit).
(** Where a thread is in [reap] or [terminate]; from [Looking] to [Unlocking] it holds the mutex. *)
Inductive Pc :=
| Judging | Reading | Locking (op : Op)
| Looking (op : Op) | LookReading (op : Op) | Asking (op : Op) | StoringCode (op : Op) (code : Z) | StoringEnded (op : Op) (code : Z) | StoringLost (op : Op)
| Killing | Unlocking (a : Answer) | Finished (a : Answer).
Definition start_of (op : Op) : Pc := match op with OpReap => Judging | OpTerminate => Locking OpTerminate end.
(** What the look under the mutex found, for either operation. *)
Definition looked (op : Op) (r : Result (option Z)) : Pc :=
  match op, r with
  | OpReap, r => Unlocking (Reaped r)
  | OpTerminate, Ok None => Killing
  | OpTerminate, _ => Unlocking (Terminated (Err ENotFound))
  end.
Definition set_words (state code : Z) (s : Shared) : Shared := mkShared state code (sh_mutex s) (sh_kid s) (sh_signals s) (sh_reaps s).
Definition set_mutex (b : bool) (s : Shared) : Shared := mkShared (sh_state s) (sh_code s) b (sh_kid s) (sh_signals s) (sh_reaps s).
Definition set_kid (kid : Kid) (s : Shared) : Shared := mkShared (sh_state s) (sh_code s) (sh_mutex s) kid (sh_signals s) (sh_reaps s).
Definition reaped (status : Z) (s : Shared) : Shared := mkShared (sh_state s) (sh_code s) (sh_mutex s) (Gone status) (sh_signals s) (S (sh_reaps s)).
Definition given_up (kid : Kid) : bool := match kid with Gone _ => true | _ => false end.
Definition signalled (s : Shared) : Shared := mkShared (sh_state s) (sh_code s) (sh_mutex s) (sh_kid s) (sh_kid s :: sh_signals s) (sh_reaps s).

(** One access of a thread. *)
Inductive access : Shared -> Pc -> Shared -> Pc -> Prop :=
| Judge_running s : sh_state s = RUNNING -> access s Judging s (Locking OpReap)
| Judge_ended s : sh_state s = ENDED -> access s Judging s Reading
| Judge_lost s : sh_state s <> RUNNING -> sh_state s <> ENDED -> access s Judging s (Finished (Reaped (Err EOs)))
| Read_code s : access s Reading s (Finished (Reaped (Ok (Some (sh_code s)))))
| Lock_mutex s op : sh_mutex s = false -> access s (Locking op) (set_mutex true s) (Looking op)
| Look_running s op : sh_state s = RUNNING -> access s (Looking op) s (Asking op)
| Look_ended s op : sh_state s = ENDED -> access s (Looking op) s (LookReading op)
| Look_lost s op : sh_state s <> RUNNING -> sh_state s <> ENDED -> access s (Looking op) s (looked op (Err EOs))
| Look_read s op : access s (LookReading op) s (looked op (Ok (Some (sh_code s))))
| Ask_interrupted s op : access s (Asking op) s (Looking op)
| Ask_alive s op : sh_kid s = Alive -> access s (Asking op) s (looked op (Ok None))
| Ask_zombie s op status code : sh_kid s = Zombie status -> exit_code status = Some code -> access s (Asking op) (reaped status s) (StoringCode op code)
| Ask_gone s op : given_up (sh_kid s) = true -> access s (Asking op) s (StoringLost op)
| Store_code s op code : access s (StoringCode op code) (set_words (sh_state s) code s) (StoringEnded op code)
| Store_ended s op code : access s (StoringEnded op code) (set_words ENDED (sh_code s) s) (looked op (Ok (Some code)))
| Store_lost s op : access s (StoringLost op) (set_words LOST (sh_code s) s) (looked op (Err EOs))
| Kill s r : access s Killing (signalled s) (Unlocking (Terminated r))
| Unlock s a : access s (Unlocking a) (set_mutex false s) (Finished a).
(** The process ends by itself; a status that [waitpid] reports without stopping or continuing options is an end. *)
Notation Threads := (gmap nat Pc).
Inductive step : Shared * Threads -> Shared * Threads -> Prop :=
| Step_thread s ts i pc s1 pc1 : ts !! i = Some pc -> access s pc s1 pc1 -> step (s, ts) (s1, <[i := pc1]> ts)
| Step_call s ts i op : (ts !! i = None \/ exists a, ts !! i = Some (Finished a)) -> step (s, ts) (s, <[i := start_of op]> ts)
| Step_end s ts status code : sh_kid s = Alive -> exit_code status = Some code -> step (s, ts) (set_kid (Zombie status) s, ts).
Definition fresh : Shared := mkShared RUNNING 0 false Alive [] 0.
Definition reachable (s : Shared) (ts : Threads) : Prop := rtc step (fresh, ∅) (s, ts).

Definition holds_mutex (pc : Pc) : bool := match pc with Judging | Reading | Locking _ | Finished _ => false | _ => true end.
(** The child was reaped and ended with [code]. *)
Definition ended_with (s : Shared) (code : Z) : Prop := exists status, sh_kid s = Gone status /\ exit_code status = Some code.
(** What a thread relies on at its place. *)
Definition place_ok (s : Shared) (pc : Pc) : Prop :=
  match pc with
  | Reading | LookReading _ => sh_state s = ENDED
  | Asking _ | Killing => sh_state s = RUNNING /\ given_up (sh_kid s) = false
  | StoringCode _ code => sh_state s = RUNNING /\ ended_with s code
  | StoringEnded _ code => sh_state s = RUNNING /\ ended_with s code /\ sh_code s = code
  | StoringLost _ => False
  | Finished (Reaped (Ok (Some code))) | Unlocking (Reaped (Ok (Some code))) => sh_state s = ENDED /\ sh_code s = code
  | Finished (Reaped (Err _)) | Unlocking (Reaped (Err _)) => False
  | _ => True
  end.
Definition storing (pc : Pc) : bool := match pc with StoringCode _ _ | StoringEnded _ _ => true | _ => false end.
Record children_inv (s : Shared) (ts : Threads) : Prop := {
  ci_once i j pc pc' : ts !! i = Some pc -> ts !! j = Some pc' -> holds_mutex pc = true -> holds_mutex pc' = true -> i = j;
  ci_mutex : sh_mutex s = true <-> exists i pc, ts !! i = Some pc /\ holds_mutex pc = true;
  ci_place i pc : ts !! i = Some pc -> place_ok s pc;
  ci_states : sh_state s = RUNNING \/ (sh_state s = ENDED /\ ended_with s (sh_code s));
  ci_gone : given_up (sh_kid s) = true -> sh_state s = RUNNING -> exists i pc, ts !! i = Some pc /\ storing pc = true;
  ci_signals : Forall (fun kid => given_up kid = false) (sh_signals s);
  ci_reaps : sh_reaps s = if given_up (sh_kid s) then 1%nat else 0%nat }.

(** The rest of the threads, seen from one that holds the mutex or does not. *)
Lemma mutex_insert s ts i pc pc1 b : children_inv s ts -> ts !! i = Some pc ->
  (holds_mutex pc = holds_mutex pc1 /\ b = sh_mutex s) \/ (holds_mutex pc = false /\ holds_mutex pc1 = true /\ sh_mutex s = false /\ b = true) \/
  (holds_mutex pc = true /\ holds_mutex pc1 = false /\ b = false) ->
  (forall j k qc qc', <[i := pc1]> ts !! j = Some qc -> <[i := pc1]> ts !! k = Some qc' -> holds_mutex qc = true -> holds_mutex qc' = true -> j = k) /\
  (b = true <-> exists j qc, <[i := pc1]> ts !! j = Some qc /\ holds_mutex qc = true).
Proof.
  intros [Ho Hm _ _ _ _ _] Hi Hcase.
  assert (forall j qc, <[i := pc1]> ts !! j = Some qc -> (j = i /\ qc = pc1) \/ (j <> i /\ ts !! j = Some qc)) as Hl.
  { intros j qc [[<- <-] | [? ?]]%lookup_insert_Some; auto. }
  destruct Hcase as [[Hs ->] | [(Hp & Hp1 & Hfree & ->) | (Hp & Hp1 & ->)]].
  - split.
    + intros j k qc qc' [[-> ->] | [Hj Qj]]%Hl [[-> ->] | [Hk Qk]]%Hl H1 H2; eauto; rewrite <- Hs in *; eauto.
    + rewrite Hm. split; intros (j & qc & Hj & Hq).
      * destruct (decide (j = i)) as [-> | Hne]; [exists i, pc1; rewrite lookup_insert_eq; simplify_eq; by rewrite <- Hs | exists j, qc; by rewrite lookup_insert_ne].
      * apply Hl in Hj as [[-> ->] | [Hne Hj]]; [exists i, pc; by rewrite Hs | eauto].
  - assert (forall j qc, ts !! j = Some qc -> holds_mutex qc = false) as Hnone.
    { intros j qc Hj. destruct (holds_mutex qc) eqn:E; [| done]. assert (sh_mutex s = true) by (apply Hm; eauto). congruence. }
    split; [| split; [intros _; exists i, pc1; by rewrite lookup_insert_eq | done]].
    intros j k qc qc' [[-> ->] | [Hj Qj]]%Hl [[-> ->] | [Hk Qk]]%Hl H1 H2; [done | apply Hnone in Qk; congruence | apply Hnone in Qj; congruence | apply Hnone in Qj; congruence].
  - assert (forall j qc, ts !! j = Some qc -> j <> i -> holds_mutex qc = false) as Hnone.
    { intros j qc Hj Hne. destruct (holds_mutex qc) eqn:E; [| done]. destruct Hne. eauto. }
    assert (forall j qc, <[i := pc1]> ts !! j = Some qc -> holds_mutex qc = false) as Hall by (intros j qc [[-> ->] | [Hne Hj]]%Hl; eauto).
    split; [intros j k qc qc' Hj _ Hq; apply Hall in Hj; congruence | split; [done | intros (j & qc & Hj & Hq); apply Hall in Hj; congruence]].
Qed.
Lemma mutex_place_free s s1 pc : holds_mutex pc = false -> (sh_state s = ENDED -> sh_state s1 = ENDED /\ sh_code s1 = sh_code s) -> place_ok s pc -> place_ok s1 pc.
Proof. intros Hh He. destruct pc as [| | | | | | | | | | | [[[code |] | e] | r]]; simpl; try done; [intros H; by apply He | intros [H <-]; by apply He]. Qed.
Lemma storing_holds pc : storing pc = true -> holds_mutex pc = true.
Proof. by destruct pc. Qed.
(** What one access does to the words, from a place that is as it should be. *)
Lemma access_words s pc s1 pc1 : access s pc s1 pc1 -> place_ok s pc -> (sh_state s = ENDED -> sh_state s1 = ENDED /\ sh_code s1 = sh_code s) /\
  (holds_mutex pc = false -> sh_state s1 = sh_state s /\ sh_code s1 = sh_code s /\ sh_kid s1 = sh_kid s) /\
  ((holds_mutex pc = holds_mutex pc1 /\ sh_mutex s1 = sh_mutex s) \/ (holds_mutex pc = false /\ holds_mutex pc1 = true /\ sh_mutex s = false /\ sh_mutex s1 = true) \/
   (holds_mutex pc = true /\ holds_mutex pc1 = false /\ sh_mutex s1 = false)).
Proof.
  destruct 1 as [ | | | | ? op | ? op | ? op | ? op | ? op | ? op | ? op | ? op | ? op | ? op | ? op | ? op | | ]; simpl; intros Hp;
    try (destruct op); simpl; (split; [try done; intros; destruct Hp; unfold RUNNING, ENDED in *; congruence |]); (split; [done |]); naive_solver.
Qed.
(** Where one access leads, from a state that is as it should be. *)
Lemma access_place s ts i pc s1 pc1 : children_inv s ts -> ts !! i = Some pc -> access s pc s1 pc1 ->
  place_ok s1 pc1 /\ (sh_state s1 = RUNNING \/ (sh_state s1 = ENDED /\ ended_with s1 (sh_code s1))) /\
  (given_up (sh_kid s1) = true -> sh_state s1 = RUNNING -> storing pc1 = true \/ (storing pc = false /\ given_up (sh_kid s) = true /\ sh_state s = RUNNING)) /\
  Forall (fun kid => given_up kid = false) (sh_signals s1) /\ sh_reaps s1 = if given_up (sh_kid s1) then 1%nat else 0%nat.
Proof.
  intros Hinv Hi Ha. pose proof (ci_place _ _ Hinv _ _ Hi) as Hp. destruct Hinv as [Ho Hm _ Hst Hg Hsig Hre].
  assert (holds_mutex pc = true -> storing pc = false -> sh_state s = RUNNING -> given_up (sh_kid s) = false) as Hfree.
  { intros Hh Hns Hrun. destruct (given_up (sh_kid s)) eqn:E; [| done]. destruct (Hg eq_refl Hrun) as (j & qc & Hj & Hq). pose proof (Ho i j _ _ Hi Hj Hh (storing_holds _ Hq)). subst j. simplify_eq. congruence. }
  destruct Ha as [s0 H | s0 H | s0 H H' | s0 | s0 op H | s0 op H | s0 op H | s0 op H H' | s0 op | s0 op | s0 op H | s0 op status code H Hc | s0 op H | s0 op code | s0 op code | s0 op | s0 r | s0 a];
    simpl in *; try (by destruct Hst as [? | [? ?]]; congruence).
  - split; [done |]. split; [done |]. split; [auto | done].
  - split; [done |]. split; [done |]. split; [auto | done].
  - split; [done |]. split; [done |]. split; [auto | done].
  - split; [done |]. split; [done |]. split; [auto | done].
  - split; [split; [done | by apply Hfree] |]. split; [done |]. split; [auto | done].
  - split; [done |]. split; [done |]. split; [auto | done].
  - split; [by destruct op |]. split; [done |]. split; [auto | done].
  - split; [done |]. split; [done |]. split; [auto | done].
  - split; [destruct op; simpl; [done |]; destruct Hp; done |]. split; [done |]. split; [auto | done].
  - destruct Hp as [Hrun Hgu]. rewrite Hgu in Hre. split; [split; [done |]; by exists status |]. split; [by left |]. split; [by left |]. split; [done | by rewrite Hre].
  - destruct Hp; congruence.
  - destruct Hp as [Hrun Hend]. split; [done |]. split; [by left |]. split; [by left | done].
  - destruct Hp as (Hrun & Hend & <-). split; [by destruct op |]. split; [by right |]. split; [done |]. done.
  - done.
  - destruct Hp as [Hrun Hgu]. split; [done |]. split; [done |]. split; [auto |]. split; [by constructor | done].
  - split; [done |]. split; [done |]. split; [auto | done].
Qed.
Lemma children_step_inv s ts s1 ts1 : step (s, ts) (s1, ts1) -> children_inv s ts -> children_inv s1 ts1.
Proof.
  intros Hstep Hinv. inversion Hstep as [s' ts' i pc s1' pc1 Hi Ha | s' ts' i op Hnone | s' ts' status code Halive Hcode]; subst; clear Hstep.
  - destruct (access_words _ _ _ _ Ha (ci_place _ _ Hinv _ _ Hi)) as (Hended & Hsame & Hmutex). destruct (mutex_insert _ _ _ _ _ _ Hinv Hi Hmutex) as [Ho Hm].
    destruct (access_place _ _ _ _ _ _ Hinv Hi Ha) as (Hp & Hst & Hg & Hsig & Hre). split; try done.
    + intros j qc [[<- <-] | [Hne Hj]]%lookup_insert_Some; [done |]. pose proof (ci_place _ _ Hinv _ _ Hj) as Hq. destruct (holds_mutex pc) eqn:Eh.
      * apply (mutex_place_free s); [| done | done]. destruct (holds_mutex qc) eqn:Eq; [| done]. destruct Hne. eapply (ci_once _ _ Hinv); done.
      * destruct (Hsame eq_refl) as (E1 & E2 & E3). unfold place_ok, ended_with in *. by rewrite E1, E2, E3.
    + intros H1 H2. destruct (Hg H1 H2) as [Hs | (Hs & H3 & H4)]; [exists i, pc1; by rewrite lookup_insert_eq |].
      destruct (ci_gone _ _ Hinv H3 H4) as (j & qc & Hj & Hq). exists j, qc. rewrite lookup_insert_ne; [done |]. intros ->. simplify_eq. congruence.
  - assert (holds_mutex (start_of op) = false) as Hh by by destruct op. destruct Hinv as [Ho Hm Hp Hst Hg Hsig Hre].
    assert (forall j qc, holds_mutex qc = true -> <[i := start_of op]> ts !! j = Some qc <-> ts !! j = Some qc) as Hl.
    { intros j qc Hq. rewrite lookup_insert_Some. split; [intros [[<- <-] | [? ?]]; congruence |]. intros Hj. right. split; [| done]. intros <-. destruct Hnone as [? | [a ?]]; simplify_eq. }
    split; try done.
    + intros j k qc qc' Hj Hk H1 H2. apply Hl in Hj, Hk; [eauto | done | done].
    + rewrite Hm. split; intros (j & qc & Hj & Hq); exists j, qc; (split; [by apply (Hl j qc Hq) | done]).
    + intros j qc [[<- <-] | [Hne Hj]]%lookup_insert_Some; [by destruct op | eauto].
    + intros H1 H2. destruct (Hg H1 H2) as (j & qc & Hj & Hq). exists j, qc. split; [apply Hl; [by apply storing_holds | done] | done].
  - destruct Hinv as [Ho Hm Hp Hst Hg Hsig Hre]. rewrite Halive in *. split; simpl; try done.
    + intros i pc Hi. specialize (Hp _ _ Hi). destruct pc as [| | | | | | | | | | | [[[? |] | ?] | ?]]; simpl in *; try done; unfold ended_with in *; try (by destruct Hp; eauto); destruct Hp as (? & (? & ? & ?) & ?) || destruct Hp as (? & (? & ? & ?)); congruence.
    + destruct Hst as [? | [? (status' & ? & ?)]]; [by left | congruence].
Qed.

(** C24: under every interleaving of waits and terminations by any number of threads, when only this provider waits for the
    child.  The child is reaped at most once; no signal is ever sent to an identifier that was given up; every wait that
    learned a code learned the one the child ended with; and no wait is told that the code was lost. *)
Theorem signals_reach_own_child s ts : reachable s ts ->
  (sh_reaps s <= 1)%nat /\ Forall (fun kid => given_up kid = false) (sh_signals s) /\
  forall i r, ts !! i = Some (Finished (Reaped r)) -> match r with Ok None => True | Ok (Some code) => ended_with s code | Err _ => False end.
Proof.
  intros Hr. assert (children_inv s ts) as [Ho Hm Hp Hst Hg Hsig Hre].
  { apply (rtc_ind_r (fun x => children_inv x.1 x.2) (fresh, ∅)) in Hr; [done | |].
    - split; simpl; try done; [| by left]. split; [done | by intros (i & pc & Hi & _)].
    - intros [s1 t1] [s2 t2] _ Hs. by apply children_step_inv. }
  split; [rewrite Hre; destruct (given_up _); lia |]. split; [done |]. intros i r Hi. specialize (Hp _ _ Hi). destruct r as [[code |] | e]; simpl in Hp; [| done | done].
  destruct Hp as [He <-]. destruct Hst as [? | [_ ?]]; [unfold RUNNING, ENDED in *; congruence | done].
Qed.

(** The child is terminated, ends by the signal, and is waited for. *)
Lemma signals_reach_own_child_witness : exists s ts, reachable s ts /\ sh_signals s = [Alive] /\ ts !! 0%nat = Some (Finished (Reaped (Ok (Some 143)))) /\
  (sh_reaps s <= 1)%nat /\ ended_with s 143.
Proof.
  exists (mkShared ENDED 143 false (Gone 15) [Alive] 1), (<[0%nat := Finished (Reaped (Ok (Some 143)))]> ∅).
  assert (reachable (mkShared ENDED 143 false (Gone 15) [Alive] 1) (<[0%nat := Finished (Reaped (Ok (Some 143)))]> ∅)) as Hr.
  { unfold reachable. assert (forall pc pc' : Pc, <[0%nat := pc']> (<[0%nat := pc]> (∅ : gmap nat Pc)) = <[0%nat := pc']> ∅) as Hi by (intros; apply insert_insert_eq).
    assert (forall s s1 s2 ts pc pc1, access s pc s1 pc1 -> rtc step (s1, <[0%nat := pc1]> ∅) (s2, ts) -> rtc step (s, <[0%nat := pc]> ∅) (s2, ts)) as go.
    { intros s s1 s2 ts pc pc1 Ha Hr. eapply rtc_l; [eapply (Step_thread _ _ 0); [apply lookup_insert_eq | exact Ha] |]. by rewrite Hi. }
    eapply rtc_l; [apply (Step_call _ _ 0 OpTerminate); by left |].
    eapply go; [by apply Lock_mutex |]. eapply go; [by apply Look_running |]. eapply go; [by apply Ask_alive |]. eapply go; [apply (Kill _ (Ok tt)) |]. eapply go; [apply Unlock |].
    eapply rtc_l; [by apply (Step_end _ _ 15 143) |]. eapply rtc_l; [apply (Step_call _ _ 0 OpReap); right; eexists; apply lookup_insert_eq |]. rewrite Hi.
    eapply go; [by apply Judge_running |]. eapply go; [by apply Lock_mutex |]. eapply go; [by apply Look_running |]. eapply go; [by apply (Ask_zombie _ _ 15 143) |].
    eapply go; [apply Store_code |]. eapply go; [apply Store_ended |]. eapply go; [apply Unlock |]. apply rtc_refl. }
  destruct (signals_reach_own_child _ _ Hr) as (Hone & _ & Hcodes). split; [done |]. split; [done |]. split; [apply lookup_insert_eq |]. split; [done |].
  exact (Hcodes 0%nat (Ok (Some 143)) (lookup_insert_eq _ _ _)).
Defined.

(** *** The functions and the steps *)
(** The kernel that knows one child: [reap] on it takes the steps of [access], one after the other. *)
Definition ECHILD : Z := 10.
#[local] Instance kid_calls : WaitCalls Kid := {|
  w_lock _ k := (k, Ok tt); w_unlock _ k := k;
  w_waitpid _ k := match k with Alive => (k, Ok None) | Zombie status => (Gone status, Ok (Some status)) | Gone _ => (k, Err ECHILD) end;
  w_kill _ _ k := (k, Ok tt); w_monotonic_ns k := (k, Ok 0); w_sleep_ns _ k := (k, Ok tt); w_ppoll _ _ k := (k, Ok 0);
  w_read _ _ k := (k, Ok (0, [])); w_write _ _ k := (k, Err EPIPE); w_block_pipe k := (k, Ok false); w_pipe_pending k := (k, false);
  w_take_pipe k := (k, Ok tt); w_restore_mask _ k := k |}.
Definition access_pair (a b : Shared * Pc) : Prop := access a.1 a.2 b.1 b.2.
Definition shared_of (c : Child) (kid : Kid) : Shared := mkShared (c_state c) (c_code c) false kid [] 0.
Lemma access_l s pc s1 pc1 x : access s pc s1 pc1 -> rtc access_pair (s1, pc1) x -> rtc access_pair (s, pc) x.
Proof. intros Ha Hr. by eapply (rtc_l _ _ (s1, pc1)). Qed.
Lemma reap_is_run h (c : Child) (n : Procs Kid) : childs n !! h = Some c -> c_state c = RUNNING \/ c_state c = ENDED \/ c_state c = LOST ->
  (forall status, kernel n = Zombie status -> exit_code status <> None) ->
  exists n1 r c1 s1, reap 1 h n = Returned n1 r /\ childs n1 !! h = Some c1 /\
    rtc access_pair (shared_of c (kernel n), Judging) (s1, Finished (Reaped r)) /\ sh_state s1 = c_state c1 /\ sh_code s1 = c_code c1 /\ sh_kid s1 = kernel n1.
Proof.
  intros Hc Hs Hz. unfold reap, verdict. rewrite Hc. destruct Hs as [E | [E | E]]; rewrite E; simpl.
  2: { eexists n, _, c, _. split; [reflexivity |]. split; [done |]. split; [eapply access_l; [by apply Judge_ended |]; eapply access_l; [apply Read_code |]; apply rtc_refl | done]. }
  2: { eexists n, _, c, _. split; [reflexivity |]. split; [done |]. split; [eapply access_l; [apply Judge_lost; simpl; rewrite E; done |]; apply rtc_refl | done]. }
  unfold locked. simpl. rewrite Hc. unfold verdict. rewrite E. simpl.
  assert (forall s1 pc1, rtc access_pair (set_mutex true (shared_of c (kernel n)), Asking OpReap) (s1, pc1) -> rtc access_pair (shared_of c (kernel n), Judging) (s1, pc1)) as Hgo.
  { intros s1 pc1 Hr. eapply access_l; [by apply Judge_running |]. eapply access_l; [by apply Lock_mutex |]. eapply access_l; [by apply Look_running |]. exact Hr. }
  destruct (kernel n) as [| status | status] eqn:Ek.
  - eexists _, _, c, _. split; [reflexivity |]. split; [done |]. split; [apply Hgo; eapply access_l; [by apply Ask_alive |]; eapply access_l; [apply Unlock |]; apply rtc_refl |]. simpl. done.
  - destruct (exit_code status) as [code |] eqn:Ec; [| by destruct (Hz status)]. eexists _, _, _, _. split; [reflexivity |]. simpl. split; [apply lookup_insert_eq |].
    split; [apply Hgo; eapply access_l; [by apply (Ask_zombie _ _ status code) |]; eapply access_l; [apply Store_code |]; eapply access_l; [apply Store_ended |]; eapply access_l; [apply Unlock |]; apply rtc_refl |]. done.
  - eexists _, _, _, _. split; [reflexivity |]. simpl. split; [apply lookup_insert_eq |].
    split; [apply Hgo; eapply access_l; [by apply Ask_gone |]; eapply access_l; [apply Store_lost |]; eapply access_l; [apply Unlock |]; apply rtc_refl |]. done.
Qed.

(** ** Waiting with a timeout *)
(** What is documented of the clock and of the calls that wait: time does not run backwards; a sleep that ended lasted as
    long as it was asked to; a poll that found nothing lasted until its limit. *)
Definition nanoseconds (limit : Z * Z) : Z := limit.1 * 1000000000 + limit.2.
Class ClockLaws (K : Type) `{WaitCalls K} := {
  now : K -> Z;
  ck_clock k k1 r : w_monotonic_ns k = (k1, r) -> now k <= now k1 /\ match r with Ok t => now k <= t <= now k1 | Err e => e = EOs end;
  ck_sleep d k k1 r : w_sleep_ns d k = (k1, r) -> now k <= now k1 /\ match r with Ok _ => now k + d <= now k1 | Err e => e = EOs \/ e = EInvalidArgument end;
  ck_ppoll fd limit k k1 r : w_ppoll fd limit k = (k1, r) -> now k <= now k1 /\ (r = Ok 0 -> match limit with Some l => now k + nanoseconds l <= now k1 | None => True end) /\
    r <> Err EINTR /\ match r with Ok ready => 0 <= ready | Err _ => True end;
  ck_lock h k : now k <= now (w_lock h k).1; ck_unlock h k : now k <= now (w_unlock h k);
  ck_waitpid pid k k1 r : w_waitpid pid k = (k1, r) -> now k <= now k1 /\ r <> Err EINTR;
}.

Section Timeouts.
Context {K : Type} {W : WaitCalls K} {L : ClockLaws K}.
(** The last thing the kernel was asked about the child was whether it had ended, which it had not, and only the clock was
    read since. *)
Definition clock_reads : K -> K -> Prop := rtc (fun k k1 => exists r, w_monotonic_ns k = (k1, r)).
Definition asked_last (h pid : Z) (k : K) : Prop := exists k0 k1 a, w_waitpid pid k0 = (k1, Ok a) /\ a ≫= exit_code = None /\ clock_reads (w_unlock h k1) k.
(** The kernel told the status of the child, and the handle keeps its code. *)
Definition code_told (h pid code : Z) (n : Procs K) : Prop := exists c1 k0 k1 status, childs n !! h = Some c1 /\ verdict c1 = Some (Ok code) /\
  w_waitpid pid k0 = (k1, Ok (Some status)) /\ exit_code status = Some code /\ kernel n = w_unlock h k1.
Lemma asked_clock h pid k k1 r : asked_last h pid k -> w_monotonic_ns k = (k1, r) -> asked_last h pid k1.
Proof. intros (k0 & k2 & a & Hw & Ha & Hr) E. exists k0, k2, a. split_and!; try done. eapply rtc_r; [done | eauto]. Qed.
Lemma reap_returns rounds h (n : Procs K) c : childs n !! h = Some c -> verdict c = None -> exists n1 r, reap (S rounds) h n = Returned n1 r /\ now (kernel n) <= now (kernel n1) /\
  match r with
  | Ok None => childs n1 = childs n /\ asked_last h (c_pid c) (kernel n1)
  | Ok (Some code) => code_told h (c_pid c) code n1
  | Err e => e = EOs
  end.
Proof.
  intros Hc Ev. unfold reap. rewrite Hc, Ev. unfold locked.
  pose proof (ck_lock h (kernel n)) as Hl. destruct (w_lock h (kernel n)) as [k [u | code]]; simpl in Hl; [| eexists _, _; split; [reflexivity |]; simpl; split; [lia | done]]. simpl. rewrite Hc, Ev.
  destruct (w_waitpid (c_pid c) k) as [k2 r2] eqn:Ew. pose proof (ck_waitpid _ _ _ _ Ew) as [Hw Hi]. pose proof (ck_unlock h k2) as Hu.
  assert (forall a, a ≫= exit_code = None -> r2 = Ok a -> asked_last h (c_pid c) (w_unlock h k2)) as Hlast by (intros a Ha ->; exists k, k2, a; split_and!; [done | done | apply rtc_refl]).
  destruct r2 as [[status |] | code]; [destruct (exit_code status) as [code |] eqn:Ec | | destruct (Z.eqb_spec code EINTR); [by subst |]];
    (eexists _, _; split; [reflexivity |]; simpl; split; [lia |]); try done.
  - exists (with_verdict ENDED code c), k, k2, status. split_and!; try done. simpl. apply lookup_insert_eq.
  - split; [done |]. by apply (Hlast (Some status)).
  - split; [done |]. by apply (Hlast None).
Qed.
(** The turns that are left until a deadline that is [x] nanoseconds away. *)
Definition turns (x : Z) : Z := if x <=? 0 then 1 else 2 + x / PAUSE_FIRST.
Lemma turns_pos x : 1 <= turns x.
Proof. unfold turns. destruct (Z.leb_spec x 0); [lia |]. assert (0 <= x / PAUSE_FIRST) by (apply Z.div_pos; unfold PAUSE_FIRST; lia). lia. Qed.
Lemma turns_mono x y : x <= y -> turns x <= turns y.
Proof.
  intros Hxy. pose proof (turns_pos y). unfold turns in *. destruct (Z.leb_spec x 0), (Z.leb_spec y 0); try lia. assert (x / PAUSE_FIRST <= y / PAUSE_FIRST) by (apply Z.div_le_mono; unfold PAUSE_FIRST; lia). lia.
Qed.
Lemma turns_step x y remaining : 0 < remaining <= x -> y <= remaining - Z.min remaining PAUSE_FIRST -> turns y + 1 <= turns x.
Proof.
  intros [Hr Hx] Hy. apply (turns_mono remaining) in Hx. enough (turns y + 1 <= turns remaining) by lia. unfold turns in *. destruct (Z.leb_spec remaining 0); [lia |].
  assert (0 <= remaining / PAUSE_FIRST) by (apply Z.div_pos; unfold PAUSE_FIRST; lia). destruct (Z.leb_spec y 0); [lia |].
  assert (y / PAUSE_FIRST <= (remaining - PAUSE_FIRST) / PAUSE_FIRST) as Hd by (apply Z.div_le_mono; unfold PAUSE_FIRST in *; lia).
  replace (remaining - PAUSE_FIRST) with (remaining + (-1) * PAUSE_FIRST) in Hd by lia. rewrite Z.div_add in Hd by done. lia.
Qed.
Lemma limit_long remaining : 0 < remaining -> Z.min remaining PAUSE_FIRST <= nanoseconds (limit_of remaining).
Proof.
  intros Hr. unfold nanoseconds, limit_of. simpl. pose proof (Z.div_mod remaining 1000000000 ltac:(lia)) as Hd. pose proof (Z.mod_pos_bound remaining 1000000000 ltac:(lia)).
  destruct (Z.min_spec (remaining / 1000000000) i32_max) as [[_ ->] | [_ ->]]; unfold i32_max, PAUSE_FIRST in *; lia.
Qed.
(** What a wait for the child of [c] answers when it comes back: the code that the kernel told or the handle had; that the time is over, with the child asked
    for after everything but the clock; or an error of the system. *)
Definition answered (h d : Z) (c : Child) (n1 : Procs K) (r : Result Z) : Prop :=
  match r with
  | Ok code => code_told h (c_pid c) code n1
  | Err ETimeout => d <= now (kernel n1) /\ childs n1 !! h = Some c /\ asked_last h (c_pid c) (kernel n1)
  | Err e => e = EOs \/ e = EInvalidArgument
  end.
Lemma wait_loop_returns rounds h d c fuel : verdict c = None -> forall (n : Procs K) pidfd pause, childs n !! h = Some c -> asked_last h (c_pid c) (kernel n) -> PAUSE_FIRST <= pause ->
  turns (d - now (kernel n)) + (if 0 <=? pidfd then 1 else 0) <= Z.of_nat fuel ->
  exists n1 r, wait_loop (S rounds) fuel h (Some d) pidfd pause n = Returned n1 r /\ answered h d c n1 r.
Proof.
  intros Hv. induction fuel as [| fuel IH]; intros n pidfd pause Hc Hq Hp Hf; [pose proof (turns_pos (d - now (kernel n))); destruct (0 <=? pidfd); lia |].
  cbn [wait_loop]. unfold then_ at 1, then_ at 1, failing at 1. destruct (w_monotonic_ns (kernel n)) as [k [t | e]] eqn:E; pose proof (asked_clock _ _ _ _ _ Hq E) as Hqk; apply ck_clock in E as [Hk Ht]; [| subst e; eexists _, _; split; [reflexivity | by left]].
  unfold give at 1. destruct (Z.eqb_spec (saturating_sub d t) 0) as [Hz | Hz]; unfold saturating_sub in *; [eexists _, _; split; [reflexivity |]; simpl; split; [lia | done] |].
  set (remaining := Z.max 0 (d - t)) in *. assert (0 < remaining <= d - now (kernel n)) as Hrem by lia. assert (t = d - remaining) as Hre by lia. clear Hz. clearbody remaining. subst t. simpl in Ht.
  assert (forall (n2 : Procs K) pidfd2 pause2, childs n2 !! h = Some c -> PAUSE_FIRST <= pause2 -> turns (d - now (kernel n2)) + (if 0 <=? pidfd2 then 1 else 0) <= Z.of_nat fuel ->
    exists n1 r, (let* code := reap (S rounds) h in match code with Some code => give code | None => wait_loop (S rounds) fuel h (Some d) pidfd2 pause2 end) n2 = Returned n1 r /\ answered h d c n1 r) as Hgo.
  { intros n2 pidfd2 pause2 Hc2 Hp2 Hf2. unfold then_. destruct (reap_returns rounds h n2 c Hc2 Hv) as (n3 & r & -> & Hnow & Hr).
    destruct r as [[code |] | e]; [eexists _, _; split; [reflexivity | done] | | subst e; eexists _, _; split; [reflexivity | by left]]. destruct Hr as [Hc3 Hq3].
    apply (IH n3 pidfd2 pause2); [by rewrite Hc3 | done | done |]. assert (d - now (kernel n3) <= d - now (kernel n2)) as Hd by lia. apply turns_mono in Hd. destruct (0 <=? pidfd2); lia. }
  revert Hf. destruct (Z.leb_spec 0 pidfd) as [Hfd | Hfd]; intros Hf.
  - unfold then_ at 1, then_ at 1, asking. destruct (w_ppoll pidfd _ _) as [k2 r2] eqn:E2. apply ck_ppoll in E2 as (Hk2 & Hpoll & Hi & Hready). cbn [kernel at_kernel] in Hk2, Hpoll.
    destruct r2 as [ready | code]; [| destruct (Z.eqb_spec code EINTR); [by subst | eexists _, _; split; [reflexivity | by left]]]. unfold give at 1.
    apply Hgo; [done | done |]. cbn [kernel at_kernel]. destruct (Z.ltb_spec 0 ready).
    + assert (d - now k2 <= d - now (kernel n)) as Hd%turns_mono by lia. change (0 <=? -1) with false. lia.
    + assert (ready = 0) as -> by lia. specialize (Hpoll eq_refl). pose proof (limit_long remaining ltac:(lia)). destruct (Z.leb_spec 0 pidfd); [| lia].
      assert (d - now k2 <= remaining - Z.min remaining PAUSE_FIRST) as Hd by lia. apply (turns_step _ _ _ Hrem) in Hd. lia.
  - unfold then_ at 1, then_ at 1, failing. destruct (w_sleep_ns _ _) as [k2 [u | e]] eqn:E2; apply ck_sleep in E2 as [Hk2 Hs]; cbn [kernel at_kernel] in Hk2, Hs; [| eexists _, _; split; [reflexivity |]; by destruct Hs as [-> | ->]; [left | right]].
    unfold give at 1. apply Hgo; [done | unfold PAUSE_FIRST, PAUSE_LAST in *; lia |]. cbn [kernel at_kernel]. destruct (Z.leb_spec 0 pidfd); [lia |].
    assert (d - now k2 <= remaining - Z.min remaining PAUSE_FIRST) as Hd by (unfold PAUSE_FIRST in *; lia). apply (turns_step _ _ _ Hrem) in Hd. lia.
Qed.

End Timeouts.

(** ** Writing to a pipe that nobody reads *)
(** The thread's signal state for [SIGPIPE] and how often a handler or the default action has met it.  A write that breaks
    raises the signal: it stays pending while it is blocked; [sigtimedwait] takes it; an unblocked one is delivered. *)
Class SignalLaws (K : Type) `{WaitCalls K} := {
  blocked : K -> bool; pipe_pending : K -> bool; delivered : K -> nat;
  sg_block k k1 r : w_block_pipe k = (k1, r) -> pipe_pending k1 = pipe_pending k /\ delivered k1 = delivered k /\
    match r with Ok held => held = blocked k /\ blocked k1 = true | Err _ => blocked k1 = blocked k end;
  sg_pending k : (w_pipe_pending k).2 = pipe_pending k /\ blocked (w_pipe_pending k).1 = blocked k /\
    pipe_pending (w_pipe_pending k).1 = pipe_pending k /\ delivered (w_pipe_pending k).1 = delivered k;
  sg_write fd data k k1 r : w_write fd data k = (k1, r) -> blocked k = true -> blocked k1 = true /\ delivered k1 = delivered k /\
    pipe_pending k1 = match r with Err code => if code =? EPIPE then true else pipe_pending k | Ok _ => pipe_pending k end;
  sg_take k k1 r : w_take_pipe k = (k1, r) -> blocked k1 = blocked k /\ delivered k1 = delivered k /\
    match r with Ok _ => pipe_pending k1 = false | Err code => pipe_pending k1 = pipe_pending k /\ (pipe_pending k = true -> code = EINTR) end;
  sg_restore held k : blocked (w_restore_mask held k) = held /\
    (held = false -> pipe_pending (w_restore_mask held k) = false /\ delivered (w_restore_mask held k) = (delivered k + (if pipe_pending k then 1 else 0))%nat);
}.
Section Signals.
Context {K : Type} {W : WaitCalls K} {L : SignalLaws K} (rounds : nat).
Definition same_signals (k k1 : K) : Prop := blocked k1 = blocked k /\ pipe_pending k1 = pipe_pending k /\ delivered k1 = delivered k.
Lemma pipe_descriptor_state h (n n1 : Procs K) r : pipe_descriptor h n = Returned n1 r -> n1 = n.
Proof. unfold pipe_descriptor. destruct (_ || _); [by intros [= <- _] |]. destruct (pipe_fds n !! h); [by intros [= <- _] | done]. Qed.
Lemma again_write fd data fuel : forall k k1 r, again fuel (w_write fd data) k = Some (k1, r) -> blocked k = true -> blocked k1 = true /\ delivered k1 = delivered k /\
  pipe_pending k1 = match r with Err code => if code =? EPIPE then true else pipe_pending k | Ok _ => pipe_pending k end.
Proof.
  induction fuel as [| fuel IH]; intros k k1 r; [done |]. simpl. destruct (w_write fd data k) as [k2 [n | code]] eqn:E; intros Hr Hb; apply sg_write in E as (H1 & H2 & H3); try done.
  - by simplify_eq.
  - destruct (Z.eqb_spec code EINTR) as [-> | _]; [| by simplify_eq]. apply IH in Hr as (G1 & G2 & G3); [| done]. simpl in H3. split; [done |]. split; [congruence |]. by rewrite G3, H3.
Qed.
Lemma again_take fuel : forall k k1 r, again fuel w_take_pipe k = Some (k1, r) -> pipe_pending k = true -> blocked k1 = blocked k /\ delivered k1 = delivered k /\ pipe_pending k1 = false.
Proof.
  induction fuel as [| fuel IH]; intros k k1 r; [done |]. simpl. destruct (w_take_pipe k) as [k2 [u | code]] eqn:E; intros Hr Hp; apply sg_take in E as (H1 & H2 & H3).
  - by simplify_eq.
  - destruct H3 as [H3 H4]. rewrite (H4 Hp) in Hr. simpl in Hr. apply IH in Hr as (G1 & G2 & G3); [| congruence]. split; [congruence |]. split; [congruence | done].
Qed.

(** A write to a pipe leaves the signals of the thread alone.  Whether it succeeds, fails or finds nobody reading, the mask
    of [SIGPIPE] is what it was, one that was pending before is pending still, one that the write raised is not, and no
    handler has run. *)
Theorem pipe_write_signals h data (n n1 : Procs K) r : (blocked (kernel n) = false -> pipe_pending (kernel n) = false) ->
  pipe_write rounds h data n = Returned n1 r -> same_signals (kernel n) (kernel n1).
Proof.
  intros Hq. unfold pipe_write. intros Hr. apply then_Returned in Hr as [(n2 & fd & Hd & Hr) | (e & Hd & _)]; apply pipe_descriptor_state in Hd as ->; [| done].
  destruct (w_block_pipe (kernel n)) as [k [held | code]] eqn:Eb; apply sg_block in Eb as (Hp & Hdl & Hb); [| simplify_eq; done]. destruct Hb as [-> Hb].
  assert (exists k2 foreign, (if blocked (kernel n) then w_pipe_pending k else (k, false)) = (k2, foreign) /\ blocked k2 = true /\ pipe_pending k2 = pipe_pending (kernel n) /\
    delivered k2 = delivered (kernel n) /\ foreign = pipe_pending (kernel n)) as (k2 & foreign & E2 & Hb2 & Hp2 & Hd2 & ->).
  { destruct (blocked (kernel n)); [| exists k, false; rewrite (Hq eq_refl) in Hp |- *; auto]. destruct (sg_pending k) as (G1 & G2 & G3 & G4). destruct (w_pipe_pending k) as [k2 f]. simpl in *.
    exists k2, f. split; [done |]. split; [congruence |]. split; [congruence |]. split; congruence. }
  rewrite E2 in Hr. destruct (again rounds (w_write fd data) k2) as [[k3 wrote] |] eqn:Ew; [| done]. apply again_write in Ew as (Hb3 & Hd3 & Hp3); [| done].
  assert (forall k4 x, (match wrote with Err code => if (code =? EPIPE) && negb (pipe_pending (kernel n)) then again rounds w_take_pipe k3 else Some (k3, Ok tt) | Ok _ => Some (k3, Ok tt) end) = Some (k4, x) ->
    blocked k4 = true /\ delivered k4 = delivered (kernel n) /\ pipe_pending k4 = pipe_pending (kernel n)) as Htake.
  { intros k4 x. destruct wrote as [sent | code]; [intros [= <- <-]; split; [done |]; split; congruence |]. destruct (code =? EPIPE); simpl; [| intros [= <- <-]; split; [done |]; split; congruence].
    destruct (pipe_pending (kernel n)); simpl; [intros [= <- <-]; split; [done |]; split; congruence |]. intros Ht. apply again_take in Ht as (G1 & G2 & G3); [| done]. split; [congruence |]. split; congruence. }
  match type of Hr with match ?m with _ => _ end = _ => destruct m as [[k4 x] |] eqn:Et; [| done] end. destruct (Htake k4 x eq_refl) as (G1 & G2 & G3). simplify_eq. unfold same_signals. simpl.
  destruct (blocked (kernel n)) eqn:Eb; [done |]. destruct (sg_restore false k4) as [R1 R2]. destruct (R2 eq_refl) as [R3 R4]. rewrite R1, R3, R4, G3, G2, Hq by done. split; [done |]. split; [done |]. lia.
Qed.
End Signals.

(** ** What a spawn left, given back *)
Class WaitKeeps (K : Type) `{SpawnLaws K} `{WaitCalls K} := {
  wk_lock h k : res (w_lock h k).1 = res k; wk_unlock h k : res (w_unlock h k) = res k;
  wk_waitpid pid k : (exists c, res (w_waitpid pid k).1 = set_children (fun _ => c) (res k)) /\ (w_waitpid pid k).2 <> Err EINTR;
}.
Section GivenBack.
Context {K : Type} {C : SpawnCalls K} {L : SpawnLaws K} {W : WaitCalls K} {WK : WaitKeeps K} (rounds : nat).
(** The consumer's end: the pipe handles that there are, then the child's. *)
Fixpoint close_handles (l : list Z) (n : Procs K) : Outcome (Procs K) unit :=
  match l with
  | [] => Returned n (Ok tt)
  | h :: l => if h =? 0 then close_handles l n else match pipe_close h n with Returned n _ => close_handles l n | o => o end
  end.
Definition finish_with (sp : Spawned) (n : Procs K) : Outcome (Procs K) unit :=
  match close_handles [sp_input sp; sp_output sp; sp_error sp] n with Returned n _ => release (S rounds) (sp_process sp) n | o => o end.
(** A handle lies in a block of the allocator, and a block is aligned for any type. *)
Definition tracked (n : Procs K) : Prop :=
  (forall h, is_Some (childs n !! h) -> h ∈ r_blocks (res (kernel n))) /\ (forall h, is_Some (pipe_fds n !! h) -> h ∈ r_blocks (res (kernel n))).
Definition aligned_blocks (r : Res) : Prop := forall p, p ∈ r_blocks r -> p mod 16 = 0.
Lemma mod_16 h : h mod 16 = 0 -> h mod align_of_Child = 0 /\ h mod align_of_Pipe = 0.
Proof.
  intros Hm. apply Z.mod_divide in Hm as [q ->]; [| done]. unfold align_of_Child, align_of_Pipe.
  split; [replace (q * 16) with (q * 2 * 8) by lia | replace (q * 16) with (q * 4 * 4) by lia]; by apply Z.mod_mul.
Qed.
(** Only the children of [r1] may differ from [r]. *)
Definition but_children (r r1 : Res) : Prop := exists c, r1 = set_children (fun _ => c) r.
Lemma reap_res h (n : Procs K) c : childs n !! h = Some c -> exists n1 r, reap (S rounds) h n = Returned n1 r /\ but_children (res (kernel n)) (res (kernel n1)) /\
  pipe_fds n1 = pipe_fds n /\ delete h (childs n1) = delete h (childs n).
Proof.
  intros Hc. unfold reap, but_children. rewrite Hc. destruct (verdict c) as [v |] eqn:Ev.
  { exists n, (verdict_some v). split; [done |]. split; [| done]. exists (r_children (res (kernel n))). by destruct (res (kernel n)). }
  unfold locked. pose proof (wk_lock h (kernel n)) as Hl. destruct (w_lock h (kernel n)) as [k [u | code]]; simpl in Hl.
  2: { eexists _, _. split; [reflexivity |]. simpl. split; [| done]. exists (r_children (res (kernel n))). rewrite Hl. by destruct (res (kernel n)). }
  simpl. rewrite Hc, Ev. destruct (wk_waitpid (c_pid c) k) as [[ch Hw] Hi]. destruct (w_waitpid (c_pid c) k) as [k2 r2]. simpl in Hw, Hi.
  assert (res (w_unlock h k2) = set_children (fun _ => ch) (res (kernel n))) as Hres by (by rewrite wk_unlock, Hw, Hl).
  destruct r2 as [[status |] | code]; [destruct (exit_code status) as [code |] | | destruct (Z.eqb_spec code EINTR); [by subst |]];
    (eexists _, _; split; [reflexivity |]; simpl; split; [by exists ch |]; split; [done |]; rewrite ?delete_insert_eq; done).
Qed.
Lemma pipe_close_res old_f old_b pf pb h fd (n : Procs K) f b : pipe_fds n !! h = Some fd -> h <> 0 -> h mod align_of_Pipe = 0 ->
  r_fds (res (kernel n)) = f -> r_blocks (res (kernel n)) = b -> extra old_f f (fd :: pf) -> extra old_b b (h :: pb) ->
  exists n1 x, pipe_close h n = Returned n1 x /\ childs n1 = childs n /\ pipe_fds n1 = delete h (pipe_fds n) /\
    res (kernel n1) = set_fds (without fd) (set_blocks (without h) (res (kernel n))) /\ extra old_f (without fd f) pf /\ extra old_b (without h b) pb.
Proof.
  intros Hp Hnz Hm Hf Hb Xf Xb. unfold pipe_close, then_, pipe_descriptor. destruct (Z.eqb_spec h 0); [done |]. rewrite Hm. simpl. rewrite Hp. simpl.
  pose proof (sl_close fd (kernel n)) as Hc. rewrite Hf in Hc. specialize (Hc (extra_in _ _ _ _ Xf)). destruct (p_close fd (kernel n)) as [k closed]. simpl in Hc.
  assert (res (p_free h k) = set_fds (without fd) (set_blocks (without h) (res (kernel n)))) as Hfree.
  { rewrite (proj2 (sl_free h k)); [by rewrite Hc | done |]. rewrite Hc. simpl. rewrite Hb. by eapply extra_in. }
  destruct closed; eexists _, _; (split; [reflexivity |]); (split; [done |]); (split; [done |]); (split; [done |]); split; by apply extra_remove.
Qed.
Lemma close_handles_res old_f old_b pf pb m0 l : forall pubs (n : Procs K), pubs.*1 ≡ₚ filter is_block l -> pipe_fds n = list_to_map pubs ∪ m0 ->
  (forall h, h ∈ pubs.*1 -> h mod align_of_Pipe = 0 /\ m0 !! h = None) ->
  extra old_f (r_fds (res (kernel n))) (pubs.*2 ++ pf) -> extra old_b (r_blocks (res (kernel n))) (pubs.*1 ++ pb) ->
  exists n1, close_handles l n = Returned n1 (Ok tt) /\ childs n1 = childs n /\ pipe_fds n1 = m0 /\
    exists f b, res (kernel n1) = set_fds (fun _ => f) (set_blocks (fun _ => b) (res (kernel n))) /\ extra old_f f pf /\ extra old_b b pb.
Proof.
  induction l as [| h l IH]; intros pubs n Hp Hm Hall Xf Xb; cbn [close_handles].
  - apply Permutation_nil_r in Hp. destruct pubs as [| ? ?]; [| done]. exists n. split; [done |]. split; [done |]. split; [by rewrite Hm, list_to_map_nil, map_empty_union |].
    exists (r_fds (res (kernel n))), (r_blocks (res (kernel n))). split; [by destruct (res (kernel n)) | done].
  - destruct (Z.eqb_spec h 0) as [-> | Hnz]; [rewrite filter_cons_False in Hp by (intros X; by apply X); by apply (IH pubs) |].
    rewrite filter_cons_True in Hp by done. assert (h ∈ pubs.*1) as Hin by (rewrite Hp; set_solver). pose proof (Hall h Hin) as [Hal Hno].
    apply list_elem_of_fmap in Hin as ([h' fd] & -> & Hin). simpl in *. apply elem_of_Permutation in Hin as [rest Hrest].
    assert (NoDup pubs.*1) as Hnd by (apply ex_nodup, NoDup_app in Xb; tauto). pose proof Hnd as Hnd'. rewrite Hrest in Hnd'. cbn [fmap list_fmap fst] in Hnd'. apply NoDup_cons in Hnd' as [Hfresh Hnd'].
    assert (list_to_map pubs = (<[h' := fd]> (list_to_map rest) : gmap Z Z)) as Hmap by (rewrite (list_to_map_proper pubs ((h', fd) :: rest)); done).
    rewrite Hrest in Xf, Xb, Hp. cbn [fmap list_fmap fst snd app] in Xf, Xb, Hp. apply Permutation_cons_inv in Hp.
    assert (pipe_fds n !! h' = Some fd) as Hlook by (rewrite Hm, Hmap; apply lookup_union_Some_l, lookup_insert_eq).
    destruct (pipe_close_res old_f old_b _ _ h' fd n _ _ Hlook Hnz Hal eq_refl eq_refl Xf Xb) as (n1 & x & -> & Hc1 & Hp1 & Hr1 & Xf1 & Xb1).
    destruct (IH rest n1 Hp) as (n2 & -> & Hc2 & Hp2 & f & b & Hr2 & Hx).
    + rewrite Hp1, Hm, Hmap, delete_union, delete_insert_id by (by apply not_elem_of_list_to_map_1). f_equal. by apply delete_id.
    + intros h'' Hh. apply Hall. rewrite Hrest. set_solver.
    + by rewrite Hr1.
    + by rewrite Hr1.
    + exists n2. split; [done |]. split; [congruence |]. split; [done |]. exists f, b. rewrite Hr2, Hr1. by destruct (res (kernel n)).
Qed.

(** The round trip of a child.  After a spawn that succeeded, closing the pipe handles it gave out and releasing the
    process always comes back, and the process then holds what it held before: every descriptor, block and mutex, the
    signal mask and the handles of other children.  Only the children that nobody has waited for may differ: one that has
    ended was reaped by the release, one that still runs goes on. *)
Theorem handles_given_back n r pipes identity n1 sp : settled (res (kernel n)) -> tracked n -> launch rounds r pipes identity n = Returned n1 (Ok sp) -> aligned_blocks (res (kernel n1)) ->
  exists n2, finish_with sp n1 = Returned n2 (Ok tt) /\ but_children (res (kernel n)) (res (kernel n2)) /\ childs n2 = childs n /\ pipe_fds n2 = pipe_fds n.
Proof.
  intros Hs [Ht1 Ht2] Hl Hal. apply launch_balanced in Hl as (pidfd & pubs & Hcons & [Hp [_ Hlow] Xf Xb Xm [_ Hch] [Ha1 [Ha2 Ha3]]] & Hc1 & Hp1); [| done].
  assert (forall h, h ∈ sp_process sp :: pubs.*1 -> h ∉ r_blocks (res (kernel n)) /\ h mod 16 = 0) as Hnew.
  { intros h Hh. split; [by apply (ex_new _ _ _ Xb) |]. apply Hal. rewrite (ex_cur _ _ _ Xb). set_solver. }
  unfold finish_with. destruct (close_handles_res (r_fds (res (kernel n))) (r_blocks (res (kernel n))) (filter is_fd [pidfd]) [sp_process sp] (pipe_fds n) [sp_input sp; sp_output sp; sp_error sp] pubs n1)
    as (n2 & -> & Hc2 & Hp2 & f & b & Hr2 & Xf2 & Xb2); [done | done | | | |].
  - intros h Hh. destruct (Hnew h ltac:(set_solver)) as [Hn Hm]. split; [by apply mod_16 |]. apply eq_None_not_Some. intros Hsome. by apply Hn, Ht2.
  - eapply extra_Proper; [| exact Xf]. apply Permutation_app_comm.
  - eapply extra_Proper; [| exact Xb]. apply Permutation_app_comm.
  - destruct (Hnew (sp_process sp) ltac:(set_solver)) as [Hn Hm].
    assert (sp_process sp <> 0) as Hnz by (unfold spawned_consistent in Hcons; destruct (Z.eqb_spec (sp_process sp) 0); [done | done]).
    assert (childs n2 !! sp_process sp = Some (mkChild (sp_id sp) pidfd RUNNING 0)) as Hlook by (rewrite Hc2, Hc1; apply lookup_insert_eq).
    unfold release, then_, child. destruct (Z.eqb_spec (sp_process sp) 0); [done |]. rewrite (proj1 (mod_16 _ Hm)). simpl orb. cbv iota. rewrite Hlook. cbn [c_pidfd].
    destruct (reap_res (sp_process sp) n2 _ Hlook) as (n3 & x & -> & (ch & Hr3) & Hp3 & Hc3). eexists. split; [reflexivity |]. cbn [kernel childs pipe_fds].
    assert (childs n !! sp_process sp = None) as Hnone by (apply eq_None_not_Some; intros Hsome; by apply Hn, Ht1).
    split; [| split; [by rewrite Hc3, Hc2, Hc1, delete_insert_id | congruence]]. rewrite Hr2 in Hr3.
    set (k := if 0 <=? pidfd then (p_close pidfd (kernel n3)).1 else kernel n3).
    assert (res k = set_fds (fun _ => r_fds (res (kernel n))) (set_blocks (fun _ => b) (set_children (fun _ => ch) (res (kernel n1))))) as Hk.
    { unfold k. destruct (Z.leb_spec 0 pidfd).
      - rewrite filter_fd in Xf2 by done. pose proof (sl_close pidfd (kernel n3)) as Hcl. rewrite Hr3 in Hcl. specialize (Hcl (extra_in _ _ _ _ Xf2)). rewrite Hcl.
        apply extra_remove, extra_nil in Xf2. unfold set_fds, set_blocks, set_children. simpl in *. by rewrite Xf2.
      - assert (pidfd = -1) as -> by lia. rewrite filter_no_fd in Xf2. apply extra_nil in Xf2 as ->. rewrite Hr3. done. }
    assert (sp_process sp ∈ r_mutexes (res k)) as Hmx by (rewrite Hk; simpl; by eapply extra_in).
    pose proof (sl_mutex_destroy _ _ Hmx) as Hd. pose proof (proj2 (sl_free (sp_process sp) (p_mutex_destroy (sp_process sp) k)) Hnz) as Hf. rewrite Hd, Hk in Hf. specialize (Hf (extra_in _ _ _ _ Xb2)).
    exists ch. rewrite Hf. apply extra_remove, extra_nil in Xb2. apply extra_remove, extra_nil in Xm. unfold set_fds, set_blocks, set_mutexes, set_children. simpl in *. by rewrite Xb2, Xm, Ha1, Ha2, Ha3.
Qed.
End GivenBack.

(** ** Small systems *)
#[export] Instance small_waits : WaitCalls Small := {|
  w_lock _ k := (k, Ok tt); w_unlock _ k := k; w_waitpid _ k := (k, Ok None); w_kill _ _ k := (k, Ok tt);
  w_monotonic_ns k := (k, Ok 0); w_sleep_ns _ k := (k, Ok tt); w_ppoll _ _ k := (k, Ok 0); w_read _ _ k := (k, Ok (0, [])); w_write _ _ k := (k, Err EPIPE);
  w_block_pipe k := (k, Ok false); w_pipe_pending k := (k, false); w_take_pipe k := (k, Ok tt); w_restore_mask _ k := k |}.
#[export] Instance small_keeps : WaitKeeps Small.
Proof. split; [done | done |]. intros pid k. split; [| done]. simpl. exists (r_children (y_res k)). by destruct (y_res k). Defined.
Lemma handles_given_back_witness : exists n1 sp n2, launch 1 small_request 3 None (small_start 40) = Returned n1 (Ok sp) /\
  finish_with 0 sp n1 = Returned n2 (Ok tt) /\ but_children (res (kernel (small_start 40))) (res (kernel n2)) /\ childs n2 = ∅ /\ pipe_fds n2 = ∅.
Proof.
  assert (match launch 1 small_request 3 None (small_start 40) with Returned n1 (Ok _) => forallb (fun p => p mod 16 =? 0) (elements (r_blocks (res (kernel n1)))) | _ => false end = true) as H1 by (vm_compute; reflexivity).
  destruct (launch 1 small_request 3 None (small_start 40)) as [n1 [sp | e1] | |] eqn:E1; try discriminate H1.
  assert (aligned_blocks (res (kernel n1))) as Hal.
  { intros p Hp. rewrite forallb_forall in H1. specialize (H1 p). rewrite <- list_elem_of_In, elem_of_elements, Z.eqb_eq in H1. auto. }
  destruct (handles_given_back 1 (small_start 40) small_request 3 None n1 sp (small_settled 40)) as (n2 & Hf & Hr & Hc & Hp); [| exact E1 | exact Hal |].
  - split; intros h [x Hx]; simpl in Hx; by rewrite lookup_empty in Hx.
  - exists n1, sp, n2. exact (conj eq_refl (conj Hf (conj Hr (conj Hc Hp)))).
Defined.

(** Time passes only in the calls that wait; the child ends at a time, with code 7. *)
Record Ticks := mkTicks { tick : Z; ends : Z }.
#[export] Instance tick_calls : WaitCalls Ticks := {|
  w_lock _ k := (k, Ok tt); w_unlock _ k := k; w_waitpid _ k := (k, Ok (if ends k <=? tick k then Some 1792 else None)); w_kill _ _ k := (k, Ok tt);
  w_monotonic_ns k := (k, Ok (tick k)); w_sleep_ns d k := (mkTicks (tick k + Z.max 0 d) (ends k), Ok tt);
  w_ppoll _ limit k := match limit with Some l => (mkTicks (tick k + Z.max 0 (nanoseconds l)) (ends k), Ok 0) | None => (k, Ok 1) end;
  w_read _ _ k := (k, Ok (0, [])); w_write _ _ k := (k, Err EPIPE);
  w_block_pipe k := (k, Ok false); w_pipe_pending k := (k, false); w_take_pipe k := (k, Ok tt); w_restore_mask _ k := k |}.
#[export] Instance tick_laws : ClockLaws Ticks.
Proof.
  refine {| now := tick |}; simpl; try done; try lia.
  - intros k k1 r [= <- <-]. lia.
  - intros d k k1 r [= <- <-]. simpl. lia.
  - intros fd [l |] k k1 r [= <- <-]; simpl; (split; [lia |]); (split; [intros; (done || lia) |]); (split; [done |]); lia.
  - intros pid k k1 r [= <- <-]. split; [lia | done].
Defined.
Definition waiting_child (ends : Z) : Procs Ticks := mkProcs (mkTicks 1000 ends) {[16 := mkChild 77 (-1) RUNNING 0]} ∅.

Record Sig := mkSig { g_blocked : bool; g_pending : bool; g_delivered : nat }.
#[export] Instance sig_calls : WaitCalls Sig := {|
  w_lock _ k := (k, Ok tt); w_unlock _ k := k; w_waitpid _ k := (k, Ok None); w_kill _ _ k := (k, Ok tt);
  w_monotonic_ns k := (k, Ok 0); w_sleep_ns _ k := (k, Ok tt); w_ppoll _ _ k := (k, Ok 0); w_read _ _ k := (k, Ok (0, []));
  w_write _ _ k := (mkSig (g_blocked k) (g_blocked k) (g_delivered k + if g_blocked k then 0 else 1), Err EPIPE);
  w_block_pipe k := (mkSig true (g_pending k) (g_delivered k), Ok (g_blocked k)); w_pipe_pending k := (k, g_pending k);
  w_take_pipe k := if g_pending k then (mkSig (g_blocked k) false (g_delivered k), Ok tt) else (k, Err EAGAIN);
  w_restore_mask held k := if held then mkSig true (g_pending k) (g_delivered k) else mkSig false false (g_delivered k + if g_pending k then 1 else 0) |}.
#[export] Instance sig_laws : SignalLaws Sig.
Proof.
  refine {| blocked := g_blocked; pipe_pending := g_pending; delivered := g_delivered |}; simpl; try done.
  - intros k k1 r [= <- <-]. done.
  - intros fd data k k1 r [= <- <-] ->. simpl. split; [done |]. split; [lia | done].
  - intros k k1 r. destruct (g_pending k) eqn:E; intros [= <- <-]; [done |]. split; [done |]. split; [done |]. split; [done | congruence].
  - intros held k. destruct held; [done |]. done.
Defined.
Lemma pipe_write_signals_witness : exists n1, pipe_write 2 16 [1; 2] (mkProcs (mkSig false false 0) ∅ {[16 := 4]}) = Returned n1 (Err EBrokenPipe) /\
  same_signals (mkSig false false 0) (kernel n1).
Proof.
  eexists. split; [vm_compute; reflexivity |]. eapply (pipe_write_signals 2 16 [1; 2] (mkProcs (mkSig false false 0) ∅ {[16 := 4]})); [done |]. vm_compute. reflexivity.
Defined.
