(* ===== verification/LinuxMemory.v ===== *)
(** * LinuxMemory.v: virtual memory and native mappings on Linux

    The providers [VirtualMemory] and [NativeMapping] of [src/crates/dotnet-pal-linux/src/linux.rs] over [mmap], [munmap],
    [mprotect] and [madvise], which are the class [MmapCalls]; what the manual says of them is [MmapLaws], on a view of the
    address space page by page.

    The theorems: a reservation is aligned and takes exactly its pages, and what was mapped for alignment is given back
    ([reserve_exact]); the provider refines the abstract space of reserved and committed pages, in which a page that is
    committed reads zero until it is written and keeps its data until it is decommitted ([linux_vm_refines]). *)
From S2P Require Import Prelude Port Counter Boundary Libc.
Import Errno.
Local Open Scope Z_scope.
Local Open Scope pal_scope.

Definition PROT_NONE : Z := 0.
Definition PROT_READ : Z := 1.
Definition PROT_WRITE : Z := 2.
Definition PROT_EXEC : Z := 4.
Definition READ_WRITE : Z := Z.lor PROT_READ PROT_WRITE.
(** [runtime::READ], [WRITE], [EXECUTE] *)
Definition READ : Z := 1.
Definition WRITE : Z := 2.
Definition EXECUTE : Z := 4.

(** [m_mmap address size protection fixed], private and anonymous; [m_store] is a store of the program to
    memory it may write. *)
Class MmapCalls (K : Type) := {
  m_sysconf_page : Z;
  m_mmap : Z -> Z -> Z -> bool -> M K Z Z; m_munmap : Z -> Z -> M K Z unit;
  m_mprotect : Z -> Z -> Z -> M K Z unit; m_madvise_dontneed : Z -> Z -> M K Z unit;
  m_store : Z -> Z -> K -> K;
}.

Section Provider.
Context `{Arch} {K : Type} {C : MmapCalls K}.
Definition page : Z := if 0 <? m_sysconf_page then m_sysconf_page else 0.
(** [os]: any failure is [Error::Os]. *)
Definition os (m : M K Z unit) : M K Error unit := fun k => let '(k, r) := m k in (k, match r with Ok _ => Ok tt | Err _ => Err EOs end).
Definition reserve (size alignment : Z) : M K Error Z := fun k =>
  match checked_add usize_max size (alignment - page) with
  | None => (k, Err EOs)
  | Some total =>
      match m_mmap 0 total PROT_NONE false k with
      | (k, Err _) => (k, Err EOs)
      | (k, Ok raw) =>
          match checked_add usize_max raw (alignment - 1) with
          | None => ((m_munmap raw total k).1, Err EOs)
          | Some rounded =>
              let aligned := mask_down rounded alignment in
              let prefix := aligned - raw in
              let suffix := total - prefix - size in
              let '(k, cut) := if prefix =? 0 then (k, Ok tt) else m_munmap raw prefix k in
              match cut with
              | Err _ => ((m_munmap raw total k).1, Err EOs)
              | Ok _ =>
                  let '(k, cut) := if suffix =? 0 then (k, Ok tt) else m_munmap (aligned + size) suffix k in
                  match cut with
                  | Err _ => ((m_munmap aligned (size + suffix) k).1, Err EOs)
                  | Ok _ => (k, Ok aligned)
                  end
              end
          end
      end
  end.
Definition commit (address size : Z) : M K Error unit := os (m_mprotect address size READ_WRITE).
Definition decommit (address size : Z) : M K Error unit := fun k =>
  match m_mmap address size PROT_NONE true k with (k, Ok _) => (k, Ok tt) | (k, Err _) => (k, Err EOs) end.
Definition release (address size : Z) : M K Error unit := os (m_munmap address size).
Definition reset (address size : Z) : M K Error unit := os (m_madvise_dontneed address size).
#[export] Instance linux_vm : VirtualMemory K := {|
  vm_PROVIDED := true; vm_page_size := page; vm_reserve := reserve; vm_commit := commit; vm_decommit := decommit;
  vm_release := release; vm_reset := reset |}.

(** [impl NativeMapping for Linux] *)
Definition protection (value : Z) : Z :=
  Z.lor (Z.lor (if has value READ then PROT_READ else 0) (if has value WRITE then PROT_WRITE else 0)) (if has value EXECUTE then PROT_EXEC else 0).
Definition page_aligned (address : Z) : bool := is_power_of_two page && (Z.land address (page - 1) =? 0).
Definition mapping_allocate (size permissions : Z) : M K Error Z := fun k =>
  match m_mmap 0 size (protection permissions) false k with
  | (k, Ok value) => (k, Ok value)
  | (k, Err code) => (k, Err (if code =? ENOMEM then EOutOfMemory else EOs))
  end.
Definition mapping_release (address size : Z) : M K Error unit :=
  if negb (page_aligned address) then fail EInvalidArgument else os (m_munmap address size).
Definition mapping_protect (address size permissions : Z) : M K Error unit :=
  if negb (page_aligned address) then fail EInvalidArgument else os (m_mprotect address size (protection permissions)).
End Provider.

(** ** The address space *)
(** [prot k p]: the protection of page number [p], if it is mapped; [byte k a]: what lies at an address. *)
Definition inside (pg address size p : Z) : Prop := address <= p * pg < address + size.
#[export] Instance inside_dec pg address size p : Decision (inside pg address size p).
Proof. unfold inside. apply _. Defined.
Class MmapLaws (K : Type) `{Arch} `{MmapCalls K} := {
  prot : K -> Z -> option Z; byte : K -> Z -> Z;
  mm_page : exists s, 0 <= s < usize_bits /\ m_sysconf_page = 2 ^ s;
  mm_map size pr k k1 r : m_mmap 0 size pr false k = (k1, r) -> 0 < size -> size mod m_sysconf_page = 0 -> match r with
    | Ok a => 0 < a /\ a mod m_sysconf_page = 0 /\ a + size <= usize_max /\ (forall p, inside m_sysconf_page a size p -> prot k p = None) /\
        (forall p, prot k1 p = if decide (inside m_sysconf_page a size p) then Some pr else prot k p) /\
        (forall x, byte k1 x = if decide (a <= x < a + size) then 0 else byte k x)
    | Err _ => (forall p, prot k1 p = prot k p) /\ (forall x, byte k1 x = byte k x) end;
  mm_fixed a size pr k k1 r : m_mmap a size pr true k = (k1, r) -> a mod m_sysconf_page = 0 -> 0 < size -> size mod m_sysconf_page = 0 ->
    (forall p, ~ inside m_sysconf_page a size p -> prot k1 p = prot k p) /\ (forall x, ~ (a <= x < a + size) -> byte k1 x = byte k x) /\
    match r with Ok _ => (forall p, inside m_sysconf_page a size p -> prot k1 p = Some pr) /\ (forall x, a <= x < a + size -> byte k1 x = 0) | Err _ => True end;
  mm_unmap a size k k1 r : m_munmap a size k = (k1, r) -> a mod m_sysconf_page = 0 -> 0 < size -> size mod m_sysconf_page = 0 ->
    (forall x, byte k1 x = byte k x) /\
    forall p, prot k1 p = match r with Ok _ => if decide (inside m_sysconf_page a size p) then None else prot k p | Err _ => prot k p end;
  mm_protect a size pr k k1 r : m_mprotect a size pr k = (k1, r) -> a mod m_sysconf_page = 0 -> 0 < size -> size mod m_sysconf_page = 0 ->
    (forall x, byte k1 x = byte k x) /\ (forall p, ~ inside m_sysconf_page a size p -> prot k1 p = prot k p) /\
    match r with Ok _ => forall p, inside m_sysconf_page a size p -> prot k1 p = Some pr | Err _ => True end;
  mm_advise a size k k1 r : m_madvise_dontneed a size k = (k1, r) -> a mod m_sysconf_page = 0 -> 0 < size -> size mod m_sysconf_page = 0 ->
    (forall p, prot k1 p = prot k p) /\ (forall x, ~ (a <= x < a + size) -> byte k1 x = byte k x) /\
    match r with Ok _ => forall x, a <= x < a + size -> byte k1 x = 0 | Err _ => True end;
  mm_store a v k : (forall p, prot (m_store a v k) p = prot k p) /\ (forall x, byte (m_store a v k) x = if decide (x = a) then v else byte k x);
}.

Section Space.
Context `{Arch} {K : Type} {C : MmapCalls K} {L : MmapLaws K}.
Notation P := m_sysconf_page.
Lemma page_spec : page = P /\ 0 < P /\ is_power_of_two P = true.
Proof.
  unfold page. destruct mm_page as (s & [Hs _] & ->). assert (0 < 2 ^ s) by (apply Z.pow_pos_nonneg; lia). destruct (Z.ltb_spec 0 (2 ^ s)); [| lia].
  split; [done |]. split; [done |]. apply is_power_of_two_spec. eauto.
Qed.
Lemma multiple_sub a b m : 0 < m -> a mod m = 0 -> b mod m = 0 -> (a - b) mod m = 0.
Proof. intros Hm Ha Hb. by rewrite Zminus_mod, Ha, Hb. Qed.
Lemma multiple_add a b m : 0 < m -> a mod m = 0 -> b mod m = 0 -> (a + b) mod m = 0.
Proof. intros Hm Ha Hb. by rewrite Zplus_mod, Ha, Hb. Qed.
(** Two powers of two: the larger is a multiple of the smaller. *)
Lemma power_multiple a : is_power_of_two a = true -> P <= a -> a mod P = 0.
Proof.
  intros (s & Hs & ->)%is_power_of_two_spec Hle. destruct mm_page as (t & [Ht _] & Hp). rewrite Hp in Hle |- *.
  assert (t <= s) as Hts by (destruct (Z.le_gt_cases t s); [done |]; assert (2 ^ s < 2 ^ t) by (apply Z.pow_lt_mono_r; lia); lia).
  assert (0 < 2 ^ t) by (apply Z.pow_pos_nonneg; lia). replace s with (s - t + t) by lia. rewrite Z.pow_add_r by lia. apply Z.mod_mul. lia.
Qed.
(** A multiple that is less than a multiple is less by a page. *)
Lemma multiple_gap a b : a mod P = 0 -> b mod P = 0 -> a < b -> a + P <= b.
Proof.
  pose proof page_spec as (_ & Hp & _). intros Ha Hb Hlt. assert (P <> 0) as Hn by lia. apply Z.mod_divide in Ha as [x ->]; [| done]. apply Z.mod_divide in Hb as [y ->]; [| done].
  assert (x < y) by (apply (Z.mul_lt_mono_pos_r P); done). assert ((x + 1) * P <= y * P) by (apply Z.mul_le_mono_nonneg_r; lia). lia.
Qed.
Lemma inside_byte a size x : a mod P = 0 -> size mod P = 0 -> a <= x < a + size <-> inside P a size (x / P).
Proof.
  pose proof page_spec as (_ & Hp & _). intros Ha Hs. unfold inside. assert (P <> 0) as Hn by lia. pose proof (Z.div_mod x P Hn) as Hx. pose proof (Z.mod_pos_bound x P Hp) as Hm.
  assert ((x / P * P) mod P = 0) as Hb by by apply Z.mod_mul. pose proof (multiple_add a size P Hp Ha Hs) as He. rewrite (Z.mul_comm P) in Hx.
  split; intros [H1 H2]; split; try lia.
  - destruct (Z.le_gt_cases a (x / P * P)) as [| Hlt]; [done |]. pose proof (multiple_gap _ _ Hb Ha Hlt). lia.
  - pose proof (multiple_gap _ _ Hb He H2). lia.
Qed.
(** A cut that takes nothing needs no call. *)
Lemma cut_spec a size k k1 r : (if size =? 0 then (k, Ok tt) else m_munmap a size k) = (k1, r) -> a mod P = 0 -> 0 <= size -> size mod P = 0 ->
  (forall x, byte k1 x = byte k x) /\ forall p, prot k1 p = match r with Ok _ => if decide (inside P a size p) then None else prot k p | Err _ => prot k p end.
Proof.
  intros E Ha H0 Hs. destruct (Z.eqb_spec size 0) as [-> | Hn]; [| eapply mm_unmap; (done || lia)].
  injection E as <- <-. split; [done |]. intros p. by rewrite decide_False by (unfold inside; lia).
Qed.
(** The alignment that the geometry uses is a multiple of the one that was asked for. *)
Lemma geometry_divides size alignment s a : geometry size alignment P = Some (s, a) -> alignment <> 0 -> a mod alignment = 0.
Proof.
  pose proof page_spec as (_ & HP & Hpow). unfold geometry. destruct (round_size size P); [| done]. destruct (Z.eqb_spec alignment 0); [done |]. simpl.
  destruct (is_power_of_two alignment) eqn:E; simpl; [| done]. destruct (checked_add _ _ _); [| done]. destruct (_ <? _); [done |]. intros [= <- <-] _.
  destruct (Z.max_spec alignment P) as [[Hlt ->] | [_ ->]]; [| by apply Z.mod_same].
  apply is_power_of_two_spec in E as (x & Hx & ->). apply is_power_of_two_spec in Hpow as (y & Hy & HPy). rewrite HPy in Hlt |- *. assert (x <= y) as Hxy by (apply (Z.pow_le_mono_r_iff 2); lia).
  replace y with (y - x + x) by lia. rewrite Z.pow_add_r by lia. apply Z.mod_mul. done.
Qed.
(** What a failed reservation may leave behind: nothing, unless the kernel refused to take the mapping back. *)
Definition refused_unmap (k1 : K) : Prop := exists a size k0 code, m_munmap a size k0 = (k1, Err code).
Lemma give_back lo tot a size k k3 k4 r : m_munmap a size k3 = (k4, r) -> a mod P = 0 -> 0 < size -> size mod P = 0 -> lo <= a -> a + size <= lo + tot ->
  (forall p, inside P lo tot p -> prot k p = None) -> (forall p, ~ inside P lo tot p -> prot k3 p = prot k p) ->
  (forall p, inside P lo tot p -> ~ inside P a size p -> prot k3 p = None) ->
  (forall p, prot k p <> None -> prot k4 p = prot k p) /\ (forall x, byte k4 x = byte k3 x) /\ ((forall p, prot k4 p = prot k p) \/ refused_unmap k4).
Proof.
  intros E Ha Hs Hsm Hlo Hhi Hfree Hout Hin. assert (forall p, inside P a size p -> inside P lo tot p) as Hsub by (unfold inside; lia).
  pose proof (mm_unmap _ _ _ _ _ E Ha Hs Hsm) as [Hbytes Hu]. destruct r as [u | code].
  - assert (forall p, prot k4 p = prot k p) as Hall; [| split; [done |]; split; [done | by left]]. intros p. rewrite Hu. case_decide as Hd; [symmetry; auto |].
    destruct (decide (inside P lo tot p)); [rewrite Hin, Hfree by done; done | auto].
  - split; [| split; [done | right; by exists a, size, k3, code]]. intros p Hp. rewrite Hu. apply Hout. intros Hd. by apply Hp, Hfree.
Qed.

(** A reservation takes exactly what was asked for.  For a size and an alignment as the front end computes them: on success
    the address has the alignment, the pages of the range were free and are now inaccessible, and every other page of the
    address space, the ones mapped for the alignment included, is as it was; so the checks that the front end makes on the
    answer pass.  After a failure every page is as it was, unless the kernel refused an [munmap]; and no page that was
    mapped before is touched on any path. *)
Lemma reserve_exact size alignment k k1 r : 0 < size -> size mod P = 0 -> is_power_of_two alignment = true -> P <= alignment -> size + (alignment - P) <= usize_max ->
  reserve size alignment k = (k1, r) ->
  (forall p, prot k p <> None -> prot k1 p = prot k p) /\ (forall x, prot k (x / P) <> None -> byte k1 x = byte k x) /\
  match r with
  | Ok a => a <> 0 /\ a mod alignment = 0 /\ a + size <= usize_max /\ (forall p, inside P a size p -> prot k p = None) /\
      (forall p, prot k1 p = if decide (inside P a size p) then Some PROT_NONE else prot k p) /\ (forall x, a <= x < a + size -> byte k1 x = 0)
  | Err e => e = EOs /\ ((forall p, prot k1 p = prot k p) \/ refused_unmap k1)
  end.
Proof.
  intros Hs Hsm Ha Hle Hmax. pose proof page_spec as (Hpage & Hp & _). unfold reserve. rewrite Hpage. pose proof (multiple_gap 0 size (Zmod_0_l _) Hsm Hs) as Hbig.
  pose proof (power_multiple _ Ha Hle) as Ham. apply is_power_of_two_spec in Ha as (s & Hs0 & Hal).
  assert (checked_add usize_max size (alignment - P) = Some (size + (alignment - P))) as -> by (apply checked_add_Some; lia). set (total := size + (alignment - P)).
  assert (total mod P = 0) as Htm by (apply multiple_add; [done | done | apply multiple_sub; [done | done | apply Z.mod_same; lia]]).
  destruct (m_mmap 0 total PROT_NONE false k) as [k2 [raw | code]] eqn:E; apply mm_map in E; try (unfold total; lia); try done.
  2: { destruct E as [E Eb]. intros [= <- <-]. split; [by auto |]. split; [by auto |]. split; [done | by left]. }
  destruct E as (Hraw0 & Hraw & Hend & Hfree & Hprot & Hbyte).
  assert (checked_add usize_max raw (alignment - 1) = Some (raw + (alignment - 1))) as -> by (apply checked_add_Some; unfold total in Hend; lia).
  rewrite Hal, mask_down_pow2 by done. rewrite <- Hal. set (a := raw + (alignment - 1) - (raw + (alignment - 1)) mod alignment).
  assert (0 < alignment) as Hapos by lia. pose proof (Z.mod_pos_bound (raw + (alignment - 1)) alignment Hapos) as Hmod.
  assert (a mod alignment = 0) as Haa by (unfold a; rewrite Zminus_mod, Z.mod_mod, Z.sub_diag by lia; done).
  assert (a mod P = 0) as Hap.
  { apply Z.mod_divide in Haa as [q ->]; [| lia]. apply Z.mod_divide in Ham as [q' ->]; [| lia]. rewrite Z.mul_assoc. apply Z.mod_mul. lia. }
  assert (raw <= a /\ a + P <= raw + alignment) as [Hlow Hhigh] by (split; [unfold a; lia |]; apply multiple_gap; [done | by apply multiple_add | unfold a; lia]).
  set (prefix := a - raw). set (suffix := total - prefix - size). assert (0 <= suffix) as Hsuf by (unfold suffix, prefix, total; lia).
  assert (prefix mod P = 0) as Hprm by (by apply multiple_sub). assert (suffix mod P = 0) as Hsum by (apply multiple_sub; [done | by apply multiple_sub | done]).
  assert (forall p, prot k p <> None -> ~ inside P raw total p) as Hold by (intros p Hn Hd; by apply Hn, Hfree).
  assert (forall x, prot k (x / P) <> None -> byte k2 x = byte k x) as Hkeep by (intros x Hx; rewrite Hbyte, decide_False; [done |]; rewrite (inside_byte raw total x Hraw Htm); auto).
  destruct (if prefix =? 0 then (k2, Ok tt) else m_munmap raw prefix k2) as [k3 r3] eqn:E3. apply cut_spec in E3 as [Hb3 Hp3]; [| done | unfold prefix; lia | done].
  destruct r3 as [u | code].
  2: { destruct (m_munmap raw total k3) as [k4 r4] eqn:E4. intros [= <- <-].
       destruct (give_back raw total raw total k k3 k4 r4 E4 Hraw) as (G1 & G3 & G2); [unfold total; lia | done | lia | lia | done | | done |].
       - intros p Hd. rewrite Hp3, Hprot. by rewrite decide_False.
       - split; [done |]. split; [| done]. intros x Hx. rewrite G3, Hb3. auto. }
  destruct (if suffix =? 0 then (k3, Ok tt) else m_munmap (a + size) suffix k3) as [k4 r4] eqn:E4. apply cut_spec in E4 as [Hb4 Hp4]; [| by apply multiple_add | done | done].
  destruct r4 as [u' | code].
  2: { destruct (m_munmap a (size + suffix) k4) as [k5 r5] eqn:E5. intros [= <- <-].
       destruct (give_back raw total a (size + suffix) k k4 k5 r5 E5 Hap) as (G1 & G3 & G2); [lia | by apply multiple_add | lia | unfold suffix, prefix; lia | done | | |
         split; [done |]; split; [| done]; intros x Hx; rewrite G3, Hb4, Hb3; auto].
       - intros p Hd. rewrite Hp4, Hp3, Hprot. rewrite !decide_False; [done | done |]. unfold inside, prefix, total in *. lia.
       - intros p Hd Hn. rewrite Hp4, Hp3. rewrite decide_True; [done |]. unfold inside, suffix, prefix, total in *. lia. }
  intros [= <- <-].
  assert (forall p, prot k4 p = if decide (inside P a size p) then Some PROT_NONE else prot k p) as Hfinal.
  { intros p. rewrite Hp4, Hp3, Hprot. repeat case_decide; try done; unfold inside, suffix, prefix, total in *; try lia; symmetry; apply Hfree; unfold inside, total; lia. }
  split; [intros p Hn; rewrite Hfinal, decide_False; [done |]; specialize (Hold p Hn); unfold inside, suffix, prefix, total in *; lia |].
  split; [intros x Hx; rewrite Hb4, Hb3; auto |].
  split; [lia |]. split; [done |]. split; [unfold suffix, prefix, total in *; lia |]. split; [intros p Hd; apply Hfree; unfold inside, suffix, prefix, total in *; lia |]. split; [done |].
  intros x Hx. rewrite Hb4, Hb3, Hbyte, decide_True; [done |]. unfold suffix, prefix, total in *. lia.
Qed.

(** ** The abstract space *)
(** What the consumer is promised of a page it has: it is reserved, or committed with some contents. *)
Inductive Page := Reserved | Committed (data : Z -> Z).
Definition Space : Type := Z -> option Page.
Definition zeroed : Z -> Z := fun _ => 0.
Definition on_range (a size : Z) (f : option Page -> option Page) (A : Space) : Space := fun p => if decide (inside P a size p) then f (A p) else A p.
Definition a_reserve a size : Space -> Space := on_range a size (fun _ => Some Reserved).
Definition a_commit a size : Space -> Space := on_range a size (fun o => match o with Some Reserved => Some (Committed zeroed) | o => o end).
Definition a_decommit a size : Space -> Space := on_range a size (fun _ => Some Reserved).
Definition a_release a size : Space -> Space := on_range a size (fun _ => None).
Definition a_reset a size : Space -> Space := on_range a size (fun o => match o with Some (Committed _) => Some (Committed zeroed) | o => o end).
Definition a_store x v (A : Space) : Space := fun p =>
  if decide (p = x / P) then match A p with Some (Committed d) => Some (Committed (fun o => if decide (o = x mod P) then v else d o)) | o => o end else A p.

(** How the kernel shows it.  A reserved page has no access and holds zeros, so that committing it needs no more than a
    change of its protection. *)
Definition shows (k : K) (p : Z) (o : option Page) : Prop :=
  match o with
  | None => True
  | Some Reserved => prot k p = Some PROT_NONE /\ forall x, x / P = p -> byte k x = 0
  | Some (Committed d) => prot k p = Some READ_WRITE /\ forall x, x / P = p -> byte k x = d (x mod P)
  end.
Definition related (k : K) (A : Space) : Prop := forall p, shows k p (A p).
Record range_ok (A : Space) (a size : Z) : Prop := { rk_aligned : a mod P = 0; rk_size : 0 < size; rk_pages : size mod P = 0; rk_owned p : inside P a size p -> A p <> None }.
(** One step of the consumer: a call of the provider that succeeds, or a store to a page that is committed. *)
Inductive vm_step : K * Space -> K * Space -> Prop :=
| VmReserve k A size alignment k1 a : 0 < size -> size mod P = 0 -> is_power_of_two alignment = true -> P <= alignment -> size + (alignment - P) <= usize_max ->
    vm_reserve size alignment k = (k1, Ok a) -> vm_step (k, A) (k1, a_reserve a size A)
| VmCommit k A a size k1 : range_ok A a size -> vm_commit a size k = (k1, Ok tt) -> vm_step (k, A) (k1, a_commit a size A)
| VmDecommit k A a size k1 : range_ok A a size -> vm_decommit a size k = (k1, Ok tt) -> vm_step (k, A) (k1, a_decommit a size A)
| VmRelease k A a size k1 : range_ok A a size -> vm_release a size k = (k1, Ok tt) -> vm_step (k, A) (k1, a_release a size A)
| VmReset k A a size k1 : range_ok A a size -> vm_reset a size k = (k1, Ok tt) -> vm_step (k, A) (k1, a_reset a size A)
| VmStore k A x v d : A (x / P) = Some (Committed d) -> vm_step (k, A) (m_store x v k, a_store x v A).
Lemma shows_same k k1 p o : (o <> None -> prot k1 p = prot k p /\ forall x, x / P = p -> byte k1 x = byte k x) -> shows k p o -> shows k1 p o.
Proof. unfold shows. intros He. destruct o as [[| d] |]; [| | done]; destruct (He ltac:(done)) as [-> Hb]; intros [H1 H2]; (split; [done |]); intros x Hx; rewrite Hb by done; auto. Qed.
Lemma on_range_related k k1 A a size f : a mod P = 0 -> size mod P = 0 -> related k A ->
  (forall p, ~ inside P a size p -> prot k1 p = prot k p) -> (forall x, ~ (a <= x < a + size) -> byte k1 x = byte k x) ->
  (forall p, inside P a size p -> shows k1 p (f (A p))) -> related k1 (on_range a size f A).
Proof.
  intros Ha Hs Hr Hp Hb Hin p. unfold on_range. case_decide as Hd; [auto |]. apply (shows_same k); [| apply Hr]. intros _. split; [auto |].
  intros x Hx. apply Hb. rewrite (inside_byte a size x Ha Hs). by rewrite Hx.
Qed.
Lemma vm_step_related k A k1 A1 : vm_step (k, A) (k1, A1) -> related k A -> related k1 A1.
Proof.
  intros Hstep Hr. inversion Hstep as [k' A' size alignment k1' a Hs Hsm Ha Hle Hmax E | k' A' a size k1' [H1 H2 H3 H4] E | k' A' a size k1' [H1 H2 H3 H4] E | k' A' a size k1' [H1 H2 H3 H4] E | k' A' a size k1' [H1 H2 H3 H4] E | k' A' x v d Hd]; subst; clear Hstep; simpl in *.
  - apply reserve_exact in E as (Hold & Hkeep & Ha0 & Haa & Hend & Hfree & Hprot & Hzero); try done.
    assert (a mod P = 0) as Hap.
    { pose proof (power_multiple _ Ha Hle) as Ham. pose proof page_spec as (_ & Hp & _). assert (alignment <> 0) by lia. assert (P <> 0) by lia.
      apply Z.mod_divide in Haa as [q ->]; [| done]. apply Z.mod_divide in Ham as [q' Hq]; [| done]. rewrite Hq, Z.mul_assoc. by apply Z.mod_mul. }
    intros p. unfold a_reserve, on_range. case_decide as Hd.
    + split; [rewrite Hprot; by rewrite decide_True |]. intros x Hx. apply Hzero. apply (inside_byte a size x Hap Hsm). by rewrite Hx.
    + apply (shows_same k); [| apply Hr]. intros Hn. assert (prot k p <> None) as Hmapped by (specialize (Hr p); destruct (A p) as [[| d] |]; simpl in Hr; [destruct Hr as [-> _]; done | destruct Hr as [-> _]; done | done]).
      split; [auto |]. intros x Hx. apply Hkeep. by rewrite Hx.
  - unfold commit, os in E. destruct (m_mprotect a size READ_WRITE k) as [k2 [u | code]] eqn:Em; [| done]. injection E as ->. apply mm_protect in Em as (Hb & Ho & Hi); try done.
    apply (on_range_related k); try done. intros p Hd. specialize (Hr p). specialize (Hi p Hd). specialize (H4 p Hd). destruct (A p) as [[| d] |]; simpl in *; [| | done];
      destruct Hr as [_ Hr]; (split; [done |]); intros x Hx; rewrite Hb; auto.
  - unfold decommit in E. destruct (m_mmap a size PROT_NONE true k) as [k2 [u | code]] eqn:Em; [| done]. injection E as ->. apply mm_fixed in Em as (Ho & Hb & Hi & Hz); try done.
    apply (on_range_related k); try done. intros p Hd. split; [by apply Hi |]. intros x Hx. apply Hz. apply (inside_byte a size x H1 H3). by rewrite Hx.
  - unfold release, os in E. destruct (m_munmap a size k) as [k2 [u | code]] eqn:Em; [| done]. injection E as ->. apply mm_unmap in Em as (Hb & Hp); try done.
    apply (on_range_related k); try done. intros p Hd. rewrite Hp. by rewrite decide_False.
  - unfold reset, os in E. destruct (m_madvise_dontneed a size k) as [k2 [u | code]] eqn:Em; [| done]. injection E as ->. apply mm_advise in Em as (Hp & Hb & Hz); try done.
    apply (on_range_related k); try done. intros p Hd. specialize (Hr p). specialize (H4 p Hd).
    assert (forall x, x / P = p -> byte k1 x = 0) as Hzero by (intros x Hx; apply Hz; apply (inside_byte a size x H1 H3); by rewrite Hx).
    destruct (A p) as [[| d] |]; simpl in *; [| | done]; rewrite Hp; destruct Hr as [-> _]; done.
  - destruct (mm_store x v k) as [Hp Hb]. intros p. unfold a_store. specialize (Hr p). case_decide as Hd'; [subst p; rewrite Hd in * |].
    + simpl in *. rewrite Hp. destruct Hr as [-> Hr]. split; [done |]. intros y Hy. rewrite Hb. pose proof page_spec as (_ & HP & _). assert (P <> 0) as HPn by lia.
      destruct (decide (y = x)) as [-> | Hne]; [by rewrite decide_True |]. rewrite decide_False; [auto |]. intros Hm. apply Hne. rewrite (Z.div_mod y P HPn), (Z.div_mod x P HPn). by rewrite Hy, Hm.
    + apply (shows_same k); [| done]. intros _. split; [done |]. intros y Hy. rewrite Hb. rewrite decide_False; [done |]. intros ->. done.
Qed.

Lemma vm_steps_related s s1 : rtc vm_step s s1 -> related s.1 s.2 -> related s1.1 s1.2.
Proof. induction 1 as [s | [k A] [k2 A2] s3 Hs _ IH]; [done |]. intros Hr. apply IH. by eapply vm_step_related. Qed.

(** C22: the provider implements reserved and committed memory.  Along every sequence of calls that succeed and of stores, with
    ranges that the consumer owns, the kernel shows what the abstract space promises: a reserved page cannot be accessed;
    a page that is committed reads zero until it is written, also when it was committed and decommitted before; committing
    it again keeps its data; pages outside the range of a call keep theirs. *)
Theorem linux_vm_refines k A k1 A1 : related k A -> rtc vm_step (k, A) (k1, A1) -> related k1 A1 /\
  forall x d, A1 (x / P) = Some (Committed d) -> prot k1 (x / P) = Some READ_WRITE /\ byte k1 x = d (x mod P).
Proof.
  intros Hr Hs. pose proof (vm_steps_related _ _ Hs Hr) as Hr1. simpl in Hr1.
  split; [done |]. intros x d Hx. specialize (Hr1 (x / P)). rewrite Hx in Hr1. simpl in Hr1. destruct Hr1 as [H1 H2]. auto.
Qed.

(** The C function that reserves memory, on this provider.  The status is [OK] exactly when the provider succeeded: no
    check of the front end rejects its answer.  Then the caller's cell holds an address with the alignment that was asked
    for, at least the size that was asked for is inaccessible there, on pages that were free; and nothing else in the
    address space has changed, the surplus mapped for the alignment included.  Otherwise the cell holds NULL and every
    page is as it was, unless the kernel refused an [munmap].  No path touches a page that was mapped before. *)
Theorem linux_reserve_served size alignment out (f : Front K) f1 st : 0 <= size <= usize_max -> 0 <= alignment <= usize_max -> aligned_output align_of_usize out = true ->
  Boundary.reserve size alignment 0 out f = (f1, st) ->
  (forall p, prot (provider f) p <> None -> prot (provider f1) p = prot (provider f) p) /\
  if decide (st = OK) then exists a s, cells f1 !! out = Some a /\ a <> 0 /\ (alignment <> 0 -> a mod alignment = 0) /\ size <= s /\
      (forall p, inside P a s p -> prot (provider f) p = None) /\
      (forall p, prot (provider f1) p = if decide (inside P a s p) then Some PROT_NONE else prot (provider f) p)
  else cells f1 !! out = Some 0 /\ ((forall p, prot (provider f1) p = prot (provider f) p) \/ refused_unmap (provider f1)).
Proof.
  intros Hs Ha Hout. unfold Boundary.reserve. rewrite Hout. simpl negb. cbv iota. change (negb (0 =? 0)) with false. cbv iota. change vm_page_size with page. pose proof page_spec as (Hpage & HP & _). rewrite Hpage.
  destruct (geometry size alignment P) as [[s a] |] eqn:Hg.
  2: { unfold record. intros [= <- <-]. simpl. split; [done |]. rewrite lookup_insert_eq. split; [done | by left]. }
  assert (alignment <> 0 -> a mod alignment = 0) as Hdiv by (by eapply geometry_divides).
  apply geometry_Some in Hg as ([Hs0 Hsz] & Hsm & [_ HPa] & Hal & Hpow & Hmax); [| done | done]. pose proof isize_max_lt.
  unfold call. change vm_reserve with reserve. simpl provider. destruct (reserve s a (provider f)) as [k1 r] eqn:E. pose proof E as E'.
  apply reserve_exact in E as (Hold & _ & Hr); try done; try lia. destruct r as [x | e].
  - destruct Hr as (Hx0 & Hxa & Hend & Hfree & Hprot & _). rewrite Hxa. assert (checked_add usize_max x s = Some (x + s)) as -> by by apply checked_add_Some.
    destruct (Z.eqb_spec x 0); [done |]. simpl. intros [= <- <-]. simpl. split; [done |]. exists x, s. rewrite lookup_insert_eq. split; [done |]. split; [done |]. split; [| done].
    intros Hn. specialize (Hdiv Hn). apply Z.mod_divide in Hxa as [q ->]; [| lia]. apply Z.mod_divide in Hdiv as [q' ->]; [| done]. rewrite Z.mul_assoc. by apply Z.mod_mul.
  - destruct Hr as [-> Hr]. simpl. intros [= <- <-]. simpl. split; [done |]. rewrite lookup_insert_eq. done.
Qed.
End Space.

(** ** A small address space *)
(** Pages of 4096 bytes; everything from page [v_limit] on is free. *)
Record Flat := mkFlat { v_prot : Z -> option Z; v_byte : Z -> Z; v_limit : Z }.
Definition flat_prot (k : Flat) (p : Z) : option Z := if p <? v_limit k then v_prot k p else None.
Definition set_range (a size : Z) (o : option Z) (k : Flat) : Flat :=
  mkFlat (fun p => if decide (inside 4096 a size p) then o else flat_prot k p) (v_byte k) (Z.max (v_limit k) ((a + size) / 4096)).
Definition zero_range (a size : Z) (k : Flat) : Flat := mkFlat (v_prot k) (fun x => if decide (a <= x < a + size) then 0 else v_byte k x) (v_limit k).
#[export] Instance flat_calls : MmapCalls Flat := {|
  m_sysconf_page := 4096;
  m_mmap a size pr fixed k :=
    if (fixed : bool) then (zero_range a size (set_range a size (Some pr) k), Ok a) else
    let a := Z.max 1 (v_limit k) * 4096 in
    if a + size <=? 2 ^ 47 then (zero_range a size (set_range a size (Some pr) k), Ok a) else (k, Err ENOMEM);
  m_munmap a size k := (set_range a size None k, Ok tt); m_mprotect a size pr k := (set_range a size (Some pr) k, Ok tt);
  m_madvise_dontneed a size k := (zero_range a size k, Ok tt);
  m_store a v k := mkFlat (v_prot k) (fun x => if decide (x = a) then v else v_byte k x) (v_limit k) |}.
Lemma set_range_spec a size o k p : a mod 4096 = 0 -> size mod 4096 = 0 -> flat_prot (set_range a size o k) p = if decide (inside 4096 a size p) then o else flat_prot k p.
Proof.
  intros Ha Hs. assert ((a + size) mod 4096 = 0) as Hm by (by rewrite Zplus_mod, Ha, Hs). apply Z.mod_divide in Hm as [q Hq]; [| done].
  unfold flat_prot at 1. unfold set_range. simpl. rewrite Hq, Z.div_mul by done. destruct (Z.ltb_spec p (Z.max (v_limit k) q)) as [Hl | Hl]; [done |].
  case_decide as Hd; unfold inside in *; [lia |]. unfold flat_prot. destruct (Z.ltb_spec p (v_limit k)); [lia | done].
Qed.
#[export] Instance flat_laws : @MmapLaws Flat arch64 flat_calls.
Proof.
  refine (@Build_MmapLaws Flat arch64 flat_calls flat_prot v_byte _ _ _ _ _ _ _).
  - exists 12. split; [simpl; lia | done].
  - intros size pr k k1 r E Hs Hm. simpl in E. set (a := Z.max 1 (v_limit k) * 4096) in *. assert (a mod 4096 = 0) as Ha by (by apply Z.mod_mul). change m_sysconf_page with 4096 in *.
    destruct (Z.leb_spec (a + size) (2 ^ 47)); injection E as <- <-; [| done]. split; [unfold a; lia |]. split; [done |]. split; [unfold usize_max; simpl; lia |].
    split; [| split; [intros p; change (flat_prot (zero_range a size ?k) p) with (flat_prot k p); by apply set_range_spec | done]].
    intros p [Hp _]. unfold flat_prot. destruct (Z.ltb_spec p (v_limit k)); [unfold a in Hp; lia | done].
  - intros a size pr k k1 r E Ha Hs Hm. simpl in E. injection E as <- <-. change m_sysconf_page with 4096 in *.
    assert (forall p, flat_prot (zero_range a size (set_range a size (Some pr) k)) p = if decide (inside 4096 a size p) then Some pr else flat_prot k p) as Hp by (intros p; by apply set_range_spec).
    split; [intros p Hn; rewrite Hp; by rewrite decide_False |]. split; [intros x Hn; simpl; by rewrite decide_False |]. split; [intros p Hn; rewrite Hp; by rewrite decide_True | intros x Hn; simpl; by rewrite decide_True].
  - intros a size k k1 r E Ha Hs Hm. simpl in E. injection E as <- <-. split; [done |]. intros p. by apply set_range_spec.
  - intros a size pr k k1 r E Ha Hs Hm. simpl in E. injection E as <- <-. split; [done |]. change m_sysconf_page with 4096 in *.
    split; intros p Hn; rewrite set_range_spec by done; [by rewrite decide_False | by rewrite decide_True].
  - intros a size k k1 r E Ha Hs Hm. simpl in E. injection E as <- <-. split; [done |]. split; intros x Hn; simpl; [by rewrite decide_False | by rewrite decide_True].
  - intros a v k. done.
Defined.
Definition empty_flat : Flat := mkFlat (fun _ => None) (fun _ => 7) 5.
Lemma linux_reserve_served_witness : exists f1 a, @Boundary.reserve arch64 Flat (@linux_vm arch64 Flat flat_calls) 5000 65536 0 64 (mkFront (fun _ => 0) ∅ empty_flat) = (f1, OK) /\
  cells f1 !! 64 = Some a /\ a <> 0 /\ a mod 65536 = 0.
Proof.
  destruct (@Boundary.reserve arch64 Flat (@linux_vm arch64 Flat flat_calls) 5000 65536 0 64 (mkFront (fun _ => 0) ∅ empty_flat)) as [f1 st] eqn:E.
  assert (st = OK) as -> by (apply (f_equal snd) in E; simpl in E; rewrite <- E; vm_compute; reflexivity).
  destruct (@linux_reserve_served arch64 Flat flat_calls flat_laws 5000 65536 64 _ f1 OK ltac:(vm_compute; split; discriminate) ltac:(vm_compute; split; discriminate) eq_refl E) as [_ H].
  rewrite decide_True in H by done. destruct H as (a & s & Hc & Ha & Hm & _). exists f1, a. split; [done |]. split; [done |]. split; [done | by apply Hm].
Defined.
(** A page is committed, written, decommitted and committed again: it reads zero. *)
Lemma flat_range (A : Space) : A 5 <> None -> @range_ok Flat flat_calls A 20480 4096.
Proof. intros Ha. split; [done | done | done |]. intros p [H1 H2]. change m_sysconf_page with 4096 in *. by replace p with 5 by lia. Qed.
Lemma linux_vm_refines_witness : exists k1, rtc (@vm_step arch64 Flat flat_calls) (empty_flat, fun _ => None)
    (k1, a_commit 20480 4096 (a_decommit 20480 4096 (a_store 20485 9 (a_commit 20480 4096 (a_reserve 20480 4096 (fun _ => None)))))) /\
  @byte Flat arch64 flat_calls flat_laws k1 20485 = 0.
Proof.
  assert (exists k1, rtc (@vm_step arch64 Flat flat_calls) (empty_flat, fun _ => None)
    (k1, a_commit 20480 4096 (a_decommit 20480 4096 (a_store 20485 9 (a_commit 20480 4096 (a_reserve 20480 4096 (fun _ => None))))))) as [k1 Hr].
  { eexists. eapply rtc_l; [eapply (@VmReserve arch64 Flat flat_calls _ _ 4096 4096); [lia | done | done | done | vm_compute; discriminate | reflexivity] |].
    eapply rtc_l; [eapply VmCommit; [apply flat_range; done | reflexivity] |]. eapply rtc_l; [by eapply (VmStore _ _ 20485 9) |].
    eapply rtc_l; [eapply VmDecommit; [apply flat_range; done | reflexivity] |]. eapply rtc_l; [eapply VmCommit; [apply flat_range; done | reflexivity] |]. apply rtc_refl. }
  exists k1. split; [exact Hr |].
  assert (@related arch64 Flat flat_calls flat_laws empty_flat (fun _ => None)) as H0 by (intros p; done).
  destruct (@linux_vm_refines arch64 Flat flat_calls flat_laws _ _ _ _ H0 Hr) as [_ H]. destruct (H 20485 zeroed) as [_ Hb]; [reflexivity | exact Hb].
Defined.
