(* ===== verification/LinuxMutex.v ===== *)
(** * LinuxMutex.v: mutexes of the Linux port

    [Mutexes] of [src/crates/dotnet-pal-linux/src/linux.rs].  A mutex is a pthread mutex with three words beside it: how
    many acquisitions there are or are awaited, who holds it, and how often.  The threads run concurrently and the words
    are read and written one at a time, so a call is a sequence of accesses, each of them one step: [advance] is the next
    access of a thread.  The pthread functions are steps too; they may fail with any error number, and then leave the
    native mutex as it was.

    The theorem: however the threads interleave, the mutex excludes, its words do not overflow, misuse is refused, and
    [destroy] answers [Busy] as long as a thread holds the mutex or waits for it, so that the native mutex is never
    destroyed while it is locked and the block is never freed under a thread that still uses it ([linux_mutex_correct]). *)
From S2P Require Import Prelude Port Libc.
Import Errno.
Local Open Scope Z_scope.
Local Open Scope pal_scope.

(** [native] is the thread that has locked the pthread mutex and how often; [initialized] and [block] say whether the
    pthread mutex and the memory of the object still exist. *)
Record Mutex := mkMutex { native : option (Z * Z); users : Z; owner : Z; depth : Z; recursive : bool; initialized : bool; block : bool }.
Definition set_native v m := mkMutex v (users m) (owner m) (depth m) (recursive m) (initialized m) (block m).
Definition set_users v m := mkMutex (native m) v (owner m) (depth m) (recursive m) (initialized m) (block m).
Definition set_owner v m := mkMutex (native m) (users m) v (depth m) (recursive m) (initialized m) (block m).
Definition set_depth v m := mkMutex (native m) (users m) (owner m) v (recursive m) (initialized m) (block m).
Definition set_initialized v m := mkMutex (native m) (users m) (owner m) (depth m) (recursive m) v (block m).
Definition set_block v m := mkMutex (native m) (users m) (owner m) (depth m) (recursive m) (initialized m) v.
Definition mutex_new (recursive : bool) : Mutex := mkMutex None 0 0 0 recursive true true.

(** ** The pthread mutex, recursive or error-checking

    [rc] is the error number with which the call fails, 0 when it does not; [None] is a thread that blocks. *)
Definition native_lock (me rc : Z) (m : Mutex) : option (Mutex * Z) :=
  if negb (rc =? 0) then Some (m, rc) else
  match native m with
  | None => Some (set_native (Some (me, 1)) m, 0)
  | Some (t, n) => if t =? me then if recursive m then Some (set_native (Some (t, n + 1)) m, 0) else Some (m, EDEADLK) else None
  end.
Definition native_unlock (me rc : Z) (m : Mutex) : Mutex * Z :=
  if negb (rc =? 0) then (m, rc) else
  match native m with
  | Some (t, n) => if t =? me then (set_native (if n =? 1 then None else Some (t, n - 1)) m, 0) else (m, EPERM)
  | None => (m, EPERM)
  end.
Definition native_destroy (rc : Z) (m : Mutex) : Mutex * Z := if negb (rc =? 0) then (m, rc) else (set_initialized false m, 0).

(** ** The calls, access by access *)
Inductive Pc :=
| Idle
| LockOwner | LockDepth | LockUsers | LockIncrement (current : Z) | LockNative | LockCount | LockStore | LockUndo (rc : Z)
| UnlockOwner | UnlockCount | UnlockStore | UnlockNative | UnlockUsers | UnlockRecount (rc : Z) | UnlockRestore (rc : Z)
| DestroyUsers | DestroyNative | DestroyFree.
#[export] Instance Pc_eq_dec : EqDecision Pc.
Proof. solve_decision. Defined.
Inductive Next := Go (pc : Pc) | Done (r : Result unit).
Section Calls.
Context `{Arch}.
(** The accesses of [lock]; [me] is [pthread_self], [weak] a compare-exchange that fails for no reason. *)
Definition lock (me rc : Z) (weak : bool) (m : Mutex) (pc : Pc) : option (Mutex * Next) :=
  match pc with
  | LockOwner => Some (m, Go (if owner m =? me then LockDepth else LockUsers))
  | LockDepth => Some (m, if negb (recursive m) || (depth m =? usize_max) then Done (Err EOs) else Go LockUsers)
  | LockUsers => Some (m, Go (LockIncrement (users m)))
  | LockIncrement current =>
      match checked_add usize_max current 1 with
      | None => Some (m, Done (Err EOs))
      | Some next => if (users m =? current) && negb weak then Some (set_users next m, Go LockNative) else Some (m, Go (LockIncrement (users m)))
      end
  | LockNative => '(m, rc) ← native_lock me rc m; Some (m, Go (if rc =? 0 then LockCount else LockUndo rc))
  | LockCount => Some (set_depth (depth m + 1) m, Go LockStore)
  | LockStore => Some (set_owner me m, Done (Ok tt))
  | LockUndo rc => Some (set_users (users m - 1) m, Done (native_status rc))
  | _ => None
  end.
Definition unlock (me rc : Z) (m : Mutex) (pc : Pc) : option (Mutex * Next) :=
  match pc with
  | UnlockOwner => Some (m, if owner m =? me then Go UnlockCount else Done (Err EOs))
  | UnlockCount => Some (set_depth (depth m - 1) m, Go UnlockStore)
  | UnlockStore => Some (if depth m =? 0 then set_owner 0 m else m, Go UnlockNative)
  | UnlockNative => let '(m, rc) := native_unlock me rc m in Some (m, Go (if rc =? 0 then UnlockUsers else UnlockRecount rc))
  | UnlockUsers => Some (set_users (users m - 1) m, Done (Ok tt))
  | UnlockRecount rc => Some (set_depth (depth m + 1) m, Go (UnlockRestore rc))
  | UnlockRestore rc => Some (set_owner me m, Done (native_status rc))
  | _ => None
  end.
Definition destroy (rc : Z) (m : Mutex) (pc : Pc) : option (Mutex * Next) :=
  match pc with
  | DestroyUsers => Some (m, if negb (users m =? 0) then Done (Err EBusy) else Go DestroyNative)
  | DestroyNative => let '(m, rc) := native_destroy rc m in Some (m, if rc =? 0 then Go DestroyFree else Done (native_status rc))
  | DestroyFree => Some (set_block false m, Done (Ok tt))
  | _ => None
  end.
Inductive Op := OpLock | OpUnlock | OpDestroy.
Definition op_of (pc : Pc) : option Op :=
  match pc with
  | Idle => None
  | LockOwner | LockDepth | LockUsers | LockIncrement _ | LockNative | LockCount | LockStore | LockUndo _ => Some OpLock
  | UnlockOwner | UnlockCount | UnlockStore | UnlockNative | UnlockUsers | UnlockRecount _ | UnlockRestore _ => Some OpUnlock
  | DestroyUsers | DestroyNative | DestroyFree => Some OpDestroy
  end.
Definition advance (me rc : Z) (weak : bool) (m : Mutex) (pc : Pc) : option (Mutex * Next) :=
  match op_of pc with
  | Some OpLock => lock me rc weak m pc
  | Some OpUnlock => unlock me rc m pc
  | Some OpDestroy => destroy rc m pc
  | None => None
  end.

(** ** The threads

    Each thread is at its next access and has locked the mutex a number of times more than unlocked, by the results it was
    given. *)
Notation Thread := (Pc * Z)%type.
Notation Threads := (gmap Z Thread).
Definition gain (pc : Pc) (r : Result unit) : Z := match op_of pc, r with Some OpLock, Ok _ => 1 | Some OpUnlock, Ok _ => -1 | _, _ => 0 end.
Definition settle (x : Thread) (next : Next) : Thread := match next with Go pc => (pc, x.2) | Done r => (Idle, x.2 + gain x.1 r) end.
Definition destroying (pc : Pc) : bool := match op_of pc with Some OpDestroy => true | _ => false end.
(** A thread in front of its acquisition, in an unlock of what it does not hold, or in [destroy]: the words do not show it. *)
Definition unseen (x : Thread) : bool :=
  match x.1 with LockOwner | LockDepth | LockUsers | LockIncrement _ => true | UnlockOwner => x.2 =? 0 | pc => destroying pc end.
(** The rules for the callers: a call needs the object, [destroy] is not called beside a call that the words do not show,
    and nothing but the unlock of a holder is called beside [destroy]. *)
Inductive step : Mutex * Threads -> Mutex * Threads -> Prop :=
| step_thread m ts t : t <> 0 -> ts !! t = None -> step (m, ts) (m, <[t := (Idle, 0)]> ts)
| step_lock m ts t n : ts !! t = Some (Idle, n) -> block m = true -> (forall u x, ts !! u = Some x -> destroying x.1 = false) -> step (m, ts) (m, <[t := (LockOwner, n)]> ts)
| step_unlock m ts t n : ts !! t = Some (Idle, n) -> 0 < n \/ block m = true /\ (forall u x, ts !! u = Some x -> destroying x.1 = false) -> step (m, ts) (m, <[t := (UnlockOwner, n)]> ts)
| step_destroy m ts t n : ts !! t = Some (Idle, n) -> block m = true -> (forall u x, ts !! u = Some x -> unseen x = false) -> step (m, ts) (m, <[t := (DestroyUsers, n)]> ts)
| step_run m ts t x rc weak m1 next : ts !! t = Some x -> advance t rc weak m x.1 = Some (m1, next) -> step (m, ts) (m1, <[t := settle x next]> ts).
Definition reachable (b : bool) (s : Mutex * Threads) : Prop := rtc step (mutex_new b, ∅) s.
End Calls.
Notation Thread := (Pc * Z)%type.
Notation Threads := (gmap Z Thread).

(** ** The invariant *)
Section Invariant.
Context `{Arch}.
Implicit Types (m : Mutex) (ts : Threads).
(** How often a thread has locked the native mutex. *)
Definition held m (t : Z) : Z := match native m with Some (u, c) => if u =? t then c else 0 | None => 0 end.
(** Where the native count, the depth and the count of users run ahead of or behind what the caller was told. *)
Definition ahead (pc : Pc) : Z := match pc with LockCount | LockStore => 1 | UnlockUsers => -1 | _ => 0 end.
Definition behind (pc : Pc) : Z := match pc with LockCount | UnlockStore | UnlockNative | UnlockRecount _ => 1 | _ => 0 end.
Definition awaited (pc : Pc) : Z := match pc with LockNative | LockCount | LockStore | LockUndo _ => 1 | _ => 0 end.
Definition weight (x : Thread) : Z := x.2 + awaited x.1.
Definition total ts : Z := map_fold (fun _ x sum => weight x + sum) 0 ts.
(** The word [owner] while [t] has locked the native mutex [c] times. *)
Definition owner_at (pc : Pc) (t c : Z) : Z :=
  match pc with LockCount | LockStore | UnlockNative | UnlockRecount _ | UnlockRestore _ => if c =? 1 then 0 else t | _ => t end.
Definition may_nest m (n : Z) : Prop := 0 < n -> recursive m = true /\ depth m < usize_max.
Definition at_pc m (pc : Pc) (n : Z) : Prop :=
  match pc with
  | Idle | LockOwner | LockStore | UnlockOwner | DestroyUsers | DestroyNative | DestroyFree => True
  | LockDepth | UnlockCount | UnlockUsers => 0 < n
  | UnlockStore | UnlockNative => 0 < n /\ depth m < usize_max
  | LockUsers | LockNative => may_nest m n
  | LockIncrement current => may_nest m n /\ 0 <= current
  | LockCount => depth m < usize_max
  | LockUndo rc => rc <> 0
  | UnlockRecount rc => rc <> 0 /\ 0 < n /\ depth m < usize_max
  | UnlockRestore rc => rc <> 0 /\ 0 < n
  end.
Record place m (t : Z) (x : Thread) : Prop := {
  pl_count : 0 <= x.2;
  pl_held : held m t = x.2 + ahead x.1;
  pl_words : 0 < held m t -> depth m = held m t - behind x.1 /\ owner m = owner_at x.1 t (held m t);
  pl_pc : at_pc m x.1 x.2;
}.
Record words_ok (s : Mutex * Threads) : Prop := {
  wo_users : users s.1 = total s.2;
  wo_bound : users s.1 <= usize_max;
  wo_depth : depth s.1 <= usize_max;
  wo_ids : s.2 !! 0 = None;
  wo_place t x : s.2 !! t = Some x -> place s.1 t x;
  wo_free : native s.1 = None -> depth s.1 = 0 /\ owner s.1 = 0;
  wo_native t c : native s.1 = Some (t, c) -> 1 <= c /\ is_Some (s.2 !! t);
}.
Lemma total_insert ts t x : ts !! t = None -> total (<[t := x]> ts) = weight x + total ts.
Proof. intros Ht. unfold total. rewrite map_fold_insert_L; [done | intros; lia | done]. Qed.
Lemma total_update ts t x y : ts !! t = Some x -> total (<[t := y]> ts) = total ts - weight x + weight y.
Proof.
  intros Ht. rewrite <- (insert_delete_id ts t x Ht) at 2. rewrite <- (insert_delete_eq ts t y).
  rewrite !total_insert by apply lookup_delete_eq. lia.
Qed.
Lemma total_member ts t x : (forall u y, ts !! u = Some y -> 0 <= weight y) -> ts !! t = Some x -> 0 <= weight x <= total ts.
Proof.
  revert t x. induction ts as [| u y ts Hu IH] using map_ind; intros t x Hall Ht; [by rewrite lookup_empty in Ht |].
  assert (0 <= weight y) by (apply (Hall u); apply lookup_insert_eq).
  assert (forall v z, ts !! v = Some z -> 0 <= weight z) as Hrest. { intros v z Hv. apply (Hall v). rewrite lookup_insert_ne; [done |]. intros ->. congruence. }
  assert (0 <= total ts). { destruct (decide (ts = ∅)) as [-> | He]; [done |]. apply map_choose in He as (v & z & Hv). specialize (IH v z Hrest Hv). lia. }
  rewrite total_insert by done. apply lookup_insert_Some in Ht as [[-> ->] | [_ Ht]]; [lia |]. specialize (IH t x Hrest Ht). lia.
Qed.
Lemma place_weight m t x : place m t x -> 0 <= weight x.
Proof. intros [Hn _ _ _]. unfold weight, awaited. destruct (x.1); lia. Qed.
(** What the other threads see of a step: nothing, or a change of words that are not theirs. *)
Lemma place_other m m1 t x : place m t x -> held m1 t = held m t -> recursive m1 = recursive m ->
  (0 < held m t -> depth m1 = depth m /\ owner m1 = owner m) -> place m1 t x.
Proof.
  intros [Hn Hh Hw Hp] He Hr Hsame. constructor; [done | by rewrite He | |].
  - rewrite He. intros Hpos. destruct (Hsame Hpos) as [-> ->]. by apply Hw.
  - destruct x as [pc n]. cbn [fst snd] in *. assert (0 < n + ahead pc -> depth m1 = depth m) as Hd by (intros; apply Hsame; lia).
    destruct pc; cbn [at_pc ahead] in *; unfold may_nest in *; rewrite ?Hr; try done; try (rewrite Hd by lia; done).
    all: try (intros Hpos; rewrite Hd by lia; by apply Hp). destruct Hp as [Hp Hc]. split; [| done]. intros Hpos. rewrite Hd by lia. by apply Hp.
Qed.
Lemma held_other m t u : 0 < held m t -> u <> t -> held m u = 0.
Proof. unfold held. destruct (native m) as [[v c] |]; [| done]. destruct (Z.eqb_spec v t); [| lia]. destruct (Z.eqb_spec v u); [congruence | done]. Qed.
(** One access of thread [t]. *)
Lemma words_step m ts t x m1 y : words_ok (m, ts) -> ts !! t = Some x -> users m1 = users m + weight y - weight x -> users m1 <= usize_max -> depth m1 <= usize_max ->
  recursive m1 = recursive m -> (forall u, u <> t -> held m1 u = held m u) -> (depth m1 = depth m /\ owner m1 = owner m) \/ 0 < held m t ->
  place m1 t y -> (native m1 = None -> depth m1 = 0 /\ owner m1 = 0) -> (forall u c, native m1 = Some (u, c) -> 1 <= c) -> words_ok (m1, <[t := y]> ts).
Proof.
  intros [Hu Hb Hd Hi Hp Hf Hn] Ht Hu1 Hb1 Hd1 Hr Hh Hsolo Hy Hf1 Hn1. cbn [fst snd] in *. constructor; cbn [fst snd]; [| done | done | | | done |].
  - rewrite (total_update _ _ _ _ Ht). lia.
  - rewrite lookup_insert_ne; [done |]. intros ->. congruence.
  - intros u z Hz. apply lookup_insert_Some in Hz as [[<- <-] | [Hne Hz]]; [done |]. apply (place_other m); [by apply Hp | by apply Hh | done |].
    intros Hpos. destruct Hsolo as [Hsame | Hmine]; [done |]. rewrite (held_other m t u Hmine) in Hpos by done. lia.
  - intros u c Hc. split; [by eapply Hn1 |]. destruct (decide (u = t)) as [-> | Hne]; [rewrite lookup_insert_eq; by eexists |]. rewrite lookup_insert_ne by done.
    assert (held m u = c) as Hhu by (rewrite <- (Hh u Hne); unfold held; by rewrite Hc, Z.eqb_refl).
    specialize (Hn1 u c Hc). unfold held in Hhu. destruct (native m) as [[v d] |] eqn:En; [| lia]. destruct (Z.eqb_spec v u) as [-> |]; [| lia]. by eapply Hn.
Qed.
Lemma owner_mine m ts t x : words_ok (m, ts) -> ts !! t = Some x -> owner m = t -> 0 < held m t.
Proof.
  intros [_ _ _ Hi Hp Hf Hn] Ht Ho. cbn [fst snd] in *. assert (t <> 0) as Hz by congruence. unfold held. destruct (native m) as [[u c] |] eqn:En; [| destruct (Hf eq_refl); congruence].
  destruct (Hn u c eq_refl) as [Hc [y Hy]]. destruct (pl_words _ _ _ (Hp u y Hy)) as [_ Ho2]; [unfold held; rewrite En, Z.eqb_refl; lia |].
  destruct (Z.eqb_spec u t) as [| Hne]; [lia |]. destruct (y.1); cbn [owner_at] in Ho2; repeat case_match; congruence.
Qed.
Lemma owner_not_mine m ts t x : words_ok (m, ts) -> ts !! t = Some x -> owner_at x.1 t (held m t) = t -> owner m <> t -> held m t = 0.
Proof.
  intros Hok Ht Ho Hne. destruct (wo_place _ Hok t x Ht) as [Hn Hh Hw Hp]. cbn [fst snd] in *. destruct (Z.eq_dec (held m t) 0); [done |].
  assert (0 <= held m t). { unfold held. destruct (native m) as [[u c] |] eqn:En; [| lia]. apply (wo_native _ Hok) in En. case_match; lia. }
  destruct Hw as [_ Hw]; [lia |]. congruence.
Qed.
(** A step that leaves the words alone. *)
Lemma words_go m ts t pc n pc1 n1 : words_ok (m, ts) -> ts !! t = Some (pc, n) -> weight (pc1, n1) = weight (pc, n) -> ahead pc1 + n1 = ahead pc + n -> 0 <= n1 ->
  (0 < held m t -> behind pc1 = behind pc /\ owner_at pc1 t (held m t) = owner_at pc t (held m t)) -> at_pc m pc1 n1 -> words_ok (m, <[t := (pc1, n1)]> ts).
Proof.
  intros Hok Ht Hw Ha Hn1 Hb Hp. destruct (wo_place _ Hok _ _ Ht) as [Hn Hh Hwo _]. cbn [fst snd] in *. eapply words_step; try done; [lia | by apply (wo_bound _ Hok) | by apply (wo_depth _ Hok) | by left | | by apply (wo_free _ Hok) | intros u c Hc; by apply (wo_native _ Hok u c)].
  constructor; cbn [fst snd]; [done | lia | | done]. intros Hpos. destruct (Hb Hpos) as [-> ->]. by apply Hwo.
Qed.
Lemma held_self m t c : held (set_native (Some (t, c)) m) t = c.
Proof. unfold held. cbn [native set_native]. by rewrite Z.eqb_refl. Qed.
Lemma held_none m t : held (set_native None m) t = 0.
Proof. done. Qed.
Lemma held_ne m t c u : u <> t -> held (set_native (Some (t, c)) m) u = 0.
Proof. unfold held. cbn [native set_native]. intros. destruct (Z.eqb_spec t u); [congruence | done]. Qed.
Lemma native_of_held m t : 0 < held m t -> native m = Some (t, held m t).
Proof. unfold held. destruct (native m) as [[u c] |]; [| lia]. destruct (Z.eqb_spec u t); [by subst | lia]. Qed.
Lemma words_users m ts t pc n n1 d pc1 : words_ok (m, ts) -> ts !! t = Some (pc, n) -> weight (pc1, n1) = weight (pc, n) + d -> users m + d <= usize_max ->
  ahead pc1 + n1 = ahead pc + n -> 0 <= n1 -> (0 < held m t -> behind pc1 = behind pc /\ owner_at pc1 t (held m t) = owner_at pc t (held m t)) -> at_pc m pc1 n1 ->
  words_ok (set_users (users m + d) m, <[t := (pc1, n1)]> ts).
Proof.
  intros Hok Ht Hw Hb Ha Hn1 Hb1 Hp. destruct (wo_place _ Hok _ _ Ht) as [Hn Hh Hwo _]. cbn [fst snd] in *. eapply words_step; try done; cbn [users set_users]; [lia | by apply (wo_depth _ Hok) | by left | | by apply (wo_free _ Hok) | intros u c Hc; by apply (wo_native _ Hok u c)].
  constructor; cbn [fst snd]; try change (held (set_users _ m) t) with (held m t); [done | lia | | by destruct pc1]. intros Hpos. destruct (Hb1 Hpos) as [-> ->]. by apply Hwo.
Qed.
(** The words of the thread that has locked the native mutex. *)
Lemma words_mine m ts t pc n pc1 n1 d o : words_ok (m, ts) -> ts !! t = Some (pc, n) -> 0 < held m t -> weight (pc1, n1) = weight (pc, n) -> ahead pc1 + n1 = ahead pc + n -> 0 <= n1 ->
  d = held m t - behind pc1 -> o = owner_at pc1 t (held m t) -> d <= usize_max -> at_pc (set_owner o (set_depth d m)) pc1 n1 -> words_ok (set_owner o (set_depth d m), <[t := (pc1, n1)]> ts).
Proof.
  intros Hok Ht Hpos Hw Ha Hn1 Hd Ho Hb Hp. destruct (wo_place _ Hok _ _ Ht) as [Hn Hh Hwo _]. cbn [fst snd] in *. pose proof (native_of_held _ _ Hpos) as Hnat.
  eapply words_step; try done; cbn [users set_owner set_depth depth owner native]; [lia | by apply (wo_bound _ Hok) | by right | | by rewrite Hnat | intros u c Hc; by apply (wo_native _ Hok u c)].
  constructor; cbn [fst snd]; try change (held (set_owner _ _) t) with (held m t); [done | lia | done | done].
Qed.
Ltac weigh := unfold weight, gain; simpl; lia.
Lemma users_nonneg m ts t x : words_ok (m, ts) -> ts !! t = Some x -> 0 <= users m.
Proof.
  intros Hok Ht. pose proof (wo_users _ Hok) as Hu. cbn [fst snd] in Hu. rewrite Hu.
  pose proof (total_member _ _ _ (fun u y Hy => place_weight _ _ _ (wo_place _ Hok u y Hy)) Ht) as Hm. cbn [snd] in Hm. lia.
Qed.
Lemma lock_words m ts t pc n rc weak m1 next : words_ok (m, ts) -> ts !! t = Some (pc, n) -> lock t rc weak m pc = Some (m1, next) -> op_of pc = Some OpLock ->
  words_ok (m1, <[t := settle (pc, n) next]> ts).
Proof.
  intros Hok Ht E Hop. destruct (wo_place _ Hok _ _ Ht) as [Hn Hh Hw Hp]. pose proof (wo_bound _ Hok) as Hb. pose proof (wo_depth _ Hok) as Hd. cbn [fst snd] in *.
  destruct pc; try done; cbn [lock at_pc ahead behind owner_at] in *; simplify_eq/=.
  - destruct (Z.eqb_spec (owner m1) t) as [Ho | Ho].
    + pose proof (owner_mine _ _ _ _ Hok Ht Ho). by apply (words_go _ _ _ LockOwner n); try done; weigh.
    + pose proof (owner_not_mine _ _ _ _ Hok Ht eq_refl Ho). apply (words_go _ _ _ LockOwner n); try done. simpl. unfold may_nest. lia.
  - destruct (negb (recursive m1) || (depth m1 =? usize_max)) eqn:Ec; cbn [settle gain op_of fst snd].
    + apply (words_go _ _ _ LockDepth n); try done; weigh.
    + apply orb_false_iff in Ec as [Hr%negb_false_iff Hne%Z.eqb_neq]. apply (words_go _ _ _ LockDepth n); try done. simpl. intros _. split; [done | lia].
  - apply (words_go _ _ _ LockUsers n); try done. simpl. split; [done |]. by eapply users_nonneg.
  - destruct (checked_add usize_max current 1) as [next' |] eqn:Ec; [apply checked_add_Some in Ec as [-> Hmax] |]; [destruct (Z.eqb_spec (users m) current) as [<- |]; [destruct weak |] |]; simplify_eq/=.
    + by apply (words_go _ _ _ (LockIncrement (users m1)) n).
    + apply (words_users _ _ _ (LockIncrement (users m)) n); try done; [weigh |]. by apply Hp.
    + apply (words_go _ _ _ (LockIncrement current) n); try done. split; [by apply Hp | by eapply users_nonneg].
    + apply (words_go _ _ _ (LockIncrement current) n); try done; weigh.
  - unfold native_lock in E. destruct (Z.eqb_spec rc 0) as [-> | Hrc]; simpl in E.
    2:{ simplify_eq/=. rewrite (proj2 (Z.eqb_neq rc 0)) by done. by apply (words_go _ _ _ LockNative n). }
    destruct (native m) as [[u c] |] eqn:En.
    + destruct (Z.eqb_spec u t) as [-> |]; [| done]. assert (held m t = c) as Hc by (unfold held; by rewrite En, Z.eqb_refl).
      destruct (wo_native _ Hok t c En) as [Hc1 _]. destruct (Hp ltac:(lia)) as [Hr Hlt]. rewrite Hr in E. simplify_eq/=.
      destruct (Hw ltac:(lia)) as [Hwd Hwo]. eapply words_step; try done; cbn [users set_native]; [weigh | intros v Hv; rewrite held_ne by done; unfold held; rewrite En; destruct (Z.eqb_spec t v); congruence | by left | | by intros ? ? [= <- <-]; lia].
      constructor; cbn [fst snd]; rewrite ?held_self; [done | cbn [ahead]; lia | | done]. intros _. cbn [depth owner set_native behind owner_at]. rewrite (proj2 (Z.eqb_neq (_ + 1) 1)) by lia. split; [lia | done].
    + simplify_eq/=. destruct (wo_free _ Hok En) as [Hd0 Ho0]. cbn [fst] in *. assert (held m t = 0) as Hc by (unfold held; by rewrite En).
      eapply words_step; try done; cbn [users set_native]; [weigh | intros v Hv; rewrite held_ne by done; unfold held; by rewrite En | by left | | by intros ? ? [= <- <-]].
      constructor; cbn [fst snd]; rewrite ?held_self; [done | cbn [ahead]; lia | | cbn [at_pc depth set_native]; pose proof usize_max_cases; lia]. intros _. cbn [depth owner set_native behind owner_at]. split; [lia | done].
  - destruct (Hw ltac:(lia)) as [Hwd Hwo]. change (set_depth (depth m + 1) m) with (set_owner (owner m) (set_depth (depth m + 1) m)). apply (words_mine _ _ _ LockCount n); try done; weigh.
  - destruct (Hw ltac:(lia)) as [Hwd Hwo]. replace (set_owner t m) with (set_owner t (set_depth (depth m) m)) by (by destruct m). apply (words_mine _ _ _ LockStore n); try done; weigh.
  - unfold native_status. rewrite (proj2 (Z.eqb_neq rc0 0)) by done. apply (words_users _ _ _ (LockUndo rc0) n _ (-1)); try done; weigh.
Qed.
Lemma unlock_words m ts t pc n rc m1 next : words_ok (m, ts) -> ts !! t = Some (pc, n) -> unlock t rc m pc = Some (m1, next) -> op_of pc = Some OpUnlock ->
  words_ok (m1, <[t := settle (pc, n) next]> ts).
Proof.
  intros Hok Ht E Hop. destruct (wo_place _ Hok _ _ Ht) as [Hn Hh Hw Hp]. pose proof (wo_bound _ Hok) as Hb. pose proof (wo_depth _ Hok) as Hd. cbn [fst snd] in *.
  destruct pc; try done; cbn [unlock at_pc ahead behind owner_at] in *; simplify_eq/=.
  - destruct (Z.eqb_spec (owner m1) t) as [Ho | Ho]; cbn [settle gain op_of fst snd].
    + pose proof (owner_mine _ _ _ _ Hok Ht Ho). apply (words_go _ _ _ UnlockOwner n); try done. simpl. lia.
    + apply (words_go _ _ _ UnlockOwner n); try done; weigh.
  - destruct (Hw ltac:(lia)) as [Hwd Hwo]. change (set_depth (depth m - 1) m) with (set_owner (owner m) (set_depth (depth m - 1) m)). apply (words_mine _ _ _ UnlockCount n); try done; weigh.
  - destruct (Hw ltac:(lia)) as [Hwd Hwo]. assert ((if depth m =? 0 then set_owner 0 m else m) = set_owner (if held m t =? 1 then 0 else t) (set_depth (depth m) m)) as ->.
    { destruct (Z.eqb_spec (depth m) 0), (Z.eqb_spec (held m t) 1); try lia; [by destruct m |]. rewrite <- Hwo. by destruct m. }
    apply (words_mine _ _ _ UnlockStore n); try done; weigh.
  - destruct (Hw ltac:(lia)) as [Hwd Hwo]. unfold native_unlock in E. destruct (Z.eqb_spec rc 0) as [-> | Hrc]; simpl in E.
    2:{ simplify_eq/=. rewrite (proj2 (Z.eqb_neq rc 0)) by done. by apply (words_go _ _ _ UnlockNative n). }
    rewrite (native_of_held m t) in E by lia. rewrite Z.eqb_refl in E. simplify_eq/=. set (nat_ := if held m t =? 1 then None else Some (t, held m t - 1)).
    assert (held (set_native nat_ m) t = held m t - 1) as Hh1 by (unfold nat_; destruct (Z.eqb_spec (held m t) 1); [rewrite held_none; lia | by rewrite held_self]).
    eapply words_step; try done; cbn [users set_native]; [weigh | | right; lia | | |].
    + intros v Hv. rewrite (held_other m t v) by lia. unfold nat_. destruct (held m t =? 1); [done | by apply held_ne].
    + constructor; cbn [fst snd]; rewrite ?Hh1; [done | cbn [ahead]; lia | | by apply Hp]. intros Hpos. cbn [depth owner set_native behind owner_at]. rewrite (proj2 (Z.eqb_neq (held m t) 1)) in Hwo by lia. split; [lia | done].
    + cbn [native set_native depth owner]. unfold nat_. destruct (Z.eqb_spec (held m t) 1); [| done]. intros _. split; [lia | done].
    + cbn [native set_native]. unfold nat_. destruct (Z.eqb_spec (held m t) 1); [done |]. intros ? ? [= <- <-]. lia.
  - apply (words_users _ _ _ UnlockUsers n _ (-1)); try done; weigh.
  - destruct (Hw ltac:(lia)) as [Hwd Hwo]. change (set_depth (depth m + 1) m) with (set_owner (owner m) (set_depth (depth m + 1) m)). apply (words_mine _ _ _ (UnlockRecount rc0) n); try done; weigh.
  - destruct (Hw ltac:(lia)) as [Hwd Hwo]. unfold native_status. rewrite (proj2 (Z.eqb_neq rc0 0)) by lia. replace (set_owner t m) with (set_owner t (set_depth (depth m) m)) by (by destruct m).
    apply (words_mine _ _ _ (UnlockRestore rc0) n); try done; weigh.
Qed.
Lemma words_life m m1 ts : native m1 = native m -> users m1 = users m -> owner m1 = owner m -> depth m1 = depth m -> recursive m1 = recursive m -> words_ok (m, ts) -> words_ok (m1, ts).
Proof.
  intros En Eu Eo Ed Er [Hu Hb Hd Hi Hp Hf Hn]. cbn [fst snd] in *. constructor; cbn [fst snd]; rewrite ?En, ?Eu, ?Eo, ?Ed; try done.
  intros t x Hx. apply (place_other m); [by apply Hp | unfold held; by rewrite En | done | done].
Qed.
Lemma destroy_words m ts t pc n rc m1 next : words_ok (m, ts) -> ts !! t = Some (pc, n) -> destroy rc m pc = Some (m1, next) -> op_of pc = Some OpDestroy ->
  words_ok (m1, <[t := settle (pc, n) next]> ts).
Proof.
  intros Hok Ht E Hop. destruct (wo_place _ Hok _ _ Ht) as [Hn Hh Hw Hp]. cbn [fst snd] in *.
  assert (forall m2 pc2, m2 = m \/ m2 = set_initialized false m \/ m2 = set_block false m -> pc2 = Idle \/ pc2 = DestroyNative \/ pc2 = DestroyFree -> words_ok (m2, <[t := (pc2, n + 0)]> ts)) as Hend.
  { intros m2 pc2 Hm2 Hpc2. assert (words_ok (m, <[t := (pc2, n + 0)]> ts)) as H1 by (apply (words_go _ _ _ pc n); try done; destruct pc; try done; destruct Hpc2 as [-> | [-> | ->]]; try done; weigh).
    destruct Hm2 as [-> | [-> | ->]]; [done | |]; by apply (words_life m). }
  rewrite Z.add_0_r in Hend. destruct pc; try done; cbn [destroy] in E; [| unfold native_destroy in E |]; repeat case_match; simplify_eq/=; unfold gain, native_status; cbn [op_of];
    repeat match goal with H : (_ =? 0) = false |- _ => rewrite H end; rewrite ?Z.add_0_r; apply Hend; naive_solver.
Qed.
Lemma run_words m ts t x rc weak m1 next : words_ok (m, ts) -> ts !! t = Some x -> advance t rc weak m x.1 = Some (m1, next) -> words_ok (m1, <[t := settle x next]> ts).
Proof.
  destruct x as [pc n]. unfold advance. cbn [fst]. intros Hok Ht E. destruct (op_of pc) as [[] |] eqn:Eop; [by eapply lock_words | by eapply unlock_words | by eapply destroy_words | done].
Qed.
Lemma words_call m ts t n pc : words_ok (m, ts) -> ts !! t = Some (Idle, n) -> pc = LockOwner \/ pc = UnlockOwner \/ pc = DestroyUsers -> words_ok (m, <[t := (pc, n)]> ts).
Proof. intros Hok Ht Hpc. pose proof (pl_count _ _ _ (wo_place _ Hok _ _ Ht)). apply (words_go _ _ _ Idle n); try done; destruct Hpc as [-> | [-> | ->]]; done. Qed.
Lemma step_words s s1 : step s s1 -> words_ok s -> words_ok s1.
Proof.
  intros Hstep Hok. destruct Hstep as [m ts t Hz Ht | m ts t n Ht _ _ | m ts t n Ht _ | m ts t n Ht _ _ | m ts t x rc weak m1 next Ht E]; [| eapply words_call; eauto | eapply words_call; eauto | eapply words_call; eauto | by eapply run_words].
  destruct Hok as [Hu Hb Hd Hi Hp Hf Hn]. cbn [fst snd] in *. assert (held m t = 0) as Hh. { unfold held. destruct (native m) as [[u c] |]; [| done]. destruct (Z.eqb_spec u t) as [-> |]; [| done]. destruct (Hn t c eq_refl) as [_ [? ?]]. congruence. }
  constructor; cbn [fst snd]; [| done | done | by rewrite lookup_insert_ne by done | | done |].
  - rewrite total_insert by done. unfold weight. simpl. lia.
  - intros u y [[<- <-] | [_ Hy]]%lookup_insert_Some; [| by apply Hp]. constructor; cbn [fst snd ahead at_pc]; try done; lia.
  - intros u c Hc. destruct (Hn u c Hc) as [? [y Hy]]. split; [done |]. exists y. rewrite lookup_insert_ne; [done |]. intros ->. congruence.
Qed.
(** *** The life of the object *)
Definition finishing (pc : Pc) : bool := match pc with DestroyNative | DestroyFree => true | _ => false end.
Record life_ok (s : Mutex * Threads) : Prop := {
  lo_beside t x u y : s.2 !! t = Some x -> destroying x.1 = true -> s.2 !! u = Some y -> u <> t -> unseen y = false;
  lo_last t x u y : s.2 !! t = Some x -> finishing x.1 = true -> x.2 = 0 /\ (s.2 !! u = Some y -> u <> t -> y = (Idle, 0));
  lo_gone u y : block s.1 = false -> s.2 !! u = Some y -> y = (Idle, 0);
  lo_native : initialized s.1 = false -> block s.1 = false \/ exists t x, s.2 !! t = Some x /\ x.1 = DestroyFree;
}.
Lemma finishing_destroying pc : finishing pc = true -> destroying pc = true.
Proof. by destruct pc. Qed.
Lemma destroying_unseen x : destroying x.1 = true -> unseen x = true.
Proof. by destruct x as [[] ?]. Qed.
(** Somebody who is at a place that the words show moves on. *)
Lemma life_move m ts t x m1 y : life_ok (m, ts) -> ts !! t = Some x -> finishing x.1 = false -> finishing y.1 = false -> x <> (Idle, 0) -> destroying y.1 = destroying x.1 ->
  (unseen x = false -> unseen y = false) -> block m1 = block m -> initialized m1 = initialized m -> life_ok (m1, <[t := y]> ts).
Proof.
  intros [Hb Hl Hg Hn] Ht Hx Hy Hne Hd Hu Hbl Hin. cbn [fst snd] in *. constructor; cbn [fst snd]; rewrite ?Hbl, ?Hin.
  - intros v z u w [[<- <-] | [Hv Hz]]%lookup_insert_Some Hdz Hw Huv; apply lookup_insert_Some in Hw as [[<- <-] | [Huw Hw]]; try done.
    + rewrite Hd in Hdz. by eapply (Hb t x u w).
    + apply Hu. by eapply (Hb v z t x).
    + by eapply (Hb v z u w).
  - intros v z u w [[<- <-] | [Hv Hz]]%lookup_insert_Some Hf; [congruence |]. split; [by eapply (proj1 (Hl v z v z Hz Hf)) |].
    destruct Hne. by eapply (proj2 (Hl v z t x Hz Hf)).
  - intros u w Hfree Hw. destruct Hne. by eapply Hg.
  - intros Hi. destruct (Hn Hi) as [| (v & z & Hv & Hz)]; [by left |]. right. exists v, z. split; [| done]. rewrite lookup_insert_ne; [done |]. intros ->. rewrite Ht in Hv. simplify_eq. rewrite Hz in Hx. done.
Qed.
Lemma idle_alone m ts t x : words_ok (m, ts) -> life_ok (m, ts) -> ts !! t = Some x -> destroying x.1 = true -> users m = 0 -> x.2 = 0 /\ forall u y, ts !! u = Some y -> u <> t -> y = (Idle, 0).
Proof.
  intros Hok Hlife Ht Hd Hu. assert (forall u y, ts !! u = Some y -> 0 <= y.2 /\ weight y = 0) as Hw.
  { intros u y Hy. pose proof (total_member _ _ _ (fun u y Hy => place_weight _ _ _ (wo_place _ Hok u y Hy)) Hy) as Hm. pose proof (wo_users _ Hok) as Hs. cbn [fst snd] in *. split; [by apply (wo_place _ Hok u y Hy) | lia]. }
  split; [destruct (Hw t x Ht) as [H1 H2]; unfold weight in H2; destruct x as [[] ?]; simpl in *; try done; lia |].
  intros u y Hy Hne. destruct (Hw u y Hy) as [H1 H2]. pose proof (lo_beside _ Hlife t x u y Ht Hd Hy Hne) as Hus. pose proof (pl_pc _ _ _ (wo_place _ Hok u y Hy)) as Hp.
  destruct y as [pc n]. unfold weight in H2. destruct pc; cbn [fst snd awaited at_pc unseen destroying op_of] in *; try done; try lia. f_equal. lia.
Qed.
(** Nobody else destroys. *)
Lemma life_alone m ts t y : block m = true -> initialized m = true -> (forall u z, ts !! u = Some z -> u <> t -> destroying z.1 = false) -> finishing y.1 = false ->
  (destroying y.1 = true -> forall u z, ts !! u = Some z -> u <> t -> unseen z = false) -> life_ok (m, <[t := y]> ts).
Proof.
  intros Hb Hi Hd Hf Hy. constructor; cbn [fst snd]; [| | congruence | congruence].
  - intros v z u w [[<- <-] | [Hv Hz]]%lookup_insert_Some Hdz Hw Huv; [| rewrite (Hd v z) in Hdz by done; done]. apply lookup_insert_Some in Hw as [[<- _] | [_ Hw]]; [done | by eapply Hy].
  - intros v z u w [[<- <-] | [Hv Hz]]%lookup_insert_Some Hfz; [congruence |]. apply finishing_destroying in Hfz. rewrite (Hd v z) in Hfz by done. done.
Qed.
(** Nobody else uses the object. *)
Lemma life_finish m ts t y : (forall u z, ts !! u = Some z -> u <> t -> z = (Idle, 0)) -> y.2 = 0 -> (initialized m = false -> block m = false \/ y.1 = DestroyFree) -> (block m = false -> y.1 = Idle) -> life_ok (m, <[t := y]> ts).
Proof.
  intros Ho Hy Hi Hb. assert (forall u z, <[t := y]> ts !! u = Some z -> u <> t -> z = (Idle, 0)) as Ho1 by (intros u z [[<- _] | [_ Hz]]%lookup_insert_Some Hne; [done | by eapply Ho]).
  constructor; cbn [fst snd].
  - intros v z u w Hz Hd Hw Hne. destruct (decide (u = t)) as [-> | Hut]; [| by rewrite (Ho1 u w Hw Hut)]. rewrite (Ho1 v z Hz) in Hd; [done | congruence].
  - intros v z u w Hz Hf. destruct (decide (v = t)) as [-> | Hvt]; [| by rewrite (Ho1 v z Hz Hvt) in Hf]. rewrite lookup_insert_eq in Hz. simplify_eq. split; [done |]. intros Hw Hne. by eapply Ho1.
  - intros u w Hfree Hw. destruct (decide (u = t)) as [-> | Hut]; [| by eapply Ho1]. rewrite lookup_insert_eq in Hw. simplify_eq. destruct w as [pc n]. cbn [fst snd] in *. rewrite (Hb Hfree). by subst.
  - intros [Hf | Hf]%Hi; [by left |]. right. exists t, y. by rewrite lookup_insert_eq.
Qed.
Lemma run_keeps m t x rc weak m1 next : advance t rc weak m x.1 = Some (m1, next) -> destroying x.1 = false ->
  block m1 = block m /\ initialized m1 = initialized m /\ destroying (settle x next).1 = false /\ (unseen x = false -> unseen (settle x next) = false).
Proof.
  destruct x as [pc n]. unfold advance, lock, unlock, native_lock, native_unlock. cbn [fst]. intros E Hd. destruct pc; try done; cbn [op_of] in E; repeat (case_match; simplify_eq/=); try done; simplify_option_eq; repeat (case_match; simplify_eq/=); done.
Qed.
Lemma destroyers_alone m ts t x : life_ok (m, ts) -> ts !! t = Some x -> destroying x.1 = true -> forall u z, ts !! u = Some z -> u <> t -> destroying z.1 = false.
Proof. intros Hl Ht Hd u z Hz Hne. pose proof (lo_beside _ Hl t x u z Ht Hd Hz Hne) as Hu. destruct (destroying z.1) eqn:E; [| done]. by rewrite (destroying_unseen _ E) in Hu. Qed.
Lemma alive m ts t x : life_ok (m, ts) -> ts !! t = Some x -> x.1 <> Idle -> block m = true /\ (x.1 <> DestroyFree -> initialized m = true).
Proof.
  intros Hl Ht Hx. assert (block m = true) as Hb by (destruct (block m) eqn:E; [done |]; rewrite (lo_gone _ Hl t x E Ht) in Hx; done). split; [done |]. intros Hne.
  destruct (initialized m) eqn:E; [done |]. destruct (lo_native _ Hl E) as [| (u & z & Hz & Hf)]; [cbn [fst] in *; congruence |]. cbn [fst snd] in *. assert (t <> u) as Hut by (intros ->; congruence).
  destruct (lo_last _ Hl u z t x Hz) as [_ Hl2]; [by rewrite Hf |]. rewrite (Hl2 Ht Hut) in Hx. done.
Qed.
Lemma calls_alive m ts : life_ok (m, ts) -> block m = true -> (forall u x, ts !! u = Some x -> destroying x.1 = false) -> initialized m = true.
Proof. intros Hl Hb Hd. destruct (initialized m) eqn:E; [done |]. destruct (lo_native _ Hl E) as [| (u & z & Hz & Hf)]; cbn [fst snd] in *; [congruence |]. specialize (Hd u z Hz). by rewrite Hf in Hd. Qed.
Lemma destroy_life m ts t x rc weak m1 next : words_ok (m, ts) -> life_ok (m, ts) -> ts !! t = Some x -> advance t rc weak m x.1 = Some (m1, next) -> destroying x.1 = true -> life_ok (m1, <[t := settle x next]> ts).
Proof.
  intros Hok Hl Ht E Hd. pose proof (destroyers_alone _ _ _ _ Hl Ht Hd) as Halone. destruct x as [pc n]. destruct (alive _ _ _ _ Hl Ht) as [Hb Hi]; [by destruct pc |].
  destruct pc; try done; unfold advance in E; cbn [fst snd op_of destroy] in *; [| unfold native_destroy in E |].
  - destruct (Z.eqb_spec (users m) 0) as [Hu | Hu]; simplify_eq/=; [| apply life_alone; try done; by apply Hi].
    destruct (idle_alone _ _ _ _ Hok Hl Ht Hd Hu) as [Hn Ho]. apply life_finish; try done; [intros Hf; by rewrite Hi in Hf | congruence].
  - destruct (lo_last _ Hl t _ t (Idle, 0) Ht eq_refl) as [Hn _]. assert (forall u z, ts !! u = Some z -> u <> t -> z = (Idle, 0)) as Ho by (intros u z Hz; by apply (proj2 (lo_last _ Hl t _ u z Ht eq_refl))). cbn [fst snd] in *.
    destruct (Z.eqb_spec rc 0) as [-> | Hrc]; simplify_eq/=; [apply life_finish; try done; [by right | simpl; congruence] |].
    rewrite (proj2 (Z.eqb_neq rc 0)) by done. apply life_alone; try done. by apply Hi.
  - destruct (lo_last _ Hl t _ t (Idle, 0) Ht eq_refl) as [Hn _]. assert (forall u z, ts !! u = Some z -> u <> t -> z = (Idle, 0)) as Ho by (intros u z Hz; by apply (proj2 (lo_last _ Hl t _ u z Ht eq_refl))). cbn [fst snd] in *.
    simplify_eq/=. apply life_finish; try done. by left.
Qed.
Lemma step_life s s1 : step s s1 -> words_ok s -> life_ok s -> life_ok s1.
Proof.
  intros Hstep Hok Hl. destruct Hstep as [m ts t Hz Ht | m ts t n Ht Hb Hd | m ts t n Ht Hor | m ts t n Ht Hb Hu | m ts t x rc weak m1 next Ht E].
  - destruct Hl as [Hb Hla Hg Hn]. cbn [fst snd] in *. constructor; cbn [fst snd].
    + intros v z u w [[<- <-] | [Hv Hv1]]%lookup_insert_Some Hdz Hw Huv; [done |]. apply lookup_insert_Some in Hw as [[<- <-] | [_ Hw]]; [done | by apply (Hb v z u w)].
    + intros v z u w [[<- <-] | [Hv Hv1]]%lookup_insert_Some Hf; [done |]. split; [by eapply (proj1 (Hla v z v z Hv1 Hf)) |]. intros [[<- <-] | [_ Hw]]%lookup_insert_Some Hne; [done |]. by eapply (proj2 (Hla v z u w Hv1 Hf)).
    + intros u w Hf [[<- <-] | [_ Hw]]%lookup_insert_Some; [done | by eapply Hg].
    + intros Hi. destruct (Hn Hi) as [| (v & z & Hv & Hf)]; [by left |]. right. exists v, z. split; [| done]. rewrite lookup_insert_ne; [done |]. intros ->. pose proof (eq_trans (eq_sym Ht) Hv). done.
  - apply life_alone; try done; [by eapply calls_alive | intros u z Hz _; by eapply Hd].
  - destruct (Z.eq_dec n 0) as [-> | Hne].
    + destruct Hor as [| [Hb Hd]]; [lia |]. apply life_alone; try done; [by eapply calls_alive | intros u z Hz _; by eapply Hd].
    + eapply life_move; try done; [congruence |]. intros _. by apply Z.eqb_neq.
  - assert (forall u x, ts !! u = Some x -> destroying x.1 = false) as Hd. { intros u x Hx. destruct (destroying x.1) eqn:Ed; [| done]. pose proof (Hu u x Hx) as Hs. by rewrite (destroying_unseen _ Ed) in Hs. }
    apply life_alone; try done; [by eapply calls_alive | intros u z Hz _; by eapply Hd | intros _ u z Hz _; by eapply Hu].
  - destruct (destroying x.1) eqn:Ed; [by eapply destroy_life |]. destruct (run_keeps _ _ _ _ _ _ _ E Ed) as (H1 & H2 & H3 & H4). eapply life_move; try done; [| | | congruence].
    + destruct (finishing x.1) eqn:Ef; [| done]. by rewrite (finishing_destroying _ Ef) in Ed.
    + destruct (finishing (settle x next).1) eqn:Ef; [| done]. by rewrite (finishing_destroying _ Ef) in H3.
    + intros ->. done.
Qed.
Lemma reachable_ok b s : reachable b s -> words_ok s /\ life_ok s.
Proof.
  intros Hr. assert (words_ok (mutex_new b, ∅) /\ life_ok (mutex_new b, ∅)) as H0.
  { split; constructor; cbn [fst snd mutex_new users depth]; intros; rewrite ?lookup_empty in *; try done; pose proof usize_max_cases; lia. }
  revert H0. induction Hr as [s | s s2 s1 Hstep _ IH]; [done |]. intros [Hw Hl]. apply IH. split; [by eapply step_words | by eapply step_life].
Qed.
Lemma total_idle ts : (forall u y, ts !! u = Some y -> y = (Idle, 0)) -> total ts = 0.
Proof.
  induction ts as [| u y ts Hu IH] using map_ind; [done |]. intros Hall. rewrite total_insert by done. rewrite (Hall u y) by apply lookup_insert_eq. rewrite IH; [done |].
  intros v z Hv. apply (Hall v). rewrite lookup_insert_ne; [done | congruence].
Qed.
Lemma words_range m ts : words_ok (m, ts) -> 0 <= users m <= usize_max /\ 0 <= depth m <= usize_max.
Proof.
  intros Hok. pose proof (wo_bound _ Hok). pose proof (wo_depth _ Hok). pose proof (wo_users _ Hok) as Hu. cbn [fst snd] in *. split; split; try done.
  - destruct (decide (ts = ∅)) as [-> | He]; [by rewrite Hu |]. apply map_choose in He as (t & x & Ht). by eapply users_nonneg.
  - destruct (native m) as [[t c] |] eqn:En; [| destruct (wo_free _ Hok En) as [Hd _]; cbn [fst] in Hd; lia]. destruct (wo_native _ Hok t c En) as [Hc [x Hx]].
    destruct (wo_place _ Hok t x Hx) as [_ _ Hw _]. cbn [fst snd] in *. assert (held m t = c) as Hh by (unfold held; by rewrite En, Z.eqb_refl). destruct Hw as [-> _]; [lia |]. unfold behind. case_match; lia.
Qed.
Lemma held_section m ts t pc n : words_ok (m, ts) -> ts !! t = Some (pc, n) -> 0 < n -> pc <> UnlockUsers -> 0 < held m t.
Proof. intros Hok Ht Hn Hpc. pose proof (pl_held _ _ _ (wo_place _ Hok t _ Ht)) as Hh. cbn [fst snd] in *. rewrite Hh. destruct pc; simpl; try done; lia. Qed.
Lemma object_there m ts t pc n : life_ok (m, ts) -> ts !! t = Some (pc, n) -> pc <> Idle \/ 0 < n -> block m = true /\ (pc <> DestroyFree -> initialized m = true).
Proof.
  intros Hl Ht Hin. destruct (decide (pc = Idle)) as [-> | Hpc]; [| by apply (alive _ _ _ _ Hl Ht)]. destruct Hin as [| Hn]; [done |].
  assert (block m = true) as Hb by (destruct (block m) eqn:E; [done |]; pose proof (lo_gone _ Hl t _ E Ht); simplify_eq; lia). split; [done |]. intros _. destruct (initialized m) eqn:E; [done |].
  destruct (lo_native _ Hl E) as [| (u & z & Hz & Hf)]; cbn [fst snd] in *; [congruence |]. assert (t <> u) as Hut. { intros ->. pose proof (eq_trans (eq_sym Ht) Hz). by simplify_eq. }
  pose proof (proj2 (lo_last _ Hl u z t _ Hz ltac:(by rewrite Hf)) Ht Hut). by simplify_eq.
Qed.
(** C20: the mutex of the Linux port.  However the accesses of the threads interleave, and whatever the pthread functions answer: two threads that hold it are the same thread; a thread finds itself as the owner exactly when it holds the mutex, so that unlocking what one does not hold and locking a mutex of one acquisition again are refused; the count of users and the depth stay in their machine word; [destroy] finds no users exactly when no thread holds the mutex or is inside a call, and is busy otherwise; the native mutex is destroyed only when it is not locked and nobody else uses it; a thread that holds the mutex or is inside a call finds the object in place; and when every thread has given it up, the words are those of a new mutex. *)
Theorem linux_mutex_correct b m ts : reachable b (m, ts) ->
  (forall t u pc n qc k, ts !! t = Some (pc, n) -> ts !! u = Some (qc, k) -> 0 < n -> 0 < k -> pc <> UnlockUsers -> qc <> UnlockUsers -> t = u) /\
  (forall t pc n, ts !! t = Some (pc, n) -> pc = LockOwner \/ pc = UnlockOwner -> (owner m = t <-> 0 < n) /\ (owner m = t -> depth m = n)) /\
  (0 <= users m <= usize_max /\ 0 <= depth m <= usize_max) /\
  (forall t n, ts !! t = Some (DestroyUsers, n) -> users m = 0 <-> n = 0 /\ forall u y, ts !! u = Some y -> u <> t -> y = (Idle, 0)) /\
  (forall t n, ts !! t = Some (DestroyNative, n) -> native m = None /\ forall u y, ts !! u = Some y -> u <> t -> y = (Idle, 0)) /\
  (forall t pc n, ts !! t = Some (pc, n) -> pc <> Idle \/ 0 < n -> block m = true /\ (pc <> DestroyFree -> initialized m = true)) /\
  ((forall t x, ts !! t = Some x -> x = (Idle, 0)) -> native m = None /\ users m = 0 /\ owner m = 0 /\ depth m = 0).
Proof.
  intros [Hok Hl]%reachable_ok. pose proof (fun t x Hx => wo_place _ Hok t x Hx) as Hp. cbn [fst snd] in Hp.
  assert (forall X : Prop, (forall t x, native m = Some (t, held m t) -> ts !! t = Some x -> 0 < held m t -> X) -> (native m = None -> X) -> X) as Hnat.
  { intros X H1 H2. destruct (native m) as [[t c] |] eqn:En; [| by apply H2]. destruct (wo_native _ Hok t c En) as [Hc [x Hx]]. assert (held m t = c) as Hh by (unfold held; by rewrite En, Z.eqb_refl). subst c. apply (H1 t x); [done | done | lia]. }
  split_and!; [| | by eapply words_range | by eapply words_range | by eapply words_range | by eapply words_range | | | intros; by eapply object_there |].
  - intros t u pc n qc k Ht Hu Hn Hk Hpc Hqc. pose proof (held_section _ _ _ _ _ Hok Ht Hn Hpc) as H1. pose proof (held_section _ _ _ _ _ Hok Hu Hk Hqc) as H2. destruct (decide (t = u)); [done |]. rewrite (held_other m t u) in H2 by done. lia.
  - intros t pc n Ht Hpc. destruct (Hp t _ Ht) as [Hn Hh Hw _]. cbn [fst snd] in *. assert (ahead pc = 0 /\ behind pc = 0 /\ forall c, owner_at pc t c = t) as (Ha & Hb & Ho) by (by destruct Hpc as [-> | ->]). rewrite Ha, Hb, Ho in *.
    split; [split |]; [intros E; pose proof (owner_mine _ _ _ _ Hok Ht E); lia | intros; apply Hw; lia |]. intros E. pose proof (owner_mine _ _ _ _ Hok Ht E). destruct Hw; lia.
  - intros t n Ht. split; [by apply (idle_alone _ _ _ _ Hok Hl Ht) |]. intros [-> Ho]. pose proof (wo_users _ Hok) as Hu. cbn [fst snd] in Hu. rewrite Hu. rewrite <- (insert_delete_id ts t _ Ht), total_insert by apply lookup_delete_eq.
    change (0 + total (delete t ts) = 0). rewrite total_idle; [done |]. intros u y [Hne Hy]%lookup_delete_Some. eapply Ho; [done | congruence].
  - intros t n Ht. assert (forall u z, ts !! u = Some z -> u <> t -> z = (Idle, 0)) as Ho by (intros u z Hz; by apply (proj2 (lo_last _ Hl t _ u z Ht eq_refl))). split; [| done].
    apply Hnat; [| done]. intros u x En Hx Hpos. destruct (Hp u x Hx) as [_ Hh _ _]. destruct (decide (u = t)) as [-> | Hne]; [| rewrite (Ho u x Hx Hne) in Hh; simpl in Hh; lia].
    assert (x = (DestroyNative, n)) as -> by congruence. destruct (lo_last _ Hl t _ t (Idle, 0) Ht eq_refl) as [H0 _]. simpl in *. lia.
  - intros Hall. assert (native m = None) as En by (apply Hnat; [intros u x _ Hx Hpos; pose proof (pl_held _ _ _ (Hp u x Hx)) as Hh; rewrite (Hall u x Hx) in Hh; simpl in Hh; lia | done]).
    destruct (wo_free _ Hok En) as [H1 H2]. cbn [fst] in *. split_and!; try done. pose proof (wo_users _ Hok) as Hu. cbn [fst snd] in Hu. rewrite Hu. by apply total_idle.
Qed.
End Invariant.

(** ** A run: thread 5 locks, thread 6 tries to destroy *)
Module LinuxMutexSample.
Ltac run_step t := eapply rtc_l; [eapply (step_run (H := arch64) _ _ t _ 0 false); [reflexivity | reflexivity] |]; cbn [settle gain op_of fst snd Z.add Z.eqb owner users].
Ltac quiet := intros ? ? Hx; repeat (apply lookup_insert_Some in Hx as [[<- <-] | [? Hx]]; [first [reflexivity | congruence] |]); by rewrite lookup_empty in Hx.
Lemma linux_mutex_correct_witness : exists m ts, reachable (H := arch64) true (m, ts) /\ ts !! 5 = Some (Idle, 1) /\ ts !! 6 = Some (DestroyUsers, 0) /\
  block m = true /\ users m <> 0 /\ destroy 0 m DestroyUsers = Some (m, Done (Err EBusy)).
Proof.
  eexists _, _. assert (reachable (H := arch64) true (mkMutex (Some (5, 1)) 1 5 1 true true true, <[6 := (DestroyUsers, 0)]> (<[6 := (Idle, 0)]> (<[5 := (Idle, 1)]> (<[5 := (LockStore, 0)]> (<[5 := (LockCount, 0)]>
    (<[5 := (LockNative, 0)]> (<[5 := (LockIncrement 0, 0)]> (<[5 := (LockUsers, 0)]> (<[5 := (LockOwner, 0)]> (<[5 := (Idle, 0)]> ∅))))))))))) as Hr.
  { eapply rtc_l; [apply (step_thread _ _ 5); [done | reflexivity] |]. eapply rtc_l; [apply (step_lock _ _ 5 0); [reflexivity | reflexivity | quiet] |]. do 6 run_step 5.
    eapply rtc_l; [apply (step_thread _ _ 6); [done | reflexivity] |]. eapply rtc_l; [apply (step_destroy _ _ 6 0); [reflexivity | reflexivity | quiet] |]. apply rtc_refl. }
  destruct (linux_mutex_correct (H := arch64) true _ _ Hr) as (_ & _ & _ & _ & _ & Ho & _).
  destruct (Ho 5 Idle 1 eq_refl (or_intror eq_refl)) as [Hb _].
  split; [exact Hr |]. split; [reflexivity |]. split; [reflexivity |]. split; [exact Hb |]. split; [discriminate | reflexivity].
Defined.
End LinuxMutexSample.
