(* ===== verification/LinuxEvents.v ===== *)
(** * LinuxEvents.v: events of the Linux port

    [Events] of [src/crates/dotnet-pal-linux/src/linux.rs]: a pthread mutex and a condition variable around three words.
    A call is cut at its waits, as in [Monitors.v]: what it does between taking and giving up the mutex is one step.  A
    thread that waits sleeps on the condition variable or has been woken, with the answer of its wait: 0 for a
    notification or for no reason, [ETIMEDOUT] when its deadline has passed.

    The theorem: every run of the event is a run of the event of the standard-library ports with the same results, but for
    calls that fail before they touch the event, and so no signal is lost, not even to a thread whose wait timed out
    ([linux_event_refines]). *)
From S2P Require Import Prelude Port Monitors Libc.
Import Errno.
Local Open Scope Z_scope.
Local Open Scope pal_scope.

Definition INFINITE : Z := u64_max.
Definition NANOS : Z := 1000000000.
(** [time_t] has 64 bits. *)
Definition time_max : Z := i64_max.

(** ** Time *)
Definition timespec : Type := Z * Z.
Definition valid_time (t : timespec) : bool := negb (t.1 <? 0) && ((0 <=? t.2) && (t.2 <? NANOS)).
Definition nanoseconds (t : timespec) : Z := t.1 * NANOS + t.2.
(** [Clock::monotonic_ns] and [Realtime::realtime_ns]; [now] is what [clock_gettime] answers. *)
Definition clock_ns (now : option timespec) : Result Z :=
  match now with
  | None => Err EOs
  | Some now =>
      if negb (valid_time now) then Err EOs else
      if u64_max <? now.1 * NANOS then Err EOs else ok_or (checked_add u64_max (now.1 * NANOS) now.2) EOs
  end.
Definition deadline (now : option timespec) (ns : Z) : Result timespec :=
  match now with
  | None => Err EOs
  | Some now =>
      if negb (valid_time now) then Err EOs else
      let nanos := now.2 + ns mod NANOS in
      let? seconds := ok_or (seconds ← checked_add u64_max now.1 (ns / NANOS); checked_add u64_max seconds (nanos / NANOS)) EInvalidArgument in
      if seconds <=? time_max then Ok (seconds, nanos mod NANOS) else Err EInvalidArgument
  end.

(** A deadline is the time plus the timeout, to the nanosecond, or is refused when it is past the last second of [time_t]. *)
Lemma deadline_exact now ns : valid_time now = true -> now.1 <= time_max -> 0 <= ns <= u64_max ->
  deadline (Some now) ns = let end_ := nanoseconds now + ns in if end_ / NANOS <=? time_max then Ok (end_ / NANOS, end_ mod NANOS) else Err EInvalidArgument.
Proof.
  intros Hv Hmax Hns. pose proof Hv as Hv2. unfold valid_time in Hv2. apply andb_true_iff in Hv2 as [Hs [Hn1 Hn2]%andb_true_iff]. unfold deadline, nanoseconds. rewrite Hv. cbn [negb].
  assert (0 <= now.1 /\ 0 <= now.2 < NANOS) as [Hs0 Hn0] by lia. clear Hv Hs Hn1 Hn2. pose proof (Z.div_mod ns NANOS ltac:(done)) as Hdm. pose proof (Z.mod_pos_bound ns NANOS ltac:(done)) as Hm.
  generalize dependent (ns / NANOS). generalize dependent (ns mod NANOS). intros r Hr q Hq. set (nanos := now.2 + r).
  assert (now.1 * NANOS + now.2 + ns = (now.1 + q) * NANOS + nanos) as -> by (unfold nanos; lia). rewrite Z.div_add_l by done. rewrite (Z.add_comm ((now.1 + q) * NANOS)), Z.mod_add by done.
  assert (0 <= nanos < 2 * NANOS) as Hnanos by (unfold nanos; lia). clearbody nanos. pose proof (Z.div_pos nanos NANOS). assert (nanos / NANOS < 2) by (apply Z.div_lt_upper_bound; lia).
  unfold time_max, i64_max, u64_max, NANOS in *. unfold checked_add. rewrite (proj2 (Z.leb_le (now.1 + q) _)) by lia. cbn [mbind option_bind]. rewrite (proj2 (Z.leb_le (now.1 + q + _) _)) by lia. done.
Qed.
(** ** The event *)
Record Event := mkEvent { e_manual : bool; e_signaled : bool; e_waiters : Z }.
Definition event_new (manual initial : bool) : Event := mkEvent manual initial 0.
Definition set_signaled (b : bool) (e : Event) : Event := mkEvent (e_manual e) b (e_waiters e).
Definition set_waiters (n : Z) (e : Event) : Event := mkEvent (e_manual e) (e_signaled e) n.
(** [set] and [reset] with what the lock, the notification and the unlock answer; [set] tells whether all waiters were
    notified or one. *)
Definition set (lock notify unlock : Z) (e : Event) : Event * option bool * Result unit :=
  match native_status lock with
  | Err err => (e, None, Err err)
  | Ok _ => (set_signaled true e, Some (e_manual e), native_status (if negb (notify =? 0) then notify else unlock))
  end.
Definition reset (lock unlock : Z) (e : Event) : Event * Result unit :=
  match native_status lock with Err err => (e, Err err) | Ok _ => (set_signaled false e, native_status unlock) end.
(** The end of [wait], with the mutex held again; [rc] is the answer of the last wait. *)
Definition finish (rc : Z) (e : Event) : Event * Z :=
  let '(e, rc) := if ((rc =? 0) || (rc =? ETIMEDOUT)) && e_signaled e then (if negb (e_manual e) then set_signaled false e else e, 0) else (e, rc) in
  (set_waiters (e_waiters e - 1) e, rc).
Definition leave (unlock : Z) (x : Event * Z) : Event * option (Result unit) := (x.1, Some (native_status (if negb (unlock =? 0) then unlock else x.2))).
(** The head of the loop of [wait]; without a result the thread sleeps.  A thread can unlock the mutex it holds. *)
Definition wait_loop (ns : Z) (e : Event) : Event * option (Result unit) :=
  if e_signaled e then leave 0 (finish 0 e) else if ns =? 0 then leave 0 (finish ETIMEDOUT e) else (e, None).
(** The thread has taken the mutex, for the first time or with the answer of its wait. *)
Definition wait_enter (ns : Z) (e : Event) : Event * option (Result unit) := wait_loop ns (set_waiters (e_waiters e + 1) e).
Definition wait_woken (ns rc : Z) (e : Event) : Event * option (Result unit) := if negb (rc =? 0) then leave 0 (finish rc e) else wait_loop ns e.
(** Before the mutex: the deadline, and what the lock answers. *)
Definition wait_deadline (now : option timespec) (ns : Z) : Result timespec :=
  if negb (ns =? 0) && negb (ns =? INFINITE) then deadline now ns else Ok (0, 0).
Definition before_lock (now : option timespec) (ns lock : Z) : Result timespec :=
  let? end_ := wait_deadline now ns in let? _ := native_status lock in Ok end_.

(** ** The threads in [wait] *)
Inductive Place := Sleeping (ns : Z) (end_ : timespec) | Woken (ns : Z) (end_ : timespec) (rc : Z).
Notation Waiters := (gmap nat Place).
Implicit Types ts : Waiters.
Definition wake (rc : Z) (p : Place) : Place := match p with Sleeping ns end_ => Woken ns end_ rc | p => p end.
Definition cond_broadcast ts : Waiters := wake 0 <$> ts.
Inductive cond_signal ts : Waiters -> Prop :=
| signal_some t ns end_ : ts !! t = Some (Sleeping ns end_) -> cond_signal ts (<[t := Woken ns end_ 0]> ts)
| signal_none : (forall t ns end_, ts !! t <> Some (Sleeping ns end_)) -> cond_signal ts ts.
Notation Label := StdEvent.Label.
Inductive step : Event * Waiters -> Label -> Event * Waiters -> Prop :=
| step_set_manual e ts e1 : set 0 0 0 e = (e1, Some true, Ok tt) -> step (e, ts) StdEvent.Set_ (e1, cond_broadcast ts)
| step_set_auto e ts e1 ts1 : set 0 0 0 e = (e1, Some false, Ok tt) -> cond_signal ts ts1 -> step (e, ts) StdEvent.Set_ (e1, ts1)
| step_reset e ts e1 : reset 0 0 e = (e1, Ok tt) -> step (e, ts) StdEvent.Reset (e1, ts)
| step_refused e ts t now ns lock err : ts !! t = None -> before_lock now ns lock = Err err -> step (e, ts) (StdEvent.Released t (Err err)) (e, ts)
| step_wait_now e ts t now ns lock end_ e1 r : ts !! t = None -> before_lock now ns lock = Ok end_ -> wait_enter ns e = (e1, Some r) -> step (e, ts) (StdEvent.Released t r) (e1, ts)
| step_wait_sleep e ts t now ns lock end_ e1 : ts !! t = None -> before_lock now ns lock = Ok end_ -> wait_enter ns e = (e1, None) -> step (e, ts) StdEvent.Quiet (e1, <[t := Sleeping ns end_]> ts)
| step_spurious e ts t ns end_ : ts !! t = Some (Sleeping ns end_) -> step (e, ts) StdEvent.Quiet (e, <[t := Woken ns end_ 0]> ts)
| step_timeout e ts t ns end_ : ts !! t = Some (Sleeping ns end_) -> ns <> INFINITE -> step (e, ts) StdEvent.Quiet (e, <[t := Woken ns end_ ETIMEDOUT]> ts)
| step_return e ts t ns end_ rc e1 r : ts !! t = Some (Woken ns end_ rc) -> wait_woken ns rc e = (e1, Some r) -> step (e, ts) (StdEvent.Released t r) (e1, delete t ts)
| step_sleep e ts t ns end_ rc e1 : ts !! t = Some (Woken ns end_ rc) -> wait_woken ns rc e = (e1, None) -> step (e, ts) StdEvent.Quiet (e1, <[t := Sleeping ns end_]> ts).
Inductive run (e0 : Event) : list Label -> Event * Waiters -> Prop :=
| run_new : e_waiters e0 = 0 -> run e0 [] (e0, ∅)
| run_step tr s l s1 : run e0 tr s -> step s l s1 -> run e0 (l :: tr) s1.

(** ** The simulation *)
(** Runs of the event of the standard-library ports, with what they show. *)
Inductive std_run (st0 : StdEvent.EventState) : list Label -> StdEvent.EventState * StdEvent.Waiting -> Prop :=
| std_new : StdEvent.waiters st0 = 0 -> std_run st0 [] (st0, ∅)
| std_step tr s l s1 : std_run st0 tr s -> StdEvent.step s l s1 -> std_run st0 (l :: tr) s1.
Lemma std_run_reach st0 tr s : std_run st0 tr s -> StdEvent.reach st0 s.
Proof. induction 1; [by apply StdEvent.reach_new | by eapply StdEvent.reach_step]. Qed.
Definition std (e : Event) : StdEvent.EventState := StdEvent.mkEvent (e_manual e) (e_signaled e) (e_waiters e).
Definition std_deadline (ns : Z) (end_ : timespec) : option Z := if ns =? INFINITE then None else Some (nanoseconds end_).
Definition view (p : Place) : Phase (option Z) :=
  match p with Sleeping ns end_ => Asleep (std_deadline ns end_) | Woken ns end_ _ => Awake (std_deadline ns end_) end.
(** A wait answers 0, or [ETIMEDOUT] when it has a deadline. *)
Definition place_ok (p : Place) : Prop := match p with Sleeping ns _ => ns <> 0 | Woken ns _ rc => ns <> 0 /\ (rc = 0 \/ rc = ETIMEDOUT /\ ns <> INFINITE) end.
Definition places_ok ts : Prop := map_Forall (fun _ p => place_ok p) ts.
Lemma loop_signaled now d st : StdEvent.signaled st = true -> StdEvent.event_loop now d st = (StdEvent.mkEvent (StdEvent.manual st) (if StdEvent.manual st then true else false) (StdEvent.waiters st - 1), Some (Ok tt)).
Proof. unfold StdEvent.event_loop. intros ->. done. Qed.
Lemma finish_signaled rc e : e_signaled e = true -> rc = 0 \/ rc = ETIMEDOUT -> finish rc e = (mkEvent (e_manual e) (if e_manual e then true else false) (e_waiters e - 1), 0).
Proof. intros Hs Hrc. unfold finish. rewrite Hs. destruct e as [[] sg w], Hrc as [-> | ->]; simpl in *; by subst. Qed.
Lemma finish_timeout e : e_signaled e = false -> finish ETIMEDOUT e = (set_waiters (e_waiters e - 1) e, ETIMEDOUT).
Proof. intros Hs. unfold finish. by rewrite Hs. Qed.
(** A turn of the loop, for some time. *)
Lemma loop_simulates ns end_ e e1 o : wait_loop ns e = (e1, o) -> ns <> 0 -> exists now, StdEvent.event_loop now (std_deadline ns end_) (std e) = (std e1, o).
Proof.
  unfold wait_loop, leave, native_status. intros E Hns. destruct (e_signaled e) eqn:Hs.
  - exists 0. rewrite loop_signaled by done. rewrite finish_signaled in E by auto. by simplify_eq/=.
  - rewrite (proj2 (Z.eqb_neq ns 0)) in E by done. simplify_eq. unfold StdEvent.event_loop. simpl. rewrite Hs. unfold std_deadline. destruct (ns =? INFINITE); [by exists 0 |].
    exists (nanoseconds end_ - 1). rewrite (proj2 (Z.leb_gt _ _)) by lia. done.
Qed.
Lemma woken_simulates ns end_ rc e e1 o : wait_woken ns rc e = (e1, o) -> place_ok (Woken ns end_ rc) -> exists now, StdEvent.event_loop now (std_deadline ns end_) (std e) = (std e1, o).
Proof.
  unfold wait_woken, leave, native_status. intros E [Hns [-> | [-> Hinf]]]; [by apply loop_simulates |]. cbn [negb Z.eqb ETIMEDOUT] in E. destruct (e_signaled e) eqn:Hs.
  - exists 0. rewrite loop_signaled by done. rewrite finish_signaled in E by auto. by simplify_eq/=.
  - rewrite finish_timeout in E by done. simplify_eq/=. exists (nanoseconds end_). unfold StdEvent.event_loop. simpl. rewrite Hs. unfold std_deadline. rewrite (proj2 (Z.eqb_neq ns INFINITE)) by done. rewrite Z.leb_refl. unfold std. simpl. by rewrite Hs.
Qed.
Lemma enter_simulates ns end_ e e1 o : wait_enter ns e = (e1, o) -> exists now d, StdEvent.event_loop now d (StdEvent.event_enter (std e)) = (std e1, o) /\ (o = None -> ns <> 0 /\ d = std_deadline ns end_).
Proof.
  unfold wait_enter. intros E. destruct (Z.eq_dec ns 0) as [-> | Hns].
  - destruct (e_signaled e) eqn:Hs; unfold wait_loop, leave, native_status in E; simpl in E; rewrite Hs in E.
    + exists 0, None. rewrite loop_signaled by done. rewrite finish_signaled in E by auto. by simplify_eq/=.
    + rewrite finish_timeout in E by done. exists 0, (Some 0). unfold StdEvent.event_loop. simpl. rewrite Hs. simplify_eq/=. unfold std. simpl. by rewrite Hs.
  - destruct (loop_simulates ns end_ _ _ _ E Hns) as [now Hnow]. by exists now, (std_deadline ns end_).
Qed.
Lemma broadcast_simulates ts : view <$> cond_broadcast ts = notify_all (view <$> ts).
Proof. apply map_eq. intros t. unfold cond_broadcast, notify_all. rewrite !lookup_fmap. by destruct (ts !! t) as [[] |]. Qed.
Lemma signal_simulates ts ts1 : cond_signal ts ts1 -> notify_one (view <$> ts) (view <$> ts1).
Proof.
  intros [t ns end_ Ht | Hno]; [rewrite fmap_insert; apply notify_some; by rewrite lookup_fmap, Ht |]. apply notify_none. intros (t & k & Hk). rewrite lookup_fmap in Hk.
  destruct (ts !! t) as [[ns end_ | ns end_ rc] |] eqn:E; simplify_eq/=. by eapply Hno.
Qed.
Lemma step_places s l s1 : step s l s1 -> places_ok s.2 -> places_ok s1.2.
Proof.
  intros Hstep Hok. destruct Hstep as [e ts e1 _ | e ts e1 ts1 _ Hsig | e ts e1 _ | e ts | e ts | e ts t now ns lock end_ e1 Ht _ E | e ts t ns end_ Ht | e ts t ns end_ Ht Hns | e ts t | e ts t ns end_ rc e1 Ht E]; cbn [snd] in *; try done.
  - intros t p. unfold cond_broadcast. rewrite lookup_fmap. destruct (ts !! t) as [q |] eqn:Eq; [| done]. intros [= <-]. specialize (Hok t q Eq). destruct q; simpl in *; [by auto | done].
  - destruct Hsig as [t ns end_ Ht |]; [| done]. apply map_Forall_insert_2; [| done]. specialize (Hok t _ Ht). simpl in *. by auto.
  - apply map_Forall_insert_2; [| done]. by destruct (enter_simulates ns end_ _ _ _ E) as (_ & _ & _ & [? _]).
  - apply map_Forall_insert_2; [| done]. specialize (Hok t _ Ht). simpl in *. by auto.
  - apply map_Forall_insert_2; [| done]. specialize (Hok t _ Ht). simpl in *. by auto.
  - by apply map_Forall_delete.
  - apply map_Forall_insert_2; [| done]. specialize (Hok t _ Ht). by destruct Hok.
Qed.
(** Calls that fail before they touch the event are not seen in the other event. *)
Definition refused (l : Label) : Prop := exists t err, l = StdEvent.Released t (Err err).
Lemma step_simulates e ts l e1 ts1 : step (e, ts) l (e1, ts1) -> places_ok ts ->
  StdEvent.step (std e, view <$> ts) l (std e1, view <$> ts1) \/ refused l /\ e1 = e /\ ts1 = ts.
Proof.
  intros Hstep Hok. assert (forall t, ts !! t = None -> (view <$> ts) !! t = None) as Hnone by (intros t Ht; by rewrite lookup_fmap, Ht).
  inversion Hstep as [? ? ? Hm | ? ? ? ? Hm Hsig | ? ? ? Hm | ? ? t now ns lock err Ht Hbe | ? ? t now ns lock end_ ? r Ht Hbe E | ? ? t now ns lock end_ ? Ht Hbe E | ? ? t ns end_ Ht | ? ? t ns end_ Ht Hns | ? ? t ns end_ rc ? r Ht E | ? ? t ns end_ rc ? Ht E]; subst.
  - left. injection Hm as <- Hm. rewrite broadcast_simulates. by apply (StdEvent.step_set_manual (std e)).
  - left. injection Hm as <- Hm. apply (StdEvent.step_set_auto (std e)); [done | by apply signal_simulates].
  - left. injection Hm as <-. apply (StdEvent.step_reset (std e)).
  - right. split_and!; try done. by exists t, err.
  - left. destruct (enter_simulates ns end_ _ _ _ E) as (now1 & d & H1 & _). eapply StdEvent.step_wait_now; eauto.
  - left. destruct (enter_simulates ns end_ _ _ _ E) as (now1 & d & H1 & H2). destruct (H2 eq_refl) as [_ ->]. rewrite fmap_insert. eapply StdEvent.step_wait_sleep; eauto.
  - left. rewrite fmap_insert. apply StdEvent.step_wake. by rewrite lookup_fmap, Ht.
  - left. rewrite fmap_insert. apply StdEvent.step_wake. by rewrite lookup_fmap, Ht.
  - left. destruct (woken_simulates ns end_ rc _ _ _ E (Hok t _ Ht)) as [now1 H1]. rewrite fmap_delete. eapply StdEvent.step_return; [| done]. by rewrite lookup_fmap, Ht.
  - left. destruct (woken_simulates ns end_ rc _ _ _ E (Hok t _ Ht)) as [now1 H1]. rewrite fmap_insert. eapply StdEvent.step_sleep; [| done]. by rewrite lookup_fmap, Ht.
Qed.
Lemma run_places e0 tr s : run e0 tr s -> places_ok s.2.
Proof. induction 1 as [H0 | tr s l s1 _ IH Hstep]; [apply map_Forall_empty | by eapply step_places]. Qed.
(** What a run has shown, but for failures. *)
Definition shown (l : Label) : bool := match l with StdEvent.Released _ (Err _) => false | _ => true end.
Lemma run_simulates e0 tr s : run e0 tr s -> exists tr1, std_run (std e0) tr1 (std s.1, view <$> s.2) /\ sublist tr1 tr /\ filter (fun l => shown l = true) tr1 = filter (fun l => shown l = true) tr.
Proof.
  induction 1 as [H0 | tr [e ts] l [e1 ts1] Hrun IH Hstep]; cbn [fst snd] in *; [exists []; split; [rewrite fmap_empty; by apply std_new | done] |].
  destruct IH as (tr1 & Hs & Hsub & Hf). pose proof (run_places _ _ _ Hrun) as Hok.
  destruct (step_simulates _ _ _ _ _ Hstep Hok) as [Hs1 | ((t & err & ->) & -> & ->)].
  - exists (l :: tr1). split_and!; [by eapply std_step | by apply sublist_skip |]. rewrite !filter_cons. by rewrite Hf.
  - exists tr1. split_and!; [done | by apply sublist_cons |]. by rewrite filter_cons_False.
Qed.
(** C21: the event of the Linux port behaves as the event of the standard-library ports.  Every run of it, with spurious wakes, timeouts and failures of the clock and of the lock, is a run of that event in the same state and with the same successes, sets and resets, from which only calls that were refused before they touched the event are missing; so while the event is set and a thread sleeps in a wait for it, some thread has been woken and returns success when it runs, even one whose wait has timed out, and no thread sleeps while a manual-reset event is set. *)
Theorem linux_event_refines e0 tr e ts : run e0 tr (e, ts) ->
  (exists tr1, std_run (std e0) tr1 (std e, view <$> ts) /\ sublist tr1 tr /\ filter (fun l => shown l = true) tr1 = filter (fun l => shown l = true) tr) /\
  (forall t ns end_, e_signaled e = true -> ts !! t = Some (Sleeping ns end_) -> e_manual e = false /\ exists u k x rc e1, ts !! u = Some (Woken k x rc) /\ wait_woken k rc e = (e1, Some (Ok tt))) /\
  (e_waiters e = Z.of_nat (size ts)).
Proof.
  intros Hr. destruct (run_simulates _ _ _ Hr) as (tr1 & Hs & Hrest). pose proof (run_places _ _ _ Hr) as Hok. cbn [fst snd] in *.
  destruct (StdEvent.event_reach_ok _ _ (std_run_reach _ _ _ Hs)) as [Hw Hm Ha]. cbn [fst snd std StdEvent.waiters StdEvent.manual StdEvent.signaled] in *. rewrite map_size_fmap in Hw.
  split_and!; [by exists tr1 | | done]. intros t ns end_ Hsig Ht. assert (sleeper (view <$> ts)) as Hsl by (exists t, (std_deadline ns end_); by rewrite lookup_fmap, Ht).
  split; [destruct (e_manual e); [by destruct (Hm eq_refl Hsig) | done] |]. destruct (Ha Hsig Hsl) as (u & k & Hu). rewrite lookup_fmap in Hu. destruct (ts !! u) as [[|ns1 end1 rc] |] eqn:Eu; simplify_eq/=.
  specialize (Hok u _ Eu). destruct Hok as [_ Hrc]. unfold wait_woken, wait_loop, leave. eexists u, ns1, end1, rc, _. split; [done |].
  rewrite Hsig. destruct Hrc as [-> | [-> _]]; cbn [negb Z.eqb ETIMEDOUT]; rewrite finish_signaled by auto; done.
Qed.
(** ** A run: three threads wait, one wait times out, and the event is set *)
Definition three : Waiters := <[3%nat := Woken INFINITE (0, 0) 0]> (<[2%nat := Woken 9 (7, 9) ETIMEDOUT]> (<[3%nat := Sleeping INFINITE (0, 0)]> (<[2%nat := Sleeping 9 (7, 9)]> (<[1%nat := Sleeping INFINITE (0, 0)]> ∅)))).
Lemma linux_event_refines_witness : exists u k x rc e1, three !! u = Some (Woken k x rc) /\ wait_woken k rc (mkEvent false true 3) = (e1, Some (Ok tt)).
Proof.
  destruct (linux_event_refines (event_new false false) [StdEvent.Set_; StdEvent.Quiet; StdEvent.Quiet; StdEvent.Quiet; StdEvent.Quiet] (mkEvent false true 3) three) as (_ & H & _).
  - eapply run_step; [| apply (step_set_auto (mkEvent false false 3)); [reflexivity | apply (signal_some _ 3%nat INFINITE (0, 0)); reflexivity]].
    eapply run_step; [| apply (step_timeout _ _ 2%nat 9 (7, 9)); [reflexivity | discriminate]].
    eapply run_step; [| apply (step_wait_sleep (mkEvent false false 2) _ 3%nat (Some (7, 0)) INFINITE 0); reflexivity].
    eapply run_step; [| apply (step_wait_sleep (mkEvent false false 1) _ 2%nat (Some (7, 0)) 9 0); reflexivity].
    eapply run_step; [| apply (step_wait_sleep (event_new false false) _ 1%nat (Some (7, 0)) INFINITE 0); reflexivity]. apply run_new. reflexivity.
  - apply (H 1%nat INFINITE (0, 0)); reflexivity.
Defined.
