(* ===== verification/LinuxKernel.v ===== *)
(** * LinuxKernel.v: how the Linux port makes and destroys kernel objects

    [Events], [Mutexes], [Threads], [ThreadLocal] and [RwLocks] of [src/crates/dotnet-pal-linux/src/linux.rs]: each handle
    is a block of the C library's heap around native objects, which are made one after another and undone when a later one
    fails.  The C library is the class [PthreadCalls]; what POSIX says of its functions is [PthreadLaws], on a view of what
    a process holds.  The waits and the locks themselves are in [LinuxEvents.v] and [LinuxMutex.v].

    The theorems: a creation that fails leaves nothing behind, wherever it fails ([creation_balanced]), and what a creation
    took is given back when the handle is consumed ([objects_given_back]). *)
From S2P Require Import Prelude Port Libc LinuxMutex LinuxEvents.
Import Errno.
Local Open Scope Z_scope.
Local Open Scope pal_scope.

(** What a process holds: blocks, native objects at their address, attributes on the stack (one of a kind at a time), threads and keys. *)
Inductive Kind := Block | NativeMutex | NativeCond | NativeRwLock | CondAttr | MutexAttr | ThreadAttr | NativeThread | Key.
#[export] Instance Kind_eq_dec : EqDecision Kind.
Proof. solve_decision. Defined.
#[export] Instance Kind_countable : Countable Kind.
Proof.
  refine (inj_countable' (fun k => match k with Block => 0 | NativeMutex => 1 | NativeCond => 2 | NativeRwLock => 3 | CondAttr => 4 | MutexAttr => 5 | ThreadAttr => 6 | NativeThread => 7 | Key => 8 end)
    (fun n => match n with 0 => Block | 1 => NativeMutex | 2 => NativeCond | 3 => NativeRwLock | 4 => CondAttr | 5 => MutexAttr | 6 => ThreadAttr | 7 => NativeThread | _ => Key end) _). by intros [].
Defined.
(** The structures behind the handles. *)
Inductive Struct := SEvent | SMutex | SThread | STls | SStart | SRwLock.

(** [k_init kind p] and [k_destroy kind p] are [pthread_mutex_init], [pthread_condattr_destroy] and the like;
    [k_spawn start] is [pthread_create] with the block that [thread_start] reads, and answers the thread. *)
Class PthreadCalls (K : Type) := {
  size_of : Struct -> Z; align_of : Struct -> Z;
  k_calloc : Z -> Z -> K -> K * Z; k_malloc : Z -> K -> K * Z; k_free : Z -> K -> K;
  k_init : Kind -> Z -> M K Z unit; k_destroy : Kind -> Z -> M K Z unit;
  k_setclock_monotonic : M K Z unit; k_settype : bool -> M K Z unit; k_setstacksize : Z -> M K Z unit;
  k_lock : Z -> M K Z unit; k_unlock : Z -> M K Z unit;
  k_rdlock : Z -> M K Z unit; k_wrlock : Z -> M K Z unit; k_rwunlock : Z -> M K Z unit;
  k_spawn : Z -> M K Z Z; k_join : Z -> M K Z unit; k_detach : Z -> M K Z unit;
  k_key_create : Z -> M K Z Z; k_key_delete : Z -> M K Z unit; k_getspecific : Z -> K -> Z; k_setspecific : Z -> Z -> M K Z unit;
}.

(** The structures in their blocks: events, mutexes, the native identifier of a thread or key, and what a thread is to run. *)
Record Objects (K : Type) := mkObjects { os : K; events : gmap Z Event; mutexes : gmap Z Mutex; natives : gmap Z Z; starts : gmap Z (Z * Z) }.
Arguments mkObjects {K} _ _ _ _ _.
Arguments os {K} _.
Arguments events {K} _.
Arguments mutexes {K} _.
Arguments natives {K} _.
Arguments starts {K} _.

Section Provider.
Context {K : Type} {C : PthreadCalls K}.
Notation Objects := (Objects K).
Definition put_os (k : K) (n : Objects) : Objects := mkObjects k (events n) (mutexes n) (natives n) (starts n).
Definition put_events e (n : Objects) : Objects := mkObjects (os n) e (mutexes n) (natives n) (starts n).
Definition put_mutexes m (n : Objects) : Objects := mkObjects (os n) (events n) m (natives n) (starts n).
Definition put_natives x (n : Objects) : Objects := mkObjects (os n) (events n) (mutexes n) x (starts n).
Definition put_starts x (n : Objects) : Objects := mkObjects (os n) (events n) (mutexes n) (natives n) x.
Definition edit (f : Objects -> Objects) : Call Objects unit := fun n => Returned (f n) (Ok tt).
(** A call whose failure is named by [status], after [undo]. *)
Definition guarded {A} (m : M K Z A) (undo : K -> K) : Call Objects A := fun n =>
  match m (os n) with
  | (k, Ok a) => Returned (put_os k n) (Ok a)
  | (k, Err code) => Returned (put_os (undo k) n) (Err (native_error code))
  end.
(** [always] is done whatever the call answers. *)
Definition and_then {A} (m : M K Z A) (always : K -> K) : M K Z A := fun k => let '(k, r) := m k in (always k, r).
Definition drop_attr (kind : Kind) (k : K) : K := (k_destroy kind 0 k).1.
Definition null_checked (f : K -> K * Z) : Call Objects Z := fun n =>
  let '(k, p) := f (os n) in Returned (put_os k n) (if p =? 0 then Err EOutOfMemory else Ok p).
Definition alloc (t : Struct) : Call Objects Z := null_checked (k_calloc 1 (size_of t)).
Definition handle (t : Struct) (p : Z) : Call Objects Z := of_result (if (p =? 0) || negb (p mod align_of t =? 0) then Err EInvalidArgument else Ok p).
Definition at_handle {A B} (find : Objects -> gmap Z A) (p : Z) (f : A -> Call Objects B) : Call Objects B := fun n =>
  match find n !! p with Some a => f a n | None => Undefined end.

(** ** Events *)
Definition event_create (manual initial : bool) : Call Objects Z :=
  let* p := alloc SEvent in
  let* _ := guarded (k_init CondAttr 0) (k_free p) in
  let* _ := guarded k_setclock_monotonic (fun k => k_free p (drop_attr CondAttr k)) in
  let* _ := guarded (k_init NativeMutex p) (fun k => k_free p (drop_attr CondAttr k)) in
  let* _ := guarded (and_then (k_init NativeCond p) (drop_attr CondAttr)) (fun k => k_free p (k_destroy NativeMutex p k).1) in
  let* _ := edit (fun n => put_events (<[p := LinuxEvents.event_new manual initial]> (events n)) n) in
  give p.
(** The structure goes with its block. *)
Definition free_block {A} (find : Objects -> gmap Z A) (put : gmap Z A -> Objects -> Objects) (p : Z) : Call Objects unit :=
  edit (fun n => put_os (k_free p (os n)) (put (delete p (find n)) n)).
Definition event_destroy (h : Z) : Call Objects unit :=
  let* p := handle SEvent h in
  at_handle events p (fun e =>
    let* _ := guarded (k_lock p) id in
    if negb (e_waiters e =? 0) then let* _ := edit (fun n => put_os (k_unlock p (os n)).1 n) in refuse_with EBusy else
    fun n =>
      let '(k, rc) := k_destroy NativeCond p (os n) in
      let '(k, unlock) := k_unlock p k in
      (let* _ := guarded (fun k => (k, rc)) id in
       let* _ := guarded (fun k => (k, unlock)) id in
       let* _ := guarded (k_destroy NativeMutex p) id in
       free_block events put_events p) (put_os k n)).

(** ** Mutexes *)
Definition mutex_create (recursive : bool) : Call Objects Z :=
  let* p := alloc SMutex in
  let* _ := guarded (k_init MutexAttr 0) (k_free p) in
  let* _ := guarded (and_then (fun k => match k_settype recursive k with (k, Ok _) => k_init NativeMutex p k | (k, Err code) => (k, Err code) end) (drop_attr MutexAttr)) (k_free p) in
  let* _ := edit (fun n => put_mutexes (<[p := mutex_new recursive]> (mutexes n)) n) in
  give p.
(** One call without other threads; [LinuxMutex.destroy] is the same among other threads. *)
Definition mutex_destroy (h : Z) : Call Objects unit :=
  let* p := handle SMutex h in
  at_handle mutexes p (fun m =>
    if negb (users m =? 0) then refuse_with EBusy else
    let* _ := guarded (k_destroy NativeMutex p) id in
    free_block mutexes put_mutexes p).

(** ** Threads *)
Definition thread_create (entry arg stack : Z) : Call Objects Z :=
  let* p := alloc SThread in
  let* start := (fun n => match alloc SStart n with
                         | Returned n (Err e) => Returned (put_os (k_free p (os n)) n) (Err e)
                         | r => r end) in
  let* _ := edit (fun n => put_starts (<[start := (entry, arg)]> (starts n)) n) in
  let* id := (fun n =>
    match guarded (fun k =>
      match k_init ThreadAttr 0 k with
      | (k, Err code) => (k, Err code)
      | (k, Ok _) =>
          and_then (fun k => match (if stack =? 0 then (k, Ok tt) else k_setstacksize stack k) with
                             | (k, Err code) => (k, Err code)
                             | (k, Ok _) => k_spawn start k
                             end) (drop_attr ThreadAttr) k
      end) (fun k => k_free p (k_free start k)) n with
    | Returned n (Err e) => Returned (put_starts (delete start (starts n)) n) (Err e)
    | r => r
    end) in
  let* _ := edit (fun n => put_natives (<[p := id]> (natives n)) n) in
  give p.
(** What the new thread does first: it takes the block, and runs the entry with its argument. *)
Definition thread_start (data : Z) : Call Objects (Z * Z) :=
  at_handle starts data (fun start => let* _ := free_block starts put_starts data in give start).
Definition thread_consume (call : Z -> M K Z unit) (h : Z) : Call Objects unit :=
  let* p := handle SThread h in
  at_handle natives p (fun id => let* _ := guarded (call id) Datatypes.id in free_block natives put_natives p).
Definition thread_join : Z -> Call Objects unit := thread_consume k_join.
Definition thread_detach : Z -> Call Objects unit := thread_consume k_detach.

(** ** Thread-local slots *)
Definition tls_create (dtor : Z) : Call Objects Z :=
  let* p := alloc STls in
  let* key := guarded (k_key_create dtor) (k_free p) in
  let* _ := edit (fun n => put_natives (<[p := key]> (natives n)) n) in
  give p.
Definition tls_destroy (h : Z) : Call Objects unit :=
  let* p := handle STls h in
  at_handle natives p (fun key => let* _ := guarded (k_key_delete key) id in free_block natives put_natives p).
Definition tls_get (h : Z) : Call Objects Z := let* p := handle STls h in at_handle natives p (fun key n => Returned n (Ok (k_getspecific key (os n)))).
Definition tls_set (h value : Z) : Call Objects unit := let* p := handle STls h in at_handle natives p (fun key => guarded (k_setspecific key value) id).

(** ** Reader/writer locks *)
Definition rwlock_create : Call Objects Z :=
  let* p := null_checked (k_malloc (size_of SRwLock)) in
  let* _ := guarded (k_init NativeRwLock p) (k_free p) in
  give p.
Definition rwlock_read (p : Z) : Call Objects unit := guarded (k_rdlock p) id.
Definition rwlock_write (p : Z) : Call Objects unit := guarded (k_wrlock p) id.
Definition rwlock_unlock (p : Z) : Call Objects unit := guarded (k_rwunlock p) id.
Definition rwlock_destroy (p : Z) : Call Objects unit :=
  let* _ := guarded (k_destroy NativeRwLock p) id in
  edit (fun n => put_os (k_free p (os n)) n).
End Provider.

(** ** What POSIX says *)
Definition on_stack (kind : Kind) : bool := match kind with CondAttr | MutexAttr | ThreadAttr => true | _ => false end.
Definition in_block (kind : Kind) : bool := match kind with Block | NativeMutex | NativeCond | NativeRwLock => true | _ => false end.
(** [live] is what the process holds, [locked] the native mutexes that are locked.  A block that is handed out is nobody
    else's; an object is made or not; what cannot be destroyed stays; the attributes, and a mutex nobody has locked, can be
    destroyed. *)
Class PthreadLaws (K : Type) `{PthreadCalls K} := {
  live : K -> gset (Kind * Z); locked : K -> gset Z;
  l_calloc n size k k1 p : k_calloc n size k = (k1, p) -> locked k1 = locked k /\
    if p =? 0 then live k1 = live k else (forall kind, in_block kind = true -> (kind, p) ∉ live k) /\ live k1 = {[(Block, p)]} ∪ live k;
  l_malloc size k k1 p : k_malloc size k = (k1, p) -> locked k1 = locked k /\
    if p =? 0 then live k1 = live k else (forall kind, in_block kind = true -> (kind, p) ∉ live k) /\ live k1 = {[(Block, p)]} ∪ live k;
  l_free p k : live (k_free p k) = live k ∖ {[(Block, p)]};
  l_init kind p k k1 r : k_init kind p k = (k1, r) -> live k1 = (if r then {[(kind, p)]} ∪ live k else live k) /\ (p ∉ locked k -> p ∉ locked k1);
  l_destroy kind p k k1 r : k_destroy kind p k = (k1, r) -> live k1 = (if r then live k ∖ {[(kind, p)]} else live k) /\ forall q, q ∉ locked k -> q ∉ locked k1;
  l_attr kind k k1 r : on_stack kind = true -> k_destroy kind 0 k = (k1, r) -> r = Ok tt;
  l_unlocked p k k1 r : p ∉ locked k -> (NativeMutex, p) ∈ live k -> k_destroy NativeMutex p k = (k1, r) -> r = Ok tt;
  l_fresh p k : (NativeMutex, p) ∉ live k -> p ∉ locked k;
  l_settings k k1 r b n : k_setclock_monotonic k = (k1, r) \/ k_settype b k = (k1, r) \/ k_setstacksize n k = (k1, r) -> live k1 = live k /\ locked k1 = locked k;
  l_locks p k k1 r : k_lock p k = (k1, r) \/ k_unlock p k = (k1, r) -> live k1 = live k;
  l_spawn start k k1 r : k_spawn start k = (k1, r) -> match r with Ok id => (NativeThread, id) ∉ live k /\ live k1 = {[(NativeThread, id)]} ∪ live k | Err _ => live k1 = live k end;
  l_join id k k1 r : k_join id k = (k1, r) \/ k_detach id k = (k1, r) -> live k1 = if r then live k ∖ {[(NativeThread, id)]} else live k;
  l_key dtor k k1 r : k_key_create dtor k = (k1, r) -> match r with Ok key => (Key, key) ∉ live k /\ live k1 = {[(Key, key)]} ∪ live k | Err _ => live k1 = live k end;
  l_delete key k k1 r : k_key_delete key k = (k1, r) -> live k1 = if r then live k ∖ {[(Key, key)]} else live k;
}.

(** ** Creations and their ends *)
Inductive Creation := MakeEvent (manual initial : bool) | MakeMutex (recursive : bool) | MakeThread (entry arg stack : Z) | MakeTls (dtor : Z) | MakeRwLock.
Section Balance.
Context {K : Type} `{PthreadLaws K}.
Notation Objects := (Objects K).
Definition create (c : Creation) : Call Objects Z :=
  match c with
  | MakeEvent manual initial => event_create manual initial
  | MakeMutex recursive => mutex_create recursive
  | MakeThread entry arg stack => thread_create entry arg stack
  | MakeTls dtor => tls_create dtor
  | MakeRwLock => rwlock_create
  end.
(** The call that consumes the handle; a thread has started before it is joined. *)
Definition consume (c : Creation) (start p : Z) : Call Objects unit :=
  match c with
  | MakeEvent _ _ => event_destroy p
  | MakeMutex _ => mutex_destroy p
  | MakeThread _ _ _ => let* _ := thread_start start in thread_join p
  | MakeTls _ => tls_destroy p
  | MakeRwLock => rwlock_destroy p
  end.
(** What a handle stands for, beside its block: [start] and the native identifier are the creation's. *)
Definition owned (c : Creation) (start native p : Z) : gset (Kind * Z) :=
  match c with
  | MakeEvent _ _ => {[(Block, p); (NativeMutex, p); (NativeCond, p)]}
  | MakeMutex _ => {[(Block, p); (NativeMutex, p)]}
  | MakeThread _ _ _ => {[(Block, p); (Block, start); (NativeThread, native)]}
  | MakeTls _ => {[(Block, p); (Key, native)]}
  | MakeRwLock => {[(Block, p); (NativeRwLock, p)]}
  end.
(** No attributes are being used: they live inside a call. *)
Definition settled (l : gset (Kind * Z)) : Prop := forall kind, on_stack kind = true -> (kind, 0) ∉ l.
Lemma guarded_inv {A} (m : M K Z A) undo n n1 r : guarded m undo n = Returned n1 r ->
  exists k s, m (os n) = (k, s) /\ match s with Ok a => n1 = put_os k n /\ r = Ok a | Err code => n1 = put_os (undo k) n /\ r = Err (native_error code) end.
Proof. unfold guarded. destruct (m (os n)) as [k [a | code]]; intros; simplify_eq; eexists _, _; split; done. Qed.
Lemma alloc_inv f n n1 r : null_checked f n = Returned n1 r -> (forall k k1 p, f k = (k1, p) -> locked k1 = locked k /\
    if p =? 0 then live k1 = live k else (forall kind, in_block kind = true -> (kind, p) ∉ live k) /\ live k1 = {[(Block, p)]} ∪ live k) ->
  exists k, n1 = put_os k n /\ locked k = locked (os n) /\
  match r with Err _ => live k = live (os n) | Ok p => p <> 0 /\ (forall kind, in_block kind = true -> (kind, p) ∉ live (os n)) /\ live k = {[(Block, p)]} ∪ live (os n) end.
Proof.
  unfold null_checked. destruct (f (os n)) as [k p] eqn:E. intros [= <- <-] Hl. exists k. destruct (Hl _ _ _ E) as [Hk Hp]. split; [done |]. split; [done |].
  destruct (Z.eqb_spec p 0); [done |]. by destruct Hp.
Qed.
Lemma drop_attr_live kind k : on_stack kind = true -> live (drop_attr kind k) = live k ∖ {[(kind, 0)]} /\ forall q, q ∉ locked k -> q ∉ locked (drop_attr kind k).
Proof. intros Hk. unfold drop_attr. destruct (k_destroy kind 0 k) as [k1 r] eqn:E. pose proof (l_attr _ _ _ _ Hk E) as ->. by apply (l_destroy _ _ _ _ _ E). Qed.
Lemma taken_out (x : Kind * Z) (X : gset (Kind * Z)) : x ∉ X -> ({[x]} ∪ X) ∖ {[x]} = X.
Proof. set_solver. Qed.
(** The next guarded call of a creation: it succeeds, or the creation ends with what was undone. *)
Ltac next_call E k Hk := apply then_Returned in E as [(? & ? & Hk & E) | (? & Hk & ->)]; apply guarded_inv in Hk as (k & [? | ?] & Hk & ?); destruct_and?; simplify_eq; cbn [os put_os] in *.
Ltac balance := rewrite ?l_free; repeat match goal with H : forall _ : _, _ |- _ => clear H end; repeat match goal with H : live _ = _ |- _ => rewrite H; clear H end; set_solver.
Ltac made E := unfold then_, edit, give in E; simplify_eq/=.
Lemma event_create_spec manual initial n n1 r : settled (live (os n)) -> event_create manual initial n = Returned n1 r ->
  match r with
  | Err _ => live (os n1) = live (os n) /\ n1 = put_os (os n1) n
  | Ok p => p <> 0 /\ live (os n1) = owned (MakeEvent manual initial) 0 0 p ∪ live (os n) /\ owned (MakeEvent manual initial) 0 0 p ## live (os n) /\ n1 = put_os (os n1) (put_events (<[p := LinuxEvents.event_new manual initial]> (events n)) n)
  end.
Proof.
  intros Hs E. unfold event_create in E. pose proof (Hs CondAttr eq_refl) as Hattr.
  apply then_Returned in E as [(n2 & p & E1 & E) | (e & E1 & ->)]; apply alloc_inv in E1 as (k & -> & Hlk & Hk); try apply l_calloc; [| done].
  destruct Hk as (Hp & Hfresh & Hk). cbn [os put_os] in *. pose proof (Hfresh Block eq_refl) as Hfb. pose proof (Hfresh NativeMutex eq_refl) as Hfm. pose proof (Hfresh NativeCond eq_refl) as Hfc.
  next_call E k1 E1; apply l_init in E1 as [Hk1 _]; [| split; [balance | done]].
  next_call E k2 E2; (assert (live k2 = live k1) as Hk2 by (by eapply (l_settings _ _ _ true 0); left)). 2:{ split; [| done]. rewrite l_free, (proj1 (drop_attr_live CondAttr _ eq_refl)). balance. }
  next_call E k3 E3; apply l_init in E3 as [Hk3 Hl3]. 2:{ split; [| done]. rewrite l_free, (proj1 (drop_attr_live CondAttr _ eq_refl)). balance. }
  assert (p ∉ locked k3) as Hu3 by (apply Hl3, l_fresh; balance).
  next_call E k4 E4; unfold and_then in E4; destruct (k_init NativeCond p k3) as [k5 s] eqn:E5; apply l_init in E5 as [Hk5 Hl5]; simplify_eq;
    destruct (drop_attr_live CondAttr k5 eq_refl) as [Hk6 Hl6].
  - made E. split; [done |]. split; [| split; [set_solver | done]]. balance.
  - split; [| done]. rewrite l_free. destruct (k_destroy NativeMutex p (drop_attr CondAttr k5)) as [k7 s7] eqn:E7.
    pose proof (l_unlocked _ _ _ _ (Hl6 _ (Hl5 Hu3)) ltac:(rewrite Hk6, Hk5, Hk3; set_solver) E7) as ->. apply l_destroy in E7 as [Hk7 _]. cbn [fst]. balance.
Qed.
Lemma mutex_create_spec recursive n n1 r : settled (live (os n)) -> mutex_create recursive n = Returned n1 r ->
  match r with
  | Err _ => live (os n1) = live (os n) /\ n1 = put_os (os n1) n
  | Ok p => p <> 0 /\ live (os n1) = owned (MakeMutex recursive) 0 0 p ∪ live (os n) /\ owned (MakeMutex recursive) 0 0 p ## live (os n) /\ n1 = put_os (os n1) (put_mutexes (<[p := mutex_new recursive]> (mutexes n)) n)
  end.
Proof.
  intros Hs E. unfold mutex_create in E. pose proof (Hs MutexAttr eq_refl) as Hattr.
  apply then_Returned in E as [(n2 & p & E1 & E) | (e & E1 & ->)]; apply alloc_inv in E1 as (k & -> & Hlk & Hk); try apply l_calloc; [| done].
  destruct Hk as (Hp & Hfresh & Hk). cbn [os put_os] in *. pose proof (Hfresh Block eq_refl) as Hfb. pose proof (Hfresh NativeMutex eq_refl) as Hfm.
  next_call E k1 E1; apply l_init in E1 as [Hk1 _]; [| split; [balance | done]].
  next_call E k2 E2; unfold and_then in E2; destruct (k_settype recursive k1) as [k3 [[] | code]] eqn:E3; (assert (live k3 = live k1) as Hk3 by (eapply (l_settings _ _ _ recursive 0); by right; left));
    try (destruct (k_init NativeMutex p k3) as [k4 s] eqn:E4; apply l_init in E4 as [Hk4 _]); simplify_eq; rewrite ?l_free.
  - made E. destruct (drop_attr_live MutexAttr k4 eq_refl) as [Hk5 _]. split; [done |]. split; [| split; [set_solver | done]]. balance.
  - destruct (drop_attr_live MutexAttr k4 eq_refl) as [Hk5 _]. split; [| done]. balance.
  - destruct (drop_attr_live MutexAttr k3 eq_refl) as [Hk5 _]. split; [| done]. balance.
Qed.
Lemma rwlock_create_spec n n1 r : rwlock_create n = Returned n1 r ->
  match r with
  | Err _ => live (os n1) = live (os n) /\ n1 = put_os (os n1) n
  | Ok p => p <> 0 /\ live (os n1) = owned MakeRwLock 0 0 p ∪ live (os n) /\ owned MakeRwLock 0 0 p ## live (os n) /\ n1 = put_os (os n1) n
  end.
Proof.
  intros E. unfold rwlock_create in E. apply then_Returned in E as [(n2 & p & E1 & E) | (e & E1 & ->)]; apply alloc_inv in E1 as (k & -> & Hlk & Hk); try apply l_malloc; [| done].
  destruct Hk as (Hp & Hfresh & Hk). cbn [os put_os] in *. pose proof (Hfresh Block eq_refl) as Hfb. pose proof (Hfresh NativeRwLock eq_refl) as Hfm.
  next_call E k1 E1; apply l_init in E1 as [Hk1 _]; [| split; [balance | done]]. made E. split; [done |]. split; [balance | split; [set_solver | done]].
Qed.
Lemma tls_create_spec dtor n n1 r : tls_create dtor n = Returned n1 r ->
  match r with
  | Err _ => live (os n1) = live (os n) /\ n1 = put_os (os n1) n
  | Ok p => p <> 0 /\ exists key, live (os n1) = owned (MakeTls dtor) 0 key p ∪ live (os n) /\ owned (MakeTls dtor) 0 key p ## live (os n) /\ n1 = put_os (os n1) (put_natives (<[p := key]> (natives n)) n)
  end.
Proof.
  intros E. unfold tls_create in E. apply then_Returned in E as [(n2 & p & E1 & E) | (e & E1 & ->)]; apply alloc_inv in E1 as (k & -> & Hlk & Hk); try apply l_calloc; [| done].
  destruct Hk as (Hp & Hfresh & Hk). cbn [os put_os] in *. pose proof (Hfresh Block eq_refl) as Hfb.
  next_call E k1 E1; apply l_key in E1; [destruct E1 as [Hkey Hk1] | split; [balance | done]]. made E. split; [done |]. exists value. split; [balance | split; [set_solver | done]].
Qed.
(** The structures of a handle, in the blocks that it owns. *)
Definition structures (c : Creation) (start native p : Z) (n : Objects) : Objects :=
  match c with
  | MakeEvent manual initial => put_events (<[p := LinuxEvents.event_new manual initial]> (events n)) n
  | MakeMutex recursive => put_mutexes (<[p := mutex_new recursive]> (mutexes n)) n
  | MakeThread entry arg _ => put_natives (<[p := native]> (natives n)) (put_starts (<[start := (entry, arg)]> (starts n)) n)
  | MakeTls _ => put_natives (<[p := native]> (natives n)) n
  | MakeRwLock => n
  end.
Definition tracked (n : Objects) : Prop := settled (live (os n)) /\ forall p x, starts n !! p = Some x -> (Block, p) ∈ live (os n).
Definition balanced (c : Creation) (n n1 : Objects) (r : Result Z) : Prop :=
  match r with
  | Err _ => live (os n1) = live (os n) /\ n1 = put_os (os n1) n
  | Ok p => p <> 0 /\ exists start native, live (os n1) = owned c start native p ∪ live (os n) /\ owned c start native p ## live (os n) /\ n1 = put_os (os n1) (structures c start native p n)
  end.
Lemma spawn_spec stack start k k1 r : (ThreadAttr, 0) ∉ live k ->
  match k_init ThreadAttr 0 k with
  | (k, Err code) => (k, Err code)
  | (k, Ok _) => and_then (fun k => match (if stack =? 0 then (k, Ok tt) else k_setstacksize stack k) with (k, Err code) => (k, Err code) | (k, Ok _) => k_spawn start k end) (drop_attr ThreadAttr) k
  end = (k1, r) ->
  match r with Ok id => (NativeThread, id) ∉ live k /\ live k1 = {[(NativeThread, id)]} ∪ live k | Err _ => live k1 = live k end.
Proof.
  intros Hattr E. destruct (k_init ThreadAttr 0 k) as [k2 [[] | code]] eqn:E2; apply l_init in E2 as [Hk2 _]; [| by simplify_eq]. unfold and_then in E.
  destruct (if stack =? 0 then (k2, Ok tt) else k_setstacksize stack k2) as [k3 [[] | code]] eqn:E3.
  all: assert (live k3 = live k2) as Hk3 by (destruct (stack =? 0); [by simplify_eq | by eapply (l_settings _ _ _ true stack); right; right]).
  - destruct (k_spawn start k3) as [k4 s] eqn:E4. apply l_spawn in E4. simplify_eq. pose proof (proj1 (drop_attr_live ThreadAttr k4 eq_refl)) as Hk5. destruct r; [destruct E4 as [Hid Hk4]; split; [set_solver | balance] | balance].
  - simplify_eq. pose proof (proj1 (drop_attr_live ThreadAttr k3 eq_refl)) as Hk5. balance.
Qed.
Lemma thread_create_spec entry arg stack n n1 r : tracked n -> thread_create entry arg stack n = Returned n1 r -> balanced (MakeThread entry arg stack) n n1 r.
Proof.
  intros [Hs Ht] E. unfold thread_create in E. pose proof (Hs ThreadAttr eq_refl) as Hattr.
  apply then_Returned in E as [(n2 & p & E1 & E) | (e & E1 & ->)]; apply alloc_inv in E1 as (k & -> & Hlk & Hk); try apply l_calloc; [| done].
  destruct Hk as (Hp & Hfresh & Hk). cbn [os put_os] in *. pose proof (Hfresh Block eq_refl) as Hfb.
  apply then_Returned in E as [(n3 & start & E1 & E) | (e & E1 & ->)]; destruct (alloc SStart (put_os k n)) as [n4 [s | e4] | |] eqn:E2; simplify_eq; apply alloc_inv in E2 as (k1 & -> & Hl1 & Hk1); try apply l_calloc; cbn [os put_os] in *.
  2:{ split; [| done]. cbn [os put_os]. balance. }
  destruct Hk1 as (_ & Hfresh1 & Hk1). pose proof (Hfresh1 Block eq_refl) as Hfb1. assert (starts n !! start = None) as Hst by (destruct (starts n !! start) eqn:Ex; [destruct Hfb1; apply Ht in Ex; rewrite Hk; by apply elem_of_union_r | done]).
  apply then_Returned in E as [(n5 & [] & E1 & E) | (e & E1 & ->)]; unfold edit in E1; simplify_eq. cbn [starts put_os] in E.
  apply then_Returned in E as [(n6 & id & E1 & E) | (e & E1 & ->)].
  - destruct (guarded _ _ _) as [n7 [id1 | e7] | |] eqn:E7 in E1; simplify_eq. apply guarded_inv in E7 as (k2 & [a | code] & E7 & ?); destruct_and?; simplify_eq. apply spawn_spec in E7 as [Hid Hk2]; [| cbn [os put_os put_starts] in *; rewrite Hk1, Hk; set_solver].
    cbn [os put_os put_starts] in *. made E. split; [done |]. exists start, a. split; [balance |]. split; [set_solver | done].
  - destruct (guarded _ _ _) as [n7 [id1 | e7] | |] eqn:E7 in E1; simplify_eq. apply guarded_inv in E7 as (k2 & [a | code] & E7 & ?); destruct_and?; simplify_eq. apply spawn_spec in E7; [| cbn [os put_os put_starts] in *; rewrite Hk1, Hk; set_solver].
    cbn [os put_os put_starts starts] in *. split; [cbn [os put_os put_starts]; rewrite !l_free, E7, Hk1, taken_out, Hk, taken_out by done; done |]. unfold put_starts, put_os. cbn [starts os events mutexes natives]. rewrite delete_insert_id by done. by destruct n.
Qed.
Lemma create_spec c n n1 r : tracked n -> create c n = Returned n1 r -> balanced c n n1 r.
Proof.
  intros Hn E. destruct c; cbn [create] in E; unfold balanced.
  - apply event_create_spec in E; [| by apply Hn]. destruct r; [| done]. destruct E as [? E]. split; [done |]. by exists 0, 0.
  - apply mutex_create_spec in E; [| by apply Hn]. destruct r; [| done]. destruct E as [? E]. split; [done |]. by exists 0, 0.
  - by apply thread_create_spec in E.
  - apply tls_create_spec in E. destruct r; [| done]. destruct E as (? & key & E). split; [done |]. by exists 0, key.
  - apply rwlock_create_spec in E. destruct r; [| done]. destruct E as [? E]. split; [done |]. by exists 0, 0.
Qed.
(** The next guarded call of a call that succeeds. *)
Ltac next_done E k Hk := apply then_Returned in E as [(? & ? & Hk & E) | (? & Hk & ?)]; [| done]; apply guarded_inv in Hk as (k & [? | ?] & Hk & ?); destruct_and?; simplify_eq; cbn [os put_os] in *.
Lemma handle_done {B} t p (f : Z -> Call Objects B) n n1 b : (let* q := handle t p in f q) n = Returned n1 (Ok b) -> f p n = Returned n1 (Ok b).
Proof. unfold then_, handle, of_result. by destruct ((p =? 0) || negb (p mod align_of t =? 0)). Qed.
Lemma free_block_live {A} (find : Objects -> gmap Z A) put p n n1 r : (forall x n, os (put x n) = os n) -> free_block find put p n = Returned n1 r -> live (os n1) = live (os n) ∖ {[(Block, p)]}.
Proof. intros Hput [= <- _]. cbn [os put_os]. apply l_free. Qed.
Lemma consume_spec c start native p n n1 n2 L : live (os n1) = owned c start native p ∪ L -> owned c start native p ## L -> n1 = put_os (os n1) (structures c start native p n) ->
  consume c start p n1 = Returned n2 (Ok tt) -> live (os n2) = L.
Proof.
  intros Hl Hd Hn E. destruct c; cbn [consume owned] in *.
  - unfold event_destroy in E. apply handle_done in E. unfold at_handle in E. assert (events n1 !! p = Some (LinuxEvents.event_new manual initial)) as Hev by (rewrite Hn; apply lookup_insert_eq). rewrite Hev in E. clear Hn Hev.
    next_done E k E1. assert (live k = live (os n1)) as Hk by (eapply l_locks; by left). cbn [negb Z.eqb e_waiters LinuxEvents.event_new] in E. cbn [os put_os] in E.
    destruct (k_destroy NativeCond p k) as [k1 s1] eqn:E2. apply l_destroy in E2 as [Hk1 _]. destruct (k_unlock p k1) as [k2 s2] eqn:E3. assert (live k2 = live k1) as Hk2 by (eapply l_locks; by right).
    next_done E k3 E4. next_done E k4 E5. next_done E k5 E6. apply l_destroy in E6 as [Hk5 _]. apply free_block_live in E; [| done]. cbn [os put_os] in E. rewrite E. balance.
  - unfold mutex_destroy in E. apply handle_done in E. unfold at_handle in E. assert (mutexes n1 !! p = Some (mutex_new recursive)) as Hmu by (rewrite Hn; apply lookup_insert_eq). rewrite Hmu in E. clear Hn Hmu. cbn [negb Z.eqb users mutex_new] in E.
    next_done E k E1. apply l_destroy in E1 as [Hk _]. apply free_block_live in E; [| done]. cbn [os put_os] in E. rewrite E. balance.
  - apply then_Returned in E as [(n3 & x & E1 & E) | (? & _ & ?)]; [| done]. unfold thread_start, at_handle in E1. assert (starts n1 !! start = Some (entry, arg)) as Hst by (rewrite Hn; apply lookup_insert_eq). rewrite Hst in E1.
    assert (natives n1 !! p = Some native) as Hna by (rewrite Hn; apply lookup_insert_eq). clear Hn Hst. unfold then_, free_block, edit, give in E1. simplify_eq. unfold thread_join, thread_consume in E. apply handle_done in E. unfold at_handle in E. cbn [natives put_os put_starts] in E. rewrite Hna in E.
    next_done E k E1. assert (live k = live (k_free start (os n1)) ∖ {[(NativeThread, native)]}) as Hk by (apply (l_join native _ _ (Ok tt)); left; by destruct value). apply free_block_live in E; [| done]. cbn [os put_os] in E. rewrite E, Hk, l_free, Hl. clear - Hd. set_solver.
  - unfold tls_destroy in E. apply handle_done in E. unfold at_handle in E. assert (natives n1 !! p = Some native) as Hna by (rewrite Hn; apply lookup_insert_eq). rewrite Hna in E. clear Hn Hna.
    next_done E k E1. apply l_delete in E1. apply free_block_live in E; [| done]. cbn [os put_os] in E. rewrite E. balance.
  - unfold rwlock_destroy in E. next_done E k E1. apply l_destroy in E1 as [Hk _]. unfold edit in E. simplify_eq. cbn [os put_os]. balance.
Qed.
Lemma create_returns c n : exists n1 r, create c n = Returned n1 r.
Proof.
  destruct c; cbn [create]; unfold event_create, mutex_create, thread_create, tls_create, rwlock_create, then_, alloc, null_checked, guarded, edit, give; repeat case_match; simplify_eq; eauto.
Qed.
(** Creating an event, a mutex, a thread, a thread-local slot or a reader/writer lock on Linux always returns, and is balanced wherever it fails: with an error the process holds what it held before (blocks, attributes, native mutexes and condition variables, threads, keys) and no structure has changed; with success it holds in addition exactly the block of the handle and the native objects behind it, which are new, and the structure in the block is the one that was asked for. *)
Theorem creation_balanced c n : tracked n -> exists n1 r, create c n = Returned n1 r /\ balanced c n n1 r.
Proof. intros Hn. destruct (create_returns c n) as (n1 & r & E). exists n1, r. split; [done | by apply create_spec]. Qed.
(** What a creation took is given back.  When the handle of an event, a mutex, a thread that has started, a slot or a reader/writer lock is consumed with success, the process holds exactly what it held before the creation; the thread ran the entry that was asked for, with its argument. *)
Theorem objects_given_back c n n1 p : tracked n -> create c n = Returned n1 (Ok p) ->
  exists start, (forall entry arg stack, c = MakeThread entry arg stack -> exists n2, thread_start start n1 = Returned n2 (Ok (entry, arg))) /\
  forall n2, consume c start p n1 = Returned n2 (Ok tt) -> live (os n2) = live (os n).
Proof.
  intros Hn E. apply create_spec in E as (_ & start & native & Hl & Hd & Hn1); [| done]. exists start. split; [| intros n2; by eapply consume_spec].
  intros entry arg stack ->. unfold thread_start, at_handle. assert (starts n1 !! start = Some (entry, arg)) as -> by (rewrite Hn1; apply lookup_insert_eq). unfold then_, free_block, edit, give. eauto.
Qed.
End Balance.

(** ** A C library in which the calls of [k_init] succeed a number of times *)
Record Lot := mkLot { lot : gset (Kind * Z); left : Z }.
Definition fresh (k : Lot) : Z := above_all (set_map snd (lot k)).
Definition with_lot (f : gset (Kind * Z) -> gset (Kind * Z)) (k : Lot) : Lot := mkLot (f (lot k)) (left k).
Definition take (kind : Kind) (k : Lot) : Lot * Z := (with_lot (fun l => {[(kind, fresh k)]} ∪ l) k, fresh k).
Lemma fresh_spec k : fresh k <> 0 /\ forall kind, (kind, fresh k) ∉ lot k.
Proof.
  destruct (above_all_spec (set_map snd (lot k))) as (Hpos & _ & Hno). split; [unfold fresh; lia |]. intros kind Hin. apply Hno. apply elem_of_map. by exists (kind, fresh k).
Qed.
#[export] Instance lot_calls : PthreadCalls Lot := {|
  size_of _ := 64; align_of _ := 8;
  k_calloc _ _ := take Block; k_malloc _ := take Block; k_free p := with_lot (fun l => l ∖ {[(Block, p)]});
  k_init kind p k := if left k =? 0 then (k, Err ENOMEM) else (mkLot ({[(kind, p)]} ∪ lot k) (left k - 1), Ok tt);
  k_destroy kind p k := (with_lot (fun l => l ∖ {[(kind, p)]}) k, Ok tt);
  k_setclock_monotonic k := (k, Ok tt); k_settype _ k := (k, Ok tt); k_setstacksize _ k := (k, Ok tt);
  k_lock _ k := (k, Ok tt); k_unlock _ k := (k, Ok tt); k_rdlock _ k := (k, Ok tt); k_wrlock _ k := (k, Ok tt); k_rwunlock _ k := (k, Ok tt);
  k_spawn _ k := let '(k, id) := take NativeThread k in (k, Ok id);
  k_join id k := (with_lot (fun l => l ∖ {[(NativeThread, id)]}) k, Ok tt); k_detach id k := (with_lot (fun l => l ∖ {[(NativeThread, id)]}) k, Ok tt);
  k_key_create _ k := let '(k, id) := take Key k in (k, Ok id); k_key_delete id k := (with_lot (fun l => l ∖ {[(Key, id)]}) k, Ok tt);
  k_getspecific _ _ := 0; k_setspecific _ _ k := (k, Ok tt);
|}.
#[export] Instance lot_laws : PthreadLaws Lot.
Proof.
  refine {| live := lot; locked _ := ∅ |}.
  - intros n size k k1 p [= <- <-]. destruct (fresh_spec k) as [Hne Hno]. rewrite (proj2 (Z.eqb_neq _ _) Hne). by auto.
  - intros size k k1 p [= <- <-]. destruct (fresh_spec k) as [Hne Hno]. rewrite (proj2 (Z.eqb_neq _ _) Hne). by auto.
  - done.
  - intros kind p k k1 r E. simpl in E. destruct (left k =? 0); by simplify_eq/=.
  - intros. by simplify_eq/=.
  - intros. by simplify_eq/=.
  - intros. by simplify_eq/=.
  - intros. set_solver.
  - intros k k1 r b n [? | [? | ?]]; by simplify_eq/=.
  - intros p k k1 r [? | ?]; by simplify_eq/=.
  - intros start k k1 r ?. simplify_eq/=. destruct (fresh_spec k) as [_ Hno]. by auto.
  - intros id k k1 r [? | ?]; by simplify_eq/=.
  - intros dtor k k1 r ?. simplify_eq/=. destruct (fresh_spec k) as [_ Hno]. by auto.
  - intros. by simplify_eq/=.
Defined.
Definition nothing (left : Z) : Objects Lot := mkObjects (mkLot ∅ left) ∅ ∅ ∅ ∅.
Lemma nothing_tracked n : tracked (nothing n).
Proof. split; [intros kind _; apply not_elem_of_empty | intros p x Hx; cbn [starts nothing] in Hx; by rewrite lookup_empty in Hx]. Defined.
(** The attributes and the mutex of an event are made, and its condition variable is not. *)
Lemma creation_balanced_witness : exists n1, create (MakeEvent true false) (nothing 2) = Returned n1 (Err EOutOfMemory) /\ live (os n1) = ∅.
Proof.
  destruct (creation_balanced (MakeEvent true false) (nothing 2) (nothing_tracked 2)) as (n1 & r & E & B).
  assert (match create (MakeEvent true false) (nothing 2) with Returned _ (Err EOutOfMemory) => true | _ => false end = true) as Hr by (vm_compute; reflexivity).
  rewrite E in Hr. destruct r as [p | []]; try discriminate. exists n1. exact (conj E (proj1 B)).
Defined.
Lemma objects_given_back_witness : exists n1 p n2, create (MakeEvent true false) (nothing 9) = Returned n1 (Ok p) /\ consume (MakeEvent true false) 0 p n1 = Returned n2 (Ok tt) /\ live (os n2) = ∅.
Proof.
  destruct (create (MakeEvent true false) (nothing 9)) as [n1 [p | e] | |] eqn:E; [| vm_compute in E; discriminate ..].
  destruct (objects_given_back (MakeEvent true false) (nothing 9) n1 p (nothing_tracked 9) E) as (start & _ & Hback). change (consume (MakeEvent true false) start p) with (consume (K := Lot) (MakeEvent true false) 0 p) in Hback.
  assert (succeeded ((let* p := create (MakeEvent true false) in consume (MakeEvent true false) 0 p) (nothing 9)) = Some true) as Hr by (vm_compute; reflexivity).
  unfold then_ in Hr. rewrite E in Hr. destruct (consume (MakeEvent true false) 0 p n1) as [n2 [[] | e] | |] eqn:E2; try discriminate. exists n1, p, n2. exact (conj eq_refl (conj E2 (Hback n2 eq_refl))).
Defined.
