(* ===== verification/LinuxServices.v ===== *)
(** * LinuxServices.v: time, environment, entropy, modules, heap and diagnostics of the Linux port

    The providers of [src/crates/dotnet-pal-linux/src/linux.rs] that are one system call or a loop around one.  The C library
    is the class [ServiceCalls]; a loop that repeats an interrupted call has a number of rounds, and is [Waiting] when they
    are used up.

    The theorems: a sleep is as long as was asked for, however often it is interrupted ([sleep_long_enough]); [fill] fills
    the buffer with the kernel's bytes, without a gap and not beyond its end, and ends after as many rounds as there are
    bytes and interruptions ([fill_exact]); the diagnostics go out as in the standard-library ports ([stderr_agrees]); the
    process barrier is negotiated once and its command is one that the kernel has ([barrier_agrees]). *)
From S2P Require Import Prelude Port Native StdCommon LinuxText Libc LinuxEvents.
Import Errno.
Local Open Scope Z_scope.
Local Open Scope pal_scope.

Inductive Slept := Woke | Interrupted (remaining : timespec) | Refused (code : Z).
(** [s_dlerror] answers whether there was an error, and clears it; [s_dladdr] the base of the module, the address of its name and the name. *)
Class ServiceCalls (K : Type) := {
  s_monotonic : K -> K * option timespec; s_realtime : K -> K * option timespec;
  s_nanosleep : timespec -> K -> K * Slept; s_sched_yield : M K Z unit;
  s_getenv : list Z -> K -> option (list Z); s_getpid : K -> Z; s_gettid : K -> Z;
  s_getrandom : Z -> M K Z (list Z);
  s_dlopen : option (list Z) -> K -> K * Z; s_dlsym : Z -> list Z -> K -> K * Z; s_dlerror : K -> K * bool; s_dlclose : Z -> M K Z unit; s_dladdr : Z -> K -> option (Z * Z * list Z);
  s_malloc : Z -> K -> K * Z; s_calloc : Z -> Z -> K -> K * Z; s_realloc : Z -> Z -> K -> K * Z; s_free : Z -> K -> K;
  s_write_stderr : list Z -> M K Z Z; s_setname : list Z -> M K Z unit;
  s_getattr : M K Z unit; s_getstack : M K Z (Z * Z); s_attr_destroy : K -> K;
}.
Definition MAX_NAME : Z := 4095.
Definition THREAD_NAME : Z := 15.
Definition CHUNK : Z := 262144.

Section Provider.
Context `{Arch} {K : Type} {C : ServiceCalls K}.
Definition of_os (m : M K Z unit) : M K Error unit := fun k => let '(k, r) := m k in (k, match r with Ok _ => Ok tt | Err _ => Err EOs end).
Definition of_status {A} (m : M K Z A) : M K Error A := fun k => let '(k, r) := m k in (k, match r with Ok a => Ok a | Err code => Err (native_error code) end).

(** ** Time *)
Definition monotonic_ns : M K Error Z := fun k => let '(k, now) := s_monotonic k in (k, clock_ns now).
Definition realtime_ns : M K Error Z := fun k => let '(k, now) := s_realtime k in (k, clock_ns now).
Fixpoint sleep_loop (rounds : nat) (request : timespec) (k : K) : Outcome K unit :=
  match rounds with
  | O => Waiting
  | S rounds =>
      match s_nanosleep request k with
      | (k, Woke) => Returned k (Ok tt)
      | (k, Interrupted remaining) => sleep_loop rounds remaining k
      | (k, Refused _) => Returned k (Err EOs)
      end
  end.
Definition sleep_ns (rounds : nat) (ns : Z) : Call K unit := fun k =>
  if time_max <? ns / NANOS then Returned k (Err EInvalidArgument) else sleep_loop rounds (ns / NANOS, ns mod NANOS) k.
Definition yield_now : M K Error unit := of_os s_sched_yield.

(** ** The stack of the calling thread *)
Definition stack_current : M K Error (Z * Z) :=
  let! _ := of_status s_getattr in
  let! stack := of_status (fun k => let '(k, r) := s_getstack k in (s_attr_destroy k, r)) in
  match checked_add usize_max stack.1 stack.2 with
  | None => fail EOs
  | Some end_ => if (stack.1 =? 0) || (stack.2 =? 0) then fail EOs else ret (stack.1, end_)
  end.

(** ** Environment and identity *)
(** [name_buffer]: the name and zeros behind it; the C library reads up to the first of them. *)
Definition name_buffer (name : list Z) : list Z := name ++ zeros (MAX_NAME + 1 - lenZ name).
Definition c_string (buffer : list Z) : list Z := take_while (fun b => negb (b =? 0)) buffer.
(** The answer, and what was stored in the buffer. *)
Definition env_get (name : list Z) (capacity : Z) : M K Error (Lookup * list Z) := fun k =>
  (k, match s_getenv (c_string (name_buffer name)) k with
      | None => Err ENotFound
      | Some value =>
          let bytes := value ++ [0] in
          if capacity <? lenZ bytes then Ok (TooSmall (lenZ bytes), []) else Ok (Copied (lenZ bytes), bytes)
      end).
Definition process_id : M K Error Z := fun k => (k, if s_getpid k <=? 0 then Err EOs else Ok (s_getpid k)).
Definition thread_id : M K Error Z := fun k => (k, if s_gettid k <=? 0 then Err EOs else Ok (s_gettid k)).

(** ** Entropy: the result, and the bytes at the front of the buffer *)
Fixpoint fill_loop (rounds : nat) (size : Z) (filled : list Z) (k : K) : Outcome K (result Error unit * list Z) :=
  if size <=? lenZ filled then Returned k (Ok (Ok tt, filled)) else
  match rounds with
  | O => Waiting
  | S rounds =>
      match s_getrandom (Z.min (size - lenZ filled) CHUNK) k with
      | (k, Err code) => if code =? EINTR then fill_loop rounds size filled k else Returned k (Ok (Err EOs, filled))
      | (k, Ok bytes) => if lenZ bytes =? 0 then Returned k (Ok (Err EOs, filled)) else fill_loop rounds size (filled ++ bytes) k
      end
  end.
Definition fill (rounds : nat) (size : Z) : K -> Outcome K (result Error unit * list Z) := fill_loop rounds size [].

(** ** Modules *)
Definition module_open (name : option (list Z)) : M K Error Z := fun k =>
  let '(k, m) := s_dlopen ((fun name => c_string (name_buffer name)) <$> name) k in (k, if m =? 0 then Err ENotFound else Ok m).
Definition module_symbol (m : Z) (name : list Z) : M K Error Z := fun k =>
  let '(k, _) := s_dlerror k in
  let '(k, symbol) := s_dlsym m (c_string (name_buffer name)) k in
  let '(k, error) := s_dlerror k in (k, if error then Err ENotFound else Ok symbol).
Definition module_close (m : Z) : M K Error unit := of_os (s_dlclose m).
Definition module_info (address : Z) : M K Error ModuleInfo := fun k =>
  (k, match s_dladdr address k with
      | None => Err ENotFound
      | Some (base, fname, name) => if fname =? 0 then Err EOs else Ok (mkModuleInfo base fname (lenZ name))
      end).

(** ** Heap *)
Definition heap_allocate (size : Z) (zero : bool) : M K Error Z := fun k =>
  let '(k, p) := if zero then s_calloc 1 size k else s_malloc size k in (k, if p =? 0 then Err EOutOfMemory else Ok p).
Definition heap_resize (p size : Z) : M K Error Z := fun k => let '(k, q) := s_realloc p size k in (k, if q =? 0 then Err EOutOfMemory else Ok q).
Definition heap_release (p : Z) : M K Error unit := fun k => (s_free p k, Ok tt).

(** ** Diagnostics and the name of a thread *)
Fixpoint write_stderr (rounds : nat) (data : list Z) (done : Z) (k : K) : Outcome K (result (Z * Error) unit) :=
  if lenZ data <=? done then Returned k (Ok (Ok tt)) else
  match rounds with
  | O => Waiting
  | S rounds =>
      match s_write_stderr (dropZ done data) k with
      | (k, Ok n) => if 0 <? n then write_stderr rounds data (done + n) k else Returned k (Ok (Err (done, EOs)))
      | (k, Err code) => if code =? EINTR then write_stderr rounds data done k else Returned k (Ok (Err (done, EOs)))
      end
  end.
Definition thread_name_set (name : list Z) : M K Error unit :=
  if THREAD_NAME <? lenZ name then fail EInvalidArgument else of_status (s_setname (c_string (name ++ zeros (THREAD_NAME + 1 - lenZ name)))).
End Provider.

(** ** What the manual says *)
(** [time] is the time that has passed, [drawn] what [getrandom] has given and [written] what has gone to the standard
    error stream.  [patience] is how many more interruptions there are. *)
Class ServiceLaws (K : Type) `{ServiceCalls K} := {
  time : K -> Z; drawn : K -> list Z; written : K -> list Z; patience : K -> nat;
  sl_sleep request k k1 s : valid_time request = true -> s_nanosleep request k = (k1, s) ->
    match s with
    | Woke => time k + nanoseconds request <= time k1
    | Interrupted remaining => valid_time remaining = true /\ time k + nanoseconds request <= time k1 + nanoseconds remaining /\ (patience k1 < patience k)%nat
    | Refused _ => True
    end;
  sl_random n k k1 r : 0 <= n -> s_getrandom n k = (k1, r) ->
    match r with
    | Ok bytes => lenZ bytes <= n /\ drawn k1 = drawn k ++ bytes /\ (patience k1 <= patience k)%nat
    | Err code => drawn k1 = drawn k /\ (code = EINTR -> patience k1 < patience k)%nat
    end;
  sl_write data k k1 r : s_write_stderr data k = (k1, r) ->
    match r with
    | Ok n => 0 <= n <= lenZ data /\ written k1 = written k ++ takeZ n data /\ (patience k1 <= patience k)%nat
    | Err code => written k1 = written k /\ (code = EINTR -> patience k1 < patience k)%nat
    end;
}.
Section Loops.
Context `{Arch} {K : Type} `{ServiceLaws K}.
(** A name without a zero reaches the C library whole. *)
Lemma c_string_name name : Forall (fun b => b <> 0) name -> lenZ name <= MAX_NAME -> c_string (name_buffer name) = name.
Proof.
  intros Hn Hl. unfold c_string, name_buffer. apply take_while_app; [| destruct (zeros (MAX_NAME + 1 - lenZ name)) as [| z l] eqn:E; [done |]].
  - clear Hl. induction Hn as [| b l Hb _ IH]; [done |]. simpl. rewrite (proj2 (Z.eqb_neq b 0)) by done. done.
  - assert (z = 0) as ->; [| done]. unfold zeros in E. destruct (Z.to_nat _); by simplify_eq/=.
Qed.
Lemma sleep_loop_spec rounds request k : valid_time request = true -> (patience k < rounds)%nat ->
  exists k1 r, sleep_loop rounds request k = Returned k1 r /\ (r = Ok tt -> time k + nanoseconds request <= time k1) /\ (r = Ok tt \/ r = Err EOs).
Proof.
  revert request k. induction rounds as [| rounds IH]; intros request k Hv Hp; [lia |]. simpl. destruct (s_nanosleep request k) as [k1 s] eqn:E. pose proof (sl_sleep _ _ _ _ Hv E) as Hs. destruct s as [| remaining |].
  - exists k1, (Ok tt). by auto.
  - destruct Hs as (Hv1 & Ht & Hp1). destruct (IH remaining k1 Hv1) as (k2 & r & -> & Hr & Hor); [lia |]. exists k2, r. split; [done |]. split; [| done]. intros Hok. specialize (Hr Hok). lia.
  - exists k1, (Err EOs). split; [done |]. split; [done | by right].
Qed.
(** A sleep on Linux lasts.  However often it is interrupted, with more rounds than interruptions it returns, never for an argument that it could not represent; and when it succeeds, at least the time that was asked for has passed. *)
Theorem sleep_long_enough rounds ns k : 0 <= ns <= u64_max -> (patience k < rounds)%nat ->
  exists k1 r, sleep_ns rounds ns k = Returned k1 r /\ (r = Ok tt -> time k + ns <= time k1) /\ (r = Ok tt \/ r = Err EOs).
Proof.
  intros Hns Hp. unfold sleep_ns. pose proof (Z.div_mod ns NANOS ltac:(done)) as Hdm. pose proof (Z.mod_pos_bound ns NANOS ltac:(done)) as Hm. pose proof (Z.div_pos ns NANOS ltac:(lia) ltac:(done)) as Hq.
  rewrite (proj2 (Z.ltb_ge _ _)) by (unfold time_max, i64_max, u64_max, NANOS in *; lia). destruct (sleep_loop_spec rounds (ns / NANOS, ns mod NANOS) k) as (k1 & r & E & Hr & Hor); [| done |].
  - unfold valid_time. simpl. rewrite !andb_true_iff, negb_true_iff. lia.
  - exists k1, r. split; [done |]. split; [| done]. intros Hok. specialize (Hr Hok). unfold nanoseconds in Hr. simpl in Hr. lia.
Qed.
Lemma fill_loop_spec rounds size filled k : (Z.to_nat (size - lenZ filled) + patience k <= rounds)%nat -> lenZ filled <= size ->
  exists k1 r bytes, fill_loop rounds size filled k = Returned k1 (Ok (r, filled ++ bytes)) /\ drawn k1 = drawn k ++ bytes /\ lenZ (filled ++ bytes) <= size /\ (r = Ok tt <-> lenZ (filled ++ bytes) = size).
Proof.
  assert (forall (rounds : nat) filled k, lenZ filled = size -> exists k1 r bytes, fill_loop rounds size filled k = Returned k1 (Ok (r, filled ++ bytes)) /\ drawn k1 = drawn k ++ bytes /\ lenZ (filled ++ bytes) <= size /\ (r = Ok tt <-> lenZ (filled ++ bytes) = size)) as Hfull.
  { intros n f k0 Hl. exists k0, (Ok tt), []. rewrite !app_nil_r. split; [destruct n; simpl; rewrite (proj2 (Z.leb_le _ _)) by lia; done |]. split; [done |]. split; [lia | done]. }
  revert filled k. induction rounds as [| rounds IH]; intros filled k Hr Hl; (destruct (Z.eq_dec (lenZ filled) size); [by apply Hfull |]); [lia |].
  simpl. rewrite (proj2 (Z.leb_gt _ _)) by lia. destruct (s_getrandom (Z.min (size - lenZ filled) CHUNK) k) as [k1 s] eqn:E. assert (0 <= Z.min (size - lenZ filled) CHUNK) as Hask by (unfold CHUNK; lia). pose proof (sl_random _ _ _ _ Hask E) as Hs.
  assert (forall k2, drawn k2 = drawn k -> exists k1 r bytes, Returned k2 (Ok (Err EOs, filled)) = Returned k1 (Ok (r, filled ++ bytes)) /\ drawn k1 = drawn k ++ bytes /\ lenZ (filled ++ bytes) <= size /\ (r = Ok tt <-> lenZ (filled ++ bytes) = size)) as Hfail.
  { intros k2 Hk2. exists k2, (Err EOs), []. rewrite !app_nil_r. split_and!; try done. }
  destruct s as [bytes | code].
  - destruct Hs as (Hb & Hd & Hp). destruct (Z.eqb_spec (lenZ bytes) 0) as [Hz | Hz].
    + apply Hfail. rewrite Hd. assert (bytes = []) as -> by (destruct bytes; [done | unfold lenZ in Hz; simpl in Hz; lia]). apply app_nil_r.
    + destruct (IH (filled ++ bytes) k1) as (k2 & r & more & Ek & Hd2 & H3); [rewrite lenZ_app; pose proof (lenZ_nonneg bytes); lia | rewrite lenZ_app; lia |].
      exists k2, r, (bytes ++ more). rewrite !app_assoc. split; [done |]. split; [by rewrite Hd2, Hd | done].
  - destruct Hs as [Hd Hp]. destruct (Z.eqb_spec code EINTR) as [-> |]; [| by apply Hfail]. destruct (IH filled k1) as (k2 & r & more & Ek & Hd2 & H3); [specialize (Hp eq_refl); lia | done |]. exists k2, r, more. by rewrite <- Hd.
Qed.
(** The entropy of the Linux port.  With a round for each byte and each interruption [fill] returns; what it has put at the front of the buffer is what [getrandom] gave, in order and without a gap, and never more than the buffer holds; it succeeds exactly when the buffer is full. *)
Theorem fill_exact rounds size k : 0 <= size -> (Z.to_nat size + patience k <= rounds)%nat ->
  exists k1 r bytes, fill rounds size k = Returned k1 (Ok (r, bytes)) /\ drawn k1 = drawn k ++ bytes /\ lenZ bytes <= size /\ (r = Ok tt <-> lenZ bytes = size).
Proof. intros Hs Hr. destruct (fill_loop_spec rounds size [] k) as (k1 & r & bytes & Hf); [unfold lenZ; simpl; lia | done |]. exists k1, r, bytes. exact Hf. Qed.
(** The diagnostics are those of the standard-library ports: some answers of its [write] give the same result and the same text. *)
Lemma stderr_agrees rounds data : forall done k k1 r, write_stderr rounds data done k = Returned k1 (Ok r) -> 0 <= done ->
  exists answers out, StdText.write_stderr answers data done = Some (r, out) /\ StdText.fits answers (lenZ data) done /\ written k1 = written k ++ out.
Proof.
  induction rounds as [| rounds IH]; intros done k k1 r E Hd; simpl in E; destruct (Z.leb_spec (lenZ data) done) as [Hle | Hgt]; simplify_eq; try done.
  1, 2: exists [], []; simpl; rewrite (proj2 (Z.leb_le _ _)), app_nil_r by done; done.
  destruct (s_write_stderr (dropZ done data) k) as [k2 [n | code]] eqn:Ew; pose proof (sl_write _ _ _ _ Ew) as Hw.
  - destruct Hw as (Hn & Hw & _). rewrite lenZ_dropZ in Hn. destruct (Z.ltb_spec 0 n) as [Hpos | Hz].
    + destruct (IH _ _ _ _ E) as (answers & out & Es & Hf & Ho); [lia |]. exists (StdText.Wrote n :: answers), (takeZ n (dropZ done data) ++ out). simpl. rewrite (proj2 (Z.leb_gt _ _)), (proj2 (Z.eqb_neq n 0)), Es by lia.
      split; [done |]. split; [split; [lia | done] |]. by rewrite Ho, Hw, app_assoc.
    + simplify_eq. assert (n = 0) as -> by lia. exists [StdText.Wrote 0], []. simpl. rewrite (proj2 (Z.leb_gt _ _)) by lia. split; [done |]. split; [split; [lia | done] |]. by rewrite Hw.
  - destruct Hw as [Hw _]. destruct (Z.eqb_spec code EINTR) as [-> |].
    + destruct (IH _ _ _ _ E Hd) as (answers & out & Es & Hf & Ho). exists (StdText.Interrupted :: answers), out. simpl. rewrite (proj2 (Z.leb_gt _ _)) by lia. split; [done |]. split; [done | by rewrite Ho, Hw].
    + simplify_eq. exists [StdText.Failed], []. simpl. rewrite (proj2 (Z.leb_gt _ _)) by lia. split; [done |]. split; [done | by rewrite Hw, app_nil_r].
Qed.
End Loops.

(** ** The process barrier *)
Definition GLOBAL : Z := 1.
Definition PRIVATE_EXPEDITED : Z := 8.
Definition REGISTER_PRIVATE_EXPEDITED : Z := 16.
(** [BARRIER_MODE], and whether the process has registered. *)
Record Barrier := mkBarrier { mode_word : Z; registered : bool }.
Inductive BarrierPc := BLoad | BQuery | BRegister | BStore (mode : Z) | BDone (mode : Z).
Section Barrier.
(** What the kernel answers to the query, always the same. *)
Variable commands : Z.
Definition both : Z := Z.lor PRIVATE_EXPEDITED REGISTER_PRIVATE_EXPEDITED.
Definition fallback : Z := if has commands GLOBAL then 3 else 1.
(** The accesses of [barrier_mode]; [accepted] is the answer of a registration. *)
Definition barrier_mode (accepted : bool) (b : Barrier) (pc : BarrierPc) : option (Barrier * BarrierPc) :=
  match pc with
  | BLoad => Some (b, if negb (mode_word b =? 0) then BDone (mode_word b) else BQuery)
  | BQuery => Some (b, if commands <? 0 then BStore 1 else if Z.land commands both =? both then BRegister else BStore fallback)
  | BRegister => if accepted then Some (mkBarrier (mode_word b) true, BStore 2) else Some (b, BStore fallback)
  | BStore mode => Some (if mode_word b =? 0 then (mkBarrier mode (registered b), BDone mode) else (b, BDone (mode_word b)))
  | BDone _ => None
  end.
Definition barrier_available (mode : Z) : bool := 2 <=? mode.
(** The command that [barrier] gives the kernel. *)
Definition barrier_command (mode : Z) : Result Z := if mode =? 2 then Ok PRIVATE_EXPEDITED else if mode =? 3 then Ok GLOBAL else Err EUnsupported.
Inductive barrier_step : Barrier * gmap nat BarrierPc -> Barrier * gmap nat BarrierPc -> Prop :=
| bs_call b ts t : ts !! t = None -> barrier_step (b, ts) (b, <[t := BLoad]> ts)
| bs_run b ts t pc accepted b1 pc1 : ts !! t = Some pc -> barrier_mode accepted b pc = Some (b1, pc1) -> barrier_step (b, ts) (b1, <[t := pc1]> ts).
(** A mode that the kernel has. *)
Definition mode_ok (b : Barrier) (mode : Z) : Prop :=
  mode = 1 \/ mode = 2 /\ registered b = true /\ Z.land commands both = both \/ mode = 3 /\ has commands GLOBAL = true.
Definition pc_ok (b : Barrier) (pc : BarrierPc) : Prop :=
  match pc with BRegister => Z.land commands both = both | BStore mode => mode_ok b mode | BDone mode => mode = mode_word b /\ mode_word b <> 0 | _ => True end.
Record barrier_ok (s : Barrier * gmap nat BarrierPc) : Prop := { bo_word : mode_word s.1 = 0 \/ mode_ok s.1 (mode_word s.1); bo_pc t pc : s.2 !! t = Some pc -> pc_ok s.1 pc }.
Lemma fallback_ok b : mode_ok b fallback.
Proof. unfold mode_ok, fallback. destruct (has commands GLOBAL); auto. Qed.
Lemma mode_nonzero b mode : mode_ok b mode -> mode <> 0.
Proof. intros [| [[? _] | [? _]]]; lia. Qed.
Lemma pc_ok_later b b1 pc : (mode_word b <> 0 -> mode_word b1 = mode_word b) -> (registered b = true -> registered b1 = true) -> pc_ok b pc -> pc_ok b1 pc.
Proof. intros Hw Hr. destruct pc; simpl; try done; [intros [? | [(? & ? & ?) | ?]]; [by left | right; left; auto | by right; right] |]. intros [-> Hn]. by rewrite Hw. Qed.
Lemma barrier_step_ok s s1 : barrier_step s s1 -> barrier_ok s -> barrier_ok s1.
Proof.
  intros Hstep [Hw Hp]. destruct Hstep as [b ts t Ht | b ts t pc accepted b1 pc1 Ht E]; cbn [fst snd] in *.
  - constructor; cbn [fst snd]; [done |]. intros u pc [[<- <-] | [_ Hu]]%lookup_insert_Some; [done | by eapply Hp].
  - assert ((mode_word b <> 0 -> mode_word b1 = mode_word b) /\ (registered b = true -> registered b1 = true) /\ (mode_word b1 = 0 \/ mode_ok b1 (mode_word b1)) /\ pc_ok b1 pc1) as (H1 & H2 & H3 & H4).
    { specialize (Hp t pc Ht). destruct pc; simpl in E.
      - simplify_eq. split_and!; try done. by destruct (Z.eqb_spec (mode_word b1) 0).
      - simplify_eq. split_and!; try done. destruct (commands <? 0); [by left |]. destruct (Z.eqb_spec (Z.land commands both) both); [done | apply fallback_ok].
      - destruct accepted; simplify_eq; simpl; split_and!; try done; [| by right; left | apply fallback_ok]. destruct Hw as [| Hw]; [by left | right]. by destruct Hw as [| [(? & ? & ?) | ?]]; [left | right; left | right; right].
      - pose proof (mode_nonzero _ _ Hp) as Hm. destruct (Z.eqb_spec (mode_word b) 0); simplify_eq; simpl; split_and!; try done. by right.
      - done. }
    constructor; cbn [fst snd]; [done |]. intros u qc [[<- <-] | [_ Hu]]%lookup_insert_Some; [done |]. eapply pc_ok_later; [done | done | by eapply Hp].
Qed.
(** The process barrier of the Linux port is negotiated once.  However many threads ask for it at the same time, and whichever registration fails, all of them are told the same mode, which is the word that later calls read; the command that the mode stands for is one that the kernel has announced, and the private barrier is used only by a process that has registered for it. *)
Theorem barrier_agrees b ts : rtc barrier_step (mkBarrier 0 false, ∅) (b, ts) ->
  (forall t u mode other, ts !! t = Some (BDone mode) -> ts !! u = Some (BDone other) -> mode = other /\ mode = mode_word b) /\
  (forall t mode, ts !! t = Some (BDone mode) ->
    match barrier_command mode with Ok command => barrier_available mode = true /\ has commands command = true /\ (command = PRIVATE_EXPEDITED -> registered b = true) | Err e => barrier_available mode = false /\ e = EUnsupported end).
Proof.
  intros Hr. assert (barrier_ok (b, ts)) as [Hw Hp].
  { remember (mkBarrier 0 false, ∅) as s0 eqn:Es. assert (barrier_ok s0) as H0 by (subst; constructor; [by left | intros t pc Hp; cbn [snd] in Hp; by rewrite lookup_empty in Hp]). clear Es. revert H0. induction Hr; [done |]. intros. by apply IHHr, (barrier_step_ok x). }
  cbn [fst snd] in *. split.
  - intros t u mode other Ht Hu. destruct (Hp t _ Ht) as [-> _], (Hp u _ Hu) as [-> _]. done.
  - intros t mode Ht. destruct (Hp t _ Ht) as [-> Hn]. destruct Hw as [| Hw]; [done |]. destruct Hw as [E | [(E & Hreg & Hc) | [E Hg]]]; rewrite E; simpl.
    + done.
    + split; [done |]. split; [| done]. unfold has. rewrite negb_true_iff, Z.eqb_neq. intros Hz. apply (f_equal (Z.land PRIVATE_EXPEDITED)) in Hc. rewrite Z.land_assoc, (Z.land_comm PRIVATE_EXPEDITED), Hz in Hc. done.
    + done.
Qed.
End Barrier.

(** ** A kernel that interrupts a number of calls *)
Record Tick := mkTick { tk_time : Z; tk_drawn : list Z; tk_written : list Z; tk_patience : nat }.
Definition less (k : Tick) : Tick := mkTick (tk_time k) (tk_drawn k) (tk_written k) (pred (tk_patience k)).
#[export] Instance tick_services : ServiceCalls Tick := {|
  s_monotonic k := (k, Some (tk_time k / NANOS, tk_time k mod NANOS)); s_realtime k := (k, None);
  s_nanosleep request k := if (tk_patience k =? 0)%nat then (mkTick (tk_time k + nanoseconds request) (tk_drawn k) (tk_written k) 0, Woke) else (less k, Interrupted request);
  s_sched_yield k := (k, Ok tt); s_getenv _ _ := None; s_getpid _ := 1; s_gettid _ := 1;
  s_getrandom n k := if (tk_patience k =? 0)%nat then let bytes := takeZ (Z.min n 3) [7; 8; 9] in (mkTick (tk_time k) (tk_drawn k ++ bytes) (tk_written k) 0, Ok bytes) else (less k, Err EINTR);
  s_dlopen _ k := (k, 0); s_dlsym _ _ k := (k, 0); s_dlerror k := (k, true); s_dlclose _ k := (k, Ok tt); s_dladdr _ _ := None;
  s_malloc _ k := (k, 0); s_calloc _ _ k := (k, 0); s_realloc _ _ k := (k, 0); s_free _ k := k;
  s_write_stderr data k := if (tk_patience k =? 0)%nat then (mkTick (tk_time k) (tk_drawn k) (tk_written k ++ data) 0, Ok (lenZ data)) else (less k, Err EINTR);
  s_setname _ k := (k, Ok tt); s_getattr k := (k, Ok tt); s_getstack k := (k, Ok (4096, 4096)); s_attr_destroy k := k;
|}.
#[export] Instance tick_service_laws : ServiceLaws Tick.
Proof.
  refine {| time := tk_time; drawn := tk_drawn; written := tk_written; patience := tk_patience |}; intros; simpl in *; destruct (Nat.eqb_spec (tk_patience k) 0); simplify_eq/=; split_and?; try done; try lia.
  - rewrite lenZ_takeZ. unfold lenZ. simpl. lia.
  - apply lenZ_nonneg.
  - by rewrite takeZ_ge.
Defined.
Lemma sleep_long_enough_witness : exists k1, sleep_ns 3 5000000001 (mkTick 100 [] [] 2) = Returned k1 (Ok tt) /\ 5000000101 <= time k1.
Proof.
  destruct (sleep_long_enough 3 5000000001 (mkTick 100 [] [] 2)) as (k1 & r & E & Hr & _); [vm_compute; split; discriminate | simpl; lia |].
  exists k1. vm_compute in E. injection E as <- <-. split; [vm_compute; reflexivity | exact (Hr eq_refl)].
Defined.
Lemma fill_exact_witness : exists k1 bytes, fill 9 5 (mkTick 0 [] [] 1) = Returned k1 (Ok (Ok tt, bytes)) /\ drawn k1 = bytes /\ lenZ bytes = 5.
Proof.
  destruct (fill_exact 9 5 (mkTick 0 [] [] 1)) as (k1 & r & bytes & E & Hd & _ & Hr); [lia | simpl; lia |]. pose proof E as E2. vm_compute in E2. injection E2 as Hk <- Hb. exists k1, bytes. exact (conj E (conj Hd (proj1 Hr eq_refl))).
Defined.
Lemma barrier_agrees_witness : exists b ts, rtc (barrier_step 25) (mkBarrier 0 false, ∅) (b, ts) /\ ts !! 0%nat = Some (BDone 2) /\ registered b = true.
Proof.
  eexists _, _. assert (rtc (barrier_step 25) (mkBarrier 0 false, ∅) (mkBarrier 2 true, <[0%nat := BDone 2]> (<[0%nat := BStore 2]> (<[0%nat := BRegister]> (<[0%nat := BQuery]> (<[0%nat := BLoad]> ∅)))))) as Hr.
  { eapply rtc_l; [apply (bs_call 25 _ _ 0%nat); reflexivity |]. do 4 (eapply rtc_l; [eapply (bs_run 25 _ _ 0%nat _ true); reflexivity |]). apply rtc_refl. }
  destruct (barrier_agrees 25 _ _ Hr) as [_ H2]. split; [exact Hr |]. split; [reflexivity |]. apply (H2 0%nat 2); reflexivity.
Defined.
