(* ===== verification/LinuxSignals.v ===== *)
(** * LinuxSignals.v: signal contexts of the Linux port

    The module [context] of [src/crates/dotnet-pal-linux/src/linux.rs]: five slots, one for each kind of signal, that [install]
    fills and the handler [trampoline] reads.  The kernel runs the handler at any moment, on any thread, so each access to
    a slot is one step, and any number of installations, restorations and handlers interleave.

    The theorem: a handler that runs always finds its slot, and calls the callback of the one installation of that signal
    that succeeded, with the data of that installation ([handlers_meet_their_data]). *)
From S2P Require Import Prelude Port.
Local Open Scope Z_scope.

(** [context::ACTIVATION] and the others *)
Definition ACTIVATION : nat := 0.
Definition SEGMENTATION : nat := 1.
Definition BUS : nat := 2.
Definition FLOATING_POINT : nat := 3.
Definition ILLEGAL_INSTRUCTION : nat := 4.
Definition SIGILL : Z := 4.
Definition SIGBUS : Z := 7.
Definition SIGFPE : Z := 8.
Definition SIGSEGV : Z := 11.
Definition SIGPIPE : Z := 13.
Definition SA_SIGINFO : Z := 4.
Definition SA_ONSTACK : Z := 134217728.
Definition SA_RESTART : Z := 268435456.

Record Slot := mkSlot { claimed : Z; slot_signal : Z; callback : Z; data : Z }.
Definition slot_new : Slot := mkSlot 0 0 0 0.
(** What the kernel does with a signal: this handler, or another one, [SIG_DFL] and [SIG_IGN] among them. *)
Inductive Handler := Trampoline | Other (handler : Z).
Record Action := mkAction { a_handler : Handler; a_flags : Z; a_mask : Z }.
Definition SIG_IGN : Handler := Other 1.
(** The slots and the actions of the process; [installed] are the installations that have succeeded: signal, callback and data. *)
Record Signals := mkSignals { slots : list Slot; actions : gmap Z Action; installed : gmap Z (Z * Z) }.

Section Context.
(** [SIGRTMIN] *)
Variable sigrtmin : Z.
Definition signal (kind : nat) : option Z :=
  match kind with 0%nat => Some sigrtmin | 1%nat => Some SIGSEGV | 2%nat => Some SIGBUS | 3%nat => Some SIGFPE | 4%nat => Some SIGILL | _ => None end.
Definition signal_number (kind : nat) : Z := default (-1) (signal kind).
Definition action_of (num : Z) (s : Signals) : Action := default (mkAction (Other 0) 0 0) (actions s !! num).
(** The action that an installation asks for: the alternate stack and the mask are those of an action that had the stack. *)
Definition new_action (old : Action) : Action :=
  let flags := Z.lor SA_RESTART SA_SIGINFO in
  if has (a_flags old) SA_ONSTACK then mkAction Trampoline (Z.lor flags SA_ONSTACK) (a_mask old) else mkAction Trampoline flags 0.

(** Where a thread is. *)
Inductive Pc :=
| IClaim (kind : nat) (cb d : Z) | IQuery (kind : nat) (cb d : Z) | ICheck (kind : nat) (cb d : Z) (old : Action)
| IData (kind : nat) (cb d : Z) (old : Action) | ICallback (kind : nat) (cb d : Z) (old : Action) | ISignal (kind : nat) (cb d : Z) (old : Action)
| IInstall (kind : nat) (cb d : Z) (old : Action) | IUndoSignal (kind : nat) | IUndoCallback (kind : nat) | IUnclaim (kind : nat) (status : Z)
| RClaimed (kind : nat) (previous : Action) | RSet (kind : nat) (previous : Action)
| TSlot (code : Z) (i : nat) | TCallback (code : Z) (i : nat) | TData (code : Z) (i : nat) (cb : Z)
| Returned (status : Z) | Called (code cb d : Z) | Missed (code : Z).
Definition edit_slot (kind : nat) (f : Slot -> Slot) (s : Signals) : Signals := mkSignals (alter f kind (slots s)) (actions s) (installed s).
Definition set_claimed v (sl : Slot) := mkSlot v (slot_signal sl) (callback sl) (data sl).
Definition set_signal v (sl : Slot) := mkSlot (claimed sl) v (callback sl) (data sl).
Definition set_callback v (sl : Slot) := mkSlot (claimed sl) (slot_signal sl) v (data sl).
Definition set_data v (sl : Slot) := mkSlot (claimed sl) (slot_signal sl) (callback sl) v.
Definition slot_at (kind : nat) (s : Signals) : Slot := default slot_new (slots s !! kind).
Definition set_action (num : Z) (a : Action) (s : Signals) : Signals := mkSignals (slots s) (<[num := a]> (actions s)) (installed s).
(** [install] from its start; a null callback is refused like an unknown kind. *)
Definition install_begin (kind : nat) (cb d : Z) : Pc :=
  match signal kind with None => Returned INVALID_ARGUMENT | Some _ => if cb =? 0 then Returned INVALID_ARGUMENT else IClaim kind cb d end.
(** [ok] is whether a [sigaction] succeeds. *)
Definition install (ok : bool) (s : Signals) (pc : Pc) : option (Signals * Pc) :=
  match pc with
  | IClaim kind cb d => Some (if claimed (slot_at kind s) =? 0 then (edit_slot kind (set_claimed 1) s, IQuery kind cb d) else (s, Returned BUSY))
  | IQuery kind cb d => Some (s, if ok then ICheck kind cb d (action_of (signal_number kind) s) else IUnclaim kind OS_ERROR)
  | ICheck kind cb d old => Some (s, match a_handler old with Trampoline => IUnclaim kind BUSY | Other _ => IData kind cb d old end)
  | IData kind cb d old => Some (edit_slot kind (set_data d) s, ICallback kind cb d old)
  | ICallback kind cb d old => Some (edit_slot kind (set_callback cb) s, ISignal kind cb d old)
  | ISignal kind cb d old => Some (edit_slot kind (set_signal (signal_number kind)) s, IInstall kind cb d old)
  | IInstall kind cb d old =>
      let num := signal_number kind in
      Some (if ok then (mkSignals (slots s) (<[num := new_action old]> (actions s)) (<[num := (cb, d)]> (installed s)), Returned OK) else (s, IUndoSignal kind))
  | IUndoSignal kind => Some (edit_slot kind (set_signal 0) s, IUndoCallback kind)
  | IUndoCallback kind => Some (edit_slot kind (set_callback 0) s, IUnclaim kind OS_ERROR)
  | IUnclaim kind status => Some (edit_slot kind (set_claimed 0) s, Returned status)
  | _ => None
  end.
Definition restore_begin (kind : nat) (previous : Action) : Pc := match signal kind with None => Returned INVALID_ARGUMENT | Some _ => RClaimed kind previous end.
Definition restore (ok : bool) (s : Signals) (pc : Pc) : option (Signals * Pc) :=
  match pc with
  | RClaimed kind previous => Some (s, if claimed (slot_at kind s) =? 0 then Returned INVALID_ARGUMENT else RSet kind previous)
  | RSet kind previous => Some (if ok then (set_action (signal_number kind) previous s, Returned OK) else (s, Returned OS_ERROR))
  | _ => None
  end.
(** The handler looks for the slot of its signal, and calls the callback that it finds there. *)
Definition trampoline (s : Signals) (pc : Pc) : option (Signals * Pc) :=
  match pc with
  | TSlot code i =>
      Some (s, match slots s !! i with
               | None => Missed code
               | Some sl => if slot_signal sl =? code then TCallback code i else TSlot code (S i)
               end)
  | TCallback code i => Some (s, if callback (slot_at i s) =? 0 then Missed code else TData code i (callback (slot_at i s)))
  | TData code i cb => Some (s, Called code cb (data (slot_at i s)))
  | _ => None
  end.
Definition access (ok : bool) (s : Signals) (pc : Pc) : option (Signals * Pc) :=
  match install ok s pc, restore ok s pc with
  | Some x, _ => Some x
  | None, Some x => Some x
  | None, None => trampoline s pc
  end.
(** [request_activation]: what [pthread_kill] answers, as a status. *)
Definition request_activation (rc : Z) : Z := if rc =? 0 then OK else if rc =? 11 then BUSY else if rc =? 3 then NOT_FOUND else OS_ERROR.
Definition ignore_broken_pipe (ok : bool) (s : Signals) : Signals * Z := if ok then (set_action SIGPIPE (mkAction SIG_IGN 0 0) s, OK) else (s, OS_ERROR).

(** The rest of the process may give a signal any other handler, and may put back an action that the signal has had; so
    may a restoration. *)
Definition had (num : Z) (a : Action) (s : Signals) : Prop := a_handler a = Trampoline -> is_Some (installed s !! num).
Inductive step : Signals * gmap nat Pc -> Signals * gmap nat Pc -> Prop :=
| step_install s ts t kind cb d : ts !! t = None -> step (s, ts) (s, <[t := install_begin kind cb d]> ts)
| step_restore s ts t kind previous : ts !! t = None -> had (signal_number kind) previous s -> step (s, ts) (s, <[t := restore_begin kind previous]> ts)
| step_deliver s ts t code a : ts !! t = None -> actions s !! code = Some a -> a_handler a = Trampoline -> step (s, ts) (s, <[t := TSlot code 0]> ts)
| step_other s ts num a : had num a s -> step (s, ts) (set_action num a s, ts)
| step_access s ts t pc ok s1 pc1 : ts !! t = Some pc -> access ok s pc = Some (s1, pc1) -> step (s, ts) (s1, <[t := pc1]> ts).
Definition start : Signals := mkSignals (replicate 5 slot_new) ∅ ∅.
Definition reachable (s : Signals) (ts : gmap nat Pc) : Prop := rtc step (start, ∅) (s, ts).

(** ** The invariant *)
(** The real-time signals come behind the others. *)
Hypothesis sigrtmin_high : 32 <= sigrtmin.
Implicit Types (s : Signals) (ts : gmap nat Pc).
Lemma signal_inj i j num : signal i = Some num -> signal j = Some num -> i = j.
Proof.
  intros Hi Hj. unfold signal, SIGSEGV, SIGBUS, SIGFPE, SIGILL in *.
  do 5 (destruct i as [| i]; [do 5 (destruct j as [| j]; [first [done | simplify_eq; lia] |]); done |]). done.
Qed.
Lemma signal_pos i num : signal i = Some num -> num <> 0 /\ (i < 5)%nat.
Proof. intros Hi. unfold signal, SIGSEGV, SIGBUS, SIGFPE, SIGILL in *. do 5 (destruct i as [| i]; [simplify_eq; lia |]). done. Qed.
(** The slot that a thread has claimed and not yet given up or filled. *)
Definition owns (pc : Pc) : option nat :=
  match pc with
  | IQuery k _ _ | ICheck k _ _ _ | IData k _ _ _ | ICallback k _ _ _ | ISignal k _ _ _ | IInstall k _ _ _ | IUndoSignal k | IUndoCallback k | IUnclaim k _ => Some k
  | _ => None
  end.
(** What the owner has written into its slot. *)
Definition filled (pc : Pc) (num : Z) (sl : Slot) : Prop :=
  match pc with
  | ICallback _ cb d _ => cb <> 0 /\ data sl = d
  | ISignal _ cb d _ => cb <> 0 /\ data sl = d /\ callback sl = cb
  | IInstall _ cb d _ => cb <> 0 /\ data sl = d /\ callback sl = cb /\ slot_signal sl = num
  | IQuery _ cb _ | ICheck _ cb _ _ | IData _ cb _ _ => cb <> 0
  | _ => True
  end.
Definition owner_ok s (pc : Pc) (kind : nat) : Prop :=
  exists sl num, slots s !! kind = Some sl /\ signal kind = Some num /\ claimed sl = 1 /\ installed s !! num = None /\ filled pc num sl.
(** What a handler, a restoration or a claim that is under way relies on. *)
Definition handler_ok s (pc : Pc) : Prop :=
  match pc with
  | TSlot code i => exists j, signal j = Some code /\ (i <= j)%nat /\ is_Some (installed s !! code)
  | TCallback code i => signal i = Some code /\ is_Some (installed s !! code)
  | TData code i cb => exists d, signal i = Some code /\ installed s !! code = Some (cb, d)
  | Called code cb d => installed s !! code = Some (cb, d)
  | Missed _ => False
  | IClaim kind cb _ => cb <> 0 /\ is_Some (signal kind)
  | RClaimed kind previous | RSet kind previous => had (signal_number kind) previous s
  | _ => True
  end.
Record signals_ok (x : Signals * gmap nat Pc) : Prop := {
  so_length : length (slots x.1) = 5%nat;
  so_signal i sl : slots x.1 !! i = Some sl -> slot_signal sl = 0 \/ signal i = Some (slot_signal sl);
  so_installed num cb d : installed x.1 !! num = Some (cb, d) -> exists i, signal i = Some num /\ cb <> 0 /\ slots x.1 !! i = Some (mkSlot 1 num cb d);
  so_actions num a : actions x.1 !! num = Some a -> had num a x.1;
  so_owner t pc k : x.2 !! t = Some pc -> owns pc = Some k -> owner_ok x.1 pc k;
  so_alone t u pc qc k : x.2 !! t = Some pc -> x.2 !! u = Some qc -> owns pc = Some k -> owns qc = Some k -> t = u;
  so_handler t pc : x.2 !! t = Some pc -> handler_ok x.1 pc;
}.
Lemma handler_later s s1 pc : (forall num x, installed s !! num = Some x -> installed s1 !! num = Some x) -> handler_ok s pc -> handler_ok s1 pc.
Proof.
  intros Hm. assert (forall num, is_Some (installed s !! num) -> is_Some (installed s1 !! num)) as Hm2 by (intros num [x Hx]; exists x; by apply Hm).
  destruct pc; simpl; try done; unfold had; try naive_solver.
Qed.
Lemma slot_installed s ts num cb d i : signals_ok (s, ts) -> installed s !! num = Some (cb, d) -> signal i = Some num -> slots s !! i = Some (mkSlot 1 num cb d) /\ cb <> 0.
Proof. intros Hok Hin Hi. destruct (so_installed _ Hok num cb d Hin) as (j & Hj & Hcb & Hs). by rewrite (signal_inj i j num Hi Hj). Qed.
(** The owner of slot [k] changes its slot and goes on. *)
Lemma owner_step s ts t pc k f pc1 : signals_ok (s, ts) -> ts !! t = Some pc -> owns pc = Some k ->
  (forall sl num, signal k = Some num -> filled pc num sl -> slot_signal (f sl) = slot_signal sl \/ slot_signal (f sl) = 0 \/ slot_signal (f sl) = num) ->
  (forall sl num, signal k = Some num -> filled pc num sl -> claimed sl = 1 -> owns pc1 = Some k /\ claimed (f sl) = 1 /\ filled pc1 num (f sl) \/ owns pc1 = None) -> handler_ok s pc1 ->
  signals_ok (edit_slot k f s, <[t := pc1]> ts).
Proof.
  intros Hok Ht Hown Hsig Hfill Hh. destruct (so_owner _ Hok t pc k Ht Hown) as (sl & num & Hsl & Hnum & Hcl & Hno & Hf). cbn [fst snd] in *. destruct Hok as [Hlen Hs Hi Ha Ho Hal Hha]. cbn [fst snd] in *.
  assert (forall i x, slots (edit_slot k f s) !! i = Some x -> i = k /\ x = f sl \/ i <> k /\ slots s !! i = Some x) as Hlook.
  { intros i x. cbn [slots edit_slot]. destruct (decide (i = k)) as [-> | Hne]; [rewrite list_lookup_alter_eq, Hsl; intros [= <-]; by left | rewrite list_lookup_alter_ne by done; by right]. }
  constructor; cbn [fst snd].
  - cbn [slots edit_slot]. by rewrite length_alter.
  - intros i x Hx. apply Hlook in Hx as [[-> ->] | [_ Hx]]; [| by apply Hs]. destruct (Hsig sl num Hnum Hf) as [-> | [-> | ->]]; [by apply Hs | by left | by right].
  - intros n cb d Hn. cbn [installed edit_slot] in Hn. destruct (Hi n cb d Hn) as (i & Hin & Hcb & Hx). exists i. split; [done |]. split; [done |]. cbn [slots edit_slot]. rewrite list_lookup_alter_ne; [done |]. intros ->. congruence.
  - done.
  - intros u qc j Hu Hj. apply lookup_insert_Some in Hu as [[<- <-] | [Hne Hu]].
    + destruct (Hfill sl num Hnum Hf Hcl) as [(Hk & Hc & Hfl) | Hk]; [| congruence]. assert (j = k) as -> by congruence. exists (f sl), num. split; [cbn [slots edit_slot]; by rewrite list_lookup_alter_eq, Hsl | done].
    + destruct (Ho u qc j Hu Hj) as (x & n & Hx & Hrest). exists x, n. split; [| done]. cbn [slots edit_slot]. rewrite list_lookup_alter_ne; [done |]. intros ->. by destruct Hne; eapply (Hal t u).
  - intros u v qc rc j Hu Hv Hj1 Hj2. apply lookup_insert_Some in Hu as [[<- <-] | [Hne Hu]]; apply lookup_insert_Some in Hv as [[<- <-] | [Hne2 Hv]]; try done; [| | by eapply (Hal u v)].
    + destruct (Hfill sl num Hnum Hf Hcl) as [(Hk & _) | Hk]; [| congruence]. assert (j = k) as -> by congruence. by eapply (Hal t v).
    + destruct (Hfill sl num Hnum Hf Hcl) as [(Hk & _) | Hk]; [| congruence]. assert (j = k) as -> by congruence. by eapply (Hal u t).
  - intros u qc [[<- <-] | [_ Hu]]%lookup_insert_Some; [done | by eapply Hha].
Qed.
(** A thread goes on without a slot. *)
Lemma idle_step s ts t pc1 : signals_ok (s, ts) -> owns pc1 = None -> handler_ok s pc1 -> signals_ok (s, <[t := pc1]> ts).
Proof.
  intros [Hlen Hs Hi Ha Ho Hal Hha] Hown Hh. cbn [fst snd] in *. constructor; cbn [fst snd]; try done.
  - intros u qc j [[<- <-] | [_ Hu]]%lookup_insert_Some Hj; [congruence | by eapply Ho].
  - intros u v qc rc j Hu Hv Hj1 Hj2. apply lookup_insert_Some in Hu as [[<- <-] | [_ Hu]]; [congruence |]. apply lookup_insert_Some in Hv as [[<- <-] | [_ Hv]]; [congruence |]. by eapply (Hal u v).
  - intros u qc [[<- <-] | [_ Hu]]%lookup_insert_Some; [done | by eapply Hha].
Qed.
Lemma same_step s ts t pc k pc1 : signals_ok (s, ts) -> ts !! t = Some pc -> owns pc = Some k -> owns pc1 = Some k -> (forall num sl, filled pc num sl -> filled pc1 num sl) -> handler_ok s pc1 -> signals_ok (s, <[t := pc1]> ts).
Proof.
  intros Hok Ht Hown Hown1 Hf Hh. assert (s = edit_slot k (fun sl => sl) s) as -> by (unfold edit_slot; rewrite list_alter_id by done; by destruct s).
  apply (owner_step _ _ _ pc); try done; [by left |]. intros sl num _ Hfl Hc. left. split_and!; [done | done | by apply Hf].
Qed.
Lemma claim_step s ts t kind cb d : signals_ok (s, ts) -> ts !! t = Some (IClaim kind cb d) -> claimed (slot_at kind s) = 0 -> signals_ok (edit_slot kind (set_claimed 1) s, <[t := IQuery kind cb d]> ts).
Proof.
  intros Hok Ht Hc. destruct (so_handler _ Hok t _ Ht) as [Hcb [num Hnum]]. destruct (signal_pos _ _ Hnum) as [_ Hlt]. destruct Hok as [Hlen Hs Hi Ha Ho Hal Hha]. cbn [fst snd] in *.
  destruct (lookup_lt_is_Some_2 (slots s) kind) as [sl Hsl]; [lia |]. unfold slot_at in Hc. rewrite Hsl in Hc. simpl in Hc.
  assert (forall i, i <> kind -> slots (edit_slot kind (set_claimed 1) s) !! i = slots s !! i) as Hne by (intros i Hi2; cbn [slots edit_slot]; by rewrite list_lookup_alter_ne).
  assert (slots (edit_slot kind (set_claimed 1) s) !! kind = Some (set_claimed 1 sl)) as Hk by (cbn [slots edit_slot]; by rewrite list_lookup_alter_eq, Hsl).
  assert (forall u qc, ts !! u = Some qc -> owns qc <> Some kind) as Hnone. { intros u qc Hu Hq. destruct (Ho u qc kind Hu Hq) as (x & n & Hx & _ & Hcx & _). congruence. }
  assert (installed s !! num = None) as Hno. { destruct (installed s !! num) as [[cb1 d1] |] eqn:E; [| done]. destruct (Hi _ _ _ E) as (i & Hin & _ & Hx). rewrite (signal_inj _ _ _ Hin Hnum) in Hx. rewrite Hsl in Hx. by simplify_eq. }
  constructor; cbn [fst snd].
  - cbn [slots edit_slot]. by rewrite length_alter.
  - intros i x Hx. destruct (decide (i = kind)) as [-> | Hik]; [rewrite Hk in Hx; simplify_eq; by apply (Hs kind sl) | rewrite Hne in Hx by done; by apply Hs].
  - intros n cb1 d1 Hn. destruct (Hi n cb1 d1 Hn) as (i & Hin & Hcb1 & Hx). exists i. split; [done |]. split; [done |]. rewrite Hne; [done |]. intros ->. rewrite Hsl in Hx. by simplify_eq.
  - done.
  - intros u qc j [[<- <-] | [_ Hu]]%lookup_insert_Some Hj; simplify_eq/=.
    + by exists (set_claimed 1 sl), num.
    + destruct (Ho u qc j Hu Hj) as (x & n & Hx & Hrest). exists x, n. split; [| done]. rewrite Hne; [done |]. intros ->. by eapply Hnone.
  - intros u v qc rc j Hu Hv Hj1 Hj2. apply lookup_insert_Some in Hu as [[<- <-] | [_ Hu]]; apply lookup_insert_Some in Hv as [[<- <-] | [_ Hv]]; simplify_eq/=; try done; [by destruct (Hnone v rc Hv) | by destruct (Hnone u qc Hu) | by eapply (Hal u v)].
  - intros u qc [[<- <-] | [_ Hu]]%lookup_insert_Some; [done |]. by eapply Hha.
Qed.
Lemma install_step s ts t kind cb d old : signals_ok (s, ts) -> ts !! t = Some (IInstall kind cb d old) ->
  let num := signal_number kind in signals_ok (mkSignals (slots s) (<[num := new_action old]> (actions s)) (<[num := (cb, d)]> (installed s)), <[t := Returned OK]> ts).
Proof.
  intros Hok Ht. cbn zeta. destruct (so_owner _ Hok t _ kind Ht eq_refl) as (sl & n & Hsl & Hn & Hcl & Hno & Hcb & Hd & Hcbs & Hsg). cbn [fst snd] in *. assert (signal_number kind = n) as -> by (unfold signal_number; by rewrite Hn).
  destruct Hok as [Hlen Hs Hi Ha Ho Hal Hha]. cbn [fst snd] in *.
  assert (forall m x, installed s !! m = Some x -> <[n := (cb, d)]> (installed s) !! m = Some x) as Hmono by (intros m x Hm; rewrite lookup_insert_ne; [done |]; intros ->; congruence).
  assert (forall m, is_Some (installed s !! m) -> is_Some (<[n := (cb, d)]> (installed s) !! m)) as Hmono2 by (intros m [x Hx]; exists x; by apply Hmono).
  constructor; cbn [fst snd slots actions installed]; [done | done | | | | |].
  - intros m cb1 d1 [[<- [= <- <-]] | [_ Hm]]%lookup_insert_Some; [| by apply Hi]. exists kind. split; [done |]. split; [done |]. rewrite Hsl. f_equal. destruct sl; simpl in *; congruence.
  - intros m a [[<- <-] | [_ Hm]]%lookup_insert_Some; unfold had; cbn [installed]; [intros _; rewrite lookup_insert_eq; by eexists |]. intros Htr. apply Hmono2. by eapply Ha.
  - intros u qc j [[<- <-] | [Hne Hu]]%lookup_insert_Some Hj; [done |]. destruct (Ho u qc j Hu Hj) as (x & m & Hx & Hm & Hc & Hnm & Hf). exists x, m. split_and!; try done. cbn [installed].
    rewrite lookup_insert_ne; [done |]. intros ->. destruct Hne. rewrite (signal_inj _ _ _ Hm Hn) in Hj. by eapply (Hal t u).
  - intros u v qc rc j Hu Hv Hj1 Hj2. apply lookup_insert_Some in Hu as [[<- <-] | [_ Hu]]; [done |]. apply lookup_insert_Some in Hv as [[<- <-] | [_ Hv]]; [done |]. by eapply (Hal u v).
  - intros u qc [[<- <-] | [_ Hu]]%lookup_insert_Some; [done |]. eapply handler_later; [| by eapply Hha]. done.
Qed.
Lemma action_step s ts num a : signals_ok (s, ts) -> had num a s -> signals_ok (set_action num a s, ts).
Proof.
  intros [Hlen Hs Hi Ha Ho Hal Hha] Hhad. cbn [fst snd] in *. constructor; cbn [fst snd slots set_action installed actions]; try done.
  intros m b [[<- <-] | [_ Hm]]%lookup_insert_Some; [done | by eapply Ha].
Qed.
Lemma install_access ok s ts t pc s1 pc1 : signals_ok (s, ts) -> ts !! t = Some pc -> install ok s pc = Some (s1, pc1) -> signals_ok (s1, <[t := pc1]> ts).
Proof.
  intros Hok Ht E. destruct pc; try done; cbn [install] in E.
  - destruct (Z.eqb_spec (claimed (slot_at kind s)) 0); simplify_eq; [by apply claim_step | by apply idle_step].
  - simplify_eq. by destruct ok; apply (same_step _ _ _ _ kind _ Hok Ht).
  - simplify_eq. by destruct (a_handler old); apply (same_step _ _ _ _ kind _ Hok Ht).
  - simplify_eq. apply (owner_step _ _ _ _ _ _ _ Hok Ht); try done; [by left |]. intros. by left.
  - simplify_eq. apply (owner_step _ _ _ _ _ _ _ Hok Ht); try done; [by left |]. intros sl num Hnum Hf Hc. left. simpl in *. naive_solver.
  - simplify_eq. apply (owner_step _ _ _ _ _ _ _ Hok Ht); try done; unfold signal_number; [intros sl num Hnum _; rewrite Hnum; by right; right |]. intros sl num Hnum Hf Hc. left. rewrite Hnum. simpl in *. naive_solver.
  - destruct ok; simplify_eq; [by apply install_step | by apply (same_step _ _ _ _ kind _ Hok Ht)].
  - simplify_eq. apply (owner_step _ _ _ _ _ _ _ Hok Ht); try done; [by right; left |]. intros. by left.
  - simplify_eq. apply (owner_step _ _ _ _ _ _ _ Hok Ht); try done; [by left |]. intros. by left.
  - simplify_eq. apply (owner_step _ _ _ _ _ _ _ Hok Ht); try done; [by left |]. intros. by right.
Qed.
Lemma restore_access ok s ts t pc s1 pc1 : signals_ok (s, ts) -> ts !! t = Some pc -> restore ok s pc = Some (s1, pc1) -> signals_ok (s1, <[t := pc1]> ts).
Proof.
  intros Hok Ht E. pose proof (so_handler _ Hok t pc Ht) as Hh. destruct pc; try done; cbn [restore] in E.
  - simplify_eq. destruct (_ =? 0); by apply idle_step.
  - destruct ok; simplify_eq; [apply idle_step; [by apply action_step | done | done] | by apply idle_step].
Qed.
Lemma trampoline_access s ts t pc s1 pc1 : signals_ok (s, ts) -> ts !! t = Some pc -> trampoline s pc = Some (s1, pc1) -> signals_ok (s1, <[t := pc1]> ts).
Proof.
  intros Hok Ht E. pose proof (so_handler _ Hok t pc Ht) as Hh. destruct pc; try done; cbn [trampoline handler_ok fst] in *; simplify_eq.
  - destruct Hh as (j & Hj & Hij & [[cb d] Hin]). destruct (slot_installed _ _ _ _ _ _ Hok Hin Hj) as [Hslot _]. destruct (signal_pos _ _ Hj) as [Hnz Hlt]. pose proof (so_length _ Hok) as Hlen. cbn [fst] in Hlen.
    destruct (lookup_lt_is_Some_2 (slots s1) i) as [sl Hsl]; [lia |]. rewrite Hsl. destruct (Z.eqb_spec (slot_signal sl) code) as [Hc | Hc].
    + apply idle_step; [done | done |]. simpl. split; [| by eexists]. destruct (so_signal _ Hok i sl Hsl) as [Hz | Hs]; [congruence | by rewrite <- Hc].
    + apply idle_step; [done | done |]. simpl. exists j. split; [done |]. split; [| by eexists]. assert (i <> j); [| lia]. intros ->. rewrite Hsl in Hslot. by simplify_eq.
  - destruct Hh as [Hi [[cb d] Hin]]. destruct (slot_installed _ _ _ _ _ _ Hok Hin Hi) as [Hslot Hcb]. unfold slot_at. rewrite Hslot. simpl. rewrite (proj2 (Z.eqb_neq cb 0)) by done. apply idle_step; [done | done |]. by exists d.
  - destruct Hh as (d & Hi & Hin). destruct (slot_installed _ _ _ _ _ _ Hok Hin Hi) as [Hslot Hcb]. unfold slot_at. rewrite Hslot. simpl. by apply idle_step.
Qed.
Lemma step_ok x y : step x y -> signals_ok x -> signals_ok y.
Proof.
  intros Hstep Hok. destruct Hstep as [s ts t kind cb d Ht | s ts t kind previous Ht Hhad | s ts t code a Ht Ha Htr | s ts num a Hhad | s ts t pc ok s1 pc1 Ht E].
  - unfold install_begin. destruct (signal kind) as [num |] eqn:En; [destruct (Z.eqb_spec cb 0) |]; apply idle_step; done.
  - unfold restore_begin. destruct (signal kind); by apply idle_step.
  - apply idle_step; [done | done |]. pose proof (so_actions _ Hok _ _ Ha Htr) as [[cb d] Hin]. cbn [fst] in Hin. destruct (so_installed _ Hok _ _ _ Hin) as (i & Hi & _). exists i. split; [done |]. split; [lia |]. by eexists.
  - by apply action_step.
  - unfold access in E. destruct (install ok s pc) as [[] |] eqn:E1; [simplify_eq; by eapply install_access |]. destruct (restore ok s pc) as [[] |] eqn:E2; [simplify_eq; by eapply restore_access | by eapply trampoline_access].
Qed.
Lemma reachable_signals_ok s ts : reachable s ts -> signals_ok (s, ts).
Proof.
  intros Hr. unfold reachable in Hr. remember (start, ∅) as x0 eqn:E. assert (signals_ok x0) as H0.
  { subst. constructor; cbn [fst snd start slots installed actions]; intros; rewrite ?lookup_empty in *; try done. apply lookup_replicate in H as [-> _]. by left. }
  remember (s, ts) as x eqn:Ex. clear E Ex. induction Hr as [| x y z Hstep _ IH]; [done |]. apply IH. by eapply step_ok.
Qed.
(** C26: the signal handlers of the Linux port meet their registration.  However installations, restorations, foreign changes of the actions and handlers that run at any moment interleave, and whichever system calls fail: a handler that has been entered for a signal finds the slot of that signal, and calls the callback of the one installation of the signal that has succeeded, with the data of that installation; the slot of a signal that has been installed never changes again, so that a handler already running is not pulled away; two threads never fill the same slot; and the kernel runs the handler for no signal that has not been installed. *)
Theorem handlers_meet_their_data s ts : reachable s ts ->
  (forall t code cb d, ts !! t = Some (Called code cb d) -> installed s !! code = Some (cb, d)) /\
  (forall t code, ts !! t <> Some (Missed code)) /\
  (forall code cb d, installed s !! code = Some (cb, d) -> exists i, signal i = Some code /\ slots s !! i = Some (mkSlot 1 code cb d)) /\
  (forall t u pc qc k, ts !! t = Some pc -> ts !! u = Some qc -> owns pc = Some k -> owns qc = Some k -> t = u) /\
  (forall code a, actions s !! code = Some a -> a_handler a = Trampoline -> is_Some (installed s !! code)) /\
  (forall s1 ts1 code x, step (s, ts) (s1, ts1) -> installed s !! code = Some x -> installed s1 !! code = Some x).
Proof.
  intros Hr. pose proof (reachable_signals_ok _ _ Hr) as Hok. split; [| split; [| split; [| split; [| split]]]].
  - intros t code cb d Ht. by apply (so_handler _ Hok t _ Ht).
  - intros t code Ht. by apply (so_handler _ Hok t _ Ht).
  - intros code cb d Hin. destruct (so_installed _ Hok _ _ _ Hin) as (i & Hi & _ & Hs). by exists i.
  - intros t u pc qc k. by apply (so_alone _ Hok).
  - intros code a. by apply (so_actions _ Hok).
  - intros s1 ts1 code [cb d] Hstep Hin. destruct (so_installed _ Hok _ _ _ Hin) as (i & Hi & _ & Hs). cbn [fst] in Hs.
    inversion Hstep as [| | | | ? ? t pc ok ? pc1 Ht E]; subst; try done. unfold access in E. destruct pc; simpl in E; repeat case_match; simplify_eq; try done. cbn [installed]. rewrite lookup_insert_ne; [done |]. intros Hc.
    destruct (so_owner _ Hok t _ _ Ht eq_refl) as (sl & num & _ & Hn & _ & Hno & _). cbn [fst] in Hno. unfold signal_number in Hc. rewrite Hn in Hc. simpl in Hc. congruence.
Qed.
End Context.

(** ** A run: a segmentation handler is installed, runs, and the registration of another one is refused *)
Definition installed_run : Signals := mkSignals [slot_new; mkSlot 1 SIGSEGV 70 71; slot_new; slot_new; slot_new] {[SIGSEGV := mkAction Trampoline (Z.lor SA_RESTART SA_SIGINFO) 0]} {[SIGSEGV := (70, 71)]}.
Lemma handlers_meet_their_data_witness : exists s ts, reachable 34 s ts /\ ts !! 2%nat = Some (Called SIGSEGV 70 71) /\ ts !! 3%nat = Some (Returned BUSY) /\ installed s !! SIGSEGV = Some (70, 71).
Proof.
  assert (exists ts, reachable 34 installed_run ts /\ ts !! 2%nat = Some (Called SIGSEGV 70 71) /\ ts !! 3%nat = Some (Returned BUSY)) as (ts & Hr & H2 & H3).
  { eexists. split; [| split].
    - eapply rtc_l; [apply (step_install 34 _ _ 1%nat SEGMENTATION 70 71); reflexivity |]. do 7 (eapply rtc_l; [eapply (step_access 34 _ _ 1%nat _ true); reflexivity |]).
      eapply rtc_l; [apply (step_install 34 _ _ 3%nat SEGMENTATION 80 81); reflexivity |]. eapply rtc_l; [eapply (step_access 34 _ _ 3%nat _ true); reflexivity |].
      eapply rtc_l; [eapply (step_deliver 34 _ _ 2%nat SIGSEGV); reflexivity |]. do 4 (eapply rtc_l; [eapply (step_access 34 _ _ 2%nat _ true); reflexivity |]). apply rtc_refl.
    - reflexivity.
    - reflexivity. }
  destruct (handlers_meet_their_data 34 ltac:(lia) _ _ Hr) as [Hm _]. exists installed_run, ts. exact (conj Hr (conj H2 (conj H3 (Hm 2%nat SIGSEGV 70 71 H2)))).
Defined.
