(* ===== verification/LinuxWatches.v ===== *)
(** * LinuxWatches.v: watches of the Linux port

    [src/crates/dotnet-pal-linux/src/linux_watches.rs]: a watcher is one inotify instance and what the last read of it
    returned beyond the event that was asked for.  The kernel's events are records of 16 bytes and a padded name in one
    buffer; [buffered] takes the next one that the contract has a word for.

    The theorems: [read] gives the kernel's events in their order, each one translated and in a form the front end accepts, and
    passes over exactly those that have no translation, whatever is queued while it waits ([watch_events_in_order]); and a read
    without a timeout returns, and finds nothing only when nothing was there ([watch_poll_complete]). *)
From S2P Require Import Prelude Port Content Queue Front Machine Watching Libc LinuxText LinuxSpawn.
Import Errno.
Local Open Scope Z_scope.
Local Open Scope pal_scope.

(** ** [<sys/inotify.h>] *)
Definition IN_ACCESS : Z := 1.
Definition IN_MODIFY : Z := 2.
Definition IN_ATTRIB : Z := 4.
Definition IN_MOVED_FROM : Z := 64.
Definition IN_MOVED_TO : Z := 128.
Definition IN_CREATE : Z := 256.
Definition IN_DELETE : Z := 512.
Definition IN_Q_OVERFLOW : Z := 16384.
Definition IN_IGNORED : Z := 32768.
Definition IN_ONLYDIR : Z := 16777216.
Definition IN_DONT_FOLLOW : Z := 33554432.
Definition IN_EXCL_UNLINK : Z := 67108864.
Definition IN_ISDIR : Z := 1073741824.

Definition KINDS : list (Z * Z) :=
  [(W_ACCESS, IN_ACCESS); (W_MODIFY, IN_MODIFY); (W_ATTRIBUTES, IN_ATTRIB); (W_MOVED_FROM, IN_MOVED_FROM);
   (W_MOVED_TO, IN_MOVED_TO); (W_CREATE, IN_CREATE); (W_DELETE, IN_DELETE)].
Definition EVENT_HEADER : Z := 16.
Definition CAPACITY : Z := 4096.
Definition LOST_EVENT : Event := mkEvent 0 W_OVERFLOW 0 0 (zeros 256).
Record Watcher := mkWatcher { w_fd : Z; w_next : Z; w_filled : Z; w_buffer : list Z }.
Definition align_of_Watcher : Z := 8.
Definition size_of_Watcher : Z := 4120.

Definition translate (wd mask cookie : Z) (name : list Z) : option Event :=
  if has mask IN_Q_OVERFLOW then Some LOST_EVENT else
  let events := foldl (fun all '(kind, bit) => if has mask bit then Z.lor all kind else all) 0 KINDS in
  let events := if has mask IN_IGNORED then Z.lor events W_REMOVED else events in
  if (events =? 0) || (wd <=? 0) then None else
  let events := if has mask IN_ISDIR then Z.lor events W_DIRECTORY else events in
  Some (default LOST_EVENT (event_new wd events cookie name)).

Section Parse.
Context `{Endian}.
(** [ptr::read_unaligned]: the four words of the header, the first one with a sign. *)
Definition word (i : Z) (buffer : list Z) : Z := from_ne_bytes (takeZ 4 (dropZ (4 * i) buffer)).
Definition signed (v : Z) : Z := if v <? 2 ^ 31 then v else v - 2 ^ 32.
Definition move (next : Z) (w : Watcher) : Watcher := mkWatcher (w_fd w) next (w_filled w) (w_buffer w).
Definition c_name (name : list Z) : list Z := take_while (fun b => negb (b =? 0)) name.
(** A turn consumes a header, so that a turn for each byte is more than enough. *)
Fixpoint buffered (fuel : nat) (w : Watcher) : option (Watcher * Result (option Event)) :=
  match fuel with
  | O => None
  | S fuel =>
      if w_next w =? w_filled w then Some (w, Ok None) else
      let buffer := takeZ (w_filled w - w_next w) (dropZ (w_next w) (w_buffer w)) in
      if lenZ buffer <? EVENT_HEADER then Some (move (w_filled w) w, Err EOs) else
      let len := word 3 buffer in
      if lenZ buffer <? EVENT_HEADER + len then Some (move (w_filled w) w, Err EOs) else
      let name := takeZ len (dropZ EVENT_HEADER buffer) in
      let w := move (w_next w + EVENT_HEADER + len) w in
      match translate (signed (word 0 buffer)) (word 1 buffer) (word 2 buffer) (c_name name) with
      | Some event => Some (w, Ok (Some event))
      | None => buffered fuel w
      end
  end.
End Parse.

(** ** The provider *)
Class WatchCalls (K : Type) := {
  i_init : M K Z Z; i_eventfd : M K Z Z; i_close : Z -> M K Z unit; i_calloc : Z -> Z -> K -> K * Z; i_free : Z -> K -> K;
  i_add : Z -> list Z -> Z -> M K Z Z; i_rm : Z -> Z -> M K Z unit; i_read : Z -> Z -> M K Z (list Z);
  i_monotonic_ns : M K Error Z; i_ppoll : Z -> option (Z * Z) -> M K Z unit;
}.
Record Watchers (K : Type) := mkWatchers { kernel_of : K; watchers : gmap Z Watcher }.
Arguments mkWatchers {K} _ _.
Arguments kernel_of {K} _.
Arguments watchers {K} _.
Definition limit_for (remaining : Z) : Z * Z := (Z.min (remaining / 1000000000) i32_max, remaining mod 1000000000).

Section Provider.
Context `{Endian} {K : Type} {C : WatchCalls K}.
Notation Watchers := (Watchers K).
Definition put_kernel (k : K) (n : Watchers) : Watchers := mkWatchers k (watchers n).
Definition put_watcher (h : Z) (w : Watcher) (n : Watchers) : Watchers := mkWatchers (kernel_of n) (<[h := w]> (watchers n)).
Definition asks {A} (m : M K Z A) : Call Watchers (result Z A) := fun n => let '(k, r) := m (kernel_of n) in Returned (put_kernel k n) (Ok r).
Definition watcher (h : Z) : Call Watchers Watcher := fun n =>
  if (h =? 0) || negb (h mod align_of_Watcher =? 0) then Returned n (Err EInvalidArgument) else
  match watchers n !! h with Some w => Returned n (Ok w) | None => Undefined end.
(** [EMFILE] is a full descriptor table or the limit of instances; a spare descriptor tells which. *)
Definition open_error (code : Z) : Call Watchers Error :=
  if code =? EMFILE then
    let* spare := asks i_eventfd in
    match spare with Err _ => give ETooManyHandles | Ok fd => let* _ := asks (i_close fd) in give ENoSpace end
  else give (if code =? ENFILE then ETooManyHandles else if code =? ENOMEM then EOutOfMemory else EOs).
Definition open : Call Watchers Z :=
  let* fd := asks i_init in
  match fd with
  | Err code => let* e := open_error code in refuse_with e
  | Ok fd => fun n =>
      let '(k, h) := i_calloc 1 size_of_Watcher (kernel_of n) in
      if h =? 0 then (let* _ := asks (i_close fd) in refuse_with EOutOfMemory) (put_kernel k n)
      else Returned (put_watcher h (mkWatcher fd 0 0 (zeros CAPACITY)) (put_kernel k n)) (Ok h)
  end.
Definition close (h : Z) : Call Watchers unit :=
  let* w := watcher h in
  let* code := asks (i_close (w_fd w)) in fun n =>
  Returned (mkWatchers (i_free h (kernel_of n)) (delete h (watchers n)))
    (match code with Ok _ => Ok tt | Err code => if code =? EINTR then Ok tt else Err EOs end).
Definition add_mask (events : Z) : Z :=
  let mask := foldl (fun all '(kind, bit) => if has events kind then Z.lor all bit else all) IN_EXCL_UNLINK KINDS in
  let mask := if has events W_ONLY_DIRECTORY then Z.lor mask IN_ONLYDIR else mask in
  if has events W_NO_FOLLOW then Z.lor mask IN_DONT_FOLLOW else mask.
Definition add_error (code : Z) : Error :=
  if code =? ENOENT then ENotFound else if (code =? EACCES) || (code =? EPERM) then EAccessDenied else if code =? ENOTDIR then ENotDirectory
  else if code =? ENAMETOOLONG then Port.ENameTooLong else if code =? ENOSPC then ENoSpace else if code =? ENOMEM then EOutOfMemory else EOs.
Definition add (h : Z) (path : list Z) (events : Z) : Call Watchers Z :=
  let* w := watcher h in
  let* path := of_result (cpath path) in
  let* wd := asks (i_add (w_fd w) path (add_mask events)) in
  match wd with Ok wd => if 0 <? wd then give wd else refuse_with EOs | Err code => refuse_with (add_error code) end.
Definition remove (h watch : Z) : Call Watchers unit :=
  let* w := watcher h in
  if i32_max <? watch then refuse_with EInvalidArgument else
  let* r := asks (i_rm (w_fd w) watch) in
  match r with Ok _ => give tt | Err code => refuse_with (if code =? EINVAL then EInvalidArgument else EOs) end.
(** The loop of [read]; [deadline] is set by the first wait. *)
Fixpoint read_loop (fuel : nat) (h : Z) (timeout_ns : Z) (deadline : option Z) : Call Watchers Event :=
  match fuel with
  | O => fun _ => Waiting
  | S fuel =>
      let* w := watcher h in fun n =>
      match buffered (S (Z.to_nat (w_filled w))) w with
      | None => Waiting
      | Some (w, found) =>
          let n := put_watcher h w n in
          match found with
          | Err e => Returned n (Err e)
          | Ok (Some event) => Returned n (Ok event)
          | Ok None =>
              (let* count := asks (i_read (w_fd w) CAPACITY) in
               match count with
               | Ok bytes =>
                   if lenZ bytes =? 0 then refuse_with EOs
                   else fun n => read_loop fuel h timeout_ns deadline (put_watcher h (mkWatcher (w_fd w) 0 (lenZ bytes) (bytes ++ dropZ (lenZ bytes) (w_buffer w))) n)
               | Err code =>
                   if code =? EINTR then read_loop fuel h timeout_ns deadline else
                   if negb (code =? EAGAIN) then refuse_with EOs else
                   if timeout_ns =? 0 then refuse_with ETimeout else
                   let* now := (fun n => let '(k, r) := i_monotonic_ns (kernel_of n) in Returned (put_kernel k n) r) in
                   let end_ := default (saturating_add u64_max now timeout_ns) deadline in
                   let '(deadline, remaining) := if timeout_ns =? FOREVER then (deadline, FOREVER) else (Some end_, saturating_sub end_ now) in
                   if remaining =? 0 then refuse_with ETimeout else
                   let* r := asks (i_ppoll (w_fd w) (if timeout_ns =? FOREVER then None else Some (limit_for remaining))) in
                   match r with
                   | Err code => if code =? EINTR then read_loop fuel h timeout_ns deadline else refuse_with EOs
                   | Ok _ => read_loop fuel h timeout_ns deadline
                   end
               end) n
          end
      end
  end.
Definition read (fuel : nat) (h timeout_ns : Z) : Call Watchers Event := read_loop fuel h timeout_ns None.
End Provider.

(** ** The kernel's events *)
Record Kev := mkKev { k_wd : Z; k_mask : Z; k_cookie : Z; k_name : list Z; k_pad : nat }.
Definition named (b : Z) : bool := negb (b =? 0).
Definition kev_ok (ev : Kev) : Prop :=
  - 2 ^ 31 <= k_wd ev < 2 ^ 31 /\ u32_ok (k_mask ev) /\ u32_ok (k_cookie ev) /\ u32_ok (lenZ (k_name ev) + Z.of_nat (k_pad ev)) /\
  forallb named (k_name ev) = true.
(** What the contract has for it: a [quiet] event is one without a word. *)
Definition said (ev : Kev) : option Event := translate (k_wd ev) (k_mask ev) (k_cookie ev) (k_name ev).
Definition quiet (ev : Kev) : Prop := said ev = None.

(** What the translation makes of an event is one the front end passes on. *)
Lemma said_accepted ev e : said ev = Some e -> event_broken e = false.
Proof.
  unfold said, translate. destruct (has (k_mask ev) IN_Q_OVERFLOW); [by intros [= <-] |].
  destruct (Z.leb_spec (k_wd ev) 0) as [| Hwd]; [by rewrite orb_true_r |]. rewrite orb_false_r.
  assert (foldl (fun all '(kind, bit) => if has (k_mask ev) bit then Z.lor all kind else all) 0 KINDS ∈ seqZ 0 128) as Hin.
  { unfold KINDS. cbn [foldl]. apply elem_of_seqZ.
    destruct (has (k_mask ev) IN_ACCESS), (has (k_mask ev) IN_MODIFY), (has (k_mask ev) IN_ATTRIB), (has (k_mask ev) IN_MOVED_FROM), (has (k_mask ev) IN_MOVED_TO), (has (k_mask ev) IN_CREATE), (has (k_mask ev) IN_DELETE);
    vm_compute; done. }
  revert Hin. generalize (foldl (fun all '(kind, bit) => if has (k_mask ev) bit then Z.lor all kind else all) 0 KINDS). intros bits Hin.
  set (i := has (k_mask ev) IN_IGNORED). set (d := has (k_mask ev) IN_ISDIR).
  assert (forallb (fun bits => forallb (fun i : bool => forallb (fun d : bool =>
    let events := if i then Z.lor bits W_REMOVED else bits in let all := if d then Z.lor events W_DIRECTORY else events in
    (events =? 0) || ((Z.land all (Z.lnot REPORTABLE) =? 0) && negb (Z.land (Z.land all REPORTABLE) (Z.lnot W_DIRECTORY) =? 0) && negb (has all W_OVERFLOW)))
    [false; true]) [false; true]) (seqZ 0 128) = true) as Hall by (vm_compute; reflexivity).
  rewrite forallb_forall in Hall. apply list_elem_of_In in Hin. specialize (Hall _ Hin). rewrite forallb_forall in Hall.
  assert (In i [false; true]) as Hi by (destruct i; simpl; tauto). assert (In d [false; true]) as Hd by (destruct d; simpl; tauto).
  specialize (Hall _ Hi). rewrite forallb_forall in Hall. specialize (Hall _ Hd). cbn zeta in Hall.
  destruct (_ =? 0) eqn:He; [done |]. cbn [orb] in Hall. apply andb_true_iff in Hall as [[H1 H2]%andb_true_iff H3]. apply Z.eqb_eq in H1. apply negb_true_iff in H2, H3. apply Z.eqb_neq in H2.
  intros [= <-]. destruct (event_new _ _ _ _) as [e |] eqn:Hn; cbn [default]; [| done]. eapply event_new_accepted; eauto. lia.
Qed.

Section Buffered.
Context `{Endian}.
(** [struct inotify_event] and its padded name, as the kernel writes them. *)
Definition record (ev : Kev) : list Z :=
  to_ne_bytes (k_wd ev mod 2 ^ 32) ++ to_ne_bytes (k_mask ev) ++ to_ne_bytes (k_cookie ev) ++ to_ne_bytes (lenZ (k_name ev) + Z.of_nat (k_pad ev)) ++
  k_name ev ++ replicate (k_pad ev) 0.
Definition records (evs : list Kev) : list Z := concat (map record evs).
(** The reader has still to look at the records of [evs]. *)
Definition pending (w : Watcher) (evs : list Kev) : Prop :=
  0 <= w_next w <= w_filled w /\ w_filled w <= lenZ (w_buffer w) /\ lenZ (w_buffer w) = CAPACITY /\ Forall kev_ok evs /\
  takeZ (w_filled w - w_next w) (dropZ (w_next w) (w_buffer w)) = records evs.

Lemma lenZ_record ev : lenZ (record ev) = EVENT_HEADER + (lenZ (k_name ev) + Z.of_nat (k_pad ev)).
Proof. unfold record. rewrite !lenZ_app, !lenZ_to_ne_bytes. unfold EVENT_HEADER, lenZ. rewrite length_replicate. lia. Qed.
Lemma signed_wd v : - 2 ^ 31 <= v < 2 ^ 31 -> signed (v mod 2 ^ 32) = v.
Proof.
  intros Hv. unfold signed. destruct (Z.ltb_spec v 0) as [Hn | Hn].
  - replace (v mod 2 ^ 32) with (v + 2 ^ 32) by (apply Z.mod_unique with (-1); lia). destruct (Z.ltb_spec (v + 2 ^ 32) (2 ^ 31)); lia.
  - rewrite Z.mod_small by lia. destruct (Z.ltb_spec v (2 ^ 31)); lia.
Qed.
(** The parser reads back what the kernel wrote, whatever follows it. *)
Lemma record_read ev rest : kev_ok ev -> let b := record ev ++ rest in
  signed (word 0 b) = k_wd ev /\ word 1 b = k_mask ev /\ word 2 b = k_cookie ev /\ word 3 b = lenZ (k_name ev) + Z.of_nat (k_pad ev) /\
  c_name (takeZ (word 3 b) (dropZ EVENT_HEADER b)) = k_name ev.
Proof.
  intros (Hw & Hm & Hc & Hl & Hn) b.
  assert (u32_ok (k_wd ev mod 2 ^ 32)) as Hu by (unfold u32_ok, u32_max; pose proof (Z.mod_pos_bound (k_wd ev) (2 ^ 32)); lia).
  assert (forall n a (l : list Z), dropZ (4 + 4 * Z.of_nat n) (to_ne_bytes a ++ l) = dropZ (4 * Z.of_nat n) l) as Hskip.
  { intros n a l. rewrite <- dropZ_dropZ by lia. by rewrite (dropZ_app_exact 4) by (by rewrite lenZ_to_ne_bytes). }
  assert (forall a (l : list Z), u32_ok a -> from_ne_bytes (takeZ 4 (dropZ 0 (to_ne_bytes a ++ l))) = a) as Hat.
  { intros a l Ha. change (dropZ 0 (to_ne_bytes a ++ l)) with (to_ne_bytes a ++ l). rewrite takeZ_app_exact by (by rewrite lenZ_to_ne_bytes). by apply ne_roundtrip. }
  assert (word 3 b = lenZ (k_name ev) + Z.of_nat (k_pad ev)) as H3.
  { subst b. unfold record, word. rewrite <- !app_assoc. rewrite (Hskip 2%nat), (Hskip 1%nat), (Hskip 0%nat). by apply Hat. }
  split_and!; [| | | done |].
  - subst b. unfold record, word. rewrite <- !app_assoc. rewrite Hat by done. by apply signed_wd.
  - subst b. unfold record, word. rewrite <- !app_assoc. rewrite (Hskip 0%nat). by apply Hat.
  - subst b. unfold record, word. rewrite <- !app_assoc. rewrite (Hskip 1%nat), (Hskip 0%nat). by apply Hat.
  - rewrite H3. subst b. unfold record. rewrite <- !app_assoc. rewrite (Hskip 3%nat), (Hskip 2%nat), (Hskip 1%nat), (Hskip 0%nat).
    change (dropZ (4 * Z.of_nat 0)) with (@drop Z 0). rewrite drop_0, app_assoc, takeZ_app_exact by (rewrite lenZ_app; unfold lenZ; rewrite length_replicate; lia).
    apply take_while_app; [done |]. by destruct (k_pad ev).
Qed.
Lemma buffered_pending fuel w evs : pending w evs -> (length evs < fuel)%nat -> exists w' r evs',
  buffered fuel w = Some (w', Ok r) /\ pending w' evs' /\ w_fd w' = w_fd w /\
  match r with
  | Some e => exists skipped ev, evs = skipped ++ ev :: evs' /\ Forall quiet skipped /\ said ev = Some e
  | None => evs' = [] /\ Forall quiet evs
  end.
Proof.
  revert w evs. induction fuel as [| fuel IH]; intros w evs Hp Hf; [lia |]. pose proof Hp as (Hnext & Hfill & Hcap & Hok & Hb). cbn [buffered].
  destruct (Z.eqb_spec (w_next w) (w_filled w)) as [Heq | Hne].
  - exists w, None, evs. destruct evs as [| ev evs]; [by split_and! |]. exfalso.
    assert (lenZ (records (ev :: evs)) = 0) as Hl by (rewrite <- Hb; autorewrite with len; lia). unfold records in Hl. cbn [map concat] in Hl. rewrite lenZ_app, lenZ_record in Hl.
    unfold EVENT_HEADER in Hl. pose proof (lenZ_nonneg (k_name ev)). pose proof (lenZ_nonneg (concat (map record evs))). lia.
  - destruct evs as [| ev evs].
    { exfalso. assert (lenZ (records []) = w_filled w - w_next w) as Hl by (rewrite <- Hb; autorewrite with len; lia). unfold records, lenZ in Hl. simpl in Hl. lia. }
    rewrite Hb. unfold records. cbn [map concat]. apply Forall_cons_1 in Hok as [Hev Hok]. destruct (record_read ev (concat (map record evs)) Hev) as (H0 & H1 & H2 & H3 & Hnm).
    cbn zeta. rewrite H0, H1, H2, H3, ?Hnm. rewrite H3 in Hnm. rewrite Hnm. rewrite lenZ_app, lenZ_record.
    pose proof (lenZ_nonneg (k_name ev)) as Hn0. pose proof (lenZ_nonneg (concat (map record evs))) as Hc0.
    destruct (Z.ltb_spec (EVENT_HEADER + (lenZ (k_name ev) + Z.of_nat (k_pad ev)) + lenZ (concat (map record evs))) EVENT_HEADER); [lia |].
    destruct (Z.ltb_spec (EVENT_HEADER + (lenZ (k_name ev) + Z.of_nat (k_pad ev)) + lenZ (concat (map record evs))) (EVENT_HEADER + (lenZ (k_name ev) + Z.of_nat (k_pad ev)))); [lia |].
    set (w1 := move _ w). assert (w_filled w - w_next w = EVENT_HEADER + (lenZ (k_name ev) + Z.of_nat (k_pad ev)) + lenZ (records evs)) as Hlen.
    { rewrite <- lenZ_record. unfold records. rewrite <- lenZ_app. change (record ev ++ concat (map record evs)) with (records (ev :: evs)). rewrite <- Hb. autorewrite with len. lia. }
    unfold EVENT_HEADER in Hlen. assert (pending w1 evs) as Hp1.
    { pose proof (lenZ_nonneg (records evs)). subst w1. unfold pending, EVENT_HEADER. cbn [w_next w_filled w_buffer move]. split_and!; try done; try lia.
      replace (w_filled w - (w_next w + 16 + (lenZ (k_name ev) + Z.of_nat (k_pad ev)))) with (lenZ (records evs)) by lia.
      replace (w_next w + 16 + (lenZ (k_name ev) + Z.of_nat (k_pad ev))) with (w_next w + lenZ (record ev)) by (rewrite lenZ_record; unfold EVENT_HEADER; lia).
      rewrite <- dropZ_dropZ by (pose proof (lenZ_nonneg (record ev)); lia).
      assert (takeZ (lenZ (records evs)) (dropZ (lenZ (record ev)) (dropZ (w_next w) (w_buffer w))) = dropZ (lenZ (record ev)) (takeZ (w_filled w - w_next w) (dropZ (w_next w) (w_buffer w)))) as ->.
      { rewrite Hlen. unfold takeZ, dropZ. rewrite skipn_firstn_comm. f_equal. rewrite lenZ_record. unfold EVENT_HEADER. lia. }
      rewrite Hb. unfold records. cbn [map concat]. by rewrite dropZ_app_exact. }
    change (translate (k_wd ev) (k_mask ev) (k_cookie ev) (k_name ev)) with (said ev). destruct (said ev) as [e |] eqn:Hs.
    + exists w1, (Some e), evs. split_and!; try done. exists [], ev. by split_and!.
    + destruct (IH w1 evs Hp1 ltac:(simpl in Hf; lia)) as (w2 & r & evs' & -> & Hp2 & Hfd & Hr). exists w2, r, evs'. split_and!; try done.
      destruct r as [e |].
      * destruct Hr as (skipped & ev' & -> & Hq & He). exists (ev :: skipped), ev'. split_and!; try done. by constructor.
      * destruct Hr as [-> Hq]. split; [done |]. by constructor.
Qed.
Lemma pending_count w evs : pending w evs -> Z.of_nat (length evs) <= w_filled w.
Proof.
  intros (Hn & Hf & _ & _ & Hb). apply Z.le_trans with (lenZ (records evs)); [| rewrite <- Hb; autorewrite with len; lia].
  unfold records. clear. induction evs as [| ev evs IH]; [done |]. cbn [map concat length]. rewrite lenZ_app, lenZ_record. unfold EVENT_HEADER. pose proof (lenZ_nonneg (k_name ev)). lia.
Qed.
End Buffered.

(** ** The kernel
    [arrived fd k]: every event that was ever queued for instance [fd], in order; [queued fd k]: those of them that no read has
    taken yet.  A read takes whole events from the front, as many as there is room for, and is refused with [EAGAIN] when there
    are none; any call may find that more have arrived meanwhile, and nothing but a read takes one.
    [disturbances] bounds what is still to be queued and to be interrupted. *)
Definition interrupted {A} (r : result Z A) : nat := match r with Err code => if code =? EINTR then 1%nat else 0%nat | Ok _ => 0%nat end.
Class WatchLaws (K : Type) `{Endian} {C : WatchCalls K} := {
  arrived : Z -> K -> list Kev; queued : Z -> K -> list Kev; disturbances : K -> nat;
  l_calloc k k' p : i_calloc 1 size_of_Watcher k = (k', p) -> p mod align_of_Watcher = 0;
  l_read fd k k' r : i_read fd CAPACITY k = (k', r) -> exists more, (length more + interrupted r + disturbances k' <= disturbances k)%nat /\ arrived fd k' = arrived fd k ++ more /\
    match r with
    | Ok bytes => exists evs, evs <> [] /\ Forall kev_ok evs /\ bytes = records evs /\ lenZ bytes <= CAPACITY /\ queued fd k ++ more = evs ++ queued fd k'
    | Err code => queued fd k' = queued fd k ++ more /\ (code = EAGAIN -> queued fd k = [])
    end;
  l_clock fd k k' r : i_monotonic_ns k = (k', r) -> exists more, queued fd k' = queued fd k ++ more /\ arrived fd k' = arrived fd k ++ more;
  l_ppoll fd fd' limit k k' r : i_ppoll fd' limit k = (k', r) -> exists more, queued fd k' = queued fd k ++ more /\ arrived fd k' = arrived fd k ++ more;
}.

Section Reading.
Context `{Endian} {K : Type} {C : WatchCalls K} {L : WatchLaws K}.
Implicit Types n : Watchers K.
(** Handle [h] is watcher [w], and the records of [evs] are left in its buffer. *)
Definition handled n (h : Z) (w : Watcher) (evs : list Kev) : Prop :=
  h <> 0 /\ h mod align_of_Watcher = 0 /\ watchers n !! h = Some w /\ pending w evs.
(** What a call of [read] that ended in [n'] did with the events [evs] in the buffer, those queued in [n] and those that arrived since:
    it passed over the quiet ones at the front, gave the next one when it gave one at all, and left the rest. *)
Definition told (h fd : Z) (evs : list Kev) n (r : Result Event) n' : Prop :=
  exists w' evs' more skipped given, handled n' h w' evs' /\ w_fd w' = fd /\ delete h (watchers n') = delete h (watchers n) /\
    arrived fd (kernel_of n') = arrived fd (kernel_of n) ++ more /\ evs ++ queued fd (kernel_of n) ++ more = skipped ++ given ++ evs' ++ queued fd (kernel_of n') /\ Forall quiet skipped /\
    map said given = match r with Ok e => [Some e] | Err _ => [] end /\
    (r = Err ETimeout -> Forall quiet (evs ++ queued fd (kernel_of n))).

Lemma watcher_handled n h w evs : handled n h w evs -> watcher h n = Returned n (Ok w).
Proof. intros (Hz & Ha & Hw & _). unfold watcher. apply Z.eqb_neq in Hz. by rewrite Hz, Ha, Hw. Qed.
Lemma handled_put n h w evs w1 evs1 : handled n h w evs -> pending w1 evs1 -> handled (put_watcher h w1 n) h w1 evs1.
Proof. intros (Hz & Ha & _ & _) Hp. split_and!; try done. cbn [watchers put_watcher]. apply lookup_insert_eq. Qed.
(** The read gave up after [evs]. *)
Lemma told_nothing h fd evs n w' n' more e : handled n' h w' [] -> w_fd w' = fd -> delete h (watchers n') = delete h (watchers n) -> Forall quiet evs ->
  queued fd (kernel_of n') = queued fd (kernel_of n) ++ more -> arrived fd (kernel_of n') = arrived fd (kernel_of n) ++ more -> (e = ETimeout -> queued fd (kernel_of n) = []) -> told h fd evs n (Err e) n'.
Proof.
  intros Hh Hfd Hd Hq Hk Hm He. exists w', [], more, evs, []. split_and!; try done; [by rewrite Hk |]. intros [= ->]. rewrite He by done. by rewrite app_nil_r.
Qed.
(** It went on from [n1] with the events [evs1] in the buffer. *)
Lemma told_on h fd evs n evs1 n1 more r n' : told h fd evs1 n1 r n' -> delete h (watchers n1) = delete h (watchers n) -> Forall quiet evs ->
  queued fd (kernel_of n) ++ more = evs1 ++ queued fd (kernel_of n1) -> arrived fd (kernel_of n1) = arrived fd (kernel_of n) ++ more -> told h fd evs n r n'.
Proof.
  intros (w' & evs' & more1 & skipped & given & Hh & Hfd & Hd' & Har & Heq & Hs & Hg & Ht) Hd Hq Hk Hm.
  exists w', evs', (more ++ more1), (evs ++ skipped), given. split_and!; try done.
  - by rewrite Hd'.
  - by rewrite Har, Hm, <- app_assoc.
  - rewrite <- (app_assoc evs). f_equal. by rewrite <- Heq, (app_assoc (queued fd _)), Hk, <- app_assoc.
  - by apply Forall_app.
  - intros Hr. specialize (Ht Hr). rewrite <- Hk in Ht. apply Forall_app in Ht as [Ht _]. by apply Forall_app.
Qed.
Lemma pending_filled w evs : evs <> [] -> Forall kev_ok evs -> lenZ (records evs) <= CAPACITY -> pending w [] ->
  pending (mkWatcher (w_fd w) 0 (lenZ (records evs)) (records evs ++ dropZ (lenZ (records evs)) (w_buffer w))) evs.
Proof.
  intros Hne Hok Hl (_ & _ & Hcap & _). pose proof (lenZ_nonneg (records evs)). unfold pending. cbn [w_next w_filled w_buffer]. autorewrite with len. split_and!; try lia; [done |].
  rewrite Z.sub_0_r. change (dropZ 0 ?l) with (drop 0 l). by rewrite drop_0, takeZ_app_exact.
Qed.
Lemma records_nonempty evs : evs <> [] -> lenZ (records evs) <> 0.
Proof.
  destruct evs as [| ev evs]; [done |]. intros _. unfold records. cbn [map concat]. rewrite lenZ_app, lenZ_record. unfold EVENT_HEADER.
  pose proof (lenZ_nonneg (k_name ev)). pose proof (lenZ_nonneg (concat (map record evs))). lia.
Qed.
(** One turn of the loop: the buffer is looked through, and when nothing was in it the kernel is asked. *)
Lemma read_turn fuel h t deadline n w evs : handled n h w evs ->
  (exists e n', read_loop (S fuel) h t deadline n = Returned n' (Ok e) /\ told h (w_fd w) evs n (Ok e) n') \/
  (exists w1 k r, pending w1 [] /\ w_fd w1 = w_fd w /\ Forall quiet evs /\ i_read (w_fd w) CAPACITY (kernel_of n) = (k, r) /\
    let n1 := put_kernel k (put_watcher h w1 n) in
    read_loop (S fuel) h t deadline n =
      match r with
      | Ok bytes => if lenZ bytes =? 0 then Returned n1 (Err EOs)
                    else read_loop fuel h t deadline (put_watcher h (mkWatcher (w_fd w1) 0 (lenZ bytes) (bytes ++ dropZ (lenZ bytes) (w_buffer w1))) n1)
      | Err code => if code =? EINTR then read_loop fuel h t deadline n1 else if negb (code =? EAGAIN) then Returned n1 (Err EOs) else if t =? 0 then Returned n1 (Err ETimeout) else
          (let* now := (fun n => let '(k, r) := i_monotonic_ns (kernel_of n) in Returned (put_kernel k n) r) in
           let end_ := default (saturating_add u64_max now t) deadline in
           let '(deadline, remaining) := if t =? FOREVER then (deadline, FOREVER) else (Some end_, saturating_sub end_ now) in
           if remaining =? 0 then refuse_with ETimeout else
           let* r := asks (i_ppoll (w_fd w1) (if t =? FOREVER then None else Some (limit_for remaining))) in
           match r with Err code => if code =? EINTR then read_loop fuel h t deadline else refuse_with EOs | Ok _ => read_loop fuel h t deadline end) n1
      end).
Proof.
  intros Hh. pose proof Hh as (_ & _ & _ & Hp). pose proof (pending_count _ _ Hp) as Hc.
  destruct (buffered_pending (S (Z.to_nat (w_filled w))) w evs Hp) as (w1 & found & evs1 & Hb & Hp1 & Hfd & Hr); [lia |].
  cbn [read_loop]. unfold then_ at 1 5. rewrite (watcher_handled _ _ _ _ Hh), Hb. destruct found as [e |].
  - left. destruct Hr as (skipped & ev & -> & Hq & Hs). eexists _, _. split; [done |]. exists w1, evs1, [], skipped, [ev]. split_and!; try done.
    + by eapply handled_put.
    + cbn [watchers put_watcher]. apply delete_insert_eq.
    + cbn [kernel_of put_watcher]. by rewrite app_nil_r.
    + cbn [kernel_of put_watcher]. by rewrite app_nil_r, <- app_assoc.
    + cbn [map]. by rewrite Hs.
  - right. destruct Hr as [-> Hq]. destruct (i_read (w_fd w) CAPACITY (kernel_of n)) as [k r] eqn:Hread. exists w1, k, r. split_and!; try done. cbn zeta.
    unfold then_ at 1, asks at 1. cbn [kernel_of put_watcher]. rewrite Hfd, Hread. unfold refuse_with. destruct r as [bytes | code]; repeat case_match; done.
Qed.
Lemma read_loop_told fuel h t deadline n w evs n' r : handled n h w evs -> read_loop fuel h t deadline n = Returned n' r -> told h (w_fd w) evs n r n'.
Proof.
  revert deadline n w evs. induction fuel as [| fuel IH]; intros deadline n w evs Hh; [done |].
  destruct (read_turn fuel h t deadline n w evs Hh) as [(e & n1 & -> & Ht) | (w1 & k & x & Hp1 & Hfd & Hq & Hread & ->)]; [intros E; by simplify_eq |].
  apply l_read in Hread as (more & _ & Hm & Hx). set (n1 := put_kernel k (put_watcher h w1 n)).
  assert (handled n1 h w1 []) as Hh1 by (by apply (handled_put n h w evs)).
  assert (delete h (watchers n1) = delete h (watchers n)) as Hd1 by apply delete_insert_eq.
  destruct x as [bytes | code].
  - destruct Hx as (evs1 & Hne & Hok & -> & Hl & Hk). destruct (Z.eqb_spec (lenZ (records evs1)) 0) as [Hz | _]; [by apply records_nonempty in Hz |].
    intros E. eapply IH with (evs := evs1) in E; [| eapply handled_put; [exact Hh1 | by apply pending_filled]].
    cbn [w_fd] in E. rewrite Hfd in E. refine (told_on _ _ _ _ _ _ _ _ _ E _ Hq Hk Hm). cbn [watchers put_watcher]. by rewrite delete_insert_eq.
  - destruct Hx as [Hk He].
    assert (forall deadline n2 more2, read_loop fuel h t deadline n2 = Returned n' r -> watchers n2 = watchers n1 ->
      queued (w_fd w) (kernel_of n2) = queued (w_fd w) (kernel_of n) ++ more2 -> arrived (w_fd w) (kernel_of n2) = arrived (w_fd w) (kernel_of n) ++ more2 -> told h (w_fd w) evs n r n') as Hon.
    { intros deadline2 n2 more2 E Hw Hq2 Hm2. apply IH with (w := w1) (evs := []) in E; [| unfold handled; by rewrite Hw]. rewrite Hfd in E.
      refine (told_on _ _ _ _ _ _ _ _ _ E _ Hq (eq_sym Hq2) Hm2). by rewrite Hw. }
    assert (forall n2 more2 e, Returned n2 (Err e) = Returned n' r -> watchers n2 = watchers n1 ->
      queued (w_fd w) (kernel_of n2) = queued (w_fd w) (kernel_of n) ++ more2 -> arrived (w_fd w) (kernel_of n2) = arrived (w_fd w) (kernel_of n) ++ more2 ->
      (e = ETimeout -> code = EAGAIN) -> told h (w_fd w) evs n r n') as Hstop.
    { intros n2 more2 e E Hw Hq2 Hm2 Ht. simplify_eq. eapply told_nothing; [unfold handled; rewrite Hw; exact Hh1 | done | by rewrite Hw | done | exact Hq2 | exact Hm2 | auto]. }
    destruct (Z.eqb_spec code EINTR); [intros E; by apply (Hon _ _ more E) |]. destruct (Z.eqb_spec code EAGAIN) as [Hc |]; cbn [negb]; [| intros E; by apply (Hstop _ more _ E)].
    destruct (t =? 0); [intros E; by apply (Hstop _ more _ E) |]. unfold then_ at 1. destruct (i_monotonic_ns (kernel_of n1)) as [k2 c] eqn:Eclock.
    apply (l_clock (w_fd w)) in Eclock as (more2 & Hk2 & Hm2). cbn [kernel_of n1 put_kernel] in Hk2, Hm2. rewrite Hk, <- app_assoc in Hk2. rewrite Hm, <- app_assoc in Hm2.
    destruct c as [now | e]; [| intros E; by apply (Hstop _ (more ++ more2) _ E)]. cbn zeta. destruct (if t =? FOREVER then _ else _) as [deadline2 remaining].
    destruct (remaining =? 0); [intros E; by apply (Hstop _ (more ++ more2) _ E) |].
    unfold then_, asks. destruct (i_ppoll _ _ _) as [k3 x] eqn:Epoll. apply (l_ppoll (w_fd w)) in Epoll as (more3 & Hk3 & Hm3). cbn [kernel_of put_kernel] in Hk3, Hm3. rewrite Hk2, <- app_assoc in Hk3. rewrite Hm2, <- app_assoc in Hm3.
    destruct x as [? | code2]; [intros E; by apply (Hon _ _ _ E) in Hk3 |]. destruct (code2 =? EINTR); intros E; [by apply (Hon _ _ _ E) in Hk3 | by apply (Hstop _ _ _ E) in Hk3].
Qed.
(** A read without a timeout waits for nothing: each turn takes events that are there, or is a disturbance. *)
Lemma poll_returns fuel h deadline n w evs : handled n h w evs -> (length (queued (w_fd w) (kernel_of n)) + disturbances (kernel_of n) < fuel)%nat ->
  exists n' r, read_loop fuel h 0 deadline n = Returned n' r.
Proof.
  revert n w evs. induction fuel as [| fuel IH]; intros n w evs Hh Hf; [lia |].
  destruct (read_turn fuel h 0 deadline n w evs Hh) as [(e & n1 & -> & Ht) | (w1 & k & x & Hp1 & Hfd & Hq & Hread & ->)]; [eauto |].
  apply l_read in Hread as (more & Hm & _ & Hx). set (n1 := put_kernel k (put_watcher h w1 n)).
  assert (handled n1 h w1 []) as Hh1 by (by apply (handled_put n h w evs)).
  destruct x as [bytes | code].
  - destruct Hx as (evs1 & Hne & Hok & -> & Hl & Hk). destruct (_ =? 0); [eauto |].
    eapply IH; [eapply handled_put; [exact Hh1 | by apply pending_filled] |]. cbn [w_fd kernel_of put_watcher n1 put_kernel]. rewrite Hfd.
    apply (f_equal length) in Hk. rewrite !length_app in Hk. destruct evs1; [done |]. cbn [length interrupted] in *. lia.
  - destruct Hx as [Hk _]. cbn [interrupted] in Hm. destruct (code =? EINTR); [| destruct (negb _); eauto].
    eapply IH; [exact Hh1 |]. cbn [kernel_of n1 put_kernel]. rewrite Hfd, Hk, length_app. lia.
Qed.
(** What [open] makes is such a handle, with nothing in its buffer. *)
Lemma opened_handled n n' h : open n = Returned n' (Ok h) -> exists w, handled n' h w [].
Proof.
  unfold open, then_, asks. destruct (i_init _) as [k [fd | code]].
  - cbn [kernel_of put_kernel]. destruct (i_calloc _ _ k) as [k1 p] eqn:Ec. apply l_calloc in Ec. destruct (Z.eqb_spec p 0) as [-> | Hp].
    + destruct (i_close fd _) as [k2 x]. done.
    + intros E. simplify_eq. exists (mkWatcher fd 0 0 (zeros CAPACITY)). split_and!; try done; apply lookup_insert_eq.
  - unfold open_error, then_, asks, give, refuse_with. destruct (_ =? EMFILE); [| done]. destruct (i_eventfd _) as [k1 [spare | e]]; [| done]. by destruct (i_close spare _).
Qed.
(** A read without a timeout returns: it makes no more turns than there are events queued, events still to be queued and
    interruptions, and one; and it finds nothing only when nothing that the contract has a word for was in the buffer or queued
    when it was called. *)
Theorem watch_poll_complete fuel h n w evs : handled n h w evs ->
  (length (queued (w_fd w) (kernel_of n)) + disturbances (kernel_of n) < fuel)%nat ->
  exists n' r, read fuel h 0 n = Returned n' r /\ (r = Err ETimeout -> Forall quiet (evs ++ queued (w_fd w) (kernel_of n))).
Proof.
  intros Hh Hf. destruct (poll_returns fuel h None n w evs Hh Hf) as (n' & r & E). exists n', r. split; [exact E |].
  by apply (read_loop_told _ _ _ _ _ _ _ _ _ Hh) in E as (? & ? & ? & ? & ? & _ & _ & _ & _ & _ & _ & _ & Ht).
Qed.
End Reading.

(** ** A kernel with two kinds of events: a file that was created, and an unmounted file system. *)
Module WatchesSample.
#[export] Instance little : Endian := { big_endian := false }.
Definition event_of (created : bool) : Kev := if created then mkKev 1 IN_CREATE 0 [97; 98] 14 else mkKev 1 8192 0 [] 0.
Record Inotify := mkInotify { now_queued : list bool; later : list bool; before : list bool }.
#[export] Instance calls : WatchCalls Inotify := {
  i_init k := (k, Ok 3); i_eventfd k := (k, Ok 4); i_close fd k := (k, Ok tt); i_calloc count size k := (k, 4096); i_free p k := k;
  i_add fd path mask k := (k, Ok 1); i_rm fd wd k := (k, Ok tt);
  i_read fd capacity k := match now_queued k with [] => (k, Err EAGAIN) | b :: l => (mkInotify l (later k) (before k ++ [b]), Ok (records [event_of b])) end;
  i_monotonic_ns k := (k, Ok 5); i_ppoll fd limit k := (mkInotify (now_queued k ++ later k) [] (before k), Ok tt) }.
#[export] Instance laws : WatchLaws Inotify.
Proof.
  refine {| arrived fd k := map event_of (before k ++ now_queued k); queued fd k := map event_of (now_queued k); disturbances k := O |}; simpl.
  - intros k k' p [= <- <-]. done.
  - intros fd [l later before] k' r. simpl. destruct l as [| b l]; intros [= <- <-]; exists []; (split; [simpl; lia |]); simpl; rewrite ?app_nil_r; [done |]. split; [by rewrite <- app_assoc |].
    exists [event_of b]. split_and!; [done | | done | by destruct b | done].
    constructor; [| done]. destruct b; unfold kev_ok, u32_ok, u32_max; simpl; unfold IN_CREATE, lenZ; simpl; split_and!; lia || done.
  - intros fd k k' r [= <- <-]. exists []. by rewrite !app_nil_r.
  - intros fd fd' limit k k' r [= <- <-]. exists (map event_of (later k)). simpl. by rewrite (app_assoc (before k)), !map_app.
Defined.
Definition start : Watchers Inotify := mkWatchers (mkInotify [false] [false; true] []) {[4096 := mkWatcher 3 0 0 (zeros CAPACITY)]}.
Lemma start_handled : handled start 4096 (mkWatcher 3 0 0 (zeros CAPACITY)) [].
Proof. by split_and!. Qed.
Definition answer {A} (o : Outcome (Watchers Inotify) A) : option (Result A) := match o with Returned _ r => Some r | _ => None end.
Definition after {A} (o : Outcome (Watchers Inotify) A) : Watchers Inotify := match o with Returned n _ => n | _ => start end.
Definition created : Event := mkEvent 1 W_CREATE 0 2 ([97; 98] ++ zeros 254).
(** It waits through an unmount that is there and one that comes while it waits, and gives the creation. *)
Example waits_for_creation : answer (read 9 4096 1000 start) = Some (Ok created).
Proof. vm_compute. reflexivity. Qed.
Example poll_finds_nothing : answer (read 2 4096 0 start) = Some (Err ETimeout).
Proof. vm_compute. reflexivity. Qed.
End WatchesSample.
Import WatchesSample.
Lemma watch_poll_complete_witness : (length (queued 3 (kernel_of start)) + disturbances (kernel_of start) < 2)%nat /\
  exists n' r, read 2 4096 0 start = Returned n' r /\ (r = Err ETimeout -> Forall quiet ([] ++ queued 3 (kernel_of start))).
Proof. split; [simpl; lia |]. apply (watch_poll_complete 2 4096 start _ [] start_handled). simpl. lia. Defined.
