(* ===== verification/LinuxNotifications.v ===== *)
(** * LinuxNotifications.v: notifications of the Linux port

    [src/crates/dotnet-pal-linux/src/linux_notifications.rs]: nine signals, reported through a pipe.  The handler [on_signal]
    writes the kind of the signal as one byte; a thread of the provider reads the pipe and hands each kind to the front end
    ([Notifications.v]), and takes the default action itself when the front end does not want the kind.  Every change of a
    signal's action is made under one lock, so that each operation is one step here; the handler touches none of what they
    change, only the pipe.

    The theorems: the provider knows at every moment which signals it handles, remembers what they did before, and raises a
    signal for its default action only while that is in place ([own_actions_known]); every report is handed on exactly once, in
    the order of the signals ([reports_handed_in_order]); and the default action of a kind is taken as the previous action has
    it, with the caller's signal mask left as it was ([default_action_exact]). *)
From S2P Require Import Prelude Port Counter Boundary Notifications Libc.
Import Errno.
Local Open Scope Z_scope.
Local Open Scope pal_scope.

(** ** [<signal.h>] and [<fcntl.h>] *)
Definition SIGHUP : Z := 1.
Definition SIGINT : Z := 2.
Definition SIGQUIT : Z := 3.
Definition SIGTERM : Z := 15.
Definition SIGCONT : Z := 18.
Definition SIGTSTP : Z := 20.
Definition SIGTTIN : Z := 21.
Definition SIGTTOU : Z := 22.
Definition SIGWINCH : Z := 28.
Definition SIG_IGN : Z := 1.
Definition O_NONBLOCK : Z := 2048.
Definition SIGNALS : list Z := [0; SIGINT; SIGQUIT; SIGTERM; SIGHUP; SIGCONT; SIGWINCH; SIGTTIN; SIGTTOU; SIGTSTP].
Definition CONTINUE : Z := 5.
Definition WINDOW_CHANGE : Z := 6.
(** [sigaction]: the provider's own, from [action], or another one with its handler, flags and mask. *)
Inductive Action := Own | Other (handler flags mask : Z).
Definition is_ignored (a : Action) : bool := match a with Own => false | Other handler _ _ => handler =? SIG_IGN end.

Class NotifyCalls (K : Type) := {
  n_lock : K -> K * Z; n_unlock : K -> K * Z; n_sigaction : Z -> Action -> M K Z Action; n_unblock : Z -> M K Z Z; n_setmask : Z -> K -> K;
  n_raise : Z -> K -> K * Z; n_getpid : K -> Z; n_write : Z -> Z -> M K Z unit; n_read : Z -> Z -> M K Z (list Z);
  n_pipe2 : M K Z (Z * Z); n_getfl : Z -> K -> K * Z; n_setfl : Z -> Z -> K -> K * Z; n_warm : Z -> K -> K; n_thread : Z -> K -> K * Z; n_detach : K -> K; n_close : Z -> K -> K;
}.
(** [PREVIOUS], [INSTALLED], [WRITE_END] and [OWNER]; [reader] is the argument of the dispatcher once it runs. *)
Record Statics (K : Type) := mkStatics { os : K; previous : gmap Z Action; installed_bits : Z; write_end : Z; owner : Z; reader : option Z }.
Arguments mkStatics {K} _ _ _ _ _ _.
Arguments os {K} _.
Arguments previous {K} _.
Arguments installed_bits {K} _.
Arguments write_end {K} _.
Arguments owner {K} _.
Arguments reader {K} _.
Definition signal (kind : Z) : Result Z :=
  match (if kind <? 0 then None else SIGNALS !! Z.to_nat kind) with Some number => if number =? 0 then Err EInvalidArgument else Ok number | None => Err EInvalidArgument end.
(** [iter().position] *)
Fixpoint position (number : Z) (l : list Z) : option Z :=
  match l with [] => None | x :: l => if x =? number then Some 0 else Z.succ <$> position number l end.

Section Provider.
Context `{Arch} {K : Type} {C : NotifyCalls K}.
Notation Statics := (Statics K).
Implicit Types s : Statics.
Definition put_os (k : K) s : Statics := mkStatics k (previous s) (installed_bits s) (write_end s) (owner s) (reader s).
Definition put_previous (kind : Z) (a : Action) s : Statics := mkStatics (os s) (<[kind := a]> (previous s)) (installed_bits s) (write_end s) (owner s) (reader s).
Definition put_installed (bits : Z) s : Statics := mkStatics (os s) (previous s) bits (write_end s) (owner s) (reader s).
(** An entry that was never written is [mem::zeroed]. *)
Definition previous_of (kind : Z) s : Action := default (Other 0 0 0) (previous s !! kind).
Definition checked (f : K -> K * Z) : M Statics Error unit := fun s => let '(k, rc) := f (os s) in (put_os k s, if rc =? 0 then Ok tt else Err EOs).
Definition locked (body : M Statics Error unit) : M Statics Error unit :=
  checked n_lock ;!
  fun s => let '(s, r) := body s in (put_os (n_unlock (os s)).1 s, r).
Definition set_action (number : Z) (a : Action) : M Statics Error Action := fun s =>
  let '(k, r) := n_sigaction number a (os s) in (put_os k s, match r with Ok old => Ok old | Err _ => Err EOs end).
Definition enable (kind : Z) : M Statics Error unit :=
  let! number := reads (fun _ => signal kind) in
  let! _ := reads (fun s => if write_end s <? 0 then Err EInvalidArgument else Ok tt) in
  locked (fun s =>
    if wants (installed_bits s) kind then (s, Ok tt) else
    (let! old := set_action number Own in
     modify (fun s => put_installed (Z.lor (installed_bits s) (Z.shiftl 1 kind)) (put_previous kind old s))) s).
Definition disable (kind : Z) : M Statics Error unit :=
  let! number := reads (fun _ => signal kind) in
  locked (fun s =>
    if negb (wants (installed_bits s) kind) then (s, Ok tt) else
    (let! _ := set_action number (previous_of kind s) in
     modify (fun s => put_installed (Z.land (installed_bits s) (Z.lnot (Z.shiftl 1 kind))) s)) s).
(** The signal is unblocked on this thread for the length of the [raise]. *)
Definition raise_unblocked (number : Z) (k : K) : K * Z :=
  let '(k, r) := n_unblock number k in
  match r with Err rc => (k, rc) | Ok old => let '(k, rc) := n_raise number k in (n_setmask old k, rc) end.
Definition default_action (kind : Z) : M Statics Error unit :=
  let! number := reads (fun _ => signal kind) in
  if (kind =? CONTINUE) || (kind =? WINDOW_CHANGE) then ret tt else
  locked (fun s =>
    let ours := wants (installed_bits s) kind in
    if ours && is_ignored (previous_of kind s) then (s, Ok tt) else
    (let! _ := (if ours then (let! _ := set_action number (previous_of kind s) in ret tt) else ret tt) in fun s =>
     let '(k, rc) := raise_unblocked number (os s) in
     (let! _ := (if ours then (let! _ := set_action number Own in ret tt) else ret tt) in
      reads (fun _ => if rc =? 0 then Ok tt else Err EOs)) (put_os k s)) s).
Definition start : M Statics Error unit := fun s =>
  let '(k, ends) := n_pipe2 (os s) in
  match ends with
  | Err _ => (put_os k s, Err EOs)
  | Ok (read_end, wr) =>
      let '(k, flags) := n_getfl wr k in
      let '(k, rc) := if flags <? 0 then (k, -1) else n_setfl wr (Z.lor flags O_NONBLOCK) k in
      let s := put_os k s in
      let '(s, rc) :=
        if rc =? 0 then
          let k := n_warm wr (os s) in
          let '(k', rc) := n_thread read_end k in
          (mkStatics k' (previous s) (installed_bits s) wr (n_getpid k) (if rc =? 0 then Some read_end else None), rc)
        else (s, rc) in
      if negb (rc =? 0) then (mkStatics (n_close wr (n_close read_end (os s))) (previous s) (installed_bits s) (-1) (owner s) (reader s), Err EOs)
      else (put_os (n_detach (os s)) s, Ok tt)
  end.
#[export] Instance linux_notifications : NotificationsPort Statics :=
  { notifications_PROVIDED := true; no_start := start; no_enable := enable; no_disable := disable; no_default_action := default_action }.

(** The handler, with the report that the pipe took.  The write is repeated while it is interrupted. *)
Fixpoint write_report (rounds : nat) (kind : Z) s : option (Statics * option Z) :=
  match rounds with
  | O => None
  | S rounds =>
      let '(k, r) := n_write (write_end s) kind (os s) in
      match r with Ok _ => Some (put_os k s, Some kind) | Err code => if code =? EINTR then write_report rounds kind (put_os k s) else Some (put_os k s, None) end
  end.
Definition on_signal (rounds : nat) (code : Z) s : option (Statics * option Z) :=
  if n_getpid (os s) =? owner s then
    match position code SIGNALS with Some kind => write_report rounds kind s | None => Some (s, None) end
  else Some (s, None).

(** A turn of the dispatcher; [None] ends the thread, and the list is what it handed on. *)
Notation Hub := (Hub Statics).
Definition put_provider (s : Statics) (h : Hub) : Hub := mkHub (state h) (handler h) (data h) (enabled_bits h) (counts h) s (calls h).
Definition hand_on (h : Hub) (kind : Z) : Hub :=
  let '(h, taken) := deliver kind h in
  if taken then h else let '(s, _) := default_action kind (provider h) in put_provider s h.
Definition KINDS_BUFFER : Z := 64.
Definition dispatch (read_end : Z) (h : Hub) : Hub * option (list Z) :=
  let '(k, r) := n_read read_end KINDS_BUFFER (os (provider h)) in
  let h := put_provider (put_os k (provider h)) h in
  match r with
  | Err code => (h, if code =? EINTR then Some [] else None)
  | Ok kinds => if lenZ kinds =? 0 then (h, None) else (foldl hand_on h kinds, Some kinds)
  end.
End Provider.

(** ** The kernel
    What the process can see of it: the actions of the signals, the signal mask of the calling thread, the signals that were
    raised with the action each one met, the pipe that was made last and what is in it, the process id, and whether the last
    request to install the provider's own handler for a signal was granted. *)
Record View := mkView { v_actions : gmap Z Action; v_mask : Z; v_raised : list (Z * Action); v_pipe : option (Z * Z); v_contents : list Z; v_pid : Z; v_own : gmap Z bool }.
Definition action_of (v : View) (number : Z) : Action := default (Other 0 0 0) (v_actions v !! number).
Definition asked_own (number : Z) (a : Action) (granted : bool) (v : View) : gmap Z bool := match a with Own => <[number := granted]> (v_own v) | _ => v_own v end.
Definition with_action (number : Z) (a : Action) (v : View) : View := mkView (<[number := a]> (v_actions v)) (v_mask v) (v_raised v) (v_pipe v) (v_contents v) (v_pid v) (asked_own number a true v).
Definition with_mask (m : Z) (v : View) : View := mkView (v_actions v) m (v_raised v) (v_pipe v) (v_contents v) (v_pid v) (v_own v).
Definition with_refused (number : Z) (a : Action) (v : View) : View := mkView (v_actions v) (v_mask v) (v_raised v) (v_pipe v) (v_contents v) (v_pid v) (asked_own number a false v).
Definition with_raised (l : list (Z * Action)) (v : View) : View := mkView (v_actions v) (v_mask v) (v_raised v ++ l) (v_pipe v) (v_contents v) (v_pid v) (v_own v).
Definition with_pipe (p : option (Z * Z)) (c : list Z) (v : View) : View := mkView (v_actions v) (v_mask v) (v_raised v) p c (v_pid v) (v_own v).
(** A raised signal is handled before [raise] returns, here by an action that does not change the actions of signals; a write
    to the pipe and a read of it are whole. *)
Class NotifyLaws (K : Type) {C : NotifyCalls K} := {
  view : K -> View;
  l_pid k : n_getpid k = v_pid (view k);
  l_lock k : view (n_lock k).1 = view k; l_unlock k : view (n_unlock k).1 = view k;
  l_sigaction number a k k' r : n_sigaction number a k = (k', r) ->
    match r with Ok old => old = action_of (view k) number /\ view k' = with_action number a (view k) | Err _ => view k' = with_refused number a (view k) end;
  l_unblock number k k' r : n_unblock number k = (k', r) ->
    match r with Ok old => old = v_mask (view k) /\ exists m, view k' = with_mask m (view k) | Err rc => rc <> 0 /\ view k' = view k end;
  l_setmask m k : view (n_setmask m k) = with_mask m (view k);
  l_raise number k : action_of (view k) number <> Own -> view (n_raise number k).1 = with_raised [(number, action_of (view k) number)] (view k);
  l_write rd wr b k k' r : v_pipe (view k) = Some (rd, wr) -> n_write wr b k = (k', r) ->
    view k' = with_pipe (v_pipe (view k)) (v_contents (view k) ++ match r with Ok _ => [b] | Err _ => [] end) (view k);
  l_read rd wr count k k' r : v_pipe (view k) = Some (rd, wr) -> n_read rd count k = (k', r) ->
    match r with
    | Ok bytes => exists rest, v_contents (view k) = bytes ++ rest /\ view k' = with_pipe (v_pipe (view k)) rest (view k)
    | Err _ => view k' = view k
    end;
  l_pipe2 k k' r : n_pipe2 k = (k', r) -> match r with Ok (rd, wr) => 0 <= wr /\ view k' = with_pipe (Some (rd, wr)) [] (view k) | Err _ => view k' = view k end;
  l_getfl fd k : view (n_getfl fd k).1 = view k; l_setfl fd flags k : view (n_setfl fd flags k).1 = view k; l_warm fd k : view (n_warm fd k) = view k;
  l_thread fd k : view (n_thread fd k).1 = view k; l_detach k : view (n_detach k) = view k;
  l_close fd k : exists p c, view (n_close fd k) = with_pipe p c (view k);
}.

Section Proofs.
Context {K : Type} {C : NotifyCalls K} {L : NotifyLaws K}.
Implicit Types s : Statics K.
(** The statics over what can be seen of the kernel. *)
Definition obs s : Statics View := mkStatics (view (os s)) (previous s) (installed_bits s) (write_end s) (owner s) (reader s).
(** A signal whose bit is set was not the provider's before, and is now, or has its previous action back because the kernel has refused the
    last request to install the provider's handler; a signal whose bit is clear is not the provider's. *)
Definition known (o : Statics View) : Prop := forall kind number, signal kind = Ok number ->
  if wants (installed_bits o) kind then previous_of kind o <> Own /\ exists granted : bool, v_own (os o) !! number = Some granted /\ action_of (os o) number = if granted then Own else previous_of kind o
  else action_of (os o) number <> Own.

Lemma signal_kind kind number : signal kind = Ok number -> 1 <= kind <= 9 /\ position number SIGNALS = Some kind.
Proof.
  unfold signal. destruct (Z.ltb_spec kind 0); [done |]. destruct (SIGNALS !! Z.to_nat kind) as [x |] eqn:E; [| done].
  assert (exists i, Z.to_nat kind = i) as [i Hi] by eauto. rewrite Hi in E. do 10 (destruct i as [| i]; [simpl in E; simplify_eq/=; intros; simplify_eq; try (split; [lia | replace kind with (Z.of_nat (Z.to_nat kind)) by lia; by rewrite Hi]) |]). done.
Qed.
Lemma signal_kind_inj kind1 kind2 number : signal kind1 = Ok number -> signal kind2 = Ok number -> kind1 = kind2.
Proof. intros [_ H1]%signal_kind [_ H2]%signal_kind. by simplify_eq. Qed.
Lemma position_signal number kind : position number SIGNALS = Some kind -> number <> 0 -> signal kind = Ok number.
Proof.
  unfold SIGNALS. cbn [position]. 
  repeat match goal with |- context [?x =? number] => destruct (Z.eqb_spec x number) as [<- | _]; [intros E Hz; vm_compute in E; simplify_eq; done |] end. done.
Qed.
Lemma locked_obs body s s' r : locked body s = (s', r) ->
  (obs s' = obs s /\ r = Err EOs) \/ (exists s1 s2, obs s1 = obs s /\ body s1 = (s2, r) /\ obs s' = obs s2).
Proof.
  unfold locked, bind, checked. pose proof (l_lock (os s)) as Hl. destruct (n_lock (os s)) as [k rc]. cbn [fst] in Hl.
  assert (obs (put_os k s) = obs s) as Ho by (unfold obs; cbn [os put_os]; by rewrite Hl).
  destruct (rc =? 0); [| intros [= <- <-]; by left]. destruct (body (put_os k s)) as [s2 r2] eqn:E. intros [= <- <-]. right. exists (put_os k s), s2. split; [exact Ho |]. split; [exact E |].
  unfold obs. cbn [os put_os]. by rewrite l_unlock.
Qed.
Lemma set_action_obs number a s s' r : set_action number a s = (s', r) ->
  (obs s' = put_os (with_refused number a (os (obs s))) (obs s) /\ r = Err EOs) \/ (r = Ok (action_of (os (obs s)) number) /\ obs s' = put_os (with_action number a (os (obs s))) (obs s)).
Proof.
  unfold set_action. destruct (n_sigaction number a (os s)) as [k x] eqn:E. apply l_sigaction in E. intros E2. simplify_eq. unfold obs. cbn [os put_os previous installed_bits write_end owner reader].
  destruct x as [old | code]; [right; destruct E as [-> ->]; done | left; by rewrite E].
Qed.
Lemma raise_obs number k k' rc : action_of (view k) number <> Own -> raise_unblocked number k = (k', rc) ->
  (view k' = view k /\ rc <> 0) \/ view k' = with_raised [(number, action_of (view k) number)] (view k).
Proof.
  intros Ha. unfold raise_unblocked. destruct (n_unblock number k) as [k1 [old | e]] eqn:E; apply l_unblock in E.
  - destruct E as (-> & m & Hv). pose proof (l_raise number k1) as Hr. rewrite Hv in Hr. specialize (Hr Ha). destruct (n_raise number k1) as [k2 rc2]. intros E. simplify_eq. right.
    rewrite l_setmask. cbn [fst] in Hr. rewrite Hr. by destruct (view k).
  - destruct E as [He Hv]. intros E. simplify_eq. by left.
Qed.
Lemma refused_other number a v : a <> Own -> with_refused number a v = v.
Proof. unfold with_refused, asked_own. by destruct a, v. Qed.
Lemma obs_refused number a (o : Statics View) : a <> Own -> put_os (with_refused number a (os o)) o = o.
Proof. intros Ha. rewrite refused_other by done. by destruct o. Qed.
Lemma action_of_with number a v m : action_of (with_action number a v) m = if decide (number = m) then a else action_of v m.
Proof. unfold action_of. cbn [v_actions with_action]. case_decide; [subst; by rewrite lookup_insert_eq | by rewrite lookup_insert_ne]. Qed.
Lemma enable_obs kind number s s' r : signal kind = Ok number -> enable kind s = (s', r) -> (obs s' = obs s /\ (r = Ok tt -> wants (installed_bits s) kind = true)) \/
  (r <> Ok tt /\ wants (installed_bits s) kind = false /\ obs s' = put_os (with_refused number Own (os (obs s))) (obs s)) \/
  (r = Ok tt /\ wants (installed_bits s) kind = false /\ 0 <= write_end s /\
   obs s' = put_installed (Z.lor (installed_bits s) (Z.shiftl 1 kind)) (put_previous kind (action_of (os (obs s)) number) (put_os (with_action number Own (os (obs s))) (obs s)))).
Proof.
  intros Hs. unfold enable. unfold bind at 1 2, reads. rewrite Hs. destruct (Z.ltb_spec (write_end s) 0); [intros E; simplify_eq; by left |].
  intros [[? ->] | (s1 & s2 & H1 & E & H2)]%locked_obs; [by left |]. assert (installed_bits s1 = installed_bits s) as Hb by exact (f_equal installed_bits H1).
  rewrite Hb in E. destruct (wants (installed_bits s) kind) eqn:Hw; [injection E as <- <-; left; by rewrite H2 |].
  unfold bind in E. destruct (set_action number Own s1) as [s3 x] eqn:E3. apply set_action_obs in E3 as [[Ho ->] | [-> Ho]].
  - injection E as <- <-. right. left. split_and!; [done | done |]. by rewrite H2, Ho, H1.
  - unfold modify in E. injection E as <- <-. right. right. split_and!; [done | done | done |]. rewrite H2. rewrite H1 in Ho. rewrite (f_equal os H1 : view (os s1) = view (os s)).
    replace (installed_bits s3) with (installed_bits s) by (symmetry; exact (f_equal installed_bits Ho)). rewrite <- Ho. done.
Qed.
Lemma disable_obs kind number s s' r : known (obs s) -> signal kind = Ok number -> disable kind s = (s', r) -> (obs s' = obs s /\ (r = Ok tt -> wants (installed_bits s) kind = false)) \/
  (r = Ok tt /\ wants (installed_bits s) kind = true /\
   obs s' = put_installed (Z.land (installed_bits s) (Z.lnot (Z.shiftl 1 kind))) (put_os (with_action number (previous_of kind (obs s)) (os (obs s))) (obs s))).
Proof.
  intros Hk Hs. specialize (Hk kind number Hs). unfold disable. unfold bind at 1, reads. rewrite Hs.
  intros [[? ->] | (s1 & s2 & H1 & E & H2)]%locked_obs; [by left |]. assert (installed_bits s1 = installed_bits s) as Hb by exact (f_equal installed_bits H1).
  assert (previous_of kind s1 = previous_of kind (obs s)) as Hp by (unfold previous_of; by rewrite <- H1). rewrite Hb, Hp in E.
  destruct (wants (installed_bits s) kind) eqn:Hw; [| injection E as <- <-; left; by rewrite H2].
  unfold bind in E. destruct (set_action number _ s1) as [s3 x] eqn:E3. apply set_action_obs in E3 as [[Ho ->] | [-> Ho]].
  - injection E as <- <-. left. change (installed_bits (obs s)) with (installed_bits s) in Hk. rewrite Hw in Hk. destruct Hk as [Hk _]. rewrite H2, Ho, H1, obs_refused by done. done.
  - unfold modify in E. injection E as <- <-. right. split_and!; [done | done |]. rewrite H2. rewrite H1 in Ho.
    replace (installed_bits s3) with (installed_bits s) by (symmetry; exact (f_equal installed_bits Ho)). rewrite <- Ho. done.
Qed.
(** What a kind does by default: what the action in place before [enable] does, or the one in place when it was not enabled. *)
Definition default_of (kind number : Z) (o : Statics View) : Action := if wants (installed_bits o) kind then previous_of kind o else action_of (os o) number.
(** Kinds that the kernel would ignore, and a kind that was ignored before it was enabled. *)
Definition nothing_to_do (kind : Z) (o : Statics View) : bool :=
  (kind =? CONTINUE) || (kind =? WINDOW_CHANGE) || (wants (installed_bits o) kind && is_ignored (previous_of kind o)).
(** Only the action of [number] and, by [l], the list of raised signals may differ. *)
Definition other_same (number : Z) (l : list (Z * Action)) (v v' : View) : Prop :=
  (forall m, m <> number -> action_of v' m = action_of v m) /\ v_mask v' = v_mask v /\ v_raised v' = v_raised v ++ l /\
  v_pipe v' = v_pipe v /\ v_contents v' = v_contents v /\ v_pid v' = v_pid v.
(** A call of [default_action]: the signal is raised at most once, and once when the call succeeds and there is something to do;
    it meets its default; afterwards its action is the one from before, or, for an enabled kind, the provider's if the kernel granted it
    and the previous one if not, which is then the failure of the call. *)
Definition defaulted (kind number : Z) (o o' : Statics View) (r : Result unit) : Prop :=
  exists v' l, o' = put_os v' o /\ other_same number l (os o) v' /\ (l = [] \/ l = [(number, default_of kind number o)]) /\
    (r = Ok tt -> l = if nothing_to_do kind o then [] else [(number, default_of kind number o)]) /\
    (action_of v' number = action_of (os o) number /\ v_own v' = v_own (os o) \/
     wants (installed_bits o) kind = true /\ exists granted : bool, v_own v' = <[number := granted]> (v_own (os o)) /\
       action_of v' number = (if granted then Own else previous_of kind o) /\ (r = Ok tt -> granted = true)).
Lemma defaulted_same kind number o r : nothing_to_do kind o = true \/ r <> Ok tt -> defaulted kind number o o r.
Proof.
  intros Hr. exists (os o), []. split; [by destruct o |]. split; [by split_and!; rewrite ?app_nil_r |]. split; [by left |]. split; [| by left].
  intros ->. by destruct Hr as [-> |].
Qed.
(** The [raise] and what follows it, from a state in which the default is in place. *)
Lemma raised_default number s k rc : action_of (view (os s)) number <> Own -> raise_unblocked number (os s) = (k, rc) ->
  exists l, other_same number l (view (os s)) (view k) /\ action_of (view k) number = action_of (view (os s)) number /\ v_own (view k) = v_own (view (os s)) /\
    (l = [] /\ rc <> 0 \/ l = [(number, action_of (view (os s)) number)]).
Proof.
  intros Ha Hr. apply (raise_obs _ _ _ _ Ha) in Hr as [[-> Hrc] | ->].
  - exists []. split; [by split_and!; rewrite ?app_nil_r |]. split; [done |]. split; [done |]. by left.
  - eexists. split; [by split_and! |]. split; [done |]. split; [done |]. by right.
Qed.
Lemma default_action_obs kind number s s' r : known (obs s) -> signal kind = Ok number -> default_action kind s = (s', r) -> defaulted kind number (obs s) (obs s') r.
Proof.
  intros Hk Hs. specialize (Hk kind number Hs). unfold default_action. unfold bind at 1, reads. rewrite Hs.
  destruct ((kind =? CONTINUE) || (kind =? WINDOW_CHANGE)) eqn:Hkind; [intros [= <- <-]; apply defaulted_same; left; unfold nothing_to_do; by rewrite Hkind |].
  intros [[-> ->] | (s1 & s2 & H1 & E & H2)]%locked_obs; [apply defaulted_same; by right |]. rewrite H2, <- H1. rewrite <- H1 in Hk. clear H1 H2 s.
  change (installed_bits (obs s1)) with (installed_bits s1) in *. change (previous_of kind (obs s1)) with (previous_of kind s1) in *. change (os (obs s1)) with (view (os s1)) in *.
  assert (nothing_to_do kind (obs s1) = wants (installed_bits s1) kind && is_ignored (previous_of kind s1)) as Hn by (unfold nothing_to_do; by rewrite Hkind).
  destruct (wants (installed_bits s1) kind) eqn:Hw; cbn [andb] in E, Hn.
  - destruct Hk as [Hp Hk]. destruct (is_ignored _) eqn:Hi; [injection E as <- <-; apply defaulted_same; by left |].
    unfold bind at 1 2 in E. destruct (set_action number (previous_of kind s1) s1) as [s3 x] eqn:E3. apply set_action_obs in E3 as [[Ho ->] | [-> Ho]]; [injection E as <- <-; rewrite Ho, obs_refused by done; apply defaulted_same; by right |].
    unfold ret in E. assert (view (os s3) = with_action number (previous_of kind s1) (view (os s1))) as Hv by exact (f_equal os Ho).
    destruct (raise_unblocked number (os s3)) as [k rc] eqn:Er. apply raised_default in Er as (l & Hl & Hak & Hown & Hl'); rewrite Hv, action_of_with, decide_True in * by done; [| done].
    assert (default_of kind number (obs s1) = previous_of kind s1) as Hd by (unfold default_of; cbn [installed_bits obs]; by rewrite Hw).
    assert (obs (put_os k s3) = put_os (view k) (obs s1)) as Ho3 by (change (obs (put_os k s3)) with (put_os (view k) (obs s3)); by rewrite Ho).
    assert (forall v', (forall m, m <> number -> action_of v' m = action_of (view k) m) -> v_mask v' = v_mask (view k) -> v_raised v' = v_raised (view k) -> v_pipe v' = v_pipe (view k) -> v_contents v' = v_contents (view k) -> v_pid v' = v_pid (view k) ->
      other_same number l (view (os s1)) v') as Hos.
    { destruct Hl as (L1 & L2 & L3 & L4 & L5 & L6). cbn [v_mask v_raised v_pipe v_contents v_pid with_action] in L2, L3, L4, L5, L6. intros v' V1 V2 V3 V4 V5 V6. split_and!; try congruence. intros m Hm. rewrite V1, L1 by done. by rewrite action_of_with, decide_False. }
    unfold bind in E. destruct (set_action number Own (put_os k s3)) as [s4 x] eqn:E4. apply set_action_obs in E4. rewrite Ho3 in E4. destruct E4 as [[Ho4 ->] | [-> Ho4]]; cbn in E; injection E as <- <-; rewrite Ho4.
    + exists (with_refused number Own (view k)), l. split; [done |]. split; [by apply Hos |]. rewrite Hd. split; [destruct Hl' as [[-> _] | ->]; auto |]. split; [done |]. right. split; [done |]. exists false.
      split; [cbn; rewrite Hown; cbn; by destruct (previous_of kind s1) |]. split; [exact Hak | done].
    + exists (with_action number Own (view k)), l. split; [done |]. split; [apply Hos; try done; intros m Hm; by rewrite action_of_with, decide_False |]. rewrite Hd, Hn. split; [destruct Hl' as [[-> _] | ->]; auto |].
      split; [destruct (Z.eqb_spec rc 0); [| done]; intros _; by destruct Hl' as [[_ ?] | ->] |]. right. split; [done |]. exists true.
      split; [cbn; rewrite Hown; cbn; by destruct (previous_of kind s1) |]. split; [by rewrite action_of_with, decide_True | done].
  - unfold bind, ret in E. destruct (raise_unblocked number (os s1)) as [k rc] eqn:Er. apply raised_default in Er as (l & Hl & Hak & Hown & Hl'); [| done]. cbn in E. injection E as <- <-.
    assert (default_of kind number (obs s1) = action_of (view (os s1)) number) as Hd by (unfold default_of; cbn [installed_bits obs]; by rewrite Hw).
    exists (view k), l. split; [done |]. split; [done |]. rewrite Hd, Hn. split; [destruct Hl' as [[-> _] | ->]; auto |].
    split; [destruct (Z.eqb_spec rc 0); [| done]; intros _; by destruct Hl' as [[_ ?] | ->] |]. by left.
Qed.

(** *** The statics stay known *)
Lemma previous_of_put kind kind' a (o : Statics View) : previous_of kind' (put_previous kind a o) = if decide (kind = kind') then a else previous_of kind' o.
Proof. unfold previous_of. cbn [previous put_previous]. case_decide; [subst; by rewrite lookup_insert_eq | by rewrite lookup_insert_ne]. Qed.
Lemma known_enable kind number (o : Statics View) : known o -> signal kind = Ok number -> wants (installed_bits o) kind = false ->
  known (put_installed (Z.lor (installed_bits o) (Z.shiftl 1 kind)) (put_previous kind (action_of (os o) number) (put_os (with_action number Own (os o)) o))).
Proof.
  intros Hk Hs Hw kind' number' Hs'. pose proof (signal_kind _ _ Hs) as [Hr _]. pose proof (signal_kind _ _ Hs') as [Hr' _]. cbn [installed_bits put_installed os put_previous put_os].
  change (previous_of kind' (put_installed ?b ?x)) with (previous_of kind' x). rewrite previous_of_put, action_of_with, wants_set by lia. change (previous_of kind' (put_os ?v ?x)) with (previous_of kind' x).
  destruct (Z.eqb_spec kind' kind) as [-> | Hne].
  - rewrite orb_true_r, decide_True by done. assert (number' = number) as -> by congruence. rewrite decide_True by done. specialize (Hk _ _ Hs). rewrite Hw in Hk. split; [done |]. exists true. split; [cbn; apply lookup_insert_eq | done].
  - assert (number <> number') as Hnn by (intros <-; by apply Hne, (signal_kind_inj _ _ number)). rewrite orb_false_r, !decide_False by done. cbn. rewrite lookup_insert_ne by done. exact (Hk _ _ Hs').
Qed.
Lemma known_refused kind number (o : Statics View) : known o -> signal kind = Ok number -> wants (installed_bits o) kind = false -> known (put_os (with_refused number Own (os o)) o).
Proof.
  intros Hk Hs Hw kind' number' Hs'. specialize (Hk _ _ Hs'). cbn. destruct (decide (number' = number)) as [-> | Hne]; [| by rewrite lookup_insert_ne].
  assert (kind' = kind) as -> by (by apply (signal_kind_inj _ _ number)). by rewrite Hw in *.
Qed.
Lemma known_disable kind number (o : Statics View) : known o -> signal kind = Ok number -> wants (installed_bits o) kind = true ->
  known (put_installed (Z.land (installed_bits o) (Z.lnot (Z.shiftl 1 kind))) (put_os (with_action number (previous_of kind o) (os o)) o)).
Proof.
  intros Hk Hs Hw kind' number' Hs'. pose proof (signal_kind _ _ Hs) as [Hr _]. pose proof (signal_kind _ _ Hs') as [Hr' _]. cbn [installed_bits put_installed os put_os].
  change (previous_of kind' (put_installed ?b ?x)) with (previous_of kind' x). change (previous_of kind' (put_os ?v ?x)) with (previous_of kind' x). rewrite action_of_with, wants_clear by lia.
  destruct (Z.eqb_spec kind' kind) as [-> | Hne]; cbn [negb].
  - rewrite andb_false_r. assert (number' = number) as -> by congruence. rewrite decide_True by done. specialize (Hk _ _ Hs). rewrite Hw in Hk. by destruct Hk.
  - rewrite andb_true_r. rewrite decide_False by (intros <-; by apply Hne, (signal_kind_inj _ _ number)). pose proof (Hk _ _ Hs) as Hks. rewrite Hw in Hks. destruct Hks as [Hp _].
    cbn. destruct (previous_of kind o); [done |]. exact (Hk _ _ Hs').
Qed.
Lemma known_default kind number (o o' : Statics View) r : known o -> signal kind = Ok number -> defaulted kind number o o' r -> known o'.
Proof.
  intros Hk Hs (v' & l & -> & (Hm & _) & _ & _ & Ha) kind' number' Hs'. cbn [installed_bits os put_os]. change (previous_of kind' (put_os ?v ?x)) with (previous_of kind' x).
  pose proof (Hk _ _ Hs') as Hk'. destruct (decide (number' = number)) as [-> | Hne].
  - assert (kind' = kind) as -> by (by apply (signal_kind_inj _ _ number)). destruct Ha as [[-> ->] | (Hw & granted & -> & -> & _)]; [done |]. rewrite Hw in *. destruct Hk' as [Hp _]. split; [done |].
    exists granted. by rewrite lookup_insert_eq.
  - rewrite Hm by done. destruct Ha as [[_ ->] | (_ & granted & -> & _)]; [done |]. by rewrite lookup_insert_ne.
Qed.
(** What the operations on kinds leave alone. *)
Definition frame (o o' : Statics View) : Prop :=
  write_end o' = write_end o /\ owner o' = owner o /\ reader o' = reader o /\ v_pipe (os o') = v_pipe (os o) /\ v_contents (os o') = v_contents (os o) /\ v_pid (os o') = v_pid (os o).
Definition only_others (o : Statics View) : Prop := Forall (fun x => x.2 <> Own) (v_raised (os o)).
Lemma frame_refl o : frame o o.
Proof. by split_and!. Qed.
Lemma frame_trans o o1 o2 : frame o o1 -> frame o1 o2 -> frame o o2.
Proof. unfold frame. intros; destruct_and!; split_and!; congruence. Qed.
Lemma default_of_other kind number o : known o -> signal kind = Ok number -> default_of kind number o <> Own.
Proof. intros Hk Hs. specialize (Hk _ _ Hs). unfold default_of. destruct (wants _ _); [by destruct Hk | done]. Qed.
Lemma signal_refused kind e : signal kind = Err e -> forall s, enable kind s = (s, Err e) /\ disable kind s = (s, Err e) /\ default_action kind s = (s, Err e).
Proof. intros He s. unfold enable, disable, default_action, bind, reads. by rewrite He. Qed.
Lemma enable_keeps kind s s' r : known (obs s) -> only_others (obs s) -> enable kind s = (s', r) -> known (obs s') /\ only_others (obs s') /\ frame (obs s) (obs s').
Proof.
  intros Hk Ho. destruct (signal kind) as [number | e] eqn:Hs; [| rewrite (proj1 (signal_refused _ _ Hs s)); intros [= <- <-]; auto using frame_refl].
  intros [[-> _] | [(_ & Hw & ->) | (_ & Hw & _ & ->)]]%(enable_obs _ _ _ _ _ Hs); [auto using frame_refl | split; [by apply (known_refused kind) | done] |]. split; [by apply known_enable | done].
Qed.
Lemma disable_keeps kind s s' r : known (obs s) -> only_others (obs s) -> disable kind s = (s', r) -> known (obs s') /\ only_others (obs s') /\ frame (obs s) (obs s').
Proof.
  intros Hk Ho. destruct (signal kind) as [number | e] eqn:Hs; [| rewrite (proj1 (proj2 (signal_refused _ _ Hs s))); intros [= <- <-]; auto using frame_refl].
  intros [[-> _] | (_ & Hw & ->)]%(disable_obs _ _ _ _ _ Hk Hs); [auto using frame_refl |]. split; [by apply known_disable | done].
Qed.
Lemma default_keeps kind s s' r : known (obs s) -> only_others (obs s) -> default_action kind s = (s', r) ->
  known (obs s') /\ only_others (obs s') /\ frame (obs s) (obs s') /\ installed_bits s' = installed_bits s.
Proof.
  intros Hk Ho. destruct (signal kind) as [number | e] eqn:Hs; [| rewrite (proj2 (proj2 (signal_refused _ _ Hs s))); intros [= <- <-]; auto using frame_refl].
  intros Hd%(default_action_obs _ _ _ _ _ Hk Hs). split; [by eapply known_default |]. pose proof (default_of_other _ _ _ Hk Hs) as Hdef.
  destruct Hd as (v' & l & E & (_ & _ & Hr & Hp & Hc & Hi) & Hl & _). split.
  - unfold only_others. rewrite E. cbn [os put_os]. rewrite Hr. apply Forall_app. split; [done |]. destruct Hl as [-> | ->]; [done |]. by constructor.
  - split; [| exact (f_equal installed_bits E)]. rewrite E. by split_and!.
Qed.
End Proofs.

(** ** The process
    The consumer's calls, the signals and the turns of the dispatcher, in any order.  [reported] are the kinds that the pipe took
    from the handler and [handed] those that the dispatcher passed on. *)
Section Process.
Context `{Arch} {K : Type} {C : NotifyCalls K} {L : NotifyLaws K}.
Notation Hub := (Hub (Statics K)).
Implicit Types (h : Hub) (s : Statics K).
Definition fresh s : Prop := installed_bits s = 0 /\ reader s = None /\ v_raised (view (os s)) = [] /\ forall number, action_of (view (os s)) number <> Own.
Inductive process : list Z -> list Z -> Hub -> Prop :=
| process_start s : fresh s -> process [] [] (Notifications.start s)
| process_call reported handed h c h' st : process reported handed h -> (forall kind, c <> Deliver kind) -> call c h = (h', st) -> process reported handed h'
| process_signal reported handed h rounds code s' report : process reported handed h -> code <> 0 -> action_of (view (os (provider h))) code = Own ->
    on_signal rounds code (provider h) = Some (s', report) -> process (reported ++ option_list report) handed (put_provider s' h)
| process_dispatch reported handed h rd h' kinds : process reported handed h -> reader (provider h) = Some rd -> dispatch rd h = (h', kinds) ->
    process reported (handed ++ default [] kinds) h'.

Record Inv (reported handed : list Z) h : Prop := {
  i_known : known (obs (provider h)); i_raised : only_others (obs (provider h));
  i_up : if state h =? 2 then exists rd, reader (provider h) = Some rd /\ v_pipe (view (os (provider h))) = Some (rd, write_end (provider h)) /\
           0 <= write_end (provider h) /\ owner (provider h) = v_pid (view (os (provider h))) /\ reported = handed ++ v_contents (view (os (provider h)))
         else reader (provider h) = None /\ reported = [] /\ handed = [] /\ forall kind number, signal kind = Ok number -> wants (installed_bits (provider h)) kind = false;
  i_valid : Forall (fun kind => valid kind = true) reported;
  i_calls : map (fun x => x.1.2) (calls h) `sublist_of` handed }.

Lemma valid_signal kind : valid kind = true <-> exists number, signal kind = Ok number.
Proof.
  split.
  - unfold valid, INTERRUPT, STOP. intros Hv. assert (kind = 1 \/ kind = 2 \/ kind = 3 \/ kind = 4 \/ kind = 5 \/ kind = 6 \/ kind = 7 \/ kind = 8 \/ kind = 9) as Hc by lia.
    destruct_or!; subst; eexists; reflexivity.
  - intros (number & [Hr _]%signal_kind). unfold valid, INTERRUPT, STOP. lia.
Qed.
(** The invariant reads the hub only through these. *)
Lemma Inv_frame reported handed h h' : Inv reported handed h -> known (obs (provider h')) -> only_others (obs (provider h')) -> frame (obs (provider h)) (obs (provider h')) ->
  state h' = state h -> (state h <> 2 -> installed_bits (provider h') = installed_bits (provider h)) -> calls h' = calls h -> Inv reported handed h'.
Proof.
  intros [Hk Ho Hu Hv Hc] Hk' Ho' (F1 & F2 & F3 & F4 & F5 & F6) Hs Hb Hcalls. cbn in F1, F2, F3, F4, F5, F6. split; try done; [| by rewrite Hcalls].
  rewrite Hs. destruct (Z.eqb_spec (state h) 2) as [He | Hne]; [by rewrite F1, F2, F3, F4, F5, F6 |]. by rewrite F3, Hb.
Qed.
Lemma start_obs s s' r : start s = (s', r) -> exists p c,
  previous s' = previous s /\ installed_bits s' = installed_bits s /\ view (os s') = with_pipe p c (view (os s)) /\
  (r = Ok tt -> c = [] /\ exists rd, reader s' = Some rd /\ p = Some (rd, write_end s') /\ 0 <= write_end s' /\ owner s' = v_pid (view (os s))) /\
  (r <> Ok tt -> reader s = None -> reader s' = None).
Proof.
  unfold start. destruct (n_pipe2 (os s)) as [k [[rd wr] | e]] eqn:E; apply l_pipe2 in E.
  2:{ intros [= <- <-]. exists (v_pipe (view (os s))), (v_contents (view (os s))). cbn [os put_os]. rewrite E. split_and!; try done. by destruct (view (os s)). }
  destruct E as [Hwr Hv]. pose proof (l_getfl wr k) as Hg. destruct (n_getfl wr k) as [k1 flags]. cbn [fst] in Hg.
  assert (forall k2 rc, view k2 = view k1 -> rc <> 0 -> exists p c, view (n_close wr (n_close rd k2)) = with_pipe p c (view (os s))) as Hclosed.
  { intros k2 rc Hk2 _. destruct (l_close rd k2) as (p1 & c1 & H1). destruct (l_close wr (n_close rd k2)) as (p2 & c2 & H2). exists p2, c2. rewrite H2, H1, Hk2, Hg, Hv. by destruct (view (os s)). }
  destruct (if flags <? 0 then (k1, -1) else n_setfl wr (Z.lor flags O_NONBLOCK) k1) as [k2 rc] eqn:E2.
  assert (view k2 = view k1) as Hk2. { destruct (flags <? 0); [by simplify_eq |]. pose proof (l_setfl wr (Z.lor flags O_NONBLOCK) k1) as Hx. rewrite E2 in Hx. exact Hx. }
  destruct (Z.eqb_spec rc 0) as [-> | Hrc].
  - cbn [os put_os]. pose proof (l_thread rd (n_warm wr k2)) as Ht. destruct (n_thread rd (n_warm wr k2)) as [k3 rc3]. cbn [fst] in Ht. rewrite l_warm in Ht.
    destruct (Z.eqb_spec rc3 0) as [-> | Hrc3]; cbn [negb]; intros [= <- <-]; cbn [os put_os previous installed_bits write_end owner reader].
    + exists (Some (rd, wr)), []. rewrite l_detach, Ht, Hk2, Hg, Hv. split_and!; try done. intros _. split; [done |]. exists rd. split_and!; try done. by rewrite l_pid, l_warm, Hk2, Hg, Hv.
    + destruct (Hclosed k3 rc3) as (p & c & Hpc); [by rewrite Ht, Hk2 | done |]. exists p, c. by split_and!.
  - replace (rc =? 0) with false by lia. cbn [negb]. intros [= <- <-]. cbn [os put_os previous installed_bits write_end owner reader].
    destruct (Hclosed k2 rc Hk2 Hrc) as (p & c & Hpc). exists p, c. by split_and!.
Qed.
Lemma install_inv hd d reported handed h h' st : Inv reported handed h -> install hd d h = (h', st) -> Inv reported handed h'.
Proof.
  intros Hi. unfold install. destruct hd as [hd |]; [| intros [= <- <-]; by apply (Inv_frame _ _ _ _ Hi); try apply Hi; try apply frame_refl].
  destruct (Z.eqb_spec (state h) 0) as [Hs |]; [| intros [= <- <-]; by apply (Inv_frame _ _ _ _ Hi); try apply Hi; try apply frame_refl]. cbn [negb].
  unfold ask_port. cbn [provider no_start linux_notifications]. destruct (start (provider h)) as [s r] eqn:Es. apply start_obs in Es as (p & c & Hp & Hb & Hv & Hok & Herr).
  destruct Hi as [Hk Ho Hu Hval Hc]. rewrite Hs in Hu. destruct Hu as (Hrd & -> & -> & Hnone).
  assert (known (obs s)) as Hks.
  { intros kind number Hsig. specialize (Hk _ _ Hsig). cbn [installed_bits obs os] in *. rewrite Hb. unfold previous_of, action_of in *. cbn [previous obs v_actions] in *. rewrite Hv, Hp. exact Hk. }
  assert (only_others (obs s)) as Hos by (unfold only_others in *; cbn [os obs] in *; by rewrite Hv).
  cbn [state handler data enabled_bits counts provider calls]. destruct r as [[] | e].
  - cbn [status fold]. intros [= <- <-]. destruct (Hok eq_refl) as (-> & rd & H1 & H2 & H3 & H4). split; try done. cbn. exists rd. rewrite Hv, <- H2, H4. by split_and!.
  - assert (negb (fold (status (Err e : Result unit)) =? OK) = true) as -> by (by destruct e). intros [= <- <-]. split; try done. cbn. split_and!; try done; [by apply Herr |]. intros kind number Hsig. rewrite Hb. eauto.
Qed.
Lemma call_inv c reported handed h h' st : Inv reported handed h -> (forall kind, c <> Deliver kind) -> call c h = (h', st) -> Inv reported handed h'.
Proof.
  intros Hi Hc. pose proof (i_known _ _ _ Hi) as Hk. pose proof (i_raised _ _ _ Hi) as Ho.
  destruct c as [hd d | kind | kind | kind | kind]; [by apply install_inv | | | | by destruct (Hc kind)]; cbn [call].
  - unfold Notifications.enable. destruct (negb (valid kind) || negb (state h =? 2)) eqn:Hg; [intros [= <- <-]; by apply (Inv_frame _ _ _ _ Hi); try apply frame_refl |].
    assert (state h = 2) as Hup by lia. unfold ask_port. cbn [provider no_enable linux_notifications set_bits]. destruct (enable kind (provider h)) as [s r] eqn:E. apply enable_keeps in E as (H1 & H2 & H3); try done.
    destruct (_ =? OK); intros [= <- <-]; [by apply (Inv_frame _ _ _ _ Hi) |]. destruct (wants _ kind); by apply (Inv_frame _ _ _ _ Hi).
  - unfold Notifications.disable. destruct (negb (valid kind) || negb (state h =? 2)) eqn:Hg; [intros [= <- <-]; by apply (Inv_frame _ _ _ _ Hi); try apply frame_refl |].
    assert (state h = 2) as Hup by lia. unfold ask_port. cbn [provider no_disable linux_notifications set_bits]. destruct (disable kind (provider h)) as [s r] eqn:E. apply disable_keeps in E as (H1 & H2 & H3); try done.
    intros [= <- <-]. by apply (Inv_frame _ _ _ _ Hi).
  - unfold Notifications.default_action. destruct (negb (valid kind)) eqn:Hg; [intros [= <- <-]; by apply (Inv_frame _ _ _ _ Hi); try apply frame_refl |].
    unfold ask_port. cbn [provider no_default_action linux_notifications]. destruct (default_action kind (provider h)) as [s r] eqn:E. apply default_keeps in E as (H1 & H2 & H3 & H4); try done.
    destruct (_ =? OK); intros [= <- <-]; by apply (Inv_frame _ _ _ _ Hi).
Qed.
Lemma write_report_obs rounds kind rd s s' report : v_pipe (view (os s)) = Some (rd, write_end s) -> write_report rounds kind s = Some (s', report) ->
  obs s' = put_os (with_pipe (v_pipe (view (os s))) (v_contents (view (os s)) ++ option_list report) (view (os s))) (obs s) /\ (report = None \/ report = Some kind).
Proof.
  revert s. induction rounds as [| rounds IH]; intros s Hp; [done |]. cbn [write_report]. destruct (n_write (write_end s) kind (os s)) as [k r] eqn:E. apply (l_write rd) in E; [| done].
  destruct r as [[] | code]; [intros [= <- <-]; split; [unfold obs; cbn [os put_os option_list]; by rewrite E | by right] |].
  rewrite app_nil_r in E. assert (view k = view (os s)) as Hk by (rewrite E; by destruct (view (os s))). destruct (code =? EINTR).
  - intros Hw. apply IH in Hw; cbn [os put_os write_end] in *; [| by rewrite Hk]. rewrite Hk in Hw. destruct Hw as [Hw ?]. split; [| done]. rewrite Hw. unfold obs. cbn [os put_os]. by rewrite Hk.
  - intros [= <- <-]. split; [unfold obs; cbn [os put_os option_list]; by rewrite app_nil_r, Hk; destruct (view (os s)) | by left].
Qed.
Lemma known_contents o p c : known o -> known (put_os (with_pipe p c (os o)) o).
Proof. intros Hk kind number Hs. exact (Hk kind number Hs). Qed.
Lemma signal_inv reported handed h rounds code s' report : Inv reported handed h -> code <> 0 -> action_of (view (os (provider h))) code = Own ->
  on_signal rounds code (provider h) = Some (s', report) -> Inv (reported ++ option_list report) handed (put_provider s' h).
Proof.
  intros Hi Hz Ha. assert (Inv (reported ++ option_list None) handed (put_provider (provider h) h)) as Hnone by (cbn [option_list]; rewrite app_nil_r; by destruct h, Hi).
  unfold on_signal. destruct (Z.eqb_spec (n_getpid (os (provider h))) (owner (provider h))); [| intros [= <- <-]; exact Hnone].
  destruct (position code SIGNALS) as [kind |] eqn:Hpos; [| intros [= <- <-]; exact Hnone]. pose proof (position_signal _ _ Hpos Hz) as Hs.
  destruct Hi as [Hk Ho Hu Hv Hc]. pose proof (Hk _ _ Hs) as Hks. cbn [installed_bits obs os] in Hks.
  destruct (Z.eqb_spec (state h) 2) as [Hst | Hst]; [| destruct Hu as (_ & _ & _ & Hw); rewrite (Hw _ _ Hs) in Hks; by destruct Hks].
  destruct Hu as (rd & H1 & H2 & H3 & H4 & H5). intros [Hobs Hrep]%(write_report_obs _ _ rd); [| done].
  assert (view (os s') = _) as Hview by exact (f_equal os Hobs). split; cbn [provider put_provider state calls].
  - rewrite Hobs. by apply (known_contents (obs (provider h))).
  - unfold only_others. rewrite Hobs. exact Ho.
  - rewrite Hst. exists rd. rewrite (f_equal reader Hobs : reader s' = reader (provider h)), (f_equal write_end Hobs : write_end s' = write_end (provider h)), (f_equal owner Hobs : owner s' = owner (provider h)), Hview.
    cbn [v_pipe v_pid v_contents with_pipe]. split_and!; try done. by rewrite H5, <- app_assoc.
  - apply Forall_app. split; [done |]. destruct Hrep as [-> | ->]; cbn [option_list]; [done |]. constructor; [| done]. apply valid_signal. eauto.
  - done.
Qed.
Lemma hand_on_keeps kinds h : known (obs (provider h)) -> only_others (obs (provider h)) -> let h' := foldl hand_on h kinds in
  known (obs (provider h')) /\ only_others (obs (provider h')) /\ frame (obs (provider h)) (obs (provider h')) /\ state h' = state h /\
  exists l, calls h' = calls h ++ l /\ map (fun x => x.1.2) l `sublist_of` kinds.
Proof.
  revert h. induction kinds as [| kind kinds IH]; intros h Hk Ho; cbn [foldl].
  - split_and!; try done; try apply frame_refl. exists []. by rewrite app_nil_r.
  - assert (known (obs (provider (hand_on h kind))) /\ only_others (obs (provider (hand_on h kind))) /\ frame (obs (provider h)) (obs (provider (hand_on h kind))) /\ state (hand_on h kind) = state h /\
      exists l, calls (hand_on h kind) = calls h ++ l /\ map (fun x => x.1.2) l `sublist_of` [kind]) as (K1 & K2 & K3 & K4 & l & K5 & K6).
    { unfold hand_on, deliver. assert (forall b, let '(s, _) := default_action kind (provider (bump b h)) in known (obs s) /\ only_others (obs s) /\ frame (obs (provider h)) (obs s)) as Hdef.
      { intros b. destruct (default_action kind (provider (bump b h))) as [s r] eqn:E. apply default_keeps in E as (? & ? & ? & _); done. }
      specialize (Hdef 4%nat). destruct (handler h) as [hd |]; [destruct (enabled kind h) |]; cbn [negb].
      - cbn [provider state calls bump]. split_and!; try done; try apply frame_refl. by exists [(hd, kind, data h)].
      - destruct (default_action kind _) as [s r]. destruct Hdef as (? & ? & ?). cbn [provider put_provider state calls bump]. split_and!; try done. exists []. split; [by rewrite app_nil_r | apply sublist_nil_l].
      - destruct (default_action kind _) as [s r]. destruct Hdef as (? & ? & ?). cbn [provider put_provider state calls bump]. split_and!; try done. exists []. split; [by rewrite app_nil_r | apply sublist_nil_l]. }
    destruct (IH (hand_on h kind) K1 K2) as (I1 & I2 & I3 & I4 & l' & I5 & I6). split_and!; try done; [by eapply frame_trans | congruence |].
    exists (l ++ l'). rewrite I5, K5, <- app_assoc. split; [done |]. rewrite map_app. change (kind :: kinds) with ([kind] ++ kinds). by apply sublist_app.
Qed.
Lemma dispatch_inv reported handed h rd h' kinds : Inv reported handed h -> reader (provider h) = Some rd -> dispatch rd h = (h', kinds) ->
  Inv reported (handed ++ default [] kinds) h'.
Proof.
  intros Hi Hrd. pose proof Hi as [Hk Ho Hu Hv Hc]. destruct (Z.eqb_spec (state h) 2) as [Hst | Hst]; [| destruct Hu; congruence].
  destruct Hu as (rd' & H1 & H2 & H3 & H4 & H5). assert (rd' = rd) as -> by congruence. unfold dispatch.
  destruct (n_read rd KINDS_BUFFER (os (provider h))) as [k r] eqn:E. apply (l_read _ _ _ _ _ _ H2) in E. destruct r as [bytes | code].
  - destruct E as (rest & Hcont & Hview). set (h1 := put_provider (put_os k (provider h)) h).
    assert (obs (provider h1) = put_os (with_pipe (v_pipe (view (os (provider h)))) rest (view (os (provider h)))) (obs (provider h))) as Ho1 by (unfold obs; cbn [provider h1 put_provider os put_os]; by rewrite Hview).
    assert (known (obs (provider h1))) as Hk1 by (rewrite Ho1; by apply (known_contents (obs (provider h)))).
    assert (only_others (obs (provider h1))) as Hos1 by (unfold only_others; rewrite Ho1; exact Ho).
    destruct (hand_on_keeps bytes h1 Hk1 Hos1) as (I1 & I2 & (F1 & F2 & F3 & F4 & F5 & F6) & I4 & l & I5 & I6).
    destruct (Z.eqb_spec (lenZ bytes) 0) as [Hz | _].
    + intros [= <- <-]. destruct bytes; [| unfold lenZ in Hz; simpl in Hz; lia]. cbn [default from_option]. rewrite app_nil_r. split; try done. change (state h1) with (state h). rewrite Hst. exists rd.
      cbn [provider h1 put_provider reader put_os write_end owner os]. rewrite Hview. cbn [v_pipe v_pid v_contents with_pipe]. split_and!; try done. by rewrite H5, Hcont.
    + intros [= <- <-]. cbn [default from_option id]. split; try done.
      * rewrite I4. change (state h1) with (state h). rewrite Hst. exists rd. rewrite Ho1 in F4, F5, F6. cbn in F1, F2, F3, F4, F5, F6. rewrite F1, F2, F3, F4, F5, F6. split_and!; try done. by rewrite H5, Hcont, <- app_assoc.
      * rewrite I5, map_app. by apply sublist_app.
  - assert (Inv reported handed (put_provider (put_os k (provider h)) h)) as Hsame.
    { assert (obs (put_os k (provider h)) = obs (provider h)) as Ho1 by (unfold obs; cbn [os put_os]; by rewrite E). apply (Inv_frame _ _ _ _ Hi); cbn [provider put_provider]; rewrite ?Ho1; try done; apply frame_refl. }
    destruct (code =? EINTR); intros [= <- <-]; cbn [default from_option id]; by rewrite app_nil_r.
Qed.
Lemma process_inv reported handed h : process reported handed h -> Inv reported handed h.
Proof.
  induction 1; [| by eapply call_inv | by eapply signal_inv | by eapply dispatch_inv].
  destruct H0 as (Hb & Hr & Hrd & Ha). assert (forall kind number, signal kind = Ok number -> wants (installed_bits s) kind = false) as Hw.
  { intros kind number Hs%signal_kind. rewrite Hb, wants_testbit by lia. apply Z.bits_0. }
  split; cbn; try done.
  - intros kind number Hs. cbn. rewrite (Hw _ _ Hs). apply Ha.
  - unfold only_others. cbn. by rewrite Hrd.
Qed.

(** C27: Whatever the consumer calls, whichever signals arrive and however the dispatcher runs: a signal whose kind is not enabled
    at the provider has an action that is not the provider's; one whose kind is enabled had such an action before, which is
    remembered, and has the provider's handler exactly if the kernel granted the last request to install it, and otherwise the
    remembered action; and every signal that the provider ever raised met an action that is not its own, so that no default
    action was reported as a new notification. *)
Theorem own_actions_known reported handed h : process reported handed h ->
  (forall kind number, signal kind = Ok number ->
    if wants (installed_bits (provider h)) kind
    then previous_of kind (provider h) <> Own /\
      exists granted : bool, v_own (view (os (provider h))) !! number = Some granted /\ action_of (view (os (provider h))) number = if granted then Own else previous_of kind (provider h)
    else action_of (view (os (provider h))) number <> Own) /\
  Forall (fun x => x.2 <> Own) (v_raised (view (os (provider h)))).
Proof. intros [Hk Ho _ _ _]%process_inv. exact (conj Hk Ho). Qed.
(** Every report that the pipe took from the signal handler is handed on exactly once, in the order of the signals: the
    reports are those handed on so far and, behind them, those in the pipe.  Every one is a kind of the contract, and the
    consumer's handler was called for reports that were handed on, in their order, and for nothing else. *)
Theorem reports_handed_in_order reported handed h : process reported handed h ->
  reported = handed ++ (if reader (provider h) then v_contents (view (os (provider h))) else []) /\
  Forall (fun kind => valid kind = true) reported /\ map (fun x => x.1.2) (calls h) `sublist_of` handed.
Proof.
  intros [_ _ Hu Hv Hc]%process_inv. split; [| done]. destruct (state h =? 2); [by destruct Hu as (rd & -> & _ & _ & _ & ->) | by destruct Hu as (-> & -> & -> & _)].
Qed.
(** Where the provider knows its actions, the default action of a kind raises its signal once, while the action that the kind
    had before [enable], or that it has when it is not enabled, is in place, and not at all for a kind that does nothing then;
    the caller's signal mask, the other signals' actions, the pipe and what the provider remembers stay as they were, and the
    signal is the provider's again after a success. *)
Theorem default_action_exact kind number s s' : known (obs s) -> signal kind = Ok number -> action_of (view (os s)) number = Own \/ wants (installed_bits s) kind = false ->
  default_action kind s = (s', Ok tt) ->
  v_raised (view (os s')) = v_raised (view (os s)) ++ (if nothing_to_do kind (obs s) then [] else [(number, default_of kind number (obs s))]) /\
  default_of kind number (obs s) <> Own /\ v_mask (view (os s')) = v_mask (view (os s)) /\ v_contents (view (os s')) = v_contents (view (os s)) /\
  (forall m, action_of (view (os s')) m = action_of (view (os s)) m) /\ previous s' = previous s /\ installed_bits s' = installed_bits s.
Proof.
  intros Hk Hs Ha Hd. apply (default_action_obs _ _ _ _ _ Hk Hs) in Hd as (v' & l & E & (Hm & Hmask & Hr & _ & Hc & _) & _ & Hl & Hown). rewrite (Hl eq_refl) in Hr.
  assert (view (os s') = v') as -> by exact (f_equal os E). cbn [os obs] in *. split; [exact Hr |]. split; [by apply default_of_other |]. split; [exact Hmask |]. split; [exact Hc |].
  split; [| split; [exact (f_equal previous E) | exact (f_equal installed_bits E)]].
  intros m. destruct (decide (m = number)) as [-> | Hne]; [| by apply Hm]. destruct Hown as [[-> _] | (Hw & granted & _ & -> & Hg)]; [done |]. rewrite (Hg eq_refl). cbn in Hw. destruct Ha as [-> | ?]; [done | congruence].
Qed.
End Process.

(** ** A kernel that is what can be seen of it *)
Module NotificationsSample.
#[export] Instance arch : Arch := {| usize_bits := 64; usize_bits_cases := or_intror eq_refl |}.
#[export] Instance calls : NotifyCalls View := {
  n_lock k := (k, 0); n_unlock k := (k, 0); n_sigaction number a k := (with_action number a k, Ok (action_of k number)); n_unblock number k := (with_mask 0 k, Ok (v_mask k));
  n_setmask := with_mask; n_raise number k := (with_raised [(number, action_of k number)] k, 0); n_getpid := v_pid;
  n_write fd b k := (with_pipe (v_pipe k) (v_contents k ++ [b]) k, Ok tt);
  n_read fd count k := (with_pipe (v_pipe k) (dropZ count (v_contents k)) k, Ok (takeZ count (v_contents k)));
  n_pipe2 k := (with_pipe (Some (3, 4)) [] k, Ok (3, 4)); n_getfl fd k := (k, 1); n_setfl fd flags k := (k, 0); n_warm fd k := k; n_thread fd k := (k, 0); n_detach k := k; n_close fd k := k }.
#[export] Instance laws : NotifyLaws View.
Proof.
  refine {| view k := k |}; simpl; try done.
  - by intros number a k k' r [= <- <-].
  - intros number k k' r [= <- <-]. eauto.
  - by intros rd wr b k k' r _ [= <- <-].
  - intros rd wr count k k' r _ [= <- <-]. exists (dropZ count (v_contents k)). split; [symmetry; apply takeZ_dropZ | done].
  - by intros k k' r [= <- <-].
  - intros fd k. exists (v_pipe k), (v_contents k). by destruct k.
Defined.
(** A process that another one started with its hangup signal ignored. *)
Definition kernel0 : View := mkView {[SIGHUP := Other SIG_IGN 0 0]} 7 [] None [] 100 ∅.
Definition statics0 : Statics View := mkStatics kernel0 ∅ 0 (-1) 0 None.
Definition at_ (h : Hub (Statics View)) (c : Notifications.Call) : Hub (Statics View) := (call c h).1.
Definition TERMINATE : Z := 3.
Definition HANGUP : Z := 4.
Definition hub1 : Hub (Statics View) := at_ (at_ (at_ (Notifications.start statics0) (Install (Some 9) 5)) (Enable TERMINATE)) (Enable HANGUP).
Definition statics2 : Statics View := match on_signal 1 SIGTERM (provider hub1) with Some (s, _) => s | None => provider hub1 end.
Definition hub2 : Hub (Statics View) := put_provider statics2 hub1.
Definition hub3 : Hub (Statics View) := at_ (at_ hub2 (Disable TERMINATE)) (DefaultAction HANGUP).
Definition hub4 : Hub (Statics View) := (dispatch 3 hub3).1.
Lemma process1 : process [] [] hub1.
Proof.
  unfold hub1, at_. repeat (eapply process_call; [| | apply surjective_pairing]; [| by intros kind]). apply process_start. split; [done |]. split; [done |]. split; [done |].
  intros number. destruct (decide (number = SIGHUP)) as [-> | Hne]; [by vm_compute |].
  unfold action_of. change (v_actions (view (os statics0))) with ({[SIGHUP := Other SIG_IGN 0 0]} : gmap Z Action). by rewrite lookup_singleton_ne.
Qed.
Lemma process4 : process [3] [3] hub4.
Proof.
  apply (process_dispatch [3] [] hub3 3 hub4 (Some [3])); [| vm_compute; reflexivity | vm_compute; reflexivity].
  unfold hub3, at_. repeat (eapply process_call; [| | apply surjective_pairing]; [| by intros kind]).
  apply (process_signal [] [] hub1 1 SIGTERM statics2 (Some 3)); [apply process1 | done | vm_compute; reflexivity | vm_compute; reflexivity].
Qed.
(** The kind was disabled before its report was handed on: the request is not lost, and the hangup is still ignored. *)
Example late_report_raised : v_raised (os (provider hub4)) = [(SIGTERM, Other 0 0 0)] /\ Notifications.calls hub4 = [].
Proof. split; vm_compute; reflexivity. Qed.
Example timely_report_delivered : Notifications.calls (dispatch 3 hub2).1 = [(9, TERMINATE, 5)].
Proof. vm_compute. reflexivity. Qed.
End NotificationsSample.
Import NotificationsSample.
Lemma own_actions_known_witness : wants (installed_bits (provider hub4)) HANGUP = true /\ Forall (fun x => x.2 <> Own) (v_raised (view (os (provider hub4)))) /\
  (forall kind number, signal kind = Ok number -> if wants (installed_bits (provider hub4)) kind
    then previous_of kind (provider hub4) <> Own /\
      exists granted : bool, v_own (view (os (provider hub4))) !! number = Some granted /\ action_of (view (os (provider hub4))) number = if granted then Own else previous_of kind (provider hub4)
    else action_of (view (os (provider hub4))) number <> Own).
Proof. split; [vm_compute; reflexivity |]. destruct (own_actions_known [3] [3] hub4 process4) as [Hk Hr]. exact (conj Hr Hk). Defined.
Lemma reports_handed_in_order_witness : [3] = [3] ++ (if reader (provider hub4) then v_contents (view (os (provider hub4))) else []) /\ map (fun x => x.1.2) (Notifications.calls hub4) `sublist_of` [3].
Proof. destruct (reports_handed_in_order [3] [3] hub4 process4) as (H1 & _ & H3). exact (conj H1 H3). Defined.
Lemma default_action_exact_witness : let s := provider hub2 in
  nothing_to_do TERMINATE (obs s) = false /\ v_raised (view (os (default_action TERMINATE s).1)) = v_raised (view (os s)) ++ [(SIGTERM, Other 0 0 0)] /\ v_mask (view (os (default_action TERMINATE s).1)) = 7.
Proof.
  assert (known (obs (provider hub2))) as Hk.
  { assert (process [3] [] hub2) as Hp by (apply (process_signal [] [] hub1 1 SIGTERM statics2 (Some 3)); [apply process1 | done | vm_compute; reflexivity | vm_compute; reflexivity]). apply process_inv in Hp. exact (i_known _ _ _ Hp). }
  assert (default_action TERMINATE (provider hub2) = ((default_action TERMINATE (provider hub2)).1, Ok tt)) as E by (vm_compute; reflexivity).
  assert (action_of (view (os (provider hub2))) SIGTERM = Own \/ wants (installed_bits (provider hub2)) TERMINATE = false) as Ho by (left; vm_compute; reflexivity).
  destruct (default_action_exact TERMINATE SIGTERM (provider hub2) _ Hk eq_refl Ho E) as (H1 & _ & H3 & _). split; [vm_compute; reflexivity |]. exact (conj H1 H3).
Defined.
