(* ===== verification/LinuxFiles.v ===== *)
(** * LinuxFiles.v: files of the Linux port

    [src/crates/dotnet-pal-linux/src/linux_files.rs]: a file handle is a block with a descriptor in it, a directory handle is a
    stream of the C library.  A call that a signal interrupted is repeated; [rounds] bounds the repetitions, and a call that
    needs more is still [Waiting].

    The theorems: every handle is one block and one descriptor, which [open] makes or leaves nothing of and [close] gives back
    whatever the kernel answers ([file_handles_balanced]); [read_directory] lists the entries of the stream in their order,
    without the two that every directory has and without those deleted meanwhile, and returns ([directory_listed_in_order]); and
    what the provider answers is what the front end accepts, with the text contract kept
    ([files_answers_accepted]). *)
From S2P Require Import Prelude Port Libc LinuxSpawn LinuxChildren Content Queue Locks Tree MemFs Front FilesApi.
Import Errno.
Local Open Scope Z_scope.
Local Open Scope pal_scope.

(** ** [<fcntl.h>], [<sys/stat.h>] and [<dirent.h>] *)
Definition EBADF : Z := 9.
Definition ERANGE : Z := 34.
Definition EDQUOT : Z := 122.
Definition O_WRONLY : Z := 1.
Definition O_RDWR : Z := 2.
Definition O_CREAT : Z := 64.
Definition O_EXCL : Z := 128.
Definition O_TRUNC : Z := 512.
Definition O_CLOEXEC : Z := 524288.
Definition AT_FDCWD : Z := -100.
Definition AT_SYMLINK_NOFOLLOW : Z := 256.
Definition AT_EMPTY_PATH : Z := 4096.
Definition UTIME_OMIT : Z := 1073741822.
Definition S_IFMT : Z := 61440.
Definition S_IFDIR : Z := 16384.
Definition S_IFREG : Z := 32768.
Definition S_IFLNK : Z := 40960.
Definition DT_UNKNOWN : Z := 0.
Definition DT_DIR : Z := 4.
Definition DT_REG : Z := 8.
Definition DT_LNK : Z := 10.
Definition LOCK_SH : Z := 1.
Definition LOCK_EX : Z := 2.
Definition LOCK_NB : Z := 4.
Definition LOCK_UN : Z := 8.
Definition F_RDLCK : Z := 0.
Definition F_WRLCK : Z := 1.
Definition F_UNLCK : Z := 2.
Definition STATX_INO : Z := 256.
Definition STATX_BTIME : Z := 2048.
Definition NANOS : Z := 1000000000.
Definition BUFFER : Z := 4096.

Definition error (code : Z) : Error :=
  if code =? ENOENT then ENotFound else if code =? EEXIST then EAlreadyExists else if (code =? EACCES) || (code =? EPERM) then EAccessDenied else
  if code =? EISDIR then EIsDirectory else if code =? ENOTDIR then ENotDirectory else if code =? ENOTEMPTY then ENotEmpty else
  if (code =? ENOSPC) || (code =? EDQUOT) then ENoSpace else if (code =? EMFILE) || (code =? ENFILE) then ETooManyHandles else
  if code =? ENAMETOOLONG then Port.ENameTooLong else if code =? EROFS then EReadOnly else if code =? EXDEV then ECrossDevice else
  if code =? ENOMEM then EOutOfMemory else if code =? EINVAL then EInvalidArgument else if code =? EBUSY then EBusy else EOs.
Record Stat := mkStat { s_mode : Z; s_size : Z; s_mtime : Z * Z; s_atime : Z * Z; s_ctime : Z * Z; s_ino : Z; s_dev : Z }.
Record Statx := mkStatx { x_mask : Z; x_inode : Z; x_created : Z * Z }.
(** Calls that answer nothing but success or an error number. *)
Inductive Request :=
| Ftruncate (fd size : Z) | Fsync (fd : Z) | Unlink (path : list Z) | Rename (from to : list Z) | Mkdir (path : list Z) (mode : Z) | Rmdir (path : list Z)
| Chmod (path : list Z) (mode : Z) | Fchmod (fd mode : Z) | Utimensat (directory : Z) (path : list Z) (accessed modified : Z * Z) (flags : Z) | Futimens (fd : Z) (accessed modified : Z * Z)
| Link (existing created : list Z) | Symlink (target created : list Z) | Chdir (path : list Z) | Flock (fd operation : Z) | SetLock (fd type start len : Z).
(** [readdir] with [errno] cleared before it. *)
Inductive Listed := Entry (name : list Z) (type : Z) | NoEntry (errno : Z).
Class FileCalls (K : Type) := {
  c_calloc : Z -> K -> K * Z; c_free : Z -> K -> K; c_open : list Z -> Z -> Z -> M K Z Z; c_close : Z -> M K Z unit; c_getfl : Z -> M K Z Z;
  c_pread : Z -> Z -> Z -> M K Z (list Z); c_pwrite : Z -> list Z -> Z -> M K Z Z; c_do : Request -> M K Z unit;
  c_fstat : Z -> M K Z Stat; c_stat : list Z -> bool -> M K Z Stat; c_statx : Z -> list Z -> Z -> K -> K * option Statx;
  c_opendir : list Z -> M K Z Z; c_readdir : Z -> K -> K * Listed; c_fstatat : Z -> list Z -> M K Z Stat; c_closedir : Z -> M K Z unit;
  c_getcwd : Z -> M K Z (list Z); c_readlink : list Z -> Z -> M K Z (list Z); c_realpath : list Z -> M K Z (list Z);
}.
(** The descriptors in the blocks of the files that are open. *)
Record Desk (K : Type) := mkDesk { d_os : K; files : gmap Z Z }.
Arguments mkDesk {K} _ _.
Arguments d_os {K} _.
Arguments files {K} _.
Definition size_of_File : Z := 4.
Definition align_of_File : Z := 4.

Definition position (offset : Z) : Result Z := if offset <=? i64_max then Ok offset else Err EInvalidArgument.
(** [time_t] has 64 bits. *)
Definition timespec (ns : option Z) : Result (Z * Z) :=
  match ns with Some ns => if ns / NANOS <=? i64_max then Ok (ns / NANOS, ns mod NANOS) else Err EInvalidArgument | None => Ok (0, UTIME_OMIT) end.
Definition deliver (text : list Z) (capacity : Z) : Z * option (list Z) :=
  let needed := lenZ text + 1 in (needed, if needed <=? capacity then Some (text ++ [0]) else None).
Definition nanoseconds (t : Z * Z) : Z :=
  let '(seconds, nanos) := t in
  if (seconds <? 0) || (nanos <? 0) then 0 else
  if u64_max <? seconds * NANOS then 0 else if u64_max <? seconds * NANOS + nanos then 0 else seconds * NANOS + nanos.
Definition node (mode : Z) : Z :=
  let kind := Z.land mode S_IFMT in
  if kind =? S_IFREG then NODE_FILE else if kind =? S_IFDIR then NODE_DIRECTORY else if kind =? S_IFLNK then NODE_SYMLINK else NODE_OTHER.
Definition open_flags (flags : Z) : Z :=
  let access := Z.land flags (Z.lor READ WRITE) in
  let native := Z.lor O_CLOEXEC (if access =? READ then 0 else if access =? WRITE then O_WRONLY else O_RDWR) in
  let native := if has flags CREATE then Z.lor native O_CREAT else native in
  let native := if has flags EXCLUSIVE then Z.lor native O_EXCL else native in
  if has flags TRUNCATE then Z.lor native O_TRUNC else native.

Section Provider.
Context {K : Type} {C : FileCalls K} (rounds : nat).
Notation Desk := (Desk K).
Definition put_os (k : K) (n : Desk) : Desk := mkDesk k (files n).
Definition retry {A} (m : M K Z A) : Call Desk A := fun n =>
  match again rounds m (d_os n) with
  | None => Waiting
  | Some (k, r) => Returned (put_os k n) (match r with Ok a => Ok a | Err code => Err (error code) end)
  end.
(** One call, whose error is looked at. *)
Definition once {A} (m : M K Z A) : Call Desk (result Z A) := fun n => let '(k, r) := m (d_os n) in Returned (put_os k n) (Ok r).
Definition refused (fd : Z) (e : Error) : Call Desk Error :=
  match e with
  | EOs | EInvalidArgument => let* live := once (c_getfl fd) in give (match live with Ok _ => EAccessDenied | Err _ => e end)
  | _ => give e
  end.
Definition map_refused {A} (fd : Z) (m : Call Desk A) : Call Desk A := fun n =>
  match m n with Returned n (Err e) => (let* e := refused fd e in refuse_with e) n | o => o end.
Definition descriptor (file : Z) : Call Desk Z := fun n =>
  if (file =? 0) || negb (file mod align_of_File =? 0) then Returned n (Err EInvalidArgument) else
  match files n !! file with Some fd => Returned n (Ok fd) | None => Undefined end.
Definition created (directory : Z) (path : list Z) (flags inode : Z) : Call Desk Z := fun n =>
  let '(k, x) := c_statx directory path flags (d_os n) in
  Returned (put_os k n) (Ok (match x with
    | None => 0
    | Some x => let wanted := Z.lor STATX_BTIME STATX_INO in
        if negb (Z.land (x_mask x) wanted =? wanted) || negb (x_inode x =? inode) then 0 else nanoseconds (x_created x)
    end)).
Definition describe (value : Stat) (directory : Z) (path : list Z) (flags : Z) : Call Desk Status :=
  let* birth := created directory path flags (s_ino value) in
  give (mkStatus (node (s_mode value)) (Z.land (s_mode value) 4095) (Z.max 0 (s_size value)) (nanoseconds (s_mtime value)) (nanoseconds (s_atime value)) (nanoseconds (s_ctime value))
    birth (s_ino value) (s_dev value)).
Definition release_file (file : Z) (n : Desk) : Desk := put_os (c_free file (d_os n)) n.

Definition open (path : list Z) (flags mode : Z) : Call Desk Z :=
  let* path := of_result (cpath path) in fun n =>
  let '(k, file) := c_calloc size_of_File (d_os n) in
  let n := put_os k n in
  if file =? 0 then Returned n (Err EOutOfMemory) else
  match retry (c_open path (open_flags flags) mode) n with
  | Returned n (Err e) => Returned (release_file file n) (Err e)
  | Returned n (Ok fd) =>
      (let* value := once (c_fstat fd) in
       let failure := match value with Err code => Some (error code) | Ok value => if node (s_mode value) =? NODE_DIRECTORY then Some EIsDirectory else None end in
       match failure with
       | Some e => let* _ := once (c_close fd) in fun n => Returned (release_file file n) (Err e)
       | None => fun n => Returned (mkDesk (d_os n) (<[file := fd]> (files n))) (Ok file)
       end) n
  | Undefined => Undefined
  | Waiting => Waiting
  end.
Definition closed (code : result Z unit) : Result unit := match code with Ok _ => Ok tt | Err code => if code =? EINTR then Ok tt else Err (error code) end.
Definition close (file : Z) : Call Desk unit :=
  let* fd := descriptor file in fun n =>
  let n := release_file file n in
  (let* code := once (c_close fd) in of_result (closed code)) (mkDesk (d_os n) (delete file (files n))).
Definition read_at (file offset capacity : Z) : Call Desk (Z * list Z) :=
  let* fd := descriptor file in
  let* offset := of_result (position offset) in
  let* bytes := map_refused fd (retry (c_pread fd capacity offset)) in give (lenZ bytes, bytes).
Definition write_at (file offset : Z) (data : list Z) : Call Desk Z :=
  let* fd := descriptor file in
  let* offset := of_result (position offset) in
  let* done := map_refused fd (retry (c_pwrite fd data offset)) in
  if done =? 0 then refuse_with EOs else give done.
Definition set_size (file size : Z) : Call Desk unit :=
  let* fd := descriptor file in
  let* size := of_result (position size) in
  map_refused fd (retry (c_do (Ftruncate fd size))).
Definition flush (file : Z) : Call Desk unit := let* fd := descriptor file in retry (c_do (Fsync fd)).
Definition status (file : Z) : Call Desk Status :=
  let* fd := descriptor file in
  let* value := retry (c_fstat fd) in describe value fd [] AT_EMPTY_PATH.
Definition path_status (path : list Z) (follow : bool) : Call Desk Status :=
  let* path := of_result (cpath path) in
  let* value := retry (c_stat path follow) in describe value AT_FDCWD path (if follow then 0 else AT_SYMLINK_NOFOLLOW).
(** A request on one path or on two. *)
Definition on_path (path : list Z) (request : list Z -> Request) : Call Desk unit := let* path := of_result (cpath path) in retry (c_do (request path)).
Definition on_paths (a b : list Z) (request : list Z -> list Z -> Request) : Call Desk unit :=
  let* a := of_result (cpath a) in let* b := of_result (cpath b) in retry (c_do (request a b)).
Definition remove (path : list Z) : Call Desk unit := on_path path Unlink.
Definition rename (from to : list Z) : Call Desk unit := on_paths from to Rename.
Definition create_directory (path : list Z) (mode : Z) : Call Desk unit := on_path path (fun path => Mkdir path mode).
Definition remove_directory (path : list Z) : Call Desk unit := fun n =>
  match on_path path Rmdir n with Returned n (Err EAlreadyExists) => Returned n (Err ENotEmpty) | o => o end.
Definition open_directory (path : list Z) : Call Desk Z := let* path := of_result (cpath path) in retry (c_opendir path).
(** The loop of [read_directory]. *)
Fixpoint read_entries (fuel : nat) (directory capacity : Z) : Call Desk (Z * list Z * Z) :=
  match fuel with
  | O => fun _ => Waiting
  | Datatypes.S fuel => fun n =>
      let '(k, r) := c_readdir directory (d_os n) in
      let n := put_os k n in
      match r with
      | NoEntry code => if code =? 0 then Returned n (Err ENotFound) else if code =? EINTR then read_entries fuel directory capacity n else Returned n (Err (error code))
      | Entry text type =>
          if bool_decide (text = [DOT]) || bool_decide (text = [DOT; DOT]) then read_entries fuel directory capacity n else
          if capacity <? lenZ text then Returned n (Err EOs) else
          let found kind := give (lenZ text, text, kind) in
          if type =? DT_REG then found NODE_FILE n else if type =? DT_DIR then found NODE_DIRECTORY n else if type =? DT_LNK then found NODE_SYMLINK n else
          if type =? DT_UNKNOWN then
            match retry (c_fstatat directory text) n with
            | Returned n (Ok value) => found (node (s_mode value)) n
            | Returned n (Err ENotFound) => read_entries fuel directory capacity n
            | Returned n (Err e) => Returned n (Err e)
            | Undefined => Undefined
            | Waiting => Waiting
            end
          else found NODE_OTHER n
      end
  end.
Definition read_directory (directory capacity : Z) : Call Desk (Z * list Z * Z) := read_entries rounds directory capacity.
Definition close_directory (directory : Z) : Call Desk unit := let* code := once (c_closedir directory) in of_result (closed code).
Definition current_directory (capacity : Z) : Call Desk (Z * option (list Z)) :=
  let* r := once (c_getcwd BUFFER) in
  match r with
  | Err code => refuse_with (if code =? ERANGE then Port.ENameTooLong else error code)
  | Ok text => give (deliver text capacity)
  end.
Definition set_mode (path : list Z) (mode : Z) : Call Desk unit := on_path path (fun path => Chmod path mode).
Definition set_file_mode (file mode : Z) : Call Desk unit := let* fd := descriptor file in retry (c_do (Fchmod fd mode)).
Definition set_times (path : list Z) (follow : bool) (accessed_ns modified_ns : option Z) : Call Desk unit :=
  let* path := of_result (cpath path) in
  let* accessed := of_result (timespec accessed_ns) in let* modified := of_result (timespec modified_ns) in
  retry (c_do (Utimensat AT_FDCWD path accessed modified (if follow then 0 else AT_SYMLINK_NOFOLLOW))).
Definition set_file_times (file : Z) (accessed_ns modified_ns : option Z) : Call Desk unit :=
  let* fd := descriptor file in
  let* accessed := of_result (timespec accessed_ns) in let* modified := of_result (timespec modified_ns) in
  retry (c_do (Futimens fd accessed modified)).
Definition link (existing created : list Z) : Call Desk unit := on_paths existing created Link.
Definition symlink (target created : list Z) : Call Desk unit := on_paths target created Symlink.
Definition read_link (path : list Z) (capacity : Z) : Call Desk (Z * option (list Z)) :=
  let* path := of_result (cpath path) in
  let* text := retry (c_readlink path BUFFER) in
  if BUFFER <=? lenZ text then refuse_with Port.ENameTooLong else give (deliver text capacity).
Definition real_path (path : list Z) (capacity : Z) : Call Desk (Z * option (list Z)) :=
  let* path := of_result (cpath path) in
  let* text := retry (c_realpath path) in give (deliver text capacity).
Definition set_current_directory (path : list Z) : Call Desk unit := on_path path Chdir.
(** A lock request, repeated while it is interrupted; [answer] names its other errors. *)
Definition repeat_lock (request : Request) (answer : Z -> Call Desk unit) : Call Desk unit := fun n =>
  match again rounds (c_do request) (d_os n) with
  | None => Waiting
  | Some (k, Ok _) => Returned (put_os k n) (Ok tt)
  | Some (k, Err code) => answer code (put_os k n)
  end.
Definition lock (file mode : Z) (wait : bool) : Call Desk unit :=
  let* fd := descriptor file in
  let* operation := of_result (if mode =? LOCK_SHARED then Ok LOCK_SH else if mode =? LOCK_EXCLUSIVE then Ok LOCK_EX else if mode =? LOCK_UNLOCK then Ok LOCK_UN else Err EInvalidArgument) in
  repeat_lock (Flock fd (if wait then operation else Z.lor operation LOCK_NB)) (fun code => refuse_with (if code =? EAGAIN then EWouldBlock else error code)).
Definition lock_range (file offset length mode : Z) : Call Desk unit :=
  let* fd := descriptor file in
  let* type := of_result (if mode =? LOCK_SHARED then Ok F_RDLCK else if mode =? LOCK_EXCLUSIVE then Ok F_WRLCK else if mode =? LOCK_UNLOCK then Ok F_UNLCK else Err EInvalidArgument) in
  let* start := of_result (position offset) in let* len := of_result (position length) in
  repeat_lock (SetLock fd type start len) (fun code =>
    if (code =? EAGAIN) || (code =? EACCES) then refuse_with EWouldBlock else
    if code =? EBADF then (let* e := refused fd EOs in refuse_with e) else
    if code =? EINVAL then refuse_with EUnsupported else refuse_with (error code)).
End Provider.

(** ** The kernel
    [live] are the blocks and the descriptors of the process, [listing] is what a directory stream has still to list,
    [gone] are the entries for which [fstatat] has answered [ENOENT], in order, and [interruptions] bounds the
    interruptions to come. *)
Notation Block p := (true, p).
Notation Descriptor fd := (false, fd).
Definition interrupted {A} (r : result Z A) : nat := match r with Err code => if code =? EINTR then 1%nat else 0%nat | Ok _ => 0%nat end.
Definition named (text : list Z) : bool := negb (existsb (fun b => b =? 0) text) && negb (existsb (fun b => b =? SLASH) text).
Class FileLaws (K : Type) {C : FileCalls K} := {
  live : K -> gset (bool * Z); listing : K -> Z -> list (list Z * Z); interruptions : K -> nat; gone : K -> list (Z * list Z);
  l_calloc k k' p : c_calloc size_of_File k = (k', p) ->
    if decide (p = 0) then live k' = live k else p mod align_of_File = 0 /\ Block p ∉ live k /\ live k' = live k ∪ {[Block p]};
  l_free p k : live (c_free p k) = live k ∖ {[Block p]};
  l_open path flags mode k k' r : c_open path flags mode k = (k', r) ->
    match r with Ok fd => Descriptor fd ∉ live k /\ live k' = live k ∪ {[Descriptor fd]} | Err _ => live k' = live k end;
  l_close fd k : live (c_close fd k).1 = live k ∖ {[Descriptor fd]};
  l_fstat fd k : live (c_fstat fd k).1 = live k;
  l_pread fd capacity offset k k' bytes : c_pread fd capacity offset k = (k', Ok bytes) -> lenZ bytes <= capacity;
  l_pwrite fd data offset k k' done : c_pwrite fd data offset k = (k', Ok done) -> 0 <= done <= lenZ data;
  l_readdir d k k' r : c_readdir d k = (k', r) -> gone k' = gone k /\
    match r with
    | Entry text type => listing k d = (text, type) :: listing k' d /\ named text = true /\ (interruptions k' <= interruptions k)%nat
    | NoEntry code => listing k' d = listing k d /\ code <> ENOENT /\ (code = 0 -> listing k d = []) /\ (interruptions k' + (if (code =? EINTR)%Z then 1 else 0) <= interruptions k)%nat
    end;
  l_fstatat d text k k' r : c_fstatat d text k = (k', r) -> listing k' d = listing k d /\ (interruptions k' + interrupted r <= interruptions k)%nat /\
    gone k' = gone k ++ match r with Err code => if code =? ENOENT then [(d, text)] else [] | Ok _ => [] end;
  l_getcwd size k k' text : c_getcwd size k = (k', Ok text) -> 0 < lenZ text < size;
  l_readlink path size k k' text : c_readlink path size k = (k', Ok text) -> 0 < lenZ text <= size;
  l_realpath path k k' text : c_realpath path k = (k', Ok text) -> 0 < lenZ text < BUFFER;
}.

Section Proofs.
Context {K : Type} {C : FileCalls K} {L : FileLaws K}.
Implicit Types n : Desk K.
(** An interrupted call that is repeated has the effects of its last answer when the interruptions have none. *)
Lemma again_keeps {A B} (f : K -> B) (m : M K Z A) rounds k k' r :
  (forall k k1 code, m k = (k1, Err code) -> f k1 = f k) -> again rounds m k = Some (k', r) -> exists k1, f k1 = f k /\ m k1 = (k', r).
Proof.
  intros Hm. revert k. induction rounds as [| rounds IH]; intros k; [done |]. cbn [again]. destruct (m k) as [k1 [a | code]] eqn:E; [intros [= <- <-]; eauto |].
  destruct (code =? EINTR); [| intros [= <- <-]; eauto]. intros (k2 & Hf & E2)%IH. exists k2. split; [rewrite Hf; by eapply Hm | done].
Qed.
Lemma open_live rounds path flags mode n n' r : open rounds path flags mode n = Returned n' r ->
  match r with
  | Ok h => exists fd, h <> 0 /\ h mod align_of_File = 0 /\ files n' = <[h := fd]> (files n) /\ Block h ∉ live (d_os n) /\ Descriptor fd ∉ live (d_os n) /\
      live (d_os n') = live (d_os n) ∪ {[Block h; Descriptor fd]}
  | Err _ => files n' = files n /\ live (d_os n') = live (d_os n)
  end.
Proof.
  unfold open, then_ at 1, of_result. destruct (cpath path) as [p | e]; [| by intros [= <- <-]].
  destruct (c_calloc size_of_File (d_os n)) as [k h] eqn:E. apply l_calloc in E. destruct (Z.eqb_spec h 0) as [-> | Hh]; [intros [= <- <-]; by rewrite decide_True in E |].
  rewrite decide_False in E by done. destruct E as (Ha & Hb & Hl). unfold retry. cbn [d_os put_os].
  destruct (again rounds _ k) as [[k1 x] |] eqn:E; [| done].
  apply (again_keeps live) in E as (k0 & Hk0 & E); [| intros ? ? ? E1; by apply l_open in E1]. apply l_open in E. rewrite Hk0, Hl in E.
  destruct x as [fd | code]; [| intros [= <- <-]; cbn [files d_os put_os release_file]; rewrite l_free, E; split; [done | set_solver]].
  destruct E as [Hfd Hl1]. unfold then_, once. cbn [d_os put_os]. pose proof (l_fstat fd k1) as Hf. destruct (c_fstat fd k1) as [k2 value]. cbn [fst] in Hf.
  destruct (match value with Err code => Some (error code) | Ok value => _ end) as [e |].
  - cbn [d_os put_os]. pose proof (l_close fd k2) as Hc. destruct (c_close fd k2) as [k3 y]. cbn [fst] in Hc. intros [= <- <-]. cbn [files d_os put_os release_file].
    rewrite l_free, Hc, Hf, Hl1. split; [done | set_solver].
  - intros [= <- <-]. cbn [files d_os put_os]. exists fd. rewrite Hf, Hl1. split_and!; try done; set_solver.
Qed.
Lemma close_live h fd n n' r : h <> 0 -> h mod align_of_File = 0 -> files n !! h = Some fd -> close h n = Returned n' r ->
  files n' = delete h (files n) /\ live (d_os n') = live (d_os n) ∖ {[Block h; Descriptor fd]}.
Proof.
  intros Hz Ha Hh. unfold close, then_ at 1, descriptor. apply Z.eqb_neq in Hz. rewrite Hz, Ha, Hh. cbn [orb negb Z.eqb]. unfold then_, once, of_result. cbn [d_os files release_file put_os].
  pose proof (l_close fd (c_free h (d_os n))) as Hc. destruct (c_close fd _) as [k y]. cbn [fst] in Hc. intros [= <- <-]. cbn [files d_os put_os]. rewrite Hc, l_free. split; [done | set_solver].
Qed.
Lemma close_returns h fd n : h <> 0 -> h mod align_of_File = 0 -> files n !! h = Some fd -> exists n' r, close h n = Returned n' r.
Proof.
  intros Hz Ha Hh. unfold close, then_ at 1, descriptor. apply Z.eqb_neq in Hz. rewrite Hz, Ha, Hh. cbn [orb negb Z.eqb]. unfold then_, once, of_result. destruct (c_close fd _) as [k y]. eauto.
Qed.
(** A file handle stands for one block and one descriptor.  [open] that fails leaves the process with what it had, wherever it
    failed; [open] that succeeds has made one block and one descriptor that nothing else used, and [close] of that handle
    returns and gives both back, also when the kernel reports an error or an interruption. *)
Theorem file_handles_balanced rounds path flags mode n n1 r : open rounds path flags mode n = Returned n1 r ->
  match r with
  | Err _ => files n1 = files n /\ live (d_os n1) = live (d_os n)
  | Ok h => exists fd n2 x, files n1 = <[h := fd]> (files n) /\ Block h ∉ live (d_os n) /\ Descriptor fd ∉ live (d_os n) /\ live (d_os n1) = live (d_os n) ∪ {[Block h; Descriptor fd]} /\
      close h n1 = Returned n2 x /\ files n2 = delete h (files n) /\ live (d_os n2) = live (d_os n)
  end.
Proof.
  intros E%open_live. destruct r as [h | e]; [| done]. destruct E as (fd & Hz & Ha & Hf & Hb & Hd & Hl).
  assert (files n1 !! h = Some fd) as Hh by (rewrite Hf; apply lookup_insert_eq). destruct (close_returns h fd n1 Hz Ha Hh) as (n2 & x & Hc).
  exists fd, n2, x. pose proof (close_live _ _ _ _ _ Hz Ha Hh Hc) as [Hf2 Hl2]. split_and!; try done; [by rewrite Hf2, Hf, delete_insert_eq |]. rewrite Hl2, Hl. clear - Hb Hd. set_solver.
Qed.

(** *** Directories *)
(** The two entries of every directory. *)
Definition dots (x : list Z * Z) : bool := bool_decide (x.1 = [DOT]) || bool_decide (x.1 = [DOT; DOT]).
(** What a listing leaves out, from [n] to [n']: the two of every directory, and entries whose type had to be asked for and that the kernel, asked for
    each of them in turn, did not find any more. *)
Definition left_out (d : Z) (skipped : list (list Z * Z)) n n' : Prop :=
  Forall (fun x => dots x = true \/ x.2 = DT_UNKNOWN) skipped /\ gone (d_os n') = gone (d_os n) ++ ((fun x => (d, x.1)) <$> filter (fun x => dots x = false) skipped).
(** The kind that goes with the type of an entry, and otherwise with the mode that the kernel answered. *)
Definition kind_told (d : Z) (text : list Z) (type kind : Z) n' : Prop :=
  if type =? DT_UNKNOWN then exists k v, c_fstatat d text k = (d_os n', Ok v) /\ kind = node (s_mode v)
  else kind = if type =? DT_REG then NODE_FILE else if type =? DT_DIR then NODE_DIRECTORY else if type =? DT_LNK then NODE_SYMLINK else NODE_OTHER.
(** A failure: the stream's own, or of the one entry that was taken, whose name has no room or whose type the kernel would not tell. *)
Definition failed_on (d capacity : Z) (given : list (list Z * Z)) (e : Error) n' : Prop :=
  match given with
  | [] => exists k code, c_readdir d k = (d_os n', NoEntry code) /\ code <> 0 /\ e = error code
  | [(text, type)] => dots (text, type) = false /\ (capacity < lenZ text /\ e = EOs \/ type = DT_UNKNOWN /\ exists k code, c_fstatat d text k = (d_os n', Err code) /\ code <> ENOENT /\ e = error code)
  | _ => False
  end.
Definition listed_as (d capacity : Z) n (r : Result (Z * list Z * Z)) n' : Prop :=
  exists skipped given, listing (d_os n) d = skipped ++ given ++ listing (d_os n') d /\ left_out d skipped n n' /\ files n' = files n /\
    match r with
    | Ok (len, text, kind) => exists type, given = [(text, type)] /\ len = lenZ text /\ len <= capacity /\ dots (text, type) = false /\ listable text kind = true /\ kind_told d text type kind n'
    | Err ENotFound => given = [] /\ listing (d_os n') d = []
    | Err e => failed_on d capacity given e n'
    end.
Lemma error_not_found code : error code = ENotFound -> code = ENOENT.
Proof. unfold error. repeat case_match; try done. intros _. lia. Qed.
Lemma listable_node text kind : named text = true -> NODE_FILE <= kind <= NODE_OTHER -> listable text kind = true.
Proof. unfold named, listable. intros [-> ->]%andb_true_iff Hk. lia. Qed.
Lemma node_range mode : NODE_FILE <= node mode <= NODE_OTHER.
Proof. unfold node, NODE_FILE, NODE_DIRECTORY, NODE_SYMLINK, NODE_OTHER. repeat case_match; lia. Qed.
Lemma left_out_nil d n n' : gone (d_os n') = gone (d_os n) -> left_out d [] n n'.
Proof. intros Hg. split; [done |]. by rewrite Hg, app_nil_r. Qed.
Lemma listed_on d capacity n x n1 r n' : listing (d_os n) d = x ++ listing (d_os n1) d -> left_out d x n n1 -> files n1 = files n -> listed_as d capacity n1 r n' -> listed_as d capacity n r n'.
Proof.
  intros Hx [Hl1 Hl2] Hf (skipped & given & H1 & [H2 H5] & H3 & H4). exists (x ++ skipped), given. split_and!; [by rewrite Hx, H1, app_assoc | | congruence | done].
  split; [by apply Forall_app |]. by rewrite H5, Hl2, filter_app, fmap_app, app_assoc.
Qed.
Lemma fstatat_kept rounds d text n n' r : retry rounds (c_fstatat d text) n = Returned n' r ->
  listing (d_os n') d = listing (d_os n) d /\ files n' = files n /\ exists k x, c_fstatat d text k = (d_os n', x) /\
    gone (d_os n') = gone (d_os n) ++ match x with Err code => if code =? ENOENT then [(d, text)] else [] | Ok _ => [] end /\ r = match x with Ok v => Ok v | Err code => Err (error code) end.
Proof.
  unfold retry. destruct (again rounds _ _) as [[k x] |] eqn:E; [| done].
  assert (exists k1, (listing k1 d, gone k1) = (listing (d_os n) d, gone (d_os n)) /\ c_fstatat d text k1 = (k, x)) as (k1 & [= Hk1 Hk2] & E2).
  { revert E. generalize (d_os n). intros k0. revert k0. induction rounds as [| rounds IH]; intros k0; [done |]. cbn [again]. destruct (c_fstatat d text k0) as [k1 [v | code]] eqn:E0; [intros [= <- <-]; eauto |].
    destruct (Z.eqb_spec code EINTR) as [-> |]; [| intros [= <- <-]; eauto]. intros (k2 & [= Hf1 Hf2] & E2)%IH. exists k2. apply l_fstatat in E0 as (F1 & _ & F3). rewrite app_nil_r in F3. split; [congruence | done]. }
  pose proof (l_fstatat _ _ _ _ _ E2) as (F1 & _ & F3). intros [= <- <-]. cbn [d_os files put_os]. split_and!; [congruence | done |]. exists k1, x. split_and!; [done | | by destruct x].
  by rewrite F3, Hk2.
Qed.
Lemma read_entries_listed rounds fuel d capacity n n' r : read_entries rounds fuel d capacity n = Returned n' r -> listed_as d capacity n r n'.
Proof.
  revert n. induction fuel as [| fuel IH]; intros n; [done |]. cbn [read_entries]. destruct (c_readdir d (d_os n)) as [k x] eqn:E. pose proof (l_readdir _ _ _ _ E) as [Hgone E1]. destruct x as [text type | code].
  - destruct E1 as (Hl & Hn & _). set (n1 := put_os k n).
    change (bool_decide (text = [DOT]) || bool_decide (text = [DOT; DOT])) with (dots (text, type)). destruct (dots (text, type)) eqn:Hd.
    { intros Hgo%IH. apply (listed_on d capacity n [(text, type)] n1); try done. split; [constructor; [by left | done] |]. rewrite filter_cons_False by (by rewrite Hd). cbn. by rewrite app_nil_r. }
    assert (forall kind n2 r, listing (d_os n2) d = listing k d -> files n2 = files n -> gone (d_os n2) = gone k -> NODE_FILE <= kind <= NODE_OTHER -> lenZ text <= capacity -> kind_told d text type kind n2 ->
      give (lenZ text, text, kind) n2 = Returned n' r -> listed_as d capacity n r n') as Hgive.
    { intros kind n2 r2 Hl2 Hf2 Hg2 Hk Hc Ht. unfold give. intros [= <- <-]. exists [], [(text, type)]. rewrite Hl2, Hl. split_and!; try done; [apply left_out_nil; congruence |].
      exists type. split_and!; try done. by apply listable_node. }
    destruct (Z.ltb_spec capacity (lenZ text)).
    { intros [= <- <-]. exists [], [(text, type)]. split_and!; try done; [by apply left_out_nil |]. split; [done | by left]. }
    assert (NODE_FILE <= NODE_FILE <= NODE_OTHER /\ NODE_FILE <= NODE_DIRECTORY <= NODE_OTHER /\ NODE_FILE <= NODE_SYMLINK <= NODE_OTHER /\ NODE_FILE <= NODE_OTHER <= NODE_OTHER) as (K1 & K2 & K3 & K4) by (unfold NODE_FILE, NODE_DIRECTORY, NODE_SYMLINK, NODE_OTHER; lia).
    destruct (Z.eqb_spec type DT_REG) as [-> | T1]; [by apply Hgive |]. destruct (Z.eqb_spec type DT_DIR) as [-> | T2]; [by apply Hgive |]. destruct (Z.eqb_spec type DT_LNK) as [-> | T3]; [by apply Hgive |].
    destruct (Z.eqb_spec type DT_UNKNOWN) as [-> | T4].
    2: { apply Hgive; try done. unfold kind_told. apply Z.eqb_neq in T1, T2, T3, T4. by rewrite T1, T2, T3, T4. }
    destruct (retry rounds (c_fstatat d text) n1) as [n2 x | |] eqn:Ef; try done. apply fstatat_kept in Ef as (F1 & F2 & k2 & y & F3 & F4 & ->). cbn [d_os n1 put_os] in F1, F4. rewrite Hgone in F4.
    assert (listing (d_os n) d = [(text, DT_UNKNOWN)] ++ listing (d_os n2) d) as Hl2 by (rewrite F1; exact Hl). destruct y as [v | code].
    + rewrite app_nil_r in F4. apply Hgive; try done; [congruence | apply node_range |]. exists k2, v. done.
    + destruct (Z.eqb_spec code ENOENT) as [-> | He].
      * change (error ENOENT) with ENotFound. intros Hgo%IH. apply (listed_on d capacity n [(text, DT_UNKNOWN)] n2); try done. split; [constructor; [by right | done] |]. rewrite filter_cons_True by done. exact F4.
      * rewrite app_nil_r in F4. assert (error code <> ENotFound) as He' by (by intros ?%error_not_found). intros E2. assert (Returned n2 (Err (error code)) = Returned n' r) as [= <- <-] by (by destruct (error code)). exists [], [(text, DT_UNKNOWN)]. split_and!; try done; [by apply left_out_nil |].
        assert (failed_on d capacity [(text, DT_UNKNOWN)] (error code) n2) as Hfail by (split; [done |]; right; split; [done |]; exists k2, code; by split_and!). by destruct (error code).
  - destruct E1 as (Hl & Hne & Hz & _). destruct (Z.eqb_spec code 0) as [-> | Hc].
    + intros [= <- <-]. exists [], []. split_and!; try done; [by apply left_out_nil |]. cbn [d_os put_os]. rewrite Hl. by apply Hz.
    + destruct (code =? EINTR).
      * intros Hgo%IH. apply (listed_on d capacity n [] (put_os k n)); try done. by apply left_out_nil.
      * intros [= <- <-]. exists [], []. split_and!; try done; [by apply left_out_nil |]. assert (failed_on d capacity [] (error code) (put_os k n)) as Hfail by (by exists (d_os n), code).
        destruct (error code) eqn:Ee; try done. by apply error_not_found in Ee.
Qed.
Lemma again_returns rounds {A} (m : M K Z A) k : (forall k k' r, m k = (k', r) -> (interruptions k' + interrupted r <= interruptions k)%nat) -> (interruptions k < rounds)%nat ->
  exists k' r, again rounds m k = Some (k', r) /\ (interruptions k' <= interruptions k)%nat.
Proof.
  intros Hm. revert k. induction rounds as [| rounds IH]; intros k Hk; [lia |]. cbn [again]. destruct (m k) as [k1 r] eqn:E. apply Hm in E. destruct r as [a | code]; cbn [interrupted] in E; [eexists _, _; split; [done | lia] |].
  destruct (code =? EINTR); [| eexists _, _; split; [done | lia]]. destruct (IH k1) as (k2 & r & -> & ?); [lia |]. eexists _, _. split; [done | lia].
Qed.
Lemma read_entries_returns rounds fuel d capacity n : (length (listing (d_os n) d) + interruptions (d_os n) < fuel)%nat -> (interruptions (d_os n) < rounds)%nat ->
  exists n' r, read_entries rounds fuel d capacity n = Returned n' r.
Proof.
  revert n. induction fuel as [| fuel IH]; intros n Hf Hr; [lia |]. cbn [read_entries]. destruct (c_readdir d (d_os n)) as [k x] eqn:E. apply l_readdir in E as [_ E]. destruct x as [text type | code].
  - destruct E as (Hl & _ & Hi). apply (f_equal length) in Hl. cbn [length] in Hl.
    assert (exists n' r, read_entries rounds fuel d capacity (put_os k n) = Returned n' r) as Hon by (apply IH; cbn [d_os put_os]; lia).
    destruct (_ || _); [done |]. destruct (capacity <? lenZ text); [eauto |]. unfold give. destruct (type =? DT_REG); [eauto |]. destruct (type =? DT_DIR); [eauto |]. destruct (type =? DT_LNK); [eauto |]. destruct (type =? DT_UNKNOWN); [| eauto].
    destruct (retry rounds (c_fstatat d text) (put_os k n)) as [n2 x | |] eqn:E.
    + assert (exists n' r, read_entries rounds fuel d capacity n2 = Returned n' r) as Hon2.
      { pose proof (fstatat_kept _ _ _ _ _ _ E) as [E1 _]. unfold retry in E. cbn [d_os put_os] in E, E1. destruct (again_returns rounds (c_fstatat d text) k) as (k2 & y & E2 & Hi2); [intros ? ? ? E3; by apply l_fstatat in E3 as (_ & ? & _) | lia |].
        rewrite E2 in E. injection E as <- _. apply IH; cbn [d_os put_os] in *; [rewrite E1 |]; lia. }
      destruct x as [value | e]; [eauto |]. destruct (decide (e = ENotFound)) as [-> | He]; [exact Hon2 |]. exists n2, (Err e). by destruct e.
    + unfold retry in E. by destruct (again _ _ _) as [[? ?] |].
    + exfalso. unfold retry in E. cbn [d_os put_os] in E. destruct (again_returns rounds (c_fstatat d text) k) as (k2 & y & E2 & Hi2); [intros ? ? ? E3; by apply l_fstatat in E3 as (_ & ? & _) | lia |]. by rewrite E2 in E.
  - destruct E as (Hl & _ & _ & Hi). destruct (code =? 0); [eauto |]. destruct (code =? EINTR); [| eauto]. apply IH; cbn [d_os put_os]; rewrite ?Hl; lia.
Qed.
(** C29: [read_directory] returns after no more turns than the stream has entries and signals interrupt it, and one.  It gives
    the next entry of the stream in the stream's order, with a name that the front end accepts and the kind that goes with its
    type or, where the stream has none, with the mode that the kernel answers for the name.  It passes over exactly the two
    entries that every directory has and entries that the kernel, asked for the type of each of them during the call, no longer
    found.  It reports the end only at the end of the stream; another failure is one of the stream, or costs the one entry
    whose name has no room or whose type the kernel would not tell. *)
Theorem directory_listed_in_order rounds d capacity n : (length (listing (d_os n) d) + interruptions (d_os n) < rounds)%nat ->
  exists n' r skipped given, read_directory rounds d capacity n = Returned n' r /\
    listing (d_os n) d = skipped ++ given ++ listing (d_os n') d /\ left_out d skipped n n' /\ files n' = files n /\
    match r with
    | Ok (len, text, kind) => exists type, given = [(text, type)] /\ len = lenZ text /\ len <= capacity /\ dots (text, type) = false /\ listable text kind = true /\ kind_told d text type kind n'
    | Err ENotFound => given = [] /\ listing (d_os n') d = []
    | Err e => failed_on d capacity given e n'
    end.
Proof.
  intros Hr. unfold read_directory. destruct (read_entries_returns rounds rounds d capacity n) as (n' & r & E); [done | lia |]. exists n', r.
  destruct (read_entries_listed _ _ _ _ _ _ _ E) as (skipped & given & Hl). by exists skipped, given.
Qed.

(** *** What the front end is given *)
Lemma retry_Ok rounds {A} (m : M K Z A) n n' a : retry rounds m n = Returned n' (Ok a) -> exists k k', m k = (k', Ok a).
Proof.
  unfold retry. destruct (again _ _ _) as [[k x] |] eqn:E; [| done]. apply (again_keeps (fun _ => tt)) in E as (k1 & _ & E); [| done]. destruct x; intros E2; by simplify_eq; eauto.
Qed.
Lemma map_refused_Ok fd {A} (m : Call (Desk K) A) n n' a : map_refused fd m n = Returned n' (Ok a) -> m n = Returned n' (Ok a).
Proof.
  unfold map_refused. destruct (m n) as [n1 [b | e] | |]; try done. unfold then_. destruct (refused fd e n1) as [n2 [? | ?] | |]; done.
Qed.
Lemma nanoseconds_u64 t : 0 <= nanoseconds t <= u64_max.
Proof. unfold nanoseconds. destruct t as [s m]. unfold u64_max, NANOS. repeat case_match; lia. Qed.
Definition times_fit (st : Status) : Prop := Forall (fun t => 0 <= t <= u64_max) [st_modified st; st_accessed st; st_changed st; st_created st].
Lemma describe_accepted value directory path flags n n' st : describe value directory path flags n = Returned n' (Ok st) -> consistent st = true /\ 0 <= st_size st /\ times_fit st.
Proof.
  unfold describe, then_, created, give. destruct (c_statx _ _ _ _) as [k x]. intros [= <- <-]. cbn [st_size]. split; [| split; [lia |]].
  - unfold consistent, bad_mode. cbn [st_kind st_mode]. pose proof (node_range (s_mode value)). rewrite <- Z.land_assoc. change (Z.land 4095 (Z.lnot MODE_MASK)) with 0. rewrite Z.land_0_r. lia.
  - unfold times_fit. cbn. repeat constructor; try apply nanoseconds_u64. all: destruct x as [x |]; [destruct (_ || _) |]; try apply nanoseconds_u64; unfold u64_max; lia.
Qed.
Ltac peel E := apply then_Returned in E as [(? & ? & ? & E) | (? & ? & ?)]; [| done].
(** Whatever the provider answers with success is what the front end passes on.  A status names a kind and permissions that
    exist and times of 64 bits, the times it cannot hold being zero; a read is of no more bytes than there is room for and a
    write of at least one byte and no more than were given; and a text of a path is stored whole with its terminator when it
    fits, and otherwise only its length is told, which is never longer than the longest path. *)
Theorem files_answers_accepted rounds n n' :
  (forall file st, status rounds file n = Returned n' (Ok st) -> consistent st = true /\ 0 <= st_size st /\ times_fit st) /\
  (forall path follow st, path_status rounds path follow n = Returned n' (Ok st) -> consistent st = true /\ 0 <= st_size st /\ times_fit st) /\
  (forall file offset capacity len bytes, read_at rounds file offset capacity n = Returned n' (Ok (len, bytes)) -> len = lenZ bytes /\ len <= capacity) /\
  (forall file offset data done, write_at rounds file offset data n = Returned n' (Ok done) -> 0 < done <= lenZ data) /\
  (forall path capacity needed stored,
    current_directory capacity n = Returned n' (Ok (needed, stored)) \/ read_link rounds path capacity n = Returned n' (Ok (needed, stored)) \/ real_path rounds path capacity n = Returned n' (Ok (needed, stored)) ->
    exists text, needed = lenZ text + 1 /\ 2 <= needed <= MAX_NAME + 1 /\ stored = if needed <=? capacity then Some (text ++ [0]) else None).
Proof.
  split; [| split; [| split; [| split]]].
  - intros file st E. unfold status in E. peel E. peel E. by apply describe_accepted in E.
  - intros path follow st E. unfold path_status in E. peel E. peel E. by apply describe_accepted in E.
  - intros file offset capacity len bytes E. unfold read_at in E. peel E. peel E. apply then_Returned in E as [(n1 & b & Hx & E) | (? & ? & ?)]; [| done].
    apply map_refused_Ok, retry_Ok in Hx as (k & k' & Hx). unfold give in E. injection E as _ <- <-. split; [done |]. by eapply l_pread.
  - intros file offset data done E. unfold write_at in E. peel E. peel E. apply then_Returned in E as [(n1 & b & Hx & E) | (? & ? & ?)]; [| easy].
    apply map_refused_Ok, retry_Ok in Hx as (k & k' & Hx). apply l_pwrite in Hx. destruct (Z.eqb_spec b 0); [easy |]. unfold give in E. injection E as _ <-. lia.
  - intros path capacity needed stored E. change (MAX_NAME + 1) with BUFFER.
    assert (exists text, 0 < lenZ text < BUFFER /\ (needed, stored) = deliver text capacity) as (text & Hl & Hd); [| unfold deliver in Hd; injection Hd as -> ->; exists text; split_and!; (lia || done)].
    destruct E as [E | [E | E]].
    + unfold current_directory in E. apply then_Returned in E as [(n1 & b & Hx & E) | (? & ? & ?)]; [| done]. unfold once in Hx. destruct (c_getcwd BUFFER (d_os n)) as [k x] eqn:Ec. injection Hx as _ <-.
      destruct x as [text | code]; [| done]. apply l_getcwd in Ec. unfold give in E. exists text. split; [lia | congruence].
    + unfold read_link in E. peel E. apply then_Returned in E as [(n1 & text & Hx & E) | (? & ? & ?)]; [| done]. apply retry_Ok in Hx as (k & k' & Hx). apply l_readlink in Hx.
      destruct (Z.leb_spec BUFFER (lenZ text)); [done |]. unfold give in E. exists text. split; [lia | congruence].
    + unfold real_path in E. peel E. apply then_Returned in E as [(n1 & text & Hx & E) | (? & ? & ?)]; [| done]. apply retry_Ok in Hx as (k & k' & Hx). apply l_realpath in Hx.
      unfold give in E. exists text. split; [lia | congruence].
Qed.
End Proofs.

(** ** A kernel with one file and one directory *)
Module FilesSample.
(** The blocks and descriptors in use, what the directory stream has still to list, and the names that were looked for in vain; a
    name that starts with [g] is gone. *)
Record Files1 := mkFiles1 { in_use : gset (bool * Z); entries : list (list Z * Z); lost : list (Z * list Z) }.
Definition unused (k : Files1) : Z := above_all (set_map snd (in_use k)).
Definition regular : Stat := mkStat (S_IFREG + 420) 5 (1, 2) (-1, 0) (1, 2) 7 8.
#[export] Instance calls : FileCalls Files1 := {
  c_calloc size k := (mkFiles1 (in_use k ∪ {[Block (unused k)]}) (entries k) (lost k), unused k); c_free p k := mkFiles1 (in_use k ∖ {[Block p]}) (entries k) (lost k);
  c_open path flags mode k := (mkFiles1 (in_use k ∪ {[Descriptor (unused k)]}) (entries k) (lost k), Ok (unused k));
  c_close fd k := (mkFiles1 (in_use k ∖ {[Descriptor fd]}) (entries k) (lost k), Err EINTR); c_getfl fd k := (k, Ok 0);
  c_pread fd capacity offset k := (k, if 0 <=? capacity then Ok (takeZ capacity [104; 105]) else Err EINVAL); c_pwrite fd data offset k := (k, Ok (lenZ data)); c_do request k := (k, Ok tt);
  c_fstat fd k := (k, Ok regular); c_stat path follow k := (k, Ok regular); c_statx directory path flags k := (k, Some (mkStatx 4095 7 (3, 4)));
  c_opendir path k := (k, Ok 5); c_readdir d k := match entries k with [] => (k, NoEntry 0) | x :: l => if named x.1 then (mkFiles1 (in_use k) l (lost k), Entry x.1 x.2) else (k, NoEntry EBADF) end;
  c_fstatat d text k := if bool_decide (head text = Some 103) then (mkFiles1 (in_use k) (entries k) (lost k ++ [(d, text)]), Err ENOENT) else (k, Ok regular); c_closedir d k := (k, Ok tt); c_getcwd size k := (k, if 1 <? size then Ok [SLASH] else Err ERANGE);
  c_readlink path size k := (k, if 1 <=? size then Ok [97] else Err EINVAL); c_realpath path k := (k, Ok [SLASH]) }.
Lemma unused_fresh b k : (b, unused k) ∉ in_use k.
Proof. intros Hin. destruct (above_all_spec (set_map snd (in_use k))) as (_ & _ & Hn). apply Hn. apply elem_of_map. by exists (b, unused k). Qed.
#[export] Instance laws : FileLaws Files1.
Proof.
  refine {| live := in_use; listing k d := entries k; interruptions k := O; gone := lost |}; simpl.
  - intros k k' p [= <- <-]. destruct (above_all_spec (set_map snd (in_use k))) as (Hp & Hm & _). unfold unused. rewrite decide_False by lia. split; [| split; [apply unused_fresh | done]].
    unfold align_of_File. apply Z.mod_divide in Hm; [| done]. apply Z.mod_divide; [done |]. destruct Hm as [q ->]. exists (q * 4). lia.
  - done.
  - intros path flags mode k k' r [= <- <-]. split; [apply unused_fresh | done].
  - done.
  - done.
  - intros fd capacity offset k k' bytes. destruct (Z.leb_spec 0 capacity); [| done]. intros [= <- <-]. rewrite lenZ_takeZ. lia.
  - intros fd data offset k k' done [= <- <-]. pose proof (lenZ_nonneg data). lia.
  - intros d k k' r. destruct (entries k) as [| x l] eqn:E; [intros [= <- <-]; by rewrite E |]. destruct (named x.1) eqn:En; intros [= <- <-]; simpl; rewrite ?E; split_and!; try done. by destruct x.
  - intros d text k k' r. case_bool_decide; intros [= <- <-]; simpl; rewrite ?app_nil_r; done.
  - intros size k k' text. destruct (Z.ltb_spec 1 size); [| done]. by intros [= <- <-].
  - intros path size k k' text. destruct (Z.leb_spec 1 size); [| done]. intros [= <- <-]. unfold lenZ. simpl. lia.
  - by intros path k k' text [= <- <-].
Defined.
Definition desk : Desk Files1 := mkDesk (mkFiles1 {[Block 16; Descriptor 3]} [([DOT], DT_DIR); ([103], DT_UNKNOWN); ([97], DT_REG); ([98], DT_UNKNOWN)] []) {[16 := 3]}.
Definition answer {A} (o : Outcome (Desk Files1) A) : option (Result A) := match o with Returned _ r => Some r | _ => None end.
Definition after {A} (o : Outcome (Desk Files1) A) : Desk Files1 := match o with Returned n _ => n | _ => desk end.
Example opens : answer (open 1 [97] (Z.lor READ CREATE) 420 desk) = Some (Ok 272).
Proof. vm_compute. reflexivity. Qed.
Example lists : answer (read_directory 4 5 255 desk) = Some (Ok (1, [97], NODE_FILE)).
Proof. vm_compute. reflexivity. Qed.
Example describes : answer (status 1 16 desk) = Some (Ok (mkStatus NODE_FILE 420 5 1000000002 0 1000000002 3000000004 7 8)).
Proof. vm_compute. reflexivity. Qed.
End FilesSample.
Import FilesSample.
Lemma file_handles_balanced_witness : exists h fd n2 x, answer (open 1 [97] READ 0 desk) = Some (Ok h) /\ live (d_os (after (open 1 [97] READ 0 desk))) = live (d_os desk) ∪ {[Block h; Descriptor fd]} /\
  close h (after (open 1 [97] READ 0 desk)) = Returned n2 x /\ live (d_os n2) = live (d_os desk).
Proof.
  assert (open 1 [97] READ 0 desk = Returned (after (open 1 [97] READ 0 desk)) (Ok 272)) as E by (vm_compute; reflexivity).
  destruct (file_handles_balanced 1 [97] READ 0 desk _ _ E) as (fd & n2 & x & _ & _ & _ & H4 & H5 & _ & H7). exists 272, fd, n2, x. split; [vm_compute; reflexivity |]. exact (conj H4 (conj H5 H7)).
Defined.
Lemma directory_listed_in_order_witness : (length (listing (d_os desk) 5) + interruptions (d_os desk) < 5)%nat /\ gone (d_os (after (read_directory 5 5 255 desk))) = [(5, [103])] /\
  exists n' r skipped given, read_directory 5 5 255 desk = Returned n' r /\ listing (d_os desk) 5 = skipped ++ given ++ listing (d_os n') 5 /\ left_out 5 skipped desk n'.
Proof.
  assert (length (listing (d_os desk) 5) + interruptions (d_os desk) < 5)%nat as Hlt by (simpl; lia). split; [exact Hlt |]. split; [vm_compute; reflexivity |].
  destruct (directory_listed_in_order 5 5 255 desk Hlt) as (n' & r & skipped & given & H1 & H2 & H3 & _). exists n', r, skipped, given. exact (conj H1 (conj H2 H3)).
Defined.
Lemma files_answers_accepted_witness : consistent (mkStatus NODE_FILE 420 5 1000000002 0 1000000002 3000000004 7 8) = true /\ 0 < 2 <= lenZ [104; 105].
Proof.
  assert (status 1 16 desk = Returned (after (status 1 16 desk)) (Ok (mkStatus NODE_FILE 420 5 1000000002 0 1000000002 3000000004 7 8))) as E1 by (vm_compute; reflexivity).
  assert (write_at 1 16 0 [104; 105] desk = Returned (after (write_at 1 16 0 [104; 105] desk)) (Ok 2)) as E2 by (vm_compute; reflexivity).
  destruct (files_answers_accepted 1 desk (after (status 1 16 desk))) as (Hs & _). destruct (files_answers_accepted 1 desk (after (write_at 1 16 0 [104; 105] desk))) as (_ & _ & _ & Hw & _).
  exact (conj (proj1 (Hs 16 _ E1)) (Hw 16 0 [104; 105] 2 E2)).
Defined.
