(* ===== verification/LinuxVolumes.v ===== *)
(** * LinuxVolumes.v: volumes of the Linux port

    [src/crates/dotnet-pal-linux/src/linux_volumes.rs]: the mount table of the process is a text that the provider reads byte by
    byte, decoding the octal escapes of the mount points as they come; it keeps nothing between two calls.  [rounds] bounds the
    reads for one byte, [fuel] the bytes and the lines of the table.

    The theorems: reading the table that the kernel writes for a list of mounts gives back those mounts, whatever bytes their
    points have and however the reads cut the text, and the descriptor is closed again ([mount_points_read_back]); and the
    status of a path adds up, with the format of the last mount on the device of the path ([volume_status_exact]). *)
From S2P Require Import Prelude Port Front Tree Machine Libc.
Import Errno.
Local Open Scope Z_scope.
Local Open Scope pal_scope.

Definition ENOSYS : Z := 38.
Definition POINT : Z := MAX_NAME + 1.
Definition KIND : Z := 32.
Definition BUFFER : Z := 1024.
Definition NEWLINE : Z := 10.
Definition TAB : Z := 9.
Definition SPACE : Z := 32.
Definition BACKSLASH : Z := 92.
Definition DIGIT : Z := 48.

(** ** A line *)
(** [Text]: what fits of the decoded mount point, and whether all of it did. *)
Record Text := mkText { t_bytes : list Z; t_fits : bool }.
Definition put (b : Z) (t : Text) : Text := if lenZ (t_bytes t) <? POINT - 1 then mkText (t_bytes t ++ [b]) (t_fits t) else mkText (t_bytes t) false.
(** The backslash and the [held - 1] digits behind it. *)
Definition literal (held value : Z) (t : Text) : Text :=
  foldl (fun t digit => put (DIGIT + Z.land (Z.shiftr value (3 * digit)) 7) t) (put BACKSLASH t) (rev (seqZ 0 (held - 1))).
(** The locals of [next] for one line. *)
Record Line := mkLine { l_text : Text; l_field : Z; l_kind : list Z; l_any : bool; l_held : Z; l_value : Z }.
Definition line_new : Line := mkLine (mkText [] true) 0 [] false 0 0.
Definition with_text (t : Text) (l : Line) : Line := mkLine t (l_field l) (l_kind l) (l_any l) (l_held l) (l_value l).
Definition with_escape (held value : Z) (l : Line) : Line := mkLine (l_text l) (l_field l) (l_kind l) (l_any l) held value.
Definition is_octal (b : Z) : bool := (48 <=? b) && (b <=? 55).
(** The match on a byte that belongs to no escape: [true] at the end of the line. *)
Definition plain (b : Z) (l : Line) : Line * bool :=
  if b =? NEWLINE then (l, true) else
  if (b =? SPACE) || (b =? TAB) then (mkLine (l_text l) (l_field l + 1) (l_kind l) (l_any l) (l_held l) (l_value l), false) else
  if l_field l =? 1 then (with_text (put b (l_text l)) l, false) else
  if (l_field l =? 2) && (lenZ (l_kind l) <? KIND - 1) then (mkLine (l_text l) (l_field l) (l_kind l ++ [b]) (l_any l) (l_held l) (l_value l), false)
  else (l, false).
(** One byte of the line. *)
Definition feed (b : Z) (l : Line) : Line * bool :=
  let l := mkLine (l_text l) (l_field l) (l_kind l) true (l_held l) (l_value l) in
  if l_field l =? 1 then
    if (0 <? l_held l) && is_octal b then
      let l := with_escape (l_held l + 1) (l_value l * 8 + (b - DIGIT)) l in
      (if l_held l =? 4 then
         with_escape 0 (l_value l) (with_text (if l_value l <=? 255 then put (l_value l) (l_text l) else literal (l_held l) (l_value l) (l_text l)) l)
       else l, false)
    else
      let l := if 0 <? l_held l then with_escape 0 (l_value l) (with_text (literal (l_held l) (l_value l) (l_text l)) l) else l in
      if b =? BACKSLASH then (with_escape 1 0 l, false) else plain b l
  else plain b l.

(** ** The table *)
Record Statvfs := mkStatvfs { f_frsize : Z; f_blocks : Z; f_bfree : Z; f_bavail : Z }.
Class VolumeCalls (K : Type) := {
  v_open : M K Z Z; v_read : Z -> Z -> M K Z (list Z); v_close : Z -> K -> K; v_statvfs : list Z -> M K Z Statvfs; v_device : list Z -> M K Z Z;
}.
(** [left] is what is left of the buffer. *)
Record Table := mkTable { fd : Z; left : list Z }.
(** A mount: the length of its point unless it was too long, the bytes of the point and the type text. *)
Record Found := mkFound { found_fits : bool; found_point : list Z; found_kind : list Z }.

Section Provider.
Context {K : Type} {C : VolumeCalls K} (rounds fuel : nat).
Fixpoint open_loop (rounds : nat) : Call K Table := fun k =>
  match rounds with
  | O => Waiting
  | S rounds =>
      match v_open k with
      | (k, Ok fd) => Returned k (Ok (mkTable fd []))
      | (k, Err code) => if code =? EINTR then open_loop rounds k else Returned k (Err (if code =? ENOENT then EUnsupported else if code =? ENOMEM then EOutOfMemory else EOs))
      end
  end.
Definition open : Call K Table := open_loop rounds.
Fixpoint byte_loop (rounds : nat) (t : Table) : Call K (Table * option Z) := fun k =>
  match left t with
  | b :: l => Returned k (Ok (mkTable (fd t) l, Some b))
  | [] =>
      match rounds with
      | O => Waiting
      | S rounds =>
          match v_read (fd t) BUFFER k with
          | (k, Ok []) => Returned k (Ok (t, None))
          | (k, Ok bytes) => byte_loop rounds (mkTable (fd t) bytes) k
          | (k, Err code) => if code =? EINTR then byte_loop rounds t k else Returned k (Err EOs)
          end
      end
  end.
Definition byte (t : Table) : Call K (Table * option Z) := byte_loop rounds t.
(** The inner loop: [true] when the table ended. *)
Fixpoint line_loop (fuel : nat) (l : Line) (t : Table) : Call K (Table * Line * bool) :=
  match fuel with
  | O => fun _ => Waiting
  | S fuel =>
      let* x := byte t in
      match x with
      | (t, None) => give (t, l, true)
      | (t, Some b) => let '(l, ended) := feed b l in if ended then give (t, l, false) else line_loop fuel l t
      end
  end.
Fixpoint next_loop (lines : nat) (t : Table) : Call K (Table * option Found) :=
  match lines with
  | O => fun _ => Waiting
  | S lines =>
      let* x := line_loop fuel line_new t in
      let '(t, l, ended) := x in
      if ended && negb (l_any l) then give (t, None) else
      if negb (lenZ (t_bytes (l_text l)) =? 0) then give (t, Some (mkFound (t_fits (l_text l)) (t_bytes (l_text l)) (l_kind l))) else
      if ended then give (t, None) else next_loop lines t
  end.
Definition next (t : Table) : Call K (Table * option Found) := next_loop fuel t.
(** [Drop for Table], at every end of a use. *)
Definition dropping {A} (t : Table) (m : Call K A) : Call K A := fun k =>
  match m k with Returned k r => Returned (v_close (fd t) k) r | o => o end.
Fixpoint entry_loop (mounts : nat) (index : nat) (capacity : Z) (t : Table) : Call K (Z * option (list Z)) :=
  match mounts with
  | O => fun _ => Waiting
  | S mounts =>
      let* x := next t in
      match x with
      | (_, None) => refuse_with ENotFound
      | (t, Some m) =>
          match index with
          | S index => entry_loop mounts index capacity t
          | O => if found_fits m then let needed := lenZ (found_point m) + 1 in give (needed, if needed <=? capacity then Some (found_point m ++ [0]) else None) else refuse_with EOs
          end
      end
  end.
Definition entry (index : nat) (capacity : Z) : Call K (Z * option (list Z)) :=
  let* t := open in dropping t (entry_loop fuel index capacity t).
(** [statvfs] and [stat] of the path, together repeated while they are interrupted. *)
Fixpoint space_loop (rounds : nat) (name : list Z) : Call K (Statvfs * Z) := fun k =>
  match rounds with
  | O => Waiting
  | S rounds =>
      let failed k code :=
        if code =? EINTR then space_loop rounds name k else
        Returned k (Err (if (code =? ENOENT) || (code =? ENOTDIR) then ENotFound else if code =? EACCES then EAccessDenied else
          if code =? ENOMEM then EOutOfMemory else if code =? ENOSYS then EUnsupported else EOs)) in
      match v_statvfs name k with
      | (k, Err code) => failed k code
      | (k, Ok space) => match v_device name k with (k, Err code) => failed k code | (k, Ok device) => Returned k (Ok (space, device)) end
      end
  end.
(** The loop over the table; an error of the table ends it. *)
Fixpoint format_loop (mounts : nat) (device : Z) (format : list Z) (t : Table) : Call K (list Z) :=
  match mounts with
  | O => fun _ => Waiting
  | S mounts => fun k =>
      match next t k with
      | Returned k (Ok (t, Some m)) =>
          if found_fits m then
            match v_device (found_point m) k with
            | (k, Ok d) => format_loop mounts device (if d =? device then found_kind m else format) t k
            | (k, Err _) => format_loop mounts device format t k
            end
          else format_loop mounts device format t k
      | Returned k _ => Returned k (Ok format)
      | Undefined => Undefined
      | Waiting => Waiting
      end
  end.
Definition bytes (frsize blocks : Z) : Result Z := if u64_max <? blocks * frsize then Err EOs else Ok (blocks * frsize).
Definition status (path : list Z) : Call K VolumeStatus :=
  if POINT <=? lenZ path then refuse_with EInvalidArgument else
  let* x := space_loop rounds path in
  let '(space, device) := x in
  let* format := (fun k => match open k with Returned k (Ok t) => dropping t (format_loop fuel device [] t) k | Returned k (Err _) => Returned k (Ok []) | Undefined => Undefined | Waiting => Waiting end) in
  of_result (let? total := bytes (f_frsize space) (f_blocks space) in
             let? free := bytes (f_frsize space) (f_bfree space) in
             let? available := bytes (f_frsize space) (f_bavail space) in
             Ok (volume_status_new total free available format)).
End Provider.

(** ** The text that the kernel writes *)
Record Mount := mkMount { m_device : list Z; m_point : list Z; m_kind : list Z; m_rest : list Z }.
Definition separates (b : Z) : bool := (b =? SPACE) || (b =? TAB) || (b =? NEWLINE).
Definition escape (b : Z) : list Z := if separates b || (b =? BACKSLASH) then [BACKSLASH; DIGIT + Z.shiftr b 6; DIGIT + Z.land (Z.shiftr b 3) 7; DIGIT + Z.land b 7] else [b].
Definition line_of (m : Mount) : list Z := m_device m ++ [SPACE] ++ concat (map escape (m_point m)) ++ [SPACE] ++ m_kind m ++ [SPACE] ++ m_rest m ++ [NEWLINE].
Definition mounts_text (ms : list Mount) : list Z := concat (map line_of ms).
Definition mount_ok (m : Mount) : Prop :=
  forallb (fun b => negb (separates b)) (m_device m) = true /\ m_point m <> [] /\ forallb (fun b => negb (separates b)) (m_kind m) = true /\ forallb (fun b => negb (b =? NEWLINE)) (m_rest m) = true.

(** *** One line *)
Definition feed_all (bs : list Z) (l : Line) : Line := foldl (fun l b => (feed b l).1) l bs.
Fixpoint scan (l : Line) (bs : list Z) : Line * list Z * bool :=
  match bs with
  | [] => (l, [], true)
  | b :: bs => let '(l, ended) := feed b l in if ended then (l, bs, false) else scan l bs
  end.
Lemma feed_ended b l : (feed b l).2 = (b =? NEWLINE).
Proof.
  unfold feed, plain, is_octal, NEWLINE, SPACE, TAB, BACKSLASH. cbn [l_field l_held l_value l_text l_kind].
  destruct (l_field l =? 1); [destruct (_ && _) eqn:E; [simpl; lia |]; destruct (Z.eqb_spec b 92); [subst; done |] |]; repeat case_match; simpl; lia.
Qed.
Lemma scan_app bs r l : forallb (fun b => negb (b =? NEWLINE)) bs = true -> scan l (bs ++ r) = scan (feed_all bs l) r.
Proof.
  revert l. induction bs as [| b bs IH]; intros l Hb; [done |]. simpl in Hb. apply andb_true_iff in Hb as [Hb Hbs]. cbn [app scan feed_all foldl].
  pose proof (feed_ended b l) as He. destruct (feed b l) as [l' ended]. cbn [snd fst] in *. subst ended. destruct (b =? NEWLINE); [done |]. by apply IH.
Qed.
Lemma feed_all_app a b l : feed_all (a ++ b) l = feed_all b (feed_all a l).
Proof. apply foldl_app. Qed.
Lemma feed_all_cons b bs l : feed_all (b :: bs) l = feed_all bs (feed b l).1.
Proof. done. Qed.
Lemma feed_all_device bs t kd any held v : forallb (fun b => negb (separates b)) bs = true -> exists any', feed_all bs (mkLine t 0 kd any held v) = mkLine t 0 kd any' held v.
Proof.
  revert any. induction bs as [| b bs IH]; intros any Hb; [by exists any |]. simpl in Hb. apply andb_true_iff in Hb as [Hb Hbs]. unfold separates in Hb.
  rewrite feed_all_cons. unfold feed, plain. cbn [l_field]. change (0 =? 1) with false. change (0 =? 2) with false.
  replace (b =? NEWLINE) with false by lia. replace ((b =? SPACE) || (b =? TAB)) with false by lia. cbn [andb fst l_text l_kind l_any l_held l_value]. by apply IH.
Qed.
Lemma feed_escape b t kd v : exists v', feed_all (escape b) (mkLine t 1 kd true 0 v) = mkLine (put b t) 1 kd true 0 v'.
Proof.
  unfold escape. destruct (separates b || (b =? BACKSLASH)) eqn:Hs.
  - assert (b = SPACE \/ b = TAB \/ b = NEWLINE \/ b = BACKSLASH) as Hb by (unfold separates in Hs; lia). exists b. by destruct_or!; subst b.
  - exists v. unfold separates in Hs. cbn [feed_all foldl]. unfold feed, plain. cbn [l_field l_held Z.eqb Z.ltb andb Z.compare]. change (1 =? 1) with true. cbn [andb fst l_text].
    replace (b =? BACKSLASH) with false by lia. replace (b =? NEWLINE) with false by lia. replace ((b =? SPACE) || (b =? TAB)) with false by lia. done.
Qed.
Lemma feed_all_point p t kd v : exists v', feed_all (concat (map escape p)) (mkLine t 1 kd true 0 v) = mkLine (foldl (fun t b => put b t) t p) 1 kd true 0 v'.
Proof.
  revert t v. induction p as [| b p IH]; intros t v; [by exists v |]. cbn [map concat foldl]. rewrite feed_all_app. destruct (feed_escape b t kd v) as [v1 ->]. apply IH.
Qed.
Lemma feed_all_kind bs t kd held v : forallb (fun b => negb (separates b)) bs = true -> (length kd <= 31)%nat ->
  feed_all bs (mkLine t 2 kd true held v) = mkLine t 2 (take 31 (kd ++ bs)) true held v.
Proof.
  revert kd. induction bs as [| b bs IH]; intros kd Hb Hk; [simpl; by rewrite app_nil_r, take_ge |]. simpl in Hb. apply andb_true_iff in Hb as [Hb Hbs]. unfold separates in Hb.
  rewrite feed_all_cons. unfold feed, plain. cbn [l_field l_kind]. change (2 =? 1) with false. change (2 =? 2) with true. cbn [andb].
  replace (b =? NEWLINE) with false by lia. replace ((b =? SPACE) || (b =? TAB)) with false by lia. unfold KIND, lenZ. destruct (Z.ltb_spec (Z.of_nat (length kd)) (32 - 1)); cbn [fst l_text l_kind l_any l_held l_value].
  - rewrite IH by (rewrite ?length_app; simpl; lia || done). by rewrite <- app_assoc.
  - rewrite IH by (done || lia). rewrite !take_app_le by lia. done.
Qed.
Lemma feed_all_rest bs t f kd any held v : forallb (fun b => negb (b =? NEWLINE)) bs = true -> 3 <= f -> exists f' any', feed_all bs (mkLine t f kd any held v) = mkLine t f' kd any' held v /\ 3 <= f' /\ (any = true -> any' = true).
Proof.
  revert f any. induction bs as [| b bs IH]; intros f any Hb Hf; [by exists f, any |]. simpl in Hb. apply andb_true_iff in Hb as [Hb Hbs]. rewrite feed_all_cons. unfold feed, plain. cbn [l_field].
  replace (f =? 1) with false by lia. replace (f =? 2) with false by lia. replace (b =? NEWLINE) with false by lia. cbn [andb].
  destruct (_ || _); cbn [fst l_text l_kind l_any l_held l_value];
    [destruct (IH (f + 1) true Hbs ltac:(lia)) as (f' & any' & -> & ? & ?) | destruct (IH f true Hbs Hf) as (f' & any' & -> & ? & ?)]; exists f', any'; auto.
Qed.
Lemma put_all p t : lenZ (t_bytes t) <= 4095 -> foldl (fun t b => put b t) t p = mkText (takeZ 4095 (t_bytes t ++ p)) (t_fits t && (lenZ (t_bytes t ++ p) <=? 4095)).
Proof.
  revert t. induction p as [| b p IH]; intros t Ht; cbn [foldl].
  - rewrite app_nil_r, takeZ_ge by done. replace (lenZ (t_bytes t) <=? 4095) with true by lia. rewrite andb_true_r. by destruct t.
  - unfold put at 2. change (POINT - 1) with 4095. destruct (Z.ltb_spec (lenZ (t_bytes t)) 4095).
    + rewrite IH by (cbn [t_bytes]; autorewrite with len; lia). cbn [t_bytes t_fits]. by rewrite <- app_assoc.
    + rewrite IH by done. cbn [t_bytes t_fits]. autorewrite with len. pose proof (lenZ_nonneg p). replace (lenZ (t_bytes t) + (1 + lenZ p) <=? 4095) with false by lia. rewrite andb_false_r. f_equal.
      unfold takeZ, lenZ in *. by rewrite !take_app_le by lia.
Qed.
(** What the provider should find. *)
Definition found (m : Mount) : Found := mkFound (lenZ (m_point m) <=? 4095) (takeZ 4095 (m_point m)) (take 31 (m_kind m)).
Lemma no_newline bs : forallb (fun b => negb (separates b)) bs = true -> forallb (fun b => negb (b =? NEWLINE)) bs = true.
Proof. rewrite !forallb_forall. intros Hb x Hx. specialize (Hb x Hx). unfold separates in Hb. lia. Qed.
Lemma escape_no_newline p : forallb (fun b => negb (b =? NEWLINE)) (concat (map escape p)) = true.
Proof.
  induction p as [| b p IH]; [done |]. cbn [map concat]. rewrite forallb_app, IH, andb_true_r. unfold escape. destruct (separates b || (b =? BACKSLASH)) eqn:Hs.
  - assert (b = SPACE \/ b = TAB \/ b = NEWLINE \/ b = BACKSLASH) as Hb by (unfold separates in Hs; lia). by destruct_or!; subst b.
  - unfold separates in Hs. simpl. lia.
Qed.
Lemma feed_space t f kd any v : feed_all [SPACE] (mkLine t f kd any 0 v) = mkLine t (f + 1) kd true 0 v.
Proof. unfold feed_all, feed, plain. cbn [foldl l_field l_held]. by destruct (f =? 1). Qed.
Lemma scan_line m r : mount_ok m -> exists l, scan line_new (line_of m ++ r) = (l, r, false) /\ l_any l = true /\ lenZ (t_bytes (l_text l)) <> 0 /\
  mkFound (t_fits (l_text l)) (t_bytes (l_text l)) (l_kind l) = found m.
Proof.
  intros (Hd & Hp & Hk & Hr). unfold line_of. rewrite <- !app_assoc.
  rewrite scan_app by (by apply no_newline). unfold line_new. destruct (feed_all_device (m_device m) (mkText [] true) [] false 0 0 Hd) as [any ->].
  rewrite scan_app, feed_space by done. change (0 + 1) with 1.
  rewrite scan_app by apply escape_no_newline. destruct (feed_all_point (m_point m) (mkText [] true) [] 0) as [v ->]. rewrite put_all by done. cbn [t_bytes t_fits andb]. rewrite !app_nil_l.
  rewrite scan_app, feed_space by done. change (1 + 1) with 2. rewrite scan_app by (by apply no_newline). rewrite feed_all_kind by (done || simpl; lia). rewrite app_nil_l.
  rewrite scan_app, feed_space by done. change (2 + 1) with 3.
  rewrite scan_app by done. destruct (feed_all_rest (m_rest m) (mkText (takeZ 4095 (m_point m)) (lenZ (m_point m) <=? 4095)) 3 (take 31 (m_kind m)) true 0 v Hr) as (f & any' & -> & Hf & Hany); [done |].
  cbn [app scan]. unfold feed, plain. cbn [l_field l_text l_kind l_any l_held l_value]. replace (f =? 1) with false by lia. change (NEWLINE =? NEWLINE) with true. cbn iota.
  eexists. split; [done |]. cbn [l_any l_text l_kind t_bytes t_fits]. split; [done |]. split; [| done]. autorewrite with len. destruct (m_point m) as [| b l]; [done |]. rewrite lenZ_cons. pose proof (lenZ_nonneg l). lia.
Qed.

(** ** The kernel
    [table] is the text of the mount table and [device_at] the device of the node that a path names, which stay what they are
    during a call; [file] is what a descriptor has still to give, [opened] are the descriptors in use. *)
Class VolumeLaws (K : Type) {C : VolumeCalls K} := {
  table : list Z; device_at : list Z -> option Z; file : K -> Z -> list Z; opened : K -> gset Z; interruptions : K -> nat;
  l_open k k' r : v_open k = (k', r) ->
    match r with
    | Ok fd => fd ∉ opened k /\ opened k' = opened k ∪ {[fd]} /\ file k' fd = table /\ (interruptions k' <= interruptions k)%nat
    | Err code => opened k' = opened k /\ (interruptions k' + (if (code =? EINTR)%Z then 1 else 0) <= interruptions k)%nat
    end;
  l_read fd count k k' r : v_read fd count k = (k', r) -> opened k' = opened k /\
    match r with
    | Ok bytes => file k fd = bytes ++ file k' fd /\ (bytes = [] -> file k fd = []) /\ (interruptions k' <= interruptions k)%nat
    | Err code => code = EINTR /\ file k' fd = file k fd /\ (interruptions k' < interruptions k)%nat
    end;
  l_close fd k : opened (v_close fd k) = opened k ∖ {[fd]};
  l_statvfs path k k' r : v_statvfs path k = (k', r) -> opened k' = opened k /\
    (interruptions k' + match r with Err code => if (code =? EINTR)%Z then 1 else 0 | Ok _ => 0 end <= interruptions k)%nat;
  l_device path k k' r : v_device path k = (k', r) -> opened k' = opened k /\ file k' = file k /\
    (interruptions k' + match r with Err code => if (code =? EINTR)%Z then 1 else 0 | Ok _ => 0 end <= interruptions k)%nat /\
    match r with Ok d => device_at path = Some d | Err code => code = EINTR \/ device_at path = None end;
}.

Section Proofs.
Context {K : Type} {C : VolumeCalls K} {L : VolumeLaws K}.
Implicit Types (k : K) (t : Table).
Definition unread t k : list Z := left t ++ file k (fd t).
(** What a use of the table leaves alone. *)
Definition calm t k t' k' : Prop := fd t' = fd t /\ opened k' = opened k /\ (interruptions k' <= interruptions k)%nat.
Lemma byte_spec rounds t k : (interruptions k < rounds)%nat -> exists t' k', calm t k t' k' /\ byte rounds t k = Returned k' (Ok (t', head (unread t k))) /\ unread t' k' = tail (unread t k).
Proof.
  unfold byte. revert t k. induction rounds as [| rounds IH]; intros t k Hr; [lia |].
  destruct t as [d [| b l]]; [| exists (mkTable d l), k; cbn [byte_loop left fd]; by split_and!]. cbn [byte_loop left fd].
  destruct (v_read d BUFFER k) as [k1 x] eqn:E. apply l_read in E as [Ho E]. destruct x as [[| b l] | code].
  - destruct E as (E1 & E2 & Hi). exists (mkTable d []), k1. unfold unread, calm. cbn [left fd app] in *. rewrite (E2 eq_refl) in *. by split_and!.
  - destruct E as (E1 & _ & Hi). exists (mkTable d l), k1. unfold unread, calm. cbn [left fd app] in *. rewrite E1. split_and!; try done. by destruct rounds.
  - destruct E as (-> & E1 & Hi). change (EINTR =? EINTR) with true. cbn iota. destruct (IH (mkTable d []) k1) as (t' & k' & (H1 & H2 & H3) & H4 & H5); [lia |]. exists t', k'.
    unfold unread, calm in *. cbn [left fd app] in *. rewrite E1 in *. split_and!; try done; [congruence | lia].
Qed.
Lemma calm_trans t k t1 k1 t2 k2 : calm t k t1 k1 -> calm t1 k1 t2 k2 -> calm t k t2 k2.
Proof. unfold calm. intros (? & ? & ?) (? & ? & ?). split_and!; [congruence | congruence | lia]. Qed.
Lemma line_loop_spec rounds fuel l t k : (interruptions k < rounds)%nat -> (length (unread t k) < fuel)%nat -> exists t' k', calm t k t' k' /\
  let '(l', r, ended) := scan l (unread t k) in line_loop rounds fuel l t k = Returned k' (Ok (t', l', ended)) /\ unread t' k' = r.
Proof.
  revert l t k. induction fuel as [| fuel IH]; intros l t k Hr Hf; [lia |]. destruct (byte_spec rounds t k Hr) as (t1 & k1 & Hc & Hb & Hu). cbn [line_loop]. unfold then_. rewrite Hb.
  destruct (unread t k) as [| b bs]; cbn [head tail] in *; [exists t1, k1; cbn [scan]; by split_and! |]. cbn [scan]. destruct (feed b l) as [l1 ended]. destruct ended; [exists t1, k1; by split_and! |].
  destruct (IH l1 t1 k1) as (t2 & k2 & Hc2 & H2); [destruct Hc as (_ & _ & ?); lia | rewrite Hu; simpl in Hf; lia |]. rewrite Hu in H2. exists t2, k2. split; [by eapply calm_trans |]. exact H2.
Qed.
Lemma line_of_nonempty m : (0 < length (line_of m))%nat.
Proof. unfold line_of. rewrite !length_app. simpl. lia. Qed.
Lemma mount_next_spec rounds fuel t k ms : Forall mount_ok ms -> (interruptions k < rounds)%nat -> (length (unread t k) < fuel)%nat -> unread t k = mounts_text ms -> exists t' k', calm t k t' k' /\
  next rounds fuel t k = Returned k' (Ok (t', found <$> head ms)) /\ unread t' k' = mounts_text (tail ms).
Proof.
  intros Hms Hr Hf Hu. destruct (line_loop_spec rounds fuel line_new t k Hr Hf) as (t1 & k1 & Hc & H1). unfold next. destruct fuel as [| fuel]; [lia |]. cbn [next_loop]. unfold then_.
  rewrite Hu in H1. destruct ms as [| m ms].
  - change (scan line_new (mounts_text [])) with (line_new, @nil Z, true) in H1. destruct H1 as [-> H1]. exists t1, k1. by split_and!.
  - apply Forall_cons_1 in Hms as [Hm Hms]. cbn [mounts_text map concat] in H1. destruct (scan_line m (concat (map line_of ms)) Hm) as (l & Hs & Ha & Hne & Hf2). rewrite Hs in H1. destruct H1 as [-> H1].
    cbn [andb]. apply Z.eqb_neq in Hne. rewrite Hne. cbn [negb]. exists t1, k1. split; [done |]. split; [by rewrite Hf2 | done].
Qed.
Lemma mounts_text_length m ms : (length (mounts_text ms) < length (mounts_text (m :: ms)))%nat.
Proof. unfold mounts_text. cbn [map concat]. rewrite length_app. pose proof (line_of_nonempty m). lia. Qed.
Definition expected (ms : list Mount) (index : nat) (capacity : Z) : Result (Z * option (list Z)) :=
  match ms !! index with
  | None => Err ENotFound
  | Some m => if lenZ (m_point m) <=? 4095 then Ok (lenZ (m_point m) + 1, if lenZ (m_point m) + 1 <=? capacity then Some (m_point m ++ [0]) else None) else Err EOs
  end.
Lemma entry_loop_spec rounds fuel mounts index capacity t k ms : Forall mount_ok ms -> (interruptions k < rounds)%nat -> (length (unread t k) < fuel)%nat -> (length (unread t k) < mounts)%nat -> unread t k = mounts_text ms ->
  exists k', opened k' = opened k /\ entry_loop rounds fuel mounts index capacity t k = Returned k' (expected ms index capacity).
Proof.
  revert index t k ms. induction mounts as [| mounts IH]; intros index t k ms Hms Hr Hf Hm Hu; [lia |]. cbn [entry_loop]. unfold then_.
  destruct (mount_next_spec rounds fuel t k ms Hms Hr Hf Hu) as (t1 & k1 & (_ & Ho & Hi) & -> & Hu1). destruct ms as [| m ms]; cbn [head fmap option_fmap option_map]; [exists k1; by destruct index |].
  destruct index as [| index].
  - exists k1. split; [done |]. unfold expected. cbn [lookup list_lookup]. cbn [found found_fits found_point]. destruct (Z.leb_spec (lenZ (m_point m)) 4095); [| done]. rewrite takeZ_ge by done. done.
  - apply Forall_cons_1 in Hms as [_ Hms]. pose proof (mounts_text_length m ms). cbn [tail] in Hu1. rewrite Hu in Hf, Hm. destruct (IH index t1 k1 ms) as (k2 & Ho2 & ->); try done; [lia | rewrite Hu1; lia | rewrite Hu1; lia |]. exists k2. split; [congruence | done].
Qed.
Lemma open_spec rounds k : (interruptions k < rounds)%nat -> exists k' r, open rounds k = Returned k' r /\ (interruptions k' <= interruptions k)%nat /\
  match r with Ok t => fd t ∉ opened k /\ opened k' = opened k ∪ {[fd t]} /\ unread t k' = table | Err _ => opened k' = opened k end.
Proof.
  unfold open. revert k. induction rounds as [| rounds IH]; intros k Hr; [lia |]. cbn [open_loop]. destruct (v_open k) as [k1 [d | code]] eqn:E; apply l_open in E.
  - destruct E as (H1 & H2 & H3 & H4). eexists _, _. split; [done |]. split; [done |]. by split_and!.
  - destruct E as [H1 H2]. destruct (code =? EINTR); [| eexists _, _; split; [done |]; split; [lia | done]].
    destruct (IH k1) as (k2 & r & -> & H3 & H4); [lia |]. eexists _, _. split; [done |]. split; [lia |]. by rewrite H1 in H4.
Qed.
(** C30: When the mount table is the text that the kernel writes for a list of mounts, whatever bytes their points have, an entry
    of the provider is the mount with that index: its point, whole, with the text contract, or a failure when no path of the
    contract is that long; behind the last mount there is nothing; and the table is closed again.  The reads may cut the text
    anywhere and be interrupted. *)
Theorem mount_points_read_back rounds fuel index capacity k ms : Forall mount_ok ms -> table = mounts_text ms ->
  (interruptions k < rounds)%nat -> (length (mounts_text ms) < fuel)%nat ->
  exists k' r, entry rounds fuel index capacity k = Returned k' r /\ opened k' = opened k /\
    (r = expected ms index capacity \/ exists k1 e, open rounds k = Returned k1 (Err e) /\ r = Err e).
Proof.
  intros Hms Ht Hr Hf. destruct (open_spec rounds k Hr) as (k1 & r & Ho & Hi & Hx). unfold entry, then_. rewrite Ho. destruct r as [t | e]; [| eexists _, _; split; [done |]; split; [done |]; right; eauto].
  destruct Hx as (Hfd & Hop & Hu). rewrite Ht in Hu. destruct (entry_loop_spec rounds fuel fuel index capacity t k1 ms) as (k2 & Ho2 & E); try done; [lia | by rewrite Hu | by rewrite Hu |].
  unfold dropping. rewrite E. eexists _, _. split; [done |]. split; [| by left]. rewrite l_close, Ho2, Hop. clear - Hfd. set_solver.
Qed.

(** *** The status of a path *)
Lemma space_loop_spec rounds name k : (interruptions k < rounds)%nat -> exists k' r, space_loop rounds name k = Returned k' r /\ opened k' = opened k /\ (interruptions k' <= interruptions k)%nat /\
  match r with Ok (space, device) => device_at name = Some device /\ exists k0 k1, v_statvfs name k0 = (k1, Ok space) | Err _ => True end.
Proof.
  revert k. induction rounds as [| rounds IH]; intros k Hr; [lia |]. cbn [space_loop].
  destruct (v_statvfs name k) as [k1 [space | code]] eqn:E; pose proof (l_statvfs _ _ _ _ E) as [Ho Hi]; cbn [interruptions] in Hi.
  - destruct (v_device name k1) as [k2 [device | code]] eqn:E2; apply l_device in E2 as (Ho2 & _ & Hi2 & Hd).
    + eexists _, _. split; [done |]. split; [congruence |]. split; [lia |]. split; [done |]. eauto.
    + destruct (code =? EINTR); [| eexists _, _; split; [done |]; split; [congruence |]; split; [lia | done]].
      destruct (IH k2) as (k3 & r & -> & H1 & H2 & H3); [lia |]. eexists _, _. split; [done |]. split; [congruence |]. split; [lia | done].
  - destruct (code =? EINTR); [| eexists _, _; split; [done |]; split; [congruence |]; split; [lia | done]].
    destruct (IH k1) as (k3 & r & -> & H1 & H2 & H3); [lia |]. eexists _, _. split; [done |]. split; [congruence |]. split; [lia | done].
Qed.
(** The type text of the last mount on the device. *)
Definition last_kind (device : Z) (ms : list Mount) (format : list Z) : list Z :=
  foldl (fun format m => if (lenZ (m_point m) <=? 4095) && bool_decide (device_at (m_point m) = Some device) then take 31 (m_kind m) else format) format ms.
Lemma format_loop_spec rounds fuel mounts device format t k ms : Forall mount_ok ms -> interruptions k = 0%nat -> (0 < rounds)%nat -> (length (unread t k) < fuel)%nat -> (length (unread t k) < mounts)%nat -> unread t k = mounts_text ms ->
  exists k', opened k' = opened k /\ format_loop rounds fuel mounts device format t k = Returned k' (Ok (last_kind device ms format)).
Proof.
  revert format t k ms. induction mounts as [| mounts IH]; intros format t k ms Hms Hz Hr Hf Hm Hu; [lia |]. cbn [format_loop].
  destruct (mount_next_spec rounds fuel t k ms Hms) as (t1 & k1 & (Hfd & Ho & Hi) & -> & Hu1); try done; [lia |]. destruct ms as [| m ms]; cbn [head fmap option_fmap option_map]; [by exists k1 |].
  apply Forall_cons_1 in Hms as [_ Hms]. pose proof (mounts_text_length m ms). cbn [tail] in Hu1. rewrite Hu in Hf, Hm. cbn [last_kind foldl found found_fits found_point found_kind].
  assert (forall format k2, interruptions k2 = 0%nat -> opened k2 = opened k -> unread t1 k2 = mounts_text ms -> exists k', opened k' = opened k /\ format_loop rounds fuel mounts device format t1 k2 = Returned k' (Ok (last_kind device ms format))) as Hon.
  { intros f2 k2 Hz2 Ho2 Hu2. destruct (IH f2 t1 k2 ms) as (k3 & H1 & H2); try done; [rewrite Hu2; lia | rewrite Hu2; lia |]. exists k3. split; [congruence | done]. }
  destruct (Z.leb_spec (lenZ (m_point m)) 4095); cbn [andb]; [| apply Hon; [lia | done | done]]. rewrite takeZ_ge by done.
  destruct (v_device (m_point m) k1) as [k2 x] eqn:E. apply l_device in E as (Ho2 & Hfile & Hi2 & Hd). assert (unread t1 k2 = mounts_text ms) as Hu2 by (unfold unread in *; by rewrite Hfile). destruct x as [d | code].
  - replace (bool_decide (device_at (m_point m) = Some device)) with (d =? device) by (rewrite Hd; case_bool_decide as Hb; [injection Hb as ->; apply Z.eqb_refl | apply Z.eqb_neq; congruence]).
    apply Hon; [lia | congruence | done].
  - destruct Hd as [-> | Hd]; [change (EINTR =? EINTR) with true in Hi2; cbn iota in Hi2; lia |]. rewrite Hd. case_bool_decide; [done |]. apply Hon; [lia | congruence | done].
Qed.
Lemma bytes_Ok frsize blocks v : bytes frsize blocks = Ok v -> v = blocks * frsize /\ v <= u64_max.
Proof. unfold bytes. destruct (Z.ltb_spec u64_max (blocks * frsize)); [done |]. intros [= <-]. done. Qed.
(** The status of a path, where no signal interrupts the call, is what the kernel says of the file system: the block counts
    in bytes, none of them beyond 64 bits, and as format the type text of the last mount that lies on the device of the path
    and whose point the contract can carry, or none when the table cannot be opened; and the table is closed again. *)
Theorem volume_status_exact rounds fuel path k ms : Forall mount_ok ms -> table = mounts_text ms -> interruptions k = 0%nat -> (0 < rounds)%nat -> (length (mounts_text ms) < fuel)%nat ->
  exists k' r, status rounds fuel path k = Returned k' r /\ opened k' = opened k /\
    forall st, r = Ok st -> exists space device format k0 k1, v_statvfs path k0 = (k1, Ok space) /\ device_at path = Some device /\
      (format = last_kind device ms [] \/ format = [] /\ exists k2 k3 e, open rounds k2 = Returned k3 (Err e)) /\
      st = volume_status_new (f_blocks space * f_frsize space) (f_bfree space * f_frsize space) (f_bavail space * f_frsize space) format /\
      f_blocks space * f_frsize space <= u64_max /\ f_bfree space * f_frsize space <= u64_max /\ f_bavail space * f_frsize space <= u64_max.
Proof.
  intros Hms Ht Hz Hr Hf. unfold status. destruct (POINT <=? lenZ path); [by eexists _, _ |].
  destruct (space_loop_spec rounds path k) as (k1 & x & E & Ho & Hi & Hx); [lia |]. unfold then_ at 1. rewrite E. destruct x as [[space device] | e]; [| by eexists _, _]. destruct Hx as (Hd & k0 & k0' & Hs).
  destruct (open_spec rounds k1) as (k2 & y & Eo & Hi2 & Hy); [lia |].
  assert (exists k3 format, opened k3 = opened k /\ (format = last_kind device ms [] \/ format = [] /\ exists k2 k3 e, open rounds k2 = Returned k3 (Err e)) /\
    match open rounds k1 with Returned k (Ok t) => dropping t (format_loop rounds fuel fuel device [] t) k | Returned k (Err _) => Returned k (Ok []) | Undefined => Undefined | Waiting => Waiting end = Returned k3 (Ok format)) as (k3 & format & Ho3 & Hform & Eform).
  { rewrite Eo. destruct y as [t | e]; [| exists k2, []; split; [congruence |]; split; [right; split; [done | by eexists _, _, _] | done]].
    destruct Hy as (Hn & Hop & Hu). rewrite Ht in Hu. destruct (format_loop_spec rounds fuel fuel device [] t k2 ms) as (k3 & H1 & H2); try done; [lia | by rewrite Hu | by rewrite Hu |].
    exists (v_close (fd t) k3), (last_kind device ms []). unfold dropping. rewrite H2. split; [| split; [by left | done]]. rewrite l_close, H1, Hop, Ho. rewrite Ho in Hn. clear - Hn. set_solver. }
  unfold then_, of_result. rewrite Eform. eexists _, _. split; [done |]. split; [done |]. intros st Hst.
  destruct (bytes (f_frsize space) (f_blocks space)) as [total |] eqn:E1; [| done]. destruct (bytes (f_frsize space) (f_bfree space)) as [free |] eqn:E2; [| done]. destruct (bytes (f_frsize space) (f_bavail space)) as [available |] eqn:E3; [| done].
  apply bytes_Ok in E1 as [-> ?], E2 as [-> ?], E3 as [-> ?]. cbn [result_bind] in Hst. injection Hst as <-. exists space, device, format, k0, k0'. by split_and!.
Qed.
End Proofs.

(** ** A machine with two mounts, one of them with a space in its point *)
Module VolumesSample.
Definition sample_mounts : list Mount := [mkMount [100] [47] [101; 120; 116] [114; 119]; mkMount [101] [47; 97; 32; 92] [118; 102] [114; 111; 32; 48]].
Definition sample_device (path : list Z) : option Z := if bool_decide (path = [47]) then Some 1 else if bool_decide (path = [47; 97; 32; 92]) then Some 2 else None.
(** Where the reader is, if the table is open, and the interruptions to come.  A read gives three bytes at most. *)
Record Reader := mkReader { at_byte : option nat; to_come : nat }.
#[export] Instance calls : VolumeCalls Reader := {
  v_open k := match at_byte k with None => (mkReader (Some 0%nat) (to_come k), Ok 5) | Some _ => (k, Err EMFILE) end;
  v_read fd count k :=
    match to_come k with
    | S n => (mkReader (at_byte k) n, Err EINTR)
    | O => match at_byte k with Some p => if fd =? 5 then (mkReader (Some (p + 3)%nat) O, Ok (take 3 (drop p (mounts_text sample_mounts)))) else (k, Ok []) | None => (k, Ok []) end
    end;
  v_close fd k := if fd =? 5 then mkReader None (to_come k) else k;
  v_statvfs path k := (k, Ok (mkStatvfs 4096 100 40 50));
  v_device path k := (k, match sample_device path with Some d => Ok d | None => Err ENOENT end) }.
#[export] Instance laws : VolumeLaws Reader.
Proof.
  refine {| table := mounts_text sample_mounts; device_at := sample_device; interruptions := to_come;
    file k fd := match at_byte k with Some p => if fd =? 5 then drop p (mounts_text sample_mounts) else [] | None => [] end;
    opened k := match at_byte k with Some _ => {[5]} | None => ∅ end |}.
  - intros [[p |] n] k' r; simpl; intros [= <- <-]; simpl; [split; [done | lia] |]. split_and!; [set_solver | set_solver | done | lia].
  - intros fd count [[p |] [| n]] k' r; simpl; try (intros [= <- <-]; simpl; split_and!; (done || lia)). destruct (Z.eqb_spec fd 5) as [-> | Hne]; intros [= <- <-]; simpl; split; try done.
    split; [| split; [| lia]]; [rewrite <- drop_drop; symmetry; apply take_drop |]. intros Ht. by destruct (drop p (mounts_text sample_mounts)).
  - intros fd [[p |] n]; simpl; destruct (Z.eqb_spec fd 5); simpl; set_solver.
  - intros path k k' r [= <- <-]. split; [done | lia].
  - intros path k k' r [= <- <-]. split_and!; [done | done | destruct (sample_device path); simpl; lia |]. destruct (sample_device path); [done |]. by right.
Defined.
Definition closed : Reader := mkReader None 2.
Definition answer {A} (o : Outcome Reader A) : option (Result A) := match o with Returned _ r => Some r | _ => None end.
Example second_entry : answer (entry 3 60 1 10 closed) = Some (Ok (5, Some [47; 97; 32; 92; 0])).
Proof. vm_compute. reflexivity. Qed.
Example no_third_entry : answer (entry 3 60 2 10 closed) = Some (Err ENotFound).
Proof. vm_compute. reflexivity. Qed.
Lemma sample_table : table = mounts_text sample_mounts.
Proof. reflexivity. Qed.
Lemma sample_ok : Forall mount_ok sample_mounts.
Proof. repeat constructor; done. Qed.
End VolumesSample.
Import VolumesSample.
Lemma mount_points_read_back_witness : (length (mounts_text sample_mounts) < 60)%nat /\ expected sample_mounts 1 10 = Ok (5, Some [47; 97; 32; 92; 0]) /\
  exists k' r, entry 3 60 1 10 closed = Returned k' r /\ opened k' = opened closed /\ (r = expected sample_mounts 1 10 \/ exists k1 e, open 3 closed = Returned k1 (Err e) /\ r = Err e).
Proof.
  split; [vm_compute; lia |]. split; [vm_compute; reflexivity |].
  apply (mount_points_read_back 3 60 1 10 closed sample_mounts sample_ok sample_table); vm_compute; lia.
Defined.
Lemma volume_status_exact_witness : last_kind 2 sample_mounts [] = [118; 102] /\ exists k' r, status 1 60 [47; 97; 32; 92] (mkReader None 0) = Returned k' r /\ opened k' = opened (mkReader None 0).
Proof.
  split; [vm_compute; reflexivity |]. destruct (volume_status_exact 1 60 [47; 97; 32; 92] (mkReader None 0) sample_mounts sample_ok sample_table eq_refl) as (k' & r & H1 & H2 & _); [vm_compute; lia | vm_compute; lia |].
  exists k', r. exact (conj H1 H2).
Defined.
