(* ===== verification/LinuxFacts.v ===== *)
(** * LinuxFacts.v: system facts, accounts and the terminal of the Linux port

    [linux_system.rs], [linux_accounts.rs] and [linux_terminal.rs] of [src/crates/dotnet-pal-linux/src]: the environment block,
    names and times of the process and the machine; lookups in the account database, whose buffer doubles while it is too
    small; and the mode of the terminal, always derived from the settings it had first.

    The theorems: the entries of the environment are the well-formed ones, counted densely, and every text keeps the text
    contract ([environment_exact]); a lookup finds each account whose texts fit the largest buffer, returns, and gives every
    buffer back ([lookup_exact]); and after any sequence of changes the terminal has the mode of the last one that succeeded,
    as if it were the first ([modes_never_accumulate]). *)
From S2P Require Import Prelude Port Libc LinuxChildren Front Console Machine.
Import Errno.
Local Open Scope Z_scope.
Local Open Scope pal_scope.
Definition EBADF : Z := 9.
Definition ENOTTY : Z := 25.
Definition ERANGE : Z := 34.
(** One call of the kernel, whose error is looked at. *)
Definition once {K A} (m : M K Z A) : Call K (result Z A) := fun k => let '(k, r) := m k in Returned k (Ok r).

(** ** The system *)
Module System.
Definition TEXT_OS_NAME : Z := 2.
Definition TEXT_OS_RELEASE : Z := 3.
Definition TEXT_OS_VERSION : Z := 4.
Definition TEXT_USER_NAME : Z := 5.
Definition BUFFER : Z := 4096.
Definition deliver (text : list Z) (capacity : Z) : Result (Z * option (list Z)) :=
  if lenZ text =? 0 then Err EUnsupported else
  let needed := lenZ text + 1 in Ok (needed, if needed <=? capacity then Some (text ++ [0]) else None).
Definition nanoseconds (seconds fraction scale : Z) : Result Z :=
  if (seconds <? 0) || (fraction <? 0) then Err EOs else
  if u64_max <? seconds * 1000000000 then Err EOs else if u64_max <? fraction * scale then Err EOs else
  let v := seconds * 1000000000 + fraction * scale in if u64_max <? v then Err EOs else Ok v.
(** [environ] up to its terminator, as the texts of its entries. *)
Fixpoint environment_entry (environ : list (list Z)) (index : nat) (capacity : Z) : Result (Z * option (list Z)) :=
  match environ with
  | [] => Err ENotFound
  | text :: rest =>
      if named text then match index with O => deliver text capacity | S index => environment_entry rest index capacity end
      else environment_entry rest index capacity
  end.
Record Utsname := mkUtsname { sysname : list Z; release : list Z; version : list Z }.
Record User := mkUser { pw_name : option (list Z); pw_dir : option (list Z) }.
Class SystemCalls (K : Type) := {
  s_readlink : Z -> M K Z (list Z); s_uname : M K Z Utsname; s_getpwuid : Z -> M K Z (option User); s_usage : M K Z ((Z * Z) * (Z * Z)); s_boottime : M K Z (Z * Z); s_ids : K -> Z * Z;
}.
(** [CStr::from_bytes_until_nul] *)
Definition until_nul (bytes : list Z) : option (list Z) := (fun n => take n bytes) <$> byte_position 0 bytes.
Section Provider.
Context {K : Type} {C : SystemCalls K} (rounds : nat).
Definition user_text (what : Z) (u : User) (capacity : Z) : Result (Z * option (list Z)) :=
  match (if what =? TEXT_USER_NAME then pw_name u else pw_dir u) with Some field => deliver field capacity | None => Err EUnsupported end.
Definition text (what capacity : Z) : Call K (Z * option (list Z)) :=
  if what =? TEXT_EXECUTABLE_PATH then
    let* r := once (s_readlink BUFFER) in
    match r with
    | Err code => refuse_with (if code =? ENOENT then EUnsupported else EOs)
    | Ok path => if BUFFER <=? lenZ path then refuse_with EOs else of_result (deliver path capacity)
    end
  else if (what =? TEXT_OS_NAME) || (what =? TEXT_OS_RELEASE) || (what =? TEXT_OS_VERSION) then
    let* r := once s_uname in
    match r with
    | Err _ => refuse_with EOs
    | Ok names =>
        match until_nul (if what =? TEXT_OS_NAME then sysname names else if what =? TEXT_OS_RELEASE then release names else version names) with
        | Some text => of_result (deliver text capacity)
        | None => refuse_with EOs
        end
    end
  else if (what =? TEXT_USER_NAME) || (what =? TEXT_HOME_DIRECTORY) then fun k =>
    match again rounds (s_getpwuid BUFFER) k with
    | None => Waiting
    | Some (k, Ok (Some u)) => Returned k (user_text what u capacity)
    | Some (k, Ok None) => Returned k (Err EUnsupported)
    | Some (k, Err code) => Returned k (Err (if (code =? ENOENT) || (code =? ESRCH) then EUnsupported else EOs))
    end
  else refuse_with EInvalidArgument.
Definition process_times : Call K (Z * Z) :=
  let* r := once s_usage in
  match r with
  | Err _ => refuse_with EOs
  | Ok (user, system) => of_result (let? u := nanoseconds user.1 user.2 1000 in let? s := nanoseconds system.1 system.2 1000 in Ok (u, s))
  end.
Definition uptime_ns : Call K Z :=
  let* r := once s_boottime in match r with Err _ => refuse_with EOs | Ok t => of_result (nanoseconds t.1 t.2 1) end.
Definition user_ids : Call K (Z * Z) := fun k => Returned k (Ok (s_ids k)).
End Provider.

Lemma deliver_Ok text capacity needed stored : deliver text capacity = Ok (needed, stored) ->
  2 <= needed /\ needed = lenZ text + 1 /\ stored = if needed <=? capacity then Some (text ++ [0]) else None.
Proof. unfold deliver. pose proof (lenZ_nonneg text). destruct (Z.eqb_spec (lenZ text) 0); [done |]. intros [= <- <-]. split; [lia | done]. Qed.
Lemma named_nonempty entry : named entry = true -> lenZ entry =? 0 = false.
Proof. unfold named, byte_position. destruct entry as [| b l]; [done |]. intros _. rewrite lenZ_cons. pose proof (lenZ_nonneg l). lia. Qed.
(** The environment as the provider gives it is the entries of the block that have a name and a value, in their order and with
    every index from zero used: an entry is given whole with its terminator when it fits and by its length otherwise, and
    the index behind the last one is the end. *)
Theorem environment_exact environ index capacity :
  environment_entry environ index capacity =
  match base.filter (fun text => named text = true) environ !! index with
  | Some text => Ok (lenZ text + 1, if lenZ text + 1 <=? capacity then Some (text ++ [0]) else None)
  | None => Err ENotFound
  end.
Proof.
  revert index. induction environ as [| text rest IH]; intros index; [by destruct index |]. cbn [environment_entry].
  destruct (named text) eqn:Hn; [rewrite filter_cons_True by done | rewrite filter_cons_False by congruence; apply IH].
  destruct index as [| index]; [| apply IH]. cbn [lookup list_lookup]. unfold deliver. by rewrite named_nonempty.
Qed.
End System.

(** ** Accounts *)
Module Accounts.
Definition STRINGS : Z := 1024.
Definition LIMIT : Z := 1048576.
Record Passwd := mkPasswd { p_uid : Z; p_gid : Z; p_name : option (list Z); p_dir : option (list Z); p_shell : option (list Z) }.
Inductive Query := ById (uid : Z) | ByName (name : list Z).
Class AccountCalls (K : Type) := {
  a_malloc : Z -> K -> K * Z; a_free : Z -> K -> K;
  (** [getpwuid_r] and [getpwnam_r] with a buffer of that size: an entry, none, or an error number. *)
  a_query : Query -> Z -> M K Z (option Passwd);
  a_getgroups : Z -> M K Z (list Z); a_count_groups : M K Z Z; a_getgrouplist : list Z -> Z -> Z -> K -> K * (list Z * Z * bool * Z);
}.
Definition text_of (field : option (list Z)) : list Z := default [] field.
Definition account (p : Passwd) : Result Account := ok_or (account_new (p_uid p) (p_gid p) (text_of (p_name p)) (text_of (p_dir p)) (text_of (p_shell p))) EOs.
Definition terminated (name : list Z) : Result (list Z) :=
  if (lenZ name =? 0) || (MAX_ACCOUNT_NAME <? lenZ name) || existsb (fun b => b =? 0) name then Err EInvalidArgument else Ok name.
Section Provider.
Context {K : Type} {C : AccountCalls K} (rounds : nat).
(** The loop of [lookup]: a turn for each size. *)
Fixpoint lookup_loop {T} (fuel : nat) (size : Z) (query : Query) (convert : Passwd -> Result T) : Call K T :=
  match fuel with
  | O => fun _ => Waiting
  | S fuel => fun k =>
      let '(k, strings) := a_malloc size k in
      if strings =? 0 then Returned k (Err EOutOfMemory) else
      match again rounds (a_query query size) k with
      | None => Waiting
      | Some (k, r) =>
          let answer := match r with Ok (Some p) => Some (convert p) | _ => None end in
          let code := match r with Err code => code | Ok _ => 0 end in
          let k := a_free strings k in
          match answer with
          | Some answer => Returned k answer
          | None =>
              if (code =? ERANGE) && (size <? LIMIT) then lookup_loop fuel (size * 2) query convert k else
              Returned k (Err (if (code =? 0) || (code =? ENOENT) || (code =? ESRCH) || (code =? EBADF) || (code =? EPERM) then ENotFound else if code =? ENOMEM then EOutOfMemory else EOs))
          end
      end
  end.
(** From 1 KiB to 1 MiB there are eleven sizes. *)
Definition lookup {T} (query : Query) (convert : Passwd -> Result T) : Call K T := lookup_loop 11 STRINGS query convert.
Definition user_by_id (uid : Z) : Call K Account := lookup (ById uid) account.
Definition user_by_name (name : list Z) : Call K Account := let* name := of_result (terminated name) in lookup (ByName name) account.
Definition to_int (capacity : Z) : Result Z := if capacity <=? i32_max then Ok capacity else Err EInvalidArgument.
Fixpoint groups_loop (fuel : nat) (given : Z) : Call K (Z * list Z) :=
  match fuel with
  | O => fun _ => Waiting
  | S fuel =>
      let* r := once a_count_groups in
      match r with
      | Err _ => refuse_with EOs
      | Ok count =>
          if (given <? count) || (count =? 0) then give (count, []) else
          let* r := once (a_getgroups given) in
          match r with Ok groups => give (lenZ groups, groups) | Err code => if code =? EINVAL then groups_loop fuel given else refuse_with EOs end
      end
  end.
Definition process_groups (capacity : Z) : Call K (Z * list Z) := let* given := of_result (to_int capacity) in groups_loop rounds given.
(** [getgrouplist] answers the groups it stored, the count, whether it failed, and [errno]. *)
Definition user_groups (name : list Z) (primary_group capacity : Z) : Call K (Z * list Z) :=
  let* name := of_result (terminated name) in
  let* given := of_result (to_int capacity) in
  let* _ := lookup (ByName name) (fun _ => Ok tt) in fun k =>
  let '(k, (groups, count, failed, code)) := a_getgrouplist name primary_group given k in
  Returned k (if failed && (count <=? given) then Err (if code =? ENOMEM then EOutOfMemory else EOs) else
              if count <? 0 then Err EOs else Ok (count, if capacity =? 0 then [] else groups)).
End Provider.

(** The account database: the entry that a query finds, with the size that its texts need. *)
Class AccountLaws (K : Type) {C : AccountCalls K} := {
  blocks : K -> gset Z; entry : Query -> option (Passwd * Z); interruptions : K -> nat;
  l_malloc size k k' p : a_malloc size k = (k', p) -> interruptions k' = interruptions k /\ if decide (p = 0) then blocks k' = blocks k else p ∉ blocks k /\ blocks k' = blocks k ∪ {[p]};
  l_free p k : blocks (a_free p k) = blocks k ∖ {[p]} /\ interruptions (a_free p k) = interruptions k;
  l_query q size k k' r : a_query q size k = (k', r) -> blocks k' = blocks k /\
    match r with
    | Ok found => (interruptions k' <= interruptions k)%nat /\ match entry q with Some (p, needed) => needed <= size /\ found = Some p | None => found = None end
    | Err code => (code = EINTR /\ interruptions k' < interruptions k \/ code = ERANGE /\ interruptions k' <= interruptions k)%nat /\
        (code = ERANGE -> match entry q with Some (_, needed) => size < needed | None => False end)
    end;
}.
Section Lookup.
Context {K : Type} {C : AccountCalls K} {L : AccountLaws K}.
Lemma query_again rounds q size k : (interruptions k < rounds)%nat -> exists k' r, again rounds (a_query q size) k = Some (k', r) /\ blocks k' = blocks k /\ (interruptions k' <= interruptions k)%nat /\
  match entry q with Some (p, needed) => if needed <=? size then r = Ok (Some p) else r = Err ERANGE | None => r = Ok None end.
Proof.
  revert k. induction rounds as [| rounds IH]; intros k Hr; [lia |]. cbn [again]. destruct (a_query q size k) as [k1 [x | code]] eqn:E; apply l_query in E as [Hb E].
  - destruct E as [Hi E]. exists k1, (Ok x). split; [done |]. split; [done |]. split; [done |]. destruct (entry q) as [[p needed] |]; [| by rewrite E]. destruct E as [Hn ->]. by replace (needed <=? size) with true by lia.
  - destruct E as [[[-> Hi] | [-> Hi]] He].
    + change (EINTR =? EINTR) with true. cbn iota. destruct (IH k1) as (k2 & r & -> & H1 & H2 & H3); [lia |]. exists k2, r. split; [done |]. split; [congruence |]. split; [lia | done].
    + change (ERANGE =? EINTR) with false. cbn iota. exists k1, (Err ERANGE). split; [done |]. split; [done |]. split; [done |]. specialize (He eq_refl). destruct (entry q) as [[p needed] |]; [| done]. by replace (needed <=? size) with false by lia.
Qed.
(** The answer of a lookup when there is memory for every buffer. *)
Definition looked_up {T} (q : Query) (convert : Passwd -> Result T) : Result T :=
  match entry q with Some (p, needed) => if needed <=? LIMIT then convert p else Err EOs | None => Err ENotFound end.
Lemma lookup_loop_spec {T} rounds fuel q (convert : Passwd -> Result T) k : (fuel < 11)%nat -> (interruptions k < rounds)%nat ->
  exists k' r, lookup_loop rounds (S fuel) (LIMIT / 2 ^ Z.of_nat fuel) q convert k = Returned k' r /\ blocks k' = blocks k /\ (r = looked_up q convert \/ r = Err EOutOfMemory).
Proof.
  revert k. induction fuel as [| fuel IH]; intros k Hf Hr; cbn [lookup_loop].
  all: set (size := LIMIT / _); destruct (a_malloc size k) as [k1 p] eqn:E; apply l_malloc in E as [Hi E]; destruct (Z.eqb_spec p 0) as [-> | Hp]; [rewrite decide_True in E by done; eexists _, _; split; [done |]; auto |].
  all: rewrite decide_False in E by done; destruct E as [Hn Hb]; destruct (query_again rounds q size k1) as (k2 & r & -> & Hb2 & Hi2 & Hx); [lia |].
  all: pose proof (l_free p k2) as [Hf1 Hf2]; assert (blocks (a_free p k2) = blocks k) as Hfree by (rewrite Hf1, Hb2, Hb; clear - Hn; set_solver).
  - change size with LIMIT in *. unfold looked_up. destruct (entry q) as [[pw needed] |]; [destruct (needed <=? LIMIT) |]; subst r; eexists _, _; (split; [done |]); (split; [done |]); by left.
  - assert (size < LIMIT /\ size * 2 = LIMIT / 2 ^ Z.of_nat fuel) as [Hlt Hdouble].
    { subst size. clear - Hf. do 10 (destruct fuel as [| fuel]; [done |]). lia. }
    unfold looked_up. destruct (entry q) as [[pw needed] |] eqn:Eq; [| subst r; eexists _, _; (split; [done |]); (split; [done |]); by left].
    destruct (Z.leb_spec needed size); subst r; [replace (needed <=? LIMIT) with true by lia; eexists _, _; (split; [done |]); (split; [done |]); by left |].
    change (ERANGE =? ERANGE) with true. replace (size <? LIMIT) with true by lia. cbn [andb]. rewrite Hdouble. destruct (IH (a_free p k2)) as (k3 & r & E3 & Hb3 & Hr3); [lia | lia |]. cbn [lookup_loop] in E3. rewrite E3.
    eexists _, _. split; [done |]. split; [congruence |]. unfold looked_up in Hr3. by rewrite Eq in Hr3.
Qed.
(** A lookup in the account database returns, with the account that the database has when its texts fit a buffer of one
    mebibyte, a failure when they do not, and nothing found when there is none, however often it is interrupted, or with
    out of memory; every buffer it took is given back. *)
Theorem lookup_exact {T} rounds q (convert : Passwd -> Result T) k : (interruptions k < rounds)%nat ->
  exists k' r, lookup rounds q convert k = Returned k' r /\ blocks k' = blocks k /\
    (r = match entry q with Some (p, needed) => if needed <=? LIMIT then convert p else Err EOs | None => Err ENotFound end \/ r = Err EOutOfMemory).
Proof. intros Hr. apply (lookup_loop_spec rounds 10 q convert k); [lia | done]. Qed.
End Lookup.
End Accounts.

(** ** The terminal *)
Module Terminal.
Definition VERASE : nat := 2.
Definition VEOF : nat := 4.
Definition VTIME : nat := 5.
Definition VMIN : nat := 6.
Definition VEOL : nat := 11.
Definition VEOL2 : nat := 16.
Definition VDISABLE : Z := 0.
Definition INPUT_FLAGS : Z := 5568.
Definition LOCAL_FLAGS : Z := 32778.
Definition ISIG : Z := 1.
Definition CONTROL_END_OF_LINE : Z := 2.
Definition CONTROL_END_OF_LINE_2 : Z := 3.
Record Termios := mkTermios { c_iflag : Z; c_oflag : Z; c_cflag : Z; c_lflag : Z; c_cc : list Z }.
Class TerminalCalls (K : Type) := { t_getattr : M K Z Termios; t_setattr : Termios -> M K Z unit; t_winsize : Z -> M K Z (Z * Z); t_poll : M K Z Z }.
Definition failure (code : Z) : Error := if (code =? ENOTTY) || (code =? EINVAL) then ENotFound else EOs.
(** [ORIGINAL]: the settings of state 2, or none of state 0; the claim of state 1 is held by the call that reads them. *)
Record Screen (K : Type) := mkScreen { t_os : K; original_settings : option Termios }.
Arguments mkScreen {K} _ _.
Arguments t_os {K} _.
Arguments original_settings {K} _.
(** The settings of a mode, from those the terminal had first. *)
Definition derived (raw : bool) (min_bytes timeout_ds : Z) (interrupt_as_input : bool) (s : Termios) : Termios :=
  let s := if raw then mkTermios (Z.land (c_iflag s) (Z.lnot INPUT_FLAGS)) (c_oflag s) (c_cflag s) (Z.land (c_lflag s) (Z.lnot LOCAL_FLAGS)) (<[VTIME := timeout_ds]> (<[VMIN := min_bytes]> (c_cc s))) else s in
  mkTermios (c_iflag s) (c_oflag s) (c_cflag s) (if interrupt_as_input then Z.land (c_lflag s) (Z.lnot ISIG) else Z.lor (c_lflag s) ISIG) (c_cc s).
Section Provider.
Context {K : Type} {C : TerminalCalls K} (rounds : nat).
Notation Screen := (Screen K).
Definition put_os (k : K) (n : Screen) : Screen := mkScreen k (original_settings n).
Definition attributes : Call Screen Termios := fun n =>
  let '(k, r) := t_getattr (t_os n) in Returned (put_os k n) (match r with Ok s => Ok s | Err code => Err (failure code) end).
Definition original : Call Screen Termios := fun n =>
  match original_settings n with
  | Some s => Returned n (Ok s)
  | None => match attributes n with Returned n (Ok s) => Returned (mkScreen (t_os n) (Some s)) (Ok s) | o => o end
  end.
Definition apply (s : Termios) : Call Screen unit := fun n =>
  match again rounds (t_setattr s) (t_os n) with
  | None => Waiting
  | Some (k, r) => Returned (put_os k n) (match r with Ok _ => Ok tt | Err code => Err (failure code) end)
  end.
Definition window_size (stream : Z) : Call Screen (Z * Z) := fun n =>
  let '(k, r) := t_winsize stream (t_os n) in Returned (put_os k n) (match r with Ok size => Ok size | Err code => Err (failure code) end).
Definition set_input_mode (raw : bool) (min_bytes timeout_ds : Z) (interrupt_as_input : bool) : Call Screen unit :=
  let* s := original in apply (derived raw min_bytes timeout_ds interrupt_as_input s).
Definition input_ready : Call Screen bool := fun n =>
  match again rounds t_poll (t_os n) with
  | None => Waiting
  | Some (k, r) => Returned (put_os k n) (match r with Ok count => Ok (0 <? count) | Err _ => Err EOs end)
  end.
Definition control_character (which : Z) : Call Screen Z :=
  match (if which =? CONTROL_ERASE then Some VERASE else if which =? CONTROL_END_OF_LINE then Some VEOL else if which =? CONTROL_END_OF_LINE_2 then Some VEOL2 else if which =? CONTROL_END_OF_FILE then Some VEOF else None) with
  | None => refuse_with EInvalidArgument
  | Some index => let* s := attributes in let value := default 0 (c_cc s !! index) in if value =? VDISABLE then refuse_with ENotFound else give value
  end.
End Provider.

(** [settings] of the terminal, which only this process changes. *)
Class TerminalLaws (K : Type) {C : TerminalCalls K} := {
  settings : K -> Termios;
  l_getattr k k' r : t_getattr k = (k', r) -> settings k' = settings k /\ forall s, r = Ok s -> s = settings k;
  l_setattr s k k' r : t_setattr s k = (k', r) -> settings k' = match r with Ok _ => s | Err _ => settings k end;
}.
Section Modes.
Context {K : Type} {C : TerminalCalls K} {L : TerminalLaws K} (rounds : nat).
Implicit Types n : Screen K.
Record Mode := mkMode { m_raw : bool; m_min : Z; m_timeout : Z; m_interrupt : bool }.
Definition mode_of (m : Mode) : Termios -> Termios := derived (m_raw m) (m_min m) (m_timeout m) (m_interrupt m).
(** The calls of [set_input_mode] in order, each with its answer. *)
Inductive changes : Screen K -> list (Mode * Result unit) -> Screen K -> Prop :=
| changes_none n : changes n [] n
| changes_more n l n1 m n2 r : changes n l n1 -> set_input_mode rounds (m_raw m) (m_min m) (m_timeout m) (m_interrupt m) n1 = Returned n2 r -> changes n (l ++ [(m, r)]) n2.
Definition last_mode (l : list (Mode * Result unit)) (s : Termios) : Termios := foldl (fun s' x => match x.2 with Ok _ => mode_of x.1 s | Err _ => s' end) s l.
Lemma last_mode_snoc l m r s : last_mode (l ++ [(m, r)]) s = match r with Ok _ => mode_of m s | Err _ => last_mode l s end.
Proof. unfold last_mode. rewrite foldl_app. by destruct r. Qed.
Lemma apply_settings s n n' r : apply rounds s n = Returned n' r -> original_settings n' = original_settings n /\ settings (t_os n') = match r with Ok _ => s | Err _ => settings (t_os n) end.
Proof.
  unfold apply. destruct (again rounds (t_setattr s) (t_os n)) as [[k x] |] eqn:E; [| done]. intros [= <- <-]. split; [done |]. cbn [t_os put_os]. revert E. generalize (t_os n). induction rounds as [| fuel IH]; intros k0; [done |].
  cbn [again]. destruct (t_setattr s k0) as [k1 [[] | code]] eqn:E; apply l_setattr in E; [intros [= <- <-]; done |]. destruct (code =? EINTR); [| intros [= <- <-]; done]. intros E2%IH. by rewrite E in E2.
Qed.
Lemma changes_settings n l n' : original_settings n = None -> changes n l n' -> settings (t_os n') = last_mode l (settings (t_os n)) /\
  (original_settings n' = Some (settings (t_os n)) \/ original_settings n' = None /\ Forall (fun x => exists e, x.2 = Err e) l).
Proof.
  intros Hn Hc. induction Hc as [n | n l n1 m n2 r Hc IH E]; [auto |]. specialize (IH Hn) as [Hs Ho]. rewrite last_mode_snoc. unfold set_input_mode in E.
  apply then_Returned in E as [(n3 & s & E1 & E) | (e & E1 & ->)].
  - apply apply_settings in E as [Ho2 Hs2]. assert (s = settings (t_os n) /\ original_settings n3 = Some (settings (t_os n)) /\ settings (t_os n3) = settings (t_os n1)) as (-> & Ho3 & Hs3).
    { unfold original in E1. destruct Ho as [Hsome | [Hnone Hall]]; [rewrite Hsome in E1; injection E1 as <- <-; done |]. rewrite Hnone in E1. unfold attributes in E1. destruct (t_getattr (t_os n1)) as [k [s0 | code]] eqn:Eg; [| done]. apply l_getattr in Eg as [Hk Hg].
      injection E1 as <- <-. cbn [t_os original_settings put_os]. assert (settings (t_os n1) = settings (t_os n)) as Hsame.
      { rewrite Hs. clear - Hall. induction l as [| x l IHl] using rev_ind; [done |]. apply Forall_app in Hall as [H1 H2]. apply Forall_cons_1 in H2 as [[e He] _]. destruct x as [m r]. simpl in He. subst r. rewrite last_mode_snoc. auto. }
      rewrite (Hg s0 eq_refl), Hsame. split_and!; [done | done | congruence]. }
    rewrite Ho2, Hs2, Ho3. split; [destruct r; [done | congruence] | by left].
  - unfold original in E1. destruct Ho as [Hsome | [Hnone Hall]]; [by rewrite Hsome in E1 |]. rewrite Hnone in E1. unfold attributes in E1. destruct (t_getattr (t_os n1)) as [k [s0 | code]] eqn:Eg; [done |]. apply l_getattr in Eg as [Hk _].
    injection E1 as <- <-. cbn [t_os original_settings put_os]. split; [congruence |]. right. split; [done |]. apply Forall_app. split; [done |]. constructor; [eauto | done].
Qed.
(** After any sequence of mode changes, failed ones among them, the terminal has the mode that the last successful change
    asked for, derived from the settings it had before the first one, and those settings when none succeeded: modes never
    accumulate, and going back to the line mode gives the first settings back but for the signal characters. *)
Theorem modes_never_accumulate n l n' : original_settings n = None -> changes n l n' -> settings (t_os n') = last_mode l (settings (t_os n)).
Proof. intros Hn Hc. by apply changes_settings in Hc as [? _]. Qed.
End Modes.
End Terminal.

(** ** A process with three entries in its environment, one account and a terminal *)
Module FactsSample.
Definition environ : list (list Z) := [[65; 61; 49]; [61; 66]; [67; 61]].
Example second_is_third : System.environment_entry environ 1 8 = Ok (3, Some [67; 61; 0]).
Proof. vm_compute. reflexivity. Qed.
(** The number of interruptions to come and the block in use, if any. *)
Record Database := mkDatabase { to_come : nat; block : bool }.
Definition root : Accounts.Passwd := Accounts.mkPasswd 0 0 (Some [114]) None (Some [47]).
#[export] Instance account_calls : Accounts.AccountCalls Database := {
  Accounts.a_malloc size k := if block k then (k, 0) else (mkDatabase (to_come k) true, 64); Accounts.a_free p k := if p =? 64 then mkDatabase (to_come k) false else k;
  Accounts.a_query q size k := match to_come k with S n => (mkDatabase n (block k), Err EINTR) | O => (k, match q with Accounts.ById uid => if uid =? 0 then if 3000 <=? size then Ok (Some root) else Err ERANGE else Ok None | _ => Ok None end) end;
  Accounts.a_getgroups given k := (k, Ok []); Accounts.a_count_groups k := (k, Ok 0); Accounts.a_getgrouplist name group given k := (k, ([], 0, false, 0)) }.
#[export] Instance account_laws : Accounts.AccountLaws Database.
Proof.
  refine {| Accounts.blocks k := if block k then {[64]} else ∅; Accounts.interruptions := to_come;
    Accounts.entry q := match q with Accounts.ById uid => if uid =? 0 then Some (root, 3000) else None | _ => None end |}.
  - intros size [n []] k' p; simpl; intros [= <- <-]; simpl; (split; [done |]); [done |]. split; set_solver.
  - intros p [n b]; simpl. destruct (Z.eqb_spec p 64) as [-> |]; simpl; (split; [| done]); destruct b; set_solver.
  - intros q size [[| n] b] k' r; simpl; intros [= <- <-]; simpl; (split; [done |]); [| split; [left; split; [done | lia] | done]]. destruct q as [uid |]; [| done]. destruct (uid =? 0); [| done].
    destruct (Z.leb_spec 3000 size); [done |]. split; [right; done | done].
Defined.
Example finds_root : match Accounts.user_by_id 3 0 (mkDatabase 2 false) with Returned _ (Ok a) => Some (user_id a, take 2 (a_name a)) | _ => None end = Some (0, [114; 0]).
Proof. vm_compute. reflexivity. Qed.
(** The terminal, whose first change fails. *)
Record Tty := mkTty { current : Terminal.Termios; busy : bool }.
#[export] Instance tty_calls : Terminal.TerminalCalls Tty := {
  Terminal.t_getattr k := (k, Ok (current k)); Terminal.t_setattr s k := if busy k then (mkTty (current k) false, Err 5) else (mkTty s false, Ok tt);
  Terminal.t_winsize stream k := (k, Ok (80, 25)); Terminal.t_poll k := (k, Ok 0) }.
#[export] Instance tty_laws : Terminal.TerminalLaws Tty.
Proof.
  refine {| Terminal.settings := current |}.
  - intros k k' r [= <- <-]. split; [done |]. by intros s [= <-].
  - intros s [c []] k' r; simpl; by intros [= <- <-].
Defined.
Definition first : Terminal.Termios := Terminal.mkTermios 1280 5 191 35387 (replicate 32 0).
Definition screen : Terminal.Screen Tty := Terminal.mkScreen (mkTty first true) None.
Definition raw : Terminal.Mode := Terminal.mkMode true 1 0 true.
Definition cooked : Terminal.Mode := Terminal.mkMode false 1 0 false.
Definition asked (m : Terminal.Mode) (n : Terminal.Screen Tty) : Terminal.Screen Tty * Result unit :=
  match Terminal.set_input_mode 1 (Terminal.m_raw m) (Terminal.m_min m) (Terminal.m_timeout m) (Terminal.m_interrupt m) n with Returned n r => (n, r) | _ => (n, Err EOs) end.
Definition screen1 := Eval vm_compute in (asked raw screen).1.
Definition screen2 := Eval vm_compute in (asked raw screen1).1.
Definition screen3 := Eval vm_compute in (asked cooked screen2).1.
Lemma sample_changes : Terminal.changes 1 screen [(raw, Err EOs); (raw, Ok tt); (cooked, Ok tt)] screen3.
Proof.
  apply (Terminal.changes_more 1 screen [(raw, Err EOs); (raw, Ok tt)] screen2 cooked); [| vm_compute; reflexivity].
  apply (Terminal.changes_more 1 screen [(raw, Err EOs)] screen1 raw); [| vm_compute; reflexivity]. apply (Terminal.changes_more 1 screen [] screen raw); [constructor | vm_compute; reflexivity].
Qed.
End FactsSample.
Import FactsSample.
Lemma lookup_exact_witness : exists k' r, Accounts.lookup 3 (Accounts.ById 0) Accounts.account (mkDatabase 2 false) = Returned k' r /\ Accounts.blocks k' = Accounts.blocks (mkDatabase 2 false).
Proof.
  assert (Accounts.interruptions (mkDatabase 2 false) < 3)%nat as Hlt by (simpl; lia).
  destruct (Accounts.lookup_exact 3 (Accounts.ById 0) Accounts.account (mkDatabase 2 false) Hlt) as (k' & r & H1 & H2 & _). exists k', r. exact (conj H1 H2).
Defined.
Lemma modes_never_accumulate_witness : Terminal.settings (Terminal.t_os screen3) = Terminal.last_mode [(raw, Err EOs); (raw, Ok tt); (cooked, Ok tt)] first /\
  Terminal.last_mode [(raw, Err EOs); (raw, Ok tt); (cooked, Ok tt)] first = first.
Proof. split; [exact (Terminal.modes_never_accumulate 1 screen _ screen3 eq_refl sample_changes) | vm_compute; reflexivity]. Defined.
