(* ===== verification/LinuxNetwork.v ===== *)
(** * LinuxNetwork.v: network interfaces of the Linux port

    [src/crates/dotnet-pal-linux/src/linux_network.rs]: the enumerations of the interfaces and of their addresses answer from one
    snapshot, taken anew by index 0 and read under a lock, the reverse lookup, and the memberships of
    multicast groups on the handles of [LinuxSockets].

    The theorems: the lists that a snapshot is made of fit the blocks that were allocated for them, name every interface once,
    and hold only what the front end accepts, each address under a listed interface ([interfaces_consistent]); a
    snapshot is replaced whole or kept, with the memory, the descriptors and the lists of the C library given back
    ([snapshot_replaced_whole]); and a membership asks the kernel only for a group that the socket carries
    ([membership_carried]). *)
From S2P Require Import Prelude Port Front Console Machine Net Libc LinuxSockets.
Import Errno.
Local Open Scope Z_scope.
Local Open Scope pal_scope.

Definition INTERFACE_UNKNOWN : Z := 0.
Definition INTERFACE_ETHERNET : Z := 1.
Definition INTERFACE_LOOPBACK : Z := 2.
Definition INTERFACE_WIRELESS : Z := 3.
Definition INTERFACE_POINT_TO_POINT : Z := 4.
Definition LINK_UNKNOWN : Z := 0.
Definition LINK_UP : Z := 1.
(** [<net/if.h>] and [<linux/if_arp.h>] *)
Definition IFF_UP : Z := 1.
Definition IFF_POINTOPOINT : Z := 16.
Definition IFF_RUNNING : Z := 64.
Definition IFF_MULTICAST : Z := 4096.
Definition ARPHRD_ETHER : Z := 1.
Definition ARPHRD_PPP : Z := 512.
Definition ARPHRD_TUNNEL : Z := 768.
Definition ARPHRD_TUNNEL6 : Z := 769.
Definition ARPHRD_LOOPBACK : Z := 772.
Definition ARPHRD_SIT : Z := 776.
Definition ARPHRD_IPGRE : Z := 778.
Definition ARPHRD_IP6GRE : Z := 823.
Definition EAI_NONAME : Z := -2.
Definition EAI_AGAIN : Z := -3.
Definition EAI_MEMORY : Z := -10.
Definition EAI_SYSTEM : Z := -11.
Definition COLON : Z := 58.
Definition IFNAMSIZ : Z := 16.
Definition NI_MAXHOST : Z := 1025.

(** ** An answer of [getifaddrs] *)
Inductive IfAddr := NoAddr | Link (hatype halen : Z) (addr : list Z) | Inet (octets : list Z) | Inet6 (octets : list Z) | OtherAddr.
Record Ifaddrs := mkIfaddrs { ifa_name : option (list Z); ifa_flags : Z; ifa_addr : IfAddr; ifa_netmask : option (Z * list Z) }.
Class NetCalls (K : Type) := {
  n_nametoindex : list Z -> K -> K * Z; n_mtu : Z -> list Z -> M K Z Z; n_open : list Z -> M K Z Z; n_read : Z -> Z -> M K Z (list Z); n_close : Z -> K -> K;
  n_access : list Z -> K -> K * bool; n_getifaddrs : M K Z (Z * list Ifaddrs); n_freeifaddrs : Z -> K -> K; n_calloc : Z -> K -> K * Z; n_free : Z -> K -> K;
  n_socket : Z -> M K Z Z; n_lock : K -> K * Z; n_unlock : K -> K; n_getnameinfo : list Z -> K -> K * (Z * Z * list Z);
}.
Definition SYSFS : list Z := [47; 115; 121; 115; 47; 99; 108; 97; 115; 115; 47; 110; 101; 116; 47].
Definition SPEED : list Z := [115; 112; 101; 101; 100].
Definition WIRELESS : list Z := [119; 105; 114; 101; 108; 101; 115; 115].
Definition sysfs (name leaf : list Z) : option (list Z) :=
  if existsb (fun b => b =? 47) name || (96 <=? lenZ SYSFS + lenZ name + 1 + lenZ leaf) then None else Some (SYSFS ++ name ++ [47] ++ leaf).
(** The digits of the file; [None] for another byte. *)
Fixpoint megabits (value : Z) (text : list Z) : option Z :=
  match text with
  | [] => Some value
  | b :: text => if (48 <=? b) && (b <=? 57) then megabits (saturating_add u64_max (Z.min u64_max (value * 10)) (b - 48)) text else if b =? 10 then Some value else None
  end.
Definition state (flags : Z) : Z :=
  let up := has flags IFF_UP in let running := has flags IFF_RUNNING in if up && running then LINK_UP else if negb up then LINK_DOWN else LINK_UNKNOWN.
Definition count_ones (b : Z) : Z := foldr (fun i n => (if Z.testbit b (Z.of_nat i) then 1 else 0) + n) 0 (seq 0 8).
Definition prefix (mask : option (Z * list Z)) (family host : Z) : Z :=
  match mask with
  | None => host
  | Some (f, bytes) => if negb (f =? family) then host else foldr (fun b n => count_ones b + n) 0 (take (if family =? AF_INET then 4%nat else 16%nat) bytes)
  end.
Definition if_label (label : list Z) : list Z := take (default (length label) (byte_position COLON label)) label.
Definition link_kind (hatype : Z) (is_wireless : bool) (kind : Z) : Z :=
  if hatype =? ARPHRD_LOOPBACK then INTERFACE_LOOPBACK else if hatype =? ARPHRD_ETHER then (if is_wireless then INTERFACE_WIRELESS else INTERFACE_ETHERNET) else
  if hatype =? ARPHRD_PPP then INTERFACE_POINT_TO_POINT else
  if (hatype =? ARPHRD_TUNNEL) || (hatype =? ARPHRD_TUNNEL6) || (hatype =? ARPHRD_SIT) || (hatype =? ARPHRD_IPGRE) || (hatype =? ARPHRD_IP6GRE) then INTERFACE_TUNNEL else kind.
Definition link_hardware (kind halen : Z) (addr : list Z) (i : Interface) : Interface :=
  let fits := halen <=? 8 in
  mkInterface (i_index i) kind (i_state i) (i_flags i) (mtu i) (if fits then halen else hardware_address_length i) (speed_bps i)
    (if fits then takeZ halen addr ++ dropZ halen (hardware_address i) else hardware_address i) (i_name i).
Definition link_scope (octets : list Z) (index : Z) : Z := if (at_ octets 0 =? 254) && (Z.land (at_ octets 1) 192 =? 128) then index else 0.

Section Fill.
Context {K : Type} {C : NetCalls K}.
Definition speed (name : list Z) (k : K) : K * Z :=
  match sysfs name SPEED with
  | None => (k, 0)
  | Some path =>
      match n_open path k with
      | (k, Err _) => (k, 0)
      | (k, Ok fd) =>
          let '(k, r) := n_read fd 32 k in
          let k := n_close fd k in
          (k, match megabits 0 (match r with Ok text => text | Err _ => [] end) with Some v => Z.min u64_max (v * 1000000) | None => 0 end)
      end
  end.
Definition wireless (name : list Z) (k : K) : K * bool := match sysfs name WIRELESS with Some path => n_access path k | None => (k, false) end.
Definition mtu_of (probe : Z) (name : list Z) (k : K) : K * Z :=
  if (probe <? 0) || (IFNAMSIZ <=? lenZ name) then (k, 0) else
  match n_mtu probe name k with (k, Err _) => (k, 0) | (k, Ok v) => (k, Z.max v 0) end.
(** An interface that is not in the list yet; [None] when the kernel no longer knows its name. *)
Definition new_interface (probe : Z) (name : list Z) (flags : Z) (k : K) : K * option Interface :=
  let '(k, index) := n_nametoindex name k in
  if index =? 0 then (k, None) else
  let kind := if has flags IFF_POINTOPOINT then INTERFACE_POINT_TO_POINT else INTERFACE_UNKNOWN in
  let multicast := if has flags IFF_MULTICAST then MULTICAST else 0 in
  let '(k, m) := mtu_of probe name k in
  let '(k, v) := speed name k in
  (k, Some (mkInterface index kind (state flags) multicast m 0 v (replicate 8 0) (field 64 name))).
Definition slot_of (name : list Z) (known : list Interface) : option nat := fst <$> list_find (fun i => i_name i = field 64 name) known.
(** The address of an entry, for the interface in slot [slot]. *)
Definition fill_address (e : Ifaddrs) (name : list Z) (slot : nat) (i : Interface) (known : list Interface) (addresses : list InterfaceAddress) (k : K) : K * (list Interface * list InterfaceAddress) :=
  match ifa_addr e with
  | Link hatype halen addr =>
      let '(k, w) := if hatype =? ARPHRD_ETHER then wireless name k else (k, false) in
      (k, (<[slot := link_hardware (link_kind hatype w (i_kind i)) halen addr i]> known, addresses))
  | Inet octets => (k, (known, addresses ++ [mkInterfaceAddress (i_index i) (prefix (ifa_netmask e) AF_INET 32) (v4 octets 0)]))
  | Inet6 octets => (k, (known, addresses ++ [mkInterfaceAddress (i_index i) (prefix (ifa_netmask e) AF_INET6 128) (v6 octets 0 (link_scope octets (i_index i)))]))
  | NoAddr | OtherAddr => (k, (known, addresses))
  end.
(** One entry of the answer. *)
Definition fill_entry (probe : Z) (x : K * (list Interface * list InterfaceAddress)) (e : Ifaddrs) : K * (list Interface * list InterfaceAddress) :=
  let '(k, (known, addresses)) := x in
  match ifa_name e with
  | None => x
  | Some label =>
      let name := if_label label in
      if (lenZ name =? 0) || (64 <=? lenZ name) then x else
      match slot_of name known with
      | Some slot => fill_address e name slot (default interface_EMPTY (known !! slot)) known addresses k
      | None =>
          match new_interface probe name (ifa_flags e) k with
          | (k, None) => (k, (known, addresses))
          | (k, Some i) => fill_address e name (length known) i (known ++ [i]) addresses k
          end
      end
  end.
Definition fill (probe : Z) (answer : list Ifaddrs) (k : K) : K * (list Interface * list InterfaceAddress) := foldl (fill_entry probe) (k, ([], [])) answer.

(** ** The snapshot *)
Record Snapshot := mkSnapshot { taken : bool; interface_block : Z; interfaces : list Interface; address_block : Z; addresses : list InterfaceAddress }.
Record Network1 := mkNetwork1 { n_os : K; snapshot : Snapshot }.
Definition snapshot_new : Snapshot := mkSnapshot false 0 [] 0 [].
Definition probe_socket (k : K) : K * Z :=
  match n_socket AF_INET k with (k, Ok fd) => (k, fd) | (k, Err _) => match n_socket AF_INET6 k with (k, Ok fd) => (k, fd) | (k, Err _) => (k, -1) end end.
Definition take_snapshot (n : Network1) : Network1 * Result unit :=
  match n_getifaddrs (n_os n) with
  | (k, Err code) => (mkNetwork1 k (snapshot n), Err (if code =? ENOMEM then EOutOfMemory else EOs))
  | (k, Ok (list, answer)) =>
      let entries := 1 + lenZ answer in
      let '(k, items) := n_calloc (entries * size_of_Interface) k in
      let '(k, found_at) := n_calloc (entries * size_of_InterfaceAddress) k in
      if (items =? 0) || (found_at =? 0) then (mkNetwork1 (n_freeifaddrs list (n_free found_at (n_free items k))) (snapshot n), Err EOutOfMemory) else
      let '(k, probe) := probe_socket k in
      let '(k, (known, found)) := fill probe answer k in
      let k := if 0 <=? probe then n_close probe k else k in
      let k := n_free (address_block (snapshot n)) (n_free (interface_block (snapshot n)) (n_freeifaddrs list k)) in
      (mkNetwork1 k (mkSnapshot true items known found_at found), Ok tt)
  end.
Definition entry {T} (index : nat) (items : Snapshot -> list T) (n : Network1) : Network1 * Result T :=
  let '(k, rc) := n_lock (n_os n) in
  let n := mkNetwork1 k (snapshot n) in
  if negb (rc =? 0) then (n, Err EOs) else
  let '(n, r) := if (index =? 0)%nat || negb (taken (snapshot n)) then take_snapshot n else (n, Ok tt) in
  (mkNetwork1 (n_unlock (n_os n)) (snapshot n), let? _ := r in ok_or (items (snapshot n) !! index) ENotFound).
Definition interface_entry (index : nat) : Network1 -> Network1 * Result Interface := entry index interfaces.
Definition address_entry (index : nat) : Network1 -> Network1 * Result InterfaceAddress := entry index addresses.
(** [getnameinfo] answers its code, [errno] and the text. *)
Fixpoint name_loop (rounds : nat) (raw : list Z) (k : K) : option (K * (Z * list Z)) :=
  match rounds with
  | O => None
  | S rounds => let '(k, (code, errno, host)) := n_getnameinfo raw k in if (code =? EAI_SYSTEM) && (errno =? EINTR) then name_loop rounds raw k else Some (k, (code, host))
  end.
Definition reverse_lookup (rounds : nat) (a : Address) (capacity : Z) : Call Network1 (Z * option (list Z)) :=
  let* raw := of_result (native a) in fun n =>
  match name_loop rounds raw (n_os n) with
  | None => Waiting
  | Some (k, (code, host)) => Returned (mkNetwork1 k (snapshot n)) (
      if code =? EAI_NONAME then Err ENotFound else if code =? EAI_AGAIN then Err ETimeout else if code =? EAI_MEMORY then Err EOutOfMemory else if negb (code =? 0) then Err EOs else
      if lenZ host =? 0 then Err ENotFound else Ok (lenZ host + 1, if lenZ host <? capacity then Some (host ++ [0]) else None))
  end.
End Fill.

(** ** Memberships *)
Section Membership.
Context {K : Type} {C : SocketCalls K}.
Definition IPV6_V6ONLY : Z := 26.
Definition IP_ADD_MEMBERSHIP : Z := 35.
Definition IP_DROP_MEMBERSHIP : Z := 36.
Definition IPV6_ADD_MEMBERSHIP : Z := 20.
Definition IPV6_DROP_MEMBERSHIP : Z := 21.
(** The 32-bit words of the bytes. *)
Fixpoint words (n : nat) (bytes : list Z) : list Z := match n with O => [] | S n => of_le (take 4 bytes) :: words n (drop 4 bytes) end.
Definition membership_error (code : Z) : Error :=
  if code =? EADDRINUSE then EAddressInUse else if code =? EADDRNOTAVAIL then EAddressNotAvailable else if code =? ENODEV then ENotFound else
  if (code =? EACCES) || (code =? EPERM) then EAccessDenied else if code =? ENOPROTOOPT then EUnsupported else if code =? EINVAL then EInvalidArgument else
  if (code =? ENOMEM) || (code =? ENOBUFS) then EOutOfMemory else EOs.
Definition carried (fd domain family : Z) : Call (Net K) bool :=
  if ((domain =? AF_INET) && (family =? IPV4)) || ((domain =? AF_INET6) && (family =? IPV6)) then give true else
  if (domain =? AF_INET6) && (family =? IPV4) then let* only := get fd IPPROTO_IPV6 IPV6_V6ONLY in give (at_ only 0 =? 0) else give false.
(** Level, name and value of the option. *)
Definition membership_request (group : Address) (interface_index : Z) (join : bool) : Z * Z * list Z :=
  if family group =? IPV4 then (IPPROTO_IP, if join then IP_ADD_MEMBERSHIP else IP_DROP_MEMBERSHIP, words 1 (address group) ++ [0; interface_index])
  else (IPPROTO_IPV6, if join then IPV6_ADD_MEMBERSHIP else IPV6_DROP_MEMBERSHIP, words 4 (address group) ++ [interface_index]).
Definition membership (socket : Z) (group : Address) (interface_index : Z) (join : bool) : Call (Net K) unit :=
  let* fd := descriptor socket in
  let* (stream, domain) := shape fd in
  let* carried := carried fd domain (family group) in
  if stream || negb carried then refuse_with EInvalidArgument else
  if i32_max <? interface_index then refuse_with ENotFound else
  let '(level, name, value) := membership_request group interface_index join in
  let* r := call (c_setsockopt fd level name value) in
  match r with Ok _ => give tt | Err code => refuse_with (membership_error code) end.
End Membership.
Arguments Network1 : clear implicits.

(** ** The lists *)
Section Lists.
Context {K : Type} {C : NetCalls K}.
(** The label of an entry is a C string. *)
Definition labelled (e : Ifaddrs) : Prop := forall label, ifa_name e = Some label -> Forall (fun b => b <> 0) label.
Record Inv (a b : nat) (known : list Interface) (addresses : list InterfaceAddress) : Prop := {
  i_names : NoDup (i_name <$> known); i_known : Forall (fun i => interface_consistent i = true) known;
  i_addresses : Forall (fun x => interface_address_consistent x = true /\ exists i, i ∈ known /\ i_index i = ia_index x) addresses;
  i_bounds : (length known <= a)%nat /\ (length addresses <= b)%nat }.
Lemma at_field n l i : (length l <= i < n)%nat -> at_ (field n l) i = 0.
Proof. intros Hi. unfold at_, field. rewrite lookup_app_r by lia. rewrite lookup_replicate_2 by lia. done. Qed.
Lemma count_ones_bound b : 0 <= count_ones b <= 8.
Proof. unfold count_ones. cbn [seq foldr]. repeat case_match; lia. Qed.
Lemma prefix_bound mask family host : (if family =? AF_INET then 32 else 128) = host -> prefix mask family host <= host.
Proof.
  intros <-. unfold prefix. destruct mask as [[f bytes] |]; [| lia]. destruct (negb (f =? family)); [lia |].
  assert (forall l, foldr (fun b n => count_ones b + n) 0 l <= 8 * lenZ l) as Hsum by (intros l; induction l as [| x l IH]; [done |]; cbn [foldr]; rewrite lenZ_cons; pose proof (count_ones_bound x); lia).
  specialize (Hsum (take (if family =? AF_INET then 4%nat else 16%nat) bytes)). unfold lenZ in Hsum. rewrite length_take in Hsum. destruct (family =? AF_INET); lia.
Qed.
Lemma link_kind_bound hatype w kind : kind <= INTERFACE_TUNNEL -> link_kind hatype w kind <= INTERFACE_TUNNEL.
Proof. unfold link_kind, INTERFACE_LOOPBACK, INTERFACE_WIRELESS, INTERFACE_ETHERNET, INTERFACE_POINT_TO_POINT, INTERFACE_TUNNEL. intros. repeat case_match; lia. Qed.
Lemma link_consistent hatype w halen addr i : interface_consistent i = true -> interface_consistent (link_hardware (link_kind hatype w (i_kind i)) halen addr i) = true.
Proof.
  unfold interface_consistent, link_hardware. cbn [i_index i_name i_kind i_state i_flags hardware_address_length]. intros Hi.
  pose proof (link_kind_bound hatype w (i_kind i)). destruct (Z.leb_spec halen 8); lia.
Qed.
Lemma address_listed x i (known : list Interface) : interface_address_consistent x = true -> i ∈ known -> i_index i = ia_index x -> forall addresses,
  Forall (fun x => interface_address_consistent x = true /\ exists i, i ∈ known /\ i_index i = ia_index x) addresses ->
  Forall (fun x => interface_address_consistent x = true /\ exists i, i ∈ known /\ i_index i = ia_index x) (addresses ++ [x]).
Proof. intros Hx Hi He addresses Ha. apply Forall_app. split; [done |]. constructor; [eauto | done]. Qed.
Lemma fill_address_inv a b e name slot i known addresses k k' known' addresses' : Inv a b known addresses -> known !! slot = Some i ->
  fill_address e name slot i known addresses k = (k', (known', addresses')) -> Inv a (S b) known' addresses'.
Proof.
  intros [Hn Hk Ha [Hb1 Hb2]] Hs. assert (interface_consistent i = true) as Hi by (rewrite Forall_lookup in Hk; by apply (Hk slot)). pose proof (list_elem_of_lookup_2 _ _ _ Hs) as Hin.
  assert (i_index i =? 0 = false) as Hz by (unfold interface_consistent in Hi; lia).
  unfold fill_address. destruct (ifa_addr e) as [| hatype halen addr | octets | octets |].
  - intros [= <- <- <-]. split; try done. lia.
  - destruct (if hatype =? ARPHRD_ETHER then wireless name k else (k, false)) as [k1 w]. intros [= <- <- <-]. split.
    + rewrite list_fmap_insert, list_insert_id; [done |]. cbn [i_name link_hardware]. by rewrite list_lookup_fmap, Hs.
    + apply Forall_insert; [done |]. by apply link_consistent.
    + eapply Forall_impl; [exact Ha |]. intros x [Hx (j & Hj & He)]. split; [done |]. apply list_elem_of_lookup in Hj as [m Hm]. destruct (decide (m = slot)) as [-> | Hne].
      * exists (link_hardware (link_kind hatype w (i_kind i)) halen addr i). split; [| by simplify_eq]. apply (list_elem_of_lookup_2 _ slot). apply list_lookup_insert_eq. by apply lookup_lt_Some in Hs.
      * exists j. split; [| done]. apply (list_elem_of_lookup_2 _ m). by rewrite list_lookup_insert_ne.
    + rewrite length_insert. lia.
  - intros [= <- <- <-]. split; try done; [| rewrite length_app; simpl; lia]. apply (address_listed _ i); try done. pose proof (prefix_bound (ifa_netmask e) AF_INET 32 eq_refl).
    unfold interface_address_consistent, ip_family, v4. cbn [ia_index ia_address family port prefix_length]. rewrite Hz. change (IPV4 =? IPV4) with true. cbn [orb negb Z.eqb]. lia.
  - intros [= <- <- <-]. split; try done; [| rewrite length_app; simpl; lia]. apply (address_listed _ i); try done. pose proof (prefix_bound (ifa_netmask e) AF_INET6 128 eq_refl).
    unfold interface_address_consistent, ip_family, v6. cbn [ia_index ia_address family port prefix_length]. rewrite Hz. change (IPV6 =? IPV6) with true. change (IPV6 =? IPV4) with false. cbn [orb negb Z.eqb]. lia.
  - intros [= <- <- <-]. split; try done. lia.
Qed.
Lemma new_interface_consistent probe name flags k k' i : Forall (fun b => b <> 0) name -> lenZ name <> 0 -> lenZ name < 64 -> new_interface probe name flags k = (k', Some i) ->
  interface_consistent i = true /\ i_name i = field 64 name.
Proof.
  intros Hb Hne Hl. unfold new_interface. destruct (n_nametoindex name k) as [k1 index]. destruct (Z.eqb_spec index 0); [done |]. destruct (mtu_of probe name k1) as [k2 m]. destruct (speed name k2) as [k3 v]. intros [= <- <-].
  split; [| done]. unfold interface_consistent. cbn [i_index i_name i_kind i_state i_flags hardware_address_length].
  assert (at_ (field 64 name) 63 = 0) as H63 by (apply at_field; unfold lenZ in Hl; lia). assert (at_ (field 64 name) 0 <> 0) as H0.
  { destruct name as [| b name]; [done |]. unfold at_, field. simpl. by apply Forall_cons_1 in Hb as [? _]. }
  rewrite H63. unfold state, LINK_UP, LINK_DOWN, LINK_UNKNOWN, INTERFACE_POINT_TO_POINT, INTERFACE_UNKNOWN, INTERFACE_TUNNEL.
  assert (Z.land (if has flags IFF_MULTICAST then MULTICAST else 0) (Z.lnot MULTICAST) = 0) as -> by (by destruct (has flags IFF_MULTICAST)). repeat case_match; lia.
Qed.
Lemma fill_entry_inv a probe e k known addresses k' known' addresses' : labelled e -> Inv a a known addresses ->
  fill_entry probe (k, (known, addresses)) e = (k', (known', addresses')) -> Inv (S a) (S a) known' addresses'.
Proof.
  intros He Hi. assert (Inv (S a) (S a) known addresses) as Hmore by (destruct Hi as [? ? ? []]; split; try done; lia).
  unfold fill_entry. destruct (ifa_name e) as [label |] eqn:El; [| by intros [= <- <- <-]]. destruct ((lenZ (if_label label) =? 0) || (64 <=? lenZ (if_label label))) eqn:Hl; [by intros [= <- <- <-] |].
  assert (Forall (fun b => b <> 0) (if_label label)) as Hb by (apply Forall_take; by apply He). unfold slot_of. destruct (list_find _ known) as [[slot i] |] eqn:Ef; cbn [fmap option_fmap option_map fst].
  - apply list_find_Some in Ef as (Hs & _ & _). rewrite Hs. cbn [default from_option id]. intros E. eapply fill_address_inv in E; [| exact Hi | exact Hs]. destruct E as [? ? ? []]; split; try done; lia.
  - apply list_find_None in Ef. destruct (new_interface probe (if_label label) (ifa_flags e) k) as [k1 [i |]] eqn:En; [| by intros [= <- <- <-]].
    apply new_interface_consistent in En as [Hc Hname]; [| done | lia | lia]. intros E. eapply (fill_address_inv (S a) a) in E; [exact E | | by rewrite lookup_app_r, Nat.sub_diag by lia].
    destruct Hi as [Hn Hk Ha [Hb1 Hb2]]. split.
    + rewrite fmap_app. apply NoDup_app. split; [done |]. split; [| apply NoDup_singleton]. intros x (j & -> & Hj)%list_elem_of_fmap Hx. apply list_elem_of_singleton in Hx. rewrite Hname in Hx. rewrite Forall_forall in Ef. by apply (Ef j Hj).
    + apply Forall_app. split; [done |]. by constructor.
    + eapply Forall_impl; [exact Ha |]. intros x [Hx (j & Hj & Hij)]. split; [done |]. exists j. split; [| done]. apply elem_of_app. by left.
    + rewrite length_app. simpl. lia.
Qed.
(** What a snapshot is made of, for any answer of the C library: no more interfaces and no more addresses than the answer has
    entries, so that both lists stay inside the blocks that were allocated for them; every interface once, with an index, a
    name, a kind and a state that the front end accepts; and every address with a prefix of its family under the index of an
    interface of the list. *)
Theorem interfaces_consistent probe answer k k' known addresses : Forall labelled answer -> fill probe answer k = (k', (known, addresses)) ->
  (length known <= length answer)%nat /\ (length addresses <= length answer)%nat /\ NoDup (i_name <$> known) /\ Forall (fun i => interface_consistent i = true) known /\
  Forall (fun x => interface_address_consistent x = true /\ exists i, i ∈ known /\ i_index i = ia_index x) addresses.
Proof.
  intros Hl Hf. assert (forall a k0 known0 addresses0, Inv a a known0 addresses0 -> foldl (fill_entry probe) (k0, (known0, addresses0)) answer = (k', (known, addresses)) -> Inv (a + length answer) (a + length answer) known addresses) as Hgo.
  { clear Hf. induction Hl as [| e answer He Hl IH]; intros a k0 known0 addresses0 Hi; cbn [foldl length]; [rewrite Nat.add_0_r; by intros [= <- <- <-] |].
    destruct (fill_entry probe (k0, (known0, addresses0)) e) as [k1 [known1 addresses1]] eqn:E. apply (fill_entry_inv a) in E; [| done | done]. intros Hf%(IH (S a)); [| done]. by replace (a + S (length answer))%nat with (S a + length answer)%nat by lia. }
  destruct (Hgo 0%nat k [] []) as [H1 H2 H3 [H4 H5]]; [by split; [apply NoDup_nil_2 | | |] | exact Hf |]. by split_and!.
Qed.
End Lists.

(** ** What a snapshot holds and gives back *)
(** The blocks of the heap, the open descriptors and the lists of [getifaddrs] of the process; a call changes only what it is documented to. *)
Class NetKernel (K : Type) `{NetCalls K} := {
  heap : K -> gset Z; fds : K -> gset Z; lists : K -> gset Z; held : K -> bool;
  nk_null k : 0 ∉ heap k;
  nk_calloc size k k1 p : n_calloc size k = (k1, p) -> fds k1 = fds k /\ lists k1 = lists k /\ held k1 = held k /\ heap k1 = (if p =? 0 then ∅ else {[p]}) ∪ heap k /\ p ∉ heap k;
  nk_free p k : heap (n_free p k) = heap k ∖ {[p]} /\ fds (n_free p k) = fds k /\ lists (n_free p k) = lists k /\ held (n_free p k) = held k;
  nk_ifaddrs k k1 r : n_getifaddrs k = (k1, r) -> heap k1 = heap k /\ fds k1 = fds k /\ held k1 = held k /\
    match r with Ok (l, _) => l ∉ lists k /\ lists k1 = {[l]} ∪ lists k | Err _ => lists k1 = lists k end;
  nk_freeifaddrs l k : lists (n_freeifaddrs l k) = lists k ∖ {[l]} /\ heap (n_freeifaddrs l k) = heap k /\ fds (n_freeifaddrs l k) = fds k /\ held (n_freeifaddrs l k) = held k;
  nk_socket d k k1 r : n_socket d k = (k1, r) -> heap k1 = heap k /\ lists k1 = lists k /\ held k1 = held k /\
    match r with Ok fd => 0 <= fd /\ fd ∉ fds k /\ fds k1 = {[fd]} ∪ fds k | Err _ => fds k1 = fds k end;
  nk_open path k k1 r : n_open path k = (k1, r) -> heap k1 = heap k /\ lists k1 = lists k /\ held k1 = held k /\
    match r with Ok fd => fd ∉ fds k /\ fds k1 = {[fd]} ∪ fds k | Err _ => fds k1 = fds k end;
  nk_close fd k : fds (n_close fd k) = fds k ∖ {[fd]} /\ heap (n_close fd k) = heap k /\ lists (n_close fd k) = lists k /\ held (n_close fd k) = held k;
  nk_index name k : let k1 := (n_nametoindex name k).1 in (heap k1, fds k1, lists k1, held k1) = (heap k, fds k, lists k, held k);
  nk_mtu fd name k : let k1 := (n_mtu fd name k).1 in (heap k1, fds k1, lists k1, held k1) = (heap k, fds k, lists k, held k);
  nk_read fd n k : let k1 := (n_read fd n k).1 in (heap k1, fds k1, lists k1, held k1) = (heap k, fds k, lists k, held k);
  nk_access path k : let k1 := (n_access path k).1 in (heap k1, fds k1, lists k1, held k1) = (heap k, fds k, lists k, held k);
  nk_lock k k1 rc : n_lock k = (k1, rc) -> heap k1 = heap k /\ fds k1 = fds k /\ lists k1 = lists k /\ held k1 = (if rc =? 0 then true else held k);
  nk_unlock k : heap (n_unlock k) = heap k /\ fds (n_unlock k) = fds k /\ lists (n_unlock k) = lists k /\ held (n_unlock k) = false;
}.
Section Balance.
Context {K : Type} `{NetKernel K}.
(** Both keep the same resources. *)
Definition even (k k1 : K) : Prop := heap k1 = heap k /\ fds k1 = fds k /\ lists k1 = lists k /\ held k1 = held k.
Lemma even_refl k : even k k.
Proof. done. Qed.
Lemma even_trans a b c : even a b -> even b c -> even a c.
Proof. intros (H1 & H2 & H3 & H4) (H5 & H6 & H7 & H8). repeat split; by etrans. Qed.
Lemma even_of k k1 : (heap k1, fds k1, lists k1, held k1) = (heap k, fds k, lists k, held k) -> even k k1.
Proof. by intros [= ? ? ? ?]. Qed.
Lemma even_open k k1 k2 fd : heap k1 = heap k -> lists k1 = lists k -> held k1 = held k -> fd ∉ fds k -> fds k1 = {[fd]} ∪ fds k -> even k1 k2 -> even k (n_close fd k2).
Proof. intros H1 H2 H3 H4 H5 (H6 & H7 & H8 & H9). destruct (nk_close fd k2) as (Hf & Hh & Hl & Hd). repeat split; [congruence | | congruence | congruence]. rewrite Hf, H7, H5. set_solver. Qed.
Lemma speed_even name k : even k (speed name k).1.
Proof.
  unfold speed. destruct (sysfs name SPEED) as [path |]; [| done]. destruct (n_open path k) as [k1 [fd | code]] eqn:E; apply nk_open in E as (Hh & Hl & Hd & Hf); [| done].
  destruct Hf as [Hnew Hf]. pose proof (nk_read fd 32 k1) as Hr. destruct (n_read fd 32 k1) as [k2 r]. cbn [fst] in *. apply (even_open k k1); try done. by apply even_of.
Qed.
Lemma mtu_even probe name k : even k (mtu_of probe name k).1.
Proof. unfold mtu_of. case_match; [done |]. pose proof (nk_mtu probe name k). destruct (n_mtu probe name k) as [k1 []]; by apply even_of. Qed.
Lemma wireless_even name k : even k (wireless name k).1.
Proof. unfold wireless. destruct (sysfs name WIRELESS); [apply even_of, nk_access | done]. Qed.
Lemma new_interface_even probe name flags k : even k (new_interface probe name flags k).1.
Proof.
  unfold new_interface. pose proof (nk_index name k) as Hi. destruct (n_nametoindex name k) as [k1 index]. cbn [fst] in Hi. apply even_of in Hi. destruct (index =? 0); [done |].
  pose proof (mtu_even probe name k1) as Hm. destruct (mtu_of probe name k1) as [k2 m]. pose proof (speed_even name k2) as Hs. destruct (speed name k2) as [k3 v]. cbn [fst] in *. eauto using even_trans.
Qed.
Lemma fill_address_even e name slot i known found k : even k (fill_address e name slot i known found k).1.
Proof.
  unfold fill_address. destruct (ifa_addr e) as [| hatype halen addr | | |]; try done. destruct (hatype =? ARPHRD_ETHER); [| done].
  pose proof (wireless_even name k) as Hw. by destruct (wireless name k).
Qed.
Lemma fill_even probe answer k : even k (fill probe answer k).1.
Proof.
  unfold fill. assert (forall x, even x.1 (foldl (fill_entry probe) x answer).1) as Hgo; [| apply (Hgo (k, ([], [])))].
  induction answer as [| e answer IH]; intros x; [done |]. cbn [foldl]. eapply even_trans; [| apply IH]. destruct x as [k0 [known found]]. unfold fill_entry. cbn [fst].
  destruct (ifa_name e) as [label |]; [| done]. case_match; [done |]. case_match; [apply fill_address_even |].
  pose proof (new_interface_even probe (if_label label) (ifa_flags e) k0) as Hn. destruct (new_interface _ _ _ k0) as [k1 [i |]]; [| done]. eapply even_trans; [exact Hn | apply fill_address_even].
Qed.
(** The blocks of a snapshot. *)
Definition snapshot_blocks (s : Snapshot) : gset Z := {[interface_block s; address_block s]} ∖ {[0]}.
Lemma probe_socket_new k k1 fd : probe_socket k = (k1, fd) ->
  heap k1 = heap k /\ lists k1 = lists k /\ held k1 = held k /\ (if 0 <=? fd then fd ∉ fds k /\ fds k1 = {[fd]} ∪ fds k else fds k1 = fds k).
Proof.
  unfold probe_socket. destruct (n_socket AF_INET k) as [k0 [f | code]] eqn:E; apply nk_socket in E as (Hh & Hl & Hd & Hf).
  { intros [= <- <-]. destruct Hf as (Hpos & Hf). by destruct (Z.leb_spec 0 f); [| lia]. }
  destruct (n_socket AF_INET6 k0) as [k2 [f | code2]] eqn:E2; apply nk_socket in E2 as (Hh2 & Hl2 & Hd2 & Hf2); intros [= <- <-]; (split_and!; [congruence | congruence | congruence |]).
  - destruct Hf2 as (Hpos & Hnew & Hf2). destruct (Z.leb_spec 0 f); [| lia]. by rewrite <- Hf.
  - cbn. congruence.
Qed.
Lemma exchange_blocks (h : gset Z) i a x y : 0 ∉ h -> ({[x; y]} : gset Z) ∖ {[0]} ⊆ h -> i <> 0 -> a <> 0 -> i ∉ h -> a ∉ ({[i]} : gset Z) ∪ h ->
  (({[a]} ∪ ({[i]} ∪ h)) ∖ {[x]}) ∖ {[y]} = (h ∖ ({[x; y]} ∖ {[0]})) ∪ ({[i; a]} ∖ {[0]}).
Proof.
  intros Hz Hsub Hi Ha Hih Hah. assert (forall b, b = x \/ b = y -> b = 0 \/ b ∈ h) as Hold by (intros b Hb; destruct (decide (b = 0)); [by left | right; apply Hsub; set_solver]).
  pose proof (Hold x (or_introl eq_refl)). pose proof (Hold y (or_intror eq_refl)). assert (a ∉ h /\ a <> i) as [Hah' Hai] by set_solver. clear Hsub Hold Hah.
  apply set_eq. intros z. rewrite ?elem_of_union, ?elem_of_difference, ?elem_of_union, ?elem_of_singleton.
  destruct (decide (z = i)) as [-> | Hzi]; [naive_solver |]. destruct (decide (z = a)) as [-> | Hza]; [naive_solver |]. destruct (decide (z ∈ h)); naive_solver.
Qed.
Lemma take_snapshot_exact n n1 r : snapshot_blocks (snapshot n) ⊆ heap (n_os n) -> take_snapshot n = (n1, r) ->
  fds (n_os n1) = fds (n_os n) /\ lists (n_os n1) = lists (n_os n) /\ held (n_os n1) = held (n_os n) /\
  heap (n_os n1) = (heap (n_os n) ∖ snapshot_blocks (snapshot n)) ∪ snapshot_blocks (snapshot n1) /\
  match r with
  | Ok _ => taken (snapshot n1) = true /\ exists probe answer k, (fill probe answer k).2 = (interfaces (snapshot n1), addresses (snapshot n1))
  | Err _ => snapshot n1 = snapshot n
  end.
Proof.
  intros Hown. unfold take_snapshot. destruct (n_getifaddrs (n_os n)) as [k0 [[l answer] | code]] eqn:Eg; apply nk_ifaddrs in Eg as (Hh & Hf & Hd & Hl).
  2: { intros [= <- <-]. cbn [n_os snapshot]. split_and!; try done. rewrite Hh. symmetry. by rewrite union_comm_L, <- union_difference_L. }
  destruct Hl as [Hnew Hl]. destruct (n_calloc (_ * size_of_Interface) k0) as [k1 items] eqn:E1. destruct (n_calloc (_ * size_of_InterfaceAddress) k1) as [k2 found_at] eqn:E2.
  apply nk_calloc in E1 as (Hf1 & Hl1 & Hd1 & Hh1 & Hi). apply nk_calloc in E2 as (Hf2 & Hl2 & Hd2 & Hh2 & Ha). pose proof (nk_null (n_os n)) as Hnull.
  destruct ((items =? 0) || (found_at =? 0)) eqn:Ez.
  - intros [= <- <-]. cbn [n_os snapshot]. destruct (nk_freeifaddrs l (n_free found_at (n_free items k2))) as (Q1 & Q2 & Q3 & Q4).
    destruct (nk_free found_at (n_free items k2)) as (P1 & P2 & P3 & P4). destruct (nk_free items k2) as (R1 & R2 & R3 & R4). split_and!; [congruence | | congruence | | done].
    + rewrite Q1, P3, R3, Hl2, Hl1, Hl. set_solver.
    + rewrite Q2, P1, R1, Hh2, Hh1, Hh. rewrite Hh in Hi. rewrite Hh1, Hh in Ha. rewrite (union_comm_L _ (snapshot_blocks (snapshot n))), <- union_difference_L by done.
      destruct (Z.eqb_spec items 0), (Z.eqb_spec found_at 0); set_solver.
  - destruct (probe_socket k2) as [k3 probe] eqn:Ep. apply probe_socket_new in Ep as (Hh3 & Hl3 & Hd3 & Hf3). pose proof (fill_even probe answer k3) as (Hh4 & Hf4 & Hl4 & Hd4).
    destruct (fill probe answer k3) as [k4 [known found]] eqn:Efill. cbn [fst] in *. set (k5 := if 0 <=? probe then n_close probe k4 else k4).
    assert (heap k5 = heap k2 /\ fds k5 = fds k2 /\ lists k5 = lists k2 /\ held k5 = held k2) as (Hh5 & Hf5 & Hl5 & Hd5).
    { unfold k5. destruct (0 <=? probe); [| split_and!; congruence]. destruct (nk_close probe k4) as (Q1 & Q2 & Q3 & Q4). destruct Hf3 as [Hp Hf3]. split_and!; [congruence | | congruence | congruence].
      rewrite Q1, Hf4, Hf3. set_solver. }
    intros [= <- <-]. cbn [n_os snapshot taken interfaces addresses snapshot_blocks interface_block address_block].
    destruct (nk_free (address_block (snapshot n)) (n_free (interface_block (snapshot n)) (n_freeifaddrs l k5))) as (P1 & P2 & P3 & P4).
    destruct (nk_free (interface_block (snapshot n)) (n_freeifaddrs l k5)) as (R1 & R2 & R3 & R4). destruct (nk_freeifaddrs l k5) as (Q1 & Q2 & Q3 & Q4).
    split_and!; [congruence | | congruence | | done | by exists probe, answer, k3; rewrite Efill].
    + rewrite P3, R3, Q1, Hl5, Hl2, Hl1, Hl. set_solver.
    + rewrite P1, R1, Q2, Hh5, Hh2, Hh1, Hh. rewrite Hh in Hi. rewrite Hh1, Hh in Ha. apply orb_false_iff in Ez as [Ei Ea]. rewrite Ei in *. rewrite Ea in *. apply Z.eqb_neq in Ei, Ea. unfold snapshot_blocks in *. cbn [interface_block address_block]. by apply exchange_blocks.
Qed.
End Balance.
(** An entry of an enumeration, for any kernel: it comes from the snapshot that is in place afterwards, which is the one before the
    call, or one that was filled from a single answer of the C library; index 0 alone takes a new one once there is one, and a
    failure to take it keeps the old one. In every case the descriptors and the lists of the C library are as before, the lock
    that was taken is released, and of the memory the blocks of the snapshot in place have replaced those of the one before. *)
Theorem snapshot_replaced_whole {K : Type} `{NetKernel K} {T} index (items : Snapshot -> list T) (n n1 : Network1 K) r : snapshot_blocks (snapshot n) ⊆ heap (n_os n) -> entry index items n = (n1, r) ->
  fds (n_os n1) = fds (n_os n) /\ lists (n_os n1) = lists (n_os n) /\ (held (n_os n) = false -> held (n_os n1) = false) /\
  heap (n_os n1) = (heap (n_os n) ∖ snapshot_blocks (snapshot n)) ∪ snapshot_blocks (snapshot n1) /\
  (index <> 0%nat -> taken (snapshot n) = true -> snapshot n1 = snapshot n) /\
  (snapshot n1 = snapshot n \/ taken (snapshot n1) = true /\ exists probe answer k, (fill probe answer k).2 = (interfaces (snapshot n1), addresses (snapshot n1))) /\
  match r with Ok x => taken (snapshot n1) = true /\ items (snapshot n1) !! index = Some x | Err e => e = ENotFound \/ snapshot n1 = snapshot n end.
Proof.
  intros Hown. assert (heap (n_os n) = (heap (n_os n) ∖ snapshot_blocks (snapshot n)) ∪ snapshot_blocks (snapshot n)) as Hsame by (rewrite union_comm_L; by apply union_difference_L).
  unfold entry. destruct (n_lock (n_os n)) as [k rc] eqn:El. apply nk_lock in El as (Lh & Lf & Ll & Ld). cbn [n_os snapshot]. destruct (rc =? 0); cbn [negb].
  2: { intros [= <- <-]. cbn [n_os snapshot]. rewrite Lh, Lf, Ll, Ld. split_and!; try done; [by left | by right]. }
  destruct (_ || _) eqn:Ez.
  - destruct (take_snapshot (mkNetwork1 k (snapshot n))) as [n2 r2] eqn:Et. apply take_snapshot_exact in Et as (Tf & Tl & Td & Th & Tr); [| cbn [n_os snapshot]; by rewrite Lh].
    cbn [n_os snapshot] in *. intros [= <- <-]. cbn [n_os snapshot]. destruct (nk_unlock (n_os n2)) as (Uh & Uf & Ul & Ud). assert (r2 = Ok tt \/ snapshot n2 = snapshot n) as Hcase by (destruct r2 as [[] |]; [by left | by right]).
    split_and!; [congruence | congruence | done | by rewrite Uh, Th, Lh | | destruct r2 as [[] |]; [by right | by left] |].
    + intros Hi Ht. apply orb_true_iff in Ez as [Ez | Ez]; [by apply Nat.eqb_eq in Ez | by rewrite Ht in Ez].
    + destruct r2 as [[] |]; [| by right]. cbn [result_bind]. destruct Tr as [Tt _]. by destruct (items (snapshot n2) !! index); [| left].
  - intros [= <- <-]. cbn [n_os snapshot]. destruct (nk_unlock k) as (Uh & Uf & Ul & Ud). apply orb_false_iff in Ez as [_ Ht]. apply negb_false_iff in Ht.
    rewrite Uh, Uf, Ul, Ud, Lh, Lf, Ll. split_and!; try done; [by left |]. cbn [result_bind]. by destruct (items (snapshot n) !! index); [| right].
Qed.

(** ** Memberships *)
Section Carried.
Context {K : Type} {C : SocketCalls K}.
Definition carries (domain family only : Z) : bool :=
  ((domain =? AF_INET) && (family =? IPV4)) || ((domain =? AF_INET6) && (family =? IPV6)) || ((domain =? AF_INET6) && (family =? IPV4) && (only =? 0)).
Lemma carries_true domain family only : carries domain family only = true ->
  domain = AF_INET /\ family = IPV4 \/ domain = AF_INET6 /\ (family = IPV6 \/ family = IPV4 /\ only = 0).
Proof. unfold carries. rewrite !orb_true_iff, !andb_true_iff, !Z.eqb_eq. tauto. Qed.
Lemma shape_eq fd kind domain (n : Net K) : shaped fd kind domain -> shape fd n = Returned n (Ok (kind =? SOCK_STREAM, domain)).
Proof.
  intros Hs. unfold shape, get, then_. rewrite (sys_eq _ n (kernel n) [kind]) by apply Hs. rewrite with_kernel_id.
  rewrite (sys_eq _ n (kernel n) [domain]) by apply Hs. by rewrite with_kernel_id.
Qed.
Lemma carried_eq fd domain family only (n : Net K) : c_getsockopt fd IPPROTO_IPV6 IPV6_V6ONLY (kernel n) = (kernel n, Ok [only]) ->
  carried fd domain family n = Returned n (Ok (carries domain family only)).
Proof.
  intros Ho. unfold carried, carries. destruct (_ || _); [done |]. destruct (_ && _); [| done]. unfold get, then_. rewrite (sys_eq _ n (kernel n) [only]) by exact Ho. by rewrite with_kernel_id.
Qed.
End Carried.
(** A membership, on a handle of the provider whose descriptor is of a type and a domain: the kernel is asked, and the call succeeds, only for a
    datagram or raw socket that carries the family of the group, an IPv6 one carrying IPv4 groups unless it is restricted to IPv6, and for an index
    that fits; the answer is then the kernel's, to one option whose level and name are of the family of the group. *)
Theorem membership_carried {K : Type} {C : SocketCalls K} (n n1 : Net K) socket s group index join r kind domain only : is_handle socket -> handles n !! socket = Some s ->
  shaped (s_fd s) kind domain -> c_getsockopt (s_fd s) IPPROTO_IPV6 IPV6_V6ONLY (kernel n) = (kernel n, Ok [only]) -> membership socket group index join n = Returned n1 r ->
  handles n1 = handles n /\ (n1 <> n \/ r = Ok tt ->
    kind <> SOCK_STREAM /\ index <= i32_max /\ (domain = AF_INET /\ family group = IPV4 \/ domain = AF_INET6 /\ (family group = IPV6 \/ family group = IPV4 /\ only = 0)) /\
    exists level name value answer, membership_request group index join = (level, name, value) /\ level = (if family group =? IPV4 then IPPROTO_IP else IPPROTO_IPV6) /\
      c_setsockopt (s_fd s) level name value (kernel n) = (kernel n1, answer) /\ (r = Ok tt <-> answer = Ok tt)).
Proof.
  intros Hh Hs Hshape Honly. unfold membership, then_ at 1. rewrite (descriptor_handle _ _ s) by done. unfold then_ at 1. rewrite (shape_eq _ kind domain) by done.
  unfold then_ at 1. rewrite (carried_eq _ _ _ only) by done. destruct (Z.eqb_spec kind SOCK_STREAM) as [| Hkind]; [by intros [= <- <-]; split; [| intros []] |]. cbn [orb].
  destruct (carries domain (family group) only) eqn:Hc; cbn [negb]; [| by intros [= <- <-]; split; [| intros []]]. apply carries_true in Hc.
  destruct (Z.ltb_spec i32_max index); [by intros [= <- <-]; split; [| intros []] |].
  destruct (membership_request group index join) as [[level name] value] eqn:Er. unfold then_, call. destruct (c_setsockopt (s_fd s) level name value (kernel n)) as [k answer] eqn:Ek. intros E.
  assert (n1 = with_kernel k n /\ (r = Ok tt <-> answer = Ok tt)) as [-> Hr] by (destruct answer as [[] |]; injection E as <- <-; by split).
  split; [done |]. intros _. split_and!; [done | lia | done |]. exists level, name, value, answer. split_and!; [done | | done | done].
  revert Er. unfold membership_request. by destruct (family group =? IPV4); intros [= <- <- <-].
Qed.

(** ** A machine with a loopback and a wireless interface *)
Record Box := mkBox { b_heap : gset Z; b_fds : gset Z; b_lists : gset Z; b_held : bool }.
Definition wlan : list Z := [119; 108; 97; 110; 48].
Definition lo : list Z := [108; 111].
Definition box_answer : list Ifaddrs :=
  [mkIfaddrs (Some lo) 73 (Link ARPHRD_LOOPBACK 6 (replicate 8 0)) None; mkIfaddrs (Some wlan) 4163 (Link ARPHRD_ETHER 6 [2; 4; 6; 8; 10; 12; 0; 0]) None;
   mkIfaddrs (Some lo) 73 (Inet [127; 0; 0; 1]) (Some (AF_INET, [255; 0; 0; 0]));
   mkIfaddrs (Some (wlan ++ [58; 49])) 4163 (Inet6 (254 :: 128 :: replicate 13 0 ++ [7])) (Some (AF_INET6, replicate 8 255 ++ replicate 8 0)); mkIfaddrs None 0 NoAddr None].
#[export] Instance box_calls : NetCalls Box := {|
  n_nametoindex name k := (k, if bool_decide (name = lo) then 1 else if bool_decide (name = wlan) then 2 else 0);
  n_mtu _ _ k := (k, Ok 1500);
  n_open _ k := let fd := above_all (b_fds k) in (mkBox (b_heap k) ({[fd]} ∪ b_fds k) (b_lists k) (b_held k), Ok fd);
  n_read _ _ k := (k, Ok [53; 52; 10]); n_close fd k := mkBox (b_heap k) (b_fds k ∖ {[fd]}) (b_lists k) (b_held k);
  n_access path k := (k, bool_decide (sysfs wlan WIRELESS = Some path));
  n_getifaddrs k := let l := above_all (b_lists k) in (mkBox (b_heap k) (b_fds k) ({[l]} ∪ b_lists k) (b_held k), Ok (l, box_answer));
  n_freeifaddrs l k := mkBox (b_heap k) (b_fds k) (b_lists k ∖ {[l]}) (b_held k);
  n_calloc _ k := let p := above_all (b_heap k) in (mkBox ({[p]} ∪ b_heap k) (b_fds k) (b_lists k) (b_held k), p);
  n_free p k := mkBox (b_heap k ∖ {[p]}) (b_fds k) (b_lists k) (b_held k);
  n_socket _ k := let fd := above_all (b_fds k) in (mkBox (b_heap k) ({[fd]} ∪ b_fds k) (b_lists k) (b_held k), Ok fd);
  n_lock k := (mkBox (b_heap k) (b_fds k) (b_lists k) true, 0); n_unlock k := mkBox (b_heap k) (b_fds k) (b_lists k) false;
  n_getnameinfo _ k := (k, (EAI_NONAME, 0, [])) |}.
#[export] Instance box_kernel : NetKernel Box.
Proof.
  refine {| heap k := b_heap k ∖ {[0]}; fds := b_fds; lists := b_lists; held := b_held |}.
  - set_solver.
  - intros size k k1 p [= <- <-]. cbn [b_heap b_fds b_lists b_held]. destruct (above_all_spec (b_heap k)) as (Hpos & _ & Hnew). split_and!; try done; [| set_solver].
    destruct (Z.eqb_spec (above_all (b_heap k)) 0); [lia | set_solver].
  - intros p k. cbn. split_and!; try done. set_solver.
  - intros k k1 r [= <- <-]. cbn. split_and!; try done. apply above_all_spec.
  - done.
  - intros d k k1 r [= <- <-]. destruct (above_all_spec (b_fds k)) as (Hpos & _ & Hnew). split_and!; try done. lia.
  - intros path k k1 r [= <- <-]. destruct (above_all_spec (b_fds k)) as (Hpos & _ & Hnew). by split_and!.
  - done.
  - done.
  - done.
  - done.
  - done.
  - intros k k1 rc [= <- <-]. done.
  - done.
Defined.
Definition box_network : Network1 Box := mkNetwork1 (mkBox ∅ {[2]} ∅ false) snapshot_new.
Example box_enumerates : (fun i => (i_index i, i_kind i, i_state i, mtu i, speed_bps i)) <$> interfaces (snapshot (interface_entry 0 box_network).1) =
  [(1, INTERFACE_LOOPBACK, LINK_UP, 1500, 54000000); (2, INTERFACE_WIRELESS, LINK_UP, 1500, 54000000)].
Proof. vm_compute. reflexivity. Qed.
Example box_addresses : (fun a => (ia_index a, prefix_length a, scope (ia_address a))) <$> addresses (snapshot (interface_entry 0 box_network).1) = [(1, 8, 0); (2, 64, 2)].
Proof. vm_compute. reflexivity. Qed.
(** The second snapshot has given the first one's blocks back. *)
Lemma snapshot_replaced_whole_witness : let n1 := (interface_entry 0 box_network).1 in let n2 := (interface_entry 0 n1).1 in
  heap (n_os n2) = (heap (n_os n1) ∖ snapshot_blocks (snapshot n1)) ∪ snapshot_blocks (snapshot n2).
Proof.
  intros n1 n2. unfold n2. destruct (interface_entry 0 n1) as [m r] eqn:E. refine (proj1 (proj2 (proj2 (proj2 (snapshot_replaced_whole 0 interfaces n1 m r _ E))))).
  apply (bool_decide_unpack _). vm_compute. done.
Defined.
Lemma interfaces_consistent_witness : let known := interfaces (snapshot (interface_entry 0 box_network).1) in NoDup (i_name <$> known) /\ length known = 2%nat.
Proof.
  intros known. split; [| vm_compute; reflexivity]. destruct (fill 4 box_answer (n_os box_network)) as [k [l a]] eqn:E.
  assert (known = l) as -> by (apply (f_equal (fun x => x.2.1)) in E; cbn [fst snd] in E; rewrite <- E; vm_compute; reflexivity).
  refine (proj1 (proj2 (proj2 (interfaces_consistent 4 box_answer _ _ _ _ _ E)))). unfold box_answer, labelled. repeat constructor; intros label [= <-]; repeat constructor; discriminate.
Defined.
(** A datagram socket of the toy kernel joins a group of its family. *)
Definition toy_group : Net Toy := with_kernel (with_opts {[(4, IPPROTO_IPV6, IPV6_V6ONLY) := [1]]} (kernel toy_net)) toy_net.
Lemma membership_carried_witness : exists n1 answer, membership 8 (v4 [224; 0; 0; 251] 0) 2 true toy_group = Returned n1 (Ok tt) /\
  c_setsockopt 4 IPPROTO_IP IP_ADD_MEMBERSHIP [of_le [224; 0; 0; 251]; 0; 2] (kernel toy_group) = (kernel n1, answer).
Proof.
  destruct (membership 8 (v4 [224; 0; 0; 251] 0) 2 true toy_group) as [n1 r | |] eqn:E; [| vm_compute in E; discriminate | vm_compute in E; discriminate].
  assert (r = Ok tt) as -> by (vm_compute in E; by injection E). destruct toy_handle as [Hh Hs].
  destruct (membership_carried toy_group n1 8 (mkSocket 4 false false false 0) (v4 [224; 0; 0; 251] 0) 2 true (Ok tt) SOCK_DGRAM AF_INET 1 Hh Hs (toy_shaped 4) eq_refl E) as [_ Hgo].
  destruct (Hgo (or_intror eq_refl)) as (_ & _ & _ & level & name & value & answer & [= <- <- <-] & _ & Hset & _). exists n1, answer. by split.
Defined.
