(* ===== verification/LinuxPriority.v ===== *)
(** * LinuxPriority.v: priorities of the Linux port

    [src/crates/dotnet-pal-linux/src/linux_priority.rs]: the nice value of a process is the one of its first thread; setting it changes
    that thread, and then the others by passes over the list of threads, until one finds nothing left to change.

    The theorem [set_reaches_every_thread] is about a process that starts threads meanwhile, each with the value of one that is
    there already; it is stated for threads that do not end during the call, since one that starts another and ends between
    the list and the question would leave the other with the old value. [thread_names_read_back]: a name of the list is the
    thread that it was written for. *)
From S2P Require Import Prelude Port Front Machine Libc.
Import Errno.
Local Open Scope Z_scope.
Local Open Scope pal_scope.

Definition failure (code : Z) : Error := if code =? ESRCH then ENotFound else if (code =? EACCES) || (code =? EPERM) then EAccessDenied else EOs.
Definition PASSES : nat := 16.
(** What the file asks of the C library. A question for a value answers it together with [errno], as does the next entry of a directory. *)
Class PriorityCalls (K : Type) := {
  p_getpid : K -> Z; p_getpriority : Z -> K -> K * (Z * Z); p_setpriority : Z -> Z -> M K Z unit;
  p_opendir : list Z -> M K Z Z; p_readdir : Z -> K -> K * (option (list Z) * Z); p_closedir : Z -> K -> K;
}.
(** The digits, the last one first. *)
Fixpoint digits_of (room : nat) (rest : Z) : list Z :=
  match room with O => [] | S room => 48 + rest mod 10 :: (if rest / 10 =? 0 then [] else digits_of room (rest / 10)) end.
Definition thread_name (id : Z) : list Z := rev (digits_of 10 id).
Definition task_list (id : Z) : list Z := [47; 112; 114; 111; 99; 47] ++ thread_name id ++ [47; 116; 97; 115; 107].
(** The [try_fold] over a name. *)
Fixpoint thread_of (id : Z) (name : list Z) : option Z :=
  match name with
  | [] => Some id
  | digit :: name =>
      if (48 <=? digit) && (digit <=? 57) then
        if (id * 10 <=? u32_max) && (id * 10 + (digit - 48) <=? u32_max) then thread_of (id * 10 + (digit - 48)) name else None
      else None
  end.

Section Provider.
Context {K : Type} {C : PriorityCalls K}.
Definition target (process : Z) (k : K) : Result Z := if process =? 0 then Ok (p_getpid k) else if process <=? i32_max then Ok process else Err ENotFound.
Definition read (thread : Z) : M K Error Z := fun k => let '(k, (value, errno)) := p_getpriority thread k in (k, if (value =? -1) && negb (errno =? 0) then Err (failure errno) else Ok value).
Definition write (thread value : Z) : M K Error unit := fun k => let '(k, r) := p_setpriority thread value k in (k, match r with Ok _ => Ok tt | Err code => Err (failure code) end).
Fixpoint open_list (rounds : nat) (path : list Z) (k : K) : option (K * Result (option Z)) :=
  match rounds with
  | O => None
  | S rounds =>
      match p_opendir path k with
      | (k, Ok stream) => Some (k, Ok (Some stream))
      | (k, Err code) => if code =? EINTR then open_list rounds path k else
          Some (k, if (code =? ENOENT) || (code =? ENOTDIR) || (code =? ESRCH) then Ok None else if code =? ENOMEM then Err EOutOfMemory else Err EOs)
      end
  end.
(** One thread of the list; the flag and the first refusal so far. *)
Definition visit (leader value : Z) (name : list Z) (changed : bool) (refusal : Result unit) (k : K) : K * (bool * Result unit) :=
  match thread_of 0 name with
  | None => (k, (changed, refusal))
  | Some thread =>
      if bool_decide (name = []) || (thread =? leader) then (k, (changed, refusal)) else
      let '(k, r) := read thread k in
      if match r with Ok found => found =? value | Err e => bool_decide (e = ENotFound) end then (k, (changed, refusal)) else
      match write thread value k with
      | (k, Ok _) => (k, (true, refusal))
      | (k, Err e) => (k, (changed, if bool_decide (e = ENotFound) then refusal else match refusal with Ok _ => Err e | Err _ => refusal end))
      end
  end.
Fixpoint pass_loop (rounds : nat) (stream leader value : Z) (changed : bool) (refusal : Result unit) (k : K) : option (K * (bool * Result unit)) :=
  match rounds with
  | O => None
  | S rounds =>
      match p_readdir stream k with
      | (k, (None, errno)) => if errno =? EINTR then pass_loop rounds stream leader value changed refusal k else Some (k, (changed, refusal))
      | (k, (Some name, _)) => let '(k, (changed, refusal)) := visit leader value name changed refusal k in pass_loop rounds stream leader value changed refusal k
      end
  end.
Definition pass (rounds : nat) (path : list Z) (leader value : Z) : Call K (option (bool * Result unit)) := fun k =>
  match open_list rounds path k with
  | None => Waiting
  | Some (k, Err e) => Returned k (Err e)
  | Some (k, Ok None) => Returned k (Ok None)
  | Some (k, Ok (Some stream)) =>
      match pass_loop rounds stream leader value false (Ok tt) k with
      | None => Waiting
      | Some (k, answer) => Returned (p_closedir stream k) (Ok (Some answer))
      end
  end.
Definition get (process : Z) : M K Error Z := fun k =>
  match target process k with
  | Err e => (k, Err e)
  | Ok thread => let '(k, r) := read thread k in (k, match r with Err e => Err (if bool_decide (e = ENotFound) then e else EOs) | Ok v => Ok v end)
  end.
Fixpoint set_loop (passes rounds : nat) (path : list Z) (leader value : Z) : Call K unit :=
  match passes with
  | O => refuse_with EOs
  | S passes =>
      let* r := pass rounds path leader value in
      match r with
      | None | Some (false, Ok _) => give tt
      | Some (_, Err e) => refuse_with e
      | Some (true, Ok _) => set_loop passes rounds path leader value
      end
  end.
Definition set (rounds : nat) (process value : Z) : Call K unit := fun k =>
  match target process k with
  | Err e => Returned k (Err e)
  | Ok leader =>
      match write leader value k with
      | (k, Err e) => Returned k (Err e)
      | (k, Ok _) => set_loop PASSES rounds (task_list leader) leader value k
      end
  end.
End Provider.

(** ** Names *)
Lemma digits_of_spec room id : 0 <= id < 10 ^ Z.of_nat room -> (0 < room)%nat ->
  Forall (fun d => 48 <= d <= 57) (digits_of room id) /\ digits_of room id <> [] /\ foldr (fun d n => d - 48 + 10 * n) 0 (digits_of room id) = id.
Proof.
  revert id. induction room as [| room IH]; intros id Hid Hr; [lia |]. cbn [digits_of]. pose proof (Z.mod_pos_bound id 10 ltac:(lia)). pose proof (Z.div_mod id 10 ltac:(lia)).
  destruct (Z.eqb_spec (id / 10) 0) as [Hz | Hz].
  - split_and!; [repeat constructor; lia | done | cbn; lia].
  - assert (0 <= id / 10) by (apply Z.div_pos; lia). destruct room as [| room]; [cbn in Hid; rewrite Z.div_small in Hz by lia; done |].
    destruct (IH (id / 10)) as (Q1 & Q2 & Q3); [| lia |]. { split; [lia |]. apply Z.div_lt_upper_bound; [lia |]. rewrite (Nat2Z.inj_succ (S room)), Z.pow_succ_r in Hid by lia. lia. }
    split_and!; [constructor; [lia | done] | done |]. cbn [foldr]. rewrite Q3. lia.
Qed.
Lemma thread_of_app id l m : thread_of id (l ++ m) = thread_of id l ≫= fun n => thread_of n m.
Proof. revert id. induction l as [| d l IH]; intros id; [done |]. cbn [app thread_of]. destruct (_ && _); [| done]. destruct (_ && _); [apply IH | done]. Qed.
Lemma thread_of_rev l : Forall (fun d => 48 <= d <= 57) l -> 0 <= foldr (fun d n => d - 48 + 10 * n) 0 l <= u32_max ->
  thread_of 0 (rev l) = Some (foldr (fun d n => d - 48 + 10 * n) 0 l).
Proof.
  induction 1 as [| d l Hd Hl IH]; [done |]. cbn [foldr rev]. intros Hb. assert (0 <= foldr (fun d n => d - 48 + 10 * n) 0 l) as Hpos by (clear -Hl; induction Hl; cbn; lia).
  rewrite thread_of_app, IH by lia. cbn. destruct (Z.leb_spec 48 d), (Z.leb_spec d 57); try lia. cbn [andb].
  destruct (Z.leb_spec (foldr (fun d n => d - 48 + 10 * n) 0 l * 10) u32_max); [| lia]. destruct (Z.leb_spec (foldr (fun d n => d - 48 + 10 * n) 0 l * 10 + (d - 48)) u32_max); [cbn; f_equal; lia | lia].
Qed.
(** The name that the kernel lists a thread under, the digits of its id, is read as that thread. *)
Theorem thread_names_read_back id : 0 <= id <= u32_max -> thread_of 0 (thread_name id) = Some id /\ thread_name id <> [].
Proof.
  intros Hid. destruct (digits_of_spec 10 id) as (H1 & H2 & H3); [unfold u32_max in Hid; cbn; lia | lia |]. unfold thread_name. split.
  - rewrite thread_of_rev by (done || by rewrite H3). by rewrite H3.
  - intros E. apply H2. by rewrite <- (rev_involutive (digits_of 10 id)), E.
Qed.

(** ** Threads that start meanwhile *)
(** What a process does by itself during a call: it starts threads, each with the value of one that is there. *)
Definition evolves (m m1 : gmap Z Z) : Prop := m ⊆ m1 /\ forall t v, m1 !! t = Some v -> exists t', m !! t' = Some v.
Lemma evolves_refl m : evolves m m.
Proof. split; [done | eauto]. Qed.
#[export] Hint Resolve evolves_refl : core.
Lemma evolves_trans a b c : evolves a b -> evolves b c -> evolves a c.
Proof. intros [Hab Hab'] [Hbc Hbc']. split; [by etrans |]. intros t v (t' & Ht)%Hbc'. by apply Hab' in Ht. Qed.
Lemma evolves_keeps m m1 t v : evolves m m1 -> m !! t = Some v -> m1 !! t = Some v.
Proof. intros [Hsub _] Hm. by eapply lookup_weaken. Qed.
(** The values of the threads of the process, and the names that a stream has left; what each call answers about them. *)
Class PriorityLaws (K : Type) `{PriorityCalls K} (leader : Z) := {
  nice : K -> gmap Z Z; left_of : K -> Z -> list (list Z);
  pl_get t k k1 v errno : p_getpriority t k = (k1, (v, errno)) -> evolves (nice k) (nice k1) /\ left_of k1 = left_of k /\
    (errno = 0 -> forall x, nice k1 !! t = Some x -> x = v) /\ (errno = ESRCH -> nice k1 !! t = None) /\ (v <> -1 -> errno = 0);
  pl_set t v k k1 r : p_setpriority t v k = (k1, r) -> left_of k1 = left_of k /\
    match r with
    | Ok _ => (forall x, nice k !! t = Some x -> nice k1 !! t = Some v) /\ (forall t' x, t' <> t -> nice k !! t' = Some x -> nice k1 !! t' = Some x)
    | Err code => evolves (nice k) (nice k1) /\ (code = ESRCH -> nice k1 !! t = None)
    end;
  pl_open k k1 r : p_opendir (task_list leader) k = (k1, r) -> evolves (nice k) (nice k1) /\
    forall stream, r = Ok stream -> forall t x, nice k !! t = Some x -> thread_name t ∈ left_of k1 stream;
  pl_next stream k k1 entry errno : p_readdir stream k = (k1, (entry, errno)) -> evolves (nice k) (nice k1) /\
    match entry with Some name => left_of k stream = name :: left_of k1 stream | None => if errno =? EINTR then left_of k1 stream = left_of k stream else left_of k stream = [] end;
  pl_close stream k : evolves (nice k) (nice (p_closedir stream k));
  pl_ids k t x : nice k !! t = Some x -> 0 <= t <= u32_max;
}.
Section Reach.
Context {K : Type} (leader : Z) `{L : PriorityLaws K leader} (value : Z).
Lemma failure_not_found code : failure code = ENotFound -> code = ESRCH.
Proof. unfold failure. destruct (Z.eqb_spec code ESRCH); [done |]. by destruct (_ || _). Qed.
Lemma read_spec t k k1 r : read t k = (k1, r) -> evolves (nice k) (nice k1) /\ left_of k1 = left_of k /\
  match r with Ok v => forall x, nice k1 !! t = Some x -> x = v | Err e => e = ENotFound -> nice k1 !! t = None end.
Proof.
  unfold read. destruct (p_getpriority t k) as [k2 [v errno]] eqn:E. apply pl_get in E as (Q1 & Q2 & Q3 & Q4 & Q5). intros [= <- <-]. split; [done |]. split; [done |].
  destruct (Z.eqb_spec v (-1)) as [-> | Hv]; cbn [andb]; [| intros x; apply Q3, Q5, Hv].
  destruct (Z.eqb_spec errno 0) as [-> | He]; cbn [negb]; [by apply Q3 |]. intros Hn%failure_not_found. by apply Q4.
Qed.
Lemma write_spec t v k k1 r : write t v k = (k1, r) -> left_of k1 = left_of k /\
  match r with
  | Ok _ => (forall x, nice k !! t = Some x -> nice k1 !! t = Some v) /\ (forall t' x, t' <> t -> nice k !! t' = Some x -> nice k1 !! t' = Some x)
  | Err e => evolves (nice k) (nice k1) /\ (e = ENotFound -> nice k1 !! t = None)
  end.
Proof.
  unfold write. destruct (p_setpriority t v k) as [k2 [[] | code]] eqn:E; apply pl_set in E as (Q1 & Q2); intros [= <- <-]; split; try done.
  destruct Q2 as [Q2 Q3]. split; [done |]. intros Hn%failure_not_found. by apply Q3.
Qed.
(** The first thread keeps the value that it was given, and a flag or a refusal is never taken back. *)
Lemma visit_spec name changed refusal k k1 changed1 refusal1 : visit leader value name changed refusal k = (k1, (changed1, refusal1)) ->
  left_of k1 = left_of k /\ (nice k !! leader = Some value -> nice k1 !! leader = Some value) /\
  (changed1 = false -> refusal1 = Ok tt -> changed = false /\ refusal = Ok tt /\ evolves (nice k) (nice k1) /\
    forall t x, name = thread_name t -> t <> leader -> nice k !! t = Some x -> x = value).
Proof.
  unfold visit. destruct (thread_of 0 name) as [thread |] eqn:Et.
  2: { intros [= <- <- <-]. split_and!; try done. intros -> ->. split_and!; try done. intros t x -> _ Hx. apply pl_ids, thread_names_read_back in Hx as [Hx _]. congruence. }
  assert (forall t x, name = thread_name t -> nice k !! t = Some x -> t = thread /\ name <> []) as Hname by (intros t x -> Hx; apply pl_ids, thread_names_read_back in Hx as [Hx Hne]; split; [congruence | done]).
  destruct (bool_decide (name = []) || (thread =? leader)) eqn:Es.
  { intros [= <- <- <-]. split_and!; try done. intros -> ->. split_and!; try done. intros t x Hn Hl Hx. destruct (Hname t x Hn Hx) as [-> Hne]. apply orb_true_iff in Es as [Es%bool_decide_eq_true | Es%Z.eqb_eq]; done. }
  apply orb_false_iff in Es as [_ Es%Z.eqb_neq]. destruct (read thread k) as [k2 r] eqn:Er. apply read_spec in Er as (Q1 & Q2 & Q3).
  destruct (match r with Ok found => found =? value | Err e => bool_decide (e = ENotFound) end) eqn:Eq.
  { intros [= <- <- <-]. split; [done |]. split; [by apply evolves_keeps |]. intros -> ->. split_and!; try done. intros t x Hn Hl Hx. destruct (Hname t x Hn Hx) as [-> _]. eapply evolves_keeps in Hx; [| exact Q1].
    destruct r as [found | e]; [apply Z.eqb_eq in Eq; rewrite <- Eq; by apply Q3 | apply bool_decide_eq_true in Eq; rewrite (Q3 Eq) in Hx; done]. }
  destruct (write thread value k2) as [k3 [[] | e]] eqn:Ew; apply write_spec in Ew as [W1 W2]; intros [= <- <- <-]; (split; [congruence |]).
  - split; [| done]. intros Hl. apply W2; [done |]. by eapply evolves_keeps.
  - destruct W2 as [W2 W3]. split; [intros Hl; by eapply evolves_keeps, evolves_keeps |]. intros -> Hr. destruct (decide (e = ENotFound)) as [He | He].
    + rewrite bool_decide_eq_true_2 in Hr by done. split_and!; try done; [by eapply evolves_trans |]. intros t x Hn Hl Hx. destruct (Hname t x Hn Hx) as [-> _].
      eapply evolves_keeps in Hx; [| exact Q1]. eapply evolves_keeps in Hx; [| exact W2]. rewrite (W3 He) in Hx. done.
    + rewrite bool_decide_eq_false_2 in Hr by done. by destruct refusal as [[] |].
Qed.
Lemma pass_loop_spec rounds stream changed refusal k k1 changed1 refusal1 : pass_loop rounds stream leader value changed refusal k = Some (k1, (changed1, refusal1)) ->
  (nice k !! leader = Some value -> nice k1 !! leader = Some value) /\
  (changed1 = false -> refusal1 = Ok tt -> changed = false /\ refusal = Ok tt /\ evolves (nice k) (nice k1) /\
    forall t x, thread_name t ∈ left_of k stream -> t <> leader -> nice k !! t = Some x -> x = value).
Proof.
  revert changed refusal k. induction rounds as [| rounds IH]; intros changed refusal k; [done |]. cbn [pass_loop]. destruct (p_readdir stream k) as [k2 [[name |] errno]] eqn:En; apply pl_next in En as (N1 & N2).
  - destruct (visit leader value name changed refusal k2) as [k3 [c3 r3]] eqn:Ev. apply visit_spec in Ev as (V1 & V2 & V3). intros Hgo. apply IH in Hgo as (G1 & G2).
    split; [intros Hl; apply G1, V2; by eapply evolves_keeps |]. intros Hc Hr. destruct (G2 Hc Hr) as (-> & -> & G3 & G4). destruct (V3 eq_refl eq_refl) as (-> & -> & V4 & V5).
    split_and!; try done; [eauto using evolves_trans |]. intros t x Hin Hl Hx. rewrite N2 in Hin. eapply evolves_keeps in Hx; [| exact N1]. apply elem_of_cons in Hin as [<- | Hin]; [by eapply V5 |].
    eapply evolves_keeps in Hx; [| exact V4]. eapply G4; [| done | exact Hx]. by rewrite V1.
  - destruct (errno =? EINTR).
    + intros Hgo. apply IH in Hgo as (G1 & G2). split; [intros Hl; apply G1; by eapply evolves_keeps |]. intros Hc Hr. destruct (G2 Hc Hr) as (-> & -> & G3 & G4).
      split_and!; try done; [eauto using evolves_trans |]. intros t x Hin Hl Hx. eapply evolves_keeps in Hx; [| exact N1]. eapply G4; [| done | exact Hx]. by rewrite N2.
    + intros [= <- <- <-]. split; [intros Hl; by eapply evolves_keeps |]. intros -> ->. split_and!; try done. intros t x Hin. rewrite N2 in Hin. by apply elem_of_nil in Hin.
Qed.
Lemma open_list_spec rounds k k1 r : open_list rounds (task_list leader) k = Some (k1, r) -> evolves (nice k) (nice k1) /\
  forall stream, r = Ok (Some stream) -> forall t x, nice k !! t = Some x -> thread_name t ∈ left_of k1 stream.
Proof.
  revert k. induction rounds as [| rounds IH]; intros k; [done |]. cbn [open_list]. destruct (p_opendir (task_list leader) k) as [k2 [stream | code]] eqn:Eo; apply pl_open in Eo as [O1 O2].
  - intros [= <- <-]. split; [done |]. intros ? [= <-]. by apply O2.
  - destruct (code =? EINTR).
    + intros [G1 G2]%IH. split; [by eapply evolves_trans |]. intros stream Hs t x Hx. eapply G2; [done |]. by eapply evolves_keeps.
    + intros [= <- <-]. split; [done |]. intros stream Hs. repeat case_match; done.
Qed.
(** The list of the threads can be had: [/proc] is mounted. *)
Definition listed : Prop := forall k k1 code, p_opendir (task_list leader) k = (k1, Err code) -> code <> ENOENT /\ code <> ENOTDIR /\ code <> ESRCH.
Lemma open_list_listed rounds k k1 : listed -> open_list rounds (task_list leader) k <> Some (k1, Ok None).
Proof.
  intros Hl. revert k. induction rounds as [| rounds IH]; intros k; [done |]. cbn [open_list]. destruct (p_opendir (task_list leader) k) as [k2 [stream | code]] eqn:Eo; [done |].
  destruct (code =? EINTR); [apply IH |]. apply Hl in Eo as (E1 & E2 & E3). apply Z.eqb_neq in E1, E2, E3. rewrite E1, E2, E3. cbn [orb]. by destruct (code =? ENOMEM).
Qed.
Lemma pass_spec rounds k k1 r : listed -> nice k !! leader = Some value -> pass rounds (task_list leader) leader value k = Returned k1 (Ok r) ->
  nice k1 !! leader = Some value /\ r <> None /\ (r = Some (false, Ok tt) -> forall t x, nice k1 !! t = Some x -> x = value).
Proof.
  intros Hlist Hl. unfold pass. destruct (open_list rounds (task_list leader) k) as [[k2 [[stream |] |]] |] eqn:Eo; try done; [| by apply open_list_listed in Eo].
  apply open_list_spec in Eo as (O1 & O2). destruct (pass_loop rounds stream leader value false (Ok tt) k2) as [[k3 [changed refusal]] |] eqn:Ep; [| done]. intros [= <- <-].
  apply pass_loop_spec in Ep as (P1 & P2). pose proof (pl_close stream k3) as Hc. split; [eapply evolves_keeps; [exact Hc |]; apply P1; by eapply evolves_keeps |]. split; [done |].
  intros [= -> ->]. destruct (P2 eq_refl eq_refl) as (_ & _ & P3 & P4). intros t x Hx. apply Hc in Hx as (t1 & Hx). apply P3 in Hx as (t2 & Hx). apply O1 in Hx as (t3 & Hx).
  destruct (decide (t3 = leader)) as [-> | Hne]; [congruence |]. eapply P4; [by eapply (O2 stream) | exact Hne | by eapply evolves_keeps].
Qed.
Lemma set_loop_reaches passes rounds k k1 : listed -> nice k !! leader = Some value -> set_loop passes rounds (task_list leader) leader value k = Returned k1 (Ok tt) ->
  forall t x, nice k1 !! t = Some x -> x = value.
Proof.
  intros Hlist. revert k. induction passes as [| passes IH]; intros k Hl; [done |]. cbn [set_loop]. intros [(k2 & r & Ep & Hgo) | (e & _ & ?)]%then_Returned; [| done].
  apply pass_spec in Ep as (P1 & P2 & P3); [| done | done]. destruct r as [[[] [[] | e]] |]; try done.
  - by apply (IH k2).
  - injection Hgo as <-. by apply P3.
Qed.
End Reach.
(** C31: once [set] has answered without an error, every thread that the process then has carries the value, whatever threads were started
    meanwhile and by whichever thread, as long as the list of the threads can be read and none ends during the call. *)
Theorem set_reaches_every_thread {K : Type} `{PriorityCalls K} (rounds : nat) (process leader value : Z) {L : PriorityLaws K leader} k k1 x : target process k = Ok leader ->
  listed leader -> nice (leader := leader) k !! leader = Some x -> set rounds process value k = Returned k1 (Ok tt) -> forall t v, nice (leader := leader) k1 !! t = Some v -> v = value.
Proof.
  intros Ht Hlist Hx. unfold set. rewrite Ht. destruct (write leader value k) as [k2 [[] | e]] eqn:Ew; [| done].
  apply (write_spec leader) in Ew as (_ & W1 & _). intros Hs. by eapply (set_loop_reaches leader value _ rounds k2); [| eapply W1 |].
Qed.

(** ** A process that starts threads while its list is read *)
Record Team := mkTeam { threads : gmap Z Z; names : list (list Z); starts : list (Z * Z) }.
Definition in_range (t : Z) : Prop := 0 <= t <= u32_max.
Definition members (k : Team) : gmap Z Z := filter (fun p : Z * Z => in_range p.1) (threads k).
(** The next pair: the first thread is started by the second. *)
Definition start (k : Team) : Team :=
  match starts k with
  | [] => k
  | (new, creator) :: rest =>
      match members k !! creator, members k !! new with
      | Some v, None => if bool_decide (in_range new) then mkTeam (<[new := v]> (threads k)) (names k) rest else mkTeam (threads k) (names k) rest
      | _, _ => mkTeam (threads k) (names k) rest
      end
  end.
Lemma start_evolves k : evolves (members k) (members (start k)).
Proof.
  unfold start. destruct (starts k) as [| [new creator] rest]; [done |]. destruct (members k !! creator) as [v |] eqn:Ec; [| done]. destruct (members k !! new) eqn:En; [done |].
  case_bool_decide as Hr; [| done]. assert (members (mkTeam (<[new := v]> (threads k)) (names k) rest) = <[new := v]> (members k)) as -> by (unfold members; cbn [threads]; by rewrite map_filter_insert_True).
  split; [by apply insert_subseteq |]. intros t x. destruct (decide (t = new)) as [-> | Hne]; [rewrite lookup_insert_eq; intros [= <-]; eauto | rewrite lookup_insert_ne by done; eauto].
Qed.
Lemma start_names k : names (start k) = names k.
Proof. unfold start. repeat case_match; done. Qed.
#[export] Instance team_calls : PriorityCalls Team := {|
  p_getpid k := 7;
  p_getpriority t k := (k, match members k !! t with Some v => (v, 0) | None => (-1, ESRCH) end);
  p_setpriority t v k := match members k !! t with Some _ => (mkTeam (<[t := v]> (threads k)) (names k) (starts k), Ok tt) | None => (k, Err ESRCH) end;
  p_opendir _ k := (mkTeam (threads k) (thread_name <$> (map_to_list (members k)).*1) (starts k), Ok 3);
  p_readdir _ k := match names k with
                   | [] => (k, (None, 0))
                   | name :: rest => let k := start k in (mkTeam (threads k) rest (starts k), (Some name, 0))
                   end;
  p_closedir _ k := k |}.
#[export] Instance team_laws : PriorityLaws Team 7.
Proof.
  refine {| nice := members; left_of k _ := names k |}.
  - intros t k k1 v errno [= <- E]. destruct (members k !! t) as [y |] eqn:Em; injection E as <- <-; split_and!; try done; by intros _ x [= <-].
  - intros t v k k1 r. cbn. destruct (members k !! t) as [y |] eqn:Em; intros [= <- <-]; [| done]. split; [done |].
    assert (in_range t) as Hr by (unfold members in Em; apply map_lookup_filter_Some in Em as [_ ?]; done).
    assert (members (mkTeam (<[t := v]> (threads k)) (names k) (starts k)) = <[t := v]> (members k)) as -> by (unfold members; cbn [threads]; by rewrite map_filter_insert_True).
    split; [by rewrite lookup_insert_eq |]. intros t' x Hne. by rewrite lookup_insert_ne.
  - intros k k1 r [= <- <-]. split; [done |]. intros stream _ t x Hx. cbn [names]. apply list_elem_of_fmap. exists t. split; [done |]. apply list_elem_of_fmap. exists (t, x). split; [done |]. by apply elem_of_map_to_list.
  - intros stream k k1 entry errno. cbn. destruct (names k) as [| name rest] eqn:En; intros [= <- <- <-]; [done |]. split; [apply start_evolves | done].
  - done.
  - intros k t x Hx. unfold members in Hx. by apply map_lookup_filter_Some in Hx as [_ ?].
Defined.
Definition team : Team := mkTeam {[7 := 0; 12 := 5]} [] [(13, 12); (14, 13)].
(** The second pass finds the threads that were started during the first, and the third that nothing is left to change. *)
Lemma set_reaches_every_thread_witness : exists k1, set 9 0 10 team = Returned k1 (Ok tt) /\ map_to_list (members k1) ≡ₚ [(7, 10); (12, 10); (13, 10); (14, 10)] /\
  forall t v, members k1 !! t = Some v -> v = 10.
Proof.
  destruct (set 9 0 10 team) as [k1 r | |] eqn:E; [| vm_compute in E; discriminate | vm_compute in E; discriminate]. assert (r = Ok tt) as -> by (vm_compute in E; by injection E).
  exists k1. split; [done |]. split; [vm_compute in E; injection E as <-; apply (bool_decide_unpack _); vm_compute; done |].
  refine (set_reaches_every_thread 9 0 7 10 team k1 0 eq_refl _ _ E); [by intros k k2 code ? | vm_compute; reflexivity].
Defined.
