(* ===== verification/LinuxLocal.v ===== *)
(** * LinuxLocal.v: local sockets and packet information of the Linux port

    [src/crates/dotnet-pal-linux/src/linux_local_sockets.rs] (module [Paths]) and [linux_packets.rs] (module [Arrivals]), both on the handles of
    [LinuxSockets].

    The theorems: a path that a socket was bound to is read back, and the socket is not bound again ([local_path_reads_back]);
    a peer's user is told only of a connection ([peer_user_of_connection]); and a datagram is described by the last record
    about it in the control data, which the front end passes on as it is ([arrival_passed_on]). *)
From S2P Require Import Prelude Port Front Console Machine Net Libc LinuxSockets.
Import Errno.
Local Open Scope Z_scope.
Local Open Scope pal_scope.

Module Paths.
(** [sockaddr_un]: the offset of the path, and its size. *)
Definition PATH : nat := 2.
Definition SUN_PATH : nat := 108.
Definition EROFS : Z := 30.
Definition EPROTOTYPE : Z := 91.
Definition SO_PEERCRED : Z := 17.
Definition native (path : list Z) : Result (list Z) := if Z.of_nat SUN_PATH <=? lenZ path then Err ENameTooLong else Ok (le_bytes PATH AF_UNIX ++ path ++ [0]).
Definition error (code : Z) : Error :=
  if code =? ENOENT then ENotFound else if (code =? EACCES) || (code =? EPERM) then EAccessDenied else if code =? ENOTDIR then ENotDirectory else
  if code =? EROFS then EReadOnly else if code =? ENAMETOOLONG then ENameTooLong else if code =? EADDRINUSE then EAddressInUse else
  if (code =? ECONNREFUSED) || (code =? EPROTOTYPE) then EConnectionRefused else if code =? EINPROGRESS then Port.EInProgress else
  if code =? EISCONN then EAlreadyConnected else if code =? ETIMEDOUT then ETimeout else if code =? EINVAL then EInvalidArgument else
  if (code =? ENOMEM) || (code =? ENOBUFS) then EOutOfMemory else EOs.
Section Provider.
Context {K : Type} {C : SocketCalls K} (rounds : nat).
(** The bytes of [sun_path] that the kernel used. *)
Definition named (fd : Z) (query : Z -> M K Z (list Z)) : Call (Net K) (list Z) :=
  let* r := call (query fd) in
  match r with Err code => refuse_with (if code =? ENOTCONN then ENotConnected else error code) | Ok raw => give (take SUN_PATH (drop PATH raw)) end.
Definition bind (socket : Z) (path : list Z) : Call (Net K) unit :=
  let* (fd, _) := local socket in
  let* raw := of_result (native path) in
  let* name := named fd c_getsockname in
  if negb (lenZ name =? 0) then refuse_with EInvalidArgument else
  let* r := call (c_bind fd raw) in
  match r with Ok _ => give tt | Err code => refuse_with (error code) end.
Definition connect (socket : Z) (path : list Z) : Call (Net K) unit :=
  let* (fd, _) := local socket in
  let* raw := of_result (native path) in
  let* r := retry rounds (c_connect fd raw) in
  match r with Ok _ => give tt | Err code => if code =? EAGAIN then waited rounds code fd else refuse_with (error code) end.
Definition address (socket : Z) (peer : bool) (capacity : Z) : Call (Net K) (Z * option (list Z)) :=
  let* (fd, _) := local socket in
  let* path := named fd (if peer then c_getpeername else c_getsockname) in
  let length := default (lenZ path) (Z.of_nat <$> byte_position 0 path) in
  if length =? 0 then refuse_with ENotFound else give (length + 1, if length <? capacity then Some (takeZ length path ++ [0]) else None).
Definition peer_user (socket : Z) : Call (Net K) Z :=
  let* (fd, stream) := local socket in
  if negb stream then refuse_with EUnsupported else
  let* _ := named fd c_getpeername in
  let* peer := get fd SOL_SOCKET SO_PEERCRED in
  if at_ peer 1 =? u32_max then refuse_with ENotConnected else give (at_ peer 1).
End Provider.
End Paths.

Module Arrivals.
Definition IP_PKTINFO : Z := 8.
Definition IPV6_PKTINFO : Z := 50.
(** A record of the control data. *)
Record Control := mkControl { level : Z; kind : Z; record : list Z }.
Class PacketCalls (K : Type) := { c_recvmsg : Z -> Z -> Z -> M K Z (Z * list Z * list Z * list Control) }.
Definition as_i32 (v : Z) : Z := if v <=? i32_max then v else v - 2 ^ 32.
Definition scoped (octets : list Z) (interface : Z) : Address :=
  let link := ((at_ octets 0 =? 254) && (Z.land (at_ octets 1) 192 =? 128)) || ((at_ octets 0 =? 255) && (Z.land (at_ octets 1) 15 =? 2)) in
  v6 octets 0 (if link then interface else 0).
(** [in_pktinfo]: the index, the local address, the destination. [in6_pktinfo]: the destination, the index. *)
Definition described (info : Info) (c : Control) : Info :=
  if (level c =? IPPROTO_IP) && (kind c =? IP_PKTINFO) then mkInfo (Z.max (as_i32 (of_le (take 4 (record c)))) 0) (v4 (take 4 (drop 8 (record c))) 0) else
  if (level c =? IPPROTO_IPV6) && (kind c =? IPV6_PKTINFO) then
    let index := of_le (take 4 (drop 16 (record c))) in mkInfo index (scoped (take 16 (record c)) index) else info.
Definition receive {K} {C : SocketCalls K} {P : PacketCalls K} (rounds : nat) (socket capacity flags : Z) : Call (Net K) (Z * option Address * Info * list Z) :=
  let* fd := packet socket in
  let* r := retry rounds (c_recvmsg fd capacity (if has flags RECEIVE_PEEK then MSG_PEEK else 0)) in
  match r with
  | Err code => waited rounds code fd
  | Ok (n, data, raw, control) => let* s := deref socket in give (n, sender s raw, foldl described info_default control, data)
  end.
End Arrivals.

(** ** Paths *)
Section Paths.
Context {K : Type} {C : SocketCalls K}.
Lemma local_handle (n : Net K) socket s : is_handle socket -> handles n !! socket = Some s -> s_local s = true -> local socket n = Returned n (Ok (s_fd s, s_stream s)).
Proof. intros Hh Hs Hl. unfold local, then_. rewrite (descriptor_handle n socket s), (deref_handle n socket s) by done. by rewrite Hl. Qed.
Lemma named_bound fd query path raw (n : Net K) : Paths.native path = Ok raw -> query fd (kernel n) = (kernel n, Ok raw) -> Paths.named fd query n = Returned n (Ok (path ++ [0])).
Proof.
  intros Hp Hq. unfold Paths.named, then_. rewrite (call_eq (query fd) n (kernel n) (Ok raw)) by done. rewrite with_kernel_id. unfold give.
  assert (take Paths.SUN_PATH (drop Paths.PATH raw) = path ++ [0]) as ->; [| done].
  unfold Paths.native in Hp. destruct (Z.leb_spec (Z.of_nat Paths.SUN_PATH) (lenZ path)) as [| Hlt]; [done |]. injection Hp as <-. change (drop Paths.PATH _) with (path ++ [0]).
  apply take_ge. rewrite length_app. unfold lenZ, Paths.SUN_PATH in *. cbn [length]. lia.
Qed.
Lemma first_nul path : Forall (fun b => b <> 0) path -> byte_position 0 (path ++ [0]) = Some (length path).
Proof. induction 1 as [| b path Hb Hp IH]; [done |]. cbn. apply Z.eqb_neq in Hb. by rewrite Hb, IH. Qed.
(** What a socket was bound to comes back. Once a bind to a path without a NUL has succeeded, in a kernel whose [getsockname] answers with the
    name that the socket was given, [address] tells the path, stored with its terminator when there is room; and every later
    bind is refused before the kernel is asked, so that the path of the socket stays the first one. *)
Theorem local_path_reads_back (n n1 : Net K) socket s path : is_handle socket -> handles n !! socket = Some s -> s_local s = true -> path <> [] -> Forall (fun b => b <> 0) path ->
  Paths.bind socket path n = Returned n1 (Ok tt) -> (forall raw, Paths.native path = Ok raw -> c_getsockname (s_fd s) (kernel n1) = (kernel n1, Ok raw)) ->
  (forall capacity, Paths.address socket false capacity n1 = Returned n1 (Ok (lenZ path + 1, if lenZ path <? capacity then Some (path ++ [0]) else None))) /\
  (forall other, Paths.bind socket other n1 = Returned n1 (Err (if 108 <=? lenZ other then ENameTooLong else EInvalidArgument))).
Proof.
  intros Hh Hs Hl Hne Hb Hbind Hk. unfold Paths.bind in Hbind. apply then_Returned in Hbind as [(n2 & [fd stream] & Hx & Hbind) | (e & _ & ?)]; [| done].
  rewrite (local_handle n socket s) in Hx by done. injection Hx as <- <- <-. apply then_Returned in Hbind as [(n2 & raw & Hx & Hbind) | (e & _ & ?)]; [| done]. unfold of_result in Hx. injection Hx as <- Hraw.
  assert (handles n1 = handles n) as Hh1.
  { apply then_Returned in Hbind as [(n2 & name & Hx & Hbind) | (e & _ & ?)]; [| done]. destruct (negb _); [done |].
    assert (handles n2 = handles n) as <- by (unfold Paths.named, then_, call in Hx; destruct (c_getsockname (s_fd s) (kernel n)) as [k []]; by injection Hx as <-).
    unfold then_, call in Hbind. destruct (c_bind (s_fd s) raw (kernel n2)) as [k []]; by injection Hbind as <-. }
  specialize (Hk raw Hraw). assert (local socket n1 = Returned n1 (Ok (s_fd s, s_stream s))) as Hlocal by (apply local_handle; (done || by rewrite Hh1)).
  pose proof (named_bound (s_fd s) c_getsockname path raw n1 Hraw Hk) as Hname. assert (lenZ path <> 0) as Hpos by (destruct path; [done | rewrite lenZ_cons; pose proof (lenZ_nonneg path); lia]). split.
  - intros capacity. unfold Paths.address, then_. rewrite Hlocal, Hname, first_nul by done. cbn [fmap option_fmap option_map default from_option id]. fold (lenZ path). apply Z.eqb_neq in Hpos. rewrite Hpos. unfold give, takeZ. do 3 f_equal.
    destruct (lenZ path <? capacity); [| done]. unfold lenZ. by rewrite Nat2Z.id, take_app_length.
  - intros other. unfold Paths.bind, then_. rewrite Hlocal. unfold of_result, Paths.native. change (Z.of_nat Paths.SUN_PATH) with 108. destruct (108 <=? lenZ other); [done |]. rewrite Hname, lenZ_app.
    destruct (Z.eqb_spec (lenZ path + lenZ [0]) 0) as [E | _]; [pose proof (lenZ_nonneg path); change (lenZ [0]) with 1 in E; lia | done].
Qed.
(** A user is told only of the peer of a connection: the socket is a local stream socket, the kernel has named its peer, and the id is one that a user can have. *)
Theorem peer_user_of_connection (n n1 : Net K) socket s user : is_handle socket -> handles n !! socket = Some s -> Paths.peer_user socket n = Returned n1 (Ok user) ->
  s_local s = true /\ s_stream s = true /\ user <> u32_max /\ exists raw k, c_getpeername (s_fd s) (kernel n) = (k, Ok raw).
Proof.
  intros Hh Hs. unfold Paths.peer_user, local, then_ at 1. unfold then_ at 1. rewrite (descriptor_handle n socket s) by done. unfold then_ at 1. rewrite (deref_handle n socket s) by done.
  destruct (s_local s); [| done]. unfold give at 1. destruct (s_stream s); [| done]. cbn [negb]. intros [(n2 & name & Hx & E) | (e & _ & ?)]%then_Returned; [| done].
  apply then_Returned in E as [(n3 & peer & _ & E) | (e & _ & ?)]; [| done]. destruct (Z.eqb_spec (at_ peer 1) u32_max); [done |]. injection E as _ <-. split_and!; try done.
  unfold Paths.named, then_, call in Hx. destruct (c_getpeername (s_fd s) (kernel n)) as [k [raw | code]]; [by exists raw, k | done].
Qed.
End Paths.

(** ** Arrivals *)
Definition about_packet (c : Arrivals.Control) : bool :=
  ((Arrivals.level c =? IPPROTO_IP) && (Arrivals.kind c =? Arrivals.IP_PKTINFO)) || ((Arrivals.level c =? IPPROTO_IPV6) && (Arrivals.kind c =? Arrivals.IPV6_PKTINFO)).
(** The kernel fills whole records. *)
Definition whole (c : Arrivals.Control) : Prop := about_packet c = true -> (12 <= length (Arrivals.record c))%nat.
Lemma described_passed info c : whole c -> about_packet c = true -> arrived_at (Arrivals.described info c) = Arrivals.described info c.
Proof.
  intros Hw Ha. specialize (Hw Ha). unfold about_packet in Ha. unfold Arrivals.described. destruct (_ && _) in Ha |- *; cbn [orb] in *.
  - unfold arrived_at, normalized. cbn [interface_index destination family port scope address v4]. change (IPV4 =? IPV4) with true. cbn. f_equal. unfold v4, fill_from. f_equal.
    assert (length (take 4 (drop 8 (Arrivals.record c))) = 4)%nat as Hlen by (rewrite length_take, length_drop; lia).
    rewrite <- Hlen at 1. rewrite take_app_length, length_app, Hlen. done.
  - rewrite Ha. done.
Qed.
Lemma described_last control info : exists skipped, (Forall (fun c => about_packet c = false) control /\ foldl Arrivals.described info control = info) \/
  (exists before c, control = before ++ c :: skipped /\ about_packet c = true /\ Forall (fun c => about_packet c = false) skipped /\ foldl Arrivals.described info control = Arrivals.described info_default c).
Proof.
  induction control as [| c control IH] using rev_ind; [exists []; by left |]. destruct IH as [skipped IH]. rewrite foldl_app. cbn [foldl]. destruct (about_packet c) eqn:Ea.
  - exists []. right. exists control, c. split_and!; try done. unfold about_packet in Ea. unfold Arrivals.described at 1 3. destruct (_ && _); [done |]. cbn [orb] in Ea. by rewrite Ea.
  - assert (forall i, Arrivals.described i c = i) as Hkeep by (intros i; unfold about_packet in Ea; apply orb_false_iff in Ea as [E1 E2]; unfold Arrivals.described; by rewrite E1, E2).
    exists (skipped ++ [c]). rewrite Hkeep. destruct IH as [[H1 H2] | (before & d & -> & H1 & H2 & H3)].
    + left. split; [apply Forall_app; split; [done | by constructor] | done].
    + right. exists before, d. rewrite <- (assoc_L (++)). split_and!; try done. apply Forall_app. split; [done | by constructor].
Qed.
Lemma retry_answer {K A} {C : SocketCalls K} rounds (m : M K Z A) (n n1 : Net K) a : retry rounds m n = Returned n1 (Ok (Ok a)) -> exists k k1, m k = (k1, Ok a).
Proof.
  revert n. induction rounds as [| rounds IH]; intros n; [done |]. cbn [retry]. unfold then_, call. destruct (m (kernel n)) as [k [b | code]] eqn:E.
  - intros [= <- <-]. eauto.
  - destruct (code =? EINTR); [apply IH | done].
Qed.
Lemma waited_fails {K A} {C : SocketCalls K} rounds code fd (n n1 : Net K) (a : A) : waited rounds code fd n <> Returned n1 (Ok a).
Proof.
  unfold waited. intros [(n2 & blocking & _ & E) | (e & _ & ?)]%then_Returned; [| done]. destruct blocking; [done |].
  apply then_Returned in E as [(n3 & x & _ & E) | (e & _ & ?)]; done.
Qed.
(** A datagram that was received is described by the last record about it in the control data that came with it, and by nothing when there is none; the
    front end hands that description to its caller without a change. *)
Theorem arrival_passed_on {K} {C : SocketCalls K} {P : Arrivals.PacketCalls K} rounds socket capacity flags (n n1 : Net K) len from info data :
  (forall fd cap fl k k1 a b d control, Arrivals.c_recvmsg fd cap fl k = (k1, Ok (a, b, d, control)) -> Forall whole control) ->
  Arrivals.receive rounds socket capacity flags n = Returned n1 (Ok (len, from, info, data)) ->
  arrived_at info = info /\ exists fd fl k k1 raw control, Arrivals.c_recvmsg fd capacity fl k = (k1, Ok (len, data, raw, control)) /\
    (Forall (fun c => about_packet c = false) control /\ info = info_default \/
     exists before c after, control = before ++ c :: after /\ about_packet c = true /\ Forall (fun c => about_packet c = false) after /\ info = Arrivals.described info_default c).
Proof.
  intros Hw E. unfold Arrivals.receive in E. apply then_Returned in E as [(n2 & fd & _ & E) | (e & _ & ?)]; [| done].
  apply then_Returned in E as [(n3 & r & Hr & E) | (e & _ & ?)]; [| done]. destruct r as [[[[a b] d] control] | code]; [| by apply waited_fails in E].
  apply then_Returned in E as [(n4 & s & _ & E) | (e & _ & ?)]; [| done]. injection E as _ -> _ Hinfo ->. apply retry_answer in Hr as (k & k1 & Hr). pose proof (Hw _ _ _ _ _ _ _ _ _ Hr) as Hall.
  destruct (described_last control info_default) as [after Hlast]. rewrite Hinfo in Hlast. split.
  - destruct Hlast as [[_ ->] | (before & c & -> & Ha & _ & ->)]; [done |]. apply described_passed; [| done]. by apply Forall_app in Hall as [_ [? _]%Forall_cons_1].
  - exists fd, (if has flags RECEIVE_PEEK then MSG_PEEK else 0), k, k1, d, control. split; [done |]. destruct Hlast as [? | (before & c & ? & ? & ? & ?)]; [by left | right; by exists before, c, after].
Qed.

(** ** On the toy kernel *)
Definition toy_local : Net Toy := with_handles {[8 := mkSocket 4 true true false 0]} toy_net.
Lemma toy_local_handle : is_handle 8 /\ handles toy_local !! 8 = Some (mkSocket 4 true true false 0).
Proof. split; [apply toy_handle | apply lookup_insert_eq]. Qed.
Lemma local_path_reads_back_witness : exists n1, Paths.bind 8 [47; 115] toy_local = Returned n1 (Ok tt) /\ Paths.address 8 false 9 n1 = Returned n1 (Ok (3, Some [47; 115; 0])) /\
  Paths.bind 8 [47; 116] n1 = Returned n1 (Err EInvalidArgument).
Proof.
  destruct (Paths.bind 8 [47; 115] toy_local) as [n1 r | |] eqn:E; [| vm_compute in E; discriminate | vm_compute in E; discriminate].
  assert (r = Ok tt) as -> by (vm_compute in E; by injection E). destruct toy_local_handle as [Hh Hs].
  destruct (local_path_reads_back toy_local n1 8 (mkSocket 4 true true false 0) [47; 115] Hh Hs eq_refl) as [H1 H2]; [discriminate | repeat constructor; discriminate | exact E | |].
  - intros raw [= <-]. vm_compute in E. injection E as <-. vm_compute. reflexivity.
  - exists n1. split; [done |]. exact (conj (H1 9) (H2 [47; 116])).
Defined.
#[export] Instance toy_packets : Arrivals.PacketCalls Toy := {| Arrivals.c_recvmsg fd capacity flags k :=
  (k, Ok (2, [104; 105], le_bytes 2 AF_INET ++ be16 53 ++ [10; 0; 0; 1] ++ replicate 8 0,
          [Arrivals.mkControl SOL_SOCKET 29 []; Arrivals.mkControl IPPROTO_IP Arrivals.IP_PKTINFO ([3; 0; 0; 0] ++ [10; 0; 0; 2] ++ [224; 0; 0; 251])])) |}.
Lemma arrival_passed_on_witness : exists n1 from info, Arrivals.receive 1 8 9 0 toy_net = Returned n1 (Ok (2, from, info, [104; 105])) /\ info = mkInfo 3 (v4 [224; 0; 0; 251] 0) /\ arrived_at info = info.
Proof.
  destruct (Arrivals.receive 1 8 9 0 toy_net) as [n1 [[[[len from] info] data] | e] | |] eqn:E; try (vm_compute in E; discriminate). assert (len = 2 /\ data = [104; 105] /\ info = mkInfo 3 (v4 [224; 0; 0; 251] 0)) as (-> & -> & Hi) by (vm_compute in E; by injection E as <- <- <- <- <-).
  exists n1, from, info. split; [done |]. split; [done |]. refine (proj1 (arrival_passed_on 1 8 9 0 toy_net n1 2 from info [104; 105] _ E)).
  intros fd cap fl k k1 a b d control [= <- <- <- <- <-]. constructor; [intros ?; discriminate |]. constructor; [intros _; simpl; lia | constructor].
Defined.
