(* ===== verification/LinuxMappings.v ===== *)
(** * LinuxMappings.v: mapped files of the Linux port

    [src/crates/dotnet-pal-linux/src/linux_mappings.rs], on the file handles of [LinuxFiles]; the memory of a mapping is the kernel's.

    The theorems: a mapping is asked for exactly once, on the descriptor of the handle, with the protection that the access names
    ([mapping_asked_exactly]); and what the provider answers is what the front end passes on, but for the one answer to
    [unmap] that it reports as a failure of the system ([mapping_statuses_published]). *)
From S2P Require Import Prelude Port Libc Front FilesApi Native LinuxMemory LinuxFiles.
Import Errno.
Local Open Scope Z_scope.
Local Open Scope pal_scope.

Definition MAP_SHARED : Z := 1.
Definition MAP_PRIVATE : Z := 2.
Definition EOVERFLOW : Z := 75.
Class MapCalls (K : Type) := { f_mmap : Z -> Z -> Z -> Z -> Z -> M K Z Z; f_munmap : Z -> Z -> M K Z unit; f_msync : Z -> Z -> M K Z unit }.

Section Provider.
Context {K : Type} {C : FileCalls K} {Mc : MapCalls K}.
Definition is_directory (fd : Z) : Call (Desk K) bool :=
  let* r := once (c_fstat fd) in give (match r with Ok s => Z.land (s_mode s) S_IFMT =? S_IFDIR | Err _ => false end).
Definition protection (access : Z) : Z :=
  Z.lor (Z.lor (if has access LinuxMemory.READ then PROT_READ else 0) (if has access LinuxMemory.WRITE then PROT_WRITE else 0)) (if has access LinuxMemory.EXECUTE then PROT_EXEC else 0).
Definition map (file offset length access : Z) (shared : bool) : Call (Desk K) Z :=
  let* fd := descriptor file in
  let* offset := of_result (position offset) in
  let* r := once (f_mmap length (protection access) (if shared then MAP_SHARED else MAP_PRIVATE) fd offset) in
  match r with
  | Ok address => give address
  | Err code =>
      if (code =? EACCES) || (code =? EPERM) then refuse_with EAccessDenied else if code =? ENOMEM then refuse_with EOutOfMemory else
      if (code =? EINVAL) || (code =? EOVERFLOW) || (code =? EBADF) then refuse_with EInvalidArgument else
      if code =? ENODEV then let* d := is_directory fd in refuse_with (if (d : bool) then EInvalidArgument else EUnsupported) else refuse_with EOs
  end.
Definition unmap_error (code : Z) : Error := if code =? EINVAL then EInvalidArgument else if code =? ENOMEM then EOutOfMemory else EOs.
Definition unmap (address length : Z) : Call (Desk K) unit :=
  let* r := once (f_munmap address length) in match r with Ok _ => give tt | Err code => refuse_with (unmap_error code) end.
Fixpoint sync (rounds : nat) (address length : Z) : Call (Desk K) unit :=
  match rounds with
  | O => fun _ => Waiting
  | S rounds =>
      let* r := once (f_msync address length) in
      match r with Ok _ => give tt | Err code => if code =? EINTR then sync rounds address length else refuse_with (if (code =? EINVAL) || (code =? ENOMEM) then EInvalidArgument else EOs) end
  end.
End Provider.

(** ** What is asked *)
Lemma protection_exact access : 0 <= access < 8 -> protection access = access.
Proof.
  intros Ha. assert (access ∈ [0; 1; 2; 3; 4; 5; 6; 7]) as Hin by (assert (access = 0 \/ access = 1 \/ access = 2 \/ access = 3 \/ access = 4 \/ access = 5 \/ access = 6 \/ access = 7) by lia; set_solver).
  rewrite !elem_of_cons, elem_of_nil in Hin. by repeat destruct Hin as [-> | Hin].
Qed.
(** A mapping that was handed out is the kernel's answer to one question: for the descriptor of the handle, the offset and the length of the caller, and the
    protection of the same three bits as the access; the handles are as before. An offset that the kernel's type cannot hold is refused without a question. *)
Theorem mapping_asked_exactly {K} {C : FileCalls K} {Mc : MapCalls K} file offset length access shared (n n1 : Desk K) r : 0 <= access < 8 -> map file offset length access shared n = Returned n1 r ->
  files n1 = files n /\ (i64_max < offset -> n1 = n /\ r = Err EInvalidArgument) /\
  forall address, r = Ok address -> exists fd, files n !! file = Some fd /\ offset <= i64_max /\ f_mmap length access (if shared then MAP_SHARED else MAP_PRIVATE) fd offset (d_os n) = (d_os n1, Ok address).
Proof.
  intros Ha. unfold map, then_ at 1, descriptor. destruct (_ || _); [by intros [= <- <-] |]. destruct (files n !! file) as [fd |] eqn:Ef; [| done]. unfold then_ at 1, of_result, position.
  destruct (Z.leb_spec offset i64_max); [| by intros [= <- <-]]. unfold then_ at 1, once at 1. rewrite protection_exact by done.
  destruct (f_mmap length access _ fd offset (d_os n)) as [k [address | code]] eqn:Em.
  - intros [= <- <-]. cbn. split; [done |]. split; [lia |]. intros ? [= <-]. eauto.
  - assert (forall e, Returned (A := Z) (put_os k n) (Err e) = Returned n1 r -> files n1 = files n /\ forall address, r <> Ok address) as Hfail by (intros e [= <- <-]; done).
    intros E. enough (files n1 = files n /\ forall address, r <> Ok address) as [H1 H2] by (split; [done |]; split; [lia |]; intros address Hr; by apply H2 in Hr).
    repeat (case_match; [by apply Hfail in E |]). destruct (code =? ENODEV); [| by apply Hfail in E].
    unfold then_, is_directory, then_, once in E. destruct (c_fstat fd (d_os (put_os k n))) as [k2 x]. unfold give, refuse_with in E. injection E as <- <-. done.
Qed.
Lemma refusals_kept : Forall (fun e => mappings_keeps 0 (status_of e) = true) [EInvalidArgument; EAccessDenied; EOutOfMemory; EUnsupported; EOs] /\
  Forall (fun e => mappings_keeps 1 (status_of e) = true /\ mappings_keeps 2 (status_of e) = true) [EInvalidArgument; EUnsupported; EOs].
Proof. split; repeat constructor. Qed.
Lemma map_error {K} {C : FileCalls K} {Mc : MapCalls K} file offset length access shared (n n1 : Desk K) e : map file offset length access shared n = Returned n1 (Err e) ->
  e ∈ [EInvalidArgument; EAccessDenied; EOutOfMemory; EUnsupported; EOs].
Proof.
  unfold map, then_ at 1, descriptor. destruct (_ || _); [intros [= _ <-]; set_solver |]. destruct (files n !! file) as [fd |]; [| done]. unfold then_ at 1, of_result, position.
  destruct (offset <=? i64_max); [| intros [= _ <-]; set_solver]. unfold then_ at 1, once at 1. destruct (f_mmap _ _ _ _ _ _) as [k [address | code]]; [done |].
  unfold refuse_with. repeat (case_match; [by intros [= _ <-]; set_solver |]). destruct (code =? ENODEV); [| intros [= _ <-]; set_solver].
  unfold then_, is_directory, then_, once, give. destruct (c_fstat fd (d_os (put_os k n))) as [k2 x]. intros [= _ <-]. case_match; set_solver.
Qed.
Lemma sync_error {K} {C : FileCalls K} {Mc : MapCalls K} rounds address length (n n1 : Desk K) e : sync rounds address length n = Returned n1 (Err e) -> e ∈ [EInvalidArgument; EUnsupported; EOs].
Proof.
  revert n. induction rounds as [| rounds IH]; intros n; [done |]. cbn [sync]. unfold then_, once. destruct (f_msync address length (d_os n)) as [k [[] | code]]; [done |].
  destruct (code =? EINTR); [apply IH |]. unfold refuse_with. intros [= _ <-]. destruct (_ || _); set_solver.
Qed.
(** Every status of [map] and of [sync] is one that the front end publishes for the call, and so is every one of [unmap] except the one for a process that has as many mappings as
    it may, which the front end does not publish and its caller meets as a failure of the system. *)
Theorem mapping_statuses_published {K} {C : FileCalls K} {Mc : MapCalls K} rounds file offset length access shared address (n n1 : Desk K) :
  (forall r, map file offset length access shared n = Returned n1 r -> mappings_keeps 0 (Port.status r) = true) /\
  (forall r, sync rounds address length n = Returned n1 r -> mappings_keeps 2 (Port.status r) = true) /\
  (forall r, unmap address length n = Returned n1 r -> mappings_keeps 1 (Port.status r) = true \/ f_munmap address length (d_os n) = (d_os n1, Err ENOMEM) /\ Port.status r = OUT_OF_MEMORY).
Proof.
  destruct refusals_kept as [Hmap Hrest]. rewrite !Forall_forall in Hmap, Hrest. split_and!; intros [a | e] E; try done.
  - by apply Hmap, (map_error _ _ _ _ _ _ _ _ E).
  - by apply Hrest, (sync_error _ _ _ _ _ _ E).
  - by left.
  - unfold unmap, then_, once in E. destruct (f_munmap address length (d_os n)) as [k [[] | code]]; [done |]. unfold refuse_with, unmap_error in E. destruct (code =? EINVAL); [injection E as <- <-; by left |].
    destruct (Z.eqb_spec code ENOMEM) as [Hc |]; injection E as <- <-; [right; by rewrite Hc | by left].
Qed.

(** ** A kernel that maps at one address *)
Import FilesSample.
#[export] Instance map_calls : MapCalls Files1 := {| f_mmap length prot flags fd offset k := (k, if fd =? 3 then Ok 4096 else Err EBADF); f_munmap address length k := (k, Err ENOMEM); f_msync address length k := (k, Ok tt) |}.
Lemma mapping_asked_exactly_witness : exists n1 fd, map 16 0 4096 3 true desk = Returned n1 (Ok 4096) /\ files desk !! 16 = Some fd /\ f_mmap 4096 3 MAP_SHARED fd 0 (d_os desk) = (d_os n1, Ok 4096).
Proof.
  assert (0 <= 3 < 8) as Ha by lia. assert (map 16 0 4096 3 true desk = Returned desk (Ok 4096)) as E by (vm_compute; reflexivity).
  destruct (mapping_asked_exactly 16 0 4096 3 true desk desk (Ok 4096) Ha E) as (_ & _ & Hgo). destruct (Hgo 4096 eq_refl) as (fd & Hfd & _ & Hm). exists desk, fd. split; [exact E |]. split; [exact Hfd | exact Hm].
Defined.
(** The exception of [mapping_statuses_published] is one that a kernel can answer. *)
Example unmap_unpublished : exists n1 r, unmap 4096 4096 desk = Returned n1 r /\ mappings_keeps 1 (Port.status r) = false.
Proof. exists desk, (Err EOutOfMemory). split; vm_compute; reflexivity. Qed.
